(* ===== verification/_CoqProject ===== *)
-Q . S2P
Prelude.v
JsString.v
JsNumber.v
JsNumberFacts.v
JsNumberOrder.v
JsNumberExact.v
JsObject.v
JsMap.v
JsRegex.v
JsValue.v
JsJson.v
JsJsonPrint.v
JsDynamic.v
JsURL.v
JsHost.v
JsCoerce.v
ExprTypes.v
ExprParser.v
ExprParserFacts.v
ExprCompile.v
ExprCompileFacts.v
ExprRuntime.v
ExprRuntimeFacts.v
ExprRuntimeSim.v
ExprGuarantees.v
ExprStructure.v
ExprStructureFacts.v
ExprPrint.v
ExprGrammar.v
ExprAccept.v
ExprDisplay.v
ExprDisplayFacts.v
ExprVisual.v
ExprVisualFacts.v
ExprCondition.v
ExprConditionFacts.v
StatusRules.v
AuthStore.v
AuthSession.v
AuthSessionFacts.v
TierExpr.v
TierParse.v
TierParseFacts.v
HttpClient.v
HttpClientFacts.v
RequestRules.v
RequestRulesFacts.v
PricingTiers.v
TaskExpr.v
TaskExprFacts.v
TaskMatrixFacts.v
TenantStorage.v
OAuth.v
OAuthFacts.v
FlowGraph.v
FlowGraphFacts.v
FlowConservation.v
FlowMasking.v
ServerErrors.v
ServerErrorsFacts.v
AdvancedCustom.v
AdvancedCustomFacts.v
NavModules.v
NavGuards.v
NavFacts.v
PlaygroundMessages.v
PlaygroundStream.v
PlaygroundStreamFacts.v
PlaygroundChatFacts.v
PlaygroundTextFacts.v
PlaygroundStorage.v
PlaygroundStorageFacts.v
PlaygroundOptions.v
ParamOverride.v
ParamOverrideFacts.v
ParamOverrideText.v
ChannelForm.v
ChannelFormFacts.v
ChannelLists.v
ChannelListsFacts.v
