(* ===== verification/Prelude.v ===== *)
(** * Verification of the New API web client

    New API is a gateway for language-model providers: a Go server and a
    TypeScript/React client.  This library models the client's own core logic
    and proves it correct: the billing expression language with its editors and
    price summaries, the login session with the API client built on it, the
    guards of the pages, the form of a channel with the routes of custom
    channels and the editor of parameter overrides, the playground with its
    streamed answers and stored conversations, the presentation of server
    errors and the flow diagram of the dashboard.

    ** The program and where it is modelled

    Billing expressions ([web/src/features/pricing/lib/billing-expression]).
    An administrator prices a model by an expression such as
    [len <= 200000 ? tier("std", p * 3 + c * 15) : tier("long", p * 6)].
    - [ExprTypes]: types.ts.  [ExpressionNode] is the AST with source spans;
      [visitExpression] the bounded traversal; [expressionDependencies].
    - [ExprParser]: the lexer and Pratt parser of parser.ts ([next],
      [expression], [primary], [parse]); [ExprCompile]: its type checker,
      fixed-price validation, rule sites, and the compilation cache
      ([checkExpressionTypes], [validateFixedPricingTree],
      [compileBillingExpression], the cache passed explicitly).
    - [ExprRuntime]: runtime.ts.  The class BillingRuntime is a state monad
      over [rt_state] (matched tier, billing unit, fixed price, rule trace,
      time cache); [evaluate] is its recursive method, [run_node] and
      [evaluateBillingExpression] the entry points.
    - [ExprStructure]: structure.ts (top-level splitting, parentheses).
    - [ExprDisplay]: display.ts (token, time and task tier summaries).
    - [ExprVisual]: visual.ts (the document editor and its source patches).
    - [ExprCondition]: condition-display.ts (conditions as text).

    Editors on top of them ([web/src/features/pricing/lib]).
    - [TierExpr]: the generator and estimator of tier-expr.ts and the variable
      registry of billing-expr.ts; [TierParse]: the reader of tier-expr.ts,
      whose regular expressions are matched by the backtracking matcher of
      [JsRegex].
    - [RequestRules]: the request rules of billing-expr.ts (reading, printing,
      splitting and combining); [PricingTiers]: the tiers shown on the pricing
      pages and breakdown-tier-match.ts.
    - [TaskExpr]: task-expr.ts and task-matrix-display.ts.
    - [ExprPrint], [ExprGrammar], [ExprAccept]: printed forms of expressions
      and that the parser accepts them, used by the round trips.

    Login ([web/src/lib], [web/src/stores], [web/src/features/auth/lib]).
    - [AuthStore]: stores/auth-store.ts and the run-time type guards of
      lib/auth-session.ts.
    - [AuthSession]: lib/auth-session.ts, lib/session-hint.ts and the event
      logic of lib/auth-session-sync.ts.  Asynchronous functions are cut at
      their awaits; [step] is the transition system of everything that can
      happen to the session, with any interleaving.
    - [HttpClient]: lib/http-client.ts (shared GET requests, interceptors).
    - [TenantStorage]: lib/tenant.ts (storage and addresses per workspace).
    - [OAuth]: oauth-callback-mode.ts, oauth-popup.ts, oauth-bind-window.ts;
      [popup_step] is the life of a sign-in window under browser events.
    - [NavModules]: lib/roles.ts, lib/admin-permissions.ts,
      lib/nav-modules.ts; [NavGuards]: the beforeLoad guards of web/src/routes,
      lib/legacy-route.ts and auth-redirect.ts, with [navigate] following the
      redirects from page to page.

    Playground ([web/src/features/playground]).
    - [PlaygroundMessages]: lib/message, types.ts and the payload builder: the
      messages and every function that changes one.
    - [PlaygroundStream]: lib/streaming and the hooks use-stream-request.ts,
      use-chat-handler.ts and use-playground-conversation.ts.  The controller
      of the event sources is defined for any callbacks ([StreamCallbacks]);
      [chat_step] is the page under everything that can happen, in any order,
      with the updates React has still to run as a queue.
    - [PlaygroundStorage]: lib/storage, lib/state and use-playground-state.ts;
      [playground_step] loads once, saves after a delay and on leaving.
    - [PlaygroundOptions]: lib/options, lib/input, lib/parameters.

    Other parts.
    - [ServerErrors]: lib/server-error-message.ts, handle-server-error.ts and
      the errors of secure-verification.ts, over a heap of error objects.
    - [AdvancedCustom]: features/channels/lib/advanced-custom.ts.
    - [ParamOverride]: the dialog param-override-editor-dialog.tsx of the
      channels; [dialog_action] is what the user can do in it.
    - [ChannelForm]: features/channels/lib/channel-form.ts,
      channel-form-errors.ts, channel-configuration.ts and
      upstream-update-utils.ts: the checks of the form, and the channel as the
      form shows it and as the form sends it.
    - [ChannelLists]: features/channels/lib/channel-utils.ts,
      model-mapping-validation.ts, status-code-risk-guard.ts,
      task-plugin-base-url.ts, channel-field-update.ts, multi-key-utils.ts and
      ollama-utils.ts; [field_step] is the life of an edited cell.
    - [FlowGraph]: features/dashboard/lib/flow.ts.
    - [StatusRules]: lib/http-status-code-rules.ts.

    JavaScript itself: [JsString] (UTF-16 strings), [JsNumber] (binary64
    numbers, their parsing and shortest printing, with facts in
    [JsNumberFacts], [JsNumberOrder], [JsNumberExact]), [JsValue], [JsDynamic]
    (operators on values of any type), [JsCoerce] (conversions to numbers and
    texts), [JsObject] and [JsMap] (ordered
    properties and maps),
    [JsRegex], [JsJson] and [JsJsonPrint] (whatever is parsed prints, and is read
    back), [JsURL], [JsHost].  The present file holds outcomes, loops, tactics and list lemmas.

    ** What the theorems show

    - [ExprGuarantees]: parsing, compiling and evaluating always end; the AST
      covers the source with properly nested spans; a compiled expression
      lists exactly its variables, functions and rules; the cache never
      changes a result; a compiled expression cannot go wrong on types; an
      evaluation reads only the listed dependencies; reported costs are finite
      and non-negative; the time cache is transparent; request paths read the
      keys they spell.
    - [ExprDisplayFacts]: refinement of the evaluator: the tier a summary
      selects is the tier the evaluator charges, for token, time and task
      pricing.
    - [ExprVisualFacts]: opening and saving a document is the identity on the
      source; patches splice; what is saved compiles.
    - [TierParseFacts], [RequestRulesFacts], [TaskExprFacts],
      [TaskMatrixFacts]: what the editors print they read back, for tiers,
      request rules, task tiers and task matrices; splitting an expression
      from its rules undoes combining them.
    - [ExprStructureFacts], [ExprConditionFacts], [StatusRules]: splitting is
      lossless, described ranges contain exactly the admitted values, rule
      texts normalise idempotently to sorted disjoint ranges.
    - [AuthSessionFacts]: a refresh ends after at most eight requests, leaves
      the state its outcome names, and has no effect once a sign-in or
      sign-out has overtaken it; stored sessions always passed the guards;
      rotation keeps the identity; headers carry usable tokens; a missing
      hint only postpones the check; events reach other tabs only.
    - [HttpClientFacts]: requests are replayed at most once, single-use
      requests never; GET requests are shared within one session only.
    - [TenantStorage], [OAuthFacts]: the storage of a workspace behaves as a
      storage of its own; a sign-in window succeeds only by the message of its
      own flow, and always releases its listeners.
    - [NavFacts]: chains of redirects between pages end; a page is shown
      exactly to those who may see it.
    - [PlaygroundStreamFacts]: the callbacks of a request are called as the
      caller relies on, whatever the event source does: updates, then at most one
      end, and nothing once another request has begun.
    - [PlaygroundChatFacts]: an answer is waited for only in the last message
      and only while the page shows it; [PlaygroundTextFacts]: the text of an
      answer is the text that was streamed, however its chunks are flushed.
    - [PlaygroundStorageFacts]: a conversation within the limits is read back as
      it was saved; an interrupted one is settled and bounded when it is read; the page does not
      overwrite a conversation it has not read and leaves none unsaved.
    - [ServerErrorsFacts]: the search for the sources of an error ends and
      finds exactly the reachable ones; an error that hides its details is shown
      by its own code and message, a failure of the server by a text of the client.
    - [AdvancedCustomFacts]: the validation accepts exactly the configurations
      of a declarative specification; printing and reading agree; edits of the
      management routes keep a configuration valid.
    - [ParamOverrideFacts]: identifiers stay distinct, the selection is a listed
      operation, moving keeps the operations; [ParamOverrideText]: what is saved
      is JSON, and opens again with the operations that were saved (values given
      as quoted texts excepted).
    - [ChannelFormFacts]: an edited channel opens again as the form that was
      saved; settings the form does not manage are kept, those of other
      channel types are removed, but for the settings of upstream model updates,
      which stay where the type's models cannot be listed.
    - [ChannelListsFacts]: the rows grouped by tag hold and summarise every
      channel; the last value typed into a cell is sent; missing models, risky
      redirects and deduplicated keys are exact.
    - [FlowGraphFacts], [FlowConservation], [FlowMasking]: the diagram is
      layered, every column carries the whole flow, columns are bounded, masked
      labels reveal no name, the filters select what they say.

    ** Fuel and bounds

    Loops without a structural argument take fuel, and the totality theorems
    show that the entry points pass enough: the parser 4 * length + 8
    ([parse_terminates]), the traversal the size of the tree
    ([compile_terminates]), descriptions the size of the node
    ([describe_terminates]), searches and splits of a text its length and one
    more, the sources of an error two and three times the size of the heap
    ([sources_exact]), a navigation eight steps ([navigation_terminates]).
    The limits of the source (expression length, 10000 tokens, parser depth
    128, traversal and evaluation depth 256, 128 cache entries, 128 levels of
    JSON) are part of the definitions.  Numbers are binary64; counters that
    stay far below 2^53 are integers.

    ** Parameters

    Code outside the repository is a parameter: [JSHost] (lower-casing beyond
    ASCII, the clock, time zone data), [URLHost] (the URL constructor), the
    display names and the translation function in [ExprCondition], Axios header
    objects and the lock manager in [HttpClient] and [AuthSession], collation
    in [FlowGraph] and [ChannelLists], number formats in [FlowGraph], the library predicates of
    [ServerErrors] and the texts it turns objects into, the router's addresses in [NavGuards], the schema library
    [Zod], the parts of an address in [ChannelForm] and [ChannelLists], the identifiers
    and the clock of the playground and of the override dialog.  Network, timers,
    event sources, React's queue and locks answer as explicit inputs of the transition systems.

    ** Not modelled

    The Go server, React components, translations, plugins and desktop shell:
    rendering, generated code or another language.  Of the client's libraries,
    dynamic-price.ts, price.ts and currency.ts and the drawer that renders the
    channel form are left out: they present what the modelled parts compute. *)

From Stdlib Require Import ZArith Lia Bool.
From stdpp Require Import base list numbers.

(** ** Outcomes of JavaScript computations

    A modelled function that can throw returns an [outcome]: a value, the
    thrown value, or [OutOfFuel] when the fuel that stands for an unbounded
    loop was used up.  Totality theorems show that the last case does not
    happen for the fuel the entry points pass. *)

Inductive outcome (E A : Type) : Type :=
| Ok (a : A)
| Throw (e : E)
| OutOfFuel.
Arguments Ok {E A} _.
Arguments Throw {E A} _.
Arguments OutOfFuel {E A}.

Definition obind {E A B} (m : outcome E A) (k : A -> outcome E B) : outcome E B :=
  match m with
  | Ok a => k a
  | Throw e => Throw e
  | OutOfFuel => OutOfFuel
  end.

Declare Scope js_scope.
Delimit Scope js_scope with js.
Open Scope js_scope.

Notation "'let*' x ':=' m 'in' k" := (obind m (fun x => k))
  (at level 200, x pattern, m at level 100, k at level 200, right associativity)
  : js_scope.
Notation "m ';;;' k" := (obind m (fun _ => k))
  (at level 199, k at level 200, right associativity) : js_scope.

Section Loops.
Context {E A B : Type}.

(** A [for ... of] loop whose body may throw. *)
Section Fold.
Variable f : A -> B -> outcome E A.
Fixpoint ofold (a : A) (l : list B) : outcome E A :=
  match l with
  | [] => Ok a
  | x :: l' => let* a' := f a x in ofold a' l'
  end.
End Fold.

(** [Array.prototype.map] with a body that may throw. *)
Section Map.
Variable f : A -> outcome E B.
Fixpoint omap_list (l : list A) : outcome E (list B) :=
  match l with
  | [] => Ok []
  | x :: l' => let* y := f x in let* ys := omap_list l' in Ok (y :: ys)
  end.
End Map.
End Loops.

(** ** Tactics *)

(** Split every [obind] hypothesis that is known to succeed. *)
Ltac inv_bind :=
  repeat match goal with
  | H : obind ?m _ = Ok _ |- _ =>
      let E := fresh "E" in
      destruct m as [?| |] eqn:E; cbn [obind] in H; try discriminate H
  | H : Ok _ = Ok _ |- _ => injection H as H; try subst
  | H : Throw _ = Ok _ |- _ => discriminate H
  | H : OutOfFuel = Ok _ |- _ => discriminate H
  | p : (_ * _)%type |- _ => destruct p
  end.

(** Case analysis on the innermost condition a hypothesis is stuck on. *)
Ltac inv_case H :=
  repeat match type of H with
  | (if ?b then _ else _) = _ =>
      let E := fresh "C" in destruct b eqn:E; try discriminate H
  | match ?x with _ => _ end = _ =>
      let E := fresh "C" in destruct x eqn:E; try discriminate H
  end.

Ltac split_andb :=
  repeat match goal with
  | H : _ && _ = true |- _ => apply andb_true_iff in H; destruct H
  | H : _ || _ = false |- _ => apply orb_false_iff in H; destruct H
  | H : negb _ = true |- _ => apply negb_true_iff in H
  | H : negb _ = false |- _ => apply negb_false_iff in H
  | H : bool_decide _ = true |- _ => apply bool_decide_eq_true_1 in H
  | H : bool_decide _ = false |- _ => apply bool_decide_eq_false_1 in H
  end.

(** Decide a closed goal by computation. *)
Ltac vm_decide := apply (bool_decide_unpack _); vm_compute; exact I.

(** ** Generic facts on outcomes *)

Section OutcomeFacts.
Context {E : Type}.

Lemma ofold_app {A B} (f : A -> B -> outcome E A) a l1 l2 :
  ofold f a (l1 ++ l2) = let* a' := ofold f a l1 in ofold f a' l2.
Proof.
  revert a; induction l1 as [|x l1 IH]; intros a; simpl; [done|].
  destruct (f a x); simpl; auto.
Qed.

Lemma obind_assoc {A B C} (m : outcome E A) (f : A -> outcome E B)
    (g : B -> outcome E C) :
  obind (obind m f) g = obind m (fun a => obind (f a) g).
Proof. by destruct m. Qed.

(** A property preserved by each iteration holds after the loop. *)
Lemma ofold_inv {A B} (P : A -> Prop) (f : A -> B -> outcome E A) a l a' :
  P a ->
  (forall b x b', x ∈ l -> P b -> f b x = Ok b' -> P b') ->
  ofold f a l = Ok a' -> P a'.
Proof.
  revert a; induction l as [|x l IH]; intros a Ha Hf Hl; simpl in Hl.
  - by injection Hl as <-.
  - inv_bind. eapply (IH a0); [| |done].
    + eapply Hf; [|exact Ha|exact E0]. by left.
    + intros b y b' Hy. apply Hf. by right.
Qed.

Lemma omap_list_Forall2 {A B} (f : A -> outcome E B) l ys :
  omap_list f l = Ok ys <-> Forall2 (fun x y => f x = Ok y) l ys.
Proof.
  revert ys; induction l as [|x l IH]; intros ys; simpl.
  - split; [intros [= <-]; constructor|by inversion 1].
  - split.
    + intros H. inv_bind. constructor; [done|]. by apply IH.
    + inversion 1; subst. rewrite H2; simpl.
      apply IH in H4. by rewrite H4.
Qed.
End OutcomeFacts.

(** ** List segments

    [slice_nat l a b] is the segment of positions [a .. b-1]; the source's
    [String.prototype.slice] with in-range arguments. *)

Definition slice_nat {A} (l : list A) (a b : nat) : list A :=
  take (b - a) (drop a l).

Section SliceFacts.
Context {A : Type}.
Implicit Types l : list A.

Lemma slice_nat_full l : slice_nat l 0 (length l) = l.
Proof. unfold slice_nat. rewrite drop_0, Nat.sub_0_r. apply firstn_all. Qed.

Lemma length_slice_nat l a b :
  length (slice_nat l a b) = Nat.min (b - a) (length l - a).
Proof. unfold slice_nat. by rewrite length_take, length_drop. Qed.

(** Adjacent segments concatenate. *)
Lemma slice_nat_app l a b c :
  a <= b -> b <= c -> slice_nat l a b ++ slice_nat l b c = slice_nat l a c.
Proof.
  intros Hab Hbc. unfold slice_nat.
  replace (c - a) with ((b - a) + (c - b)) by lia.
  rewrite <- take_take_drop, drop_drop.
  do 3 f_equal. lia.
Qed.

(** A segment of a segment. *)
Lemma slice_nat_slice l a b i j :
  a <= b -> i <= j -> j <= b - a ->
  slice_nat (slice_nat l a b) i j = slice_nat l (a + i) (a + j).
Proof.
  intros. unfold slice_nat.
  rewrite skipn_firstn_comm, drop_drop, take_take.
  f_equal. lia.
Qed.

Lemma slice_nat_from_0 l b : slice_nat l 0 b = take b l.
Proof. unfold slice_nat. by rewrite drop_0, Nat.sub_0_r. Qed.

Lemma slice_nat_to_end l a : slice_nat l a (length l) = drop a l.
Proof.
  unfold slice_nat. apply take_ge. by rewrite length_drop.
Qed.
End SliceFacts.

Create HintDb outcome.
#[export] Hint Rewrite @ofold_app @obind_assoc : outcome.
