(* ===== verification/JsString.v ===== *)
(** * JavaScript strings

    A JavaScript string is a sequence of UTF-16 code units, here [list N].
    The operations below are the parts of [String.prototype], of the regular
    expression character classes and of [JSON.stringify] that the modelled
    sources use.  None of them maps to a line of the repository: they are the
    language's own library. *)

From Stdlib Require Import ZArith Lia Bool Ascii String.
From stdpp Require Import base list numbers.
From S2P Require Import Prelude.
Export String.StringSyntax.

Abbreviation str := (list N).

(** A literal of the source, written as a Rocq string. *)
Fixpoint js (s : string) : str :=
  match s with
  | EmptyString => []
  | String a s' => N_of_ascii a :: js s'
  end.
Arguments js _%_string_scope : simpl never.

Definition str_eqb (s t : str) : bool := bool_decide (s = t).
Arguments str_eqb : simpl never.

(** [array.includes(s)] for an array of strings. *)
Definition includes_str (l : list str) (s : str) : bool :=
  existsb (str_eqb s) l.
Arguments includes_str : simpl never.

(** A key/value object literal looked up with [Object.hasOwn] / indexing. *)
Fixpoint assoc_str {A} (l : list (str * A)) (k : str) : option A :=
  match l with
  | [] => None
  | (k', v) :: l' => if str_eqb k' k then Some v else assoc_str l' k
  end.

(** ** Character classes *)

(** Line terminators, which [.] does not match and before which [$] matches
    under the flag [m]. *)
Definition is_line_terminator (c : N) : bool :=
  (c =? 10)%N || (c =? 13)%N || (c =? 8232)%N || (c =? 8233)%N.

Section Classes.
Local Open Scope N_scope.

Definition in_range (lo hi c : N) : bool := (lo <=? c) && (c <=? hi).

(** [\d] *)
Definition is_digit (c : N) : bool := in_range 48 57 c.

(** [\s]: WhiteSpace and LineTerminator of ECMA-262. *)
Definition is_space (c : N) : bool :=
  in_range 9 13 c || (c =? 32) || (c =? 160) || (c =? 5760)
  || in_range 8192 8202 c || (c =? 8232) || (c =? 8233) || (c =? 8239)
  || (c =? 8287) || (c =? 12288) || (c =? 65279).

Definition is_upper (c : N) : bool := in_range 65 90 c.
Definition is_lower (c : N) : bool := in_range 97 122 c.
Definition is_alpha (c : N) : bool := is_upper c || is_lower c.

(** [\w] *)
Definition is_word (c : N) : bool := is_alpha c || is_digit c || (c =? 95).

(** [/[\da-f]/i] *)
Definition is_hex (c : N) : bool :=
  is_digit c || in_range 97 102 c || in_range 65 70 c.

Definition hex_value (c : N) : N :=
  if is_digit c then c - 48
  else if in_range 97 102 c then c - 87
  else c - 55.

Definition digit_value (c : N) : N := c - 48.
End Classes.

(** ** Greedy scanning: the longest prefix in a class, as [/^[class]*/]. *)

Fixpoint span (p : N -> bool) (s : str) : str * str :=
  match s with
  | [] => ([], [])
  | c :: s' => if p c then let '(a, b) := span p s' in (c :: a, b) else ([], s)
  end.

Fixpoint drop_while (p : N -> bool) (s : str) : str :=
  match s with
  | [] => []
  | c :: s' => if p c then drop_while p s' else s
  end.

(** [String.prototype.trim] *)
Definition trim_start (s : str) : str := drop_while is_space s.
Definition trim_end (s : str) : str := reverse (drop_while is_space (reverse s)).
Definition trim (s : str) : str := trim_end (trim_start s).

(** [s.startsWith(p)] on the list of the remaining code units. *)
Fixpoint starts_with (p s : str) : bool :=
  match p, s with
  | [], _ => true
  | a :: p', b :: s' => (a =? b)%N && starts_with p' s'
  | _, _ => false
  end.

(** [s.includes(sub)] *)
Fixpoint contains (s sub : str) : bool :=
  starts_with sub s ||
  match s with
  | [] => false
  | _ :: s' => contains s' sub
  end.

(** [parts.join(sep)] *)
Fixpoint join (sep : str) (l : list str) : str :=
  match l with
  | [] => []
  | [s] => s
  | s :: l' => s ++ sep ++ join sep l'
  end.

(** [s.split(sep)] for a separator of one code unit. *)
Fixpoint split_on (sep : N) (cur s : str) : list str :=
  match s with
  | [] => [cur]
  | c :: s' => if (c =? sep)%N then cur :: split_on sep [] s' else split_on sep (cur ++ [c]) s'
  end.
Definition split_char (sep : N) (s : str) : list str := split_on sep [] s.

(** [a < b] on strings: code unit order. *)
Fixpoint str_ltb (a b : str) : bool :=
  match a, b with
  | [], [] => false
  | [], _ :: _ => true
  | _ :: _, [] => false
  | x :: a', y :: b' =>
      if (x <? y)%N then true else if (y <? x)%N then false else str_ltb a' b'
  end.

(** [s.slice(a, b)] with JavaScript's treatment of negative and
    out-of-range indices. *)
Definition clamp_index (len : nat) (i : Z) : nat :=
  if (i <? 0)%Z then Z.to_nat (Z.of_nat len + i)
  else Nat.min (Z.to_nat i) len.

Definition js_slice (s : str) (a b : Z) : str :=
  slice_nat s (clamp_index (length s) a) (clamp_index (length s) b).

Definition js_slice_from (s : str) (a : Z) : str :=
  drop (clamp_index (length s) a) s.

(** ** Decimal digits of a natural number *)

(** Least significant first; [fuel] bounds the number of digits. *)
Fixpoint digits_rev (fuel : nat) (n : N) : str :=
  match fuel with
  | O => []
  | S f =>
      if (n <? 10)%N then [48 + n]%N
      else (48 + n mod 10)%N :: digits_rev f (n / 10)
  end.

Definition string_of_N (n : N) : str :=
  reverse (digits_rev (S (N.to_nat (N.log2 n))) n).

Definition string_of_nat (n : nat) : str := string_of_N (N.of_nat n).

(** The value of a string of digits. *)
Definition digits_value (acc : N) (s : str) : N :=
  fold_left (fun a c => a * 10 + digit_value c)%N s acc.

(** [s.padStart(n, c)] *)
Definition pad_start (n : nat) (c : N) (s : str) : str :=
  replicate (n - length s) c ++ s.

(** ** [JSON.stringify] of a string *)

Definition hex_digit (n : N) : N := if (n <? 10)%N then (48 + n)%N else (87 + n)%N.

Definition unicode_escape (c : N) : str :=
  (js "\u" ++ [hex_digit (c / 4096 mod 16); hex_digit (c / 256 mod 16);
               hex_digit (c / 16 mod 16); hex_digit (c mod 16)])%N.

Definition is_lead_surrogate (c : N) : bool := in_range 55296 56319 c.
Definition is_trail_surrogate (c : N) : bool := in_range 56320 57343 c.

Definition json_escape_unit (c : N) : str :=
  (if c =? 8 then js "\b"
   else if c =? 9 then js "\t"
   else if c =? 10 then js "\n"
   else if c =? 12 then js "\f"
   else if c =? 13 then js "\r"
   else if c =? 34 then [92; 34]
   else if c =? 92 then js "\\"
   else if c <? 32 then unicode_escape c
   else [c])%N.

Fixpoint json_escape (s : str) : str :=
  match s with
  | [] => []
  | c :: s' =>
      if is_lead_surrogate c then
        match s' with
        | d :: s'' =>
            if is_trail_surrogate d then c :: d :: json_escape s''
            else unicode_escape c ++ json_escape s'
        | [] => unicode_escape c
        end
      else if is_trail_surrogate c then unicode_escape c ++ json_escape s'
      else json_escape_unit c ++ json_escape s'
  end.

Definition quote_unit : N := 34%N.
Definition json_stringify (s : str) : str :=
  quote_unit :: json_escape s ++ [quote_unit].

(** ** Facts *)

Lemma str_eqb_eq s t : str_eqb s t = true <-> s = t.
Proof. unfold str_eqb. apply bool_decide_eq_true. Qed.

Lemma str_eqb_neq s t : str_eqb s t = false <-> s <> t.
Proof. unfold str_eqb. apply bool_decide_eq_false. Qed.

Lemma str_eqb_refl s : str_eqb s s = true.
Proof. by apply str_eqb_eq. Qed.

Lemma includes_str_elem l s : includes_str l s = true <-> s ∈ l.
Proof.
  unfold includes_str. rewrite existsb_exists. split.
  - intros (x & Hin & Hx%str_eqb_eq). subst. by apply list_elem_of_In.
  - intros H. exists s. rewrite str_eqb_eq. split; [|done].
    by apply list_elem_of_In.
Qed.

Lemma assoc_str_elem {A} (l : list (str * A)) k v :
  assoc_str l k = Some v -> (k, v) ∈ l.
Proof.
  induction l as [|[k' v'] l IH]; simpl; [done|].
  destruct (str_eqb k' k) eqn:E.
  - apply str_eqb_eq in E. intros [= ->]. subst. by left.
  - intros H. right. by apply IH.
Qed.

Lemma span_app p s : (span p s).1 ++ (span p s).2 = s.
Proof.
  induction s as [|c s IH]; simpl; [done|].
  destruct (p c); simpl; [|done]. destruct (span p s); simpl in *. by rewrite IH.
Qed.

Lemma span_all p s : forallb p (span p s).1 = true.
Proof.
  induction s as [|c s IH]; simpl; [done|].
  destruct (p c) eqn:E; [|done]. destruct (span p s); simpl in *.
  by rewrite E, IH.
Qed.

Lemma span_length p s : length (span p s).1 + length (span p s).2 = length s.
Proof. rewrite <- length_app. by rewrite span_app. Qed.

(** A run of [p] followed by something that does not continue it. *)
Lemma span_prefix p a b :
  forallb p a = true ->
  match b with [] => True | c :: _ => p c = false end ->
  span p (a ++ b) = (a, b).
Proof.
  intros Ha Hb. induction a as [|c a IH]; simpl in *.
  - destruct b as [|c b]; simpl; [done|]. by rewrite Hb.
  - apply andb_true_iff in Ha as [Hc Ha]. rewrite Hc, IH by done. done.
Qed.

Lemma drop_while_spec p s :
  exists a, s = a ++ drop_while p s /\ forallb p a = true.
Proof.
  induction s as [|c s (a & Hs & Ha)]; simpl.
  - by exists [].
  - destruct (p c) eqn:E.
    + exists (c :: a). simpl. rewrite E, Ha. split; [|done]. by f_equal.
    + by exists [].
Qed.

Lemma drop_while_head p s :
  match drop_while p s with [] => True | c :: _ => p c = false end.
Proof. induction s as [|c s IH]; simpl; [done|]. destruct (p c) eqn:E; done. Qed.

Lemma forallb_reverse {A} (p : A -> bool) l :
  forallb p (reverse l) = forallb p l.
Proof.
  induction l as [|x l IH]; [done|].
  rewrite reverse_cons, forallb_app, IH. simpl.
  rewrite andb_true_r. apply andb_comm.
Qed.

(** Trimming removes white space at both ends and nothing else. *)
Lemma trim_spec s :
  exists a b, s = a ++ trim s ++ b /\
              forallb is_space a = true /\ forallb is_space b = true.
Proof.
  unfold trim, trim_end, trim_start.
  destruct (drop_while_spec is_space s) as (a & Hs & Ha).
  set (t := drop_while is_space s) in *.
  destruct (drop_while_spec is_space (reverse t)) as (b & Ht & Hb).
  exists a, (reverse b). split; [|split]; [|done|].
  - rewrite Hs at 1. f_equal.
    rewrite <- (reverse_involutive t) at 1. rewrite Ht at 1.
    by rewrite reverse_app.
  - by rewrite forallb_reverse.
Qed.

Lemma drop_while_id p s :
  match s with [] => True | c :: _ => p c = false end -> drop_while p s = s.
Proof. destruct s as [|c s]; simpl; [done|]. by intros ->. Qed.

Lemma trim_start_end t :
  match t with [] => True | c :: _ => is_space c = false end ->
  match trim_end t with [] => True | c :: _ => is_space c = false end.
Proof.
  intros Ht. unfold trim_end.
  destruct (drop_while_spec is_space (reverse t)) as (b & Hb & _).
  assert (t = reverse (drop_while is_space (reverse t)) ++ reverse b) as E.
  { rewrite <- reverse_app, <- Hb. by rewrite reverse_involutive. }
  destruct (reverse (drop_while is_space (reverse t))) as [|c u]; [done|].
  rewrite E in Ht. exact Ht.
Qed.

Lemma trim_idemp s : trim (trim s) = trim s.
Proof.
  unfold trim at 1, trim_start.
  rewrite drop_while_id.
  - unfold trim, trim_end.
    rewrite reverse_involutive. f_equal. apply drop_while_id.
    pose proof (drop_while_head is_space (reverse (trim_start s))) as H.
    by destruct (drop_while is_space (reverse (trim_start s))).
  - apply trim_start_end. pose proof (drop_while_head is_space s) as H.
    unfold trim_start. by destruct (drop_while is_space s).
Qed.

Lemma length_trim s : length (trim s) <= length s.
Proof.
  destruct (trim_spec s) as (a & b & Hs & _). rewrite Hs at 2. rewrite !length_app. lia.
Qed.

Lemma length_js_slice_nat s a b :
  a <= b -> b <= length s ->
  js_slice s (Z.of_nat a) (Z.of_nat b) = slice_nat s a b.
Proof.
  intros. unfold js_slice, clamp_index.
  destruct (Z.ltb_spec (Z.of_nat a) 0); [lia|].
  destruct (Z.ltb_spec (Z.of_nat b) 0); [lia|].
  f_equal; lia.
Qed.

(** *** Digits *)

Lemma digits_rev_digit fuel n : forallb is_digit (digits_rev fuel n) = true.
Proof.
  revert n; induction fuel as [|f IH]; intros n; cbn [digits_rev]; [done|].
  destruct (N.ltb_spec n 10); cbn [forallb].
  - unfold is_digit, in_range. rewrite !andb_true_iff, !N.leb_le. lia.
  - rewrite IH, andb_true_r. unfold is_digit, in_range.
    assert (n mod 10 < 10)%N by (apply N.mod_lt; lia).
    rewrite andb_true_iff, !N.leb_le. revert H0. generalize (n mod 10)%N. lia.
Qed.

Lemma digits_rev_nonempty fuel n : digits_rev (S fuel) n <> [].
Proof. simpl. by destruct (n <? 10)%N. Qed.

Lemma string_of_N_digits n : forallb is_digit (string_of_N n) = true.
Proof. unfold string_of_N. rewrite forallb_reverse. apply digits_rev_digit. Qed.

Lemma string_of_N_nonempty n : string_of_N n <> [].
Proof.
  unfold string_of_N. intros H.
  apply (f_equal reverse) in H. rewrite reverse_involutive in H.
  by apply digits_rev_nonempty in H.
Qed.

Lemma digits_value_app acc s t :
  digits_value acc (s ++ t) = digits_value (digits_value acc s) t.
Proof. unfold digits_value. apply fold_left_app. Qed.

Lemma digits_value_rev fuel n :
  (n < 2 ^ N.of_nat fuel)%N ->
  digits_value 0 (reverse (digits_rev fuel n)) = n.
Proof.
  revert n; induction fuel as [|f IH]; intros n Hn.
  - simpl in *. unfold digits_value; simpl. lia.
  - cbn [digits_rev]. destruct (N.ltb_spec n 10).
    + unfold digits_value, digit_value; simpl. lia.
    + rewrite reverse_cons, digits_value_app, IH.
      * unfold digits_value, digit_value; cbn [fold_left].
        assert (n = 10 * (n / 10) + n mod 10)%N as Hd by (apply N.div_mod; done).
        revert Hd. generalize (n / 10)%N (n mod 10)%N. lia.
      * apply N.Div0.div_lt_upper_bound.
        rewrite Nat2N.inj_succ, N.pow_succ_r' in Hn.
        assert (0 < 2 ^ N.of_nat f)%N by (apply N.neq_0_lt_0, N.pow_nonzero; lia).
        lia.
Qed.

(** Printing a natural number and reading it back. *)
Lemma digits_value_string_of_N n : digits_value 0 (string_of_N n) = n.
Proof.
  unfold string_of_N. apply digits_value_rev.
  rewrite Nat2N.inj_succ, N2Nat.id.
  destruct (N.eq_dec n 0%N) as [->|Hn]; [done|].
  apply N.log2_spec. lia.
Qed.

Lemma digits_value_zeros k s :
  digits_value 0 (replicate k 48%N ++ s) = digits_value 0 s.
Proof.
  induction k as [|k IH]; simpl; [done|].
  unfold digits_value in *. simpl. by rewrite <- IH.
Qed.

Lemma digits_value_trailing_zeros acc k :
  digits_value acc (replicate k 48%N) = (acc * 10 ^ N.of_nat k)%N.
Proof.
  revert acc; induction k as [|k IH]; intros acc; simpl.
  - unfold digits_value; simpl. lia.
  - unfold digits_value in *; cbn [fold_left]. rewrite IH.
    unfold digit_value. rewrite Nat2N.inj_succ, N.pow_succ_r'. lia.
Qed.

#[export] Hint Rewrite str_eqb_refl @length_app @length_replicate : strings.
#[export] Hint Resolve string_of_N_digits string_of_N_nonempty : strings.

Lemma split_on_segment sep a : forall cur rest,
  forallb (fun c => negb (c =? sep)%N) a = true ->
  split_on sep cur (a ++ rest) = split_on sep (cur ++ a) rest.
Proof.
  induction a as [|c a IH]; intros cur rest H; simpl in *; [by rewrite app_nil_r|].
  apply andb_true_iff in H as [Hc H]. apply negb_true_iff in Hc. rewrite Hc, IH by done.
  by rewrite <- app_assoc.
Qed.

(** Splitting undoes joining, when no part holds the separator. *)
Lemma split_join sep l :
  l <> [] -> Forall (fun a => forallb (fun c => negb (c =? sep)%N) a = true) l ->
  split_char sep (join [sep] l) = l.
Proof.
  unfold split_char. induction l as [|a l IH]; [done|]. intros _ H.
  inversion H as [|? ? Ha Hl]; subst. destruct l as [|b l].
  - cbn [join]. rewrite <- (app_nil_r a) at 1. by rewrite split_on_segment.
  - change (join [sep] (a :: b :: l)) with (a ++ sep :: join [sep] (b :: l)).
    rewrite split_on_segment by done. cbn [split_on app]. rewrite N.eqb_refl.
    f_equal. by apply IH.
Qed.

(** Evaluate the comparisons of closed strings. *)
Ltac rewrite_bool t :=
  let v := eval vm_compute in t in
  let E := fresh "E" in
  assert (t = v) as E by (vm_compute; reflexivity); rewrite ?E in *; clear E.

Ltac str_compute :=
  repeat match goal with
  | |- context [str_eqb (js ?a) (js ?b)] => rewrite_bool (str_eqb (js a) (js b))
  | H : context [str_eqb (js ?a) (js ?b)] |- _ => rewrite_bool (str_eqb (js a) (js b))
  | |- context [includes_str ?l (js ?b)] => rewrite_bool (includes_str l (js b))
  end; cbn [andb orb negb] in *.

Lemma starts_with_app p s : starts_with p s = true -> exists r, s = p ++ r.
Proof.
  revert s. induction p as [|a p IH]; intros s H; [by exists s|].
  destruct s as [|b s]; [done|]. cbn [starts_with] in H. split_andb.
  apply N.eqb_eq in H as ->. destruct (IH s H0) as [r ->]. by exists r.
Qed.

Lemma starts_with_self p r : starts_with p (p ++ r) = true.
Proof. induction p as [|c p IH]; [done|]. cbn. by rewrite N.eqb_refl. Qed.
