(* ===== verification/JsNumberFacts.v ===== *)
(** * Facts on JavaScript numbers

    Correctness of the rounding of ratios (canonical results, exactness on
    representable values) and the print/read round trip. *)

From Stdlib Require Import ZArith Lia Bool SpecFloat.
From stdpp Require Import base list numbers.
From S2P Require Import Prelude JsString JsNumber.

Local Open Scope Z_scope.

(** A canonical binary64 mantissa/exponent pair. *)
Definition canon (m e : Z) : Prop :=
  0 < m < 2 ^ 53 /\ emin <= e <= emax_finite /\ (e = emin \/ 2 ^ 52 <= m).

Definition num_canon (x : num) : Prop :=
  match x with
  | S754_finite _ m e => canon (Zpos m) e
  | _ => True
  end.

Definition canonb (x : num) : bool :=
  match x with
  | S754_finite _ m e =>
      (Zpos m <? 2 ^ 53)%Z && (emin <=? e)%Z && (e <=? emax_finite)%Z &&
      ((e =? emin)%Z || (2 ^ 52 <=? Zpos m)%Z)
  | _ => true
  end.

Lemma canonb_spec x : canonb x = true -> num_canon x.
Proof.
  intros C. destruct x as [| | |s m e]; try done. cbn [canonb num_canon] in *.
  apply andb_true_iff in C as [C D]. apply andb_true_iff in C as [C C3].
  apply andb_true_iff in C as [C1 C2]. apply orb_true_iff in D.
  rewrite Z.ltb_lt in C1. rewrite Z.leb_le in C2, C3. rewrite Z.eqb_eq, Z.leb_le in D.
  split; [lia|]. split; [lia|done].
Qed.

Lemma pow2_pos e : 0 <= e -> 0 < 2 ^ e.
Proof. intros. apply Z.pow_pos_nonneg; lia. Qed.

Lemma pow2_succ e : 0 <= e -> 2 ^ (e + 1) = 2 * 2 ^ e.
Proof. intros. rewrite Z.pow_add_r; lia. Qed.

Lemma pow2_le a b : a <= b -> 2 ^ a <= 2 ^ b.
Proof. intros. apply Z.pow_le_mono_r; lia. Qed.

Section Scaling.
Variables (n d : Z).
Hypothesis Hn : 0 < n.
Hypothesis Hd : 0 < d.

Definition quot (e : Z) : Z := scale_num n e / scale_den d e.

Lemma scale_num_pos e : 0 < scale_num n e.
Proof.
  unfold scale_num. destruct (Z.ltb_spec e 0); [|lia].
  pose proof (pow2_pos (- e)). lia.
Qed.

Lemma scale_den_pos e : 0 < scale_den d e.
Proof.
  unfold scale_den. destruct (Z.ltb_spec e 0); [lia|].
  pose proof (pow2_pos e). lia.
Qed.

(** Moving the exponent by one doubles the fraction. *)
Lemma scale_succ e :
  scale_num n e * scale_den d (e + 1) = 2 * (scale_num n (e + 1) * scale_den d e).
Proof.
  unfold scale_num, scale_den.
  destruct (Z.ltb_spec e 0), (Z.ltb_spec (e + 1) 0); try lia.
  - replace (- e) with (- (e + 1) + 1) by lia. rewrite pow2_succ by lia. lia.
  - replace e with (-1) by lia. simpl. lia.
  - rewrite pow2_succ by lia. lia.
Qed.

Lemma le_quot k e : k <= quot e <-> k * scale_den d e <= scale_num n e.
Proof.
  unfold quot. pose proof (scale_den_pos e). split; intros H'.
  - pose proof (Z.mul_div_le (scale_num n e) (scale_den d e)). nia.
  - apply Z.div_le_lower_bound; lia.
Qed.

Lemma quot_nonneg e : 0 <= quot e.
Proof. apply le_quot. pose proof (scale_num_pos e). lia. Qed.

Lemma quot_succ_lower k e : 2 * k <= quot e -> k <= quot (e + 1).
Proof.
  rewrite !le_quot. pose proof (scale_succ e).
  pose proof (scale_den_pos e). pose proof (scale_den_pos (e + 1)). nia.
Qed.

Lemma quot_succ_upper k e : quot e < 2 * k -> quot (e + 1) < k.
Proof.
  intros H. apply Z.nle_gt. apply Z.nle_gt in H.
  intros Hk. apply H. rewrite le_quot in *. pose proof (scale_succ e).
  pose proof (scale_den_pos e). pose proof (scale_den_pos (e + 1)). nia.
Qed.

Let D := Z.log2 n - Z.log2 d.

Lemma quot_lower e : e <= D - 53 -> 2 ^ 52 <= quot e.
Proof.
  intros He. apply le_quot. unfold D in *.
  destruct (Z.log2_spec n Hn) as [Hn1 _], (Z.log2_spec d Hd) as [_ Hd2].
  rewrite Z.pow_succ_r in Hd2 by apply Z.log2_nonneg.
  pose proof (Z.log2_nonneg n). pose proof (Z.log2_nonneg d).
  unfold scale_num, scale_den. destruct (Z.ltb_spec e 0).
  - assert (2 ^ 53 * 2 ^ Z.log2 d <= 2 ^ Z.log2 n * 2 ^ (- e)).
    { rewrite <- !Z.pow_add_r by lia. apply pow2_le. lia. }
    pose proof (pow2_pos (- e)).
    change (2 ^ 53) with (2 * 2 ^ 52) in *. nia.
  - assert (2 ^ 53 * 2 ^ Z.log2 d * 2 ^ e <= 2 ^ Z.log2 n).
    { rewrite <- !Z.pow_add_r by lia. apply pow2_le. lia. }
    pose proof (pow2_pos e).
    change (2 ^ 53) with (2 * 2 ^ 52) in *. nia.
Qed.

Lemma quot_upper j e : 0 <= j -> D - j <= e -> quot e < 2 ^ (j + 1).
Proof.
  intros Hj He. apply Z.nle_gt. rewrite le_quot. apply Z.nle_gt. unfold D in *.
  destruct (Z.log2_spec n Hn) as [_ Hn2], (Z.log2_spec d Hd) as [Hd1 _].
  rewrite Z.pow_succ_r in Hn2 by apply Z.log2_nonneg.
  pose proof (Z.log2_nonneg n). pose proof (Z.log2_nonneg d).
  rewrite pow2_succ by lia. pose proof (pow2_pos j).
  unfold scale_num, scale_den. destruct (Z.ltb_spec e 0).
  - assert (2 ^ Z.log2 n * 2 ^ (- e) <= 2 ^ j * 2 ^ Z.log2 d).
    { rewrite <- !Z.pow_add_r by lia. apply pow2_le. lia. }
    pose proof (pow2_pos (- e)). nia.
  - assert (2 ^ Z.log2 n <= 2 ^ j * 2 ^ Z.log2 d * 2 ^ e).
    { rewrite <- !Z.pow_add_r by lia. apply pow2_le. lia. }
    pose proof (pow2_pos e). nia.
Qed.

(** The chosen exponent leaves a 53-bit quotient, or is the least one. *)
Lemma ratio_exponent_spec :
  let e := ratio_exponent n d in
  emin <= e /\ quot e < 2 ^ 53 /\ (e = emin \/ 2 ^ 52 <= quot e).
Proof.
  unfold ratio_exponent. fold (quot (Z.max (Z.log2 n - Z.log2 d - 53) emin)).
  fold D. set (e1 := Z.max (D - 53) emin). cbv zeta.
  assert (quot e1 < 2 ^ 54) by (apply (quot_upper 53); lia).
  destruct (Z.leb_spec (2 ^ 53) (quot e1)) as [Hq|Hq].
  - split; [lia|]. split.
    + apply quot_succ_upper. by change (2 * 2 ^ 53) with (2 ^ 54).
    + right. apply quot_succ_lower. by change (2 * 2 ^ 52) with (2 ^ 53).
  - split; [lia|]. split; [done|].
    destruct (Z.max_spec (D - 53) emin) as [[? Hm]|[? Hm]].
    + left. exact Hm.
    + right. unfold e1. rewrite Hm. apply quot_lower. lia.
Qed.

Lemma round_quotient_bounds a b :
  a / b <= round_quotient a b <= a / b + 1.
Proof.
  unfold round_quotient.
  destruct (2 * (a mod b) ?= b); [destruct (Z.even _)| |]; lia.
Qed.

Lemma round_ratio_canon s : num_canon (round_ratio s n d).
Proof.
  unfold round_ratio, make_num.
  destruct ratio_exponent_spec as (He & Hlt & Hlo).
  set (e := ratio_exponent n d) in *.
  pose proof (round_quotient_bounds (scale_num n e) (scale_den d e)) as Hr.
  fold (quot e) in Hr. pose proof (quot_nonneg e).
  set (q := round_quotient _ _) in *.
  destruct (Z.eqb_spec q (2 ^ 53)).
  - change (2 ^ 52) with (Zpos 4503599627370496).
    destruct (Z.ltb_spec emax_finite (e + 1)); simpl; [done|].
    unfold canon, emin, emax_finite in *. lia.
  - destruct q as [|p|p] eqn:Eq; [done| |done].
    destruct (Z.ltb_spec emax_finite e); simpl; [done|].
    unfold canon. lia.
Qed.

(** A representable ratio is returned as it is. *)
Lemma ratio_exponent_exact m e :
  canon m e -> scale_num n e = m * scale_den d e -> ratio_exponent n d = e.
Proof.
  intros (Hm & He & Hc) Heq.
  assert (quot e = m) as Hq.
  { unfold quot. rewrite Heq. apply Z.div_mul. pose proof (scale_den_pos e). lia. }
  destruct ratio_exponent_spec as (He' & Hlt & Hlo).
  set (e' := ratio_exponent n d) in *.
  destruct (Z.lt_trichotomy e e') as [Hlt'|[?|Hgt]]; [exfalso|done|exfalso].
  - (* a larger exponent would lose the top bit *)
    destruct Hlo as [?|Hlo]; [unfold emin in *; lia|].
    assert (forall k : nat, quot (e + 1 + Z.of_nat k) < 2 ^ 52) as Hall.
    { intros k. induction k as [|k IH].
      - rewrite Z.add_0_r. apply quot_succ_upper.
        change (2 * 2 ^ 52) with (2 ^ 53). lia.
      - replace (e + 1 + Z.of_nat (S k)) with (e + 1 + Z.of_nat k + 1) by lia.
        apply quot_succ_upper. lia. }
    specialize (Hall (Z.to_nat (e' - e - 1))).
    replace (e + 1 + Z.of_nat (Z.to_nat (e' - e - 1))) with e' in Hall by lia.
    lia.
  - (* a smaller one would need more than 53 bits *)
    destruct Hc as [?|Hc]; [lia|].
    assert (forall k : nat, 2 ^ 53 <= quot (e - 1 - Z.of_nat k)) as Hall.
    { intros k. induction k as [|k IH].
      - rewrite Z.sub_0_r. apply Z.nlt_ge. intros Hk.
        change (2 ^ 53) with (2 * 2 ^ 52) in Hk. apply quot_succ_upper in Hk.
        replace (e - 1 + 1) with e in Hk by lia. lia.
      - apply Z.nlt_ge. intros Hk.
        assert (quot (e - 1 - Z.of_nat (S k)) < 2 * 2 ^ 53) as Hk' by lia.
        apply quot_succ_upper in Hk'.
        replace (e - 1 - Z.of_nat (S k) + 1) with (e - 1 - Z.of_nat k) in Hk' by lia.
        lia. }
    specialize (Hall (Z.to_nat (e - 1 - e'))).
    replace (e - 1 - Z.of_nat (Z.to_nat (e - 1 - e'))) with e' in Hall by lia.
    lia.
Qed.

Lemma round_ratio_exact s m e :
  canon (Zpos m) e -> scale_num n e = Zpos m * scale_den d e ->
  round_ratio s n d = S754_finite s m e.
Proof.
  intros Hc Heq. unfold round_ratio.
  rewrite (ratio_exponent_exact (Zpos m) e Hc Heq), Heq.
  pose proof (scale_den_pos e). unfold round_quotient.
  rewrite Z.div_mul, Z.mod_mul by lia.
  destruct (Z.compare_spec (2 * 0) (scale_den d e)); [lia| |lia].
  destruct Hc as (Hm & He & _). unfold make_num.
  destruct (Z.eqb_spec (Zpos m) (2 ^ 53)); [lia|].
  destruct (Z.ltb_spec emax_finite e); [lia|done].
Qed.
End Scaling.

(** ** The number of decimal digits *)

Lemma digits_rev_bounds fuel (n : N) :
  (n < 2 ^ N.of_nat fuel)%N -> (0 < n)%N ->
  (10 ^ N.of_nat (length (digits_rev fuel n) - 1) <= n
   /\ n < 10 ^ N.of_nat (length (digits_rev fuel n)))%N
  /\ (0 < length (digits_rev fuel n))%nat.
Proof.
  revert n; induction fuel as [|f IH]; intros n Hn Hp.
  - simpl in Hn. lia.
  - cbn [digits_rev]. destruct (N.ltb_spec n 10).
    + simpl. repeat split; lia.
    + assert (n = 10 * (n / 10) + n mod 10)%N as Hd by (apply N.div_mod; done).
      assert (n mod 10 < 10)%N as Hm by (apply N.mod_lt; done).
      revert Hd Hm. generalize (n mod 10)%N. intros r Hd Hm.
      assert (n / 10 < 2 ^ N.of_nat f)%N as Hq.
      { rewrite Nat2N.inj_succ, N.pow_succ_r' in Hn. revert Hd.
        generalize (n / 10)%N. lia. }
      assert (0 < n / 10)%N as Hq0 by (revert Hd; generalize (n / 10)%N; lia).
      destruct (IH _ Hq Hq0) as [[Hlo Hhi] Hlen].
      cbn [length]. set (L := length (digits_rev f (n / 10))) in *.
      replace (S L - 1)%nat with (S (L - 1))%nat by lia.
      rewrite !Nat2N.inj_succ, !N.pow_succ_r'.
      revert Hd Hlo Hhi. generalize (n / 10)%N. intros q Hd Hlo Hhi.
      repeat split; lia.
Qed.

Lemma ndigits_bounds (m : N) :
  (0 < m)%N -> 10 ^ (ndigits m - 1) <= Z.of_N m < 10 ^ ndigits m.
Proof.
  intros Hm. unfold ndigits, string_of_N. rewrite length_reverse.
  set (fuel := S _).
  assert (m < 2 ^ N.of_nat fuel)%N as Hf.
  { unfold fuel. rewrite Nat2N.inj_succ, N2Nat.id. by apply N.log2_spec. }
  destruct (digits_rev_bounds fuel m Hf Hm) as [[Hlo Hhi] Hlen].
  set (L := length _) in *.
  apply N2Z.inj_le in Hlo. apply N2Z.inj_lt in Hhi.
  rewrite N2Z.inj_pow, nat_N_Z in Hlo, Hhi.
  rewrite Nat2Z.inj_sub in Hlo by lia. done.
Qed.

Lemma ndigits_pos m : 0 < ndigits m.
Proof.
  unfold ndigits. pose proof (string_of_N_nonempty m).
  destruct (string_of_N m); [done|]. simpl. lia.
Qed.

(** The count is determined by the decimal magnitude. *)
Lemma ndigits_unique (m : N) k :
  (0 < m)%N -> 0 < k -> 10 ^ (k - 1) <= Z.of_N m < 10 ^ k -> ndigits m = k.
Proof.
  intros Hm Hk [Hlo Hhi]. destruct (ndigits_bounds m Hm) as [Hlo' Hhi'].
  pose proof (ndigits_pos m).
  assert (10 ^ (k - 1) < 10 ^ ndigits m) as H1 by lia.
  assert (10 ^ (ndigits m - 1) < 10 ^ k) as H2 by lia.
  apply Z.pow_lt_mono_r_iff in H1, H2; lia.
Qed.

Lemma ndigits_mul_pow10 (m : N) (j : Z) :
  (0 < m)%N -> 0 <= j -> ndigits (m * 10 ^ Z.to_N j) = ndigits m + j.
Proof.
  intros Hm Hj. pose proof (ndigits_pos m). destruct (ndigits_bounds m Hm).
  assert (0 < 10 ^ Z.to_N j)%N by (apply N.neq_0_lt_0, N.pow_nonzero; lia).
  apply ndigits_unique; [lia|lia|].
  rewrite N2Z.inj_mul, N2Z.inj_pow, Z2N.id by lia. simpl (Z.of_N 10).
  replace (ndigits m + j - 1) with (ndigits m - 1 + j) by lia.
  rewrite !Z.pow_add_r by lia.
  assert (0 < 10 ^ j) by (apply Z.pow_pos_nonneg; lia). nia.
Qed.

Lemma num_of_decimal_canon s m k : num_canon (num_of_decimal s m k).
Proof.
  unfold num_of_decimal.
  destruct (N.eqb_spec m 0); [done|].
  destruct (309 <=? _); [done|]. destruct (_ <=? -324); [done|].
  assert (0 < 10 ^ Z.abs k) by (apply Z.pow_pos_nonneg; lia).
  destruct (Z.ltb_spec k 0); apply round_ratio_canon;
    (rewrite Z.abs_neq in * by lia) || (rewrite Z.abs_eq in * by lia); lia.
Qed.

(** Moving trailing zeros between the digits and the exponent. *)
Lemma num_of_decimal_shift s m j :
  0 <= j -> num_of_decimal s (m * 10 ^ Z.to_N j) 0 = num_of_decimal s m j.
Proof.
  intros Hj. unfold num_of_decimal.
  assert (10 ^ Z.to_N j <> 0)%N by (apply N.pow_nonzero; lia).
  destruct (N.eqb_spec m 0) as [->|Hm]; [done|].
  destruct (N.eqb_spec (m * 10 ^ Z.to_N j) 0); [nia|].
  rewrite ndigits_mul_pow10 by lia. rewrite Z.add_0_r.
  destruct (309 <=? _); [done|]. destruct (_ <=? -324); [done|].
  destruct (Z.ltb_spec j 0); [lia|]. simpl (0 <? 0).
  f_equal. rewrite N2Z.inj_mul, N2Z.inj_pow, Z2N.id by lia. simpl. lia.
Qed.

(** ** Shortest decimals read back *)

Lemma pow10_split e : 0 <= e -> 10 ^ e = 5 ^ e * 2 ^ e.
Proof. intros. change 10 with (5 * 2). apply Z.pow_mul_l. Qed.

(** The exact expansion of a canonical double reads back as that double. *)
Lemma exact_decimal_ok m e :
  canon (Zpos m) e -> dec_is (S754_finite false m e) (exact_decimal m e) = true.
Proof.
  intros Hc. apply bool_decide_eq_true_2. unfold exact_decimal.
  pose proof Hc as ((_ & Hm) & (He1 & He2) & _).
  assert (2 ^ 1074 < 10 ^ 324) as Hbig by (vm_compute; done).
  assert (2 ^ 53 < 10 ^ 309) as Hbig2 by (vm_compute; done).
  assert (2 ^ 53 * 2 ^ 971 < 10 ^ 309) as Hbig3 by (vm_compute; done).
  set (P324 := 10 ^ 324) in *. set (P309 := 10 ^ 309) in *.
  destruct (Z.ltb_spec e 0); cbn [fst snd]; unfold num_of_decimal.
  - assert (0 < 5 ^ (- e)) by (apply Z.pow_pos_nonneg; lia).
    assert (0 < 2 ^ (- e)) by (apply pow2_pos; lia).
    set (M := Z.to_N (Zpos m * 5 ^ (- e))).
    assert (Z.of_N M = Zpos m * 5 ^ (- e)) as HM by (unfold M; rewrite Z2N.id; lia).
    assert (0 < M)%N by lia.
    destruct (ndigits_bounds M) as [Hlo Hhi]; [done|]. pose proof (ndigits_pos M).
    destruct (N.eqb_spec M 0); [lia|].
    destruct (Z.leb_spec 309 (ndigits M + e - 1)) as [Hg|_].
    { exfalso. assert (10 ^ (309 + - e) <= 10 ^ (ndigits M - 1)) as Hp
        by (apply Z.pow_le_mono_r; lia).
      rewrite Z.pow_add_r, (pow10_split (- e)) in Hp by lia.
      fold P309 in Hp. nia. }
    destruct (Z.leb_spec (ndigits M + e) (-324)) as [Hg|_].
    { exfalso. assert (10 ^ (ndigits M + 324) <= 10 ^ (- e)) as Hp
        by (apply Z.pow_le_mono_r; lia).
      rewrite Z.pow_add_r, (pow10_split (- e)) in Hp by lia. fold P324 in Hp.
      assert (2 ^ (- e) <= 2 ^ 1074) by (apply pow2_le; unfold emin in *; lia).
      nia. }
    destruct (Z.ltb_spec e 0); [|lia]. rewrite HM.
    apply round_ratio_exact; [lia|apply Z.pow_pos_nonneg; lia|done|].
    unfold scale_num, scale_den. destruct (Z.ltb_spec e 0); [|lia].
    rewrite pow10_split by lia. lia.
  - assert (0 < 2 ^ e) by (apply pow2_pos; lia).
    set (M := Z.to_N (Zpos m * 2 ^ e)).
    assert (Z.of_N M = Zpos m * 2 ^ e) as HM by (unfold M; rewrite Z2N.id; lia).
    assert (0 < M)%N by lia.
    destruct (ndigits_bounds M) as [Hlo Hhi]; [done|]. pose proof (ndigits_pos M).
    destruct (N.eqb_spec M 0); [lia|].
    destruct (Z.leb_spec 309 (ndigits M + 0 - 1)) as [Hg|_].
    { exfalso. assert (P309 <= 10 ^ (ndigits M - 1)) as Hp
        by (apply Z.pow_le_mono_r; lia).
      assert (2 ^ e <= 2 ^ 971) by (apply pow2_le; unfold emax_finite in *; lia).
      nia. }
    destruct (Z.leb_spec (ndigits M + 0) (-324)); [lia|].
    simpl (0 <? 0). rewrite HM, Z.pow_0_r, Z.mul_1_r.
    apply round_ratio_exact; [lia|lia|done|].
    unfold scale_num, scale_den. destruct (Z.ltb_spec e 0); lia.
Qed.

Lemma candidate_ok v a b n k c : candidate v a b n k = Some c -> dec_is v c = true.
Proof.
  unfold candidate. destruct (if n - Z.of_nat k <? 0 then _ else _) as [x y].
  generalize (Z.to_N (x / y), n - Z.of_nat k); intros lo.
  generalize (if x / y + 1 =? 10 ^ Z.of_nat k
              then (Z.to_N (10 ^ (Z.of_nat k - 1)), n - Z.of_nat k + 1)
              else (Z.to_N (x / y + 1), n - Z.of_nat k)); intros hi.
  destruct (dec_is v lo) eqn:El, (dec_is v hi) eqn:Eh; try congruence.
  destruct (2 * (x mod y) ?= y); [destruct (Z.even _)| |]; congruence.
Qed.

Lemma first_candidate_ok v f ks d :
  (forall k c, f k = Some c -> dec_is v c = true) -> dec_is v d = true ->
  dec_is v (first_candidate f ks d) = true.
Proof.
  intros Hf Hd. induction ks as [|k ks IH]; simpl; [done|].
  destruct (f k) eqn:E; eauto.
Qed.

Lemma shortest_decimal_ok m e :
  canon (Zpos m) e ->
  num_of_decimal false (shortest_decimal m e).1 (shortest_decimal m e).2
  = S754_finite false m e.
Proof.
  intros Hc. apply (bool_decide_eq_true_1 _).
  apply first_candidate_ok; [|by apply exact_decimal_ok].
  intros k c. apply candidate_ok.
Qed.

(** ** Printed numbers are decimal literals *)

Lemma forallb_take {A} (p : A -> bool) n l :
  forallb p l = true -> forallb p (take n l) = true.
Proof.
  intros H. rewrite <- (take_drop n l), forallb_app in H.
  by apply andb_true_iff in H as [? _].
Qed.

Lemma forallb_drop {A} (p : A -> bool) n l :
  forallb p l = true -> forallb p (drop n l) = true.
Proof.
  intros H. rewrite <- (take_drop n l), forallb_app in H.
  by apply andb_true_iff in H as [_ ?].
Qed.

Lemma zeros_digits n : forallb is_digit (zeros n) = true.
Proof. unfold zeros. by induction (Z.to_nat n). Qed.

(** Integer digits alone. *)
Lemma scan_mantissa_int ip r :
  ip <> [] -> forallb is_digit ip = true ->
  match r with [] => True | c :: _ => is_digit c = false /\ c <> 46%N end ->
  scan_mantissa (ip ++ r) = Some (ip, [], r).
Proof.
  intros Hne Hd Hr. unfold scan_mantissa.
  rewrite span_prefix; [|done|by destruct r as [|c r]; [|destruct Hr]].
  destruct ip as [|c0 ip]; [done|].
  destruct r as [|c r]; [done|]. destruct Hr as [_ Hc].
  by destruct (N.eqb_spec c 46).
Qed.

(** Integer digits, the point, and fraction digits. *)
Lemma scan_mantissa_frac ip fp r :
  ip <> [] -> forallb is_digit ip = true -> forallb is_digit fp = true ->
  match r with [] => True | c :: _ => is_digit c = false end ->
  scan_mantissa (ip ++ 46%N :: fp ++ r) = Some (ip, fp, r).
Proof.
  intros Hne Hd Hf Hr. unfold scan_mantissa.
  rewrite span_prefix by done.
  destruct ip as [|c0 ip]; [done|]. simpl.
  by rewrite span_prefix.
Qed.

Lemma scan_exponent_suffix x : scan_exponent (exponent_suffix x) = Some (x, []).
Proof.
  unfold exponent_suffix, scan_exponent. simpl.
  assert (span is_digit (string_of_N (Z.abs_N x)) = (string_of_N (Z.abs_N x), [])) as Hs.
  { rewrite <- (app_nil_r (string_of_N _)) at 1.
    apply span_prefix; [apply string_of_N_digits|done]. }
  pose proof (digits_value_string_of_N (Z.abs_N x)) as Hv.
  pose proof (string_of_N_nonempty (Z.abs_N x)).
  destruct (Z.ltb_spec x 0); simpl; rewrite Hs, Hv;
    (destruct (string_of_N (Z.abs_N x)); [done|]); f_equal; f_equal; lia.
Qed.

(** Reading back the printed digits gives the same decimal value. *)
Lemma scan_format m t :
  exists d, scan_decimal (format_decimal m t) = Some (d, []) /\
            forall s, num_of_dec s d = num_of_decimal s m t.
Proof.
  unfold format_decimal, scan_decimal.
  pose proof (string_of_N_nonempty m) as Hne.
  pose proof (string_of_N_digits m) as Hdig.
  pose proof (digits_value_string_of_N m) as Hval.
  set (ds := string_of_N m) in *. set (k := Z.of_nat (length ds)).
  assert (0 < k) by (unfold k; destruct ds; [done|simpl; lia]).
  destruct ((k <=? t + k) && (t + k <=? 21)) eqn:E1.
  { apply andb_true_iff in E1 as [E1%Z.leb_le _].
    rewrite <- (app_nil_r (ds ++ zeros t)), scan_mantissa_int; [|..|done].
    - eexists. split; [reflexivity|]. intros s. unfold num_of_dec. simpl.
      rewrite app_nil_r, digits_value_app, Hval.
      unfold zeros. rewrite digits_value_trailing_zeros.
      rewrite <- (num_of_decimal_shift s m t) by lia.
      do 2 f_equal. f_equal. lia.
    - destruct ds; done.
    - by rewrite forallb_app, Hdig, zeros_digits. }
  destruct ((0 <? t + k) && (t + k <=? 21)) eqn:E2.
  { apply andb_true_iff in E2 as [E2%Z.ltb_lt E2'%Z.leb_le].
    apply andb_false_iff in E1 as [E1%Z.leb_gt|E1%Z.leb_gt]; [|lia].
    set (i := Z.to_nat (t + k)). simpl app.
    rewrite <- (app_nil_r (drop i ds)).
    change ([46%N] ++ drop i ds ++ []) with (46%N :: drop i ds ++ []).
    rewrite scan_mantissa_frac; try done.
    - eexists. split; [reflexivity|]. intros s. unfold num_of_dec. simpl.
      rewrite take_drop, Hval, length_drop. f_equal. unfold i, k. lia.
    - intros Hi. apply (f_equal length) in Hi. rewrite length_take in Hi.
      unfold i, k in *. simpl in Hi. lia.
    - by apply forallb_take.
    - by apply forallb_drop. }
  destruct ((-6 <? t + k) && (t + k <=? 0)) eqn:E3.
  { apply andb_true_iff in E3 as [E3%Z.ltb_lt E3'%Z.leb_le].
    change (js "0." ++ zeros (- (t + k)) ++ ds)
      with ([48%N] ++ 46%N :: zeros (- (t + k)) ++ ds).
    rewrite <- (app_nil_r (zeros (- (t + k)) ++ ds)).
    rewrite scan_mantissa_frac; try done.
    - eexists. split; [reflexivity|]. intros s. unfold num_of_dec, zeros. simpl.
      change (48%N :: replicate ?n 48%N ++ ds) with (replicate (S n) 48%N ++ ds).
      rewrite digits_value_zeros, Hval, length_app, length_replicate.
      f_equal. unfold k in *. lia.
    - by rewrite forallb_app, zeros_digits, Hdig. }
  clearbody ds. destruct ds as [|c0 ds']; [done|]. simpl in Hdig.
  apply andb_true_iff in Hdig as [Hc0 Hdig].
  destruct ds' as [|c1 ds'].
  - rewrite scan_mantissa_int; [|done|simpl; by rewrite Hc0|done].
    rewrite scan_exponent_suffix. eexists. split; [reflexivity|].
    intros s. unfold num_of_dec. cbn [dec_mant dec_exp app with_point].
    rewrite Hval. f_equal. unfold k. simpl length. lia.
  - change (with_point (c0 :: c1 :: ds') ++ exponent_suffix (t + k - 1))
      with ([c0] ++ 46%N :: (c1 :: ds') ++ exponent_suffix (t + k - 1)).
    rewrite scan_mantissa_frac; [|done|simpl; by rewrite Hc0|done|done].
    rewrite scan_exponent_suffix. eexists. split; [reflexivity|].
    intros s. unfold num_of_dec. cbn [dec_mant dec_exp app].
    rewrite Hval. f_equal.
    unfold k. simpl length. lia.
Qed.

(** A text of the number alphabet starting with a digit has nothing to trim
    and no radix prefix. *)
Definition num_char (c : N) : bool :=
  is_digit c || (c =? 46)%N || (c =? 101)%N || (c =? 43)%N || (c =? 45)%N.

Lemma num_char_not_space c : num_char c = true -> is_space c = false.
Proof.
  unfold num_char, is_digit, is_space, in_range. intros H.
  repeat match goal with
  | |- _ || _ = false => apply orb_false_iff; split
  end; rewrite ?andb_false_iff, ?N.leb_gt, ?N.eqb_neq;
  rewrite !orb_true_iff, andb_true_iff, !N.leb_le, !N.eqb_eq in H; lia.
Qed.

Lemma drop_while_none p s : forallb p s = true ->
  (forall c, p c = true -> is_space c = false) -> drop_while is_space s = s.
Proof.
  intros Hs Hp. destruct s as [|c s]; simpl in *; [done|].
  apply andb_true_iff in Hs as [Hc _]. by rewrite (Hp _ Hc).
Qed.

Lemma trim_num_chars s : forallb num_char s = true -> trim s = s.
Proof.
  intros Hs. unfold trim, trim_start, trim_end.
  rewrite (drop_while_none num_char s Hs num_char_not_space).
  rewrite (drop_while_none num_char); [apply reverse_involutive| |].
  - by rewrite forallb_reverse.
  - apply num_char_not_space.
Qed.

Lemma digits_num_chars s : forallb is_digit s = true -> forallb num_char s = true.
Proof.
  rewrite !forallb_forall. intros H x Hx. specialize (H x Hx).
  unfold num_char. by rewrite H.
Qed.

Lemma exponent_suffix_chars x : forallb num_char (exponent_suffix x) = true.
Proof.
  unfold exponent_suffix. rewrite !forallb_app.
  rewrite (digits_num_chars (string_of_N _)) by apply string_of_N_digits.
  by destruct (x <? 0).
Qed.

Lemma format_decimal_chars m t : forallb num_char (format_decimal m t) = true.
Proof.
  unfold format_decimal. pose proof (string_of_N_digits m) as Hd.
  set (ds := string_of_N m) in *.
  pose proof (fun n => digits_num_chars _ (zeros_digits n)) as Hz.
  repeat case_match; rewrite ?forallb_app, ?Hz, ?exponent_suffix_chars;
    rewrite ?(digits_num_chars (take _ ds)) by (by apply forallb_take);
    rewrite ?(digits_num_chars (drop _ ds)) by (by apply forallb_drop);
    rewrite ?(digits_num_chars ds) by done; try done.
  apply digits_num_chars in Hd. clearbody ds.
  destruct ds as [|c [|c' ds']]; cbn [with_point forallb] in *; [done|..];
    rewrite ?andb_true_r in *; [done|]. exact Hd.
Qed.

Lemma format_decimal_head m t :
  exists c r, format_decimal m t = c :: r /\ is_digit c = true.
Proof.
  unfold format_decimal. pose proof (string_of_N_digits m) as Hd.
  pose proof (string_of_N_nonempty m) as Hne.
  set (ds := string_of_N m) in *. clearbody ds.
  destruct ds as [|c ds]; [done|].
  cbn [forallb] in Hd. apply andb_true_iff in Hd as [Hc Hd].
  repeat case_match; [by eexists _, _| |by eexists _, _|].
  - destruct (Z.to_nat _) eqn:E; [|by eexists _, _].
    apply andb_true_iff in H0 as [H0%Z.ltb_lt _]. lia.
  - destruct ds; by eexists _, _.
Qed.

Lemma scan_decimal_head_digit c r d :
  scan_decimal (c :: r) = Some (d, []) -> is_digit c = true ->
  c = 48%N -> radix_prefix r = None.
Proof.
  intros Hs Hc ->. destruct r as [|c' r]; [done|]. unfold radix_prefix.
  destruct ((c' =? 120) || (c' =? 88) || (c' =? 111) || (c' =? 79)
            || (c' =? 98) || (c' =? 66))%N eqn:E.
  2: { apply orb_false_iff in E as [E ?]. apply orb_false_iff in E as [E ?].
       apply orb_false_iff in E as [E ?]. apply orb_false_iff in E as [E ?].
       apply orb_false_iff in E as [? ?].
       repeat match goal with H : (_ =? _)%N = false |- _ => rewrite H; clear H end.
       done. }
  exfalso. rewrite !orb_true_iff, !N.eqb_eq in E.
  destruct E as [[[[[->| ->]| ->]| ->]| ->]| ->]; discriminate Hs.
Qed.

(** [Number(text)] of an unsigned decimal literal without white space. *)
Lemma js_Number_literal s c r d :
  s = c :: r -> is_digit c = true -> forallb num_char s = true ->
  scan_decimal s = Some (d, []) -> js_Number s = num_of_dec false d.
Proof.
  intros -> Hc Hch Hs. unfold js_Number. rewrite trim_num_chars by done.
  assert (c <> 43 /\ c <> 45 /\ c <> 73)%N as (H1 & H2 & H3).
  { unfold is_digit, in_range in Hc. apply andb_true_iff in Hc as [?%N.leb_le ?%N.leb_le]. lia. }
  destruct (N.eqb_spec c 43); [done|]. destruct (N.eqb_spec c 45); [done|].
  assert (Number_of_signed false (c :: r) = num_of_dec false d) as HN.
  { unfold Number_of_signed. rewrite Hs.
    destruct (str_eqb (c :: r) (js "Infinity")) eqn:Ei; [|done].
    apply str_eqb_eq in Ei. injection Ei as Ei _. by subst c. }
  destruct (N.eqb_spec c 48) as [->|]; [|done].
  by rewrite (scan_decimal_head_digit _ _ _ Hs Hc eq_refl).
Qed.

(** ** The round trip

    For every finite, non-negative, canonical number except negative zero,
    the text [String(x)] is an unsigned decimal literal and reads back as
    [x]. *)
Lemma Number_of_string_of_num x :
  num_canon x -> is_finite x = true -> sign_bit x = false ->
  (exists d, scan_decimal (string_of_num x) = Some (d, []) /\ num_of_dec false d = x)
  /\ js_Number (string_of_num x) = x
  /\ trim (string_of_num x) = string_of_num x.
Proof.
  intros Hc Hf Hs. destruct x as [s|s| |s m e]; try done.
  - simpl in Hs. subst s. split; [|done]. by exists (Decimal 0 0).
  - simpl in Hs. subst s. simpl.
    pose proof (shortest_decimal_ok m e Hc) as Hsd.
    destruct (shortest_decimal m e) as [d t]. cbn [fst snd] in Hsd. simpl.
    destruct (scan_format d t) as (dd & Hscan & Hdd).
    destruct (format_decimal_head d t) as (c & r & Hcr & Hdig).
    pose proof (format_decimal_chars d t) as Hch.
    split; [exists dd; split; [done|]; by rewrite Hdd|].
    split; [|by apply trim_num_chars].
    rewrite (js_Number_literal _ c r dd Hcr Hdig Hch Hscan). by rewrite Hdd.
Qed.

(** ** Scanning consumes a non-empty prefix *)

(** The characters a decimal literal is made of. *)
Definition literal_char (c : N) : bool :=
  is_digit c || (c =? 46)%N || (c =? 101)%N || (c =? 69)%N || (c =? 43)%N || (c =? 45)%N.

Lemma digits_literal s : forallb is_digit s = true -> forallb literal_char s = true.
Proof. rewrite !forallb_forall. intros H x Hx. unfold literal_char. by rewrite H. Qed.

Lemma span_digits_literal s : forallb literal_char (span is_digit s).1 = true.
Proof. apply digits_literal, span_all. Qed.

Lemma scan_exponent_app s x r : scan_exponent s = Some (x, r) ->
  exists t, s = t ++ r /\ forallb literal_char t = true.
Proof.
  unfold scan_exponent. destruct s as [|c s]; [done|].
  destruct ((c =? 101)%N || (c =? 69)%N) eqn:Ec; [|done].
  set (p := match s with [] => _ | d :: s'' => _ end).
  assert (exists u, s = u ++ p.2 /\ forallb literal_char u = true) as (u & Hu & Lu).
  { unfold p. destruct s as [|d s']; [by exists []|].
    destruct (N.eqb_spec d 43) as [->|_]; [by exists [43%N]|].
    destruct (N.eqb_spec d 45) as [->|_]; [by exists [45%N]|]. by exists []. }
  destruct p as [neg s1]. simpl in Hu.
  pose proof (span_app is_digit s1) as Hs1. pose proof (span_digits_literal s1) as Ls1.
  destruct (span is_digit s1) as [ds rest]. simpl in Hs1, Ls1.
  destruct ds as [|d ds]; [done|]. intros [= <- <-].
  exists (c :: u ++ d :: ds). split.
  - simpl. rewrite <- app_assoc. by rewrite Hs1, <- Hu.
  - cbn [forallb]. rewrite forallb_app, Lu. apply andb_true_iff. split; [|done].
    unfold literal_char. apply orb_true_iff in Ec as [-> | ->]; by rewrite ?orb_true_r.
Qed.

Lemma scan_mantissa_app s ip fp r : scan_mantissa s = Some (ip, fp, r) ->
  exists t, s = t ++ r /\ t <> [] /\ forallb literal_char t = true.
Proof.
  unfold scan_mantissa. pose proof (span_app is_digit s) as Hs.
  pose proof (span_digits_literal s) as Ls.
  destruct (span is_digit s) as [i0 r0]. simpl in Hs, Ls. intros H.
  destruct i0 as [|d0 i0], r0 as [|c r']; try done.
  - destruct (N.eqb_spec c 46) as [->|_]; [|done]. pose proof (span_app is_digit r') as Hr.
    pose proof (span_digits_literal r') as Lr.
    destruct (span is_digit r') as [f0 r'']. simpl in *.
    destruct f0 as [|f f0]; [done|]. injection H as <- <- <-.
    exists (46%N :: f :: f0). split_and!; [simpl; by rewrite <- Hs, <- Hr|done|done].
  - injection H as <- <- <-. exists (d0 :: i0). by rewrite <- Hs, !app_nil_r.
  - destruct (N.eqb_spec c 46) as [->|_].
    + pose proof (span_app is_digit r') as Hr. pose proof (span_digits_literal r') as Lr.
      destruct (span is_digit r') as [f0 r'']. simpl in Hr, Lr. injection H as <- <- <-.
      exists ((d0 :: i0) ++ 46%N :: f0). split_and!; [|done|].
      * rewrite <- app_assoc. simpl. by rewrite <- Hs, <- Hr.
      * rewrite forallb_app. cbn [forallb] in *. rewrite Ls, Lr. done.
    + injection H as <- <- <-. exists (d0 :: i0). by rewrite <- Hs.
Qed.

Lemma scan_decimal_app s d r : scan_decimal s = Some (d, r) ->
  exists t, s = t ++ r /\ t <> [] /\ forallb literal_char t = true.
Proof.
  unfold scan_decimal. destruct (scan_mantissa s) as [[[ip fp] r0]|] eqn:E; [|done].
  apply scan_mantissa_app in E as (t & -> & Ht & Lt).
  destruct (scan_exponent r0) as [[x r']|] eqn:Ex; intros [= <- <-].
  - apply scan_exponent_app in Ex as (u & -> & Lu). exists (t ++ u).
    split_and!; [by rewrite app_assoc|by destruct t|by rewrite forallb_app, Lt, Lu].
  - by exists t.
Qed.

(** ** Numbers followed by other text *)

Definition head_not (p : N -> bool) (r : str) : bool :=
  match r with [] => true | c :: _ => negb (p c) end.

(** A run that ends inside the text, or at a character outside the class. *)
Lemma span_extend p a : forall r,
  head_not p r = true -> span p (a ++ r) = ((span p a).1, (span p a).2 ++ r).
Proof.
  induction a as [|c a IH]; intros r Hr; cbn [app span fst snd].
  - destruct r as [|c r]; [done|]. cbn in Hr. apply negb_true_iff in Hr. cbn. by rewrite Hr.
  - destruct (p c); [|done]. rewrite IH by done. by destruct (span p a).
Qed.

Lemma digit_literal c : is_digit c = true -> literal_char c = true.
Proof. intros H. unfold literal_char. by rewrite H. Qed.

Lemma head_not_digit r : head_not literal_char r = true -> head_not is_digit r = true.
Proof.
  destruct r as [|c r]; [done|]. cbn. destruct (is_digit c) eqn:E; [|done].
  by rewrite (digit_literal c E).
Qed.

Lemma scan_exponent_extend s x r :
  head_not literal_char r = true -> scan_exponent s = Some (x, []) ->
  scan_exponent (s ++ r) = Some (x, r).
Proof.
  intros Hr H. pose proof (head_not_digit r Hr) as Hd.
  destruct s as [|c s]; [done|]. unfold scan_exponent in H |- *. cbn [app].
  destruct ((c =? 101)%N || (c =? 69)%N); [|done].
  destruct s as [|d s]; [done|]. cbn [app].
  assert (forall u, span is_digit (u ++ r) = ((span is_digit u).1, (span is_digit u).2 ++ r)) as S
    by (intros; by apply span_extend).
  destruct (d =? 43)%N; [|destruct (d =? 45)%N].
  3: change (d :: s ++ r) with ((d :: s) ++ r).
  all: rewrite S; destruct (span is_digit _) as [ds rest]; cbn [fst snd];
    destruct ds; [done|]; injection H as <- ->; reflexivity.
Qed.

Lemma scan_exponent_stop r : head_not literal_char r = true -> scan_exponent r = None.
Proof.
  destruct r as [|c r]; [done|]. cbn. unfold literal_char.
  destruct (c =? 101)%N; [by rewrite !orb_true_r|]. destruct (c =? 69)%N; [|done].
  by rewrite !orb_true_r.
Qed.

Lemma scan_mantissa_extend s ip fp t r :
  head_not literal_char r = true -> scan_mantissa s = Some (ip, fp, t) ->
  scan_mantissa (s ++ r) = Some (ip, fp, t ++ r).
Proof.
  intros Hr H. pose proof (head_not_digit r Hr) as Hd.
  assert (forall u, span is_digit (u ++ r) = ((span is_digit u).1, (span is_digit u).2 ++ r)) as S
    by (intros; by apply span_extend).
  unfold scan_mantissa in H |- *. rewrite S. destruct (span is_digit s) as [i0 r0].
  cbn [fst snd]. destruct i0 as [|d0 i0], r0 as [|c r']; try done; cbn [app].
  - destruct (c =? 46)%N; [|done]. rewrite S. destruct (span is_digit r') as [f0 r''].
    cbn [fst snd]. destruct f0; [done|]. by injection H as <- <- <-.
  - injection H as <- <- <-. cbn [app]. destruct r as [|c r]; [done|].
    cbn in Hr. unfold literal_char in Hr. destruct (c =? 46)%N; [|done].
    by rewrite !orb_true_r in Hr.
  - destruct (c =? 46)%N; [|by injection H as <- <- <-].
    rewrite S. destruct (span is_digit r') as [f0 r'']. cbn [fst snd].
    by injection H as <- <- <-.
Qed.

Lemma scan_decimal_extend s d r :
  head_not literal_char r = true -> scan_decimal s = Some (d, []) ->
  scan_decimal (s ++ r) = Some (d, r).
Proof.
  intros Hr H. unfold scan_decimal in H |- *.
  destruct (scan_mantissa s) as [[[ip fp] t]|] eqn:E; [|done].
  rewrite (scan_mantissa_extend _ _ _ _ _ Hr E).
  destruct (scan_exponent t) as [[x r']|] eqn:X; injection H as H1 H2; subst.
  - by rewrite (scan_exponent_extend _ _ _ Hr X).
  - cbn [app]. by rewrite scan_exponent_stop.
Qed.


(** ** Numbers have no leading zeros *)

Lemma digits_rev_last fuel : forall n : N, (0 < n < 2 ^ N.of_nat fuel)%N ->
  exists l d, digits_rev fuel n = l ++ [d] /\ (d <> 48)%N.
Proof.
  induction fuel as [|f IH]; intros n Hn; [cbn in Hn; lia|]. cbn [digits_rev]. destruct (N.ltb_spec n 10).
  - exists [], (48 + n)%N. split; [done|lia].
  - destruct (IH (n / 10)%N) as (l & d & -> & D).
    + split; [apply N.div_str_pos; lia|]. apply N.Div0.div_lt_upper_bound.
      rewrite Nat2N.inj_succ, N.pow_succ_r' in Hn. lia.
    + by exists ((48 + n mod 10)%N :: l), d.
Qed.

Lemma string_of_N_head n : (0 < n)%N -> exists d r, string_of_N n = d :: r /\ (d <> 48)%N.
Proof.
  intros P. unfold string_of_N. destruct (digits_rev_last (S (N.to_nat (N.log2 n))) n) as (l & d & -> & D).
  - split; [done|]. rewrite Nat2N.inj_succ, N2Nat.id. by apply N.log2_spec.
  - exists d, (reverse l). by rewrite reverse_snoc.
Qed.

(** The texts JSON accepts as numbers without a sign: digits without a leading
    zero, and a point only before a digit. *)
Definition json_digits (s : str) : bool :=
  let '(ip, r) := span is_digit s in
  match ip with
  | [] => false
  | z :: ip' =>
      negb ((z =? 48)%N && negb (match ip' with [] => true | _ => false end)) &&
      match r with
      | p :: r' => negb (p =? 46)%N || match (span is_digit r').1 with [] => false | _ => true end
      | [] => true
      end
  end.

Lemma json_digits_run d ip r : (d <> 48)%N \/ ip = [] -> forallb is_digit (d :: ip) = true ->
  match r with
  | [] => True
  | p :: r' => is_digit p = false /\ (p = 46%N -> exists c r'', r' = c :: r'' /\ is_digit c = true)
  end -> json_digits ((d :: ip) ++ r) = true.
Proof.
  intros Z D R. unfold json_digits. rewrite span_prefix; [|done|by destruct r; [|destruct R]].
  assert (negb ((d =? 48)%N && negb (match ip with [] => true | _ => false end)) = true) as ->.
  { destruct Z as [Z|Z]; [apply N.eqb_neq in Z; by rewrite Z|rewrite Z; by rewrite andb_false_r]. }
  destruct r as [|p r']; [done|]. destruct R as [_ R]. destruct (N.eqb_spec p 46) as [E|]; [|done].
  destruct (R E) as (c & r'' & -> & C). cbn [span negb orb andb]. rewrite C. by destruct (span is_digit r'').
Qed.

Lemma format_json m t : (0 < m)%N -> json_digits (format_decimal m t) = true.
Proof.
  intros P. unfold format_decimal. pose proof (string_of_N_digits m) as Hd. destruct (string_of_N_head m P) as (d & ds & E & D).
  rewrite E in *. set (k := Z.of_nat (length (d :: ds))).
  destruct ((k <=? t + k) && (t + k <=? 21)) eqn:E1.
  { rewrite <- (app_nil_r ((d :: ds) ++ zeros t)). change ((d :: ds) ++ zeros t) with (d :: ds ++ zeros t).
    apply json_digits_run; [by left| |done]. change (d :: ds ++ zeros t) with ((d :: ds) ++ zeros t).
    by rewrite forallb_app, Hd, zeros_digits. }
  destruct ((0 <? t + k) && (t + k <=? 21)) eqn:E2.
  { apply andb_true_iff in E2 as [E2%Z.ltb_lt E2'%Z.leb_le].
    apply andb_false_iff in E1 as [E1%Z.leb_gt|E1%Z.leb_gt]; [|lia].
    destruct (Z.to_nat (t + k)) as [|i] eqn:I; [lia|]. pose proof (forallb_drop is_digit (S i) _ Hd) as Hr.
    destruct (drop (S i) (d :: ds)) as [|c r] eqn:Dr.
    { apply (f_equal length) in Dr. rewrite length_drop in Dr. unfold k in *. cbn in Dr, E1, I. lia. }
    cbn [take]. apply json_digits_run; [by left|by apply (forallb_take is_digit (S i) (d :: ds))|].
    split; [done|]. intros _. exists c, r. split; [done|]. cbn [forallb] in Hr. by apply andb_true_iff in Hr as [Hr _]. }
  destruct ((-6 <? t + k) && (t + k <=? 0)) eqn:E3.
  { change (js "0." ++ zeros (- (t + k)) ++ d :: ds) with ([48%N] ++ 46%N :: zeros (- (t + k)) ++ d :: ds).
    apply json_digits_run; [by right|done|]. split; [done|]. intros _. unfold zeros.
    destruct (Z.to_nat (- (t + k))); [|by eexists _, _]. exists d, ds. split; [done|].
    cbn [forallb] in Hd. by apply andb_true_iff in Hd as [Hd _]. }
  destruct ds as [|d' ds].
  - cbn [with_point]. unfold exponent_suffix. by apply json_digits_run; [left|..].
  - change (with_point (d :: d' :: ds) ++ exponent_suffix (t + k - 1)) with ([d] ++ 46%N :: d' :: ds ++ exponent_suffix (t + k - 1)).
    cbn [forallb] in Hd. apply andb_true_iff in Hd as [Hd Hds]. apply json_digits_run; [by left|by cbn; rewrite Hd|].
    split; [done|]. intros _. exists d', (ds ++ exponent_suffix (t + k - 1)). split; [done|]. by apply andb_true_iff in Hds as [Hds _].
Qed.

Lemma json_digits_extend s r : head_not literal_char r = true -> json_digits s = true -> json_digits (s ++ r) = true.
Proof.
  intros Hr J. pose proof (head_not_digit r Hr) as Hd. unfold json_digits in *. rewrite span_extend by done.
  destruct (span is_digit s) as [ip q]. cbn [fst snd]. destruct ip as [|z ip]; [done|]. apply andb_true_iff in J as [-> J]. cbn [andb].
  destruct q as [|p q]; cbn [app].
  - destruct r as [|c r]; [done|]. cbn in Hr. unfold literal_char in Hr. destruct (N.eqb_spec c 46) as [->|]; [done|done].
  - destruct (p =? 46)%N; [|done]. cbn [negb orb] in *. rewrite span_extend by done. by destruct (span is_digit q).1.
Qed.
