(* ===== verification/JsNumberOrder.v ===== *)
(** * The order of JavaScript numbers

    A finite double is an integer multiple of [2^-1074]; [scaled] is that
    integer.  On canonical numbers the comparison of the hardware is the
    order of these integers, so bounds proved by comparisons of doubles turn
    into bounds on integers. *)

From Stdlib Require Import ZArith Lia Bool SpecFloat.
From stdpp Require Import base list numbers.
From S2P Require Import Prelude JsString JsNumber JsNumberFacts.

Local Open Scope Z_scope.

Definition scaled (x : num) : Z :=
  match x with
  | S754_finite s m e => (if s then -1 else 1) * (Zpos m * 2 ^ (e - emin))
  | _ => 0
  end.

Lemma scaled_pos_compare m1 e1 m2 e2 :
  num_canon (S754_finite false m1 e1) -> num_canon (S754_finite false m2 e2) ->
  match e1 ?= e2 with
  | Lt => Lt
  | Gt => Gt
  | Eq => Pos.compare_cont Eq m1 m2
  end = (Zpos m1 * 2 ^ (e1 - emin) ?= Zpos m2 * 2 ^ (e2 - emin)).
Proof.
  assert (forall m1 e1 m2 e2, num_canon (S754_finite false m1 e1) ->
    num_canon (S754_finite false m2 e2) -> e1 < e2 ->
    Zpos m1 * 2 ^ (e1 - emin) < Zpos m2 * 2 ^ (e2 - emin)) as L.
  { clear. intros m1 e1 m2 e2 H1 H2 He. unfold num_canon, canon, emin in *.
    replace (e2 - -1074) with ((e2 - e1 - 1) + (1 + (e1 - -1074))) by lia.
    rewrite !Z.pow_add_r by lia. change (2 ^ 1) with 2.
    assert (0 < 2 ^ (e1 - -1074)) by (apply Z.pow_pos_nonneg; lia).
    assert (0 < 2 ^ (e2 - e1 - 1)) by (apply Z.pow_pos_nonneg; lia).
    destruct H1 as ((_ & B1) & E1 & _), H2 as (_ & E2 & [H2|H2]); [lia|].
    change (2 ^ 53) with (2 * 2 ^ 52) in B1. revert B1 H2 H H0.
    generalize (2 ^ 52) (2 ^ (e1 - -1074)) (2 ^ (e2 - e1 - 1)). intros K X Y B1 H2 HX HY.
    apply Z.lt_le_trans with (2 * K * X); [nia|].
    apply Z.le_trans with (Zpos m2 * (2 * X)); [nia|]. apply Z.mul_le_mono_nonneg_l; nia. }
  intros H1 H2. destruct (Z.compare_spec e1 e2) as [->|He|He].
  - change (Pos.compare_cont Eq m1 m2) with (Zpos m1 ?= Zpos m2).
    assert (0 < 2 ^ (e2 - emin)) as P
      by (apply Z.pow_pos_nonneg; unfold num_canon, canon, emin in *; lia).
    revert P. generalize (2 ^ (e2 - emin)). intros X P.
    destruct (Z.compare_spec (Zpos m1) (Zpos m2)) as [E|E|E]; symmetry;
      [apply Z.compare_eq_iff|apply Z.compare_lt_iff|apply Z.compare_gt_iff]; nia.
  - symmetry. apply Z.compare_lt_iff. by apply L.
  - symmetry. apply Z.compare_gt_iff. by apply L.
Qed.

Lemma compare_scaled x y :
  num_canon x -> num_canon y -> is_finite x = true -> is_finite y = true ->
  SFcompare x y = Some (scaled x ?= scaled y).
Proof.
  intros Cx Cy Fx Fy.
  assert (forall s m e, num_canon (S754_finite s m e) -> 0 < Zpos m * 2 ^ (e - emin)) as P.
  { clear. intros s m e H. unfold num_canon, canon, emin in *.
    apply Z.mul_pos_pos; [lia|]. apply Z.pow_pos_nonneg; lia. }
  destruct x as [s1|s1| |s1 m1 e1], y as [s2|s2| |s2 m2 e2]; try done;
    unfold SFcompare, scaled; f_equal.
  - pose proof (P _ _ _ Cy). destruct s2; symmetry; [apply Z.compare_gt_iff|apply Z.compare_lt_iff]; lia.
  - pose proof (P _ _ _ Cx). destruct s1; symmetry; [apply Z.compare_lt_iff|apply Z.compare_gt_iff]; lia.
  - pose proof (P _ _ _ Cx). pose proof (P _ _ _ Cy).
    pose proof (scaled_pos_compare m1 e1 m2 e2 Cx Cy) as E.
    destruct s1, s2.
    + change (-1) with (- (1)). rewrite !Z.mul_opp_l, !Z.mul_1_l.
      rewrite (Z.compare_opp (Zpos m1 * 2 ^ (e1 - emin))).
      rewrite (Z.compare_antisym (Zpos m1 * 2 ^ (e1 - emin))), <- E. by destruct (e1 ?= e2).
    + symmetry. apply Z.compare_lt_iff. lia.
    + symmetry. apply Z.compare_gt_iff. lia.
    + by rewrite !Z.mul_1_l.
Qed.

Lemma num_leb_scaled x y :
  num_canon x -> num_canon y -> is_finite x = true -> is_finite y = true ->
  num_leb x y = (scaled x <=? scaled y).
Proof.
  intros. unfold num_leb, SFleb, Z.leb. rewrite compare_scaled by done.
  by destruct (scaled x ?= scaled y).
Qed.

Lemma num_ltb_scaled x y :
  num_canon x -> num_canon y -> is_finite x = true -> is_finite y = true ->
  num_ltb x y = (scaled x <? scaled y).
Proof.
  intros. unfold num_ltb, SFltb, Z.ltb. rewrite compare_scaled by done.
  by destruct (scaled x ?= scaled y).
Qed.

(** ** Integers *)

Definition unit_scale : Z := 2 ^ (- emin).

Lemma scaled_integer x z :
  num_canon x -> is_integer x = true -> num_to_Z x = Some z -> scaled x = z * unit_scale.
Proof.
  destruct x as [s|s| |s m e]; try done; [by intros _ _ [= <-]|].
  intros C H [= <-]. unfold scaled, trunc_abs, unit_scale. cbn in H. unfold is_integral in H.
  unfold num_canon, canon, emin in *. destruct (Z.ltb_spec e 0).
  - apply orb_true_iff in H as [H%Z.leb_le|H%Z.eqb_eq]; [lia|].
    assert (0 < 2 ^ (- e)) by (apply Z.pow_pos_nonneg; lia).
    apply Z.div_exact in H; [|lia]. rewrite H at 1.
    set (q := Zpos m / 2 ^ (- e)). replace (- -1074) with (- e + (e - -1074)) by lia.
    rewrite Z.pow_add_r by lia. destruct s; lia.
  - replace (e - -1074) with (e + - -1074) by lia. rewrite Z.pow_add_r by lia.
    destruct s; lia.
Qed.

Lemma integer_to_Z x : is_integer x = true -> exists z, num_to_Z x = Some z.
Proof. destruct x; try done; eauto. Qed.

Lemma integer_finite x : is_integer x = true -> is_finite x = true.
Proof. by destruct x. Qed.

(** Comparisons of integral doubles are comparisons of integers. *)
Lemma num_leb_integer x y a b :
  num_canon x -> num_canon y -> is_integer x = true -> is_integer y = true ->
  num_to_Z x = Some a -> num_to_Z y = Some b -> num_leb x y = (a <=? b).
Proof.
  intros. rewrite num_leb_scaled by (by auto using integer_finite).
  rewrite (scaled_integer x a), (scaled_integer y b) by done.
  assert (0 < unit_scale) by (apply Z.pow_pos_nonneg; unfold emin; lia).
  destruct (Z.leb_spec a b), (Z.leb_spec (a * unit_scale) (b * unit_scale)); nia.
Qed.

Lemma num_ltb_integer x y a b :
  num_canon x -> num_canon y -> is_integer x = true -> is_integer y = true ->
  num_to_Z x = Some a -> num_to_Z y = Some b -> num_ltb x y = (a <? b).
Proof.
  intros. rewrite num_ltb_scaled by (by auto using integer_finite).
  rewrite (scaled_integer x a), (scaled_integer y b) by done.
  assert (0 < unit_scale) by (apply Z.pow_pos_nonneg; unfold emin; lia).
  destruct (Z.ltb_spec a b), (Z.ltb_spec (a * unit_scale) (b * unit_scale)); nia.
Qed.

Lemma js_Number_canon s : num_canon (js_Number s).
Proof.
  unfold js_Number, Number_of_signed.
  repeat match goal with
  | |- num_canon (num_of_dec _ _) => apply num_of_decimal_canon
  | |- num_canon (num_of_decimal _ _ _) => apply num_of_decimal_canon
  | |- num_canon (num_of_Z _) => apply num_of_decimal_canon
  | |- num_canon (match ?x with _ => _ end) => destruct x
  | |- num_canon (if ?x then _ else _) => destruct x
  | |- _ => done
  end.
Qed.

Lemma lit_canon z : num_canon (lit z).
Proof. apply num_of_decimal_canon. Qed.

(** ** Order laws, infinities included *)

Lemma num_leb_trans x y z :
  num_canon x -> num_canon y -> num_canon z ->
  num_leb x y = true -> num_leb y z = true -> num_leb x z = true.
Proof.
  intros Cx Cy Cz.
  destruct (is_finite x) eqn:Fx, (is_finite y) eqn:Fy, (is_finite z) eqn:Fz.
  - rewrite !num_leb_scaled by done. lia.
  - destruct z as [|[]| |]; try done; by destruct x, y.
  - destruct y as [|[]| |]; try done; by destruct x, z.
  - destruct y as [|[]| |], z as [|[]| |]; try done; by destruct x.
  - destruct x as [|[]| |]; try done; by destruct y, z.
  - destruct x as [|[]| |], z as [|[]| |]; try done; by destruct y.
  - destruct x as [|[]| |], y as [|[]| |]; try done; by destruct z.
  - destruct x as [|[]| |], y as [|[]| |], z as [|[]| |]; done.
Qed.
