(* ===== verification/JsNumberExact.v ===== *)
(** * Exact integer sums

    Adding two non-negative integers below 2^53 whose sum stays below 2^53 is
    exact on doubles.  The proof follows the executable specification of the
    addition: alignment, the search of the result's exponent, and rounding. *)

From Stdlib Require Import ZArith Lia Bool SpecFloat.
From stdpp Require Import base list numbers.
From S2P Require Import Prelude JsString JsNumber JsNumberFacts.

Local Open Scope Z_scope.

(** ** The steps of the specification *)

Lemma digits_log2 p : Zpos (digits2_pos p) = Z.log2 (Zpos p) + 1.
Proof.
  assert (digits2_pos p = Pos.size p) as -> by (induction p as [p IH|p IH|]; cbn; rewrite ?IH; done).
  destruct p; cbn; lia.
Qed.

Lemma iter_double p d : Zpos (Pos.iter xO p d) = Zpos p * 2 ^ Zpos d.
Proof.
  induction d as [|d IH] using Pos.peano_ind; [cbn; lia|].
  rewrite Pos.iter_succ, Pos2Z.inj_succ, Z.pow_succ_r by lia. lia.
Qed.

Lemma iter_pos_iter {A} (f : A -> A) n x : SpecFloat.iter_pos f n x = Pos.iter f x n.
Proof.
  revert x. induction n as [n IH|n IH|]; intros x; cbn; [|by rewrite !IH|done].
  rewrite !IH. by rewrite !Pos.iter_swap.
Qed.

(** Shifting out zeros is exact. *)
Lemma shift_zeros p n :
  SpecFloat.iter_pos shr_1 n (Build_shr_record (Zpos p * 2 ^ Zpos n) false false)
  = Build_shr_record (Zpos p) false false.
Proof.
  rewrite iter_pos_iter. revert p. induction n as [|n IH] using Pos.peano_ind; intros p.
  - replace (Zpos p * 2 ^ 1) with (Zpos (p~0)) by lia. done.
  - rewrite Pos2Z.inj_succ, Z.pow_succ_r by lia.
    replace (Zpos p * (2 * 2 ^ Zpos n)) with (Zpos (p~0) * 2 ^ Zpos n) by lia.
    by rewrite Pos.iter_succ, IH.
Qed.

Lemma normal_log2 p : 2 ^ 52 <= Zpos p < 2 ^ 53 -> Z.log2 (Zpos p) = 52.
Proof. intros. apply Z.log2_unique; lia. Qed.

Section Round.
Variables (p : positive) (q : Z).
Hypothesis Hp : 2 ^ 52 <= Zpos p < 2 ^ 53.
Hypothesis Hq : -1074 <= q <= 971.

Lemma normal_fexp d : d = 53 + q -> fexp num_prec num_emax d = q.
Proof. intros ->. unfold fexp, SpecFloat.emin, num_prec, num_emax. lia. Qed.

Lemma shr_fexp_normal : shr_fexp num_prec num_emax (Zpos p) q loc_Exact = (Build_shr_record (Zpos p) false false, q).
Proof.
  unfold shr_fexp. cbn [Zdigits2]. rewrite digits_log2, normal_log2 by done.
  rewrite normal_fexp, Z.sub_diag by lia. done.
Qed.

Lemma round_aux_normal s : binary_round_aux num_prec num_emax s (Zpos p) q loc_Exact = S754_finite s p q.
Proof.
  unfold binary_round_aux. rewrite shr_fexp_normal. cbn [shr_m loc_of_shr_record round_nearest_even].
  rewrite shr_fexp_normal. cbn [shr_m]. unfold num_prec, num_emax.
  by destruct (Z.leb_spec q (1024 - 53)); [|lia].
Qed.

(** A value that has the exponent [q] and mantissa [p] rounds to them. *)
Lemma round_up m e : e < q -> Zpos m = Zpos p * 2 ^ (q - e) -> binary_round num_prec num_emax false m e = S754_finite false p q.
Proof.
  intros He Hm. unfold binary_round.
  assert (Z.log2 (Zpos m) = 52 + (q - e)) as L by (rewrite Hm, Z.log2_mul_pow2, normal_log2 by lia; lia).
  rewrite digits_log2, L, normal_fexp by lia. unfold shl_align.
  destruct (q - e) as [|d|d] eqn:D; [lia| |lia].
  unfold binary_round_aux, shr_fexp at 1. cbn [Zdigits2]. rewrite digits_log2, L, normal_fexp, D by lia.
  cbn [shr shr_record_of_loc]. rewrite Hm, shift_zeros. cbn [shr_m loc_of_shr_record round_nearest_even].
  replace (e + Zpos d) with q by lia. rewrite shr_fexp_normal. cbn [shr_m].
  unfold num_prec, num_emax. by destruct (Z.leb_spec q (1024 - 53)); [|lia].
Qed.

Lemma round_down m e : q <= e -> Zpos p = Zpos m * 2 ^ (e - q) -> binary_round num_prec num_emax false m e = S754_finite false p q.
Proof.
  intros He Hm. unfold binary_round.
  assert (Z.log2 (Zpos m) + (e - q) = 52) as L.
  { rewrite <- (normal_log2 p) by done. rewrite Hm. symmetry. rewrite Z.log2_mul_pow2; lia. }
  rewrite digits_log2, normal_fexp by lia. unfold shl_align.
  destruct (q - e) as [|d|d] eqn:D; [|lia|].
  - assert (e = q) as -> by lia. rewrite Z.sub_diag in Hm. assert (m = p) as -> by lia. apply round_aux_normal.
  - assert (Pos.iter xO m d = p) as ->; [|apply round_aux_normal].
    apply (inj Zpos). rewrite iter_double, Hm. f_equal. f_equal. lia.
Qed.
End Round.

(** ** Integers *)

(** The mantissa and exponent of an integer. *)
Definition int_mantissa (z : Z) : positive := Z.to_pos (z * 2 ^ (52 - Z.log2 z)).
Definition int_exponent (z : Z) : Z := Z.log2 z - 52.

Section Integer.
Variable z : Z.
Hypothesis Hz : 0 < z < 2 ^ 53.

Lemma int_log2 : 0 <= Z.log2 z <= 52.
Proof.
  split; [apply Z.log2_nonneg|]. assert (Z.log2 z < 53); [|lia]. apply Z.log2_lt_pow2; lia.
Qed.

Lemma int_mantissa_Z : Zpos (int_mantissa z) = z * 2 ^ (52 - Z.log2 z).
Proof. unfold int_mantissa. rewrite Z2Pos.id; [done|]. pose proof int_log2. pose proof (pow2_pos (52 - Z.log2 z)). nia. Qed.

Lemma int_mantissa_normal : 2 ^ 52 <= Zpos (int_mantissa z) < 2 ^ 53.
Proof.
  rewrite int_mantissa_Z. pose proof int_log2. destruct (Z.log2_spec z) as [L U]; [lia|].
  rewrite Z.pow_succ_r in U by lia. pose proof (pow2_pos (52 - Z.log2 z)).
  assert (2 ^ Z.log2 z * 2 ^ (52 - Z.log2 z) = 2 ^ 52) as P by (rewrite <- Z.pow_add_r by lia; f_equal; lia).
  change (2 ^ 53) with (2 * 2 ^ 52). rewrite <- P. nia.
Qed.

Lemma lit_integer : lit z = S754_finite false (int_mantissa z) (int_exponent z).
Proof.
  pose proof int_log2 as L. unfold lit, num_of_Z, num_of_decimal.
  replace (z <? 0) with false by lia. destruct (N.eqb_spec (Z.abs_N z) 0); [lia|].
  assert (ndigits (Z.abs_N z) <= 16) as D.
  { destruct (ndigits_bounds (Z.abs_N z)) as [B _]; [lia|]. apply Z.nlt_ge. intros K.
    assert (10 ^ 16 <= 10 ^ (ndigits (Z.abs_N z) - 1)) by (apply Z.pow_le_mono_r; lia).
    assert (2 ^ 53 < 10 ^ 16) by done. lia. }
  pose proof (ndigits_pos (Z.abs_N z)).
  destruct (Z.leb_spec 309 (ndigits (Z.abs_N z) + 0 - 1)); [lia|].
  destruct (Z.leb_spec (ndigits (Z.abs_N z) + 0) (-324)); [lia|]. cbn [Z.ltb].
  rewrite Z.pow_0_r, Z.mul_1_r. replace (Z.of_N (Z.abs_N z)) with z by lia.
  apply round_ratio_exact; [lia|lia| |].
  - pose proof int_mantissa_normal. unfold canon, emin, emax_finite, int_exponent. lia.
  - rewrite int_mantissa_Z. unfold scale_num, scale_den, int_exponent.
    destruct (Z.ltb_spec (Z.log2 z - 52) 0).
    + replace (- (Z.log2 z - 52)) with (52 - Z.log2 z) by lia. lia.
    + replace (Z.log2 z) with 52 by lia. change (2 ^ (52 - 52)) with 1. lia.
Qed.

(** Any mantissa and exponent of an integer normalise to its double. *)
Lemma normalize_integer m e : e <= 0 -> m = z * 2 ^ (- e) ->
  binary_normalize num_prec num_emax m e false = lit z.
Proof.
  intros He Hm. pose proof (pow2_pos (- e)) as P. pose proof int_log2 as L.
  destruct m as [|m|m]; [nia| |nia]. cbn [binary_normalize]. rewrite lit_integer.
  pose proof int_mantissa_normal as N. pose proof int_mantissa_Z as E. unfold int_exponent.
  destruct (Z.lt_ge_cases e (Z.log2 z - 52)) as [C|C].
  - apply round_up; [done|lia|done|]. rewrite Hm, E, <- Z.mul_assoc, <- Z.pow_add_r by lia.
    f_equal. f_equal. lia.
  - apply round_down; [done|lia|done|]. rewrite E, Hm, <- Z.mul_assoc, <- Z.pow_add_r by lia.
    f_equal. f_equal. lia.
Qed.
End Integer.

Lemma lit_zero : lit 0 = num_zero.
Proof. done. Qed.

Lemma aligned m e e' : e' <= e -> Zpos (fst (shl_align m e e')) = Zpos m * 2 ^ (e - e').
Proof.
  intros He. unfold shl_align. destruct (e' - e) as [|d|d] eqn:D; [|lia|]; cbn [fst].
  - replace (e - e') with 0 by lia. lia.
  - rewrite iter_double. f_equal. f_equal. lia.
Qed.

Lemma add_integers a b : 0 <= a -> 0 <= b -> a + b < 2 ^ 53 -> num_add (lit a) (lit b) = lit (a + b).
Proof.
  intros Ha Hb Hs. destruct (Z.eq_dec a 0) as [->|Na].
  { rewrite lit_zero, Z.add_0_l. destruct (Z.eq_dec b 0) as [->|Nb]; [done|]. by rewrite (lit_integer b) by lia. }
  destruct (Z.eq_dec b 0) as [->|Nb]; [rewrite Z.add_0_r; by rewrite (lit_integer a) by lia|].
  rewrite (lit_integer a), (lit_integer b) by lia. unfold num_add, SFadd.
  pose proof (int_log2 a ltac:(lia)) as La. pose proof (int_log2 b ltac:(lia)) as Lb.
  set (e := Z.min (int_exponent a) (int_exponent b)).
  assert (e <= int_exponent a /\ e <= int_exponent b /\ e <= 0) as (Ea & Eb & E0) by (unfold e, int_exponent; lia).
  apply normalize_integer; [lia|done|]. cbn [cond_Zopp]. rewrite !aligned by done.
  rewrite !int_mantissa_Z by lia. rewrite <- !Z.mul_assoc, <- !Z.pow_add_r by (unfold int_exponent in *; lia).
  rewrite Z.mul_add_distr_r. unfold int_exponent. f_equal; f_equal; f_equal; lia.
Qed.

(** A sum of integers in the order given. *)
Definition num_sum (l : list num) : num := fold_left num_add l num_zero.

Fixpoint Z_sum (l : list Z) : Z := match l with [] => 0 | z :: l => z + Z_sum l end.

Lemma Z_sum_app k l : Z_sum (k ++ l) = Z_sum k + Z_sum l.
Proof. induction k; cbn; lia. Qed.

Lemma Z_sum_nonneg l : Forall (fun z => 0 <= z) l -> 0 <= Z_sum l.
Proof. induction 1; cbn; lia. Qed.

Lemma sum_integers l : forall a, 0 <= a -> Forall (fun z => 0 <= z) l -> a + Z_sum l < 2 ^ 53 ->
  fold_left num_add (map lit l) (lit a) = lit (a + Z_sum l).
Proof.
  induction l as [|z l IH]; intros a Ha Hl Hs; cbn in *; [by rewrite Z.add_0_r|].
  inversion Hl as [|? ? Hz Hl']; subst. pose proof (Z_sum_nonneg l Hl').
  rewrite add_integers, IH by (lia || done). f_equal. lia.
Qed.

Lemma lit_to_Z z : 0 <= z < 2 ^ 53 -> num_to_Z (lit z) = Some z.
Proof.
  intros Hz. destruct (Z.eq_dec z 0) as [->|N]; [done|]. rewrite lit_integer by lia. cbn.
  pose proof (int_log2 z ltac:(lia)) as L. unfold trunc_abs. rewrite int_mantissa_Z by lia. unfold int_exponent.
  destruct (Z.ltb_spec (Z.log2 z - 52) 0); 
    [|replace (Z.log2 z) with 52 by lia; change (2 ^ (52 - 52)) with 1; f_equal; lia].
  replace (- (Z.log2 z - 52)) with (52 - Z.log2 z) by lia. rewrite Z.div_mul; [done|].
  pose proof (pow2_pos (52 - Z.log2 z)). lia.
Qed.
