(* ===== verification/JsObject.v ===== *)
(** * JavaScript objects as maps, and sorting

    An object used as a dictionary is the list of its own entries in
    enumeration order: keys that are array indices first, in ascending
    order, then the other keys in insertion order.  [Array.prototype.sort]
    is stable; [sort_by] is the stable insertion sort, the only result a
    consistent comparison allows.  [localeCompare] is collation data of the
    host, a parameter.  A list of entries is the list an object enumerates exactly
    when its keys are in that order ([obj_from_entries_enumerated]), and every
    assignment keeps it ([obj_put_enumerated]). *)

From Stdlib Require Import ZArith Lia Bool.
From stdpp Require Import base list numbers sorting.
From S2P Require Import Prelude JsString.

(** ** Objects *)

(** A canonical array index: the decimal form of an integer below 2^32 - 1. *)
Definition is_array_index (k : str) : bool :=
  forallb is_digit k && (digits_value 0 k <? 4294967295)%N &&
  match k with [] => false | [_] => true | c :: _ => negb (c =? 48)%N end.

Section Object.
Context {A : Type}.
Implicit Types o : list (str * A).

Definition has_key o (k : str) : bool := existsb (fun e => str_eqb e.1 k) o.

Fixpoint replace_key o (k : str) (v : A) : list (str * A) :=
  match o with
  | [] => []
  | (k', v') :: o' => if str_eqb k' k then (k', v) :: o' else (k', v') :: replace_key o' k v
  end.

(** A new index goes before the first key that is no smaller index. *)
Fixpoint insert_index o (k : str) (v : A) : list (str * A) :=
  match o with
  | [] => [(k, v)]
  | (k', v') :: o' =>
      if is_array_index k' && (digits_value 0 k' <? digits_value 0 k)%N
      then (k', v') :: insert_index o' k v
      else (k, v) :: o
  end.

(** [o[k] = v] *)
Definition obj_put o (k : str) (v : A) : list (str * A) :=
  if has_key o k then replace_key o k v
  else if is_array_index k then insert_index o k v
  else o ++ [(k, v)].

(** [Object.fromEntries(entries)] *)
Definition obj_from_entries (entries : list (str * A)) : list (str * A) :=
  fold_left (fun o e => obj_put o e.1 e.2) entries [].

Lemma has_key_assoc o k : has_key o k = match assoc_str o k with Some _ => true | None => false end.
Proof.
  induction o as [|[k' v] o IH]; [done|]. cbn. by destruct (str_eqb k' k).
Qed.

Lemma assoc_replace o k v k' :
  assoc_str (replace_key o k v) k'
  = if str_eqb k k' && has_key o k then Some v else assoc_str o k'.
Proof.
  induction o as [|[a b] o IH]; cbn; [by rewrite andb_false_r|].
  destruct (str_eqb a k) eqn:E; cbn [assoc_str orb].
  - apply str_eqb_eq in E as ->. rewrite andb_true_r. by destruct (str_eqb k k').
  - rewrite IH. destruct (str_eqb k k') eqn:E'; [|done]. apply str_eqb_eq in E' as <-.
    by rewrite E.
Qed.

Lemma assoc_insert o k v k' :
  has_key o k = false ->
  assoc_str (insert_index o k v) k' = if str_eqb k k' then Some v else assoc_str o k'.
Proof.
  induction o as [|[a b] o IH]; [done|]. cbn [has_key existsb fst]. intros H.
  apply orb_false_iff in H as [H1 H2]. cbn [insert_index].
  destruct (is_array_index a && _); [|done]. cbn [assoc_str]. rewrite IH by done.
  destruct (str_eqb a k') eqn:E; [|done]. destruct (str_eqb k k') eqn:E'; [|done].
  apply str_eqb_eq in E, E'. subst. by rewrite str_eqb_refl in H1.
Qed.

Lemma assoc_app (l1 l2 : list (str * A)) k :
  assoc_str (l1 ++ l2) k = match assoc_str l1 k with Some v => Some v | None => assoc_str l2 k end.
Proof.
  induction l1 as [|[a b] l1 IH]; [done|]. cbn. by destruct (str_eqb a k).
Qed.

Lemma assoc_put o k v k' :
  assoc_str (obj_put o k v) k' = if str_eqb k k' then Some v else assoc_str o k'.
Proof.
  unfold obj_put. destruct (has_key o k) eqn:H.
  - by rewrite assoc_replace, H, andb_true_r.
  - destruct (is_array_index k); [by apply assoc_insert|].
    rewrite assoc_app. cbn. rewrite has_key_assoc in H.
    destruct (str_eqb k k') eqn:E; [|by destruct (assoc_str o k')].
    apply str_eqb_eq in E as <-. by destruct (assoc_str o k).
Qed.

Lemma replace_key_keys o k v : (replace_key o k v).*1 = o.*1.
Proof.
  induction o as [|[a b] o IH]; [done|]. cbn. destruct (str_eqb a k); cbn; [done|]. by rewrite IH.
Qed.

Lemma insert_index_perm o k v : insert_index o k v ≡ₚ (k, v) :: o.
Proof.
  induction o as [|[a b] o IH]; [done|]. cbn. destruct (_ && _); [|done].
  rewrite IH. apply Permutation_swap.
Qed.

Lemma obj_put_NoDup o k v : NoDup o.*1 -> NoDup (obj_put o k v).*1.
Proof.
  intros N. unfold obj_put. destruct (has_key o k) eqn:E; [by rewrite replace_key_keys|].
  assert (NoDup ((k, v) :: o).*1) as N'.
  { cbn. constructor; [|done]. intros ([k' v'] & Ek & Hk)%list_elem_of_fmap. cbn in Ek. subst k'.
    apply not_true_iff_false in E. apply E, existsb_exists. exists (k, v').
    split; [by apply list_elem_of_In|apply str_eqb_refl]. }
  destruct (is_array_index k).
  - by rewrite insert_index_perm.
  - rewrite <- Permutation_cons_append. done.
Qed.

(** The last entry of a key counts. *)
Lemma assoc_from_entries entries k :
  assoc_str (obj_from_entries entries) k = assoc_str (reverse entries) k.
Proof.
  unfold obj_from_entries.
  assert (forall o, assoc_str (fold_left (fun o e => obj_put o e.1 e.2) entries o) k
    = match assoc_str (reverse entries) k with Some v => Some v | None => assoc_str o k end) as H.
  { induction entries as [|[a b] l IH]; intros o; [done|]. cbn [fold_left fst snd].
    rewrite IH, reverse_cons, assoc_app, assoc_put. cbn.
    by destruct (assoc_str (reverse l) k), (str_eqb a k). }
  rewrite H. by destruct (assoc_str (reverse entries) k).
Qed.

Lemma assoc_elem_NoDup (l : list (str * A)) k v :
  NoDup l.*1 -> (k, v) ∈ l -> assoc_str l k = Some v.
Proof.
  induction l as [|[a b] l IH]; [by intros _ ?%elem_of_nil|].
  cbn [fmap list_fmap fst]. intros N [E|H]%elem_of_cons.
  - injection E as <- <-. cbn. by rewrite str_eqb_refl.
  - apply NoDup_cons in N as [Na N]. cbn. rewrite IH by done.
    destruct (str_eqb a k) eqn:E; [|done]. apply str_eqb_eq in E as ->. exfalso. apply Na.
    apply list_elem_of_fmap. by exists (k, v).
Qed.

Lemma assoc_Some_elem (l : list (str * A)) k v : assoc_str l k = Some v -> (k, v) ∈ l.
Proof. apply assoc_str_elem. Qed.

Lemma assoc_reverse (l : list (str * A)) k :
  NoDup l.*1 -> assoc_str (reverse l) k = assoc_str l k.
Proof.
  intros N. destruct (assoc_str l k) as [v|] eqn:E.
  - apply assoc_elem_NoDup; [by rewrite fmap_reverse, reverse_Permutation|].
    apply elem_of_reverse. by apply assoc_str_elem.
  - destruct (assoc_str (reverse l) k) as [v|] eqn:E'; [|done].
    apply assoc_str_elem in E'. rewrite elem_of_reverse in E'.
    pose proof (assoc_elem_NoDup l k v N E'). congruence.
Qed.

Lemma assoc_from_entries_NoDup entries k :
  NoDup entries.*1 -> assoc_str (obj_from_entries entries) k = assoc_str entries k.
Proof. intros N. rewrite assoc_from_entries. by apply assoc_reverse. Qed.
End Object.

Lemma assoc_map_keys {A} (f : str -> A) (ks : list str) k :
  assoc_str (map (fun x => (x, f x)) ks) k = if includes_str ks k then Some (f k) else None.
Proof.
  induction ks as [|a ks IH]; [done|]. cbn [map assoc_str]. unfold includes_str in *. cbn [existsb].
  rewrite IH. destruct (str_eqb a k) eqn:E.
  - apply str_eqb_eq in E as ->. by rewrite str_eqb_refl.
  - assert (str_eqb k a = false) as -> by
      (apply str_eqb_neq; intros ->; by rewrite str_eqb_refl in E). done.
Qed.

Lemma from_entries_map_lookup {A} (f : str -> A) (ks : list str) k :
  assoc_str (obj_from_entries (map (fun x => (x, f x)) ks)) k
  = if includes_str ks k then Some (f k) else None.
Proof.
  rewrite assoc_from_entries.
  assert (reverse (map (fun x => (x, f x)) ks) = map (fun x => (x, f x)) (reverse ks)) as ->
    by (change (map ?g ?l) with (g <$> l); by rewrite fmap_reverse).
  rewrite assoc_map_keys. assert (includes_str (reverse ks) k = includes_str ks k) as ->; [|done].
  apply eq_true_iff_eq. by rewrite !includes_str_elem, elem_of_reverse.
Qed.

(** ** Stable sorting *)

Section Sort.
Context {A : Type}.
Variable compare : A -> A -> Z.

Fixpoint insert_by (item : A) (sorted : list A) : list A :=
  match sorted with
  | y :: rest => if (compare item y <? 0)%Z then item :: sorted else y :: insert_by item rest
  | [] => [item]
  end.

(** [array.sort(compare)] *)
Definition sort_by (l : list A) : list A := fold_left (fun acc x => insert_by x acc) l [].

Lemma insert_by_perm x l : insert_by x l ≡ₚ x :: l.
Proof.
  induction l as [|y l IH]; [done|]. cbn. destruct (compare x y <? 0)%Z; [done|].
  rewrite IH. apply Permutation_swap.
Qed.

Lemma sort_by_perm l : sort_by l ≡ₚ l.
Proof.
  unfold sort_by. assert (forall acc, fold_left (fun acc x => insert_by x acc) l acc ≡ₚ acc ++ l) as H;
    [|apply (H [])].
  induction l as [|x l IH]; intros acc; cbn; [by rewrite app_nil_r|].
  rewrite IH, insert_by_perm. by rewrite <- Permutation_middle.
Qed.
End Sort.

Class Collation := { localeCompare : str -> str -> Z }.

(** Collation by code units, for examples. *)
Definition code_unit_collation : Collation :=
  {| localeCompare := fun a b => if str_ltb a b then (-1)%Z else if str_ltb b a then 1%Z else 0%Z |}.

(** ** Array indices *)

Lemma digits_value_acc s : forall acc, digits_value acc s = (acc * 10 ^ N.of_nat (length s) + digits_value 0 s)%N.
Proof.
  induction s as [|c s IH]; intros acc; [cbn; lia|]. change (digits_value acc (c :: s)) with (digits_value (acc * 10 + digit_value c) s).
  change (digits_value 0 (c :: s)) with (digits_value (0 * 10 + digit_value c) s). rewrite IH, (IH (0 * 10 + _)%N).
  cbn [length]. rewrite Nat2N.inj_succ, N.pow_succ_r'. lia.
Qed.

Lemma digit_bound c : is_digit c = true -> (digit_value c < 10)%N /\ c = (48 + digit_value c)%N.
Proof. unfold is_digit, in_range, digit_value. rewrite andb_true_iff, !N.leb_le. lia. Qed.

Lemma digits_bound s : forallb is_digit s = true -> (digits_value 0 s < 10 ^ N.of_nat (length s))%N.
Proof.
  induction s as [|c s IH]; [done|]. cbn [forallb]. intros D. split_andb. specialize (IH H0). apply digit_bound in H as [B _].
  change (digits_value 0 (c :: s)) with (digits_value (0 * 10 + digit_value c) s). rewrite digits_value_acc. cbn [length].
  rewrite Nat2N.inj_succ, N.pow_succ_r'. nia.
Qed.

Lemma digits_injective s : forall t, forallb is_digit s = true -> forallb is_digit t = true -> length s = length t ->
  digits_value 0 s = digits_value 0 t -> s = t.
Proof.
  induction s as [|c s IH]; intros [|d t] Ds Dt L E; try done. cbn [forallb length] in *. split_andb. injection L as L.
  change (digits_value 0 (c :: s)) with (digits_value (0 * 10 + digit_value c) s) in E.
  change (digits_value 0 (d :: t)) with (digits_value (0 * 10 + digit_value d) t) in E.
  rewrite digits_value_acc, (digits_value_acc t), L in E. pose proof (digits_bound s H2). pose proof (digits_bound t H0). rewrite L in *.
  apply digit_bound in H1 as [B1 E1]. apply digit_bound in H as [B2 E2]. set (p := (10 ^ N.of_nat (length t))%N) in *.
  assert (digit_value c = digit_value d) as V by nia. f_equal; [congruence|]. apply IH; [done..|]. nia.
Qed.

(** Without leading zeros the value tells the length. *)
Lemma digits_low c s : forallb is_digit (c :: s) = true -> (c =? 48)%N = false ->
  (10 ^ N.of_nat (length s) <= digits_value 0 (c :: s))%N.
Proof.
  cbn [forallb]. intros D Z. split_andb. apply digit_bound in H as [B E]. apply N.eqb_neq in Z.
  change (digits_value 0 (c :: s)) with (digits_value (0 * 10 + digit_value c) s). rewrite digits_value_acc. nia.
Qed.

Lemma index_parts k : is_array_index k = true -> exists c s, k = c :: s /\ forallb is_digit k = true /\ (s = [] \/ (c =? 48)%N = false).
Proof.
  unfold is_array_index. intros I. split_andb. destruct k as [|c [|d s]]; [done|..]; eexists _, _; (split; [done|]); (split; [done|]);
    [by left|right]. by apply negb_true_iff.
Qed.

Lemma index_length a b : is_array_index a = true -> is_array_index b = true -> digits_value 0 a = digits_value 0 b -> length a <= length b.
Proof.
  intros Ia Ib E. destruct (index_parts a Ia) as (c & s & -> & D & [->|Z]); destruct (index_parts b Ib) as (d & t & -> & D' & _); [cbn; lia|].
  pose proof (digits_low c s D Z). pose proof (digits_bound _ D') as B. rewrite <- E in B. cbn [length].
  destruct (Nat.le_gt_cases (length s) (length t)); [lia|]. exfalso.
  assert (10 ^ N.of_nat (length (d :: t)) <= 10 ^ N.of_nat (length s))%N; [|lia]. apply N.pow_le_mono_r; cbn [length]; lia.
Qed.

Lemma index_injective a b : is_array_index a = true -> is_array_index b = true -> digits_value 0 a = digits_value 0 b -> a = b.
Proof.
  intros Ia Ib E. apply digits_injective; [| |apply Nat.le_antisymm; by apply index_length|done].
  - by destruct (index_parts a Ia) as (c & s & -> & D & _).
  - by destruct (index_parts b Ib) as (c & s & -> & D & _).
Qed.

(** Whether a key is enumerated before another one that was added later. *)
Definition key_before (a b : str) : bool :=
  if is_array_index b then is_array_index a && (digits_value 0 a <? digits_value 0 b)%N else true.

(** Keys in enumeration order. *)
Fixpoint enumerated (ks : list str) : bool :=
  match ks with [] => true | k :: ks => forallb (key_before k) ks && negb (includes_str ks k) && enumerated ks end.

Lemma enumerated_app ks ks' : enumerated (ks ++ ks') = true <->
  enumerated ks = true /\ enumerated ks' = true /\ forall a b, a ∈ ks -> b ∈ ks' -> key_before a b = true /\ a <> b.
Proof.
  induction ks as [|k ks IH]; cbn [app enumerated].
  - split; [|by intros (_ & H & _)]. intros H. split_and!; [done|done|]. by intros a b ?%elem_of_nil.
  - rewrite !andb_true_iff, !negb_true_iff, IH, forallb_app, andb_true_iff.
    assert (includes_str (ks ++ ks') k = includes_str ks k || includes_str ks' k) as ->.
    { unfold includes_str. apply existsb_app. }
    rewrite orb_false_iff. split.
    + intros [[[F1 F2] [I1 I2]] (E1 & E2 & C)]. split_and!; [done..|]. intros a b [->|Ha]%elem_of_cons Hb; [|by apply C]. split.
      * rewrite forallb_forall in F2. by apply F2, list_elem_of_In.
      * intros ->. rewrite <- not_true_iff_false in I2. apply I2. by apply includes_str_elem.
    + intros [[[F1 I1] E1] [E2 C]]. split_and!; try done.
      * apply forallb_forall. intros b Hb. apply C; [left|by apply list_elem_of_In].
      * apply not_true_iff_false. intros I. apply includes_str_elem in I. destruct (C k k); [left|done|done].
      * intros a b Ha Hb. apply C; [by right|done].
Qed.

(** Keys that are no indices and do not repeat. *)
Lemma enumerated_plain ks : (forall k, k ∈ ks -> is_array_index k = false) -> NoDup ks -> enumerated ks = true.
Proof.
  intros I N. induction N as [|k ks Nk N IH]; [done|]. cbn [enumerated]. rewrite !andb_true_iff. split_and!.
  - apply forallb_forall. intros b Hb. unfold key_before. rewrite I; [done|]. right. by apply list_elem_of_In.
  - apply negb_true_iff, not_true_iff_false. by rewrite includes_str_elem.
  - apply IH. intros b Hb. apply I. by right.
Qed.

Section Entries.
Context {A : Type}.
Implicit Types o l : list (str * A).

Lemma insert_index_last o k (v : A) : is_array_index k = true -> (forall a, a ∈ o.*1 -> key_before a k = true) ->
  insert_index o k v = o ++ [(k, v)].
Proof.
  intros I. induction o as [|[k' v'] o IH]; intros B; [done|]. cbn [insert_index app fmap list_fmap fst] in *.
  assert (key_before k' k = true) as K by (apply B; left). unfold key_before in K. rewrite I in K. rewrite K. f_equal.
  apply IH. intros a Ha. apply B. by right.
Qed.

(** Entries in enumeration order are those of an object. *)
Lemma obj_from_entries_enumerated l : enumerated l.*1 = true -> obj_from_entries l = l.
Proof.
  unfold obj_from_entries. assert (forall acc, enumerated (acc ++ l).*1 = true ->
    fold_left (fun o e => obj_put o e.1 e.2) l acc = acc ++ l) as H; [|apply (H [])].
  induction l as [|[k v] l IH]; intros acc E; [by rewrite app_nil_r|]. cbn [fold_left fst snd].
  assert (obj_put acc k v = acc ++ [(k, v)]) as ->; [|rewrite IH; by rewrite <- app_assoc].
  rewrite fmap_app, enumerated_app in E. destruct E as (_ & _ & C).
  assert (forall a, a ∈ acc.*1 -> key_before a k = true /\ a <> k) as B by (intros a Ha; apply C; [done|left]).
  unfold obj_put. assert (has_key acc k = false) as ->.
  { apply not_true_iff_false. unfold has_key. rewrite existsb_exists. intros (e & He & Ee). apply str_eqb_eq in Ee.
    destruct (B e.1) as [_ N]; [|done]. apply list_elem_of_fmap. exists e. by rewrite list_elem_of_In. }
  destruct (is_array_index k) eqn:I; [|done]. apply insert_index_last; [done|]. intros a Ha. by apply B.
Qed.

Lemma enumerated_cons k ks : enumerated (k :: ks) = true <->
  enumerated ks = true /\ forall b, b ∈ ks -> key_before k b = true /\ k <> b.
Proof.
  change (k :: ks) with ([k] ++ ks). rewrite enumerated_app. split.
  - intros (_ & E & C). split; [done|]. intros b Hb. apply C; [left|done].
  - intros [E C]. split_and!; [done..|]. intros a b Ha%list_elem_of_singleton Hb. subst. by apply C.
Qed.

Lemma insert_index_keys o k v a : a ∈ (insert_index o k v).*1 <-> a = k \/ a ∈ o.*1.
Proof. rewrite insert_index_perm. cbn. by rewrite elem_of_cons. Qed.

Lemma insert_index_enumerated o k v : is_array_index k = true -> k ∉ o.*1 -> enumerated o.*1 = true ->
  enumerated (insert_index o k v).*1 = true.
Proof.
  intros I. induction o as [|[k' v'] o IH]; intros N E; [done|]. cbn [insert_index].
  cbn [fmap list_fmap fst] in N, E. apply not_elem_of_cons in N as [Nk N]. pose proof E as E0. apply enumerated_cons in E0 as [Eo B].
  destruct (is_array_index k' && _) eqn:S; cbn [fmap list_fmap fst]; apply enumerated_cons.
  - split; [by apply IH|]. intros b [->|Hb]%insert_index_keys; [|by apply B]. split; [|done]. unfold key_before. by rewrite I.
  - split; [done|]. intros b Hb. split; [|intros ->; apply elem_of_cons in Hb as [->|Hb]; done].
    unfold key_before. rewrite I. destruct (is_array_index b) eqn:Ib; [|done]. cbn [andb].
    assert (is_array_index k' = true /\ (digits_value 0 k <= digits_value 0 k')%N) as [Ik L].
    { destruct (is_array_index k') eqn:Ik; cbn [andb] in S; [by apply N.ltb_ge in S|].
      apply elem_of_cons in Hb as [->|Hb]; [congruence|]. destruct (B b Hb) as [K _]. unfold key_before in K. by rewrite Ib, Ik in K. }
    assert (digits_value 0 k <> digits_value 0 k')%N as D by (intros D; apply Nk; by apply index_injective).
    apply elem_of_cons in Hb as [->|Hb]; [apply N.ltb_lt; lia|]. destruct (B b Hb) as [K _]. unfold key_before in K.
    rewrite Ib, Ik in K. apply N.ltb_lt in K. apply N.ltb_lt. lia.
Qed.

(** An assignment keeps the enumeration order. *)
Lemma obj_put_enumerated o k v : enumerated o.*1 = true -> enumerated (obj_put o k v).*1 = true.
Proof.
  intros E. unfold obj_put. destruct (has_key o k) eqn:H; [by rewrite replace_key_keys|].
  assert (k ∉ o.*1) as N.
  { intros (e & -> & He)%list_elem_of_fmap. apply not_true_iff_false in H. apply H, existsb_exists. exists e.
    split; [by apply list_elem_of_In|apply str_eqb_refl]. }
  destruct (is_array_index k) eqn:I; [by apply insert_index_enumerated|]. rewrite fmap_app. apply enumerated_app.
  split_and!; [done..|]. intros a b Ha Hb%list_elem_of_singleton. subst b. cbn. split; [unfold key_before; by rewrite I|].
  intros ->. done.
Qed.
End Entries.
