(* ===== verification/JsMap.v ===== *)
(** * Maps and sets in insertion order

    A JavaScript [Map] enumerates its keys in the order of their first
    insertion; a [Set] likewise.  Both are lists here.  The main lemma,
    [grouped], reads a map that a loop builds by updating one entry per item:
    the entry of a key folds the items of that key, in their order. *)

From Stdlib Require Import ZArith Lia Bool.
From stdpp Require Import base list numbers.
From S2P Require Import Prelude.

Section JsMap.
Context {K V : Type} `{EqDecision K}.

Implicit Types (m : list (K * V)) (k : K).

Fixpoint map_get m k : option V :=
  match m with
  | [] => None
  | e :: m' => if bool_decide (e.1 = k) then Some e.2 else map_get m' k
  end.

Fixpoint map_set m k (v : V) : list (K * V) :=
  match m with
  | [] => [(k, v)]
  | e :: m' => if bool_decide (e.1 = k) then (e.1, v) :: m' else e :: map_set m' k v
  end.

Definition map_keys m : list K := map fst m.
Definition map_values m : list V := map snd m.

Lemma map_get_set m k v k' :
  map_get (map_set m k v) k' = if bool_decide (k = k') then Some v else map_get m k'.
Proof.
  induction m as [|[k0 v0] m IH]; cbn; [done|].
  destruct (bool_decide (k0 = k)) eqn:B; cbn.
  - apply bool_decide_eq_true in B as ->. by destruct (bool_decide (k = k')).
  - rewrite IH. destruct (bool_decide (k0 = k')) eqn:B'; [|done].
    apply bool_decide_eq_true in B' as ->. destruct (bool_decide (k = k')) eqn:B2; [|done].
    apply bool_decide_eq_true in B2 as ->. by rewrite bool_decide_eq_true_2 in B.
Qed.

Lemma map_get_elem m k v : map_get m k = Some v -> (k, v) ∈ m.
Proof.
  induction m as [|[k0 v0] m IH]; cbn; [done|]. destruct (bool_decide (k0 = k)) eqn:B.
  - apply bool_decide_eq_true in B as ->. intros [= ->]. by left.
  - intros E. right. by apply IH.
Qed.

Lemma map_get_None m k : map_get m k = None <-> k ∉ map_keys m.
Proof.
  induction m as [|[k0 v0] m IH]; cbn; [by split; [intros _; apply not_elem_of_nil|]|].
  rewrite not_elem_of_cons. destruct (bool_decide (k0 = k)) eqn:B.
  - apply bool_decide_eq_true in B as ->. split; [done|]. by intros [? _].
  - apply bool_decide_eq_false in B. rewrite IH. naive_solver.
Qed.

Lemma map_elem_get m k v : NoDup (map_keys m) -> (k, v) ∈ m -> map_get m k = Some v.
Proof.
  induction m as [|[k0 v0] m IH]; cbn; intros N E; [by apply elem_of_nil in E|].
  apply elem_of_cons in E as [[= <- <-]|E]; [by rewrite bool_decide_eq_true_2|].
  rewrite bool_decide_eq_false_2; [by apply IH; [by apply NoDup_cons_1_2 in N|]|].
  intros ->. apply NoDup_cons_1_1 in N. apply N. apply list_elem_of_fmap. by exists (k, v).
Qed.

Lemma map_set_keys m k v :
  map_keys (map_set m k v) = if bool_decide (k ∈ map_keys m) then map_keys m else map_keys m ++ [k].
Proof.
  unfold map_keys.
  induction m as [|[k0 v0] m IH]; cbn; [by rewrite bool_decide_eq_false_2 by apply not_elem_of_nil|].
  destruct (bool_decide (k0 = k)) eqn:B; cbn.
  - apply bool_decide_eq_true in B as ->. by rewrite bool_decide_eq_true_2 by by left.
  - apply bool_decide_eq_false in B. rewrite IH.
    destruct (bool_decide (k ∈ map fst m)) eqn:M.
    + apply bool_decide_eq_true in M. by rewrite bool_decide_eq_true_2 by by right.
    + apply bool_decide_eq_false in M. rewrite bool_decide_eq_false_2; [done|].
      rewrite not_elem_of_cons. naive_solver.
Qed.

Lemma map_set_NoDup m k v : NoDup (map_keys m) -> NoDup (map_keys (map_set m k v)).
Proof.
  intros N. rewrite map_set_keys. case_bool_decide as M; [done|].
  apply list.NoDup_app. split; [done|]. split; [|apply NoDup_singleton].
  intros x Hx ->%list_elem_of_singleton. done.
Qed.

(** A loop that sets one entry per item. *)
Lemma set_loop_get {X} (key : X -> K) (value : X -> V) l m k : k ∈ map key l ->
  exists x, x ∈ l /\ key x = k /\
    map_get (fold_left (fun m x => map_set m (key x) (value x)) l m) k = Some (value x).
Proof.
  induction l as [|x l IH] using rev_ind; [by intros ?%elem_of_nil|].
  rewrite map_app, elem_of_app, fold_left_app. cbn [fold_left map].
  intros E. destruct (decide (key x = k)) as [Hx|Hx].
  - exists x. split; [apply elem_of_app; right; by left|]. split; [done|].
    by rewrite map_get_set, bool_decide_eq_true_2.
  - destruct E as [E|E%list_elem_of_singleton]; [|by subst]. destruct (IH E) as (y & Hy & <- & G).
    exists y. split; [apply elem_of_app; by left|]. split; [done|].
    by rewrite map_get_set, bool_decide_eq_false_2.
Qed.
End JsMap.

(** ** Sets *)

Section JsSet.
Context {A : Type} `{EqDecision A}.

Definition set_put (s : list A) (x : A) : list A := if bool_decide (x ∈ s) then s else s ++ [x].

(** [new Set(items)] *)
Definition set_from (items : list A) : list A := fold_left set_put items [].

Lemma set_from_acc items : forall s,
  (forall x, x ∈ fold_left set_put items s <-> x ∈ s \/ x ∈ items) /\
  (NoDup s -> NoDup (fold_left set_put items s)).
Proof.
  induction items as [|y items IH]; intros s; cbn.
  - split; [|done]. intros x. split; [by left|]. intros [?|?%elem_of_nil]; done.
  - destruct (IH (set_put s y)) as [E N]. unfold set_put in *. split.
    + intros x. rewrite E, elem_of_cons. case_bool_decide as B; [|rewrite elem_of_app, list_elem_of_singleton; tauto].
      split; [tauto|]. intros [?|[->|?]]; tauto.
    + intros D. apply N. case_bool_decide as B; [done|]. apply list.NoDup_app.
      split; [done|]. split; [|apply NoDup_singleton]. by intros x Hx ->%list_elem_of_singleton.
Qed.

Lemma set_from_elem items x : x ∈ set_from items <-> x ∈ items.
Proof.
  unfold set_from. rewrite (proj1 (set_from_acc items [])). split; [|by right].
  intros [E|E]; [by apply elem_of_nil in E|done].
Qed.

Lemma set_from_NoDup items : NoDup (set_from items).
Proof. apply set_from_acc, NoDup_nil_2. Qed.

Lemma set_from_length items : length (set_from items) <= length items.
Proof.
  unfold set_from. cut (forall s, length (fold_left set_put items s) <= length s + length items); [intros E; apply (E [])|].
  induction items as [|x items IH]; intros s; cbn; [lia|]. specialize (IH (set_put s x)).
  unfold set_put in *. destruct (bool_decide _); [lia|]. rewrite length_app in IH. cbn in IH. lia.
Qed.
End JsSet.

(** ** Grouping *)

Section Group.
Context {X K V : Type} `{EqDecision K}.
Variables (key : X -> K) (init : X -> V) (step : V -> X -> V).

(** [const previous = map.get(key) ?? init; …; map.set(key, previous)] *)
Definition group_step (m : list (K * V)) (x : X) : list (K * V) :=
  map_set m (key x) (step (default (init x) (map_get m (key x))) x).

Definition group_loop (items : list X) (m : list (K * V)) : list (K * V) := fold_left group_step items m.

Definition of_key (k : K) (items : list X) : list X := List.filter (fun x => bool_decide (key x = k)) items.

Lemma of_key_elem k items x : x ∈ of_key k items <-> x ∈ items /\ key x = k.
Proof. unfold of_key. by rewrite !list_elem_of_In, filter_In, bool_decide_eq_true. Qed.

Lemma group_loop_get items k : forall m,
  map_get (group_loop items m) k =
  match map_get m k, of_key k items with
  | None, x :: rest => Some (fold_left step (x :: rest) (init x))
  | Some v, l => Some (fold_left step l v)
  | None, [] => None
  end.
Proof.
  induction items as [|x items IH]; intros m; cbn; [by destruct (map_get m k)|].
  fold (of_key k items). unfold group_loop in IH. rewrite IH. unfold group_step.
  rewrite map_get_set. destruct (bool_decide (key x = k)) eqn:B; [|by destruct (map_get m k)].
  apply bool_decide_eq_true in B as ->. by destruct (map_get m k).
Qed.

Lemma group_loop_keys items : forall m,
  NoDup (map_keys m) ->
  NoDup (map_keys (group_loop items m)) /\
  forall k, k ∈ map_keys (group_loop items m) <-> k ∈ map_keys m \/ k ∈ map key items.
Proof.
  induction items as [|x items IH]; intros m N; cbn.
  - split; [done|]. intros k. split; [by left|]. intros [?|E]; [done|by apply elem_of_nil in E].
  - destruct (IH (group_step m x)) as [N' E]; [by apply map_set_NoDup|]. split; [done|].
    intros k. unfold group_loop in E. rewrite E, elem_of_cons. unfold group_step. rewrite map_set_keys.
    case_bool_decide as B; [|rewrite elem_of_app, list_elem_of_singleton; tauto].
    split; [tauto|]. intros [?|[->|?]]; tauto.
Qed.

(** The entries of a map built from nothing. *)
Lemma grouped items k v :
  (k, v) ∈ group_loop items [] <->
  exists x rest, of_key k items = x :: rest /\ v = fold_left step (x :: rest) (init x).
Proof.
  destruct (group_loop_keys items []) as [N _]; [apply NoDup_nil_2|].
  pose proof (group_loop_get items k []) as G. cbn [map_get] in G. split.
  - intros E. apply map_elem_get in E; [|done]. rewrite E in G.
    destruct (of_key k items) as [|x rest]; [done|]. injection G as ->. by exists x, rest.
  - intros (x & rest & E & ->). apply map_get_elem. by rewrite G, E.
Qed.

Lemma grouped_listed items x : x ∈ items -> exists v, (key x, v) ∈ group_loop items [].
Proof.
  intros Hx. destruct (of_key (key x) items) as [|y rest] eqn:E.
  - exfalso. apply (not_elem_of_nil x). rewrite <- E. by apply of_key_elem.
  - eexists. apply grouped. by exists y, rest.
Qed.
End Group.
