(* ===== verification/JsRegex.v ===== *)
(** * Regular expressions

    The regular expressions of the sources that need backtracking, as syntax
    with the matching procedure of ECMAScript: a matcher takes the rest of the
    input, the captures so far and a continuation, alternatives are tried from
    left to right, quantifiers are greedy, an iteration that consumes nothing
    is rejected, and the groups inside a quantifier are reset by every
    iteration.  No flag but [g] and [m] is used, so the input is code units. *)

From Stdlib Require Import ZArith Lia Bool.
From stdpp Require Import base list numbers.
From S2P Require Import Prelude JsString JsObject.

Inductive regex :=
| RChar (p : N -> bool)
| REmpty
| REnd
| RLineEnd
| RSeq (a b : regex)
| RAlt (a b : regex)
| RStar (a : regex)
| ROpt (a : regex)
| RGroup (n : nat) (a : regex).

Definition captures : Type := list (nat * str).

Definition capture (c : captures) (n : nat) : option str :=
  (fun e => e.2) <$> List.find (fun e => e.1 =? n) c.

Fixpoint groups_of (r : regex) : list nat :=
  match r with
  | RChar _ | REmpty | REnd | RLineEnd => []
  | RSeq a b | RAlt a b => groups_of a ++ groups_of b
  | RStar a | ROpt a => groups_of a
  | RGroup n a => n :: groups_of a
  end.

Definition reset_groups (r : regex) (c : captures) : captures :=
  List.filter (fun e => negb (existsb (Nat.eqb e.1) (groups_of r))) c.

Definition or_else {A} (x y : option A) : option A := match x with Some a => Some a | None => y end.

Section Match.
Context {A : Type}.

Fixpoint rmatch (r : regex) (s : str) (c : captures) (k : str -> captures -> option A) : option A :=
  match r with
  | RChar p => match s with u :: s' => if p u then k s' c else None | [] => None end
  | REmpty => k s c
  | REnd => match s with [] => k [] c | _ => None end
  | RLineEnd => match s with [] => k [] c | u :: _ => if is_line_terminator u then k s c else None end
  | RSeq a b => rmatch a s c (fun s' c' => rmatch b s' c' k)
  | RAlt a b => or_else (rmatch a s c k) (rmatch b s c k)
  | RStar a =>
      (fix go (n : nat) (s : str) (c : captures) : option A :=
         match n with
         | O => k s c
         | S n' =>
             or_else
               (rmatch a s (reset_groups a c) (fun s' c' => if length s' <? length s then go n' s' c' else None))
               (k s c)
         end) (length s) s c
  | ROpt a =>
      or_else (rmatch a s (reset_groups a c) (fun s' c' => if length s' <? length s then k s' c' else None)) (k s c)
  | RGroup n a => rmatch a s c (fun s' c' => k s' ((n, take (length s - length s') s) :: c'))
  end.
End Match.

(** A match that starts here: the rest of the input and the captures. *)
Definition match_here (r : regex) (s : str) : option (str * captures) := rmatch r s [] (fun s' c => Some (s', c)).

(** The first position where the expression matches: what was skipped, the
    rest of the input and the captures. *)
Fixpoint exec_from (r : regex) (skipped s : str) : option (str * str * captures) :=
  match match_here r s with
  | Some (rest, c) => Some (skipped, rest, c)
  | None => match s with [] => None | u :: s' => exec_from r (skipped ++ [u]) s' end
  end.

(** All matches of an expression with the flag [g] that consumes something. *)
Fixpoint exec_all (fuel : nat) (r : regex) (s : str) : list captures :=
  match fuel with
  | O => []
  | S fuel =>
      match exec_from r [] s with
      | Some (_, rest, c) => c :: exec_all fuel r rest
      | None => []
      end
  end.

(** [text.split(separator)] for a separator that consumes something. *)
Fixpoint split_re (fuel : nat) (r : regex) (s : str) : list str :=
  match fuel with
  | O => [s]
  | S fuel =>
      match exec_from r [] s with
      | Some (before, rest, _) => before :: split_re fuel r rest
      | None => [s]
      end
  end.

(** ** Abbreviations *)

Fixpoint rtext (s : str) : regex :=
  match s with [] => REmpty | u :: s' => RSeq (RChar (N.eqb u)) (rtext s') end.

Definition rplus (p : N -> bool) : regex := RSeq (RChar p) (RStar (RChar p)).
Definition rspaces : regex := RStar (RChar is_space).

Fixpoint rseq (rs : list regex) : regex :=
  match rs with [] => REmpty | r :: rs => RSeq r (rseq rs) end.

Fixpoint ralt (r : regex) (rs : list regex) : regex :=
  match rs with [] => r | r' :: rs => RAlt r (ralt r' rs) end.

(** ** Matching without backtracking *)

Section Facts.
Context {A : Type}.
Implicit Types (k : str -> captures -> option A) (c : captures).

Lemma rmatch_cat a b s c k : rmatch (RSeq a b) s c k = rmatch a s c (fun s' c' => rmatch b s' c' k).
Proof. done. Qed.

Lemma rmatch_char p u s c k : rmatch (RChar p) (u :: s) c k = if p u then k s c else None.
Proof. done. Qed.

Lemma rmatch_text t s c k : rmatch (rtext t) (t ++ s) c k = k s c.
Proof. induction t as [|u t IH]; cbn; [done|]. by rewrite N.eqb_refl. Qed.

Lemma rmatch_text_fail t s c k : starts_with t s = false -> rmatch (rtext t) s c k = None.
Proof.
  revert s. induction t as [|u t IH]; intros [|v s]; cbn; try done.
  destruct (u =? v)%N; cbn; [apply IH|done].
Qed.


Lemma reset_char p c : reset_groups (RChar p) c = c.
Proof. unfold reset_groups. cbn. induction c as [|e c IH]; cbn; [done|]. by rewrite IH. Qed.

(** The loop of a quantifier. *)
Definition star_go (a : regex) k : nat -> str -> captures -> option A :=
  fix go (n : nat) (s : str) c : option A :=
    match n with
    | O => k s c
    | S n' =>
        or_else (rmatch a s (reset_groups a c) (fun s' c' => if length s' <? length s then go n' s' c' else None)) (k s c)
    end.

Lemma rmatch_star a s c k : rmatch (RStar a) s c k = star_go a k (length s) s c.
Proof. done. Qed.

Lemma star_go_S a k n s c :
  star_go a k (S n) s c =
  or_else (rmatch a s (reset_groups a c) (fun s' c' => if length s' <? length s then star_go a k n s' c' else None)) (k s c).
Proof. done. Qed.

(** Only what the continuation answers matters. *)
Lemma rmatch_ext r : forall s c k k', (forall s c, k s c = k' s c) -> rmatch r s c k = rmatch r s c k'.
Proof.
  induction r as [p| | | |a IHa b IHb|a IHa b IHb|a IHa|a IHa|n a IHa]; intros s c k k' E.
  - cbn. destruct s as [|u s]; [done|]. by destruct (p u).
  - apply E.
  - cbn. by destruct s.
  - cbn. destruct s as [|u s]; [done|]. by rewrite E.
  - cbn. apply IHa. intros s' c'. by apply IHb.
  - cbn. by rewrite (IHa s c k k'), (IHb s c k k').
  - rewrite !rmatch_star. generalize (length s). intros n. revert s c.
    induction n as [|n IH]; intros s c; [apply E|]. rewrite !star_go_S.
    rewrite (IHa s (reset_groups a c) _ (fun s' c' => if length s' <? length s then star_go a k' n s' c' else None)); [by rewrite E|].
    intros s' c'. by rewrite IH.
  - cbn. rewrite E. f_equal. apply IHa. intros s' c'. by rewrite E.
  - cbn. apply IHa. intros s' c'. apply E.
Qed.

Lemma rmatch_seq rs rs' : forall s c k,
  rmatch (rseq (rs ++ rs')) s c k = rmatch (rseq rs) s c (fun s' c' => rmatch (rseq rs') s' c' k).
Proof. induction rs as [|r rs IH]; intros s c k; cbn; [done|]. apply rmatch_ext. intros. apply IH. Qed.

(** A repeated class, by recursion on the input. *)
Fixpoint star_class (p : N -> bool) (s : str) c k : option A :=
  match s with
  | u :: s' => if p u then or_else (star_class p s' c k) (k s c) else k s c
  | [] => k [] c
  end.

Lemma rmatch_class p s c k : rmatch (RStar (RChar p)) s c k = star_class p s c k.
Proof.
  rewrite rmatch_star. assert (forall n, length s <= n -> star_go (RChar p) k n s c = star_class p s c k) as G; [|by apply G].
  induction s as [|u s IH]; intros n L.
  - by destruct n.
  - destruct n as [|n]; [cbn in L; lia|]. rewrite star_go_S. cbn [rmatch star_class]. destruct (p u); [|done].
    cbn [length]. destruct (Nat.ltb_spec (length s) (S (length s))); [|lia].
    rewrite reset_char, IH; [done|cbn in L; lia].
Qed.

(** A class followed by something that cannot start with it. *)
Lemma class_skip p s c k : (forall u s, p u = true -> k (u :: s) c = None) ->
  rmatch (RStar (RChar p)) s c k = k (drop_while p s) c.
Proof.
  intros N. rewrite rmatch_class. induction s as [|u s IH]; cbn; [done|].
  destruct (p u) eqn:P; [|done]. rewrite IH, (N u s P). by destruct (k _ _).
Qed.

End Facts.

(** ** The first path

    [takes r t s c c']: on a text that starts with [t], the first thing the
    expression tries consumes [t] and turns the captures [c] into [c'];
    [rejects r s]: there is no match at [s].  A text along which every choice
    is the right one is matched by composing these. *)

Definition takes (r : regex) (t s : str) (c c' : captures) : Prop :=
  forall A (k : str -> captures -> option A) x, k s c' = Some x -> rmatch r (t ++ s) c k = Some x.

Definition rejects (r : regex) (s : str) : Prop :=
  forall A c (k : str -> captures -> option A), rmatch r s c k = None.

Definition stops_class (p : N -> bool) (s : str) : bool := match s with u :: _ => negb (p u) | [] => true end.

Lemma takes_empty s c : takes REmpty [] s c c.
Proof. by intros A k x K. Qed.

Lemma takes_end c : takes REnd [] [] c c.
Proof. by intros A k x K. Qed.

Lemma takes_text t s c : takes (rtext t) t s c c.
Proof. intros A k x K. by rewrite rmatch_text. Qed.

Lemma takes_cat a b t u s c c' c'' :
  takes a t (u ++ s) c c' -> takes b u s c' c'' -> takes (RSeq a b) (t ++ u) s c c''.
Proof. intros Ha Hb A k x K. rewrite <- app_assoc, rmatch_cat. apply Ha. by apply Hb. Qed.

Lemma takes_rseq rs rs' t u s c c' c'' :
  takes (rseq rs) t (u ++ s) c c' -> takes (rseq rs') u s c' c'' -> takes (rseq (rs ++ rs')) (t ++ u) s c c''.
Proof. intros Ha Hb A k x K. rewrite <- app_assoc, rmatch_seq. apply Ha. by apply Hb. Qed.

Lemma takes_one r t s c c' : takes r t s c c' -> takes (rseq [r]) t s c c'.
Proof. intros H A k x K. cbn. apply H. done. Qed.

Lemma takes_class p t s c : forallb p t = true -> stops_class p s = true -> takes (RStar (RChar p)) t s c c.
Proof.
  intros R E A k x K. rewrite rmatch_class. induction t as [|u t IH]; cbn [app].
  - destruct s as [|u s]; cbn in *; [done|]. apply negb_true_iff in E. by rewrite E.
  - cbn in R. apply andb_true_iff in R as [Ru R]. cbn. by rewrite Ru, IH.
Qed.

Lemma takes_plus p t s c : t <> [] -> forallb p t = true -> stops_class p s = true -> takes (rplus p) t s c c.
Proof.
  intros N R E. destruct t as [|u t]; [done|]. cbn in R. apply andb_true_iff in R as [Ru R].
  apply (takes_cat _ _ [u] t s c c c); [|by apply takes_class].
  intros A k x K. cbn [app]. by rewrite rmatch_char, Ru.
Qed.

Lemma take_before (t s : str) : take (length (t ++ s) - length s) (t ++ s) = t.
Proof. rewrite length_app, Nat.add_sub. apply take_app_length. Qed.

Lemma takes_group n a t s c c' : takes a t s c c' -> takes (RGroup n a) t s c ((n, t) :: c').
Proof. intros H A k x K. cbn. apply H. by rewrite take_before. Qed.

Lemma shorter (t s : str) : t <> [] -> (length s <? length (t ++ s)) = true.
Proof. intros N. apply Nat.ltb_lt. rewrite length_app. destruct t; [done|cbn; lia]. Qed.

Lemma takes_opt a t s c c' : t <> [] -> takes a t s (reset_groups a c) c' -> takes (ROpt a) t s c c'.
Proof. intros N H A k x K. cbn [rmatch]. rewrite (H _ _ x); [done|]. by rewrite shorter. Qed.

Lemma skips_opt a s c : rejects a s -> takes (ROpt a) [] s c c.
Proof. intros F A k x K. cbn [app rmatch]. by rewrite F. Qed.

Lemma takes_alt_l a b t s c c' : takes a t s c c' -> takes (RAlt a b) t s c c'.
Proof. intros H A k x K. cbn. by rewrite (H _ _ x). Qed.

Lemma takes_alt_r a b t s c c' : rejects a (t ++ s) -> takes b t s c c' -> takes (RAlt a b) t s c c'.
Proof. intros F H A k x K. cbn. rewrite F. by apply H. Qed.

(** A repeated group without captures inside. *)
Lemma takes_star a ts s c :
  Forall (fun t => t <> []) ts -> reset_groups a c = c ->
  (forall t ts', t :: ts' `suffix_of` ts -> takes a t (concat ts' ++ s) c c) -> rejects a s ->
  takes (RStar a) (concat ts) s c c.
Proof.
  intros N R H F A k x K. rewrite rmatch_star.
  assert (forall n, length (concat ts ++ s) <= n -> star_go a k n (concat ts ++ s) c = Some x) as G; [|by apply G].
  induction ts as [|t ts IH]; intros n L.
  - cbn [concat app] in *. destruct n as [|n]; [done|]. rewrite star_go_S, F. done.
  - pose proof (Forall_inv N) as Nt. apply Forall_inv_tail in N. cbn [concat] in *. rewrite <- app_assoc in L |- *.
    pose proof (shorter t (concat ts ++ s) Nt) as Lt. apply Nat.ltb_lt in Lt as Lt'.
    destruct n as [|n]; [lia|]. rewrite star_go_S, R.
    rewrite (H t ts ltac:(reflexivity) _ _ x); [done|]. rewrite Lt. apply IH; [done| |lia].
    intros t' ts' S. apply H. by apply suffix_cons_r.
Qed.

Lemma rejects_text t s : starts_with t s = false -> rejects (rtext t) s.
Proof. intros E A c k. by apply rmatch_text_fail. Qed.

Lemma rejects_cat a b s : rejects a s -> rejects (RSeq a b) s.
Proof. intros F A c k. rewrite rmatch_cat. apply F. Qed.

Lemma rejects_after b t s : rejects b s -> rejects (RSeq (rtext t) b) (t ++ s).
Proof. intros F A c k. rewrite rmatch_cat, rmatch_text. apply F. Qed.

Lemma rejects_alt a b s : rejects a s -> rejects b s -> rejects (RAlt a b) s.
Proof. intros Fa Fb A c k. cbn. by rewrite Fa, Fb. Qed.

Lemma rejects_opt a b s : rejects a s -> rejects b s -> rejects (RSeq (ROpt a) b) s.
Proof. intros Fa Fb A c k. cbn. by rewrite Fa, Fb. Qed.

(** White space is skipped before what cannot start with it. *)
Lemma rejects_spaces b s : (forall u s, is_space u = true -> rejects b (u :: s)) ->
  rejects b (drop_while is_space s) -> rejects (RSeq rspaces b) s.
Proof. intros N F A c k. rewrite rmatch_cat. unfold rspaces. rewrite class_skip; [apply F|]. intros u s' S. by apply N. Qed.

Lemma match_takes r t s c : takes r t s [] c -> match_here r (t ++ s) = Some (s, c).
Proof. intros H. by apply H. Qed.

Lemma match_rejects r s : rejects r s -> match_here r s = None.
Proof. intros H. apply H. Qed.

(** Scanning over positions without a match. *)
Lemma exec_skip r w : forall sk s,
  (forall a b, w = a ++ b -> b <> [] -> rejects r (b ++ s)) -> exec_from r sk (w ++ s) = exec_from r (sk ++ w) s.
Proof.
  induction w as [|u w IH]; intros sk s H; [by rewrite app_nil_r|].
  cbn [app exec_from]. rewrite match_rejects; [|by apply (H [] (u :: w))].
  rewrite IH; [by rewrite <- app_assoc|]. intros a b -> Nb. by apply (H (u :: a) b).
Qed.

Lemma exec_takes r t s c sk : takes r t s [] c -> exec_from r sk (t ++ s) = Some (sk, s, c).
Proof. intros H. apply match_takes in H. destruct (t ++ s); cbn; by rewrite H. Qed.
