(* ===== verification/JsValue.v ===== *)
(** * JavaScript values

    The values request bodies and usage facts can hold ([unknown] in the
    sources, JSON in practice).  An object is its own enumerable properties
    in enumeration order. *)

From Stdlib Require Import ZArith Lia Bool SpecFloat.
From stdpp Require Import base list numbers.
From S2P Require Import Prelude JsString JsNumber.

Unset Elimination Schemes.
Inductive jsval : Type :=
| JUndefined
| JNull
| JBool (b : bool)
| JNum (n : num)
| JStr (s : str)
| JArr (items : list jsval)
| JObj (fields : list (str * jsval)).
Set Elimination Schemes.

(** [typeof v === 'object'] *)
Definition is_object (v : jsval) : bool :=
  match v with JNull | JArr _ | JObj _ => true | _ => false end.

Definition is_null (v : jsval) : bool :=
  match v with JNull => true | _ => false end.

(** [v == null] *)
Definition is_nullish (v : jsval) : bool :=
  match v with JNull | JUndefined => true | _ => false end.

(** [a === b] when at most one side is an object other than null. *)
Definition strict_eq_primitive (a b : jsval) : bool :=
  match a, b with
  | JUndefined, JUndefined => true
  | JNull, JNull => true
  | JBool x, JBool y => Bool.eqb x y
  | JNum x, JNum y => num_eqb x y
  | JStr x, JStr y => str_eqb x y
  | _, _ => false
  end.

(** [v?.[k]] on an object literal; absent properties are [undefined]. *)
Definition get_field (v : jsval) (k : str) : jsval :=
  match v with
  | JObj fields => default JUndefined (assoc_str fields k)
  | _ => JUndefined
  end.
