(* ===== verification/JsJson.v ===== *)
(** * [JSON.parse] and [String(value)]

    The part of the language's JSON support the sources use beyond
    [JSON.stringify] of a string (which is in [JsString]): parsing of any JSON
    text, and conversion of the result to a string. *)

From Stdlib Require Import ZArith Lia Bool SpecFloat.
From stdpp Require Import base list numbers.
From S2P Require Import Prelude JsString JsObject JsNumber JsNumberFacts JsValue.

(** What the two functions can throw. *)
Inductive JsError := SyntaxError | TypeError.

(** ** Strings *)

Definition single_escapes : list (N * N) :=
  [(34, 34); (92, 92); (47, 47); (98, 8); (102, 12); (110, 10); (114, 13); (116, 9)]%N.
Fixpoint escaped_unit (l : list (N * N)) (c : N) : option N :=
  match l with
  | [] => None
  | (k, v) :: l' => if (k =? c)%N then Some v else escaped_unit l' c
  end.
Arguments escaped_unit : simpl never.

Definition hex_number (l : str) : N := fold_left (fun n x => n * 16 + hex_value x)%N l 0%N.

(** The body of a string behind its opening quote: its value and what
    follows the closing quote. *)
Fixpoint json_string (s : str) : option (str * str) :=
  match s with
  | [] => None
  | c :: s' =>
      if (c =? 34)%N then Some ([], s')
      else if (c <? 32)%N then None
      else if (c =? 92)%N then
        match s' with
        | [] => None
        | e :: s2 =>
            match escaped_unit single_escapes e with
            | Some u => '(v, r) ← json_string s2; Some (u :: v, r)
            | None =>
                if (e =? 117)%N then
                  match s2 with
                  | h1 :: h2 :: h3 :: h4 :: s3 =>
                      if forallb is_hex [h1; h2; h3; h4]
                      then '(v, r) ← json_string s3; Some (hex_number [h1; h2; h3; h4] :: v, r)
                      else None
                  | _ => None
                  end
                else None
            end
        end
      else '(v, r) ← json_string s'; Some (c :: v, r)
  end.

(** ** Numbers: no leading zeros, no bare point, an optional minus sign *)

Definition json_number (s : str) : option (num * str) :=
  let '(neg, s1) :=
    match s with c :: s' => if (c =? 45)%N then (true, s') else (false, s) | [] => (false, s) end in
  let '(ip, r) := span is_digit s1 in
  match ip with
  | [] => None
  | z :: ip' =>
      if (z =? 48)%N && negb (match ip' with [] => true | _ => false end) then None
      else
        match r with
        | p :: r' =>
            if (p =? 46)%N then
              match (span is_digit r').1 with
              | [] => None
              | _ => '(d, rest) ← scan_decimal s1; Some (num_of_dec neg d, rest)
              end
            else '(d, rest) ← scan_decimal s1; Some (num_of_dec neg d, rest)
        | [] => '(d, rest) ← scan_decimal s1; Some (num_of_dec neg d, rest)
        end
  end.

(** ** Values *)

Definition is_json_space (c : N) : bool :=
  (c =? 32)%N || (c =? 9)%N || (c =? 10)%N || (c =? 13)%N.
Definition skip_json (s : str) : str := drop_while is_json_space s.

Definition json_literal (s : str) : option (jsval * str) :=
  if starts_with (js "true") s then Some (JBool true, drop 4 s)
  else if starts_with (js "false") s then Some (JBool false, drop 5 s)
  else if starts_with (js "null") s then Some (JNull, drop 4 s)
  else '(n, r) ← json_number s; Some (JNum n, r).

Definition or_syntax {A} (x : option A) : outcome JsError A :=
  match x with Some a => Ok a | None => Throw SyntaxError end.

(** [json_items] and [json_members] read behind the opening bracket, or
    behind a comma when [first] is false. *)
Fixpoint json_value (fuel : nat) (s : str) : outcome JsError (jsval * str) :=
  match fuel with
  | O => OutOfFuel
  | S fuel' =>
      match skip_json s with
      | [] => Throw SyntaxError
      | c :: s' =>
          if (c =? 34)%N then let* (v, r) := or_syntax (json_string s') in Ok (JStr v, r)
          else if (c =? 91)%N then let* (l, r) := json_items fuel' true [] s' in Ok (JArr l, r)
          else if (c =? 123)%N then let* (l, r) := json_members fuel' true [] s' in Ok (JObj l, r)
          else or_syntax (json_literal (c :: s'))
      end
  end
with json_items (fuel : nat) (first : bool) (acc : list jsval) (s : str)
    : outcome JsError (list jsval * str) :=
  match fuel with
  | O => OutOfFuel
  | S fuel' =>
      match skip_json s with
      | [] => Throw SyntaxError
      | c :: s' =>
          if (c =? 93)%N && first then Ok (acc, s')
          else
            let* (v, r) := json_value fuel' (c :: s') in
            match skip_json r with
            | [] => Throw SyntaxError
            | d :: r' =>
                if (d =? 44)%N then json_items fuel' false (acc ++ [v]) r'
                else if (d =? 93)%N then Ok (acc ++ [v], r') else Throw SyntaxError
            end
      end
  end
with json_members (fuel : nat) (first : bool) (acc : list (str * jsval)) (s : str)
    : outcome JsError (list (str * jsval) * str) :=
  match fuel with
  | O => OutOfFuel
  | S fuel' =>
      match skip_json s with
      | [] => Throw SyntaxError
      | c :: s' =>
          if (c =? 125)%N && first then Ok (acc, s')
          else if negb (c =? 34)%N then Throw SyntaxError
          else
            let* (k, r) := or_syntax (json_string s') in
            match skip_json r with
            | [] => Throw SyntaxError
            | d :: r' =>
                if negb (d =? 58)%N then Throw SyntaxError
                else
                  let* (v, r'') := json_value fuel' r' in
                  match skip_json r'' with
                  | [] => Throw SyntaxError
                  | e :: r3 =>
                      if (e =? 44)%N then json_members fuel' false (obj_put acc k v) r3
                      else if (e =? 125)%N then Ok (obj_put acc k v, r3)
                      else Throw SyntaxError
                  end
            end
      end
  end.

(** [JSON.parse(text)] *)
Definition json_parse (text : str) : outcome JsError jsval :=
  let* (v, r) := json_value (2 * length text + 1) text in
  match skip_json r with [] => Ok v | _ => Throw SyntaxError end.

(** ** [String(value)]

    An object whose own [toString] is data has no string conversion. *)

Fixpoint js_String (v : jsval) : outcome JsError str :=
  match v with
  | JUndefined => Ok (js "undefined")
  | JNull => Ok (js "null")
  | JBool b => Ok (if b then js "true" else js "false")
  | JNum n => Ok (string_of_num n)
  | JStr s => Ok s
  | JArr items =>
      let* parts :=
        (fix go (l : list jsval) : outcome JsError (list str) :=
           match l with
           | [] => Ok []
           | x :: l' =>
               let* a := match x with JUndefined | JNull => Ok [] | _ => js_String x end in
               let* b := go l' in Ok (a :: b)
           end) items in
      Ok (join (js ",") parts)
  | JObj fields =>
      match assoc_str fields (js "toString") with
      | Some _ => Throw TypeError
      | None => Ok (js "[object Object]")
      end
  end.

Example parse_nested :
  json_parse (js " [1, {'a': [true, null]}, -2.5e3]") = Throw SyntaxError /\
  json_parse (js " [1, [true , null], -2.5e3] ") =
    Ok (JArr [JNum (lit 1); JArr [JBool true; JNull]; JNum (num_opp (lit 2500))]).
Proof. split; vm_compute; reflexivity. Qed.

(** ** [JSON.parse] is total *)

Lemma drop_while_length p (s : str) : length (drop_while p s) <= length s.
Proof. induction s as [|c s IH]; simpl; [done|]. destruct (p c); simpl; lia. Qed.

Lemma json_string_length s : forall v r, json_string s = Some (v, r) -> length r < length s.
Proof.
  induction s as [s IH] using (induction_ltof1 _ length). unfold ltof in IH.
  destruct s as [|c s']; simpl; [done|]. intros v r.
  assert (forall t v r (k : list N -> list N), length t <= length s' ->
    (json_string t ≫= fun '(v, r) => Some (k v, r)) = Some (v, r) -> length r <= length s') as K.
  { intros t v' r' k L. destruct (json_string t) as [[v1 r1]|] eqn:E; [|done]. simpl.
    intros [= _ <-]. apply IH in E; [lia|simpl; lia]. }
  destruct (c =? 34)%N; [by intros [= _ <-]; lia|].
  destruct (c <? 32)%N; [done|]. destruct (c =? 92)%N.
  - destruct s' as [|e s2]; [done|]. destruct (escaped_unit single_escapes e).
    + intros H. apply (K _ _ _ (cons n)) in H; simpl in *; lia.
    + destruct (e =? 117)%N; [|done]. destruct s2 as [|h1 [|h2 [|h3 [|h4 s3]]]]; try done.
      case_match; [|done].
      intros H'. apply (K _ _ _ (cons (hex_number [h1; h2; h3; h4]))) in H'; simpl in *; lia.
  - intros H. apply (K _ _ _ (cons c)) in H; lia.
Qed.

Lemma json_number_length s n r : json_number s = Some (n, r) -> length r < length s.
Proof.
  assert (forall t d r, scan_decimal t = Some (d, r) -> length r < length t) as K.
  { intros t d r' (u & -> & Hu & _)%scan_decimal_app. rewrite length_app.
    destruct u; [done|]. simpl. lia. }
  unfold json_number. intros H.
  assert (exists s1, length s1 <= length s /\ exists d, scan_decimal s1 = Some (d, r))
    as (s1 & L & d & E); [|apply K in E; lia].
  destruct (match s with [] => _ | c :: s' => _ end) as [neg s1] eqn:P.
  exists s1. split.
  { destruct s as [|c s']; [by injection P as <- <-|].
    destruct (c =? 45)%N; injection P as <- <-; simpl; lia. }
  destruct (span is_digit s1) as [[|z ip'] r1]; [done|].
  destruct (_ && _); [done|].
  assert ((('(d, rest) ← scan_decimal s1; Some (num_of_dec neg d, rest)) : option (num * str))
          = Some (n, r)) as H'.
  { repeat (case_match; try done). }
  destruct (scan_decimal s1) as [[d rest]|]; [|done]. injection H' as _ <-. by exists d.
Qed.

Lemma starts_with_length p s : starts_with p s = true -> length p <= length s.
Proof.
  revert s. induction p as [|a p IH]; intros s H; simpl; [lia|].
  destruct s as [|b s]; [done|]. simpl in *. split_andb. apply IH in H0. lia.
Qed.

Lemma json_literal_length s v r : json_literal s = Some (v, r) -> length r < length s.
Proof.
  unfold json_literal. intros H.
  repeat match type of H with
  | (if starts_with ?p s then _ else _) = _ =>
      let E := fresh in destruct (starts_with p s) eqn:E;
      [apply starts_with_length in E; change (length (js _)) with 4 in E || idtac;
       injection H as _ <-; rewrite length_drop; revert E; vm_compute (length (js _)); lia|]
  end.
  destruct (json_number s) as [[n r']|] eqn:E; [|done]. injection H as _ <-.
  by eapply json_number_length.
Qed.

Lemma skip_json_length s c s' : skip_json s = c :: s' -> length s' < length s.
Proof.
  intros E. pose proof (drop_while_length is_json_space s) as L. unfold skip_json in E.
  rewrite E in L. simpl in L. lia.
Qed.

(** What is consumed, and that the fuel for what is left is enough. *)
Definition json_good {A} (need : nat) (fuel : nat) (s : str)
    (o : outcome JsError (A * str)) : Prop :=
  (forall v r, o = Ok (v, r) -> length r < length s) /\
  (2 * length s + need <= fuel -> o <> OutOfFuel).

Lemma json_total fuel :
  (forall s, json_good 1 fuel s (json_value fuel s)) /\
  (forall first acc s, json_good 2 fuel s (json_items fuel first acc s)) /\
  (forall first acc s, json_good 2 fuel s (json_members fuel first acc s)).
Proof.
  induction fuel as [|fuel (IV & II & IM)]; [by repeat split; simpl; try done; lia|].
  split_and!.
  - intros s. cbn [json_value]. destruct (skip_json s) as [|c s'] eqn:E; [done|].
    apply skip_json_length in E.
    destruct (c =? 34)%N.
    { destruct (json_string s') as [[v r]|] eqn:J; [|done]. apply json_string_length in J.
      split; [|done]. simpl. intros ? ? [= _ <-]. lia. }
    destruct (c =? 91)%N.
    { destruct (II true [] s') as [L F]. destruct (json_items fuel true [] s') as [[l r]| |];
        simpl; split; try done; [|intros ?; exfalso; apply F; [lia|done]].
      intros ? ? [= _ <-]. specialize (L l r eq_refl). lia. }
    destruct (c =? 123)%N.
    { destruct (IM true [] s') as [L F]. destruct (json_members fuel true [] s') as [[l r]| |];
        simpl; split; try done; [|intros ?; exfalso; apply F; [lia|done]].
      intros ? ? [= _ <-]. specialize (L l r eq_refl). lia. }
    destruct (json_literal (c :: s')) as [[v r]|] eqn:J; [|done].
    apply json_literal_length in J. simpl in J.
    split; [|done]. simpl. intros ? ? [= _ <-]. lia.
  - intros first acc s. cbn [json_items]. destruct (skip_json s) as [|c s'] eqn:E; [done|].
    apply skip_json_length in E.
    destruct ((c =? 93)%N && first); [split; [|done]; intros ? ? [= _ <-]; lia|].
    destruct (IV (c :: s')) as [L F]. simpl in L, F.
    destruct (json_value fuel (c :: s')) as [[v r]| |]; simpl; split; try done;
      try (intros ?; exfalso; apply F; [lia|done]).
    + intros ? ? H. specialize (L v r eq_refl). destruct (skip_json r) as [|d r'] eqn:D; [done|].
      apply skip_json_length in D. destruct (d =? 44)%N.
      * apply (proj1 (II false (acc ++ [v]) r')) in H. lia.
      * destruct (d =? 93)%N; [|done]. injection H as _ <-. lia.
    + intros B. specialize (L v r eq_refl). destruct (skip_json r) as [|d r'] eqn:D; [done|].
      apply skip_json_length in D. destruct (d =? 44)%N; [|by destruct (d =? 93)%N].
      apply (II false (acc ++ [v]) r'). lia.
  - intros first acc s. cbn [json_members]. destruct (skip_json s) as [|c s'] eqn:E; [done|].
    apply skip_json_length in E.
    destruct ((c =? 125)%N && first); [split; [|done]; intros ? ? [= _ <-]; lia|].
    destruct (negb (c =? 34)%N); [done|].
    destruct (json_string s') as [[k r]|] eqn:J; [|done]. apply json_string_length in J. simpl.
    destruct (skip_json r) as [|d r'] eqn:D; [done|]. apply skip_json_length in D.
    destruct (negb (d =? 58)%N); [done|].
    destruct (IV r') as [L F]. simpl in L, F.
    destruct (json_value fuel r') as [[v r'']| |]; simpl; split; try done;
      try (intros ?; exfalso; apply F; [lia|done]).
    + intros ? ? H. specialize (L v r'' eq_refl).
      destruct (skip_json r'') as [|e r3] eqn:D3; [done|].
      apply skip_json_length in D3. destruct (e =? 44)%N.
      * apply (proj1 (IM false (obj_put acc k v) r3)) in H. lia.
      * destruct (e =? 125)%N; [|done]. injection H as _ <-. lia.
    + intros B. specialize (L v r'' eq_refl).
      destruct (skip_json r'') as [|e r3] eqn:D3; [done|].
      apply skip_json_length in D3. destruct (e =? 44)%N; [|by destruct (e =? 125)%N].
      apply (IM false (obj_put acc k v) r3). lia.
Qed.

Lemma json_parse_total text : json_parse text <> OutOfFuel.
Proof.
  unfold json_parse. destruct (json_total (2 * length text + 1)) as (V & _ & _).
  destruct (V text) as [_ F]. specialize (F ltac:(lia)).
  destruct (json_value _ text) as [[v r]| |]; simpl; [|done|done].
  by destruct (skip_json r).
Qed.

(** ** A stringified string parses back *)

(** Code units are 16 bits wide. *)
Definition is_unit (c : N) : bool := (c <? 65536)%N.

Lemma hex_digit_value n : (n < 16)%N -> is_hex (hex_digit n) = true /\ hex_value (hex_digit n) = n.
Proof.
  intros H.
  assert (forallb (fun k => is_hex (hex_digit k) && (hex_value (hex_digit k) =? k)%N)
            (map N.of_nat (seq 0 16)) = true) as C by (vm_compute; reflexivity).
  rewrite forallb_forall in C. specialize (C n). rewrite andb_true_iff, N.eqb_eq in C. apply C.
  apply in_map_iff. exists (N.to_nat n). split; [apply N2Nat.id|]. apply in_seq. lia.
Qed.

Definition hex_digits (c : N) : str :=
  [hex_digit (c / 4096 mod 16); hex_digit (c / 256 mod 16);
   hex_digit (c / 16 mod 16); hex_digit (c mod 16)]%N.

Lemma hex_digits_spec c :
  is_unit c = true ->
  forallb is_hex (hex_digits c) = true /\
  hex_number (hex_digits c) = c.
Proof.
  intros U. apply N.ltb_lt in U. unfold hex_digits, hex_number. cbn [forallb fold_left].
  destruct (hex_digit_value (c / 4096 mod 16)) as [-> ->]; [by apply N.mod_lt|].
  destruct (hex_digit_value (c / 256 mod 16)) as [-> ->]; [by apply N.mod_lt|].
  destruct (hex_digit_value (c / 16 mod 16)) as [-> ->]; [by apply N.mod_lt|].
  destruct (hex_digit_value (c mod 16)) as [-> ->]; [by apply N.mod_lt|].
  split; [done|].
  change 4096%N with (16 * (16 * 16))%N. change 256%N with (16 * 16)%N.
  rewrite <- !N.Div0.div_div.
  assert (c / 16 / 16 / 16 < 16)%N as L.
  { rewrite !N.Div0.div_div. apply N.Div0.div_lt_upper_bound. lia. }
  rewrite (N.mod_small (c / 16 / 16 / 16)) by done.
  pose proof (N.div_mod c 16). pose proof (N.div_mod (c / 16) 16).
  pose proof (N.div_mod (c / 16 / 16) 16). lia.
Qed.

(** Escaped text never holds a bare quote, backslash or control character. *)
Lemma json_string_unicode c r :
  is_unit c = true ->
  json_string (unicode_escape c ++ r) = '(v, r') ← json_string r; Some (c :: v, r').
Proof.
  intros U. destruct (hex_digits_spec c U) as [H V].
  change (unicode_escape c) with (92%N :: 117%N :: hex_digits c).
  unfold hex_digits in *. cbn [app json_string N.eqb Pos.eqb N.ltb N.compare Pos.compare Pos.compare_cont].
  change (escaped_unit single_escapes 117%N) with (@None N). cbv iota beta.
  rewrite H, V. done.
Qed.

Lemma json_string_unit c r :
  is_unit c = true ->
  json_string (json_escape_unit c ++ r) = '(v, r') ← json_string r; Some (c :: v, r').
Proof.
  intros U. unfold json_escape_unit.
  repeat (match goal with
  | |- context [if (c =? ?k)%N then _ else _] => destruct (N.eqb_spec c k) as [->|?]; [done|]
  end).
  destruct (N.ltb_spec c 32); [by apply json_string_unicode|].
  cbn [app json_string]. destruct (N.eqb_spec c 34); [done|].
  destruct (N.ltb_spec c 32); [lia|]. by destruct (N.eqb_spec c 92).
Qed.

Lemma json_string_plain c r :
  (56320 <= c)%N \/ (55296 <= c)%N ->
  json_string (c :: r) = '(v, r') ← json_string r; Some (c :: v, r').
Proof.
  intros U. cbn [json_string]. destruct (N.eqb_spec c 34); [lia|].
  destruct (N.ltb_spec c 32); [lia|]. by destruct (N.eqb_spec c 92); [lia|].
Qed.

Lemma json_string_escape s r :
  forallb is_unit s = true -> json_string (json_escape s ++ quote_unit :: r) = Some (s, r).
Proof.
  induction s as [s IH] using (induction_ltof1 _ length). unfold ltof in IH.
  destruct s as [|c s']; [done|]. cbn [forallb json_escape]. intros U. split_andb.
  assert (is_lead_surrogate c = true \/ is_trail_surrogate c = true -> (55296 <= c)%N) as Sg.
  { unfold is_lead_surrogate, is_trail_surrogate, in_range.
    rewrite !andb_true_iff, !N.leb_le. lia. }
  destruct (is_lead_surrogate c) eqn:L.
  - destruct s' as [|d s''].
    + rewrite json_string_unicode by done. done.
    + destruct (is_trail_surrogate d) eqn:T.
      * cbn [app]. cbn [forallb] in *. split_andb.
        rewrite !json_string_plain, IH; [done|simpl; lia|done| |].
        -- right. unfold is_trail_surrogate, in_range in T.
           apply andb_true_iff in T as [T%N.leb_le _]. lia.
        -- right. apply Sg. by left.
      * rewrite <- app_assoc, json_string_unicode, IH by (simpl; first [done|lia]). done.
  - destruct (is_trail_surrogate c) eqn:T.
    + rewrite <- app_assoc, json_string_unicode, IH by (simpl; first [done|lia]). done.
    + rewrite <- app_assoc, json_string_unit, IH by (simpl; first [done|lia]). done.
Qed.

Lemma json_parse_stringify s :
  forallb is_unit s = true -> json_parse (json_stringify s) = Ok (JStr s).
Proof.
  intros U. unfold json_parse, json_stringify.
  rewrite Nat.add_comm. cbn [Nat.add json_value skip_json drop_while].
  change (is_json_space quote_unit) with false. cbv iota.
  rewrite N.eqb_refl, json_string_escape by done. done.
Qed.
