(* ===== verification/JsJsonPrint.v ===== *)
(** * [JSON.stringify] of values

    Serialisation with or without indentation, and that [JSON.parse] reads
    back what it writes.  The texts of a value are described by a relation
    that leaves the white space open: the parser reads every such text, and
    the printer writes one of them. *)

From Stdlib Require Import ZArith Lia Bool SpecFloat.
From stdpp Require Import base list numbers.
From S2P Require Import Prelude JsString JsObject JsNumber JsNumberFacts JsValue JsJson.

(** ** Printing *)

(** A structure with its parts on lines of their own when there is a gap. *)
Definition json_block (gap indent opening closing : str) (parts : list str) : str :=
  match parts, gap with
  | [], _ => opening ++ closing
  | _, [] => opening ++ join (js ",") parts ++ closing
  | _, _ =>
      let newline := 10%N :: indent ++ gap in
      opening ++ newline ++ join (js "," ++ newline) parts ++ (10%N :: indent) ++ closing
  end.

(** [JSON.stringify(v, null, gap)] inside an indentation; [None] for
    [undefined], which is left out of objects and [null] in arrays. *)
Fixpoint json_print (gap indent : str) (v : jsval) : option str :=
  match v with
  | JUndefined => None
  | JNull => Some (js "null")
  | JBool b => Some (if b then js "true" else js "false")
  | JNum n => Some (if is_finite n then string_of_num n else js "null")
  | JStr s => Some (json_stringify s)
  | JArr items =>
      Some (json_block gap indent (js "[") (js "]")
        (List.map (fun x => default (js "null") (json_print gap (indent ++ gap) x)) items))
  | JObj fields =>
      Some (json_block gap indent (js "{") (js "}")
        (List.concat (List.map (fun e =>
           match json_print gap (indent ++ gap) e.2 with
           | Some t => [json_stringify e.1 ++ js ":" ++ (match gap with [] => [] | _ => js " " end) ++ t]
           | None => []
           end) fields)))
  end.

(** ** The texts of a value *)

Definition is_blank (w : str) : Prop := forallb is_json_space w = true.

(** Finite numbers other than [-0], which prints as [0]. *)
Definition json_plain (n : num) : bool :=
  canonb n && is_finite n && negb (match n with S754_zero s => s | _ => false end).

(** [item_text] and [member_text] are what follows the opening bracket. *)
Inductive value_text_of : jsval -> str -> Prop :=
| text_num n : json_plain n = true -> value_text_of (JNum n) (string_of_num n)
| text_null : value_text_of JNull (js "null")
| text_true : value_text_of (JBool true) (js "true")
| text_false : value_text_of (JBool false) (js "false")
| text_str s : forallb is_unit s = true -> value_text_of (JStr s) (json_stringify s)
| text_arr_nil w : is_blank w -> value_text_of (JArr []) (js "[" ++ w ++ js "]")
| text_arr l t : item_text l t -> value_text_of (JArr l) (js "[" ++ t)
| text_obj_nil w : is_blank w -> value_text_of (JObj []) (js "{" ++ w ++ js "}")
| text_obj l t : member_text l t -> obj_from_entries l = l -> value_text_of (JObj l) (js "{" ++ t)
with item_text : list jsval -> str -> Prop :=
| item_last w v t w' : is_blank w -> is_blank w' -> value_text_of v t ->
    item_text [v] (w ++ t ++ w' ++ js "]")
| item_more w v t w' l t' : is_blank w -> is_blank w' -> value_text_of v t -> item_text l t' ->
    item_text (v :: l) (w ++ t ++ w' ++ js "," ++ t')
with member_text : list (str * jsval) -> str -> Prop :=
| member_last w k w1 w2 v t w' : is_blank w -> is_blank w1 -> is_blank w2 -> is_blank w' ->
    forallb is_unit k = true -> value_text_of v t ->
    member_text [(k, v)] (w ++ json_stringify k ++ w1 ++ js ":" ++ w2 ++ t ++ w' ++ js "}")
| member_more w k w1 w2 v t w' l t' : is_blank w -> is_blank w1 -> is_blank w2 -> is_blank w' ->
    forallb is_unit k = true -> value_text_of v t -> member_text l t' ->
    member_text ((k, v) :: l) (w ++ json_stringify k ++ w1 ++ js ":" ++ w2 ++ t ++ w' ++ js "," ++ t').

Scheme value_text_mut := Induction for value_text_of Sort Prop
with item_text_mut := Induction for item_text Sort Prop
with member_text_mut := Induction for member_text Sort Prop.

Lemma skip_blank w s : is_blank w -> skip_json (w ++ s) = skip_json s.
Proof. intros B. unfold skip_json. induction w as [|c w IH]; [done|]. unfold is_blank in *. cbn [forallb] in B. split_andb. cbn [app drop_while]. rewrite H. by apply IH. Qed.

(** *** Numbers *)

Lemma unsigned_digits n : json_plain n = true -> sign_bit n = false -> exists c r d, string_of_num n = c :: r /\ is_digit c = true /\
  json_digits (string_of_num n) = true /\ scan_decimal (string_of_num n) = Some (d, []) /\ num_of_dec false d = n.
Proof.
  unfold json_plain. rewrite !andb_true_iff. intros [[C F] _] S. apply canonb_spec in C.
  destruct (Number_of_string_of_num n C F S) as ((d & Sc & E) & _). destruct n as [s|s| |s m e]; try done.
  - by exists 48%N, [], d.
  - cbn in S. subst s. pose proof (shortest_decimal_ok m e C) as Ok. cbn [string_of_num] in *.
    destruct (shortest_decimal m e) as [dm dt]. cbn [fst snd app] in *. destruct (format_decimal_head dm dt) as (c & r & H & D).
    exists c, r, d. split; [done|]. split; [done|]. split; [|done]. apply format_json. destruct dm; [|done].
    by vm_compute in Ok.
Qed.

Lemma negative_dec d m e : num_of_dec false d = S754_finite false m e -> num_of_dec true d = S754_finite true m e.
Proof.
  unfold num_of_dec, num_of_decimal, round_ratio, make_num. repeat (case_match; try done); by intros [= <- <-].
Qed.

(** A number is its digits, behind a minus sign or not. *)
Lemma plain_parts n : json_plain n = true -> exists c r d, is_digit c = true /\ json_digits (c :: r) = true /\
  scan_decimal (c :: r) = Some (d, []) /\ num_of_dec (sign_bit n) d = n /\
  string_of_num n = (if sign_bit n then [45%N] else []) ++ c :: r.
Proof.
  intros P. destruct (sign_bit n) eqn:S.
  - destruct n as [s|s| |s m e]; try done; [cbn in S; subst s; by unfold json_plain in P|]. cbn in S. subst s.
    destruct (unsigned_digits (S754_finite false m e)) as (c & r & d & E & D & J & Sc & V); [done|done|]. exists c, r, d.
    rewrite E in J, Sc. apply negative_dec in V. split_and!; try done. cbn [string_of_num] in E |- *.
    destruct (shortest_decimal m e). cbn [app] in E |- *. by rewrite E.
  - destruct (unsigned_digits n P S) as (c & r & d & E & D & J & Sc & V). exists c, r, d. by rewrite E in J, Sc |- *.
Qed.

Lemma json_number_plain n rest : json_plain n = true -> head_not literal_char rest = true ->
  json_number (string_of_num n ++ rest) = Some (n, rest).
Proof.
  intros P H. destruct (plain_parts n P) as (c & r & d & D & J & S & V & ->). apply (json_digits_extend _ _ H) in J.
  apply (scan_decimal_extend _ _ _ H) in S. cbn [app] in J, S.
  assert ((c =? 45)%N = false) as N by (destruct (N.eqb_spec c 45) as [->|]; [by vm_compute in D|done]).
  assert (json_number (((if sign_bit n then [45%N] else []) ++ c :: r) ++ rest) =
          (let '(ip, q) := span is_digit (c :: r ++ rest) in
           match ip with
           | [] => None
           | z :: ip' =>
               if (z =? 48)%N && negb (match ip' with [] => true | _ => false end) then None
               else
                 let number := '(d, rest) ← scan_decimal (c :: r ++ rest); Some (num_of_dec (sign_bit n) d, rest) in
                 match q with p :: q' => if (p =? 46)%N then match (span is_digit q').1 with [] => None | _ => number end else number
                 | [] => number end
           end)) as -> by (unfold json_number; destruct (sign_bit n); cbn [app]; [done|by rewrite N]).
  cbv zeta. unfold json_digits in J. destruct (span is_digit (c :: r ++ rest)) as [ip q].
  destruct ip as [|z ip]; [done|]. apply andb_true_iff in J as [J1 J2]. apply negb_true_iff in J1. rewrite J1.
  destruct q as [|p q]; [by rewrite S; cbn; rewrite V|]. destruct (p =? 46)%N; [|by rewrite S; cbn; rewrite V].
  cbn [negb orb] in J2. destruct (span is_digit q).1; [done|]. rewrite S. cbn. by rewrite V.
Qed.

(** The first character of a value. *)
Definition value_head (c : N) : bool := existsb (N.eqb c) [110; 116; 102; 34; 91; 123; 45]%N || is_digit c.

Lemma value_text_head v t : value_text_of v t -> exists c t', t = c :: t' /\ value_head c = true.
Proof.
  destruct 1; try by eexists _, _. destruct (plain_parts n) as (c & r & d & D & _ & _ & _ & ->); [done|].
  destruct (sign_bit n); eexists _, _; (split; [done|]); [done|]. unfold value_head. by rewrite D, orb_true_r.
Qed.

Lemma digit_not c : is_digit c = true -> is_json_space c = false /\ c <> 93%N.
Proof.
  unfold is_digit, in_range, is_json_space. rewrite andb_true_iff, !N.leb_le. intros D.
  rewrite !orb_false_iff, !N.eqb_neq. lia.
Qed.

Lemma value_head_cases c : value_head c = true -> is_json_space c = false /\ c <> 93%N.
Proof.
  unfold value_head. cbn [existsb]. rewrite !orb_true_iff, !N.eqb_eq. intros [H|H]; [|by apply digit_not].
  repeat destruct H as [->|H]; done.
Qed.

Lemma skip_head v t s : value_text_of v t -> skip_json (t ++ s) = t ++ s.
Proof.
  intros (c & t' & -> & H)%value_text_head. apply value_head_cases in H as [H _].
  unfold skip_json. cbn [app drop_while]. by rewrite H.
Qed.

Lemma skip_stringify k s : skip_json (json_stringify k ++ s) = 34%N :: json_escape k ++ quote_unit :: s.
Proof. unfold json_stringify, skip_json. cbn [app drop_while]. by rewrite <- app_assoc. Qed.

Lemma json_value_skip fuel s s' : skip_json s = skip_json s' -> json_value fuel s = json_value fuel s'.
Proof. intros E. destruct fuel; [done|]. cbn [json_value]. by rewrite E. Qed.

Lemma json_value_blank fuel w v t s : is_blank w -> value_text_of v t ->
  json_value fuel (w ++ t ++ s) = json_value fuel (t ++ s).
Proof. intros B V. apply json_value_skip. by apply skip_blank. Qed.

(** ** Parsing *)

Definition value_reads (v : jsval) (t : str) : Prop :=
  forall fuel rest, 2 * length t <= fuel -> head_not literal_char rest = true -> json_value fuel (t ++ rest) = Ok (v, rest).
Definition items_read (l : list jsval) (t : str) : Prop :=
  forall fuel first acc rest, 2 * length t <= fuel -> json_items fuel first acc (t ++ rest) = Ok (acc ++ l, rest).
Definition members_read (l : list (str * jsval)) (t : str) : Prop :=
  forall fuel first acc rest, 2 * length t <= fuel ->
  json_members fuel first acc (t ++ rest) = Ok (fold_left (fun o e => obj_put o e.1 e.2) l acc, rest).

Lemma item_reads fuel first acc w v t s : is_blank w -> value_text_of v t -> value_reads v t ->
  2 * length t + 1 <= fuel -> head_not literal_char s = true ->
  json_items fuel first acc (w ++ t ++ s) =
  match skip_json s with
  | [] => Throw SyntaxError
  | d :: r' =>
      if (d =? 44)%N then json_items (pred fuel) false (acc ++ [v]) r'
      else if (d =? 93)%N then Ok (acc ++ [v], r') else Throw SyntaxError
  end.
Proof.
  intros B V R F HS. destruct fuel as [|fuel]; [lia|]. cbn [json_items pred]. rewrite skip_blank, (skip_head _ _ _ V) by done.
  destruct (value_text_head v t V) as (c & t' & E & H). apply value_head_cases in H as [_ H].
  specialize (R fuel s ltac:(lia) HS). rewrite E in R |- *. cbn [app] in R |- *.
  apply N.eqb_neq in H. rewrite H. cbn [andb]. rewrite R. done.
Qed.

Lemma member_reads fuel first acc w k w1 w2 v t s :
  is_blank w -> is_blank w1 -> is_blank w2 -> forallb is_unit k = true -> value_text_of v t -> value_reads v t ->
  2 * length t + 1 <= fuel -> head_not literal_char s = true ->
  json_members fuel first acc (w ++ json_stringify k ++ w1 ++ js ":" ++ w2 ++ t ++ s) =
  match skip_json s with
  | [] => Throw SyntaxError
  | d :: r' =>
      if (d =? 44)%N then json_members (pred fuel) false (obj_put acc k v) r'
      else if (d =? 125)%N then Ok (obj_put acc k v, r') else Throw SyntaxError
  end.
Proof.
  intros B B1 B2 U V R F HS. destruct fuel as [|fuel]; [lia|]. cbn [json_members pred].
  rewrite skip_blank, skip_stringify by done. cbn [negb N.eqb Pos.eqb andb].
  rewrite json_string_escape by done. cbn [or_syntax obind]. rewrite skip_blank by done.
  change (skip_json (js ":" ++ w2 ++ t ++ s)) with (58%N :: w2 ++ t ++ s). cbn [negb N.eqb Pos.eqb].
  rewrite (json_value_blank _ _ v), R by (done || lia). done.
Qed.

Lemma stop_after w c r : is_blank w -> literal_char c = false -> head_not literal_char (w ++ c :: r) = true.
Proof.
  intros B C. destruct w as [|b w]; cbn; [by rewrite C|]. unfold is_blank in B. cbn [forallb] in B. split_andb.
  unfold is_json_space in H. rewrite !orb_true_iff, !N.eqb_eq in H. by repeat destruct H as [H|H]; subst b.
Qed.

Lemma stop_blank w : is_blank w -> head_not literal_char w = true.
Proof. intros B. pose proof (stop_after w 44%N [] B eq_refl) as S. by destruct w. Qed.

Lemma literal_number c s : is_digit c = true \/ c = 45%N -> (c =? 34)%N = false /\ (c =? 91)%N = false /\ (c =? 123)%N = false /\
  json_literal (c :: s) = ('(n, r) ← json_number (c :: s); Some (JNum n, r)).
Proof.
  intros D. assert (45 <= c <= 57)%N as B.
  { destruct D as [D| ->]; [|done]. unfold is_digit, in_range in D. apply andb_true_iff in D. rewrite !N.leb_le in D. lia. }
  assert (forall k, (k < 45 \/ 57 < k)%N -> (c =? k)%N = false /\ (k =? c)%N = false) as Nk by (intros k K; rewrite !N.eqb_neq; lia).
  split_and!; try (apply Nk; lia). unfold json_literal.
  assert (starts_with (js "true") (c :: s) = false) as -> by
    (change (js "true") with [116; 114; 117; 101]%N; destruct (Nk 116%N) as [A B']; [lia|]; cbn [starts_with]; by rewrite ?A, ?B').
  assert (starts_with (js "false") (c :: s) = false) as -> by
    (change (js "false") with [102; 97; 108; 115; 101]%N; destruct (Nk 102%N) as [A B']; [lia|]; cbn [starts_with]; by rewrite ?A, ?B').
  assert (starts_with (js "null") (c :: s) = false) as -> by
    (change (js "null") with [110; 117; 108; 108]%N; destruct (Nk 110%N) as [A B']; [lia|]; cbn [starts_with]; by rewrite ?A, ?B').
  done.
Qed.

Lemma texts_read v t : value_text_of v t -> value_reads v t.
Proof.
  revert v t. apply (value_text_mut (fun v t _ => value_reads v t) (fun l t _ => items_read l t) (fun l t _ => members_read l t)).
  2-4: by intros [|fuel] rest F H; [vm_compute in F; lia|].
  - intros n P fuel rest F H. pose proof (json_number_plain n rest P H) as J.
    assert (exists c r, string_of_num n = c :: r /\ (is_digit c = true \/ c = 45%N)) as (c & r & E & D).
    { destruct (plain_parts n P) as (c & r & d & D & _ & _ & _ & ->). destruct (sign_bit n); eexists _, _; eauto. }
    destruct fuel as [|fuel]; [rewrite E in F; cbn in F; lia|]. cbn [json_value].
    rewrite (skip_head (JNum n)) by by constructor. rewrite E in J |- *. cbn [app] in J |- *.
    destruct (literal_number c (r ++ rest) D) as (-> & -> & -> & ->). by rewrite J.
  - intros s U [|fuel] rest F H; [cbn in F; lia|]. cbn [json_value]. rewrite skip_stringify.
    cbn [N.eqb Pos.eqb]. by rewrite json_string_escape.
  - intros w B [|[|fuel]] rest F H; [rewrite !length_app in F; change (length (js "[")) with 1 in F; lia..|].
    rewrite <- !app_assoc. change (json_value (S (S fuel)) (js "[" ++ w ++ js "]" ++ rest)) with
      (let* (l, r) := json_items (S fuel) true [] (w ++ js "]" ++ rest) in Ok (JArr l, r)).
    cbn [json_items]. by rewrite skip_blank.
  - intros l t _ R [|fuel] rest F H; rewrite length_app in F; change (length (js "[")) with 1 in F; [lia|].
    rewrite <- app_assoc. change (json_value (S fuel) (js "[" ++ t ++ rest)) with
      (let* (l, r) := json_items fuel true [] (t ++ rest) in Ok (JArr l, r)).
    by rewrite R by lia.
  - intros w B [|[|fuel]] rest F H; [rewrite !length_app in F; change (length (js "{")) with 1 in F; lia..|].
    rewrite <- !app_assoc. change (json_value (S (S fuel)) (js "{" ++ w ++ js "}" ++ rest)) with
      (let* (l, r) := json_members (S fuel) true [] (w ++ js "}" ++ rest) in Ok (JObj l, r)).
    cbn [json_members]. by rewrite skip_blank.
  - intros l t _ R E [|fuel] rest F H; rewrite length_app in F; change (length (js "{")) with 1 in F; [lia|].
    rewrite <- app_assoc. change (json_value (S fuel) (js "{" ++ t ++ rest)) with
      (let* (l, r) := json_members fuel true [] (t ++ rest) in Ok (JObj l, r)).
    rewrite R by lia. cbn [obind]. fold (obj_from_entries l). by rewrite E.
  - intros w v t w' B B' V R fuel first acc rest F. rewrite !length_app in F. change (length (js "]")) with 1 in F.
    rewrite <- !app_assoc, (item_reads _ _ _ w v t), skip_blank by (done || lia || by apply stop_after). done.
  - intros w v t w' l t' B B' V R M IH fuel first acc rest F. rewrite !length_app in F. change (length (js ",")) with 1 in F.
    rewrite <- !app_assoc, (item_reads _ _ _ w v t), skip_blank by (done || lia || by apply stop_after).
    change (skip_json (js "," ++ t' ++ rest)) with (44%N :: t' ++ rest). cbn [N.eqb Pos.eqb].
    rewrite IH by lia. by rewrite <- app_assoc.
  - intros w k w1 w2 v t w' B B1 B2 B' U V R fuel first acc rest F. rewrite !length_app in F. change (length (js "}")) with 1 in F.
    rewrite <- !app_assoc, (member_reads _ _ _ w k w1 w2 v t), skip_blank by (done || lia || by apply stop_after). done.
  - intros w k w1 w2 v t w' l t' B B1 B2 B' U V R M IH fuel first acc rest F. rewrite !length_app in F.
    change (length (js ",")) with 1 in F. rewrite <- !app_assoc, (member_reads _ _ _ w k w1 w2 v t), skip_blank by (done || lia || by apply stop_after).
    change (skip_json (js "," ++ t' ++ rest)) with (44%N :: t' ++ rest). cbn [N.eqb Pos.eqb].
    by rewrite IH by lia.
Qed.

(** Any text of a value is parsed into it. *)
Lemma json_parse_text v t w w' : value_text_of v t -> is_blank w -> is_blank w' -> json_parse (w ++ t ++ w') = Ok v.
Proof.
  intros V B B'. unfold json_parse. rewrite (json_value_blank _ _ v) by done.
  rewrite (texts_read v t V) by (rewrite ?length_app; lia || by apply stop_blank). cbn [obind].
  rewrite <- (app_nil_r w'), skip_blank by done. done.
Qed.

(** ** What is printed is read back *)

(** Values that survive: nothing undefined, finite numbers other than [-0], code
    units of 16 bits, and objects whose entries are listed in enumeration order. *)
Fixpoint textual (v : jsval) : bool :=
  match v with
  | JUndefined => false
  | JNum n => json_plain n
  | JNull | JBool _ => true
  | JStr s => forallb is_unit s
  | JArr items => forallb textual items
  | JObj fields =>
      forallb (fun e => forallb is_unit e.1 && textual e.2) fields && enumerated fields.*1
  end.

Lemma blank_newline indent : is_blank indent -> is_blank (10%N :: indent).
Proof. by intros B. Qed.

Lemma blank_app w w' : is_blank w -> is_blank w' -> is_blank (w ++ w').
Proof. unfold is_blank. rewrite forallb_app. by intros -> ->. Qed.

Lemma items_spelled w w' l ts : is_blank w -> is_blank w' -> Forall2 value_text_of l ts -> l <> [] ->
  item_text l (w ++ join (js "," ++ w) ts ++ w' ++ js "]").
Proof.
  intros B B' F N. induction F as [|v t l ts V F IH]; [done|]. destruct F as [|v2 t2 l ts V2 F].
  - by apply item_last.
  - specialize (IH ltac:(done)).
    change (join (js "," ++ w) (t :: t2 :: ts)) with (t ++ (js "," ++ w) ++ join (js "," ++ w) (t2 :: ts)).
    rewrite <- !app_assoc. by apply (item_more w v t [] (v2 :: l)).
Qed.

Definition member_spelled (sp : str) (e : str * jsval) (p : str) : Prop :=
  forallb is_unit e.1 = true /\ exists t, value_text_of e.2 t /\ p = json_stringify e.1 ++ js ":" ++ sp ++ t.

Lemma members_spelled w w' sp l ps : is_blank w -> is_blank w' -> is_blank sp -> Forall2 (member_spelled sp) l ps -> l <> [] ->
  member_text l (w ++ join (js "," ++ w) ps ++ w' ++ js "}").
Proof.
  intros B B' S F N. induction F as [|[k v] p l ps [U (t & V & ->)] F IH]; [done|]. cbn [fst snd] in *.
  destruct F as [|e2 p2 l ps V2 F].
  - cbn [join]. rewrite <- !app_assoc. by apply (member_last w k [] sp v t w').
  - specialize (IH ltac:(done)). set (p1 := json_stringify k ++ js ":" ++ sp ++ t).
    change (join (js "," ++ w) (p1 :: p2 :: ps)) with (p1 ++ (js "," ++ w) ++ join (js "," ++ w) (p2 :: ps)).
    unfold p1. rewrite <- !app_assoc. by apply (member_more w k [] sp v t [] (e2 :: l)).
Qed.

(** With or without a gap, a block is one of the texts. *)
Lemma items_block gap indent l ts : is_blank gap -> is_blank indent -> Forall2 value_text_of l ts ->
  value_text_of (JArr l) (json_block gap indent (js "[") (js "]") ts).
Proof.
  intros G I F. destruct F as [|v t l ts V F]; [by apply (text_arr_nil [])|]. unfold json_block. destruct gap as [|g gap].
  - apply text_arr. apply (items_spelled [] []); [done..|by constructor|done].
  - apply text_arr.
    apply (items_spelled (10%N :: indent ++ g :: gap) (10%N :: indent)); [by apply blank_newline, blank_app|by apply blank_newline|by constructor|done].
Qed.

Lemma members_block gap indent sp l ps : is_blank gap -> is_blank indent -> is_blank sp ->
  Forall2 (member_spelled sp) l ps -> obj_from_entries l = l ->
  value_text_of (JObj l) (json_block gap indent (js "{") (js "}") ps).
Proof.
  intros G I S F E. destruct F as [|v t l ts V F]; [by apply (text_obj_nil [])|]. unfold json_block. destruct gap as [|g gap].
  - apply text_obj; [|done]. apply (members_spelled [] [] sp); [done..|by constructor|done].
  - apply text_obj; [|done].
    apply (members_spelled (10%N :: indent ++ g :: gap) (10%N :: indent) sp); [by apply blank_newline, blank_app|by apply blank_newline|done|by constructor|done].
Qed.

Lemma jsval_nested_ind (P : jsval -> Prop) :
  P JUndefined -> P JNull -> (forall b, P (JBool b)) -> (forall n, P (JNum n)) -> (forall s, P (JStr s)) ->
  (forall items, Forall P items -> P (JArr items)) -> (forall fields, Forall (fun e => P e.2) fields -> P (JObj fields)) ->
  forall v, P v.
Proof.
  intros U N B M S A O. fix IH 1. intros [| | | | |items|fields]; [done|done|apply B|apply M|apply S|apply A|apply O].
  - induction items; constructor; [apply IH|done].
  - induction fields as [|[k v] fields IHf]; constructor; [apply IH|done].
Qed.

Lemma print_spelled gap v : is_blank gap -> textual v = true -> forall indent, is_blank indent ->
  exists t, json_print gap indent v = Some t /\ value_text_of v t.
Proof.
  intros G. induction v as [| |b|n|s|items IH|fields IH] using jsval_nested_ind; intros T indent I; try done.
  - exists (js "null"). split; [done|constructor].
  - destruct b; eexists; (split; [done|constructor]).
  - cbn in T. cbn [json_print]. assert (is_finite n = true) as -> by (unfold json_plain in T; by split_andb).
    eexists. split; [done|]. by constructor.
  - eexists. split; [done|]. by constructor.
  - cbn [json_print]. eexists. split; [reflexivity|]. apply items_block; [done..|]. cbn [textual] in T.
    induction IH as [|v items Hv IH IHl]; [constructor|]. cbn [forallb List.map] in *. split_andb.
    destruct (Hv H (indent ++ gap)) as (t & -> & V); [by apply blank_app|]. constructor; [done|by apply IHl].
  - cbn [textual] in T. apply andb_true_iff in T as [T X].
    cbn [json_print]. eexists. split; [reflexivity|]. set (sp := match gap with [] => [] | _ => js " " end).
    apply (members_block _ _ sp); [done|done|by destruct gap| |by apply obj_from_entries_enumerated].
    clear X. induction IH as [|[k v] fields Hv IH IHl]; [constructor|]. cbn [forallb List.map fst snd] in *. split_andb.
    destruct (Hv H1 (indent ++ gap)) as (t & -> & V); [by apply blank_app|]. cbn [List.concat app].
    constructor; [|by apply IHl]. split; [done|]. by exists t.
Qed.

(** A textual value is read back as it was written, with any indentation by
    white space. *)
Lemma json_parse_print gap v t : is_blank gap -> textual v = true -> json_print gap [] v = Some t -> json_parse t = Ok v.
Proof.
  intros G T P. destruct (print_spelled gap v G T []) as (t' & P' & V); [done|]. simplify_eq.
  rewrite <- (app_nil_r t). by apply (json_parse_text v t [] []).
Qed.

(** ** Parsed values *)

(** What serialisation makes of a value: [-0] prints as [0], a number that is not
    finite as [null]. *)
Definition json_clean_num (n : num) : jsval :=
  match n with S754_zero _ => JNum num_zero | S754_finite _ _ _ => JNum n | _ => JNull end.

Fixpoint json_clean (v : jsval) : jsval :=
  match v with
  | JNum n => json_clean_num n
  | JArr items => JArr (List.map json_clean items)
  | JObj fields => JObj (List.map (fun e => (e.1, json_clean e.2)) fields)
  | _ => v
  end.

Lemma print_clean gap v : forall indent, json_print gap indent (json_clean v) = json_print gap indent v.
Proof.
  induction v as [| |b|n|s|items IH|fields IH] using jsval_nested_ind; intros indent; try done.
  - by destruct n as [[]|[]| |].
  - cbn [json_clean json_print]. do 2 f_equal. induction IH as [|v items Hv IH IHl]; [done|]. cbn [List.map]. by rewrite Hv, IHl.
  - cbn [json_clean json_print]. do 3 f_equal. induction IH as [|[k v] fields Hv IH IHl]; [done|]. cbn [List.map fst snd] in *.
    by rewrite Hv, IHl.
Qed.

(** A value that JSON spells is left as it is. *)
Lemma textual_clean v : textual v = true -> json_clean v = v.
Proof.
  induction v as [| |b|n|s|items IH|fields IH] using jsval_nested_ind; intros T; try done.
  - by destruct n as [[]|[]| |].
  - cbn [json_clean textual] in *. f_equal. induction IH as [|v items Hv IH IHl]; [done|]. cbn [List.map forallb] in *. split_andb.
    by rewrite Hv, IHl.
  - cbn [json_clean textual] in *. apply andb_true_iff in T as [T _]. f_equal.
    induction IH as [|[k v] fields Hv IH IHl]; [done|]. cbn [List.map forallb fst snd] in *. split_andb. by rewrite Hv, IHl.
Qed.

(** Values a parser builds. *)
Fixpoint parsed_value (v : jsval) : bool :=
  match v with
  | JUndefined => false
  | JNull | JBool _ => true
  | JNum n => canonb n
  | JStr s => forallb is_unit s
  | JArr items => forallb parsed_value items
  | JObj fields => forallb (fun e => forallb is_unit e.1 && parsed_value e.2) fields && enumerated fields.*1
  end.

Lemma clean_textual v : parsed_value v = true -> textual (json_clean v) = true.
Proof.
  induction v as [| |b|n|s|items IH|fields IH] using jsval_nested_ind; intros P; try done.
  - destruct n as [s|s| |s m e]; try done. cbn in *. unfold json_plain. cbn [canonb]. by rewrite P.
  - cbn [json_clean textual parsed_value] in *. induction IH as [|v items Hv IH IHl]; [done|]. cbn [List.map forallb] in *. split_andb.
    by rewrite Hv, IHl.
  - cbn [json_clean textual parsed_value] in *. apply andb_true_iff in P as [P E]. rewrite andb_true_iff. split.
    + clear E. induction IH as [|[k v] fields Hv IH IHl]; [done|]. cbn [List.map forallb fst snd] in *. split_andb.
      by rewrite H, Hv, IHl.
    + replace ((List.map (fun e => (e.1, json_clean e.2)) fields).*1) with (fields.*1); [done|]. clear.
      induction fields as [|e fields IH]; [done|]. cbn. by rewrite IH.
Qed.

Lemma canonb_canon x : num_canon x -> canonb x = true.
Proof.
  destruct x as [| | |s m e]; try done. cbn. unfold canon. intros C. rewrite !andb_true_iff, orb_true_iff, Z.ltb_lt, !Z.leb_le, Z.eqb_eq. lia.
Qed.

Lemma hex_unit h1 h2 h3 h4 : forallb is_hex [h1; h2; h3; h4] = true -> is_unit (hex_number [h1; h2; h3; h4]) = true.
Proof.
  assert (forall h, is_hex h = true -> (hex_value h < 16)%N) as B.
  { intros h. unfold is_hex, hex_value, is_digit, in_range. rewrite !orb_true_iff, !andb_true_iff, !N.leb_le. intros H.
    repeat case_match; rewrite ?andb_true_iff, ?andb_false_iff, ?N.leb_le, ?N.leb_gt in *; lia. }
  cbn [forallb]. intros H. split_andb. unfold hex_number, is_unit. cbn [fold_left]. apply N.ltb_lt.
  pose proof (B h1 H). pose proof (B h2 H0). pose proof (B h3 H1). pose proof (B h4 H2). lia.
Qed.

(** Texts of code units: all strings are, [units] says so. *)
Definition units (s : str) : Prop := forallb is_unit s = true.

Lemma units_app s t : units (s ++ t) <-> units s /\ units t.
Proof. unfold units. by rewrite forallb_app, andb_true_iff. Qed.

Lemma units_cons c s : units (c :: s) <-> is_unit c = true /\ units s.
Proof. unfold units. cbn [forallb]. by rewrite andb_true_iff. Qed.

Lemma units_drop n s : units s -> units (drop n s).
Proof. intros U. rewrite <- (take_drop n s), units_app in U. by destruct U. Qed.

Lemma units_skip s : units s -> units (skip_json s).
Proof. intros U. destruct (drop_while_spec is_json_space s) as (a & E & _). rewrite E, units_app in U. by destruct U. Qed.

Lemma escape_unit e u : escaped_unit single_escapes e = Some u -> is_unit u = true.
Proof.
  assert (forall l, forallb (fun p : N * N => is_unit p.2) l = true -> escaped_unit l e = Some u -> is_unit u = true) as H.
  { induction l as [|[k v] l IH]; [done|]. cbn [forallb snd]. intros B. split_andb. unfold escaped_unit. fold escaped_unit.
    destruct (k =? e)%N; [by intros [= <-]|by apply IH]. }
  by apply H.
Qed.

Lemma json_string_units s : forall v r, units s -> json_string s = Some (v, r) -> units v /\ units r.
Proof.
  induction s as [s IH] using (induction_ltof1 _ length). unfold ltof in IH.
  destruct s as [|c s']; cbn [json_string]; [done|]. intros v r U. apply units_cons in U as [Uc U].
  assert (forall t u v r, length t <= length s' -> units t -> is_unit u = true ->
    (json_string t ≫= fun '(v, r) => Some (u :: v, r)) = Some (v, r) -> units v /\ units r) as K.
  { intros t u v' r' L Ut Uu. destruct (json_string t) as [[v1 r1]|] eqn:E; [|done]. cbn. intros [= <- <-].
    apply IH in E; [|cbn; lia|done]. rewrite units_cons. tauto. }
  destruct (c =? 34)%N; [by intros [= <- <-]|]. destruct (c <? 32)%N; [done|]. destruct (c =? 92)%N; [|by apply K].
  destruct s' as [|e s2]; [done|]. apply units_cons in U as [_ U]. destruct (escaped_unit single_escapes e) eqn:E.
  - apply K; [cbn; lia|done|by eapply escape_unit].
  - destruct (e =? 117)%N; [|done]. destruct s2 as [|h1 [|h2 [|h3 [|h4 s3]]]]; try done. case_match eqn:Hx; [|done].
    rewrite !units_cons in U. apply K; [cbn; lia|tauto|]. by apply hex_unit.
Qed.

Lemma json_number_good s n r : units s -> json_number s = Some (n, r) -> canonb n = true /\ units r.
Proof.
  unfold json_number. intros U. destruct (match s with [] => _ | c :: s' => _ end) as [neg s1] eqn:P.
  assert (units s1) as U1.
  { destruct s as [|c s']; [by injection P as <- <-|]. apply units_cons in U as Uc. destruct (c =? 45)%N; injection P as <- <-; tauto. }
  destruct (span is_digit s1) as [[|z ip'] r1]; [done|]. destruct (_ && _); [done|]. intros H.
  assert ((('(d, rest) ← scan_decimal s1; Some (num_of_dec neg d, rest)) : option (num * str)) = Some (n, r)) as H'.
  { repeat (case_match; try done). }
  destruct (scan_decimal s1) as [[d rest]|] eqn:S; [|done]. injection H' as <- <-. split.
  - apply canonb_canon, num_of_decimal_canon.
  - apply scan_decimal_app in S as (u & -> & _). apply units_app in U1. tauto.
Qed.

Lemma json_literal_good s v r : units s -> json_literal s = Some (v, r) -> parsed_value v = true /\ units r.
Proof.
  intros U. unfold json_literal. repeat (case_match; [intros [= <- <-]; by split; [|apply units_drop]|]).
  destruct (json_number s) as [[n q]|] eqn:N; [|done]. intros [= <- <-]. by eapply json_number_good.
Qed.

Lemma put_parsed o k v : parsed_value (JObj o) = true -> forallb is_unit k = true -> parsed_value v = true ->
  parsed_value (JObj (obj_put o k v)) = true.
Proof.
  cbn [parsed_value]. rewrite !andb_true_iff. intros [F E] U P. split; [|by apply obj_put_enumerated].
  assert (forallb (fun e : str * jsval => forallb is_unit e.1 && parsed_value e.2) ((k, v) :: o) = true) as F'
    by (cbn; by rewrite U, P).
  unfold obj_put. destruct (has_key o k).
  - clear F' E. induction o as [|[k' v'] o IH]; [done|]. cbn [replace_key forallb fst snd] in *. split_andb.
    destruct (str_eqb k' k); cbn [forallb fst snd]; rewrite H; [by rewrite P|by rewrite H1, IH].
  - rewrite forallb_forall in F' |- *. intros e He. apply F'. destruct (is_array_index k).
    + apply list_elem_of_In in He. rewrite insert_index_perm in He. by apply list_elem_of_In.
    + apply in_app_iff in He as [He|[He|[]]]; [by right|by left].
Qed.

Definition reads_parsed {A} (good : A -> Prop) (o : outcome JsError (A * str)) : Prop :=
  forall a r, o = Ok (a, r) -> good a /\ units r.

Lemma json_reads_parsed fuel :
  (forall s, units s -> reads_parsed (fun v => parsed_value v = true) (json_value fuel s)) /\
  (forall first acc s, units s -> forallb parsed_value acc = true ->
     reads_parsed (fun l => forallb parsed_value l = true) (json_items fuel first acc s)) /\
  (forall first acc s, units s -> parsed_value (JObj acc) = true ->
     reads_parsed (fun l => parsed_value (JObj l) = true) (json_members fuel first acc s)).
Proof.
  induction fuel as [|fuel (IV & II & IM)]; [by split_and!|]. split_and!.
  - intros s U v r. cbn [json_value]. apply units_skip in U. destruct (skip_json s) as [|c s']; [done|].
    pose proof U as U0. apply units_cons in U0 as [_ U']. destruct (c =? 34)%N; [|destruct (c =? 91)%N; [|destruct (c =? 123)%N]].
    + destruct (json_string s') as [[w q]|] eqn:J; [|done]. intros [= <- <-]. exact (json_string_units _ _ _ U' J).
    + destruct (json_items fuel true [] s') as [[l q]| |] eqn:J; try done. intros [= <- <-]. exact (II true [] s' U' eq_refl l q J).
    + destruct (json_members fuel true [] s') as [[l q]| |] eqn:J; try done. intros [= <- <-]. exact (IM true [] s' U' eq_refl l q J).
    + destruct (json_literal (c :: s')) as [[w q]|] eqn:J; [|done]. intros [= <- <-]. exact (json_literal_good _ _ _ U J).
  - intros first acc s U G l r. cbn [json_items]. apply units_skip in U. destruct (skip_json s) as [|c s']; [done|].
    destruct (_ && first); [intros [= <- <-]; apply units_cons in U; tauto|].
    destruct (json_value fuel (c :: s')) as [[v q]| |] eqn:J; try done. cbn [obind]. destruct (IV (c :: s') U v q J) as [P Uq].
    apply units_skip in Uq. destruct (skip_json q) as [|d q']; [done|]. apply units_cons in Uq as [_ Uq].
    assert (forallb parsed_value (acc ++ [v]) = true) as G' by (rewrite forallb_app, G; cbn; by rewrite P).
    destruct (d =? 44)%N; [by apply II|]. destruct (d =? 93)%N; [|done]. by intros [= <- <-].
  - intros first acc s U G l r. cbn [json_members]. apply units_skip in U. destruct (skip_json s) as [|c s']; [done|].
    apply units_cons in U as [_ U]. destruct (_ && first); [by intros [= <- <-]|]. destruct (negb _); [done|].
    destruct (json_string s') as [[k q]|] eqn:J; [|done]. cbn [or_syntax obind]. destruct (json_string_units _ _ _ U J) as [Uk Uq].
    apply units_skip in Uq. destruct (skip_json q) as [|d q']; [done|]. apply units_cons in Uq as [_ Uq]. destruct (negb _); [done|].
    destruct (json_value fuel q') as [[v q2]| |] eqn:J2; try done. cbn [obind]. destruct (IV q' Uq v q2 J2) as [P U2].
    apply units_skip in U2. destruct (skip_json q2) as [|e q3]; [done|]. apply units_cons in U2 as [_ U2].
    pose proof (put_parsed acc k v G Uk P) as G'. destruct (e =? 44)%N; [by apply IM|]. destruct (e =? 125)%N; [|done]. by intros [= <- <-].
Qed.

Lemma json_parse_parsed s v : units s -> json_parse s = Ok v -> parsed_value v = true.
Proof.
  intros U. unfold json_parse. destruct (json_value _ s) as [[w r]| |] eqn:J; try done. cbn [obind].
  destruct (skip_json r); [|done]. intros [= <-]. destruct (json_reads_parsed (2 * length s + 1)) as (V & _). by destruct (V s U w r J).
Qed.

(** Whatever was parsed is printed, and what is printed is read back. *)
Lemma json_reprint gap s v : is_blank gap -> units s -> json_parse s = Ok v ->
  exists t, json_print gap [] v = Some t /\ json_parse t = Ok (json_clean v).
Proof.
  intros G U J. apply json_parse_parsed, clean_textual in J; [|done]. destruct (print_spelled gap _ G J []) as (t & P & V); [done|].
  exists t. rewrite <- print_clean. split; [done|]. by apply (json_parse_print gap).
Qed.

Example print_indented :
  json_print (js "  ") [] (JObj [(js "a", JArr [JStr (js "x"); JNull]); (js "u", JUndefined); (js "b", JArr [])]) =
  Some (js "{" ++ [10%N] ++ js "  " ++ json_stringify (js "a") ++ js ": [" ++ [10%N] ++ js "    " ++ json_stringify (js "x") ++
    js "," ++ [10%N] ++ js "    null" ++ [10%N] ++ js "  ]," ++ [10%N] ++ js "  " ++ json_stringify (js "b") ++ js ": []" ++
    [10%N] ++ js "}").
Proof. vm_compute. reflexivity. Qed.
