(* ===== verification/JsDynamic.v ===== *)
(** * Operations on values of unknown type

    What the operators of the language do with a value whose type is not
    known: truthiness, defaults, property reads and the methods of strings,
    which throw a [TypeError] where there is no such method. *)

From Stdlib Require Import ZArith Lia Bool SpecFloat.
From stdpp Require Import base list numbers.
From S2P Require Import Prelude JsString JsNumber JsValue JsJson.

(** [Boolean(v)] *)
Definition value_truthy (v : jsval) : bool :=
  match v with
  | JUndefined | JNull => false
  | JBool b => b
  | JNum n => negb (is_nan n || num_eqb n num_zero)
  | JStr s => match s with [] => false | _ => true end
  | JArr _ | JObj _ => true
  end.

(** [v || d] *)
Definition value_or (v d : jsval) : jsval := if value_truthy v then v else d.

(** [v.k] for a property no built-in object has. *)
Definition value_prop (v : jsval) (k : str) : outcome JsError jsval :=
  if is_nullish v then Throw TypeError else Ok (get_field v k).

(** [v.trim()] *)
Definition value_trim (v : jsval) : outcome JsError str :=
  match v with JStr s => Ok (trim s) | _ => Throw TypeError end.

(** [v?.trim() || ''] *)
Definition trim_or_empty (v : jsval) : outcome JsError str :=
  if is_nullish v then Ok [] else value_trim v.

(** [v === s] *)
Definition value_is_text (v : jsval) (s : str) : bool := strict_eq_primitive v (JStr s).

(** [list.find(test)] and [list.some(test)] with a test that may throw. *)
Fixpoint find_index_m {A} (test : A -> outcome JsError bool) (l : list A) : outcome JsError (option (nat * A)) :=
  match l with
  | [] => Ok None
  | x :: l' =>
      let* found := test x in
      if found then Ok (Some (0, x))
      else let* r := find_index_m test l' in Ok ((fun e => (S e.1, e.2)) <$> r)
  end.

Fixpoint filter_m {A} (test : A -> outcome JsError bool) (l : list A) : outcome JsError (list A) :=
  match l with
  | [] => Ok []
  | x :: l' => let* keep := test x in let* rest := filter_m test l' in Ok (if keep then x :: rest else rest)
  end.

(** What an object literal inherits: a lookup by such a name finds it. *)
Definition object_prototype_keys : list str :=
  [js "constructor"; js "__defineGetter__"; js "__defineSetter__"; js "hasOwnProperty";
   js "__lookupGetter__"; js "__lookupSetter__"; js "isPrototypeOf"; js "propertyIsEnumerable";
   js "toString"; js "valueOf"; js "__proto__"; js "toLocaleString"].

Lemma value_is_text_eq v s : value_is_text v s = true <-> v = JStr s.
Proof.
  unfold value_is_text. destruct v; cbn; try (split; congruence). rewrite str_eqb_eq. split; congruence.
Qed.

(** Tests that do not throw. *)
Lemma filter_m_pure {A} (test : A -> outcome JsError bool) (p : A -> bool) l :
  (forall x, x ∈ l -> test x = Ok (p x)) -> filter_m test l = Ok (List.filter p l).
Proof.
  induction l as [|x l IH]; intros T; [done|]. cbn [filter_m List.filter].
  rewrite (T x) by apply list_elem_of_here. cbn [obind]. rewrite IH; [|intros y Hy; apply T; by right].
  by destruct (p x).
Qed.

Fixpoint find_position {A} (p : A -> bool) (l : list A) : option (nat * A) :=
  match l with
  | [] => None
  | x :: l' => if p x then Some (0, x) else (fun e => (S e.1, e.2)) <$> find_position p l'
  end.

Lemma find_index_m_pure {A} (test : A -> outcome JsError bool) (p : A -> bool) l :
  (forall x, x ∈ l -> test x = Ok (p x)) -> find_index_m test l = Ok (find_position p l).
Proof.
  induction l as [|x l IH]; intros T; [done|]. cbn [find_index_m find_position].
  rewrite (T x) by apply list_elem_of_here. cbn [obind]. destruct (p x); [done|].
  rewrite IH; [done|]. intros y Hy. apply T. by right.
Qed.
