(* ===== verification/JsURL.v ===== *)
(** * The [URL] interface

    Addresses are parsed by the host.  [new_URL value base] is the parsed
    address, or [None] where the constructor throws; [search_text] is how a
    list of parameters is written behind a path. *)

From Stdlib Require Import ZArith Lia Bool.
From stdpp Require Import base list numbers.
From S2P Require Import Prelude JsString.

Record URLRecord := MkURL {
  url_protocol : str;
  url_host : str;
  url_origin : str;
  url_pathname : str;
  url_search : str;
  url_hash : str;
  url_params : list (str * str)
}.

Class URLHost := {
  new_URL : str -> option str -> option URLRecord;
  search_text : list (str * str) -> str
}.

(** A host for examples: addresses with a scheme and two slashes, and paths
    against such a base, without parameters. *)
Definition split_address (value : str) : option URLRecord :=
  let '(scheme, rest) := span is_alpha value in
  if starts_with (js "://") rest then
    let '(host, path) := span (fun c => negb (c =? 47)%N) (drop 3 rest) in
    let '(pathname, more) := span (fun c => negb (c =? 63)%N && negb (c =? 35)%N) path in
    let '(search, hash) := span (fun c => negb (c =? 35)%N) more in
    Some (MkURL (scheme ++ js ":") host (scheme ++ js "://" ++ host)
            (match pathname with [] => js "/" | _ => pathname end) search hash [])
  else None.

Definition plain_URL_host : URLHost :=
  {| new_URL value base :=
       match split_address value, base with
       | Some u, _ => Some u
       | None, Some base => split_address (base ++ value)
       | None, None => None
       end;
     search_text params := [] |}.
