(* ===== verification/JsHost.v ===== *)
(** * What the JavaScript host provides

    Dates as time values with the UTC accessors of the language, and the
    parts of the host that are data outside the repository: the Unicode case
    tables behind [toLowerCase], the clock behind [new Date()] and the
    time zone database behind [Intl.DateTimeFormat].  Those are the fields of
    the class [JSHost], a parameter of every definition that uses them. *)

From Stdlib Require Import ZArith Lia Bool SpecFloat.
From stdpp Require Import base list numbers.
From S2P Require Import Prelude JsString JsNumber.

Local Open Scope Z_scope.

(** A [Date] holds a time value in milliseconds, or NaN. *)
Abbreviation Date := (option Z).

(** An [Intl.DateTimeFormat] object: the time zone it resolved to, and
    [formatToParts] as (type, value) pairs. *)
Record Formatter := MkFormatter {
  resolved_timeZone : str;
  formatToParts : Z -> list (str * str)
}.

Class JSHost := {
  host_lower : str -> str;
  current_time : Z;
  (** [None]: the constructor throws a RangeError for this time zone. *)
  DateTimeFormat : str -> option Formatter
}.

(** A host for examples: the clock at the epoch and no time zone database, so
    that every zone falls back to UTC. *)
Definition utc_host : JSHost :=
  {| host_lower := id; current_time := 0; DateTimeFormat := fun _ => None |}.

Definition is_ascii (c : N) : bool := (c <? 128)%N.
Definition ascii_lower (c : N) : N := if in_range 65 90 c then (c + 32)%N else c.

(** [s.toLowerCase()]: ASCII is fixed by the language, the rest by the
    host's Unicode tables. *)
Definition toLowerCase `{JSHost} (s : str) : str :=
  if forallb is_ascii s then map ascii_lower s else host_lower s.

(** ** UTC accessors *)

Definition ms_per_day : Z := 86400000.

Definition getUTCHours (t : Z) : Z := (t / 3600000) mod 24.
Definition getUTCMinutes (t : Z) : Z := (t / 60000) mod 60.
Definition getUTCDay (t : Z) : Z := (t / ms_per_day + 4) mod 7.

(** Day number since 1970-01-01 to the proleptic Gregorian date: the era of
    400 years, the year of the era, the day of the year counted from March. *)
Definition year_of_era (doe : Z) : Z :=
  (doe - doe / 1460 + doe / 36524 - doe / 146096) / 365.
Definition day_of_year (doe : Z) : Z :=
  let yoe := year_of_era doe in doe - (365 * yoe + yoe / 4 - yoe / 100).

Definition civil_of_era_day (doe : Z) : Z * Z :=
  let doy := day_of_year doe in
  let mp := (5 * doy + 2) / 153 in
  ((if mp <? 10 then mp + 3 else mp - 9), doy - (153 * mp + 2) / 5 + 1).

Definition era_day (t : Z) : Z := (t / ms_per_day + 719468) mod 146097.

(** 1-based month and day of the month. *)
Definition utc_month (t : Z) : Z := fst (civil_of_era_day (era_day t)).
Definition getUTCMonth (t : Z) : Z := utc_month t - 1.
Definition getUTCDate (t : Z) : Z := snd (civil_of_era_day (era_day t)).

(** ** The calendar is right

    Years of an era start in March, so a leap day ends its year: year [y] of
    the era has the days [year_start y .. year_start (y + 1) - 1]. *)

Local Ltac div_lia := Z.to_euclidean_division_equations; lia.

Definition year_start (y : Z) : Z := 365 * y + y / 4 - y / 100 + y / 400.

Definition era_numerator (doe : Z) : Z := doe - doe / 1460 + doe / 36524 - doe / 146096.

Lemma era_numerator_mono a b : 0 <= a <= b -> era_numerator a <= era_numerator b.
Proof.
  intros H. unfold era_numerator.
  change 146096 with (36524 * 4). rewrite <- !Z.div_div by lia.
  pose proof (Z.div_le_mono a b 36524 ltac:(lia) ltac:(lia)).
  revert H0. generalize (a / 36524) (b / 36524). intros q r Hqr.
  assert (q - q / 4 <= r - r / 4) by div_lia.
  assert (b / 1460 - a / 1460 <= b - a) by (clear -H; div_lia). lia.
Qed.

Lemma year_of_era_mono a b : 0 <= a <= b -> year_of_era a <= year_of_era b.
Proof.
  intros H. apply Z.div_le_mono; [lia|]. by apply era_numerator_mono.
Qed.

Lemma era_year_bounds y :
  0 <= y < 400 ->
  year_of_era (year_start y) = y /\ year_of_era (year_start (y + 1) - 1) = y /\
  365 <= year_start (y + 1) - year_start y <= 366.
Proof.
  intros H.
  assert (forallb (fun k => let y := Z.of_nat k in
            (year_of_era (year_start y) =? y) &&
            (year_of_era (year_start (y + 1) - 1) =? y) &&
            (365 <=? year_start (y + 1) - year_start y) &&
            (year_start (y + 1) - year_start y <=? 366)) (seq 0 400) = true) as Hall
    by (vm_compute; reflexivity).
  rewrite forallb_forall in Hall. specialize (Hall (Z.to_nat y)).
  rewrite in_seq, Z2Nat.id in Hall by lia. specialize (Hall ltac:(lia)).
  cbv zeta in Hall. split_andb. split_and!; lia.
Qed.

Lemma era_year_exists (n : nat) doe :
  0 <= doe < year_start (Z.of_nat n) ->
  exists y, 0 <= y < Z.of_nat n /\ year_start y <= doe < year_start (y + 1).
Proof.
  induction n as [|n IH]; intros H; [change (year_start (Z.of_nat 0)) with 0 in H; lia|].
  destruct (Z.lt_ge_cases doe (year_start (Z.of_nat n))) as [Hlt|Hge].
  - destruct IH as (y & Hy & Hd); [lia|]. exists y. split; [lia|done].
  - exists (Z.of_nat n). split; [lia|]. split; [done|].
    replace (Z.of_nat n + 1) with (Z.of_nat (S n)) by lia. apply H.
Qed.

Lemma year_of_era_spec doe :
  0 <= doe < 146097 ->
  0 <= year_of_era doe < 400 /\
  year_start (year_of_era doe) <= doe < year_start (year_of_era doe + 1).
Proof.
  intros H. destruct (era_year_exists 400 doe) as (y & Hy & Hd).
  { change (year_start (Z.of_nat 400)) with 146097. lia. }
  pose proof (era_year_bounds y Hy) as (H1 & H2 & _).
  assert (0 <= year_start y) by (unfold year_start; clear -Hy; div_lia).
  pose proof (year_of_era_mono (year_start y) doe ltac:(lia)).
  pose proof (year_of_era_mono doe (year_start (y + 1) - 1) ltac:(lia)).
  assert (year_of_era doe = y) as -> by lia. done.
Qed.

Lemma day_of_year_range doe : 0 <= doe < 146097 -> 0 <= day_of_year doe <= 365.
Proof.
  intros H. pose proof (year_of_era_spec doe H) as [Hy Hs].
  pose proof (era_year_bounds _ Hy) as (_ & _ & Hl).
  unfold day_of_year. cbv zeta. revert Hy Hs Hl.
  generalize (year_of_era doe) as y. intros y.
  unfold year_start. intros.
  assert (y / 400 = 0) as E0 by (by apply Z.div_small). lia.
Qed.

(** Month lengths of a year that starts in March. *)
Definition month_lengths : list Z := [31; 30; 31; 30; 31; 31; 30; 31; 30; 31; 31; 29].

(** The dates of such a year, in order. *)
Definition year_dates : list (Z * Z) :=
  flat_map (fun '(m, len) => map (fun d => (m, Z.of_nat d)) (seq 1 (Z.to_nat len)))
    (zip [3; 4; 5; 6; 7; 8; 9; 10; 11; 12; 1; 2] month_lengths).

Definition month_day (doy : Z) : Z * Z :=
  let mp := (5 * doy + 2) / 153 in
  ((if mp <? 10 then mp + 3 else mp - 9), doy - (153 * mp + 2) / 5 + 1).

Lemma month_day_table : map (fun k => month_day (Z.of_nat k)) (seq 0 366) = year_dates.
Proof. vm_compute. reflexivity. Qed.

Lemma month_day_lookup doy :
  0 <= doy <= 365 -> year_dates !! Z.to_nat doy = Some (month_day doy).
Proof.
  intros H. rewrite <- month_day_table.
  rewrite list_lookup_fmap, lookup_seq_lt by lia. simpl. by rewrite Z2Nat.id by lia.
Qed.

Lemma era_day_range t : 0 <= era_day t < 146097.
Proof. apply Z.mod_pos_bound. lia. Qed.

(** Month and day of a time value are the entry of the calendar year for the
    number of days since the first of March. *)
Lemma utc_date_calendar t :
  let doe := era_day t in
  let y := year_of_era doe in
  year_start y <= doe < year_start (y + 1) /\
  year_dates !! Z.to_nat (doe - year_start y) = Some (utc_month t, getUTCDate t).
Proof.
  cbv zeta. pose proof (era_day_range t) as H.
  pose proof (year_of_era_spec _ H) as [Hy Hs]. split; [done|].
  replace (era_day t - year_start (year_of_era (era_day t)))
    with (day_of_year (era_day t)).
  - rewrite month_day_lookup by (by apply day_of_year_range). done.
  - unfold day_of_year, year_start. cbv zeta. revert Hy.
    generalize (year_of_era (era_day t)). intros y Hy.
    assert (y / 400 = 0) as E0 by (by apply Z.div_small). lia.
Qed.

Lemma year_dates_range : Forall (fun '(m, d) => 1 <= m <= 12 /\ 1 <= d <= 31) year_dates.
Proof. vm_decide. Qed.

Lemma utc_ranges t :
  0 <= getUTCHours t <= 23 /\ 0 <= getUTCMinutes t <= 59 /\
  0 <= getUTCDay t <= 6 /\ 1 <= utc_month t <= 12 /\ 1 <= getUTCDate t <= 31.
Proof.
  pose proof (Z.mod_pos_bound (t / 3600000) 24 ltac:(lia)).
  pose proof (Z.mod_pos_bound (t / 60000) 60 ltac:(lia)).
  pose proof (Z.mod_pos_bound (t / ms_per_day + 4) 7 ltac:(lia)).
  pose proof (utc_date_calendar t) as [_ Hl].
  pose proof (proj1 (Forall_lookup _ _) year_dates_range _ _ Hl) as [Hm Hd].
  unfold getUTCHours, getUTCMinutes, getUTCDay. split_and!; lia.
Qed.
