(* ===== verification/JsCoerce.v ===== *)
(** * Conversions, spreads and printed values

    What the form and dialog components share: [Number(v)], comparisons regardless
    of case, [JSON.stringify] with the two indentations they use, object spread,
    and the facts about printed objects their round trips need. *)

From Stdlib Require Import ZArith Lia Bool SpecFloat.
From stdpp Require Import base list numbers.
From S2P Require Import Prelude JsString JsObject JsNumber JsNumberFacts JsValue JsJson JsJsonPrint JsDynamic JsHost.

Definition ascii_upper (c : N) : N := if in_range 97 122 c then (c - 32)%N else c.
Definition upper_is (s word : str) : bool := str_eqb (map ascii_upper s) word.
Definition lower_is (s word : str) : bool := str_eqb (map ascii_lower s) word.

(** [Number(v)] *)
Definition value_Number (v : jsval) : outcome JsError num :=
  match v with
  | JUndefined => Ok S754_nan
  | JNull => Ok num_zero
  | JBool b => Ok (if b then lit 1 else num_zero)
  | JNum n => Ok n
  | JStr s => Ok (js_Number s)
  | JArr _ | JObj _ => let* s := js_String v in Ok (js_Number s)
  end.

Definition is_record (v : jsval) : bool := match v with JObj _ => true | _ => false end.

Definition print_compact (v : jsval) : str := default [] (json_print [] [] v).
Definition print_pretty (v : jsval) : str := default [] (json_print (js "  ") [] v).

(** [{ ...payload, ...current }] *)
Definition own_entries (v : jsval) : list (str * jsval) :=
  match v with
  | JObj fields => fields
  | JArr items => imap (fun i x => (string_of_nat i, x)) items
  | JStr s => imap (fun i c => (string_of_nat i, JStr [c])) s
  | _ => []
  end.

Definition merge_objects (payload current : jsval) : jsval :=
  JObj (fold_left (fun o e => obj_put o e.1 e.2) (own_entries current) (own_entries payload)).

(** ** Printed texts have no white space around them *)

Lemma trim_wrapped c m d : is_space c = false -> is_space d = false -> trim (c :: m ++ [d]) = c :: m ++ [d].
Proof.
  intros C D. unfold trim, trim_start, trim_end. rewrite (drop_while_id _ (c :: _)) by done.
  rewrite drop_while_id; [apply reverse_involutive |]. change (c :: m ++ [d]) with ((c :: m) ++ [d]). by rewrite reverse_app.
Qed.

Lemma string_of_num_chars n : is_finite n = true -> forallb num_char (string_of_num n) = true.
Proof.
  destruct n as [s | s | | s m e]; try done. intros _. cbn [string_of_num]. destruct (shortest_decimal m e).
  rewrite forallb_app, format_decimal_chars. by destruct s.
Qed.

Lemma block_wrapped gap indent o c parts : exists m, json_block gap indent [o] [c] parts = o :: m ++ [c].
Proof.
  unfold json_block. destruct parts as [| p parts]; [by exists [] |]. destruct gap as [| g gap]; [by eexists |].
  cbv zeta. set (newline := 10%N :: indent ++ g :: gap). exists (newline ++ join (js "," ++ newline) (p :: parts) ++ 10%N :: indent).
  by rewrite <- !app_assoc.
Qed.

Lemma print_trim gap indent v t : json_print gap indent v = Some t -> trim t = t.
Proof.
  destruct v as [| | b | n | s | items | fields]; cbn [json_print]; intros [= <-]; try done.
  - by destruct b.
  - destruct (is_finite n) eqn:F; [| done]. by apply trim_num_chars, string_of_num_chars.
  - unfold json_stringify. by apply trim_wrapped.
  - destruct (block_wrapped gap indent 91%N 93%N (List.map (fun x => default (js "null") (json_print gap (indent ++ gap) x)) items)) as [m E].
    change (js "[") with [91%N]. change (js "]") with [93%N]. rewrite E. by apply trim_wrapped.
  - change (js "{") with [123%N]. change (js "}") with [125%N].
    match goal with |- trim (json_block _ _ _ _ ?parts) = _ => destruct (block_wrapped gap indent 123%N 125%N parts) as [m E] end.
    rewrite E. by apply trim_wrapped.
Qed.

Lemma units_trim s : units s -> units (trim s).
Proof. intros U. destruct (trim_spec s) as (a & b & E & _). rewrite E in U. by apply units_app in U as [_ [U _]%units_app]. Qed.

Lemma pretty_spelled v : textual v = true -> json_print (js "  ") [] v = Some (print_pretty v) /\ json_parse (print_pretty v) = Ok v /\
  trim (print_pretty v) = print_pretty v /\ print_pretty v <> [].
Proof.
  intros T. destruct (print_spelled (js "  ") v eq_refl T [] eq_refl) as (t & E & S).
  assert (print_pretty v = t) as -> by (unfold print_pretty; by rewrite E).
  split; [done |]. split; [by apply (json_parse_print (js "  "))|]. split; [by apply (print_trim _ _ _ _ E) |].
  by destruct (value_text_head _ _ S) as (c & r & -> & _).
Qed.

(** What a parser built is printed and read back. *)
Lemma print_parsed gap v : is_blank gap -> parsed_value v = true ->
  json_parse (default [] (json_print gap [] v)) = Ok (json_clean v).
Proof.
  intros G P%clean_textual. destruct (print_spelled gap _ G P [] eq_refl) as (t & E & _). rewrite print_clean in E. rewrite E.
  apply (json_parse_print gap); [done | done |]. by rewrite print_clean.
Qed.

(** ** Objects of good values *)

Section Good.
Variable good : jsval -> bool.
Definition good_entry (e : str * jsval) : bool := forallb is_unit e.1 && good e.2.
Definition good_object (o : list (str * jsval)) : bool := forallb good_entry o && enumerated o.*1.

Lemma put_good o k v : good_object o = true -> units k -> good v = true -> good_object (obj_put o k v) = true.
Proof.
  unfold good_object. rewrite !andb_true_iff. intros [F E] U P. split; [| by apply obj_put_enumerated].
  assert (good_entry (k, v) = true) as G by (unfold good_entry; cbn; by rewrite U, P).
  unfold obj_put. destruct (has_key o k).
  - clear E. induction o as [| [k' v'] o IH]; [done |]. cbn [replace_key forallb] in *. apply andb_true_iff in F as [F1 F2].
    destruct (str_eqb k' k) eqn:K; cbn [forallb].
    + apply str_eqb_eq in K. subst k'. by rewrite G, F2.
    + by rewrite F1, IH.
  - apply forallb_forall. intros e I. apply list_elem_of_In in I. destruct (is_array_index k).
    + rewrite insert_index_perm in I. apply list.elem_of_cons in I as [-> | I]; [done |]. apply list_elem_of_In in I. by apply (proj1 (forallb_forall _ _) F).
    + apply elem_of_app in I as [I | ->%list_elem_of_singleton]; [| done]. apply list_elem_of_In in I. by apply (proj1 (forallb_forall _ _) F).
Qed.

End Good.

Lemma get_obj_put p k v k' : get_field (JObj (obj_put p k v)) k' = if str_eqb k k' then v else get_field (JObj p) k'.
Proof. unfold get_field. rewrite assoc_put. by destruct (str_eqb k k'). Qed.

Lemma filter_Forall {A} (P : A -> Prop) (p : A -> bool) l : Forall P l -> Forall P (List.filter p l).
Proof. intros F. induction F as [| a l Pa F IH]; [done |]. cbn. destruct (p a); [by constructor | done]. Qed.

