(* ===== verification/ExprTypes.v ===== *)
(** * Billing expressions: data model

    Models [features/pricing/lib/billing-expression/types.ts]: the AST, the
    diagnostics, the compiled form, and the bounded post-order traversal
    [visitExpression] on which every analysis of the compiler is built.
    [visit_structural] shows that the explicit-stack loop is the structural
    post-order traversal cut at depth 256. *)

From Stdlib Require Import ZArith Lia Bool SpecFloat.
From stdpp Require Import base list numbers.
From S2P Require Import Prelude JsString JsNumber JsValue.

Definition TOKEN_VARIABLES : list str :=
  [js "p"; js "c"; js "len"; js "cr"; js "cc"; js "cc1h"; js "img";
   js "img_cr"; js "img_o"; js "ai"; js "ao"].

Definition BILLING_VARIABLES : list str := TOKEN_VARIABLES ++ [js "image_count"].

Definition TIME_FUNCTIONS : list str :=
  [js "hour"; js "minute"; js "weekday"; js "month"; js "day"].

(** Function names with their arity. *)
Definition BILLING_FUNCTIONS : list (str * nat) :=
  [(js "tier", 2); (js "fixed", 1); (js "param", 1); (js "header", 1);
   (js "has", 2); (js "u", 1); (js "hour", 1); (js "minute", 1);
   (js "weekday", 1); (js "month", 1); (js "day", 1); (js "min", 2);
   (js "max", 2); (js "abs", 1); (js "ceil", 1); (js "floor", 1)].

Inductive literal_value : Type :=
| LStr (s : str)
| LNum (n : num)
| LBool (b : bool)
| LNull.

(** Every node carries its source span [start, end). *)
Unset Elimination Schemes.
Inductive ExpressionNode : Type :=
| Literal (value : literal_value) (integer : option bool) (start end_ : nat)
| Variable_ (name : str) (start end_ : nat)
| Call (name : str) (args : list ExpressionNode) (start end_ : nat)
| Unary (operator : str) (operand : ExpressionNode) (start end_ : nat)
| Binary (operator : str) (left right : ExpressionNode) (start end_ : nat)
| Conditional (condition yes no : ExpressionNode) (start end_ : nat).
Set Elimination Schemes.
Abbreviation node := ExpressionNode.

Definition node_start (n : node) : nat :=
  match n with
  | Literal _ _ s _ | Variable_ _ s _ | Call _ _ s _ | Unary _ _ s _
  | Binary _ _ _ s _ | Conditional _ _ _ s _ => s
  end.

Definition node_end (n : node) : nat :=
  match n with
  | Literal _ _ _ e | Variable_ _ _ e | Call _ _ _ e | Unary _ _ _ e
  | Binary _ _ _ _ e | Conditional _ _ _ _ e => e
  end.

(** [{ ...expression, start, end }] *)
Definition with_span (n : node) (s e : nat) : node :=
  match n with
  | Literal v i _ _ => Literal v i s e
  | Variable_ x _ _ => Variable_ x s e
  | Call f a _ _ => Call f a s e
  | Unary o a _ _ => Unary o a s e
  | Binary o a b _ _ => Binary o a b s e
  | Conditional c y n _ _ => Conditional c y n s e
  end.

(** Induction with the hypothesis for every argument of a call. *)
Definition node_ind (P : node -> Prop)
    (HLit : forall v i s e, P (Literal v i s e))
    (HVar : forall x s e, P (Variable_ x s e))
    (HCall : forall f args s e, Forall P args -> P (Call f args s e))
    (HUn : forall o a s e, P a -> P (Unary o a s e))
    (HBin : forall o l r s e, P l -> P r -> P (Binary o l r s e))
    (HCond : forall c y n s e, P c -> P y -> P n -> P (Conditional c y n s e))
  : forall n, P n :=
  fix go n :=
    match n with
    | Literal v i s e => HLit v i s e
    | Variable_ x s e => HVar x s e
    | Call f args s e =>
        HCall f args s e
          ((fix go_args l : Forall P l :=
              match l with
              | [] => Forall_nil_2 P
              | a :: l' => Forall_cons_2 P a l' (go a) (go_args l')
              end) args)
    | Unary o a s e => HUn o a s e (go a)
    | Binary o l r s e => HBin o l r s e (go l) (go r)
    | Conditional c y n s e => HCond c y n s e (go c) (go y) (go n)
    end.

#[global] Instance literal_value_eq_dec : EqDecision literal_value.
Proof. solve_decision. Defined.

#[global] Instance node_eq_dec : EqDecision ExpressionNode.
Proof.
  unfold EqDecision, RelDecision, Decision. fix go 1. intros x y.
  destruct x as [v i s e|x s e|f a s e|o a s e|o l r s e|c yy n s e],
           y as [v' i' s' e'|x' s' e'|f' a' s' e'|o' a' s' e'|o' l' r' s' e'|c' yy' n' s' e'];
    try (right; discriminate).
  - destruct (decide (v = v')), (decide (i = i')), (decide (s = s')), (decide (e = e'));
      [left; congruence|right; congruence..].
  - destruct (decide (x = x')), (decide (s = s')), (decide (e = e'));
      [left; congruence|right; congruence..].
  - destruct (decide (f = f')), (decide (s = s')), (decide (e = e'));
      [|right; congruence..].
    destruct (@list_eq_dec node go a a'); [left|right]; congruence.
  - destruct (decide (o = o')), (decide (s = s')), (decide (e = e'));
      [|right; congruence..].
    destruct (go a a'); [left|right]; congruence.
  - destruct (decide (o = o')), (decide (s = s')), (decide (e = e'));
      [|right; congruence..].
    destruct (go l l'); [|right; congruence].
    destruct (go r r'); [left|right]; congruence.
  - destruct (decide (s = s')), (decide (e = e')); [|right; congruence..].
    destruct (go c c'); [|right; congruence].
    destruct (go yy yy'); [|right; congruence].
    destruct (go n n'); [left|right]; congruence.
Defined.

(** [a === b] on AST nodes.  Nodes carry their span, and [subnodes_distinct]
    of the parser file shows that two occurrences of an AST never coincide,
    so structural equality is object identity there. *)
Definition node_eqb (a b : node) : bool := bool_decide (a = b).

(** ** Diagnostics *)

Inductive DiagnosticCode : Type :=
| syntax | unsupported | missing_context | type_ | number_ | limit_.

Record ExpressionDiagnostic := Diagnostic {
  diag_code : DiagnosticCode;
  diag_detail : str;
  diag_position : option nat
}.

(** What a [throw] can throw: the module's own error, or any other one. *)
Inductive exn : Type :=
| BillingExpressionError (d : ExpressionDiagnostic)
| OtherError (message : str).

Abbreviation R A := (outcome exn A).

Definition fail {A} (code : DiagnosticCode) (detail : str) : R A :=
  Throw (BillingExpressionError (Diagnostic code detail None)).
Definition fail_at {A} (code : DiagnosticCode) (detail : str) (pos : nat) : R A :=
  Throw (BillingExpressionError (Diagnostic code detail (Some pos))).

Inductive FailureStatus : Type := Unsupported | Invalid | MissingContext.

Record ExpressionFailure := Failure {
  failure_status : FailureStatus;
  failure_diagnostic : ExpressionDiagnostic
}.

Definition expressionFailure (error : exn) : ExpressionFailure :=
  let diagnostic :=
    match error with
    | BillingExpressionError d => d
    | OtherError message => Diagnostic syntax message None
    end in
  let status :=
    match diag_code diagnostic with
    | missing_context => MissingContext
    | unsupported | limit_ => Unsupported
    | _ => Invalid
    end in
  Failure status diagnostic.

(** ** Compiled expressions *)

Record RuleSite := Rule {
  rule_node : node;
  rule_condition : node;
  rule_multiplier : num;
  rule_cond : str
}.

Record CompiledBillingExpression := Compiled {
  compiled_source : str;
  compiled_ast : node;
  compiled_variables : list str;
  compiled_functions : list str;
  compiled_requestRules : list RuleSite
}.

Inductive CompilationResult : Type :=
| Ready (c : CompiledBillingExpression)
| Failed (f : ExpressionFailure).

Record BillingRequestRule := RequestRule {
  rr_cond : str;
  rr_multiplier : num;
  rr_matched : bool
}.

Inductive BillingUnit : Type := unit_token | unit_request.
#[global] Instance BillingUnit_eq_dec : EqDecision BillingUnit.
Proof. solve_decision. Defined.

Record BillingSuccess := Success {
  cost : num;
  billingUnit : BillingUnit;
  fixedPrice : option num;
  imageCount : option num;
  matchedTier : str;
  requestRules : list BillingRequestRule
}.

Inductive BillingEvaluationResult : Type :=
| EvalFailure (f : ExpressionFailure)
| EvalSuccess (r : BillingSuccess).

(** ** Traversal *)

Definition children (n : node) : list node :=
  match n with
  | Literal _ _ _ _ | Variable_ _ _ _ => []
  | Call _ args _ _ => args
  | Unary _ a _ _ => [a]
  | Binary _ l r _ _ => [l; r]
  | Conditional c y n _ _ => [c; y; n]
  end.

Fixpoint node_size (n : node) : nat :=
  S (match n with
     | Literal _ _ _ _ | Variable_ _ _ _ => 0
     | Call _ args _ _ => list_sum (map node_size args)
     | Unary _ a _ _ => node_size a
     | Binary _ l r _ _ => node_size l + node_size r
     | Conditional c y n _ _ => node_size c + node_size y + node_size n
     end).

Record StackEntry := Entry { entry_node : node; entry_visited : bool; entry_depth : nat }.

Definition depth_limit_error {A} : R A := fail limit_ (js "expression depth").

Section Visit.
Context {A : Type}.
Variable visitor : A -> node -> R A.

(** The [while (stack.length > 0)] loop; the head of the list is the top of
    the stack.  The visitor's effects are threaded through [acc]. *)
Fixpoint visit_loop (fuel : nat) (stack : list StackEntry) (acc : A) : R A :=
  match fuel with
  | O => OutOfFuel
  | S fuel' =>
      match stack with
      | [] => Ok acc
      | entry :: rest =>
          if 256 <? entry_depth entry then depth_limit_error
          else if entry_visited entry then
            let* acc' := visitor acc (entry_node entry) in
            visit_loop fuel' rest acc'
          else
            visit_loop fuel'
              (map (fun child => Entry child false (S (entry_depth entry)))
                   (children (entry_node entry))
               ++ Entry (entry_node entry) true (entry_depth entry) :: rest)
              acc
      end
  end.

Definition visitExpression (n : node) (acc : A) : R A :=
  visit_loop (S (2 * node_size n)) [Entry n false 0] acc.

(** The structural reading of the same traversal. *)
Fixpoint visit_rec (depth : nat) (n : node) (acc : A) : R A :=
  if 256 <? depth then depth_limit_error
  else
    let* acc' :=
      match n with
      | Literal _ _ _ _ | Variable_ _ _ _ => Ok acc
      | Call _ args _ _ => ofold (fun a c => visit_rec (S depth) c a) acc args
      | Unary _ a _ _ => visit_rec (S depth) a acc
      | Binary _ l r _ _ =>
          let* acc1 := visit_rec (S depth) l acc in visit_rec (S depth) r acc1
      | Conditional c y n _ _ =>
          let* acc1 := visit_rec (S depth) c acc in
          let* acc2 := visit_rec (S depth) y acc1 in
          visit_rec (S depth) n acc2
      end in
    visitor acc' n.
End Visit.

(** JavaScript [Set]s keep insertion order and ignore repeated additions. *)
Definition set_add (s : list str) (x : str) : list str :=
  if includes_str s x then s else s ++ [x].

Definition dependency_visitor (acc : list str * list str) (part : node)
  : R (list str * list str) :=
  let '(variables, functions) := acc in
  match part with
  | Variable_ name _ _ => Ok (set_add variables name, functions)
  | Call name _ _ _ => Ok (variables, set_add functions name)
  | _ => Ok (variables, functions)
  end.

Definition expressionDependencies (n : node) : R (list str * list str) :=
  visitExpression dependency_visitor n ([], []).

(** ** Facts *)

Lemma node_eqb_eq a b : node_eqb a b = true <-> a = b.
Proof. unfold node_eqb. apply bool_decide_eq_true. Qed.

Lemma node_eqb_refl a : node_eqb a a = true.
Proof. by apply node_eqb_eq. Qed.

(** Induction on a node from its children, whatever its kind. *)
Lemma node_children_ind (P : node -> Prop) :
  (forall n, Forall P (children n) -> P n) -> forall n, P n.
Proof.
  intros H n. induction n using node_ind; apply H; simpl; auto.
Qed.

Lemma node_size_children n : node_size n = S (list_sum (map node_size (children n))).
Proof. destruct n; simpl; lia. Qed.

Section VisitFacts.
Context {A : Type}.
Variable visitor : A -> node -> R A.

Lemma obind_ret {B} (m : R B) : obind m (fun b => Ok b) = m.
Proof. by destruct m. Qed.

Lemma visit_rec_unfold d n acc :
  visit_rec visitor d n acc =
  if 256 <? d then depth_limit_error
  else let* acc' := ofold (fun a c => visit_rec visitor (S d) c a) acc (children n) in
       visitor acc' n.
Proof.
  destruct n; cbn [visit_rec children ofold]; destruct (256 <? d); try done.
  - by rewrite obind_ret.
  - rewrite !obind_assoc. destruct (visit_rec visitor (S d) n1 acc); simpl; [|done..].
    by rewrite obind_ret.
  - rewrite !obind_assoc. destruct (visit_rec visitor (S d) n1 acc); simpl; [|done..].
    destruct (visit_rec visitor (S d) n2 a); simpl; [|done..].
    by rewrite obind_ret.
Qed.

Lemma visit_loop_node n : forall d rest acc fuel,
  2 * node_size n <= fuel ->
  visit_loop visitor fuel (Entry n false d :: rest) acc =
  let* acc' := visit_rec visitor d n acc in
  visit_loop visitor (fuel - 2 * node_size n) rest acc'.
Proof.
  induction n as [n IH] using node_children_ind. intros d rest acc fuel Hf.
  rewrite node_size_children in Hf. destruct fuel as [|fuel]; [lia|].
  rewrite visit_rec_unfold. cbn [visit_loop entry_depth entry_visited entry_node].
  destruct (256 <? d) eqn:Hd; [done|].
  assert (forall l fuel acc, Forall (fun n => forall d rest acc fuel,
      2 * node_size n <= fuel ->
      visit_loop visitor fuel (Entry n false d :: rest) acc =
      let* acc' := visit_rec visitor d n acc in
      visit_loop visitor (fuel - 2 * node_size n) rest acc') l ->
    2 * list_sum (map node_size l) <= fuel ->
    visit_loop visitor fuel (map (fun c => Entry c false (S d)) l ++ Entry n true d :: rest) acc
    = let* a := ofold (fun a c => visit_rec visitor (S d) c a) acc l in
      visit_loop visitor (fuel - 2 * list_sum (map node_size l)) (Entry n true d :: rest) a)
    as Hl.
  { clear - Hd. intros l. induction l as [|c l IHl]; intros fuel acc Hall Hf; simpl.
    - by rewrite Nat.sub_0_r.
    - inversion Hall as [|? ? Hc Hrest]; subst. simpl in Hf.
      rewrite Hc by lia. destruct (visit_rec visitor (S d) c acc); simpl; [|done..].
      rewrite IHl by (done || lia). destruct (ofold _ a l); simpl; [|done..].
      f_equal. lia. }
  rewrite (Hl _ fuel acc IH) by lia.
  destruct (ofold _ acc (children n)) as [a| |]; simpl; [|done..].
  destruct (fuel - _) as [|fuel'] eqn:Ef; [lia|].
  cbn [visit_loop entry_depth entry_visited entry_node]. rewrite Hd.
  destruct (visitor a n); simpl; [|done..].
  rewrite node_size_children. f_equal. lia.
Qed.

(** The explicit-stack loop is the depth-bounded post-order traversal, and
    never runs out of the fuel it is given. *)
Lemma visit_structural n acc :
  visitExpression visitor n acc = visit_rec visitor 0 n acc.
Proof.
  unfold visitExpression. rewrite visit_loop_node by lia.
  replace (S (2 * node_size n) - 2 * node_size n) with 1 by lia.
  simpl. apply obind_ret.
Qed.

(** Whatever a visitor establishes node by node holds after the visit. *)
Lemma visit_rec_inv (P : A -> Prop) d n acc acc' :
  (forall a m a', P a -> visitor a m = Ok a' -> P a') ->
  P acc -> visit_rec visitor d n acc = Ok acc' -> P acc'.
Proof.
  intros Hv. revert d acc acc'.
  induction n as [n IH] using node_children_ind. intros d acc acc' Ha Hvis.
  rewrite visit_rec_unfold in Hvis. destruct (256 <? d); [discriminate|].
  inv_bind. eapply Hv; [|exact Hvis].
  eapply ofold_inv; [exact Ha| |exact E].
  intros b c b' Hc Hb Hbc. rewrite Forall_forall in IH.
  by eapply IH; [apply list_elem_of_In; exact Hc|exact Hb|exact Hbc].
Qed.
End VisitFacts.

(** All the nodes of an AST, in visiting order. *)
Fixpoint postorder (n : node) : list node :=
  match n with
  | Literal _ _ _ _ | Variable_ _ _ _ => []
  | Call _ args _ _ => concat (map postorder args)
  | Unary _ a _ _ => postorder a
  | Binary _ l r _ _ => postorder l ++ postorder r
  | Conditional c y n _ _ => postorder c ++ postorder y ++ postorder n
  end ++ [n].

Lemma postorder_children n :
  postorder n = concat (map postorder (children n)) ++ [n].
Proof.
  destruct n; simpl; rewrite ?app_nil_r, <- ?app_assoc; done.
Qed.

(** A successful visit is the fold of the visitor over the post-order. *)
Lemma visit_rec_postorder {A} (visitor : A -> node -> R A) n : forall d acc acc',
  visit_rec visitor d n acc = Ok acc' -> ofold visitor acc (postorder n) = Ok acc'.
Proof.
  induction n as [n IH] using node_children_ind. intros d acc acc' H.
  rewrite visit_rec_unfold in H. destruct (256 <? d); [discriminate|].
  rewrite postorder_children, ofold_app.
  destruct (ofold _ acc (children n)) as [a| |] eqn:E; simpl in H; try discriminate.
  assert (ofold visitor acc (concat (map postorder (children n))) = Ok a) as ->.
  { clear H. revert acc E. induction (children n) as [|c l IHl]; intros acc E; [done|].
    simpl in *. inversion IH as [|? ? Hc Hl]; subst. rewrite ofold_app.
    destruct (visit_rec visitor (S d) c acc) as [b| |] eqn:Ec; simpl in E; try discriminate.
    rewrite (Hc _ _ _ Ec). simpl. by apply IHl. }
  simpl. by rewrite obind_ret.
Qed.

(** Depth of an AST, the root being at depth 0. *)
Fixpoint node_depth (n : node) : nat :=
  match n with
  | Literal _ _ _ _ | Variable_ _ _ _ => 0
  | Call _ args _ _ => foldr Nat.max 0 (map (fun a => S (node_depth a)) args)
  | Unary _ a _ _ => S (node_depth a)
  | Binary _ l r _ _ => Nat.max (S (node_depth l)) (S (node_depth r))
  | Conditional c y n _ _ =>
      Nat.max (S (node_depth c)) (Nat.max (S (node_depth y)) (S (node_depth n)))
  end.

Lemma node_depth_child n c : c ∈ children n -> S (node_depth c) <= node_depth n.
Proof.
  destruct n; cbn [children node_depth]; intros Hc.
  - by apply not_elem_of_nil in Hc.
  - by apply not_elem_of_nil in Hc.
  - induction args as [|a args IH]; [by apply not_elem_of_nil in Hc|].
    simpl. apply elem_of_cons in Hc as [->|Hc]; [lia|]. specialize (IH Hc). lia.
  - apply list_elem_of_singleton in Hc as ->. lia.
  - apply elem_of_cons in Hc as [->|Hc]; [lia|].
    apply list_elem_of_singleton in Hc as ->. lia.
  - apply elem_of_cons in Hc as [->|Hc]; [lia|].
    apply elem_of_cons in Hc as [->|Hc]; [lia|].
    apply list_elem_of_singleton in Hc as ->. lia.
Qed.

(** Within the depth bound the traversal only fails where the visitor does. *)
Lemma visit_rec_total {A} (visitor : A -> node -> R A) n : forall d acc,
  d + node_depth n <= 256 ->
  visit_rec visitor d n acc = ofold visitor acc (postorder n).
Proof.
  induction n as [n IH] using node_children_ind. intros d acc Hd.
  rewrite visit_rec_unfold. destruct (Nat.ltb_spec 256 d); [lia|].
  rewrite postorder_children, ofold_app.
  assert (ofold (fun a c => visit_rec visitor (S d) c a) acc (children n)
          = ofold visitor acc (concat (map postorder (children n)))) as ->.
  { assert (forall c, c ∈ children n -> S d + node_depth c <= 256) as Hcd.
    { intros c Hc%node_depth_child. lia. }
    revert acc. induction (children n) as [|c l IHl]; intros acc; [done|].
    simpl. inversion IH as [|? ? Hc Hl]; subst.
    rewrite ofold_app, Hc by (apply Hcd; by left).
    destruct (ofold visitor acc (postorder c)); simpl; [|done..].
    apply IHl; [done|]. intros c' Hc'. apply Hcd. by right. }
  destruct (ofold visitor acc _); simpl; [|done..]. by rewrite obind_ret.
Qed.
