(* ===== verification/ExprParser.v ===== *)
(** * Billing expressions: lexer and parser

    Models the class [BillingParser] of
    [features/pricing/lib/billing-expression/parser.ts]: the mutable fields
    [cursor], [count], [depth] and [current] are the record [pstate], every
    method is a state transformer that may throw, and the mutual recursion of
    [expression] and [primary] is by fuel.  [parse_fuel] is enough for every
    source ([parse_total] in [ExprParserFacts]). *)

From Stdlib Require Import ZArith Lia Bool SpecFloat.
From stdpp Require Import base list numbers.
From S2P Require Import Prelude JsString JsNumber JsValue ExprTypes.

Inductive LexemeKind : Type := KNumber | KString | KSymbol | KName | KEnd.
#[global] Instance LexemeKind_eq_dec : EqDecision LexemeKind.
Proof. solve_decision. Defined.

Inductive LexemeValue : Type := VNone | VText (s : str) | VNumber (n : num).

Record Lexeme := MkLexeme {
  lx_kind : LexemeKind;
  lx_text : str;
  lx_start : nat;
  lx_end : nat;
  lx_value : LexemeValue;
  lx_integer : option bool
}.

Definition PRECEDENCE : list (str * nat) :=
  [(js "||", 1); (js "&&", 2); (js "==", 3); (js "!=", 3); (js "<", 4);
   (js "<=", 4); (js ">", 4); (js ">=", 4); (js "+", 5); (js "-", 5);
   (js "*", 6); (js "/", 6); (js "%", 6)].

Record pstate := PState {
  cursor : nat;
  count : nat;
  depth : nat;
  current : Lexeme
}.

(** The table of single-character escapes; the quotes are code units 34 and 39. *)
Definition escapes : list (N * N) :=
  [(110, 10); (114, 13); (116, 9); (98, 8); (102, 12); (118, 11);
   (92, 92); (34, 34); (39, 39); (47, 47)]%N.

Fixpoint lookup_escape (l : list (N * N)) (c : N) : option N :=
  match l with
  | [] => None
  | (k, v) :: l' => if (k =? c)%N then Some v else lookup_escape l' c
  end.

Arguments lookup_escape : simpl never.

Definition hex_units (l : str) : N := fold_left (fun a c => a * 16 + hex_value c)%N l 0%N.

(** The body of a string literal: [s] is the source from [cur] on.  Returns
    the decoded value and the cursor behind the closing quote. *)
Fixpoint lex_string (start : nat) (quote : N) (s : str) (cur : nat) (value : str)
  : R (str * nat) :=
  let unterminated := fail_at syntax (js "unterminated string") start in
  match s with
  | [] => unterminated
  | char :: s1 =>
      if (char =? quote)%N then Ok (value, S cur)
      else if (char =? 10)%N || (char =? 13)%N then unterminated
      else if negb (char =? 92)%N then
        lex_string start quote s1 (S cur) (value ++ [char])
      else
        match s1 with
        | [] => fail_at unsupported (js "string escape") (S cur)
        | escaped :: s2 =>
            match lookup_escape escapes escaped with
            | Some c => lex_string start quote s2 (S (S cur)) (value ++ [c])
            | None =>
                if (escaped =? 117)%N then
                  match s2 with
                  | a :: b :: c :: d :: s3 =>
                      if forallb is_hex [a; b; c; d] then
                        lex_string start quote s3 (4 + S (S cur))
                          (value ++ [hex_units [a; b; c; d]])
                      else unterminated
                  | _ => unterminated
                  end
                else if (escaped =? 120)%N then
                  match s2 with
                  | a :: b :: s3 =>
                      if forallb is_hex [a; b] then
                        lex_string start quote s3 (2 + S (S cur))
                          (value ++ [hex_units [a; b]])
                      else unterminated
                  | _ => unterminated
                  end
                else fail_at unsupported (js "string escape") (S cur)
            end
        end
  end.

Definition two_char_operators : list str :=
  [js "&&"; js "||"; js "=="; js "!="; js "<="; js ">="].
Definition one_char_operators : list str :=
  [js "+"; js "-"; js "*"; js "/"; js "%"; js "<"; js ">"; js "("; js ")";
   js "!"; js "?"; js ":"; js ","].

Definition match_operator (rest : str) : option str :=
  if includes_str two_char_operators (take 2 rest) then Some (take 2 rest)
  else if includes_str one_char_operators (take 1 rest) then Some (take 1 rest)
  else None.

(** [/^[A-Za-z_][\w]*/] *)
Definition match_name (rest : str) : option str :=
  match rest with
  | c :: rest' =>
      if is_alpha c || (c =? 95)%N then Some (c :: (span is_word rest').1) else None
  | [] => None
  end.

Definition is_point_or_e (c : N) : bool := (c =? 46)%N || (c =? 101)%N || (c =? 69)%N.

(** [/^\s*v(\d+):/]: the digits and the length of the whole match. *)
Definition match_version (source : str) : option (str * nat) :=
  let '(ws, r) := span is_space source in
  match r with
  | c :: r1 =>
      if (c =? 118)%N then
        let '(ds, r2) := span is_digit r1 in
        match ds, r2 with
        | _ :: _, c2 :: _ =>
            if (c2 =? 58)%N then Some (ds, length ws + S (length ds) + 1) else None
        | _, _ => None
        end
      else None
  | [] => None
  end.

Section Parser.
Variable source : str.

(** [next()]: the lexeme at the cursor, with the new cursor and count. *)
Definition next (cur cnt : nat) : R (Lexeme * nat * nat) :=
  let cnt := S cnt in
  if (10000 <? N.of_nat cnt)%N then fail limit_ (js "expression tokens")
  else
    let start := cur + length (span is_space (drop cur source)).1 in
    let rest := drop start source in
    match rest with
    | [] => Ok (MkLexeme KEnd [] start start VNone None, start, cnt)
    | first :: body =>
        match scan_decimal rest with
        | Some (d, after) =>
            let text := take (length rest - length after) rest in
            let value := num_of_dec false d in
            let integer := negb (existsb is_point_or_e text) in
            if negb (is_finite value) then fail_at number_ text start
            else if integer && negb (is_safe_integer value) then
              fail_at unsupported (js "integer precision") start
            else
              let stop := start + length text in
              Ok (MkLexeme KNumber text start stop (VNumber value) (Some integer),
                  stop, cnt)
        | None =>
            if (first =? 34)%N || (first =? 39)%N then
              let* (value, stop) := lex_string start first body (S start) [] in
              Ok (MkLexeme KString (slice_nat source start stop) start stop
                    (VText value) None, stop, cnt)
            else
              match match_name rest with
              | Some text =>
                  let stop := start + length text in
                  Ok (MkLexeme KName text start stop VNone None, stop, cnt)
              | None =>
                  match match_operator rest with
                  | Some text =>
                      let stop := start + length text in
                      Ok (MkLexeme KSymbol text start stop VNone None, stop, cnt)
                  | None => fail_at unsupported [first] start
                  end
              end
        end
    end.

(** [take()]: consume the current lexeme. *)
Definition take_lexeme (st : pstate) : R (Lexeme * pstate) :=
  let* (lx, cur, cnt) := next (cursor st) (count st) in
  Ok (current st, PState cur cnt (depth st) lx).

(** [is(text)] *)
Definition at_text (st : pstate) (text : str) : bool :=
  str_eqb (lx_text (current st)) text.

Definition expect (text : str) (st : pstate) : R (Lexeme * pstate) :=
  if at_text st text then take_lexeme st
  else fail_at syntax (js "expected " ++ text) (lx_start (current st)).

Definition set_depth (st : pstate) (d : nat) : pstate :=
  PState (cursor st) (count st) d (current st).

Definition literal_of_token (token : Lexeme) (v : literal_value) : node :=
  Literal v (lx_integer token) (lx_start token) (lx_end token).

Fixpoint expression (fuel minimum : nat) (st : pstate) {struct fuel}
  : R (node * pstate) :=
  match fuel with
  | O => OutOfFuel
  | S fuel' =>
      let st := set_depth st (S (depth st)) in
      if 128 <? depth st then fail limit_ (js "expression depth")
      else
        let* (lhs0, st) := primary fuel' st in
        let* (lhs, st) := binary_loop fuel' minimum lhs0 st in
        let* (lhs, st) :=
          if (minimum =? 0) && at_text st (js "?") then
            let* (_, st) := take_lexeme st in
            let* (yes, st) := expression fuel' 0 st in
            let* (_, st) := expect (js ":") st in
            let* (no, st) := expression fuel' 0 st in
            Ok (Conditional lhs yes no (node_start lhs) (node_end no), st)
          else Ok (lhs, st) in
        Ok (lhs, set_depth st (depth st - 1))
  end

(** The [while] loop over binary operators of at least the given precedence. *)
with binary_loop (fuel minimum : nat) (lhs : node) (st : pstate) {struct fuel}
  : R (node * pstate) :=
  match fuel with
  | O => OutOfFuel
  | S fuel' =>
      match assoc_str PRECEDENCE (lx_text (current st)) with
      | Some prec =>
          if minimum <=? prec then
            let* (token, st) := take_lexeme st in
            let* (rhs, st) := expression fuel' (S prec) st in
            binary_loop fuel' minimum
              (Binary (lx_text token) lhs rhs (node_start lhs) (node_end rhs)) st
          else Ok (lhs, st)
      | None => Ok (lhs, st)
      end
  end

with primary (fuel : nat) (st : pstate) {struct fuel} : R (node * pstate) :=
  match fuel with
  | O => OutOfFuel
  | S fuel' =>
      let* (token, st) := take_lexeme st in
      match lx_kind token, lx_value token with
      | KNumber, VNumber value => Ok (literal_of_token token (LNum value), st)
      | KString, VText value => Ok (literal_of_token token (LStr value), st)
      | _, _ =>
          let text := lx_text token in
          if str_eqb text (js "(") then
            let* (inner, st) := expression fuel' 0 st in
            let* (close, st) := expect (js ")") st in
            Ok (with_span inner (lx_start token) (lx_end close), st)
          else if includes_str [js "!"; js "+"; js "-"] text then
            let* (operand, st) := expression fuel' 7 st in
            Ok (Unary text operand (lx_start token) (node_end operand), st)
          else if negb (bool_decide (lx_kind token = KName)) then
            fail_at syntax text (lx_start token)
          else if str_eqb text (js "nil") then Ok (literal_of_token token LNull, st)
          else if str_eqb text (js "true") || str_eqb text (js "false") then
            Ok (literal_of_token token (LBool (str_eqb text (js "true"))), st)
          else if negb (at_text st (js "(")) then
            if includes_str BILLING_VARIABLES text then
              Ok (Variable_ text (lx_start token) (lx_end token), st)
            else fail_at unsupported text (lx_start token)
          else
            match assoc_str BILLING_FUNCTIONS text with
            | None => fail_at unsupported text (lx_start token)
            | Some arity =>
                let* (_, st) := take_lexeme st in
                let* (args, st) := call_args fuel' [] st in
                let* (close, st) := expect (js ")") st in
                if length args =? arity then
                  Ok (Call text args (lx_start token) (lx_end close), st)
                else fail_at type_ text (lx_start token)
            end
      end
  end

(** The argument loop of a call: [while (!this.is(')'))]. *)
with call_args (fuel : nat) (args : list node) (st : pstate) {struct fuel}
  : R (list node * pstate) :=
  match fuel with
  | O => OutOfFuel
  | S fuel' =>
      if at_text st (js ")") then Ok (args, st)
      else
        let* (arg, st) := expression fuel' 0 st in
        let args := args ++ [arg] in
        if negb (at_text st (js ",")) then Ok (args, st)
        else
          let* (_, st) := take_lexeme st in
          call_args fuel' args st
  end.

(** The constructor: length limit, version prefix, first lexeme. *)
Definition new_parser : R pstate :=
  if (65536 <? N.of_nat (length source))%N then
    fail limit_ (js "expression length")
  else
    let* cur :=
      match match_version source with
      | Some (digits, len) =>
          if str_eqb digits (js "1") then Ok len
          else fail unsupported (take len source)
      | None => Ok 0
      end in
    let* (lx, cur, cnt) := next cur 0 in
    Ok (PState cur cnt 0 lx).

Definition parse_with (fuel : nat) : R node :=
  let* st := new_parser in
  let* (n, st) := expression fuel 0 st in
  if bool_decide (lx_kind (current st) = KEnd) then Ok n
  else fail_at unsupported (lx_text (current st)) (lx_start (current st)).

(** Four levels of calls per remaining code unit are enough. *)
Definition parse_fuel : nat := 4 * length source + 8.

Definition parse : R node := parse_with parse_fuel.
End Parser.
