(* ===== verification/ExprParserFacts.v ===== *)
(** * Billing expressions: correctness of the parser

    - the parser is total: the fuel of [parse] is never used up;
    - the AST is well formed: spans are non-empty, nested and ordered, calls
      have the arity of the table, literals are finite canonical numbers;
    - two occurrences in an AST never have the same span, so comparing nodes
      compares object identities. *)

From Stdlib Require Import ZArith Lia Bool SpecFloat.
From stdpp Require Import base list numbers.
From S2P Require Import Prelude JsString JsNumber JsNumberFacts JsValue ExprTypes.
From S2P Require Import ExprParser.

(** ** Well-formed ASTs *)

(** [l] are nodes from left to right between positions [lo] and [hi]. *)
Fixpoint chain (lo hi : nat) (l : list node) : Prop :=
  match l with
  | [] => lo <= hi
  | a :: l' => lo <= node_start a /\ chain (node_end a) hi l'
  end.

(** Where the children of a node may begin. *)
Definition inner_start (n : node) : nat :=
  match n with
  | Call _ _ s _ | Unary _ _ s _ => S s
  | _ => node_start n
  end.

Definition literal_ok (v : literal_value) : Prop :=
  match v with
  | LNum x => num_canon x /\ is_finite x = true /\ sign_bit x = false
  | _ => True
  end.

Definition unary_operators : list str := [js "!"; js "+"; js "-"].

Definition local_ok (n : node) : Prop :=
  match n with
  | Literal v _ _ _ => literal_ok v
  | Variable_ x _ _ => x ∈ BILLING_VARIABLES
  | Call f args _ _ => assoc_str BILLING_FUNCTIONS f = Some (length args)
  | Unary o _ _ _ => o ∈ unary_operators
  | Binary o _ _ _ _ => is_Some (assoc_str PRECEDENCE o)
  | Conditional _ _ _ _ _ => True
  end.

Definition node_ok (n : node) : Prop :=
  node_start n < node_end n /\ local_ok n /\
  chain (inner_start n) (node_end n) (children n).

(** Every node of the AST is well formed. *)
Definition wf (n : node) : Prop := Forall node_ok (postorder n).

Lemma Forall_concat_map {A B} (P : B -> Prop) (f : A -> list B) l :
  Forall P (concat (map f l)) <-> Forall (fun a => Forall P (f a)) l.
Proof.
  induction l as [|a l IH]; simpl; [done|].
  rewrite Forall_app, Forall_cons_iff, IH. done.
Qed.

Lemma wf_unfold n : wf n <-> node_ok n /\ Forall wf (children n).
Proof.
  unfold wf. rewrite postorder_children, Forall_app, Forall_concat_map, Forall_singleton.
  tauto.
Qed.

Lemma chain_weaken lo lo' hi hi' l :
  lo' <= lo -> hi <= hi' -> chain lo hi l -> chain lo' hi' l.
Proof.
  revert lo lo'. induction l as [|a l IH]; simpl; intros lo lo' Hlo Hhi H.
  - lia.
  - destruct H as [H1 H2]. split; [lia|]. by eapply IH; [| |exact H2].
Qed.

Lemma chain_snoc lo hi l a :
  chain lo (node_start a) l -> node_end a <= hi -> chain lo hi (l ++ [a]).
Proof.
  revert lo. induction l as [|b l IH]; simpl; intros lo H He.
  - done.
  - destruct H as [H1 H2]. split; [done|]. by apply IH.
Qed.

(** Wrapping in parentheses only widens the span. *)
Lemma wf_with_span n s e :
  wf n -> s <= node_start n -> node_end n <= e -> wf (with_span n s e).
Proof.
  rewrite !wf_unfold. intros [(Hlt & Hloc & Hch) Hcs] Hs He.
  destruct n;
    cbn [with_span node_start node_end inner_start children] in *;
    (split; [|done]); (split; [simpl; lia|]); (split; [exact Hloc|]);
    (eapply chain_weaken; [| |exact Hch]; cbn [node_end inner_start node_start]; lia).
Qed.

(** ** The lexer *)

Lemma lex_string_bounds start q s : forall cur v v' stop,
  lex_string start q s cur v = Ok (v', stop) -> cur < stop <= cur + length s.
Proof.
  induction s as [s IH] using (induction_ltof1 _ (@length N)). unfold ltof in IH.
  intros cur v v' stop H. destruct s as [|c s1]; [done|]. simpl in H.
  destruct (c =? q)%N; [injection H as <- <-; simpl; lia|].
  destruct ((c =? 10)%N || (c =? 13)%N); [done|].
  destruct (negb (c =? 92)%N).
  { apply IH in H; simpl; lia. }
  destruct s1 as [|e s2]; [done|].
  destruct (lookup_escape escapes e).
  { apply IH in H; simpl in *; lia. }
  destruct (e =? 117)%N.
  { destruct s2 as [|a [|b [|c' [|d s3]]]]; try done.
    destruct (is_hex a && _); [|done]. apply IH in H; simpl in *; lia. }
  destruct (e =? 120)%N; [|done].
  destruct s2 as [|a [|b s3]]; try done.
  destruct (is_hex a && _); [|done]. apply IH in H; simpl in *; lia.
Qed.

Lemma match_name_prefix s t : match_name s = Some t -> exists r, s = t ++ r /\ t <> [].
Proof.
  unfold match_name. destruct s as [|c s]; [done|].
  destruct (is_alpha c || (c =? 95)%N); [|done]. intros [= <-].
  exists (span is_word s).2. simpl. by rewrite span_app.
Qed.

Lemma match_operator_prefix s t :
  match_operator s = Some t -> exists r, s = t ++ r /\ t <> [].
Proof.
  unfold match_operator. intros H.
  assert (forall k l, includes_str l (take k s) = true -> [] ∉ l ->
            exists r, s = take k s ++ r /\ take k s <> []) as Hk.
  { intros k l Hin Hl. exists (drop k s). rewrite take_drop. split; [done|].
    intros E. rewrite E in Hin. by apply includes_str_elem in Hin. }
  destruct (includes_str two_char_operators _) eqn:E2.
  { injection H as <-. by eapply Hk; [exact E2|vm_decide]. }
  destruct (includes_str one_char_operators _) eqn:E1; [|done].
  injection H as <-. by eapply Hk; [exact E1|vm_decide].
Qed.

Section Lexer.
Variable source : str.

(** What a lexeme says about the source. *)
Record lexeme_ok (lx : Lexeme) : Prop := LexemeOk {
  lx_bounds : lx_start lx <= lx_end lx <= length source;
  lx_nonempty : lx_kind lx <> KEnd -> lx_start lx < lx_end lx;
  lx_eof : lx_kind lx = KEnd -> lx_end lx = length source /\ lx_text lx = [];
  lx_number : forall x, lx_value lx = VNumber x -> literal_ok (LNum x)
}.

Lemma drop_slice start text r :
  drop start source = text ++ r -> text <> [] ->
  start < start + length text <= length source.
Proof.
  intros H Ht. apply (f_equal length) in H. rewrite length_drop, length_app in H.
  destruct text; [done|]. simpl in *. lia.
Qed.

Lemma num_of_dec_ok d :
  is_finite (num_of_dec false d) = true -> literal_ok (LNum (num_of_dec false d)).
Proof.
  intros Hf. split; [apply num_of_decimal_canon|]. split; [done|].
  unfold num_of_dec, num_of_decimal, round_ratio, make_num in *.
  repeat case_match; done.
Qed.

Lemma next_ok cur cnt lx cur' cnt' :
  cur <= length source -> next source cur cnt = Ok (lx, cur', cnt') ->
  lexeme_ok lx /\ lx_end lx = cur' /\ cur <= lx_start lx /\ cnt' = S cnt.
Proof.
  intros Hcur H. unfold next in H.
  destruct (10000 <? _)%N; [done|].
  set (start := cur + length (span is_space (drop cur source)).1) in *.
  assert (start <= length source) as Hstart.
  { unfold start. pose proof (span_length is_space (drop cur source)) as Hl.
    rewrite length_drop in Hl. lia. }
  destruct (drop start source) as [|c body] eqn:Hrest.
  { injection H as <- <- <-. simpl. split; [|unfold start; lia].
    apply (f_equal length) in Hrest. rewrite length_drop in Hrest. simpl in Hrest.
    constructor; simpl; try done; try lia. intros _. split; [lia|done]. }
  destruct (scan_decimal (c :: body)) as [[d after]|] eqn:Ed.
  { apply scan_decimal_app in Ed as (t & Ht & Hne & _).
    set (text := take _ _) in *.
    assert (text = t) as Htext.
    { unfold text. rewrite Ht, length_app.
      replace (_ + _ - _) with (length t) by lia. by rewrite take_app_length. }
    rewrite Htext in *. clearbody text.
    assert (start < start + length t <= length source)
      by (apply (drop_slice start t after); [by rewrite Hrest|done]).
    destruct (is_finite _) eqn:Ef; [|done]. cbn [negb] in H.
    destruct (_ && negb _); [done|]. injection H as <- <- <-.
    split; [|unfold start; simpl; lia].
    constructor; simpl; try done; try lia.
    intros x [= <-]. by apply num_of_dec_ok. }
  destruct ((c =? 34)%N || (c =? 39)%N).
  { inv_bind. apply lex_string_bounds in E.
    apply (f_equal length) in Hrest. rewrite length_drop in Hrest. simpl in Hrest.
    split; [|simpl; unfold start in *; lia].
    constructor; simpl; try done; lia. }
  destruct (match_name (c :: body)) as [t|] eqn:En.
  { apply match_name_prefix in En as (r & Ht & Hne). injection H as <- <- <-.
    assert (start < start + length t <= length source)
      by (apply (drop_slice start t r); [by rewrite Hrest|done]).
    split; [|unfold start in *; simpl; lia]. constructor; simpl; try done; lia. }
  destruct (match_operator (c :: body)) as [t|] eqn:Eo; [|done].
  apply match_operator_prefix in Eo as (r & Ht & Hne). injection H as <- <- <-.
  assert (start < start + length t <= length source)
    by (apply (drop_slice start t r); [by rewrite Hrest|done]).
  split; [|unfold start in *; simpl; lia]. constructor; simpl; try done; lia.
Qed.

Lemma lex_string_fuel start q s : forall cur v, lex_string start q s cur v <> OutOfFuel.
Proof.
  induction s as [s IH] using (induction_ltof1 _ (@length N)). unfold ltof in IH.
  intros cur v. destruct s as [|c s1]; [done|]. simpl.
  destruct (c =? q)%N; [done|].
  destruct ((c =? 10)%N || (c =? 13)%N); [done|].
  destruct (negb (c =? 92)%N); [apply IH; simpl; lia|].
  destruct s1 as [|e s2]; [done|].
  destruct (lookup_escape escapes e); [apply IH; simpl; lia|].
  destruct (e =? 117)%N.
  { destruct s2 as [|a [|b [|c' [|d s3]]]]; try done.
    destruct (is_hex a && _); [|done]. apply IH; simpl; lia. }
  destruct (e =? 120)%N; [|done].
  destruct s2 as [|a [|b s3]]; try done.
  destruct (is_hex a && _); [|done]. apply IH; simpl; lia.
Qed.

Lemma next_fuel cur cnt : next source cur cnt <> OutOfFuel.
Proof.
  unfold next. destruct (10000 <? _)%N; [done|].
  destruct (drop _ source) as [|c body]; [done|].
  destruct (scan_decimal _) as [[d after]|].
  { destruct (is_finite _); [|done]. by destruct (_ && _). }
  destruct ((c =? 34)%N || (c =? 39)%N).
  { pose proof (lex_string_fuel
      (cur + length (span is_space (drop cur source)).1) c body
      (S (cur + length (span is_space (drop cur source)).1)) []).
    by destruct (lex_string _ _ _ _ _) as [[]| |]. }
  destruct (match_name _); [done|]. by destruct (match_operator _).
Qed.
End Lexer.

(** ** The parser *)

Section Parser.
Variable source : str.

Definition inv (st : pstate) : Prop :=
  lexeme_ok source (current st) /\ cursor st = lx_end (current st).

(** Code units the parser can still consume. *)
Definition remaining (st : pstate) : nat :=
  (length source - cursor st) + (if bool_decide (lx_kind (current st) = KEnd) then 0 else 1).

Definition here (st : pstate) : nat := lx_start (current st).

Lemma take_ok st tok st' :
  inv st -> take_lexeme source st = Ok (tok, st') ->
  inv st' /\ tok = current st /\ lx_end tok <= here st' /\ depth st' = depth st /\
  remaining st' <= remaining st /\
  (lx_kind tok <> KEnd -> remaining st' < remaining st).
Proof.
  intros [Hlx Hcur] H. unfold take_lexeme in H. inv_bind.
  destruct Hlx as [Hb Hne Heof _].
  apply next_ok in E as (Hok & He & Hs & _); [|lia].
  split; [by split|]. split; [done|]. split; [unfold here; simpl; lia|].
  split; [done|]. unfold remaining; simpl.
  destruct Hok as [Hb' Hne' Heof' _].
  assert (lx_kind (current st) = KEnd -> lx_end (current st) = length source) as Heof1
    by (intros Hk; by apply Heof).
  repeat case_bool_decide; (split; [|intros Hk; try done]);
    try specialize (Hne' ltac:(done)); try specialize (Heof1 ltac:(done)); lia.
Qed.

Lemma expect_ok t st tok st' :
  t <> [] -> inv st -> expect source t st = Ok (tok, st') ->
  inv st' /\ tok = current st /\ lx_end tok <= here st' /\ depth st' = depth st /\
  remaining st' < remaining st /\ lx_start tok < lx_end tok.
Proof.
  intros Ht Hi H. unfold expect in H.
  destruct (at_text st t) eqn:Et; [|done]. apply str_eqb_eq in Et.
  destruct (take_ok st tok st' Hi H) as (Hi' & -> & Hle & Hd & _ & Hlt).
  destruct Hi as [Hlx _].
  assert (lx_kind (current st) <> KEnd) as Hk.
  { intros Hk. apply (lx_eof source _ Hlx) in Hk as [_ Hk]. congruence. }
  split_and!; auto. by apply (lx_nonempty source _ Hlx).
Qed.

(** What a successful call of each parsing function guarantees. *)
Definition parsed (st : pstate) (n : node) (st' : pstate) : Prop :=
  inv st' /\ wf n /\ here st <= node_start n /\ node_end n <= here st' /\
  remaining st' < remaining st /\ depth st' = depth st.

Definition looped (st : pstate) (left n : node) (st' : pstate) : Prop :=
  inv st' /\ wf n /\ node_start n = node_start left /\ node_end n <= here st' /\
  remaining st' <= remaining st /\ depth st' = depth st.

Lemma inv_set_depth st d : inv (set_depth st d) <-> inv st.
Proof. done. Qed.

Lemma wf_leaf n : children n = [] -> node_start n < node_end n -> local_ok n -> wf n.
Proof.
  intros Hc Hlt Hl. rewrite wf_unfold. unfold node_ok. rewrite Hc.
  split; [|done]. split; [done|]. split; [done|].
  destruct n; simpl in *; lia.
Qed.

Lemma wf_bounds n : wf n -> node_start n < node_end n.
Proof. rewrite wf_unfold. by intros [[? _] _]. Qed.

Lemma wf_binary o l r :
  is_Some (assoc_str PRECEDENCE o) -> wf l -> wf r -> node_end l <= node_start r ->
  wf (Binary o l r (node_start l) (node_end r)).
Proof.
  intros Ho Hl Hr Hlr. pose proof (wf_bounds l Hl). pose proof (wf_bounds r Hr).
  rewrite wf_unfold. split; [|by repeat constructor].
  split; [simpl; lia|]. split; [done|]. simpl. lia.
Qed.

Lemma wf_conditional c y n :
  wf c -> wf y -> wf n -> node_end c <= node_start y -> node_end y <= node_start n ->
  wf (Conditional c y n (node_start c) (node_end n)).
Proof.
  intros Hc Hy Hn H1 H2.
  pose proof (wf_bounds c Hc). pose proof (wf_bounds y Hy). pose proof (wf_bounds n Hn).
  rewrite wf_unfold. split; [|by repeat constructor].
  split; [simpl; lia|]. split; [done|]. simpl. lia.
Qed.

Lemma wf_unary o a s :
  o ∈ unary_operators -> wf a -> s < node_start a ->
  wf (Unary o a s (node_end a)).
Proof.
  intros Ho Ha Hs. pose proof (wf_bounds a Ha).
  rewrite wf_unfold. split; [|by repeat constructor].
  split; [simpl; lia|]. split; [done|]. simpl. lia.
Qed.

Lemma wf_call f args s e :
  assoc_str BILLING_FUNCTIONS f = Some (length args) ->
  Forall wf args -> s < e -> chain (S s) e args -> wf (Call f args s e).
Proof.
  intros Hf Hargs Hlt Hch. rewrite wf_unfold. split; [|done].
  split; [done|]. by split.
Qed.

Lemma chain_le lo hi l : Forall wf l -> chain lo hi l -> lo <= hi.
Proof.
  revert lo. induction l as [|a l IH]; simpl; intros lo Hw Hch; [done|].
  apply Forall_cons_iff in Hw as [Hwa Hw]. destruct Hch as [Ha Hch].
  apply IH in Hch; [|done]. pose proof (wf_bounds a Hwa). lia.
Qed.

Section Step.
(** The four functions at a given fuel. *)
Variable fuel : nat.
Hypothesis IHexpr : forall m st n st',
  inv st -> expression source fuel m st = Ok (n, st') -> parsed st n st'.
Hypothesis IHloop : forall m left st n st',
  inv st -> wf left -> node_end left <= here st ->
  binary_loop source fuel m left st = Ok (n, st') -> looped st left n st'.
Hypothesis IHprim : forall st n st',
  inv st -> primary source fuel st = Ok (n, st') -> parsed st n st'.
Hypothesis IHargs : forall lo args st args' st',
  inv st -> Forall wf args -> chain lo (here st) args ->
  call_args source fuel args st = Ok (args', st') ->
  inv st' /\ Forall wf args' /\ chain lo (here st') args' /\
  remaining st' <= remaining st /\ depth st' = depth st.

Lemma expression_step m st n st' :
  inv st -> expression source (S fuel) m st = Ok (n, st') -> parsed st n st'.
Proof using IHexpr IHloop IHprim.
  intros Hi H. cbn [expression] in H.
  destruct (128 <? _); [done|]. inv_bind.
  apply IHprim in E as (Hi1 & Hw1 & Hs1 & He1 & Hr1 & Hd1); [|done].
  apply IHloop in E0 as (Hi2 & Hw2 & Hs2 & He2 & Hr2 & Hd2); [|done..].
  change (here (set_depth st _)) with (here st) in *.
  change (remaining (set_depth st _)) with (remaining st) in *.
  change (depth (set_depth st _)) with (S (depth st)) in *.
  unfold parsed.
  change (here (set_depth ?s _)) with (here s).
  change (remaining (set_depth ?s _)) with (remaining s).
  destruct ((m =? 0) && at_text p0 (js "?")).
  - inv_bind.
    apply take_ok in E as (Hi3 & -> & Hle3 & Hd3 & Hr3 & _); [|done].
    apply IHexpr in E0 as (Hi4 & Hw4 & Hs4 & He4 & Hr4 & Hd4); [|done].
    apply expect_ok in E2 as (Hi5 & -> & Hle5 & Hd5 & Hr5 & _); [|done..].
    apply IHexpr in E3 as (Hi6 & Hw6 & Hs6 & He6 & Hr6 & Hd6); [|done].
    destruct Hi2 as [[Hb2 _ _ _] _]. destruct Hi4 as [[Hb4 _ _ _] _].
    unfold here in *.
    split; [done|]. split; [apply wf_conditional; auto; lia|].
    cbn [node_start node_end set_depth depth]. split_and!; try lia.
  - inv_bind. unfold set_depth; simpl. split_and!; try done; try lia.
    all: by destruct Hi2.
Qed.

Lemma binary_loop_step m left st n st' :
  inv st -> wf left -> node_end left <= here st ->
  binary_loop source (S fuel) m left st = Ok (n, st') -> looped st left n st'.
Proof using IHexpr IHloop.
  intros Hi Hw He H. cbn [binary_loop] in H.
  assert (looped st left left st) as Hdone.
  { split_and!; try done; by destruct Hi. }
  destruct (assoc_str PRECEDENCE _) as [prec|] eqn:Ep; [|by inv_bind].
  destruct (m <=? prec); [|by inv_bind]. inv_bind.
  apply take_ok in E as (Hi1 & -> & Hle1 & Hd1 & Hr1 & _); [|done].
  apply IHexpr in E0 as (Hi2 & Hw2 & Hs2 & He2 & Hr2 & Hd2); [|done].
  destruct Hi as [[Hb _ _ _] _].
  apply IHloop in H as (Hi3 & Hw3 & Hs3 & He3 & Hr3 & Hd3).
  - unfold looped. cbn [node_start] in Hs3. split_and!; try done; try lia.
    all: by destruct Hi3.
  - done.
  - apply wf_binary; [by eexists|done..|]. unfold here in *. lia.
  - done.
Qed.

Lemma call_args_step lo args st args' st' :
  inv st -> Forall wf args -> chain lo (here st) args ->
  call_args source (S fuel) args st = Ok (args', st') ->
  inv st' /\ Forall wf args' /\ chain lo (here st') args' /\
  remaining st' <= remaining st /\ depth st' = depth st.
Proof using IHexpr IHargs.
  intros Hi Hw Hch H. cbn [call_args] in H.
  destruct (at_text st (js ")")); [inv_bind; auto|]. inv_bind.
  apply IHexpr in E as (Hi1 & Hw1 & Hs1 & He1 & Hr1 & Hd1); [|done].
  assert (chain lo (here p) (args ++ [e])) as Hch1.
  { apply chain_snoc; [|done]. eapply chain_weaken; [| |exact Hch]; lia. }
  assert (Forall wf (args ++ [e])) as Hw'.
  { apply Forall_app. split; [done|]. by constructor. }
  destruct (negb (at_text p (js ","))).
  { inv_bind. split; [done|]. split; [done|]. split; [done|]. lia. }
  inv_bind.
  apply take_ok in E as (Hi2 & -> & Hle2 & Hd2 & Hr2 & _); [|done].
  destruct Hi1 as [[Hb _ _ _] _].
  apply (IHargs lo) in H as (Hi3 & Hw3 & Hch3 & Hr3 & Hd3); [|done..|].
  - split; [done|]. split; [done|]. split; [done|]. lia.
  - eapply chain_weaken; [| |exact Hch1]; unfold here in *; lia.
Qed.

Lemma primary_step st n st' :
  inv st -> primary source (S fuel) st = Ok (n, st') -> parsed st n st'.
Proof using IHexpr IHargs.
  intros Hi H. cbn [primary] in H. inv_bind.
  pose proof Hi as [[Hb Hne Heof Hnum] _].
  apply take_ok in E as (Hi1 & -> & Hle & Hd & Hr & Hlt); [|done].
  unfold parsed. unfold here at 1.
  destruct (decide (lx_kind (current st) = KEnd)) as [Hk|Hk].
  { destruct (Heof Hk) as [_ Ht]. rewrite Hk, Ht in H. simpl in H.
    repeat match type of H with (if ?b then _ else _) = _ => destruct b eqn:? end;
      try discriminate H; vm_compute in *; try discriminate. }
  specialize (Hne Hk). specialize (Hlt Hk).
  assert (forall v, literal_ok v ->
    Ok (literal_of_token (current st) v, p) = @Ok exn _ (n, st') ->
    inv st' /\ wf n /\ lx_start (current st) <= node_start n /\
    node_end n <= here st' /\ remaining st' < remaining st /\ depth st' = depth st)
    as Hlit.
  { intros v Hv Heq. inv_bind. split_and!; try done; try (by destruct Hi1).
    by apply wf_leaf. }
  match type of H with
  | match _ with _ => _ end = _ => idtac
  end.
  set (other := if str_eqb (lx_text (current st)) (js "(") then _ else _) in H.
  assert (other = Ok (n, st') -> inv st' /\ wf n /\
    lx_start (current st) <= node_start n /\ node_end n <= here st' /\
    remaining st' < remaining st /\ depth st' = depth st) as Hother.
  2: { destruct (lx_kind (current st)), (lx_value (current st)) as [|sv|nv];
         try (by apply Hother).
       - by apply (Hlit (LNum nv)) in H; [|apply Hnum].
       - by apply (Hlit (LStr sv)) in H. }
  clear H Hnum. unfold other. clear other. intros H.
  destruct (str_eqb _ (js "(")) eqn:Eparen.
  { inv_bind.
    apply IHexpr in E as (Hi2 & Hw2 & Hs2 & He2 & Hr2 & Hd2); [|done].
    apply expect_ok in E0 as (Hi3 & -> & Hle3 & Hd3 & Hr3 & Hlt3); [|done..].
    unfold here in *. split; [done|].
    split; [apply wf_with_span; [done|lia..]|].
    destruct e; cbn [with_span node_start node_end] in *; split_and!; lia. }
  destruct (includes_str _ (lx_text (current st))) eqn:Eun.
  { inv_bind. apply IHexpr in E as (Hi2 & Hw2 & Hs2 & He2 & Hr2 & Hd2); [|done].
    apply includes_str_elem in Eun. unfold here in *. split; [done|].
    split; [apply wf_unary; [done..|lia]|].
    cbn [node_start node_end]. split_and!; lia. }
  destruct (negb (bool_decide _)); [done|].
  destruct (str_eqb _ (js "nil")); [by apply (Hlit LNull) in H|].
  destruct (str_eqb _ (js "true") || _); [by apply (Hlit (LBool _)) in H|].
  destruct (negb (at_text p (js "("))).
  { destruct (includes_str BILLING_VARIABLES _) eqn:Evar; [|done]. inv_bind.
    apply includes_str_elem in Evar. split_and!; try done; try (by destruct Hi1).
    by apply wf_leaf. }
  destruct (assoc_str BILLING_FUNCTIONS _) as [arity|] eqn:Ef; [|done]. inv_bind.
  pose proof Hi1 as [[Hb1 _ _ _] _].
  apply take_ok in E as (Hi2 & -> & Hle2 & Hd2 & Hr2 & _); [|done].
  unfold here in *.
  apply (IHargs (S (lx_start (current st)))) in E0 as (Hi3 & Hw3 & Hch3 & Hr3 & Hd3);
    [|done|done|unfold here; simpl; lia].
  apply expect_ok in E1 as (Hi4 & -> & Hle4 & Hd4 & Hr4 & Hlt4); [|done..].
  destruct (Nat.eqb_spec (length l0) arity) as [<-|]; [|done]. inv_bind.
  apply chain_le in Hch3 as Hle5; [|done]. unfold here in *.
  split; [done|]. split.
  - apply wf_call; [done|done|lia|]. eapply chain_weaken; [| |exact Hch3]; lia.
  - cbn [node_start node_end]. split_and!; lia.
Qed.
End Step.

(** All four functions, at every fuel. *)
Lemma parser_ok fuel :
  (forall m st n st', inv st -> expression source fuel m st = Ok (n, st') ->
     parsed st n st') /\
  (forall m left st n st', inv st -> wf left -> node_end left <= here st ->
     binary_loop source fuel m left st = Ok (n, st') -> looped st left n st') /\
  (forall st n st', inv st -> primary source fuel st = Ok (n, st') -> parsed st n st') /\
  (forall lo args st args' st', inv st -> Forall wf args -> chain lo (here st) args ->
     call_args source fuel args st = Ok (args', st') ->
     inv st' /\ Forall wf args' /\ chain lo (here st') args' /\
     remaining st' <= remaining st /\ depth st' = depth st).
Proof.
  induction fuel as [|fuel (IHe & IHl & IHp & IHa)]; [by split_and!|].
  split_and!.
  - by apply expression_step.
  - by apply binary_loop_step.
  - by apply primary_step.
  - by apply call_args_step.
Qed.

Lemma match_version_bound ds len :
  match_version source = Some (ds, len) -> len <= length source.
Proof.
  unfold match_version. pose proof (span_length is_space source) as Hl.
  destruct (span is_space source) as [ws r]. simpl in Hl.
  destruct r as [|c r1]; [done|]. destruct (c =? 118)%N; [|done].
  pose proof (span_length is_digit r1) as Hl1.
  destruct (span is_digit r1) as [ds' r2]. simpl in Hl1.
  destruct ds' as [|d ds']; [done|]. destruct r2 as [|c2 r2]; [done|].
  destruct (c2 =? 58)%N; [|done]. intros [= <- <-]. simpl in *. lia.
Qed.

Lemma new_parser_ok st : new_parser source = Ok st -> inv st.
Proof.
  unfold new_parser. destruct (65536 <? _)%N; [done|]. intros H. inv_bind.
  assert (a <= length source) as Hn.
  { destruct (match_version source) as [[ds len]|] eqn:Ev.
    - destruct (str_eqb _ _); [|done]. inv_bind. eapply match_version_bound; exact Ev.
    - inv_bind. lia. }
  apply next_ok in E0 as (Hok & He & _); [|done]. by split.
Qed.

Lemma parse_ok fuel n :
  parse_with source fuel = Ok n -> wf n /\ node_end n <= length source.
Proof.
  unfold parse_with. intros H. inv_bind. apply new_parser_ok in E.
  destruct (parser_ok fuel) as (He & _).
  apply He in E0 as ([[Hb _ _ _] _] & Hw & _ & Hend & _); [|done].
  case_bool_decide; [|done]. inv_bind. unfold here in *. split; [done|]. lia.
Qed.

(** ** Totality *)

Lemma take_fuel st : take_lexeme source st <> OutOfFuel.
Proof.
  unfold take_lexeme. pose proof (next_fuel source (cursor st) (count st)).
  by destruct (next _ _ _) as [[[]]| |].
Qed.

Lemma expect_fuel t st : expect source t st <> OutOfFuel.
Proof. unfold expect. destruct (at_text st t); [apply take_fuel|done]. Qed.

(** Split off a computation that cannot run out of fuel. *)
Lemma bind_fuel {A B} (m : R A) (k : A -> R B) :
  m <> OutOfFuel -> (forall a, m = Ok a -> k a <> OutOfFuel) -> obind m k <> OutOfFuel.
Proof. destruct m; simpl; auto. Qed.

Lemma text_not_end st t :
  inv st -> lx_text (current st) = t -> t <> [] -> lx_kind (current st) <> KEnd.
Proof.
  intros [Hlx _] Ht Hne Hk. apply (lx_eof source _ Hlx) in Hk as [_ Hk]. congruence.
Qed.

Definition fuel_ok (fuel : nat) : Prop :=
  (forall m st, inv st -> 4 * remaining st + 4 <= fuel ->
     expression source fuel m st <> OutOfFuel) /\
  (forall m left st, inv st -> wf left -> node_end left <= here st ->
     4 * remaining st + 3 <= fuel -> binary_loop source fuel m left st <> OutOfFuel) /\
  (forall st, inv st -> 4 * remaining st + 3 <= fuel ->
     primary source fuel st <> OutOfFuel) /\
  (forall args st, inv st -> 4 * remaining st + 5 <= fuel ->
     call_args source fuel args st <> OutOfFuel).

Lemma expression_fuel fuel m st :
  fuel_ok fuel -> inv st -> 4 * remaining st + 4 <= S fuel ->
  expression source (S fuel) m st <> OutOfFuel.
Proof.
  intros (IHe & IHl & IHp & _) Hi Hf. cbn [expression].
  destruct (parser_ok fuel) as (Oe & Ol & Op & _).
  destruct (128 <? _); [done|].
  assert (remaining (set_depth st (S (depth st))) = remaining st) as Hrem by done.
  apply bind_fuel; [apply IHp; [done|lia]|]. intros [n1 st1] E1.
  apply Op in E1 as (Hi1 & Hw1 & _ & He1 & Hr1 & _); [|done].
  apply bind_fuel; [apply IHl; [done..|lia]|]. intros [n2 st2] E2.
  apply Ol in E2 as (Hi2 & Hw2 & _ & He2 & Hr2 & _); [|done..].
  apply bind_fuel; [|by intros []].
  destruct (_ && _); [|done].
  apply bind_fuel; [apply take_fuel|]. intros [t st3] E3.
  apply take_ok in E3 as (Hi3 & _ & _ & _ & Hr3 & _); [|done].
  apply bind_fuel; [apply IHe; [done|lia]|]. intros [n4 st4] E4.
  apply Oe in E4 as (Hi4 & _ & _ & _ & Hr4 & _); [|done].
  apply bind_fuel; [apply expect_fuel|]. intros [t5 st5] E5.
  apply expect_ok in E5 as (Hi5 & _ & _ & _ & Hr5 & _); [|done..].
  apply bind_fuel; [apply IHe; [done|lia]|]. by intros [].
Qed.

Lemma binary_loop_fuel fuel m left st :
  fuel_ok fuel -> inv st -> wf left -> node_end left <= here st ->
  4 * remaining st + 3 <= S fuel -> binary_loop source (S fuel) m left st <> OutOfFuel.
Proof.
  intros (IHe & IHl & _ & _) Hi Hw Hend Hf. cbn [binary_loop].
  destruct (parser_ok fuel) as (Oe & _).
  destruct (assoc_str PRECEDENCE _) as [prec|] eqn:Ep; [|done].
  destruct (m <=? prec); [|done].
  assert (lx_kind (current st) <> KEnd) as Hk.
  { eapply text_not_end; [done|done|]. intros Ht. by rewrite Ht in Ep. }
  pose proof Hi as [[Hb _ _ _] _].
  apply bind_fuel; [apply take_fuel|]. intros [t st1] E1.
  apply take_ok in E1 as (Hi1 & -> & Hle & _ & _ & Hr1); [|done].
  specialize (Hr1 Hk).
  apply bind_fuel; [apply IHe; [done|lia]|]. intros [n2 st2] E2.
  apply Oe in E2 as (Hi2 & Hw2 & Hs2 & He2 & Hr2 & _); [|done].
  apply IHl; [done| |done|lia].
  apply wf_binary; [by eexists|done..|]. unfold here in *. lia.
Qed.

Lemma primary_fuel fuel st :
  fuel_ok fuel -> inv st -> 4 * remaining st + 3 <= S fuel ->
  primary source (S fuel) st <> OutOfFuel.
Proof.
  intros (IHe & _ & _ & IHa) Hi Hf. cbn [primary].
  destruct (parser_ok fuel) as (Oe & _ & _ & Oa).
  apply bind_fuel; [apply take_fuel|]. intros [t st1] E1.
  apply take_ok in E1 as (Hi1 & -> & _ & _ & Hr0 & Hr1); [|done].
  set (other := if str_eqb (lx_text (current st)) (js "(") then _ else _).
  assert (other <> OutOfFuel) as Ho.
  2: { by destruct (lx_kind (current st)), (lx_value (current st)). }
  unfold other. clear other.
  destruct (str_eqb _ (js "(")) eqn:Ep.
  { apply str_eqb_eq in Ep. specialize (Hr1 (text_not_end st _ Hi Ep ltac:(done))).
    apply bind_fuel; [apply IHe; [done|lia]|]. intros [n2 st2] E2.
    apply bind_fuel; [apply expect_fuel|]. by intros []. }
  destruct (includes_str _ (lx_text (current st))) eqn:Eu.
  { apply includes_str_elem in Eu.
    assert (lx_text (current st) <> []) as Hne by (intros E; rewrite E in Eu; by revert Eu; vm_decide).
    specialize (Hr1 (text_not_end st _ Hi eq_refl Hne)).
    apply bind_fuel; [apply IHe; [done|lia]|]. by intros []. }
  destruct (negb (bool_decide _)) eqn:Ek; [done|].
  apply negb_false_iff, bool_decide_eq_true in Ek.
  specialize (Hr1 ltac:(congruence)).
  destruct (str_eqb _ (js "nil")); [done|].
  destruct (str_eqb _ (js "true") || _); [done|].
  destruct (negb (at_text st1 _)); [by destruct (includes_str BILLING_VARIABLES _)|].
  destruct (assoc_str BILLING_FUNCTIONS _); [|done].
  apply bind_fuel; [apply take_fuel|]. intros [t2 st2] E2.
  apply take_ok in E2 as (Hi2 & _ & _ & _ & Hr2 & _); [|done].
  apply bind_fuel; [apply IHa; [done|lia]|]. intros [args st3] E3.
  apply bind_fuel; [apply expect_fuel|]. intros [t4 st4] E4.
  by destruct (length args =? n).
Qed.

Lemma call_args_fuel fuel args st :
  fuel_ok fuel -> inv st -> 4 * remaining st + 5 <= S fuel ->
  call_args source (S fuel) args st <> OutOfFuel.
Proof.
  intros (IHe & _ & _ & IHa) Hi Hf. cbn [call_args].
  destruct (parser_ok fuel) as (Oe & _).
  destruct (at_text st _); [done|].
  apply bind_fuel; [apply IHe; [done|lia]|]. intros [n1 st1] E1.
  apply Oe in E1 as (Hi1 & _ & _ & _ & Hr1 & _); [|done].
  destruct (negb _); [done|].
  apply bind_fuel; [apply take_fuel|]. intros [t2 st2] E2.
  apply take_ok in E2 as (Hi2 & _ & _ & _ & Hr2 & _); [|done].
  apply IHa; [done|lia].
Qed.

Lemma all_fuel_ok fuel : fuel_ok fuel.
Proof.
  induction fuel as [|fuel IH]; [split_and!; intros; lia|].
  split_and!; intros.
  - by apply expression_fuel.
  - by apply binary_loop_fuel.
  - by apply primary_fuel.
  - by apply call_args_fuel.
Qed.

Lemma new_parser_fuel : new_parser source <> OutOfFuel.
Proof.
  unfold new_parser. destruct (65536 <? _)%N; [done|].
  apply bind_fuel.
  - destruct (match_version source) as [[]|]; [|done]. by destruct (str_eqb _ _).
  - intros cur _. apply bind_fuel; [apply next_fuel|]. by intros [[]].
Qed.

(** The parser returns or throws; it never runs out of fuel. *)
Lemma parse_total : parse source <> OutOfFuel.
Proof.
  unfold parse, parse_with. apply bind_fuel; [apply new_parser_fuel|]. intros st Est.
  apply new_parser_ok in Est.
  apply bind_fuel.
  - destruct (all_fuel_ok (parse_fuel source)) as (He & _). apply He; [done|].
    unfold remaining, parse_fuel. case_bool_decide; lia.
  - intros [n st'] _. by case_bool_decide.
Qed.
End Parser.

(** ** Spans identify nodes *)

Definition node_span (n : node) : nat * nat := (node_start n, node_end n).

Definition span_inside (n : node) (lo hi : nat) : Prop :=
  lo <= node_start n /\ node_end n <= hi.

Lemma chain_inside lo hi l a :
  Forall wf l -> chain lo hi l -> a ∈ l -> span_inside a lo hi.
Proof.
  revert lo. induction l as [|b l IH]; intros lo Hw Hch Ha; [by apply not_elem_of_nil in Ha|].
  apply Forall_cons_iff in Hw as [Hb Hw]. simpl in Hch. destruct Hch as [H1 H2].
  pose proof (wf_bounds b Hb). pose proof (chain_le _ _ _ Hw H2).
  apply elem_of_cons in Ha as [->|Ha]; [split; lia|].
  destruct (IH _ Hw H2 Ha). split; lia.
Qed.

(** Every node of a subtree lies within the span of its root. *)
Lemma postorder_inside n m :
  wf n -> m ∈ postorder n -> span_inside m (node_start n) (node_end n).
Proof.
  revert m. induction n as [n IH] using node_children_ind. intros m Hw Hm.
  rewrite postorder_children in Hm. apply elem_of_app in Hm as [Hm|Hm].
  2: { apply list_elem_of_singleton in Hm as ->. split; lia. }
  apply wf_unfold in Hw as [(Hlt & _ & Hch) Hcs].
  apply list_elem_of_In, in_concat in Hm as (l & Hl & Hm).
  apply in_map_iff in Hl as (c & <- & Hc).
  rewrite Forall_forall in IH. apply list_elem_of_In in Hm.
  assert (wf c) as Hwc by (rewrite Forall_forall in Hcs; auto).
  destruct (IH c Hc m Hwc Hm). apply list_elem_of_In in Hc.
  destruct (chain_inside _ _ _ _ Hcs Hch Hc).
  assert (node_start n <= inner_start n) by (destruct n; simpl; lia).
  split; lia.
Qed.

Lemma span_inside_ne m c n :
  wf m -> span_inside m (node_start c) (node_end c) ->
  node_start n < node_start c \/ node_end c < node_end n ->
  node_span m <> node_span n.
Proof. intros _ [H1 H2] H [= ? ?]. lia. Qed.

Lemma wf_postorder n m : wf n -> m ∈ postorder n -> wf m.
Proof.
  revert m. induction n as [n IH] using node_children_ind. intros m Hw Hm.
  rewrite postorder_children in Hm. apply elem_of_app in Hm as [Hm|Hm].
  2: { apply list_elem_of_singleton in Hm as ->. done. }
  apply wf_unfold in Hw as [_ Hcs].
  apply list_elem_of_In, in_concat in Hm as (l & Hl & Hm).
  apply in_map_iff in Hl as (c & <- & Hc). apply list_elem_of_In in Hm.
  rewrite Forall_forall in IH, Hcs. by apply (IH c); auto.
Qed.

(** A proper descendant starts later or ends earlier. *)
Lemma child_span_strict n c :
  wf n -> c ∈ children n ->
  node_start n < node_start c \/ node_end c < node_end n.
Proof.
  intros Hw Hc. apply wf_unfold in Hw as [(Hlt & _ & Hch) Hcs].
  destruct n as [| |f args s e|o a s e|o l r s e|cc y nn s e]; cbn [children] in *;
    try (by apply not_elem_of_nil in Hc).
  - left. destruct (chain_inside _ _ _ _ Hcs Hch Hc) as [H1 _]. simpl in *. lia.
  - left. destruct (chain_inside _ _ _ _ Hcs Hch Hc) as [H1 _]. simpl in *. lia.
  - apply Forall_cons_iff in Hcs as [Hwl Hcs]. apply Forall_cons_iff in Hcs as [Hwr _].
    pose proof (wf_bounds l Hwl). pose proof (wf_bounds r Hwr).
    simpl in Hch. apply elem_of_cons in Hc as [->|Hc]; [right; simpl; lia|].
    apply list_elem_of_singleton in Hc as ->. left. simpl. lia.
  - apply Forall_cons_iff in Hcs as [Hw1 Hcs]. apply Forall_cons_iff in Hcs as [Hw2 Hcs].
    apply Forall_cons_iff in Hcs as [Hw3 _].
    pose proof (wf_bounds cc Hw1). pose proof (wf_bounds y Hw2). pose proof (wf_bounds nn Hw3).
    simpl in Hch. apply elem_of_cons in Hc as [->|Hc]; [right; simpl; lia|].
    apply elem_of_cons in Hc as [->|Hc]; [left; simpl; lia|].
    apply list_elem_of_singleton in Hc as ->. left. simpl. lia.
Qed.

Lemma chain_postorder_NoDup lo hi l :
  Forall wf l -> chain lo hi l ->
  Forall (fun c => NoDup (map node_span (postorder c))) l ->
  NoDup (map node_span (concat (map postorder l))).
Proof.
  revert lo. induction l as [|a l IH]; intros lo Hw Hch Hnd; simpl; [constructor|].
  apply Forall_cons_iff in Hw as [Ha Hw], Hnd as [Hna Hnd]. simpl in Hch.
  destruct Hch as [_ Hch]. rewrite map_app. apply list.NoDup_app.
  split; [done|]. split; [|by eapply IH].
  intros sp H1 H2. apply list_elem_of_In, in_map_iff in H1 as (m1 & <- & H1).
  apply list_elem_of_In, in_map_iff in H2 as (m2 & Heq & H2).
  apply list_elem_of_In in H1. apply in_concat in H2 as (l2 & Hl2 & H2).
  apply in_map_iff in Hl2 as (b & <- & Hb). apply list_elem_of_In in H2, Hb.
  destruct (chain_inside _ _ _ _ Hw Hch Hb) as [Hb1 _].
  assert (wf b) as Hwb by (rewrite Forall_forall in Hw; apply Hw; by apply list_elem_of_In).
  destruct (postorder_inside _ _ Ha H1) as [_ He1].
  destruct (postorder_inside _ _ Hwb H2) as [Hs2 _].
  pose proof (wf_bounds _ (wf_postorder _ _ Ha H1)).
  injection Heq as ? ?. lia.
Qed.

(** Two occurrences in a well-formed AST have different spans. *)
Lemma spans_NoDup n : wf n -> NoDup (map node_span (postorder n)).
Proof.
  induction n as [n IH] using node_children_ind. intros Hw.
  rewrite postorder_children, map_app. apply list.NoDup_app.
  pose proof Hw as Hw'. apply wf_unfold in Hw' as [(_ & _ & Hch) Hcs].
  split.
  { eapply chain_postorder_NoDup; [done|exact Hch|].
    rewrite Forall_forall in *. auto. }
  split; [|apply NoDup_singleton].
  intros sp H1 H2. apply list_elem_of_singleton in H2 as ->.
  apply list_elem_of_In, in_map_iff in H1 as (m & Heq & Hm).
  apply in_concat in Hm as (l & Hl & Hm). apply in_map_iff in Hl as (c & <- & Hc).
  apply list_elem_of_In in Hm, Hc.
  assert (wf c) as Hwc by (rewrite Forall_forall in Hcs; apply Hcs; by apply list_elem_of_In).
  eapply (span_inside_ne m c n); [by eapply wf_postorder|by apply postorder_inside|
    by apply child_span_strict|done].
Qed.

Lemma subnodes_distinct n : wf n -> NoDup (postorder n).
Proof. intros Hw. eapply NoDup_fmap_1. by apply spans_NoDup. Qed.
