(* ===== verification/ExprCompile.v ===== *)
(** * Billing expressions: the compiler

    Models the rest of [features/pricing/lib/billing-expression/parser.ts]:
    static type checking, the collection of traced request rules, the shape
    check of fixed prices and [compileBillingExpression] with its bounded
    cache. *)

From Stdlib Require Import ZArith Lia Bool SpecFloat.
From stdpp Require Import base list numbers.
From S2P Require Import Prelude JsString JsNumber JsValue ExprTypes ExprParser.

(** ** Static types *)

Inductive ExpressionType : Type := TNumber | TString | TBoolean | TNil | TDynamic.
#[global] Instance ExpressionType_eq_dec : EqDecision ExpressionType.
Proof. solve_decision. Defined.

Definition type_name (t : ExpressionType) : str :=
  match t with
  | TNumber => js "number" | TString => js "string" | TBoolean => js "boolean"
  | TNil => js "nil" | TDynamic => js "dynamic"
  end.

(** [types]: the [Map] from nodes to types; the last [set] comes first. *)
Abbreviation type_map := (list (node * ExpressionType)).

Fixpoint types_get (types : type_map) (n : node) : option ExpressionType :=
  match types with
  | [] => None
  | (m, t) :: rest => if node_eqb m n then Some t else types_get rest n
  end.

Definition logical_operators : list str := [js "&&"; js "||"].
Definition comparison_operators : list str :=
  [js "=="; js "!="; js "<"; js "<="; js ">"; js ">="].
Definition string_argument_functions : list str :=
  [js "param"; js "header"; js "u"] ++ TIME_FUNCTIONS.
Definition number_functions : list str :=
  [js "fixed"; js "min"; js "max"; js "abs"; js "ceil"; js "floor"].

Definition undefined_error {A} : R A :=
  Throw (OtherError (js "Cannot read properties of undefined")).

Section TypeVisitor.
Variable types : type_map.

Definition requireType (child : node) (expected : ExpressionType) : R unit :=
  let actual := types_get types child in
  if bool_decide (actual = Some expected) || bool_decide (actual = Some TDynamic)
  then Ok tt
  else fail_at type_ (type_name expected ++ js " operand") (node_start child).

Definition require_arg (args : list node) (i : nat) (expected : ExpressionType) : R unit :=
  match args !! i with
  | Some a => requireType a expected
  | None => undefined_error
  end.

Definition call_type (name : str) (args : list node) : R ExpressionType :=
  (if includes_str string_argument_functions name then require_arg args 0 TString
   else Ok tt) ;;;
  if str_eqb name (js "header") then Ok TString
  else if str_eqb name (js "has") then
    require_arg args 1 TString ;;; Ok TBoolean
  else if str_eqb name (js "tier") then
    require_arg args 0 TString ;;; require_arg args 1 TNumber ;;; Ok TNumber
  else if includes_str TIME_FUNCTIONS name then Ok TNumber
  else if includes_str number_functions name then
    ofold (fun _ arg => requireType arg TNumber) tt args ;;; Ok TNumber
  else Ok TDynamic.

Definition node_type (n : node) : R ExpressionType :=
  match n with
  | Literal v _ _ _ =>
      Ok (match v with
          | LNull => TNil | LNum _ => TNumber | LStr _ => TString | LBool _ => TBoolean
          end)
  | Variable_ _ _ _ => Ok TNumber
  | Unary operator operand _ _ =>
      let result := if str_eqb operator (js "!") then TBoolean else TNumber in
      requireType operand result ;;; Ok result
  | Conditional condition yes no _ _ =>
      requireType condition TBoolean ;;;
      Ok (if bool_decide (types_get types yes = types_get types no)
          then default TDynamic (types_get types yes) else TDynamic)
  | Binary operator lhs rhs _ _ =>
      if includes_str logical_operators operator then
        requireType lhs TBoolean ;;; requireType rhs TBoolean ;;; Ok TBoolean
      else if includes_str comparison_operators operator then Ok TBoolean
      else if str_eqb operator (js "+")
              && bool_decide (types_get types lhs = Some TString)
              && bool_decide (types_get types rhs = Some TString) then Ok TString
      else requireType lhs TNumber ;;; requireType rhs TNumber ;;; Ok TNumber
  | Call name args _ _ => call_type name args
  end.

Definition type_visitor (n : node) : R type_map :=
  let* result := node_type n in Ok ((n, result) :: types).
End TypeVisitor.

Definition checkExpressionTypes (ast : node) : R type_map :=
  visitExpression type_visitor ast [].

(** ** Fixed prices *)

Definition containsPricingMarker (n : node) : R bool :=
  let* (_, calls) := expressionDependencies n in
  Ok (includes_str calls (js "tier") || includes_str calls (js "fixed")).

Definition find_rule (rules : list RuleSite) (factor : node) : option RuleSite :=
  List.find (fun candidate => node_eqb (rule_node candidate) factor) rules.

Definition is_image_count (n : node) : bool :=
  match n with Variable_ name _ _ => str_eqb name (js "image_count") | _ => false end.

(** A factor that may multiply a price: the image count, or a traced rule
    with a non-negative multiplier and a condition free of prices. *)
Definition multiplier_factor (rules : list RuleSite) (factor : node) : R bool :=
  if is_image_count factor then Ok true
  else
    match find_rule rules factor with
    | Some rule =>
        if num_leb num_zero (rule_multiplier rule) then
          let* marked := containsPricingMarker (rule_condition rule) in Ok (negb marked)
        else Ok false
    | None => Ok false
    end.

Definition million : num := lit 1000000.

(** [tier(name, fixed(amount))] with a literal amount, or a tier without
    price markers inside. *)
Definition valid_price_call (n : node) : R bool :=
  match n with
  | Call name args _ _ =>
      if negb (str_eqb name (js "tier")) then Ok false
      else
        match args with
        | label :: price :: _ =>
            let* marked := containsPricingMarker label in
            if marked then Ok false
            else
              match price with
              | Call pname pargs _ _ =>
                  if str_eqb pname (js "fixed") then
                    match pargs with
                    | Literal (LNum amount) _ _ _ :: _ =>
                        Ok (num_leb num_zero amount && is_finite (num_mul amount million))
                    | _ :: _ => Ok false
                    | [] => undefined_error
                    end
                  else let* m := containsPricingMarker price in Ok (negb m)
              | _ => let* m := containsPricingMarker price in Ok (negb m)
              end
        | [label] =>
            let* marked := containsPricingMarker label in
            if marked then Ok false else undefined_error
        | [] => undefined_error
        end
  | _ => Ok false
  end.

Definition fixed_pricing_error {A} (position : nat) : R A :=
  fail_at type_
    (js "Use tier(name, fixed(amount)) with a finite, non-negative numeric literal; combine pricing branches only with conditions and request multipliers.")
    position.

Fixpoint validateFixedPricingTree (rules : list RuleSite) (n : node) : R unit :=
  let leaf :=
    let* ok := valid_price_call n in
    if ok then Ok tt else fixed_pricing_error (node_start n) in
  match n with
  | Conditional condition yes no _ _ =>
      let* marked := containsPricingMarker condition in
      if marked then leaf
      else
        validateFixedPricingTree rules yes ;;;
        validateFixedPricingTree rules no
  | Binary operator lhs rhs _ _ =>
      if str_eqb operator (js "*") then
        let* right_factor := multiplier_factor rules rhs in
        if right_factor then validateFixedPricingTree rules lhs
        else
          let* left_factor := multiplier_factor rules lhs in
          if left_factor then validateFixedPricingTree rules rhs else leaf
      else leaf
  | _ => leaf
  end.

(** ** Compilation *)

Definition traced_functions : list str := [js "param"; js "header"] ++ TIME_FUNCTIONS.

(** [cond ? <number> : 1] whose condition probes the request or the time. *)
Definition rule_visitor (source : str) (rules : list RuleSite) (n : node)
  : R (list RuleSite) :=
  match n with
  | Conditional condition (Literal (LNum multiplier) _ _ _)
      (Literal (LNum fallback) _ _ _) _ _ =>
      if negb (num_eqb fallback (lit 1)) then Ok rules
      else
        let* (_, calls) := expressionDependencies condition in
        if existsb (includes_str traced_functions) calls then
          Ok (rules ++ [Rule n condition multiplier
                          (slice_nat source (node_start condition) (node_end condition))])
        else Ok rules
  | _ => Ok rules
  end.

(** The [try] block of [compileBillingExpression]. *)
Definition compile_body (source : str) : R CompiledBillingExpression :=
  let* ast := parse source in
  let* _ := checkExpressionTypes ast in
  let* (variables, functions) := expressionDependencies ast in
  let* rules := visitExpression (rule_visitor source) ast [] in
  (if includes_str functions (js "fixed") then validateFixedPricingTree rules ast
   else Ok tt) ;;;
  Ok (Compiled source ast variables functions rules).

Definition compile_uncached (source : str) : CompilationResult :=
  match compile_body source with
  | Ok c => Ready c
  | Throw e => Failed (expressionFailure e)
  | OutOfFuel => Failed (expressionFailure (OtherError (js "out of fuel")))
  end.

(** The module-level cache: entries in insertion order. *)
Abbreviation compiled_cache := (list (str * CompilationResult)).

Definition cache_limit : nat := 128.

Definition cache_store (cache : compiled_cache) (source : str) (result : CompilationResult)
  : compiled_cache :=
  (if cache_limit <=? length cache then tl cache else cache) ++ [(source, result)].

Definition compileBillingExpression (cache : compiled_cache) (source : str)
  : CompilationResult * compiled_cache :=
  match assoc_str cache source with
  | Some cached => (cached, cache)
  | None =>
      let result := compile_uncached source in
      (result, cache_store cache source result)
  end.
