(* ===== verification/ExprCompileFacts.v ===== *)
(** * Billing expressions: correctness of the compiler

    The dependency sets are exact, the static types satisfy their typing
    rules at every node, the request rules are exactly the traced
    conditionals of the AST, compilation is total, and the cache is
    transparent and bounded. *)

From Stdlib Require Import ZArith Lia Bool SpecFloat.
From stdpp Require Import base list sets numbers.
From S2P Require Import Prelude JsString JsNumber JsNumberFacts JsValue ExprTypes.
From S2P Require Import ExprParser ExprParserFacts ExprCompile.

(** ** Totality *)

Lemma ofold_fuel {A B} (f : A -> B -> R A) l : forall a,
  (forall a x, f a x <> OutOfFuel) -> ofold f a l <> OutOfFuel.
Proof.
  induction l as [|x l IH]; intros a Hf; simpl; [done|].
  apply bind_fuel; [apply Hf|]. intros a' _. by apply IH.
Qed.

Lemma visit_fuel {A} (visitor : A -> node -> R A) n acc :
  (forall a m, visitor a m <> OutOfFuel) -> visitExpression visitor n acc <> OutOfFuel.
Proof.
  intros Hv. rewrite visit_structural. generalize 0 at 1 as d. revert acc.
  induction n as [n IH] using node_children_ind. intros acc d.
  rewrite visit_rec_unfold. destruct (256 <? d); [done|].
  apply bind_fuel; [|intros; apply Hv].
  revert acc. induction (children n) as [|c l IHl]; intros acc; simpl; [done|].
  inversion IH; subst. apply bind_fuel; [auto|]. intros a _. by apply IHl.
Qed.

Lemma dependencies_fuel n : expressionDependencies n <> OutOfFuel.
Proof. apply visit_fuel. by intros [] []. Qed.

Lemma marker_fuel n : containsPricingMarker n <> OutOfFuel.
Proof. apply bind_fuel; [apply dependencies_fuel|]. by intros []. Qed.

Lemma requireType_fuel types c t : requireType types c t <> OutOfFuel.
Proof. unfold requireType. by destruct (_ || _). Qed.

Lemma require_arg_fuel types args i t : require_arg types args i t <> OutOfFuel.
Proof. unfold require_arg. destruct (args !! i); [apply requireType_fuel|done]. Qed.

Lemma type_visitor_fuel types n : type_visitor types n <> OutOfFuel.
Proof.
  apply bind_fuel; [|done].
  pose proof (requireType_fuel types) as Hr. pose proof (require_arg_fuel types) as Ha.
  destruct n as [| |f args s e|o a s e|o l r s e|c y n s e]; simpl; try done.
  - unfold call_type. apply bind_fuel.
    { destruct (includes_str _ f); [apply Ha|done]. }
    intros _ _. repeat case_match; try done; apply bind_fuel; try apply Ha; try done.
    + intros _ _. apply bind_fuel; [apply Ha|done].
    + apply ofold_fuel. intros; apply Hr.
  - apply bind_fuel; [apply Hr|done].
  - repeat case_match; try done; apply bind_fuel; try apply Hr;
      intros _ _; apply bind_fuel; try apply Hr; done.
  - apply bind_fuel; [apply Hr|done].
Qed.

Lemma rule_visitor_fuel source rules n : rule_visitor source rules n <> OutOfFuel.
Proof.
  unfold rule_visitor.
  destruct n as [| | | | |c [[|m| |] ? ? ?| | | | |] [[|k| |] ? ? ?| | | | |] s e]; try done.
  destruct (negb _); [done|]. apply bind_fuel; [apply dependencies_fuel|].
  intros [] _. by destruct (existsb _ _).
Qed.

Lemma multiplier_factor_fuel rules n : multiplier_factor rules n <> OutOfFuel.
Proof.
  unfold multiplier_factor. destruct (is_image_count n); [done|].
  destruct (find_rule rules n); [|done]. destruct (num_leb _ _); [|done].
  apply bind_fuel; [apply marker_fuel|done].
Qed.

Lemma valid_price_call_fuel n : valid_price_call n <> OutOfFuel.
Proof.
  unfold valid_price_call. destruct n as [| |f args s e| | |]; try done.
  destruct (negb _); [done|]. destruct args as [|label [|price args]]; [done|..];
    (apply bind_fuel; [apply marker_fuel|]); intros [] _; try done.
  destruct price as [| |pf pargs ? ?| | |];
    try (apply bind_fuel; [apply marker_fuel|done]).
  destruct (str_eqb pf (js "fixed")).
  - destruct pargs as [|[[]| | | | |] pargs]; done.
  - apply bind_fuel; [apply marker_fuel|done].
Qed.

Lemma validate_fuel rules n : validateFixedPricingTree rules n <> OutOfFuel.
Proof.
  assert (forall m : node,
    obind (valid_price_call m)
      (fun ok : bool => if ok then @Ok exn unit tt else fixed_pricing_error (node_start m))
    <> OutOfFuel) as Hleaf.
  { intros m. apply bind_fuel; [apply valid_price_call_fuel|]. by intros []. }
  induction n as [| | | |o l r s e IHl IHr|c y n s e IHc IHy IHn] using node_ind;
    cbn [validateFixedPricingTree]; try apply Hleaf.
  - destruct (str_eqb o (js "*")); [|apply Hleaf].
    apply bind_fuel; [apply multiplier_factor_fuel|]. intros [] _; [done|].
    apply bind_fuel; [apply multiplier_factor_fuel|]. intros [] _; [done|].
    apply (Hleaf (Binary o l r s e)).
  - apply bind_fuel; [apply marker_fuel|]. intros [] _.
    + apply (Hleaf (Conditional c y n s e)).
    + apply bind_fuel; done.
Qed.

Lemma compile_body_total source : compile_body source <> OutOfFuel.
Proof.
  unfold compile_body. apply bind_fuel; [apply parse_total|]. intros ast _.
  apply bind_fuel; [apply visit_fuel; intros; apply type_visitor_fuel|]. intros types _.
  apply bind_fuel; [apply dependencies_fuel|]. intros [vs fs] _.
  apply bind_fuel; [apply visit_fuel; intros; apply rule_visitor_fuel|]. intros rules _.
  apply bind_fuel; [|done]. destruct (includes_str fs _); [apply validate_fuel|done].
Qed.

(** ** Dependencies *)

Lemma set_add_elem s x y : y ∈ set_add s x <-> y ∈ s \/ y = x.
Proof.
  unfold set_add. destruct (includes_str s x) eqn:E.
  - apply includes_str_elem in E. split; [by left|]. by intros [?| ->].
  - rewrite elem_of_app, list_elem_of_singleton. done.
Qed.

Definition uses_variable (l : list node) (x : str) : Prop :=
  exists s e, Variable_ x s e ∈ l.
Definition uses_function (l : list node) (f : str) : Prop :=
  exists args s e, Call f args s e ∈ l.

Lemma dependency_fold l : forall vs fs vs' fs',
  ofold dependency_visitor (vs, fs) l = Ok (vs', fs') ->
  (forall x, x ∈ vs' <-> x ∈ vs \/ uses_variable l x) /\
  (forall f, f ∈ fs' <-> f ∈ fs \/ uses_function l f).
Proof.
  induction l as [|n l IH]; intros vs fs vs' fs' H; cbn [ofold] in H.
  - injection H as <- <-. unfold uses_variable, uses_function.
    split; intros; split; auto; intros [?|H]; auto;
      repeat destruct H as [? H]; by apply not_elem_of_nil in H.
  - unfold uses_variable, uses_function in *.
    assert (exists vs1 fs1, dependency_visitor (vs, fs) n = Ok (vs1, fs1) /\
      (forall x, x ∈ vs1 <-> x ∈ vs \/ exists s e, n = Variable_ x s e) /\
      (forall f, f ∈ fs1 <-> f ∈ fs \/ exists args s e, n = Call f args s e))
      as (vs1 & fs1 & Hn & Hv & Hf).
    { clear IH H. destruct n; simpl; do 2 eexists; (split; [reflexivity|]);
        (split; intros; rewrite ?set_add_elem); naive_solver. }
    rewrite Hn in H. simpl in H. apply IH in H as [Hv' Hf'].
    split; intros z.
    + rewrite Hv', Hv. setoid_rewrite elem_of_cons. naive_solver.
    + rewrite Hf', Hf. setoid_rewrite elem_of_cons. naive_solver.
Qed.

Lemma dependencies_spec n vs fs :
  expressionDependencies n = Ok (vs, fs) ->
  (forall x, x ∈ vs <-> uses_variable (postorder n) x) /\
  (forall f, f ∈ fs <-> uses_function (postorder n) f).
Proof.
  unfold expressionDependencies. rewrite visit_structural. intros H.
  apply visit_rec_postorder, dependency_fold in H as [Hv Hf].
  split; intros; rewrite ?Hv, ?Hf; set_solver.
Qed.

(** ** Typing *)

Definition static_literal (v : literal_value) : ExpressionType :=
  match v with
  | LNull => TNil | LNum _ => TNumber | LStr _ => TString | LBool _ => TBoolean
  end.

Definition static_call (f : str) : ExpressionType :=
  if str_eqb f (js "header") then TString
  else if str_eqb f (js "has") then TBoolean
  else if str_eqb f (js "tier") then TNumber
  else if includes_str TIME_FUNCTIONS f then TNumber
  else if includes_str number_functions f then TNumber
  else TDynamic.

(** The type the checker assigns to a node, read off its structure. *)
Fixpoint static_type (n : node) : ExpressionType :=
  match n with
  | Literal v _ _ _ => static_literal v
  | Variable_ _ _ _ => TNumber
  | Call f _ _ _ => static_call f
  | Unary o _ _ _ => if str_eqb o (js "!") then TBoolean else TNumber
  | Binary o l r _ _ =>
      if includes_str logical_operators o then TBoolean
      else if includes_str comparison_operators o then TBoolean
      else if str_eqb o (js "+") && bool_decide (static_type l = TString)
              && bool_decide (static_type r = TString) then TString
      else TNumber
  | Conditional _ y n _ _ =>
      if bool_decide (static_type y = static_type n) then static_type y else TDynamic
  end.

Definition accepts (t : ExpressionType) (n : node) : Prop :=
  static_type n = t \/ static_type n = TDynamic.

Definition arg_accepts (t : ExpressionType) (args : list node) (i : nat) : Prop :=
  exists a, args !! i = Some a /\ accepts t a.

(** The typing rule of one node. *)
Definition typed_node (n : node) : Prop :=
  match n with
  | Literal _ _ _ _ | Variable_ _ _ _ => True
  | Unary o a _ _ => accepts (if str_eqb o (js "!") then TBoolean else TNumber) a
  | Conditional c _ _ _ _ => accepts TBoolean c
  | Binary o l r _ _ =>
      if includes_str logical_operators o then accepts TBoolean l /\ accepts TBoolean r
      else if includes_str comparison_operators o then True
      else (static_type n = TString /\ static_type l = TString /\ static_type r = TString)
           \/ (static_type n = TNumber /\ accepts TNumber l /\ accepts TNumber r)
  | Call f args _ _ =>
      (includes_str string_argument_functions f = true -> arg_accepts TString args 0) /\
      (f = js "has" -> arg_accepts TString args 1) /\
      (f = js "tier" -> arg_accepts TString args 0 /\ arg_accepts TNumber args 1) /\
      (includes_str number_functions f = true -> Forall (accepts TNumber) args)
  end.

Definition well_typed (n : node) : Prop := Forall typed_node (postorder n).

(** The map built so far holds the static types of the nodes seen so far. *)
Definition types_ok (types : type_map) : Prop :=
  forall n t, types_get types n = Some t -> t = static_type n.

Lemma types_get_elem types n t : types_get types n = Some t -> (n, t) ∈ types.
Proof.
  induction types as [|[m u] types IH]; simpl; [done|].
  destruct (node_eqb m n) eqn:E.
  - apply node_eqb_eq in E. intros [= ->]. subst. by left.
  - intros H. right. by apply IH.
Qed.

Lemma requireType_ok types c t :
  types_ok types -> requireType types c t = Ok tt -> accepts t c.
Proof.
  unfold requireType, accepts. intros Hok H.
  destruct (_ || _) eqn:E; [|done]. apply orb_true_iff in E.
  destruct E as [E|E]; apply bool_decide_eq_true in E; apply Hok in E; auto.
Qed.

Lemma require_arg_ok types args i t :
  types_ok types -> require_arg types args i t = Ok tt -> arg_accepts t args i.
Proof.
  unfold require_arg. intros Hok H. destruct (args !! i) as [a|] eqn:E; [|done].
  exists a. split; [done|]. by eapply requireType_ok.
Qed.

Lemma call_type_ok types f args t :
  types_ok types -> call_type types f args = Ok t ->
  t = static_call f /\ forall s e, typed_node (Call f args s e).
Proof.
  intros Hok H. unfold call_type in H. inv_bind. destruct a. unfold static_call.
  assert (includes_str string_argument_functions f = true -> arg_accepts TString args 0) as H0.
  { intros Hin. rewrite Hin in E. by eapply require_arg_ok. }
  destruct (str_eqb f (js "header")) eqn:E1.
  { apply str_eqb_eq in E1 as ->. inv_bind. split; [done|]. intros.
    split_and!; [done|by vm_compute..]. }
  destruct (str_eqb f (js "has")) eqn:E2.
  { apply str_eqb_eq in E2 as ->. inv_bind. destruct a. split; [done|]. intros.
    split_and!; [done|..].
    - intros _. by eapply require_arg_ok.
    - by vm_compute.
    - by vm_compute. }
  destruct (str_eqb f (js "tier")) eqn:E3.
  { apply str_eqb_eq in E3 as ->. inv_bind. destruct a, a0. split; [done|]. intros.
    split_and!; [done|by vm_compute| |by vm_compute].
    intros _. split; by eapply require_arg_ok. }
  apply str_eqb_neq in E2, E3.
  destruct (includes_str TIME_FUNCTIONS f) eqn:E4.
  { inv_bind. split; [done|]. intros. split_and!; [done..|].
    apply includes_str_elem in E4. unfold TIME_FUNCTIONS in E4.
    intros Hx. apply includes_str_elem in Hx. set_unfold.
    repeat destruct E4 as [->|E4]; try done;
      repeat destruct Hx as [Hx|Hx]; by vm_compute in Hx. }
  destruct (includes_str number_functions f) eqn:E5.
  - inv_bind. destruct a. split; [done|]. intros. split_and!; [done..|].
    intros _. clear - Hok E0. induction args as [|a args IH]; [constructor|].
    simpl in E0. inv_bind. destruct a0. constructor; [by eapply requireType_ok|].
    by apply IH.
  - inv_bind. split; [done|]. intros. split_and!; [done..|]. by rewrite E5.
Qed.

Lemma bool_decide_Some (a b : ExpressionType) :
  bool_decide (Some a = Some b) = bool_decide (a = b).
Proof. apply bool_decide_ext. split; congruence. Qed.

Lemma node_type_ok types n t :
  types_ok types ->
  (forall c, c ∈ children n -> types_get types c = Some (static_type c)) ->
  node_type types n = Ok t -> t = static_type n /\ typed_node n.
Proof.
  intros Hok Hcs H.
  destruct n as [v i s e|x s e|f args s e|o a s e|o l r s e|c y n s e]; simpl in H.
  - by inv_bind.
  - by inv_bind.
  - apply call_type_ok in H as [-> H]; [|done]. split; [done|apply H].
  - inv_bind. destruct a0. split; [done|]. simpl. by eapply requireType_ok.
  - simpl. rewrite (Hcs l), (Hcs r) in H by (simpl; set_solver).
    destruct (includes_str logical_operators o).
    { inv_bind. destruct a, a0. split; [done|]. split; by eapply requireType_ok. }
    destruct (includes_str comparison_operators o); [by inv_bind|].
    rewrite !bool_decide_Some in H.
    destruct (str_eqb o (js "+") && _ && _) eqn:Eb.
    { inv_bind. split; [done|]. left. apply andb_true_iff in Eb as [Eb ?].
      apply andb_true_iff in Eb as [_ ?]. by split_andb. }
    inv_bind. destruct a, a0. split; [done|]. right.
    split; [done|]. split; by eapply requireType_ok.
  - inv_bind. destruct a. simpl.
    rewrite (Hcs y), (Hcs n) by (simpl; set_solver).
    rewrite bool_decide_Some.
    split; [done|]. by eapply requireType_ok.
Qed.

Lemma types_get_cons_ok types n m :
  types_get ((n, static_type n) :: types) m =
  (if node_eqb n m then Some (static_type m) else types_get types m).
Proof.
  simpl. destruct (node_eqb n m) eqn:E; [|done]. apply node_eqb_eq in E. by subst.
Qed.

(** Visiting a subtree types all of it and forgets nothing. *)
Lemma type_visit n : forall d types types',
  types_ok types -> visit_rec type_visitor d n types = Ok types' ->
  types_ok types' /\ types_get types' n = Some (static_type n) /\ well_typed n /\
  (forall m t, types_get types m = Some t -> is_Some (types_get types' m)).
Proof.
  induction n as [n IH] using node_children_ind. intros d types types' Hok H.
  rewrite visit_rec_unfold in H. destruct (256 <? d); [done|].
  destruct (ofold _ types (children n)) as [types1| |] eqn:E; simpl in H; try done.
  assert (types_ok types1 /\ Forall well_typed (children n) /\
          (forall c, c ∈ children n -> types_get types1 c = Some (static_type c)) /\
          (forall m t, types_get types m = Some t -> is_Some (types_get types1 m)))
    as (Hok1 & Hwt & Hcs & Hkeep).
  { clear H. revert types Hok E.
    induction (children n) as [|c l IHl]; intros types Hok E; simpl in E.
    - injection E as <-. split_and!; [done|constructor|set_solver|by eauto].
    - inversion IH as [|? ? Hc Hl]; subst.
      destruct (visit_rec type_visitor (S d) c types) as [types2| |] eqn:E2;
        simpl in E; try done.
      apply Hc in E2 as (Hok2 & Hget2 & Hw2 & Hkeep2); [|done].
      apply IHl in E as (Hok3 & Hw3 & Hget3 & Hkeep3); [|done..].
      split_and!; [done|by constructor| |].
      + intros c' Hc'. apply elem_of_cons in Hc' as [->|Hc']; [|by apply Hget3].
        destruct (Hkeep3 c _ Hget2) as [t Ht]. by rewrite Ht, (Hok3 _ _ Ht).
      + intros m t Hm. destruct (Hkeep2 m t Hm) as [t' Ht']. by eapply Hkeep3. }
  unfold type_visitor in H. inv_bind.
  apply node_type_ok in E0 as [-> Htyped]; [|done..].
  assert (forall m, types_get ((n, static_type n) :: types1) m =
    (if node_eqb n m then Some (static_type m) else types_get types1 m)) as Hget
    by (intros; apply types_get_cons_ok).
  split_and!.
  - intros m t. rewrite Hget. destruct (node_eqb n m); [congruence|apply Hok1].
  - by rewrite Hget, node_eqb_refl.
  - unfold well_typed. rewrite postorder_children, Forall_app, Forall_concat_map.
    split; [done|]. by constructor.
  - intros m t Hm. rewrite Hget. destruct (node_eqb n m); [by eexists|by eapply Hkeep].
Qed.

Lemma check_types_ok ast types :
  checkExpressionTypes ast = Ok types -> well_typed ast.
Proof.
  unfold checkExpressionTypes. rewrite visit_structural. intros H.
  by apply type_visit in H as (_ & _ & ? & _).
Qed.

(** ** Request rules *)

Definition calls_any (names : list str) (n : node) : bool :=
  match n with Call f _ _ _ => includes_str names f | _ => false end.

(** The rule a node gives rise to, if it is a traced conditional. *)
Definition traced_rule (source : str) (n : node) : option RuleSite :=
  match n with
  | Conditional condition (Literal (LNum multiplier) _ _ _)
      (Literal (LNum fallback) _ _ _) _ _ =>
      if num_eqb fallback (lit 1)
         && existsb (calls_any traced_functions) (postorder condition)
      then Some (Rule n condition multiplier
                   (slice_nat source (node_start condition) (node_end condition)))
      else None
  | _ => None
  end.

Lemma existsb_dependencies names n vs fs :
  expressionDependencies n = Ok (vs, fs) ->
  existsb (includes_str names) fs = existsb (calls_any names) (postorder n).
Proof.
  intros H. apply dependencies_spec in H as [_ Hf].
  apply eq_true_iff_eq. rewrite !existsb_exists. split.
  - intros (f & Hin & Hn). apply list_elem_of_In, Hf in Hin as (args & s & e & Hin).
    exists (Call f args s e). split; [by apply list_elem_of_In|done].
  - intros (m & Hin & Hm). destruct m as [| |f args s e| | |]; try done.
    exists f. split; [|done]. apply list_elem_of_In, Hf.
    exists args, s, e. by apply list_elem_of_In.
Qed.

Lemma rule_visitor_spec source rules n rules' :
  rule_visitor source rules n = Ok rules' ->
  rules' = rules ++ (match traced_rule source n with Some r => [r] | None => [] end).
Proof.
  unfold rule_visitor, traced_rule. intros H.
  destruct n as [| | | | |c [[|m| |] ? ? ?| | | | |] [[|k| |] ? ? ?| | | | |] s e];
    try (injection H as <-; by rewrite app_nil_r).
  destruct (num_eqb k (lit 1)); simpl in H |- *;
    [|injection H as <-; by rewrite app_nil_r].
  destruct (expressionDependencies c) as [[vs fs]| |] eqn:E; simpl in H; try done.
  rewrite (existsb_dependencies _ _ _ _ E) in H.
  destruct (existsb _ _); injection H as <-; [done|by rewrite app_nil_r].
Qed.

Lemma rules_fold source l : forall rules rules',
  ofold (rule_visitor source) rules l = Ok rules' ->
  rules' = rules ++ omap (traced_rule source) l.
Proof.
  induction l as [|n l IH]; intros rules rules' H; cbn [ofold] in H.
  - injection H as <-. by rewrite app_nil_r.
  - destruct (rule_visitor source rules n) as [rules1| |] eqn:E; simpl in H; try done.
    apply rule_visitor_spec in E as ->. apply IH in H as ->.
    rewrite <- app_assoc. f_equal. simpl. by destruct (traced_rule source n).
Qed.

(** What a compiled expression promises to its clients. *)
Record compiled_ok (c : CompiledBillingExpression) : Prop := CompiledOk {
  co_wf : wf (compiled_ast c);
  co_bounds : node_end (compiled_ast c) <= length (compiled_source c);
  co_typed : well_typed (compiled_ast c);
  co_variables : forall x,
    x ∈ compiled_variables c <-> uses_variable (postorder (compiled_ast c)) x;
  co_functions : forall f,
    f ∈ compiled_functions c <-> uses_function (postorder (compiled_ast c)) f;
  co_rules : compiled_requestRules c
             = omap (traced_rule (compiled_source c)) (postorder (compiled_ast c))
}.

Lemma compile_body_ok source c :
  compile_body source = Ok c -> compiled_source c = source /\ compiled_ok c.
Proof.
  unfold compile_body. intros H. inv_bind. split; [done|].
  apply parse_ok in E as [Hw Hb]. apply check_types_ok in E0.
  apply dependencies_spec in E1 as [Hv Hf]. rewrite visit_structural in E2.
  apply visit_rec_postorder, rules_fold in E2.
  by constructor.
Qed.

Lemma compile_uncached_ok source c :
  compile_uncached source = Ready c -> compiled_source c = source /\ compiled_ok c.
Proof.
  unfold compile_uncached. destruct (compile_body source) eqn:E; try done.
  intros [= <-]. by apply compile_body_ok.
Qed.

Lemma find_rule_traced source ast n r :
  n ∈ postorder ast -> traced_rule source n = Some r ->
  find_rule (omap (traced_rule source) (postorder ast)) n = Some r.
Proof.
  intros Hin Hr. unfold find_rule. induction (postorder ast) as [|m l IH].
  { by apply not_elem_of_nil in Hin. }
  simpl. destruct (traced_rule source m) as [r'|] eqn:Em.
  - simpl. assert (rule_node r' = m) as Hm.
    { unfold traced_rule in Em. repeat case_match; try done. by injection Em as <-. }
    rewrite Hm. destruct (node_eqb m n) eqn:E.
    + apply node_eqb_eq in E. subst. congruence.
    + apply IH. apply elem_of_cons in Hin as [->|]; [by rewrite node_eqb_refl in E|done].
  - apply IH. apply elem_of_cons in Hin as [->|]; [congruence|done].
Qed.

(** ** The cache *)

Record cache_ok (cache : compiled_cache) : Prop := CacheOk {
  cache_entries : forall s r, (s, r) ∈ cache -> r = compile_uncached s;
  cache_keys : NoDup (map fst cache);
  cache_size : length cache <= cache_limit
}.

Lemma cache_ok_empty : cache_ok [].
Proof. constructor; simpl; [set_solver|constructor|lia]. Qed.

Lemma assoc_str_None {A} (l : list (str * A)) k :
  assoc_str l k = None -> k ∉ map fst l.
Proof.
  induction l as [|[k' v] l IH]; simpl; [set_solver|].
  destruct (str_eqb k' k) eqn:E; [done|]. apply str_eqb_neq in E.
  intros H%IH. set_solver.
Qed.

Lemma cache_store_ok cache source :
  cache_ok cache -> source ∉ map fst cache ->
  cache_ok (cache_store cache source (compile_uncached source)).
Proof.
  intros [He Hk Hs] Hnew. unfold cache_store.
  set (kept := if cache_limit <=? length cache then tl cache else cache).
  assert (forall en, en ∈ kept -> en ∈ cache) as Hsub.
  { unfold kept. destruct (cache_limit <=? length cache); [|done].
    destruct cache; simpl; [done|]. intros en Hp. by right. }
  assert (NoDup (map fst kept)) as Hnd.
  { unfold kept. destruct (cache_limit <=? length cache); [|done].
    destruct cache; simpl in *; [done|]. by inversion Hk. }
  assert (length kept < cache_limit) as Hlen.
  { unfold kept. destruct (Nat.leb_spec cache_limit (length cache)); [|done].
    destruct cache; simpl in *; unfold cache_limit in *; lia. }
  constructor.
  - intros s r Hin. apply elem_of_app in Hin as [Hin|Hin]; [by apply He, Hsub|].
    apply list_elem_of_singleton in Hin. by injection Hin as -> ->.
  - rewrite map_app. apply list.NoDup_app. split; [done|]. split; [|apply NoDup_singleton].
    intros k Hin Hk'. simpl in Hk'. apply list_elem_of_singleton in Hk' as ->.
    apply Hnew. apply list_elem_of_In, in_map_iff in Hin as ((k, r) & Hkr & Hin).
    simpl in Hkr. subst. apply list_elem_of_In, in_map_iff.
    exists (source, r). split; [done|].
    apply list_elem_of_In, Hsub. by apply list_elem_of_In.
  - rewrite length_app. simpl. lia.
Qed.

Lemma compile_cached cache source :
  cache_ok cache ->
  fst (compileBillingExpression cache source) = compile_uncached source /\
  cache_ok (snd (compileBillingExpression cache source)).
Proof.
  intros Hc. unfold compileBillingExpression.
  destruct (assoc_str cache source) as [r|] eqn:E; simpl.
  - split; [|done]. by apply (cache_entries _ Hc), assoc_str_elem.
  - split; [done|]. apply cache_store_ok; [done|]. by apply assoc_str_None.
Qed.
