(* ===== verification/ExprRuntime.v ===== *)
(** * Billing expressions: the runtime

    Models [features/pricing/lib/billing-expression/runtime.ts]: request
    paths, the Go rendering of JSON values, billing time zones, and the
    [BillingRuntime] class with its mutable fields as explicit state. *)

From Stdlib Require Import ZArith Lia Bool SpecFloat.
From stdpp Require Import base list numbers.
From S2P Require Import Prelude JsString JsNumber JsValue JsHost.
From S2P Require Import ExprTypes ExprParser ExprCompile.

(** ** Request paths *)

Definition path_special : str := js "*?[]()|@!".

(** The character loop of [readRequestPath]: [part] and [parts] are the
    loop's variables, [path] is kept for the diagnostics. *)
Fixpoint split_path (path : str) (parts : list str) (part s : str) : R (list str) :=
  match s with
  | [] => Ok (parts ++ [part])
  | char :: rest =>
      if (char =? 92)%N then
        match rest with
        | [] => fail unsupported path
        | escaped :: rest' => split_path path parts (part ++ [escaped]) rest'
        end
      else if (char =? 46)%N then split_path path (parts ++ [part]) [] rest
      else if bool_decide (char ∈ path_special) then fail unsupported path
      else split_path path parts (part ++ [char]) rest
  end.

(** [value[index]] on an array, for a safe integer index. *)
Definition array_get (items : list jsval) (key : str) : jsval :=
  let index := js_Number key in
  if is_safe_integer index then
    match num_to_Z index with
    | Some i =>
        if (i <? Z.of_nat (length items))%Z
        then default JUndefined (items !! Z.to_nat i) else JUndefined
    | None => JUndefined
    end
  else JUndefined.

Definition is_index (key : str) : bool :=
  match key with [] => false | _ => forallb is_digit key end.

(** The loop over the path's parts. *)
Fixpoint walk_path (path : str) (parts : list str) (value : jsval) : R jsval :=
  match parts with
  | [] => Ok (if is_nullish value then JNull else value)
  | key :: rest =>
      match value with
      | JArr items =>
          if str_eqb key (js "#") then
            match rest with
            | [] => Ok (JNum (num_of_Z (Z.of_nat (length items))))
            | _ => fail unsupported path
            end
          else if negb (is_index key) then Ok JNull
          else walk_path path rest (array_get items key)
      | JObj fields =>
          match assoc_str fields key with
          | Some v => walk_path path rest v
          | None => Ok JNull
          end
      | _ => Ok JNull
      end
  end.

Definition readRequestPath (body : jsval) (rawPath : str) : R jsval :=
  let path := trim rawPath in
  match path with
  | [] => Ok JNull
  | _ =>
      let* parts := split_path path [] [] path in
      walk_path path parts body
  end.

(** ** The Go rendering of a JSON value *)

(** [entries.sort(([a], [b]) => a < b ? -1 : Number(a > b))]: a stable sort. *)
Fixpoint insert_entry {A} (e : str * A) (l : list (str * A)) : list (str * A) :=
  match l with
  | [] => [e]
  | x :: l' => if str_ltb (fst x) (fst e) then x :: insert_entry e l' else e :: l
  end.
Fixpoint sort_entries {A} (l : list (str * A)) : list (str * A) :=
  match l with
  | [] => []
  | e :: l' => insert_entry e (sort_entries l')
  end.

Definition bool_text (b : bool) : str := if b then js "true" else js "false".

Definition exponent_text (e : Z) : str :=
  (if (e <? 0)%Z then js "-" else js "+") ++ pad_start 2 48%N (string_of_N (Z.abs_N e)).

Definition go_number (value : num) : R str :=
  if negb (is_finite value) then fail number_ (js "request number")
  else
    match value with
    | S754_zero true => Ok (js "-0")
    | _ =>
        match to_exponential value with
        | Some (mantissa, exponent) =>
            if (6 <=? exponent)%Z || (exponent <? -4)%Z
            then Ok (mantissa ++ js "e" ++ exponent_text exponent)
            else Ok (string_of_num value)
        | None => Ok (string_of_num value)
        end
    end.

(** [levels] is [129 - depth]: the guard [depth > 128] is [levels = 0]. *)
Fixpoint billing_string (levels : nat) (value : jsval) : R str :=
  match levels with
  | O => fail limit_ (js "request value depth")
  | S levels' =>
      match value with
      | JUndefined | JNull => Ok (js "<nil>")
      | JArr items =>
          let* texts := omap_list (billing_string levels') items in
          Ok (js "[" ++ join (js " ") texts ++ js "]")
      | JObj fields =>
          let* texts :=
            omap_list (fun '(key, item) =>
                         let* text := billing_string levels' item in
                         Ok (key ++ js ":" ++ text)) (sort_entries fields) in
          Ok (js "map[" ++ join (js " ") texts ++ js "]")
      | JNum n => go_number n
      | JStr s => Ok s
      | JBool b => Ok (bool_text b)
      end
  end.

Definition billingString (value : jsval) : R str := billing_string 129 value.

(** ** Time in a billing zone *)

Record TimeRecord := MkTime {
  t_hour : num; t_minute : num; t_weekday : num; t_month : num; t_day : num
}.

Definition time_field (name : str) (t : TimeRecord) : num :=
  if str_eqb name (js "hour") then t_hour t
  else if str_eqb name (js "minute") then t_minute t
  else if str_eqb name (js "weekday") then t_weekday t
  else if str_eqb name (js "month") then t_month t
  else t_day t.

Definition zone_unit (c : N) : bool :=
  is_alpha c || is_digit c || (c =? 95)%N || (c =? 43)%N || (c =? 45)%N.
Definition zone_segment (s : str) : bool :=
  match s with
  | [] => false
  | c :: rest => in_range 65 90 c && forallb zone_unit rest
  end.

(** The regular expression for IANA names: segments joined by slashes. *)
Definition zone_name (zone : str) : bool := forallb zone_segment (split_char 47 zone).

Definition weekday_names : list str :=
  [js "Sun"; js "Mon"; js "Tue"; js "Wed"; js "Thu"; js "Fri"; js "Sat"].

Fixpoint index_of (l : list str) (s : str) (i : Z) : Z :=
  match l with
  | [] => (-1)%Z
  | x :: l' => if str_eqb x s then i else index_of l' s (i + 1)%Z
  end.

(** [Object.fromEntries(parts)[key]]: the last entry wins. *)
Definition from_entries (parts : list (str * str)) (key : str) : option str :=
  assoc_str (reverse parts) key.

(** [Number(parts[key])]; [Number(undefined)] is NaN. *)
Definition part_number (parts : list (str * str)) (key : str) : num :=
  match from_entries parts key with
  | Some text => js_Number text
  | None => S754_nan
  end.

Definition utc_time (t : Z) : TimeRecord :=
  MkTime (num_of_Z (getUTCHours t)) (num_of_Z (getUTCMinutes t)) (num_of_Z (getUTCDay t))
    (num_of_Z (getUTCMonth t + 1)) (num_of_Z (getUTCDate t)).

Definition formatter_time (f : Formatter) (t : Z) : TimeRecord :=
  let parts := formatToParts f t in
  MkTime (part_number parts (js "hour")) (part_number parts (js "minute"))
    (num_of_Z (match from_entries parts (js "weekday") with
               | Some d => index_of weekday_names d 0
               | None => -1
               end))
    (part_number parts (js "month")) (part_number parts (js "day")).

Section Zone.
Context `{JSHost}.

(** The [try] block: [None] when it throws. *)
Definition zone_formatter (timezone : str) : option Formatter :=
  if negb (zone_name timezone) then None
  else
    match DateTimeFormat timezone with
    | None => None
    | Some formatter =>
        let resolved := resolved_timeZone formatter in
        if str_eqb (toLowerCase resolved) (toLowerCase timezone)
           && negb (str_eqb resolved timezone)
        then None else Some formatter
    end.

Definition timeInBillingZone (now : Date) (zone : str) : R TimeRecord :=
  match now with
  | None => fail type_ (js "simulation time")
  | Some t =>
      let timezone := match trim zone with [] => js "UTC" | z => z end in
      if str_eqb timezone (js "Local") then fail unsupported (js "server Local timezone")
      else
        match zone_formatter timezone with
        | None => Ok (utc_time t)
        | Some f => Ok (formatter_time f t)
        end
  end.
End Zone.

(** ** The simulation context *)

Record Request := MkRequest {
  req_body : jsval;
  req_headers : option (list (str * jsval))
}.

Record BillingSimulationContext := MkContext {
  ctx_imageCount : option num;
  ctx_tokens : option (list (str * jsval));
  ctx_request : option Request;
  ctx_usage : option (list (str * jsval));
  ctx_now : option Date
}.

Definition empty_context : BillingSimulationContext := MkContext None None None None None.

Record RuntimeValue := RV { rv_value : jsval; rv_integer : option bool }.
Definition plain (v : jsval) : RuntimeValue := RV v None.

(** The fields of [BillingRuntime] that change during an evaluation; the map
    [timeValues] holds its latest entry first. *)
Record rt_state := RtState {
  rt_matchedTier : str;
  rt_billingUnit : BillingUnit;
  rt_fixedPrice : option num;
  rt_timeValues : list (str * TimeRecord);
  rt_requestRules : list BillingRequestRule
}.

Definition set_fixed (amount : num) (st : rt_state) : rt_state :=
  RtState (rt_matchedTier st) unit_request (Some amount) (rt_timeValues st) (rt_requestRules st).
Definition set_tier (name : str) (st : rt_state) : rt_state :=
  RtState name (rt_billingUnit st) (rt_fixedPrice st) (rt_timeValues st) (rt_requestRules st).
Definition set_times (times : list (str * TimeRecord)) (st : rt_state) : rt_state :=
  RtState (rt_matchedTier st) (rt_billingUnit st) (rt_fixedPrice st) times (rt_requestRules st).
Definition mark_rule (r : BillingRequestRule) : BillingRequestRule :=
  RequestRule (rr_cond r) (rr_multiplier r) true.
Definition set_matched (i : nat) (st : rt_state) : rt_state :=
  RtState (rt_matchedTier st) (rt_billingUnit st) (rt_fixedPrice st) (rt_timeValues st)
    (alter mark_rule i (rt_requestRules st)).

(** A computation of the runtime: it may throw, and it updates the fields. *)
Definition M (A : Type) : Type := rt_state -> R (A * rt_state).
Definition ret {A} (a : A) : M A := fun st => Ok (a, st).
Definition lift {A} (r : R A) : M A := fun st => let* a := r in Ok (a, st).
Definition m_bind {A B} (m : M A) (k : A -> M B) : M B :=
  fun st => let* (a, st') := m st in k a st'.
Definition modify (f : rt_state -> rt_state) : M unit := fun st => Ok (tt, f st).

Notation "'do*' x ':=' m 'in' k" := (m_bind m (fun x => k))
  (at level 200, x pattern, m at level 100, k at level 200, right associativity)
  : js_scope.

Fixpoint find_index (l : list RuleSite) (n : node) (i : nat) : option nat :=
  match l with
  | [] => None
  | r :: l' => if node_eqb (rule_node r) n then Some i else find_index l' n (S i)
  end.

Definition literal_jsval (v : literal_value) : jsval :=
  match v with LStr s => JStr s | LNum n => JNum n | LBool b => JBool b | LNull => JNull end.

(** The results of [boolean], [numeric] and [string] from the value of the
    operand at position [pos]. *)
Definition as_boolean (pos : nat) (r : RuntimeValue) : R bool :=
  match rv_value r with
  | JBool b => Ok b
  | _ => fail_at type_ (js "boolean condition") pos
  end.
Definition as_numeric (pos : nat) (r : RuntimeValue) : R (num * option bool) :=
  match rv_value r with
  | JNum n => Ok (n, rv_integer r)
  | _ => fail_at type_ (js "numeric operand") pos
  end.
Definition as_string (pos : nat) (r : RuntimeValue) : R str :=
  match rv_value r with
  | JStr s => Ok s
  | _ => fail_at type_ (js "string argument") pos
  end.

(** The checks [evaluate] makes on the value of a node. *)
Definition check_value (pos : nat) (r : RuntimeValue) : R RuntimeValue :=
  match rv_value r with
  | JNum n =>
      if negb (is_finite n) then fail_at number_ (js "non-finite result") pos
      else if bool_decide (rv_integer r = Some true) && negb (is_safe_integer n)
      then fail_at unsupported (js "integer precision") pos
      else Ok r
  | _ => Ok r
  end.

(** [binary] after both operands were evaluated: [a], [b] are their values. *)
Definition compare_values (operator : str) (a b : jsval) : option bool :=
  match a, b with
  | JNum x, JNum y =>
      if str_eqb operator (js "<") then Some (num_ltb x y)
      else if str_eqb operator (js "<=") then Some (num_leb x y)
      else if str_eqb operator (js ">") then Some (num_ltb y x)
      else if str_eqb operator (js ">=") then Some (num_leb y x)
      else None
  | JStr x, JStr y =>
      if str_eqb operator (js "<") then Some (str_ltb x y)
      else if str_eqb operator (js "<=") then Some (negb (str_ltb y x))
      else if str_eqb operator (js ">") then Some (str_ltb y x)
      else if str_eqb operator (js ">=") then Some (negb (str_ltb x y))
      else None
  | _, _ => None
  end.

Definition is_true_flag (i : option bool) : bool := default false i.

Definition arithmetic (operator : str) (pos : nat) (x y : num) (integer : bool)
  : R RuntimeValue :=
  if str_eqb operator (js "+") then Ok (RV (JNum (num_add x y)) (Some integer))
  else if str_eqb operator (js "-") then Ok (RV (JNum (num_sub x y)) (Some integer))
  else if str_eqb operator (js "*") then Ok (RV (JNum (num_mul x y)) (Some integer))
  else if str_eqb operator (js "/") then Ok (plain (JNum (num_div x y)))
  else if str_eqb operator (js "%") then
    if negb integer then fail_at type_ (js "integer modulo") pos
    else Ok (RV (JNum (num_rem x y)) (Some true))
  else fail_at unsupported operator pos.

Definition binary_values (operator : str) (pos : nat) (left_ right_ : RuntimeValue)
  : R RuntimeValue :=
  let a := rv_value left_ in
  let b := rv_value right_ in
  if str_eqb operator (js "==") || str_eqb operator (js "!=") then
    if negb (is_null a) && negb (is_null b) && (is_object a || is_object b)
    then fail_at unsupported (js "object comparison") pos
    else
      let equal := strict_eq_primitive a b in
      Ok (plain (JBool (if str_eqb operator (js "==") then equal else negb equal)))
  else
    let numbers :=
      match compare_values operator a b with
      | Some result => Ok (plain (JBool result))
      | None =>
          match a, b with
          | JNum x, JNum y =>
              arithmetic operator pos x y
                (is_true_flag (rv_integer left_) && is_true_flag (rv_integer right_))
          | _, _ => fail_at type_ operator pos
          end
      end in
    match a, b with
    | JStr x, JStr y =>
        if str_eqb operator (js "+") then Ok (plain (JStr (x ++ y))) else numbers
    | _, _ => numbers
    end.

(** ** The evaluator *)

Definition undefined_node {A} : M A :=
  lift (Throw (OtherError (js "Cannot read properties of undefined (reading 'kind')"))).

Section Runtime.
Context `{JSHost}.
Variable compiled : CompiledBillingExpression.
Variable context : BillingSimulationContext.
(** [this.now] and [this.headers], set by the constructor. *)
Variable now : Date.
Variable headers : list (str * str).

Definition variable_value (name : str) (pos : nat) : R RuntimeValue :=
  if str_eqb name (js "image_count") then
    let value := default (lit 1) (ctx_imageCount context) in
    if negb (is_integer value) || num_ltb value (lit 1) || num_ltb (lit 128) value
    then fail_at number_ (js "image_count must be between 1 and 128") pos
    else Ok (plain (JNum value))
  else
    match default JUndefined (assoc_str (default [] (ctx_tokens context)) name) with
    | JUndefined => fail_at missing_context name pos
    | JNum n => if num_ltb n num_zero then fail_at number_ name pos else Ok (plain (JNum n))
    | _ => fail_at number_ name pos
    end.

(** The time functions with the per-zone cache. *)
Definition time_values (zone : str) : M TimeRecord := fun st =>
  match assoc_str (rt_timeValues st) zone with
  | Some values => Ok (values, st)
  | None =>
      let* values := timeInBillingZone now zone in
      Ok (values, set_times ((zone, values) :: rt_timeValues st) st)
  end.

(** An argument of a call: its position and its evaluation. *)
Definition argument : Type := nat * M RuntimeValue.

Definition arg (args : list argument) (i : nat) : argument :=
  default (0, undefined_node) (args !! i).

Definition boolean_of (a : argument) : M bool :=
  do* r := snd a in lift (as_boolean (fst a) r).
Definition numeric_of (a : argument) : M (num * option bool) :=
  do* r := snd a in lift (as_numeric (fst a) r).
Definition string_of (a : argument) : M str :=
  do* r := snd a in lift (as_string (fst a) r).

Definition number_call (f : num -> num) (args : list argument) : M RuntimeValue :=
  do* (x, _) := numeric_of (arg args 0) in ret (plain (JNum (f x))).

Definition number_call2 (f : num -> num -> num) (args : list argument) : M RuntimeValue :=
  do* (x, _) := numeric_of (arg args 0) in
  do* (y, _) := numeric_of (arg args 1) in
  ret (plain (JNum (f x y))).

Definition call (name : str) (args : list argument) (pos : nat) : M RuntimeValue :=
  if str_eqb name (js "fixed") then
    do* (amount, _) := numeric_of (arg args 0) in
    do* _ := modify (set_fixed amount) in
    ret (plain (JNum (num_mul amount million)))
  else if str_eqb name (js "tier") then
    do* label := string_of (arg args 0) in
    do* (value, _) := numeric_of (arg args 1) in
    do* _ := modify (set_tier label) in
    ret (plain (JNum value))
  else if str_eqb name (js "param") then
    do* path := string_of (arg args 0) in
    match ctx_request context with
    | None => lift (fail_at missing_context (js "request body") pos)
    | Some request =>
        do* value := lift (readRequestPath (req_body request) path) in ret (plain value)
    end
  else if str_eqb name (js "header") then
    do* raw := string_of (arg args 0) in
    match ctx_request context with
    | None => lift (fail_at missing_context (js "request headers") pos)
    | Some _ =>
        ret (plain (JStr (default [] (assoc_str headers (toLowerCase (trim raw))))))
    end
  else if str_eqb name (js "u") then
    do* fact := string_of (arg args 0) in
    match ctx_usage context with
    | None => lift (fail_at missing_context (js "task usage") pos)
    | Some usage => ret (plain (default JNull (assoc_str usage fact)))
    end
  else if str_eqb name (js "has") then
    do* source := snd (arg args 0) in
    do* substring := string_of (arg args 1) in
    if is_nullish (rv_value source) || str_eqb substring [] then ret (plain (JBool false))
    else
      do* text := lift (billingString (rv_value source)) in
      ret (plain (JBool (contains text substring)))
  else if str_eqb name (js "min") then number_call2 math_min args
  else if str_eqb name (js "max") then number_call2 math_max args
  else if str_eqb name (js "abs") then number_call num_abs args
  else if str_eqb name (js "floor") then number_call math_floor args
  else if str_eqb name (js "ceil") then number_call math_ceil args
  else if negb (includes_str TIME_FUNCTIONS name) then lift (fail unsupported name)
  else
    do* zone := string_of (arg args 0) in
    do* values := time_values (trim zone) in
    ret (RV (JNum (time_field name values)) (Some true)).

Definition binary (operator : str) (lhs rhs : argument) (pos : nat) : M RuntimeValue :=
  if str_eqb operator (js "&&") then
    do* a := boolean_of lhs in
    if a then do* b := boolean_of rhs in ret (plain (JBool b)) else ret (plain (JBool false))
  else if str_eqb operator (js "||") then
    do* a := boolean_of lhs in
    if a then ret (plain (JBool true)) else do* b := boolean_of rhs in ret (plain (JBool b))
  else
    do* left_ := snd lhs in
    do* right_ := snd rhs in
    lift (binary_values operator pos left_ right_).

Definition unary (operator : str) (operand : argument) : M RuntimeValue :=
  if str_eqb operator (js "!") then
    do* b := boolean_of operand in ret (plain (JBool (negb b)))
  else
    do* (x, integer) := numeric_of operand in
    ret (RV (JNum (if str_eqb operator (js "-") then num_opp x else x)) integer).

(** [depth] is [this.depth] before the call. *)
Fixpoint evaluate (n : node) (depth : nat) {struct n} : M RuntimeValue :=
  if 256 <? S depth then lift (fail limit_ (js "evaluation depth"))
  else
    do* r :=
      match n with
      | Literal v integer _ _ => ret (RV (literal_jsval v) integer)
      | Variable_ name start _ => lift (variable_value name start)
      | Conditional condition yes no _ _ =>
          do* c := boolean_of (node_start condition, evaluate condition (S depth)) in
          do* _ :=
            match find_index (compiled_requestRules compiled) n 0 with
            | Some ruleIndex => modify (if c then set_matched ruleIndex else id)
            | None => ret tt
            end in
          if c then evaluate yes (S depth) else evaluate no (S depth)
      | Unary operator operand _ _ =>
          unary operator (node_start operand, evaluate operand (S depth))
      | Binary operator lhs rhs start _ =>
          binary operator (node_start lhs, evaluate lhs (S depth))
            (node_start rhs, evaluate rhs (S depth)) start
      | Call name args start _ =>
          call name (map (fun a => (node_start a, evaluate a (S depth))) args) start
      end in
    lift (check_value (node_start n) r).
End Runtime.

(** The constructor: trimmed, lower-cased header names. *)
Definition set_header `{JSHost} (acc : list (str * str)) (entry : str * jsval)
  : R (list (str * str)) :=
  let '(name, rawValue) := entry in
  match rawValue with
  | JStr raw =>
      let key := toLowerCase (trim name) in
      let value := trim raw in
      Ok (if str_eqb key [] || str_eqb value [] then acc else (key, value) :: acc)
  | _ => fail type_ (js "request header")
  end.

Definition request_headers `{JSHost} (context : BillingSimulationContext)
  : R (list (str * str)) :=
  ofold set_header []
    (match ctx_request context with
     | Some request => default [] (req_headers request)
     | None => []
     end).

Definition initial_rules (compiled : CompiledBillingExpression) : list BillingRequestRule :=
  map (fun rule => RequestRule (rule_cond rule) (rule_multiplier rule) false)
    (compiled_requestRules compiled).

Definition initial_state (compiled : CompiledBillingExpression) : rt_state :=
  RtState [] unit_token None [] (initial_rules compiled).

Definition context_now `{JSHost} (context : BillingSimulationContext) : Date :=
  default (Some current_time) (ctx_now context).

(** [new BillingRuntime(compiled, context).evaluate(node)] *)
Definition run_node `{JSHost} (compiled : CompiledBillingExpression)
    (context : BillingSimulationContext) (n : node) : R (RuntimeValue * rt_state) :=
  let* headers := request_headers context in
  evaluate compiled context (context_now context) headers n 0 (initial_state compiled).

Definition evaluateBillingCondition `{JSHost} (compiled : CompiledBillingExpression)
    (n : node) (now : Date) : option bool :=
  match run_node compiled (MkContext None None None None (Some now)) n with
  | Ok (RV (JBool b) _, _) => Some b
  | _ => None
  end.

Definition valid_token (entry : str * jsval) : R unit :=
  let '(name, value) := entry in
  match value with
  | JNum n => if is_finite n && negb (num_ltb n num_zero) then Ok tt else fail number_ name
  | _ => fail number_ name
  end.

(** The [try] block of [evaluateBillingExpression]. *)
Definition evaluate_body `{JSHost} (compiled : CompiledBillingExpression)
    (context : BillingSimulationContext) : R BillingSuccess :=
  ofold (fun _ entry => valid_token entry) tt (default [] (ctx_tokens context)) ;;;
  let* (r, runtime) := run_node compiled context (compiled_ast compiled) in
  match rv_value r with
  | JNum result =>
      if is_finite result && negb (num_ltb result num_zero) then
        Ok (Success result (rt_billingUnit runtime) (rt_fixedPrice runtime)
              (if includes_str (compiled_variables compiled) (js "image_count")
               then Some (default (lit 1) (ctx_imageCount context)) else None)
              (rt_matchedTier runtime) (rt_requestRules runtime))
      else fail number_ (js "billing result")
  | _ => fail number_ (js "billing result")
  end.

Definition evaluate_compiled `{JSHost} (compiled : CompiledBillingExpression)
    (context : BillingSimulationContext) : BillingEvaluationResult :=
  match evaluate_body compiled context with
  | Ok r => EvalSuccess r
  | Throw e => EvalFailure (expressionFailure e)
  | OutOfFuel => EvalFailure (expressionFailure (OtherError (js "out of fuel")))
  end.

(** [evaluateBillingExpression] on a source text, with the compiler's cache. *)
Definition evaluateBillingExpression `{JSHost} (cache : compiled_cache) (source : str)
    (context : BillingSimulationContext) : BillingEvaluationResult * compiled_cache :=
  let '(compiled, cache') := compileBillingExpression cache source in
  match compiled with
  | Failed f => (EvalFailure f, cache')
  | Ready c => (evaluate_compiled c context, cache')
  end.
