(* ===== verification/ExprRuntimeFacts.v ===== *)
(** * Facts about the runtime

    Two program logics for the computations of [BillingRuntime], each with
    one rule per combinator: [safe], a partial-correctness judgement with a
    state invariant and a set of allowed errors, and [sim], a two-run
    judgement.  The first gives type soundness and the state invariants, the
    second independence from the time cache, from the depth counter and from
    the parts of the context the expression does not use. *)

From Stdlib Require Import ZArith Lia Bool SpecFloat.
From stdpp Require Import base list numbers.
From S2P Require Import Prelude JsString JsNumber JsValue JsHost.
From S2P Require Import ExprTypes ExprParser ExprParserFacts ExprCompile ExprCompileFacts.
From S2P Require Import ExprRuntime.

(** ** Helpers never run out of fuel *)

Lemma fail_fuel {A} c d : @fail A c d <> OutOfFuel.
Proof. done. Qed.

Lemma omap_list_fuel {A B} (f : A -> R B) l :
  (forall a, a ∈ l -> f a <> OutOfFuel) -> omap_list f l <> OutOfFuel.
Proof.
  induction l as [|a l IH]; simpl; intros H; [done|].
  apply bind_fuel; [apply H; by left|]. intros b _.
  apply bind_fuel; [|done]. apply IH. intros x Hx. apply H. by right.
Qed.

Lemma split_path_fuel path s : forall parts part,
  split_path path parts part s <> OutOfFuel.
Proof.
  remember (length s) as k eqn:Hk. revert s Hk.
  induction k as [k IH] using lt_wf_ind. intros [|c s] -> parts part; [done|].
  cbn [split_path]. repeat case_match; try done; 
    (eapply IH; [|reflexivity]; subst; simpl; lia).
Qed.

Lemma walk_path_fuel path parts : forall v, walk_path path parts v <> OutOfFuel.
Proof.
  induction parts as [|k parts IH]; intros v; cbn [walk_path]; [done|].
  repeat case_match; try done; apply IH.
Qed.

Lemma readRequestPath_fuel body path : readRequestPath body path <> OutOfFuel.
Proof.
  unfold readRequestPath. destruct (trim path); [done|].
  apply bind_fuel; [apply split_path_fuel|]. intros; apply walk_path_fuel.
Qed.

Lemma go_number_fuel n : go_number n <> OutOfFuel.
Proof. unfold go_number. repeat case_match; done. Qed.

Lemma billing_string_fuel levels : forall v, billing_string levels v <> OutOfFuel.
Proof.
  induction levels as [|levels IH]; intros v; cbn [billing_string]; [done|].
  destruct v; try done.
  - apply go_number_fuel.
  - apply bind_fuel; [|done]. apply omap_list_fuel. intros; apply IH.
  - apply bind_fuel; [|done]. apply omap_list_fuel. intros [k x] _.
    apply bind_fuel; [apply IH|done].
Qed.

Lemma billingString_fuel v : billingString v <> OutOfFuel.
Proof. apply (billing_string_fuel 129). Qed.

Lemma time_fuel `{JSHost} now zone : timeInBillingZone now zone <> OutOfFuel.
Proof. unfold timeInBillingZone. repeat case_match; done. Qed.

(** ** Finite values stay checked *)

Lemma check_value_ok pos r r' :
  check_value pos r = Ok r' ->
  r' = r /\ forall n, rv_value r = JNum n ->
    is_finite n = true /\ (rv_integer r = Some true -> is_safe_integer n = true).
Proof.
  unfold check_value. intros H. destruct (rv_value r) eqn:Ev;
    try (injection H as <-; split; [done|intros ? ?; congruence]).
  destruct (is_finite n) eqn:Hf; [|done]. simpl in H.
  destruct (bool_decide (rv_integer r = Some true) && negb (is_safe_integer n)) eqn:Hi;
    [done|]. injection H as <-. split; [done|]. intros m [= <-]. split; [done|].
  intros Hr. rewrite bool_decide_eq_true_2 in Hi by done. simpl in Hi.
  by apply negb_false_iff in Hi.
Qed.

(** ** The one-run judgement *)

Section Safe.
Variable I : rt_state -> Prop.
Variable E : exn -> Prop.

Definition post {A} (Q : A -> Prop) (r : R (A * rt_state)) : Prop :=
  match r with
  | Ok (a, st') => I st' /\ Q a
  | Throw e => E e
  | OutOfFuel => False
  end.

Definition safe {A} (Q : A -> Prop) (m : M A) : Prop :=
  forall st, I st -> post Q (m st).

Definition safe_outcome {A} (Q : A -> Prop) (r : R A) : Prop :=
  match r with Ok a => Q a | Throw e => E e | OutOfFuel => False end.

Lemma safe_ret {A} (Q : A -> Prop) a : Q a -> safe Q (ret a).
Proof. intros HQ st Hst. by split. Qed.

Lemma safe_lift {A} (Q : A -> Prop) r : safe_outcome Q r -> safe Q (lift r).
Proof. intros Hr st Hst. unfold lift. destruct r; simpl in *; [by split|done..]. Qed.

Lemma safe_bind {A B} (P : A -> Prop) (Q : B -> Prop) m k :
  safe P m -> (forall a, P a -> safe Q (k a)) -> safe Q (m_bind m k).
Proof.
  intros Hm Hk st Hst. unfold m_bind. specialize (Hm st Hst). unfold post in Hm.
  destruct (m st) as [[a st']|e|]; simpl; [|done..]. destruct Hm as [Hi Ha].
  by apply Hk.
Qed.

Lemma safe_modify (Q : unit -> Prop) f :
  (forall st, I st -> I (f st)) -> Q tt -> safe Q (modify f).
Proof. intros Hf HQ st Hst. split; auto. Qed.

Lemma safe_mono {A} (P Q : A -> Prop) m : (forall a, P a -> Q a) -> safe P m -> safe Q m.
Proof.
  intros HPQ Hm st Hst. specialize (Hm st Hst). unfold post in *.
  destruct (m st) as [[a st']|e|]; [|done..]. naive_solver.
Qed.
End Safe.

(** ** Type soundness *)

Definition has_type (t : ExpressionType) (v : jsval) : Prop :=
  match t with
  | TNumber => exists n, v = JNum n
  | TString => exists s, v = JStr s
  | TBoolean => exists b, v = JBool b
  | TNil => v = JNull
  | TDynamic => True
  end.

(** The checker gives type number to every [+] that is not of two strings;
    with two dynamic operands the sum may still be a string. *)
Definition dynamic_sum (n : node) : bool :=
  match n with
  | Binary o l r _ _ =>
      str_eqb o (js "+") && bool_decide (static_type l = TDynamic)
      && bool_decide (static_type r = TDynamic)
  | _ => false
  end.

Definition no_dynamic_sum (n : node) : Prop :=
  Forall (fun m => dynamic_sum m = false) (postorder n).

Definition fully_static (n : node) : Prop :=
  Forall (fun m => static_type m <> TDynamic) (postorder n).

(** The type errors that remain possible in a fully static expression. *)
Definition residual_type_details : list str :=
  [js "<"; js "<="; js ">"; js ">="; js "integer modulo"; js "simulation time";
   js "request header"].

Definition residual_error (e : exn) : Prop :=
  match e with
  | BillingExpressionError d =>
      diag_code d = type_ -> diag_detail d ∈ residual_type_details
  | OtherError _ => False
  end.

Definition allowed (n : node) (e : exn) : Prop := fully_static n -> residual_error e.

Lemma Forall_postorder (P : node -> Prop) n :
  Forall P (postorder n) <-> P n /\ Forall (fun c => Forall P (postorder c)) (children n).
Proof.
  rewrite postorder_children, Forall_app, Forall_concat_map, Forall_singleton. tauto.
Qed.

Lemma Forall_postorder_root (P : node -> Prop) n : Forall P (postorder n) -> P n.
Proof. by intros [? _]%Forall_postorder. Qed.

Lemma elem_of_postorder_root n : n ∈ postorder n.
Proof. rewrite postorder_children. apply elem_of_app. right. by apply list_elem_of_singleton. Qed.

Section Soundness.
Context `{JSHost}.
Variable compiled : CompiledBillingExpression.
Variable context : BillingSimulationContext.
Variable now : Date.
Variable headers : list (str * str).
Variable I : rt_state -> Prop.
Hypothesis I_fixed : forall amount st, I st -> I (set_fixed amount st).
Hypothesis I_tier : forall name st, I st -> I (set_tier name st).
Hypothesis I_matched : forall i st, I st -> I (set_matched i st).
Hypothesis I_times : forall zone v st,
  I st -> timeInBillingZone now zone = Ok v ->
  I (set_times ((zone, v) :: rt_timeValues st) st).

Notation eval := (evaluate compiled context now headers).

(** The evaluation of a child, seen from its parent. *)
Definition child_safe (n c : node) (m : M RuntimeValue) : Prop :=
  c ∈ children n /\
  safe I (allowed n) (fun r => has_type (static_type c) (rv_value r)) m.

Lemma dynamic_child_allowed n c e :
  c ∈ children n -> static_type c = TDynamic -> allowed n e.
Proof.
  intros Hc Hd Hs. apply Forall_postorder in Hs as [_ Hs].
  exfalso. rewrite Forall_forall in Hs. apply list_elem_of_In in Hc.
  by apply (Forall_postorder_root _ _ (Hs c Hc)).
Qed.

Lemma safe_as {A} (conv : nat -> RuntimeValue -> R A) t n c m :
  (forall pos r, has_type t (rv_value r) -> exists a, conv pos r = Ok a) ->
  (forall pos r, conv pos r <> OutOfFuel) ->
  child_safe n c m -> accepts t c ->
  safe I (allowed n) (fun _ => True)
    (do* r := snd (node_start c, m) in lift (conv (fst (node_start c, m)) r)).
Proof.
  intros Hconv Hfuel [Hc Hm] Ht. eapply safe_bind; [exact Hm|]. intros r Hr.
  apply safe_lift. unfold safe_outcome. cbn [fst].
  destruct (conv (node_start c) r) as [a|e|] eqn:E; [done| |by eapply Hfuel].
  destruct Ht as [Ht|Ht].
  - rewrite Ht in Hr. destruct (Hconv (node_start c) r Hr). congruence.
  - by eapply dynamic_child_allowed.
Qed.

Lemma boolean_safe n c m :
  child_safe n c m -> accepts TBoolean c ->
  safe I (allowed n) (fun _ => True) (boolean_of (node_start c, m)).
Proof.
  apply safe_as; unfold as_boolean.
  - intros pos r [b ->]. by eexists.
  - intros pos r. by destruct (rv_value r).
Qed.

Lemma numeric_safe n c m :
  child_safe n c m -> accepts TNumber c ->
  safe I (allowed n) (fun _ => True) (numeric_of (node_start c, m)).
Proof.
  apply safe_as; unfold as_numeric.
  - intros pos r [b ->]. by eexists.
  - intros pos r. by destruct (rv_value r).
Qed.

Lemma string_safe n c m :
  child_safe n c m -> accepts TString c ->
  safe I (allowed n) (fun _ => True) (string_of (node_start c, m)).
Proof.
  apply safe_as; unfold as_string.
  - intros pos r [b ->]. by eexists.
  - intros pos r. by destruct (rv_value r).
Qed.

Lemma fail_allowed n c d pos :
  (c = type_ -> d ∈ residual_type_details) ->
  allowed n (BillingExpressionError (Diagnostic c d pos)).
Proof. intros Hd _. exact Hd. Qed.

Lemma check_safe n pos (P : jsval -> Prop) r :
  P (rv_value r) -> safe_outcome (allowed n) (fun r => P (rv_value r)) (check_value pos r).
Proof.
  intros HP. unfold check_value, fail_at. destruct (rv_value r) eqn:Ev;
    try (simpl; by rewrite Ev).
  destruct (negb (is_finite n0)); [by apply fail_allowed|].
  destruct (bool_decide _ && _); [by apply fail_allowed|]. simpl. by rewrite Ev.
Qed.

Lemma variable_safe n name pos :
  safe I (allowed n) (fun r => has_type TNumber (rv_value r))
    (lift (variable_value context name pos)).
Proof.
  apply safe_lift. unfold variable_value, fail_at.
  repeat case_match; first [by apply fail_allowed | by eexists].
Qed.

Lemma time_values_safe n zone :
  safe I (allowed n) (fun _ => True) (time_values now zone).
Proof.
  intros st Hst. unfold time_values. destruct (assoc_str _ zone); [by split|].
  destruct (timeInBillingZone now zone) as [v|e|] eqn:E; simpl.
  - split; [|done]. by apply I_times.
  - unfold timeInBillingZone, fail in E. repeat case_match; try done;
      injection E as <-; intros _; first [done | intros _; vm_decide].
  - by eapply time_fuel.
Qed.

(** An argument of a call is the evaluation of that child. *)
Lemma arg_map (f : node -> argument) args i a :
  args !! i = Some a -> arg (map f args) i = f a.
Proof. intros Ha. unfold arg. by rewrite list_lookup_fmap, Ha. Qed.

Definition arithmetic_operators : list str := [js "+"; js "-"; js "*"; js "/"; js "%"].

Lemma operator_cases o :
  is_Some (assoc_str PRECEDENCE o) ->
  includes_str logical_operators o = true \/ includes_str comparison_operators o = true \/
  o ∈ arithmetic_operators.
Proof.
  intros [k Hk]. apply assoc_str_elem in Hk. unfold PRECEDENCE in Hk.
  repeat (apply elem_of_cons in Hk as [[= -> _]|Hk];
          [first [left; reflexivity | right; left; reflexivity
                 | right; right; vm_decide]|]).
  by apply not_elem_of_nil in Hk.
Qed.

Lemma comparison_safe n o pos vl vr :
  includes_str comparison_operators o = true ->
  safe_outcome (allowed n) (fun v => has_type TBoolean (rv_value v))
    (binary_values o pos vl vr).
Proof.
  intros Ho. apply includes_str_elem in Ho. unfold comparison_operators in Ho.
  repeat (apply elem_of_cons in Ho as [-> |Ho]; [|]);
    [..|by apply not_elem_of_nil in Ho]; unfold binary_values, compare_values, fail_at;
    str_compute.
  1, 2: destruct (_ && _ && _); [by apply fail_allowed|by eexists].
  all: destruct (rv_value vl), (rv_value vr); cbn [safe_outcome];
    first [by eexists | apply fail_allowed; intros _; vm_decide].
Qed.

Lemma arithmetic_safe n o pos vl vr :
  o ∈ arithmetic_operators ->
  (~ ((exists x, rv_value vl = JNum x) /\ (exists y, rv_value vr = JNum y)) ->
   forall e, allowed n e) ->
  (o = js "+" -> ~ ((exists x, rv_value vl = JStr x) /\ (exists y, rv_value vr = JStr y))) ->
  safe_outcome (allowed n) (fun v => has_type TNumber (rv_value v))
    (binary_values o pos vl vr).
Proof.
  intros Ho Hnum Hstr. unfold arithmetic_operators in Ho.
  repeat (apply elem_of_cons in Ho as [-> |Ho]; [|]);
    [..|by apply not_elem_of_nil in Ho];
    unfold binary_values, compare_values, arithmetic, fail_at; str_compute;
    destruct (rv_value vl), (rv_value vr); cbn [safe_outcome];
    first [ by eexists
          | (apply Hnum; intros [[? ?] [? ?]]; congruence)
          | (exfalso; apply Hstr; [done|split; by eexists])
          | (destruct (negb _); [apply fail_allowed; intros _; vm_decide|by eexists]) ].
Qed.

Lemma string_sum pos vl vr x y :
  rv_value vl = JStr x -> rv_value vr = JStr y ->
  binary_values (js "+") pos vl vr = Ok (plain (JStr (x ++ y))).
Proof. intros Hl Hr. unfold binary_values. str_compute. by rewrite Hl, Hr. Qed.

Lemma binary_values_safe n o l r pos vl vr :
  children n = [l; r] -> is_Some (assoc_str PRECEDENCE o) ->
  includes_str logical_operators o = false ->
  typed_node (Binary o l r pos 0) -> dynamic_sum (Binary o l r pos 0) = false ->
  has_type (static_type l) (rv_value vl) -> has_type (static_type r) (rv_value vr) ->
  safe_outcome (allowed n) (fun v => has_type (static_type (Binary o l r pos 0)) (rv_value v))
    (binary_values o pos vl vr).
Proof.
  intros Hch Hop Hlog Hty Hsum Hl Hr.
  assert (forall c e, c ∈ [l; r] -> static_type c = TDynamic -> allowed n e) as Hdyn.
  { intros c e Hc. rewrite <- Hch in Hc. by apply dynamic_child_allowed. }
  cbn [typed_node] in Hty. rewrite Hlog in Hty.
  destruct (operator_cases o Hop) as [?|[Hc|Ha]]; [congruence| |].
  { cbn [static_type]. rewrite Hlog, Hc. by apply comparison_safe. }
  destruct (includes_str comparison_operators o) eqn:Hc.
  { cbn [static_type]. rewrite Hlog, Hc. by apply comparison_safe. }
  destruct Hty as [(Ht & Htl & Htr)|(Ht & Htl & Htr)]; rewrite Ht.
  - rewrite Htl in Hl. rewrite Htr in Hr. destruct Hl as [x Hx], Hr as [y Hy].
    assert (o = js "+") as ->.
    { cbn [static_type] in Ht. rewrite Hlog, Hc in Ht.
      destruct (str_eqb o (js "+")) eqn:Ho; [by apply str_eqb_eq|done]. }
    rewrite (string_sum _ _ _ _ _ Hx Hy). by eexists.
  - apply arithmetic_safe; [done| |].
    + intros Hn e. destruct Htl as [Htl|Htl]; [|by apply (Hdyn l); [left|]].
      destruct Htr as [Htr|Htr]; [|apply (Hdyn r); [right; by left|done]].
      exfalso. apply Hn. rewrite Htl in Hl. by rewrite Htr in Hr.
    + intros -> [[x Hx] [y Hy]]. cbn [dynamic_sum] in Hsum.
      destruct Htl as [Htl|Htl]; [rewrite Htl in Hl; destruct Hl; congruence|].
      destruct Htr as [Htr|Htr]; [rewrite Htr in Hr; destruct Hr; congruence|].
      by rewrite str_eqb_refl, !bool_decide_eq_true_2 in Hsum.
Qed.

Lemma binary_safe n o l r pos ml mr :
  children n = [l; r] -> is_Some (assoc_str PRECEDENCE o) ->
  typed_node (Binary o l r pos 0) -> dynamic_sum (Binary o l r pos 0) = false ->
  child_safe n l ml -> child_safe n r mr ->
  safe I (allowed n) (fun v => has_type (static_type (Binary o l r pos 0)) (rv_value v))
    (binary o (node_start l, ml) (node_start r, mr) pos).
Proof.
  intros Hch Hop Hty Hsum Hl Hr.
  destruct (includes_str logical_operators o) eqn:Hlog.
  - assert (static_type (Binary o l r pos 0) = TBoolean) as ->.
    { cbn [static_type]. by rewrite Hlog. }
    cbn [typed_node] in Hty. rewrite Hlog in Hty. destruct Hty as [Htl Htr].
    apply includes_str_elem in Hlog. unfold logical_operators in Hlog.
    pose proof (boolean_safe _ _ _ Hl Htl) as Bl.
    pose proof (boolean_safe _ _ _ Hr Htr) as Br.
    repeat (apply elem_of_cons in Hlog as [-> |Hlog]; [|]);
      [..|by apply not_elem_of_nil in Hlog]; unfold binary; str_compute;
      (eapply safe_bind; [exact Bl|]); intros [|] _;
      try (apply safe_ret; by eexists);
      (eapply safe_bind; [exact Br|]); intros b _; apply safe_ret; by eexists.
  - assert (str_eqb o (js "&&") = false /\ str_eqb o (js "||") = false) as [H1 H2].
    { split; apply str_eqb_neq; intros ->; done. }
    unfold binary. rewrite H1, H2. destruct Hl as [? Hl], Hr as [? Hr]. cbn [snd].
    eapply safe_bind; [exact Hl|]. intros vl Hvl.
    eapply safe_bind; [exact Hr|]. intros vr Hvr.
    apply safe_lift. by apply binary_values_safe.
Qed.

Section Call.
Variable n : node.
Variable g : node -> M RuntimeValue.
Variable args : list node.
Hypothesis Hargs : forall a, a ∈ args -> child_safe n a (g a).
Notation actual := (map (fun a => (node_start a, g a)) args).

Lemma numeric_arg i :
  arg_accepts TNumber args i ->
  safe I (allowed n) (fun _ => True) (numeric_of (arg actual i)).
Proof.
  intros (a & Ha & Ht). rewrite (arg_map _ _ _ _ Ha).
  apply numeric_safe; [apply Hargs; by eapply list_elem_of_lookup_2|done].
Qed.

Lemma string_arg i :
  arg_accepts TString args i ->
  safe I (allowed n) (fun _ => True) (string_of (arg actual i)).
Proof.
  intros (a & Ha & Ht). rewrite (arg_map _ _ _ _ Ha).
  apply string_safe; [apply Hargs; by eapply list_elem_of_lookup_2|done].
Qed.

Lemma any_arg i :
  i < length args -> safe I (allowed n) (fun _ => True) (snd (arg actual i)).
Proof.
  intros Hi. apply lookup_lt_is_Some_2 in Hi as [a Ha].
  rewrite (arg_map _ _ _ _ Ha). cbn [snd].
  destruct (Hargs a) as [_ Hs]; [by eapply list_elem_of_lookup_2|].
  by eapply safe_mono; [|exact Hs].
Qed.

Lemma number_call_safe f :
  arg_accepts TNumber args 0 ->
  safe I (allowed n) (fun r => has_type TNumber (rv_value r)) (number_call f actual).
Proof.
  intros Ha. eapply safe_bind; [by apply numeric_arg|]. intros [x i] _.
  apply safe_ret. by eexists.
Qed.

Lemma number_call2_safe f :
  arg_accepts TNumber args 0 -> arg_accepts TNumber args 1 ->
  safe I (allowed n) (fun r => has_type TNumber (rv_value r)) (number_call2 f actual).
Proof.
  intros Ha Hb. eapply safe_bind; [by apply numeric_arg|]. intros [x i] _.
  eapply safe_bind; [by apply numeric_arg|]. intros [y j] _.
  apply safe_ret. by eexists.
Qed.

Lemma lift_fuel_safe {A} (r : R A) :
  r <> OutOfFuel ->
  (forall e, r = Throw e -> exists c d p, e = BillingExpressionError (Diagnostic c d p)
                                          /\ c <> type_) ->
  safe I (allowed n) (fun _ => True) (lift r).
Proof.
  intros Hf He. apply safe_lift. destruct r as [a|e|]; simpl; [done| |done].
  destruct (He e eq_refl) as (c & d & p & -> & Hc). by apply fail_allowed.
Qed.
End Call.

Lemma split_path_throws path s : forall parts part e,
  split_path path parts part s = Throw e ->
  e = BillingExpressionError (Diagnostic unsupported path None).
Proof.
  remember (length s) as k eqn:Hk. revert s Hk.
  induction k as [k IH] using lt_wf_ind. intros [|c s] -> parts part e; [done|].
  cbn [split_path]. unfold fail.
  repeat case_match; try done; try (by intros [= <-]);
    (eapply IH; [|reflexivity]; subst; simpl; lia).
Qed.

Lemma walk_path_throws path parts : forall v e,
  walk_path path parts v = Throw e ->
  e = BillingExpressionError (Diagnostic unsupported path None).
Proof.
  induction parts as [|k parts IH]; intros v e; cbn [walk_path]; [done|].
  unfold fail. repeat case_match; try done; try (by intros [= <-]); apply IH.
Qed.

Lemma read_path_throws body path e :
  readRequestPath body path = Throw e ->
  e = BillingExpressionError (Diagnostic unsupported (trim path) None).
Proof.
  unfold readRequestPath. destruct (trim path) as [|c s]; [done|].
  destruct (split_path _ _ _ _) as [parts|e'|] eqn:E; simpl; [apply walk_path_throws| |done].
  intros [= <-]. by eapply split_path_throws.
Qed.

Lemma omap_list_throws {A B} (P : exn -> Prop) (f : A -> R B) l e :
  (forall a e, f a = Throw e -> P e) -> omap_list f l = Throw e -> P e.
Proof.
  intros Hf. induction l as [|a l IH]; simpl; [done|].
  destruct (f a) as [b|e'|] eqn:E; simpl; [|intros [= <-]; by eapply Hf|done].
  destruct (omap_list f l); simpl; [done|by intros [= <-]; apply IH|done].
Qed.

Definition render_error (e : exn) : Prop :=
  exists c d p, e = BillingExpressionError (Diagnostic c d p) /\ c <> type_.

Lemma billing_string_throws levels : forall v e,
  billing_string levels v = Throw e -> render_error e.
Proof.
  induction levels as [|levels IH]; intros v e; cbn [billing_string].
  { intros [= <-]. by do 3 eexists. }
  destruct v; try done.
  - unfold go_number, fail. repeat case_match; try done. intros [= <-]. by do 3 eexists.
  - destruct (omap_list _ items) eqn:E; simpl; [done| |done]. intros [= <-].
    by eapply omap_list_throws; [|exact E].
  - destruct (omap_list _ _) eqn:E; simpl; [done| |done]. intros [= <-].
    eapply omap_list_throws; [|exact E]. intros [k x] e' He. cbn in He.
    destruct (billing_string levels x) eqn:Ex; simpl in He; [done| |done].
    injection He as <-. by eapply IH.
Qed.

Lemma billingString_throws v e : billingString v = Throw e -> render_error e.
Proof. apply (billing_string_throws 129). Qed.

Lemma function_cases f k :
  assoc_str BILLING_FUNCTIONS f = Some k -> (f, k) ∈ BILLING_FUNCTIONS.
Proof. apply assoc_str_elem. Qed.

Lemma call_time_safe n g args f pos :
  (forall a, a ∈ args -> child_safe n a (g a)) -> arg_accepts TString args 0 ->
  safe I (allowed n) (fun r => has_type TNumber (rv_value r))
    (do* zone := string_of (arg (map (fun a => (node_start a, g a)) args) 0) in
     do* values := time_values now (trim zone) in
     ret (RV (JNum (time_field f values)) pos)).
Proof.
  intros Hargs Ha. eapply safe_bind; [by apply string_arg|]. intros zone _.
  eapply safe_bind; [apply time_values_safe|]. intros t _. apply safe_ret. by eexists.
Qed.

Lemma call_safe n f args pos g :
  assoc_str BILLING_FUNCTIONS f = Some (length args) ->
  typed_node (Call f args pos 0) ->
  (forall a, a ∈ args -> child_safe n a (g a)) ->
  safe I (allowed n) (fun r => has_type (static_call f) (rv_value r))
    (call context now headers f (map (fun a => (node_start a, g a)) args) pos).
Proof.
  intros Hf (Hstr & Hhas & Htier & Hnum) Hargs.
  apply function_cases in Hf. unfold BILLING_FUNCTIONS in Hf.
  assert (forall i, i < length args -> Forall (accepts TNumber) args ->
            arg_accepts TNumber args i) as Hall.
  { intros i Hi HF. apply lookup_lt_is_Some_2 in Hi as [a Ha]. exists a.
    split; [done|]. by eapply Forall_lookup_1. }
  repeat (apply elem_of_cons in Hf as [[= -> Hk]|Hf]; [|]);
    [..|by apply not_elem_of_nil in Hf];
    match goal with |- context [static_call ?s] => rewrite_bool (static_call s) end;
    unfold call; str_compute;
    match type of Hstr with ?b = true -> _ => rewrite_bool b end;
    match type of Hnum with ?b = true -> _ => rewrite_bool b end;
    try (specialize (Hstr eq_refl)); try (specialize (Hnum eq_refl)).
  - destruct (Htier eq_refl) as [Ha Hb].
    eapply safe_bind; [by apply string_arg|]. intros l _.
    eapply safe_bind; [by apply numeric_arg|]. intros [x i] _.
    eapply safe_bind; [by apply (safe_modify _ _ (fun _ => True)); auto|].
    intros _ _. apply safe_ret. by eexists.
  - eapply safe_bind; [apply numeric_arg; [done|]; apply Hall; [lia|done]|]. intros [x i] _.
    eapply safe_bind; [by apply (safe_modify _ _ (fun _ => True)); auto|].
    intros _ _. apply safe_ret. by eexists.
  - eapply safe_bind; [by apply string_arg|]. intros l _.
    destruct (ctx_request context) as [rq|]; [|apply safe_lift; by apply fail_allowed].
    eapply safe_bind; [apply lift_fuel_safe|].
    + apply readRequestPath_fuel.
    + intros e He. apply read_path_throws in He as ->. by do 3 eexists.
    + intros v _. by apply safe_ret.
  - eapply safe_bind; [by apply string_arg|]. intros l _.
    destruct (ctx_request context) as [rq|]; [|apply safe_lift; by apply fail_allowed].
    apply safe_ret. by eexists.
  - eapply safe_bind; [apply any_arg; [done|lia]|]. intros v _.
    eapply safe_bind; [by apply string_arg, Hhas|]. intros sub _.
    destruct (_ || _); [apply safe_ret; by eexists|].
    eapply safe_bind; [apply lift_fuel_safe|].
    + apply billingString_fuel.
    + intros e He. by apply billingString_throws in He.
    + intros t _. apply safe_ret. by eexists.
  - eapply safe_bind; [by apply string_arg|]. intros l _.
    destruct (ctx_usage context) as [us|]; [|apply safe_lift; by apply fail_allowed].
    by apply safe_ret.
  - by apply call_time_safe.
  - by apply call_time_safe.
  - by apply call_time_safe.
  - by apply call_time_safe.
  - by apply call_time_safe.
  - apply number_call2_safe; [done|apply Hall; [lia|done]..].
  - apply number_call2_safe; [done|apply Hall; [lia|done]..].
  - apply number_call_safe; [done|apply Hall; [lia|done]].
  - apply number_call_safe; [done|apply Hall; [lia|done]].
  - apply number_call_safe; [done|apply Hall; [lia|done]].
Qed.

Lemma allowed_child n c e : c ∈ children n -> allowed c e -> allowed n e.
Proof.
  intros Hc He Hs. apply He. apply Forall_postorder in Hs as [_ Hs].
  rewrite Forall_forall in Hs. by apply Hs, list_elem_of_In.
Qed.

Lemma safe_child n c (m : M RuntimeValue) :
  c ∈ children n ->
  safe I (allowed c) (fun r => has_type (static_type c) (rv_value r)) m -> child_safe n c m.
Proof.
  intros Hc Hm. split; [done|]. intros st Hst. specialize (Hm st Hst). unfold post in *.
  destruct (m st) as [[v st']|e|]; [done| |done]. by eapply allowed_child.
Qed.

Definition sound_at (n : node) : Prop := forall d,
  safe I (allowed n) (fun r => has_type (static_type n) (rv_value r)) (eval n d).

Lemma unary_safe n o a m :
  child_safe n a m -> accepts (if str_eqb o (js "!") then TBoolean else TNumber) a ->
  safe I (allowed n)
    (fun r => has_type (if str_eqb o (js "!") then TBoolean else TNumber) (rv_value r))
    (unary o (node_start a, m)).
Proof.
  intros Hm Ha. unfold unary. destruct (str_eqb o (js "!")).
  - eapply safe_bind; [by eapply boolean_safe|]. intros b _. apply safe_ret. by eexists.
  - eapply safe_bind; [by eapply numeric_safe|]. intros [x i] _. apply safe_ret. by eexists.
Qed.

Lemma branch_type c y no s e b v :
  has_type (static_type (if b : bool then y else no)) v ->
  has_type (static_type (Conditional c y no s e)) v.
Proof.
  cbn [static_type]. case_bool_decide as E; [|done]. destruct b; [done|]. by rewrite E.
Qed.

Lemma evaluate_sound n : wf n -> well_typed n -> no_dynamic_sum n -> sound_at n.
Proof.
  induction n as [n IH] using node_children_ind. intros Hw Ht Hg d.
  apply wf_unfold in Hw as [Hok Hws]. destruct Hok as (_ & Hlocal & _).
  apply Forall_postorder in Ht as [Htn Hts]. apply Forall_postorder in Hg as [Hgn Hgs].
  assert (forall c, c ∈ children n -> child_safe n c (eval c (S d))) as Hch.
  { intros c Hc. apply safe_child; [done|]. rewrite Forall_forall in IH, Hws, Hts, Hgs.
    pose proof Hc as Hc'. apply list_elem_of_In in Hc'.
    exact (IH c Hc' (Hws c Hc') (Hts c Hc') (Hgs c Hc') (S d)). }
  clear IH Hws Hts Hgs.
  assert (forall m, safe I (allowed n) (fun r => has_type (static_type n) (rv_value r)) m ->
    safe I (allowed n) (fun r => has_type (static_type n) (rv_value r))
      (if 256 <? S d then lift (fail limit_ (js "evaluation depth"))
       else do* r := m in lift (check_value (node_start n) r))) as Hwrap.
  { intros m Hm. destruct (256 <? S d); [apply safe_lift; by apply fail_allowed|].
    eapply safe_bind; [exact Hm|]. intros r Hr. apply safe_lift.
    by apply check_safe. }
  destruct n as [v i s e|x s e|f args s e|o a s e|o l r s e|c y no s e];
    cbn [children] in Hch; cbn [evaluate]; apply Hwrap.
  - apply safe_ret. destruct v; simpl; eauto.
  - apply variable_safe.
  - apply (call_safe _ f args s (fun a => eval a (S d))); done.
  - apply unary_safe; [|done]. apply Hch. by left.
  - apply binary_safe; [done..| |]; apply Hch; [by left|right; by left].
  - eapply safe_bind; [apply boolean_safe; [apply Hch; by left|done]|]. intros b _.
    eapply (safe_bind _ _ (fun _ => True)).
    { destruct (find_index _ _ _); [|by apply safe_ret].
      apply safe_modify; [|done]. intros st Hst. destruct b; [by apply I_matched|done]. }
    intros _ _. eapply safe_mono; [intros v; apply (branch_type c y no s e b)|].
    destruct b; apply Hch; [right; by left|right; right; by left].
Qed.
End Soundness.
