(* ===== verification/ExprRuntimeSim.v ===== *)
(** * Two runs of the runtime

    The judgement [sim] relates two runs of the runtime on the same AST but
    with different contexts, time caches and depth counters: if the contexts
    agree on what the AST uses, both runs give the same value, the same
    related states, or the same error. *)

From Stdlib Require Import ZArith Lia Bool SpecFloat.
From stdpp Require Import base list numbers.
From S2P Require Import Prelude JsString JsNumber JsValue JsHost.
From S2P Require Import ExprTypes ExprParser ExprParserFacts ExprCompile ExprCompileFacts.
From S2P Require Import ExprRuntime ExprRuntimeFacts.

(** The state a caller can observe: all of it but the time cache. *)
Definition visible (st : rt_state) : str * BillingUnit * option num * list BillingRequestRule :=
  (rt_matchedTier st, rt_billingUnit st, rt_fixedPrice st, rt_requestRules st).

(** Every cached entry is what [timeInBillingZone] returns. *)
Definition coherent `{JSHost} (now : Date) (st : rt_state) : Prop :=
  forall zone v, assoc_str (rt_timeValues st) zone = Some v ->
    timeInBillingZone now zone = Ok v.

Lemma initial_coherent `{JSHost} now c : coherent now (initial_state c).
Proof. done. Qed.

Lemma visible_inj s1 s2 :
  visible s1 = visible s2 ->
  rt_matchedTier s1 = rt_matchedTier s2 /\ rt_billingUnit s1 = rt_billingUnit s2 /\
  rt_fixedPrice s1 = rt_fixedPrice s2 /\ rt_requestRules s1 = rt_requestRules s2.
Proof. by intros [= -> -> -> ->]. Qed.

(** Having the same visible state is preserved by every update. *)
Definition same_visible (s1 s2 : rt_state) : Prop := visible s1 = visible s2.

Lemma same_visible_updates s1 s2 :
  same_visible s1 s2 ->
  (forall amount, same_visible (set_fixed amount s1) (set_fixed amount s2)) /\
  (forall name, same_visible (set_tier name s1) (set_tier name s2)) /\
  (forall i, same_visible (set_matched i s1) (set_matched i s2)) /\
  (forall t1 t2, same_visible (set_times t1 s1) (set_times t2 s2)).
Proof.
  intros (? & ? & ? & ?)%visible_inj. unfold same_visible, visible; simpl.
  split_and!; intros; congruence.
Qed.

Section Sim.
Context `{JSHost}.
Variable compiled : CompiledBillingExpression.
Variables ctx1 ctx2 : BillingSimulationContext.
Variables now1 now2 : Date.
Variables headers1 headers2 : list (str * str).
(** A relation between the states of the runs that the updates preserve;
    what it needs of [fixed] and [tier] is asked of the nodes that call
    them. *)
Variable Rel : rt_state -> rt_state -> Prop.
Hypothesis Rel_matched : forall i s1 s2,
  Rel s1 s2 -> Rel (set_matched i s1) (set_matched i s2).
Hypothesis Rel_times : forall t1 t2 s1 s2,
  Rel s1 s2 -> Rel (set_times t1 s1) (set_times t2 s2).

Definition related (s1 s2 : rt_state) : Prop :=
  coherent now1 s1 /\ coherent now2 s2 /\ Rel s1 s2.

Definition sim_outcome {A} (r1 r2 : R (A * rt_state)) : Prop :=
  match r1, r2 with
  | Ok (a, s1), Ok (b, s2) => a = b /\ related s1 s2
  | Throw e1, Throw e2 => e1 = e2
  | _, _ => False
  end.

Definition sim {A} (m1 m2 : M A) : Prop :=
  forall s1 s2, related s1 s2 -> sim_outcome (m1 s1) (m2 s2).

Lemma sim_ret {A} (a : A) : sim (ret a) (ret a).
Proof. by intros s1 s2 Hs. Qed.

Lemma sim_lift {A} (r1 r2 : R A) : r1 = r2 -> r1 <> OutOfFuel -> sim (lift r1) (lift r2).
Proof. intros <- Hr s1 s2 Hs. by destruct r1. Qed.

Lemma sim_bind {A B} (m1 m2 : M A) (k1 k2 : A -> M B) :
  sim m1 m2 -> (forall a, sim (k1 a) (k2 a)) -> sim (m_bind m1 k1) (m_bind m2 k2).
Proof.
  intros Hm Hk s1 s2 Hs. specialize (Hm s1 s2 Hs). unfold m_bind, sim_outcome in *.
  destruct (m1 s1) as [[a s1']|e1|], (m2 s2) as [[b s2']|e2|]; try done.
  destruct Hm as [<- Hs']. simpl. by apply Hk.
Qed.

Lemma sim_modify f :
  (forall s, rt_timeValues (f s) = rt_timeValues s) ->
  (forall s1 s2, Rel s1 s2 -> Rel (f s1) (f s2)) ->
  sim (modify f) (modify f).
Proof.
  intros Ht Hr s1 s2 (H1 & H2 & H3). split; [done|].
  split_and!; [intros zone v; rewrite Ht; auto..|by apply Hr].
Qed.

Ltac sim_update := apply sim_modify; [done|by eauto].

Lemma set_times_same s : set_times (rt_timeValues s) s = s.
Proof. by destruct s. Qed.

(** One lookup in a coherent cache: the recomputed value, and a coherent
    cache again. *)
Lemma time_values_spec now zone s :
  coherent now s ->
  match timeInBillingZone now zone with
  | Ok v => exists times, time_values now zone s = Ok (v, set_times times s) /\
              coherent now (set_times times s)
  | Throw e => time_values now zone s = Throw e
  | OutOfFuel => False
  end.
Proof.
  intros Hc. unfold time_values. destruct (assoc_str (rt_timeValues s) zone) as [v|] eqn:E.
  - rewrite (Hc _ _ E). exists (rt_timeValues s). by rewrite set_times_same.
  - destruct (timeInBillingZone now zone) as [v|e|] eqn:Et; [|done|by apply time_fuel in Et].
    simpl. eexists. split; [reflexivity|].
    intros z w. simpl. destruct (str_eqb zone z) eqn:Ez; [|apply Hc].
    apply str_eqb_eq in Ez as <-. by intros [= <-].
Qed.

Lemma sim_time zone : now1 = now2 -> sim (time_values now1 zone) (time_values now2 zone).
Proof.
  intros Hnow s1 s2 (H1 & H2 & Hr).
  pose proof (time_values_spec now1 zone s1 H1) as R1.
  pose proof (time_values_spec now2 zone s2 H2) as R2.
  assert (timeInBillingZone now2 zone = timeInBillingZone now1 zone) as E by congruence.
  rewrite E in R2. clear E.
  destruct (timeInBillingZone now1 zone) as [v|e|]; [|by rewrite R1, R2|done].
  destruct R1 as (t1 & -> & Hc1), R2 as (t2 & -> & Hc2).
  simpl. split; [done|]. split_and!; auto.
Qed.

(** ** Arguments *)

Definition arg_sim (a1 a2 : argument) : Prop := fst a1 = fst a2 /\ sim (snd a1) (snd a2).

Lemma sim_boolean a1 a2 : arg_sim a1 a2 -> sim (boolean_of a1) (boolean_of a2).
Proof.
  intros [Hp Hm]. apply sim_bind; [done|]. intros r. apply sim_lift; [by rewrite Hp|].
  unfold as_boolean. by destruct (rv_value r).
Qed.

Lemma sim_numeric a1 a2 : arg_sim a1 a2 -> sim (numeric_of a1) (numeric_of a2).
Proof.
  intros [Hp Hm]. apply sim_bind; [done|]. intros r. apply sim_lift; [by rewrite Hp|].
  unfold as_numeric. by destruct (rv_value r).
Qed.

Lemma sim_string a1 a2 : arg_sim a1 a2 -> sim (string_of a1) (string_of a2).
Proof.
  intros [Hp Hm]. apply sim_bind; [done|]. intros r. apply sim_lift; [by rewrite Hp|].
  unfold as_string. by destruct (rv_value r).
Qed.

Lemma sim_arg args (g1 g2 : node -> M RuntimeValue) i :
  (forall a, a ∈ args -> sim (g1 a) (g2 a)) ->
  arg_sim (arg (map (fun a => (node_start a, g1 a)) args) i)
          (arg (map (fun a => (node_start a, g2 a)) args) i).
Proof.
  intros Hg. unfold arg. rewrite !list_lookup_fmap.
  destruct (args !! i) as [a|] eqn:Ha; simpl.
  - split; [done|]. apply Hg. by eapply list_elem_of_lookup_2.
  - split; [done|]. by apply sim_lift.
Qed.

(** ** Contexts that agree on what a node reads *)

Definition agree_node (m : node) : Prop :=
  match m with
  | Variable_ x s _ => variable_value ctx1 x s = variable_value ctx2 x s
  | Call f _ _ _ =>
      (f = js "param" ->
       option_map req_body (ctx_request ctx1) = option_map req_body (ctx_request ctx2)) /\
      (f = js "header" ->
       option_map (fun _ => headers1) (ctx_request ctx1)
       = option_map (fun _ => headers2) (ctx_request ctx2)) /\
      (f = js "u" -> ctx_usage ctx1 = ctx_usage ctx2) /\
      (includes_str TIME_FUNCTIONS f = true -> now1 = now2) /\
      (f = js "fixed" -> forall amount s1 s2,
         Rel s1 s2 -> Rel (set_fixed amount s1) (set_fixed amount s2)) /\
      (f = js "tier" -> forall name s1 s2,
         Rel s1 s2 -> Rel (set_tier name s1) (set_tier name s2))
  | _ => True
  end.

Definition agree (n : node) : Prop := Forall agree_node (postorder n).

Lemma variable_fuel ctx x pos : variable_value ctx x pos <> OutOfFuel.
Proof. unfold variable_value. repeat case_match; done. Qed.

Lemma check_fuel pos r : check_value pos r <> OutOfFuel.
Proof. unfold check_value. repeat case_match; done. Qed.

Lemma binary_values_fuel o pos vl vr : binary_values o pos vl vr <> OutOfFuel.
Proof. unfold binary_values, arithmetic, fail_at. repeat case_match; done. Qed.

Section Call.
Variables g1 g2 : node -> M RuntimeValue.
Variable args : list node.
Hypothesis Hargs : forall a, a ∈ args -> sim (g1 a) (g2 a).
Notation args1 := (map (fun a => (node_start a, g1 a)) args).
Notation args2 := (map (fun a => (node_start a, g2 a)) args).

Lemma sim_number_call f : sim (number_call f args1) (number_call f args2).
Proof.
  apply sim_bind; [by apply sim_numeric, sim_arg|]. intros [x i]. apply sim_ret.
Qed.

Lemma sim_number_call2 f : sim (number_call2 f args1) (number_call2 f args2).
Proof.
  apply sim_bind; [by apply sim_numeric, sim_arg|]. intros [x i].
  apply sim_bind; [by apply sim_numeric, sim_arg|]. intros [y j]. apply sim_ret.
Qed.

Lemma sim_call f pos e :
  agree_node (Call f args pos e) ->
  sim (call ctx1 now1 headers1 f args1 pos) (call ctx2 now2 headers2 f args2 pos).
Proof.
  intros (Hparam & Hheader & Hu & Htime & Hfixed & Htier). unfold call.
  destruct (str_eqb f (js "fixed")) eqn:Ef.
  { apply str_eqb_eq in Ef. specialize (Hfixed Ef).
    apply sim_bind; [by apply sim_numeric, sim_arg|]. intros [x i].
    apply sim_bind; [sim_update|]. intros _. apply sim_ret. }
  destruct (str_eqb f (js "tier")) eqn:Et.
  { apply str_eqb_eq in Et. specialize (Htier Et).
    apply sim_bind; [by apply sim_string, sim_arg|]. intros l.
    apply sim_bind; [by apply sim_numeric, sim_arg|]. intros [x i].
    apply sim_bind; [sim_update|]. intros _. apply sim_ret. }
  destruct (str_eqb f (js "param")) eqn:Ep.
  { apply str_eqb_eq in Ep. specialize (Hparam Ep).
    apply sim_bind; [by apply sim_string, sim_arg|]. intros p.
    destruct (ctx_request ctx1) as [r1|], (ctx_request ctx2) as [r2|]; try done;
      try (by apply sim_lift).
    injection Hparam as ->. apply sim_bind; [|intros v; apply sim_ret].
    apply sim_lift; [done|apply readRequestPath_fuel]. }
  destruct (str_eqb f (js "header")) eqn:Eh.
  { apply str_eqb_eq in Eh. specialize (Hheader Eh).
    apply sim_bind; [by apply sim_string, sim_arg|]. intros p.
    destruct (ctx_request ctx1) as [r1|], (ctx_request ctx2) as [r2|]; try done;
      try (by apply sim_lift).
    injection Hheader as ->. apply sim_ret. }
  destruct (str_eqb f (js "u")) eqn:Eu.
  { apply str_eqb_eq in Eu. rewrite (Hu Eu).
    apply sim_bind; [by apply sim_string, sim_arg|]. intros p.
    destruct (ctx_usage ctx2); [apply sim_ret|by apply sim_lift]. }
  destruct (str_eqb f (js "has")).
  { apply sim_bind; [by apply sim_arg|]. intros v.
    apply sim_bind; [by apply sim_string, sim_arg|]. intros sub.
    destruct (_ || _); [apply sim_ret|].
    apply sim_bind; [apply sim_lift; [done|apply billingString_fuel]|].
    intros t. apply sim_ret. }
  destruct (str_eqb f (js "min")); [apply sim_number_call2|].
  destruct (str_eqb f (js "max")); [apply sim_number_call2|].
  destruct (str_eqb f (js "abs")); [apply sim_number_call|].
  destruct (str_eqb f (js "floor")); [apply sim_number_call|].
  destruct (str_eqb f (js "ceil")); [apply sim_number_call|].
  destruct (includes_str TIME_FUNCTIONS f); [|by apply sim_lift]. cbn [negb].
  apply sim_bind; [by apply sim_string, sim_arg|]. intros zone.
  apply sim_bind; [by apply sim_time, Htime|]. intros t. apply sim_ret.
Qed.
End Call.

Lemma sim_binary o l1 l2 r1 r2 pos :
  arg_sim l1 l2 -> arg_sim r1 r2 -> sim (binary o l1 r1 pos) (binary o l2 r2 pos).
Proof.
  intros Hl Hr. unfold binary.
  destruct (str_eqb o (js "&&")).
  { apply sim_bind; [by apply sim_boolean|]. intros [|]; [|apply sim_ret].
    apply sim_bind; [by apply sim_boolean|]. intros b. apply sim_ret. }
  destruct (str_eqb o (js "||")).
  { apply sim_bind; [by apply sim_boolean|]. intros [|]; [apply sim_ret|].
    apply sim_bind; [by apply sim_boolean|]. intros b. apply sim_ret. }
  apply sim_bind; [apply Hl|]. intros vl. apply sim_bind; [apply Hr|]. intros vr.
  apply sim_lift; [done|apply binary_values_fuel].
Qed.

Lemma sim_unary o a1 a2 : arg_sim a1 a2 -> sim (unary o a1) (unary o a2).
Proof.
  intros Ha. unfold unary. destruct (str_eqb o (js "!")).
  - apply sim_bind; [by apply sim_boolean|]. intros b. apply sim_ret.
  - apply sim_bind; [by apply sim_numeric|]. intros [x i]. apply sim_ret.
Qed.

(** Both runs agree as long as neither reaches the depth limit, or both
    count from the same depth. *)
Lemma evaluate_sim n : forall d1 d2,
  agree n -> (d1 = d2 \/ d1 + node_depth n < 256 /\ d2 + node_depth n < 256) ->
  sim (evaluate compiled ctx1 now1 headers1 n d1) (evaluate compiled ctx2 now2 headers2 n d2).
Proof.
  induction n as [n IH] using node_children_ind. intros d1 d2 Ha Hd.
  apply Forall_postorder in Ha as [Hn Has].
  assert (forall c, c ∈ children n ->
    sim (evaluate compiled ctx1 now1 headers1 c (S d1))
        (evaluate compiled ctx2 now2 headers2 c (S d2))) as Hch.
  { intros c Hc. pose proof (node_depth_child n c Hc). rewrite Forall_forall in IH, Has.
    apply list_elem_of_In in Hc. apply IH; [done|by apply Has|]. lia. }
  assert (forall m1 m2, sim m1 m2 ->
    sim (if 256 <? S d1 then lift (fail limit_ (js "evaluation depth"))
         else do* r := m1 in lift (check_value (node_start n) r))
        (if 256 <? S d2 then lift (fail limit_ (js "evaluation depth"))
         else do* r := m2 in lift (check_value (node_start n) r))) as Hwrap.
  { intros m1 m2 Hm.
    destruct (Nat.ltb_spec 256 (S d1)), (Nat.ltb_spec 256 (S d2)); try lia.
    - by apply sim_lift.
    - apply sim_bind; [done|]. intros r. apply sim_lift; [done|apply check_fuel]. }
  destruct n as [v i s e|x s e|f args s e|o a s e|o l r s e|c y no s e];
    cbn [children] in Hch; cbn [evaluate]; apply Hwrap; clear Hwrap IH Has.
  - apply sim_ret.
  - apply sim_lift; [done|apply variable_fuel].
  - by eapply sim_call.
  - apply sim_unary. split; [done|]. apply Hch. by left.
  - apply sim_binary; (split; [done|]); apply Hch; [by left|right; by left].
  - apply sim_bind; [apply sim_boolean; split; [done|]; apply Hch; by left|]. intros b.
    apply sim_bind.
    { destruct (find_index _ _ _); [|apply sim_ret].
      destruct b; [sim_update|by apply sim_modify]. }
    intros _. destruct b; apply Hch; [right; by left|right; right; by left].
Qed.
End Sim.
