(* ===== verification/ExprGuarantees.v ===== *)
(** * What the compiler and the runtime guarantee

    The properties of [parser.ts] and [runtime.ts] that their callers rely
    on, each with a concrete instance. *)

From Stdlib Require Import ZArith Lia Bool SpecFloat.
From stdpp Require Import base list numbers sets.
From S2P Require Import Prelude JsString JsNumber JsNumberFacts JsValue JsHost.
From S2P Require Import ExprTypes ExprParser ExprParserFacts ExprCompile ExprCompileFacts.
From S2P Require Import ExprRuntime ExprRuntimeFacts ExprRuntimeSim.

(** ** Parsing *)

(** C37: parsing terminates on every source text: the parser returns an AST
    or throws, it never uses up the fuel that bounds its recursion. *)
Theorem parse_terminates source : parse source <> OutOfFuel.
Proof. apply parse_total. Qed.

(** A parsed AST is well formed: every node has a non-empty source span
    inside its parent's, siblings are disjoint and in order, calls have the
    arity of their function, operators and variables are known, numeric
    literals are finite and non-negative, and no two nodes share a span, so
    that a node is identified by its position. *)
Theorem parse_well_formed source ast :
  parse source = Ok ast ->
  wf ast /\ node_end ast <= length source /\ NoDup (map node_span (postorder ast)).
Proof. intros [Hw Hb]%parse_ok. split_and!; [done..|]. by apply spans_NoDup. Qed.

Lemma parse_well_formed_witness :
  let source := js "len <= 2 ? tier('a', p * 3) : u('x') + 1" in
  exists ast, parse source = Ok ast /\
    (wf ast /\ node_end ast <= length source /\ NoDup (map node_span (postorder ast))).
Proof.
  eexists. split; [vm_compute; reflexivity|].
  apply (parse_well_formed (js "len <= 2 ? tier('a', p * 3) : u('x') + 1")).
  vm_compute. reflexivity.
Defined.

(** ** Compilation *)

(** A compiled expression is well typed by the checker's rules, its
    dependency sets are exactly the variables and functions its AST uses, and
    its request rules are exactly the conditionals [cond ? number : 1] whose
    condition probes the request or the time, in post-order. *)
Theorem compile_faithful source c :
  compile_uncached source = Ready c ->
  well_typed (compiled_ast c) /\
  (forall x, x ∈ compiled_variables c <-> uses_variable (postorder (compiled_ast c)) x) /\
  (forall f, f ∈ compiled_functions c <-> uses_function (postorder (compiled_ast c)) f) /\
  compiled_requestRules c = omap (traced_rule source) (postorder (compiled_ast c)).
Proof. intros [<- []]%compile_uncached_ok. done. Qed.

Definition sample_source : str :=
  js "tier('base', p * 2 + c * 8) * (header('x') == 'y' ? 2 : 1)".

Definition sample_compiled : CompiledBillingExpression :=
  match compile_uncached sample_source with
  | Ready c => c
  | Failed _ => Compiled [] (Variable_ [] 0 0) [] [] []
  end.

Lemma sample_ready : compile_uncached sample_source = Ready sample_compiled.
Proof. vm_compute. reflexivity. Qed.

Lemma compile_faithful_witness :
  well_typed (compiled_ast sample_compiled) /\
  (forall x, x ∈ compiled_variables sample_compiled <->
     uses_variable (postorder (compiled_ast sample_compiled)) x) /\
  (forall f, f ∈ compiled_functions sample_compiled <->
     uses_function (postorder (compiled_ast sample_compiled)) f) /\
  compiled_requestRules sample_compiled
    = omap (traced_rule sample_source) (postorder (compiled_ast sample_compiled)).
Proof. apply (compile_faithful sample_source). exact sample_ready. Defined.

(** The cache after compiling a sequence of sources. *)
Definition compile_all (sources : list str) : compiled_cache :=
  fold_left (fun cache source => snd (compileBillingExpression cache source)) sources [].

Lemma compile_all_ok sources : cache_ok (compile_all sources).
Proof.
  unfold compile_all. generalize cache_ok_empty. generalize (@nil (str * CompilationResult)).
  induction sources as [|s sources IH]; intros cache Hc; simpl; [done|].
  apply IH. by apply compile_cached.
Qed.

(** C38: the bounded compile cache is transparent: whatever was compiled
    before, compiling a source gives the result of compiling it afresh, and
    the cache never holds more than 128 entries or two for one source. *)
Theorem compile_cache_transparent sources source :
  fst (compileBillingExpression (compile_all sources) source) = compile_uncached source /\
  length (compile_all (sources ++ [source])) <= cache_limit /\
  NoDup (map fst (compile_all (sources ++ [source]))).
Proof.
  pose proof (compile_all_ok (sources ++ [source])) as [_ Hk Hs].
  split; [|done]. apply compile_cached, compile_all_ok.
Qed.

(** compiling always ends with a compiled expression or a diagnostic of
    the compiler; the traversals and loops never run out of fuel. *)
Theorem compile_terminates source : compile_body source <> OutOfFuel.
Proof. apply compile_body_total. Qed.

(** ** Evaluation *)

Section RunFacts.
Context `{JSHost}.

Lemma agree_same (Rel : rt_state -> rt_state -> Prop) ctx now headers n :
  (forall amount s1 s2, Rel s1 s2 -> Rel (set_fixed amount s1) (set_fixed amount s2)) ->
  (forall name s1 s2, Rel s1 s2 -> Rel (set_tier name s1) (set_tier name s2)) ->
  agree ctx ctx now now headers headers Rel n.
Proof.
  intros Hf Ht. apply Forall_true. intros [ | | | | | ]; simpl; split_and?; auto.
Qed.

Lemma ofold_fuel_free {A B} (f : A -> B -> R A) l : forall a,
  (forall a b, f a b <> OutOfFuel) -> ofold f a l <> OutOfFuel.
Proof.
  induction l as [|x l IH]; intros a Hf; simpl; [done|].
  apply bind_fuel; [apply Hf|]. intros. by apply IH.
Qed.

Lemma headers_fuel context : request_headers context <> OutOfFuel.
Proof.
  apply ofold_fuel_free. intros acc [name v]. unfold set_header. by destruct v.
Qed.

Lemma headers_residual context e : request_headers context = Throw e -> residual_error e.
Proof.
  unfold request_headers. generalize (@nil (str * str)).
  generalize (match ctx_request context with
              | Some request => default [] (req_headers request) | None => [] end).
  induction l as [|[k v] l IH]; intros acc; cbn [ofold]; [done|].
  destruct (set_header acc (k, v)) as [acc'|e'|] eqn:E; simpl; [apply IH| |done].
  intros [= <-]. unfold set_header, fail in E.
  destruct v; try done; injection E as <-; intros _; vm_decide.
Qed.

(** The result of a run under any invariant its updates preserve. *)
Lemma run_node_inv (Inv : rt_state -> Prop) c context n :
  (forall amount st, Inv st -> Inv (set_fixed amount st)) ->
  (forall name st, Inv st -> Inv (set_tier name st)) ->
  (forall i st, Inv st -> Inv (set_matched i st)) ->
  (forall times st, Inv st -> Inv (set_times times st)) ->
  Inv (initial_state c) ->
  match run_node c context n with
  | Ok (_, st) => Inv st
  | Throw _ => True
  | OutOfFuel => False
  end.
Proof.
  intros H1 H2 H3 H4 Hi. unfold run_node.
  destruct (request_headers context) as [h|e|] eqn:Eh; simpl; [|done|].
  2: by apply headers_fuel in Eh.
  pose proof (evaluate_sim c context context (context_now context) (context_now context)
                h h (fun s _ => Inv s) (fun i s _ => H3 i s) (fun t _ s _ => H4 t s) n 0 0
                (agree_same _ _ _ _ _ (fun a s _ => H1 a s) (fun a s _ => H2 a s))
                (or_introl eq_refl)
                (initial_state c) (initial_state c)
                (conj (initial_coherent _ _) (conj (initial_coherent _ _) Hi))) as Hs.
  unfold sim_outcome, related in Hs.
  destruct (evaluate c context (context_now context) h n 0 (initial_state c))
    as [[v st]|e|]; [|done..]. tauto.
Qed.

(** What the fields of the runtime always satisfy. *)
Definition report_ok (c : CompiledBillingExpression) (st : rt_state) : Prop :=
  map (fun r => (rr_cond r, rr_multiplier r)) (rt_requestRules st)
    = map (fun r => (rule_cond r, rule_multiplier r)) (compiled_requestRules c) /\
  (rt_billingUnit st = unit_request <-> is_Some (rt_fixedPrice st)).

Lemma map_alter_mark i l :
  map (fun r => (rr_cond r, rr_multiplier r)) (alter mark_rule i l)
  = map (fun r => (rr_cond r, rr_multiplier r)) l.
Proof.
  revert i. induction l as [|r l IH]; intros [|i]; [done..|].
  change (alter mark_rule (S i) (r :: l)) with (r :: alter mark_rule i l).
  simpl. by rewrite IH.
Qed.

Lemma run_report c context n :
  match run_node c context n with
  | Ok (_, st) => report_ok c st
  | Throw _ => True
  | OutOfFuel => False
  end.
Proof.
  apply run_node_inv; unfold report_ok; simpl.
  - intros amount st [Hr _]. split; [done|]. split; [by eexists|done].
  - done.
  - intros i st [Hr Hu]. by rewrite map_alter_mark.
  - done.
  - split; [|split; [done|by intros [? ?]]].
    unfold initial_rules. by rewrite map_map.
Qed.

Lemma evaluate_body_inv c context r :
  evaluate_body c context = Ok r ->
  exists v st, run_node c context (compiled_ast c) = Ok (v, st) /\
    rv_value v = JNum (cost r) /\
    is_finite (cost r) = true /\ num_ltb (cost r) num_zero = false /\
    billingUnit r = rt_billingUnit st /\ fixedPrice r = rt_fixedPrice st /\
    matchedTier r = rt_matchedTier st /\ requestRules r = rt_requestRules st /\
    imageCount r = (if includes_str (compiled_variables c) (js "image_count")
                    then Some (default (lit 1) (ctx_imageCount context)) else None) /\
    Forall (fun e => exists x, snd e = JNum x /\ is_finite x = true /\
              num_ltb x num_zero = false) (default [] (ctx_tokens context)).
Proof.
  unfold evaluate_body. intros Hr. inv_bind.
  destruct (rv_value r0) as [ | | |x| | | ] eqn:Ev; try done.
  destruct (is_finite x && negb (num_ltb x num_zero)) eqn:Ec; [|done].
  injection Hr as <-. split_andb. exists r0, r1. simpl. split_and!; try done.
  clear -E. revert E. generalize (default [] (ctx_tokens context)). intros l.
  generalize tt at 1. induction l as [|[k v] l IH]; intros u E; [constructor|].
  simpl in E. inv_bind. constructor; [|by eapply IH].
  unfold valid_token in *. destruct v as [ | | |x| | | ]; try done.
  destruct (is_finite x && negb (num_ltb x num_zero)) eqn:Ec; [|done].
  split_andb. by exists x.
Qed.
End RunFacts.

(** C29: a successful evaluation reports a finite, non-negative cost; its
    request rules are the compiled ones, in order, with their conditions and
    multipliers; it is billed per request exactly when a fixed price was
    reached; the image count is reported exactly when the expression mentions
    it; and it only succeeds when every provided token count is a finite,
    non-negative number. *)
Theorem evaluation_report `{JSHost} c context r :
  evaluate_compiled c context = EvalSuccess r ->
  is_finite (cost r) = true /\ num_ltb (cost r) num_zero = false /\
  map (fun q => (rr_cond q, rr_multiplier q)) (requestRules r)
    = map (fun q => (rule_cond q, rule_multiplier q)) (compiled_requestRules c) /\
  (billingUnit r = unit_request <-> is_Some (fixedPrice r)) /\
  (is_Some (imageCount r) <-> js "image_count" ∈ compiled_variables c) /\
  Forall (fun e => exists x, snd e = JNum x /\ is_finite x = true /\
            num_ltb x num_zero = false) (default [] (ctx_tokens context)).
Proof.
  unfold evaluate_compiled. destruct (evaluate_body c context) as [r'|e|] eqn:E; try done.
  intros [= <-].
  apply evaluate_body_inv in E as (v & st & Hrun & _ & Hf & Hn & Hu & Hp & _ & Hrr & Hi & Ht).
  pose proof (run_report c context (compiled_ast c)) as Hrep. rewrite Hrun in Hrep.
  destruct Hrep as [Hrules Hunit]. rewrite Hrr, Hu, Hp, Hi. split_and!; try done.
  destruct (includes_str _ _) eqn:Ein.
  - apply includes_str_elem in Ein. split; [done|by eexists].
  - split; [by intros [? ?]|]. intros Hin. apply includes_str_elem in Hin. congruence.
Qed.

(** C2: type soundness.  If no sum has two operands of unknown type, the value
    of a compiled expression has the type the checker computed; if moreover
    no operand has an unknown type at all, evaluation never fails on a
    boolean condition, a numeric operand, a string argument or an
    arithmetic operand: the only type errors left are ordering values of
    different types, a modulo of non-integers, an invalid clock and a
    malformed request header. *)
Theorem type_soundness `{JSHost} source c context :
  compile_uncached source = Ready c -> no_dynamic_sum (compiled_ast c) ->
  match run_node c context (compiled_ast c) with
  | Ok (v, _) => has_type (static_type (compiled_ast c)) (rv_value v)
  | Throw e => fully_static (compiled_ast c) -> residual_error e
  | OutOfFuel => False
  end.
Proof.
  intros [_ Hc]%compile_uncached_ok Hg. unfold run_node.
  destruct (request_headers context) as [h|e|] eqn:Eh; simpl.
  - pose proof (evaluate_sound c context (context_now context) h (fun _ => True)
                  ltac:(done) ltac:(done) ltac:(done) ltac:(done) _ (co_wf _ Hc)
                  (co_typed _ Hc) Hg 0 (initial_state c) Logic.I) as Hs.
    unfold post in Hs. destruct (evaluate _ _ _ _ _ _ _) as [[v st]|e|]; [|done..].
    apply Hs.
  - intros _. by eapply headers_residual.
  - by apply headers_fuel in Eh.
Qed.

#[local] Existing Instance utc_host.

Definition sample_context : BillingSimulationContext :=
  MkContext None
    (Some [(js "p", JNum (lit 1000)); (js "c", JNum (lit 500)); (js "len", JNum (lit 1000))])
    (Some (MkRequest (JObj []) (Some [(js "X", JStr (js " y"))]))) None None.

Definition sample_result : BillingSuccess :=
  Success (lit 12000) unit_token None None (js "base")
    [RequestRule (js "header('x') == 'y'") (lit 2) true].

Lemma evaluation_report_witness :
  is_finite (cost sample_result) = true /\ num_ltb (cost sample_result) num_zero = false /\
  map (fun q => (rr_cond q, rr_multiplier q)) (requestRules sample_result)
    = map (fun q => (rule_cond q, rule_multiplier q)) (compiled_requestRules sample_compiled) /\
  (billingUnit sample_result = unit_request <-> is_Some (fixedPrice sample_result)) /\
  (is_Some (imageCount sample_result) <->
     js "image_count" ∈ compiled_variables sample_compiled) /\
  Forall (fun e => exists x, snd e = JNum x /\ is_finite x = true /\
            num_ltb x num_zero = false) (default [] (ctx_tokens sample_context)).
Proof.
  apply (evaluation_report sample_compiled sample_context). vm_compute. reflexivity.
Defined.

Definition sample_static : str := js "tier('a' + 'b', max(p, 2) * (c > 1 ? 3 : 4))".
Definition sample_static_compiled : CompiledBillingExpression :=
  match compile_uncached sample_static with
  | Ready c => c
  | Failed _ => sample_compiled
  end.

Lemma type_soundness_witness :
  match run_node sample_static_compiled sample_context (compiled_ast sample_static_compiled) with
  | Ok (v, _) => has_type (static_type (compiled_ast sample_static_compiled)) (rv_value v)
  | Throw e => fully_static (compiled_ast sample_static_compiled) -> residual_error e
  | OutOfFuel => False
  end.
Proof.
  apply (type_soundness sample_static); [vm_compute; reflexivity|].
  unfold no_dynamic_sum. vm_decide.
Defined.

(** ** Dependencies *)

(** Two contexts that give a compiled expression the same inputs: they agree
    on the tokens it mentions, on the image count, request body, headers,
    usage facts and clock if it mentions those, and both are well formed. *)
Record same_inputs `{JSHost} (c : CompiledBillingExpression)
    (ctx1 ctx2 : BillingSimulationContext) (h1 h2 : list (str * str)) : Prop := SameInputs {
  si_headers1 : request_headers ctx1 = Ok h1;
  si_headers2 : request_headers ctx2 = Ok h2;
  si_valid1 : ofold (fun _ e => valid_token e) tt (default [] (ctx_tokens ctx1)) = Ok tt;
  si_valid2 : ofold (fun _ e => valid_token e) tt (default [] (ctx_tokens ctx2)) = Ok tt;
  si_tokens : forall x, x ∈ compiled_variables c ->
    assoc_str (default [] (ctx_tokens ctx1)) x = assoc_str (default [] (ctx_tokens ctx2)) x;
  si_images : js "image_count" ∈ compiled_variables c -> ctx_imageCount ctx1 = ctx_imageCount ctx2;
  si_body : js "param" ∈ compiled_functions c ->
    option_map req_body (ctx_request ctx1) = option_map req_body (ctx_request ctx2);
  si_header : js "header" ∈ compiled_functions c ->
    option_map (fun _ => h1) (ctx_request ctx1) = option_map (fun _ => h2) (ctx_request ctx2);
  si_usage : js "u" ∈ compiled_functions c -> ctx_usage ctx1 = ctx_usage ctx2;
  si_now : forall f, f ∈ TIME_FUNCTIONS -> f ∈ compiled_functions c ->
    context_now ctx1 = context_now ctx2
}.

Section Dependencies.
Context `{JSHost}.

Lemma same_inputs_agree c ctx1 ctx2 h1 h2 :
  compiled_ok c -> same_inputs c ctx1 ctx2 h1 h2 ->
  agree ctx1 ctx2 (context_now ctx1) (context_now ctx2) h1 h2 same_visible
    (compiled_ast c).
Proof.
  intros Hc [? ? ? ? Ht Hi Hb Hh Hu Hn]. apply Forall_forall. intros m Hm.
  destruct m as [ |x s e|f args s e| | | ]; cbn [agree_node]; try exact Logic.I.
  - assert (x ∈ compiled_variables c) as Hx.
    { apply (co_variables _ Hc). by exists s, e. }
    unfold variable_value. destruct (str_eqb x (js "image_count")) eqn:E.
    + apply str_eqb_eq in E. subst. by rewrite Hi.
    + by rewrite Ht.
  - assert (f ∈ compiled_functions c) as Hf.
    { apply (co_functions _ Hc). by exists args, s, e. }
    split_and!; try (intros ->; by auto);
      try (intros _ a s1 s2 Hs; by apply same_visible_updates).
    intros Htime. apply includes_str_elem in Htime. by eapply Hn.
Qed.
(** Equal inputs, equal results. *)
Lemma evaluate_same_inputs c ctx1 ctx2 h1 h2 :
  compiled_ok c -> same_inputs c ctx1 ctx2 h1 h2 ->
  evaluate_compiled c ctx1 = evaluate_compiled c ctx2.
Proof.
  intros Hc Hs. pose proof (same_inputs_agree _ _ _ _ _ Hc Hs) as Ha.
  pose proof (evaluate_sim c _ _ _ _ _ _ _
    (fun i s1 s2 Hv => proj1 (proj2 (proj2 (same_visible_updates s1 s2 Hv))) i)
    (fun t1 t2 s1 s2 Hv => proj2 (proj2 (proj2 (same_visible_updates s1 s2 Hv))) t1 t2)
    _ 0 0 Ha (or_introl eq_refl) (initial_state c) (initial_state c)
    (conj (initial_coherent _ _) (conj (initial_coherent _ _) eq_refl))) as Hsim.
  destruct Hs. unfold evaluate_compiled, evaluate_body, run_node.
  rewrite si_headers3, si_headers4, si_valid3, si_valid4. cbn [obind].
  unfold sim_outcome in Hsim.
  destruct (evaluate c ctx1 _ h1 _ _ _) as [[v1 s1]|e1|],
           (evaluate c ctx2 _ h2 _ _ _) as [[v2 s2]|e2|]; try done.
  - destruct Hsim as [-> (_ & _ & Hv)]. apply visible_inj in Hv as (Hv1 & Hv2 & Hv3 & Hv4).
    cbn [obind]. rewrite Hv1, Hv2, Hv3, Hv4.
    destruct (includes_str (compiled_variables c) (js "image_count")) eqn:Ei; [|done].
    apply includes_str_elem in Ei. by rewrite (si_images0 Ei).
  - by subst.
Qed.
End Dependencies.

(** C3: an evaluation reads only what the compiler lists as dependencies:
    two contexts whose tokens are all valid amounts and whose headers are well
    formed (the evaluator checks both before it starts, listed or not), and
    which agree on the listed variables and on the inputs behind the listed
    functions, give the same result, error or report. *)
Theorem evaluation_reads_dependencies `{JSHost} source c ctx1 ctx2 h1 h2 :
  compile_uncached source = Ready c -> same_inputs c ctx1 ctx2 h1 h2 ->
  evaluate_compiled c ctx1 = evaluate_compiled c ctx2.
Proof. intros [_ Hc]%compile_uncached_ok. by apply evaluate_same_inputs. Qed.

Definition other_context : BillingSimulationContext :=
  MkContext (Some (lit 4))
    (Some [(js "c", JNum (lit 500)); (js "cr", JNum (lit 9)); (js "p", JNum (lit 1000))])
    (Some (MkRequest JNull (Some [(js " x ", JStr (js "y"))]))) (Some []) (Some None).

Lemma evaluation_reads_dependencies_witness :
  evaluate_compiled sample_compiled sample_context
  = evaluate_compiled sample_compiled other_context.
Proof.
  apply (evaluation_reads_dependencies sample_source _ _ _
           [(js "x", js "y")] [(js "x", js "y")]); [exact sample_ready|].
  split; try (vm_compute; reflexivity).
  - intros x Hx. vm_compute in Hx.
    repeat (apply elem_of_cons in Hx as [->|Hx]; [vm_compute; reflexivity|]).
    by apply not_elem_of_nil in Hx.
  - intros Hx. exfalso. revert Hx. apply (bool_decide_unpack _). vm_compute. exact Logic.I.
  - intros Hx. exfalso. revert Hx. apply (bool_decide_unpack _). vm_compute. exact Logic.I.
  - intros Hx. exfalso. revert Hx. apply (bool_decide_unpack _). vm_compute. exact Logic.I.
  - intros f Hf Hx. exfalso. revert Hx. unfold TIME_FUNCTIONS in Hf.
    repeat (apply elem_of_cons in Hf as [->|Hf];
      [apply (bool_decide_unpack _); vm_compute; exact Logic.I|]).
    by apply not_elem_of_nil in Hf.
Defined.

(** The per-zone time cache and the depth counter are invisible: below
    the depth limit, evaluating a node from any state with a coherent cache,
    at any depth, gives the value, visible fields or error of evaluating it
    at depth 0 from any other such state, and leaves the cache coherent. *)
Theorem time_cache_transparent `{JSHost} c context now headers n d st1 st2 :
  visible st1 = visible st2 -> coherent now st1 -> coherent now st2 ->
  d + node_depth n < 256 ->
  match evaluate c context now headers n d st1, evaluate c context now headers n 0 st2 with
  | Ok (v1, s1), Ok (v2, s2) => v1 = v2 /\ visible s1 = visible s2 /\ coherent now s1
  | Throw e1, Throw e2 => e1 = e2
  | _, _ => False
  end.
Proof.
  intros Hv H1 H2 Hd. assert (0 + node_depth n < 256) as Hd0 by lia.
  pose proof (evaluate_sim c context context now now headers headers same_visible
    (fun i s1 s2 Hs => proj1 (proj2 (proj2 (same_visible_updates s1 s2 Hs))) i)
    (fun t1 t2 s1 s2 Hs => proj2 (proj2 (proj2 (same_visible_updates s1 s2 Hs))) t1 t2)
    n d 0
    (agree_same _ _ _ _ _ (fun a s1 s2 Hs => proj1 (same_visible_updates s1 s2 Hs) a)
       (fun a s1 s2 Hs => proj1 (proj2 (same_visible_updates s1 s2 Hs)) a))
    (or_intror (conj Hd Hd0)) st1 st2 (conj H1 (conj H2 Hv))) as Hs.
  unfold sim_outcome, related in Hs.
  destruct (evaluate c context now headers n d st1) as [[v1 s1]|e1|],
           (evaluate c context now headers n 0 st2) as [[v2 s2]|e2|]; try done. tauto.
Qed.

Lemma time_cache_transparent_witness :
  let n := Call (js "hour") [Literal (LStr (js "UTC")) None 5 10] 0 11 in
  let st1 := RtState [] unit_token None [(js "UTC", utc_time 7200000)] [] in
  let st2 := RtState [] unit_token None [] [] in
  match evaluate sample_compiled empty_context (Some 7200000%Z) [] n 3 st1,
        evaluate sample_compiled empty_context (Some 7200000%Z) [] n 0 st2 with
  | Ok (v1, s1), Ok (v2, s2) =>
      v1 = v2 /\ visible s1 = visible s2 /\ coherent (Some 7200000%Z) s1
  | Throw e1, Throw e2 => e1 = e2
  | _, _ => False
  end.
Proof.
  cbv zeta. apply time_cache_transparent; [reflexivity| |done|simpl; lia].
  intros zone v. cbn [rt_timeValues assoc_str].
  destruct (str_eqb (js "UTC") zone) eqn:E; [|done]. apply str_eqb_eq in E as <-.
  intros [= <-]. reflexivity.
Defined.

(** ** Request paths *)

(** [path] with the characters a path gives a meaning escaped. *)
Definition escape_key (key : str) : str :=
  flat_map (fun c => if (c =? 92)%N || (c =? 46)%N || bool_decide (c ∈ path_special)
                     then [92%N; c] else [c]) key.

Lemma split_path_key path key rest : forall parts part,
  split_path path parts part (escape_key key ++ rest)
  = split_path path parts (part ++ key) rest.
Proof.
  induction key as [|c key IH]; intros parts part; cbn [escape_key flat_map app].
  { by rewrite app_nil_r. }
  fold (escape_key key).
  destruct ((c =? 92)%N || (c =? 46)%N || bool_decide (c ∈ path_special)) eqn:E.
  - cbn [app]. cbn [split_path]. rewrite N.eqb_refl, IH. by rewrite <- app_assoc.
  - cbn [app]. cbn [split_path].
    apply orb_false_iff in E as [[-> ->]%orb_false_iff ->].
    rewrite IH. by rewrite <- app_assoc.
Qed.

Lemma split_path_keys path keys : forall parts key,
  split_path path parts [] (join (js ".") (map escape_key (key :: keys)))
  = Ok (parts ++ key :: keys).
Proof.
  induction keys as [|k keys IH]; intros parts key.
  - cbn [map join]. rewrite <- (app_nil_r (escape_key key)), split_path_key. done.
  - change (join (js ".") (map escape_key (key :: k :: keys)))
      with (escape_key key ++ js "." ++ join (js ".") (map escape_key (k :: keys))).
    rewrite split_path_key.
    change (js "." ++ join (js ".") (map escape_key (k :: keys)))
      with (46%N :: join (js ".") (map escape_key (k :: keys))).
    cbn [split_path]. change ((46 =? 92)%N) with false. rewrite N.eqb_refl. cbv match.
    rewrite IH. by rewrite <- app_assoc.
Qed.

(** Following own properties from a body. *)
Fixpoint follow (body : jsval) (keys : list str) : jsval :=
  match keys with
  | [] => body
  | k :: keys' => follow (get_field body k) keys'
  end.

(** The objects met on the way. *)
Fixpoint objects_along (body : jsval) (keys : list str) : Prop :=
  match keys with
  | [] => True
  | k :: keys' => (exists fields, body = JObj fields) /\ objects_along (get_field body k) keys'
  end.

Lemma walk_path_follow path keys : forall body,
  objects_along body keys ->
  walk_path path keys body
  = Ok (if is_nullish (follow body keys) then JNull else follow body keys).
Proof.
  induction keys as [|k keys IH]; intros body Hb; [done|].
  destruct Hb as [[fields ->] Hb]. cbn [walk_path follow get_field] in *.
  destruct (assoc_str fields k) as [v|] eqn:E; simpl in *; [by apply IH|].
  destruct keys as [|k' keys]; [done|]. by destruct Hb as [[? ?] _].
Qed.

(** A request path built from property names reads that property: for any
    non-empty list of keys along which the body holds objects, the path that
    joins the escaped keys with dots, when trimming leaves it alone, yields
    the nested value, with undefined read as null. *)
Theorem request_path_reads_keys body key keys :
  let path := join (js ".") (map escape_key (key :: keys)) in
  trim path = path -> path <> [] -> objects_along body (key :: keys) ->
  readRequestPath body path
  = Ok (if is_nullish (follow body (key :: keys)) then JNull
        else follow body (key :: keys)).
Proof.
  cbv zeta. intros Ht Hne Hb. unfold readRequestPath. rewrite Ht.
  destruct (join (js ".") (map escape_key (key :: keys))) as [|c s] eqn:E; [done|].
  rewrite <- E, split_path_keys. cbn [obind app]. by apply walk_path_follow.
Qed.

Lemma request_path_reads_keys_witness :
  readRequestPath (JObj [(js "a.b", JObj [(js "x?", JNum (lit 7))])])
    (join (js ".") (map escape_key [js "a.b"; js "x?"]))
  = Ok (JNum (lit 7)).
Proof.
  apply (request_path_reads_keys (JObj [(js "a.b", JObj [(js "x?", JNum (lit 7))])])
           (js "a.b") [js "x?"]); [vm_compute; reflexivity|vm_compute; discriminate|].
  split; [by eexists|]. split; [by eexists|done].
Defined.
