(* ===== verification/ExprStructure.v ===== *)
(** * Structural helpers on expression text

    Models [features/pricing/lib/billing-expression/structure.ts]: splitting
    at a top-level operator and removing the outermost parentheses, without
    parsing. *)

From Stdlib Require Import ZArith Lia Bool.
From stdpp Require Import base list numbers.
From S2P Require Import Prelude JsString.

Definition is_quote (c : N) : bool := (c =? 34)%N || (c =? 39)%N.
Definition is_open (c : N) : bool := (c =? 40)%N || (c =? 91)%N || (c =? 123)%N.
Definition is_close (c : N) : bool := (c =? 41)%N || (c =? 93)%N || (c =? 125)%N.
Definition nonempty (s : str) : bool := match s with [] => false | _ => true end.

(** The [for] loop: [rest] is the source from position [i] on, [skip] the
    characters a jump of [i] passes over.  [None] is the early return at a
    top-level question mark. *)
Fixpoint split_loop (source operator rest : str) (i start : nat) (depth : Z)
    (quote : option N) (skip : nat) (parts : list str) : option (nat * list str) :=
  match rest with
  | [] => Some (start, parts)
  | char :: rest' =>
      match skip with
      | S skip' => split_loop source operator rest' (S i) start depth quote skip' parts
      | O =>
          match quote with
          | Some q =>
              if (char =? 92)%N then
                split_loop source operator rest' (S i) start depth quote 1 parts
              else
                split_loop source operator rest' (S i) start depth
                  (if (char =? q)%N then None else quote) 0 parts
          | None =>
              if is_quote char then
                split_loop source operator rest' (S i) start depth (Some char) 0 parts
              else
                let depth := if is_open char then (depth + 1)%Z else depth in
                let depth := if is_close char then (depth - 1)%Z else depth in
                if negb (depth =? 0)%Z then
                  split_loop source operator rest' (S i) start depth None 0 parts
                else if (char =? 63)%N then None
                else if starts_with operator rest then
                  split_loop source operator rest' (S i) (i + length operator) depth None
                    (length operator - 1) (parts ++ [trim (slice_nat source start i)])
                else split_loop source operator rest' (S i) start depth None 0 parts
          end
      end
  end.

Definition splitExpressionAtTopLevel (source operator : str) : list str :=
  match split_loop source operator source 0 0 0 None 0 [] with
  | None => [trim source]
  | Some (start, parts) =>
      filter (fun s => nonempty s = true) (parts ++ [trim (drop start source)])
  end.

(** Whether the parenthesis that opens the text closes at its end: the inner
    [for] loop of [unwrapExpressionParens]. *)
Fixpoint closes_at_end (rest : str) (depth : Z) (quote : option N) (skip : bool) : bool :=
  match rest with
  | [] => false
  | char :: rest' =>
      if skip then closes_at_end rest' depth quote false
      else
        match quote with
        | Some q =>
            if (char =? 92)%N then closes_at_end rest' depth quote true
            else closes_at_end rest' depth (if (char =? q)%N then None else quote) false
        | None =>
            if is_quote char then closes_at_end rest' depth (Some char) false
            else
              let depth := if (char =? 40)%N then (depth + 1)%Z else depth in
              let depth := if (char =? 41)%N then (depth - 1)%Z else depth in
              if (depth =? 0)%Z then match rest' with [] => true | _ => false end
              else closes_at_end rest' depth None false
        end
  end.

Definition ends_with_close (s : str) : bool :=
  match reverse s with c :: _ => (c =? 41)%N | [] => false end.

Fixpoint unwrap_loop (fuel : nat) (expression : str) : str :=
  match fuel with
  | O => expression
  | S fuel' =>
      if starts_with (js "(") expression && ends_with_close expression then
        if closes_at_end expression 0 None false then
          unwrap_loop fuel' (trim (js_slice expression 1 (-1)))
        else expression
      else expression
  end.

(** Each round removes two characters, so the length bounds the rounds. *)
Definition unwrapExpressionParens (source : str) : str :=
  unwrap_loop (length source) (trim source).

(** ** Facts *)

(** Raw segments: the source cut at the operators that were found. *)
Definition segments (source operator : str) (raws : list str) : Prop :=
  source = join operator raws.

Lemma join_snoc sep l x :
  l <> [] -> join sep (l ++ [x]) = join sep l ++ sep ++ x.
Proof.
  induction l as [|a l IH]; [done|]. intros _. destruct l as [|b l]; [done|].
  change (join sep ((a :: b :: l) ++ [x])) with (a ++ sep ++ join sep ((b :: l) ++ [x])).
  rewrite IH by done. change (join sep (a :: b :: l)) with (a ++ sep ++ join sep (b :: l)).
  by rewrite <- !app_assoc.
Qed.

(** The invariant of the loop: [raws] are the segments cut so far. *)
Definition split_inv (source operator : str) (start : nat) (parts : list str)
    (raws : list str) : Prop :=
  parts = map trim raws /\
  take start source = concat (map (fun r => r ++ operator) raws).

Lemma split_loop_segments source operator rest : operator <> [] ->
  forall i start depth quote skip parts raws start' parts',
  rest = drop i source -> i <= length source -> start <= i + skip ->
  start <= length source ->
  split_inv source operator start parts raws ->
  split_loop source operator rest i start depth quote skip parts = Some (start', parts') ->
  exists raws', split_inv source operator start' parts' raws' /\ start' <= length source.
Proof.
  intros Hop. induction rest as [|char rest IH];
    intros i start depth quote skip parts raws start' parts' Hr Hi Hs Hl Hinv H.
  { injection H as <- <-. by exists raws. }
  assert (rest = drop (S i) source /\ S i <= length source) as [Hr' Hi'].
  { assert (length (char :: rest) = length source - i) as Hlen
      by (rewrite Hr; apply length_drop).
    simpl in Hlen. split; [|lia].
    replace (S i) with (i + 1) by lia. rewrite <- drop_drop, <- Hr. done. }
  cbn [split_loop] in H.
  destruct skip as [|skip].
  2: { refine (IH (S i) start _ _ _ _ raws _ _ Hr' Hi' _ Hl Hinv H); lia. }
  assert (start <= i) as Hs0 by lia. destruct quote as [q|].
  { destruct (char =? 92)%N.
    - refine (IH (S i) start _ _ _ _ raws _ _ Hr' Hi' _ Hl Hinv H); lia.
    - refine (IH (S i) start _ _ _ _ raws _ _ Hr' Hi' _ Hl Hinv H); lia. }
  destruct (is_quote char).
  { refine (IH (S i) start _ _ _ _ raws _ _ Hr' Hi' _ Hl Hinv H); lia. }
  destruct (negb _).
  { refine (IH (S i) start _ _ _ _ raws _ _ Hr' Hi' _ Hl Hinv H); lia. }
  destruct (char =? 63)%N; [done|].
  destruct (starts_with operator (char :: rest)) eqn:Eop.
  2: { refine (IH (S i) start _ _ _ _ raws _ _ Hr' Hi' _ Hl Hinv H); lia. }
  apply starts_with_app in Eop as [tail Htail].
  assert (i + length operator <= length source) as Hopl.
  { assert (length (operator ++ tail) = length source - i) as Hlen
      by (rewrite <- Htail, Hr; apply length_drop).
    rewrite length_app in Hlen. lia. }
  assert (1 <= length operator) by (destruct operator; [done|simpl; lia]).
  refine (IH (S i) (i + length operator) _ _ _ _ (raws ++ [slice_nat source start i])
            _ _ Hr' Hi' _ Hopl _ H); [lia|].
  destruct Hinv as [-> Ht]. split; [by rewrite map_app|].
  rewrite map_app, concat_app, <- Ht. cbn [map concat]. rewrite app_nil_r.
  rewrite app_assoc.
  replace (take start source ++ slice_nat source start i) with (take i source).
  2: { rewrite <- !slice_nat_from_0. symmetry. apply slice_nat_app; lia. }
  rewrite <- !slice_nat_from_0, <- (slice_nat_app source 0 i) by lia. f_equal.
  unfold slice_nat. replace (i + length operator - i) with (length operator) by lia.
  rewrite <- Hr, Htail. apply take_app_length.
Qed.

Lemma join_concat sep raws x : join sep (raws ++ [x]) = concat (map (fun r => r ++ sep) raws) ++ x.
Proof.
  induction raws as [|r raws IH]; [done|].
  destruct raws as [|r' raws].
  - cbn. by rewrite app_nil_r, <- app_assoc.
  - change (join sep ((r :: r' :: raws) ++ [x]))
      with (r ++ sep ++ join sep ((r' :: raws) ++ [x])).
    rewrite IH. cbn [map concat]. by rewrite <- !app_assoc.
Qed.

Lemma split_segments source operator :
  operator <> [] ->
  splitExpressionAtTopLevel source operator = [trim source] \/
  exists raws, source = join operator raws /\
    splitExpressionAtTopLevel source operator
    = filter (fun s => nonempty s = true) (map trim raws).
Proof.
  intros Hop. unfold splitExpressionAtTopLevel.
  destruct (split_loop source operator source 0 0 0 None 0 []) as [[start parts]|] eqn:E;
    [|by left].
  right. eapply (split_loop_segments _ _ _ Hop 0 0 _ _ _ _ []) in E
    as (raws & [-> Ht] & Hl); try done; try lia.
  exists (raws ++ [drop start source]). split.
  - rewrite join_concat, <- Ht. symmetry. apply take_drop.
  - by rewrite map_app.
Qed.

(** ** Parentheses *)

Definition wrapped (s : str) : bool :=
  starts_with (js "(") s && ends_with_close s && closes_at_end s 0 None false.

Lemma unwrap_step fuel s :
  unwrap_loop (S fuel) s
  = if wrapped s then unwrap_loop fuel (trim (js_slice s 1 (-1))) else s.
Proof.
  unfold wrapped. cbn [unwrap_loop].
  by destruct (starts_with (js "(") s && ends_with_close s), (closes_at_end s 0 None false).
Qed.

Lemma unwrap_loop_not_wrapped fuel s : wrapped s = false -> unwrap_loop fuel s = s.
Proof. intros H. destruct fuel; [done|]. by rewrite unwrap_step, H. Qed.

Lemma wrapped_shape s :
  wrapped s = true -> s = js "(" ++ js_slice s 1 (-1) ++ js ")".
Proof.
  unfold wrapped. intros H. split_andb.
  apply starts_with_app in H as [r ->]. unfold ends_with_close in H1.
  destruct (reverse (js "(" ++ r)) as [|c t] eqn:E; [done|]. apply N.eqb_eq in H1 as ->.
  destruct (decide (r = [])) as [->|Hr]; [done|].
  destruct (exists_last Hr) as (u & c & ->).
  rewrite app_assoc, reverse_app in E. injection E as Ec Et. subst c.
  unfold js_slice, clamp_index, slice_nat.
  replace (Z.to_nat (Z.of_nat (length (js "(" ++ u ++ [41%N])) + -1)) with (S (length u)).
  2: { rewrite !length_app. change (length (js "(")) with 1. simpl. lia. }
  rewrite !length_app. change (length (js "(")) with 1. simpl length.
  change (Z.ltb (-1) 0) with true. change (Z.ltb 1 0) with false. cbv match.
  replace (Nat.min (Z.to_nat 1) (1 + (length u + 1))) with 1 by lia.
  change (js "(" ++ u ++ [41%N]) with (40%N :: (u ++ [41%N])). cbn [drop].
  replace (S (length u) - 1) with (length u) by lia.
  rewrite drop_0, take_app_length. done.
Qed.

Lemma wrapped_length s :
  wrapped s = true -> S (length (trim (js_slice s 1 (-1)))) < length s.
Proof.
  intros H. pose proof (wrapped_shape s H) as E.
  pose proof (length_trim (js_slice s 1 (-1))) as Hl.
  apply (f_equal length) in E. rewrite !length_app in E.
  change (length (js "(")) with 1 in E. change (length (js ")")) with 1 in E. lia.
Qed.

(** [nested e s]: [s] is [e] inside matched parentheses and white space. *)
Inductive nested (e : str) : str -> Prop :=
| nested_here s : trim s = e -> nested e s
| nested_paren s inner :
    trim s = js "(" ++ inner ++ js ")" -> wrapped (trim s) = true -> nested e inner ->
    nested e s.

Lemma unwrap_loop_spec fuel : forall s,
  length s <= fuel ->
  nested (unwrap_loop fuel (trim s)) s /\
  wrapped (unwrap_loop fuel (trim s)) = false /\
  trim (unwrap_loop fuel (trim s)) = unwrap_loop fuel (trim s).
Proof.
  induction fuel as [|fuel IH]; intros s Hf.
  { destruct s; [|simpl in Hf; lia]. split_and!; [by constructor|done..]. }
  rewrite unwrap_step. destruct (wrapped (trim s)) eqn:E.
  - pose proof (wrapped_length _ E) as Hl. pose proof (length_trim s).
    pose proof (wrapped_shape _ E) as Hs.
    set (inner := js_slice (trim s) 1 (-1)) in *.
    assert (length inner <= fuel) as Hi.
    { apply (f_equal length) in Hs. rewrite !length_app in Hs.
      change (length (js "(")) with 1 in Hs. change (length (js ")")) with 1 in Hs. lia. }
    destruct (IH inner Hi) as (Hn & Hw & Ht). split_and!; [|done..].
    by eapply nested_paren.
  - split_and!; [by constructor|done|apply trim_idemp].
Qed.

Lemma unwrap_spec s :
  nested (unwrapExpressionParens s) s /\ wrapped (unwrapExpressionParens s) = false /\
  trim (unwrapExpressionParens s) = unwrapExpressionParens s.
Proof. by apply unwrap_loop_spec. Qed.

(** ** Guarantees *)

(** Splitting at a top-level operator loses nothing: either the text is
    kept whole, or there is a way to cut it at occurrences of the operator
    such that the result is the non-empty cuts, trimmed, and joining the cuts
    with the operator gives back the source. *)
Theorem split_lossless source operator :
  operator <> [] ->
  splitExpressionAtTopLevel source operator = [trim source] \/
  exists raws, source = join operator raws /\
    splitExpressionAtTopLevel source operator
    = filter (fun s => nonempty s = true) (map trim raws).
Proof. apply split_segments. Qed.

Lemma split_lossless_witness :
  splitExpressionAtTopLevel (js "a * (b * c) * 'x*y'") (js "*") = [trim (js "a * (b * c) * 'x*y'")]
  \/ exists raws, js "a * (b * c) * 'x*y'" = join (js "*") raws /\
    splitExpressionAtTopLevel (js "a * (b * c) * 'x*y'") (js "*")
    = filter (fun s => nonempty s = true) (map trim raws).
Proof. apply (split_lossless (js "a * (b * c) * 'x*y'") (js "*")). done. Defined.

(** unwrapping removes exactly the redundant parentheses: the result is
    nested in matched parentheses and white space inside the source, it is
    not itself wrapped in a matched pair, and unwrapping again changes
    nothing. *)
Theorem unwrap_normal s :
  nested (unwrapExpressionParens s) s /\
  wrapped (unwrapExpressionParens s) = false /\
  unwrapExpressionParens (unwrapExpressionParens s) = unwrapExpressionParens s.
Proof.
  destruct (unwrap_spec s) as (Hn & Hw & Ht). split_and!; [done..|].
  unfold unwrapExpressionParens at 1. rewrite Ht. by apply unwrap_loop_not_wrapped.
Qed.
