(* ===== verification/ExprStructureFacts.v ===== *)
(** * Splitting generated text

    The generators write texts made of quoted strings, balanced parentheses
    and plain characters, joined by an operator.  [walk] follows the state of
    the loop of [splitExpressionAtTopLevel] over one piece; a piece that is
    [held] leaves the loop where it was and offers no place to cut, so
    splitting a join gives back the pieces ([split_join_held]). *)

From Stdlib Require Import ZArith Lia Bool.
From stdpp Require Import base list numbers.
From S2P Require Import Prelude JsString JsNumber JsNumberFacts JsJson ExprStructure.

Lemma forallb_weaken {A} (p q : A -> bool) l :
  (forall c, p c = true -> q c = true) -> forallb p l = true -> forallb q l = true.
Proof. intros H. rewrite !forallb_forall. auto. Qed.

(** Depth, open quote, and whether the next character is escaped. *)
Record walk_state := MkWalk { w_depth : Z; w_quote : option N; w_skip : bool }.

Definition at_depth (d : Z) : walk_state := MkWalk d None false.

(** One character; [None] at a place where the loop may cut or give up. *)
Definition walk_step (avoid c : N) (w : walk_state) : option walk_state :=
  let '(MkWalk depth quote skip) := w in
  if skip then Some (MkWalk depth quote false)
  else
    match quote with
    | Some q =>
        Some (if (c =? 92)%N then MkWalk depth quote true
              else MkWalk depth (if (c =? q)%N then None else quote) false)
    | None =>
        if is_quote c then Some (MkWalk depth (Some c) false)
        else
          let depth := if is_open c then (depth + 1)%Z else depth in
          let depth := if is_close c then (depth - 1)%Z else depth in
          if (depth =? 0)%Z && ((c =? 63)%N || (c =? avoid)%N) then None
          else Some (at_depth depth)
    end.

Fixpoint walk (avoid : N) (s : str) (w : walk_state) : option walk_state :=
  match s with
  | [] => Some w
  | c :: s' => w' ← walk_step avoid c w; walk avoid s' w'
  end.

Lemma walk_app avoid s t w : walk avoid (s ++ t) w = w' ← walk avoid s w; walk avoid t w'.
Proof.
  revert w. induction s as [|c s IH]; intros w; [done|]. cbn [app walk].
  destruct (walk_step avoid c w); [apply IH|done].
Qed.

(** [held lo avoid s]: from every depth of at least [lo], the piece [s] is
    passed without a cut and the depth is what it was. *)
Definition held (lo : Z) (avoid : N) (s : str) : Prop :=
  forall d, (lo <= d)%Z -> walk avoid s (at_depth d) = Some (at_depth d).

Create HintDb held.

Lemma held_nil lo avoid : held lo avoid [].
Proof. done. Qed.

Lemma held_app lo avoid s t : held lo avoid s -> held lo avoid t -> held lo avoid (s ++ t).
Proof. intros Hs Ht d Hd. rewrite walk_app, Hs by done. cbn. by apply Ht. Qed.

Lemma held_le lo lo' avoid s : (lo <= lo')%Z -> held lo avoid s -> held lo' avoid s.
Proof. intros Hl H d Hd. apply H. lia. Qed.

(** A character outside quotes that neither nests nor cuts. *)
Definition plain_char (lo : Z) (avoid c : N) : bool :=
  negb (is_quote c) && negb (is_open c) && negb (is_close c) &&
  ((0 <? lo)%Z || negb ((c =? 63)%N || (c =? avoid)%N)).

Lemma held_plain lo avoid s :
  (0 <= lo)%Z -> forallb (plain_char lo avoid) s = true -> held lo avoid s.
Proof.
  intros Hlo H d Hd. induction s as [|c s IH]; [done|]. cbn [forallb] in H. split_andb.
  cbn [walk]. unfold walk_step at 1, at_depth at 1.
  unfold plain_char in H. split_andb. rewrite H, H3, H2.
  assert ((d =? 0)%Z && ((c =? 63)%N || (c =? avoid)%N) = false) as ->; [|by apply IH].
  apply orb_true_iff in H1 as [L|L].
  - apply Z.ltb_lt in L. destruct (Z.eqb_spec d 0); [lia|done].
  - apply negb_true_iff in L. by rewrite L, andb_false_r.
Qed.

Lemma held_const lo avoid s :
  (0 <= lo)%Z -> forallb (plain_char 0 avoid) s = true -> held lo avoid s.
Proof. intros. eapply held_le; [done|]. by apply held_plain. Qed.

Lemma held_parens lo avoid s :
  (0 <= lo)%Z -> (avoid <> 41)%N -> held (lo + 1) avoid s ->
  held lo avoid (js "(" ++ s ++ js ")").
Proof.
  intros Hlo Hav H d Hd. change (js "(") with [40%N]. change (js ")") with [41%N].
  cbn [app walk]. unfold walk_step at 1, at_depth at 1.
  change (is_quote 40) with false. change (is_open 40) with true.
  change (is_close 40) with false. cbv iota zeta.
  destruct (Z.eqb_spec (d + 1) 0); [lia|]. cbn [andb mbind option_bind].
  rewrite walk_app, (H (d + 1)%Z) by lia. cbn [mbind option_bind walk].
  unfold walk_step, at_depth at 1.
  change (is_quote 41) with false. change (is_open 41) with false.
  change (is_close 41) with true. cbv iota zeta.
  replace (d + 1 - 1)%Z with d by lia.
  change (41 =? 63)%N with false. destruct (N.eqb_spec 41 avoid); [congruence|].
  by rewrite andb_false_r.
Qed.

(** *** Quoted strings *)

(** Between quotes: the state of the loop inside a string. *)
Definition in_string (d : Z) : walk_state := MkWalk d (Some quote_unit) false.

Lemma walk_in_string_plain avoid c s d :
  (c <> 34)%N -> (c <> 92)%N -> walk avoid (c :: s) (in_string d) = walk avoid s (in_string d).
Proof.
  intros H1 H2. cbn [walk]. unfold walk_step, in_string at 1.
  destruct (N.eqb_spec c 92); [done|]. by destruct (N.eqb_spec c quote_unit).
Qed.

Lemma walk_in_string_pair avoid c s d :
  walk avoid (92%N :: c :: s) (in_string d) = walk avoid s (in_string d).
Proof. done. Qed.

Lemma hex_digit_char n : (n < 16)%N -> (hex_digit n <> 34)%N /\ (hex_digit n <> 92)%N.
Proof. intros H. unfold hex_digit. destruct (N.ltb_spec n 10); lia. Qed.

Lemma walk_unicode avoid c s d :
  walk avoid (unicode_escape c ++ s) (in_string d) = walk avoid s (in_string d).
Proof.
  change (unicode_escape c) with (92%N :: 117%N :: hex_digits c).
  unfold hex_digits. cbn [app]. rewrite walk_in_string_pair.
  by rewrite !walk_in_string_plain by (apply hex_digit_char, N.mod_lt; done).
Qed.

(** The letters after a backslash in [json_escape]. *)
Definition is_escape (e : N) : bool := existsb (N.eqb e) [34; 92; 98; 102; 110; 114; 116]%N.

(** The texts [json_escape] is made of: one induction for every scanner of
    string literals. *)
Lemma json_escape_ind (P : str -> str -> Prop) :
  P [] [] ->
  (forall c s t, P s t -> (c <> 34)%N -> (c <> 92)%N -> (32 <= c)%N -> P (c :: s) (c :: t)) ->
  (forall c e s t, P s t -> is_escape e = true -> P (c :: s) (92%N :: e :: t)) ->
  (forall c s t, P s t -> P (c :: s) (unicode_escape c ++ t)) ->
  forall s, P s (json_escape s).
Proof.
  intros H0 H1 H2 H3 s. induction s as [s IH] using (induction_ltof1 _ length).
  unfold ltof in IH. destruct s as [|c s]; [done|]. cbn [json_escape].
  assert (P s (json_escape s)) as Hs by (apply IH; simpl; lia).
  destruct (is_lead_surrogate c) eqn:L.
  - destruct s as [|d s'].
    { rewrite <- (app_nil_r (unicode_escape c)). by apply H3. }
    destruct (is_trail_surrogate d) eqn:T; [|by apply H3].
    unfold is_lead_surrogate, is_trail_surrogate, in_range in *.
    split_andb. rewrite !N.leb_le in *.
    apply H1; [|lia..]. apply H1; [|lia..]. apply IH. simpl. lia.
  - destruct (is_trail_surrogate c); [by apply H3|]. unfold json_escape_unit.
    repeat (match goal with
    | |- context [if (c =? ?k)%N then _ else _] =>
        destruct (N.eqb_spec c k); [by apply H2|]
    end).
    destruct (N.ltb_spec c 32); [by apply H3|]. by apply H1.
Qed.

Lemma walk_escaped avoid s : forall d r,
  walk avoid (json_escape s ++ r) (in_string d) = walk avoid r (in_string d).
Proof.
  intros d r. apply (json_escape_ind (fun _ t =>
    walk avoid (t ++ r) (in_string d) = walk avoid r (in_string d))); [done|..].
  - intros c _ t IH ? ? _. cbn [app]. by rewrite walk_in_string_plain.
  - intros c e _ t IH _. cbn [app]. by rewrite walk_in_string_pair.
  - intros c _ t IH. by rewrite <- app_assoc, walk_unicode.
Qed.

Lemma held_stringify lo avoid s : held lo avoid (json_stringify s).
Proof.
  intros d _. unfold json_stringify.
  change (walk avoid (quote_unit :: json_escape s ++ [quote_unit]) (at_depth d))
    with (walk avoid (json_escape s ++ [quote_unit]) (in_string d)).
  by rewrite walk_escaped.
Qed.

#[export] Hint Resolve held_nil held_app held_stringify : held.

Lemma held_join lo avoid sep l :
  held lo avoid sep -> Forall (held lo avoid) l -> held lo avoid (join sep l).
Proof.
  intros Hsep. induction 1 as [|s l Hs Hl IH]; [apply held_nil|].
  destruct l as [|t l]; [done|].
  change (join sep (s :: t :: l)) with (s ++ sep ++ join sep (t :: l)). auto with held.
Qed.

(** ** Splitting *)

Section Split.
Variables (avoid : N) (op : str).
Let operator : str := avoid :: op.

(** The loop follows [walk]. *)
Lemma split_loop_walk source s rest : forall i start w w' parts,
  walk avoid s w = Some w' ->
  split_loop source operator (s ++ rest) i start (w_depth w) (w_quote w)
    (if w_skip w then 1 else 0) parts
  = split_loop source operator rest (i + length s) start (w_depth w') (w_quote w')
      (if w_skip w' then 1 else 0) parts.
Proof.
  induction s as [|c s IH]; intros i start w w' parts H.
  { injection H as <-. by rewrite Nat.add_0_r. }
  cbn [walk] in H. destruct (walk_step avoid c w) as [w1|] eqn:E; [|done]. cbn in H.
  replace (i + length (c :: s)) with (S i + length s) by (simpl; lia).
  rewrite <- (IH (S i) start w1 w' parts H).
  destruct w as [depth quote skip]. cbn [walk_step w_depth w_quote w_skip] in *.
  destruct skip; [by injection E as <-|].
  destruct quote as [q|]; cbn [app split_loop].
  { injection E as <-. by destruct (c =? 92)%N. }
  destruct (is_quote c); [by injection E as <-|].
  set (d := if is_close c then _ else _) in *.
  destruct (d =? 0)%Z; cbn [andb negb] in *.
  - destruct ((c =? 63)%N || (c =? avoid)%N) eqn:Ec; [done|]. injection E as <-.
    apply orb_false_iff in Ec as [-> Ec].
    unfold operator at 1. cbn [starts_with]. by rewrite N.eqb_sym, Ec.
  - by injection E as <-.
Qed.

Lemma split_loop_held source s rest i start parts :
  held 0 avoid s ->
  split_loop source operator (s ++ rest) i start 0 None 0 parts
  = split_loop source operator rest (i + length s) start 0 None 0 parts.
Proof.
  intros H. pose proof (split_loop_walk source s rest i start (at_depth 0) (at_depth 0) parts
    (H 0%Z ltac:(lia))) as E. exact E.
Qed.

(** The operator between two pieces. *)
Hypothesis op_plain : forall c, c ∈ operator -> is_quote c = false /\ is_open c = false /\
                                 is_close c = false /\ (c =? 63)%N = false.

Lemma split_loop_skip source s rest : forall i start parts,
  split_loop source operator (s ++ rest) i start 0 None (length s) parts
  = split_loop source operator rest (i + length s) start 0 None 0 parts.
Proof.
  induction s as [|c s IH]; intros i start parts; [by rewrite Nat.add_0_r|].
  cbn [app length split_loop]. rewrite IH. f_equal. lia.
Qed.

Lemma split_loop_operator source rest i start parts :
  split_loop source operator (operator ++ rest) i start 0 None 0 parts
  = split_loop source operator rest (i + length operator) (i + length operator) 0 None 0
      (parts ++ [trim (slice_nat source start i)]).
Proof.
  destruct (op_plain avoid) as (Q & O & C & Q'); [by left|].
  unfold operator at 2. cbn [app split_loop].
  rewrite Q, O, C, Q'. cbn [Z.eqb negb].
  change (avoid :: op ++ rest) with (operator ++ rest). rewrite starts_with_self.
  replace (length operator - 1) with (length op) by (simpl; lia).
  rewrite split_loop_skip. f_equal. simpl. lia.
Qed.

(** Pieces padded with space, in sequence. *)
Lemma split_loop_join source l : forall done raws start,
  Forall (held 0 avoid) (done :: l) ->
  source = concat (map (fun r => r ++ operator) raws) ++ join operator (done :: l) ->
  start = length (concat (map (fun r => r ++ operator) raws)) ->
  exists start' parts',
    split_loop source operator (join operator (done :: l)) start start 0 None 0 (map trim raws)
    = Some (start', parts') /\
    parts' ++ [trim (drop start' source)] = map trim (raws ++ done :: l).
Proof.
  induction l as [|x l IH]; intros a raws start Hh Hsrc Hst.
  - apply Forall_inv in Hh. cbn [join] in *. exists start, (map trim raws).
    rewrite <- (app_nil_r a) at 1. rewrite split_loop_held by done. split; [done|].
    rewrite map_app, Hsrc, Hst, drop_app_length. done.
  - inversion Hh as [|? ? Ha Hl]; subst a l0.
    change (join operator (x0 :: x :: l)) with (x0 ++ operator ++ join operator (x :: l)) in *.
    rewrite split_loop_held by done. rewrite split_loop_operator.
    assert (slice_nat source start (start + length x0) = x0) as ->.
    { unfold slice_nat. rewrite Hsrc, Hst, drop_app_length.
      replace (_ + length x0 - _) with (length x0) by lia. apply take_app_length. }
    destruct (IH x (raws ++ [x0]) (start + length x0 + length operator)) as (s' & p' & E & P).
    + done.
    + rewrite Hsrc, map_app, concat_app. cbn [map concat]. rewrite app_nil_r, <- !app_assoc. done.
    + rewrite map_app, concat_app. cbn [map concat]. rewrite app_nil_r, !length_app, <- Hst. lia.
    + exists s', p'. rewrite map_app in E. cbn [map] in E. rewrite E. split; [done|].
      rewrite P, <- app_assoc. done.
Qed.

(** A question mark outside parentheses keeps the source whole. *)
Lemma split_question s rest :
  held 0 avoid s -> splitExpressionAtTopLevel (s ++ 63%N :: rest) operator = [trim (s ++ 63%N :: rest)].
Proof.
  intros H. unfold splitExpressionAtTopLevel. by rewrite split_loop_held.
Qed.

Lemma split_join_held l :
  l <> [] -> Forall (held 0 avoid) l ->
  splitExpressionAtTopLevel (join operator l) operator
  = filter (fun s => nonempty s = true) (map trim l).
Proof.
  destruct l as [|a l]; [done|]. intros _ H. unfold splitExpressionAtTopLevel.
  destruct (split_loop_join (join operator (a :: l)) l a [] 0 H eq_refl eq_refl)
    as (s' & p' & E & P).
  change (map trim []) with (@nil str) in E. by rewrite E, P.
Qed.
End Split.

(** ** White space around the operator *)

Lemma drop_while_all p (a s : str) : forallb p a = true -> drop_while p (a ++ s) = drop_while p s.
Proof. induction a as [|c a IH]; [done|]. cbn. intros H. split_andb. rewrite H. by apply IH. Qed.

Lemma trim_pad a s b :
  forallb is_space a = true -> forallb is_space b = true -> trim (a ++ s ++ b) = trim s.
Proof.
  intros Ha Hb. unfold trim, trim_start. rewrite drop_while_all by done. unfold trim_end.
  destruct (drop_while_spec is_space s) as (u & Hs & Hu).
  pose proof (drop_while_head is_space s) as Hh.
  destruct (drop_while is_space s) as [|c t] eqn:E.
  - rewrite app_nil_r in Hs. subst s.
    assert (drop_while is_space (u ++ b) = []) as ->; [|done].
    rewrite <- (app_nil_r (u ++ b)). apply drop_while_all. by rewrite forallb_app, Hu, Hb.
  - rewrite Hs, <- app_assoc, drop_while_all by done.
    rewrite (drop_while_id is_space ((c :: t) ++ b)) by done.
    rewrite reverse_app, drop_while_all; [done|].
    by rewrite forallb_reverse.
Qed.

Lemma join_cons sep a b l : join sep (a :: b :: l) = a ++ sep ++ join sep (b :: l).
Proof. done. Qed.

(** A join with spaces around the operator is a join of padded pieces. *)
Lemma join_padded avoid op l : forall pre,
  l <> [] -> forallb is_space pre = true -> held 0 avoid pre -> (avoid <> 32)%N ->
  Forall (held 0 avoid) l ->
  exists l', pre ++ join ([32%N] ++ (avoid :: op) ++ [32%N]) l = join (avoid :: op) l' /\
    l' <> [] /\ map trim l' = map trim l /\ Forall (held 0 avoid) l'.
Proof.
  intros pre. revert pre. induction l as [|a l IH]; intros pre Hne Hpre Hp Hav Hl; [done|].
  inversion Hl as [|? ? Ha Hl']; subst.
  assert (held 0 avoid [32%N]) as H32.
  { apply held_plain; [done|]. cbn [forallb]. unfold plain_char.
    change (32 =? 63)%N with false. cbn [negb andb orb is_quote is_open is_close].
    destruct (N.eqb_spec 32 avoid); [congruence|done]. }
  destruct l as [|b l].
  - exists [pre ++ a]. cbn [join map]. split_and!; [done|done| |by auto with held].
    f_equal. by rewrite <- (app_nil_r a) at 1; rewrite trim_pad.
  - destruct (IH [32%N]) as (l' & E & N & T & F); try done.
    exists ((pre ++ a ++ [32%N]) :: l'). destruct l' as [|b' l']; [done|].
    rewrite !join_cons, <- E. split_and!; [by rewrite <- !app_assoc|done| |].
    + cbn [map] in *. f_equal; [by apply trim_pad|done].
    + constructor; [by auto with held|done].
Qed.

(** Splitting undoes joining: the pieces are held, trimmed and not empty. *)
Lemma split_join_spaced avoid op l :
  (forall c, c ∈ avoid :: op -> is_quote c = false /\ is_open c = false /\
                                is_close c = false /\ (c =? 63)%N = false) ->
  (avoid <> 32)%N -> l <> [] ->
  Forall (fun s => held 0 avoid s /\ trim s = s /\ s <> []) l ->
  splitExpressionAtTopLevel (join ([32%N] ++ (avoid :: op) ++ [32%N]) l) (avoid :: op) = l.
Proof.
  intros Hop Hav Hne H.
  assert (Forall (held 0 avoid) l) as Hh by (eapply Forall_impl; [|exact H]; by intros s (? & _)).
  destruct (join_padded avoid op l [] Hne eq_refl (held_nil _ _) Hav Hh) as (l' & E & N & T & F).
  cbn [app] in E |- *. rewrite E, split_join_held by done. rewrite T.
  clear -H. induction H as [|s l (_ & Ts & Ns) H IH]; [done|].
  cbn [map]. rewrite Ts. destruct s as [|c s]; [done|].
  rewrite filter_cons_True by done. by rewrite IH.
Qed.

(** ** Trimmed text *)

Definition ends_clean (s : str) : bool :=
  match s with [] => true | c :: _ => negb (is_space c) end &&
  match reverse s with [] => true | c :: _ => negb (is_space c) end.

Lemma ends_clean_trim s : ends_clean s = true -> trim s = s.
Proof.
  unfold ends_clean. intros H. split_andb. unfold trim, trim_start, trim_end.
  rewrite (drop_while_id _ s); [|by destruct s; [|apply negb_true_iff]].
  rewrite drop_while_id; [apply reverse_involutive|].
  by destruct (reverse s); [|apply negb_true_iff].
Qed.

Lemma trim_ends_clean s : trim s = s -> ends_clean s = true.
Proof.
  intros H. unfold ends_clean. apply andb_true_iff. split.
  - rewrite <- H. pose proof (drop_while_head is_space s) as Hh.
    pose proof (trim_start_end (trim_start s) Hh) as He. fold (trim s) in He.
    destruct (trim s); [done|]. by rewrite He.
  - rewrite <- H. unfold trim, trim_end. rewrite reverse_involutive.
    pose proof (drop_while_head is_space (reverse (trim_start s))) as Hh.
    destruct (drop_while is_space _); [done|]. by rewrite Hh.
Qed.

(** Text that starts and ends with clean pieces. *)
Lemma ends_clean_app s m t :
  s <> [] -> t <> [] -> ends_clean s = true -> ends_clean t = true ->
  ends_clean (s ++ m ++ t) = true.
Proof.
  unfold ends_clean. intros Hs Ht H1 H2. split_andb. apply andb_true_iff. split.
  - by destruct s.
  - rewrite !reverse_app. destruct (reverse t) as [|c r] eqn:E; [|done].
    apply (f_equal reverse) in E. rewrite reverse_involutive in E. done.
Qed.

Lemma is_escape_elim (p : N -> bool) e :
  existsb p [34; 92; 98; 102; 110; 114; 116]%N = false -> is_escape e = true -> p e = false.
Proof.
  intros Hp He. destruct (p e) eqn:E; [|done].
  assert (existsb p [34; 92; 98; 102; 110; 114; 116]%N = true); [|congruence].
  apply existsb_exists in He as (x & Hx & ->%N.eqb_eq). apply existsb_exists. by exists x.
Qed.
