(* ===== verification/ExprPrint.v ===== *)
(** * Parsing generated text

    The converse of [ExprParserFacts]: text that is spelled from tokens with
    unambiguous ends is lexed into these tokens, and a derivation of the
    grammar over tokens is followed by the parser.  [erase] forgets the
    positions of an AST, so a derivation names the AST up to positions.
    [parse_derivation] is the result the generators use: a text whose tokens
    derive an expression parses, within the limits of the parser, to that
    expression. *)

From Stdlib Require Import ZArith Lia Bool SpecFloat.
From stdpp Require Import base list numbers.
From S2P Require Import Prelude JsString JsNumber JsNumberFacts JsValue JsJson ExprTypes ExprParser ExprParserFacts ExprStructure ExprStructureFacts.

(** ** Tokens *)

Inductive Tok : Type :=
| TkNum (text : str) (x : num) (integer : bool)
| TkStr (s : str)
| TkName (s : str)
| TkSym (s : str).

Definition tok_text (t : Tok) : str :=
  match t with
  | TkNum text _ _ => text
  | TkStr s => json_stringify s
  | TkName s | TkSym s => s
  end.

(** A token with the space in front of it. *)
Definition spelled : Type := bool * Tok.

Fixpoint spell (ts : list spelled) : str :=
  match ts with
  | [] => []
  | (sp, t) :: ts' => (if sp then [32%N] else []) ++ tok_text t ++ spell ts'
  end.

Definition name_text (s : str) : bool :=
  match s with c :: s' => (is_alpha c || (c =? 95)%N) && forallb is_word s' | [] => false end.

Definition number_text_ok (text : str) (x : num) (integer : bool) : bool :=
  match scan_decimal text with
  | Some (d, []) =>
      bool_decide (x = num_of_dec false d) && is_finite x &&
      Bool.eqb integer (negb (existsb is_point_or_e text)) &&
      (negb integer || is_safe_integer x)
  | _ => false
  end.

Definition tok_ok (t : Tok) : bool :=
  match t with
  | TkNum text x integer => number_text_ok text x integer
  | TkStr s => forallb is_unit s
  | TkName s => name_text s
  | TkSym s => includes_str (two_char_operators ++ one_char_operators) s
  end.

(** The token ends where the next text begins. *)
Definition ends_before (t : Tok) (rest : str) : bool :=
  match rest with
  | [] => true
  | c :: _ =>
      match t with
      | TkNum _ _ _ => negb (literal_char c)
      | TkStr _ => true
      | TkName _ => negb (is_word c)
      | TkSym _ => negb (c =? 61)%N
      end
  end.

Fixpoint toks_ok (ts : list spelled) : bool :=
  match ts with
  | [] => true
  | (_, t) :: ts' => tok_ok t && ends_before t (spell ts') && toks_ok ts'
  end.

Lemma spell_app ts us : spell (ts ++ us) = spell ts ++ spell us.
Proof.
  induction ts as [|[sp t] ts IH]; [done|]. cbn [app spell]. rewrite IH. by rewrite <- !app_assoc.
Qed.

(** ** Lexing one token *)

(** Text of another token class is no number. *)
Lemma scan_decimal_none c s :
  is_digit c = false -> (c <> 46)%N -> scan_decimal (c :: s) = None.
Proof.
  intros Hd Hp. unfold scan_decimal, scan_mantissa. cbn [span]. rewrite Hd.
  by destruct (N.eqb_spec c 46).
Qed.

(** *** Strings *)

Lemma lex_string_plain start c s cur v :
  (c <> 34)%N -> (c <> 92)%N -> (32 <= c)%N ->
  lex_string start 34 (c :: s) cur v = lex_string start 34 s (S cur) (v ++ [c]).
Proof.
  intros H1 H2 H3. cbn [lex_string]. destruct (N.eqb_spec c 34); [done|].
  destruct (N.eqb_spec c 10); [lia|]. destruct (N.eqb_spec c 13); [lia|].
  by destruct (N.eqb_spec c 92).
Qed.

Lemma lex_string_escape start e c s cur v :
  lookup_escape escapes e = Some c ->
  lex_string start 34 (92%N :: e :: s) cur v = lex_string start 34 s (S (S cur)) (v ++ [c]).
Proof. intros H. cbn [lex_string N.eqb Pos.eqb orb negb]. by rewrite H. Qed.

Lemma lex_string_unicode start c s cur v :
  is_unit c = true ->
  lex_string start 34 (unicode_escape c ++ s) cur v
  = lex_string start 34 s (length (unicode_escape c) + cur) (v ++ [c]).
Proof.
  intros U. destruct (hex_digits_spec c U) as [H V].
  change (unicode_escape c) with (92%N :: 117%N :: hex_digits c).
  change (hex_number (hex_digits c)) with (hex_units (hex_digits c)) in V.
  unfold hex_digits in *. cbn [app length].
  cbn [lex_string N.eqb Pos.eqb orb negb].
  change (lookup_escape escapes 117) with (@None N). cbv iota. rewrite H, V.
  done.
Qed.

Lemma lex_string_unit start c s cur v :
  is_unit c = true ->
  lex_string start 34 (json_escape_unit c ++ s) cur v
  = lex_string start 34 s (length (json_escape_unit c) + cur) (v ++ [c]).
Proof.
  intros U. unfold json_escape_unit.
  repeat (match goal with
  | |- context [if (c =? ?k)%N then _ else _] => destruct (N.eqb_spec c k) as [->|?]; [done|]
  end).
  destruct (N.ltb_spec c 32); [by apply lex_string_unicode|].
  cbn [app length]. by rewrite lex_string_plain.
Qed.

Lemma lex_string_escaped start s : forall r cur v,
  forallb is_unit s = true ->
  lex_string start 34 (json_escape s ++ 34%N :: r) cur v
  = Ok (v ++ s, S (length (json_escape s) + cur)).
Proof.
  induction s as [s IH] using (induction_ltof1 _ length). unfold ltof in IH.
  intros r cur v U. destruct s as [|c s]; [by rewrite app_nil_r|].
  cbn [forallb json_escape] in *. split_andb.
  assert (forall w, (v ++ [c]) ++ w = v ++ c :: w) as A by (intros; by rewrite <- app_assoc).
  assert (length s < length (c :: s)) as Hl by (simpl; lia).
  destruct (is_lead_surrogate c) eqn:L.
  - destruct s as [|d s'].
    { rewrite lex_string_unicode by done. cbn [lex_string N.eqb Pos.eqb]. do 3 f_equal. }
    destruct (is_trail_surrogate d) eqn:T.
    + unfold is_lead_surrogate, is_trail_surrogate, in_range in L, T. split_andb.
      rewrite !N.leb_le in *. cbn [app forallb] in *. split_andb.
      rewrite !lex_string_plain by lia. rewrite IH by (try done; simpl; lia).
      rewrite <- app_assoc, A. cbn [app length]. do 2 f_equal. lia.
    + rewrite <- app_assoc, lex_string_unicode, IH by done. rewrite A, length_app.
      do 3 f_equal. lia.
  - destruct (is_trail_surrogate c) eqn:T.
    + rewrite <- app_assoc, lex_string_unicode, IH by done. rewrite A, length_app.
      do 3 f_equal. lia.
    + rewrite <- app_assoc, lex_string_unit, IH by done. rewrite A, length_app.
      do 3 f_equal. lia.
Qed.

(** *** The lexeme of a token *)

Definition tok_lexeme (t : Tok) (lx : Lexeme) : Prop :=
  lx_text lx = tok_text t /\
  match t with
  | TkNum _ x i => lx_kind lx = KNumber /\ lx_value lx = VNumber x /\ lx_integer lx = Some i
  | TkStr s => lx_kind lx = KString /\ lx_value lx = VText s /\ lx_integer lx = None
  | TkName _ => lx_kind lx = KName /\ lx_integer lx = None
  | TkSym _ => lx_kind lx = KSymbol /\ lx_integer lx = None
  end.

Lemma name_head c s : name_text (c :: s) = true ->
  is_digit c = false /\ (c <> 46)%N /\ is_space c = false /\
  (c =? 34)%N = false /\ (c =? 39)%N = false.
Proof.
  cbn. intros H. split_andb. unfold is_alpha, is_upper, is_lower, is_digit, is_space, in_range in *.
  repeat rewrite ?orb_true_iff, ?andb_true_iff, ?N.leb_le, ?N.eqb_eq in H.
  repeat split; rewrite ?orb_false_iff, ?andb_false_iff, ?N.leb_gt, ?N.eqb_neq;
    repeat split; rewrite ?andb_false_iff, ?N.leb_gt; lia.
Qed.

Lemma number_head text x i :
  number_text_ok text x i = true ->
  exists c s, text = c :: s /\ literal_char c = true.
Proof.
  unfold number_text_ok. destruct (scan_decimal text) as [[d [|]]|] eqn:E; try done. intros _.
  apply scan_decimal_app in E as (t & -> & Ht & Lt). rewrite app_nil_r.
  destruct t as [|c t]; [done|]. cbn in Lt. split_andb. eauto.
Qed.

Lemma literal_not_space c : literal_char c = true -> is_space c = false.
Proof.
  unfold literal_char, is_digit, is_space, in_range. intros H.
  repeat match goal with
  | |- _ || _ = false => apply orb_false_iff; split
  end; rewrite ?andb_false_iff, ?N.leb_gt, ?N.eqb_neq;
  rewrite !orb_true_iff, andb_true_iff, !N.leb_le, !N.eqb_eq in H; lia.
Qed.

Definition symbol_texts : list str := two_char_operators ++ one_char_operators.

(** A symbol is followed by something that does not make it longer. *)
Lemma match_operator_symbol s r :
  includes_str symbol_texts s = true -> head_not (N.eqb 61) r = true ->
  match_operator (s ++ r) = Some s.
Proof.
  intros Hs Hr. apply includes_str_elem in Hs.
  unfold symbol_texts, two_char_operators, one_char_operators in Hs. cbn [app] in Hs.
  rewrite !elem_of_cons, elem_of_nil in Hs. unfold match_operator.
  repeat destruct Hs as [->|Hs]; try done.
  all: destruct r as [|c r]; [vm_compute; reflexivity|].
  all: cbn [head_not] in Hr; apply negb_true_iff, N.eqb_neq in Hr.
  all: match goal with
       | |- context [take 2 (js ?a ++ ?c :: ?r)] =>
           let u := eval vm_compute in (js a) in
           change (js a) with u; cbn [app take]
       end.
  all: try (vm_compute; reflexivity).
  all: match goal with
       | |- context [includes_str two_char_operators ?u] =>
           assert (includes_str two_char_operators u = false) as ->
       end; [|vm_compute; reflexivity].
  all: unfold includes_str, two_char_operators; cbn [existsb];
    rewrite !orb_false_iff; repeat split; apply str_eqb_neq; vm_compute; congruence.
Qed.

(** First characters of symbols are no part of another token. *)
Definition symbol_char (c : N) : bool :=
  negb (is_digit c) && negb (c =? 46)%N && negb (is_space c) && negb (c =? 34)%N &&
  negb (c =? 39)%N && negb (is_alpha c || (c =? 95)%N).

Lemma symbol_head s :
  includes_str symbol_texts s = true -> exists c s', s = c :: s' /\ symbol_char c = true.
Proof.
  intros H. apply includes_str_elem in H.
  assert (forallb (fun s => match s with c :: _ => symbol_char c | [] => false end) symbol_texts = true)
    as A by (vm_compute; reflexivity).
  rewrite forallb_forall in A. apply list_elem_of_In in H. specialize (A _ H).
  destruct s as [|c s]; [done|]. eauto.
Qed.

Lemma tok_head t :
  tok_ok t = true -> exists c s, tok_text t = c :: s /\ is_space c = false.
Proof.
  destruct t as [text x i|s|s|s]; cbn [tok_ok tok_text]; intros H.
  - apply number_head in H as (c & s & -> & Hc). eauto using literal_not_space.
  - unfold json_stringify. by eexists _, _.
  - destruct s as [|c s]; [done|]. apply name_head in H as (_ & _ & ? & _). eauto.
  - apply symbol_head in H as (c & s' & -> & Hc). unfold symbol_char in Hc. split_andb. eauto.
Qed.

Section Lex.
Variable source : str.

Lemma skip_space cur sp t rest :
  tok_ok t = true ->
  drop cur source = (if sp : bool then [32%N] else []) ++ tok_text t ++ rest ->
  drop (cur + length (span is_space (drop cur source)).1) source = tok_text t ++ rest.
Proof.
  intros Ht E. destruct (tok_head t Ht) as (c & s & Hc & Hs). rewrite <- drop_drop, E.
  rewrite span_prefix; [|by destruct sp|rewrite Hc; exact Hs]. cbn [fst].
  by rewrite drop_app_length.
Qed.

Lemma slice_of_drop start a b :
  drop start source = a ++ b -> slice_nat source start (start + length a) = a.
Proof.
  intros E. unfold slice_nat. rewrite E. replace (start + length a - start) with (length a) by lia.
  apply take_app_length.
Qed.

Lemma drop_past start a b : drop start source = a ++ b -> drop (start + length a) source = b.
Proof. intros E. rewrite <- drop_drop, E. apply drop_app_length. Qed.

Lemma next_token cur cnt sp t rest :
  (N.of_nat (S cnt) <= 10000)%N -> tok_ok t = true -> ends_before t rest = true ->
  drop cur source = (if sp : bool then [32%N] else []) ++ tok_text t ++ rest ->
  exists lx cur', next source cur cnt = Ok (lx, cur', S cnt) /\ tok_lexeme t lx /\
    drop cur' source = rest.
Proof.
  intros Hcnt Ht He E. pose proof (skip_space cur sp t rest Ht E) as D.
  unfold next. destruct (N.ltb_spec 10000 (N.of_nat (S cnt))) as [Hlim|_]; [lia|].
  cbv zeta. set (start := cur + _) in *. rewrite D. destruct (tok_head t Ht) as (c & u & Hc & Hsp).
  destruct (tok_text t ++ rest) as [|first body] eqn:Hbody; [by rewrite Hc in Hbody|].
  assert (first = c) as -> by (rewrite Hc in Hbody; by injection Hbody).
  destruct t as [text x i|s|s|s]; cbn [tok_text tok_ok ends_before] in *.
  - assert (head_not literal_char rest = true) as Hr by (by destruct rest).
    unfold number_text_ok in Ht. destruct (scan_decimal text) as [[d [|]]|] eqn:Sd; try done.
    apply andb_true_iff in Ht as [Ht Hsafe]. apply andb_true_iff in Ht as [Ht Hint].
    apply andb_true_iff in Ht as [Hx%bool_decide_eq_true Hfin].
    rewrite <- Hbody, (scan_decimal_extend _ _ _ Hr Sd).
    rewrite length_app. replace (length text + length rest - length rest) with (length text) by lia.
    rewrite take_app_length. rewrite <- Hx, Hfin. cbn [negb].
    apply eqb_prop in Hint. rewrite <- Hint.
    assert (i && negb (is_safe_integer x) = false) as ->
      by (destruct i; [cbn in Hsafe; by rewrite Hsafe|done]).
    eexists _, _. split; [reflexivity|]. split; [done|]. apply drop_past. congruence.
  - assert (c = 34%N) as -> by (unfold json_stringify in Hc; by injection Hc).
    rewrite scan_decimal_none by done. cbn [N.eqb Pos.eqb orb].
    assert (body = json_escape s ++ 34%N :: rest) as ->.
    { unfold json_stringify, quote_unit in Hbody. cbn [app] in Hbody.
      injection Hbody as <-. by rewrite <- app_assoc. }
    rewrite lex_string_escaped by done. cbn [obind app].
    assert (S (length (json_escape s) + S start) = start + length (json_stringify s)) as ->
      by (unfold json_stringify; simpl; rewrite length_app; simpl; lia).
    rewrite <- Hbody in D. rewrite (slice_of_drop _ _ _ D). eexists _, _. split; [reflexivity|].
    split; [done|]. apply drop_past. congruence.
  - pose proof Ht as Ht'. rewrite Hc in Ht'.
    apply name_head in Ht' as (Hd & Hp & _ & Q1 & Q2).
    rewrite scan_decimal_none by done. rewrite Q1, Q2. cbn [orb]. rewrite <- Hbody.
    assert (match_name (s ++ rest) = Some s) as ->.
    { subst s. cbn [name_text app match_name] in Ht |- *. split_andb. rewrite H.
      rewrite span_prefix; [done|done|]. destruct rest; [done|]. by apply negb_true_iff. }
    eexists _, _. split; [reflexivity|]. split; [done|]. apply drop_past. congruence.
  - pose proof (symbol_head s Ht) as (c' & s' & Es & Hsc).
    rewrite Hc in Es. injection Es as <- <-. unfold symbol_char in Hsc.
    rewrite !andb_true_iff, !negb_true_iff in Hsc. destruct Hsc as (((((D1 & D2) & _) & D3) & D4) & D5).
    rewrite scan_decimal_none by (try done; by apply N.eqb_neq). rewrite D3, D4. cbn [orb].
    cbn [match_name]. rewrite D5. rewrite <- Hbody, match_operator_symbol; [|done|].
    2: { destruct rest; [done|]. cbn [head_not]. by rewrite N.eqb_sym. }
    eexists _, _. split; [reflexivity|]. split; [done|]. apply drop_past. congruence.
Qed.

(** At the end of the text. *)
Lemma next_end cur cnt :
  (N.of_nat (S cnt) <= 10000)%N -> drop cur source = [] ->
  exists lx cur', next source cur cnt = Ok (lx, cur', S cnt) /\ lx_kind lx = KEnd /\
    lx_text lx = [] /\ lx_integer lx = None.
Proof.
  intros Hcnt E. unfold next. destruct (N.ltb_spec 10000 (N.of_nat (S cnt))); [lia|].
  rewrite E. cbn [span fst length]. rewrite Nat.add_0_r, E. eexists _, _. done.
Qed.
End Lex.

(** ** More fuel changes nothing *)

Section FuelMono.
Variable source : str.

Definition agrees {A} (small big : R A) : Prop := small = OutOfFuel \/ small = big.

Lemma agrees_refl {A} (x : R A) : agrees x x.
Proof. by right. Qed.

Lemma agrees_bind {A B} (m1 m2 : R A) (k1 k2 : A -> R B) :
  agrees m1 m2 -> (forall a, m2 = Ok a -> agrees (k1 a) (k2 a)) ->
  agrees (obind m1 k1) (obind m2 k2).
Proof.
  intros [->|<-] Hk; [by left|]. destruct m1; cbn; [by apply Hk|by right|by left].
Qed.

Definition fuel_mono (fuel fuel' : nat) : Prop :=
  (forall m st, agrees (expression source fuel m st) (expression source fuel' m st)) /\
  (forall m lhs st, agrees (binary_loop source fuel m lhs st) (binary_loop source fuel' m lhs st)) /\
  (forall st, agrees (primary source fuel st) (primary source fuel' st)) /\
  (forall args st, agrees (call_args source fuel args st) (call_args source fuel' args st)).

Local Ltac mono :=
  repeat match goal with
  | |- agrees ?x ?x => apply agrees_refl
  | |- agrees (obind _ _) (obind _ _) => apply agrees_bind; [|intros ? _]
  | p : (_ * _)%type |- _ => destruct p
  | |- agrees (if ?b then _ else _) _ => destruct b
  | |- agrees (match ?x with _ => _ end) _ => destruct x
  end; auto.

Lemma fuel_mono_step fuel fuel' : fuel_mono fuel fuel' -> fuel_mono (S fuel) (S fuel').
Proof.
  intros (IE & IL & IP & IA). split_and!; intros; cbn [expression binary_loop primary call_args];
    mono.
Qed.

Lemma fuel_mono_le fuel : forall fuel', fuel <= fuel' -> fuel_mono fuel fuel'.
Proof.
  induction fuel as [|fuel IH]; intros fuel' H.
  - split_and!; intros; by left.
  - destruct fuel' as [|fuel']; [lia|]. apply fuel_mono_step, IH. lia.
Qed.
End FuelMono.

(** ** Derivations *)

(** Positions are forgotten, kinds and flags of literals are kept. *)
Fixpoint erase (n : node) : node :=
  match n with
  | Literal v i _ _ => Literal v i 0 0
  | Variable_ x _ _ => Variable_ x 0 0
  | Call f args _ _ => Call f (map erase args) 0 0
  | Unary o a _ _ => Unary o (erase a) 0 0
  | Binary o l r _ _ => Binary o (erase l) (erase r) 0 0
  | Conditional c y n _ _ => Conditional (erase c) (erase y) (erase n) 0 0
  end.

Lemma erase_with_span n s e : erase (with_span n s e) = erase n.
Proof. by destruct n. Qed.

Definition sym (s : str) : Tok := TkSym s.

Definition next_text (ts : list spelled) : str :=
  match ts with [] => [] | (_, t) :: _ => tok_text t end.

(** [dexpr d m ts n r]: at nesting depth [d], the tokens [ts] begin with an
    expression of at least precedence [m], which is [n] up to positions, and
    go on with [r]. *)
Inductive dexpr : nat -> nat -> list spelled -> node -> list spelled -> Prop :=
| DPlain d m ts n0 r1 n r :
    d < 128 -> dprim (S d) ts n0 r1 -> dloop (S d) m n0 r1 n r ->
    (m = 0 -> next_text r <> js "?") -> dexpr d m ts n r
| DCond d ts n0 r1 c sp r2 y sp' r3 n r :
    d < 128 -> dprim (S d) ts n0 r1 -> dloop (S d) 0 n0 r1 c ((sp, sym (js "?")) :: r2) ->
    dexpr (S d) 0 r2 y ((sp', sym (js ":")) :: r3) -> dexpr (S d) 0 r3 n r ->
    dexpr d 0 ts (Conditional c y n 0 0) r
with dloop : nat -> nat -> node -> list spelled -> node -> list spelled -> Prop :=
| DStop d m lhs ts :
    match assoc_str PRECEDENCE (next_text ts) with Some prec => prec < m | None => True end ->
    dloop d m lhs ts lhs ts
| DStep d m lhs sp op r1 prec rhs r2 n r :
    assoc_str PRECEDENCE op = Some prec -> m <= prec ->
    dexpr d (S prec) r1 rhs r2 -> dloop d m (Binary op lhs rhs 0 0) r2 n r ->
    dloop d m lhs ((sp, sym op) :: r1) n r
with dprim : nat -> list spelled -> node -> list spelled -> Prop :=
| DNum d sp text x i r :
    dprim d ((sp, TkNum text x i) :: r) (Literal (LNum x) (Some i) 0 0) r
| DStr d sp s r : dprim d ((sp, TkStr s) :: r) (Literal (LStr s) None 0 0) r
| DNil d sp r : dprim d ((sp, TkName (js "nil")) :: r) (Literal LNull None 0 0) r
| DParen d sp ts n sp' r :
    dexpr d 0 ts n ((sp', sym (js ")")) :: r) -> dprim d ((sp, sym (js "(")) :: ts) n r
| DVar d sp x r :
    includes_str BILLING_VARIABLES x = true -> next_text r <> js "(" ->
    dprim d ((sp, TkName x) :: r) (Variable_ x 0 0) r
| DCall d sp f sp1 ts args sp2 r :
    assoc_str BILLING_FUNCTIONS f = Some (length args) ->
    dargs d ts args ((sp2, sym (js ")")) :: r) ->
    dprim d ((sp, TkName f) :: (sp1, sym (js "(")) :: ts) (Call f args 0 0) r
with dargs : nat -> list spelled -> list node -> list spelled -> Prop :=
| DLast d ts a r :
    next_text ts <> js ")" -> dexpr d 0 ts a r -> next_text r <> js "," -> dargs d ts [a] r
| DMore d ts a sp r1 args r :
    next_text ts <> js ")" -> dexpr d 0 ts a ((sp, sym (js ",")) :: r1) ->
    dargs d r1 args r -> dargs d ts (a :: args) r.

Scheme dexpr_mut := Induction for dexpr Sort Prop
with dloop_mut := Induction for dloop Sort Prop
with dprim_mut := Induction for dprim Sort Prop
with dargs_mut := Induction for dargs Sort Prop.
Combined Scheme derivation_mutind from dexpr_mut, dloop_mut, dprim_mut, dargs_mut.

(** ** The parser follows a derivation *)

Section Follow.
Variable source : str.

Definition positioned (st : pstate) (ts : list spelled) : Prop :=
  match ts with
  | [] => lx_kind (current st) = KEnd /\ lx_text (current st) = []
  | (_, t) :: ts' =>
      tok_lexeme t (current st) /\ drop (cursor st) source = spell ts' /\ toks_ok ts = true /\
      (N.of_nat (S (count st + length ts')) <= 10000)%N
  end.

Lemma positioned_depth st ts d : positioned st ts -> positioned (set_depth st d) ts.
Proof. by destruct ts as [|[]]. Qed.

Lemma positioned_text st ts : positioned st ts -> lx_text (current st) = next_text ts.
Proof. destruct ts as [|[sp t] ts]; [by intros [_ ?]|]. by intros [[? _] _]. Qed.

Lemma positioned_at st ts text : positioned st ts -> at_text st text = str_eqb (next_text ts) text.
Proof. intros H. unfold at_text. by rewrite (positioned_text _ _ H). Qed.

Lemma next_positioned cur cnt ts :
  drop cur source = spell ts -> toks_ok ts = true -> (N.of_nat (S (cnt + length ts)) <= 10000)%N ->
  exists lx cur', next source cur cnt = Ok (lx, cur', S cnt) /\
    forall d, positioned (PState cur' (S cnt) d lx) ts.
Proof.
  intros D T C. destruct ts as [|[sp t] ts].
  - destruct (next_end source cur cnt) as (lx & cur' & E & K & X & _); [simpl in C; lia|done|].
    exists lx, cur'. done.
  - pose proof T as T'. cbn [toks_ok] in T. split_andb. cbn [spell length] in *.
    destruct (next_token source cur cnt sp t (spell ts)) as (lx & cur' & E & L & D'); try done; [lia|].
    exists lx, cur'. split; [done|]. intros d. cbn [positioned current cursor count].
    split_and!; [done..|lia].
Qed.

Lemma take_positioned st sp t ts :
  positioned st ((sp, t) :: ts) ->
  exists st', take_lexeme source st = Ok (current st, st') /\ positioned st' ts /\
    depth st' = depth st.
Proof.
  intros (L & D & T & C). cbn [toks_ok] in T. split_andb.
  destruct (next_positioned (cursor st) (count st) ts D) as (lx & cur' & E & P); [done|lia|].
  unfold take_lexeme. rewrite E. cbn [obind]. eexists. split; [reflexivity|]. split; [apply P|done].
Qed.

Lemma expect_positioned st sp s ts :
  positioned st ((sp, sym s) :: ts) ->
  exists st', expect source s st = Ok (current st, st') /\ positioned st' ts /\
    depth st' = depth st.
Proof.
  intros H. unfold expect. rewrite (positioned_at _ _ _ H). cbn [next_text tok_text sym].
  rewrite str_eqb_refl. by eapply take_positioned.
Qed.

(** What following a derivation means for each of the four functions: with
    enough fuel, one result. *)
Definition follows {A} (run : nat -> pstate -> R (A * pstate)) (good : A -> Prop) (d : nat)
    (ts r : list spelled) : Prop :=
  forall st, positioned st ts -> depth st = d ->
  exists fuel0 a st', (forall fuel, fuel0 <= fuel -> run fuel st = Ok (a, st')) /\
    good a /\ positioned st' r /\ depth st' = d.

Definition follow_expr d m ts n r : Prop :=
  follows (fun fuel => expression source fuel m) (fun n' => erase n' = n) d ts r.
Definition follow_loop d m lhs ts n r : Prop :=
  forall lhs', erase lhs' = lhs ->
  follows (fun fuel => binary_loop source fuel m lhs') (fun n' => erase n' = n) d ts r.
Definition follow_prim d ts n r : Prop :=
  follows (fun fuel => primary source fuel) (fun n' => erase n' = n) d ts r.
Definition follow_args d ts args r : Prop :=
  forall acc, follows (fun fuel => call_args source fuel acc)
    (fun args' => map erase args' = map erase acc ++ args) d ts r.

Local Ltac some_fuel :=
  let fuel := fresh "fuel" in
  let Hf := fresh "Hf" in
  intros fuel Hf; destruct fuel as [|fuel]; [lia|];
  cbn [expression binary_loop primary call_args].

(** The head of [expression]: a primary and the operators after it. *)
Lemma follow_operand d m ts n0 r1 n r st :
  follow_prim (S d) ts n0 r1 -> follow_loop (S d) m n0 r1 n r ->
  positioned st ts -> depth st = d ->
  exists fuel0 a st1 b st2, (forall fuel, fuel0 <= fuel ->
    primary source fuel (set_depth st (S (depth st))) = Ok (a, st1) /\
    binary_loop source fuel m a st1 = Ok (b, st2)) /\ erase b = n /\
    positioned st2 r /\ depth st2 = S d.
Proof.
  intros P L Hp Hdep.
  destruct (P (set_depth st (S (depth st)))) as (f1 & a & st1 & E1 & G1 & Q1 & D1);
    [by apply positioned_depth|by cbn; rewrite Hdep|].
  destruct (L a G1 st1 Q1 D1) as (f2 & b & st2 & E2 & G2 & Q2 & D2).
  exists (Nat.max f1 f2), a, st1, b, st2. split; [|done].
  intros fuel Hf. split; [apply E1|apply E2]; lia.
Qed.

Lemma follow_plain d m ts n0 r1 n r :
  d < 128 -> follow_prim (S d) ts n0 r1 -> follow_loop (S d) m n0 r1 n r ->
  (m = 0 -> next_text r <> js "?") -> follow_expr d m ts n r.
Proof.
  intros Hd P L Hq st Hp Hdep.
  destruct (follow_operand d m ts n0 r1 n r st P L Hp Hdep) as (f & a & st1 & b & st2 & E & G & Q & D).
  exists (S f), b, (set_depth st2 d). split; [|split; [done|split; [by apply positioned_depth|done]]].
  some_fuel. destruct (E fuel ltac:(lia)) as [E1 E2].
  cbn [depth set_depth] in *. rewrite Hdep in *. destruct (Nat.ltb_spec 128 (S d)); [lia|].
  rewrite E1. cbn [obind]. rewrite E2. cbn [obind]. rewrite (positioned_at _ _ _ Q).
  destruct (Nat.eqb_spec m 0) as [->|]; cbn [andb].
  - specialize (Hq eq_refl). apply str_eqb_neq in Hq. rewrite Hq. cbn [obind].
    rewrite D. do 3 f_equal. lia.
  - cbn [obind]. rewrite D. do 3 f_equal. lia.
Qed.

Lemma follow_cond d ts n0 r1 c sp r2 y sp' r3 n r :
  d < 128 -> follow_prim (S d) ts n0 r1 ->
  follow_loop (S d) 0 n0 r1 c ((sp, sym (js "?")) :: r2) ->
  follow_expr (S d) 0 r2 y ((sp', sym (js ":")) :: r3) -> follow_expr (S d) 0 r3 n r ->
  follow_expr d 0 ts (Conditional c y n 0 0) r.
Proof.
  intros Hd P L Y N st Hp Hdep.
  destruct (follow_operand d 0 ts n0 r1 _ _ st P L Hp Hdep) as (f & a & st1 & b & st2 & E & G & Q & D).
  destruct (take_positioned _ _ _ _ Q) as (st3 & E3 & Q3 & D3).
  destruct (Y st3 Q3) as (f4 & y' & st4 & E4 & G4 & Q4 & D4); [congruence|].
  destruct (expect_positioned _ _ _ _ Q4) as (st5 & E5 & Q5 & D5).
  destruct (N st5 Q5) as (f6 & n' & st6 & E6 & G6 & Q6 & D6); [congruence|].
  eexists (S (Nat.max f (Nat.max f4 f6))), _, (set_depth st6 d).
  split; [|split; [|split; [by apply positioned_depth|done]]].
  - some_fuel. destruct (E fuel ltac:(lia)) as [E1 E2].
    cbn [depth set_depth] in *. rewrite Hdep in *. destruct (Nat.ltb_spec 128 (S d)); [lia|].
    rewrite E1. cbn [obind]. rewrite E2. cbn [obind]. rewrite (positioned_at _ _ _ Q).
    cbn [next_text tok_text sym]. rewrite str_eqb_refl. cbn [andb Nat.eqb].
    rewrite E3. cbn [obind]. rewrite E4 by lia. cbn [obind]. rewrite E5. cbn [obind].
    rewrite E6 by lia. cbn [obind]. rewrite D6. replace (S d - 1) with d by lia. reflexivity.
  - cbn [erase]. by rewrite G, G4, G6.
Qed.

Lemma follow_stop d m lhs ts :
  match assoc_str PRECEDENCE (next_text ts) with Some prec => prec < m | None => True end ->
  follow_loop d m lhs ts lhs ts.
Proof.
  intros Hs lhs' G st Hp Hd. exists 1, lhs', st. split; [|done].
  some_fuel. rewrite (positioned_text _ _ Hp). destruct (assoc_str PRECEDENCE _); [|done].
  by destruct (Nat.leb_spec m n); [lia|].
Qed.

Lemma follow_step d m lhs sp op r1 prec rhs r2 n r :
  assoc_str PRECEDENCE op = Some prec -> m <= prec ->
  follow_expr d (S prec) r1 rhs r2 -> follow_loop d m (Binary op lhs rhs 0 0) r2 n r ->
  follow_loop d m lhs ((sp, sym op) :: r1) n r.
Proof.
  intros Ho Hm R L lhs' G st Hp Hd. destruct (take_positioned _ _ _ _ Hp) as (st1 & E1 & Q1 & D1).
  destruct (R st1 Q1) as (f2 & rhs' & st2 & E2 & G2 & Q2 & D2); [congruence|].
  pose proof (positioned_text _ _ Hp) as X. cbn [next_text tok_text sym] in X.
  destruct (L (Binary op lhs' rhs' (node_start lhs') (node_end rhs'))
              ltac:(cbn [erase]; by rewrite G, G2) st2 Q2 D2)
    as (f3 & n' & st3 & E3 & G3 & Q3 & D3).
  exists (S (Nat.max f2 f3)), n', st3. split; [|done].
  some_fuel. rewrite X, Ho. destruct (Nat.leb_spec m prec); [|lia].
  rewrite E1. cbn [obind]. rewrite E2 by lia. cbn [obind]. rewrite X. apply E3. lia.
Qed.

(** *** Primaries *)

Lemma follow_num d sp text x i r :
  follow_prim d ((sp, TkNum text x i) :: r) (Literal (LNum x) (Some i) 0 0) r.
Proof.
  intros st Hp Hd. destruct (take_positioned _ _ _ _ Hp) as (st1 & E1 & Q1 & D1).
  destruct Hp as ((_ & K & V & I) & _).
  eexists 1, _, st1. split; [|split; [|split; [done|congruence]]].
  - some_fuel. rewrite E1. cbn [obind]. rewrite K, V. reflexivity.
  - unfold literal_of_token. cbn [erase]. by rewrite I.
Qed.

Lemma follow_str d sp s r :
  follow_prim d ((sp, TkStr s) :: r) (Literal (LStr s) None 0 0) r.
Proof.
  intros st Hp Hd. destruct (take_positioned _ _ _ _ Hp) as (st1 & E1 & Q1 & D1).
  destruct Hp as ((_ & K & V & I) & _).
  eexists 1, _, st1. split; [|split; [|split; [done|congruence]]].
  - some_fuel. rewrite E1. cbn [obind]. rewrite K, V. reflexivity.
  - unfold literal_of_token. cbn [erase]. by rewrite I.
Qed.

Lemma follow_nil d sp r :
  follow_prim d ((sp, TkName (js "nil")) :: r) (Literal LNull None 0 0) r.
Proof.
  intros st Hp Hd. destruct (take_positioned _ _ _ _ Hp) as (st1 & E1 & Q1 & D1).
  destruct Hp as ((X & K & I) & _). cbn [tok_text] in X.
  eexists 1, _, st1. split; [|split; [|split; [done|congruence]]].
  - some_fuel. rewrite E1. cbn [obind]. rewrite K, X. reflexivity.
  - unfold literal_of_token. cbn [erase]. by rewrite I.
Qed.

Lemma follow_paren d sp ts n sp' r :
  follow_expr d 0 ts n ((sp', sym (js ")")) :: r) ->
  follow_prim d ((sp, sym (js "(")) :: ts) n r.
Proof.
  intros N st Hp Hd. destruct (take_positioned _ _ _ _ Hp) as (st1 & E1 & Q1 & D1).
  destruct Hp as ((X & K & I) & _). cbn [tok_text sym] in X.
  destruct (N st1 Q1) as (f2 & n' & st2 & E2 & G2 & Q2 & D2); [congruence|].
  destruct (expect_positioned _ _ _ _ Q2) as (st3 & E3 & Q3 & D3).
  eexists (S f2), _, st3. split; [|split; [|split; [done|congruence]]].
  - some_fuel. rewrite E1. cbn [obind]. rewrite K, X. rewrite str_eqb_refl.
    rewrite E2 by lia. cbn [obind]. rewrite E3. reflexivity.
  - by rewrite erase_with_span.
Qed.

(** Names are neither punctuation nor literals. *)
Definition word_name (f : str) : bool :=
  negb (str_eqb f (js "(")) && negb (includes_str [js "!"; js "+"; js "-"] f) &&
  negb (str_eqb f (js "nil")) && negb (str_eqb f (js "true") || str_eqb f (js "false")).

Lemma variable_word x : includes_str BILLING_VARIABLES x = true -> word_name x = true.
Proof.
  intros H%includes_str_elem. assert (forallb word_name BILLING_VARIABLES = true) as A
    by (vm_compute; reflexivity).
  rewrite forallb_forall in A. by apply A, list_elem_of_In.
Qed.

Lemma function_word f a : assoc_str BILLING_FUNCTIONS f = Some a -> word_name f = true.
Proof.
  intros H%assoc_str_elem.
  assert (forallb (fun p => word_name p.1) BILLING_FUNCTIONS = true) as A by (vm_compute; reflexivity).
  rewrite forallb_forall in A. by apply (A (f, a)), list_elem_of_In.
Qed.

Lemma follow_var d sp x r :
  includes_str BILLING_VARIABLES x = true -> next_text r <> js "(" ->
  follow_prim d ((sp, TkName x) :: r) (Variable_ x 0 0) r.
Proof.
  intros Hx Hr st Hp Hd. destruct (take_positioned _ _ _ _ Hp) as (st1 & E1 & Q1 & D1).
  destruct Hp as ((X & K & I) & _). cbn [tok_text] in X.
  pose proof (variable_word x Hx) as W. unfold word_name in W.
  rewrite !andb_true_iff, !negb_true_iff in W. destruct W as (((W1 & W2) & W3) & W4).
  eexists 1, _, st1. split; [|split; [|split; [done|congruence]]].
  - some_fuel. rewrite E1. cbn [obind]. rewrite K, X, W1, W2, W3, W4. cbn [bool_decide negb].
    rewrite (positioned_at _ _ _ Q1). apply str_eqb_neq in Hr. rewrite Hr. cbn [negb].
    rewrite Hx. reflexivity.
  - done.
Qed.

Lemma follow_call d sp f sp1 ts args sp2 r :
  assoc_str BILLING_FUNCTIONS f = Some (length args) ->
  follow_args d ts args ((sp2, sym (js ")")) :: r) ->
  follow_prim d ((sp, TkName f) :: (sp1, sym (js "(")) :: ts) (Call f args 0 0) r.
Proof.
  intros Hf A st Hp Hd. destruct (take_positioned _ _ _ _ Hp) as (st1 & E1 & Q1 & D1).
  destruct Hp as ((X & K & I) & _). cbn [tok_text] in X.
  pose proof (function_word _ _ Hf) as W. unfold word_name in W.
  rewrite !andb_true_iff, !negb_true_iff in W. destruct W as (((W1 & W2) & W3) & W4).
  destruct (take_positioned _ _ _ _ Q1) as (st2 & E2 & Q2 & D2).
  destruct (A [] st2 Q2) as (f3 & args' & st3 & E3 & G3 & Q3 & D3); [congruence|].
  destruct (expect_positioned _ _ _ _ Q3) as (st4 & E4 & Q4 & D4). cbn [map app] in G3.
  eexists (S f3), _, st4. split; [|split; [|split; [done|congruence]]].
  - some_fuel. rewrite E1. cbn [obind]. rewrite K, X, W1, W2, W3, W4. cbn [bool_decide negb].
    rewrite (positioned_at _ _ _ Q1). cbn [next_text tok_text sym]. rewrite str_eqb_refl.
    cbn [negb]. rewrite Hf, E2. cbn [obind]. rewrite E3 by lia. cbn [obind]. rewrite E4. cbn [obind].
    rewrite <- (length_map erase args'), G3, Nat.eqb_refl. reflexivity.
  - cbn [erase]. by rewrite G3.
Qed.

Lemma follow_last d ts a r :
  next_text ts <> js ")" -> follow_expr d 0 ts a r -> next_text r <> js "," ->
  follow_args d ts [a] r.
Proof.
  intros Hn E Hr acc st Hp Hd. destruct (E st Hp Hd) as (f1 & a' & st1 & E1 & G1 & Q1 & D1).
  exists (S f1), (acc ++ [a']), st1. split; [|split; [by rewrite map_app; cbn; rewrite G1|done]].
  some_fuel. rewrite (positioned_at _ _ _ Hp). apply str_eqb_neq in Hn, Hr. rewrite Hn.
  rewrite E1 by lia. cbn [obind]. rewrite (positioned_at _ _ _ Q1), Hr. done.
Qed.

Lemma follow_more d ts a sp r1 args r :
  next_text ts <> js ")" -> follow_expr d 0 ts a ((sp, sym (js ",")) :: r1) ->
  follow_args d r1 args r -> follow_args d ts (a :: args) r.
Proof.
  intros Hn E A acc st Hp Hd. destruct (E st Hp Hd) as (f1 & a' & st1 & E1 & G1 & Q1 & D1).
  destruct (take_positioned _ _ _ _ Q1) as (st2 & E2 & Q2 & D2).
  destruct (A (acc ++ [a']) st2 Q2) as (f3 & args' & st3 & E3 & G3 & Q3 & D3); [congruence|].
  exists (S (Nat.max f1 f3)), args', st3. split; [|split; [|done]].
  - some_fuel. rewrite (positioned_at _ _ _ Hp). apply str_eqb_neq in Hn. rewrite Hn.
    rewrite E1 by lia. cbn [obind]. rewrite (positioned_at _ _ _ Q1).
    cbn [next_text tok_text sym]. rewrite str_eqb_refl. cbn [negb].
    rewrite E2. cbn [obind]. apply E3. lia.
  - rewrite G3, map_app. cbn. rewrite G1. by rewrite <- app_assoc.
Qed.

Lemma follow_derivation :
  (forall d m ts n r, dexpr d m ts n r -> follow_expr d m ts n r) /\
  (forall d m lhs ts n r, dloop d m lhs ts n r -> follow_loop d m lhs ts n r) /\
  (forall d ts n r, dprim d ts n r -> follow_prim d ts n r) /\
  (forall d ts args r, dargs d ts args r -> follow_args d ts args r).
Proof.
  apply derivation_mutind; intros.
  - by eapply follow_plain.
  - by eapply follow_cond.
  - by apply follow_stop.
  - by eapply follow_step.
  - apply follow_num.
  - apply follow_str.
  - apply follow_nil.
  - by eapply follow_paren.
  - by apply follow_var.
  - by eapply follow_call.
  - by apply follow_last.
  - by eapply follow_more.
Qed.
End Follow.

(** A text spelled from tokens that derive an expression parses to it. *)
Lemma parse_derivation ts n :
  toks_ok ts = true -> dexpr 0 0 ts n [] ->
  (N.of_nat (length (spell ts)) <= 65536)%N -> (N.of_nat (S (length ts)) <= 10000)%N ->
  match_version (spell ts) = None ->
  exists n', parse (spell ts) = Ok n' /\ erase n' = n.
Proof.
  intros T E L C V. set (source := spell ts) in *.
  destruct (next_positioned source 0 0 ts) as (lx & cur' & N & P); [done|done|done|].
  assert (new_parser source = Ok (PState cur' 1 0 lx)) as NP.
  { unfold new_parser. destruct (N.ltb_spec 65536 (N.of_nat (length source))); [lia|].
    rewrite V. cbn [obind]. rewrite N. done. }
  destruct (follow_derivation source) as (F & _).
  destruct (F _ _ _ _ _ E _ (P 0) eq_refl) as (f & n' & st' & R & G & Q & _).
  exists n'. split; [|done]. unfold parse, parse_with. rewrite NP. cbn [obind].
  pose proof (parse_total source) as Tot. unfold parse, parse_with in Tot. rewrite NP in Tot.
  cbn [obind] in Tot.
  destruct (fuel_mono_le source (parse_fuel source) (Nat.max f (parse_fuel source)) ltac:(lia)) as (M & _).
  destruct (M 0 (PState cur' 1 0 lx)) as [A|A].
  { rewrite A in Tot. done. }
  rewrite A, R by lia. cbn [obind]. destruct Q as [-> _]. done.
Qed.
