(* ===== verification/ExprGrammar.v ===== *)
(** * Combinators for derivations

    How the texts of the generators are put together: operands, chains of one
    left-associative operator, calls and conditionals, each with its tokens,
    its AST up to positions and its derivation.  [lead d m k ts n] says that
    [ts], at the beginning of an expression of minimal precedence [m], reads
    as [n] when it is followed by nothing that binds as tightly as [k]. *)

From Stdlib Require Import ZArith Lia Bool SpecFloat.
From stdpp Require Import base list numbers.
From S2P Require Import Prelude JsString JsNumber JsNumberFacts JsValue JsJson ExprTypes ExprParser ExprPrint.

(** ** Spelling *)

(** Every token ends before the next one and before [rest]. *)
Fixpoint toks_before (ts : list spelled) (rest : str) : bool :=
  match ts with
  | [] => true
  | (_, t) :: ts' => tok_ok t && ends_before t (spell ts' ++ rest) && toks_before ts' rest
  end.

Lemma toks_before_ok ts : toks_ok ts = toks_before ts [].
Proof. induction ts as [|[sp t] ts IH]; [done|]. cbn. by rewrite app_nil_r, IH. Qed.

Lemma toks_before_app ts us rest :
  toks_before (ts ++ us) rest = toks_before ts (spell us ++ rest) && toks_before us rest.
Proof.
  induction ts as [|[sp t] ts IH]; [done|]. cbn [app toks_before].
  rewrite spell_app, <- app_assoc, IH. by rewrite !andb_assoc.
Qed.

(** A space, a closing parenthesis or a comma ends every token. *)
Definition quiet (rest : str) : bool :=
  match rest with [] => true | c :: _ => (c =? 32)%N || (c =? 41)%N || (c =? 44)%N end.

Lemma quiet_ends t rest : quiet rest = true -> ends_before t rest = true.
Proof.
  destruct rest as [|c rest]; [done|]. cbn [quiet]. rewrite !orb_true_iff, !N.eqb_eq.
  intros [[->| ->]| ->]; by destruct t.
Qed.

(** Tokens that can be followed by any quiet text. *)
Definition sound (ts : list spelled) : Prop :=
  forall rest, quiet rest = true -> toks_before ts rest = true.

Lemma sound_nil : sound [].
Proof. done. Qed.

Lemma sound_app ts us :
  sound ts -> sound us -> (forall rest, quiet rest = true -> quiet (spell us ++ rest) = true) ->
  sound (ts ++ us).
Proof.
  intros Ht Hu Hq rest Hr. rewrite toks_before_app, (Ht (spell us ++ rest)) by auto. by apply Hu.
Qed.

(** The next token begins with a space. *)
Lemma sound_spaced ts t us :
  sound ts -> sound ((true, t) :: us) -> sound (ts ++ (true, t) :: us).
Proof. intros Ht Hu. by apply sound_app. Qed.

Lemma sound_one sp t : tok_ok t = true -> sound [(sp, t)].
Proof. intros Ht rest Hr. cbn. rewrite Ht, quiet_ends by done. done. Qed.

Lemma sound_ok ts : sound ts -> toks_ok ts = true.
Proof. intros H. rewrite toks_before_ok. by apply H. Qed.

(** [f(args)]: the opening parenthesis ends the name, a first argument that
    is a string ends the parenthesis. *)
Definition call_toks (sp : bool) (f : str) (args : list spelled) : list spelled :=
  (sp, TkName f) :: (false, sym (js "(")) :: args ++ [(false, sym (js ")"))].

Definition not_equals (s : str) : bool := match s with c :: _ => negb (c =? 61)%N | [] => true end.

Lemma sound_call sp f args :
  tok_ok (TkName f) = true -> sound args -> not_equals (spell args ++ [41%N]) = true ->
  sound (call_toks sp f args).
Proof.
  intros Hf Ha Hn rest Hr. unfold call_toks. cbn [toks_before]. rewrite Hf.
  rewrite toks_before_app, (Ha (spell [(false, sym (js ")"))] ++ rest)) by done.
  assert (toks_before [(false, sym (js ")"))] rest = true) as -> by (by apply sound_one).
  rewrite spell_app. change (spell [(false, sym (js ")"))]) with [41%N].
  assert (tok_ok (sym (js "(")) = true) as -> by (vm_compute; reflexivity).
  assert (ends_before (sym (js "(")) ((spell args ++ [41%N]) ++ rest) = true) as ->; [|done].
  destruct (spell args) as [|c s]; [done|]. cbn [app ends_before not_equals sym] in *. exact Hn.
Qed.

(** ** Derivations *)

(** What follows binds less tightly than [k] and does not make a name a call. *)
Definition below (k : nat) (rest : list spelled) : Prop :=
  next_text rest <> js "(" /\
  match assoc_str PRECEDENCE (next_text rest) with Some p => p < k | None => True end.

Definition lead (d m k : nat) (ts : list spelled) (n : node) : Prop :=
  forall rest, below k rest -> exists n0 r1, dprim d (ts ++ rest) n0 r1 /\
    forall n' r', dloop d m n rest n' r' -> dloop d m n0 r1 n' r'.

Definition operand (d m : nat) (ts : list spelled) (n : node) : Prop :=
  forall rest, below m rest -> (m = 0 -> next_text rest <> js "?") ->
  dexpr d m (ts ++ rest) n rest.

Lemma below_le k k' rest : k <= k' -> below k rest -> below k' rest.
Proof.
  intros H [Hp Hb]. split; [done|]. destruct (assoc_str PRECEDENCE _); [lia|done].
Qed.

Lemma lead_prim d m k ts n :
  (forall rest, next_text rest <> js "(" -> dprim d (ts ++ rest) n rest) -> lead d m k ts n.
Proof. intros H rest [Hp _]. exists n, rest. split; [by apply H|done]. Qed.

Lemma lead_num d m k sp text x i :
  lead d m k [(sp, TkNum text x i)] (Literal (LNum x) (Some i) 0 0).
Proof. apply lead_prim. intros. constructor. Qed.

Lemma lead_str d m k sp s : lead d m k [(sp, TkStr s)] (Literal (LStr s) None 0 0).
Proof. apply lead_prim. intros. constructor. Qed.

Lemma lead_var d m k sp x :
  includes_str BILLING_VARIABLES x = true -> lead d m k [(sp, TkName x)] (Variable_ x 0 0).
Proof. intros Hx. apply lead_prim. intros. by constructor. Qed.

(** A chain of operators, one at a time. *)
Lemma lead_op d m k ts1 n1 sp op p ts2 n2 :
  lead d m k ts1 n1 -> assoc_str PRECEDENCE op = Some p -> m <= p -> p < k -> op <> js "(" ->
  operand d (S p) ts2 n2 ->
  lead d m (S p) (ts1 ++ (sp, sym op) :: ts2) (Binary op n1 n2 0 0).
Proof.
  intros L Hp Hm Hk Ho O rest B. rewrite <- app_assoc. cbn [app].
  destruct (L ((sp, sym op) :: ts2 ++ rest)) as (n0 & r1 & P & C).
  { split; [done|]. cbn [next_text tok_text sym]. by rewrite Hp. }
  exists n0, r1. split; [done|]. intros n' r' D. apply C.
  eapply DStep; [exact Hp|done| |exact D]. by apply O.
Qed.

Lemma operand_of_lead d m k ts n :
  d < 128 -> m <= k -> lead (S d) m k ts n -> operand d m ts n.
Proof.
  intros Hd Hk L rest B Q. destruct (L rest (below_le _ _ _ Hk B)) as (n0 & r1 & P & C).
  eapply DPlain; [done|exact P| |done]. apply C. constructor. apply B.
Qed.

(** [chain_toks op ts l]: pieces with a spaced operator between them, read as
    a left-associative chain. *)
Definition chain_toks (op : str) (ts : list spelled) (l : list (list spelled)) : list spelled :=
  ts ++ concat (map (fun e => (true, sym op) :: e) l).

Fixpoint chain_node (op : str) (n : node) (l : list node) : node :=
  match l with [] => n | x :: l' => chain_node op (Binary op n x 0 0) l' end.

Lemma lead_chain d m k op p ts n tss ns :
  assoc_str PRECEDENCE op = Some p -> m <= p -> p < k -> op <> js "(" ->
  Forall2 (operand d (S p)) tss ns -> lead d m k ts n ->
  lead d m (S p) (chain_toks op ts tss) (chain_node op n ns).
Proof.
  intros Hp Hm Hk Ho F. revert k ts n Hk. unfold chain_toks.
  induction F as [|t x tss ns Hx F IH]; intros k ts n Hk L.
  - cbn. rewrite app_nil_r. intros rest B. apply L. eapply below_le; [|exact B]. lia.
  - cbn [map concat chain_node]. rewrite app_assoc. apply (IH (S p)); [lia|].
    eapply lead_op; eauto.
Qed.

(** *** Calls and conditionals *)

(** The tokens begin an argument. *)
Definition opens (ts : list spelled) : bool :=
  match ts with (_, t) :: _ => negb (str_eqb (tok_text t) (js ")")) | [] => false end.

Lemma opens_next ts rest : opens ts = true -> next_text (ts ++ rest) <> js ")".
Proof.
  destruct ts as [|[sp t] ts]; [done|]. cbn [opens app next_text]. intros H.
  apply negb_true_iff, str_eqb_neq in H. done.
Qed.

Lemma below_symbol s sp rest :
  s <> js "(" -> assoc_str PRECEDENCE s = None -> below 0 ((sp, sym s) :: rest).
Proof. intros Hs Hp. split; [done|]. cbn [next_text tok_text sym]. by rewrite Hp. Qed.

Lemma prim_call1 d sp f ts a rest :
  assoc_str BILLING_FUNCTIONS f = Some 1 -> opens ts = true -> operand d 0 ts a ->
  dprim d (call_toks sp f ts ++ rest) (Call f [a] 0 0) rest.
Proof.
  intros Hf Ho O. unfold call_toks. cbn [app]. rewrite <- app_assoc. cbn [app].
  eapply DCall; [done|]. constructor; [by apply opens_next| |done].
  apply O; [by apply below_symbol|done].
Qed.

Definition args2 (ts us : list spelled) : list spelled := ts ++ (false, sym (js ",")) :: us.

Lemma prim_call2 d sp f ts a us b rest :
  assoc_str BILLING_FUNCTIONS f = Some 2 -> opens ts = true -> opens us = true ->
  operand d 0 ts a -> operand d 0 us b ->
  dprim d (call_toks sp f (args2 ts us) ++ rest) (Call f [a; b] 0 0) rest.
Proof.
  intros Hf Ho Hu Oa Ob. unfold call_toks, args2. cbn [app]. rewrite <- !app_assoc. cbn [app].
  eapply DCall; [done|]. eapply DMore; [by apply opens_next| |].
  { apply Oa; [by apply below_symbol|done]. }
  constructor; [by apply opens_next| |done].
  apply Ob; [by apply below_symbol|done].
Qed.

Definition cond_toks (c y n : list spelled) : list spelled :=
  c ++ (true, sym (js "?")) :: y ++ (true, sym (js ":")) :: n.

Lemma operand_cond d k tc c ty y tn n :
  d < 128 -> lead (S d) 0 k tc c -> operand (S d) 0 ty y -> operand (S d) 0 tn n ->
  operand d 0 (cond_toks tc ty tn) (Conditional c y n 0 0).
Proof.
  intros Hd L Oy On rest B Q. unfold cond_toks. rewrite <- app_assoc. cbn [app].
  rewrite <- app_assoc. cbn [app].
  destruct (L ((true, sym (js "?")) :: ty ++ (true, sym (js ":")) :: tn ++ rest)) as (n0 & r1 & P & C).
  { by split. }
  eapply DCond; [done|exact P| | |].
  - apply C. by constructor.
  - apply Oy; [by apply below_symbol|done].
  - by apply On.
Qed.

Lemma operand_closed ts n : operand 0 0 ts n -> dexpr 0 0 ts n [].
Proof. intros O. rewrite <- (app_nil_r ts). by apply O. Qed.

(** ** Spelling of the combined pieces *)

(** The tokens begin with a space. *)
Definition spaced (ts : list spelled) : bool := match ts with (true, _) :: _ => true | _ => false end.

Lemma spaced_quiet ts rest : spaced ts = true -> quiet (spell ts ++ rest) = true.
Proof. by destruct ts as [|[[|] t] ts]. Qed.

Lemma sound_cons sp t ts : tok_ok t = true -> spaced ts = true -> sound ts -> sound ((sp, t) :: ts).
Proof.
  intros Ht Hs H rest Hr. cbn [toks_before]. rewrite Ht, (H rest Hr), quiet_ends; [done|].
  by apply spaced_quiet.
Qed.

Lemma sound_then ts us : sound ts -> spaced us = true -> sound us -> sound (ts ++ us).
Proof. intros Ht Hs Hu. apply sound_app; [done..|]. intros. by apply spaced_quiet. Qed.

Lemma sound_chain op ts tss :
  tok_ok (sym op) = true -> sound ts -> Forall (fun e => spaced e = true /\ sound e) tss ->
  sound (chain_toks op ts tss).
Proof.
  intros Ho Ht F. unfold chain_toks. revert ts Ht.
  induction F as [|e tss [He Se] F IH]; intros ts Ht; cbn [map concat].
  - by rewrite app_nil_r.
  - rewrite app_assoc. apply IH. apply sound_then; [done|done|]. by apply sound_cons.
Qed.

Lemma sound_cond c y n :
  sound c -> spaced y = true -> sound y -> spaced n = true -> sound n -> sound (cond_toks c y n).
Proof.
  intros Hc Sy Hy Sn Hn. unfold cond_toks.
  assert (tok_ok (sym (js "?")) = true /\ tok_ok (sym (js ":")) = true) as [Q Q']
    by (split; vm_compute; reflexivity).
  assert (sound (y ++ (true, sym (js ":")) :: n)) as S
    by (apply sound_then; [done|done|]; by apply sound_cons).
  apply sound_then; [done|done|]. apply sound_cons; [done| |done]. by destruct y.
Qed.

(** A comma follows an argument, a space follows the comma. *)
Lemma sound_args2 ts us : sound ts -> spaced us = true -> sound us -> sound (args2 ts us).
Proof.
  intros Ht Su Hu. apply sound_app; [done| |done]. apply sound_cons; [|done..]. vm_compute. reflexivity.
Qed.

Lemma spell_call sp f args :
  spell (call_toks sp f args)
  = (if sp : bool then [32%N] else []) ++ f ++ js "(" ++ spell args ++ js ")".
Proof. unfold call_toks. cbn [spell]. rewrite spell_app. cbn [spell]. by rewrite app_nil_r. Qed.

Lemma spell_chain op ts tss pre text texts :
  spell ts = pre ++ text -> Forall2 (fun e t => spell e = 32%N :: t) tss texts ->
  spell (chain_toks op ts tss) = pre ++ join (js " " ++ op ++ js " ") (text :: texts).
Proof.
  intros Ht F. unfold chain_toks. rewrite spell_app, Ht, <- app_assoc. f_equal. clear Ht.
  revert text. induction F as [|e t tss texts He F IH]; intros text; [apply app_nil_r|].
  cbn [map concat app spell]. rewrite spell_app, He.
  change (join (js " " ++ op ++ js " ") (text :: t :: texts))
    with (text ++ (js " " ++ op ++ js " ") ++ join (js " " ++ op ++ js " ") (t :: texts)).
  f_equal. rewrite <- (IH t). change (js " ") with [32%N]. cbn [tok_text sym].
  rewrite <- !app_assoc. done.
Qed.

(** ** Numbers *)

(** A price the lexer reads back: [String(x)] is an unsigned literal, and one
    without a point or exponent is a safe integer. *)
Record writable (x : num) : Prop := {
  writable_canon : num_canon x;
  writable_finite : is_finite x = true;
  writable_sign : sign_bit x = false;
  writable_exact : existsb is_point_or_e (string_of_num x) || is_safe_integer x = true
}.

Definition writableb (x : num) : bool :=
  canonb x && is_finite x && negb (sign_bit x) &&
  (existsb is_point_or_e (string_of_num x) || is_safe_integer x).

Lemma writableb_spec x : writableb x = true -> writable x.
Proof.
  unfold writableb. intros H. apply andb_true_iff in H as [H E]. apply andb_true_iff in H as [H S].
  apply andb_true_iff in H as [C F]. split; [|done|by apply negb_true_iff|done].
  by apply canonb_spec.
Qed.

Definition written_integer (x : num) : bool := negb (existsb is_point_or_e (string_of_num x)).
Definition number_tok (x : num) : Tok := TkNum (string_of_num x) x (written_integer x).
Definition number_node (x : num) : node := Literal (LNum x) (Some (written_integer x)) 0 0.

Lemma number_tok_ok x : writable x -> tok_ok (number_tok x) = true.
Proof.
  intros [C F S E]. destruct (Number_of_string_of_num x C F S) as ((d & Hd & Hx) & _).
  cbn [tok_ok number_tok]. unfold number_text_ok. rewrite Hd, F.
  rewrite bool_decide_eq_true_2 by done. unfold written_integer. rewrite eqb_reflx, negb_involutive.
  by rewrite E.
Qed.

Lemma lead_number d m k sp x : lead d m k [(sp, number_tok x)] (number_node x).
Proof. apply lead_num. Qed.

Lemma writable_nonnegative x : writable x -> num_leb num_zero x = true.
Proof. intros [_ F S _]. destruct x as [[]|[]| |[] m e]; done. Qed.
