(* ===== verification/ExprAccept.v ===== *)
(** * Accepting generated expressions

    The converse of the compiler's soundness lemmas: an AST that is well
    typed, not too deep and free of fixed prices passes every check of
    [compile_body].  Typing and depth do not see positions, so they are
    checked on the erased AST a derivation names ([compile_derivation]). *)

From Stdlib Require Import ZArith Lia Bool SpecFloat.
From stdpp Require Import base list numbers.
From S2P Require Import Prelude JsString JsNumber JsNumberFacts JsValue JsJson ExprTypes ExprParser ExprParserFacts ExprCompile ExprCompileFacts ExprPrint ExprGrammar.

(** ** Typing succeeds *)

Section TypeTotal.
Variable types : type_map.

Definition knows (c : node) : Prop := types_get types c = Some (static_type c).

Lemma requireType_total c t : knows c -> accepts t c -> requireType types c t = Ok tt.
Proof.
  intros K A. unfold requireType. rewrite K.
  destruct A as [->| ->].
  - by rewrite (bool_decide_eq_true_2 (Some t = Some t)).
  - by rewrite (bool_decide_eq_true_2 (Some TDynamic = Some TDynamic)), orb_true_r.
Qed.

Lemma require_arg_total args i t :
  Forall knows args -> arg_accepts t args i -> require_arg types args i t = Ok tt.
Proof.
  intros K (a & Ha & A). unfold require_arg. rewrite Ha. apply requireType_total; [|done].
  by eapply Forall_lookup_1 in K.
Qed.

Lemma require_all_total args t :
  Forall knows args -> Forall (accepts t) args ->
  ofold (fun _ arg => requireType types arg t) tt args = Ok tt.
Proof.
  induction 1 as [|a args K Ks IH]; [done|]. intros A. inversion A; subst.
  cbn [ofold]. rewrite requireType_total by done. cbn [obind]. by apply IH.
Qed.

Lemma call_type_total f args :
  Forall knows args -> typed_node (Call f args 0 0) -> exists t, call_type types f args = Ok t.
Proof.
  intros K (T1 & T2 & T3 & T4). unfold call_type.
  assert ((if includes_str string_argument_functions f then require_arg types args 0 TString
           else Ok tt) = Ok tt) as ->.
  { destruct (includes_str _ f); [|done]. apply require_arg_total; auto. }
  cbn [obind]. destruct (str_eqb f (js "header")); [eauto|].
  destruct (str_eqb f (js "has")) eqn:E1.
  { apply str_eqb_eq in E1. rewrite require_arg_total by auto. eauto. }
  destruct (str_eqb f (js "tier")) eqn:E2.
  { apply str_eqb_eq in E2. destruct (T3 E2) as [A1 A2].
    rewrite require_arg_total by auto. cbn [obind]. rewrite require_arg_total by auto. eauto. }
  destruct (includes_str TIME_FUNCTIONS f); [eauto|].
  destruct (includes_str number_functions f) eqn:E3; [|eauto].
  rewrite require_all_total by auto. eauto.
Qed.

Lemma node_type_total n :
  Forall knows (children n) -> typed_node n -> exists t, node_type types n = Ok t.
Proof.
  destruct n as [v i s e|x s e|f args s e|o a s e|o l r s e|c y n s e]; cbn [children]; intros K T.
  - by eexists.
  - by eexists.
  - by apply call_type_total.
  - cbn [node_type typed_node] in *. inversion K; subst.
    rewrite requireType_total by done. by eexists.
  - inversion K as [|? ? Kl K']; subst. inversion K' as [|? ? Kr _]; subst.
    cbn [node_type typed_node] in *. destruct (includes_str logical_operators o).
    { destruct T as [Tl Tr]. rewrite !requireType_total by done. by eexists. }
    destruct (includes_str comparison_operators o); [by eexists|].
    destruct (_ && _ && _) eqn:E; [by eexists|].
    destruct T as [(T & Tl & Tr)|(T & Tl & Tr)].
    + exfalso. cbn [static_type] in T. rewrite Kl, Kr, Tl, Tr in *.
      destruct (includes_str logical_operators o); [done|].
      destruct (includes_str comparison_operators o); [done|].
      rewrite !bool_decide_eq_true_2 in E, T by done. rewrite !andb_true_r in *.
      by rewrite E in T.
    + rewrite !requireType_total by done. by eexists.
  - inversion K as [|? ? Kc _]; subst. cbn [node_type typed_node] in *.
    rewrite requireType_total by done. by eexists.
Qed.
End TypeTotal.

Lemma type_visit_total n : forall d types,
  types_ok types -> well_typed n -> d + node_depth n <= 256 ->
  exists types', visit_rec type_visitor d n types = Ok types'.
Proof.
  induction n as [n IH] using node_children_ind. intros d types Hok W D.
  unfold well_typed in W. rewrite postorder_children, Forall_app, Forall_concat_map in W.
  destruct W as [W Wn]. apply Forall_inv in Wn. rewrite visit_rec_unfold.
  destruct (Nat.ltb_spec 256 d); [lia|].
  assert (forall c, c ∈ children n -> S d + node_depth c <= 256) as Dc.
  { intros c Hc. apply node_depth_child in Hc. lia. }
  assert (exists types1, ofold (fun a c => visit_rec type_visitor (S d) c a) types (children n) = Ok types1
    /\ types_ok types1 /\ Forall (knows types1) (children n)
    /\ (forall m t, types_get types m = Some t -> is_Some (types_get types1 m)))
    as (types1 & -> & Hok1 & K & _).
  { clear Wn. revert types Hok. induction (children n) as [|c l IHl]; intros types Hok.
    { exists types. split_and!; [done|done|done|by eauto]. }
    inversion IH as [|? ? Hc Hl]; subst. inversion W as [|? ? Wc Wl]; subst.
    destruct (Hc (S d) types Hok Wc) as [t1 E1]; [apply Dc; by left|].
    destruct (type_visit _ _ _ _ Hok E1) as (Ok1 & G1 & _ & Keep1).
    destruct (IHl Hl Wl ltac:(intros; apply Dc; by right) t1 Ok1) as (t2 & E2 & Ok2 & K2 & Keep2).
    exists t2. cbn [ofold]. rewrite E1. cbn [obind]. split_and!; [done|done| |].
    - constructor; [|done]. destruct (Keep2 _ _ G1) as [t Ht]. unfold knows.
      by rewrite Ht, (Ok2 _ _ Ht).
    - intros m t Hm. destruct (Keep1 _ _ Hm) as [t' Ht']. by eapply Keep2. }
  cbn [obind]. unfold type_visitor. destruct (node_type_total types1 n K Wn) as [t ->].
  by eexists.
Qed.

Lemma check_types_total ast :
  well_typed ast -> node_depth ast <= 256 -> exists types, checkExpressionTypes ast = Ok types.
Proof.
  intros W D. unfold checkExpressionTypes. rewrite visit_structural.
  by apply type_visit_total.
Qed.

(** ** Positions do not matter *)

Lemma erase_children n : children (erase n) = map erase (children n).
Proof. by destruct n. Qed.

Lemma erase_depth n : node_depth (erase n) = node_depth n.
Proof.
  induction n as [| |f args s e IH| | |] using node_ind; cbn [erase node_depth]; try done; try congruence.
  rewrite map_map. induction IH as [|a args Ha Hargs IH]; [done|]. cbn. by rewrite Ha, IH.
Qed.

Lemma erase_static n : static_type (erase n) = static_type n.
Proof.
  induction n using node_ind; cbn [erase static_type]; try done; by rewrite ?IHn1, ?IHn2, ?IHn3.
Qed.

Lemma erase_postorder n : postorder (erase n) = map erase (postorder n).
Proof.
  induction n as [n IH] using node_children_ind.
  rewrite !postorder_children, erase_children, map_app. cbn [map]. f_equal.
  induction IH as [|c l Hc Hl IHl]; [done|]. cbn [map concat]. by rewrite Hc, IHl, map_app.
Qed.

Lemma erase_accepts t n : accepts t (erase n) <-> accepts t n.
Proof. unfold accepts. by rewrite erase_static. Qed.

Lemma erase_arg_accepts t args i : arg_accepts t (map erase args) i -> arg_accepts t args i.
Proof.
  intros (a & Ha & A). rewrite list_lookup_fmap in Ha.
  destruct (args !! i) as [b|] eqn:E; [|done]. injection Ha as <-.
  exists b. split; [done|]. by apply erase_accepts.
Qed.

Lemma erase_typed n : typed_node (erase n) -> typed_node n.
Proof.
  destruct n as [v i s e|x s e|f args s e|o a s e|o l r s e|c y n s e]; cbn [erase]; try done.
  - cbn [typed_node]. intros (T1 & T2 & T3 & T4). split_and!.
    + intros H. by apply erase_arg_accepts, T1.
    + intros H. by apply erase_arg_accepts, T2.
    + intros H. destruct (T3 H) as [A1 A2]. split; by apply erase_arg_accepts.
    + intros H. specialize (T4 H). rewrite Forall_map in T4. eapply Forall_impl; [|exact T4].
      intros a. by rewrite erase_accepts.
  - cbn [typed_node]. apply erase_accepts.
  - cbn [typed_node]. intros T. destruct (includes_str logical_operators o).
    { by rewrite !erase_accepts in T. }
    destruct (includes_str comparison_operators o); [done|].
    change (Binary o (erase l) (erase r) 0 0) with (erase (Binary o l r s e)) in T.
    by rewrite !erase_static, !erase_accepts in T.
  - cbn [typed_node]. apply erase_accepts.
Qed.

Lemma erase_well_typed n : well_typed (erase n) -> well_typed n.
Proof.
  unfold well_typed. rewrite erase_postorder, Forall_map. intros H.
  eapply Forall_impl; [|exact H]. apply erase_typed.
Qed.

(** The functions an AST calls. *)
Definition calls_name (f : str) (n : node) : bool := existsb (calls_any [f]) (postorder n).

Lemma erase_calls f n : calls_name f (erase n) = calls_name f n.
Proof.
  unfold calls_name. rewrite erase_postorder. induction (postorder n) as [|m l IH]; [done|].
  cbn. rewrite IH. f_equal. by destruct m.
Qed.

(** ** Acceptance *)

Lemma dependencies_total n :
  node_depth n <= 256 -> exists vs fs, expressionDependencies n = Ok (vs, fs) /\
    forall f, includes_str fs f = calls_name f n.
Proof.
  intros D. assert (exists p, expressionDependencies n = Ok p) as [[vs fs] E].
  { unfold expressionDependencies. rewrite visit_structural, visit_rec_total by done.
    assert (forall l acc, exists p, ofold dependency_visitor acc l = Ok p) as F; [|apply F].
    induction l as [|m l IH]; intros [vs fs]; [by eexists|]. cbn [ofold].
    destruct m; cbn [dependency_visitor obind]; apply IH. }
  exists vs, fs. split; [done|]. intros f. unfold calls_name.
  rewrite <- (existsb_dependencies [f] n vs fs E). unfold includes_str.
  apply eq_true_iff_eq. rewrite !existsb_exists.
  split; intros (g & Hg & Eg); exists g; (split; [done|]); cbn [existsb] in *;
    rewrite ?orb_false_r in *; apply str_eqb_eq in Eg; by apply str_eqb_eq.
Qed.

Lemma rules_total source n :
  node_depth n <= 256 -> exists rules, visitExpression (rule_visitor source) n [] = Ok rules.
Proof.
  intros D. rewrite visit_structural, visit_rec_total by done.
  assert (forall m, m ∈ postorder n -> node_depth m <= 256) as Dm.
  { clear -D. revert D. induction n as [n IH] using node_children_ind. intros D m.
    rewrite postorder_children, elem_of_app, list_elem_of_singleton. intros [Hm| ->]; [|done].
    apply list_elem_of_In, in_concat in Hm as (l & Hl & Hm).
    apply in_map_iff in Hl as (c & <- & Hc). apply list_elem_of_In in Hc, Hm.
    rewrite Forall_forall in IH. apply (IH c); [by apply list_elem_of_In| |done].
    apply node_depth_child in Hc. lia. }
  revert Dm. generalize (postorder n). intros l Dm. generalize (@nil RuleSite).
  induction l as [|m l IH]; intros acc; [by eexists|]. cbn [ofold].
  assert (exists acc', rule_visitor source acc m = Ok acc') as [acc' ->].
  { unfold rule_visitor.
    destruct m as [| | | | |c [[|x| |] ? ? ?| | | | |] [[|k| |] ? ? ?| | | | |] s e]; try (by eexists).
    destruct (negb _); [by eexists|].
    destruct (dependencies_total c) as (vs & fs & -> & _).
    { specialize (Dm _ ltac:(by left)). cbn [node_depth] in Dm. lia. }
    cbn [obind]. destruct (existsb _ fs); by eexists. }
  cbn [obind]. apply IH. intros k Hk. apply Dm. by right.
Qed.

Lemma compile_parsed source ast :
  parse source = Ok ast -> well_typed (erase ast) -> node_depth (erase ast) <= 256 ->
  calls_name (js "fixed") (erase ast) = false ->
  exists vs fs rules, compile_body source = Ok (Compiled source ast vs fs rules).
Proof.
  intros P W D C. rewrite erase_depth in D. apply erase_well_typed in W. rewrite erase_calls in C.
  unfold compile_body. rewrite P. cbn [obind].
  destruct (check_types_total ast W D) as [types ->]. cbn [obind].
  destruct (dependencies_total ast D) as (vs & fs & -> & F). cbn [obind].
  destruct (rules_total source ast D) as [rules ->]. cbn [obind].
  rewrite F, C. cbn [obind]. by eexists _, _, _.
Qed.

(** *** Facts that go node by node *)

(** Well typed, of depth at most [D], and free of fixed prices. *)
Record fine (D : nat) (n : node) : Prop := {
  fine_typed : well_typed n;
  fine_depth : node_depth n <= D;
  fine_calls : calls_name (js "fixed") n = false
}.

Lemma fine_node D n :
  Forall (fine D) (children n) -> typed_node n -> calls_any [js "fixed"] n = false -> fine (S D) n.
Proof.
  intros F T C. split.
  - unfold well_typed. rewrite postorder_children, Forall_app, Forall_concat_map. split; [|by repeat constructor].
    eapply Forall_impl; [|exact F]. by intros a [].
  - assert (Forall (fun c => node_depth c <= D) (children n)) as H
      by (eapply Forall_impl; [|exact F]; by intros a []).
    destruct n as [| |f args s e| | |]; cbn [children node_depth] in *; try lia.
    + clear F T C. induction H as [|a l Ha Hl IH]; cbn; lia.
    + inversion H; subst. lia.
    + inversion H as [|? ? ? H']; subst. inversion H'; subst. lia.
    + inversion H as [|? ? ? H']; subst. inversion H' as [|? ? ? H'']; subst. inversion H''; subst. lia.
  - unfold calls_name. rewrite postorder_children, existsb_app. cbn [existsb]. rewrite C, !orb_false_r.
    induction F as [|a l [_ _ Ha] Hl IH]; [done|]. cbn [map concat]. rewrite existsb_app.
    unfold calls_name in Ha. by rewrite Ha, IH.
Qed.

Lemma fine_le D D' n : D <= D' -> fine D n -> fine D' n.
Proof. intros H [T L C]. split; [done|lia|done]. Qed.

Lemma fine_leaf D v i : fine D (Literal v i 0 0).
Proof. apply (fine_le 0); [lia|]. split; [by repeat constructor|done|done]. Qed.

(** A chain whose operator keeps the type [P] of its left operand. *)
Lemma fine_chain (P : node -> Prop) op D n ns :
  (forall l r, P l -> P r -> typed_node (Binary op l r 0 0) /\ P (Binary op l r 0 0)) ->
  fine D n -> P n -> Forall (fun x => fine D x /\ P x) ns ->
  fine (D + length ns) (chain_node op n ns) /\ P (chain_node op n ns).
Proof.
  intros Step Fn Pn F. revert D n Fn Pn F. induction ns as [|x ns IH]; intros D n Fn Pn F.
  { cbn. by rewrite Nat.add_0_r. }
  inversion F as [|? ? [Fx Px] F']; subst. cbn [chain_node length].
  replace (D + S (length ns)) with (S D + length ns) by lia.
  destruct (Step n x Pn Px) as [T Pb]. apply IH; [|done|].
  - apply fine_node; [|done|done]. cbn [children]. constructor; [done|]. constructor; [done|constructor].
  - eapply Forall_impl; [|exact F']. intros y [Fy Py]. split; [|done]. eapply fine_le; [|exact Fy]. lia.
Qed.

(** What the compiler accepts: the limits of the parser and of the traversal,
    and an AST that is well typed and free of fixed prices. *)
Record acceptable (ts : list spelled) (n : node) : Prop := {
  acc_toks : toks_ok ts = true;
  acc_derives : dexpr 0 0 ts n [];
  acc_length : (N.of_nat (length (spell ts)) <= 65536)%N;
  acc_count : (N.of_nat (S (length ts)) <= 10000)%N;
  acc_version : match_version (spell ts) = None;
  acc_fine : fine 256 n
}.

Lemma compile_derivation ts n :
  acceptable ts n ->
  exists c, compile_uncached (spell ts) = Ready c /\ compiled_source c = spell ts /\
    erase (compiled_ast c) = n.
Proof.
  intros [T E L C V [W D F]]. destruct (parse_derivation ts n T E L C V) as (ast & P & G).
  destruct (compile_parsed (spell ts) ast P) as (vs & fs & rules & B); [by rewrite G..|].
  exists (Compiled (spell ts) ast vs fs rules). unfold compile_uncached. by rewrite B.
Qed.
