(* ===== verification/ExprDisplay.v ===== *)
(** * Tier summaries

    Models [features/pricing/lib/billing-expression/display.ts]: reading an
    ordered chain of token tiers, time-dependent token tiers and task tiers
    off a compiled expression. *)

From Stdlib Require Import ZArith Lia Bool SpecFloat.
From stdpp Require Import base list numbers.
From S2P Require Import Prelude JsString JsNumber JsValue JsHost.
From S2P Require Import ExprTypes ExprParser ExprCompile ExprRuntime.

Record TokenTierCondition := TokenCondition { tc_var : str; tc_op : str; tc_value : num }.

Record TokenTier := MkTokenTier {
  tt_conditionText : option str;
  tt_imageCount : option bool;
  tt_billingUnit : option BillingUnit;
  tt_fixedPrice : option num;
  tt_label : str;
  tt_conditions : list TokenTierCondition;
  tt_prices : list (str * num)
}.

Record TimeCondition := MkTimeCondition { tm_condition : node; tm_matches : bool }.

(** [TimeTokenTier]: a token tier with the time conditions that lead to it. *)
Record TimeTokenTier := MkTimeTier {
  ti_tier : TokenTier;
  ti_timeConditions : list TimeCondition
}.

Fixpoint flattenBinary (n : node) (operator : str) : list node :=
  match n with
  | Binary op l r _ _ =>
      if str_eqb op operator then flattenBinary l operator ++ flattenBinary r operator
      else [n]
  | _ => [n]
  end.

Definition ordering_operators : list str := [js "<"; js "<="; js ">"; js ">="].
Definition condition_variables : list str := [js "p"; js "c"; js "len"].

(** One conjunct of a token condition. *)
Definition token_condition (part : node) : option TokenTierCondition :=
  match part with
  | Binary op (Variable_ x _ _) (Literal (LNum v) _ _ _) _ _ =>
      if includes_str ordering_operators op && includes_str condition_variables x
         && negb (num_ltb v num_zero)
      then Some (TokenCondition x op v) else None
  | _ => None
  end.

(** The loops that give up at the first element they cannot read. *)
Fixpoint all_some {A B} (read : A -> option B) (items : list A) : option (list B) :=
  match items with
  | item :: rest =>
      match read item with
      | None => None
      | Some y => match all_some read rest with None => None | Some ys => Some (y :: ys) end
      end
  | [] => Some []
  end.

Definition tokenConditions (n : node) : option (list TokenTierCondition) :=
  all_some token_condition (flattenBinary n (js "&&")).

Definition nonnegativePriceLiteral (n : node) : option num :=
  match n with
  | Literal (LNum v) _ _ _ => if num_leb num_zero v then Some v else None
  | Unary op (Literal (LNum v) _ _ _) _ _ =>
      if str_eqb op (js "-") && num_eqb v num_zero then Some (S754_zero true) else None
  | _ => None
  end.

Definition is_zero_literal (n : node) : bool :=
  match n with Literal (LNum v) _ _ _ => num_eqb v num_zero | _ => false end.

(** [len - ai], the text remainder of an audio request. *)
Definition is_text_remainder (n : node) : bool :=
  match n with
  | Binary op (Variable_ a _ _) (Variable_ b _ _) _ _ =>
      str_eqb op (js "-") && str_eqb a (js "len") && str_eqb b (js "ai")
  | _ => false
  end.

(** The variable a price applies to. *)
Definition price_variable (input : node) : option str :=
  let remainder_of :=
    match input with
    | Call name [a; b] _ _ =>
        if negb (str_eqb name (js "max")) then None
        else if is_zero_literal a then Some b
        else if is_zero_literal b then Some a
        else None
    | _ => None
    end in
  let from_remainder :=
    match remainder_of with
    | Some remainder => if is_text_remainder remainder then Some (js "p") else None
    | None => None
    end in
  match input with
  | Variable_ x _ _ =>
      if negb (str_eqb x (js "len")) && negb (str_eqb x (js "image_count")) then Some x
      else from_remainder
  | _ => from_remainder
  end.

(** The input and the price of a product. *)
Definition priced_input (term : node) : option (node * num) :=
  match term with
  | Binary op l r _ _ =>
      if negb (str_eqb op (js "*")) then None
      else
        match nonnegativePriceLiteral r with
        | Some price => Some (l, price)
        | None =>
            match nonnegativePriceLiteral l with
            | Some price => Some (r, price)
            | None => None
            end
        end
  | _ => None
  end.

(** The loop over the terms of a tier's body. *)
Fixpoint token_prices (terms : list node) (prices : list (str * num))
  : option (list (str * num)) :=
  match terms with
  | [] => Some prices
  | term :: rest =>
      match priced_input term with
      | None => None
      | Some (input, price) =>
          match price_variable input with
          | None => None
          | Some variable =>
              match assoc_str prices variable with
              | Some _ => None
              | None => token_prices rest (prices ++ [(variable, price)])
              end
          end
      end
  end.

Definition tokenTier (n : node) (conditions : list TokenTierCondition) : option TokenTier :=
  match n with
  | Call name (Literal (LStr label) _ _ _ :: body :: _) _ _ =>
      if negb (str_eqb name (js "tier")) then None
      else
        let linear :=
          match token_prices (flattenBinary body (js "+")) [] with
          | None | Some [] => None
          | Some prices => Some (MkTokenTier None None None None label conditions prices)
          end in
        match body with
        | Call fname (Literal (LNum amount) _ _ _ :: _) _ _ =>
            if str_eqb fname (js "fixed") then
              Some (MkTokenTier None None (Some unit_request) (Some amount) label conditions [])
            else linear
        | _ => linear
        end
  | _ => None
  end.

(** [ai > 0] or [ao > 0]: the audio variable it tests. *)
Definition audio_presence (part : node) : option str :=
  match part with
  | Binary op (Variable_ x _ _) rhs _ _ =>
      if str_eqb op (js ">") && (str_eqb x (js "ai") || str_eqb x (js "ao"))
         && is_zero_literal rhs
      then Some x else None
  | _ => None
  end.

Definition with_condition_text (text : str) (t : TokenTier) : TokenTier :=
  MkTokenTier (Some text) (tt_imageCount t) (tt_billingUnit t) (tt_fixedPrice t)
    (tt_label t) (tt_conditions t) (tt_prices t).
Definition with_image_count (t : TokenTier) : TokenTier :=
  MkTokenTier (tt_conditionText t) (Some true) (tt_billingUnit t) (tt_fixedPrice t)
    (tt_label t) (tt_conditions t) (tt_prices t).

(** The audio special case of [readTokenTierChain]. *)
Definition audio_chain (n : node) : option (list TokenTier) :=
  match n with
  | Conditional (Binary op l r _ _) yes no _ _ =>
      if negb (str_eqb op (js "||")) then None
      else
        match audio_presence l, audio_presence r with
        | Some a, Some b =>
            if str_eqb a b then None
            else
              match tokenTier yes [], tokenTier no [] with
              | Some audio, Some text =>
                  Some [with_condition_text (js "Audio requests") audio;
                        with_condition_text (js "Text-only requests") text]
              | _, _ => None
              end
        | _, _ => None
        end
  | _ => None
  end.

(** The [while] loop over a chain of conditionals. *)
Fixpoint linear_chain (n : node) : option (list TokenTier) :=
  match n with
  | Conditional condition yes no _ _ =>
      match tokenConditions condition with
      | None => None
      | Some conditions =>
          match tokenTier yes conditions with
          | None => None
          | Some tier =>
              match linear_chain no with
              | None => None
              | Some tiers => Some (tier :: tiers)
              end
          end
      end
  | _ => match tokenTier n [] with Some fallback => Some [fallback] | None => None end
  end.

Fixpoint readTokenTierChain (n : node) : option (list TokenTier) :=
  match audio_chain n with
  | Some tiers => Some tiers
  | None =>
      match n with
      | Binary op l r _ _ =>
          if str_eqb op (js "*") then
            if is_image_count l then option_map (map with_image_count) (readTokenTierChain r)
            else if is_image_count r then option_map (map with_image_count) (readTokenTierChain l)
            else linear_chain n
          else linear_chain n
      | _ => linear_chain n
      end
  end.

(** ** Time-dependent tiers *)

Definition time_condition_functions : list str :=
  TIME_FUNCTIONS ++ [js "min"; js "max"; js "abs"; js "ceil"; js "floor"].

Definition isTimeCondition (n : node) : R bool :=
  let* (variables, functions) := expressionDependencies n in
  Ok (match variables with [] => true | _ => false end
      && existsb (includes_str TIME_FUNCTIONS) functions
      && forallb (includes_str time_condition_functions) functions).

Definition condition_text (c : TokenTierCondition) : str :=
  tc_var c ++ js " " ++ tc_op c ++ js " " ++ string_of_num (tc_value c).

Definition time_condition_text (source : str) (c : TimeCondition) : str :=
  let text := slice_nat source (node_start (tm_condition c)) (node_end (tm_condition c)) in
  if tm_matches c then js "(" ++ text ++ js ")" else js "!(" ++ text ++ js ")".

Definition time_tier (source : str) (path : list TimeCondition) (tier : TokenTier)
  : TimeTokenTier :=
  let timeDescription := join (js " && ") (map (time_condition_text source) path) in
  MkTimeTier
    (with_condition_text
       (join (js " && ") (timeDescription :: map condition_text (tt_conditions tier))) tier)
    path.

Definition time_leaf (source : str) (n : node) (path : list TimeCondition)
  : option (list TimeTokenTier) :=
  match readTokenTierChain n, path with
  | Some tiers, _ :: _ => Some (map (time_tier source path) tiers)
  | _, _ => None
  end.

Fixpoint timeTierBranches (compiled : CompiledBillingExpression) (n : node)
    (path : list TimeCondition) : R (option (list TimeTokenTier)) :=
  match n with
  | Conditional condition yes no _ _ =>
      let* timed := isTimeCondition condition in
      if timed then
        let* ys := timeTierBranches compiled yes (path ++ [MkTimeCondition condition true]) in
        let* ns := timeTierBranches compiled no (path ++ [MkTimeCondition condition false]) in
        match ys, ns with
        | Some ys, Some ns => Ok (Some (ys ++ ns))
        | _, _ => Ok None
        end
      else Ok (time_leaf (compiled_source compiled) n path)
  | _ => Ok (time_leaf (compiled_source compiled) n path)
  end.

Section TimePricing.
Context `{JSHost}.

(** Whether every time condition of a tier holds at [now]. *)
Definition current_tier (compiled : CompiledBillingExpression) (now : Date)
    (tier : TimeTokenTier) : bool :=
  forallb (fun c =>
    bool_decide (evaluateBillingCondition compiled (tm_condition c) now = Some (tm_matches c)))
    (ti_timeConditions tier).

Definition readTimeTokenPricing (cache : compiled_cache) (source : str) (now : option Date)
  : R (option (list TimeTokenTier * list TimeTokenTier)) * compiled_cache :=
  let '(result, cache') := compileBillingExpression cache source in
  match result with
  | Failed _ => (Ok None, cache')
  | Ready compiled =>
      (let* tiers := timeTierBranches compiled (compiled_ast compiled) [] in
       match tiers with
       | None => Ok None
       | Some tiers =>
           Ok (Some (tiers,
                     match now with
                     | Some date => List.filter (current_tier compiled date) tiers
                     | None => []
                     end))
       end, cache')
  end.
End TimePricing.

(** ** Task tiers *)

Inductive FieldType : Type := field_number | field_boolean.
#[global] Instance FieldType_eq_dec : EqDecision FieldType.
Proof. solve_decision. Defined.

(** The parts of [BillingUsageFieldSchema] the summaries read. *)
Record BillingUsageFieldSchema := FieldSchema {
  fs_type : option FieldType;
  fs_unit : option str;
  fs_enum : option (list str)
}.
Definition BillingUsageSchema : Type := list (str * BillingUsageFieldSchema).

Record TaskCondition := MkTaskCondition { kc_field : str; kc_value : str }.

Record TaskTier := MkTaskTier {
  kt_label : str;
  kt_conditions : list TaskCondition;
  kt_constant : num;
  kt_unitPrices : list (str * num)
}.

(** [String(value)] for a literal. *)
Definition literal_text (v : literal_value) : str :=
  match v with
  | LStr s => s
  | LNum n => string_of_num n
  | LBool b => bool_text b
  | LNull => js "null"
  end.

Definition task_condition (schema : BillingUsageSchema) (includeBoolean : bool) (term : node)
  : option TaskCondition :=
  match term with
  | Binary op (Call name (Literal (LStr field) _ _ _ :: _) _ _) (Literal value _ _ _) _ _ =>
      if negb (str_eqb op (js "==") && str_eqb name (js "u")) then None
      else
        let definition := assoc_str schema field in
        let condition := Some (MkTaskCondition field (literal_text value)) in
        if bool_decide (option_map fs_type definition = Some (Some field_boolean)) then
          match value with
          | LBool _ => if includeBoolean then condition else None
          | _ => None
          end
        else
          match value with
          | LStr s =>
              match definition with
              | Some d => if includes_str (default [] (fs_enum d)) s then condition else None
              | None => None
              end
          | _ => None
          end
  | _ => None
  end.

Definition taskConditions (n : node) (schema : BillingUsageSchema) (includeBoolean : bool)
  : option (list TaskCondition) :=
  all_some (task_condition schema includeBoolean) (flattenBinary n (js "&&")).

Definition is_number_literal (z : Z) (n : node) : bool :=
  match n with Literal (LNum v) _ _ _ => num_eqb v (num_of_Z z) | _ => false end.

(** [u(field) * price], the only linear term of a task tier. *)
Definition usage_product (term : node) : option (str * num) :=
  match term with
  | Binary op (Call name (Literal (LStr field) _ _ _ :: _) _ _) price _ _ =>
      if str_eqb op (js "*") && str_eqb name (js "u") then
        match nonnegativePriceLiteral price with
        | Some p => Some (field, p)
        | None => None
        end
      else None
  | _ => None
  end.

(** The scale and the product of a term: [term / 1000000] is scaled. *)
Definition scaled_term (term : node) : option (bool * node) :=
  match term with
  | Binary op l r _ _ =>
      if str_eqb op (js "/") then
        if is_number_literal 1000000 r then Some (true, l) else None
      else Some (false, term)
  | _ => Some (false, term)
  end.

Fixpoint task_prices (schema : BillingUsageSchema) (terms : list node)
    (constant : option num) (unitPrices : list (str * num))
  : option (option num * list (str * num)) :=
  match terms with
  | [] => Some (constant, unitPrices)
  | term :: rest =>
      match nonnegativePriceLiteral term with
      | Some literal =>
          match constant with
          | Some _ => None
          | None => task_prices schema rest (Some literal) unitPrices
          end
      | None =>
          match scaled_term term with
          | None => None
          | Some (scaled, product) =>
              match usage_product product with
              | None => None
              | Some (field, price) =>
                  match assoc_str schema field with
                  | None => None
                  | Some definition =>
                      match fs_type definition, fs_unit definition, assoc_str unitPrices field with
                      | Some field_number, Some unit, None =>
                          if str_eqb unit [] then None
                          else if Bool.eqb (str_eqb unit (js "token")) scaled
                          then task_prices schema rest constant (unitPrices ++ [(field, price)])
                          else None
                      | _, _, _ => None
                      end
                  end
              end
          end
      end
  end.

Definition taskTier (n : node) (conditions : list TaskCondition) (schema : BillingUsageSchema)
  : option TaskTier :=
  match n with
  | Call name (Literal (LStr label) _ _ _ :: body :: _) _ _ =>
      if negb (str_eqb name (js "tier")) then None
      else
        match task_prices schema (flattenBinary body (js "+")) None [] with
        | None | Some (_, []) => None
        | Some (constant, unitPrices) =>
            Some (MkTaskTier label conditions (default num_zero constant) unitPrices)
        end
  | _ => None
  end.

Fixpoint readTaskTierChain (n : node) (schema : BillingUsageSchema) (includeBoolean : bool)
  : option (list TaskTier) :=
  match n with
  | Conditional condition yes no _ _ =>
      match taskConditions condition schema includeBoolean with
      | None => None
      | Some conditions =>
          match taskTier yes conditions schema with
          | None => None
          | Some tier =>
              match readTaskTierChain no schema includeBoolean with
              | None => None
              | Some tiers => Some (tier :: tiers)
              end
          end
      end
  | _ => match taskTier n [] schema with Some fallback => Some [fallback] | None => None end
  end.
