(* ===== verification/ExprDisplayFacts.v ===== *)
(** * Summaries agree with the evaluator

    The tier chains [display.ts] reads off an AST are compared with the
    runtime: the tier a successful evaluation reports is the first tier of
    the chain whose conditions hold. *)

From Stdlib Require Import ZArith Lia Bool SpecFloat.
From stdpp Require Import base list numbers.
From S2P Require Import Prelude JsString JsNumber JsValue JsHost.
From S2P Require Import ExprTypes ExprParser ExprParserFacts ExprCompile ExprCompileFacts.
From S2P Require Import ExprRuntime ExprRuntimeFacts ExprRuntimeSim ExprDisplay.

Lemma all_some_app {A B} (f : A -> option B) l1 l2 ys :
  all_some f (l1 ++ l2) = Some ys ->
  exists y1 y2, all_some f l1 = Some y1 /\ all_some f l2 = Some y2 /\ ys = y1 ++ y2.
Proof.
  revert ys. induction l1 as [|x l1 IH]; intros ys H; simpl in *.
  { by exists [], ys. }
  destruct (f x) as [y|]; [|done]. destruct (all_some f (l1 ++ l2)) as [zs|]; [|done].
  injection H as <-. destruct (IH zs eq_refl) as (y1 & y2 & -> & -> & ->).
  by exists (y :: y1), y2.
Qed.

(** The part of the state tiers and fixed prices write. *)
Definition pricing (st : rt_state) : str * BillingUnit * option num :=
  (rt_matchedTier st, rt_billingUnit st, rt_fixedPrice st).

Definition marker_free_node (m : node) : bool :=
  match m with
  | Call f _ _ _ => negb (str_eqb f (js "tier")) && negb (str_eqb f (js "fixed"))
  | _ => true
  end.
Definition marker_free (n : node) : Prop :=
  Forall (fun m => marker_free_node m = true) (postorder n).

Section Eval.
Context `{JSHost}.
Variable compiled : CompiledBillingExpression.
Variable context : BillingSimulationContext.
Variable now : Date.
Variable headers : list (str * str).
Notation eval := (evaluate compiled context now headers).

(** ** Inversion of successful evaluations *)

Lemma eval_wrap (n : node) d (m : M RuntimeValue) st r st' :
  (if 256 <? S d then lift (fail limit_ (js "evaluation depth"))
   else do* v := m in lift (check_value (node_start n) v)) st = Ok (r, st') ->
  m st = Ok (r, st').
Proof.
  destruct (256 <? S d); [done|]. unfold m_bind, lift. intros Hm.
  destruct (m st) as [[v s]|e|]; simpl in Hm; try done.
  destruct (check_value (node_start n) v) as [v'|e|] eqn:Ec; simpl in Hm; try done.
  injection Hm as <- <-. by apply check_value_ok in Ec as [-> _].
Qed.

Lemma bind_ok {A B} (m : M A) (k : A -> M B) st r :
  m_bind m k st = Ok r -> exists a st1, m st = Ok (a, st1) /\ k a st1 = Ok r.
Proof.
  unfold m_bind. destruct (m st) as [[a st1]|e|]; simpl; try done. by exists a, st1.
Qed.

Lemma lift_ok {A} (r : R A) st a st' : lift r st = Ok (a, st') -> r = Ok a /\ st' = st.
Proof. unfold lift. destruct r; simpl; try done. by intros [= -> ->]. Qed.

Lemma boolean_ok c d st b st' :
  boolean_of (node_start c, eval c d) st = Ok (b, st') ->
  exists r, eval c d st = Ok (r, st') /\ rv_value r = JBool b.
Proof.
  intros Hb. apply bind_ok in Hb as (r & st1 & Hr & Hb). apply lift_ok in Hb as [Hb ->].
  exists r. split; [done|]. unfold as_boolean in Hb.
  destruct (rv_value r); try done. by injection Hb as ->.
Qed.

Lemma literal_ok_eval v i s e d st r st' :
  eval (Literal v i s e) d st = Ok (r, st') -> r = RV (literal_jsval v) i /\ st' = st.
Proof. cbn [evaluate]. intros Hv%eval_wrap. by injection Hv as <- <-. Qed.

Definition token_number (x : str) : option num :=
  match assoc_str (default [] (ctx_tokens context)) x with
  | Some (JNum n) => Some n
  | _ => None
  end.

Lemma variable_ok_eval x s e d st r st' :
  x <> js "image_count" -> eval (Variable_ x s e) d st = Ok (r, st') ->
  exists n, token_number x = Some n /\ r = plain (JNum n) /\ st' = st.
Proof.
  intros Hx. cbn [evaluate]. intros Hv%eval_wrap. apply lift_ok in Hv as [Hv ->].
  unfold variable_value in Hv. apply str_eqb_neq in Hx. rewrite Hx in Hv.
  unfold token_number. destruct (assoc_str _ x) as [v|]; simpl in Hv; [|done].
  destruct v as [ | | |n| | | ]; try done. destruct (num_ltb n num_zero); [done|].
  injection Hv as <-. by exists n.
Qed.

Lemma binary_ok_eval o l r s e d st v st' :
  includes_str logical_operators o = false ->
  eval (Binary o l r s e) d st = Ok (v, st') ->
  exists vl st1 vr, eval l (S d) st = Ok (vl, st1) /\ eval r (S d) st1 = Ok (vr, st') /\
    binary_values o s vl vr = Ok v.
Proof.
  intros Ho. cbn [evaluate]. intros Hv%eval_wrap. unfold binary in Hv.
  assert (str_eqb o (js "&&") = false /\ str_eqb o (js "||") = false) as [H1 H2].
  { split; apply str_eqb_neq; intros ->; done. }
  rewrite H1, H2 in Hv. cbn [snd] in Hv.
  apply bind_ok in Hv as (vl & st1 & Hl & Hv). apply bind_ok in Hv as (vr & st2 & Hr & Hv).
  apply lift_ok in Hv as [Hv ->]. by exists vl, st1, vr.
Qed.

(** ** Token conditions *)

Definition condition_holds (c : TokenTierCondition) : bool :=
  match token_number (tc_var c) with
  | Some x => bool_decide (compare_values (tc_op c) (JNum x) (JNum (tc_value c)) = Some true)
  | None => false
  end.

Definition tier_matches (t : TokenTier) : bool := forallb condition_holds (tt_conditions t).

Lemma compare_binary o s x y i v :
  includes_str ordering_operators o = true ->
  binary_values o s (plain (JNum x)) (RV (JNum y) i) = Ok v ->
  rv_value v = JBool (bool_decide (compare_values o (JNum x) (JNum y) = Some true)).
Proof.
  intros Ho. apply includes_str_elem in Ho. unfold ordering_operators in Ho.
  repeat (apply elem_of_cons in Ho as [-> |Ho]; [|]);
    [..|by apply not_elem_of_nil in Ho];
    unfold binary_values, compare_values; str_compute; cbn [rv_value plain];
    intros [= <-]; cbn [rv_value plain];
    match goal with |- JBool ?b = _ => by destruct b end.
Qed.

Lemma token_condition_eval n c d st r st' :
  token_condition n = Some c -> eval n d st = Ok (r, st') ->
  st' = st /\ rv_value r = JBool (condition_holds c).
Proof.
  intros Hc He. destruct n as [ | | | |o l rhs s e| ]; try done.
  destruct l as [ |x sx ex| | | | ]; try done.
  destruct rhs as [v i sv ev| | | | | ]; try done. destruct v as [ |y| | ]; try done.
  cbn [token_condition] in Hc.
  destruct (includes_str ordering_operators o && includes_str condition_variables x
            && negb (num_ltb y num_zero)) eqn:E; [|done].
  injection Hc as <-. apply andb_true_iff in E as [[Ho Hx]%andb_true_iff _].
  assert (x <> js "image_count") as Hne by (intros ->; done).
  apply binary_ok_eval in He as (vl & st1 & vr & Hl & Hr & Hv).
  - apply variable_ok_eval in Hl as (n & Hn & -> & ->); [|done].
    apply literal_ok_eval in Hr as [-> ->]. split; [done|].
    apply compare_binary in Hv; [|done]. unfold condition_holds. cbn [tc_var tc_op tc_value].
    by rewrite Hn.
  - destruct (includes_str logical_operators o) eqn:Hlog; [|done].
    apply includes_str_elem in Ho, Hlog. exfalso. revert Ho. unfold logical_operators in Hlog.
    repeat (apply elem_of_cons in Hlog as [-> |Hlog]; [|]);
      [..|by apply not_elem_of_nil in Hlog];
      apply (bool_decide_unpack _); vm_compute; exact Logic.I.
Qed.

Lemma conjunction_eval {C} (f : node -> option C) (holds : C -> bool) n :
  (forall n c d st r st', f n = Some c -> eval n d st = Ok (r, st') ->
     st' = st /\ rv_value r = JBool (holds c)) ->
  forall cs d st r st',
  all_some f (flattenBinary n (js "&&")) = Some cs -> eval n d st = Ok (r, st') ->
  st' = st /\ rv_value r = JBool (forallb holds cs).
Proof.
  intros Hf. induction n as [n IH] using node_children_ind. intros cs d st r st' Hcs He.
  assert (flattenBinary n (js "&&") = [n] ->
          st' = st /\ rv_value r = JBool (forallb holds cs)) as Hleaf.
  { intros E. rewrite E in Hcs. simpl in Hcs. destruct (f n) as [c|] eqn:Ef; [|done].
    injection Hcs as <-. apply (Hf _ _ _ _ _ _ Ef) in He as [-> ->]. simpl.
    by rewrite andb_true_r. }
  destruct n as [ | | | |o l rn s e| ]; try (by apply Hleaf).
  cbn [flattenBinary] in Hcs, Hleaf. destruct (str_eqb o (js "&&")) eqn:Eo; [|by apply Hleaf].
  apply str_eqb_eq in Eo. subst o. clear Hleaf.
  apply all_some_app in Hcs as (c1 & c2 & Hc1 & Hc2 & ->).
  cbn [children] in IH. inversion IH as [|? ? IHl IH']; subst.
  inversion IH' as [|? ? IHr _]; subst.
  cbn [evaluate] in He. apply eval_wrap in He. unfold binary in He. str_compute.
  apply bind_ok in He as (b & st1 & Hb & He). apply boolean_ok in Hb as (rl & Hl & Hb).
  apply (IHl _ _ _ _ _ Hc1) in Hl as [-> Hl]. rewrite Hl in Hb. injection Hb as <-.
  rewrite forallb_app. destruct (forallb holds c1).
  - apply bind_ok in He as (b & st2 & Hb & He). apply boolean_ok in Hb as (rr & Hr & Hb).
    apply (IHr _ _ _ _ _ Hc2) in Hr as [-> Hr]. rewrite Hr in Hb. injection Hb as <-.
    by injection He as <- <-.
  - by injection He as <- <-.
Qed.

Lemma tokenConditions_eval n cs d st r st' :
  tokenConditions n = Some cs -> eval n d st = Ok (r, st') ->
  st' = st /\ rv_value r = JBool (forallb condition_holds cs).
Proof. apply conjunction_eval. intros. by eapply token_condition_eval. Qed.

(** ** Evaluations that set no tier and no fixed price *)

Lemma marker_free_agree (Rel : rt_state -> rt_state -> Prop) n :
  marker_free n -> agree context context now now headers headers Rel n.
Proof.
  intros Hn. eapply Forall_impl; [|exact Hn]. intros m Hm.
  destruct m as [ | |f args s e| | | ]; simpl in *; try done.
  split_and!; try done; intros ->; done.
Qed.

(** An evaluation without markers leaves the pricing fields alone. *)
Lemma marker_free_pricing n d st r st' :
  marker_free n -> coherent now st -> eval n d st = Ok (r, st') ->
  pricing st' = pricing st /\ coherent now st'.
Proof.
  intros Hn Hc He.
  pose proof (evaluate_sim compiled context context now now headers headers
    (fun s _ => pricing s = pricing st) (fun _ _ _ Hi => Hi) (fun _ _ _ _ Hi => Hi) n d d
    (marker_free_agree _ n Hn) (or_introl eq_refl) st st
    (conj Hc (conj Hc eq_refl))) as Hs.
  rewrite He in Hs. destruct Hs as (_ & Hc' & _ & Hp). done.
Qed.

Lemma flatten_marker_free n o :
  Forall marker_free (flattenBinary n o) -> marker_free n.
Proof.
  induction n as [n IH] using node_children_ind. intros Hf.
  destruct n as [ | | | |op l r s e| ]; cbn [flattenBinary] in Hf;
    try (by inversion Hf).
  destruct (str_eqb op o); [|by inversion Hf].
  apply Forall_app in Hf as [Hl Hr]. cbn [children] in IH.
  inversion IH as [|? ? IHl IH']; subst. inversion IH' as [|? ? IHr _]; subst.
  apply Forall_postorder. split; [done|]. cbn [children].
  repeat constructor; [by apply IHl|by apply IHr].
Qed.

Lemma price_literal_marker_free n x :
  nonnegativePriceLiteral n = Some x -> marker_free n.
Proof.
  destruct n as [v| | |o a s e| | ]; try done; [intros _; by repeat constructor|].
  destruct a as [v| | | | | ]; try done. intros _. by repeat constructor.
Qed.

Lemma price_variable_marker_free n x : price_variable n = Some x -> marker_free n.
Proof.
  destruct n as [ |y s e|f args s e| | | ]; try done; [intros _; by repeat constructor|].
  destruct args as [|a [|b [|? ?]]]; try done. unfold price_variable.
  destruct (str_eqb f (js "max")) eqn:Ef; [|done]. apply str_eqb_eq in Ef. subst f.
  assert (forall m, is_zero_literal m = true -> marker_free m) as Hz.
  { intros [v| | | | | ]; try done. intros _. by repeat constructor. }
  assert (forall m, is_text_remainder m = true -> marker_free m) as Ht.
  { intros [ | | | |o l r s' e'| ]; try done.
    destruct l as [ |? ? ?| | | | ]; try done. destruct r as [ |? ? ?| | | | ]; try done.
    intros _. by repeat constructor. }
  cbn [negb]. intros Hp. apply Forall_postorder. split; [done|]. cbn [children].
  destruct (is_zero_literal a) eqn:Ea.
  - destruct (is_text_remainder b) eqn:Eb; [|done].
    repeat constructor; [by apply Hz|by apply Ht].
  - destruct (is_zero_literal b) eqn:Eb; [|done].
    destruct (is_text_remainder a) eqn:Et; [|done].
    repeat constructor; [by apply Ht|by apply Hz].
Qed.

Lemma priced_input_marker_free n input price x :
  priced_input n = Some (input, price) -> price_variable input = Some x -> marker_free n.
Proof.
  intros Hi Hx. apply price_variable_marker_free in Hx.
  destruct n as [ | | | |o l r s e| ]; try done. cbn [priced_input] in Hi.
  destruct (negb (str_eqb o (js "*"))); [done|].
  apply Forall_postorder. split; [done|]. cbn [children].
  destruct (nonnegativePriceLiteral r) as [y|] eqn:Er.
  - injection Hi as -> ->. repeat constructor; [done|].
    by eapply price_literal_marker_free.
  - destruct (nonnegativePriceLiteral l) as [y|] eqn:El; [|done].
    injection Hi as -> ->. repeat constructor; [|done].
    by eapply price_literal_marker_free.
Qed.

Lemma token_prices_marker_free terms : forall prices prices',
  token_prices terms prices = Some prices' -> Forall marker_free terms.
Proof.
  induction terms as [|t terms IH]; intros prices prices' Hp; [constructor|].
  cbn [token_prices] in Hp. destruct (priced_input t) as [[input price]|] eqn:Ei; [|done].
  destruct (price_variable input) as [x|] eqn:Ex; [|done].
  destruct (assoc_str prices x); [done|].
  constructor; [by eapply priced_input_marker_free|by eapply IH].
Qed.

Lemma numeric_ok c d st x st' :
  numeric_of (node_start c, eval c d) st = Ok (x, st') ->
  exists r, eval c d st = Ok (r, st') /\ rv_value r = JNum (fst x).
Proof.
  intros Hb. apply bind_ok in Hb as (r & st1 & Hr & Hb). apply lift_ok in Hb as [Hb ->].
  exists r. split; [done|]. unfold as_numeric in Hb.
  destruct (rv_value r); try done. by injection Hb as <-.
Qed.

Lemma string_ok c d st x st' :
  string_of (node_start c, eval c d) st = Ok (x, st') ->
  exists r, eval c d st = Ok (r, st') /\ rv_value r = JStr x.
Proof.
  intros Hb. apply bind_ok in Hb as (r & st1 & Hr & Hb). apply lift_ok in Hb as [Hb ->].
  exists r. split; [done|]. unfold as_string in Hb.
  destruct (rv_value r); try done. by injection Hb as ->.
Qed.

(** A call of [tier] evaluates its label, then its price, and sets the tier. *)
Lemma tier_call_ok label body rest s e d st r st' :
  eval (Call (js "tier") (label :: body :: rest) s e) d st = Ok (r, st') ->
  exists l st1 v st2, eval label (S d) st = Ok (l, st1) /\
    eval body (S d) st1 = Ok (v, st2) /\
    rv_value l = JStr (rt_matchedTier st') /\ st' = set_tier (rt_matchedTier st') st2 /\
    rv_value v = rv_value r.
Proof.
  cbn [evaluate]. intros Hc%eval_wrap. unfold call in Hc. str_compute.
  cbn [map] in Hc. unfold arg in Hc. simpl in Hc.
  apply bind_ok in Hc as (name & st1 & Hl & Hc). apply string_ok in Hl as (l & Hl & El).
  apply bind_ok in Hc as ([x i] & st2 & Hv & Hc). apply numeric_ok in Hv as (v & Hv & Ev).
  apply bind_ok in Hc as ([] & st3 & Hm & Hc). injection Hm as <-. injection Hc as <- <-.
  exists l, st1, v, st2. split_and!; try done.
Qed.

Lemma fixed_call_ok amount i s e rest s' e' d st r st' :
  eval (Call (js "fixed") (Literal (LNum amount) i s e :: rest) s' e') d st = Ok (r, st') ->
  st' = set_fixed amount st /\ rv_value r = JNum (num_mul amount million).
Proof.
  cbn [evaluate]. intros Hc%eval_wrap. unfold call in Hc. str_compute.
  cbn [map] in Hc. unfold arg in Hc.
  change (default (0, undefined_node) (((node_start (Literal (LNum amount) i s e),
    eval (Literal (LNum amount) i s e) (S d)) :: map (fun a => (node_start a, eval a (S d))) rest) !! 0))
    with (node_start (Literal (LNum amount) i s e), eval (Literal (LNum amount) i s e) (S d)) in Hc.
  apply bind_ok in Hc as ([x j] & st2 & Hv & Hc). apply numeric_ok in Hv as (v & Hv & Ev).
  apply literal_ok_eval in Hv as [-> ->]. injection Ev as Ex. cbn [fst] in Ex. subst x.
  apply bind_ok in Hc as ([] & st3 & Hm & Hc). injection Hm as <-. by injection Hc as <- <-.
Qed.

(** What a tier of a summary says about the state after its evaluation. *)
Definition tier_state (t : TokenTier) (st st' : rt_state) : Prop :=
  rt_matchedTier st' = tt_label t /\
  match tt_fixedPrice t with
  | Some amount => rt_fixedPrice st' = Some amount /\ rt_billingUnit st' = unit_request
                   /\ tt_billingUnit t = Some unit_request
  | None => rt_fixedPrice st' = rt_fixedPrice st /\ rt_billingUnit st' = rt_billingUnit st
            /\ tt_billingUnit t = None
  end.

Lemma tokenTier_eval n cs t d st r st' :
  tokenTier n cs = Some t -> coherent now st -> eval n d st = Ok (r, st') ->
  tier_state t st st' /\ tt_conditions t = cs /\ tt_conditionText t = None /\ coherent now st'.
Proof.
  intros Ht Hco He. destruct n as [ | |f args s e| | | ]; try done.
  destruct args as [|a [|body rest]]; try done; destruct a as [v il sl el| | | | | ]; try done;
    destruct v as [label| | | ]; try done. unfold tokenTier in Ht.
  destruct (str_eqb f (js "tier")) eqn:Ef; [|done]. apply str_eqb_eq in Ef. subst f.
  cbn [negb] in Ht.
  apply tier_call_ok in He as (l & st1 & w & st2 & Hl & Hb & El & Est & _).
  apply literal_ok_eval in Hl as [-> ->]. cbn [rv_value literal_jsval] in El.
  injection El as El.
  set (linear := match token_prices (flattenBinary body (js "+")) [] with
                 | None | Some [] => None
                 | Some prices => Some (MkTokenTier None None None None label cs prices)
                 end) in Ht.
  assert (linear = Some t -> tier_state t st st' /\ tt_conditions t = cs /\
            tt_conditionText t = None /\ coherent now st') as Hlin.
  { unfold linear. destruct (token_prices _ _) as [[|p ps]|] eqn:Ep; try done.
    intros [= <-]. apply token_prices_marker_free in Ep.
    apply flatten_marker_free in Ep. apply (marker_free_pricing _ _ _ _ _ Ep Hco) in Hb as [Hp Hc].
    injection Hp as _ Hu Hf. rewrite Est. unfold tier_state. simpl. split_and!; try done. }
  destruct body as [ | |g bargs bs be| | | ]; try (by apply Hlin).
  destruct bargs as [|b brest]; [by apply Hlin|].
  destruct b as [bv bi bs' be'| | | | | ]; try (by apply Hlin).
  destruct bv as [ |amount| | ]; try (by apply Hlin).
  destruct (str_eqb g (js "fixed")) eqn:Eg; [|by apply Hlin].
  apply str_eqb_eq in Eg. subst g. injection Ht as <-.
  apply fixed_call_ok in Hb as [-> _]. rewrite Est. unfold tier_state. simpl.
  split_and!; try done.
Qed.

(** A conditional evaluates its condition, may mark a request rule, and
    evaluates the chosen branch. *)
Lemma conditional_ok c y no s e d st r st' :
  eval (Conditional c y no s e) d st = Ok (r, st') ->
  exists rc b st1 st2, eval c (S d) st = Ok (rc, st1) /\ rv_value rc = JBool b /\
    pricing st2 = pricing st1 /\ rt_timeValues st2 = rt_timeValues st1 /\
    eval (if b then y else no) (S d) st2 = Ok (r, st').
Proof.
  cbn [evaluate]. intros Hc%eval_wrap.
  apply bind_ok in Hc as (b & st1 & Hb & Hc). apply boolean_ok in Hb as (rc & Hrc & Eb).
  apply bind_ok in Hc as ([] & st2 & Hm & Hc). exists rc, b, st1, st2.
  split_and!; [done..| | |by destruct b].
  - destruct (find_index _ _ _); injection Hm as <-; [by destruct b|done].
  - destruct (find_index _ _ _); injection Hm as <-; [by destruct b|done].
Qed.

Definition selected (tiers : list TokenTier) (st st' : rt_state) : Prop :=
  exists t, List.find (tier_matches) tiers = Some t /\ tier_state t st st' /\
    coherent now st'.

Lemma coherent_times st st' :
  rt_timeValues st' = rt_timeValues st -> coherent now st -> coherent now st'.
Proof. intros E Hc zone v. rewrite E. apply Hc. Qed.

Lemma tier_state_pricing t st1 st2 st' :
  pricing st1 = pricing st2 -> tier_state t st1 st' -> tier_state t st2 st'.
Proof. intros [= _ Hu Hf]. unfold tier_state. by rewrite Hu, Hf. Qed.

Lemma linear_chain_leaf n tiers d st r st' :
  (match tokenTier n [] with Some fallback => Some [fallback] | None => None end) = Some tiers ->
  coherent now st -> eval n d st = Ok (r, st') -> selected tiers st st'.
Proof.
  destruct (tokenTier n []) as [t|] eqn:Et; [|done]. intros [= <-] Hco He.
  apply (tokenTier_eval _ _ _ _ _ _ _ Et Hco) in He as (Hs & Hc & _ & Hco').
  exists t. split; [|done]. cbn [List.find]. unfold tier_matches. by rewrite Hc.
Qed.

Lemma linear_chain_eval n : forall tiers d st r st',
  linear_chain n = Some tiers -> coherent now st -> eval n d st = Ok (r, st') ->
  selected tiers st st'.
Proof.
  induction n as [n IH] using node_children_ind. intros tiers d st r st' Ht Hco He.
  destruct n as [ | | | | |c y no s e]; try (by eapply linear_chain_leaf).
  cbn [children] in IH. inversion IH as [|? ? _ IH1]; subst.
  inversion IH1 as [|? ? _ IH2]; subst. inversion IH2 as [|? ? IHno _]; subst.
  cbn [linear_chain] in Ht. destruct (tokenConditions c) as [cs|] eqn:Ec; [|done].
  destruct (tokenTier y cs) as [t|] eqn:Et; [|done].
  destruct (linear_chain no) as [ts|] eqn:El; [|done]. injection Ht as <-.
  apply conditional_ok in He as (rc & b & st1 & st2 & Hc & Eb & Hp & Htv & Hb).
  apply (tokenConditions_eval _ _ _ _ _ _ Ec) in Hc as [-> Hc].
  rewrite Hc in Eb. injection Eb as Eb.
  pose proof (coherent_times _ _ Htv Hco) as Hco2.
  destruct b.
  - apply (tokenTier_eval _ _ _ _ _ _ _ Et Hco2) in Hb as (Hs & Hcs & _ & Hco').
    exists t. split; [|split; [by eapply tier_state_pricing|done]].
    cbn [List.find]. unfold tier_matches. by rewrite Hcs, Eb.
  - apply (IHno _ _ _ _ _ eq_refl Hco2) in Hb as (t' & Hf & Hs & Hco').
    exists t'. split; [|split; [by eapply tier_state_pricing|done]].
    cbn [List.find]. unfold tier_matches at 1.
    assert (tt_conditions t = cs) as ->.
    { clear -Et. destruct y as [ | |f args s e| | | ]; try done. unfold tokenTier in Et.
      repeat case_match; try done; by injection Et as <-. }
    by rewrite Eb.
Qed.

Lemma find_image_count tiers :
  List.find (tier_matches) (map with_image_count tiers)
  = option_map with_image_count (List.find (tier_matches) tiers).
Proof.
  induction tiers as [|t tiers IH]; [done|]. cbn [map List.find].
  replace (tier_matches (with_image_count t)) with (tier_matches t) by done.
  by destruct (tier_matches t).
Qed.

Lemma image_count_eval n d st r st' :
  is_image_count n = true -> eval n d st = Ok (r, st') -> st' = st.
Proof.
  destruct n as [ |x s e| | | | ]; try done. intros _. cbn [evaluate].
  intros Hv%eval_wrap. by apply lift_ok in Hv as [_ ->].
Qed.

Lemma product_eval l rn s e d st r st' :
  eval (Binary (js "*") l rn s e) d st = Ok (r, st') ->
  exists vl st1 vr, eval l (S d) st = Ok (vl, st1) /\ eval rn (S d) st1 = Ok (vr, st').
Proof.
  intros Hb. apply binary_ok_eval in Hb as (vl & st1 & vr & Hl & Hr & _); [|done].
  by exists vl, st1, vr.
Qed.

(** The tier a chain selects is the first one whose conditions hold. *)
Lemma chain_eval n : forall tiers d st r st',
  readTokenTierChain n = Some tiers -> Forall (fun t => tt_conditionText t = None) tiers ->
  coherent now st -> eval n d st = Ok (r, st') -> selected tiers st st'.
Proof.
  induction n as [n IH] using node_children_ind. intros tiers d st r st' Ht Htext Hco He.
  assert (audio_chain n = Some tiers -> False) as Haudio.
  { intros Ha. unfold audio_chain in Ha. repeat case_match; try done.
    injection Ha as <-. inversion Htext. done. }
  assert (linear_chain n = Some tiers -> selected tiers st st') as Hlin.
  { intros Hl. by eapply linear_chain_eval. }
  assert (forall inner, option_map (map with_image_count) (readTokenTierChain inner) = Some tiers ->
    exists ts, readTokenTierChain inner = Some ts /\ tiers = map with_image_count ts /\
      Forall (fun t => tt_conditionText t = None) ts) as Hmap.
  { intros inner Hi. destruct (readTokenTierChain inner) as [ts|]; [|done].
    injection Hi as <-. exists ts. split_and!; [done..|]. by apply Forall_map in Htext. }
  assert (forall ts st0, selected ts st0 st' ->
    selected (map with_image_count ts) st0 st') as Hsel.
  { intros ts st0 (t & Hf & Hs & Hc). exists (with_image_count t).
    rewrite find_image_count, Hf. done. }
  destruct n as [ | | | |o l rn s e| ]; cbn [readTokenTierChain] in Ht;
    destruct (audio_chain _) as [ts'|] eqn:Ea in Ht;
    try (injection Ht as ->; by destruct (Haudio Ea)); try (by apply Hlin).
  destruct (str_eqb o (js "*")) eqn:Eo; [|by apply Hlin]. apply str_eqb_eq in Eo. subst o.
  cbn [children] in IH. inversion IH as [|? ? IHl IH']; subst.
  inversion IH' as [|? ? IHr _]; subst.
  destruct (is_image_count l) eqn:El; [|destruct (is_image_count rn) eqn:Er; [|by apply Hlin]].
  - apply product_eval in He as (vl & st1 & vr & Hl & Hr).
    apply image_count_eval in Hl; [|done]. subst st1.
    destruct (Hmap _ Ht) as (ts & Hts & -> & Hn). apply Hsel. by eapply IHr.
  - apply product_eval in He as (vl & st1 & vr & Hl & Hr).
    apply image_count_eval in Hr; [|done]. subst st1.
    destruct (Hmap _ Ht) as (ts & Hts & -> & Hn). apply Hsel. by eapply IHl.
Qed.
End Eval.

(** ** Time-dependent tiers *)

Definition no_audio (n : node) : Prop := Forall (fun m => audio_chain m = None) (postorder n).

Lemma tokenTier_text n cs t : tokenTier n cs = Some t -> tt_conditionText t = None.
Proof.
  intros Ht. unfold tokenTier in Ht. repeat case_match; try done; by injection Ht as <-.
Qed.

Lemma linear_chain_text n : forall tiers,
  linear_chain n = Some tiers -> Forall (fun t => tt_conditionText t = None) tiers.
Proof.
  induction n as [n IH] using node_children_ind. intros tiers Ht.
  assert ((match tokenTier n [] with Some f => Some [f] | None => None end) = Some tiers ->
          Forall (fun t => tt_conditionText t = None) tiers) as Hleaf.
  { destruct (tokenTier n []) as [t|] eqn:Et; [|done]. intros [= <-].
    repeat constructor. by eapply tokenTier_text. }
  destruct n as [ | | | | |c y no s e]; try (by apply Hleaf).
  cbn [children] in IH. inversion IH as [|? ? _ IH1]; subst.
  inversion IH1 as [|? ? _ IH2]; subst. inversion IH2 as [|? ? IHno _]; subst.
  cbn [linear_chain] in Ht. destruct (tokenConditions c) as [cs|]; [|done].
  destruct (tokenTier y cs) as [t|] eqn:Et; [|done].
  destruct (linear_chain no) as [ts|]; [|done]. injection Ht as <-.
  constructor; [by eapply tokenTier_text|by apply IHno].
Qed.

Lemma chain_text n : forall tiers,
  no_audio n -> readTokenTierChain n = Some tiers ->
  Forall (fun t => tt_conditionText t = None) tiers.
Proof.
  induction n as [n IH] using node_children_ind. intros tiers Hn Ht.
  apply Forall_postorder in Hn as [Ha Hn].
  assert (linear_chain n = Some tiers -> Forall (fun t => tt_conditionText t = None) tiers)
    as Hlin by (apply linear_chain_text).
  assert (forall c, c ∈ children n ->
    option_map (map with_image_count) (readTokenTierChain c) = Some tiers ->
    Forall (fun t => tt_conditionText t = None) tiers) as Hmap.
  { intros c Hc Hi. destruct (readTokenTierChain c) as [ts|] eqn:E; [|done].
    injection Hi as <-. apply Forall_map. simpl. rewrite Forall_forall in IH, Hn.
    apply list_elem_of_In in Hc. by apply (IH c Hc); [apply Hn|]. }
  destruct n as [ | | | |o l rn s e| ]; cbn [readTokenTierChain] in Ht; rewrite Ha in Ht;
    try (by apply Hlin).
  destruct (str_eqb o (js "*")); [|by apply Hlin]. cbn [children] in Hmap.
  destruct (is_image_count l); [apply (Hmap rn); [right; by left|done]|].
  destruct (is_image_count rn); [apply (Hmap l); [by left|done]|by apply Hlin].
Qed.

Section TimeTiers.
Context `{JSHost}.
Variable compiled : CompiledBillingExpression.
Variable context : BillingSimulationContext.
Variable now : Date.
Variable headers : list (str * str).
Notation eval := (evaluate compiled context now headers).
Notation clock := (MkContext None None None None (Some now)).

Lemma time_condition_spec c :
  isTimeCondition c = Ok true ->
  marker_free c /\ forall Rel, agree context clock now now headers [] Rel c.
Proof.
  unfold isTimeCondition. intros Ht. inv_bind.
  apply andb_true_iff in Ht as [[Hv _]%andb_true_iff Hf]. rewrite forallb_forall in Hf.
  apply dependencies_spec in E as [Dv Df].
  assert (forall x s e, Variable_ x s e ∈ postorder c -> False) as Hnv.
  { intros x s e Hx. destruct l; [|done].
    apply (not_elem_of_nil x). apply Dv. by exists s, e. }
  assert (forall f args s e, Call f args s e ∈ postorder c ->
            f ∈ time_condition_functions) as Hnf.
  { intros f args s e Hx. apply includes_str_elem, Hf, list_elem_of_In, Df.
    by exists args, s, e. }
  split.
  - apply Forall_forall. intros m Hm. apply list_elem_of_In in Hm.
    destruct m as [ | |f args s e| | | ]; try done.
    apply Hnf in Hm. unfold time_condition_functions, TIME_FUNCTIONS in Hm. simpl app in Hm.
    repeat (apply elem_of_cons in Hm as [->|Hm]; [vm_compute; reflexivity|]).
    by apply not_elem_of_nil in Hm.
  - intros Rel. apply Forall_forall. intros m Hm. apply list_elem_of_In in Hm.
    destruct m as [ |x s e|f args s e| | | ]; try done; [by destruct (Hnv x s e)|].
    apply Hnf in Hm. unfold time_condition_functions, TIME_FUNCTIONS in Hm. simpl app in Hm.
    repeat (apply elem_of_cons in Hm as [->|Hm]; [cbn [agree_node]; split_and!; done|]).
    by apply not_elem_of_nil in Hm.
Qed.

(** A time condition evaluates in a tree as it does in a fresh runtime
    that only knows the time. *)
Lemma time_condition_eval c d st rc st1 b :
  isTimeCondition c = Ok true -> d + node_depth c < 256 -> coherent now st ->
  eval c d st = Ok (rc, st1) -> rv_value rc = JBool b ->
  evaluateBillingCondition compiled c now = Some b /\ pricing st1 = pricing st /\
  coherent now st1.
Proof.
  intros Hc Hd Hco He Hb. apply time_condition_spec in Hc as [Hm Ha].
  destruct (marker_free_pricing _ _ _ _ _ _ _ _ _ Hm Hco He) as [Hp Hco1].
  split; [|done]. unfold evaluateBillingCondition, run_node.
  change (request_headers clock) with (@Ok exn (list (str * str)) []). cbn [obind].
  change (context_now clock) with now.
  assert (0 + node_depth c < 256) as Hd0 by lia.
  pose proof (evaluate_sim compiled context clock now now headers [] (fun _ _ => True)
    (fun _ _ _ _ => Logic.I) (fun _ _ _ _ _ => Logic.I) c d 0 (Ha _)
    (or_intror (conj Hd Hd0)) st (initial_state compiled)
    (conj Hco (conj (initial_coherent _ _) Logic.I))) as Hs.
  rewrite He in Hs. unfold sim_outcome in Hs.
  destruct (evaluate compiled clock now [] c 0 (initial_state compiled))
    as [[v s]|e|]; try done.
  destruct Hs as [<- _]. destruct rc as [rv ri]. cbn [rv_value] in Hb. by subst rv.
Qed.

Definition time_holds (c : TimeCondition) : bool :=
  bool_decide (evaluateBillingCondition compiled (tm_condition c) now = Some (tm_matches c)).

Definition current_match (t : TimeTokenTier) : bool :=
  current_tier compiled now t && tier_matches context (ti_tier t).

Lemma time_leaf_paths source n path tiers :
  time_leaf source n path = Some tiers ->
  Forall (fun t => exists ext, ti_timeConditions t = path ++ ext) tiers.
Proof.
  unfold time_leaf. intros Ht. repeat case_match; try done. injection Ht as <-.
  apply Forall_map, Forall_true. intros ti. exists []. by rewrite app_nil_r.
Qed.

Lemma branches_paths n : forall path tiers,
  timeTierBranches compiled n path = Ok (Some tiers) ->
  Forall (fun t => exists ext, ti_timeConditions t = path ++ ext) tiers.
Proof.
  induction n as [n IH] using node_children_ind. intros path tiers Ht.
  destruct n as [ | | | | |c y no s e]; cbn [timeTierBranches] in Ht;
    try (injection Ht as Ht; by eapply time_leaf_paths).
  cbn [children] in IH. inversion IH as [|? ? _ IH1]; subst.
  inversion IH1 as [|? ? IHy IH2]; subst. inversion IH2 as [|? ? IHno _]; subst.
  destruct (isTimeCondition c) as [[|]| |]; cbn [obind] in Ht; try done;
    [|injection Ht as Ht; by eapply time_leaf_paths].
  destruct (timeTierBranches compiled y _) as [ys| |] eqn:Ey; cbn [obind] in Ht; try done.
  destruct (timeTierBranches compiled no _) as [ns| |] eqn:En; cbn [obind] in Ht; try done.
  destruct ys as [ys|], ns as [ns|]; try done. injection Ht as <-.
  apply IHy in Ey. apply IHno in En. apply Forall_app. split.
  - eapply Forall_impl; [|exact Ey]. intros t [ext ->]. eexists. by rewrite <- app_assoc.
  - eapply Forall_impl; [|exact En]. intros t [ext ->]. eexists. by rewrite <- app_assoc.
Qed.

Lemma find_app {A} (p : A -> bool) l1 l2 :
  List.find p (l1 ++ l2)
  = match List.find p l1 with Some x => Some x | None => List.find p l2 end.
Proof. induction l1 as [|x l1 IH]; [done|]. simpl. by destruct (p x). Qed.

Lemma find_none {A} (p : A -> bool) l : Forall (fun x => p x = false) l -> List.find p l = None.
Proof. induction 1 as [|x l Hx _ IH]; [done|]. simpl. by rewrite Hx. Qed.

Lemma current_excluded path c tiers :
  time_holds c = false ->
  Forall (fun t => exists ext, ti_timeConditions t = (path ++ [c]) ++ ext) tiers ->
  List.find current_match tiers = None.
Proof.
  intros Hc Ht. apply find_none. eapply Forall_impl; [|exact Ht].
  intros t [ext E]. unfold current_match, current_tier. rewrite E, !forallb_app.
  simpl. change (bool_decide (evaluateBillingCondition compiled (tm_condition c) now
    = Some (tm_matches c))) with (time_holds c). rewrite Hc.
  by rewrite andb_false_r.
Qed.

Lemma find_time_tier source path tiers :
  forallb time_holds path = true ->
  List.find current_match (map (time_tier source path) tiers)
  = option_map (time_tier source path) (List.find (tier_matches context) tiers).
Proof.
  intros Hp. induction tiers as [|t tiers IH]; [done|]. cbn [map List.find].
  replace (current_match (time_tier source path t)) with (tier_matches context t).
  - by destruct (tier_matches context t).
  - unfold current_match, current_tier. cbn [time_tier ti_timeConditions ti_tier].
    unfold time_holds in Hp. by rewrite Hp.
Qed.

Lemma time_leaf_eval source n path tiers d st r st' :
  time_leaf source n path = Some tiers -> no_audio n -> coherent now st ->
  forallb time_holds path = true -> eval n d st = Ok (r, st') ->
  exists t, List.find current_match tiers = Some t /\ tier_state (ti_tier t) st st'.
Proof.
  unfold time_leaf. intros Ht Hn Hco Hp He.
  destruct (readTokenTierChain n) as [ts|] eqn:Ec; [|done].
  destruct path as [|p path]; [done|]. injection Ht as <-.
  destruct (chain_eval _ _ _ _ _ _ _ _ _ _ Ec (chain_text _ _ Hn Ec) Hco He)
    as (t & Hf & Hs & _).
  exists (time_tier source (p :: path) t). rewrite find_time_tier by done.
  by rewrite Hf.
Qed.

Lemma time_branches_eval n : forall path tiers d st r st',
  timeTierBranches compiled n path = Ok (Some tiers) -> no_audio n ->
  d + node_depth n < 256 -> coherent now st -> forallb time_holds path = true ->
  eval n d st = Ok (r, st') ->
  exists t, List.find current_match tiers = Some t /\ tier_state (ti_tier t) st st'.
Proof.
  induction n as [n IH] using node_children_ind. intros path tiers d st r st' Ht Hn Hd Hco Hp He.
  destruct n as [ | | | | |c y no s e]; cbn [timeTierBranches] in Ht;
    try (injection Ht as Ht; by eapply time_leaf_eval).
  cbn [children] in IH. inversion IH as [|? ? _ IH1]; subst.
  inversion IH1 as [|? ? IHy IH2]; subst. inversion IH2 as [|? ? IHno _]; subst.
  destruct (isTimeCondition c) as [[|]| |] eqn:Etc; cbn [obind] in Ht; try done;
    [|injection Ht as Ht; by eapply time_leaf_eval].
  destruct (timeTierBranches compiled y _) as [ys| |] eqn:Ey; cbn [obind] in Ht; try done.
  destruct (timeTierBranches compiled no _) as [ns| |] eqn:En; cbn [obind] in Ht; try done.
  destruct ys as [ys|], ns as [ns|]; try done. injection Ht as <-.
  apply Forall_postorder in Hn as [_ Hn]. cbn [children] in Hn.
  inversion Hn as [|? ? _ Hn1]; subst. inversion Hn1 as [|? ? Hny Hn2]; subst.
  inversion Hn2 as [|? ? Hnno _]; subst. cbn [node_depth] in Hd.
  apply conditional_ok in He as (rc & b & st1 & st2 & Hc & Eb & Hpr & Htv & Hb).
  eapply time_condition_eval in Hc as (Hev & Hp1 & Hco1); [|done|lia|done|done].
  pose proof (coherent_times _ _ _ Htv Hco1) as Hco2.
  assert (pricing st2 = pricing st) as Hp2 by congruence.
  assert (forall b', time_holds (MkTimeCondition c b') = Bool.eqb b b') as Hth.
  { intros b'. unfold time_holds. cbn [tm_condition tm_matches]. rewrite Hev.
    by destruct b, b'. }
  assert (S d + node_depth y < 256 /\ S d + node_depth no < 256) as [Hdy Hdn] by lia.
  rewrite find_app. destruct b.
  - assert (forallb time_holds (path ++ [MkTimeCondition c true]) = true) as Hp'.
    { rewrite forallb_app, Hp. simpl. by rewrite Hth. }
    destruct (IHy _ _ _ _ _ _ Ey Hny Hdy Hco2 Hp' Hb) as (t & Hf & Hs).
    rewrite Hf. exists t. split; [done|]. by eapply tier_state_pricing.
  - erewrite current_excluded; [|apply (Hth true)|by apply branches_paths in Ey].
    assert (forallb time_holds (path ++ [MkTimeCondition c false]) = true) as Hp'.
    { rewrite forallb_app, Hp. simpl. by rewrite Hth. }
    destruct (IHno _ _ _ _ _ _ En Hnno Hdn Hco2 Hp' Hb) as (t & Hf & Hs).
    exists t. split; [done|]. by eapply tier_state_pricing.
Qed.
End TimeTiers.

(** ** Task tiers *)

Section TaskTiers.
Context `{JSHost}.
Variable compiled : CompiledBillingExpression.
Variable context : BillingSimulationContext.
Variable now : Date.
Variable headers : list (str * str).
Variable schema : BillingUsageSchema.
Variable includeBoolean : bool.
Notation eval := (evaluate compiled context now headers).

Definition is_boolean_field (field : str) : bool :=
  bool_decide (option_map fs_type (assoc_str schema field) = Some (Some field_boolean)).

Definition usage_value (field : str) : jsval :=
  default JNull (assoc_str (default [] (ctx_usage context)) field).

(** The usage fact is the boolean or the enumeration value the condition
    names. *)
Definition task_holds (c : TaskCondition) : bool :=
  match usage_value (kc_field c) with
  | JBool b => is_boolean_field (kc_field c) && str_eqb (bool_text b) (kc_value c)
  | JStr s => negb (is_boolean_field (kc_field c)) && str_eqb s (kc_value c)
  | _ => false
  end.

Definition task_matches (t : TaskTier) : bool := forallb task_holds (kt_conditions t).

Lemma usage_call_ok field i s e rest s' e' d st r st' :
  eval (Call (js "u") (Literal (LStr field) i s e :: rest) s' e') d st = Ok (r, st') ->
  st' = st /\ rv_value r = usage_value field.
Proof.
  cbn [evaluate]. intros Hc%eval_wrap. unfold call in Hc. str_compute.
  cbn [map] in Hc. unfold arg in Hc.
  change (default (0, undefined_node) (((node_start (Literal (LStr field) i s e),
    eval (Literal (LStr field) i s e) (S d)) :: map (fun a => (node_start a, eval a (S d))) rest) !! 0))
    with (node_start (Literal (LStr field) i s e), eval (Literal (LStr field) i s e) (S d)) in Hc.
  apply bind_ok in Hc as (x & st2 & Hv & Hc). apply string_ok in Hv as (v & Hv & Ev).
  apply literal_ok_eval in Hv as [-> ->]. injection Ev as Ex. subst x.
  unfold usage_value. destruct (ctx_usage context) as [usage|]; [|done].
  by injection Hc as <- <-.
Qed.

Lemma equality_values s vl vr v :
  binary_values (js "==") s vl vr = Ok v ->
  rv_value v = JBool (strict_eq_primitive (rv_value vl) (rv_value vr)).
Proof.
  unfold binary_values. str_compute. destruct (_ && _ && _); [done|]. by intros [= <-].
Qed.

Lemma bool_text_eqb b b' : str_eqb (bool_text b) (bool_text b') = Bool.eqb b b'.
Proof. by destruct b, b'. Qed.

Lemma task_condition_eval n c d st r st' :
  task_condition schema includeBoolean n = Some c -> eval n d st = Ok (r, st') ->
  st' = st /\ rv_value r = JBool (task_holds c).
Proof.
  intros Hc He. destruct n as [ | | | |o l rhs s e| ]; try done.
  destruct l as [ | |f args sl el| | | ]; try done. destruct args as [|a rest]; try done.
  destruct a as [av ai sa ea| | | | | ]; try done. destruct av as [field| | | ]; try done.
  destruct rhs as [v i sv ev| | | | | ]; try done. unfold task_condition in Hc.
  destruct (str_eqb o (js "==") && str_eqb f (js "u")) eqn:E; [|done].
  apply andb_true_iff in E as [Eo Ef]. apply str_eqb_eq in Eo, Ef. subst o f. cbn [negb] in Hc.
  apply binary_ok_eval in He as (vl & st1 & vr & Hl & Hr & Hv); [|done].
  apply usage_call_ok in Hl as [-> Hl]. apply literal_ok_eval in Hr as [-> ->].
  split; [done|]. apply equality_values in Hv. rewrite Hv, Hl. f_equal.
  unfold task_holds. cbn [rv_value].
  change (bool_decide (option_map fs_type (assoc_str schema field) = Some (Some field_boolean)))
    with (is_boolean_field field) in Hc.
  destruct (is_boolean_field field) eqn:Eb.
  - destruct v as [ | |b| ]; try done. destruct includeBoolean; [|done]. injection Hc as <-.
    cbn [kc_field kc_value literal_text literal_jsval]. rewrite Eb.
    destruct (usage_value field); try done. cbn [strict_eq_primitive andb].
    by rewrite bool_text_eqb.
  - destruct v as [x| | | ]; try done. destruct (assoc_str schema field); [|done].
    destruct (includes_str _ x); [|done]. injection Hc as <-.
    cbn [kc_field kc_value literal_text literal_jsval]. rewrite Eb.
    by destruct (usage_value field).
Qed.


Lemma taskTier_eval n cs t d st r st' :
  taskTier n cs schema = Some t -> eval n d st = Ok (r, st') ->
  rt_matchedTier st' = kt_label t /\ kt_conditions t = cs.
Proof.
  intros Ht He. destruct n as [ | |f args s e| | | ]; try done.
  destruct args as [|a [|body rest]]; try done; destruct a as [v il sl el| | | | | ]; try done;
    destruct v as [label| | | ]; try done. unfold taskTier in Ht.
  destruct (str_eqb f (js "tier")) eqn:Ef; [|done]. apply str_eqb_eq in Ef. subst f.
  apply tier_call_ok in He as (l & st1 & w & st2 & Hl & Hb & El & Est & _).
  apply literal_ok_eval in Hl as [-> ->]. cbn [rv_value literal_jsval] in El.
  injection El as El. cbn [negb] in Ht.
  destruct (task_prices _ _ _ _) as [[constant [|p ps]]|]; try done.
  injection Ht as <-. done.
Qed.

Lemma taskTier_conditions n cs t : taskTier n cs schema = Some t -> kt_conditions t = cs.
Proof.
  intros Ht. unfold taskTier in Ht. repeat case_match; try done; by injection Ht as <-.
Qed.

Lemma task_chain_leaf n tiers d st r st' :
  (match taskTier n [] schema with Some f => Some [f] | None => None end) = Some tiers ->
  eval n d st = Ok (r, st') ->
  exists t, List.find task_matches tiers = Some t /\ rt_matchedTier st' = kt_label t.
Proof.
  destruct (taskTier n [] schema) as [t|] eqn:Et; [|done]. intros [= <-] He.
  destruct (taskTier_eval _ _ _ _ _ _ _ Et He) as [Hl Hc].
  exists t. split; [|done]. cbn [List.find]. unfold task_matches. by rewrite Hc.
Qed.

Lemma task_chain_eval n : forall tiers d st r st',
  readTaskTierChain n schema includeBoolean = Some tiers ->
  eval n d st = Ok (r, st') ->
  exists t, List.find task_matches tiers = Some t /\ rt_matchedTier st' = kt_label t.
Proof.
  induction n as [n IH] using node_children_ind. intros tiers d st r st' Ht He.
  destruct n as [ | | | | |c y no s e]; try (by eapply task_chain_leaf).
  cbn [children] in IH. inversion IH as [|? ? _ IH1]; subst.
  inversion IH1 as [|? ? _ IH2]; subst. inversion IH2 as [|? ? IHno _]; subst.
  cbn [readTaskTierChain] in Ht.
  destruct (taskConditions c schema includeBoolean) as [cs|] eqn:Ec; [|done].
  destruct (taskTier y cs schema) as [t|] eqn:Et; [|done].
  destruct (readTaskTierChain no schema includeBoolean) as [ts|] eqn:El; [|done].
  injection Ht as <-.
  apply conditional_ok in He as (rc & b & st1 & st2 & Hc & Eb & Hp & Htv & Hb).
  eapply (conjunction_eval compiled context now headers _ task_holds) in Hc as [-> Hc];
    [|by intros; eapply task_condition_eval|exact Ec].
  rewrite Hc in Eb. injection Eb as Eb.
  cbn [List.find]. unfold task_matches at 1. rewrite (taskTier_conditions _ _ _ Et), Eb.
  destruct b.
  - exists t. split; [done|]. by eapply taskTier_eval.
  - by eapply IHno.
Qed.
End TaskTiers.

(** ** Guarantees *)

(** C4: a token tier summary agrees with the evaluator: if an expression reads
    as a chain of tiers (other than the audio form), the tier a successful
    evaluation reports is the first tier of the chain whose token conditions
    hold, and the evaluation is billed per request at that tier's fixed price
    exactly when the summary lists one. *)
Theorem token_chain_selects `{JSHost} compiled context n tiers r st :
  readTokenTierChain n = Some tiers -> Forall (fun t => tt_conditionText t = None) tiers ->
  run_node compiled context n = Ok (r, st) ->
  exists t, List.find (tier_matches context) tiers = Some t /\
    rt_matchedTier st = tt_label t /\ rt_fixedPrice st = tt_fixedPrice t /\
    rt_billingUnit st = default unit_token (tt_billingUnit t).
Proof.
  unfold run_node. intros Ht Hn Hr.
  destruct (request_headers context) as [h| |]; simpl in Hr; try done.
  destruct (chain_eval _ _ _ _ _ _ _ _ _ _ Ht Hn (initial_coherent _ compiled) Hr)
    as (t & Hf & [Hl Hp] & _).
  exists t. split; [done|]. split; [done|]. destruct (tt_fixedPrice t) as [a|].
  - destruct Hp as (-> & -> & ->). done.
  - destruct Hp as (-> & -> & ->). done.
Qed.

#[local] Existing Instance utc_host.

Definition chain_source : str :=
  js "image_count * (len <= 100 && p < 50 ? tier('small', fixed(0.5)) : tier('big', 2 * p + c * 3))".
Definition chain_compiled : CompiledBillingExpression :=
  match compile_uncached chain_source with
  | Ready c => c
  | Failed _ => Compiled [] (Variable_ [] 0 0) [] [] []
  end.
Definition chain_context : BillingSimulationContext :=
  MkContext None
    (Some [(js "p", JNum (lit 40)); (js "c", JNum (lit 7)); (js "len", JNum (lit 100))])
    None None None.
Definition chain_tiers : list TokenTier :=
  default [] (readTokenTierChain (compiled_ast chain_compiled)).

Lemma token_chain_selects_witness :
  exists r st, run_node chain_compiled chain_context (compiled_ast chain_compiled) = Ok (r, st) /\
  exists t, List.find (tier_matches chain_context) chain_tiers = Some t /\
    rt_matchedTier st = tt_label t /\ rt_fixedPrice st = tt_fixedPrice t /\
    rt_billingUnit st = default unit_token (tt_billingUnit t).
Proof.
  do 2 eexists. split; [vm_compute; reflexivity|].
  eapply (token_chain_selects chain_compiled chain_context (compiled_ast chain_compiled)).
  - vm_compute. reflexivity.
  - vm_decide.
  - vm_compute. reflexivity.
Defined.

(** C5: a time-dependent summary agrees with the evaluator, for expressions
    without a split by audio tokens whose nesting is below 256, the limit of
    the evaluator: with the clock of the context, the tier a successful
    evaluation reports is the first of the summary's tiers that is current at
    that time and whose token conditions hold. *)
Theorem time_pricing_selects `{JSHost} c context tiers r st :
  timeTierBranches c (compiled_ast c) [] = Ok (Some tiers) ->
  no_audio (compiled_ast c) -> node_depth (compiled_ast c) < 256 ->
  run_node c context (compiled_ast c) = Ok (r, st) ->
  exists t, List.find (fun t => current_tier c (context_now context) t
                                && tier_matches context (ti_tier t)) tiers = Some t /\
    rt_matchedTier st = tt_label (ti_tier t) /\
    rt_fixedPrice st = tt_fixedPrice (ti_tier t).
Proof.
  unfold run_node. intros Ht Hn Hd Hr.
  destruct (request_headers context) as [h| |]; simpl in Hr; try done.
  assert (0 + node_depth (compiled_ast c) < 256) as Hd0 by lia.
  destruct (time_branches_eval c context (context_now context) h _ _ _ _ _ _ _ Ht Hn Hd0
              (initial_coherent _ c) eq_refl Hr) as (t & Hf & [Hl Hp]).
  exists t. split; [done|]. split; [done|]. destruct (tt_fixedPrice (ti_tier t)) as [a|].
  - by destruct Hp as (-> & _).
  - by destruct Hp as (-> & _).
Qed.

Definition time_source : str :=
  js "hour('UTC') >= 8 ? (len < 10 ? tier('d1', p * 2) : tier('d2', p * 3)) : tier('n', p * 1)".
Definition time_compiled : CompiledBillingExpression :=
  match compile_uncached time_source with
  | Ready c => c
  | Failed _ => Compiled [] (Variable_ [] 0 0) [] [] []
  end.
Definition time_context : BillingSimulationContext :=
  MkContext None (Some [(js "p", JNum (lit 40)); (js "len", JNum (lit 100))]) None None
    (Some (Some 36000000%Z)).
Definition time_tiers : list TimeTokenTier :=
  match timeTierBranches time_compiled (compiled_ast time_compiled) [] with
  | Ok (Some tiers) => tiers
  | _ => []
  end.

Lemma time_pricing_selects_witness :
  exists r st, run_node time_compiled time_context (compiled_ast time_compiled) = Ok (r, st) /\
  exists t, List.find (fun t => current_tier time_compiled (context_now time_context) t
                                && tier_matches time_context (ti_tier t)) time_tiers = Some t /\
    rt_matchedTier st = tt_label (ti_tier t) /\ rt_fixedPrice st = tt_fixedPrice (ti_tier t).
Proof.
  do 2 eexists. split; [vm_compute; reflexivity|].
  eapply (time_pricing_selects time_compiled time_context).
  - vm_compute. reflexivity.
  - unfold no_audio. vm_decide.
  - apply Nat.ltb_lt. vm_compute. reflexivity.
  - vm_compute. reflexivity.
Defined.

(** C6: a task tier summary agrees with the evaluator: the tier a successful
    evaluation reports is the first tier of the summary all of whose
    conditions hold for the usage facts, a boolean field being compared as a
    boolean and an enumeration field as a string. *)
Theorem task_chain_selects `{JSHost} compiled context schema includeBoolean n tiers r st :
  readTaskTierChain n schema includeBoolean = Some tiers ->
  run_node compiled context n = Ok (r, st) ->
  exists t, List.find (task_matches context schema) tiers = Some t /\
    rt_matchedTier st = kt_label t.
Proof.
  unfold run_node. intros Ht Hr.
  destruct (request_headers context) as [h| |]; simpl in Hr; try done.
  by eapply task_chain_eval.
Qed.

Definition task_source : str :=
  js "u('mode') == 'pro' && u('audio') == true ? tier('a', u('sec') * 2) : tier('b', 1 + u('sec') * 1)".
Definition task_ast : node :=
  match parse task_source with Ok n => n | _ => Variable_ [] 0 0 end.
Definition task_schema : BillingUsageSchema :=
  [(js "mode", FieldSchema None None (Some [js "std"; js "pro"]));
   (js "audio", FieldSchema (Some field_boolean) None None);
   (js "sec", FieldSchema (Some field_number) (Some (js "second")) None)].
Definition task_context : BillingSimulationContext :=
  MkContext None None None
    (Some [(js "mode", JStr (js "pro")); (js "audio", JBool true); (js "sec", JNum (lit 5))]) None.

Lemma task_chain_selects_witness :
  exists r st tiers, readTaskTierChain task_ast task_schema true = Some tiers /\
  run_node chain_compiled task_context task_ast = Ok (r, st) /\
  exists t, List.find (task_matches task_context task_schema) tiers = Some t /\
    rt_matchedTier st = kt_label t.
Proof.
  do 3 eexists. split; [vm_compute; reflexivity|]. split; [vm_compute; reflexivity|].
  eapply (task_chain_selects chain_compiled task_context task_schema true task_ast);
    vm_compute; reflexivity.
Defined.

(** inside a time branch the two tiers of an audio price split are
    described alike: the time description replaces the two different texts
    that told audio requests from text-only ones. *)
Theorem audio_text_overwritten source n path tiers audio text :
  audio_chain n = Some [audio; text] -> path <> [] ->
  time_leaf source n path = Some tiers ->
  exists a t, tiers = [a; t] /\
    tt_conditionText (ti_tier a) = tt_conditionText (ti_tier t) /\
    tt_conditionText audio <> tt_conditionText text.
Proof.
  intros A P L.
  assert (readTokenTierChain n = Some [audio; text]) as R.
  { destruct n; try done. cbn [readTokenTierChain]. by rewrite A. }
  unfold time_leaf in L. rewrite R in L. destruct path as [|c path]; [done|].
  injection L as <-. do 2 eexists. split; [reflexivity|].
  assert (forall m cs t, tokenTier m cs = Some t -> tt_conditions t = cs) as C.
  { intros m cs t. unfold tokenTier. repeat (case_match; try done); by intros [= <-]. }
  unfold audio_chain in A. repeat (case_match; try done).
  injection A as <- <-. cbn [time_tier ti_tier with_condition_text tt_conditionText tt_conditions].
  repeat match goal with H : tokenTier _ _ = Some _ |- _ => apply C in H; rewrite H end.
  split; [done|]. intros E. injection E as E. revert E. by vm_compute.
Qed.

Definition audio_source : str :=
  js "(ai > 0 || ao > 0) ? tier('a', p * 2) : tier('t', p * 1)".
Definition audio_ast : node :=
  match parse audio_source with Ok n => n | _ => Variable_ [] 0 0 end.
Definition audio_tiers : list TokenTier := default [] (audio_chain audio_ast).
Definition audio_path : list TimeCondition := [MkTimeCondition audio_ast true].

Lemma audio_text_overwritten_witness :
  exists audio text tiers,
    audio_chain audio_ast = Some [audio; text] /\
    time_leaf audio_source audio_ast audio_path = Some tiers /\
    exists a t, tiers = [a; t] /\
      tt_conditionText (ti_tier a) = tt_conditionText (ti_tier t) /\
      tt_conditionText audio <> tt_conditionText text.
Proof.
  do 3 eexists. split; [vm_compute; reflexivity|]. split; [vm_compute; reflexivity|].
  eapply (audio_text_overwritten audio_source audio_ast audio_path);
    [vm_compute; reflexivity|discriminate|vm_compute; reflexivity].
Defined.
