(* ===== verification/ExprVisual.v ===== *)
(** * The visual editor's document model

    Models [features/pricing/lib/billing-expression/visual.ts]: reading an
    AST into a tree of branches and tiers, and writing an edited tree back
    into the source by patching only what changed.  [origin] fields hold AST
    nodes; comparing them by [===] is [node_eqb]. *)

From Stdlib Require Import ZArith Lia Bool SpecFloat.
From stdpp Require Import base list numbers.
From S2P Require Import Prelude JsString JsNumber JsValue JsHost.
From S2P Require Import ExprTypes ExprParser ExprCompile ExprRuntime ExprDisplay.

(** ** Documents *)

Unset Elimination Schemes.
Inductive VisualCondition : Type :=
| VComparison (id : str) (origin : option node) (probe timezone operator value : str)
| VAll (id : str) (origin : option node) (children : list VisualCondition)
| VAny (id : str) (origin : option node) (children : list VisualCondition)
| VNot (id : str) (origin : option node) (child : VisualCondition).
Set Elimination Schemes.

Definition condition_origin (c : VisualCondition) : option node :=
  match c with
  | VComparison _ o _ _ _ _ | VAll _ o _ | VAny _ o _ | VNot _ o _ => o
  end.

Record VisualPrice := MkVisualPrice {
  vp_variable : str;
  vp_value : str;
  vp_origin : option node
}.

Inductive VisualPricingNode : Type :=
| VTier (id : str) (origin : option node) (label : str) (prices : list VisualPrice)
    (unit : BillingUnit) (fixedPrice : str)
| VBranch (id : str) (origin : option node) (condition : VisualCondition)
    (yes no : VisualPricingNode).

Definition pricing_id (n : VisualPricingNode) : str :=
  match n with VTier id _ _ _ _ _ | VBranch id _ _ _ _ => id end.

Record VisualBillingDocument := MkDocument { doc_source : str; doc_root : VisualPricingNode }.
Record VisualBillingIssue := MkIssue { issue_id : str; issue_message : str }.

Inductive VisualBillingSerialization : Type :=
| SerializedOk (source : str)
| SerializedIssues (issues : list VisualBillingIssue).

(** [TIME_DOMAINS]: the values of each time function, inclusive. *)
Definition TIME_DOMAINS : list (str * (Z * Z)) :=
  [(js "hour", (0, 23)%Z); (js "minute", (0, 59)%Z); (js "weekday", (0, 6)%Z);
   (js "month", (1, 12)%Z); (js "day", (1, 31)%Z)].

(** [nextId] is the module's counter. *)
Definition visualNodeId (nextId : nat) : str * nat :=
  (js "draft-" ++ string_of_nat (S nextId), S nextId).

Definition createEmptyVisualCondition (nextId : nat) : VisualCondition * nat :=
  let '(id, nextId') := visualNodeId nextId in
  (VComparison id None (js "hour") (js "Asia/Shanghai") (js ">=") [], nextId').

(** ** Reading *)

Definition span_id (prefix : str) (n : node) : str :=
  prefix ++ string_of_nat (node_start n) ++ js "-" ++ string_of_nat (node_end n).

(** The last part of [readVisualCondition]: a comparison of a probe with a
    number. *)
Definition read_comparison (n : node) : option VisualCondition :=
  let id := span_id (js "condition-") n in
  match n with
  | Binary op lhs (Literal (LNum v) _ _ _) _ _ =>
      if negb (includes_str comparison_operators op) then None
      else
        match lhs with
        | Variable_ x _ _ =>
            if includes_str condition_variables x
            then Some (VComparison id (Some n) x [] op (string_of_num v)) else None
        | Call f (Literal (LStr zone) _ _ _ :: _) _ _ =>
            if includes_str TIME_FUNCTIONS f
            then Some (VComparison id (Some n) f zone op (string_of_num v)) else None
        | _ => None
        end
  | _ => None
  end.

(** The terms of a chain of one operator, each read by [f]: the [map] over
    [flattenBinary] of [readVisualCondition], as one recursion. *)
Definition app_some {A} (x y : option (list A)) : option (list A) :=
  match x, y with Some a, Some b => Some (a ++ b) | _, _ => None end.

(** [read_terms op n] reads the terms of [flattenBinary n op]. *)
Fixpoint readVisualCondition (n : node) : option VisualCondition :=
  let read_terms :=
    (fix read_terms (op : str) (m : node) {struct m} : option (list VisualCondition) :=
       let one := option_map (fun c => [c]) (readVisualCondition m) in
       match m with
       | Binary op' l r _ _ =>
           if str_eqb op' op then app_some (read_terms op l) (read_terms op r) else one
       | _ => one
       end) in
  let id := span_id (js "condition-") n in
  match n with
  | Unary op operand _ _ =>
      if str_eqb op (js "!") then
        option_map (fun child => VNot id (Some n) child) (readVisualCondition operand)
      else None
  | Binary op l r _ _ =>
      if includes_str logical_operators op then
        option_map
          (fun children =>
             if str_eqb op (js "&&") then VAll id (Some n) children
             else VAny id (Some n) children)
          (app_some (read_terms op l) (read_terms op r))
      else read_comparison n
  | _ => None
  end.

(** The local recursion is the [map] of the reader over [flattenBinary]. *)
Lemma readVisualCondition_terms (op : str) (l r : node) (s e : nat) :
  includes_str logical_operators op = true ->
  let n := Binary op l r s e in
  readVisualCondition n
  = option_map
      (fun children =>
         if str_eqb op (js "&&") then VAll (span_id (js "condition-") n) (Some n) children
         else VAny (span_id (js "condition-") n) (Some n) children)
      (all_some readVisualCondition (flattenBinary n op)).
Proof.
  intros Hop n. cbn [readVisualCondition flattenBinary n]. rewrite Hop, str_eqb_refl.
  set (read_terms := fix read_terms (op : str) (m : node) {struct m} := _).
  assert (forall (A B : Type) (f : A -> option B) l1 l2,
    all_some f (l1 ++ l2) = app_some (all_some f l1) (all_some f l2)) as Happ.
  { intros A B f l1 l2. induction l1 as [|x l1 IH]; simpl.
    - by destruct (all_some f l2).
    - destruct (f x); [|done]. rewrite IH.
      by destruct (all_some f l1), (all_some f l2). }
  assert (forall m, read_terms op m = all_some readVisualCondition (flattenBinary m op)) as Ht.
  { induction m as [m IH] using node_children_ind.
    assert (option_map (fun c => [c]) (readVisualCondition m)
            = all_some readVisualCondition [m]) as Hone.
    { simpl. by destruct (readVisualCondition m). }
    destruct m as [ | | | |op' l' r' s' e'| ]; try exact Hone.
    cbn [read_terms flattenBinary]. destruct (str_eqb op' op); [|exact Hone].
    cbn [children] in IH. inversion IH as [|? ? IHl IH']; subst.
    inversion IH' as [|? ? IHr _]; subst. rewrite Happ. by rewrite <- IHl, <- IHr. }
  by rewrite Happ, !Ht.
Qed.

(** One price of a tier: [variable * literal]. *)
Definition read_price (term : node) : option VisualPrice :=
  match term with
  | Binary op (Variable_ x _ _) (Literal (LNum v) _ _ _) _ _ =>
      if str_eqb op (js "*") && negb (str_eqb x (js "len"))
         && negb (str_eqb x (js "image_count")) && negb (num_ltb v num_zero)
      then Some (MkVisualPrice x (string_of_num v) (Some term)) else None
  | _ => None
  end.

Fixpoint read_prices (terms : list node) (prices : list VisualPrice)
  : option (list VisualPrice) :=
  match terms with
  | [] => Some prices
  | term :: rest =>
      match read_price term with
      | None => None
      | Some price =>
          if existsb (fun p => str_eqb (vp_variable p) (vp_variable price)) prices then None
          else read_prices rest (prices ++ [price])
      end
  end.

Fixpoint readVisualPricing (n : node) : option VisualPricingNode :=
  let id := span_id (js "pricing-") n in
  match n with
  | Conditional condition yes no _ _ =>
      match readVisualCondition condition, readVisualPricing yes, readVisualPricing no with
      | Some c, Some y, Some f => Some (VBranch id (Some n) c y f)
      | _, _, _ => None
      end
  | Call name (Literal (LStr label) _ _ _ :: body :: _) _ _ =>
      if negb (str_eqb name (js "tier")) then None
      else
        let linear :=
          match read_prices (flattenBinary body (js "+")) [] with
          | Some prices => Some (VTier id (Some n) label prices unit_token [])
          | None => None
          end in
        match body with
        | Call fname (Literal amount _ _ _ :: _) _ _ =>
            if str_eqb fname (js "fixed")
            then Some (VTier id (Some n) label [] unit_request (literal_text amount))
            else linear
        | _ => linear
        end
  | _ => None
  end.

(** ** Writing *)

Record Patch := MkPatch { patch_node : node; patch_text : str }.

(** [patches.sort((a, b) => b.node.start - a.node.start)] *)
Fixpoint insert_patch (p : Patch) (l : list Patch) : list Patch :=
  match l with
  | [] => [p]
  | q :: l' =>
      if node_start (patch_node p) <? node_start (patch_node q) then q :: insert_patch p l'
      else p :: l
  end.
Fixpoint sort_patches (l : list Patch) : list Patch :=
  match l with [] => [] | p :: l' => insert_patch p (sort_patches l') end.

Definition apply_patch (origin : node) (result : str) (p : Patch) : str :=
  let at_ (k : nat) : Z := (Z.of_nat k - Z.of_nat (node_start origin))%Z in
  js_slice result 0 (at_ (node_start (patch_node p))) ++ patch_text p
  ++ js_slice_from result (at_ (node_end (patch_node p))).

Definition patchSource (source : str) (origin : node) (patches : list Patch) : str :=
  fold_left (apply_patch origin) (sort_patches patches)
    (slice_nat source (node_start origin) (node_end origin)).

Definition node_text (source : str) (n : node) : str :=
  slice_nat source (node_start n) (node_end n).

Definition parseNonNegativeNumber (value : str) : option num :=
  match scan_decimal (trim value) with
  | Some (_, []) =>
      let number := js_Number value in
      if is_finite number && num_leb num_zero number then Some number else None
  | _ => None
  end.

(** [value === literal.value], where [None] is null. *)
Definition same_literal (value : option num) (v : literal_value) : bool :=
  match value, v with
  | Some x, LNum y => num_eqb x y
  | None, LNull => true
  | _, _ => false
  end.

Definition is_time (probe : str) : bool := includes_str TIME_FUNCTIONS probe.

Definition valid_condition_value (probe operator value : str) : bool :=
  match parseNonNegativeNumber value with
  | None => false
  | Some x =>
      if is_time probe then
        match assoc_str TIME_DOMAINS probe with
        | Some (lo, hi) =>
            is_integer x && num_leb (num_of_Z lo) x
            && num_leb x (num_of_Z (hi + (if str_eqb operator (js "<") then 1 else 0)))
        | None => false
        end
      else true
  end.

(** [originalZone]: the literal zone of the comparison a condition came from. *)
Definition original_zone (origin : option node) : option literal_value :=
  match origin with
  | Some (Binary _ (Call _ (Literal v _ _ _ :: _) _ _) _ _ _) => Some v
  | _ => None
  end.

Definition probe_source (probe timezone : str) : str :=
  if is_time probe then probe ++ js "(" ++ json_stringify timezone ++ js ")" else probe.

(** The text of the probe: the original one when it names the same thing. *)
Definition probe_text (source probe timezone : str) (oldProbe : node) : str :=
  match oldProbe with
  | Variable_ x _ _ =>
      if str_eqb x probe then node_text source oldProbe else probe_source probe timezone
  | Call f (Literal (LStr zone) _ _ _ :: _) _ _ =>
      if str_eqb f probe && str_eqb zone timezone then node_text source oldProbe
      else probe_source probe timezone
  | _ => probe_source probe timezone
  end.

(** The text of a number: the original one when it has the same value. *)
Definition value_text (source value : str) (literal : node) : str :=
  match literal with
  | Literal v _ _ _ =>
      if same_literal (parseNonNegativeNumber value) v then node_text source literal else value
  | _ => value
  end.

Section MapIssues.
Context {A : Type}.
Variable f : A -> list VisualBillingIssue -> str * list VisualBillingIssue.
Fixpoint map_issues (l : list A) (issues : list VisualBillingIssue)
  : list str * list VisualBillingIssue :=
  match l with
  | [] => ([], issues)
  | x :: l' =>
      let '(t, issues) := f x issues in
      let '(ts, issues) := map_issues l' issues in
      (t :: ts, issues)
  end.
End MapIssues.

(** [original.every((child, i) => children[i].origin === child)] with equal
    lengths. *)
Fixpoint same_origins (original : list node) (origins : list (option node)) : bool :=
  match original, origins with
  | [], [] => true
  | n :: original', Some m :: origins' => node_eqb m n && same_origins original' origins'
  | _, _ => false
  end.

Definition same_origin (origin : option node) (n : node) : bool :=
  match origin with Some m => node_eqb m n | None => false end.

Definition patch_terms (original : list node) (texts : list str) : list Patch :=
  zip_with MkPatch original texts.

Section Write.
Context `{JSHost}.
Variable source : str.

Definition comparison_issues (id : str) (origin : option node)
    (probe timezone operator value : str) (issues : list VisualBillingIssue)
  : list VisualBillingIssue :=
  let issues :=
    if valid_condition_value probe operator value then issues
    else issues ++ [MkIssue id (js "Enter a valid condition value.")] in
  if is_time probe && negb (bool_decide (original_zone origin = Some (LStr timezone))) then
    match trim timezone with
    | [] => issues ++ [MkIssue id (js "Choose a valid IANA timezone.")]
    | zone =>
        match DateTimeFormat zone with
        | Some _ => issues
        | None => issues ++ [MkIssue id (js "Choose a valid IANA timezone.")]
        end
    end
  else issues.

Definition comparison_text (origin : option node) (probe timezone operator value : str)
  : str :=
  match origin with
  | Some (Binary op lhs rhs s e) =>
      if str_eqb op operator then
        patchSource source (Binary op lhs rhs s e)
          [MkPatch lhs (probe_text source probe timezone lhs);
           MkPatch rhs (value_text source value rhs)]
      else js "(" ++ probe_source probe timezone ++ js " " ++ operator ++ js " " ++ value
           ++ js ")"
  | _ => js "(" ++ probe_source probe timezone ++ js " " ++ operator ++ js " " ++ value
         ++ js ")"
  end.

(** The text of a group from the texts of its members. *)
Definition group_text (operator : str) (origin : option node) (origins : list (option node))
    (texts : list str) : str :=
  let rebuilt :=
    js "(" ++ join (js " " ++ operator ++ js " ")
                (map (fun t => js "(" ++ t ++ js ")") texts) ++ js ")" in
  match origin with
  | Some (Binary op l r s e) =>
      if str_eqb op operator then
        let original := flattenBinary (Binary op l r s e) operator in
        if same_origins original origins then
          patchSource source (Binary op l r s e) (patch_terms original texts)
        else rebuilt
      else rebuilt
  | _ => rebuilt
  end.

Definition group_issues (id : str) (children : list VisualCondition)
    (issues : list VisualBillingIssue) : list VisualBillingIssue :=
  match children with
  | [] => issues ++ [MkIssue id (js "Add at least one condition to this group.")]
  | _ => issues
  end.

Fixpoint writeVisualCondition (n : VisualCondition) (issues : list VisualBillingIssue)
  : str * list VisualBillingIssue :=
  match n with
  | VNot _ origin child =>
      let '(text, issues) := writeVisualCondition child issues in
      (match origin with
       | Some (Unary op operand s e) =>
           if same_origin (condition_origin child) operand then
             patchSource source (Unary op operand s e) [MkPatch operand text]
           else js "!(" ++ text ++ js ")"
       | _ => js "!(" ++ text ++ js ")"
       end, issues)
  | VAll id origin children =>
      let '(texts, issues) :=
        map_issues writeVisualCondition children (group_issues id children issues) in
      (group_text (js "&&") origin (map condition_origin children) texts, issues)
  | VAny id origin children =>
      let '(texts, issues) :=
        map_issues writeVisualCondition children (group_issues id children issues) in
      (group_text (js "||") origin (map condition_origin children) texts, issues)
  | VComparison id origin probe timezone operator value =>
      (comparison_text origin probe timezone operator value,
       comparison_issues id origin probe timezone operator value issues)
  end.

Definition visualConditionExpression (n : VisualCondition) : option str :=
  match writeVisualCondition n [] with
  | (expression, []) => Some expression
  | _ => None
  end.

Definition label_text (label : str) (literal : node) : str :=
  match literal with
  | Literal (LStr old) _ _ _ =>
      if str_eqb old label then node_text source literal else json_stringify label
  | _ => json_stringify label
  end.

Definition price_message : str := js "Enter a finite, non-negative price.".

Definition fixed_issues (id fixedPrice : str) (issues : list VisualBillingIssue)
  : list VisualBillingIssue :=
  match parseNonNegativeNumber fixedPrice with
  | Some value =>
      if is_finite (num_mul value million) then issues
      else issues ++ [MkIssue (id ++ js ":fixed") price_message]
  | None => issues ++ [MkIssue (id ++ js ":fixed") price_message]
  end.

(** The text of a fixed price from the price node it replaces. *)
Definition fixed_text (fixedPrice : str) (price : node) : str :=
  match price with
  | Call fname (Literal v i s e :: rest) ps pe =>
      if str_eqb fname (js "fixed") then
        patchSource source price
          [MkPatch (Literal v i s e) (value_text source fixedPrice (Literal v i s e))]
      else js "fixed(" ++ fixedPrice ++ js ")"
  | _ => js "fixed(" ++ fixedPrice ++ js ")"
  end.

Definition request_text (origin : option node) (label fixedPrice : str) : str :=
  match origin with
  | Some (Call name (old :: price :: rest) s e) =>
      if str_eqb name (js "tier") then
        patchSource source (Call name (old :: price :: rest) s e)
          [MkPatch old (label_text label old); MkPatch price (fixed_text fixedPrice price)]
      else js "tier(" ++ json_stringify label ++ js ", fixed(" ++ fixedPrice ++ js "))"
  | _ => js "tier(" ++ json_stringify label ++ js ", fixed(" ++ fixedPrice ++ js "))"
  end.

Definition price_issues (id : str) (price : VisualPrice) : list VisualBillingIssue :=
  match parseNonNegativeNumber (vp_value price) with
  | Some _ => []
  | None => [MkIssue (id ++ js ":" ++ vp_variable price) price_message]
  end.

(** The term of a price and the patch of its literal, if it has an origin. *)
Definition price_term (price : VisualPrice) : str * list Patch :=
  match vp_origin price with
  | Some (Binary op l (Literal v i s e) bs be) =>
      let text := value_text source (vp_value price) (Literal v i s e) in
      let patch := MkPatch (Literal v i s e) text in
      (patchSource source (Binary op l (Literal v i s e) bs be) [patch], [patch])
  | _ => (vp_variable price ++ js " * " ++ vp_value price, [])
  end.

Definition token_text (origin : option node) (label : str) (prices : list VisualPrice) : str :=
  let terms := map (fun p => fst (price_term p)) prices in
  let valuePatches := flat_map (fun p => snd (price_term p)) prices in
  let fresh := js "tier(" ++ json_stringify label ++ js ", " ++ join (js " + ") terms ++ js ")" in
  match origin with
  | Some (Call name (old :: body :: rest) s e) =>
      if str_eqb name (js "tier") then
        let label_patch := MkPatch old (label_text label old) in
        if same_origins (flattenBinary body (js "+")) (map vp_origin prices) then
          patchSource source (Call name (old :: body :: rest) s e) (label_patch :: valuePatches)
        else
          patchSource source (Call name (old :: body :: rest) s e)
            [label_patch; MkPatch body (join (js " + ") terms)]
      else fresh
  | _ => fresh
  end.

Fixpoint writeVisualPricing (n : VisualPricingNode) (issues : list VisualBillingIssue)
  : str * list VisualBillingIssue :=
  match n with
  | VBranch _ origin condition yes no =>
      let '(c, issues) := writeVisualCondition condition issues in
      let '(y, issues) := writeVisualPricing yes issues in
      let '(f, issues) := writeVisualPricing no issues in
      (match origin with
       | Some (Conditional oc oy on s e) =>
           patchSource source (Conditional oc oy on s e)
             [MkPatch oc c; MkPatch oy y; MkPatch on f]
       | _ => js "(" ++ c ++ js ") ? (" ++ y ++ js ") : (" ++ f ++ js ")"
       end, issues)
  | VTier id origin label prices unit_request fixedPrice =>
      (request_text origin label fixedPrice, fixed_issues id fixedPrice issues)
  | VTier id origin label prices unit_token _ =>
      let issues :=
        match prices with
        | [] => issues ++ [MkIssue id (js "Include at least one price variable.")]
        | _ => issues
        end in
      (token_text origin label prices, issues ++ flat_map (price_issues id) prices)
  end.
End Write.

(** ** Documents and sources *)

Section Document.
Context `{JSHost}.

Definition serializeVisualBillingDocument (cache : compiled_cache)
    (document : VisualBillingDocument) : VisualBillingSerialization * compiled_cache :=
  let root := doc_root document in
  match writeVisualPricing (doc_source document) root [] with
  | (body, []) =>
      let '(original, cache) := compileBillingExpression cache (doc_source document) in
      match original with
      | Failed _ =>
          (SerializedIssues
             [MkIssue (pricing_id root)
                (js "This expression cannot be edited visually without losing information.")],
           cache)
      | Ready c =>
          let source :=
            take (node_start (compiled_ast c)) (doc_source document) ++ body
            ++ drop (node_end (compiled_ast c)) (doc_source document) in
          let '(check, cache) := compileBillingExpression cache source in
          match check with
          | Failed _ =>
              (SerializedIssues
                 [MkIssue (pricing_id root) (js "Enter a valid condition value.")], cache)
          | Ready _ => (SerializedOk source, cache)
          end
      end
  | (_, issues) => (SerializedIssues issues, cache)
  end.

Definition parseVisualBillingDocument (cache : compiled_cache) (source : str)
  : option VisualBillingDocument * compiled_cache :=
  let '(compiled, cache) := compileBillingExpression cache source in
  match compiled with
  | Failed _ => (None, cache)
  | Ready c =>
      match readVisualPricing (compiled_ast c) with
      | None => (None, cache)
      | Some root =>
          let document := MkDocument source root in
          match serializeVisualBillingDocument cache document with
          | (SerializedOk _, cache) => (Some document, cache)
          | (SerializedIssues _, cache) => (None, cache)
          end
      end
  end.
End Document.
