(* ===== verification/ExprVisualFacts.v ===== *)
(** * Visual documents are lossless

    An untouched document writes back exactly the text it was read from, and
    patches replace their spans and nothing else. *)

From Stdlib Require Import ZArith Lia Bool SpecFloat.
From stdpp Require Import base list numbers.
From S2P Require Import Prelude JsString JsNumber JsNumberFacts JsValue JsHost.
From S2P Require Import ExprTypes ExprParser ExprParserFacts ExprCompile ExprCompileFacts.
From S2P Require Import ExprRuntime ExprDisplay ExprVisual.

(** ** Numbers *)

Lemma num_eqb_refl x : is_finite x = true -> num_eqb x x = true.
Proof.
  destruct x as [s|s| |s m e]; try done. intros _.
  unfold num_eqb, SFeqb, SFcompare. rewrite Z.compare_refl, Pos.compare_refl. by destruct s.
Qed.

Lemma num_leb_zero x : is_finite x = true -> sign_bit x = false -> num_leb num_zero x = true.
Proof. destruct x as [s|s| |s m e]; try done. simpl. by intros _ ->. Qed.

(** The text of a literal reads back as its value. *)
Lemma parse_number_text v :
  literal_ok (LNum v) -> parseNonNegativeNumber (string_of_num v) = Some v.
Proof.
  intros (Hc & Hf & Hs). unfold parseNonNegativeNumber.
  destruct (Number_of_string_of_num v Hc Hf Hs) as ((d & Hscan & _) & Hn & Ht).
  rewrite Ht, Hscan, Hn, Hf, num_leb_zero by done. done.
Qed.

Lemma value_text_literal source v i s e :
  literal_ok (LNum v) ->
  value_text source (string_of_num v) (Literal (LNum v) i s e)
  = node_text source (Literal (LNum v) i s e).
Proof.
  intros Hv. unfold value_text. rewrite parse_number_text by done. unfold same_literal.
  destruct Hv as (_ & Hf & _). by rewrite num_eqb_refl.
Qed.

(** ** Patches *)

Definition within (n origin : node) : Prop :=
  node_start origin <= node_start n /\ node_start n <= node_end n /\
  node_end n <= node_end origin.

Lemma js_slice_from_0 (s : str) k :
  js_slice s 0 (Z.of_nat k) = take k s.
Proof.
  unfold js_slice, clamp_index, slice_nat.
  destruct (Z.ltb_spec 0 0); [lia|]. destruct (Z.ltb_spec (Z.of_nat k) 0); [lia|].
  rewrite !Nat2Z.id. replace (Nat.min (Z.to_nat 0) (length s)) with 0 by lia.
  rewrite drop_0, Nat.sub_0_r.
  destruct (Nat.le_gt_cases k (length s)).
  - f_equal. lia.
  - rewrite !take_ge by lia. done.
Qed.

Lemma js_slice_from_nat (s : str) k : js_slice_from s (Z.of_nat k) = drop k s.
Proof.
  unfold js_slice_from, clamp_index. destruct (Z.ltb_spec (Z.of_nat k) 0); [lia|].
  rewrite Nat2Z.id. destruct (Nat.le_gt_cases k (length s)).
  - f_equal. lia.
  - rewrite !drop_ge by lia. done.
Qed.

Lemma apply_patch_nat origin result p :
  within (patch_node p) origin ->
  apply_patch origin result p
  = take (node_start (patch_node p) - node_start origin) result ++ patch_text p
    ++ drop (node_end (patch_node p) - node_start origin) result.
Proof.
  intros (H1 & H2 & H3). unfold apply_patch.
  rewrite <- !Nat2Z.inj_sub by lia. by rewrite js_slice_from_0, js_slice_from_nat.
Qed.

(** A patch that puts back the text of its node changes nothing. *)
Lemma apply_patch_id source origin p :
  node_end origin <= length source -> within (patch_node p) origin ->
  patch_text p = node_text source (patch_node p) ->
  apply_patch origin (node_text source origin) p = node_text source origin.
Proof.
  intros Hl Hw Ht. rewrite apply_patch_nat by done. rewrite Ht.
  destruct Hw as (H1 & H2 & H3). unfold node_text.
  set (a := node_start (patch_node p)) in *. set (b := node_end (patch_node p)) in *.
  set (s := node_start origin) in *. set (e := node_end origin) in *.
  assert (take (a - s) (slice_nat source s e) = slice_nat source s a) as ->.
  { unfold slice_nat. rewrite take_take. f_equal. lia. }
  assert (drop (b - s) (slice_nat source s e) = slice_nat source b e) as ->.
  { unfold slice_nat. rewrite skipn_firstn_comm, drop_drop. f_equal; [lia|]. f_equal. lia. }
  rewrite !slice_nat_app by lia. done.
Qed.

Lemma insert_patch_Forall (P : Patch -> Prop) p l :
  P p -> Forall P l -> Forall P (insert_patch p l).
Proof.
  intros Hp. induction 1 as [|q l Hq Hl IH]; simpl; [by repeat constructor|].
  destruct (_ <? _); repeat constructor; auto.
Qed.

Lemma sort_patches_Forall (P : Patch -> Prop) l : Forall P l -> Forall P (sort_patches l).
Proof. induction 1; simpl; [constructor|]. by apply insert_patch_Forall. Qed.

Definition identity_patch (source : str) (origin : node) (p : Patch) : Prop :=
  within (patch_node p) origin /\ patch_text p = node_text source (patch_node p).

Lemma patchSource_id source origin patches :
  node_end origin <= length source -> Forall (identity_patch source origin) patches ->
  patchSource source origin patches = node_text source origin.
Proof.
  intros Hl Hp. unfold patchSource.
  change (slice_nat source (node_start origin) (node_end origin)) with (node_text source origin).
  apply sort_patches_Forall in Hp. induction Hp as [|p l [Hw Ht] _ IH]; [done|].
  simpl. by rewrite apply_patch_id.
Qed.

(** ** Nodes of a subtree *)

Lemma postorder_trans n m k : m ∈ postorder n -> k ∈ postorder m -> k ∈ postorder n.
Proof.
  induction n as [n IH] using node_children_ind. intros Hm Hk.
  rewrite postorder_children in Hm |- *.
  apply elem_of_app in Hm as [Hm|Hm].
  2: { apply list_elem_of_singleton in Hm as ->. by rewrite postorder_children in Hk. }
  apply elem_of_app. left. apply list_elem_of_In, in_concat in Hm as (l & Hl & Hm).
  apply in_map_iff in Hl as (c & <- & Hc).
  apply list_elem_of_In, in_concat. exists (postorder c). split; [by apply in_map|].
  rewrite Forall_forall in IH. apply list_elem_of_In. apply IH; [done| |done].
  by apply list_elem_of_In.
Qed.

Lemma root_in_postorder n : n ∈ postorder n.
Proof. rewrite postorder_children. apply elem_of_app. right. by apply list_elem_of_singleton. Qed.

Lemma child_in_postorder n c : c ∈ children n -> c ∈ postorder n.
Proof.
  intros Hc. rewrite postorder_children. apply elem_of_app. left.
  apply list_elem_of_In, in_concat. exists (postorder c). split.
  - by apply in_map, list_elem_of_In.
  - apply list_elem_of_In, root_in_postorder.
Qed.

Lemma flatten_in_postorder n o m : m ∈ flattenBinary n o -> m ∈ postorder n.
Proof.
  induction n as [n IH] using node_children_ind. intros Hm.
  assert (m ∈ [n] -> m ∈ postorder n) as Hone.
  { intros ->%list_elem_of_singleton. apply root_in_postorder. }
  destruct n as [ | | | |op l r s e| ]; cbn [flattenBinary] in Hm; try (by apply Hone).
  destruct (str_eqb op o); [|by apply Hone]. cbn [children] in IH.
  inversion IH as [|? ? IHl IH']; subst. inversion IH' as [|? ? IHr _]; subst.
  apply elem_of_app in Hm as [Hm|Hm].
  - eapply postorder_trans; [apply child_in_postorder; by left|by apply IHl].
  - eapply postorder_trans; [apply child_in_postorder; right; by left|by apply IHr].
Qed.

Lemma postorder_within n m : wf n -> m ∈ postorder n -> within m n.
Proof.
  intros Hw Hm. destruct (postorder_inside n m Hw Hm).
  pose proof (wf_bounds m (wf_postorder n m Hw Hm)). unfold within. lia.
Qed.

Lemma identity_patch_in source n m t :
  wf n -> m ∈ postorder n -> t = node_text source m -> identity_patch source n (MkPatch m t).
Proof. intros Hw Hm Ht. split; [by apply postorder_within|done]. Qed.

Lemma node_end_le n m k : wf n -> m ∈ postorder n -> node_end n <= k -> node_end m <= k.
Proof. intros Hw Hm Hk. destruct (postorder_inside n m Hw Hm). lia. Qed.

Lemma literal_in_ok n v i s e : wf n -> Literal v i s e ∈ postorder n -> literal_ok v.
Proof. intros Hw Hm. by apply (wf_postorder n) in Hm as [(_ & Hl & _) _]%wf_unfold. Qed.

Lemma flatten_size n o m : m ∈ flattenBinary n o -> node_size m <= node_size n.
Proof.
  induction n as [n IH] using node_children_ind. intros Hm.
  assert (m ∈ [n] -> node_size m <= node_size n) as Hone.
  { by intros ->%list_elem_of_singleton. }
  destruct n as [ | | | |op l r s e| ]; cbn [flattenBinary] in Hm; try (by apply Hone).
  destruct (str_eqb op o); [|by apply Hone]. cbn [children] in IH.
  inversion IH as [|? ? IHl IH']; subst. inversion IH' as [|? ? IHr _]; subst.
  cbn [node_size]. apply elem_of_app in Hm as [Hm|Hm]; [apply IHl in Hm|apply IHr in Hm]; lia.
Qed.

Lemma flatten_size_strict o l r s e m :
  m ∈ flattenBinary (Binary o l r s e) o -> node_size m < node_size (Binary o l r s e).
Proof.
  cbn [flattenBinary]. rewrite str_eqb_refl. intros Hm. cbn [node_size].
  apply elem_of_app in Hm as [Hm|Hm]; apply flatten_size in Hm; lia.
Qed.

Lemma same_origins_map l : same_origins l (map Some l) = true.
Proof. induction l as [|n l IH]; simpl; [done|]. by rewrite node_eqb_refl. Qed.

Lemma all_some_Forall2 {A B} (f : A -> option B) l ys :
  all_some f l = Some ys -> Forall2 (fun x y => f x = Some y) l ys.
Proof.
  revert ys. induction l as [|x l IH]; intros ys H; simpl in H.
  { injection H as <-. constructor. }
  destruct (f x) eqn:E; [|done]. destruct (all_some f l); [|done]. injection H as <-.
  constructor; [done|]. by apply IH.
Qed.

Lemma Forall2_impl_elem {A B} (P Q : A -> B -> Prop) l k :
  Forall2 P l k -> (forall x y, x ∈ l -> P x y -> Q x y) -> Forall2 Q l k.
Proof.
  induction 1 as [|x y l k Hxy _ IH]; intros H; constructor.
  - apply H; [by left|done].
  - apply IH. intros x' y' Hx. apply H. by right.
Qed.

Section Lossless.
Context `{JSHost}.
Variable source : str.

Definition writes_back (n : node) (v : VisualCondition) : Prop :=
  condition_origin v = Some n /\
  forall issues, fst (writeVisualCondition source v issues) = node_text source n.

Lemma map_issues_texts l vs :
  Forall2 writes_back l vs ->
  map condition_origin vs = map Some l /\
  forall issues, fst (map_issues (writeVisualCondition source) vs issues)
                 = map (node_text source) l.
Proof.
  induction 1 as [|n v l vs [Ho Hw] _ [IHo IHw]]; [done|].
  cbn [map]. rewrite Ho, IHo. split; [done|]. intros issues. cbn [map_issues].
  specialize (Hw issues). destruct (writeVisualCondition source v issues) as [t i1].
  specialize (IHw i1). destruct (map_issues _ vs i1) as [ts i2]. simpl in *.
  by rewrite Hw, IHw.
Qed.

Lemma patch_terms_id n l :
  wf n -> Forall (fun m => m ∈ postorder n) l ->
  Forall (identity_patch source n) (patch_terms l (map (node_text source) l)).
Proof.
  intros Hw. unfold patch_terms. induction 1 as [|m l Hm _ IH]; [constructor|].
  cbn [map zip_with]. constructor; [|exact IH]. by apply identity_patch_in.
Qed.

Lemma group_text_id op l r s e origins texts :
  let n := Binary op l r s e in
  wf n -> node_end n <= length source ->
  origins = map Some (flattenBinary n op) ->
  texts = map (node_text source) (flattenBinary n op) ->
  group_text source op (Some n) origins texts = node_text source n.
Proof.
  intros n Hw Hl -> ->. unfold group_text, n. rewrite str_eqb_refl. fold n.
  rewrite same_origins_map. apply patchSource_id; [done|].
  apply patch_terms_id; [done|]. apply Forall_forall. intros m Hm.
  eapply flatten_in_postorder. by apply list_elem_of_In in Hm.
Qed.

Lemma comparison_text_id op lhs v i sv ev s e probe zone :
  let n := Binary op lhs (Literal (LNum v) i sv ev) s e in
  wf n -> node_end n <= length source ->
  probe_text source probe zone lhs = node_text source lhs ->
  comparison_text source (Some n) probe zone op (string_of_num v) = node_text source n.
Proof.
  intros n Hw Hl Hp. unfold comparison_text, n. rewrite str_eqb_refl. fold n.
  assert (Literal (LNum v) i sv ev ∈ postorder n) as Hv.
  { apply child_in_postorder. right. by left. }
  apply patchSource_id; [done|]. constructor; [|constructor; [|constructor]].
  - apply identity_patch_in; [done| |done]. apply child_in_postorder. by left.
  - apply identity_patch_in; [done..|]. apply value_text_literal. by eapply literal_in_ok.
Qed.

Lemma read_comparison_writes n v :
  wf n -> node_end n <= length source -> read_comparison n = Some v -> writes_back n v.
Proof.
  intros Hw Hl Hr. destruct n as [ | | | |op lhs rhs s e| ]; try done.
  destruct rhs as [lv i sv ev| | | | | ]; try done. destruct lv as [ |x| | ]; try done.
  unfold read_comparison in Hr. destruct (negb (includes_str comparison_operators op)); [done|].
  destruct lhs as [ |y sy ey|f args sf ef| | | ]; try done.
  - destruct (includes_str condition_variables y); [|done]. injection Hr as <-.
    split; [done|]. intros issues. cbn [writeVisualCondition fst].
    apply comparison_text_id; [done..|]. unfold probe_text. by rewrite str_eqb_refl.
  - destruct args as [|a rest]; [done|]. destruct a as [av ai sa ea| | | | | ]; try done.
    destruct av as [zone| | | ]; try done.
    destruct (includes_str TIME_FUNCTIONS f); [|done]. injection Hr as <-.
    split; [done|]. intros issues. cbn [writeVisualCondition fst].
    apply comparison_text_id; [done..|]. unfold probe_text. by rewrite !str_eqb_refl.
Qed.

Lemma read_condition_writes k : forall n v,
  node_size n <= k -> wf n -> node_end n <= length source ->
  readVisualCondition n = Some v -> writes_back n v.
Proof.
  induction k as [|k IH]; intros n v Hk Hw Hl Hr.
  { rewrite node_size_children in Hk. lia. }
  destruct n as [ | | |op a s e|op l r s e| ]; try done.
  - cbn [readVisualCondition] in Hr. destruct (str_eqb op (js "!")); [|done].
    destruct (readVisualCondition a) as [c|] eqn:Ea; [|done]. injection Hr as <-.
    assert (a ∈ postorder (Unary op a s e)) as Ha by (apply child_in_postorder; by left).
    apply IH in Ea as [Ho Hc]; [|cbn [node_size] in Hk; lia|by eapply wf_postorder
      |by eapply node_end_le].
    split; [done|]. intros issues. cbn [writeVisualCondition]. specialize (Hc issues).
    destruct (writeVisualCondition source c issues) as [t i]. cbn [fst] in *.
    rewrite Ho. cbn [same_origin]. rewrite node_eqb_refl.
    apply patchSource_id; [done|]. constructor; [by apply identity_patch_in|constructor].
  - destruct (includes_str logical_operators op) eqn:Elog.
    2: { cbn [readVisualCondition] in Hr. rewrite Elog in Hr. by apply read_comparison_writes. }
    rewrite readVisualCondition_terms in Hr by done.
    destruct (all_some readVisualCondition (flattenBinary (Binary op l r s e) op))
      as [vs|] eqn:Ev; [|done].
    apply all_some_Forall2 in Ev.
    assert (Forall2 writes_back (flattenBinary (Binary op l r s e) op) vs) as Hall.
    { eapply Forall2_impl_elem; [exact Ev|]. intros m w Hm Hmw.
      pose proof (flatten_size_strict _ _ _ _ _ _ Hm). apply flatten_in_postorder in Hm.
      apply IH; [lia|by eapply wf_postorder|by eapply node_end_le|done]. }
    apply map_issues_texts in Hall as [Ho Ht]. simpl option_map in Hr. injection Hr as <-.
    assert (forall id issues, fst (let '(texts, issues) :=
        map_issues (writeVisualCondition source) vs (group_issues id vs issues) in
      (group_text source op (Some (Binary op l r s e)) (map condition_origin vs) texts, issues))
      = node_text source (Binary op l r s e)) as Hgroup.
    { intros id issues. specialize (Ht (group_issues id vs issues)).
      destruct (map_issues _ vs _) as [texts i]. cbn [fst] in *. by apply group_text_id. }
    apply includes_str_elem in Elog. unfold logical_operators in Elog.
    apply elem_of_cons in Elog as [->|Elog].
    + str_compute. split; [done|]. intros issues. apply Hgroup.
    + apply list_elem_of_singleton in Elog as ->. str_compute.
      split; [done|]. intros issues. apply Hgroup.
Qed.

Lemma read_prices_spec terms : forall acc prices,
  read_prices terms acc = Some prices ->
  exists ps, prices = acc ++ ps /\ Forall2 (fun t p => read_price t = Some p) terms ps.
Proof.
  induction terms as [|t terms IH]; intros acc prices Hr; cbn [read_prices] in Hr.
  { injection Hr as <-. exists []. rewrite app_nil_r. by split. }
  destruct (read_price t) as [p|] eqn:Ep; [|done]. destruct (existsb _ acc); [done|].
  apply IH in Hr as (ps & -> & Hps). exists (p :: ps). rewrite <- app_assoc.
  split; [done|]. by constructor.
Qed.

Lemma read_price_shape t p :
  read_price t = Some p ->
  exists x sx ex v i sv ev s e,
    t = Binary (js "*") (Variable_ x sx ex) (Literal (LNum v) i sv ev) s e /\
    p = MkVisualPrice x (string_of_num v) (Some t).
Proof.
  destruct t as [ | | | |op l r s e| ]; try done. destruct l as [ |x sx ex| | | | ]; try done.
  destruct r as [v i sv ev| | | | | ]; try done. destruct v as [ |v| | ]; try done.
  unfold read_price. intros Hp. destruct (_ && _) eqn:E in Hp; [|done]. injection Hp as <-.
  apply andb_true_iff in E as [[[E _]%andb_true_iff _]%andb_true_iff _].
  apply str_eqb_eq in E. subst op. by exists x, sx, ex, v, i, sv, ev, s, e.
Qed.

Lemma price_patches_id n terms ps :
  wf n -> Forall (fun m => m ∈ postorder n) terms ->
  Forall2 (fun t p => read_price t = Some p) terms ps ->
  map vp_origin ps = map Some terms /\
  Forall (identity_patch source n) (flat_map (fun p => snd (price_term source p)) ps).
Proof.
  intros Hw Hin Hps. induction Hps as [|t p terms ps Hp _ IH]; [done|].
  inversion Hin as [|? ? Ht Hts]; subst. destruct (IH Hts) as [Ho Hpat].
  apply read_price_shape in Hp as (x & sx & ex & v & i & sv & ev & s & e & -> & ->).
  cbn [map vp_origin flat_map]. rewrite Ho. split; [done|].
  apply Forall_app. split; [|done]. unfold price_term. cbn [vp_origin snd vp_value].
  assert (Literal (LNum v) i sv ev ∈ postorder n) as Hv.
  { eapply postorder_trans; [exact Ht|]. apply child_in_postorder. right. by left. }
  constructor; [|constructor]. apply identity_patch_in; [done..|].
  apply value_text_literal. by eapply literal_in_ok.
Qed.

Lemma label_text_id label i s e :
  label_text source label (Literal (LStr label) i s e)
  = node_text source (Literal (LStr label) i s e).
Proof. unfold label_text. by rewrite str_eqb_refl. Qed.

Lemma fixed_text_id v i s e rest ps pe :
  let price := Call (js "fixed") (Literal (LNum v) i s e :: rest) ps pe in
  wf price -> node_end price <= length source ->
  fixed_text source (string_of_num v) price = node_text source price.
Proof.
  intros price Hw Hl. unfold fixed_text, price. str_compute. fold price.
  assert (Literal (LNum v) i s e ∈ postorder price) as Hv.
  { apply child_in_postorder. by left. }
  apply patchSource_id; [done|]. constructor; [|constructor].
  apply identity_patch_in; [done..|]. apply value_text_literal. by eapply literal_in_ok.
Qed.

(** The argument of [fixed] in a well-typed AST is a number. *)
Lemma fixed_amount v i s e rest ps pe :
  well_typed (Call (js "fixed") (Literal v i s e :: rest) ps pe) -> exists x, v = LNum x.
Proof.
  intros Ht. apply Forall_app in Ht as [_ Ht]. inversion Ht as [|? ? Hn _]; subst.
  destruct Hn as (_ & _ & _ & Hnum). specialize (Hnum ltac:(vm_compute; reflexivity)).
  inversion Hnum as [|? ? Ha _]; subst. destruct v; [|by eexists|..]; by destruct Ha.
Qed.

Lemma well_typed_sub n m : well_typed n -> m ∈ postorder n -> well_typed m.
Proof.
  intros Ht Hm. apply Forall_forall. intros k Hk. unfold well_typed in Ht.
  rewrite Forall_forall in Ht. apply Ht. apply list_elem_of_In.
  eapply postorder_trans; [exact Hm|]. by apply list_elem_of_In.
Qed.

Definition prices_back (n : node) (v : VisualPricingNode) : Prop :=
  forall issues, fst (writeVisualPricing source v issues) = node_text source n.

Lemma read_tier_writes args s e v :
  let n := Call (js "tier") args s e in
  wf n -> well_typed n -> node_end n <= length source ->
  readVisualPricing n = Some v -> prices_back n v.
Proof.
  intros n Hw Ht Hl Hr. unfold n in Hr. cbn [readVisualPricing] in Hr. fold n in Hr.
  destruct args as [|a [|body rest]]; try done; destruct a as [lv li sl el| | | | | ]; try done;
    destruct lv as [label| | | ]; try done. str_compute.
  set (lit_ := Literal (LStr label) li sl el) in *.
  assert (lit_ ∈ postorder n) as Hlit by (apply child_in_postorder; by left).
  assert (body ∈ postorder n) as Hbody by (apply child_in_postorder; right; by left).
  set (linear := match read_prices (flattenBinary body (js "+")) [] with
        | Some prices => Some (VTier (span_id (js "pricing-") n) (Some n) label prices unit_token [])
        | None => None end) in Hr.
  assert (linear = Some v -> prices_back n v) as Hlin.
  { unfold linear. intros Hv. destruct (read_prices _ _) as [prices|] eqn:Ep; [|done].
    injection Hv as <-. apply read_prices_spec in Ep as (ps & -> & Hps).
    assert (Forall (fun m => m ∈ postorder n) (flattenBinary body (js "+"))) as Hin.
    { apply Forall_forall. intros m Hm. apply list_elem_of_In in Hm.
      eapply postorder_trans; [exact Hbody|]. by eapply flatten_in_postorder. }
    destruct (price_patches_id n _ _ Hw Hin Hps) as [Ho Hpat].
    intros issues. cbn [writeVisualPricing fst]. unfold token_text, n. str_compute. fold n.
    rewrite app_nil_l, Ho, same_origins_map. apply patchSource_id; [done|].
    constructor; [|done]. apply identity_patch_in; [done..|]. apply label_text_id. }
  destruct body as [ | |g bargs bs be| | | ]; try (by apply Hlin).
  destruct bargs as [|b brest]; [by apply Hlin|].
  destruct b as [bv bi bs' be'| | | | | ]; try (by apply Hlin).
  destruct (str_eqb g (js "fixed")) eqn:Eg; [|by apply Hlin].
  apply str_eqb_eq in Eg. subst g. injection Hr as <-.
  pose proof (well_typed_sub _ _ Ht Hbody) as Hbt.
  destruct (fixed_amount _ _ _ _ _ _ _ Hbt) as [x ->].
  intros issues. cbn [writeVisualPricing fst literal_text].
  unfold request_text, n. str_compute. fold n. apply patchSource_id; [done|].
  constructor; [|constructor; [|constructor]].
  - apply identity_patch_in; [done..|]. apply label_text_id.
  - apply identity_patch_in; [done..|]. apply fixed_text_id; [by eapply wf_postorder|].
    by eapply node_end_le.
Qed.

Lemma read_pricing_writes n : forall v,
  wf n -> well_typed n -> node_end n <= length source ->
  readVisualPricing n = Some v -> prices_back n v.
Proof.
  induction n as [n IH] using node_children_ind. intros v Hw Ht Hl Hr.
  destruct n as [ | |f args s e| | |c y no s e]; try done.
  - destruct (str_eqb f (js "tier")) eqn:Ef.
    + apply str_eqb_eq in Ef. subst f. by apply read_tier_writes.
    + cbn [readVisualPricing] in Hr. rewrite Ef in Hr. repeat case_match; done.
  - cbn [readVisualPricing] in Hr.
    destruct (readVisualCondition c) as [vc|] eqn:Ec; [|done].
    destruct (readVisualPricing y) as [vy|] eqn:Ey; [|done].
    destruct (readVisualPricing no) as [vn|] eqn:En; [|done]. injection Hr as <-.
    set (n := Conditional c y no s e) in *.
    assert (c ∈ postorder n /\ y ∈ postorder n /\ no ∈ postorder n) as (Hc & Hy & Hn).
    { split_and!; apply child_in_postorder;
        [by left|right; by left|right; right; by left]. }
    cbn [children] in IH. unfold n in IH. cbn [children] in IH.
    inversion IH as [|? ? _ IH1]; subst. inversion IH1 as [|? ? IHy IH2]; subst.
    inversion IH2 as [|? ? IHn _]; subst.
    apply (read_condition_writes (node_size c)) in Ec as [_ Wc];
      [|done|by eapply wf_postorder|by eapply node_end_le].
    apply IHy in Ey as Wy; [|by eapply wf_postorder|by eapply well_typed_sub
      |by eapply node_end_le].
    apply IHn in En as Wn; [|by eapply wf_postorder|by eapply well_typed_sub
      |by eapply node_end_le].
    intros issues. cbn [writeVisualPricing]. specialize (Wc issues).
    destruct (writeVisualCondition source vc issues) as [tc i1]. specialize (Wy i1).
    destruct (writeVisualPricing source vy i1) as [ty i2]. specialize (Wn i2).
    destruct (writeVisualPricing source vn i2) as [tn i3]. cbn [fst] in *. unfold n. fold n.
    apply patchSource_id; [done|].
    constructor; [|constructor; [|constructor; [|constructor]]]; by apply identity_patch_in.
Qed.
End Lossless.

(** ** Splicing *)

(** The source from [pos] to [stop] with each patched span replaced. *)
Fixpoint splice (source : str) (pos : nat) (patches : list Patch) (stop : nat) : str :=
  match patches with
  | [] => slice_nat source pos stop
  | p :: rest =>
      slice_nat source pos (node_start (patch_node p)) ++ patch_text p
      ++ splice source (node_end (patch_node p)) rest stop
  end.

(** Non-empty spans from left to right between [pos] and [stop]. *)
Fixpoint ordered (pos : nat) (patches : list Patch) (stop : nat) : Prop :=
  match patches with
  | [] => pos <= stop
  | p :: rest =>
      pos <= node_start (patch_node p) /\
      node_start (patch_node p) < node_end (patch_node p) /\
      ordered (node_end (patch_node p)) rest stop
  end.

Lemma ordered_le pos patches stop : ordered pos patches stop -> pos <= stop.
Proof.
  revert pos. induction patches as [|p rest IH]; intros pos; simpl; [done|].
  intros (H1 & H2 & H3). apply IH in H3. lia.
Qed.

Lemma ordered_starts pos patches stop :
  ordered pos patches stop -> Forall (fun q => pos <= node_start (patch_node q)) patches.
Proof.
  revert pos. induction patches as [|p rest IH]; intros pos; simpl; [done|].
  intros (H1 & H2 & H3). constructor; [done|].
  eapply Forall_impl; [|by apply IH]. intros q Hq. simpl in Hq. lia.
Qed.

Lemma insert_patch_last p l :
  Forall (fun q => node_start (patch_node p) < node_start (patch_node q)) l ->
  insert_patch p l = l ++ [p].
Proof.
  induction 1 as [|q l Hq _ IH]; [done|]. simpl. apply Nat.ltb_lt in Hq. by rewrite Hq, IH.
Qed.

Lemma sort_ordered pos patches stop :
  ordered pos patches stop -> sort_patches patches = reverse patches.
Proof.
  revert pos. induction patches as [|p rest IH]; intros pos; [done|].
  intros (H1 & H2 & H3). cbn [sort_patches]. rewrite (IH _ H3), reverse_cons.
  apply insert_patch_last. apply Forall_reverse.
  eapply Forall_impl; [|by eapply ordered_starts]. intros q Hq. simpl in Hq. lia.
Qed.

Lemma fold_patches source origin patches : forall pos,
  node_end origin <= length source -> node_start origin <= pos ->
  ordered pos patches (node_end origin) ->
  fold_left (apply_patch origin) (reverse patches) (node_text source origin)
  = slice_nat source (node_start origin) pos ++ splice source pos patches (node_end origin).
Proof.
  induction patches as [|p rest IH]; intros pos Hl Hp Ho.
  { cbn [splice]. symmetry. apply slice_nat_app; [done|exact Ho]. }
  destruct Ho as (H1 & H2 & H3). pose proof (ordered_le _ _ _ H3) as Hle.
  rewrite reverse_cons, fold_left_app, (IH (node_end (patch_node p))) by (done || lia).
  cbn [fold_left splice]. rewrite apply_patch_nat by (unfold within; lia).
  set (s := node_start origin). set (a := node_start (patch_node p)) in *.
  set (b := node_end (patch_node p)) in *.
  assert (length (slice_nat source s b) = b - s) as Hlen.
  { rewrite length_slice_nat. lia. }
  rewrite take_app_le by (rewrite Hlen; lia).
  replace (b - s) with (length (slice_nat source s b)) by done. rewrite drop_app_length.
  assert (take (a - s) (slice_nat source s b) = slice_nat source s a) as ->.
  { unfold slice_nat. rewrite take_take. f_equal. lia. }
  rewrite app_assoc, app_assoc. rewrite <- (slice_nat_app source s pos a) by lia.
  by rewrite <- !app_assoc.
Qed.

(** ** Guarantees *)

(** patching replaces exactly the patched spans: for patches of disjoint,
    non-empty spans inside a node, given from left to right, the result is
    the node's text with each span replaced by its text. *)
Theorem patch_splices source origin patches :
  node_end origin <= length source ->
  ordered (node_start origin) patches (node_end origin) ->
  patchSource source origin patches
  = splice source (node_start origin) patches (node_end origin).
Proof.
  intros Hl Ho. unfold patchSource. rewrite (sort_ordered _ _ _ Ho).
  change (slice_nat source (node_start origin) (node_end origin)) with (node_text source origin).
  rewrite (fold_patches _ _ _ (node_start origin)) by done.
  unfold slice_nat at 1. by rewrite Nat.sub_diag.
Qed.

Lemma patch_splices_witness :
  let n := Binary (js "*") (Variable_ (js "p") 0 1) (Literal (LNum (lit 2)) (Some true) 4 5) 0 5 in
  let ps := [MkPatch (Variable_ (js "p") 0 1) (js "cr");
             MkPatch (Literal (LNum (lit 2)) (Some true) 4 5) (js "3.5")] in
  patchSource (js "p * 2") n ps = js "cr * 3.5".
Proof.
  intros n ps.
  assert (splice (js "p * 2") (node_start n) ps (node_end n) = js "cr * 3.5") as <-
    by (vm_compute; reflexivity).
  apply (patch_splices (js "p * 2") n ps); [vm_compute; lia|vm_compute; lia].
Defined.

Section DocumentFacts.
Context `{JSHost}.

Lemma serialize_inv cache doc s cache' :
  cache_ok cache ->
  serializeVisualBillingDocument cache doc = (SerializedOk s, cache') ->
  exists body c c', writeVisualPricing (doc_source doc) (doc_root doc) [] = (body, []) /\
    compile_uncached (doc_source doc) = Ready c /\
    s = take (node_start (compiled_ast c)) (doc_source doc) ++ body
        ++ drop (node_end (compiled_ast c)) (doc_source doc) /\
    compile_uncached s = Ready c' /\ cache_ok cache'.
Proof.
  intros Hc. unfold serializeVisualBillingDocument.
  destruct (writeVisualPricing (doc_source doc) (doc_root doc) []) as [body issues].
  destruct issues; [|done].
  pose proof (compile_cached cache (doc_source doc) Hc) as [E1 Hc1].
  destruct (compileBillingExpression cache (doc_source doc)) as [r1 cache1].
  cbn [fst snd] in E1, Hc1. destruct r1 as [c|]; [|done].
  match goal with |- context [compileBillingExpression cache1 ?t] => set (text := t) end.
  pose proof (compile_cached cache1 text Hc1) as [E2 Hc2].
  destruct (compileBillingExpression cache1 text) as [r2 cache2].
  cbn [fst snd] in E2, Hc2. destruct r2 as [c'|]; [|done]. intros [= <- <-].
  exists body, c, c'. done.
Qed.

Lemma serialize_ok cache doc body c c' :
  cache_ok cache -> writeVisualPricing (doc_source doc) (doc_root doc) [] = (body, []) ->
  compile_uncached (doc_source doc) = Ready c ->
  let s := take (node_start (compiled_ast c)) (doc_source doc) ++ body
           ++ drop (node_end (compiled_ast c)) (doc_source doc) in
  compile_uncached s = Ready c' ->
  fst (serializeVisualBillingDocument cache doc) = SerializedOk s.
Proof.
  intros Hc Hw H1 s H2. unfold serializeVisualBillingDocument. rewrite Hw.
  pose proof (compile_cached cache (doc_source doc) Hc) as [E1 Hc1].
  destruct (compileBillingExpression cache (doc_source doc)) as [r1 cache1].
  cbn [fst snd] in E1, Hc1. rewrite E1, H1. fold s.
  pose proof (compile_cached cache1 s Hc1) as [E2 _].
  destruct (compileBillingExpression cache1 s) as [r2 cache2].
  cbn [fst] in E2. by rewrite E2, H2.
Qed.
End DocumentFacts.

(** C1: the visual editor is lossless on what it accepts: a source that opens
    as a visual document, saved without edits, gives back exactly the same
    source text, white space, quoting, number spelling and
    redundant parentheses included. *)
Theorem visual_round_trip `{JSHost} cache source doc cache' :
  cache_ok cache -> parseVisualBillingDocument cache source = (Some doc, cache') ->
  fst (serializeVisualBillingDocument cache' doc) = SerializedOk source.
Proof.
  intros Hc. unfold parseVisualBillingDocument.
  pose proof (compile_cached cache source Hc) as [E1 Hc1].
  destruct (compileBillingExpression cache source) as [r1 cache1].
  cbn [fst snd] in E1, Hc1. destruct r1 as [c|]; [|done].
  destruct (readVisualPricing (compiled_ast c)) as [root|] eqn:Er; [|done].
  destruct (serializeVisualBillingDocument cache1 (MkDocument source root))
    as [[s|] cache2] eqn:Es; [|done].
  intros [= <- <-].
  apply serialize_inv in Es as (body & c0 & c' & Hw & Hco & -> & Hr & Hc2); [|done].
  cbn [doc_source doc_root] in *. rewrite <- E1 in Hco. injection Hco as <-.
  symmetry in E1. pose proof (compile_uncached_ok _ _ E1) as [Hsrc Hok].
  assert (node_end (compiled_ast c) <= length source) as Hb.
  { rewrite <- Hsrc. apply (co_bounds _ Hok). }
  pose proof (read_pricing_writes source _ _ (co_wf _ Hok) (co_typed _ Hok) Hb Er []) as Hbody.
  rewrite Hw in Hbody. cbn [fst] in Hbody.
  pose proof (wf_bounds _ (co_wf _ Hok)).
  erewrite (serialize_ok cache2 (MkDocument source root) body c c'); [|done..].
  f_equal. rewrite Hbody. unfold node_text.
  cbn [doc_source].
  rewrite <- (slice_nat_from_0 source), <- (slice_nat_to_end source).
  rewrite (slice_nat_app source (node_start (compiled_ast c))) by lia.
  rewrite slice_nat_app by lia. apply slice_nat_full.
Qed.

#[local] Existing Instance utc_host.

Definition visual_source : str :=
  js "v1: (len <= 1e3 && !(hour('UTC') < 08)) ? tier( 'a', p*2.50 + (c * 3)) : tier('b', fixed(0.10))".

Lemma visual_round_trip_witness :
  exists doc cache', parseVisualBillingDocument [] visual_source = (Some doc, cache') /\
    fst (serializeVisualBillingDocument cache' doc) = SerializedOk visual_source.
Proof.
  do 2 eexists. split; [vm_compute; reflexivity|].
  eapply (visual_round_trip [] visual_source); [apply cache_ok_empty|].
  vm_compute. reflexivity.
Defined.

(** Saving a visual document never produces a broken expression: the
    result either compiles and was written without any issue, or is a
    non-empty list of issues. *)
Theorem visual_saves_ready `{JSHost} cache doc :
  cache_ok cache ->
  match fst (serializeVisualBillingDocument cache doc) with
  | SerializedOk s =>
      (exists c, compile_uncached s = Ready c) /\
      snd (writeVisualPricing (doc_source doc) (doc_root doc) []) = []
  | SerializedIssues issues => issues <> []
  end.
Proof.
  intros Hc. destruct (serializeVisualBillingDocument cache doc) as [[s|issues] cache'] eqn:E;
    cbn [fst].
  - apply serialize_inv in E as (body & c & c' & Hw & _ & _ & Hr & _); [|done].
    split; [by exists c'|]. by rewrite Hw.
  - unfold serializeVisualBillingDocument in E.
    repeat case_match; try done; injection E as <- <-; done.
Qed.

Lemma visual_saves_ready_witness :
  let doc := MkDocument visual_source (VTier (js "x") None (js "n") [] unit_request (js "2")) in
  match fst (serializeVisualBillingDocument [] doc) with
  | SerializedOk s =>
      (exists c, compile_uncached s = Ready c) /\
      snd (writeVisualPricing (doc_source doc) (doc_root doc) []) = []
  | SerializedIssues issues => issues <> []
  end.
Proof. intros doc. apply (visual_saves_ready [] doc). apply cache_ok_empty. Defined.
