(* ===== verification/ExprCondition.v ===== *)
(** * Condition descriptions

    Models [features/pricing/lib/billing-expression/condition-display.ts]:
    turning a billing condition into localized text.  The translation
    function of i18next and the host's locale formatting are parameters.
    Interval bounds are integers: comparison values are integral numbers, and
    those beyond the exact range lie outside every domain either way. *)

From Stdlib Require Import ZArith Lia Bool SpecFloat.
From stdpp Require Import base list numbers.
From S2P Require Import Prelude JsString JsNumber JsValue JsHost.
From S2P Require Import ExprTypes ExprParser ExprCompile ExprRuntime ExprDisplay.

(** [t(key, options)] *)
Abbreviation Translate := (str -> list (str * jsval) -> str).

(** Locale formatting: [None] when the locale is rejected with a RangeError. *)
Class IntlDisplay := {
  weekday_short : str -> Z -> option str;
  number_toLocaleString : str -> num -> option str
}.

Inductive DescriptionKind : Type := kind_calendar | kind_clock | kind_combined.
#[global] Instance DescriptionKind_eq_dec : EqDecision DescriptionKind.
Proof. solve_decision. Defined.

Record Description := MkDescription {
  de_text : str;
  de_kind : DescriptionKind;
  de_timezone : str;
  de_disjunction : bool
}.

Record TimeComparison := MkComparison {
  cmp_name : str;
  cmp_timezone : str;
  cmp_operator : str;
  cmp_value : Z
}.

(** [DOMAINS]: the values of each time function, the end excluded. *)
Definition DOMAINS : list (str * (Z * Z)) :=
  [(js "hour", (0, 24)%Z); (js "minute", (0, 60)%Z); (js "weekday", (0, 7)%Z);
   (js "month", (1, 13)%Z); (js "day", (1, 32)%Z)].

Definition range_operators : list str := [js "=="; js ">="; js ">"; js "<="; js "<"].

Definition timeComparison (n : node) : option TimeComparison :=
  match n with
  | Binary op (Call name (Literal (LStr zone) _ _ _ :: _) _ _) (Literal (LNum v) _ _ _) _ _ =>
      if includes_str range_operators op && includes_str TIME_FUNCTIONS name && is_integer v then
        match num_to_Z v with
        | Some z =>
            Some (MkComparison name (match trim zone with [] => js "UTC" | t => t end) op z)
        | None => None
        end
      else None
  | _ => None
  end.

(** One step of the [switch] over the operators. *)
Definition narrow (interval : Z * Z) (c : TimeComparison) : Z * Z :=
  let '(start, stop) := interval in
  let op := cmp_operator c in
  let value := cmp_value c in
  if str_eqb op (js ">=") then (Z.max start value, stop)
  else if str_eqb op (js ">") then (Z.max start (value + 1), stop)
  else if str_eqb op (js "<") then (start, Z.min stop value)
  else if str_eqb op (js "<=") then (start, Z.min stop (value + 1))
  else if str_eqb op (js "==") then (Z.max start value, Z.min stop (value + 1))
  else (start, stop).

Definition time_interval (domain : Z * Z) (comparisons : list TimeComparison) : Z * Z :=
  fold_left narrow comparisons domain.

Definition Z_text (z : Z) : str := string_of_N (Z.to_N z).
Definition en_dash : N := 8211.
Definition range_template : str := js "{{start}}" ++ [en_dash] ++ js "{{end}}".

(** [Date.UTC(2026, 0, 4 + k)], a Sunday plus [k] days. *)
Definition sunday_plus (k : Z) : Z := (1767484800000 + k * 86400000)%Z.

Definition intl_locale (locale : str) : str :=
  if str_eqb locale (js "zhCN") then js "zh-CN" else locale.

Definition range_error {A} : R A := Throw (OtherError (js "RangeError")).

Definition from_host {A} (x : option A) : R A :=
  match x with Some a => Ok a | None => range_error end.

Section Describe.
Context `{IntlDisplay}.
Variable t : Translate.
Variable locale : str.

Definition hour_text (k : Z) : jsval := JStr (pad_start 2 48%N (Z_text k) ++ js ":00").

Definition unit_label (name : str) : str :=
  if str_eqb name (js "minute") then js "Minute"
  else if str_eqb name (js "month") then js "Month" else js "Day".

(** The text and kind of a non-empty interval. *)
Definition interval_text (name : str) (start stop : Z) : R (str * DescriptionKind) :=
  if str_eqb name (js "hour") then
    Ok (t range_template [(js "start", hour_text start); (js "end", hour_text stop)], kind_clock)
  else if str_eqb name (js "weekday") then
    let* from := from_host (weekday_short (intl_locale locale) (sunday_plus start)) in
    let* to := from_host (weekday_short (intl_locale locale) (sunday_plus (stop - 1))) in
    Ok (if (start =? stop - 1)%Z then from
        else t range_template [(js "start", JStr from); (js "end", JStr to)], kind_calendar)
  else
    let values :=
      if (start =? stop - 1)%Z then Z_text start
      else t range_template [(js "start", JNum (num_of_Z start));
                             (js "end", JNum (num_of_Z (stop - 1)))] in
    Ok (t (unit_label name) [] ++ js ": " ++ values, kind_calendar).

Definition describeTimeRange (comparisons : list TimeComparison) : R (option Description) :=
  match comparisons with
  | [] => undefined_error
  | first :: _ =>
      match assoc_str DOMAINS (cmp_name first) with
      | None => undefined_error
      | Some domain =>
          let '(start, stop) := time_interval domain comparisons in
          if (stop <=? start)%Z then Ok None
          else
            let* (text, kind) := interval_text (cmp_name first) start stop in
            Ok (Some (MkDescription text kind (cmp_timezone first) false))
      end
  end.

Definition token_label (name : str) : option str :=
  if str_eqb name (js "p") then Some (js "Input")
  else if str_eqb name (js "c") then Some (js "Output")
  else if str_eqb name (js "len") then Some (js "Full input length")
  else None.

(** [ranges.set(key, [...range, comparison])] on an insertion-ordered map. *)
Fixpoint add_range (ranges : list (str * list TimeComparison)) (key : str)
    (c : TimeComparison) : list (str * list TimeComparison) :=
  match ranges with
  | [] => [(key, [c])]
  | (k, l) :: rest => if str_eqb k key then (k, l ++ [c]) :: rest
                      else (k, l) :: add_range rest key c
  end.

Definition range_key (c : TimeComparison) : str := cmp_name c ++ js ":" ++ cmp_timezone c.

Fixpoint unique_zones (seen : list str) (parts : list Description) : list str :=
  match parts with
  | [] => seen
  | d :: rest =>
      unique_zones
        (match de_timezone d with [] => seen | z => set_add seen z end) rest
  end.

Definition is_kind (k : DescriptionKind) (d : Description) : bool :=
  bool_decide (de_kind d = k).

(** The description of a chain of [operator] from those of its parts. *)
Definition combine_parts (operator : str) (parts : list Description) : option Description :=
  let zones := unique_zones [] parts in
  match parts with
  | [] => None
  | first :: rest =>
      if 1 <? length zones then None
      else
        let timezone := default [] (head zones) in
        match rest with
        | [] => Some first
        | _ =>
            let calendars := List.filter (is_kind kind_calendar) parts in
            let clocks := List.filter (is_kind kind_clock) parts in
            let conjunction := str_eqb operator (js "&&") in
            let wrap (d : Description) :=
              if conjunction && de_disjunction d then js "(" ++ de_text d ++ js ")"
              else de_text d in
            let text :=
              fold_left
                (fun text part =>
                   t (if conjunction then js "{{first}} and {{second}}"
                      else js "{{first}} or {{second}}")
                     [(js "first", JStr text); (js "second", JStr (wrap part))])
                rest (wrap first) in
            let joined :=
              Some (MkDescription text
                      (if length clocks =? length parts then kind_clock else kind_combined)
                      timezone (str_eqb operator (js "||"))) in
            match calendars, clocks with
            | [calendar], [clock] =>
                if conjunction && (length parts =? 2) then
                  Some (MkDescription (de_text calendar ++ js " " ++ de_text clock)
                          kind_combined (de_timezone first) false)
                else joined
            | _, _ => joined
            end
        end
  end.

(** A loop that stops at the first part without a description. *)
Section Parts.
Variable describe : node -> R (option Description).

Fixpoint describe_all (nodes : list node) (parts : list Description)
  : R (option (list Description)) :=
  match nodes with
  | [] => Ok (Some parts)
  | part :: rest =>
      let* d := describe part in
      match d with
      | None => Ok None
      | Some d => describe_all rest (parts ++ [d])
      end
  end.

(** The loop of a conjunction, which collects the time comparisons. *)
Fixpoint describe_conjuncts (nodes : list node) (ranges : list (str * list TimeComparison))
    (parts : list Description)
  : R (option (list (str * list TimeComparison) * list Description)) :=
  match nodes with
  | [] => Ok (Some (ranges, parts))
  | part :: rest =>
      match timeComparison part with
      | Some c => describe_conjuncts rest (add_range ranges (range_key c) c) parts
      | None =>
          let* d := describe part in
          match d with
          | None => Ok None
          | Some d => describe_conjuncts rest ranges (parts ++ [d])
          end
      end
  end.
End Parts.

Fixpoint describe_ranges (ranges : list (str * list TimeComparison)) (parts : list Description)
  : R (option (list Description)) :=
  match ranges with
  | [] => Ok (Some parts)
  | (_, range) :: rest =>
      let* d := describeTimeRange range in
      match d with
      | None => Ok None
      | Some d => describe_ranges rest (parts ++ [d])
      end
  end.

Definition negated (d : Description) : Description :=
  MkDescription
    (t (js "Outside these times: {{condition}}") [(js "condition", JStr (de_text d))])
    kind_combined (de_timezone d) (de_disjunction d).

(** A comparison of a token count with a number. *)
Definition token_comparison (n : node) : option (str * str * num) :=
  match n with
  | Binary op (Variable_ x _ _) (Literal (LNum v) _ _ _) _ _ =>
      if includes_str comparison_operators op then Some (op, x, v) else None
  | _ => None
  end.

Definition describe_token (op x : str) (v : num) : R (option Description) :=
  match token_label x with
  | None => Ok None
  | Some label =>
      let* number := from_host (number_toLocaleString (intl_locale locale) v) in
      Ok (Some (MkDescription (t label [] ++ js " " ++ op ++ js " " ++ number)
                  kind_combined [] false))
  end.

Fixpoint describeBillingCondition (fuel : nat) (n : node) : R (option Description) :=
  match fuel with
  | O => OutOfFuel
  | S fuel' =>
      let rest :=
        match token_comparison n with
        | Some (op, x, v) => describe_token op x v
        | None =>
            match timeComparison n with
            | Some single => describeTimeRange [single]
            | None =>
                match n with
                | Binary op _ _ _ _ =>
                    if str_eqb op (js "&&") then
                      let* conjuncts :=
                        describe_conjuncts (describeBillingCondition fuel')
                          (flattenBinary n op) [] [] in
                      match conjuncts with
                      | None => Ok None
                      | Some (ranges, parts) =>
                          let* parts := describe_ranges ranges parts in
                          Ok (match parts with
                              | None => None
                              | Some parts => combine_parts op parts
                              end)
                      end
                    else if str_eqb op (js "||") then
                      let* parts :=
                        describe_all (describeBillingCondition fuel') (flattenBinary n op) [] in
                      Ok (match parts with
                          | None => None
                          | Some parts => combine_parts op parts
                          end)
                    else Ok None
                | _ => Ok None
                end
            end
        end in
      match n with
      | Unary op operand _ _ =>
          if str_eqb op (js "!") then
            let* d := describeBillingCondition fuel' operand in
            Ok (option_map negated d)
          else rest
      | _ => rest
      end
  end.
End Describe.

(** [options] with the interpolation option [formatBillingCondition] adds. *)
Definition unescaped (t : Translate) : Translate := fun key options =>
  t key (options ++ [(js "interpolation", JObj [(js "escapeValue", JBool false)])]).

Definition formatBillingCondition `{IntlDisplay} (cache : compiled_cache) (source : str)
    (t : Translate) (locale : str) : option str * compiled_cache :=
  let '(compiled, cache) := compileBillingExpression cache source in
  match compiled with
  | Failed _ => (None, cache)
  | Ready c =>
      let translate := unescaped t in
      (match describeBillingCondition translate locale (node_size (compiled_ast c))
               (compiled_ast c) with
       | Ok (Some d) =>
           match de_timezone d with
           | [] => Some (de_text d)
           | zone =>
               Some (translate (js "{{condition}} ({{timezone}})")
                       [(js "condition", JStr (de_text d)); (js "timezone", JStr zone)])
           end
       | _ => None
       end, cache)
  end.
