(* ===== verification/ExprConditionFacts.v ===== *)
(** * Descriptions are exact

    The interval a description shows holds exactly the values of the time
    function that satisfy the comparisons, and describing terminates. *)

From Stdlib Require Import ZArith Lia Bool SpecFloat.
From stdpp Require Import base list numbers.
From S2P Require Import Prelude JsString JsNumber JsValue JsHost.
From S2P Require Import ExprTypes ExprParser ExprParserFacts ExprCompile ExprCompileFacts.
From S2P Require Import ExprRuntime ExprDisplay ExprVisualFacts ExprCondition.

Local Open Scope Z_scope.

(** ** Intervals *)

(** Whether a value of the time function satisfies a comparison. *)
Definition satisfies (v : Z) (c : TimeComparison) : bool :=
  let op := cmp_operator c in
  if str_eqb op (js ">=") then cmp_value c <=? v
  else if str_eqb op (js ">") then cmp_value c <? v
  else if str_eqb op (js "<") then v <? cmp_value c
  else if str_eqb op (js "<=") then v <=? cmp_value c
  else v =? cmp_value c.

Definition range_comparison (c : TimeComparison) : Prop := cmp_operator c ∈ range_operators.

Definition in_interval (v : Z) (i : Z * Z) : Prop := fst i <= v < snd i.

Lemma narrow_spec i c v :
  range_comparison c -> (in_interval v (narrow i c) <-> in_interval v i /\ satisfies v c = true).
Proof.
  destruct i as [lo hi]. destruct c as [name zone op value].
  unfold range_comparison, range_operators, narrow, satisfies, in_interval.
  cbn [cmp_operator cmp_value]. intros Hop.
  repeat (apply elem_of_cons in Hop as [->|Hop]; [str_compute; cbn [fst snd]; lia|]).
  by apply not_elem_of_nil in Hop.
Qed.

Lemma time_interval_spec cs : forall domain v,
  Forall range_comparison cs ->
  (in_interval v (time_interval domain cs) <->
   in_interval v domain /\ forallb (satisfies v) cs = true).
Proof.
  induction cs as [|c cs IH]; intros domain v Hc.
  { simpl. tauto. }
  inversion Hc as [|? ? H1 H2]; subst. change (time_interval domain (c :: cs))
    with (time_interval (narrow domain c) cs).
  rewrite IH, narrow_spec by done. cbn [forallb]. rewrite andb_true_iff. tauto.
Qed.

(** The bounds of an interval stay inside the domain when it is not empty. *)
Lemma narrow_bounds i c : fst i <= fst (narrow i c) /\ snd (narrow i c) <= snd i.
Proof.
  destruct i as [lo hi]. unfold narrow. repeat case_match; simpl; lia.
Qed.

Lemma time_interval_bounds cs : forall i,
  fst i <= fst (time_interval i cs) /\ snd (time_interval i cs) <= snd i.
Proof.
  induction cs as [|c cs IH]; intros i; [simpl; lia|].
  change (time_interval i (c :: cs)) with (time_interval (narrow i c) cs).
  pose proof (narrow_bounds i c). specialize (IH (narrow i c)). lia.
Qed.

(** ** Termination *)

Section Fuel.
Context `{IntlDisplay}.
Variable t : Translate.
Variable locale : str.

Lemma range_fuel cs : describeTimeRange t locale cs <> OutOfFuel.
Proof.
  unfold describeTimeRange. destruct cs as [|c cs]; [done|].
  destruct (assoc_str DOMAINS (cmp_name c)) as [domain|]; [|done].
  destruct (time_interval domain (c :: cs)) as [start stop]. destruct (stop <=? start); [done|].
  apply bind_fuel; [|by intros [text kind]]. unfold interval_text, from_host, range_error.
  repeat case_match; try done. all: destruct (weekday_short _ _); try done.
  all: by destruct (weekday_short _ _).
Qed.

Lemma describe_all_fuel f nodes : forall parts,
  (forall m, m ∈ nodes -> f m <> OutOfFuel) -> describe_all f nodes parts <> OutOfFuel.
Proof.
  induction nodes as [|m nodes IH]; intros parts Hf; cbn [describe_all]; [done|].
  apply bind_fuel; [apply Hf; by left|]. intros [d|] _; [|done].
  apply IH. intros k Hk. apply Hf. by right.
Qed.

Lemma describe_conjuncts_fuel f nodes : forall ranges parts,
  (forall m, m ∈ nodes -> f m <> OutOfFuel) ->
  describe_conjuncts f nodes ranges parts <> OutOfFuel.
Proof.
  induction nodes as [|m nodes IH]; intros ranges parts Hf; cbn [describe_conjuncts]; [done|].
  assert (forall k, k ∈ nodes -> f k <> OutOfFuel) as Hrest.
  { intros k Hk. apply Hf. by right. }
  destruct (timeComparison m); [by apply IH|].
  apply bind_fuel; [apply Hf; by left|]. intros [d|] _; [|done]. by apply IH.
Qed.

Lemma describe_ranges_fuel ranges : forall parts,
  describe_ranges t locale ranges parts <> OutOfFuel.
Proof.
  induction ranges as [|[k r] ranges IH]; intros parts; cbn [describe_ranges]; [done|].
  apply bind_fuel; [apply range_fuel|]. intros [d|] _; [apply IH|done].
Qed.

Lemma describe_fuel fuel : forall n,
  (node_size n <= fuel)%nat -> describeBillingCondition t locale fuel n <> OutOfFuel.
Proof.
  induction fuel as [|fuel IH]; intros n Hn.
  { rewrite node_size_children in Hn. lia. }
  assert (forall op l r s e m, n = Binary op l r s e -> m ∈ flattenBinary n op ->
            describeBillingCondition t locale fuel m <> OutOfFuel) as Hsub.
  { intros op l r s e m -> Hm. apply IH. apply flatten_size_strict in Hm. lia. }
  cbn [describeBillingCondition].
  set (rest := match token_comparison n with
               | Some (op, x, v) => describe_token t locale op x v | None => _ end).
  assert (rest <> OutOfFuel) as Hrest.
  { unfold rest. destruct (token_comparison n) as [[[op x] v]|].
    { unfold describe_token, from_host. destruct (token_label x); [|done].
      by destruct (number_toLocaleString _ _). }
    destruct (timeComparison n); [apply range_fuel|].
    destruct n as [ | | | |op l r s e| ]; try done.
    destruct (str_eqb op (js "&&")).
    { apply bind_fuel; [apply describe_conjuncts_fuel; intros m Hm; by eapply Hsub|].
      intros [[ranges parts]|] _; [|done].
      apply bind_fuel; [apply describe_ranges_fuel|done]. }
    destruct (str_eqb op (js "||")); [|done].
    apply bind_fuel; [apply describe_all_fuel; intros m Hm; by eapply Hsub|done]. }
  destruct n as [ | | |op a s e| | ]; try exact Hrest.
  destruct (str_eqb op (js "!")); [|exact Hrest].
  apply bind_fuel; [|done]. apply IH. cbn [node_size] in Hn. lia.
Qed.
End Fuel.

(** ** Guarantees *)

(** A described time range is exact: for comparisons of one time function,
    the description is absent exactly when no value of the function's domain
    satisfies them all, and otherwise shows an interval of the domain that
    contains exactly the values that do. *)
Theorem described_range_exact `{IntlDisplay} t locale c cs domain :
  Forall range_comparison (c :: cs) -> assoc_str DOMAINS (cmp_name c) = Some domain ->
  match describeTimeRange t locale (c :: cs) with
  | Ok None =>
      forall v, in_interval v domain -> forallb (satisfies v) (c :: cs) = false
  | Ok (Some d) =>
      exists start stop, fst domain <= start < stop /\ stop <= snd domain /\
        interval_text t locale (cmp_name c) start stop = Ok (de_text d, de_kind d) /\
        de_timezone d = cmp_timezone c /\
        forall v, in_interval v domain ->
          (start <= v < stop <-> forallb (satisfies v) (c :: cs) = true)
  | Throw _ => True
  | OutOfFuel => False
  end.
Proof.
  intros Hc Hd. pose proof (range_fuel t locale (c :: cs)) as Hfuel.
  pose proof (time_interval_bounds (c :: cs) domain) as Hb.
  pose proof (fun v => time_interval_spec (c :: cs) domain v Hc) as Hs.
  unfold describeTimeRange in *. rewrite Hd in *.
  destruct (time_interval domain (c :: cs)) as [start stop]. cbn [fst snd] in Hb.
  unfold in_interval at 1 in Hs. cbn [fst snd] in Hs.
  destruct (Z.leb_spec stop start) as [He|He].
  - intros v Hv. destruct (forallb (satisfies v) (c :: cs)) eqn:E; [|done].
    pose proof (proj2 (Hs v) (conj Hv E)). lia.
  - destruct (interval_text t locale (cmp_name c) start stop) as [[text kind]|e|] eqn:Ei;
      cbn [obind] in *; [|done..].
    exists start, stop. split; [lia|]. split; [lia|]. split; [done|]. split; [done|].
    intros v Hv. rewrite Hs. tauto.
Qed.

#[local] Instance sample_intl : IntlDisplay :=
  {| weekday_short := fun _ _ => Some (js "day");
     number_toLocaleString := fun _ x => Some (string_of_num x) |}.

Lemma described_range_exact_witness :
  let c := MkComparison (js "hour") (js "UTC") (js ">=") 8 in
  let cs := [MkComparison (js "hour") (js "UTC") (js "<") 20] in
  match describeTimeRange (fun key _ => key) (js "en") (c :: cs) with
  | Ok None => forall v, in_interval v (0, 24) -> forallb (satisfies v) (c :: cs) = false
  | Ok (Some d) =>
      exists start stop, fst (0, 24) <= start < stop /\ stop <= snd (0, 24) /\
        interval_text (fun key _ => key) (js "en") (cmp_name c) start stop
          = Ok (de_text d, de_kind d) /\
        de_timezone d = cmp_timezone c /\
        forall v, in_interval v (0, 24) ->
          (start <= v < stop <-> forallb (satisfies v) (c :: cs) = true)
  | Throw _ => True
  | OutOfFuel => False
  end.
Proof.
  intros c cs. apply described_range_exact; [|vm_compute; reflexivity].
  unfold range_comparison. vm_decide.
Defined.

(** describing a condition terminates: the size of the AST is enough fuel,
    so the formatter's answer never stems from an exhausted recursion. *)
Theorem describe_terminates `{IntlDisplay} t locale n :
  describeBillingCondition t locale (node_size n) n <> OutOfFuel.
Proof. by apply describe_fuel. Qed.
