(* ===== verification/StatusRules.v ===== *)
(** * HTTP status code rules

    Models [lib/http-status-code-rules.ts]: the rules an administrator types
    to say which upstream status codes disable or retry a channel.  Codes are
    integers; [Number.parseInt] of a digit string is its value, and a value
    too large to be exact is out of range either way. *)

From Stdlib Require Import ZArith Lia Bool.
From stdpp Require Import base list numbers.
From S2P Require Import Prelude JsString.

Local Open Scope Z_scope.

Record StatusCodeRange := Range { range_start : Z; range_end : Z }.

#[global] Instance StatusCodeRange_eq_dec : EqDecision StatusCodeRange.
Proof. solve_decision. Defined.

Record ParsedHttpStatusCodeRules := Parsed {
  parsed_ok : bool;
  parsed_ranges : list StatusCodeRange;
  parsed_tokens : list str;
  parsed_normalized : str;
  parsed_invalidTokens : list str
}.

(** [/^\d+$/.test(s)]; a missing part is not a string. *)
Definition isNumber (s : option str) : bool :=
  match s with
  | None | Some [] => false
  | Some s => forallb is_digit s
  end.

Definition parseInt (s : str) : Z := Z.of_N (digits_value 0 s).

Definition isValidCode (code : Z) : bool := (100 <=? code) && (code <=? 599).

(** [const [a, b] = cleaned.split('-')] takes the first two parts. *)
Definition parseToken (token : str) : option StatusCodeRange :=
  let cleaned := List.filter (fun c => negb (is_space c)) (trim token) in
  match cleaned with
  | [] => None
  | _ =>
      if bool_decide (45%N ∈ cleaned) then
        let parts := split_char 45 cleaned in
        match parts !! 0%nat, parts !! 1%nat with
        | Some a, Some b =>
            if isNumber (Some a) && isNumber (Some b) then
              let start := parseInt a in
              let stop := parseInt b in
              if negb (isValidCode start) || negb (isValidCode stop) || (stop <? start)
              then None else Some (Range start stop)
            else None
        | _, _ => None
        end
      else if negb (isNumber (Some cleaned)) then None
      else
        let code := parseInt cleaned in
        if negb (isValidCode code) then None else Some (Range code code)
  end.

(** [sort] by start, then end. *)
Definition range_before (a b : StatusCodeRange) : bool :=
  if range_start a =? range_start b then range_end a <? range_end b
  else range_start a <? range_start b.

Fixpoint insert_range (r : StatusCodeRange) (l : list StatusCodeRange) : list StatusCodeRange :=
  match l with
  | [] => [r]
  | x :: l' => if range_before x r then x :: insert_range r l' else r :: l
  end.
Fixpoint sort_ranges (l : list StatusCodeRange) : list StatusCodeRange :=
  match l with [] => [] | r :: l' => insert_range r (sort_ranges l') end.

(** The [reduce] step; [merged] is kept with its last element first. *)
Definition merge_step (merged : list StatusCodeRange) (current : StatusCodeRange)
  : list StatusCodeRange :=
  match merged with
  | [] => [current]
  | last :: rest =>
      if range_end last + 1 <? range_start current then current :: merged
      else Range (range_start last) (Z.max (range_end last) (range_end current)) :: rest
  end.

Definition mergeRanges (ranges : list StatusCodeRange) : list StatusCodeRange :=
  reverse (fold_left merge_step (sort_ranges ranges) []).

Definition code_text (z : Z) : str := string_of_N (Z.to_N z).

Definition range_text (r : StatusCodeRange) : str :=
  if range_start r =? range_end r then code_text (range_start r)
  else code_text (range_start r) ++ js "-" ++ code_text (range_end r).

(** The loop over the segments: ranges and invalid tokens, in order. *)
Fixpoint parse_segments (segments : list str) : list StatusCodeRange * list str :=
  match segments with
  | [] => ([], [])
  | s :: rest =>
      let '(ranges, invalid) := parse_segments rest in
      match parseToken s with
      | None => (ranges, s :: invalid)
      | Some r => (r :: ranges, invalid)
      end
  end.

Definition fullwidth_comma : N := 65292.

Definition rule_segments (raw : str) : list str :=
  let sanitized := map (fun c => if (c =? fullwidth_comma)%N then 44%N else c) raw in
  List.filter (fun s => match s with [] => false | _ => true end)
    (map trim (split_char 44 sanitized)).

(** [None] is a null or undefined input. *)
Definition parseHttpStatusCodeRules (input : option str) : ParsedHttpStatusCodeRules :=
  let raw := trim (default [] input) in
  match raw with
  | [] => Parsed true [] [] [] []
  | _ =>
      let '(ranges, invalidTokens) := parse_segments (rule_segments raw) in
      match invalidTokens with
      | _ :: _ => Parsed false [] [] raw invalidTokens
      | [] =>
          let merged := mergeRanges ranges in
          let tokens := map range_text merged in
          Parsed true merged tokens (join (js ",") tokens) []
      end
  end.

(** ** Facts *)

Definition covers (l : list StatusCodeRange) (code : Z) : Prop :=
  exists r, r ∈ l /\ range_start r <= code <= range_end r.

Definition valid_range (r : StatusCodeRange) : Prop :=
  100 <= range_start r /\ range_start r <= range_end r /\ range_end r <= 599.

(** Ranges in increasing order that neither overlap nor touch. *)
Fixpoint separated (l : list StatusCodeRange) : Prop :=
  match l with
  | [] => True
  | r :: l' =>
      match l' with
      | [] => True
      | q :: _ => range_end r + 1 < range_start q
      end /\ separated l'
  end.

Fixpoint starts_from (lo : Z) (l : list StatusCodeRange) : Prop :=
  match l with
  | [] => True
  | r :: l' => lo <= range_start r /\ starts_from (range_start r) l'
  end.

(** The accumulator of the merge, last range first. *)
Fixpoint separated_desc (l : list StatusCodeRange) : Prop :=
  match l with
  | [] => True
  | r :: l' =>
      match l' with
      | [] => True
      | q :: _ => range_end q + 1 < range_start r
      end /\ separated_desc l'
  end.

Lemma covers_cons r l c :
  covers (r :: l) c <-> range_start r <= c <= range_end r \/ covers l c.
Proof.
  unfold covers. setoid_rewrite elem_of_cons. naive_solver.
Qed.

Lemma covers_nil c : covers [] c <-> False.
Proof. unfold covers. split; [|done]. intros (r & Hr & _). by apply not_elem_of_nil in Hr. Qed.

Lemma insert_covers r l c :
  covers (insert_range r l) c <-> range_start r <= c <= range_end r \/ covers l c.
Proof.
  induction l as [|x l IH]; cbn [insert_range]; [by rewrite covers_cons|].
  destruct (range_before x r); rewrite !covers_cons; [rewrite IH; tauto|tauto].
Qed.

Lemma sort_covers l c : covers (sort_ranges l) c <-> covers l c.
Proof.
  induction l as [|r l IH]; [done|]. cbn [sort_ranges].
  rewrite insert_covers, covers_cons, IH. done.
Qed.

Lemma insert_Forall (P : StatusCodeRange -> Prop) r l :
  P r -> Forall P l -> Forall P (insert_range r l).
Proof.
  intros Hr. induction 1 as [|x l Hx Hl IH]; cbn [insert_range]; [by repeat constructor|].
  destruct (range_before x r); repeat constructor; auto.
Qed.

Lemma sort_Forall (P : StatusCodeRange -> Prop) l : Forall P l -> Forall P (sort_ranges l).
Proof. induction 1; cbn [sort_ranges]; [constructor|]. by apply insert_Forall. Qed.

Lemma starts_from_le lo lo' l : lo' <= lo -> starts_from lo l -> starts_from lo' l.
Proof. destruct l; simpl; [done|]. intros ? [? ?]. split; [lia|done]. Qed.

Lemma insert_starts r l lo :
  lo <= range_start r -> starts_from lo l -> starts_from lo (insert_range r l).
Proof.
  revert lo. induction l as [|x l IH]; intros lo Hr Hl; cbn [insert_range]; [done|].
  simpl in Hl. destruct Hl as [H1 H2]. unfold range_before.
  destruct (Z.eqb_spec (range_start x) (range_start r)) as [E|E].
  - destruct (range_end x <? range_end r); simpl.
    + split; [done|]. apply IH; [lia|done].
    + split; [done|]. split; [lia|done].
  - destruct (Z.ltb_spec (range_start x) (range_start r)); simpl.
    + split; [done|]. apply IH; [lia|done].
    + split; [done|]. split; [lia|done].
Qed.

Lemma sort_starts l :
  Forall valid_range l -> starts_from 100 (sort_ranges l).
Proof.
  induction 1 as [|r l Hr Hl IH]; [done|]. cbn [sort_ranges].
  apply insert_starts; [apply Hr|done].
Qed.

(** The state of the merge before the ranges of [l]. *)
Record merge_inv (acc : list StatusCodeRange) (l : list StatusCodeRange) : Prop := MergeInv {
  mi_valid : Forall valid_range acc;
  mi_sep : separated_desc acc;
  mi_next : match acc with [] => True | last :: _ => starts_from (range_start last) l end
}.

Lemma merge_step_inv acc r l :
  merge_inv acc (r :: l) -> valid_range r -> starts_from (range_start r) l ->
  merge_inv (merge_step acc r) l /\
  forall c, covers (merge_step acc r) c <-> covers acc c \/ range_start r <= c <= range_end r.
Proof.
  intros [Hv Hs Hn] Hr Hl. destruct acc as [|last rest]; cbn [merge_step].
  { split; [constructor; [by constructor; [|constructor]|done|done]|].
    intros c. rewrite covers_cons, covers_nil. tauto. }
  inversion Hv as [|? ? Hlast Hrest]; subst. destruct Hn as [Hn _].
  destruct (Z.ltb_spec (range_end last + 1) (range_start r)) as [Hgap|Hgap].
  - split; [constructor; [by constructor|by split|done]|].
    intros c. rewrite (covers_cons r). tauto.
  - unfold valid_range in Hr, Hlast. split.
    + constructor; [constructor; [unfold valid_range; simpl; lia|done]| |simpl].
      * destruct rest as [|q rest']; simpl in *; [done|]. exact Hs.
      * eapply starts_from_le; [|exact Hl]. simpl. lia.
    + intros c. rewrite !covers_cons. cbn [range_start range_end]. intuition lia.
Qed.

Lemma merge_fold l : forall acc,
  merge_inv acc l -> Forall valid_range l ->
  (match l with [] => True | r :: _ => starts_from (range_start r) l end) ->
  merge_inv (fold_left merge_step l acc) [] /\
  forall c, covers (fold_left merge_step l acc) c <-> covers acc c \/ covers l c.
Proof.
  induction l as [|r l IH]; intros acc Hi Hv Hs.
  - split; [done|]. intros c. rewrite covers_nil. tauto.
  - inversion Hv as [|? ? Hr Hl]; subst. destruct Hs as [_ Hs].
    destruct (merge_step_inv _ _ _ Hi Hr Hs) as [Hi' Hc]. cbn [fold_left].
    assert (match l with [] => True | q :: _ => starts_from (range_start q) l end) as Hs'.
    { destruct l; [done|]. destruct Hs as [? ?]. split; [lia|done]. }
    destruct (IH _ Hi' Hl Hs') as [Hf Hcov]. split; [done|].
    intros c. rewrite Hcov, Hc, (covers_cons r). tauto.
Qed.

Lemma separated_snoc l r :
  separated l ->
  match reverse l with [] => True | q :: _ => range_end q + 1 < range_start r end ->
  separated (l ++ [r]).
Proof.
  induction l as [|a l IH]; intros Hs Hr; [done|].
  destruct Hs as [Ha Hs]. cbn [app separated].
  rewrite reverse_cons in Hr. destruct l as [|b l].
  - simpl in *. split; [|done]. exact Hr.
  - split; [exact Ha|]. apply IH; [done|].
    rewrite reverse_cons in Hr |- *. by destruct (reverse l).
Qed.

Lemma separated_reverse acc : separated_desc acc -> separated (reverse acc).
Proof.
  induction acc as [|r acc IH]; intros Hs; [done|]. destruct Hs as [Hr Hs].
  rewrite reverse_cons. apply separated_snoc; [by apply IH|].
  rewrite reverse_involutive. by destruct acc.
Qed.

Lemma covers_reverse l c : covers (reverse l) c <-> covers l c.
Proof. unfold covers. by setoid_rewrite elem_of_reverse. Qed.

Lemma mergeRanges_spec l :
  Forall valid_range l ->
  Forall valid_range (mergeRanges l) /\ separated (mergeRanges l) /\
  forall c, covers (mergeRanges l) c <-> covers l c.
Proof.
  intros Hv. unfold mergeRanges.
  destruct (merge_fold (sort_ranges l) []) as [[Hv' Hs _] Hc].
  - by constructor.
  - by apply sort_Forall.
  - pose proof (sort_starts l Hv) as Hs. destruct (sort_ranges l); [done|].
    destruct Hs as [? ?]. split; [lia|done].
  - split; [by apply Forall_reverse|]. split; [by apply separated_reverse|].
    intros c. rewrite covers_reverse, Hc, sort_covers, covers_nil. tauto.
Qed.

Lemma parseToken_valid token r : parseToken token = Some r -> valid_range r.
Proof.
  unfold parseToken, valid_range, isValidCode. intros H.
  repeat case_match; try done; injection H as <-; split_andb; simpl; lia.
Qed.

Lemma parse_segments_spec segments ranges :
  parse_segments segments = (ranges, []) ->
  Forall2 (fun s r => parseToken s = Some r) segments ranges.
Proof.
  revert ranges. induction segments as [|s segments IH]; intros ranges H; simpl in H.
  { injection H as <-. constructor. }
  destruct (parse_segments segments) as [rs invalid]. destruct (parseToken s) as [r|] eqn:E.
  - injection H as <- ->. constructor; [done|]. by apply IH.
  - by injection H.
Qed.

Lemma parse_segments_valid segments ranges :
  parse_segments segments = (ranges, []) -> Forall valid_range ranges.
Proof.
  intros H. apply parse_segments_spec in H.
  induction H as [|s r segments ranges Hr _ IH]; constructor; [|done].
  by eapply parseToken_valid.
Qed.

(** *** Printed ranges read back *)

Definition rule_unit (c : N) : bool := is_digit c || (c =? 45)%N.

Lemma rule_unit_facts c :
  rule_unit c = true ->
  is_space c = false /\ (c =? 44)%N = false /\ (c =? fullwidth_comma)%N = false.
Proof.
  unfold rule_unit, is_digit, is_space, in_range, fullwidth_comma. intros H.
  assert ((48 <= c <= 57 \/ c = 45)%N) as Hc.
  { apply orb_true_iff in H as [H|H]; [left|right; by apply N.eqb_eq].
    apply andb_true_iff in H as [H1%N.leb_le H2%N.leb_le]. done. }
  destruct Hc as [Hc| ->]; [|done]. split_and!; [|apply N.eqb_neq; lia..].
  repeat match goal with
  | |- _ || _ = false => apply orb_false_iff; split
  | |- _ && _ = false => apply andb_false_iff
  | |- (_ =? _)%N = false => apply N.eqb_neq; lia
  | |- (_ <=? _)%N = false \/ _ => first [left; apply N.leb_gt; lia | right; apply N.leb_gt; lia]
  end.
Qed.

Lemma code_units z : forallb rule_unit (code_text z) = true.
Proof.
  unfold code_text. pose proof (string_of_N_digits (Z.to_N z)) as H.
  rewrite forallb_forall in H |- *. intros c Hc. unfold rule_unit. by rewrite (H c Hc).
Qed.

Lemma range_text_units r : forallb rule_unit (range_text r) = true.
Proof.
  unfold range_text. destruct (_ =? _); [apply code_units|].
  rewrite !forallb_app, !code_units. done.
Qed.

Lemma no_space_trim s : forallb (fun c => negb (is_space c)) s = true -> trim s = s.
Proof.
  intros H. unfold trim, trim_start, trim_end.
  assert (forall t, forallb (fun c => negb (is_space c)) t = true ->
            drop_while is_space t = t) as Hd.
  { intros [|c t] Ht; [done|]. apply drop_while_id. simpl in Ht.
    apply andb_true_iff in Ht as [Ht _]. by apply negb_true_iff in Ht. }
  rewrite (Hd s) by done. rewrite Hd by (by rewrite forallb_reverse). apply reverse_involutive.
Qed.

Lemma filter_all {A} (p : A -> bool) l : forallb p l = true -> List.filter p l = l.
Proof.
  induction l as [|x l IH]; simpl; [done|]. intros H. apply andb_true_iff in H as [-> H].
  by rewrite IH.
Qed.

Lemma units_no_space s : forallb rule_unit s = true ->
  forallb (fun c => negb (is_space c)) s = true.
Proof.
  rewrite !forallb_forall. intros H c Hc. by destruct (rule_unit_facts c (H c Hc)) as [-> _].
Qed.

Lemma isNumber_code z : isNumber (Some (code_text z)) = true.
Proof.
  unfold isNumber, code_text. pose proof (string_of_N_nonempty (Z.to_N z)) as Hne.
  pose proof (string_of_N_digits (Z.to_N z)) as Hd. by destruct (string_of_N (Z.to_N z)).
Qed.

Lemma parseInt_code z : 0 <= z -> parseInt (code_text z) = z.
Proof. intros H. unfold parseInt, code_text. rewrite digits_value_string_of_N. lia. Qed.

Lemma code_no_dash z :
  forallb (fun c => negb (c =? 45)%N) (code_text z) = true.
Proof.
  unfold code_text. pose proof (string_of_N_digits (Z.to_N z)) as H.
  rewrite forallb_forall in H |- *. intros c Hc. specialize (H c Hc).
  unfold is_digit, in_range in H. apply andb_true_iff in H as [H1%N.leb_le _].
  apply negb_true_iff, N.eqb_neq. lia.
Qed.

Lemma dash_not_in s : forallb (fun c => negb (c =? 45)%N) s = true -> 45%N ∉ s.
Proof.
  intros H Hin. rewrite forallb_forall in H. apply list_elem_of_In in Hin.
  by specialize (H _ Hin).
Qed.

Lemma parseToken_text r : valid_range r -> parseToken (range_text r) = Some r.
Proof.
  intros (H1 & H2 & H3). unfold parseToken.
  pose proof (units_no_space _ (range_text_units r)) as Hns.
  rewrite no_space_trim, filter_all by done.
  assert (range_text r <> []) as Hne.
  { unfold range_text, code_text. destruct (_ =? _); [apply string_of_N_nonempty|].
    intros E. apply app_eq_nil in E as [E _]. by apply string_of_N_nonempty in E. }
  destruct (range_text r) as [|c t] eqn:E; [done|]. rewrite <- E. clear Hne.
  unfold range_text. destruct (Z.eqb_spec (range_start r) (range_end r)) as [Heq|Hneq].
  - rewrite bool_decide_eq_false_2 by (apply dash_not_in, code_no_dash).
    rewrite isNumber_code, parseInt_code by lia. unfold isValidCode. cbn [negb].
    destruct r as [a b]. simpl in *. subst b.
    destruct (Z.leb_spec 100 a); [|lia]. by destruct (Z.leb_spec a 599); [|lia].
  - rewrite bool_decide_eq_true_2.
    2: { apply elem_of_app. right. apply elem_of_app. left. by left. }
    change (code_text (range_start r) ++ js "-" ++ code_text (range_end r))
      with (join [45%N] [code_text (range_start r); code_text (range_end r)]).
    rewrite split_join; [|done|by repeat constructor; apply code_no_dash].
    cbn [lookup list_lookup]. rewrite !isNumber_code, !parseInt_code by lia.
    unfold isValidCode. destruct r as [a b]. simpl in *.
    destruct (Z.leb_spec 100 a), (Z.leb_spec a 599), (Z.leb_spec 100 b), (Z.leb_spec b 599),
      (Z.ltb_spec b a); try lia. done.
Qed.

Lemma parse_segments_texts l :
  Forall valid_range l -> parse_segments (map range_text l) = (l, []).
Proof.
  induction 1 as [|r l Hr _ IH]; [done|]. cbn [map parse_segments].
  by rewrite IH, parseToken_text.
Qed.

(** *** Merging a normal form changes nothing *)

Lemma insert_first r l : starts_from (range_start r + 1) l -> insert_range r l = r :: l.
Proof.
  destruct l as [|x l]; cbn [insert_range]; [done|]. intros [H _]. unfold range_before.
  destruct (Z.eqb_spec (range_start x) (range_start r)); [lia|].
  by destruct (Z.ltb_spec (range_start x) (range_start r)); [lia|].
Qed.

Lemma separated_starts r l :
  Forall valid_range (r :: l) -> separated (r :: l) -> starts_from (range_end r + 2) l.
Proof.
  revert r. induction l as [|q l IH]; intros r Hv Hs; [done|].
  inversion Hv as [|? ? Hr Hv']; subst. inversion Hv' as [|? ? Hq Hl]; subst.
  destruct Hs as [Hs1 Hs2]. split; [lia|].
  eapply starts_from_le; [|by apply IH]. unfold valid_range in Hq. lia.
Qed.

Lemma sort_separated l : Forall valid_range l -> separated l -> sort_ranges l = l.
Proof.
  induction l as [|r l IH]; intros Hv Hs; [done|]. cbn [sort_ranges].
  inversion Hv as [|? ? Hr Hv']; subst. pose proof (separated_starts _ _ Hv Hs) as Hst.
  destruct Hs as [_ Hs]. rewrite IH by done. apply insert_first.
  eapply starts_from_le; [|exact Hst]. unfold valid_range in Hr. lia.
Qed.

Lemma merge_separated l : forall acc,
  match acc with [] => True | last :: _ => separated (last :: l) end -> separated l ->
  fold_left merge_step l acc = reverse l ++ acc.
Proof.
  induction l as [|r l IH]; intros acc Ha Hs; [done|]. cbn [fold_left].
  assert (merge_step acc r = r :: acc) as ->.
  { destruct acc as [|last acc]; [done|]. cbn [merge_step]. destruct Ha as [Ha _].
    by destruct (Z.ltb_spec (range_end last + 1) (range_start r)); [|lia]. }
  rewrite IH; [|exact Hs|by destruct Hs]. by rewrite reverse_cons, <- app_assoc.
Qed.

Lemma mergeRanges_normal l : Forall valid_range l -> separated l -> mergeRanges l = l.
Proof.
  intros Hv Hs. unfold mergeRanges. rewrite sort_separated, merge_separated by done.
  by rewrite app_nil_r, reverse_involutive.
Qed.

Lemma rule_segments_texts l :
  l <> [] -> rule_segments (join (js ",") (map range_text l)) = map range_text l.
Proof.
  intros Hl. unfold rule_segments.
  assert (Forall (fun t => forallb rule_unit t = true /\ t <> []) (map range_text l)) as Hu.
  { apply Forall_map, Forall_true. intros r. split; [apply range_text_units|].
    unfold range_text, code_text. destruct (_ =? _); [apply string_of_N_nonempty|].
    intros E. apply app_eq_nil in E as [E _]. by apply string_of_N_nonempty in E. }
  assert (map range_text l <> []) as Hne by (by destruct l).
  revert Hu Hne. generalize (map range_text l) as ts. clear l Hl. intros ts Hu Hne.
  assert (forall s, forallb (fun c => rule_unit c || (c =? 44)%N) s = true ->
    map (fun c => if (c =? fullwidth_comma)%N then 44%N else c) s = s) as Hmap.
  { intros s Hs. rewrite forallb_forall in Hs. rewrite <- (map_id s) at 2.
    apply map_ext_in. intros c Hc. specialize (Hs c Hc).
    apply orb_true_iff in Hs as [Hs|Hs].
    - by destruct (rule_unit_facts c Hs) as (_ & _ & ->).
    - apply N.eqb_eq in Hs. by subst. }
  rewrite Hmap.
  2: { clear -Hu. induction Hu as [|t ts [Ht _] _ IH]; [done|].
       assert (forallb (fun c => rule_unit c || (c =? 44)%N) t = true) as Ht'.
       { rewrite forallb_forall in Ht |- *. intros c Hc. by rewrite (Ht c Hc). }
       destruct ts as [|u ts]; [exact Ht'|].
       change (join (js ",") (t :: u :: ts)) with (t ++ js "," ++ join (js ",") (u :: ts)).
       rewrite !forallb_app, Ht', IH. done. }
  change (js ",") with [44%N]. rewrite split_join; [|done|].
  2: { eapply Forall_impl; [|exact Hu]. intros t [Ht _]. simpl in Ht.
       rewrite forallb_forall in Ht |- *. intros c Hc.
       by destruct (rule_unit_facts c (Ht c Hc)) as (_ & -> & _). }
  clear Hne Hmap. induction Hu as [|t ts [Ht Hne] _ IH]; [done|]. cbn [map List.filter].
  rewrite no_space_trim by (by apply units_no_space).
  destruct t as [|c t]; [done|]. by rewrite IH.
Qed.

Lemma normalized_trim l : trim (join (js ",") (map range_text l)) = join (js ",") (map range_text l).
Proof.
  apply no_space_trim. induction l as [|r l IH]; [done|].
  pose proof (units_no_space _ (range_text_units r)) as Hr.
  destruct l as [|q l]; [exact Hr|].
  change (join (js ",") (map range_text (r :: q :: l)))
    with (range_text r ++ js "," ++ join (js ",") (map range_text (q :: l))).
  by rewrite !forallb_app, Hr, IH.
Qed.

(** ** Guarantees *)

(** Accepted status code rules are normalised: the ranges are within
    100..599, in increasing order, neither overlapping nor adjacent, and they
    contain exactly the codes that some rule of the input names. *)
Theorem status_rules_normal input :
  let r := parseHttpStatusCodeRules input in
  parsed_ok r = true ->
  Forall valid_range (parsed_ranges r) /\ separated (parsed_ranges r) /\
  forall c, covers (parsed_ranges r) c <->
    exists segment q, segment ∈ rule_segments (trim (default [] input)) /\
      parseToken segment = Some q /\ range_start q <= c <= range_end q.
Proof.
  cbv zeta. unfold parseHttpStatusCodeRules.
  destruct (trim (default [] input)) as [|x t] eqn:Et.
  { intros _. simpl. split_and!; [constructor|done|]. intros c. rewrite covers_nil.
    split; [done|]. intros (s & q & Hs & _). by apply not_elem_of_nil in Hs. }
  destruct (parse_segments _) as [ranges [|]] eqn:Ep; [|done]. intros _. cbn [parsed_ranges].
  destruct (mergeRanges_spec ranges) as (Hv & Hs & Hc); [by eapply parse_segments_valid|].
  split_and!; [done..|]. intros c. rewrite Hc. apply parse_segments_spec in Ep.
  unfold covers. split.
  - intros (q & Hq & Hcq). apply list_elem_of_lookup in Hq as [i Hi].
    destruct (Forall2_lookup_r _ _ _ _ _ Ep Hi) as (s & Hs' & Hps).
    exists s, q. split; [by eapply list_elem_of_lookup_2|]. by split.
  - intros (s & q & Hs' & Hps & Hcq). apply list_elem_of_lookup in Hs' as [i Hi].
    destruct (Forall2_lookup_l _ _ _ _ _ Ep Hi) as (q' & Hq & Hps').
    exists q'. split; [by eapply list_elem_of_lookup_2|]. congruence.
Qed.

Lemma status_rules_normal_witness :
  let r := parseHttpStatusCodeRules (Some (js "500-505, 504 ,401,403,402")) in
  Forall valid_range (parsed_ranges r) /\ separated (parsed_ranges r) /\
  forall c, covers (parsed_ranges r) c <->
    exists segment q, segment ∈ rule_segments (trim (js "500-505, 504 ,401,403,402")) /\
      parseToken segment = Some q /\ range_start q <= c <= range_end q.
Proof.
  apply (status_rules_normal (Some (js "500-505, 504 ,401,403,402"))).
  vm_compute. reflexivity.
Defined.

(** The normalised text of accepted rules is a fixed point: parsing it
    again gives the same ranges, tokens and text. *)
Theorem status_rules_idempotent input :
  let r := parseHttpStatusCodeRules input in
  parsed_ok r = true -> parseHttpStatusCodeRules (Some (parsed_normalized r)) = r.
Proof.
  cbv zeta. unfold parseHttpStatusCodeRules at 1 3 4.
  destruct (trim (default [] input)) as [|x t] eqn:Et; [done|].
  destruct (parse_segments _) as [ranges [|]] eqn:Ep; [|done]. intros _.
  cbn [parsed_normalized].
  destruct (mergeRanges_spec ranges) as (Hv & Hs & _); [by eapply parse_segments_valid|].
  revert Hv Hs. generalize (mergeRanges ranges) as l. intros l Hv Hs.
  unfold parseHttpStatusCodeRules. unfold default. cbv beta iota delta [from_option id].
  rewrite normalized_trim.
  destruct l as [|r l]; [done|].
  destruct (join (js ",") (map range_text (r :: l))) as [|y u] eqn:Ej.
  { exfalso. pose proof (rule_segments_texts (r :: l) ltac:(done)) as Hr. by rewrite Ej in Hr. }
  rewrite <- Ej, rule_segments_texts, parse_segments_texts, mergeRanges_normal by done. done.
Qed.

Lemma status_rules_idempotent_witness :
  let r := parseHttpStatusCodeRules (Some (js "500-505, 504 ,401,403,402")) in
  parseHttpStatusCodeRules (Some (parsed_normalized r)) = r.
Proof.
  apply (status_rules_idempotent (Some (js "500-505, 504 ,401,403,402"))).
  vm_compute. reflexivity.
Defined.

(** a token with more than two parts is accepted: for a valid range
    followed by a further dash and anything of digits and dashes, the parser
    answers the range and drops the rest. *)
Theorem third_part_dropped lo hi rest :
  valid_range (Range lo hi) -> forallb rule_unit rest = true ->
  parseToken (code_text lo ++ js "-" ++ code_text hi ++ js "-" ++ rest) = Some (Range lo hi).
Proof.
  intros (H1 & H2 & H3) Hr. cbn [range_start range_end] in *. unfold parseToken.
  change (js "-") with [45%N].
  set (t := code_text lo ++ [45%N] ++ code_text hi ++ [45%N] ++ rest).
  assert (forallb (fun c => negb (is_space c)) t = true) as Hns.
  { apply units_no_space. unfold t. rewrite !forallb_app, !code_units, Hr. done. }
  rewrite no_space_trim, filter_all by done.
  assert (45%N ∈ t) as Hd by (unfold t; rewrite !elem_of_app; right; left; by left).
  destruct t as [|c t'] eqn:E; [by apply not_elem_of_nil in Hd|]. rewrite <- E in *.
  rewrite bool_decide_eq_true_2 by done.
  assert (exists more, split_char 45 t = code_text lo :: code_text hi :: more) as [more ->].
  { exists (split_on 45 [] rest). unfold split_char, t.
    rewrite split_on_segment by apply code_no_dash. cbn [app split_on]. rewrite N.eqb_refl.
    rewrite split_on_segment by apply code_no_dash. cbn [app split_on]. by rewrite N.eqb_refl. }
  cbn [lookup list_lookup]. rewrite !isNumber_code, !parseInt_code by lia. cbn [andb].
  unfold isValidCode.
  repeat match goal with |- context [(?a <=? ?b)%Z] => destruct (Z.leb_spec a b); [|lia] end.
  by destruct (Z.ltb_spec hi lo); [lia|].
Qed.

Lemma third_part_dropped_witness :
  parseToken (code_text 400 ++ js "-" ++ code_text 500 ++ js "-" ++ js "599")
  = Some (Range 400 500).
Proof.
  apply (third_part_dropped 400 500 (js "599")); [|vm_compute; reflexivity].
  unfold valid_range. simpl. lia.
Defined.
