(* ===== verification/AuthStore.v ===== *)
(** * The browser's login state

    Models [stores/auth-store.ts], the zustand store every page reads, and
    the run-time type guards of [lib/auth-session.ts] that decide which
    server responses may enter it.  A TypeScript [T | null] field is an
    [option]; a guard [value is T] is a boolean on JavaScript values, and the
    corresponding [as_T] reads the value as a [T]. *)

From Stdlib Require Import ZArith Lia Bool SpecFloat.
From stdpp Require Import base list numbers.
From S2P Require Import Prelude JsString JsNumber JsValue.

(** ** Data *)

(** The interface's optional properties are not validated anywhere; they are
    carried along as the object's other own properties. *)
Record AuthUser := MkAuthUser {
  id : num;
  username : str;
  role : num;
  other_properties : list (str * jsval)
}.

Record LoginSession := MkLoginSession {
  sid : str;
  current : bool;
  login_method : str;
  ip : str;
  user_agent : str;
  created_at : num;
  last_active_at : num;
  expires_at : num
}.

Record AuthBundle := MkAuthBundle {
  access_token : str;
  token_type : str;
  access_expires_at : num;
  bundle_user : AuthUser;
  bundle_session : LoginSession
}.

Record AuthTokenRotation := MkAuthTokenRotation {
  rotation_access_token : str;
  rotation_token_type : str;
  rotation_access_expires_at : num;
  rotation_session : LoginSession
}.

Inductive AuthBootstrapState := Idle | Checking | Complete.

Record PendingLoginVerification := MkPendingLoginVerification {
  challenge : jsval;
  redirectTo : option str
}.

Record AuthState := MkAuthState {
  user : option AuthUser;
  accessToken : option str;
  accessExpiresAt : option num;
  session : option LoginSession;
  pendingLoginVerification : option PendingLoginVerification;
  bootstrapState : AuthBootstrapState
}.

#[global] Instance AuthBootstrapState_eq_dec : EqDecision AuthBootstrapState.
Proof. solve_decision. Defined.

(** ** The store's operations *)

Definition initial_auth : AuthState :=
  MkAuthState None None None None None Idle.

Definition setBundle (bundle : AuthBundle) (_ : AuthState) : AuthState :=
  {| user := Some (bundle_user bundle);
     accessToken := Some (access_token bundle);
     accessExpiresAt := Some (access_expires_at bundle);
     session := Some (bundle_session bundle);
     pendingLoginVerification := None;
     bootstrapState := Complete |}.

(** [state.auth.user?.id === user?.id] *)
Definition same_user_id (a b : option AuthUser) : bool :=
  match a, b with
  | Some x, Some y => num_eqb (id x) (id y)
  | None, None => true
  | _, _ => false
  end.

Definition setUser (u : option AuthUser) (auth : AuthState) : AuthState :=
  {| user := u;
     accessToken := accessToken auth;
     accessExpiresAt := accessExpiresAt auth;
     session := session auth;
     pendingLoginVerification :=
       if same_user_id (user auth) u then pendingLoginVerification auth else None;
     bootstrapState := bootstrapState auth |}.

Definition setPendingLoginVerification (pending : option PendingLoginVerification)
    (auth : AuthState) : AuthState :=
  {| user := user auth;
     accessToken := accessToken auth;
     accessExpiresAt := accessExpiresAt auth;
     session := session auth;
     pendingLoginVerification := pending;
     bootstrapState := bootstrapState auth |}.

Definition setBootstrapState (b : AuthBootstrapState) (auth : AuthState) : AuthState :=
  {| user := user auth;
     accessToken := accessToken auth;
     accessExpiresAt := accessExpiresAt auth;
     session := session auth;
     pendingLoginVerification := pendingLoginVerification auth;
     bootstrapState := b |}.

(** [reset(bootstrapState = 'complete')] *)
Definition reset (b : option AuthBootstrapState) (_ : AuthState) : AuthState :=
  {| user := None;
     accessToken := None;
     accessExpiresAt := None;
     session := None;
     pendingLoginVerification := None;
     bootstrapState := default Complete b |}.

(** ** Run-time type guards *)

Definition is_string (v : jsval) : bool := match v with JStr _ => true | _ => false end.
Definition is_number (v : jsval) : bool := match v with JNum _ => true | _ => false end.
Definition is_boolean (v : jsval) : bool := match v with JBool _ => true | _ => false end.
(** [typeof v === 'string' && v.length > 0] *)
Definition is_nonempty_string (v : jsval) : bool :=
  match v with JStr s => (0 <? length s)%nat | _ => false end.

Definition isRecord (value : jsval) : bool := negb (is_null value) && is_object value.

(** [Number.isInteger] is false of anything but a number, so [Number(value.id)]
    is only reached on numbers, where it is the identity. *)
Definition isAuthUser (value : jsval) : bool :=
  isRecord value &&
  (match get_field value (js "id") with
   | JNum n => is_integer n && num_ltb num_zero n
   | _ => false
   end &&
   is_string (get_field value (js "username")) &&
   is_number (get_field value (js "role"))).

Definition isLoginSession (value : jsval) : bool :=
  isRecord value &&
  (is_nonempty_string (get_field value (js "sid")) &&
   is_boolean (get_field value (js "current")) &&
   is_string (get_field value (js "login_method")) &&
   is_string (get_field value (js "ip")) &&
   is_string (get_field value (js "user_agent")) &&
   is_number (get_field value (js "created_at")) &&
   is_number (get_field value (js "last_active_at")) &&
   is_number (get_field value (js "expires_at"))).

Definition hasValidTokenFields (value : jsval) : bool :=
  is_nonempty_string (get_field value (js "access_token")) &&
  is_nonempty_string (get_field value (js "token_type")) &&
  match get_field value (js "access_expires_at") with
  | JNum n => is_finite n && num_ltb num_zero n
  | _ => false
  end.

Definition isAuthBundle (value : jsval) : bool :=
  isRecord value &&
  (hasValidTokenFields value &&
   isAuthUser (get_field value (js "user")) &&
   isLoginSession (get_field value (js "session"))).

Definition isAuthTokenRotation (value : jsval) : bool :=
  isRecord value &&
  hasValidTokenFields value &&
  strict_eq_primitive (get_field value (js "token_type")) (JStr (js "Bearer")) &&
  isLoginSession (get_field value (js "session")) &&
  strict_eq_primitive (get_field (get_field value (js "session")) (js "current")) (JBool true).

(** ** Values read at their interface type *)

Definition read_string (v : jsval) : option str :=
  match v with JStr s => Some s | _ => None end.
Definition read_number (v : jsval) : option num :=
  match v with JNum n => Some n | _ => None end.
Definition read_boolean (v : jsval) : option bool :=
  match v with JBool b => Some b | _ => None end.

Definition validated_keys : list str := [js "id"; js "username"; js "role"].

Definition as_AuthUser (v : jsval) : option AuthUser :=
  i ← read_number (get_field v (js "id"));
  u ← read_string (get_field v (js "username"));
  r ← read_number (get_field v (js "role"));
  Some (MkAuthUser i u r
          match v with
          | JObj fs => List.filter (fun f => negb (includes_str validated_keys f.1)) fs
          | _ => []
          end).

Definition as_LoginSession (v : jsval) : option LoginSession :=
  s ← read_string (get_field v (js "sid"));
  c ← read_boolean (get_field v (js "current"));
  m ← read_string (get_field v (js "login_method"));
  i ← read_string (get_field v (js "ip"));
  a ← read_string (get_field v (js "user_agent"));
  t0 ← read_number (get_field v (js "created_at"));
  t1 ← read_number (get_field v (js "last_active_at"));
  t2 ← read_number (get_field v (js "expires_at"));
  Some (MkLoginSession s c m i a t0 t1 t2).

Definition as_AuthBundle (v : jsval) : option AuthBundle :=
  t ← read_string (get_field v (js "access_token"));
  k ← read_string (get_field v (js "token_type"));
  e ← read_number (get_field v (js "access_expires_at"));
  u ← as_AuthUser (get_field v (js "user"));
  s ← as_LoginSession (get_field v (js "session"));
  Some (MkAuthBundle t k e u s).

Definition as_AuthTokenRotation (v : jsval) : option AuthTokenRotation :=
  t ← read_string (get_field v (js "access_token"));
  k ← read_string (get_field v (js "token_type"));
  e ← read_number (get_field v (js "access_expires_at"));
  s ← as_LoginSession (get_field v (js "session"));
  Some (MkAuthTokenRotation t k e s).

(** ** What the guards promise *)

Definition user_valid (u : AuthUser) : bool := is_integer (id u) && num_ltb num_zero (id u).
Definition session_valid (s : LoginSession) : bool := (0 <? length (sid s))%nat.
Definition token_valid (token kind : str) (expires : num) : bool :=
  (0 <? length token)%nat && (0 <? length kind)%nat &&
  (is_finite expires && num_ltb num_zero expires).
Definition bundle_valid (b : AuthBundle) : bool :=
  token_valid (access_token b) (token_type b) (access_expires_at b) &&
  user_valid (bundle_user b) && session_valid (bundle_session b).
Definition rotation_valid (r : AuthTokenRotation) : bool :=
  token_valid (rotation_access_token r) (rotation_token_type r)
    (rotation_access_expires_at r) &&
  str_eqb (rotation_token_type r) (js "Bearer") &&
  session_valid (rotation_session r) && current (rotation_session r).

(** A guard agrees with reading the value at its type and testing the result. *)
Definition guard_exact {A} (guard : jsval -> bool) (read : jsval -> option A)
    (valid : A -> bool) : Prop :=
  forall v, guard v = match read v with Some a => valid a | None => false end.

(** Only objects have the properties the guards ask for. *)
Lemma get_field_record v k : isRecord v = false -> get_field v k = JUndefined.
Proof. by destruct v. Qed.

Ltac case_fields :=
  repeat match goal with
  | |- context [get_field ?v ?k] => generalize (get_field v k); intros ?
  end;
  repeat (match goal with
  | |- context [read_string ?x ≫= _] => destruct x
  | |- context [read_number ?x ≫= _] => destruct x
  | |- context [read_boolean ?x ≫= _] => destruct x
  end; simpl; rewrite ?andb_false_r, ?andb_true_r; try reflexivity).

Ltac solve_guard v :=
  destruct (isRecord v) eqn:R; simpl;
  [|rewrite !(get_field_record v) by done; done].

Lemma isAuthUser_exact : guard_exact isAuthUser as_AuthUser user_valid.
Proof. intros v. unfold isAuthUser, as_AuthUser. solve_guard v. clear R. case_fields. Qed.

Lemma isLoginSession_exact : guard_exact isLoginSession as_LoginSession session_valid.
Proof. intros v. unfold isLoginSession, as_LoginSession. solve_guard v. clear R. case_fields. Qed.

Lemma isAuthBundle_exact : guard_exact isAuthBundle as_AuthBundle bundle_valid.
Proof.
  intros v. unfold isAuthBundle, as_AuthBundle, hasValidTokenFields. solve_guard v.
  rewrite isAuthUser_exact, isLoginSession_exact.
  destruct (as_AuthUser _) as [u|], (as_LoginSession _) as [s|]; case_fields.
Qed.

Lemma as_LoginSession_current v s :
  as_LoginSession v = Some s -> get_field v (js "current") = JBool (current s).
Proof.
  unfold as_LoginSession. intros H.
  repeat (apply bind_Some in H as (? & ? & H)). injection H as <-. simpl.
  by destruct (get_field v (js "current")); simplify_eq/=.
Qed.

Lemma isAuthTokenRotation_exact :
  guard_exact isAuthTokenRotation as_AuthTokenRotation rotation_valid.
Proof.
  intros v. unfold isAuthTokenRotation, as_AuthTokenRotation, hasValidTokenFields.
  solve_guard v. rewrite isLoginSession_exact.
  destruct (as_LoginSession _) as [s|] eqn:S; [|case_fields].
  rewrite (as_LoginSession_current _ _ S).
  case_fields. by replace (Bool.eqb (current s) true) with (current s) by by destruct (current s).
Qed.

(** The type guards are exact: a server value passes [isAuthBundle] (or
    [isAuthTokenRotation]) exactly when every property the interface requires
    is present with its type and the token, expiry, user and session
    identifier are usable (for a rotation also: a Bearer token for the current
    session), so code behind a guard never reads a missing field. *)
Theorem auth_guards_exact :
  guard_exact isAuthBundle as_AuthBundle bundle_valid /\
  guard_exact isAuthTokenRotation as_AuthTokenRotation rotation_valid.
Proof. split; [apply isAuthBundle_exact|apply isAuthTokenRotation_exact]. Qed.
