(* ===== verification/AuthSession.v ===== *)
(** * Login sessions: refresh, rotation and sign-out

    Models [lib/auth-session.ts] with the parts of [lib/session-hint.ts] and
    [lib/auth-session-sync.ts] it calls.  The module keeps three pieces of
    state: the store of [AuthStore], the counter [authEpoch] that every
    sign-in and sign-out bumps, and the promise of the refresh in flight.

    Asynchronous code is cut at its [await]s.  A refresh in flight is a
    [Progress]: what it waits for, with the local variables of [run] that
    survive the wait.  Everything else the page does may happen in between,
    so the whole is a transition system ([step]) over explicit actions. *)

From Stdlib Require Import ZArith Lia Bool SpecFloat.
From stdpp Require Import base list numbers.
From S2P Require Import Prelude JsString JsNumber JsValue AuthStore.

(** ** The page's surroundings *)

(** [navigator.locks]: absent, usable, or a request that throws at once. *)
Inductive LockManager := LocksMissing | LocksAvailable | LocksThrow (e : jsval).

Class Tab := {
  has_window : bool;
  authSyncSource : str;
  locks : LockManager
}.

(** What the environment answers while one piece of code runs. *)
Record Moment := MkMoment { date_now : num; fresh_identifier : str }.

(** [Math.floor(Date.now() / 1000)] *)
Definition now_seconds (m : Moment) : num := math_floor (num_div (date_now m) (lit 1000)).

(** ** lib/session-hint.ts *)

Fixpoint char_index (c : N) (s : str) : option nat :=
  match s with
  | [] => None
  | x :: s' => if (x =? c)%N then Some 0 else S <$> char_index c s'
  end.

Fixpoint read_parts (parts : list str) (name : str) : option str :=
  match parts with
  | [] => None
  | part :: rest =>
      match char_index 61 part with
      | None => read_parts rest name
      | Some separator =>
          if str_eqb (trim (take separator part)) name
          then Some (trim (drop (separator + 1) part))
          else read_parts rest name
      end
  end.

Definition readCookie (cookieHeader name : str) : option str :=
  read_parts (split_char 59 cookieHeader) name.

Definition SESSION_HINT_COOKIE_NAME : str := js "new_api_has_session".

(** The argument is [document.cookie], [None] when there is no document. *)
Definition hasSessionHint (cookie : option str) : bool :=
  match cookie with
  | None => true
  | Some header => bool_decide (readCookie header SESSION_HINT_COOKIE_NAME <> None)
  end.

(** ** lib/auth-session-sync.ts *)

Inductive SyncKind := Authenticated | SignedOut.

Record AuthSessionSyncEvent := MkSyncEvent {
  event_kind : SyncKind;
  event_sid : str;
  event_source : str;
  event_nonce : str;
  event_timestamp : num
}.

Definition publishAuthSessionEvent `{Tab} (kind : SyncKind) (s : str) (m : Moment)
    (published : list AuthSessionSyncEvent) : list AuthSessionSyncEvent :=
  if negb has_window || (length s =? 0)%nat then published
  else published ++
    [MkSyncEvent kind s authSyncSource (fresh_identifier m) (date_now m)].

Definition sync_kind_text (k : SyncKind) : str :=
  match k with Authenticated => js "authenticated" | SignedOut => js "signed_out" end.

(** The message a tab receives: the published object, structurally cloned. *)
Definition event_value (e : AuthSessionSyncEvent) : jsval :=
  JObj [(js "kind", JStr (sync_kind_text (event_kind e)));
        (js "sid", JStr (event_sid e));
        (js "source", JStr (event_source e));
        (js "nonce", JStr (event_nonce e));
        (js "timestamp", JNum (event_timestamp e))].

Definition isAuthSessionSyncEvent (value : jsval) : bool :=
  isRecord value &&
  ((strict_eq_primitive (get_field value (js "kind")) (JStr (js "authenticated")) ||
    strict_eq_primitive (get_field value (js "kind")) (JStr (js "signed_out"))) &&
   is_nonempty_string (get_field value (js "sid")) &&
   is_string (get_field value (js "source")) &&
   is_string (get_field value (js "nonce")) &&
   is_number (get_field value (js "timestamp"))).

(** Whether a received value reaches the listener. *)
Definition deliver `{Tab} (value : jsval) (m : Moment) : bool :=
  isAuthSessionSyncEvent value &&
  negb (strict_eq_primitive (get_field value (js "source")) (JStr authSyncSource)) &&
  match get_field value (js "timestamp") with
  | JNum t => num_ltb (num_abs (num_sub (date_now m) t)) (lit 60000)
  | _ => false
  end.

(** ** Sign-in, rotation and sign-out *)

(** [authEpoch] is a counter far below the integers a double misses. *)
Record Session := MkSession {
  auth : AuthState;
  authEpoch : Z;
  published : list AuthSessionSyncEvent
}.

Definition with_auth (f : AuthState -> AuthState) (s : Session) : Session :=
  MkSession (f (auth s)) (authEpoch s) (published s).

Definition current_sid (s : Session) : option str := sid <$> session (auth s).

Definition applyAuthBundle `{Tab} (bundle : AuthBundle) (synchronizeTabs : bool)
    (m : Moment) (s : Session) : Session :=
  let previousSID := current_sid s in
  let newSID := sid (bundle_session bundle) in
  {| auth := setBundle bundle (auth s);
     authEpoch := (authEpoch s + 1)%Z;
     published :=
       if synchronizeTabs && negb (bool_decide (previousSID = Some newSID))
       then publishAuthSessionEvent Authenticated newSID m (published s)
       else published s |}.

(** [AuthRotationError], by its message. *)
Inductive AuthRotationError :=
| InvalidRotationResponse
| RotationHasNoActiveSession
| RotationSessionMismatch.

Definition applyAuthRotation `{Tab} (value : jsval) (m : Moment) (s : Session)
    : outcome AuthRotationError Session :=
  if negb (isAuthTokenRotation value) then Throw InvalidRotationResponse
  else
    match as_AuthTokenRotation value with
    | None => Throw InvalidRotationResponse
    | Some r =>
        match user (auth s), session (auth s) with
        | Some u, Some active =>
            if negb (str_eqb (sid (rotation_session r)) (sid active))
            then Throw RotationSessionMismatch
            else Ok (applyAuthBundle
                       (MkAuthBundle (rotation_access_token r) (rotation_token_type r)
                          (rotation_access_expires_at r) u (rotation_session r))
                       false m s)
        | _, _ => Throw RotationHasNoActiveSession
        end
    end.

(** [clearAuthentication(synchronizeTabs, bootstrapState = 'complete')] *)
Definition clearAuthentication `{Tab} (synchronizeTabs : bool)
    (b : option AuthBootstrapState) (m : Moment) (s : Session) : Session :=
  {| auth := reset (Some (default Complete b)) (auth s);
     authEpoch := (authEpoch s + 1)%Z;
     published :=
       match current_sid s with
       | Some old =>
           if synchronizeTabs && negb (length old =? 0)%nat
           then publishAuthSessionEvent SignedOut old m (published s)
           else published s
       | None => published s
       end |}.

(** The query cache is the library's; [queryClient.clear()] acts on it. *)
Definition clearAuthenticatedClientState `{Tab} {Cache} (clear_cache : Cache -> Cache)
    (synchronizeTabs : bool) (m : Moment) (cs : Cache * Session) : Cache * Session :=
  (clear_cache cs.1, clearAuthentication synchronizeTabs None m cs.2).

(** ** The refresh runner *)

Inductive RefreshError := AuthRefreshSupersededError | ErrorValue (v : jsval).

Inductive RefreshOutcome :=
| OutcomeAuthenticated (bundle : AuthBundle)
| OutcomeAnonymous
| OutcomeTransientError (error : RefreshError)
| OutcomeOutOfSync (code : str).

Record AuthRefreshHTTPResponse := MkResponse {
  status : num;
  data : jsval;
  error : jsval
}.

(** What [createRefreshRunner] is given; [request] and [wait] are the two
    awaits, answered by the environment. *)
Record AuthRefreshRuntime (St : Type) := MkRuntime {
  getExpectedSID : St -> option str;
  parseBundle : jsval -> option AuthBundle;
  acceptBundle : AuthBundle -> St -> St;
  clear : bool -> option AuthBootstrapState -> St -> St;
  markTransient : St -> St;
  isCurrent : option (St -> bool)
}.
Arguments getExpectedSID {St}.
Arguments parseBundle {St}.
Arguments acceptBundle {St}.
Arguments clear {St}.
Arguments markTransient {St}.
Arguments isCurrent {St}.

Definition refreshRaceDelays : list Z := [80; 200; 500]%Z.

Inductive Progress :=
| LockQueued
| AwaitRequest (raceAttempt : nat) (allowMismatchRetry : bool) (expectedSID : option str)
| AwaitTimer (delay : Z) (raceAttempt : nat) (allowMismatchRetry : bool)
| Settled (outcome : RefreshOutcome)
| Rejected (error : jsval).

Definition superseded : RefreshOutcome := OutcomeTransientError AuthRefreshSupersededError.

Section Runner.
Context {St : Type}.
Variable runtime : AuthRefreshRuntime St.

(** [runtime.isCurrent && !runtime.isCurrent()] *)
Definition stale (s : St) : bool :=
  match isCurrent runtime with Some f => negb (f s) | None => false end.

(** [run(raceAttempt, allowMismatchRetry)] up to its first [await]. *)
Definition run (raceAttempt : nat) (allowMismatchRetry : bool) (s : St) : Progress * St :=
  if stale s then (Settled superseded, s)
  else (AwaitRequest raceAttempt allowMismatchRetry (getExpectedSID runtime s), s).

(** [typeof responseData?.code === 'string' ? responseData.code : undefined] *)
Definition response_code (responseData : jsval) : option str :=
  read_string (get_field responseData (js "code")).

(** [!response.status || response.status >= 500 || response.status === 429] *)
Definition transient_status (n : num) : bool :=
  is_nan n || num_eqb n num_zero || num_leb (lit 500) n || num_eqb n (lit 429).

(** The rest of [run], once the request has been answered. *)
Definition on_response (raceAttempt : nat) (allowMismatchRetry : bool)
    (response : AuthRefreshHTTPResponse) (s : St) : Progress * St :=
  if stale s then (Settled superseded, s)
  else
    let responseData := if isRecord (data response) then data response else JUndefined in
    let code := response_code responseData in
    let conflict name :=
      num_eqb (status response) (lit 409) && bool_decide (code = Some name) in
    match strict_eq_primitive (get_field responseData (js "success")) (JBool true),
          parseBundle runtime (get_field responseData (js "data")) with
    | true, Some bundle => (Settled (OutcomeAuthenticated bundle), acceptBundle runtime bundle s)
    | _, _ =>
        if conflict (js "AUTH_REFRESH_RACE") then
          match refreshRaceDelays !! raceAttempt with
          | Some delay => (AwaitTimer delay (raceAttempt + 1) allowMismatchRetry, s)
          | None =>
              (Settled (OutcomeOutOfSync (js "AUTH_REFRESH_RACE")), clear runtime false None s)
          end
        else if conflict (js "AUTH_SESSION_MISMATCH") then
          if allowMismatchRetry then run 0 false (clear runtime false (Some Idle) s)
          else (Settled (OutcomeOutOfSync (js "AUTH_SESSION_MISMATCH")),
                clear runtime false None s)
        else if num_eqb (status response) (lit 401) then
          (Settled OutcomeAnonymous, clear runtime true None s)
        else if transient_status (status response) then
          (Settled (OutcomeTransientError (ErrorValue
             (if is_nullish (error response) then data response else error response))),
           markTransient runtime s)
        else
          (Settled (OutcomeOutOfSync (default (js "AUTH_INVALID_REFRESH_RESPONSE") code)),
           clear runtime false None s)
    end.

Inductive RunnerInput := Replied (response : AuthRefreshHTTPResponse) | TimerFired.

(** The runner resumes when what it awaits happens. *)
Definition resume (p : Progress) (i : RunnerInput) (s : St) : option (Progress * St) :=
  match p, i with
  | AwaitRequest n allow _, Replied r => Some (on_response n allow r s)
  | AwaitTimer _ n allow, TimerFired => Some (run n allow s)
  | _, _ => None
  end.

(** [createRefreshRunner(runtime)()] *)
Definition createRefreshRunner (s : St) : Progress * St := run 0 true s.
End Runner.

(** ** The runtime of the page *)

(** What [authClient.post] does: answer, fail with an Axios error that may
    carry a response, or throw something else. *)
Inductive PostResult :=
| PostResponse (status : num) (data : jsval)
| PostAxiosError (response : option (num * jsval)) (error : jsval)
| PostThrows (error : jsval).

Definition refresh_headers (expectedSID : option str) : list (str * str) :=
  match expectedSID with
  | Some (c :: s) => [(js "X-Auth-Session", c :: s)]
  | _ => []
  end.

Definition requestRefresh (r : PostResult) : AuthRefreshHTTPResponse :=
  match r with
  | PostResponse st d => MkResponse st d JUndefined
  | PostThrows e => MkResponse (lit 0) JUndefined e
  | PostAxiosError None e => MkResponse (lit 0) JUndefined e
  | PostAxiosError (Some (st, d)) e => MkResponse st d e
  end.

Definition runRefresh `{Tab} (refreshEpoch : Z) (m : Moment) : AuthRefreshRuntime Session :=
  {| getExpectedSID := current_sid;
     parseBundle value := if isAuthBundle value then as_AuthBundle value else None;
     acceptBundle bundle := applyAuthBundle bundle false m;
     clear synchronizeTabs b s :=
       if negb synchronizeTabs && bool_decide (b = Some Idle)
       then with_auth (reset (Some Idle)) s
       else clearAuthentication synchronizeTabs b m s;
     markTransient := with_auth (setBootstrapState Idle);
     isCurrent := Some (fun s => (authEpoch s =? refreshEpoch)%Z) |}.

(** The refresh whose promise [refreshPromise] holds. *)
Record Flight := MkFlight { refreshEpoch : Z; progress : Progress }.

Record World := MkWorld { shared : Session; refreshPromise : option Flight }.

Definition initial_world : World := MkWorld (MkSession initial_auth 0 []) None.

Definition fly (e : Z) (ps : Progress * Session) : World :=
  MkWorld ps.2 (Some (MkFlight e ps.1)).

Definition performRefreshWithBrowserLock `{Tab} (refreshEpoch : Z) (m : Moment)
    (s : Session) : Progress * Session :=
  match locks with
  | LocksMissing => createRefreshRunner (runRefresh refreshEpoch m) s
  | LocksAvailable => (LockQueued, s)
  | LocksThrow e =>
      (Settled (OutcomeTransientError (ErrorValue e)), with_auth (setBootstrapState Idle) s)
  end.

Definition refreshAuthentication `{Tab} (m : Moment) (w : World) : World :=
  match refreshPromise w with
  | Some _ => w
  | None =>
      let e := authEpoch (shared w) in
      fly e (performRefreshWithBrowserLock e m (shared w))
  end.

(** ** Every way the state can change *)

(** What other code of the page does to the session. *)
Inductive PageAction :=
| SignIn (bundle : AuthBundle) (synchronizeTabs : bool)
| Rotate (value : jsval)
| SignOut (synchronizeTabs : bool) (b : option AuthBootstrapState)
| SetUser (u : option AuthUser)
| SetPending (pending : option PendingLoginVerification)
| SetBootstrap (b : AuthBootstrapState).

(** What happens to the refresh in flight. *)
Inductive RefreshEvent :=
| LockGranted
| LockRejected (e : jsval)
| Posted (r : PostResult)
| TimerElapsed.

Inductive Action :=
| Page (a : PageAction)
| Call
| Flying (e : RefreshEvent)
| Finally.

Definition page_step `{Tab} (a : PageAction) (m : Moment) (s : Session) : Session :=
  match a with
  | SignIn b sync => applyAuthBundle b sync m s
  | Rotate v => match applyAuthRotation v m s with Ok s' => s' | _ => s end
  | SignOut sync b => clearAuthentication sync b m s
  | SetUser u => with_auth (setUser u) s
  | SetPending p => with_auth (setPendingLoginVerification p) s
  | SetBootstrap b => with_auth (setBootstrapState b) s
  end.

(** The lock callback runs the refresh; a rejected lock request rejects the
    promise that [performRefreshWithBrowserLock] returned without awaiting. *)
Definition flight_step `{Tab} (f : Flight) (e : RefreshEvent) (m : Moment) (s : Session)
    : option (Progress * Session) :=
  let runtime := runRefresh (refreshEpoch f) m in
  match progress f, e with
  | LockQueued, LockGranted => Some (createRefreshRunner runtime s)
  | LockQueued, LockRejected e => Some (Rejected e, s)
  | p, Posted r => resume runtime p (Replied (requestRefresh r)) s
  | p, TimerElapsed => resume runtime p TimerFired s
  | _, _ => None
  end.

Definition is_done (p : Progress) : bool :=
  match p with Settled _ | Rejected _ => true | _ => false end.

(** [.finally(() => { refreshPromise = null })] runs once the promise settles. *)
Definition step `{Tab} (w : World) (a : Action) (m : Moment) : option World :=
  match a with
  | Page a => Some (MkWorld (page_step a m (shared w)) (refreshPromise w))
  | Call => Some (refreshAuthentication m w)
  | Flying e =>
      f ← refreshPromise w;
      ps ← flight_step f e m (shared w);
      Some (fly (refreshEpoch f) ps)
  | Finally =>
      f ← refreshPromise w;
      if is_done (progress f) then Some (MkWorld (shared w) None) else None
  end.

Fixpoint steps `{Tab} (w : World) (l : list (Action * Moment)) : option World :=
  match l with
  | [] => Some w
  | (a, m) :: l' => w' ← step w a m; steps w' l'
  end.

(** ** Entry points *)

(** [Boolean(s)] for a [string | null]; for a [number | null]. *)
Definition truthy_string (s : option str) : bool :=
  match s with Some (_ :: _) => true | _ => false end.
Definition truthy_number (n : option num) : bool :=
  match n with Some n => negb (is_nan n || num_eqb n num_zero) | None => false end.

Definition currentValidAuthBundle (m : Moment) (a : AuthState) : option AuthBundle :=
  match user a, accessToken a, accessExpiresAt a, session a with
  | Some u, Some t, Some e, Some s =>
      if negb (truthy_string (Some t)) || negb (truthy_number (Some e)) ||
         num_leb e (now_seconds m)
      then None
      else Some (MkAuthBundle t (js "Bearer") e u s)
  | _, _, _, _ => None
  end.

(** An answer at once, or the outcome of the refresh in flight. *)
Inductive Answer := Now (o : RefreshOutcome) | WhenRefreshed.

Definition resolveAuthentication `{Tab} (m : Moment) (w : World) : World * Answer :=
  let a := auth (shared w) in
  match currentValidAuthBundle m a with
  | Some bundle =>
      (MkWorld (with_auth (setBootstrapState Complete) (shared w)) (refreshPromise w),
       Now (OutcomeAuthenticated bundle))
  | None =>
      let hasStaleSession := bool_decide (user a <> None) && bool_decide (session a <> None) in
      if bool_decide (bootstrapState a = Complete) && negb hasStaleSession
      then (w, Now OutcomeAnonymous)
      else
        (refreshAuthentication m
           (MkWorld (with_auth (setBootstrapState Checking) (shared w)) (refreshPromise w)),
         WhenRefreshed)
  end.

Definition bootstrapAuthentication `{Tab} (cookie : option str) (m : Moment) (w : World)
    : World * Answer :=
  let a := auth (shared w) in
  if bool_decide (currentValidAuthBundle m a = None) && negb (hasSessionHint cookie) &&
     bool_decide (user a = None) && bool_decide (session a = None)
  then (w, Now OutcomeAnonymous)
  else resolveAuthentication m w.

Definition getCommonHeaders (a : AuthState) : list (str * str) :=
  (js "Content-Type", js "application/json") ::
  match accessToken a with
  | Some (c :: t) => [(js "Authorization", js "Bearer " ++ c :: t)]
  | _ => []
  end.

Definition token_outlives (a : AuthState) (t : num) : bool :=
  truthy_string (accessToken a) && truthy_number (accessExpiresAt a) &&
  match accessExpiresAt a with Some e => num_ltb t e | None => false end.

(** [getFreshAuthHeaders()] up to its [await]: headers, or the refresh. *)
Definition getFreshAuthHeaders `{Tab} (m : Moment) (w : World)
    : World * option (list (str * str)) :=
  if token_outlives (auth (shared w)) (num_add (now_seconds m) (lit 60))
  then (w, Some (getCommonHeaders (auth (shared w))))
  else (refreshAuthentication m w, None).

(** The two errors, by the key of their translated message. *)
Inductive HeadersError := RequestFailed (cause : RefreshError) | SessionExpired.

(** The rest of [getFreshAuthHeaders], once the refresh has settled. *)
Definition headers_after (o : RefreshOutcome) (m : Moment) (a : AuthState)
    : outcome HeadersError (list (str * str)) :=
  match o with
  | OutcomeAuthenticated _ => Ok (getCommonHeaders a)
  | _ =>
      if token_outlives a (now_seconds m) then Ok (getCommonHeaders a)
      else match o with
           | OutcomeTransientError e => Throw (RequestFailed e)
           | _ => Throw SessionExpired
           end
  end.
