(* ===== verification/AuthSessionFacts.v ===== *)
(** * Correctness of the login session

    Theorems on [AuthSession]: the refresh runner ends after a bounded number
    of requests, its outcome agrees with the state it leaves behind, a refresh
    overtaken by a sign-in or sign-out has no effect, and the stored session
    is always one the type guards accepted. *)

From Stdlib Require Import ZArith Lia Bool SpecFloat.
From stdpp Require Import base list numbers.
From S2P Require Import Prelude JsString JsNumber JsValue AuthStore AuthSession.

(** ** The runner ends *)

Section Runner.
Context {St : Type}.
Variable rt : AuthRefreshRuntime St.

(** The resumptions a runner can still make, and the requests it can still send. *)
Definition runner_measure (p : Progress) : nat :=
  match p with
  | AwaitRequest n allow _ => 2 * (3 - n) + 1 + (if allow then 7 else 0)
  | AwaitTimer _ n allow => 2 * (3 - n) + 2 + (if allow then 7 else 0)
  | _ => 0
  end.
Definition requests_left (p : Progress) : nat :=
  match p with
  | AwaitRequest n allow _ | AwaitTimer _ n allow => (3 - n) + 1 + (if allow then 4 else 0)
  | _ => 0
  end.
Definition is_reply (i : RunnerInput) : bool := match i with Replied _ => true | _ => false end.

(** Each entry first lets the rest of the page change the state. *)
Fixpoint run_script (ps : Progress * St) (script : list ((St -> St) * RunnerInput))
    : option (Progress * St) :=
  match script with
  | [] => Some ps
  | (interfere, i) :: script' =>
      ps' ← resume rt ps.1 i (interfere ps.2); run_script ps' script'
  end.

Lemma race_delay_bound n d : refreshRaceDelays !! n = Some d -> n < 3.
Proof. intros H. by apply lookup_lt_Some in H. Qed.

Lemma run_cases n allow s :
  run rt n allow s = (Settled superseded, s) \/
  run rt n allow s = (AwaitRequest n allow (getExpectedSID rt s), s).
Proof. unfold run. destruct (stale rt s); auto. Qed.

(** A response settles the runner, schedules the next race attempt, or
    starts the one retry after a session mismatch. *)
Lemma on_response_cases n allow r s :
  let p := (on_response rt n allow r s).1 in
  (exists o, p = Settled o) \/
  (exists d, p = AwaitTimer d (n + 1) allow /\ n < 3) \/
  (exists e, p = AwaitRequest 0 false e /\ allow = true).
Proof.
  unfold on_response. cbv zeta.
  destruct (stale rt s); [left; eexists; reflexivity|].
  repeat (case_match; simpl;
    try (left; eexists; reflexivity);
    try (right; left; eexists; split; [reflexivity|eapply race_delay_bound; eassumption]);
    try match goal with
    | |- context [run rt 0 false ?s'] =>
        destruct (run_cases 0 false s') as [-> | ->];
        [left; eexists; reflexivity|right; right; eexists; split; reflexivity]
    end).
Qed.

Lemma resume_decreases p i s p' s' :
  resume rt p i s = Some (p', s') ->
  runner_measure p' < runner_measure p /\
  requests_left p' + (if is_reply i then 1 else 0) <= requests_left p.
Proof.
  destruct p as [|n allow e|d n allow| |], i as [r|]; simpl; try done.
  - intros [= H]. pose proof (on_response_cases n allow r s) as C. rewrite H in C. simpl in C.
    destruct C as [[o ->]|[(d & -> & Hn)|(e' & -> & ->)]]; simpl; try destruct allow; lia.
  - intros [= H]. pose proof (run_cases n allow s) as C. rewrite H in C.
    destruct C as [[= -> ->]|[= -> ->]]; simpl; destruct allow; lia.
Qed.

Lemma run_script_bound script : forall ps ps',
  run_script ps script = Some ps' ->
  length script + runner_measure ps'.1 <= runner_measure ps.1 /\
  length (List.filter (fun x => is_reply x.2) script) + requests_left ps'.1
    <= requests_left ps.1.
Proof.
  induction script as [|[f i] script IH]; intros ps ps' H; simpl in *.
  - injection H as <-. lia.
  - destruct (resume rt ps.1 i (f ps.2)) as [[p s]|] eqn:R; [|done]. simpl in H.
    apply resume_decreases in R. apply IH in H. destruct (is_reply i); simpl in *; lia.
Qed.

(** The runner is never queued for the lock nor rejected: those are the
    caller's. *)
Definition runner_state (p : Progress) : bool :=
  match p with LockQueued | Rejected _ => false | _ => true end.

Lemma resume_runner_state p i s p' s' :
  resume rt p i s = Some (p', s') -> runner_state p' = true.
Proof.
  destruct p as [|n allow e|d n allow| |], i as [r|]; simpl; try done; intros [= H].
  - pose proof (on_response_cases n allow r s) as C. rewrite H in C. simpl in C.
    by destruct C as [[o ->]|[(d & -> & Hn)|(e' & -> & ->)]].
  - pose proof (run_cases n allow s) as C. rewrite H in C.
    by destruct C as [[= -> ->]|[= -> ->]].
Qed.

Lemma run_script_state script : forall ps ps',
  runner_state ps.1 = true -> run_script ps script = Some ps' -> runner_state ps'.1 = true.
Proof.
  induction script as [|[f i] script IH]; intros ps ps' Hp H; simpl in *.
  - by injection H as <-.
  - destruct (resume rt ps.1 i (f ps.2)) as [[p s]|] eqn:R; [|done]. simpl in H.
    eapply IH; [|exact H]. by eapply resume_runner_state.
Qed.

Lemma runner_enabled p s r :
  runner_state p = true -> is_done p = false ->
  exists i, i ∈ [Replied r; TimerFired] /\ is_Some (resume rt p i s).
Proof.
  destruct p as [|n allow e|d n allow| |]; try done; intros _ _.
  - exists (Replied r). split; [by left|by eexists].
  - exists TimerFired. split; [by right; left|by eexists].
Qed.

(** A token refresh ends: whatever the server answers and whatever the
    page does in between, the runner resumes at most 14 times and consumes at
    most 8 responses; as long as it has not settled, the awaited response or
    timer makes it move on, so after 14 resumptions it has settled. *)
Theorem refresh_terminates (s : St) script ps :
  run_script (createRefreshRunner rt s) script = Some ps ->
  length script <= 14 /\
  length (List.filter (fun x => is_reply x.2) script) <= 8 /\
  (length script = 14 -> is_done ps.1 = true) /\
  (is_done ps.1 = false -> forall r s',
     exists i, i ∈ [Replied r; TimerFired] /\ is_Some (resume rt ps.1 i s')).
Proof.
  intros H. pose proof (run_script_bound _ _ _ H) as [B1 B2].
  assert (runner_state ps.1 = true) as R.
  { eapply run_script_state; [|exact H]. unfold createRefreshRunner.
    by destruct (run_cases 0 true s) as [-> | ->]. }
  assert (runner_measure (createRefreshRunner rt s).1 <= 14 /\
          requests_left (createRefreshRunner rt s).1 <= 8) as [M Q].
  { unfold createRefreshRunner. destruct (run_cases 0 true s) as [-> | ->]; simpl; lia. }
  split; [lia|]. split; [lia|]. split.
  - intros L. destruct ps.1; simpl in *; try done; lia.
  - intros D r s'. by apply runner_enabled.
Qed.
End Runner.

(** ** What each kind of action does to the session *)

Section World.
Context `{Tab}.

Lemma applyAuthBundle_epoch b sync m s :
  authEpoch (applyAuthBundle b sync m s) = (authEpoch s + 1)%Z.
Proof. done. Qed.

Lemma applyAuthRotation_inv v m s s' :
  applyAuthRotation v m s = Ok s' ->
  exists r u active,
    as_AuthTokenRotation v = Some r /\ rotation_valid r = true /\
    user (auth s) = Some u /\ session (auth s) = Some active /\
    sid (rotation_session r) = sid active /\
    s' = applyAuthBundle
           (MkAuthBundle (rotation_access_token r) (rotation_token_type r)
              (rotation_access_expires_at r) u (rotation_session r)) false m s.
Proof.
  unfold applyAuthRotation. rewrite isAuthTokenRotation_exact.
  destruct (as_AuthTokenRotation v) as [r|] eqn:R; [|done].
  destruct (rotation_valid r) eqn:V; [|done]. simpl.
  destruct (user (auth s)) as [u|], (session (auth s)) as [active|] eqn:A; try done.
  unfold str_eqb. case_bool_decide as Q; [|done]. simpl. intros [= <-].
  by exists r, u, active.
Qed.

Lemma page_step_epoch a m s : (authEpoch s <= authEpoch (page_step a m s))%Z.
Proof.
  destruct a as [b sync|v|sync b|u|p|b]; simpl; try lia.
  destruct (applyAuthRotation v m s) as [s'| |] eqn:R; [|lia|lia].
  apply applyAuthRotation_inv in R as (r & u & active & _ & _ & _ & _ & _ & ->). simpl. lia.
Qed.

(** The one case split on a refresh of the page: every way a response can be
    answered, with the session it leaves behind. *)
Inductive answered (e : Z) (m : Moment) (s : Session) : Progress -> Session -> Prop :=
| answered_stale :
    authEpoch s <> e -> answered e m s (Settled superseded) s
| answered_bundle b :
    authEpoch s = e -> bundle_valid b = true ->
    answered e m s (Settled (OutcomeAuthenticated b)) (applyAuthBundle b false m s)
| answered_race d n allow :
    authEpoch s = e -> answered e m s (AwaitTimer d n allow) s
| answered_mismatch :
    authEpoch s = e ->
    answered e m s (AwaitRequest 0 false None) (with_auth (reset (Some Idle)) s)
| answered_anonymous :
    authEpoch s = e ->
    answered e m s (Settled OutcomeAnonymous) (clearAuthentication true None m s)
| answered_out_of_sync code :
    authEpoch s = e ->
    answered e m s (Settled (OutcomeOutOfSync code)) (clearAuthentication false None m s)
| answered_transient v :
    authEpoch s = e ->
    answered e m s (Settled (OutcomeTransientError (ErrorValue v)))
      (with_auth (setBootstrapState Idle) s).

Lemma run_answered e m n allow s p s' :
  run (runRefresh e m) n allow s = (p, s') ->
  s' = s /\
  ((authEpoch s <> e /\ p = Settled superseded) \/
   (authEpoch s = e /\ p = AwaitRequest n allow (current_sid s))).
Proof.
  unfold run, stale. simpl.
  destruct (Z.eqb_spec (authEpoch s) e); simpl; intros [= <- <-]; auto.
Qed.

Lemma parse_refresh_bundle e m v b :
  parseBundle (runRefresh e m) v = Some b -> bundle_valid b = true.
Proof.
  simpl. rewrite isAuthBundle_exact. destruct (as_AuthBundle v) as [b'|]; [|done].
  by destruct (bundle_valid b') eqn:V; [intros [= <-]|].
Qed.

Lemma on_response_answered e m n allow r s p s' :
  on_response (runRefresh e m) n allow r s = (p, s') -> answered e m s p s'.
Proof.
  unfold on_response. cbv zeta. destruct (stale (runRefresh e m) s) eqn:S.
  { intros [= <- <-]. constructor. unfold stale in S. simpl in S. by apply Z.eqb_neq, negb_true_iff. }
  assert (authEpoch s = e) as E.
  { unfold stale in S. simpl in S. by apply Z.eqb_eq, negb_false_iff. }
  repeat (case_match; try (intros [= <- <-]; try (by constructor));
          try (by constructor; [|eapply parse_refresh_bundle; eassumption])).
  all: intros R; apply run_answered in R as [-> [[N ->]|[_ ->]]]; [done|by constructor].
Qed.

Lemma flight_step_inv f e m s p s' :
  flight_step f e m s = Some (p, s') ->
  (exists v, p = Rejected v /\ s' = s) \/
  (authEpoch s = refreshEpoch f /\ s' = s /\
   exists n allow, p = AwaitRequest n allow (current_sid s)) \/
  answered (refreshEpoch f) m s p s'.
Proof.
  assert (forall n allow, run (runRefresh (refreshEpoch f) m) n allow s = (p, s') ->
    (authEpoch s = refreshEpoch f /\ s' = s /\
       exists n allow, p = AwaitRequest n allow (current_sid s)) \/
    answered (refreshEpoch f) m s p s') as R.
  { intros n allow R. apply run_answered in R as [-> [[N ->]|[E ->]]]; [by right; constructor|].
    left. split_and!; eauto. }
  unfold flight_step. destruct (progress f) as [|n allow sid0|d n allow| |], e as [|v|r|];
    simpl; try done; intros [= Q]; eauto.
  - right; right. by eapply on_response_answered.
Qed.

Lemma answered_epoch e m s p s' :
  answered e m s p s' -> (authEpoch s <= authEpoch s')%Z.
Proof. destruct 1; simpl; lia. Qed.

Lemma flight_step_epoch f e m s p s' :
  flight_step f e m s = Some (p, s') -> (authEpoch s <= authEpoch s')%Z.
Proof.
  intros F. apply flight_step_inv in F as [(v & -> & ->)|[(_ & -> & _)|A]]; [lia|lia|].
  by eapply answered_epoch.
Qed.

(** ** A refresh that was overtaken *)

Definition page_actions (l : list (Action * Moment)) : list (PageAction * Moment) :=
  omap (fun x => match x with (Page a, m) => Some (a, m) | _ => None end) l.
Definition page_run (s : Session) (l : list (PageAction * Moment)) : Session :=
  fold_left (fun s x => page_step x.1 x.2 s) l s.

(** A refresh that cannot act any more: it belongs to an earlier epoch. *)
Definition overtaken (w : World) (f : Flight) : Prop :=
  refreshPromise w = Some f /\ (refreshEpoch f < authEpoch (shared w))%Z.

Lemma overtaken_flight f e m s p s' :
  (refreshEpoch f < authEpoch s)%Z -> flight_step f e m s = Some (p, s') ->
  s' = s /\ (p = Settled superseded \/ exists v, p = Rejected v).
Proof.
  intros L F. apply flight_step_inv in F as [(v & -> & ->)|[(E & _)|A]]; [by eauto|lia|].
  destruct A; try lia. by auto.
Qed.

Lemma overtaken_step w f a m w' :
  overtaken w f -> a <> Finally -> step w a m = Some w' ->
  exists f', overtaken w' f' /\ refreshEpoch f' = refreshEpoch f /\
    (progress f' = progress f \/ progress f' = Settled superseded \/
     exists v, progress f' = Rejected v) /\
    shared w' = page_run (shared w) (page_actions [(a, m)]).
Proof.
  intros [R L] NF S. destruct a as [a| |e|]; [| | |done]; cbn [step] in S.
  - injection S as <-. exists f. split; [split; [done|]|by auto].
    simpl. pose proof (page_step_epoch a m (shared w)). lia.
  - injection S as <-. unfold refreshAuthentication. rewrite R. exists f.
    split; [by split|by auto].
  - rewrite R in S. simpl in S.
    destruct (flight_step f e m (shared w)) as [[p s']|] eqn:F; [|done].
    simpl in S. injection S as <-.
    destruct (overtaken_flight _ _ _ _ _ _ L F) as [-> P].
    exists (MkFlight (refreshEpoch f) p). unfold fly. split; [by split|].
    split; [done|]. split; [|done]. simpl. tauto.
Qed.

Lemma overtaken_steps l : forall w f w',
  overtaken w f -> Forall (fun x => x.1 <> Finally) l -> steps w l = Some w' ->
  exists f', overtaken w' f' /\ refreshEpoch f' = refreshEpoch f /\
    (progress f' = progress f \/ progress f' = Settled superseded \/
     exists v, progress f' = Rejected v) /\
    shared w' = page_run (shared w) (page_actions l).
Proof.
  induction l as [|[a m] l IH]; intros w f w' O NF S; simpl in S.
  - injection S as <-. exists f. by auto.
  - inversion NF as [|? ? NF1 NF2]; subst. simpl in NF1.
    destruct (step w a m) as [w1|] eqn:S1; [|done]. simpl in S.
    destruct (overtaken_step _ _ _ _ _ O NF1 S1) as (f1 & O1 & E1 & P1 & Q1).
    destruct (IH _ _ _ O1 NF2 S) as (f2 & O2 & E2 & P2 & Q2).
    exists f2. split; [done|]. split; [by rewrite E2|]. split.
    + destruct P2 as [P2|P2]; [|by right]. rewrite P2. done.
    + rewrite Q2, Q1. unfold page_run, page_actions. simpl.
      destruct a; simpl; done.
Qed.

(** Flights never belong to a later epoch than the session. *)
Definition epoch_ok (w : World) : Prop :=
  forall f, refreshPromise w = Some f -> (refreshEpoch f <= authEpoch (shared w))%Z.

Lemma createRefreshRunner_epoch e m s :
  authEpoch (createRefreshRunner (runRefresh e m) s).2 = authEpoch s.
Proof.
  unfold createRefreshRunner. destruct (run (runRefresh e m) 0 true s) as [p s'] eqn:R.
  by apply run_answered in R as [-> _].
Qed.

Lemma step_epoch_ok w a m w' : epoch_ok w -> step w a m = Some w' -> epoch_ok w'.
Proof.
  intros I S. destruct a as [a| |e|]; cbn [step] in S.
  - injection S as <-. intros f R. simpl in *. pose proof (page_step_epoch a m (shared w)).
    specialize (I f R). lia.
  - injection S as <-. unfold refreshAuthentication.
    destruct (refreshPromise w) as [f|] eqn:R; [done|]. intros f. simpl. intros [= <-]. simpl.
    unfold performRefreshWithBrowserLock. destruct locks; simpl; [|lia|lia].
    rewrite createRefreshRunner_epoch. lia.
  - destruct (refreshPromise w) as [f|] eqn:R; [|done]. simpl in S.
    destruct (flight_step f e m (shared w)) as [[p s']|] eqn:F; [|done].
    simpl in S. injection S as <-. intros f'. simpl. intros [= <-]. simpl.
    apply flight_step_epoch in F. specialize (I f R). lia.
  - destruct (refreshPromise w) as [f|] eqn:R; [|done]. simpl in S.
    destruct (is_done _); [|done]. by injection S as <-.
Qed.

Lemma steps_invariant (P : World -> Prop) (ok : Action * Moment -> Prop) :
  (forall w a m w', P w -> ok (a, m) -> step w a m = Some w' -> P w') ->
  forall l w w', P w -> Forall ok l -> steps w l = Some w' -> P w'.
Proof.
  intros HP. induction l as [|[a m] l IH]; intros w w' Hw Hl S; simpl in S.
  - by injection S as <-.
  - inversion Hl; subst. destruct (step w a m) as [w1|] eqn:S1; [|done]. simpl in S.
    eapply IH; [|done|done]. by eapply HP.
Qed.

Lemma reachable_epoch_ok l w : steps initial_world l = Some w -> epoch_ok w.
Proof.
  intros S. eapply (steps_invariant epoch_ok (fun _ => True)); [| | |exact S].
  - intros. by eapply step_epoch_ok.
  - done.
  - by apply Forall_forall.
Qed.

(** C14: a refresh that was overtaken by a sign-in or sign-out has no effect:
    from any reachable state with a refresh in flight, once the user signs in
    or out, and for as long as that refresh's promise is held, the session
    after any further actions is exactly what those
    actions of the page make of it, as if the responses, timers and locks of
    the old refresh had never arrived; that refresh can only report that it
    was superseded (or that its lock was refused). *)
Theorem overtaken_refresh_invisible before w f a m l w' :
  steps initial_world before = Some w ->
  refreshPromise w = Some f ->
  (exists b sync, a = SignIn b sync) \/ (exists sync b, a = SignOut sync b) ->
  Forall (fun x => x.1 <> Finally) l ->
  steps w ((Page a, m) :: l) = Some w' ->
  shared w' = page_run (page_step a m (shared w)) (page_actions l) /\
  exists p, refreshPromise w' = Some (MkFlight (refreshEpoch f) p) /\
    (p = progress f \/ p = Settled superseded \/ exists v, p = Rejected v).
Proof.
  intros B R A NF S. apply reachable_epoch_ok in B. specialize (B f R).
  cbn [steps step mbind option_bind] in S.
  assert (overtaken (MkWorld (page_step a m (shared w)) (refreshPromise w)) f) as O.
  { split; [done|]. simpl. destruct A as [(b & sync & ->)|(sync & b & ->)]; simpl; lia. }
  destruct (overtaken_steps _ _ _ _ O NF S) as ([e p] & [R' L'] & E & P & Q).
  split; [done|]. exists p. simpl in *. by subst.
Qed.

(** ** The outcome and the state agree *)

(** An answer of status 409 with a code. *)
Definition told (name : str) (r : AuthRefreshHTTPResponse) : bool :=
  num_eqb (status r) (lit 409) && match get_field (data r) (js "code") with JStr c => str_eqb c name | _ => false end.

(** The server says that the tab's session is not the cookie's. *)
Definition told_mismatch (r : PostResult) : bool := told (js "AUTH_SESSION_MISMATCH") (requestRefresh r).

Definition mismatch_event (x : Action * Moment) : bool :=
  match x.1 with Flying (Posted r) => told_mismatch r | _ => false end.

(** The session a refresh that started from [s] leaves behind; [mismatch]: the server
    said so on the way. *)
Definition settles_as (mismatch : bool) (s : Session) (m : Moment) (o : RefreshOutcome) (s' : Session) : Prop :=
  match o with
  | OutcomeAuthenticated b =>
      bundle_valid b = true /\ auth s' = setBundle b (auth s) /\ authEpoch s' = (authEpoch s + 1)%Z /\ published s' = published s
  | OutcomeAnonymous =>
      auth s' = reset (Some Complete) (auth s) /\ authEpoch s' = (authEpoch s + 1)%Z /\
      published s' =
        match current_sid s with
        | Some old => if mismatch then published s else publishAuthSessionEvent SignedOut old m (published s)
        | None => published s
        end
  | OutcomeOutOfSync _ =>
      auth s' = reset (Some Complete) (auth s) /\ authEpoch s' = (authEpoch s + 1)%Z /\ published s' = published s
  | OutcomeTransientError AuthRefreshSupersededError => False
  | OutcomeTransientError (ErrorValue _) =>
      auth s' = (if mismatch then reset (Some Idle) (auth s) else setBootstrapState Idle (auth s)) /\
      authEpoch s' = authEpoch s /\ published s' = published s
  end.

Lemma publish_empty kind m l : publishAuthSessionEvent kind [] m l = l.
Proof. unfold publishAuthSessionEvent. by rewrite orb_true_r. Qed.

(** The session while the refresh that started from [s0] is in flight. *)
Definition waiting_as (mismatch : bool) (s0 s : Session) : Prop :=
  auth s = (if mismatch then reset (Some Idle) (auth s0) else auth s0) /\ authEpoch s = authEpoch s0 /\ published s = published s0.

Definition flight_as (mismatch : bool) (s0 : Session) (p : Progress) (s : Session) : Prop :=
  match p with
  | LockQueued => mismatch = false /\ waiting_as mismatch s0 s
  | AwaitRequest _ allow _ | AwaitTimer _ _ allow => allow = negb mismatch /\ waiting_as mismatch s0 s
  | Settled o => exists m, settles_as mismatch s0 m o s
  | Rejected _ => True
  end.

Lemma run_flight mismatch s0 m n s : waiting_as mismatch s0 s ->
  flight_as mismatch s0 (run (runRefresh (authEpoch s0) m) n (negb mismatch) s).1 (run (runRefresh (authEpoch s0) m) n (negb mismatch) s).2.
Proof. intros W. unfold run, stale. simpl. destruct W as (A & E & P). by rewrite E, Z.eqb_refl. Qed.

Lemma signed_out_flight mismatch s0 m s : waiting_as mismatch s0 s ->
  settles_as mismatch s0 m OutcomeAnonymous (clearAuthentication true None m s).
Proof.
  intros (A & E & P). simpl. rewrite E, P. split; [done|]. split; [done|]. unfold current_sid. rewrite A.
  destruct mismatch; simpl; [by destruct (session (auth s0))|]. destruct (session (auth s0)) as [x|]; [|done]. simpl.
  destruct (sid x); [|done]. simpl. by rewrite publish_empty.
Qed.

Lemma told_code r name :
  num_eqb (status r) (lit 409) && bool_decide (response_code (if isRecord (data r) then data r else JUndefined) = Some name) = told name r.
Proof.
  unfold told. f_equal. assert (forall v, bool_decide (read_string v = Some name) = match v with JStr c => str_eqb c name | _ => false end) as V.
  { intros []; cbn; try by apply bool_decide_eq_false_2. destruct (str_eqb s name) eqn:E.
    - apply bool_decide_eq_true_2. f_equal. by apply str_eqb_eq.
    - apply bool_decide_eq_false_2. intros [= ->]. by rewrite str_eqb_refl in E. }
  unfold response_code. rewrite V. by destruct (data r).
Qed.

Lemma told_once r a b : told a r = true -> told b r = true -> a = b.
Proof. unfold told. destruct (get_field _ _); rewrite ?andb_false_r; try done. rewrite !andb_true_iff, !str_eqb_eq. intros [_ ->] [_ <-]. done. Qed.

Lemma response_flight mismatch s0 m n r s : waiting_as mismatch s0 s ->
  let ps := on_response (runRefresh (authEpoch s0) m) n (negb mismatch) (requestRefresh r) s in
  flight_as (mismatch || told_mismatch r) s0 ps.1 ps.2.
Proof.
  intros W. pose proof W as (A & E & P). unfold on_response, told_mismatch. cbv zeta.
  assert (stale (runRefresh (authEpoch s0) m) s = false) as -> by (unfold stale; simpl; by rewrite E, Z.eqb_refl).
  rewrite !told_code. set (rr := requestRefresh r).
  assert (forall b code, exists m', settles_as b s0 m' (OutcomeOutOfSync code) (clearAuthentication false None m s)) as Lost.
  { intros b code. exists m. simpl. rewrite E, P. by destruct (current_sid s). }
  assert (told (js "AUTH_REFRESH_RACE") rr = true -> told (js "AUTH_SESSION_MISMATCH") rr = false) as Apart.
  { intros R. apply not_true_iff_false. intros M. by discriminate (told_once rr _ _ R M). }
  destruct (strict_eq_primitive _ _); [destruct (parseBundle _ _) as [b|] eqn:B|].
  { exists m. simpl. apply parse_refresh_bundle in B. by rewrite E, P. }
  all: destruct (told (js "AUTH_REFRESH_RACE") rr).
  1, 3: rewrite Apart, orb_false_r by done; destruct (_ !! n); [by split | apply Lost].
  all: destruct (told (js "AUTH_SESSION_MISMATCH") rr); [rewrite orb_true_r | rewrite orb_false_r].
  1, 3: destruct mismatch; [apply Lost | apply (run_flight true); by split_and!].
  all: destruct (num_eqb (status rr) (lit 401)); [exists m; by apply signed_out_flight |].
  all: destruct (transient_status _); [exists m; simpl; rewrite A; by destruct mismatch | apply Lost].
Qed.

Lemma flight_kept mismatch s0 f e m s p s' : refreshEpoch f = authEpoch s0 -> flight_as mismatch s0 (progress f) s ->
  flight_step f e m s = Some (p, s') -> flight_as (mismatch || mismatch_event (Flying e, m)) s0 p s'.
Proof.
  intros E F S. unfold flight_step in S. rewrite E in S. unfold mismatch_event. cbn [fst].
  destruct (progress f) as [|n allow sid0|d n allow|o|v], e as [|v'|r|]; try discriminate S; rewrite ?orb_false_r.
  - destruct F as [-> W]. injection S as S. pose proof (run_flight false s0 m 0 s W) as R. unfold createRefreshRunner in S.
    cbn [negb] in R. by rewrite S in R.
  - by injection S as <- <-.
  - destruct F as [-> W]. injection S as S. pose proof (response_flight mismatch s0 m n r s W) as R. cbv zeta in R. by rewrite S in R.
  - destruct F as [-> W]. injection S as S. pose proof (run_flight mismatch s0 m n s W) as R. by rewrite S in R.
Qed.

Lemma started_flight m s : let ps := performRefreshWithBrowserLock (authEpoch s) m s in flight_as false s ps.1 ps.2.
Proof.
  unfold performRefreshWithBrowserLock. destruct locks as [| |e]; [apply (run_flight false) | |]; [by split_and! | by split_and! |].
  by exists m.
Qed.

Definition is_flying (x : Action * Moment) : Prop := match x.1 with Flying _ => True | _ => False end.

Lemma flights_kept s0 l : Forall is_flying l -> forall mismatch w f w', refreshPromise w = Some f -> refreshEpoch f = authEpoch s0 ->
  flight_as mismatch s0 (progress f) (shared w) -> steps w l = Some w' ->
  exists f', refreshPromise w' = Some f' /\ flight_as (mismatch || existsb mismatch_event l) s0 (progress f') (shared w').
Proof.
  induction 1 as [|[a m] l Y _ IH]; intros mismatch w f w' R E F S.
  { injection S as <-. exists f. by rewrite orb_false_r. }
  destruct a as [| |e|]; try done. cbn [steps step] in S. rewrite R in S. cbn in S.
  destruct (flight_step f e m (shared w)) as [[p s']|] eqn:Q; [|done]. cbn in S. cbn [existsb]. rewrite orb_assoc.
  eapply (IH _ (fly (refreshEpoch f) (p, s')) (MkFlight (refreshEpoch f) p)); [done | done | | done].
  by apply (flight_kept mismatch s0 f e m (shared w)).
Qed.

(** C30: the outcome a refresh reports is the state it leaves.  For a refresh
    that is started and reports its outcome while no other code of the page
    changes the session, whatever the server answers and however often it is
    asked: authenticated means that the store now holds exactly the reported,
    guard-accepted bundle; anonymous and out-of-sync mean that the store is
    signed out and the check complete, and only anonymous, the server's verdict,
    tells the other tabs, about the session that was stored, and not when the
    server said on the way that the session is another one
    (AUTH_SESSION_MISMATCH); a transient error keeps the stored session and asks
    for another check, unless the server said so on the way, when the session
    is gone and another check is asked for; and no such refresh is reported as
    superseded. *)
Theorem refresh_outcome_state w m l w' f o :
  refreshPromise w = None -> Forall is_flying l -> steps w ((Call, m) :: l) = Some w' ->
  refreshPromise w' = Some f -> progress f = Settled o ->
  exists m', settles_as (existsb mismatch_event l) (shared w) m' o (shared w').
Proof.
  intros R Y S R' O. cbn [steps step] in S. unfold refreshAuthentication in S. rewrite R in S. cbn in S.
  set (ps := performRefreshWithBrowserLock _ _ _) in S. pose proof (started_flight m (shared w)) as F. cbv zeta in F. fold ps in F.
  destruct (flights_kept (shared w) l Y false (fly (authEpoch (shared w)) ps) _ w' eq_refl eq_refl F S) as (f' & Q & F').
  rewrite R' in Q. injection Q as <-. by rewrite O in F'.
Qed.

(** ** Invariant of the stored session *)

(** Token, expiry and session are stored and removed together, and what is
    stored has passed the guards. *)
Definition store_consistent (a : AuthState) : bool :=
  match accessToken a, accessExpiresAt a, session a with
  | Some t, Some e, Some s =>
      (0 <? length t)%nat && (is_finite e && num_ltb num_zero e) && session_valid s
  | None, None, None => true
  | _, _, _ => false
  end.

(** Everything ever told to other tabs came from this tab and named a session. *)
Definition event_ok (e : AuthSessionSyncEvent) : bool :=
  (0 <? length (event_sid e))%nat && str_eqb (event_source e) authSyncSource.

Definition progress_ok (p : Progress) : bool :=
  match p with Settled (OutcomeAuthenticated b) => bundle_valid b | _ => true end.

Record world_ok (w : World) : Prop := {
  ok_store : store_consistent (auth (shared w)) = true;
  ok_published : forallb event_ok (published (shared w)) = true;
  ok_epoch : epoch_ok w;
  ok_progress : forall f, refreshPromise w = Some f -> progress_ok (progress f) = true
}.

(** The page signs in with guard-accepted bundles only. *)
Definition action_ok (x : Action * Moment) : Prop :=
  match x.1 with Page (SignIn b _) => bundle_valid b = true | _ => True end.

Lemma publish_ok kind old m l :
  forallb event_ok l = true -> forallb event_ok (publishAuthSessionEvent kind old m l) = true.
Proof.
  intros L. unfold publishAuthSessionEvent. destruct (negb has_window); [done|].
  destruct (Nat.eqb_spec (length old) 0) as [E|E]; [done|]. simpl.
  rewrite forallb_app, L. simpl. unfold event_ok. simpl. rewrite andb_true_r.
  apply andb_true_iff. split; [by apply Nat.ltb_lt; lia|]. by apply bool_decide_eq_true.
Qed.

Definition session_ok (s : Session) : Prop :=
  store_consistent (auth s) = true /\ forallb event_ok (published s) = true.

Lemma setBundle_consistent b a :
  bundle_valid b = true -> store_consistent (setBundle b a) = true.
Proof.
  unfold bundle_valid, token_valid, store_consistent. simpl. intros V. split_andb.
  repeat (apply andb_true_iff; split); done.
Qed.

Lemma applyAuthBundle_ok b sync m s :
  bundle_valid b = true -> session_ok s -> session_ok (applyAuthBundle b sync m s).
Proof.
  intros V [C P]. split; [by apply setBundle_consistent|]. simpl.
  destruct (sync && _); [by apply publish_ok|done].
Qed.

Lemma clearAuthentication_ok sync b m s :
  session_ok s -> session_ok (clearAuthentication sync b m s).
Proof.
  intros [C P]. split; [done|]. simpl.
  destruct (current_sid s) as [old|]; [|done]. destruct (sync && _); [by apply publish_ok|done].
Qed.

Lemma page_step_ok a m s :
  action_ok (Page a, m) -> session_ok s -> session_ok (page_step a m s).
Proof.
  intros A I. destruct a as [b sync|v|sync b|u|p|b]; simpl.
  - by apply applyAuthBundle_ok.
  - destruct (applyAuthRotation v m s) as [s'| |] eqn:R; [|done|done].
    apply applyAuthRotation_inv in R as (r & u & active & _ & V & _ & _ & _ & ->).
    destruct I as [C P]. split; [|done].
    unfold store_consistent, rotation_valid, token_valid in *. simpl. split_andb.
    repeat (apply andb_true_iff; split); done.
  - by apply clearAuthentication_ok.
  - done.
  - done.
  - done.
Qed.

Lemma answered_ok e m s p s' :
  answered e m s p s' -> session_ok s -> session_ok s' /\ progress_ok p = true.
Proof.
  intros A I. inversion A; subst; split; try done;
    first [by apply applyAuthBundle_ok|by apply clearAuthentication_ok|by destruct I].
Qed.

Lemma flight_step_ok f e m s p s' :
  flight_step f e m s = Some (p, s') -> session_ok s -> session_ok s' /\ progress_ok p = true.
Proof.
  intros F I. apply flight_step_inv in F as [(v & -> & ->)|[(_ & -> & n & allow & ->)|A]];
    [done|done|by eapply answered_ok].
Qed.

Lemma refreshAuthentication_ok m s :
  session_ok s ->
  let ps := performRefreshWithBrowserLock (authEpoch s) m s in
  session_ok ps.2 /\ progress_ok ps.1 = true.
Proof.
  intros I. unfold performRefreshWithBrowserLock. destruct locks; simpl; [|done|done].
  unfold createRefreshRunner.
  destruct (run (runRefresh (authEpoch s) m) 0 true s) as [p s'] eqn:R.
  apply run_answered in R as [-> [[_ ->]|[_ ->]]]; done.
Qed.

Lemma step_ok w a m w' : world_ok w -> action_ok (a, m) -> step w a m = Some w' -> world_ok w'.
Proof.
  intros [C P E G] A S. pose proof (step_epoch_ok _ _ _ _ E S) as E'.
  assert (session_ok (shared w')
    /\ forall f, refreshPromise w' = Some f -> progress_ok (progress f) = true)
    as [[C' P'] G']; [|by constructor].
  assert (session_ok (shared w)) as I by done.
  destruct a as [a| |e|]; cbn [step] in S.
  - injection S as <-. split; [|done]. by apply page_step_ok.
  - injection S as <-. unfold refreshAuthentication.
    destruct (refreshPromise w) as [f|] eqn:R; [by split; [|rewrite R]|].
    pose proof (refreshAuthentication_ok m _ I) as [I' G']. split; [done|].
    intros f. simpl. by intros [= <-].
  - destruct (refreshPromise w) as [f|] eqn:R; [|done]. simpl in S.
    destruct (flight_step f e m (shared w)) as [[p s']|] eqn:F; [|done].
    simpl in S. injection S as <-. destruct (flight_step_ok _ _ _ _ _ _ F I) as [I' G'].
    split; [done|]. intros f'. simpl. by intros [= <-].
  - destruct (refreshPromise w) as [f|] eqn:R; [|done]. simpl in S.
    destruct (is_done _); [|done]. by injection S as <-.
Qed.

Lemma initial_world_ok : world_ok initial_world.
Proof. by constructor. Qed.

(** C34: when the page signs in with guard-accepted bundles only, in every
    reachable state the access token, its expiry and the session
    are stored together or not at all and are ones the guards accepted, no
    refresh reports a bundle that is not, every message to other tabs names a
    session, and a refresh never belongs to a later epoch than the session. *)
Theorem session_invariant l w :
  Forall action_ok l -> steps initial_world l = Some w -> world_ok w.
Proof.
  intros A S. eapply (steps_invariant world_ok action_ok); [| |exact A|exact S].
  - intros. by eapply step_ok.
  - apply initial_world_ok.
Qed.

(** ** Token rotation *)

(** a rotated token replaces the token of the active session and nothing
    else: it is taken only from a guard-accepted Bearer response for the same
    session identifier, keeps the user and the session identifier, and tells
    no other tab; each of the three errors is raised exactly when its
    condition holds. *)
Theorem rotation_keeps_identity v m s :
  match applyAuthRotation v m s with
  | Ok s' =>
      exists r, as_AuthTokenRotation v = Some r /\ rotation_valid r = true /\
        user (auth s') = user (auth s) /\ user (auth s) <> None /\
        current_sid s' = current_sid s /\ current_sid s <> None /\
        accessToken (auth s') = Some (rotation_access_token r) /\
        accessExpiresAt (auth s') = Some (rotation_access_expires_at r) /\
        authEpoch s' = (authEpoch s + 1)%Z /\ published s' = published s
  | Throw InvalidRotationResponse => isAuthTokenRotation v = false
  | Throw RotationHasNoActiveSession =>
      isAuthTokenRotation v = true /\ (user (auth s) = None \/ session (auth s) = None)
  | Throw RotationSessionMismatch =>
      isAuthTokenRotation v = true /\
      exists r, as_AuthTokenRotation v = Some r /\
        current_sid s <> None /\ current_sid s <> Some (sid (rotation_session r))
  | OutOfFuel => False
  end.
Proof.
  destruct (applyAuthRotation v m s) as [s'|err|] eqn:R.
  - apply applyAuthRotation_inv in R as (r & u & active & A & V & U & S & E & ->).
    exists r. unfold current_sid. rewrite U, S. simpl. by rewrite E.
  - pose proof (isAuthTokenRotation_exact v) as G. revert R. unfold applyAuthRotation.
    destruct (as_AuthTokenRotation v) as [r|]; rewrite G; [|by intros [= <-]].
    destruct (rotation_valid r); simpl; [|by intros [= <-]]. unfold current_sid.
    destruct (user (auth s)), (session (auth s)) as [active|]; simpl; try (intros [= <-]; by auto).
    unfold str_eqb. case_bool_decide as Q; simpl; intros [= <-].
    split; [done|]. exists r. split; [done|]. split; [done|]. congruence.
  - revert R. unfold applyAuthRotation. repeat case_match; done.
Qed.

(** ** Deciding what the visitor sees *)

(** the synchronous answers of [resolveAuthentication] are justified: it
    reports a session only when the store holds one whose token has not
    expired, and reports an anonymous visitor only when a check has completed
    and no session is left over; otherwise a refresh is in flight. *)
Theorem resolve_answers m w :
  let a := auth (shared w) in
  match resolveAuthentication m w with
  | (w', Now (OutcomeAuthenticated b)) =>
      Some (access_token b) = accessToken a /\ Some (access_expires_at b) = accessExpiresAt a /\
      Some (bundle_user b) = user a /\ Some (bundle_session b) = session a /\
      token_type b = js "Bearer" /\ access_token b <> [] /\
      num_leb (access_expires_at b) (now_seconds m) = false /\
      w' = MkWorld (with_auth (setBootstrapState Complete) (shared w)) (refreshPromise w)
  | (w', Now OutcomeAnonymous) =>
      w' = w /\ bootstrapState a = Complete /\ (user a = None \/ session a = None)
  | (w', Now _) => False
  | (w', WhenRefreshed) => refreshPromise w' <> None
  end.
Proof.
  cbv zeta. unfold resolveAuthentication.
  destruct (currentValidAuthBundle m (auth (shared w))) as [b|] eqn:V.
  - revert V. unfold currentValidAuthBundle. repeat (case_match; try done).
    intros [= <-]. simpl. split_andb.
    match goal with T : truthy_string (Some ?t) = true |- _ => destruct t; [done|] end.
    by split_and!.
  - destruct (bool_decide (bootstrapState _ = _) && _) eqn:D.
    + split_andb. split; [done|]. split; [done|].
      apply andb_false_iff in H1 as [N|N]; apply bool_decide_eq_false_1 in N;
        [left|right]; by apply dec_stable.
    + unfold refreshAuthentication. simpl. by destruct (refreshPromise w).
Qed.

(** C39: a missing session hint only postpones the check: for a visitor with no
    session in memory and no hint, whose check is not complete yet (as it is
    after the server's verdict or a sign-out), booting changes nothing and sends
    nothing, and the first page that needs an answer still starts a refresh, so
    a valid refresh cookie is honoured. *)
Theorem hintless_visitor_recovers cookie m m' w :
  hasSessionHint cookie = false ->
  user (auth (shared w)) = None -> session (auth (shared w)) = None ->
  bootstrapState (auth (shared w)) <> Complete ->
  bootstrapAuthentication cookie m w = (w, Now OutcomeAnonymous) /\
  (resolveAuthentication m' w).2 = WhenRefreshed /\
  refreshPromise (resolveAuthentication m' w).1 <> None.
Proof.
  intros Hc U S B.
  assert (forall k, currentValidAuthBundle k (auth (shared w)) = None) as V.
  { intros k. unfold currentValidAuthBundle. by rewrite U. }
  unfold bootstrapAuthentication, resolveAuthentication. rewrite !V, Hc, U, S. simpl.
  rewrite (bool_decide_eq_false_2 (_ = Complete)) by done. simpl.
  split; [done|]. split; [done|]. unfold refreshAuthentication. simpl.
  by destruct (refreshPromise w).
Qed.

(** ** Headers of authenticated requests *)

Definition bearer_headers (t : str) : list (str * str) :=
  [(js "Content-Type", js "application/json"); (js "Authorization", js "Bearer " ++ t)].

Lemma common_headers_bearer a t :
  accessToken a = Some t -> t <> [] -> getCommonHeaders a = bearer_headers t.
Proof. intros A N. unfold getCommonHeaders. rewrite A. by destruct t. Qed.

Lemma token_outlives_inv a k :
  token_outlives a k = true ->
  exists t e, accessToken a = Some t /\ t <> [] /\ accessExpiresAt a = Some e /\
    num_ltb k e = true.
Proof.
  unfold token_outlives. intros T. split_andb.
  destruct (accessToken a) as [[|c t]|]; [done| |done].
  destruct (accessExpiresAt a) as [e|]; [|done]. by exists (c :: t), e.
Qed.

(** Every request that asks for fresh headers carries a usable token: at
    once only when the stored token outlives the next minute; after a refresh
    that settled as authenticated, the token of the bundle it installed;
    after any other outcome, a stored token that has not expired yet; and it
    fails only when there is none, with the refresh's error when that was
    transient. *)
Theorem fresh_headers_usable m w f e m1 s o s' m' :
  flight_step f e m1 s = Some (Settled o, s') ->
  match getFreshAuthHeaders m w with
  | (w', Some h) =>
      w' = w /\ exists t x, accessToken (auth (shared w)) = Some t /\
        accessExpiresAt (auth (shared w)) = Some x /\
        num_ltb (num_add (now_seconds m) (lit 60)) x = true /\ h = bearer_headers t
  | (w', None) => refreshPromise w' <> None
  end /\
  match headers_after o m' (auth s') with
  | Ok h =>
      (exists b, o = OutcomeAuthenticated b /\ h = bearer_headers (access_token b)) \/
      (exists t x, accessToken (auth s') = Some t /\ accessExpiresAt (auth s') = Some x /\
         num_ltb (now_seconds m') x = true /\ h = bearer_headers t)
  | Throw (RequestFailed c) =>
      o = OutcomeTransientError c /\ token_outlives (auth s') (now_seconds m') = false
  | Throw SessionExpired =>
      (o = OutcomeAnonymous \/ exists c, o = OutcomeOutOfSync c) /\
      token_outlives (auth s') (now_seconds m') = false
  | OutOfFuel => False
  end.
Proof.
  intros F. split.
  - unfold getFreshAuthHeaders.
    destruct (token_outlives _ (num_add _ _)) eqn:T.
    + apply token_outlives_inv in T as (t & x & A & N & X & L). split; [done|].
      exists t, x. by rewrite (common_headers_bearer _ _ A N).
    + unfold refreshAuthentication. by destruct (refreshPromise w) eqn:R; [rewrite R|].
  - assert (token_outlives (auth s') (now_seconds m') = true ->
      exists t x, accessToken (auth s') = Some t /\ accessExpiresAt (auth s') = Some x /\
         num_ltb (now_seconds m') x = true /\
         getCommonHeaders (auth s') = bearer_headers t) as K.
    { intros T. apply token_outlives_inv in T as (t & x & A & N & X & L).
      exists t, x. by rewrite (common_headers_bearer _ _ A N). }
    apply flight_step_inv in F as [(v & [= ] & _)|[(_ & _ & n & allow & [= ])|A]].
    destruct o as [b| |c|c]; simpl;
      try (destruct (token_outlives _ _); [right; by apply K|by eauto]).
    left. exists b. split; [done|]. inversion A; subst. apply common_headers_bearer; [done|].
    unfold bundle_valid, token_valid in *. split_andb. by destruct (access_token b).
Qed.
End World.

(** ** Messages between tabs *)

Lemma event_value_valid e :
  isAuthSessionSyncEvent (event_value e) = (0 <? length (event_sid e))%nat.
Proof.
  destruct e as [k i src n t].
  unfold isAuthSessionSyncEvent, event_value. cbn [event_kind event_sid event_source event_nonce event_timestamp].
  destruct k; str_compute; by rewrite ?andb_true_r.
Qed.

Lemma event_value_source e : get_field (event_value e) (js "source") = JStr (event_source e).
Proof. unfold event_value. by str_compute. Qed.
Lemma event_value_timestamp e :
  get_field (event_value e) (js "timestamp") = JNum (event_timestamp e).
Proof. unfold event_value. by str_compute. Qed.

(** a sign-out or sign-in announced by one tab reaches exactly the other
    tabs: every event a page publishes is accepted by a tab with another
    source identifier within a minute, is never taken by the tab that sent
    it, and is dropped once it is a minute old. *)
Theorem sync_reaches_other_tabs (sender receiver : Tab) kind s m m' l e :
  e ∈ @publishAuthSessionEvent sender kind s m l -> e ∉ l ->
  @deliver sender (event_value e) m' = false /\
  @deliver receiver (event_value e) m' =
    negb (str_eqb (@authSyncSource sender) (@authSyncSource receiver)) &&
    num_ltb (num_abs (num_sub (date_now m') (date_now m))) (lit 60000).
Proof.
  unfold publishAuthSessionEvent.
  destruct (negb has_window); [done|]. simpl.
  destruct (Nat.eqb_spec (length s) 0) as [Z|Z]; [done|].
  rewrite elem_of_app, list_elem_of_singleton. intros [?| ->] N; [done|]. clear N.
  unfold deliver. rewrite event_value_valid, event_value_source, event_value_timestamp.
  assert ((0 <? length s)%nat = true) as L by (apply Nat.ltb_lt; lia).
  cbn [event_sid event_source event_timestamp strict_eq_primitive]. rewrite L. simpl.
  unfold str_eqb. by rewrite (bool_decide_eq_true_2 (authSyncSource = authSyncSource)).
Qed.

(** ** Examples *)

Definition tab_a : Tab :=
  {| has_window := true; authSyncSource := js "a"; locks := LocksMissing |}.
Definition tab_b : Tab :=
  {| has_window := true; authSyncSource := js "b"; locks := LocksAvailable |}.
Definition noon : Moment := MkMoment (lit 1000000) (js "n1").

Definition example_user : AuthUser := MkAuthUser (lit 1) (js "root") (lit 100) [].
Definition example_session : LoginSession :=
  MkLoginSession (js "s1") true (js "password") (js "::1") (js "ua") (lit 1) (lit 2) (lit 9000).
Definition example_bundle : AuthBundle :=
  MkAuthBundle (js "tok") (js "Bearer") (lit 5000) example_user example_session.
Definition example_bundle_value : jsval :=
  JObj [(js "access_token", JStr (js "tok")); (js "token_type", JStr (js "Bearer"));
        (js "access_expires_at", JNum (lit 5000));
        (js "user", JObj [(js "id", JNum (lit 1)); (js "username", JStr (js "root"));
                          (js "role", JNum (lit 100))]);
        (js "session", JObj [(js "sid", JStr (js "s1")); (js "current", JBool true);
                             (js "login_method", JStr (js "password"));
                             (js "ip", JStr (js "::1")); (js "user_agent", JStr (js "ua"));
                             (js "created_at", JNum (lit 1));
                             (js "last_active_at", JNum (lit 2));
                             (js "expires_at", JNum (lit 9000))])].
Definition example_reply : PostResult :=
  PostResponse (lit 200) (JObj [(js "success", JBool true); (js "data", example_bundle_value)]).
Definition race_reply : PostResult :=
  PostAxiosError (Some (lit 409, JObj [(js "code", JStr (js "AUTH_REFRESH_RACE"))])) JUndefined.

#[local] Existing Instance tab_a.

Lemma refresh_terminates_witness :
  exists ps,
    run_script (runRefresh 0 noon) (createRefreshRunner (runRefresh 0 noon) (shared initial_world))
      [(Datatypes.id, Replied (requestRefresh race_reply));
       (Datatypes.id, TimerFired);
       (Datatypes.id, Replied (requestRefresh example_reply))] = Some ps /\
    is_done ps.1 = true /\ 3 <= 14.
Proof.
  eexists. split; [vm_compute; reflexivity|]. split; [reflexivity|].
  refine (proj1 (refresh_terminates (runRefresh 0 noon) (shared initial_world)
    [(Datatypes.id, Replied (requestRefresh race_reply));
     (Datatypes.id, TimerFired);
     (Datatypes.id, Replied (requestRefresh example_reply))] _ _)).
  vm_compute. reflexivity.
Defined.

Lemma overtaken_refresh_invisible_witness :
  exists w', steps (refreshAuthentication noon initial_world)
      [(Page (SignOut true None), noon); (Flying (Posted example_reply), noon)] = Some w' /\
    shared w' = page_run (clearAuthentication true None noon (shared initial_world)) [].
Proof.
  eexists. split; [vm_compute; reflexivity|].
  exact (proj1 (overtaken_refresh_invisible [(Call, noon)]
    (refreshAuthentication noon initial_world)
    (MkFlight 0 (AwaitRequest 0 true None)) (SignOut true None) noon
    [(Flying (Posted example_reply), noon)] _
    eq_refl eq_refl (or_intror (ex_intro _ _ (ex_intro _ _ eq_refl)))
    ltac:(by constructor; [|constructor]) eq_refl)).
Defined.

Definition mismatch_reply : PostResult :=
  PostAxiosError (Some (lit 409, JObj [(js "code", JStr (js "AUTH_SESSION_MISMATCH"))])) JUndefined.
Definition unavailable_reply : PostResult := PostAxiosError (Some (lit 503, JNull)) JUndefined.

(** Unavailable after a mismatch: the session is gone and nothing was published. *)
Lemma refresh_outcome_state_witness :
  exists w' m', steps (MkWorld (applyAuthBundle example_bundle false noon (shared initial_world)) None)
      [(Call, noon); (Flying (Posted mismatch_reply), noon); (Flying (Posted unavailable_reply), noon)] = Some w' /\
    settles_as true (applyAuthBundle example_bundle false noon (shared initial_world)) m' (OutcomeTransientError (ErrorValue JNull)) (shared w') /\
    session (auth (shared w')) = None.
Proof.
  eexists. destruct (refresh_outcome_state (MkWorld (applyAuthBundle example_bundle false noon (shared initial_world)) None) noon
    [(Flying (Posted mismatch_reply), noon); (Flying (Posted unavailable_reply), noon)]
    (fly 1 (Settled (OutcomeTransientError (ErrorValue JNull)),
       MkSession (reset (Some Idle) initial_auth) 1 [])) (MkFlight 1 (Settled (OutcomeTransientError (ErrorValue JNull))))
    (OutcomeTransientError (ErrorValue JNull)) eq_refl ltac:(by repeat constructor) ltac:(vm_compute; reflexivity) eq_refl eq_refl) as (m' & S).
  exists m'. split; [vm_compute; reflexivity |]. split; [exact S | reflexivity].
Defined.

Lemma session_invariant_witness :
  exists w, steps initial_world
    [(Call, noon); (Flying (Posted example_reply), noon); (Finally, noon);
     (Page (SignIn example_bundle true), noon)] = Some w /\ world_ok w.
Proof.
  eexists. split; [vm_compute; reflexivity|].
  apply (session_invariant
    [(Call, noon); (Flying (Posted example_reply), noon); (Finally, noon);
     (Page (SignIn example_bundle true), noon)]).
  - repeat constructor.
  - vm_compute. reflexivity.
Defined.

Lemma hintless_visitor_recovers_witness :
  bootstrapAuthentication (Some (js "theme=dark")) noon initial_world
    = (initial_world, Now OutcomeAnonymous).
Proof.
  refine (proj1 (hintless_visitor_recovers (Some (js "theme=dark")) noon noon initial_world
    _ _ _ _)); [vm_compute; reflexivity|reflexivity|reflexivity|discriminate].
Defined.

Lemma fresh_headers_usable_witness :
  exists s', flight_step (MkFlight 0 (AwaitRequest 0 true None)) (Posted example_reply) noon
      (shared initial_world) = Some (Settled (OutcomeAuthenticated example_bundle), s') /\
    (getFreshAuthHeaders noon initial_world).2 = None /\
    headers_after (OutcomeAuthenticated example_bundle) noon (auth s')
      = Ok (bearer_headers (js "tok")).
Proof.
  eexists. split; [vm_compute; reflexivity|].
  pose proof (fresh_headers_usable noon initial_world (MkFlight 0 (AwaitRequest 0 true None))
    (Posted example_reply) noon (shared initial_world) (OutcomeAuthenticated example_bundle)
    _ noon eq_refl) as [_ _].
  split; reflexivity.
Defined.

Lemma sync_reaches_other_tabs_witness :
  exists e, e ∈ @publishAuthSessionEvent tab_a SignedOut (js "s1") noon [] /\
    @deliver tab_b (event_value e) noon = true.
Proof.
  eexists. split; [by left|].
  rewrite (proj2 (sync_reaches_other_tabs tab_a tab_b SignedOut (js "s1") noon noon [] _
    ltac:(by left) ltac:(by apply not_elem_of_nil))).
  vm_compute. reflexivity.
Defined.

(** A refused browser lock leaves the check open: the [catch] of
    [performRefreshWithBrowserLock] does not see the rejection of the promise it
    returns without awaiting, so that the refresh reports no outcome and the
    bootstrap state stays at checking. *)
Example refused_lock_stays_checking :
  exists w', @step tab_b (@resolveAuthentication tab_b noon initial_world).1 (Flying (LockRejected JNull)) noon = Some w' /\
    refreshPromise w' = Some (MkFlight 0 (Rejected JNull)) /\ bootstrapState (auth (shared w')) = Checking.
Proof. eexists. split; [vm_compute; reflexivity|]. by split. Qed.
