(* ===== verification/TierExpr.v ===== *)
(** * The tier editor's expressions and its estimator

    Models the generator and the cost estimator of
    [features/pricing/lib/tier-expr.ts] with the variable registry of
    [billing-expr.ts] they read.  Prices are numbers as in the [VisualTier]
    type; its index signature is an association list from field names. *)

From Stdlib Require Import ZArith Lia Bool SpecFloat.
From stdpp Require Import base list numbers.
From S2P Require Import Prelude JsString JsObject JsNumber JsValue JsHost ExprTypes ExprCompile ExprCompileFacts ExprRuntime ExprRuntimeSim ExprGuarantees.

(** ** billing-expr.ts: the variable registry *)

Inductive Side := side_input | side_output | side_condition.

Record BillingVar := MkBillingVar {
  bv_key : str;
  bv_field : option str;
  bv_tierField : option str;
  bv_label : str;
  bv_shortLabel : str;
  bv_side : Side;
  bv_isBase : bool;
  bv_isConditionOnly : bool;
  bv_group : option str
}.

Definition BILLING_VARS : list BillingVar :=
  [MkBillingVar (js "p") (Some (js "inputPrice")) (Some (js "input_unit_cost"))
     (js "Input price") (js "Input") side_input true false None;
   MkBillingVar (js "c") (Some (js "outputPrice")) (Some (js "output_unit_cost"))
     (js "Completion price") (js "Output") side_output true false None;
   MkBillingVar (js "len") None None (js "Input length") (js "Length")
     side_condition false true None;
   MkBillingVar (js "cr") (Some (js "cacheReadPrice")) (Some (js "cache_read_unit_cost"))
     (js "Cache read price") (js "Cache Read") side_input false false (Some (js "cache"));
   MkBillingVar (js "cc") (Some (js "cacheCreatePrice")) (Some (js "cache_create_unit_cost"))
     (js "Cache create price") (js "Cache Write") side_input false false (Some (js "cache"));
   MkBillingVar (js "img_cr") (Some (js "imageCachePrice")) (Some (js "image_cache_unit_cost"))
     (js "Image cache input price") (js "Image Cache") side_input false false
     (Some (js "cache"));
   MkBillingVar (js "cc1h") (Some (js "cacheCreate1hPrice"))
     (Some (js "cache_create_1h_unit_cost")) (js "Cache create (1h) price")
     (js "Cache Write (1h)") side_input false false (Some (js "cache"));
   MkBillingVar (js "img") (Some (js "imagePrice")) (Some (js "image_unit_cost"))
     (js "Image input price") (js "Image In") side_input false false (Some (js "media"));
   MkBillingVar (js "img_o") (Some (js "imageOutputPrice")) (Some (js "image_output_unit_cost"))
     (js "Image output price") (js "Image Out") side_output false false (Some (js "media"));
   MkBillingVar (js "ai") (Some (js "audioInputPrice")) (Some (js "audio_input_unit_cost"))
     (js "Audio input price") (js "Audio In") side_input false false (Some (js "media"));
   MkBillingVar (js "ao") (Some (js "audioOutputPrice")) (Some (js "audio_output_unit_cost"))
     (js "Audio output price") (js "Audio Out") side_output false false (Some (js "media"))].

Definition BILLING_CONDITION_VARS : list str :=
  map bv_key (List.filter (fun v => bv_isBase v || bv_isConditionOnly v) BILLING_VARS).

Definition BILLING_EXTRA_VARS : list BillingVar :=
  List.filter (fun v => negb (bv_isBase v) && negb (bv_isConditionOnly v)) BILLING_VARS.

(** Pairs [(field, exprVar)]; every extra variable has a tier field. *)
Definition BILLING_CACHE_VAR_MAP : list (str * str) :=
  map (fun v => (default [] (bv_tierField v), bv_key v)) BILLING_EXTRA_VARS.

(** ** Generating an expression from the tier form *)

Inductive ConditionValue := ValueNumber (n : num) | ValueText (s : str) | ValueMissing.

Record TierConditionInput := MkConditionInput {
  ci_var : str;
  ci_op : str;
  ci_value : ConditionValue
}.

Inductive CacheMode := cache_mode_timed | cache_mode_generic.

Record VisualTier := MkVisualTier {
  vt_billing_unit : option BillingUnit;
  vt_fixed_price : option str;
  vt_label : str;
  vt_conditions : list TierConditionInput;
  vt_unit_costs : list (str * num);
  vt_cache_mode : CacheMode
}.

(** [Number(tier[field]) || 0] *)
Definition unit_cost (tier : VisualTier) (field : str) : num :=
  match assoc_str (vt_unit_costs tier) field with
  | Some n => if is_nan n || num_eqb n num_zero then num_zero else n
  | None => num_zero
  end.

Definition condition_complete (c : TierConditionInput) : bool :=
  negb (str_eqb (ci_var c) []) && negb (str_eqb (ci_op c) []) &&
  match ci_value c with
  | ValueNumber _ => true
  | ValueText s => negb (str_eqb s [])
  | ValueMissing => false
  end.

Definition value_string (v : ConditionValue) : str :=
  match v with ValueNumber n => string_of_num n | ValueText s => s | ValueMissing => [] end.

Definition buildConditionStr (conditions : list TierConditionInput) : str :=
  join (js " && ")
    (map (fun c => ci_var c ++ js " " ++ ci_op c ++ js " " ++ value_string (ci_value c))
       (List.filter condition_complete conditions)).

Definition extra_terms (tier : VisualTier) : list str :=
  omap (fun cv =>
    let v := unit_cost tier cv.1 in
    if num_eqb v num_zero then None else Some (cv.2 ++ js " * " ++ string_of_num v))
    BILLING_CACHE_VAR_MAP.

Definition buildTierBodyExpr (tier : VisualTier) : str :=
  match vt_billing_unit tier with
  | Some unit_request => js "fixed(" ++ default [] (vt_fixed_price tier) ++ js ")"
  | _ =>
      join (js " + ")
        ([js "p * " ++ string_of_num (unit_cost tier (js "input_unit_cost"));
          js "c * " ++ string_of_num (unit_cost tier (js "output_unit_cost"))]
         ++ extra_terms tier)
  end.

Definition tier_call (fallback : str) (tier : VisualTier) : str :=
  let label := match vt_label tier with [] => fallback | l => l end in
  js "tier(" ++ [quote_unit] ++ label ++ [quote_unit] ++ js ", " ++
    buildTierBodyExpr tier ++ js ")".

Fixpoint tier_parts (i : nat) (tiers : list VisualTier) : list str :=
  match tiers with
  | [] => []
  | tier :: rest =>
      let body := tier_call (js "tier_" ++ string_of_nat (i + 1)) tier in
      let cond := buildConditionStr (vt_conditions tier) in
      (match rest, cond with
       | _ :: _, _ :: _ => cond ++ js " ? " ++ body
       | _, _ => body
       end) :: tier_parts (i + 1) rest
  end.

(** [None]: no configuration. *)
Definition generateExprFromVisualConfig (config : option (list VisualTier)) : str :=
  match config with
  | None | Some [] => js "p * 0 + c * 0"
  | Some [tier] =>
      let body := tier_call (js "default") tier in
      match buildConditionStr (vt_conditions tier) with
      | [] => body
      | cond => cond ++ js " ? " ++ body ++ js " : p * 0 + c * 0"
      end
  | Some tiers => join (js " : ") (tier_parts 0 tiers)
  end.

(** ** The estimator *)

Record ExtraTokenValues := MkExtraTokens {
  cacheReadTokens : num;
  cacheCreateTokens : num;
  cacheCreate1hTokens : num;
  imageTokens : num;
  imageCacheTokens : num;
  imageOutputTokens : num;
  audioInputTokens : num;
  audioOutputTokens : num
}.

Definition ESTIMATOR_VARS : list (str * (ExtraTokenValues -> num)) :=
  [(js "cr", cacheReadTokens); (js "cc", cacheCreateTokens); (js "cc1h", cacheCreate1hTokens);
   (js "img", imageTokens); (js "img_cr", imageCacheTokens); (js "img_o", imageOutputTokens);
   (js "ai", audioInputTokens); (js "ao", audioOutputTokens)].

Definition estimator_len (promptTokens : num) (ex : ExtraTokenValues) : num :=
  fold_left num_add
    [cacheReadTokens ex; imageCacheTokens ex; imageTokens ex; audioInputTokens ex;
     cacheCreateTokens ex; cacheCreate1hTokens ex] promptTokens.

Definition buildEstimatorTokens (promptTokens completionTokens : num) (ex : ExtraTokenValues)
    : list (str * jsval) :=
  [(js "p", JNum promptTokens); (js "c", JNum completionTokens);
   (js "len", JNum (estimator_len promptTokens ex))] ++
  map (fun field => (field.1, JNum (field.2 ex))) ESTIMATOR_VARS.

(** [{ ...a, ...b }] *)
Definition object_spread {A} (a b : list (str * A)) : list (str * A) :=
  fold_left (fun acc kv => obj_put acc kv.1 kv.2) b a.

Definition estimator_context (promptTokens completionTokens : num) (ex : ExtraTokenValues)
    (context : option BillingSimulationContext) : BillingSimulationContext :=
  let base := default empty_context context in
  {| ctx_imageCount := ctx_imageCount base;
     ctx_tokens := Some (object_spread
       (buildEstimatorTokens promptTokens completionTokens ex)
       (default [] (ctx_tokens base)));
     ctx_request := ctx_request base;
     ctx_usage := ctx_usage base;
     ctx_now := ctx_now base |}.

Record EvalResult := MkEvalResult {
  er_cost : num;
  er_matchedTier : str;
  er_error : option str;
  er_billingUnit : option BillingUnit
}.

Definition evalExprLocally `{JSHost} (cache : compiled_cache) (exprStr : str)
    (promptTokens completionTokens : num) (ex : ExtraTokenValues)
    (context : option BillingSimulationContext) : EvalResult * compiled_cache :=
  match trim exprStr with
  | [] => (MkEvalResult num_zero [] None None, cache)
  | _ =>
      let '(result, cache') := evaluateBillingExpression cache exprStr
        (estimator_context promptTokens completionTokens ex context) in
      (match result with
       | EvalFailure f => MkEvalResult num_zero [] (Some (diag_detail (failure_diagnostic f))) None
       | EvalSuccess r =>
           MkEvalResult (cost r) (matchedTier r) None
             (match billingUnit r with
              | unit_request => Some unit_request
              | _ => None
              end)
       end, cache')
  end.

Definition exprUsesExtraVars (cache : compiled_cache) (exprStr : str) : bool * compiled_cache :=
  match exprStr with
  | [] => (false, cache)
  | _ =>
      let '(compiled, cache') := compileBillingExpression cache exprStr in
      (match compiled with
       | Ready c => existsb (fun field => includes_str (compiled_variables c) field.1) ESTIMATOR_VARS
       | Failed _ => false
       end, cache')
  end.

(** ** Objects *)

(** What an object is spread over shows only where it is not overwritten. *)
Lemma assoc_object_spread {A} (b : list (str * A)) x : forall a a',
  assoc_str a x = assoc_str a' x ->
  assoc_str (object_spread a b) x = assoc_str (object_spread a' b) x.
Proof.
  induction b as [|[k v] b IH]; intros a a' E; [done|]. simpl.
  apply IH. by rewrite !assoc_put, E.
Qed.

(** ** The estimator's inputs *)

(** The variables whose value depends on the extra token counts. *)
Definition extra_keys : list str := js "len" :: map fst ESTIMATOR_VARS.

Lemma estimator_tokens_agree p c ex ex' x :
  x ∉ extra_keys ->
  assoc_str (buildEstimatorTokens p c ex) x = assoc_str (buildEstimatorTokens p c ex') x.
Proof.
  intros N. unfold buildEstimatorTokens.
  assert (forall k, k ∈ extra_keys -> str_eqb k x = false) as K.
  { intros k Hk. destruct (str_eqb k x) eqn:E; [|done]. apply str_eqb_eq in E. by subst. }
  cbn [app map fst snd assoc_str ESTIMATOR_VARS].
  destruct (str_eqb (js "p") x); [done|]. destruct (str_eqb (js "c") x); [done|].
  repeat match goal with
  | |- context [str_eqb ?k x] => rewrite (K k) by vm_decide
  end. done.
Qed.

Definition tokens_valid (ctx : BillingSimulationContext) : Prop :=
  ofold (fun _ e => valid_token e) tt (default [] (ctx_tokens ctx)) = Ok tt.

Lemma estimator_same_inputs `{JSHost} c p k ex ex' ctx h :
  (forall x, x ∈ compiled_variables c -> x ∉ extra_keys) ->
  request_headers (estimator_context p k ex ctx) = Ok h ->
  tokens_valid (estimator_context p k ex ctx) ->
  tokens_valid (estimator_context p k ex' ctx) ->
  same_inputs c (estimator_context p k ex ctx) (estimator_context p k ex' ctx) h h.
Proof.
  intros Hv Hh V V'. split; try done. intros x Hx.
  apply assoc_object_spread, estimator_tokens_agree. by apply Hv.
Qed.

Lemma no_extra_keys c :
  existsb (fun field => includes_str (compiled_variables c) field.1) ESTIMATOR_VARS = false ->
  js "len" ∉ compiled_variables c ->
  forall x, x ∈ compiled_variables c -> x ∉ extra_keys.
Proof.
  intros E L x Hx Hk. unfold extra_keys in Hk.
  apply elem_of_cons in Hk as [->|Hk]; [done|].
  apply list_elem_of_fmap in Hk as (field & -> & Hf).
  apply list_elem_of_In in Hf.
  assert (existsb (fun field => includes_str (compiled_variables c) field.1) ESTIMATOR_VARS = true)
    as E'; [|congruence].
  apply existsb_exists. exists field. split; [done|]. by apply includes_str_elem.
Qed.

Lemma evaluate_headers_fail `{JSHost} c ctx1 ctx2 :
  tokens_valid ctx1 -> tokens_valid ctx2 ->
  request_headers ctx1 = request_headers ctx2 ->
  (forall h, request_headers ctx1 <> Ok h) ->
  evaluate_compiled c ctx1 = evaluate_compiled c ctx2.
Proof.
  intros V1 V2 E N. unfold evaluate_compiled, evaluate_body, run_node.
  rewrite V1, V2, <- E. cbn [obind].
  destruct (request_headers ctx1) as [h| |]; [|done|done]. by destruct (N h).
Qed.

(** the estimator may hide its extra token inputs when
    [exprUsesExtraVars] says no: for an expression that mentions none of them
    and not the derived length, the shown cost, tier and error do not depend
    on the extra token counts, whatever request, usage, clock or token
    overrides the simulation supplies. *)
Theorem estimator_extras_unused `{JSHost} cache source c p k ex ex' ctx :
  cache_ok cache -> compile_uncached source = Ready c ->
  fst (exprUsesExtraVars cache source) = false ->
  js "len" ∉ compiled_variables c ->
  tokens_valid (estimator_context p k ex ctx) ->
  tokens_valid (estimator_context p k ex' ctx) ->
  fst (evalExprLocally cache source p k ex ctx) =
  fst (evalExprLocally cache source p k ex' ctx).
Proof.
  intros Hc Hr Hx L V V'. unfold evalExprLocally. destruct (trim source) eqn:T; [done|].
  unfold evaluateBillingExpression.
  pose proof (compile_cached cache source Hc) as [E _].
  assert (source <> []) as N by (by intros ->).
  unfold exprUsesExtraVars in Hx. destruct source as [|u source]; [done|].
  destruct (compileBillingExpression cache (u :: source)) as [r cache']. simpl in E, Hx.
  rewrite E, Hr in *. simpl in Hx.
  assert (evaluate_compiled c (estimator_context p k ex ctx)
          = evaluate_compiled c (estimator_context p k ex' ctx)) as ->; [|done].
  destruct (request_headers (estimator_context p k ex ctx)) as [h| |] eqn:Q.
  - apply (evaluate_same_inputs c _ _ h h); [by eapply compile_uncached_ok|].
    apply estimator_same_inputs; [|done..]. by apply no_extra_keys.
  - apply evaluate_headers_fail; [done..|]. intros h. by rewrite Q.
  - apply evaluate_headers_fail; [done..|]. intros h. by rewrite Q.
Qed.

#[local] Existing Instance utc_host.

Definition estimator_source : str := js "tier('base', p * 2 + c * 4)".
Definition no_extra_tokens : ExtraTokenValues :=
  MkExtraTokens (lit 0) (lit 0) (lit 0) (lit 0) (lit 0) (lit 0) (lit 0) (lit 0).
Definition some_extra_tokens : ExtraTokenValues :=
  MkExtraTokens (lit 10) (lit 20) (lit 30) (lit 40) (lit 50) (lit 60) (lit 70) (lit 80).

Lemma estimator_extras_unused_witness :
  fst (evalExprLocally [] estimator_source (lit 1000) (lit 500) no_extra_tokens None) =
  fst (evalExprLocally [] estimator_source (lit 1000) (lit 500) some_extra_tokens None).
Proof.
  eapply (estimator_extras_unused [] estimator_source).
  - apply cache_ok_empty.
  - vm_compute. reflexivity.
  - vm_compute. reflexivity.
  - simpl. vm_decide.
  - vm_compute. reflexivity.
  - vm_compute. reflexivity.
Defined.

(** The length estimate counts image, image-cache and audio input tokens too,
    beyond the [p + cr + cc + cc1h] of the directory's README. *)
Lemma estimator_len_counts_media :
  estimator_len (lit 1000) some_extra_tokens = lit 1220 /\
  num_add (num_add (num_add (lit 1000) (cacheReadTokens some_extra_tokens))
             (cacheCreateTokens some_extra_tokens)) (cacheCreate1hTokens some_extra_tokens)
  = lit 1060.
Proof. split; vm_compute; reflexivity. Qed.

(** A quote in a tier's name ends the string literal the generator writes. *)
Lemma generated_label_not_escaped :
  compile_uncached (generateExprFromVisualConfig
    (Some [MkVisualTier None None [97; 34; 98]%N [] [] cache_mode_generic])) =
  Failed (Failure Invalid (Diagnostic syntax (js "expected )") (Some 8))).
Proof. vm_compute. reflexivity. Qed.
