(* ===== verification/TierParse.v ===== *)
(** * Reading an expression into the tier form

    Models the reading side of [features/pricing/lib/tier-expr.ts]: the
    expressions the form can show are recognised by regular expressions, which
    are written here as they are in the source, and a text the form would not
    print again is refused. *)

From Stdlib Require Import ZArith Lia Bool SpecFloat.
From stdpp Require Import base list numbers.
From S2P Require Import Prelude JsString JsObject JsNumber JsNumberFacts JsRegex ExprTypes ExprRuntime TierExpr.

(** ** Normalisation *)

(** [Partial<VisualTier>] *)
Record PartialTier := MkPartialTier {
  pt_billing_unit : option BillingUnit;
  pt_fixed_price : option str;
  pt_label : option str;
  pt_conditions : option (list TierConditionInput);
  pt_unit_costs : list (str * num);
  pt_cache_mode : option CacheMode
}.

(** [Number(value) || 0] *)
Definition number_or_zero (n : option num) : num :=
  match n with
  | Some n => if is_nan n || num_eqb n num_zero then num_zero else n
  | None => num_zero
  end.

Definition getTierCacheMode (tier : PartialTier) : CacheMode :=
  match pt_cache_mode tier with
  | Some mode => mode
  | None =>
      match assoc_str (pt_unit_costs tier) (js "cache_create_1h_unit_cost") with
      | Some n => if num_ltb num_zero n then cache_mode_timed else cache_mode_generic
      | None => cache_mode_generic
      end
  end.

Definition normalized_fields : list str :=
  [js "cache_read_unit_cost"; js "cache_create_unit_cost"; js "cache_create_1h_unit_cost";
   js "image_unit_cost"; js "image_output_unit_cost"; js "audio_input_unit_cost"; js "audio_output_unit_cost"].

(** The first costs are overwritten by those of the tier, the others overwrite them. *)
Definition normalizeVisualTier (tier : PartialTier) : VisualTier :=
  let cost field := number_or_zero (assoc_str (pt_unit_costs tier) field) in
  let base :=
    [(js "input_unit_cost", cost (js "input_unit_cost")); (js "output_unit_cost", cost (js "output_unit_cost"))] in
  let costs :=
    fold_left (fun o field => obj_put o field (cost field)) normalized_fields
      (object_spread base (pt_unit_costs tier)) in
  MkVisualTier (pt_billing_unit tier) (pt_fixed_price tier) (default [] (pt_label tier))
    (default [] (pt_conditions tier)) costs (getTierCacheMode tier).

Definition partial_of (tier : VisualTier) : PartialTier :=
  MkPartialTier (vt_billing_unit tier) (vt_fixed_price tier) (Some (vt_label tier)) (Some (vt_conditions tier))
    (vt_unit_costs tier) (Some (vt_cache_mode tier)).

Definition createDefaultVisualConfig : list VisualTier :=
  [normalizeVisualTier (MkPartialTier None None (Some (js "base")) (Some [])
     [(js "input_unit_cost", num_zero); (js "output_unit_cost", num_zero)] (Some cache_mode_generic))].

Definition normalizeVisualConfig (config : option (list VisualTier)) : list VisualTier :=
  match config with
  | None | Some [] => createDefaultVisualConfig
  | Some tiers => map (fun tier => normalizeVisualTier (partial_of tier)) tiers
  end.

(** ** The patterns *)

(** [[\d.eE+-]] and [[\d.eE+]] *)
Definition is_price_char (u : N) : bool :=
  is_digit u || existsb (N.eqb u) [46; 101; 69; 43; 45]%N.
Definition is_bound_char (u : N) : bool :=
  is_digit u || existsb (N.eqb u) [46; 101; 69; 43]%N.

Definition label_char (u : N) : bool := negb (u =? quote_unit)%N.

(** [name\s*\*\s*(number)] *)
Definition term_pat (name : str) (group : nat) : list regex :=
  [rtext name; rspaces; rtext (js "*"); rspaces; RGroup group (rplus is_price_char)].

Definition plus_pat : list regex := [rspaces; rtext (js "+"); rspaces].

Fixpoint extra_pats (group : nat) (vars : list (str * str)) : list regex :=
  match vars with
  | [] => []
  | cv :: vars => ROpt (rseq (plus_pat ++ term_pat cv.2 group)) :: extra_pats (S group) vars
  end.

Definition body_pat (group : nat) : list regex :=
  term_pat (js "p") group ++ plus_pat ++ term_pat (js "c") (1 + group) ++ extra_pats (2 + group) BILLING_CACHE_VAR_MAP.

(** A call of [tier] with a quoted label and a body. *)
Definition tier_pat (group : nat) : list regex :=
  [rtext (js "tier(" ++ [quote_unit]); RGroup group (RStar (RChar label_char)); rtext ([quote_unit] ++ js ","); rspaces]
  ++ body_pat (1 + group) ++ [rtext (js ")")].

Definition singleRe : regex := rseq (tier_pat 1 ++ [REnd]).

Definition var_pat : regex := ralt (rtext (js "p")) [rtext (js "c"); rtext (js "len")].
Definition op_pat : regex := ralt (rtext (js "<")) [rtext (js "<="); rtext (js ">"); rtext (js ">=")].

Definition comparison_pat : list regex := [var_pat; rspaces; op_pat; rspaces; rplus is_bound_char].

Definition condGroup : regex :=
  RGroup 1 (rseq (comparison_pat ++ [RStar (rseq ([rspaces; rtext (js "&&"); rspaces] ++ comparison_pat))])).

Definition tierRe : regex :=
  rseq ([ROpt (rseq [condGroup; rspaces; rtext (js "?"); rspaces])] ++ tier_pat 2).

(** [/\s*&&\s*/] *)
Definition and_re : regex := rseq [rspaces; rtext (js "&&"); rspaces].

(** [/^(p|c|len)\s*(<|<=|>|>=)\s*([\d.eE+]+)$/] *)
Definition condition_re : regex :=
  rseq [RGroup 1 var_pat; rspaces; RGroup 2 op_pat; rspaces; RGroup 3 (rplus is_bound_char); REnd].

(** A version prefix such as [v1:], and everything after it. *)
Definition version_re : regex :=
  rseq [rtext (js "v"); rplus is_digit; rtext (js ":"); RGroup 1 (RStar (RChar (fun _ => true))); REnd].

(** ** Reading *)

Definition read_bound (cp : str) : option TierConditionInput :=
  match match_here condition_re (trim cp) with
  | Some (_, m) =>
      Some (MkConditionInput (default [] (capture m 1)) (default [] (capture m 2))
              (ValueNumber (js_Number (default [] (capture m 3)))))
  | None => None
  end.

Definition read_bounds (condStr : str) : list TierConditionInput :=
  match condStr with
  | [] => []
  | _ => omap read_bound (split_re (S (length condStr)) and_re condStr)
  end.

Fixpoint read_extras (m : captures) (group : nat) (vars : list (str * str)) : list (str * num) :=
  match vars with
  | [] => []
  | cv :: vars =>
      match capture m group with Some val => [(cv.1, js_Number val)] | None => [] end ++ read_extras m (S group) vars
  end.

(** The tier of a match whose label is in [group]. *)
Definition read_tier_match (m : captures) (group : nat) (conditions : list TierConditionInput) : VisualTier :=
  let number n := js_Number (default [] (capture m n)) in
  normalizeVisualTier (MkPartialTier None None (Some (default [] (capture m group))) (Some conditions)
    ([(js "input_unit_cost", number (1 + group)); (js "output_unit_cost", number (2 + group))] ++
     read_extras m (3 + group) BILLING_CACHE_VAR_MAP) None).

Definition strip_spaces (s : str) : str := List.filter (fun u => negb (is_space u)) s.

Definition read_body (body : str) : option (list VisualTier) :=
  match match_here singleRe body with
  | Some (_, simple) => Some (normalizeVisualConfig (Some [read_tier_match simple 1 []]))
  | None =>
      let tiers :=
        map (fun m => read_tier_match m 2 (read_bounds (default [] (capture m 1))))
          (exec_all (S (length body)) tierRe body) in
      match tiers with
      | [] => None
      | _ =>
          let cfg := normalizeVisualConfig (Some tiers) in
          if str_eqb (strip_spaces (generateExprFromVisualConfig (Some cfg))) (strip_spaces body)
          then Some cfg else None
      end
  end.

Definition tryParseVisualConfig (exprStr : option str) : option (list VisualTier) :=
  match exprStr with
  | None | Some [] => None
  | Some expr =>
      match match_here version_re expr with
      | Some (_, m) => read_body (default [] (capture m 1))
      | None => read_body expr
      end
  end.
