(* ===== verification/TierParseFacts.v ===== *)
(** * What the tier form writes, it reads back

    The texts of the generator follow the patterns of the reader along their
    first path, so a form whose prices and bounds are non-negative numbers is
    read back with its names, conditions and prices. *)

From Stdlib Require Import ZArith Lia Bool SpecFloat.
From stdpp Require Import base list numbers.
From S2P Require Import Prelude JsString JsObject JsNumber JsNumberFacts JsRegex ExprTypes TierExpr TierParse.

(** ** Prices *)

Record price_ok (x : num) : Prop := {
  price_canon : num_canon x;
  price_finite : is_finite x = true;
  price_sign : sign_bit x = false
}.

Definition price_okb (x : num) : bool := canonb x && is_finite x && negb (sign_bit x).

Lemma price_okb_spec x : price_okb x = true -> price_ok x.
Proof.
  intros [[C F]%andb_true_iff S]%andb_true_iff. split; [by apply canonb_spec|done|by apply negb_true_iff].
Qed.

Lemma num_price_char u : num_char u = true -> is_price_char u = true.
Proof.
  unfold num_char, is_price_char. cbn [existsb]. intros H. rewrite !orb_true_iff in H. rewrite !orb_true_iff. tauto.
Qed.

Lemma price_text x : price_ok x ->
  string_of_num x <> [] /\ forallb is_price_char (string_of_num x) = true /\ js_Number (string_of_num x) = x.
Proof.
  intros [C F S]. destruct (Number_of_string_of_num x C F S) as (_ & N & _).
  split; [|split; [|done]]; destruct x as [s|s| |s m e]; try done; cbn in S; subst s; unfold string_of_num;
    destruct (shortest_decimal m e) as [d t]; cbn [app].
  - destruct (format_decimal_head d t) as (c & r & -> & _). done.
  - pose proof (format_decimal_chars d t) as H. rewrite forallb_forall in H |- *.
    intros u Hu. by apply num_price_char, H.
Qed.

Lemma price_back x : price_ok x -> js_Number (string_of_num x) = x.
Proof. intros P. apply (price_text x P). Qed.

Lemma price_char_space u : is_price_char u = true -> is_space u = false.
Proof.
  unfold is_price_char. cbn [existsb]. rewrite !orb_true_iff, !N.eqb_eq.
  intros [D|[->|[->|[->|[->|[->|?]]]]]]; try done. by apply num_char_not_space, orb_true_iff; left; rewrite D.
Qed.

Lemma stops_price p x s : price_ok x -> (forall u, is_price_char u = true -> p u = false) ->
  stops_class p (string_of_num x ++ s) = true.
Proof.
  intros (N & C & _)%price_text P. destruct (string_of_num x) as [|u t]; [done|]. cbn in *.
  apply andb_true_iff in C as [C _]. by rewrite P.
Qed.

(** ** Terms *)

Definition term_text (name : str) (x : num) : str := name ++ js " * " ++ string_of_num x.

Lemma takes_spaces n t s c : t = replicate n 32%N -> stops_class is_space s = true -> takes rspaces t s c c.
Proof. intros -> S. apply takes_class; [|done]. induction n; [done|]. cbn. by rewrite IHn. Qed.

Lemma takes_term name g x s c : price_ok x -> stops_class is_price_char s = true ->
  takes (rseq (term_pat name g)) (term_text name x) s c ((g, string_of_num x) :: c).
Proof.
  intros P S. apply (takes_rseq [rtext name] _ name _ s c c); [apply takes_one, takes_text|].
  apply (takes_rseq [rspaces] _ (js " ") (js "* " ++ string_of_num x) s c c).
  { apply takes_one. by apply (takes_spaces 1). }
  apply (takes_rseq [rtext (js "*")] _ (js "*") (js " " ++ string_of_num x) s c c); [apply takes_one, takes_text|].
  apply (takes_rseq [rspaces] _ (js " ") (string_of_num x) s c c).
  { apply takes_one. apply (takes_spaces 1); [done|]. apply stops_price; [done|]. apply price_char_space. }
  apply takes_one, takes_group. destruct (price_text x P) as (N & C & _). by apply takes_plus.
Qed.

Lemma takes_plus_pat s c : stops_class is_space s = true -> takes (rseq plus_pat) (js " + ") s c c.
Proof.
  intros S. apply (takes_rseq [rspaces] _ (js " ") (js "+ ") s c c).
  { apply takes_one. by apply (takes_spaces 1). }
  apply (takes_rseq [rtext (js "+")] _ (js "+") (js " ") s c c); [apply takes_one, takes_text|].
  apply takes_one. by apply (takes_spaces 1).
Qed.

(** The variable names: neither white space nor the product sign. *)
Definition name_char (u : N) : bool := negb (is_space u) && negb (u =? 42)%N.

Lemma word_not_space u : name_char u = true -> is_space u = false.
Proof. unfold name_char. by intros [H%negb_true_iff _]%andb_true_iff. Qed.

Lemma rejects_char a t b u s : a <> u -> rejects (RSeq (rtext (a :: t)) b) (u :: s).
Proof. intros N%N.eqb_neq. apply rejects_cat, rejects_text. cbn [starts_with]. by rewrite N. Qed.

(** The pattern of one variable is not the start of another's term. *)
Lemma rejects_name b v : forall w r, v <> w -> forallb name_char v = true -> forallb name_char w = true ->
  rejects (RSeq (rtext v) (RSeq rspaces (RSeq (rtext (js "*")) b))) (w ++ js " * " ++ r).
Proof.
  induction v as [|a v IH]; intros w r N V W.
  - destruct w as [|u w]; [done|]. cbn in W. apply andb_true_iff in W as [U _].
    apply (rejects_after _ []), rejects_spaces.
    + intros u' s' S'. apply rejects_char. intros <-. vm_compute in S'. done.
    + cbn [app drop_while]. rewrite (word_not_space u U). apply rejects_char. intros <-. by vm_compute in U.
  - cbn in V. apply andb_true_iff in V as [U V]. destruct w as [|u w].
    + apply rejects_char. intros ->. by vm_compute in U.
    + cbn in W. apply andb_true_iff in W as [_ W]. destruct (decide (a = u)) as [->|Nu].
      * intros A c k. cbn [rtext app]. rewrite !rmatch_cat, rmatch_char, N.eqb_refl.
        rewrite <- rmatch_cat. apply (IH w r); [congruence|done|done].
      * by apply rejects_char.
Qed.

Definition var_name_ok (v : str) : Prop := v <> [] /\ forallb name_char v = true.

Lemma rejects_other v w g r : v <> w -> var_name_ok v -> var_name_ok w ->
  rejects (rseq (plus_pat ++ term_pat v g)) (js " + " ++ w ++ js " * " ++ r).
Proof.
  intros N [Nv V] [Nw W]. apply rejects_spaces.
  { intros u s S. apply rejects_char. intros <-. by vm_compute in S. }
  change (drop_while is_space (js " + " ++ w ++ js " * " ++ r)) with (js "+" ++ js " " ++ w ++ js " * " ++ r).
  apply rejects_after, rejects_spaces.
  { intros u s S. destruct v as [|a v]; [done|]. apply rejects_char. intros ->. cbn in V.
    apply andb_true_iff in V as [V _]. by rewrite (word_not_space u V) in S. }
  change (drop_while is_space (js " " ++ w ++ js " * " ++ r)) with (drop_while is_space (w ++ js " * " ++ r)).
  rewrite drop_while_id; [by apply rejects_name|]. destruct w as [|u w]; [done|]. cbn in W.
  apply andb_true_iff in W as [W _]. by apply word_not_space.
Qed.

Lemma rejects_close v g s : rejects (rseq (plus_pat ++ term_pat v g)) (js ")" ++ s).
Proof.
  apply rejects_spaces.
  - intros u s' S. apply rejects_char. intros <-. by vm_compute in S.
  - change (drop_while is_space (js ")" ++ s)) with (41%N :: s). by apply rejects_char.
Qed.

(** ** The optional prices *)

Section Extras.
Context (cost : str -> num).

Fixpoint extra_texts (vars : list (str * str)) : list str :=
  match vars with
  | [] => []
  | cv :: vars =>
      if num_eqb (cost cv.1) num_zero then extra_texts vars else term_text cv.2 (cost cv.1) :: extra_texts vars
  end.

Fixpoint extra_captures (g : nat) (vars : list (str * str)) (c : captures) : captures :=
  match vars with
  | [] => c
  | cv :: vars =>
      extra_captures (S g) vars
        (if num_eqb (cost cv.1) num_zero then c else (g, string_of_num (cost cv.1)) :: c)
  end.

Definition added (l : list str) : str := concat (map (fun t => js " + " ++ t) l).

Definition groups_below (g : nat) (c : captures) : Prop := Forall (fun e => e.1 < g) c.

Lemma groups_of_text t : groups_of (rtext t) = [].
Proof. by induction t. Qed.

Lemma reset_below v g c : groups_below g c -> reset_groups (rseq (plus_pat ++ term_pat v g)) c = c.
Proof.
  intros B. unfold reset_groups. assert (groups_of (rseq (plus_pat ++ term_pat v g)) = [g]) as ->.
  { unfold plus_pat, term_pat. cbn [app rseq groups_of]. rewrite !groups_of_text. done. }
  apply forallb_filter_id, forallb_forall. intros e He. pose proof (proj1 (Forall_forall _ _) B e He) as L.
  cbn beta in L. cbn [existsb]. destruct (Nat.eqb_spec e.1 g); [lia|done].
Qed.

Lemma below_extend g n t c : n < g -> groups_below g c -> groups_below g ((n, t) :: c).
Proof. intros L B. by constructor. Qed.

Lemma below_weaken g c : groups_below g c -> groups_below (S g) c.
Proof. apply Forall_impl. intros. lia. Qed.

Lemma added_stops p l s : p 32%N = false -> p 41%N = false -> stops_class p (added l ++ js ")" ++ s) = true.
Proof. intros S C. destruct l; [change (negb (p 41%N) = true)|change (negb (p 32%N) = true)]; by rewrite ?S, ?C. Qed.

Lemma rejects_rest v g vars s : ~ v ∈ map snd vars -> var_name_ok v -> Forall (fun cv => var_name_ok cv.2) vars ->
  rejects (rseq (plus_pat ++ term_pat v g)) (added (extra_texts vars) ++ js ")" ++ s).
Proof.
  intros N V W. induction W as [|cv vars Hw W IH]; [apply rejects_close|]. cbn [map] in N.
  apply not_elem_of_cons in N as [N N']. cbn [extra_texts]. destruct (num_eqb _ _); [by apply IH|].
  cbn [added map concat]. unfold term_text. rewrite <- !app_assoc. by apply rejects_other.
Qed.

Lemma takes_extras vars s : NoDup (map snd vars) -> Forall (fun cv => var_name_ok cv.2) vars ->
  Forall (fun cv => price_ok (cost cv.1)) vars -> forall g c, groups_below g c ->
  takes (rseq (extra_pats g vars)) (added (extra_texts vars)) (js ")" ++ s) c (extra_captures g vars c).
Proof.
  induction vars as [|cv vars IH]; intros ND W P g c B; [apply takes_empty|].
  cbn [map] in ND. apply list.NoDup_cons in ND as [N ND].
  pose proof (Forall_inv W) as Hw. apply Forall_inv_tail in W.
  pose proof (Forall_inv P) as Hp. apply Forall_inv_tail in P.
  cbn [extra_pats extra_texts extra_captures]. destruct (num_eqb (cost cv.1) num_zero).
  - apply (takes_cat _ _ [] (added (extra_texts vars)) _ c c).
    + apply skips_opt. by apply rejects_rest.
    + apply IH; [done..|]. by apply below_weaken.
  - apply (takes_cat _ _ (js " + " ++ term_text cv.2 (cost cv.1)) (added (extra_texts vars)) _ c
      ((g, string_of_num (cost cv.1)) :: c)).
    + apply takes_opt; [done|]. rewrite reset_below by done.
      apply (takes_rseq plus_pat _ _ _ _ c c).
      * apply takes_plus_pat. destruct Hw as [Nw Hw]. destruct cv as [f [|u w]]; [done|]. cbn in *.
        apply andb_true_iff in Hw as [Hw _]. by rewrite (word_not_space u Hw).
      * apply takes_term; [done|]. by apply added_stops.
    + apply IH; [done..|]. apply below_extend; [lia|]. by apply below_weaken.
Qed.

(** Looking the captures up again. *)
Lemma capture_below vars : forall g c n, n < g -> capture (extra_captures g vars c) n = capture c n.
Proof.
  induction vars as [|cv vars IH]; intros g c n L; [done|]. cbn [extra_captures].
  rewrite IH by lia. destruct (num_eqb _ _); [done|]. unfold capture. cbn [List.find fst].
  destruct (Nat.eqb_spec g n); [lia|done].
Qed.

Lemma capture_fresh g c : groups_below g c -> capture c g = None.
Proof.
  intros B. unfold capture. induction B as [|e c He B IH]; [done|]. cbn [List.find].
  destruct (Nat.eqb_spec e.1 g); [lia|done].
Qed.

Fixpoint kept_costs (vars : list (str * str)) : list (str * num) :=
  match vars with
  | [] => []
  | cv :: vars => (if num_eqb (cost cv.1) num_zero then [] else [(cv.1, cost cv.1)]) ++ kept_costs vars
  end.

Lemma read_extras_captures vars : Forall (fun cv => price_ok (cost cv.1)) vars -> forall g c, groups_below g c ->
  read_extras (extra_captures g vars c) g vars = kept_costs vars.
Proof.
  induction 1 as [|cv vars P _ IH]; intros g c B; [done|]. cbn [extra_captures read_extras kept_costs].
  rewrite capture_below by lia. destruct (num_eqb (cost cv.1) num_zero).
  - rewrite capture_fresh by done. cbn [app]. apply IH. by apply below_weaken.
  - unfold capture at 1. cbn [List.find fst]. rewrite Nat.eqb_refl. cbn [fmap option_fmap option_map snd].
    destruct (price_text _ P) as (_ & _ & ->). f_equal. apply IH. apply below_extend; [lia|by apply below_weaken].
Qed.
End Extras.

(** ** A tier *)

Definition price_fields : list str :=
  js "input_unit_cost" :: js "output_unit_cost" :: map fst BILLING_CACHE_VAR_MAP.

Definition body_text (cost : str -> num) : str :=
  term_text (js "p") (cost (js "input_unit_cost")) ++ js " + " ++
  term_text (js "c") (cost (js "output_unit_cost")) ++ added (extra_texts cost BILLING_CACHE_VAR_MAP).

Definition body_captures (cost : str -> num) (g : nat) (c : captures) : captures :=
  extra_captures cost (2 + g) BILLING_CACHE_VAR_MAP
    ((1 + g, string_of_num (cost (js "output_unit_cost"))) :: (g, string_of_num (cost (js "input_unit_cost"))) :: c).

Lemma vars_distinct : NoDup (map snd BILLING_CACHE_VAR_MAP).
Proof. apply (bool_decide_unpack _). vm_compute. done. Qed.

Lemma vars_words : Forall (fun cv => var_name_ok cv.2) BILLING_CACHE_VAR_MAP.
Proof. repeat constructor; done. Qed.

Section Tier.
Context (label : str) (cost : str -> num).
Hypothesis prices : Forall (fun f => price_ok (cost f)) price_fields.
Hypothesis quoted : forallb label_char label = true.

Lemma prices_extra : Forall (fun cv => price_ok (cost cv.1)) BILLING_CACHE_VAR_MAP.
Proof.
  apply Forall_forall. intros cv H. apply (proj1 (Forall_forall _ _) prices). right. right. by apply in_map.
Qed.

Lemma takes_body g s c : groups_below g c ->
  takes (rseq (body_pat g)) (body_text cost) (js ")" ++ s) c (body_captures cost g c).
Proof.
  intros B. unfold body_pat, body_text, body_captures.
  eapply takes_rseq; [apply takes_term; [by apply (Forall_inv prices)|done]|].
  eapply takes_rseq; [by apply takes_plus_pat|].
  eapply takes_rseq; [apply takes_term; [by apply (Forall_inv (Forall_inv_tail prices))|by apply added_stops]|].
  apply takes_extras; [apply vars_distinct|apply vars_words|apply prices_extra|].
  apply below_extend; [lia|]. apply below_extend; [lia|]. by apply below_weaken, below_weaken.
Qed.

Definition tier_text : str :=
  (js "tier(" ++ [quote_unit]) ++ label ++ ([quote_unit] ++ js ",") ++ js " " ++ body_text cost ++ js ")".

Lemma takes_tier g s c : groups_below g c ->
  takes (rseq (tier_pat g)) tier_text s c (body_captures cost (1 + g) ((g, label) :: c)).
Proof.
  intros B. unfold tier_pat, tier_text.
  eapply takes_cat; [apply takes_text|].
  eapply takes_cat; [apply takes_group, takes_class; [exact quoted|done]|].
  eapply takes_cat; [apply takes_text|].
  eapply takes_cat; [by apply (takes_spaces 1)|].
  eapply takes_rseq; [|apply takes_one, takes_text].
  apply takes_body, below_extend; [lia|]. by apply below_weaken.
Qed.

(** The partial tier the captures of a tier are read into. *)
Definition read_partial (conditions : list TierConditionInput) : PartialTier :=
  MkPartialTier None None (Some label) (Some conditions)
    ([(js "input_unit_cost", cost (js "input_unit_cost")); (js "output_unit_cost", cost (js "output_unit_cost"))] ++
     kept_costs cost BILLING_CACHE_VAR_MAP) None.

Lemma capture_here g t c : capture ((g, t) :: c) g = Some t.
Proof. unfold capture. cbn [List.find fst]. by rewrite Nat.eqb_refl. Qed.

Lemma capture_there g n t c : n <> g -> capture ((g, t) :: c) n = capture c n.
Proof. intros N. unfold capture. cbn [List.find fst]. by destruct (Nat.eqb_spec g n). Qed.

Lemma read_tier_back g c conditions : groups_below g c ->
  read_tier_match (body_captures cost (1 + g) ((g, label) :: c)) g conditions = normalizeVisualTier (read_partial conditions).
Proof.
  intros B. unfold read_tier_match, body_captures, read_partial. do 2 f_equal.
  - rewrite capture_below, !capture_there, capture_here by lia. done.
  - rewrite !capture_below by lia. rewrite capture_here.
    rewrite (capture_there (1 + (1 + g)) (1 + g)), capture_here by lia.
    change (default [] (Some ?t)) with t.
    rewrite !price_back by apply (Forall_inv prices) || apply (Forall_inv (Forall_inv_tail prices)).
    do 3 f_equal. apply (read_extras_captures cost _ prices_extra). repeat (apply below_extend; [lia|]).
    by apply below_weaken, below_weaken, below_weaken.
Qed.
End Tier.

(** ** Normalisation keeps the prices *)

Lemma unit_cost_normal t f : unit_cost t f = number_or_zero (assoc_str (vt_unit_costs t) f).
Proof. done. Qed.

Lemma number_or_zero_idem n : number_or_zero (Some (number_or_zero n)) = number_or_zero n.
Proof.
  destruct n as [n|]; [|done]. cbn. destruct (is_nan n || num_eqb n num_zero) eqn:E; [done|]. by rewrite E.
Qed.

Lemma assoc_spread {A} (b : list (str * A)) : forall a x, NoDup b.*1 ->
  assoc_str (object_spread a b) x = match assoc_str b x with Some v => Some v | None => assoc_str a x end.
Proof.
  induction b as [|[k v] b IH]; intros a x N; [done|]. cbn [fmap list_fmap fst] in N.
  apply list.NoDup_cons in N as [Nk N]. unfold object_spread in *. cbn [fold_left fst snd].
  rewrite IH by done. rewrite assoc_put. cbn [assoc_str]. destruct (str_eqb k x) eqn:E; [|done].
  apply str_eqb_eq in E as <-. destruct (assoc_str b k) eqn:Eb; [|done].
  exfalso. apply Nk, list_elem_of_fmap. eexists. split; [|by apply assoc_str_elem]. done.
Qed.

Lemma spread_NoDup {A} (b : list (str * A)) : forall a, NoDup a.*1 -> NoDup (object_spread a b).*1.
Proof. induction b as [|e b IH]; intros a N; [done|]. apply IH. by apply obj_put_NoDup. Qed.

Lemma put_fields (cost : str -> num) fields : forall o f,
  assoc_str (fold_left (fun o field => obj_put o field (cost field)) fields o) f =
  if existsb (str_eqb f) fields then Some (cost f) else assoc_str o f.
Proof.
  induction fields as [|g fields IH]; intros o f; [done|]. cbn [fold_left existsb]. rewrite IH, assoc_put.
  destruct (existsb (str_eqb f) fields); [by rewrite orb_true_r|]. rewrite orb_false_r.
  destruct (str_eqb g f) eqn:E; [apply str_eqb_eq in E as ->; by rewrite str_eqb_refl|].
  destruct (str_eqb f g) eqn:E'; [|done]. apply str_eqb_eq in E' as ->. by rewrite str_eqb_refl in E.
Qed.

Lemma put_fields_NoDup (cost : str -> num) fields : forall o, NoDup o.*1 ->
  NoDup (fold_left (fun o field => obj_put o field (cost field)) fields o).*1.
Proof. induction fields as [|g fields IH]; intros o N; [done|]. apply IH. by apply obj_put_NoDup. Qed.

Lemma normalized_cost t f : NoDup (pt_unit_costs t).*1 ->
  unit_cost (normalizeVisualTier t) f = number_or_zero (assoc_str (pt_unit_costs t) f).
Proof.
  intros N. rewrite unit_cost_normal. cbn [normalizeVisualTier vt_unit_costs].
  rewrite (put_fields (fun field => number_or_zero (assoc_str (pt_unit_costs t) field))).
  destruct (existsb (str_eqb f) normalized_fields); [apply number_or_zero_idem|].
  rewrite assoc_spread by done. destruct (assoc_str (pt_unit_costs t) f) eqn:E; [done|].
  cbn [assoc_str fst snd].
  destruct (str_eqb (js "input_unit_cost") f) eqn:E1; [apply str_eqb_eq in E1 as <-; by rewrite E|].
  destruct (str_eqb (js "output_unit_cost") f) eqn:E2; [apply str_eqb_eq in E2 as <-; by rewrite E|]. done.
Qed.

Lemma normalized_NoDup t : NoDup (vt_unit_costs (normalizeVisualTier t)).*1.
Proof.
  cbn [normalizeVisualTier vt_unit_costs].
  apply (put_fields_NoDup (fun field => number_or_zero (assoc_str (pt_unit_costs t) field))), spread_NoDup.
  apply (bool_decide_unpack _). vm_compute. done.
Qed.

Definition normalized_twice (t : PartialTier) : VisualTier := normalizeVisualTier (partial_of (normalizeVisualTier t)).

Lemma normalized_twice_cost t f : NoDup (pt_unit_costs t).*1 ->
  unit_cost (normalized_twice t) f = number_or_zero (assoc_str (pt_unit_costs t) f).
Proof.
  intros N. unfold normalized_twice. rewrite normalized_cost; [|apply normalized_NoDup].
  cbn [partial_of pt_unit_costs]. rewrite <- unit_cost_normal. by apply normalized_cost.
Qed.

Lemma kept_assoc cost vars f :
  assoc_str (kept_costs cost vars) f =
  if existsb (str_eqb f) (map fst vars) && negb (num_eqb (cost f) num_zero) then Some (cost f) else None.
Proof.
  induction vars as [|cv vars IH]; [done|]. cbn [kept_costs map existsb].
  destruct (str_eqb f cv.1) eqn:E.
  - apply str_eqb_eq in E as ->. cbn [orb andb]. destruct (num_eqb (cost cv.1) num_zero) eqn:Z; cbn [negb app].
    + rewrite IH, andb_false_r. done.
    + cbn [assoc_str]. by rewrite str_eqb_refl.
  - cbn [orb]. rewrite <- IH. destruct (num_eqb (cost cv.1) num_zero); [done|]. cbn [app assoc_str].
    destruct (str_eqb cv.1 f) eqn:E'; [|done]. apply str_eqb_eq in E' as <-. by rewrite str_eqb_refl in E.
Qed.

Lemma kept_sublist cost vars : (kept_costs cost vars).*1 `sublist_of` map fst vars.
Proof.
  induction vars as [|cv vars IH]; [done|]. cbn [kept_costs map]. destruct (num_eqb _ _); cbn.
  - by apply sublist_cons.
  - by apply sublist_skip.
Qed.

Lemma read_back_NoDup label cost conditions : NoDup (pt_unit_costs (read_partial label cost conditions)).*1.
Proof.
  apply (sublist_NoDup _ price_fields).
  - apply (bool_decide_unpack _). vm_compute. done.
  - cbn [pt_unit_costs read_partial app fmap list_fmap fst]. apply sublist_skip, sublist_skip, kept_sublist.
Qed.

(** The prices read back are those written. *)
Lemma read_back_cost label cost conditions f :
  (forall f, number_or_zero (Some (cost f)) = cost f) -> f ∈ price_fields ->
  unit_cost (normalized_twice (read_partial label cost conditions)) f = cost f.
Proof.
  intros Z F. rewrite normalized_twice_cost by apply read_back_NoDup. cbn [pt_unit_costs read_partial app assoc_str].
  destruct (str_eqb (js "input_unit_cost") f) eqn:E1; [apply str_eqb_eq in E1 as <-; apply Z|].
  destruct (str_eqb (js "output_unit_cost") f) eqn:E2; [apply str_eqb_eq in E2 as <-; apply Z|].
  rewrite kept_assoc.
  assert (existsb (str_eqb f) (map fst BILLING_CACHE_VAR_MAP) = true) as ->.
  { apply existsb_exists. exists f. split; [|apply str_eqb_refl]. apply list_elem_of_In.
    unfold price_fields in F. rewrite !elem_of_cons in F. destruct F as [->|[->|F]]; done. }
  cbn [andb]. pose proof (Z f) as Zf.
  destruct (num_eqb (cost f) num_zero) eqn:E; [|exact Zf]. cbn in Zf |- *. by rewrite E, orb_true_r in Zf.
Qed.

(** ** Conditions *)

Definition condition_vars : list str := [js "p"; js "c"; js "len"].
Definition condition_ops : list str := [js "<"; js "<="; js ">"; js ">="].

Definition bound_text (c : TierConditionInput) : str :=
  ci_var c ++ js " " ++ ci_op c ++ js " " ++ value_string (ci_value c).

(** A condition the reader knows: its bound is a number as printed. *)
Record condition_ok (c : TierConditionInput) : Prop := {
  cond_var : ci_var c ∈ condition_vars;
  cond_op : ci_op c ∈ condition_ops;
  cond_some : value_string (ci_value c) <> [];
  cond_chars : forallb is_bound_char (value_string (ci_value c)) = true;
  cond_number : string_of_num (js_Number (value_string (ci_value c))) = value_string (ci_value c)
}.

Definition condition_okb (c : TierConditionInput) : bool :=
  bool_decide (ci_var c ∈ condition_vars) && bool_decide (ci_op c ∈ condition_ops) &&
  bool_decide (value_string (ci_value c) <> []) && forallb is_bound_char (value_string (ci_value c)) &&
  str_eqb (string_of_num (js_Number (value_string (ci_value c)))) (value_string (ci_value c)).

Lemma condition_okb_spec c : condition_okb c = true -> condition_ok c.
Proof.
  unfold condition_okb. rewrite !andb_true_iff, !bool_decide_eq_true, str_eqb_eq.
  intros [[[[V O] N] C] E]. by split.
Qed.

Definition numeric_bound (c : TierConditionInput) : TierConditionInput :=
  MkConditionInput (ci_var c) (ci_op c) (ValueNumber (js_Number (value_string (ci_value c)))).

Lemma bound_char_word u : is_bound_char u = true -> is_space u = false /\ u <> 38%N /\ u <> 61%N.
Proof.
  intros H. assert (is_price_char u = true) as P.
  { unfold is_bound_char, is_price_char in *. cbn [existsb] in *. rewrite !orb_true_iff in *. tauto. }
  split; [by apply price_char_space|]. split; intros ->; by vm_compute in H.
Qed.

Lemma takes_var v s c : v ∈ condition_vars -> takes var_pat v s c c.
Proof.
  unfold condition_vars. rewrite !elem_of_cons, elem_of_nil. intros [->|[->|[->|[]]]].
  - apply takes_alt_l, takes_text.
  - apply takes_alt_r; [by apply rejects_text|]. apply takes_alt_l, takes_text.
  - apply takes_alt_r; [by apply rejects_text|]. apply takes_alt_r; [by apply rejects_text|]. apply takes_text.
Qed.

(** A shorter operator that is tried first fails on the rest of a longer one. *)
Lemma rmatch_op {A} op s c (k : str -> captures -> option A) x : op ∈ condition_ops ->
  (forall s c, k (61%N :: s) c = None) -> k s c = Some x -> rmatch op_pat (op ++ s) c k = Some x.
Proof.
  intros O N K. unfold condition_ops in O. rewrite !elem_of_cons, elem_of_nil in O.
  destruct O as [->|[->|[->|[->|[]]]]]; cbn;
    change (js "<") with [60%N]; change (js "<=") with [60; 61]%N;
    change (js ">") with [62%N]; change (js ">=") with [62; 61]%N; cbn; by rewrite ?N, ?K.
Qed.

Lemma takes_op b op u s c c' : op ∈ condition_ops -> (forall s, rejects b (61%N :: s)) ->
  takes b u s c c' -> takes (RSeq op_pat b) (op ++ u) s c c'.
Proof.
  intros O N H A k x K. rewrite <- app_assoc, rmatch_cat. apply rmatch_op; [done| |by apply H].
  intros s' c''. apply N.
Qed.

Lemma takes_op_group n b op u s c c' : op ∈ condition_ops -> (forall s, rejects b (61%N :: s)) ->
  takes b u s ((n, op) :: c) c' -> takes (RSeq (RGroup n op_pat) b) (op ++ u) s c c'.
Proof.
  intros O N H A k x K. rewrite <- app_assoc, rmatch_cat. cbn [rmatch]. apply rmatch_op; [done| |].
  - intros s' c''. apply N.
  - rewrite take_before. by apply H.
Qed.

Lemma rejects_bound b s : rejects (RSeq rspaces (RSeq (rplus is_bound_char) b)) (61%N :: s).
Proof.
  apply rejects_spaces.
  - intros u s' S A c k. cbn. destruct (is_bound_char u) eqn:E; [|done]. apply bound_char_word in E as [E _]. congruence.
  - intros A c k. done.
Qed.

Lemma rejects_bound_group n b s : rejects (RSeq rspaces (RSeq (RGroup n (rplus is_bound_char)) b)) (61%N :: s).
Proof.
  apply rejects_spaces.
  - intros u s' S A c k. cbn. destruct (is_bound_char u) eqn:E; [|done]. apply bound_char_word in E as [E _]. congruence.
  - intros A c k. done.
Qed.

Section Condition.
Context (cond : TierConditionInput) (ok : condition_ok cond).

Lemma bound_stops p s : (forall u, is_bound_char u = true -> p u = false) ->
  stops_class p (value_string (ci_value cond) ++ s) = true.
Proof.
  intros P. destruct ok as [_ _ N C _]. destruct (value_string _) as [|u t]; [done|]. cbn in *.
  apply andb_true_iff in C as [C _]. by rewrite P.
Qed.

Lemma op_stops s : stops_class is_space (ci_op cond ++ s) = true.
Proof.
  destruct ok as [_ O _ _ _]. unfold condition_ops in O. rewrite !elem_of_cons, elem_of_nil in O.
  by destruct O as [->|[->|[->|[->|[]]]]].
Qed.

Lemma takes_comparison s c : stops_class is_bound_char s = true ->
  takes (rseq comparison_pat) (bound_text cond) s c c.
Proof.
  intros S. unfold comparison_pat, bound_text. destruct ok as [V O N C _].
  eapply takes_cat; [by apply takes_var|].
  eapply takes_cat; [apply (takes_spaces 1); [done|]; rewrite <- app_assoc; apply op_stops|].
  apply takes_op; [done|apply rejects_bound|].
  eapply takes_cat; [apply (takes_spaces 1); [done|]; apply bound_stops, bound_char_word|].
  by apply takes_one, takes_plus.
Qed.

Lemma comparison_trim : trim (bound_text cond) = bound_text cond.
Proof.
  unfold trim, trim_start, trim_end. rewrite (drop_while_id is_space (bound_text cond)).
  - unfold bound_text. rewrite !reverse_app. rewrite drop_while_id.
    + rewrite <- !reverse_app. apply reverse_involutive.
    + destruct ok as [_ _ N C _]. rewrite <- forallb_reverse in C.
      destruct (reverse (value_string _)) as [|u t] eqn:E; [by apply (f_equal reverse) in E; rewrite reverse_involutive in E|].
      cbn in C |- *. apply andb_true_iff in C as [C _]. by apply bound_char_word.
  - unfold bound_text. destruct ok as [V _ _ _ _]. unfold condition_vars in V.
    rewrite !elem_of_cons, elem_of_nil in V. by destruct V as [->|[->|[->|[]]]].
Qed.

Lemma read_bound_text : read_bound (bound_text cond) = Some (numeric_bound cond).
Proof.
  unfold read_bound. rewrite comparison_trim. destruct ok as [V O N C _].
  assert (takes condition_re (bound_text cond) [] []
    [(3, value_string (ci_value cond)); (2, ci_op cond); (1, ci_var cond)]) as T.
  { unfold bound_text. eapply takes_cat; [apply takes_group; by apply takes_var|].
    eapply takes_cat; [apply (takes_spaces 1); [done|]; rewrite <- app_assoc; apply op_stops|].
    apply takes_op_group; [done|apply rejects_bound_group|].
    eapply takes_cat; [apply (takes_spaces 1); [done|]; apply bound_stops, bound_char_word|].
    rewrite <- (app_nil_r (value_string _)).
    eapply takes_cat; [rewrite app_nil_r; apply takes_group; by apply takes_plus|].
    rewrite app_nil_r. apply takes_one, takes_end. }
  apply match_takes in T. rewrite app_nil_r in T. by rewrite T.
Qed.
End Condition.

(** ** Several conditions *)

Definition anded (l : list str) : list str := map (fun t => js " && " ++ t) l.

Lemma join_cons_map sep a l : join sep (a :: l) = a ++ concat (map (fun t => sep ++ t) l).
Proof.
  revert a. induction l as [|b l IH]; intros a; [cbn; by rewrite app_nil_r|].
  change (join sep (a :: b :: l)) with (a ++ sep ++ join sep (b :: l)). rewrite IH. cbn [map concat].
  by rewrite <- app_assoc.
Qed.

Lemma comparison_stops p cond s : condition_ok cond -> p 112%N = false -> p 99%N = false -> p 108%N = false ->
  stops_class p (bound_text cond ++ s) = true.
Proof.
  intros [V _ _ _ _] Hp Hc Hl. unfold bound_text, condition_vars in *.
  rewrite !elem_of_cons, elem_of_nil in V. destruct V as [->|[->|[->|[]]]].
  - change (negb (p 112%N) = true). by rewrite Hp.
  - change (negb (p 99%N) = true). by rewrite Hc.
  - change (negb (p 108%N) = true). by rewrite Hl.
Qed.

Lemma takes_and s c : stops_class is_space s = true -> takes and_re (js " && ") s c c.
Proof.
  intros S. apply (takes_cat _ _ (js " ") (js "&& ") s c c); [by apply (takes_spaces 1)|].
  apply (takes_cat _ _ (js "&&") (js " ") s c c); [apply takes_text|].
  apply takes_one. by apply (takes_spaces 1).
Qed.

Lemma anded_stops l s : stops_class is_bound_char (concat (anded l) ++ js " ? " ++ s) = true.
Proof. by destruct l. Qed.

Lemma takes_conditions conds s : Forall condition_ok conds -> conds <> [] ->
  takes condGroup (join (js " && ") (map bound_text conds)) (js " ? " ++ s) []
    [(1, join (js " && ") (map bound_text conds))].
Proof.
  intros C N. apply takes_group. destruct conds as [|cond conds]; [done|]. cbn [map].
  rewrite join_cons_map. pose proof (Forall_inv C) as Hc. apply Forall_inv_tail in C.
  eapply takes_rseq; [apply takes_comparison; [done|]; apply anded_stops|].
  apply takes_one, takes_star.
  - apply Forall_forall. intros t (t' & <- & _)%in_map_iff. done.
  - done.
  - intros t ts' S. assert (exists cond' conds', condition_ok cond' /\ t = js " && " ++ bound_text cond' /\
      ts' = anded (map bound_text conds')) as (cond' & conds' & Hok & -> & ->).
    { clear -C S. induction C as [|c1 conds H C IH]; [by apply suffix_nil_inv in S|].
      apply suffix_cons_inv in S as [E|S]; [|by apply IH]. injection E as -> ->. by exists c1, conds. }
    eapply (takes_rseq [rspaces; rtext (js "&&"); rspaces]).
    + apply takes_and. by apply comparison_stops.
    + apply takes_comparison; [done|]. apply anded_stops.
  - apply rejects_spaces; [intros u s' S; apply rejects_char; intros <-; by vm_compute in S|].
    change (drop_while is_space (js " ? " ++ s)) with (63%N :: 32%N :: s). by apply rejects_char.
Qed.

(** A text without a place where the conjunction could be split. *)
Fixpoint no_conjunction (w : str) : bool :=
  match w with
  | [] => true
  | u :: w' =>
      negb (u =? 38)%N && no_conjunction w' &&
      (negb (is_space u) || match w' with v :: _ => negb (is_space v) && negb (v =? 38)%N | [] => false end)
  end.

Lemma quiet_rejects w s : no_conjunction w = true -> w <> [] -> rejects and_re (w ++ s).
Proof.
  intros Q N. destruct w as [|u w]; [done|]. cbn [no_conjunction] in Q. apply andb_true_iff in Q as [Q1 Q2].
  apply andb_true_iff in Q1 as [Q1 _]. apply negb_true_iff, N.eqb_neq in Q1.
  apply rejects_spaces; [intros u' s' S; apply rejects_char; intros <-; by vm_compute in S|].
  cbn [app drop_while]. destruct (is_space u); cbn [negb orb] in Q2; [|by apply rejects_char].
  destruct w as [|v w]; [done|]. apply andb_true_iff in Q2 as [V1 V2]. cbn [app drop_while].
  apply negb_true_iff in V1. rewrite V1. apply negb_true_iff, N.eqb_neq in V2. by apply rejects_char.
Qed.

Lemma quiet_suffix a b : no_conjunction (a ++ b) = true -> no_conjunction b = true.
Proof.
  induction a as [|u a IH]; [done|]. cbn [app no_conjunction]. intros [[_ Q]%andb_true_iff _]%andb_true_iff. by apply IH.
Qed.

Lemma quiet_app a b : no_conjunction a = true -> no_conjunction b = true -> no_conjunction (a ++ b) = true.
Proof.
  induction a as [|u a IH]; [done|]. intros Qa Qb. cbn [app no_conjunction] in *.
  apply andb_true_iff in Qa as [[Qu Qa]%andb_true_iff Qs]. rewrite Qu, IH by done. cbn [andb].
  destruct a as [|v a]; [|exact Qs]. rewrite orb_false_r in Qs. by rewrite Qs.
Qed.

Lemma exec_quiet w s : no_conjunction w = true -> exec_from and_re [] (w ++ s) = exec_from and_re w s.
Proof. intros Q. apply exec_skip. intros a b -> Nb. apply quiet_rejects; [by apply (quiet_suffix a)|done]. Qed.

Lemma quiet_bound t : forallb is_bound_char t = true -> no_conjunction t = true.
Proof.
  induction t as [|u t IH]; [done|]. cbn [forallb no_conjunction]. intros [U T]%andb_true_iff.
  destruct (bound_char_word u U) as (-> & E & _). apply N.eqb_neq in E. by rewrite E, IH.
Qed.

Lemma quiet_comparison cond : condition_ok cond -> no_conjunction (bound_text cond) = true.
Proof.
  intros [V O N C _]. unfold bound_text, condition_vars, condition_ops in *.
  pose proof (quiet_bound _ C) as Q. destruct (value_string _) as [|u t]; [done|].
  assert (no_conjunction (js " " ++ u :: t) = true) as Q'.
  { cbn [forallb] in C. apply andb_true_iff in C as [C _]. destruct (bound_char_word u C) as (S & E & _).
    apply N.eqb_neq in E. change (no_conjunction (32%N :: u :: t) = true).
    cbn [no_conjunction] in Q |- *. by rewrite Q, S, E. }
  rewrite !elem_of_cons, elem_of_nil in V. rewrite !elem_of_cons, elem_of_nil in O.
  destruct V as [->|[->|[->|[]]]], O as [->|[->|[->|[->|[]]]]];
    (rewrite (app_assoc _ (js " ") _), app_assoc; by apply quiet_app).
Qed.

Lemma split_comparisons conds : Forall condition_ok conds -> forall fuel, length conds <= fuel -> conds <> [] ->
  split_re fuel and_re (join (js " && ") (map bound_text conds)) = map bound_text conds.
Proof.
  induction 1 as [|cond conds Hc C IH]; intros fuel L N; [done|].
  destruct fuel as [|fuel]; [cbn in L; lia|]. cbn [map split_re]. destruct conds as [|c2 conds].
  - cbn [map join]. rewrite <- (app_nil_r (bound_text cond)) at 1.
    rewrite exec_quiet by by apply quiet_comparison. done.
  - cbn [map]. change (join (js " && ") (bound_text cond :: bound_text c2 :: map bound_text conds))
      with (bound_text cond ++ js " && " ++ join (js " && ") (map bound_text (c2 :: conds))).
    rewrite exec_quiet by by apply quiet_comparison.
    rewrite (exec_takes and_re (js " && ") _ []).
    + rewrite IH; [done|cbn in L |- *; lia|done].
    + apply takes_and. cbn [map]. rewrite join_cons_map. apply comparison_stops; [by inversion C|done..].
Qed.

Lemma join_nonempty sep a l : a <> [] -> join sep (a :: l) <> [].
Proof. intros N. rewrite join_cons_map. by destruct a. Qed.

Lemma comparison_nonempty cond : condition_ok cond -> bound_text cond <> [].
Proof. intros [_ _ N _ _] E. unfold bound_text in E. by apply app_eq_nil in E as [_ E]. Qed.

Lemma join_length sep l : Forall (fun t => t <> []) l -> length l <= length (join sep l).
Proof.
  intros N. destruct l as [|a l]; [done|]. rewrite join_cons_map, length_app.
  pose proof (Forall_inv N) as Na. apply Forall_inv_tail in N.
  assert (length l <= length (concat (map (fun t => sep ++ t) l))) as L.
  { induction N as [|b l Nb N IH]; [done|]. cbn [map concat length]. rewrite !length_app. destruct b; [done|cbn; lia]. }
  destruct a; [done|]. cbn. lia.
Qed.

Lemma read_each conds : Forall condition_ok conds ->
  omap read_bound (map bound_text conds) = map numeric_bound conds.
Proof.
  induction 1 as [|cond conds H C IH]; [done|]. cbn [map omap list_omap]. rewrite read_bound_text by done.
  f_equal. apply IH.
Qed.

Lemma read_conditions_back conds : Forall condition_ok conds ->
  read_bounds (join (js " && ") (map bound_text conds)) = map numeric_bound conds.
Proof.
  intros C. destruct conds as [|cond conds]; [done|]. unfold read_bounds.
  pose proof (join_nonempty (js " && ") (bound_text cond) (map bound_text conds)
    (comparison_nonempty _ (Forall_inv C))) as N.
  destruct (join _ (map bound_text (cond :: conds))) as [|u t] eqn:E; [by rewrite <- E in N|]. rewrite <- E.
  rewrite split_comparisons; [|done| |done].
  - by apply read_each.
  - rewrite <- (length_map bound_text). apply Nat.le_le_succ_r, join_length.
    apply Forall_forall. intros t' (c' & <- & Hc')%in_map_iff. apply comparison_nonempty.
    by apply (proj1 (Forall_forall _ _) C).
Qed.

(** ** The whole text *)

Definition complete_conditions (t : VisualTier) : list TierConditionInput :=
  List.filter condition_complete (vt_conditions t).

(** A tier whose parts are printed as the reader expects them. *)
Record tier_ok (t : VisualTier) : Prop := {
  tier_tokens : vt_billing_unit t <> Some unit_request;
  tier_label : vt_label t <> [];
  tier_quoted : forallb label_char (vt_label t) = true;
  tier_prices : Forall (fun f => price_ok (unit_cost t f)) price_fields;
  tier_conditions : Forall condition_ok (complete_conditions t)
}.

Definition tier_okb (t : VisualTier) : bool :=
  negb (match vt_billing_unit t with Some unit_request => true | _ => false end) &&
  bool_decide (vt_label t <> []) && forallb label_char (vt_label t) &&
  forallb (fun f => price_okb (unit_cost t f)) price_fields && forallb condition_okb (complete_conditions t).

Lemma tier_okb_spec t : tier_okb t = true -> tier_ok t.
Proof.
  unfold tier_okb. rewrite !andb_true_iff, bool_decide_eq_true, !forallb_forall. intros [[[[U N] Q] P] C].
  split; [by intros E; rewrite E in U|done|by apply forallb_forall|..]; apply Forall_forall; intros x Hx.
  - by apply price_okb_spec, P.
  - by apply condition_okb_spec, C.
Qed.

Lemma condition_str t : buildConditionStr (vt_conditions t) =
  join (js " && ") (map bound_text (complete_conditions t)).
Proof. done. Qed.

Lemma extra_terms_texts t : extra_terms t = extra_texts (unit_cost t) BILLING_CACHE_VAR_MAP.
Proof.
  unfold extra_terms. induction BILLING_CACHE_VAR_MAP as [|cv vars IH]; [done|]. cbn [omap list_omap extra_texts].
  destruct (num_eqb (unit_cost t cv.1) num_zero); [done|]. f_equal. apply IH.
Qed.

Lemma body_text_ok t : vt_billing_unit t <> Some unit_request -> buildTierBodyExpr t = body_text (unit_cost t).
Proof.
  intros B. assert (buildTierBodyExpr t = join (js " + ")
    ([term_text (js "p") (unit_cost t (js "input_unit_cost")); term_text (js "c") (unit_cost t (js "output_unit_cost"))]
     ++ extra_terms t)) as -> by (unfold buildTierBodyExpr; destruct (vt_billing_unit t) as [[]|]; done).
  cbn [app]. rewrite join_cons_map, extra_terms_texts. cbn [map concat]. unfold body_text, added.
  by rewrite <- !app_assoc.
Qed.

Lemma tier_call_text fallback t : tier_ok t -> tier_call fallback t = tier_text (vt_label t) (unit_cost t).
Proof.
  intros O. unfold tier_call. destruct (vt_label t) eqn:E; [by destruct (tier_label t O)|]. rewrite <- E.
  rewrite body_text_ok by apply O. unfold tier_text. by rewrite <- !app_assoc.
Qed.

(** A piece of the text: its conditions, when it leads with some, and its tier. *)
Definition piece_text (t : VisualTier) (lead : bool) : str :=
  (if lead then buildConditionStr (vt_conditions t) ++ js " ? " else []) ++ tier_text (vt_label t) (unit_cost t).

Definition piece_captures (t : VisualTier) (lead : bool) : captures :=
  body_captures (unit_cost t) 3
    ((2, vt_label t) :: if lead then [(1, buildConditionStr (vt_conditions t))] else []).

Lemma takes_query s c : stops_class is_space s = true ->
  takes (rseq [rspaces; rtext (js "?"); rspaces]) (js " ? ") s c c.
Proof.
  intros S. apply (takes_cat _ _ (js " ") (js "? ") s c c); [by apply (takes_spaces 1)|].
  apply (takes_cat _ _ (js "?") (js " ") s c c); [apply takes_text|].
  apply takes_one. by apply (takes_spaces 1).
Qed.

Lemma rejects_condGroup b u s : u <> 112%N -> u <> 99%N -> u <> 108%N -> rejects (RSeq condGroup b) (u :: s).
Proof.
  intros Np Nc Nl A c k. apply N.eqb_neq in Np, Nc, Nl. rewrite N.eqb_sym in Np, Nc, Nl.
  unfold condGroup, comparison_pat, var_pat. rewrite rmatch_cat. cbn [app rseq ralt rmatch].
  change (js "p") with [112%N]. change (js "c") with [99%N]. change (js "len") with [108; 101; 110]%N.
  cbn [rtext rmatch]. by rewrite Np, Nc, Nl.
Qed.

Lemma takes_piece t lead s : tier_ok t -> (lead = true -> complete_conditions t <> []) ->
  takes tierRe (piece_text t lead) s [] (piece_captures t lead).
Proof.
  intros O L. unfold tierRe, piece_text, piece_captures. destruct lead.
  - eapply takes_cat.
    + apply takes_opt; [by destruct (buildConditionStr _)|].
      eapply takes_cat; [|by apply takes_query]. rewrite condition_str.
      apply takes_conditions; [apply O|by apply L].
    + apply (takes_tier _ _ (tier_prices t O) (tier_quoted t O) 2). rewrite condition_str. repeat constructor.
  - eapply (takes_cat _ _ [] _ _ []); [|apply (takes_tier _ _ (tier_prices t O) (tier_quoted t O) 2); constructor].
    apply skips_opt. by apply rejects_condGroup.
Qed.

(** No tier starts at a character that starts neither a condition nor a call. *)
Lemma tierRe_rejects u s : u <> 112%N -> u <> 99%N -> u <> 108%N -> u <> 116%N -> rejects tierRe (u :: s).
Proof.
  intros. apply rejects_opt; [by apply rejects_condGroup|]. apply (rejects_char 116%N). congruence.
Qed.

Lemma exec_separator s : exec_from tierRe [] (js " : " ++ s) = exec_from tierRe (js " : ") s.
Proof.
  change (js " : ") with [32; 58; 32]%N. cbn [app exec_from].
  by rewrite !match_rejects by by apply tierRe_rejects.
Qed.

Definition pieces_text (ps : list (VisualTier * bool)) : str :=
  concat (map (fun p => js " : " ++ piece_text p.1 p.2) ps).

Definition piece_ok (p : VisualTier * bool) : Prop :=
  tier_ok p.1 /\ (p.2 = true -> complete_conditions p.1 <> []).

Lemma exec_pieces ps tail : Forall piece_ok ps -> exec_from tierRe [] tail = None ->
  forall fuel, length ps < fuel ->
  exec_all fuel tierRe (pieces_text ps ++ tail) = map (fun p => piece_captures p.1 p.2) ps.
Proof.
  intros P T. induction P as [|p ps [O L] P IH]; intros fuel F; (destruct fuel as [|fuel]; [cbn in F; lia|]).
  - cbn [pieces_text map concat app exec_all]. by rewrite T.
  - cbn [exec_all map]. change (pieces_text (p :: ps)) with ((js " : " ++ piece_text p.1 p.2) ++ pieces_text ps).
    rewrite <- !app_assoc, exec_separator, (exec_takes _ _ _ _ _ (takes_piece p.1 p.2 _ O L)).
    rewrite IH by (cbn in F; lia). done.
Qed.

(** The tier a piece is read into. *)
Definition reread (p : VisualTier * bool) : VisualTier :=
  normalized_twice (read_partial (vt_label p.1) (unit_cost p.1)
    (if p.2 then map numeric_bound (complete_conditions p.1) else [])).

Lemma read_piece p : piece_ok p ->
  normalizeVisualTier (partial_of (read_tier_match (piece_captures p.1 p.2) 2
    (read_bounds (default [] (capture (piece_captures p.1 p.2) 1))))) = reread p.
Proof.
  intros [O L]. destruct p as [t lead]. cbn [fst snd] in *. unfold piece_captures, reread, normalized_twice.
  assert (read_bounds (default [] (capture (body_captures (unit_cost t) 3
      ((2, vt_label t) :: if lead then [(1, buildConditionStr (vt_conditions t))] else [])) 1)) =
    if lead then map numeric_bound (complete_conditions t) else []) as ->.
  { unfold body_captures. rewrite capture_below, !capture_there by lia. destruct lead; [|done].
    rewrite capture_here, condition_str. apply read_conditions_back, O. }
  rewrite (read_tier_back _ _ (tier_prices t O) 2); [done|]. destruct lead; repeat constructor.
Qed.

(** ** What is written of a tier that was read *)

Definition same_prices (t t' : VisualTier) : Prop := forall f, f ∈ price_fields -> unit_cost t f = unit_cost t' f.

Lemma reread_prices p : same_prices (reread p) p.1.
Proof. intros f F. apply read_back_cost; [|done]. intros g. apply number_or_zero_idem. Qed.

Lemma extra_texts_ext cost cost' vars : (forall cv, cv ∈ vars -> cost cv.1 = cost' cv.1) ->
  extra_texts cost vars = extra_texts cost' vars.
Proof.
  induction vars as [|cv vars IH]; intros E; [done|]. cbn [extra_texts].
  rewrite (E cv) by apply list_elem_of_here. rewrite IH; [done|]. intros cv' H. apply E. by right.
Qed.

Lemma body_text_ext t t' : same_prices t t' -> body_text (unit_cost t) = body_text (unit_cost t').
Proof.
  intros S. unfold body_text. rewrite !S by (unfold price_fields; rewrite !elem_of_cons; tauto).
  rewrite (extra_texts_ext (unit_cost t) (unit_cost t')); [done|].
  intros cv H. apply S. unfold price_fields. right. right. apply list_elem_of_In, in_map, list_elem_of_In, H.
Qed.

Lemma numeric_complete c : condition_ok c -> condition_complete (numeric_bound c) = true.
Proof.
  intros [V O _ _ _]. unfold condition_complete, numeric_bound, condition_vars, condition_ops in *. cbn.
  rewrite !elem_of_cons, elem_of_nil in V. rewrite !elem_of_cons, elem_of_nil in O.
  by destruct V as [->|[->|[->|[]]]], O as [->|[->|[->|[->|[]]]]].
Qed.

Lemma numeric_text c : condition_ok c -> bound_text (numeric_bound c) = bound_text c.
Proof. intros [_ _ _ _ E]. unfold bound_text, numeric_bound. cbn [ci_var ci_op ci_value value_string]. by rewrite E. Qed.

Lemma numeric_str conds : Forall condition_ok conds ->
  buildConditionStr (map numeric_bound conds) = join (js " && ") (map bound_text conds).
Proof.
  intros C. unfold buildConditionStr. f_equal. induction C as [|c conds Hc C IH]; [done|].
  cbn [map List.filter]. rewrite numeric_complete by done. cbn [map]. rewrite IH. f_equal. by apply numeric_text.
Qed.

Lemma reread_call fallback p : piece_ok p ->
  tier_call fallback (reread p) = tier_text (vt_label p.1) (unit_cost p.1).
Proof.
  intros [O _]. unfold tier_call. change (vt_label (reread p)) with (vt_label p.1).
  destruct (vt_label p.1) eqn:E; [by destruct (tier_label _ O)|]. rewrite <- E.
  rewrite body_text_ok by done. rewrite (body_text_ext _ _ (reread_prices p)). unfold tier_text.
  by rewrite <- !app_assoc.
Qed.

Lemma reread_conditions p : piece_ok p ->
  buildConditionStr (vt_conditions (reread p)) = if p.2 then buildConditionStr (vt_conditions p.1) else [].
Proof.
  intros [O _]. change (vt_conditions (reread p)) with (if p.2 then map numeric_bound (complete_conditions p.1) else []).
  destruct p.2; [|done]. rewrite numeric_str by apply O. done.
Qed.

(** ** Configurations *)

Definition leads (t : VisualTier) : bool := match complete_conditions t with [] => false | _ => true end.

Fixpoint chain_pieces (tiers : list VisualTier) : list (VisualTier * bool) :=
  match tiers with
  | [] => []
  | t :: rest => (t, match rest with [] => false | _ => leads t end) :: chain_pieces rest
  end.

(** The only tier keeps its conditions, the last of several has none. *)
Definition config_pieces (tiers : list VisualTier) : list (VisualTier * bool) :=
  match tiers with
  | [t] => [(t, leads t)]
  | _ => chain_pieces tiers
  end.

Record config_ok (tiers : list VisualTier) : Prop := {
  config_some : tiers <> [];
  config_tiers : Forall tier_ok tiers;
  config_first : match tiers with t :: _ :: _ => leads t = true | _ => True end
}.

Lemma leads_ok t : tier_ok t -> piece_ok (t, leads t).
Proof. intros O. split; [done|]. cbn. unfold leads. by destruct (complete_conditions t). Qed.

Lemma chain_ok tiers : Forall tier_ok tiers -> Forall piece_ok (chain_pieces tiers).
Proof.
  induction 1 as [|t rest O H IH]; cbn [chain_pieces]; constructor; [|done].
  destruct rest; [by split|by apply leads_ok].
Qed.

Lemma leads_str t : tier_ok t -> (match buildConditionStr (vt_conditions t) with [] => false | _ => true end) = leads t.
Proof.
  intros O. rewrite condition_str. unfold leads. pose proof (tier_conditions t O) as C.
  destruct (complete_conditions t) as [|c conds]; [done|]. cbn [map].
  pose proof (join_nonempty (js " && ") (bound_text c) (map bound_text conds)
    (comparison_nonempty _ (Forall_inv C))) as N. by destruct (join _ _).
Qed.

(** The condition part of a printed piece. *)
Lemma lead_text (lead : bool) cond body : (match cond with [] => false | _ => true end) = lead ->
  match cond with [] => body | _ => cond ++ js " ? " ++ body end = (if lead then cond ++ js " ? " else []) ++ body.
Proof. intros <-. destruct cond; [done|]. by rewrite <- app_assoc. Qed.

Lemma chain_parts tiers : Forall tier_ok tiers -> forall i,
  tier_parts i tiers = map (fun p => piece_text p.1 p.2) (chain_pieces tiers).
Proof.
  induction 1 as [|t rest O H IH]; intros i; [done|]. cbn [tier_parts chain_pieces map]. rewrite IH. f_equal.
  rewrite tier_call_text by done. unfold piece_text. cbn [fst snd]. destruct rest; [done|].
  rewrite <- (lead_text _ _ _ (leads_str t O)). by destruct (buildConditionStr _).
Qed.

Lemma chain_reread tiers : Forall tier_ok tiers -> forall i,
  tier_parts i (map reread (chain_pieces tiers)) = map (fun p => piece_text p.1 p.2) (chain_pieces tiers).
Proof.
  induction 1 as [|t rest O H IH]; intros i; [done|]. cbn [chain_pieces map tier_parts]. rewrite IH. f_equal.
  assert (piece_ok (t, match rest with [] => false | _ => leads t end)) as P.
  { destruct rest; [by split|by apply leads_ok]. }
  rewrite reread_call, reread_conditions by done. unfold piece_text. cbn [fst snd]. destruct rest; [done|].
  cbn [chain_pieces map]. destruct (leads t) eqn:L; [|done].
  pose proof (leads_str t O) as E. rewrite L in E. rewrite <- app_assoc. by destruct (buildConditionStr _).
Qed.

Lemma leading_char t : tier_ok t -> leads t = true -> forall s,
  exists u s', piece_text t true ++ s = u :: s' /\ u <> 116%N /\ u <> 118%N.
Proof.
  intros O L s. unfold piece_text. rewrite condition_str. pose proof (tier_conditions t O) as C. unfold leads in L.
  destruct (complete_conditions t) as [|c conds]; [done|]. cbn [map]. rewrite join_cons_map, <- !app_assoc.
  pose proof (Forall_inv C) as Hc.
  pose proof (comparison_stops (fun u => (u =? 116)%N || (u =? 118)%N) c
    (concat (map (fun t => js " && " ++ t) (map bound_text conds)) ++ (js " ? " ++ tier_text (vt_label t) (unit_cost t)) ++ s) Hc
    eq_refl eq_refl eq_refl) as S.
  pose proof (comparison_nonempty c Hc) as N.
  destruct (bound_text c) as [|u w]; [done|]. eexists u, _. split; [done|]. cbn in S.
  apply negb_true_iff, orb_false_iff in S as [S1 S2]. by apply N.eqb_neq in S1, S2.
Qed.

Lemma piece_nonempty p : piece_text p.1 p.2 <> [].
Proof. unfold piece_text, tier_text. by destruct (if p.2 then _ else _). Qed.

Lemma pieces_length ps : length ps <= length (pieces_text ps).
Proof.
  induction ps as [|p ps IH]; [done|]. change (pieces_text (p :: ps)) with ((js " : " ++ piece_text p.1 p.2) ++ pieces_text ps).
  rewrite !length_app. change (length (js " : ")) with 3. cbn [length]. lia.
Qed.

(** Reading a chain of pieces, when the form prints them again. *)
Lemma read_chain p ps tail : Forall piece_ok (p :: ps) -> exec_from tierRe [] tail = None ->
  let body := piece_text p.1 p.2 ++ pieces_text ps ++ tail in
  match_here singleRe body = None ->
  generateExprFromVisualConfig (Some (map reread (p :: ps))) = body ->
  read_body body = Some (map reread (p :: ps)).
Proof.
  intros P T body S G. unfold read_body. rewrite S.
  pose proof (Forall_inv P) as [O L]. apply Forall_inv_tail in P as P'.
  assert (exec_all (Datatypes.S (length body)) tierRe body = map (fun p => piece_captures p.1 p.2) (p :: ps)) as ->.
  { unfold body at 2. cbn [exec_all]. rewrite (exec_takes _ _ _ _ _ (takes_piece p.1 p.2 _ O L)).
    cbn [map]. f_equal. apply exec_pieces; [done..|]. unfold body. rewrite !length_app.
    pose proof (pieces_length ps). pose proof (piece_nonempty p). destruct (piece_text p.1 p.2); [done|]. cbn. lia. }
  assert (forall (l : list (VisualTier * bool)), Forall piece_ok l ->
    map (fun tier => normalizeVisualTier (partial_of tier)) (map (fun m => read_tier_match m 2
      (read_bounds (default [] (capture m 1)))) (map (fun p => piece_captures p.1 p.2) l)) = map reread l) as R.
  { induction 1 as [|q l Hq H IH]; [done|]. cbn [map]. by rewrite IH, read_piece. }
  specialize (R _ P). cbn [map] in R |- *. cbn [normalizeVisualConfig map]. rewrite R. cbn [map] in G. rewrite G.
  by rewrite str_eqb_refl.
Qed.

Lemma version_rejects u s : u <> 118%N -> match_here version_re (u :: s) = None.
Proof. intros N. apply match_rejects, (rejects_char 118%N). congruence. Qed.

Lemma single_rejects u s : u <> 116%N -> match_here singleRe (u :: s) = None.
Proof. intros N. apply match_rejects, (rejects_char 116%N). congruence. Qed.

Lemma read_unversioned u s : u <> 118%N -> tryParseVisualConfig (Some (u :: s)) = read_body (u :: s).
Proof. intros N. cbn [tryParseVisualConfig]. by rewrite version_rejects. Qed.

(** A configuration that leads with a condition. *)
Lemma read_leading t ps tail : Forall piece_ok ((t, true) :: ps) -> leads t = true ->
  exec_from tierRe [] tail = None ->
  generateExprFromVisualConfig (Some (map reread ((t, true) :: ps))) = piece_text t true ++ pieces_text ps ++ tail ->
  tryParseVisualConfig (Some (piece_text t true ++ pieces_text ps ++ tail)) = Some (map reread ((t, true) :: ps)).
Proof.
  intros P L T G. pose proof (Forall_inv P) as [O _].
  pose proof (read_chain (t, true) ps tail P T) as R. cbn [fst snd] in R.
  destruct (leading_char t O L (pieces_text ps ++ tail)) as (u & s & E & N1 & N2).
  rewrite E in R, G |- *. rewrite read_unversioned by done. apply R; [by apply single_rejects|done].
Qed.

Lemma read_single t : tier_ok t -> leads t = false ->
  tryParseVisualConfig (Some (piece_text t false)) = Some [reread (t, false)].
Proof.
  intros O L. unfold piece_text. cbn [app].
  assert (takes singleRe (tier_text (vt_label t) (unit_cost t)) [] []
    (body_captures (unit_cost t) 2 [(1, vt_label t)])) as T.
  { unfold singleRe. rewrite <- (app_nil_r (tier_text _ _)).
    eapply takes_rseq; [apply (takes_tier _ _ (tier_prices t O) (tier_quoted t O) 1); constructor|].
    apply takes_one, takes_end. }
  apply match_takes in T. rewrite app_nil_r in T.
  assert (exists s, tier_text (vt_label t) (unit_cost t) = 116%N :: s) as (s & E) by (by eexists).
  rewrite E in T |- *. rewrite read_unversioned by done. unfold read_body. rewrite T.
  rewrite (read_tier_back _ _ (tier_prices t O) 1); [done|constructor].
Qed.

(** The tiers that were read print the same text. *)
Lemma reread_generates tiers : Forall tier_ok tiers -> tiers <> [] ->
  generateExprFromVisualConfig (Some (map reread (config_pieces tiers))) = generateExprFromVisualConfig (Some tiers).
Proof.
  intros O N. destruct tiers as [|t [|t2 rest]]; [done| |].
  - pose proof (Forall_inv O) as Ot. cbn [config_pieces map generateExprFromVisualConfig].
    rewrite reread_call, reread_conditions, tier_call_text by (done || by apply leads_ok). cbn [fst snd].
    rewrite <- (leads_str t Ot). by destruct (buildConditionStr (vt_conditions t)).
  - change (join (js " : ") (tier_parts 0 (map reread (chain_pieces (t :: t2 :: rest)))) =
      join (js " : ") (tier_parts 0 (t :: t2 :: rest))).
    by rewrite chain_reread, chain_parts.
Qed.

(** The text of a configuration that leads with a condition. *)
Lemma leading_text t rest : Forall tier_ok (t :: rest) -> leads t = true ->
  exists ps tail, config_pieces (t :: rest) = (t, true) :: ps /\ exec_from tierRe [] tail = None /\
    generateExprFromVisualConfig (Some (t :: rest)) = piece_text t true ++ pieces_text ps ++ tail.
Proof.
  intros O L. pose proof (Forall_inv O) as Ot. destruct rest as [|t2 rest].
  - exists [], (js " : p * 0 + c * 0"). cbn [config_pieces]. rewrite L. split; [done|]. split; [by vm_compute|].
    cbn [generateExprFromVisualConfig]. rewrite tier_call_text by done. unfold piece_text.
    pose proof (leads_str t Ot) as E. rewrite L in E. destruct (buildConditionStr (vt_conditions t)); [done|].
    by rewrite <- !app_assoc.
  - exists (chain_pieces (t2 :: rest)), []. change (config_pieces (t :: t2 :: rest)) with (chain_pieces (t :: t2 :: rest)).
    split; [cbn; by rewrite L|]. split; [done|].
    change (join (js " : ") (tier_parts 0 (t :: t2 :: rest)) = piece_text t true ++ pieces_text (chain_pieces (t2 :: rest)) ++ []).
    rewrite chain_parts by done. cbn [chain_pieces map]. rewrite join_cons_map, app_nil_r.
    cbn [fst snd]. rewrite L. unfold pieces_text. cbn [chain_pieces map]. by rewrite map_map.
Qed.

Lemma config_pieces_ok tiers : Forall tier_ok tiers -> Forall piece_ok (config_pieces tiers).
Proof.
  intros O. destruct tiers as [|t [|t2 rest]]; [done| |by apply chain_ok].
  constructor; [|done]. apply leads_ok. by inversion O.
Qed.

Lemma read_pieces tiers : config_ok tiers ->
  tryParseVisualConfig (Some (generateExprFromVisualConfig (Some tiers))) = Some (map reread (config_pieces tiers)).
Proof.
  intros [N O F]. destruct tiers as [|t rest]; [done|]. pose proof (reread_generates _ O N) as G.
  destruct (leads t) eqn:L.
  - destruct (leading_text t rest O L) as (ps & tail & E & T & Et). rewrite Et in G |- *. pose proof (config_pieces_ok _ O) as P.
    rewrite E in P, G |- *. by apply read_leading.
  - destruct rest; [|congruence]. pose proof (Forall_inv O) as Ot. cbn [generateExprFromVisualConfig config_pieces map].
    rewrite L, tier_call_text by done. pose proof (leads_str t Ot) as E. rewrite L in E.
    destruct (buildConditionStr (vt_conditions t)); [|done]. by apply read_single.
Qed.

Lemma config_pieces_tiers tiers : map fst (config_pieces tiers) = tiers.
Proof.
  assert (forall l, map fst (chain_pieces l) = l) as H by (intros l; induction l as [|t l IH]; [done|]; cbn; by rewrite IH).
  destruct tiers as [|t [|t2 rest]]; [done|done|apply H].
Qed.

(** The tier that was read shows what the other prints. *)
Definition read_as (p : VisualTier * bool) (t' : VisualTier) : Prop :=
  vt_label t' = vt_label p.1 /\ vt_billing_unit t' = None /\
  vt_conditions t' = (if p.2 then map numeric_bound (complete_conditions p.1) else []) /\
  same_prices t' p.1.

(** C9: what the tier form writes it reads back: for tiers billed by tokens
    whose prices and bounds are non-negative finite numbers, whose names are
    not empty and hold no quote, and of which the first of several has a
    condition, the generated text is read into the same tiers, in order, with
    the names, every price and the complete conditions with their numbers
    (the last of several has none), and the tiers that were read generate the
    same text again. *)
Theorem tier_form_roundtrip tiers : config_ok tiers ->
  exists cfg,
    tryParseVisualConfig (Some (generateExprFromVisualConfig (Some tiers))) = Some cfg /\
    Forall2 read_as (config_pieces tiers) cfg /\ map fst (config_pieces tiers) = tiers /\
    generateExprFromVisualConfig (Some cfg) = generateExprFromVisualConfig (Some tiers).
Proof.
  intros C. exists (map reread (config_pieces tiers)). split; [by apply read_pieces|].
  split; [|split; [apply config_pieces_tiers|destruct C as [N O _]; by apply reread_generates]].
  induction (config_pieces tiers) as [|p ps IH]; cbn [map]; constructor; [|done].
  split; [done|]. split; [done|]. split; [done|]. apply reread_prices.
Qed.

Definition sample_tiers : list VisualTier :=
  [MkVisualTier None None (js "short")
     [MkConditionInput (js "len") (js "<=") (ValueNumber (lit 200000)); MkConditionInput (js "c") (js "<") (ValueText (js "5000"));
      MkConditionInput (js "p") (js ">") (ValueText [])]
     [(js "input_unit_cost", lit 3); (js "output_unit_cost", lit 15); (js "cache_create_unit_cost", lit 4);
      (js "cache_create_1h_unit_cost", lit 6); (js "image_output_unit_cost", num_of_dec false (Decimal 25 (-8)))] cache_mode_timed;
   MkVisualTier None None (js "long") [] [(js "input_unit_cost", lit 6); (js "output_unit_cost", num_of_dec false (Decimal 225 (-1)))]
     cache_mode_generic].

Lemma tier_form_roundtrip_witness : exists cfg,
  tryParseVisualConfig (Some (generateExprFromVisualConfig (Some sample_tiers))) = Some cfg /\
  Forall2 read_as (config_pieces sample_tiers) cfg /\ map fst (config_pieces sample_tiers) = sample_tiers /\
  generateExprFromVisualConfig (Some cfg) = generateExprFromVisualConfig (Some sample_tiers).
Proof.
  apply (tier_form_roundtrip sample_tiers). split; [done| |vm_compute; done].
  apply Forall_forall. intros t Ht. apply tier_okb_spec.
  revert t Ht. apply forallb_forall. vm_compute. reflexivity.
Defined.

(** A single tier is not compared with what the form prints: a malformed
    price is read as a tier whose price is not a number, which the form then
    writes as zero. *)
Definition malformed_source : str :=
  js "tier(" ++ [quote_unit] ++ js "a" ++ [quote_unit] ++ js ", p * 2-1 + c * 3)".

Lemma malformed_price_dropped :
  match tryParseVisualConfig (Some malformed_source) with
  | Some [t] => assoc_str (vt_unit_costs t) (js "input_unit_cost") = Some S754_nan /\
      generateExprFromVisualConfig (Some [t]) =
      js "tier(" ++ [quote_unit] ++ js "a" ++ [quote_unit] ++ js ", p * 0 + c * 3)"
  | _ => False
  end.
Proof. vm_compute. split; reflexivity. Qed.
