(* ===== verification/HttpClient.v ===== *)
(** * The API client

    Models [lib/http-client.ts]: the sharing of concurrent GET requests and
    the two Axios interceptors that attach tokens, refresh an expired session
    and replay the request once.  A request is a [Stage], cut at the awaits of
    the interceptors; Axios itself (sending, merging configurations, which
    keeps the custom fields) is the environment that feeds [stage_step]. *)

From Stdlib Require Import ZArith Lia Bool SpecFloat.
From stdpp Require Import base list numbers.
From S2P Require Import Prelude JsString JsNumber JsValue JsHost AuthStore AuthSession.

(** ** Sharing concurrent GET requests *)

(** Requests are named by the order in which they were sent. *)
Record GetState := MkGetState {
  inFlightGet : list (str * nat);
  sent : nat
}.

(** [useAuthStore.getState().auth.session?.sid || 'anonymous'] *)
Definition session_key (s : option str) : str :=
  match s with Some (c :: r) => c :: r | _ => js "anonymous" end.

(** [params] is [JSON.stringify(config.params)], when there are any. *)
Definition get_key (sid : option str) (url : str) (params : option str) : str :=
  session_key sid ++ js ":" ++ url ++ js "?" ++ default (js "{}") params.

(** [api.get(url, config)]: the request the caller waits for. *)
Definition api_get (disableDuplicate : bool) (sid : option str) (url : str)
    (params : option str) (st : GetState) : nat * GetState :=
  if disableDuplicate then (sent st, MkGetState (inFlightGet st) (S (sent st)))
  else
    let key := get_key sid url params in
    match assoc_str (inFlightGet st) key with
    | Some existing => (existing, st)
    | None => (sent st, MkGetState (inFlightGet st ++ [(key, sent st)]) (S (sent st)))
    end.

(** [inFlightGet.delete(key)] when the request under [key] settles. *)
Definition get_finally (key : str) (st : GetState) : GetState :=
  MkGetState (List.filter (fun e => negb (str_eqb e.1 key)) (inFlightGet st)) (sent st).

(** ** Requests and their interceptors *)

(** Axios' header objects, as far as the client uses them. *)
Class AxiosHeaders := {
  Headers : Type;
  headers_has : str -> Headers -> bool;
  headers_set : str -> str -> Headers -> Headers
}.

(** Header names are case-insensitive; setting one leaves the others alone. *)
Class AxiosHeadersLaws `{AxiosHeaders} := {
  headers_has_set : forall p n v (h : Headers),
    map ascii_lower p <> map ascii_lower n ->
    headers_has p (headers_set n v h) = headers_has p h
}.

Section Interceptors.
Context `{AxiosHeaders}.

Record ApiRequestConfig := MkConfig {
  skipErrorHandler : bool;
  skipAuthRefresh : bool;
  authRetry : bool;
  acceptAuthRotation : bool;
  singleUseAuthorization : bool;
  headers : Headers
}.

Definition set_headers (h : Headers) (c : ApiRequestConfig) : ApiRequestConfig :=
  MkConfig (skipErrorHandler c) (skipAuthRefresh c) (authRetry c) (acceptAuthRotation c)
    (singleUseAuthorization c) h.
Definition mark_skip_refresh (c : ApiRequestConfig) : ApiRequestConfig :=
  MkConfig (skipErrorHandler c) true (authRetry c) (acceptAuthRotation c)
    (singleUseAuthorization c) (headers c).
Definition mark_retry (c : ApiRequestConfig) : ApiRequestConfig :=
  MkConfig (skipErrorHandler c) (skipAuthRefresh c) true (acceptAuthRotation c)
    (singleUseAuthorization c) (headers c).

Definition bearer (token : str) : str := js "Bearer " ++ token.

(** [if (accessToken) headers.Authorization = `Bearer ${accessToken}`] *)
Definition authorize (a : AuthState) (c : ApiRequestConfig) : ApiRequestConfig :=
  match accessToken a with
  | Some (u :: t) => set_headers (headers_set (js "Authorization") (bearer (u :: t)) (headers c)) c
  | _ => c
  end.

(** What the page shows when a session is over. *)
Inductive Effect := NotifySessionExpired | RedirectToSignIn.

Inductive RequestError :=
| HttpFailure (status : option num)
| HeadersFailure (e : HeadersError)
| RotationFailure (e : AuthRotationError)
| RefreshFailure (e : jsval).

Inductive Stage :=
| AwaitHeaders (c : ApiRequestConfig)
| InFlight (c : ApiRequestConfig)
| AwaitRefresh (c : ApiRequestConfig) (status : option num)
| Done (r : option RequestError).

(** The request interceptor. *)
Definition single_use (c : ApiRequestConfig) : bool :=
  singleUseAuthorization c || headers_has (js "X-Security-Proof") (headers c).

Definition request_interceptor (a : AuthState) (c : ApiRequestConfig) : Stage :=
  if single_use c then AwaitHeaders (mark_skip_refresh c)
  else InFlight (authorize a c).

(** [for (const [name, value] of Object.entries(headers)) config.headers.set(name, value)] *)
Definition apply_headers (h : list (str * str)) (c : ApiRequestConfig) : ApiRequestConfig :=
  set_headers (fold_left (fun acc e => headers_set e.1 e.2 acc) h (headers c)) c.

(** [redirectToSignIn()]: [at_sign_in] tells whether the page is already
    there (or there is no window). *)
Definition redirectToSignIn (at_sign_in : bool) : list Effect :=
  if at_sign_in then [] else [RedirectToSignIn].
Definition notify (c : ApiRequestConfig) : list Effect :=
  if skipErrorHandler c then [] else [NotifySessionExpired].

(** The response interceptors, with what they do to the session. *)
Record Reaction := MkReaction {
  next_stage : Stage;
  next_session : Session;
  effects : list Effect
}.

Definition on_success `{Tab} (c : ApiRequestConfig) (body : jsval) (m : Moment) (s : Session)
    : Reaction :=
  if acceptAuthRotation c &&
     strict_eq_primitive (get_field body (js "success")) (JBool true)
  then
    match applyAuthRotation (get_field body (js "data")) m s with
    | Ok s' => MkReaction (Done None) s' []
    | Throw e => MkReaction (Done (Some (RotationFailure e))) s []
    | OutOfFuel => MkReaction (Done None) s []
    end
  else MkReaction (Done None) s [].

Definition is_unauthorized (status : option num) : bool :=
  match status with Some n => num_eqb n (lit 401) | None => false end.

(** The error interceptor up to its [await]. *)
Definition on_error `{Tab} (c : ApiRequestConfig) (status : option num) (at_sign_in : bool)
    (m : Moment) (s : Session) : Reaction :=
  if is_unauthorized status then
    if negb (skipAuthRefresh c) && negb (authRetry c) then
      MkReaction (AwaitRefresh (mark_retry c) status) s []
    else if authRetry c then
      MkReaction (Done (Some (HttpFailure status))) (clearAuthentication false None m s)
        (notify c ++ redirectToSignIn at_sign_in)
    else MkReaction (Done (Some (HttpFailure status))) s (notify c)
  else MkReaction (Done (Some (HttpFailure status))) s [].

(** The rest of it, once the refresh has settled. *)
Definition on_refreshed (c : ApiRequestConfig) (status : option num) (o : RefreshOutcome)
    (at_sign_in : bool) (s : Session) : Reaction :=
  match o with
  | OutcomeAuthenticated _ =>
      MkReaction (request_interceptor (auth s) (authorize (auth s) c)) s []
  | OutcomeAnonymous | OutcomeOutOfSync _ =>
      MkReaction (Done (Some (HttpFailure status))) s
        (notify c ++ redirectToSignIn at_sign_in)
  | OutcomeTransientError _ => MkReaction (Done (Some (HttpFailure status))) s []
  end.

Inductive Input :=
| FreshHeaders (r : outcome HeadersError (list (str * str)))
| Succeeded (body : jsval)
| Failed (status : option num)
| Refreshed (o : RefreshOutcome)
| RefreshRejected (e : jsval).

Definition stage_step `{Tab} (st : Stage) (i : Input) (at_sign_in : bool) (m : Moment)
    (s : Session) : option Reaction :=
  match st, i with
  | AwaitHeaders c, FreshHeaders (Ok h) => Some (MkReaction (InFlight (apply_headers h c)) s [])
  | AwaitHeaders c, FreshHeaders (Throw e) =>
      Some (MkReaction (Done (Some (HeadersFailure e))) s [])
  | InFlight c, Succeeded body => Some (on_success c body m s)
  | InFlight c, Failed status => Some (on_error c status at_sign_in m s)
  | AwaitRefresh c status, Refreshed o => Some (on_refreshed c status o at_sign_in s)
  | AwaitHeaders _, RefreshRejected e | AwaitRefresh _ _, RefreshRejected e =>
      Some (MkReaction (Done (Some (RefreshFailure e))) s [])
  | _, _ => None
  end.
End Interceptors.
