(* ===== verification/HttpClientFacts.v ===== *)
(** * Correctness of the API client

    Theorems on [HttpClient]: a request is replayed at most once and a
    single-use request never, a second rejection ends the session, and
    concurrent GET requests are shared within one login session only. *)

From Stdlib Require Import ZArith Lia Bool SpecFloat.
From stdpp Require Import base list numbers.
From S2P Require Import Prelude JsString JsNumber JsValue JsHost AuthStore AuthSession HttpClient.

(** ** Replays *)

Section Client.
Context `{AxiosHeaders}.

Definition may_retry (c : ApiRequestConfig) : nat :=
  if negb (skipAuthRefresh c) && negb (authRetry c) then 1 else 0.

(** The sends a request can still make, and the steps it can still take. *)
Definition sends_left (st : Stage) : nat :=
  match st with
  | InFlight c => may_retry c
  | AwaitHeaders c | AwaitRefresh c _ => 1 + may_retry c
  | Done _ => 0
  end.
Definition steps_left (st : Stage) : nat :=
  match st with
  | InFlight c => 1 + 3 * may_retry c
  | AwaitHeaders c => 2 + 3 * may_retry c
  | AwaitRefresh c _ => 3 + 3 * may_retry c
  | Done _ => 0
  end.
Definition is_send (st : Stage) : nat := match st with InFlight _ => 1 | _ => 0 end.

Lemma may_retry_set_headers h c : may_retry (set_headers h c) = may_retry c.
Proof. done. Qed.
Lemma may_retry_authorize a c : may_retry (authorize a c) = may_retry c.
Proof. unfold authorize. by destruct (accessToken a) as [[|u t]|]. Qed.
Lemma may_retry_marked c : may_retry (mark_retry c) = 0.
Proof. unfold may_retry. simpl. by rewrite andb_false_r. Qed.
Lemma may_retry_skipped c : may_retry (mark_skip_refresh c) = 0.
Proof. done. Qed.
Lemma may_retry_le c : may_retry c <= 1.
Proof. unfold may_retry. destruct (_ && _); lia. Qed.

Hint Rewrite may_retry_set_headers may_retry_authorize may_retry_marked
  may_retry_skipped : client.

(** Attaching a token changes only the header. *)
Lemma authorize_flags `{!AxiosHeadersLaws} a c :
  single_use (authorize a c) = single_use c /\ skipAuthRefresh (authorize a c) = skipAuthRefresh c /\
  authRetry (authorize a c) = authRetry c /\ skipErrorHandler (authorize a c) = skipErrorHandler c.
Proof.
  unfold authorize. destruct (accessToken a) as [[|u t]|]; try done.
  split_and!; try done. unfold single_use. simpl.
  f_equal. apply headers_has_set. by vm_compute.
Qed.

Context `{Tab}.

Lemma interceptor_sends a c :
  sends_left (request_interceptor a c) + is_send (request_interceptor a c) <= 1 + may_retry c /\
  steps_left (request_interceptor a c) <= 2 + 3 * may_retry c /\
  steps_left (request_interceptor a c) <= 4 /\
  (single_use c = true -> sends_left (request_interceptor a c)
     + is_send (request_interceptor a c) <= 1).
Proof.
  unfold request_interceptor. pose proof (may_retry_le c).
  destruct (single_use c); simpl; autorewrite with client; split_and!; intros; lia.
Qed.

Lemma stage_step_sends st i here m s r :
  stage_step st i here m s = Some r ->
  sends_left (next_stage r) + is_send (next_stage r) <= sends_left st /\
  steps_left (next_stage r) < steps_left st.
Proof.
  destruct st as [c|c|c status|o], i as [[h|e|]|body|status'|o'|e]; simpl; try done; intros [= <-];
    try (simpl; lia).
  - simpl. unfold apply_headers. autorewrite with client. lia.
  - unfold on_success. repeat case_match; simpl; lia.
  - unfold on_error. destruct (is_unauthorized status'); [|simpl; lia].
    destruct (negb (skipAuthRefresh c) && negb (authRetry c)) eqn:E.
    + assert (may_retry c = 1) as -> by (unfold may_retry; by rewrite E).
      simpl. autorewrite with client. lia.
    + destruct (authRetry c); simpl; lia.
  - unfold on_refreshed. destruct o'; simpl; try lia.
    pose proof (interceptor_sends (auth s) (authorize (auth s) c)) as (S1 & S2 & _ & _).
    autorewrite with client in *. lia.
Qed.

(** Each entry first lets the rest of the page change the session. *)
Fixpoint request_run (st : Stage) (s : Session)
    (l : list ((Session -> Session) * Input * bool * Moment)) : option (list Stage * Session * list Effect) :=
  match l with
  | [] => Some ([], s, [])
  | (interfere, i, here, m) :: l' =>
      r ← stage_step st i here m (interfere s);
      rest ← request_run (next_stage r) (next_session r) l';
      Some (next_stage r :: rest.1.1, rest.1.2, effects r ++ rest.2)
  end.

Definition sends (l : list Stage) : nat := list_sum (map is_send l).

Lemma request_run_sends l : forall st s stages s' fx,
  request_run st s l = Some (stages, s', fx) ->
  sends stages <= sends_left st /\ length l <= steps_left st.
Proof.
  induction l as [|[[[f i] here] m] l IH]; intros st s stages s' fx R; simpl in R.
  - injection R as <- <- <-. unfold sends. simpl. lia.
  - destruct (stage_step st i here m (f s)) as [r|] eqn:S; [|done]. simpl in R.
    destruct (request_run (next_stage r) (next_session r) l) as [[[rest s1] fx1]|] eqn:Q; [|done].
    simpl in R. injection R as <- <- <-. apply IH in Q. apply stage_step_sends in S.
    unfold sends in *. simpl. lia.
Qed.

(** C31: a request is sent at most twice, and a request that spends a one-time
    authorization (or carries a security proof) at most once, whatever the
    server answers, however the refreshes end and whatever the page does in
    between; every request is over after at most four steps. *)
Theorem request_replayed_once a c s l stages s' fx :
  request_run (request_interceptor a c) s l = Some (stages, s', fx) ->
  sends (request_interceptor a c :: stages) <= 2 /\
  (single_use c = true -> sends (request_interceptor a c :: stages) <= 1) /\
  length l <= 4.
Proof.
  intros R. apply request_run_sends in R as [A B].
  pose proof (interceptor_sends a c) as (S1 & _ & S2 & S4). pose proof (may_retry_le c).
  unfold sends in *. simpl. split; [lia|]. split; [|lia].
  intros U. specialize (S4 U). lia.
Qed.

(** a session the server keeps rejecting ends: when the request replayed
    after a successful refresh is answered 401 again, the client signs out
    locally, without signing out other tabs, reports the expired session and
    goes to the sign-in page. *)
Theorem second_rejection_signs_out `{!AxiosHeadersLaws} a c s b m1 m2 here n :
  single_use c = false -> skipAuthRefresh c = false -> authRetry c = false ->
  num_eqb n (lit 401) = true ->
  exists stages s',
    request_run (request_interceptor a c) s
      [(fun x => x, Failed (Some n), here, m1);
       (fun x => applyAuthBundle b false m1 x, Refreshed (OutcomeAuthenticated b), here, m1);
       (fun x => x, Failed (Some n), here, m2)]
      = Some (stages, s', notify c ++ redirectToSignIn here) /\
    sends (request_interceptor a c :: stages) = 2 /\
    list.last stages = Some (Done (Some (HttpFailure (Some n)))) /\
    auth s' = reset (Some Complete) (auth s) /\ published s' = published s.
Proof.
  intros U K A N.
  destruct (authorize_flags a c) as (U1 & K1 & A1 & E1).
  set (s1 := applyAuthBundle b false m1 s).
  set (c1 := mark_retry (authorize a c)).
  destruct (authorize_flags (auth s1) c1) as (U2 & _ & A2 & E2).
  destruct (authorize_flags (auth s1) (authorize (auth s1) c1)) as (U3 & _ & A3 & E3).
  assert (single_use c1 = false) as U0 by (unfold single_use in *; simpl; congruence).
  unfold request_interceptor. rewrite U.
  cbn [request_run stage_step]. unfold on_error. cbn [is_unauthorized]. rewrite N, K1, A1, K, A.
  cbn [negb andb next_stage next_session mbind option_bind]. fold c1 s1.
  cbn [stage_step]. unfold on_refreshed, request_interceptor. rewrite U2, U0.
  cbn [stage_step next_stage next_session mbind option_bind].
  unfold on_error. cbn [is_unauthorized]. rewrite N, A3, A2.
  replace (authRetry c1) with true by done. rewrite andb_false_r.
  cbn [next_stage next_session effects fst snd app mbind option_bind].
  assert (forall d, skipErrorHandler d = skipErrorHandler c -> notify d = notify c) as ->.
  { intros d D. unfold notify. by rewrite D. }
  - do 2 eexists. split; [by rewrite app_nil_r|]. by split_and!.
  - rewrite E3, E2. exact E1.
Qed.
End Client.

(** ** Shared GET requests *)

(** What can happen to the table of requests in flight. *)
Inductive GetOp :=
| CallGet (disableDuplicate : bool) (s : option str) (url : str) (params : option str)
| Settle (key : str).

Definition get_step (st : GetState) (o : GetOp) : GetState :=
  match o with
  | CallGet dup s url params => (api_get dup s url params st).2
  | Settle key => get_finally key st
  end.
Definition get_run (st : GetState) (l : list GetOp) : GetState := fold_left get_step l st.
Definition no_gets : GetState := MkGetState [] 0.

(** Requests in flight were sent, and no request is listed under two keys. *)
Definition gets_ok (st : GetState) : Prop :=
  (forall k i, (k, i) ∈ inFlightGet st -> i < sent st) /\
  (forall k k' i, (k, i) ∈ inFlightGet st -> (k', i) ∈ inFlightGet st -> k = k').

(** The request [i] is shared under [key] only. *)
Definition only_under (key : str) (i : nat) (st : GetState) : Prop :=
  i < sent st /\ forall k, (k, i) ∈ inFlightGet st -> k = key.

Lemma elem_of_finally key st e :
  e ∈ inFlightGet (get_finally key st) -> e ∈ inFlightGet st.
Proof.
  simpl. rewrite list_elem_of_In, filter_In, <- list_elem_of_In. tauto.
Qed.

(** A call adds at most the request it sends, under its own key. *)
Lemma api_get_elem dup s url params st k i :
  (k, i) ∈ inFlightGet (api_get dup s url params st).2 ->
  (k, i) ∈ inFlightGet st \/ (i = sent st /\ k = get_key s url params /\
    sent (api_get dup s url params st).2 = S (sent st)).
Proof.
  unfold api_get. destruct dup; [by left|].
  destruct (assoc_str _ _); simpl; [by left|].
  rewrite elem_of_app, list_elem_of_singleton. intros [?|[= -> ->]]; auto.
Qed.

Lemma api_get_sent dup s url params st :
  sent st <= sent (api_get dup s url params st).2.
Proof. unfold api_get. destruct dup; simpl; [lia|]. destruct (assoc_str _ _); simpl; lia. Qed.

Lemma gets_ok_step st o : gets_ok st -> gets_ok (get_step st o).
Proof.
  intros [B U]. destruct o as [dup s url params|key]; simpl.
  - pose proof (api_get_sent dup s url params st) as L. split.
    + intros k i [E|(-> & _ & ->)]%api_get_elem; [|lia]. apply B in E. lia.
    + intros k k' i E E'. apply api_get_elem in E, E'.
      destruct E as [E|(-> & -> & _)], E' as [E'|(Q & -> & _)]; try done.
      * by eapply U.
      * subst. apply B in E. lia.
      * apply B in E'. lia.
  - split.
    + intros k i E. apply elem_of_finally in E. by eapply B.
    + intros k k' i E E'. apply elem_of_finally in E, E'. by eapply U.
Qed.

Lemma only_under_step key i st o : only_under key i st -> only_under key i (get_step st o).
Proof.
  intros [L U]. destruct o as [dup s url params|key']; simpl.
  - pose proof (api_get_sent dup s url params st). split; [lia|].
    intros k [E|(-> & _)]%api_get_elem; [by apply U|lia].
  - split; [done|]. intros k E. apply elem_of_finally in E. by apply U.
Qed.

Lemma get_run_inv (P : GetState -> Prop) l : forall st,
  (forall st o, P st -> P (get_step st o)) -> P st -> P (get_run st l).
Proof. induction l as [|o l IH]; intros st S Hst; [done|]. apply IH; [done|]. by apply S. Qed.

Lemma gets_ok_run l : gets_ok (get_run no_gets l).
Proof.
  apply get_run_inv; [intros; by apply gets_ok_step|].
  split; intros k; intros; by apply not_elem_of_nil in H.
Qed.

Lemma api_get_under dup s url params st :
  gets_ok st ->
  only_under (get_key s url params) (api_get dup s url params st).1
    (api_get dup s url params st).2.
Proof.
  intros [B U]. unfold api_get. destruct dup; simpl.
  - split; [simpl; lia|]. intros k E. apply B in E. lia.
  - destruct (assoc_str (inFlightGet st) (get_key s url params)) as [i|] eqn:A; simpl.
    + apply assoc_str_elem in A. split; [by eapply B|]. intros k E. by eapply U.
    + split; [simpl; lia|]. intros k. simpl. rewrite elem_of_app, list_elem_of_singleton.
      intros [E|[= ->]]; [|done]. apply B in E. lia.
Qed.

(** The key can be read back: the session is what precedes the first colon. *)
Lemma key_prefix_inj (a b x y : str) :
  58%N ∉ a -> 58%N ∉ b -> a ++ js ":" ++ x = b ++ js ":" ++ y -> a = b /\ x = y.
Proof.
  change (js ":") with [58%N].
  revert b; induction a as [|c a IH]; intros [|d b] Na Nb E; simpl in E.
  - by injection E.
  - injection E as E _. subst. destruct Nb. by left.
  - injection E as E _. subst. destruct Na. by left.
  - injection E as <- E. destruct (IH b) as [-> ->]; [..|done|done].
    + intros ?. destruct Na. by right.
    + intros ?. destruct Nb. by right.
Qed.

(** A GET request is shared only within one login session: in any history
    of calls and settlements, if a later call is given a request that an
    earlier call was given, both were made under the same session identifier
    and for the same address and parameters; so after signing in as another
    user no page receives an answer fetched for the previous one. *)
Theorem get_shared_within_session before between s1 u1 p1 s2 u2 p2 :
  58%N ∉ session_key s1 -> 58%N ∉ session_key s2 ->
  let st := get_run no_gets before in
  let '(i, st1) := api_get false s1 u1 p1 st in
  let '(j, _) := api_get false s2 u2 p2 (get_run st1 between) in
  i = j ->
  session_key s1 = session_key s2 /\
  u1 ++ js "?" ++ default (js "{}") p1 = u2 ++ js "?" ++ default (js "{}") p2.
Proof.
  intros N1 N2. cbv zeta.
  pose proof (api_get_under false s1 u1 p1 _ (gets_ok_run before)) as O.
  destruct (api_get false s1 u1 p1 (get_run no_gets before)) as [i st1]. simpl in O.
  assert (only_under (get_key s1 u1 p1) i (get_run st1 between)) as [L K].
  { apply (get_run_inv (only_under (get_key s1 u1 p1) i)); [|done].
    intros. by apply only_under_step. }
  unfold api_get.
  destruct (assoc_str (inFlightGet (get_run st1 between)) (get_key s2 u2 p2)) as [j|] eqn:A;
    [|intros ->; lia].
  intros <-. apply assoc_str_elem, K in A.
  destruct (key_prefix_inj (session_key s2) (session_key s1)
    (u2 ++ js "?" ++ default (js "{}") p2) (u1 ++ js "?" ++ default (js "{}") p1));
    [done|done|exact A|]. by split.
Qed.

(** ** Examples *)

(** Headers as a list of pairs, the last one set first. *)
Definition same_header (a b : str) : bool := str_eqb (map ascii_lower a) (map ascii_lower b).
#[local] Instance list_headers : AxiosHeaders :=
  {| Headers := list (str * str);
     headers_has name h := existsb (fun e => same_header e.1 name) h;
     headers_set name value h :=
       (name, value) :: List.filter (fun e => negb (same_header e.1 name)) h |}.
#[local] Instance list_headers_laws : AxiosHeadersLaws.
Proof.
  split. intros p n v h N. simpl.
  assert (same_header n p = false) as -> by (apply str_eqb_neq; congruence). simpl.
  induction h as [|e h IH]; simpl; [done|].
  destruct (same_header e.1 n) eqn:E; simpl; [|by rewrite IH].
  apply str_eqb_eq in E. simpl in IH. rewrite IH.
  assert (same_header e.1 p = false) as ->; [|done]. apply str_eqb_neq. congruence.
Qed.

Definition plain_config : ApiRequestConfig :=
  MkConfig false false false false false ([] : list (str * str)).
Definition page_tab : Tab :=
  {| has_window := true; authSyncSource := js "a"; locks := LocksMissing |}.
Definition client_noon : Moment := MkMoment (lit 1000000) (js "n1").
#[local] Existing Instance page_tab.

Lemma request_replayed_once_witness :
  exists stages s' fx,
    request_run (request_interceptor initial_auth plain_config) (shared initial_world)
      [(fun x => x, Failed (Some (lit 401)), false, client_noon);
       (fun x => x, Refreshed OutcomeAnonymous, false, client_noon)] = Some (stages, s', fx) /\
    sends (request_interceptor initial_auth plain_config :: stages) <= 2.
Proof.
  do 3 eexists. split; [vm_compute; reflexivity|].
  refine (proj1 (request_replayed_once initial_auth plain_config (shared initial_world)
    [(fun x => x, Failed (Some (lit 401)), false, client_noon);
     (fun x => x, Refreshed OutcomeAnonymous, false, client_noon)] _ _ _ _)).
  vm_compute. reflexivity.
Defined.

Definition replay_bundle : AuthBundle :=
  MkAuthBundle (js "tok") (js "Bearer") (lit 5000)
    (MkAuthUser (lit 1) (js "root") (lit 100) [])
    (MkLoginSession (js "s1") true (js "password") (js "::1") (js "ua")
       (lit 1) (lit 2) (lit 9000)).

Lemma second_rejection_signs_out_witness :
  exists stages s',
    request_run (request_interceptor initial_auth plain_config) (shared initial_world)
      [(fun x => x, Failed (Some (lit 401)), false, client_noon);
       (fun x => applyAuthBundle replay_bundle false client_noon x,
        Refreshed (OutcomeAuthenticated replay_bundle), false, client_noon);
       (fun x => x, Failed (Some (lit 401)), false, client_noon)]
      = Some (stages, s', [NotifySessionExpired; RedirectToSignIn]) /\
    sends (request_interceptor initial_auth plain_config :: stages) = 2 /\
    list.last stages = Some (Done (Some (HttpFailure (Some (lit 401))))) /\
    auth s' = reset (Some Complete) initial_auth /\ published s' = [].
Proof.
  apply (second_rejection_signs_out initial_auth plain_config (shared initial_world)
    replay_bundle client_noon client_noon false (lit 401)); vm_compute; reflexivity.
Defined.

Lemma get_shared_within_session_witness :
  let st := get_run no_gets [] in
  let '(i, st1) := api_get false (Some (js "s1")) (js "/api/user/self") None st in
  let '(j, _) := api_get false (Some (js "s1")) (js "/api/user/self") None (get_run st1 []) in
  i = j /\ session_key (Some (js "s1")) = session_key (Some (js "s1")).
Proof.
  refine (conj eq_refl (proj1 (get_shared_within_session [] [] (Some (js "s1"))
    (js "/api/user/self") None (Some (js "s1")) (js "/api/user/self") None _ _ eq_refl)));
    vm_decide.
Defined.
