(* ===== verification/RequestRules.v ===== *)
(** * Request rules

    Models the request-rule half of [features/pricing/lib/billing-expr.ts]:
    multipliers such as [(header("x") != "" ? 2 : 1)] that follow a base
    price, read from and written to text by the rule editor.  Anchored
    regular expressions are written as matchers on the list of code units;
    each of them has at most one way to match, which the comments argue.
    [JSON.parse] may throw, so the readers return an [outcome]. *)

From Stdlib Require Import ZArith Lia Bool SpecFloat.
From stdpp Require Import base list numbers.
From S2P Require Import Prelude JsString JsNumber JsValue JsJson ExprTypes ExprCompile ExprStructure.

(** ** Data *)

Definition SOURCE_PARAM : str := js "param".
Definition SOURCE_HEADER : str := js "header".
Definition SOURCE_TIME : str := js "time".

Definition MATCH_EQ : str := js "eq".
Definition MATCH_CONTAINS : str := js "contains".
Definition MATCH_GT : str := js "gt".
Definition MATCH_GTE : str := js "gte".
Definition MATCH_LT : str := js "lt".
Definition MATCH_LTE : str := js "lte".
Definition MATCH_EXISTS : str := js "exists".
Definition MATCH_RANGE : str := js "range".

Definition TIME_FUNCS : list str := [js "hour"; js "minute"; js "weekday"; js "month"; js "day"].

(** The time zones the editor offers, with their labels. *)
Definition COMMON_TIMEZONES : list (str * str) :=
  [(js "Asia/Shanghai", js "UTC+8 Shanghai (Asia/Shanghai)");
   (js "UTC", js "UTC");
   (js "America/New_York", js "UTC-5 New York (America/New_York)");
   (js "America/Los_Angeles", js "UTC-8 Los Angeles (America/Los_Angeles)");
   (js "America/Chicago", js "UTC-6 Chicago (America/Chicago)");
   (js "Europe/London", js "UTC+0 London (Europe/London)");
   (js "Europe/Berlin", js "UTC+1 Berlin (Europe/Berlin)");
   (js "Asia/Tokyo", js "UTC+9 Tokyo (Asia/Tokyo)");
   (js "Asia/Singapore", js "UTC+8 Singapore (Asia/Singapore)");
   (js "Asia/Seoul", js "UTC+9 Seoul (Asia/Seoul)");
   (js "Australia/Sydney", js "UTC+10 Sydney (Australia/Sydney)")].

Record TimeRule := MkTimeRule {
  tr_timeFunc : str;
  tr_timezone : str;
  tr_mode : str;
  tr_value : str;
  tr_rangeStart : str;
  tr_rangeEnd : str
}.

Record ParamHeaderCondition := MkParamHeader {
  ph_header : bool;
  ph_path : str;
  ph_mode : str;
  ph_value : str
}.

Inductive RequestCondition :=
| OnTime (c : TimeRule)
| OnRequest (c : ParamHeaderCondition).

Record RequestRuleGroup := MkRuleGroup {
  rg_conditions : list RequestCondition;
  rg_multiplier : str;
  rg_conditionText : option str;
  rg_matched : option bool
}.

Definition rule_group (conditions : list RequestCondition) (multiplier : str) : RequestRuleGroup :=
  MkRuleGroup conditions multiplier None None.

(** ** Matching text *)

(** A literal prefix. *)
Definition strip (p s : str) : option str :=
  if starts_with p s then Some (drop (length p) s) else None.

(** [[^Q]+] up to a quote Q: the text between a parenthesis with an opening
    quote and a closing quote with its parenthesis. *)
Definition open_call : str := [40; 34]%N.
Definition close_call : str := [34; 41]%N.
Definition not_quote (c : N) : bool := negb (c =? 34)%N.

Definition quoted_arg (s : str) : option (str * str) :=
  s1 ← strip open_call s;
  let '(x, r) := span not_quote s1 in
  match x with
  | [] => None
  | _ => r' ← strip close_call r; Some (x, r')
  end.

(** [[\d.eE+-]+]: the class holds no space and no parenthesis, so the longest
    match is the only one the patterns can use. *)
Definition number_class (c : N) : bool :=
  is_digit c || (c =? 46)%N || (c =? 101)%N || (c =? 69)%N || (c =? 43)%N || (c =? 45)%N.
Definition number_text (s : str) : option (str * str) :=
  let '(x, r) := span number_class s in
  match x with [] => None | _ => Some (x, r) end.

Definition first_of {A} (f g : option A) : option A :=
  match f with Some a => Some a | None => g end.

(** [(hour|minute|weekday|month|day)] with its quoted argument: no name is a
    prefix of another. *)
Fixpoint time_probe (names : list str) (s : str) : option (str * str * str) :=
  match names with
  | [] => None
  | n :: names' =>
      match strip n s with
      | Some r => '(tz, r') ← quoted_arg r; Some (n, tz, r')
      | None => time_probe names' s
      end
  end.

Definition call_text (f arg : str) : str := f ++ open_call ++ arg ++ close_call.

(** [NUMERIC_LITERAL_REGEX] *)
Definition is_numeric_literal (s : str) : bool :=
  let t := match s with c :: s' => if (c =? 45)%N then s' else s | [] => s end in
  match scan_decimal t with Some (_, []) => true | _ => false end.

Definition TIME_FUNC_RANGES : list (str * (Z * Z)) :=
  [(js "hour", (0, 23)); (js "minute", (0, 59)); (js "weekday", (0, 6));
   (js "month", (1, 12)); (js "day", (1, 31))]%Z.

Definition isTimeValueInRange (timeFunc text : str) : bool :=
  if negb (is_numeric_literal text) then false
  else
    let value := js_Number text in
    if negb (is_integer value) then false
    else
      match assoc_str TIME_FUNC_RANGES timeFunc with
      | Some (min, max) => num_leb (lit min) value && num_leb value (lit max)
      | None => false
      end.

(** ** Reading *)

(** The time range pattern: function, zone, both bounds, and what follows. *)
Definition match_time_range (s : str) : option (str * str * str * str * str) :=
  '(fn, tz, r) ← time_probe TIME_FUNCS s;
  r ← strip (js " >= ") r;
  '(a, r) ← number_text r;
  r ← first_of (strip (js " && ") r) (strip (js " || ") r);
  r ← strip (call_text fn tz ++ js " < ") r;
  '(b, r) ← number_text r;
  Some (fn, tz, a, b, r).

Definition match_whole_range (s : str) : option (str * str * str * str) :=
  '(fn, tz, a, b, r) ← match_time_range s;
  match r with [] => Some (fn, tz, a, b) | _ => None end.

Definition match_wrapped_range (s : str) : option (str * str * str * str) :=
  s1 ← strip (js "(") s;
  '(fn, tz, a, b, r) ← match_time_range s1;
  if str_eqb r (js ")") then Some (fn, tz, a, b) else None.

(** The scalar pattern; [==] and [>=] are tried before the shorter [<]. *)
Definition match_time_scalar (s : str) : option (str * str * str * str) :=
  '(fn, tz, r) ← time_probe TIME_FUNCS s;
  '(mode, r) ←
    first_of (r1 ← strip (js " == ") r; Some (MATCH_EQ, r1))
      (first_of (r1 ← strip (js " >= ") r; Some (MATCH_GTE, r1))
                (r1 ← strip (js " < ") r; Some (MATCH_LT, r1)));
  '(v, r) ← number_text r;
  match r with [] => Some (fn, tz, mode, v) | _ => None end.

Definition tryParseTimeCondition (expr : str) : option TimeRule :=
  match first_of (match_whole_range expr) (match_wrapped_range expr) with
  | Some (fn, tz, a, b) =>
      if negb (isTimeValueInRange fn a) || negb (isTimeValueInRange fn b) then None
      else Some (MkTimeRule fn tz MATCH_RANGE [] a b)
  | None =>
      '(fn, tz, mode, v) ← match_time_scalar expr;
      if negb (isTimeValueInRange fn v) then None
      else Some (MkTimeRule fn tz mode v [] [])
  end.

(** [(?:[^Q\\]|\\.)*Q] behind an opening quote Q: the closing quote is the
    first one that is not escaped. *)
Fixpoint string_body (s : str) : option (str * str) :=
  match s with
  | [] => None
  | c :: s' =>
      if (c =? 34)%N then Some ([], s')
      else if (c =? 92)%N then
        match s' with
        | d :: s'' =>
            if is_line_terminator d then None
            else '(b, r) ← string_body s''; Some (c :: d :: b, r)
        | [] => None
        end
      else '(b, r) ← string_body s'; Some (c :: b, r)
  end.

(** A string literal, with its quotes, up to the end of the text. *)
Definition string_literal_then (tail s : str) : option str :=
  s1 ← strip [34%N] s;
  '(b, r) ← string_body s1;
  if str_eqb r tail then Some (34%N :: b ++ [34%N]) else None.

Definition parseExprLiteral (raw : str) : option jsval :=
  let text := trim raw in
  if str_eqb text (js "true") || str_eqb text (js "false") then Some (JStr text)
  else if is_numeric_literal text then Some (JStr text)
  else match json_parse text with Ok v => Some v | _ => None end.

(** [JSON.parse(m[i]) as string] *)
Definition parse_string_literal (text : str) : outcome JsError str :=
  let* v := json_parse text in js_String v.

Definition header_condition (path mode value : str) : RequestCondition :=
  OnRequest (MkParamHeader true path mode value).
Definition param_condition (path mode value : str) : RequestCondition :=
  OnRequest (MkParamHeader false path mode value).

(** [^f("path")tail$] *)
Definition match_call (f tail s : str) : option str :=
  r ← strip f s;
  '(path, r) ← quoted_arg r;
  if str_eqb r tail then Some path else None.

Definition empty_literal : str := [34; 34]%N.

(** [^has(header("path"), literal)$] *)
Definition match_has_header (s : str) : option (str * str) :=
  r ← strip (js "has(header") s;
  '(path, r) ← quoted_arg r;
  r ← strip (js ", ") r;
  l ← string_literal_then (js ")") r;
  Some (path, l).

(** [^param("a") != nil && has(param("b"), literal)$] *)
Definition match_has_param (s : str) : option (str * str) :=
  r ← strip (js "param") s;
  '(a, r) ← quoted_arg r;
  r ← strip (js " != nil && has(param") r;
  '(b, r) ← quoted_arg r;
  r ← strip (js ", ") r;
  l ← string_literal_then (js ")") r;
  if str_eqb a b then Some (a, l) else None.

(** [^param("a") != nil && param("b") (>|>=|<|<=) number$] *)
Definition match_compare_param (s : str) : option (str * str * str) :=
  r ← strip (js "param") s;
  '(a, r) ← quoted_arg r;
  r ← strip (js " != nil && param") r;
  '(b, r) ← quoted_arg r;
  '(mode, r) ←
    first_of (r1 ← strip (js " > ") r; Some (MATCH_GT, r1))
      (first_of (r1 ← strip (js " >= ") r; Some (MATCH_GTE, r1))
        (first_of (r1 ← strip (js " < ") r; Some (MATCH_LT, r1))
                  (r1 ← strip (js " <= ") r; Some (MATCH_LTE, r1))));
  '(v, r) ← number_text r;
  match r with
  | [] => if str_eqb a b then Some (a, mode, v) else None
  | _ => None
  end.

(** [^(param|header)("path") == (.+)$] *)
Definition match_equals (s : str) : option (bool * str * str) :=
  '(h, r) ← first_of (r ← strip (js "param") s; Some (false, r))
                     (r ← strip (js "header") s; Some (true, r));
  '(path, r) ← quoted_arg r;
  r ← strip (js " == ") r;
  match r with
  | [] => None
  | _ => if existsb is_line_terminator r then None else Some (h, path, r)
  end.

Definition tryParseRequestCondition (expr : str) : outcome JsError (option RequestCondition) :=
  match tryParseTimeCondition expr with
  | Some tc => Ok (Some (OnTime tc))
  | None =>
  match match_call (js "header") (js " != " ++ empty_literal) expr with
  | Some path => Ok (Some (header_condition path MATCH_EXISTS []))
  | None =>
  match match_call (js "param") (js " != nil") expr with
  | Some path => Ok (Some (param_condition path MATCH_EXISTS []))
  | None =>
  match match_has_header expr with
  | Some (path, l) =>
      let* v := parse_string_literal l in Ok (Some (header_condition path MATCH_CONTAINS v))
  | None =>
  match match_has_param expr with
  | Some (path, l) =>
      let* v := parse_string_literal l in Ok (Some (param_condition path MATCH_CONTAINS v))
  | None =>
  match match_compare_param expr with
  | Some (path, mode, v) => Ok (Some (param_condition path mode v))
  | None =>
  match match_equals expr with
  | Some (h, path, l) =>
      match parseExprLiteral l with
      | None | Some JNull => Ok None
      | Some v =>
          let* s := js_String v in
          Ok (Some (OnRequest (MkParamHeader h path MATCH_EQ s)))
      end
  | None => Ok None
  end end end end end end end.

Definition tryParseTimeRangePair (lower upper : str) : option TimeRule :=
  match tryParseTimeCondition lower, tryParseTimeCondition upper with
  | Some a, Some b =>
      if negb (str_eqb (tr_timeFunc a) (tr_timeFunc b)) ||
         negb (str_eqb (tr_timezone a) (tr_timezone b)) then None
      else if negb (str_eqb (tr_mode a) MATCH_GTE) || negb (str_eqb (tr_mode b) MATCH_LT)
      then None
      else Some (MkTimeRule (tr_timeFunc a) (tr_timezone a) MATCH_RANGE []
                   (tr_value a) (tr_value b))
  | _, _ => None
  end.

(** The [for] loop over the parts, two at a time for a merged range. *)
Fixpoint parse_and_parts (parts : list str) (conditions : list RequestCondition)
    : outcome JsError (option (list RequestCondition)) :=
  match parts with
  | [] => Ok (Some conditions)
  | p :: rest =>
      let part := trim p in
      let single :=
        let* c := tryParseRequestCondition part in
        match c with
        | None => Ok None
        | Some c => parse_and_parts rest (conditions ++ [c])
        end in
      match rest with
      | [] => single
      | q :: rest' =>
          let next := trim q in
          match (if str_eqb next [] then None else tryParseTimeRangePair part next) with
          | Some merged => parse_and_parts rest' (conditions ++ [OnTime merged])
          | None => single
          end
      end
  end.

Definition tryParseRequestConditions (conditionStr : str)
    : outcome JsError (option (list RequestCondition)) :=
  match tryParseTimeCondition (trim conditionStr) with
  | Some c => Ok (Some [OnTime c])
  | None =>
      let* r := parse_and_parts (splitExpressionAtTopLevel conditionStr (js "&&")) [] in
      match r with Some (c :: l) => Ok (Some (c :: l)) | _ => Ok None end
  end.

(** [^\((.+) \? ([\d.eE+-]+) : 1\)$]: read from the end, the number and the
    question mark before it are determined. *)
Definition match_rule_factor (part : str) : option (str * str) :=
  r ← strip (js "(") part;
  r ← strip (reverse (js " : 1)")) (reverse r);
  '(n, r) ← number_text r;
  r ← strip (reverse (js " ? ")) r;
  match r with [] => None | _ => Some (reverse r, reverse n) end.

Definition tryParseRuleGroupFactor (part : str) : outcome JsError (option RequestRuleGroup) :=
  match match_rule_factor part with
  | None => Ok None
  | Some (cond, m) =>
      let* conditions := tryParseRequestConditions cond in
      Ok (cs ← conditions; Some (rule_group cs m))
  end.

(** The backend's trace of the rules that were considered. *)
Record RequestRuleTrace := MkTrace { rt_cond : str; rt_multiplier : num; rt_matched : bool }.

Definition requestRuleGroupsFromTrace (requestRules : list RequestRuleTrace)
    : outcome JsError (list RequestRuleGroup) :=
  omap_list (fun rule =>
    let conditionText := trim (rt_cond rule) in
    let* conditions := tryParseRequestConditions conditionText in
    Ok (MkRuleGroup (default [] conditions) (string_of_num (rt_multiplier rule))
          (Some conditionText) (Some (rt_matched rule)))) requestRules.

Fixpoint parse_factors (parts : list str) (groups : list RequestRuleGroup)
    : outcome JsError (option (list RequestRuleGroup)) :=
  match parts with
  | [] => Ok (Some groups)
  | p :: rest =>
      let* g := tryParseRuleGroupFactor p in
      match g with None => Ok None | Some g => parse_factors rest (groups ++ [g]) end
  end.

Definition tryParseRequestRuleExpr (expr : str)
    : outcome JsError (option (list RequestRuleGroup)) :=
  match trim expr with
  | [] => Ok (Some [])
  | trimmed => parse_factors (splitExpressionAtTopLevel trimmed (js "*")) []
  end.

(** ** Combining and splitting *)

Record SplitExpr := MkSplit { billingExpr : str; requestRuleExpr : str }.

(** [compiled.requestRules.some((rule) => rule.node === compiled.ast)] *)
Definition is_traced (compiled : CompilationResult) : bool :=
  match compiled with
  | Ready c =>
      existsb (fun rule => node_eqb (rule_node rule) (compiled_ast c)) (compiled_requestRules c)
  | Failed _ => false
  end.

(** The [forEach]: rule parts and base parts, in order. *)
Fixpoint classify_parts (cache : compiled_cache) (parts : list str)
    : outcome JsError (list str * list str) * compiled_cache :=
  match parts with
  | [] => (Ok ([], []), cache)
  | part :: rest =>
      match tryParseRequestRuleExpr part with
      | Ok parsed =>
          let '(compiled, cache1) := compileBillingExpression cache part in
          let is_rule :=
            match parsed with Some (_ :: _) => true | _ => false end || is_traced compiled in
          let '(r, cache2) := classify_parts cache1 rest in
          (let* (rules, bases) := r in
           Ok (if is_rule then (part :: rules, bases) else (rules, part :: bases)), cache2)
      | Throw e => (Throw e, cache)
      | OutOfFuel => (OutOfFuel, cache)
      end
  end.

Definition splitBillingExprAndRequestRules (cache : compiled_cache) (expr : str)
    : outcome JsError SplitExpr * compiled_cache :=
  let trimmed := trim expr in
  match trimmed with
  | [] => (Ok (MkSplit [] []), cache)
  | _ =>
      let parts := splitExpressionAtTopLevel trimmed (js "*") in
      if length parts <=? 1 then (Ok (MkSplit trimmed []), cache)
      else
        let '(r, cache') := classify_parts cache parts in
        (let* (ruleParts, baseParts) := r in
         let quantityParts :=
           List.filter (fun p => str_eqb (unwrapExpressionParens p) (js "image_count"))
             baseParts in
         if (length ruleParts =? 0) ||
            negb (length baseParts - length quantityParts =? 1)
         then Ok (MkSplit trimmed [])
         else Ok (MkSplit (join (js " * ") (map unwrapExpressionParens baseParts))
                    (join (js " * ") ruleParts)), cache')
  end.

Definition combineBillingExpr (baseExpr requestRuleExpr : str) : str :=
  let base := trim baseExpr in
  let rules := trim requestRuleExpr in
  match base, rules with
  | [], _ => []
  | _, [] => base
  | _, _ => js "(" ++ base ++ js ") * " ++ rules
  end.

(** ** The editor *)

Definition createEmptyCondition : ParamHeaderCondition := MkParamHeader false [] MATCH_EQ [].
Definition createEmptyTimeCondition : TimeRule :=
  MkTimeRule (js "hour") (js "Asia/Shanghai") MATCH_GTE [] [] [].
Definition createEmptyRuleGroup : RequestRuleGroup :=
  rule_group [OnRequest createEmptyCondition] [].
Definition createEmptyTimeRuleGroup : RequestRuleGroup :=
  rule_group [OnTime createEmptyTimeCondition] [].

(** The match modes offered for a source, with their label keys. *)
Definition getRequestRuleMatchOptions (source : str) : list (str * str) :=
  if str_eqb source SOURCE_TIME then
    [(MATCH_EQ, js "Equals"); (MATCH_GTE, js "Greater than or equal");
     (MATCH_LT, js "Less than"); (MATCH_RANGE, js "Overnight range")]
  else
    let base := [(MATCH_EQ, js "Equals"); (MATCH_CONTAINS, js "Contains");
                 (MATCH_EXISTS, js "Exists")] in
    if str_eqb source SOURCE_HEADER then base
    else base ++ [(MATCH_GT, js "Greater than"); (MATCH_GTE, js "Greater than or equal");
                  (MATCH_LT, js "Less than"); (MATCH_LTE, js "Less than or equal")].

(** [Partial<RequestCondition>]: absent properties are [None]. *)
Record PartialCondition := MkPartial {
  pc_source : option str;
  pc_path : option str;
  pc_mode : option str;
  pc_value : option str;
  pc_timeFunc : option str;
  pc_timezone : option str;
  pc_rangeStart : option str;
  pc_rangeEnd : option str
}.

Definition to_partial (c : RequestCondition) : PartialCondition :=
  match c with
  | OnTime t =>
      MkPartial (Some SOURCE_TIME) None (Some (tr_mode t)) (Some (tr_value t))
        (Some (tr_timeFunc t)) (Some (tr_timezone t)) (Some (tr_rangeStart t))
        (Some (tr_rangeEnd t))
  | OnRequest p =>
      MkPartial (Some (if ph_header p then SOURCE_HEADER else SOURCE_PARAM)) (Some (ph_path p))
        (Some (ph_mode p)) (Some (ph_value p)) None None None None
  end.

Definition offered_mode (source : str) (mode : option str) (fallback : str) : str :=
  match mode with
  | Some m =>
      if existsb (fun item => str_eqb item.1 m) (getRequestRuleMatchOptions source)
      then m else fallback
  | None => fallback
  end.

(** [s || fallback] *)
Definition or_default (s : option str) (fallback : str) : str :=
  match s with Some (c :: r) => c :: r | _ => fallback end.

Definition normalizeCondition (cond : option PartialCondition) : RequestCondition :=
  let get f := c ← cond; f c in
  let from s := bool_decide (get pc_source = Some s) in
  if from SOURCE_TIME then
    OnTime (MkTimeRule
      (match get pc_timeFunc with
       | Some f => if includes_str TIME_FUNCS f then f else js "hour"
       | None => js "hour"
       end)
      (or_default (get pc_timezone) (js "Asia/Shanghai"))
      (offered_mode SOURCE_TIME (get pc_mode) MATCH_GTE)
      (default [] (get pc_value)) (default [] (get pc_rangeStart)) (default [] (get pc_rangeEnd)))
  else
    let header := from SOURCE_HEADER in
    let source := if header then SOURCE_HEADER else SOURCE_PARAM in
    OnRequest (MkParamHeader header (or_default (get pc_path) [])
      (offered_mode source (get pc_mode) MATCH_EQ) (default [] (get pc_value))).

(** ** Writing *)

Definition buildExprLiteral (mode value : str) : str :=
  let text := trim value in
  if str_eqb mode MATCH_CONTAINS then json_stringify text
  else if str_eqb text (js "true") || str_eqb text (js "false") then text
  else if is_numeric_literal text then text
  else json_stringify text.

(** [''] is the answer for a condition that is not complete. *)
Definition time_expr (c : TimeRule) : str :=
  let fn := tr_timeFunc c ++ js "(" ++ json_stringify (tr_timezone c) ++ js ")" in
  if str_eqb (tr_mode c) MATCH_RANGE then
    let s := trim (tr_rangeStart c) in
    let e := trim (tr_rangeEnd c) in
    if negb (isTimeValueInRange (tr_timeFunc c) s) || negb (isTimeValueInRange (tr_timeFunc c) e)
    then []
    else
      fn ++ js " >= " ++ s ++
      (if num_ltb (js_Number e) (js_Number s) then js " || " else js " && ") ++
      fn ++ js " < " ++ e
  else
    let v := trim (tr_value c) in
    if negb (isTimeValueInRange (tr_timeFunc c) v) then []
    else
      let op :=
        if str_eqb (tr_mode c) MATCH_EQ then js "=="
        else if str_eqb (tr_mode c) MATCH_GTE then js ">="
        else if str_eqb (tr_mode c) MATCH_LT then js "<" else js "==" in
      fn ++ js " " ++ op ++ js " " ++ v.

Definition buildTimeConditionExpr (cond : TimeRule) : str :=
  match normalizeCondition (Some (to_partial (OnTime cond))) with
  | OnTime c => time_expr c
  | OnRequest _ => []
  end.

Definition compare_operators : list (str * str) :=
  [(MATCH_GT, js ">"); (MATCH_GTE, js ">="); (MATCH_LT, js "<"); (MATCH_LTE, js "<=")].

Definition request_expr (c : ParamHeaderCondition) : str :=
  match trim (ph_path c) with
  | [] => []
  | path =>
      let sourceExpr :=
        (if ph_header c then js "header(" else js "param(") ++ json_stringify path ++ js ")" in
      let mode := ph_mode c in
      if str_eqb mode MATCH_EXISTS then
        sourceExpr ++ (if ph_header c then js " != " ++ empty_literal else js " != nil")
      else if str_eqb mode MATCH_CONTAINS then
        let has := js "has(" ++ sourceExpr ++ js ", " ++ buildExprLiteral mode (ph_value c) ++ js ")" in
        if ph_header c then has else sourceExpr ++ js " != nil && " ++ has
      else
        match assoc_str compare_operators mode with
        | Some op =>
            let numText := trim (ph_value c) in
            if negb (is_numeric_literal numText) then []
            else sourceExpr ++ js " != nil && " ++ sourceExpr ++ js " " ++ op ++ js " " ++ numText
        | None => sourceExpr ++ js " == " ++ buildExprLiteral mode (ph_value c)
        end
  end.

Definition buildRequestConditionExpr (cond : RequestCondition) : str :=
  match cond with
  | OnTime t => buildTimeConditionExpr t
  | OnRequest _ =>
      match normalizeCondition (Some (to_partial cond)) with
      | OnRequest c => request_expr c
      | OnTime _ => []
      end
  end.

Definition wrap_disjunction (e : str) : str :=
  if contains e (js " || ") then js "(" ++ e ++ js ")" else e.

Definition combine_conditions (condExprs : list str) : str :=
  match condExprs with
  | [e] => e
  | _ => join (js " && ") (map wrap_disjunction condExprs)
  end.

Definition buildRuleGroupFactor (group : RequestRuleGroup) : str :=
  let multiplier := trim (rg_multiplier group) in
  if negb (is_numeric_literal multiplier) then []
  else
    match List.filter nonempty (map buildRequestConditionExpr (rg_conditions group)) with
    | [] => []
    | condExprs =>
        js "(" ++ combine_conditions condExprs ++ js " ? " ++ multiplier ++ js " : 1)"
    end.

Definition buildRequestRuleExpr (groups : list RequestRuleGroup) : str :=
  join (js " * ") (List.filter nonempty (map buildRuleGroupFactor groups)).
