(* ===== verification/RequestRulesFacts.v ===== *)
(** * Reading back what the rule editor writes

    Facts on [RequestRules].  [wf_condition] describes the conditions of a
    rule whose text is unambiguous: names without characters that need
    escapes, values of the shape the mode asks for.  The main lemma,
    [parse_build_groups], says what the reader makes of the writer's text
    for such rules. *)

From Stdlib Require Import ZArith Lia Bool SpecFloat.
From stdpp Require Import base list numbers.
From S2P Require Import Prelude JsString JsNumber JsNumberFacts JsNumberOrder JsValue JsJson ExprTypes ExprCompile ExprStructure ExprStructureFacts RequestRules.

(** ** Well-formed rules *)

Definition is_surrogate (c : N) : bool := is_lead_surrogate c || is_trail_surrogate c.
Definition is_bar (c : N) : bool := (c =? 124)%N.

(** A character that stands for itself between quotes and is no bar. *)
Definition plain_unit (c : N) : bool :=
  (32 <=? c)%N && negb (c =? 34)%N && negb (c =? 92)%N && negb (is_surrogate c) &&
  negb (is_bar c).

Definition plain_name (s : str) : bool := nonempty s && forallb plain_unit s.

(** Any text without a bar or a line separator, as a trimmed value. *)
Definition value_unit (c : N) : bool :=
  is_unit c && negb (c =? 8232)%N && negb (c =? 8233)%N && negb (is_bar c).
Definition plain_value (s : str) : bool := str_eqb (trim s) s && forallb value_unit s.

Definition is_compare (mode : str) : bool :=
  includes_str [MATCH_GT; MATCH_GTE; MATCH_LT; MATCH_LTE] mode.

Definition wf_time (t : TimeRule) : bool :=
  includes_str TIME_FUNCS (tr_timeFunc t) && plain_name (tr_timezone t) &&
  if str_eqb (tr_mode t) MATCH_RANGE then
    str_eqb (tr_value t) [] && isTimeValueInRange (tr_timeFunc t) (tr_rangeStart t) &&
    isTimeValueInRange (tr_timeFunc t) (tr_rangeEnd t)
  else
    includes_str [MATCH_EQ; MATCH_GTE; MATCH_LT] (tr_mode t) &&
    str_eqb (tr_rangeStart t) [] && str_eqb (tr_rangeEnd t) [] &&
    isTimeValueInRange (tr_timeFunc t) (tr_value t).

Definition wf_request (p : ParamHeaderCondition) : bool :=
  plain_name (ph_path p) && str_eqb (trim (ph_path p)) (ph_path p) &&
  if str_eqb (ph_mode p) MATCH_EXISTS then str_eqb (ph_value p) []
  else if is_compare (ph_mode p) then negb (ph_header p) && is_numeric_literal (ph_value p)
  else includes_str [MATCH_EQ; MATCH_CONTAINS] (ph_mode p) && plain_value (ph_value p).

Definition wf_condition (c : RequestCondition) : bool :=
  match c with OnTime t => wf_time t | OnRequest p => wf_request p end.

(** The conditions whose text has a reader that is reached. *)
Definition readable (c : RequestCondition) : bool :=
  match c with
  | OnTime _ => true
  | OnRequest p =>
      ph_header p || negb (str_eqb (ph_mode p) MATCH_CONTAINS || is_compare (ph_mode p))
  end.

(** A lower bound and the upper bound that would complete it to a range. *)
Definition merges (a b : RequestCondition) : bool :=
  match a, b with
  | OnTime x, OnTime y =>
      str_eqb (tr_mode x) MATCH_GTE && str_eqb (tr_mode y) MATCH_LT &&
      str_eqb (tr_timeFunc x) (tr_timeFunc y) && str_eqb (tr_timezone x) (tr_timezone y)
  | _, _ => false
  end.

Fixpoint unmerged (cs : list RequestCondition) : bool :=
  match cs with
  | a :: (b :: _) as cs' => negb (merges a b) && unmerged cs'
  | _ => true
  end.

Definition wf_group (g : RequestRuleGroup) : bool :=
  is_numeric_literal (rg_multiplier g) &&
  match rg_conditions g with [] => false | _ => true end &&
  forallb wf_condition (rg_conditions g) && unmerged (rg_conditions g) &&
  bool_decide (rg_conditionText g = None) && bool_decide (rg_matched g = None).

(** ** Texts *)

Lemma json_escape_plain s : forallb plain_unit s = true -> json_escape s = s.
Proof.
  induction s as [|c s IH]; [done|]. cbn [forallb json_escape]. intros H. split_andb.
  unfold plain_unit in H. split_andb. apply orb_false_iff in H2 as [-> ->].
  rewrite IH by done. unfold json_escape_unit. apply N.leb_le in H.
  repeat match goal with |- context [(c =? ?k)%N] => destruct (N.eqb_spec c k); [lia || done|] end.
  by destruct (N.ltb_spec c 32); [lia|].
Qed.

Lemma plain_name_inv s :
  plain_name s = true ->
  s <> [] /\ forallb plain_unit s = true /\ forallb not_quote s = true.
Proof.
  unfold plain_name. intros H. split_andb. split_and!; [by destruct s|done|].
  revert H0. apply forallb_weaken. intros c. unfold plain_unit, not_quote.
  by destruct (c =? 34)%N; rewrite ?andb_false_r.
Qed.

Lemma call_text_json f arg :
  plain_name arg = true -> f ++ js "(" ++ json_stringify arg ++ js ")" = call_text f arg.
Proof.
  intros (_ & H & _)%plain_name_inv. unfold json_stringify, call_text, open_call, close_call.
  rewrite (json_escape_plain arg H). cbn [app]. f_equal. change (js "(") with [40%N].
  change (js ")") with [41%N]. cbn [app]. by rewrite <- app_assoc.
Qed.

Lemma strip_app p s : strip p (p ++ s) = Some s.
Proof. unfold strip. by rewrite starts_with_self, drop_app_length. Qed.

Lemma strip_inv p s r : strip p s = Some r -> s = p ++ r.
Proof.
  unfold strip. destruct (starts_with p s) eqn:E; [|done]. intros [= <-].
  apply starts_with_app in E as [r ->]. by rewrite drop_app_length.
Qed.

Lemma quoted_arg_call arg r :
  plain_name arg = true -> quoted_arg (open_call ++ arg ++ close_call ++ r) = Some (arg, r).
Proof.
  intros (Hn & _ & Hq)%plain_name_inv. unfold quoted_arg. rewrite strip_app. cbn [mbind option_bind].
  rewrite (span_prefix not_quote arg (close_call ++ r)) by done.
  destruct arg; [done|]. by rewrite strip_app.
Qed.

Lemma call_text_app f arg r : call_text f arg ++ r = f ++ open_call ++ arg ++ close_call ++ r.
Proof. unfold call_text. by rewrite <- !app_assoc. Qed.

Lemma time_funcs_cases (P : str -> Prop) f :
  P (js "hour") -> P (js "minute") -> P (js "weekday") -> P (js "month") -> P (js "day") ->
  includes_str TIME_FUNCS f = true -> P f.
Proof.
  intros ? ? ? ? ? H. apply includes_str_elem in H. unfold TIME_FUNCS in H.
  rewrite !elem_of_cons in H. by destruct H as [->|[->|[->|[->|[->|H%elem_of_nil]]]]].
Qed.

Lemma time_probe_call f arg r :
  includes_str TIME_FUNCS f = true -> plain_name arg = true ->
  time_probe TIME_FUNCS (call_text f arg ++ r) = Some (f, arg, r).
Proof.
  intros Hf Ha. rewrite call_text_app. pose proof (quoted_arg_call arg r Ha) as Q.
  revert Hf. apply (time_funcs_cases (fun f => time_probe TIME_FUNCS (f ++ _) = Some (f, arg, r)));
    cbn [TIME_FUNCS time_probe];
    repeat match goal with
    | |- context [strip (js ?a) (js ?b ++ ?t)] =>
        first [ constr_eq a b; rewrite strip_app
              | change (strip (js a) (js b ++ t)) with (@None str) ]
    end; by rewrite Q.
Qed.

(** *** Numbers *)

Lemma numeric_chars s :
  is_numeric_literal s = true -> s <> [] /\ forallb number_class s = true.
Proof.
  unfold is_numeric_literal.
  set (t := match s with c :: s' => _ | [] => _ end).
  assert (exists u, s = u ++ t /\ forallb number_class u = true) as (u & Hs & Hu).
  { unfold t. destruct s as [|c s']; [by exists []|].
    destruct (N.eqb_spec c 45) as [->|]; [by exists [45%N]|by exists []]. }
  destruct (scan_decimal t) as [[d [|? ?]]|] eqn:E; [|done..]. intros _.
  apply scan_decimal_app in E as (v & Ht & Hv & Lv). rewrite app_nil_r in Ht. subst v.
  rewrite Hs. split; [by destruct u|]. rewrite forallb_app, Hu. exact Lv.
Qed.

Lemma number_class_not_space c : number_class c = true -> is_space c = false.
Proof.
  unfold number_class, is_digit, is_space, in_range. intros H.
  repeat match goal with
  | |- _ || _ = false => apply orb_false_iff; split
  end; rewrite ?andb_false_iff, ?N.leb_gt, ?N.eqb_neq;
  rewrite !orb_true_iff, andb_true_iff, !N.leb_le, !N.eqb_eq in H; lia.
Qed.

Lemma numeric_clean s : is_numeric_literal s = true -> ends_clean s = true.
Proof.
  intros (_ & H)%numeric_chars. unfold ends_clean. apply andb_true_iff. split.
  - destruct s as [|c s]; [done|]. cbn in H. split_andb. by rewrite number_class_not_space.
  - rewrite <- forallb_reverse in H. destruct (reverse s) as [|c r]; [done|].
    cbn in H. split_andb. by rewrite number_class_not_space.
Qed.

Lemma numeric_trim s : is_numeric_literal s = true -> trim s = s.
Proof. intros H. by apply ends_clean_trim, numeric_clean. Qed.

Lemma numeric_plain lo avoid s :
  (0 <= lo)%Z -> number_class avoid = false -> is_numeric_literal s = true -> held lo avoid s.
Proof.
  intros Hlo Hav (_ & H)%numeric_chars. apply held_plain; [done|]. revert H.
  apply forallb_weaken. intros c Hc. unfold plain_char.
  assert ((c =? avoid)%N = false) as -> by (apply N.eqb_neq; intros ->; congruence).
  revert Hc. unfold number_class, is_digit, in_range, is_quote, is_open, is_close.
  destruct (c =? 63)%N eqn:E; [apply N.eqb_eq in E as ->; done|].
  rewrite orb_true_r, andb_true_r, !orb_true_iff, andb_true_iff, !N.leb_le, !N.eqb_eq. intros H.
  rewrite !andb_true_iff, !negb_true_iff, !orb_false_iff, !N.eqb_neq. lia.
Qed.

(** A number followed by something that does not continue it. *)
Definition stops (r : str) : bool :=
  match r with [] => true | c :: _ => negb (number_class c) end.

Lemma number_text_app v r :
  is_numeric_literal v = true -> stops r = true -> number_text (v ++ r) = Some (v, r).
Proof.
  intros (Hn & Hc)%numeric_chars Hr. unfold number_text. rewrite span_prefix; [|done|].
  - by destruct v.
  - destruct r; [done|]. by apply negb_true_iff in Hr.
Qed.

Lemma in_range_numeric f v : isTimeValueInRange f v = true -> is_numeric_literal v = true.
Proof. unfold isTimeValueInRange. by destruct (is_numeric_literal v). Qed.

(** ** Time conditions *)

Section Time.
Variables (fn tz : str).
Hypothesis fn_ok : includes_str TIME_FUNCS fn = true.
Hypothesis tz_ok : plain_name tz = true.
Local Abbreviation call := (call_text fn tz).

Lemma time_range_app a b conn r :
  isTimeValueInRange fn a = true -> isTimeValueInRange fn b = true -> stops r = true ->
  conn = js " && " \/ conn = js " || " ->
  match_time_range (call ++ js " >= " ++ a ++ conn ++ call ++ js " < " ++ b ++ r)
  = Some (fn, tz, a, b, r).
Proof.
  intros Ha%in_range_numeric Hb%in_range_numeric Hr Hc. unfold match_time_range.
  rewrite time_probe_call by done. cbn [mbind option_bind]. rewrite strip_app.
  cbn [mbind option_bind]. rewrite number_text_app by (try done; by destruct Hc as [-> | ->]).
  cbn [mbind option_bind].
  assert (forall x, first_of (strip (js " && ") (conn ++ x)) (strip (js " || ") (conn ++ x))
                    = Some x) as ->.
  { intros x. destruct Hc as [-> | ->]; [by rewrite strip_app|].
    change (strip (js " && ") (js " || " ++ x)) with (@None str).
    cbn [first_of]. apply strip_app. }
  cbn [mbind option_bind]. rewrite (app_assoc call (js " < ")), strip_app.
  cbn [mbind option_bind]. by rewrite number_text_app.
Qed.

(** The wrapped pattern needs a parenthesis first. *)
Lemma call_not_wrapped r : strip (js "(") (call ++ r) = None.
Proof.
  rewrite call_text_app. clear tz_ok. revert fn_ok.
  by apply (time_funcs_cases (fun f => strip (js "(") (f ++ _) = None)).
Qed.

Lemma match_wrapped_call r : match_wrapped_range (call ++ r) = None.
Proof. unfold match_wrapped_range. by rewrite call_not_wrapped. Qed.

Definition op_text (mode : str) : str :=
  if str_eqb mode MATCH_GTE then js " >= "
  else if str_eqb mode MATCH_LT then js " < " else js " == ".

Definition scalar_mode (mode : str) : bool := includes_str [MATCH_EQ; MATCH_GTE; MATCH_LT] mode.

Lemma scalar_mode_inv mode :
  scalar_mode mode = true ->
  (mode = MATCH_EQ /\ op_text mode = js " == ") \/ (mode = MATCH_GTE /\ op_text mode = js " >= ") \/
  (mode = MATCH_LT /\ op_text mode = js " < ").
Proof.
  intros H. apply includes_str_elem in H. rewrite !elem_of_cons in H.
  destruct H as [->|[->|[->|H%elem_of_nil]]]; [by left|by right; left|by right; right|done].
Qed.

Definition scalar_text (mode v : str) : str := call ++ op_text mode ++ v.

(** What the two patterns make of a scalar bound and what follows it. *)
Lemma time_scalar_app mode v r :
  scalar_mode mode = true -> isTimeValueInRange fn v = true -> stops r = true ->
  match_time_scalar (scalar_text mode v ++ r)
  = match r with [] => Some (fn, tz, mode, v) | _ => None end.
Proof.
  intros Hm Hv%in_range_numeric Hr. unfold match_time_scalar, scalar_text.
  rewrite <- app_assoc, time_probe_call by done. cbn [mbind option_bind].
  rewrite <- app_assoc. pose proof (number_text_app v r Hv Hr) as N.
  apply scalar_mode_inv in Hm as [[-> ->]|[[-> ->]|[-> ->]]];
    repeat match goal with
    | |- context [strip (js ?a) (js ?b ++ ?t)] =>
        first [ constr_eq a b; rewrite strip_app
              | change (strip (js a) (js b ++ t)) with (@None str) ]
    end; cbn [mbind option_bind first_of]; by rewrite N.
Qed.

Lemma time_scalar_no_range mode v r :
  scalar_mode mode = true -> isTimeValueInRange fn v = true -> stops r = true ->
  (mode = MATCH_GTE -> strip (js " && ") r = None /\ strip (js " || ") r = None) ->
  match_time_range (scalar_text mode v ++ r) = None.
Proof.
  intros Hm Hv%in_range_numeric Hr. unfold match_time_range, scalar_text.
  rewrite <- app_assoc, time_probe_call by done. cbn [mbind option_bind].
  rewrite <- app_assoc. pose proof (number_text_app v r Hv Hr) as N.
  apply scalar_mode_inv in Hm as [[-> ->]|[[-> ->]|[-> ->]]];
    intros Hg; [done| |done]. rewrite strip_app. cbn [mbind option_bind]. rewrite N.
  cbn [mbind option_bind]. by destruct (Hg eq_refl) as [-> ->].
Qed.

Lemma parse_scalar mode v :
  scalar_mode mode = true -> isTimeValueInRange fn v = true ->
  tryParseTimeCondition (scalar_text mode v) = Some (MkTimeRule fn tz mode v [] []).
Proof.
  intros Hm Hv. unfold tryParseTimeCondition, match_whole_range.
  rewrite <- (app_nil_r (scalar_text mode v)).
  rewrite time_scalar_no_range by done. cbn [mbind option_bind first_of].
  rewrite time_scalar_app by done.
  unfold scalar_text. rewrite <- app_assoc, match_wrapped_call. cbn [mbind option_bind].
  by rewrite Hv.
Qed.

Definition time_range_text (conn a b : str) : str :=
  call ++ js " >= " ++ a ++ conn ++ call ++ js " < " ++ b.

Lemma parse_range conn a b :
  isTimeValueInRange fn a = true -> isTimeValueInRange fn b = true ->
  conn = js " && " \/ conn = js " || " ->
  tryParseTimeCondition (time_range_text conn a b) = Some (MkTimeRule fn tz MATCH_RANGE [] a b) /\
  tryParseTimeCondition (js "(" ++ time_range_text conn a b ++ js ")")
  = Some (MkTimeRule fn tz MATCH_RANGE [] a b).
Proof.
  intros Ha Hb Hc. unfold tryParseTimeCondition, match_whole_range, match_wrapped_range, time_range_text.
  split.
  - rewrite <- (app_nil_r b) at 1. rewrite time_range_app by done.
    cbn [mbind option_bind first_of]. by rewrite Ha, Hb.
  - change (match_time_range (js "(" ++ ?x)) with (@None (str * str * str * str * str)).
    rewrite strip_app. cbn [mbind option_bind].
  rewrite <- !app_assoc, time_range_app by done.
    cbn [mbind option_bind first_of]. str_compute. by rewrite Ha, Hb.
Qed.

(** A wrapped range that is not the whole text is no time condition. *)
Lemma parse_wrapped_more conn a b r :
  isTimeValueInRange fn a = true -> isTimeValueInRange fn b = true ->
  conn = js " && " \/ conn = js " || " -> r <> [] ->
  tryParseTimeCondition (js "(" ++ time_range_text conn a b ++ js ")" ++ r) = None.
Proof.
  intros Ha Hb Hc Hr. unfold tryParseTimeCondition, match_whole_range, match_wrapped_range, time_range_text.
  change (match_time_range (js "(" ++ ?x)) with (@None (str * str * str * str * str)).
  rewrite strip_app. cbn [mbind option_bind].
  rewrite <- !app_assoc, time_range_app by done.
  cbn [mbind option_bind first_of].
  assert (str_eqb (js ")" ++ r) (js ")") = false) as ->; [|done].
  apply str_eqb_neq. change (js ")") with [41%N]. by destruct r.
Qed.
End Time.

(** ** Conditions on parameters and headers *)

Lemma line_terminator_space c : is_line_terminator c = true -> is_space c = true.
Proof.
  unfold is_line_terminator. intros H. rewrite !orb_true_iff, !N.eqb_eq in H.
  by destruct H as [[[->| ->]| ->]| ->].
Qed.

Lemma string_body_plain c s :
  (c <> 34)%N -> (c <> 92)%N -> string_body (c :: s) = '(b, r) ← string_body s; Some (c :: b, r).
Proof.
  intros H1 H2. cbn [string_body]. destruct (N.eqb_spec c 34); [done|].
  by destruct (N.eqb_spec c 92).
Qed.

Lemma string_body_pair e s :
  is_line_terminator e = false ->
  string_body (92%N :: e :: s) = '(b, r) ← string_body s; Some (92%N :: e :: b, r).
Proof. intros H. cbn [string_body N.eqb Pos.eqb]. by rewrite H. Qed.

Lemma string_body_escape s r : string_body (json_escape s ++ 34%N :: r) = Some (json_escape s, r).
Proof.
  apply (json_escape_ind (fun _ t => string_body (t ++ 34%N :: r) = Some (t, r))); [done|..].
  - intros c _ t IH H1 H2 _. cbn [app]. by rewrite string_body_plain, IH.
  - intros c e _ t IH He. cbn [app]. rewrite string_body_pair, IH; [done|].
    by apply is_escape_elim.
  - intros c _ t IH. change (unicode_escape c) with (92%N :: 117%N :: hex_digits c).
    unfold hex_digits. cbn [app]. rewrite string_body_pair by done.
    rewrite !string_body_plain by (apply hex_digit_char, N.mod_lt; done). by rewrite IH.
Qed.

Lemma string_literal_stringify tail v :
  string_literal_then tail (json_stringify v ++ tail) = Some (json_stringify v).
Proof.
  unfold string_literal_then, json_stringify, quote_unit.
  change (strip [34%N] ((34%N :: json_escape v ++ [34%N]) ++ tail))
    with (Some (drop 0 ((json_escape v ++ [34%N]) ++ tail))).
  rewrite drop_0. cbn [mbind option_bind]. rewrite <- app_assoc. cbn [app].
  rewrite string_body_escape. cbn [mbind option_bind]. by rewrite str_eqb_refl.
Qed.

(** Texts that begin with another word than a time function. *)
Lemma not_time_header r : tryParseTimeCondition (js "header" ++ r) = None.
Proof. reflexivity. Qed.
Lemma not_time_param r : tryParseTimeCondition (js "param" ++ r) = None.
Proof. reflexivity. Qed.
Lemma not_time_has r : tryParseTimeCondition (js "has(" ++ r) = None.
Proof. reflexivity. Qed.

Lemma match_call_self f arg tail :
  plain_name arg = true -> match_call f tail (call_text f arg ++ tail) = Some arg.
Proof.
  intros H. unfold match_call. rewrite call_text_app, strip_app. cbn [mbind option_bind].
  rewrite quoted_arg_call by done. cbn [mbind option_bind]. by rewrite str_eqb_refl.
Qed.

Lemma match_call_other f arg tail r :
  plain_name arg = true -> r <> tail -> match_call f tail (call_text f arg ++ r) = None.
Proof.
  intros H Hr. unfold match_call. rewrite call_text_app, strip_app. cbn [mbind option_bind].
  rewrite quoted_arg_call by done. cbn [mbind option_bind].
  by apply str_eqb_neq in Hr as ->.
Qed.

Definition source_word (h : bool) : str := if h then js "header" else js "param".
Definition exists_tail (h : bool) : str := if h then js " != " ++ empty_literal else js " != nil".

Lemma parse_exists h path :
  plain_name path = true ->
  tryParseRequestCondition (call_text (source_word h) path ++ exists_tail h)
  = Ok (Some (OnRequest (MkParamHeader h path MATCH_EXISTS []))).
Proof.
  intros H. pose proof (match_call_self (source_word h) path (exists_tail h) H) as M.
  unfold tryParseRequestCondition. rewrite (call_text_app (source_word h)) in *.
  destruct h; cbn [source_word exists_tail] in *.
  - by rewrite not_time_header, M.
  - rewrite not_time_param, M. done.
Qed.

Lemma parse_header_contains path v :
  plain_name path = true -> forallb is_unit v = true ->
  tryParseRequestCondition
    (js "has(" ++ call_text (js "header") path ++ js ", " ++ json_stringify v ++ js ")")
  = Ok (Some (header_condition path MATCH_CONTAINS v)).
Proof.
  intros H U. unfold tryParseRequestCondition. rewrite not_time_has.
  rewrite call_text_app. set (t := open_call ++ _).
  change (match_call (js "header") ?tl (js "has(" ++ ?x)) with (@None str).
  change (match_call (js "param") ?tl (js "has(" ++ ?x)) with (@None str). cbv iota.
  unfold match_has_header. change (js "has(" ++ js "header" ++ t) with (js "has(header" ++ t).
  rewrite strip_app. unfold t. cbn [mbind option_bind]. rewrite quoted_arg_call by done.
  cbn [mbind option_bind]. rewrite strip_app. cbn [mbind option_bind].
  rewrite string_literal_stringify. cbn [mbind option_bind].
  unfold parse_string_literal. by rewrite json_parse_stringify.
Qed.

(** The second half of a compound parameter condition has no pattern. *)
Lemma parse_has_param r : tryParseRequestCondition (js "has(param" ++ r) = Ok None.
Proof. reflexivity. Qed.

Lemma parse_compare_half path op v :
  plain_name path = true -> op ∈ [js " > "; js " >= "; js " < "; js " <= "] ->
  tryParseRequestCondition (call_text (js "param") path ++ op ++ v) = Ok None.
Proof.
  intros H Hop. pose proof (quoted_arg_call path (op ++ v) H) as Q.
  unfold tryParseRequestCondition. rewrite call_text_app, not_time_param.
  change (match_call (js "header") ?tl (js "param" ++ ?x)) with (@None str).
  change (match_has_header (js "param" ++ ?x)) with (@None (str * str)). cbv iota.
  unfold match_call, match_has_param, match_compare_param, match_equals.
  rewrite !strip_app. cbn [mbind option_bind first_of]. rewrite Q. cbn [mbind option_bind].
  rewrite !elem_of_cons in Hop. destruct Hop as [->|[->|[->|[->|Hop%elem_of_nil]]]]; done.
Qed.

Lemma hex_digit_line n : (n < 16)%N -> is_line_terminator (hex_digit n) = false.
Proof.
  intros H. unfold hex_digit, is_line_terminator. rewrite !orb_false_iff, !N.eqb_neq.
  destruct (n <? 10)%N; lia.
Qed.

Lemma json_escape_one_line s :
  forallb value_unit s = true -> existsb is_line_terminator (json_escape s) = false.
Proof.
  apply (json_escape_ind (fun s t => forallb value_unit s = true ->
    existsb is_line_terminator t = false)); [done|..].
  - intros c s' t IH _ _ Hc H. cbn [forallb existsb] in *. split_andb. rewrite IH, orb_false_r by done.
    unfold value_unit in H. split_andb. unfold is_line_terminator.
    rewrite !orb_false_iff. repeat split; [apply N.eqb_neq; lia..|done|done].
  - intros c e s' t IH He H. cbn [forallb existsb] in *. split_andb. rewrite IH, orb_false_r by done.
    by apply is_escape_elim.
  - intros c s' t IH H. cbn [forallb] in H. split_andb. rewrite existsb_app, IH, orb_false_r by done.
    change (unicode_escape c) with (92%N :: 117%N :: hex_digits c). unfold hex_digits.
    cbn [existsb]. by rewrite !hex_digit_line by (apply N.mod_lt; done).
Qed.

Lemma parseExprLiteral_build v :
  plain_value v = true -> forall mode, mode <> MATCH_CONTAINS ->
  parseExprLiteral (buildExprLiteral mode v) = Some (JStr v) /\
  existsb is_line_terminator (buildExprLiteral mode v) = false /\
  buildExprLiteral mode v <> [].
Proof.
  intros H mode Hm. unfold plain_value in H. split_andb. apply str_eqb_eq in H.
  unfold buildExprLiteral. rewrite H. apply str_eqb_neq in Hm as ->.
  destruct (str_eqb v (js "true") || str_eqb v (js "false")) eqn:B.
  { apply orb_true_iff in B as [->%str_eqb_eq| ->%str_eqb_eq]; by vm_compute. }
  destruct (is_numeric_literal v) eqn:Nv.
  { unfold parseExprLiteral. rewrite numeric_trim, B, Nv by done. split_and!; [done| |].
    - apply numeric_chars in Nv as [_ Nv]. clear -Nv. induction v as [|c v IH]; [done|].
      cbn in *. split_andb. rewrite IH, orb_false_r by done.
      destruct (is_line_terminator c) eqn:L; [|done]. apply line_terminator_space in L.
      apply number_class_not_space in H. congruence.
    - by apply numeric_chars in Nv as [? _]. }
  split_and!; [| |done].
  - unfold parseExprLiteral. rewrite ends_clean_trim.
    2: { unfold ends_clean, json_stringify. rewrite reverse_cons, reverse_app. done. }
    change (str_eqb (json_stringify v) (js "true")) with false.
    change (str_eqb (json_stringify v) (js "false")) with false.
    change (is_numeric_literal (json_stringify v)) with false. cbn [orb].
    rewrite json_parse_stringify; [done|]. revert H0. apply forallb_weaken.
    intros c. unfold value_unit. by destruct (is_unit c).
  - unfold json_stringify. cbn [existsb]. rewrite existsb_app.
    by rewrite json_escape_one_line.
Qed.

Lemma parse_equals h path v :
  plain_name path = true -> plain_value v = true ->
  tryParseRequestCondition
    (call_text (source_word h) path ++ js " == " ++ buildExprLiteral MATCH_EQ v)
  = Ok (Some (OnRequest (MkParamHeader h path MATCH_EQ v))).
Proof.
  intros H Hv. destruct (parseExprLiteral_build v Hv MATCH_EQ) as (P & L & N); [done|].
  set (l := buildExprLiteral MATCH_EQ v) in *.
  pose proof (quoted_arg_call path (js " == " ++ l) H) as Q.
  assert (match_equals (call_text (source_word h) path ++ js " == " ++ l) = Some (h, path, l)) as M.
  { unfold match_equals. rewrite call_text_app.
    destruct h; cbn [source_word];
      [change (strip (js "param") (js "header" ++ ?x)) with (@None str)|];
      rewrite strip_app; cbn [mbind option_bind first_of]; rewrite Q; cbn [mbind option_bind];
      rewrite strip_app; cbn [mbind option_bind]; destruct l; try done; by rewrite L. }
  assert (forall tl, strip (js " != ") tl = Some (drop 4 tl) ->
    match_call (source_word h) tl (call_text (source_word h) path ++ js " == " ++ l) = None) as O.
  { intros tl Ht. apply match_call_other; [done|]. intros <-. done. }
  unfold tryParseRequestCondition. rewrite M, P.
  destruct h; cbn [source_word] in *; rewrite O by done; rewrite call_text_app.
  - rewrite not_time_header. done.
  - rewrite not_time_param. unfold match_has_param, match_compare_param.
    rewrite !strip_app. cbn [mbind option_bind]. rewrite Q. done.
Qed.

(** ** The parts of a condition *)

Definition overnight (c : RequestCondition) : bool :=
  match c with
  | OnTime t =>
      str_eqb (tr_mode t) MATCH_RANGE &&
      num_ltb (js_Number (tr_rangeEnd t)) (js_Number (tr_rangeStart t))
  | OnRequest _ => false
  end.

Definition request_parts (p : ParamHeaderCondition) : list str :=
  let src := call_text (source_word (ph_header p)) (ph_path p) in
  let has := js "has(" ++ src ++ js ", " ++ json_stringify (ph_value p) ++ js ")" in
  if str_eqb (ph_mode p) MATCH_EXISTS then [src ++ exists_tail (ph_header p)]
  else if str_eqb (ph_mode p) MATCH_CONTAINS then
    if ph_header p then [has] else [src ++ exists_tail false; has]
  else match assoc_str compare_operators (ph_mode p) with
       | Some op => [src ++ exists_tail false; src ++ (js " " ++ op ++ js " ") ++ ph_value p]
       | None => [src ++ js " == " ++ buildExprLiteral MATCH_EQ (ph_value p)]
       end.

Definition time_parts (t : TimeRule) : list str :=
  let '(MkTimeRule fn tz mode v a b) := t in
  if str_eqb mode MATCH_RANGE then
    if overnight (OnTime t) then [js "(" ++ time_range_text fn tz (js " || ") a b ++ js ")"]
    else [scalar_text fn tz MATCH_GTE a; scalar_text fn tz MATCH_LT b]
  else [scalar_text fn tz mode v].

Definition cond_parts (c : RequestCondition) : list str :=
  match c with OnTime t => time_parts t | OnRequest p => request_parts p end.

Definition spaced_and : str := js " && ".

(** Well-formed conditions are their own normal form. *)
Lemma normalize_wf c :
  wf_condition c = true -> normalizeCondition (Some (to_partial c)) = c.
Proof.
  destruct c as [[fn tz mode v a b]|[h path mode v]]; cbn [wf_condition]; intros H.
  - unfold wf_time in H. cbn in H. split_andb.
    unfold normalizeCondition, to_partial. cbn. rewrite H.
    apply plain_name_inv in H1 as (Hn & _). destruct tz as [|c tz]; [done|]. cbn [or_default].
    assert (mode = MATCH_RANGE \/ scalar_mode mode = true) as Hm.
    { destruct (str_eqb mode MATCH_RANGE) eqn:E; [left; by apply str_eqb_eq|].
      split_andb. by right. }
    destruct Hm as [->|Hm]; [done|].
    by apply scalar_mode_inv in Hm as [[-> _]|[[-> _]|[-> _]]].
  - unfold wf_request in H. cbn in H. split_andb.
    assert (mode ∈ (getRequestRuleMatchOptions (if h then SOURCE_HEADER else SOURCE_PARAM)).*1)
      as Hm.
    { destruct (str_eqb mode MATCH_EXISTS) eqn:E.
      { apply str_eqb_eq in E as ->. destruct h; vm_decide. }
      unfold is_compare in H0. destruct (includes_str _ mode) eqn:C; split_andb.
      - destruct h; [done|]. apply includes_str_elem in C. rewrite !elem_of_cons in C.
        destruct C as [->|[->|[->|[->|C%elem_of_nil]]]]; try done; vm_decide.
      - apply includes_str_elem in H0. rewrite !elem_of_cons in H0.
        destruct H0 as [->|[->|H0%elem_of_nil]]; try done; destruct h; vm_decide. }
    unfold normalizeCondition, to_partial. cbn.
    assert (bool_decide (Some (if h then SOURCE_HEADER else SOURCE_PARAM) = Some SOURCE_TIME)
            = false) as -> by (by destruct h).
    assert (bool_decide (Some (if h then SOURCE_HEADER else SOURCE_PARAM) = Some SOURCE_HEADER)
            = h) as -> by (by destruct h).
    apply plain_name_inv in H as (Hn & _). destruct path as [|c path]; [done|].
    cbn [or_default]. unfold offered_mode.
    assert (existsb (fun item : str * str => str_eqb item.1 mode)
      (getRequestRuleMatchOptions (if h then SOURCE_HEADER else SOURCE_PARAM)) = true) as ->; [|done].
    apply list_elem_of_fmap in Hm as (x & -> & Hx). apply existsb_exists. exists x.
    split; [by apply list_elem_of_In|by apply str_eqb_refl].
Qed.

Definition single_text (c : RequestCondition) : str :=
  match c with
  | OnTime t =>
      if overnight c
      then time_range_text (tr_timeFunc t) (tr_timezone t) (js " || ") (tr_rangeStart t) (tr_rangeEnd t)
      else join spaced_and (cond_parts c)
  | OnRequest _ => join spaced_and (cond_parts c)
  end.

Lemma time_expr_text t : wf_time t = true -> time_expr t = single_text (OnTime t).
Proof.
  destruct t as [fn tz mode v a b]. unfold wf_time. cbn. intros H. split_andb.
  unfold time_expr. cbn [tr_timeFunc tr_timezone tr_mode tr_value tr_rangeStart tr_rangeEnd].
  rewrite call_text_json by done.
  destruct (str_eqb mode MATCH_RANGE) eqn:E; split_andb; cbn [andb].
  - rewrite !numeric_trim by (by eapply in_range_numeric). rewrite H3, H2. cbn [negb orb].
    destruct (num_ltb _ _); [by unfold time_range_text|]. cbn [join].
    unfold scalar_text, spaced_and. by rewrite <- !app_assoc.
  - rewrite numeric_trim by (by eapply in_range_numeric). rewrite H2. cbn [negb].
    cbn [join]. unfold scalar_text. f_equal.
    apply scalar_mode_inv in H0 as [[-> ->]|[[-> ->]|[-> ->]]]; done.
Qed.

Lemma compare_assoc mode :
  match assoc_str compare_operators mode with
  | Some op => is_compare mode = true /\
      js " " ++ op ++ js " " ∈ [js " > "; js " >= "; js " < "; js " <= "]
  | None => is_compare mode = false
  end.
Proof.
  unfold is_compare, includes_str, compare_operators. cbn [assoc_str existsb].
  repeat match goal with
  | |- context [str_eqb ?a mode] =>
      destruct (str_eqb a mode) eqn:?; [rewrite (proj2 (str_eqb_eq mode a)) by
        (symmetry; by apply str_eqb_eq); rewrite ?orb_true_r; split; [done|vm_decide]|]
  end.
  repeat match goal with
  | H : str_eqb ?a mode = false |- _ =>
      rewrite (proj2 (str_eqb_neq mode a)) by (intros ->; by rewrite str_eqb_refl in H); clear H
  end. done.
Qed.

Lemma request_expr_text p :
  wf_request p = true -> request_expr p = join spaced_and (request_parts p).
Proof.
  destruct p as [h path mode v]. unfold wf_request, request_expr, request_parts.
  cbn [ph_header ph_path ph_mode ph_value]. intros H. split_andb.
  apply str_eqb_eq in H1. rewrite H1.
  pose proof (plain_name_inv path H) as (Hn & _ & _). destruct path as [|c path']; [done|].
  cbv iota zeta. remember (c :: path') as path eqn:Hp. clear Hp.
  assert ((if h then js "header(" else js "param(") ++ json_stringify path ++ js ")"
          = call_text (source_word h) path) as ->.
  { rewrite <- (call_text_json (source_word h) path H). by destruct h. }
  set (src := call_text _ _).
  destruct (str_eqb mode MATCH_EXISTS) eqn:E; [by destruct h|].
  destruct (str_eqb mode MATCH_CONTAINS) eqn:C.
  { apply str_eqb_eq in C as ->. change (is_compare MATCH_CONTAINS) with false in H0.
    apply andb_true_iff in H0 as [_ Hv]. apply andb_true_iff in Hv as [Hv%str_eqb_eq _].
    unfold buildExprLiteral. rewrite Hv.
    change (str_eqb MATCH_CONTAINS MATCH_CONTAINS) with true. cbv iota.
    destruct h; [done|]. cbn [join]. unfold spaced_and, exists_tail. by rewrite <- !app_assoc. }
  pose proof (compare_assoc mode) as A. destruct (assoc_str compare_operators mode) as [op|].
  - destruct A as [A _]. rewrite A in H0. apply andb_true_iff in H0 as [Hh Hv].
    destruct h; [done|]. rewrite numeric_trim, Hv by done. cbn [negb join].
    unfold spaced_and, exists_tail. by rewrite <- !app_assoc.
  - rewrite A in H0. cbn [join]. do 2 f_equal. unfold buildExprLiteral.
    by rewrite C.
Qed.

Lemma build_text c : wf_condition c = true -> buildRequestConditionExpr c = single_text c.
Proof.
  intros H. pose proof (normalize_wf c H) as N. destruct c as [t|p]; cbn [wf_condition] in H.
  - unfold buildRequestConditionExpr, buildTimeConditionExpr. rewrite N. by apply time_expr_text.
  - unfold buildRequestConditionExpr. rewrite N. by apply request_expr_text.
Qed.

(** *** Bars *)

Definition barless (s : str) : bool := forallb (fun c => negb (is_bar c)) s.

Lemma barless_app s t : barless (s ++ t) = barless s && barless t.
Proof. apply forallb_app. Qed.

Lemma barless_contains s : barless s = true -> contains s (js " || ") = false.
Proof.
  induction s as [|c s IH]; [done|]. cbn [barless forallb contains]. intros H. split_andb.
  rewrite IH by done. rewrite orb_false_r. change (js " || ") with [32; 124; 124; 32]%N.
  cbn [starts_with]. destruct s as [|d s]; [by rewrite andb_false_r|].
  cbn [forallb] in H0. split_andb. unfold is_bar in H0. rewrite (N.eqb_sym 124 d), H0.
  by rewrite andb_false_r.
Qed.

Lemma contains_app s sub r : contains (s ++ sub ++ r) sub = true.
Proof.
  induction s as [|c s IH]; cbn [app contains].
  - destruct (sub ++ r) eqn:E; cbn [contains]; rewrite <- E, starts_with_self; done.
  - by rewrite IH, orb_true_r.
Qed.

Lemma barless_stringify v : forallb value_unit v = true -> barless (json_stringify v) = true.
Proof.
  intros H. unfold json_stringify. cbn [barless forallb].
  change (negb (is_bar quote_unit)) with true. cbn [andb]. fold (barless (json_escape v ++ [quote_unit])).
  rewrite barless_app, andb_true_r. revert H.
  apply (json_escape_ind (fun s t => forallb value_unit s = true -> barless t = true)); [done|..].
  - intros c s t IH _ _ _ H. cbn [forallb barless] in *. split_andb.
    fold (barless t). rewrite IH by done. unfold value_unit in H. split_andb. by rewrite H1.
  - intros c e s t IH He H. cbn [forallb barless] in *. split_andb.
    fold (barless t). rewrite IH by done. change (negb (is_bar 92)) with true.
    by rewrite (is_escape_elim is_bar e).
  - intros c s t IH H. cbn [forallb] in H. split_andb. rewrite barless_app, IH, andb_true_r by done.
    change (unicode_escape c) with (92%N :: 117%N :: hex_digits c). unfold hex_digits.
    assert (forall n, (n < 16)%N -> is_bar (hex_digit n) = false) as B.
    { intros n Hn. unfold is_bar, hex_digit. apply N.eqb_neq. destruct (n <? 10)%N; lia. }
    cbn [barless forallb]. by rewrite !B by (apply N.mod_lt; done).
Qed.

Lemma barless_numeric v : is_numeric_literal v = true -> barless v = true.
Proof.
  intros (_ & H)%numeric_chars. revert H. apply forallb_weaken. intros c Hc. unfold is_bar.
  destruct (N.eqb_spec c 124) as [->|]; done.
Qed.

Lemma barless_call f arg :
  barless f = true -> plain_name arg = true -> barless (call_text f arg) = true.
Proof.
  intros Hf (_ & H & _)%plain_name_inv. unfold call_text. rewrite !barless_app, Hf.
  assert (barless arg = true) as ->; [|done]. revert H. apply forallb_weaken. intros c.
  unfold plain_unit. by destruct (is_bar c); rewrite ?andb_false_r.
Qed.

Lemma barless_time_func f : includes_str TIME_FUNCS f = true -> barless f = true.
Proof. by apply (time_funcs_cases (fun f => barless f = true)). Qed.

Lemma barless_scalar fn tz mode v :
  includes_str TIME_FUNCS fn = true -> plain_name tz = true -> isTimeValueInRange fn v = true ->
  barless (scalar_text fn tz mode v) = true.
Proof.
  intros Hf Ht Hv. unfold scalar_text.
  rewrite !barless_app, barless_call by (by auto using barless_time_func).
  rewrite (barless_numeric v) by (by eapply in_range_numeric).
  unfold op_text. by destruct (str_eqb mode MATCH_GTE), (str_eqb mode MATCH_LT).
Qed.

Lemma barless_literal v : plain_value v = true -> barless (buildExprLiteral MATCH_EQ v) = true.
Proof.
  intros H. apply andb_true_iff in H as [Ht%str_eqb_eq Hv]. unfold buildExprLiteral. rewrite Ht.
  change (str_eqb MATCH_EQ MATCH_CONTAINS) with false. cbv iota.
  destruct (str_eqb v (js "true") || str_eqb v (js "false")) eqn:B.
  { by apply orb_true_iff in B as [->%str_eqb_eq| ->%str_eqb_eq]. }
  destruct (is_numeric_literal v) eqn:Nv; [by apply barless_numeric|by apply barless_stringify].
Qed.

(** The conditions on a request, by their parts. *)
Inductive request_shape : ParamHeaderCondition -> list str -> Prop :=
| ShapeExists h path :
    request_shape (MkParamHeader h path MATCH_EXISTS [])
      [call_text (source_word h) path ++ exists_tail h]
| ShapeHeaderContains path v :
    plain_value v = true ->
    request_shape (MkParamHeader true path MATCH_CONTAINS v)
      [js "has(" ++ call_text (js "header") path ++ js ", " ++ json_stringify v ++ js ")"]
| ShapeParamContains path v :
    plain_value v = true ->
    request_shape (MkParamHeader false path MATCH_CONTAINS v)
      [call_text (js "param") path ++ exists_tail false;
       js "has(" ++ call_text (js "param") path ++ js ", " ++ json_stringify v ++ js ")"]
| ShapeCompare path mode op v :
    is_compare mode = true -> op ∈ [js " > "; js " >= "; js " < "; js " <= "] ->
    is_numeric_literal v = true ->
    request_shape (MkParamHeader false path mode v)
      [call_text (js "param") path ++ exists_tail false; call_text (js "param") path ++ op ++ v]
| ShapeEquals h path v :
    plain_value v = true ->
    request_shape (MkParamHeader h path MATCH_EQ v)
      [call_text (source_word h) path ++ js " == " ++ buildExprLiteral MATCH_EQ v].

Lemma request_shape_wf p :
  wf_request p = true -> request_shape p (request_parts p) /\ plain_name (ph_path p) = true.
Proof.
  destruct p as [h path mode v]. unfold wf_request, request_parts.
  cbn [ph_header ph_path ph_mode ph_value]. intros H. split_andb. split; [|done].
  destruct (str_eqb mode MATCH_EXISTS) eqn:E.
  { apply str_eqb_eq in E as ->. apply str_eqb_eq in H0 as ->. constructor. }
  pose proof (compare_assoc mode) as A. destruct (assoc_str compare_operators mode) as [op|].
  - destruct A as [A Hop]. rewrite A in H0. apply andb_true_iff in H0 as [Hh Hv].
    destruct h; [done|]. destruct (str_eqb mode MATCH_CONTAINS) eqn:C.
    { by apply str_eqb_eq in C as ->. }
    by constructor.
  - rewrite A in H0. apply andb_true_iff in H0 as [Hm Hv].
    apply includes_str_elem in Hm. rewrite !elem_of_cons in Hm.
    destruct Hm as [->|[->|Hm%elem_of_nil]]; [by constructor| |done].
    change (str_eqb MATCH_CONTAINS MATCH_CONTAINS) with true. cbv iota.
    destruct h; by constructor.
Qed.

(** The conditions on the time, by their parts. *)
Inductive time_shape (fn tz : str) : TimeRule -> list str -> Prop :=
| ShapeScalar mode v :
    scalar_mode mode = true -> isTimeValueInRange fn v = true ->
    time_shape fn tz (MkTimeRule fn tz mode v [] []) [scalar_text fn tz mode v]
| ShapeDay a b :
    isTimeValueInRange fn a = true -> isTimeValueInRange fn b = true ->
    overnight (OnTime (MkTimeRule fn tz MATCH_RANGE [] a b)) = false ->
    time_shape fn tz (MkTimeRule fn tz MATCH_RANGE [] a b)
      [scalar_text fn tz MATCH_GTE a; scalar_text fn tz MATCH_LT b]
| ShapeNight a b :
    isTimeValueInRange fn a = true -> isTimeValueInRange fn b = true ->
    overnight (OnTime (MkTimeRule fn tz MATCH_RANGE [] a b)) = true ->
    time_shape fn tz (MkTimeRule fn tz MATCH_RANGE [] a b)
      [js "(" ++ time_range_text fn tz (js " || ") a b ++ js ")"].

Lemma time_shape_wf t :
  wf_time t = true ->
  time_shape (tr_timeFunc t) (tr_timezone t) t (time_parts t) /\
  includes_str TIME_FUNCS (tr_timeFunc t) = true /\ plain_name (tr_timezone t) = true.
Proof.
  destruct t as [fn tz mode v a b]. unfold wf_time, time_parts.
  cbn [tr_timeFunc tr_timezone tr_mode tr_value tr_rangeStart tr_rangeEnd].
  intros H. split_andb. split; [|done].
  destruct (str_eqb mode MATCH_RANGE) eqn:E; split_andb.
  - apply str_eqb_eq in E as ->. apply str_eqb_eq in H0 as ->.
    destruct (overnight _) eqn:O; by constructor.
  - repeat match goal with
    | H : str_eqb _ [] = true |- _ => apply str_eqb_eq in H as ->
    end. by constructor.
Qed.

(** *** No part can be cut *)

Definition operators : list N := [38; 42]%N.

Lemma operators_inv avoid : avoid ∈ operators -> avoid = 38%N \/ avoid = 42%N.
Proof. unfold operators. rewrite !elem_of_cons, elem_of_nil. tauto. Qed.

Lemma held_call lo avoid f arg :
  (0 <= lo)%Z -> avoid ∈ operators -> forallb (plain_char 0 avoid) f = true ->
  plain_name arg = true -> held lo avoid (call_text f arg).
Proof.
  intros Hlo Hav Hf Ha. rewrite <- call_text_json by done.
  apply held_app; [by apply held_const|]. apply held_parens; [done| |apply held_stringify].
  by apply operators_inv in Hav as [->| ->].
Qed.

Lemma held_numeric lo avoid v :
  (0 <= lo)%Z -> avoid ∈ operators -> is_numeric_literal v = true -> held lo avoid v.
Proof.
  intros Hlo Hav Hv. apply numeric_plain; try done.
  by apply operators_inv in Hav as [->| ->].
Qed.

Lemma held_text lo avoid t :
  (0 <= lo)%Z -> avoid ∈ operators ->
  forallb (fun avoid => forallb (plain_char 0 avoid) t) operators = true -> held lo avoid t.
Proof.
  intros Hlo Hav H. apply held_const; [done|]. rewrite forallb_forall in H.
  apply H. by apply list_elem_of_In.
Qed.

Lemma time_func_text avoid f :
  avoid ∈ operators -> includes_str TIME_FUNCS f = true ->
  forallb (plain_char 0 avoid) f = true.
Proof.
  intros Hav. apply operators_inv in Hav as [->| ->];
    by apply (time_funcs_cases (fun f => forallb (plain_char 0 _) f = true)).
Qed.

Lemma held_scalar lo avoid fn tz mode v :
  (0 <= lo)%Z -> avoid ∈ operators -> includes_str TIME_FUNCS fn = true ->
  plain_name tz = true -> isTimeValueInRange fn v = true ->
  held lo avoid (scalar_text fn tz mode v).
Proof.
  intros. unfold scalar_text. apply held_app; [by apply held_call; auto using time_func_text|].
  apply held_app; [|by eapply held_numeric, in_range_numeric].
  apply held_text; [done..|].
  unfold op_text. by destruct (str_eqb mode MATCH_GTE), (str_eqb mode MATCH_LT).
Qed.

Lemma held_range lo avoid fn tz a b :
  (0 <= lo)%Z -> avoid ∈ operators -> includes_str TIME_FUNCS fn = true ->
  plain_name tz = true -> isTimeValueInRange fn a = true -> isTimeValueInRange fn b = true ->
  held lo avoid (time_range_text fn tz (js " || ") a b).
Proof.
  intros. unfold time_range_text.
  pose proof (held_scalar lo avoid fn tz MATCH_GTE a) as Ha.
  pose proof (held_scalar lo avoid fn tz MATCH_LT b) as Hb.
  change (scalar_text fn tz MATCH_GTE a) with (call_text fn tz ++ js " >= " ++ a) in Ha.
  change (scalar_text fn tz MATCH_LT b) with (call_text fn tz ++ js " < " ++ b) in Hb.
  rewrite (app_assoc (js " >= ") a), (app_assoc (call_text fn tz) (js " >= " ++ a)).
  apply held_app; [by apply Ha|]. apply held_app; [|by apply Hb]. by apply held_text.
Qed.

Lemma source_word_text avoid h :
  avoid ∈ operators -> forallb (plain_char 0 avoid) (source_word h) = true.
Proof.
  intros Hav. apply operators_inv in Hav as [->| ->]; by destruct h.
Qed.

Lemma held_source lo avoid h path :
  (0 <= lo)%Z -> avoid ∈ operators -> plain_name path = true ->
  held lo avoid (call_text (source_word h) path).
Proof. intros. apply held_call; auto using source_word_text. Qed.

Lemma held_has lo avoid h path v :
  (0 <= lo)%Z -> avoid ∈ operators -> plain_name path = true ->
  held lo avoid (js "has(" ++ call_text (source_word h) path ++ js ", " ++ json_stringify v ++ js ")").
Proof.
  intros Hlo Hav Hp.
  replace (js "has(" ++ call_text (source_word h) path ++ js ", " ++ json_stringify v ++ js ")")
    with (js "has" ++ js "(" ++ (call_text (source_word h) path ++ js ", " ++ json_stringify v) ++ js ")")
    by (by rewrite <- !app_assoc).
  apply held_app; [by apply held_text|]. apply held_parens; [done| |].
  { by apply operators_inv in Hav as [->| ->]. }
  apply held_app; [apply held_source; [lia|done..]|].
  apply held_app; [apply held_text; [lia|done..]|apply held_stringify].
Qed.

Lemma held_exists_tail lo avoid h :
  (0 <= lo)%Z -> avoid ∈ operators -> held lo avoid (exists_tail h).
Proof.
  intros. destruct h; cbn [exists_tail].
  - apply held_app; [by apply held_text|].
    change empty_literal with (json_stringify []). apply held_stringify.
  - by apply held_text.
Qed.

Lemma held_literal lo avoid v :
  (0 <= lo)%Z -> avoid ∈ operators -> held lo avoid (buildExprLiteral MATCH_EQ v).
Proof.
  intros. unfold buildExprLiteral. change (str_eqb MATCH_EQ MATCH_CONTAINS) with false. cbv iota.
  destruct (str_eqb (trim v) (js "true")) eqn:B1.
  { apply str_eqb_eq in B1 as ->. by apply held_text. }
  destruct (str_eqb (trim v) (js "false")) eqn:B2.
  { apply str_eqb_eq in B2 as ->. by apply held_text. }
  destruct (is_numeric_literal (trim v)) eqn:N; [by apply held_numeric|apply held_stringify].
Qed.

Lemma parts_held lo avoid c :
  (0 <= lo)%Z -> avoid ∈ operators -> wf_condition c = true -> Forall (held lo avoid) (cond_parts c).
Proof.
  intros Hlo Hav H. destruct c as [t|p]; cbn [wf_condition cond_parts] in *.
  - apply time_shape_wf in H as (S & Hf & Ht). destruct S.
    + constructor; [by apply held_scalar|done].
    + do 2 (constructor; [by apply held_scalar|]). done.
    + constructor; [|done]. apply held_parens; [done| |apply held_range; try done; lia].
      by apply operators_inv in Hav as [->| ->].
  - apply request_shape_wf in H as [S Hp]. destruct S; cbn [ph_path] in Hp.
    + constructor; [|done]. apply held_app; [by apply held_source|by apply held_exists_tail].
    + constructor; [|done]. by apply (held_has lo avoid true).
    + constructor; [|constructor; [by apply (held_has lo avoid false)|done]].
      apply held_app; [by apply (held_source lo avoid false)|by apply held_exists_tail].
    + constructor; [|constructor; [|done]]; (apply held_app; [by apply (held_source lo avoid false)|]).
      { by apply held_exists_tail. }
      apply held_app; [|by apply held_numeric]. apply held_text; [done..|].
      rewrite !elem_of_cons in H0. by destruct H0 as [->|[->|[->|[->|H0%elem_of_nil]]]].
    + constructor; [|done]. apply held_app; [by apply held_source|].
      apply held_app; [by apply held_text|by apply held_literal].
Qed.

Lemma clean_between s m t : s <> [] -> t <> [] -> ends_clean s = true -> ends_clean t = true ->
  trim (s ++ m ++ t) = s ++ m ++ t /\ s ++ m ++ t <> [].
Proof.
  intros Hs Ht Cs Ct. split; [by apply ends_clean_trim, ends_clean_app|by destruct s].
Qed.

Lemma time_func_clean f : includes_str TIME_FUNCS f = true -> f <> [] /\ ends_clean f = true.
Proof. by apply (time_funcs_cases (fun f => f <> [] /\ ends_clean f = true)). Qed.

Lemma scalar_clean fn tz mode v :
  includes_str TIME_FUNCS fn = true -> isTimeValueInRange fn v = true ->
  trim (scalar_text fn tz mode v) = scalar_text fn tz mode v /\ scalar_text fn tz mode v <> [].
Proof.
  intros [Hf Cf]%time_func_clean Hv%in_range_numeric. unfold scalar_text.
  rewrite call_text_app. rewrite !app_assoc. rewrite <- (app_assoc fn), <- !(app_assoc fn).
  apply clean_between; [done| |done|by apply numeric_clean].
  by apply numeric_chars in Hv as [? _].
Qed.

Lemma literal_clean v :
  plain_value v = true ->
  buildExprLiteral MATCH_EQ v <> [] /\ ends_clean (buildExprLiteral MATCH_EQ v) = true.
Proof.
  intros H. destruct (parseExprLiteral_build v H MATCH_EQ) as (_ & _ & N); [done|]. split; [done|].
  apply andb_true_iff in H as [Ht%str_eqb_eq _]. unfold buildExprLiteral. rewrite Ht.
  apply trim_ends_clean in Ht. change (str_eqb MATCH_EQ MATCH_CONTAINS) with false. cbv iota.
  destruct (_ || _); [done|]. destruct (is_numeric_literal v); [done|].
  unfold ends_clean, json_stringify. by rewrite reverse_cons, reverse_app.
Qed.

Lemma has_clean x y :
  let s := js "has(" ++ x ++ js ", " ++ y ++ js ")" in trim s = s /\ s <> [].
Proof.
  cbn zeta. replace (x ++ js ", " ++ y ++ js ")") with ((x ++ js ", " ++ y) ++ js ")")
    by (by rewrite <- !app_assoc). by apply clean_between.
Qed.

Lemma parts_clean c :
  wf_condition c = true -> Forall (fun s => trim s = s /\ s <> []) (cond_parts c).
Proof.
  intros H. destruct c as [t|p]; cbn [wf_condition cond_parts] in *.
  - apply time_shape_wf in H as (S & Hf & Ht). destruct S.
    + constructor; [by apply scalar_clean|done].
    + do 2 (constructor; [by apply scalar_clean|]). done.
    + constructor; [|done]. by apply clean_between.
  - apply request_shape_wf in H as [S Hp].
    assert (forall h r, r <> [] -> ends_clean r = true -> forall path m,
      let s := call_text (source_word h) path ++ m ++ r in trim s = s /\ s <> []) as C.
    { intros h r Hr Cr path m. cbn zeta. rewrite call_text_app, !app_assoc.
      rewrite <- (app_assoc (source_word h)), <- !(app_assoc (source_word h)).
      apply clean_between; [by destruct h|done|by destruct h|done]. }
    destruct S; cbn [ph_path] in Hp.
    + constructor; [|done]. destruct h; [by apply (C true empty_literal)|].
      by apply (C false (js "!= nil") ltac:(done) eq_refl _ (js " ")).
    + constructor; [|done]. apply has_clean.
    + constructor; [by apply (C false (js "!= nil") ltac:(done) eq_refl _ (js " "))|].
      constructor; [|done]. apply has_clean.
    + constructor; [by apply (C false (js "!= nil") ltac:(done) eq_refl _ (js " "))|].
      constructor; [|done]. apply (C false); [by apply numeric_chars in H1 as [? _]|].
      by apply numeric_clean.
    + constructor; [|done]. apply literal_clean in H as [? ?]. by apply C.
Qed.

(** ** Reading the parts *)

(** The time rule that the first part of a condition reads as. *)
Definition first_rule (c : RequestCondition) : option TimeRule :=
  match c with
  | OnTime t =>
      Some (if str_eqb (tr_mode t) MATCH_RANGE && negb (overnight c)
            then MkTimeRule (tr_timeFunc t) (tr_timezone t) MATCH_GTE (tr_rangeStart t) [] []
            else t)
  | OnRequest _ => None
  end.

Lemma first_part c :
  wf_condition c = true ->
  exists p ps, cond_parts c = p :: ps /\ tryParseTimeCondition p = first_rule c.
Proof.
  intros H. destruct c as [t|p]; cbn [wf_condition cond_parts first_rule] in *.
  - apply time_shape_wf in H as (S & Hf & Ht). destruct S.
    + eexists _, []. split; [done|]. rewrite parse_scalar by done. cbn.
      by apply scalar_mode_inv in H as [[-> _]|[[-> _]|[-> _]]].
    + eexists _, _. split; [done|]. rewrite parse_scalar by done. rewrite H1. done.
    + eexists _, []. split; [done|]. rewrite (proj2 (parse_range _ _ Hf Ht _ _ _ H H0 ltac:(by right))).
      by rewrite H1.
  - apply request_shape_wf in H as [S Hp]. destruct S; cbn [ph_path] in Hp;
      eexists _, _; (split; [done|]); rewrite ?call_text_app;
      try destruct h; first [apply not_time_header|apply not_time_param|apply not_time_has].
Qed.

(** A pair of parts is read as a range exactly when it is one. *)
Lemma pair_none p q a b :
  tryParseTimeCondition p = a -> tryParseTimeCondition q = b ->
  match a, b with
  | Some x, Some y => merges (OnTime x) (OnTime y) = false
  | _, _ => True
  end -> tryParseTimeRangePair p q = None.
Proof.
  intros Ha Hb H. unfold tryParseTimeRangePair. rewrite Ha, Hb.
  destruct a as [x|]; [|done]. destruct b as [y|]; [|done]. unfold merges in H.
  destruct (str_eqb (tr_timeFunc x) _), (str_eqb (tr_timezone x) _), (str_eqb (tr_mode x) _),
    (str_eqb (tr_mode y) _); done.
Qed.

Lemma unmerged_first a c :
  wf_condition a = true -> merges a c = false ->
  match first_rule a, first_rule c with
  | Some x, Some y => str_eqb (tr_mode x) MATCH_GTE = true -> merges (OnTime x) (OnTime y) = true ->
      str_eqb (match a with OnTime t => tr_mode t | _ => [] end) MATCH_RANGE = true
  | _, _ => True
  end.
Proof.
  destruct a as [x|], c as [y|]; cbn [first_rule]; try done. intros _ Hm.
  destruct (str_eqb (tr_mode x) MATCH_RANGE) eqn:E; [done|]. cbn [andb].
  intros _. destruct (str_eqb (tr_mode y) MATCH_RANGE && _) eqn:R; [|by rewrite Hm].
  unfold merges. cbn [tr_mode]. by rewrite andb_false_r.
Qed.

Definition all_parts (cs : list RequestCondition) : list str := concat (map cond_parts cs).

(** One part that does not start a range with the next. *)
Lemma parse_one_part p rest acc :
  trim p = p ->
  match rest with [] => True | q :: _ => tryParseTimeRangePair p (trim q) = None end ->
  parse_and_parts (p :: rest) acc
  = let* c := tryParseRequestCondition p in
    match c with None => Ok None | Some c => parse_and_parts rest (acc ++ [c]) end.
Proof.
  intros Hp Hr. cbn [parse_and_parts]. rewrite Hp. destruct rest as [|q rest]; [done|].
  rewrite Hr. by destruct (str_eqb (trim q) []).
Qed.

(** The part after a condition is the first part of the next condition. *)
Lemma next_part p a cs :
  tryParseTimeCondition p = a -> forallb wf_condition cs = true ->
  match cs with
  | c :: _ => match a, first_rule c with
              | Some x, Some y => merges (OnTime x) (OnTime y) = false
              | _, _ => True
              end
  | [] => True
  end ->
  match all_parts cs with [] => True | q :: _ => tryParseTimeRangePair p (trim q) = None end.
Proof.
  intros Ha Hw Hm. destruct cs as [|c cs]; [done|]. cbn [forallb] in Hw. split_andb.
  destruct (first_part c H) as (q & qs & Hq & Hf). pose proof (parts_clean c H) as Hc.
  unfold all_parts. cbn [map concat]. rewrite Hq in *. cbn [app].
  apply Forall_inv in Hc as [Hc _]. rewrite Hc. by eapply pair_none.
Qed.

Lemma read_part p c rest acc :
  tryParseTimeCondition p = None -> trim p = p -> tryParseRequestCondition p = Ok c ->
  parse_and_parts (p :: rest) acc
  = match c with None => Ok None | Some c => parse_and_parts rest (acc ++ [c]) end.
Proof.
  intros Ht Hp Hc. rewrite parse_one_part, Hc; [done|done|].
  destruct rest as [|q rest]; [done|]. by eapply pair_none; [done|done|].
Qed.

Lemma read_request p rest acc :
  wf_request p = true ->
  parse_and_parts (request_parts p ++ rest) acc
  = if readable (OnRequest p) then parse_and_parts rest (acc ++ [OnRequest p]) else Ok None.
Proof.
  intros H. pose proof (parts_clean (OnRequest p) H) as C.
  pose proof (request_shape_wf p H) as [S Hp]. cbn [cond_parts] in C.
  assert (forall r path h, tryParseTimeCondition (call_text (source_word h) path ++ r) = None) as NT.
  { intros r path h. rewrite call_text_app. by destruct h. }
  destruct S; cbn [ph_path] in Hp; cbn [app]; apply Forall_cons_1 in C as [[C1 _] C2].
  - rewrite (read_part _ _ _ _ (NT _ _ _) C1 (parse_exists h path Hp)). by destruct h.
  - apply andb_true_iff in H0 as [_ Hv].
    assert (forallb is_unit v = true) as U.
    { revert Hv. apply forallb_weaken. intros c. unfold value_unit. by destruct (is_unit c). }
    by rewrite (read_part _ _ _ _ (not_time_has _) C1 (parse_header_contains path v Hp U)).
  - rewrite (read_part _ _ _ _ (NT _ _ false) C1 (parse_exists false path Hp)).
    apply Forall_cons_1 in C2 as [[C3 _] _].
    rewrite (read_part _ None _ _ (not_time_has _) C3); [done|].
    rewrite call_text_app. apply parse_has_param.
  - rewrite (read_part _ _ _ _ (NT _ _ false) C1 (parse_exists false path Hp)).
    apply Forall_cons_1 in C2 as [[C3 _] _].
    rewrite (read_part _ None _ _ (NT _ _ false) C3); [|by apply parse_compare_half].
    cbn [readable ph_header ph_mode]. rewrite H0. by rewrite orb_true_r.
  - rewrite (read_part _ _ _ _ (NT _ _ _) C1 (parse_equals h path v Hp H0)). by destruct h.
Qed.

Lemma read_conditions cs : forall acc,
  forallb wf_condition cs = true -> unmerged cs = true ->
  parse_and_parts (all_parts cs) acc
  = Ok (if forallb readable cs then Some (acc ++ cs) else None).
Proof.
  induction cs as [|c cs IH]; intros acc Hw Hu.
  { cbn. by rewrite app_nil_r. }
  cbn [forallb] in Hw. split_andb.
  assert (unmerged cs = true /\
          match cs with [] => True | d :: _ => merges c d = false end) as [Hu' Hm].
  { destruct cs as [|d cs']; [done|]. cbn [unmerged] in Hu. split_andb. done. }
  assert (forall c', match Ok (if forallb readable cs then Some ((acc ++ [c']) ++ cs) else None)
     with r => parse_and_parts (all_parts cs) (acc ++ [c']) = r end) as IH'
    by (intros; by apply IH).
  change (all_parts (c :: cs)) with (cond_parts c ++ all_parts cs). cbn [forallb].
  destruct c as [t|p]; cbn [cond_parts wf_condition] in *.
  2: { rewrite read_request by done. destruct (readable (OnRequest p)); [|done].
       rewrite IH'. by rewrite <- app_assoc. }
  cbn [readable andb]. pose proof (parts_clean (OnTime t) H) as C. cbn [cond_parts] in C.
  apply time_shape_wf in H as (S & Hf & Ht).
  remember (tr_timeFunc t) as fn eqn:E1. remember (tr_timezone t) as tz eqn:E2. clear E1 E2.
  destruct S; cbn [app].
  - apply Forall_inv in C as [C _]. pose proof (parse_scalar _ _ Hf Ht mode v H H1) as P.
    rewrite parse_one_part; [|done|].
    + unfold tryParseRequestCondition. rewrite P. cbn [obind]. rewrite IH'. by rewrite <- app_assoc.
    + eapply next_part; [done|done|]. destruct cs as [|[y|] cs']; [done| |done].
      cbn [first_rule]. destruct (str_eqb (tr_mode y) MATCH_RANGE && _) eqn:R; [|exact Hm].
      unfold merges. cbn [tr_mode]. by rewrite andb_false_r.
  - apply Forall_cons_1 in C as [[C1 _] C2]. apply Forall_inv in C2 as [C2 N2].
    cbn [parse_and_parts]. rewrite C1, C2.
    apply str_eqb_neq in N2. rewrite N2.
    assert (tryParseTimeRangePair (scalar_text fn tz MATCH_GTE a) (scalar_text fn tz MATCH_LT b)
      = Some (MkTimeRule fn tz MATCH_RANGE [] a b)) as ->.
    { unfold tryParseTimeRangePair. rewrite !parse_scalar by done.
      cbn [tr_timeFunc tr_timezone tr_mode tr_value]. by rewrite !str_eqb_refl. }
    rewrite IH'. by rewrite <- app_assoc.
  - apply Forall_inv in C as [C _].
    pose proof (proj2 (parse_range _ _ Hf Ht (js " || ") a b H H1 ltac:(by right))) as P.
    rewrite parse_one_part; [|done|].
    + unfold tryParseRequestCondition. rewrite P. cbn [obind]. rewrite IH'. by rewrite <- app_assoc.
    + eapply next_part; [done|done|]. destruct cs as [|[y|] cs']; try done.
Qed.

(** ** A list of conditions is not taken for a single one *)

Lemma join_head sep p ps :
  join sep (p :: ps) = p ++ match ps with [] => [] | _ => sep ++ join sep ps end.
Proof. destruct ps; [by rewrite app_nil_r|done]. Qed.

Lemma parts_nonempty c : wf_condition c = true -> cond_parts c <> [].
Proof. intros H. by destruct (first_part c H) as (p & ps & -> & _). Qed.

Lemma not_whole_request p cs :
  wf_request p = true ->
  tryParseTimeCondition (join spaced_and (all_parts (OnRequest p :: cs))) = None.
Proof.
  intros H. unfold all_parts. cbn [map concat cond_parts].
  apply request_shape_wf in H as [S Hp]. destruct S; cbn [app]; rewrite join_head;
    rewrite ?call_text_app, <- ?app_assoc, ?call_text_app, <- ?app_assoc; try destruct h;
    first [apply not_time_header|apply not_time_param|apply not_time_has].
Qed.

(** The text after a lower bound does not complete it to a range. *)
Lemma no_upper_bound fn tz d cs :
  includes_str TIME_FUNCS fn = true -> plain_name tz = true -> wf_condition d = true ->
  (forall v, merges (OnTime (MkTimeRule fn tz MATCH_GTE v [] [])) d = false) ->
  strip (call_text fn tz ++ js " < ") (join spaced_and (all_parts (d :: cs))) = None.
Proof.
  intros Hf Ht Hd Hm. destruct (strip _ _) as [r|] eqn:E; [exfalso|done].
  apply strip_inv in E. rewrite <- app_assoc in E.
  pose proof (time_probe_call fn tz (js " < " ++ r) Hf Ht) as P. rewrite <- E in P. clear E.
  unfold all_parts in P. cbn [map concat] in P.
  destruct d as [t|p]; cbn [cond_parts wf_condition] in *.
  - apply time_shape_wf in Hd as (S & Hf' & Ht').
    remember (tr_timeFunc t) as fn' eqn:E1. remember (tr_timezone t) as tz' eqn:E2. clear E1 E2.
    destruct S; cbn [app] in P; rewrite join_head in P.
    + unfold scalar_text in P. rewrite <- app_assoc, time_probe_call in P by done.
      injection P as -> -> P. specialize (Hm v). unfold merges in Hm.
      cbn [tr_mode tr_timeFunc tr_timezone] in Hm. rewrite !str_eqb_refl in Hm.
      apply scalar_mode_inv in H as [[-> O]|[[-> O]|[-> O]]]; rewrite O in P; done.
    + unfold scalar_text in P. rewrite <- app_assoc, time_probe_call in P by done.
      by injection P as -> -> P.
    + done.
  - apply request_shape_wf in Hd as [S Hp]. destruct S; cbn [app] in P; rewrite join_head in P;
      rewrite ?call_text_app, <- ?app_assoc, ?call_text_app, <- ?app_assoc in P;
      try destruct h; done.
Qed.

Lemma gte_then fn tz v rest :
  includes_str TIME_FUNCS fn = true -> plain_name tz = true -> isTimeValueInRange fn v = true ->
  strip (call_text fn tz ++ js " < ") rest = None ->
  match_time_range (scalar_text fn tz MATCH_GTE v ++ js " && " ++ rest) = None.
Proof.
  intros Hf Ht Hv%in_range_numeric Hs. unfold match_time_range, scalar_text.
  rewrite <- app_assoc, time_probe_call by done. cbn [mbind option_bind].
  change (op_text MATCH_GTE) with (js " >= "). rewrite <- app_assoc, strip_app.
  cbn [mbind option_bind]. rewrite number_text_app by done. cbn [mbind option_bind].
  rewrite strip_app. cbn [first_of mbind option_bind]. by rewrite Hs.
Qed.

Lemma not_whole_time t d cs :
  wf_time t = true -> wf_condition d = true -> merges (OnTime t) d = false ->
  tryParseTimeCondition (join spaced_and (all_parts (OnTime t :: d :: cs))) = None.
Proof.
  intros H Hd Hm.
  change (all_parts (OnTime t :: d :: cs)) with (time_parts t ++ all_parts (d :: cs)).
  destruct (all_parts (d :: cs)) as [|q qs] eqn:Eq.
  { apply parts_nonempty in Hd. unfold all_parts in Eq. cbn in Eq. by destruct (cond_parts d). }
  apply time_shape_wf in H as (S & Hf & Ht).
  remember (tr_timeFunc t) as fn eqn:E1. remember (tr_timezone t) as tz eqn:E2. clear E1 E2.
  destruct S; cbn [app]; rewrite join_cons.
  - unfold tryParseTimeCondition, match_whole_range.
    assert (match_time_range (scalar_text fn tz mode v ++ spaced_and ++ join spaced_and (q :: qs))
            = None) as ->.
    { destruct (str_eqb mode MATCH_GTE) eqn:G.
      - apply str_eqb_eq in G as ->. apply gte_then; [done..|]. rewrite <- Eq.
        by apply no_upper_bound.
      - apply time_scalar_no_range; try done. intros ->. done. }
    cbn [mbind option_bind first_of]. rewrite time_scalar_app by done.
    unfold scalar_text. rewrite <- app_assoc, match_wrapped_call by done. done.
  - rewrite join_cons. unfold tryParseTimeCondition, match_whole_range.
    replace (match_time_range _) with (Some (fn, tz, a, b, spaced_and ++ join spaced_and (q :: qs))).
    2: { symmetry. unfold scalar_text. rewrite <- !app_assoc.
         apply (time_range_app fn tz Hf Ht a b (js " && ")); first [done|by left]. }
    cbn [mbind option_bind first_of]. change (match spaced_and ++ ?x with [] => ?y | _ => None end)
      with (@None (str * str * str * str)). cbn [first_of].
    rewrite time_scalar_app by done. unfold scalar_text.
    rewrite <- app_assoc, match_wrapped_call by done. done.
  - rewrite <- !app_assoc. apply parse_wrapped_more; first [done|by right].
Qed.

(** ** Groups *)

Definition cond_text (cs : list RequestCondition) : str :=
  match cs with
  | [c] => single_text c
  | _ => join spaced_and (all_parts cs)
  end.

Lemma join_app sep l1 l2 :
  l1 <> [] -> l2 <> [] -> join sep (l1 ++ l2) = join sep l1 ++ sep ++ join sep l2.
Proof.
  induction l1 as [|a l1 IH]; [done|]. intros _ H2. destruct l1 as [|b l1].
  - cbn [app]. by destruct l2.
  - change ((a :: b :: l1) ++ l2) with (a :: (b :: l1) ++ l2).
    change (join sep (a :: b :: l1)) with (a ++ sep ++ join sep (b :: l1)).
    change (join sep (a :: (b :: l1) ++ l2)) with (a ++ sep ++ join sep ((b :: l1) ++ l2)).
    rewrite IH by done. by rewrite <- !app_assoc.
Qed.

Lemma join_all_parts cs :
  forallb wf_condition cs = true ->
  join spaced_and (map (fun c => join spaced_and (cond_parts c)) cs)
  = join spaced_and (all_parts cs).
Proof.
  induction cs as [|c cs IH]; [done|]. cbn [forallb]. intros H. split_andb.
  change (all_parts (c :: cs)) with (cond_parts c ++ all_parts cs).
  destruct cs as [|d cs]; [cbn; by rewrite app_nil_r|].
  set (f := fun c => join spaced_and (cond_parts c)) in *.
  change (join spaced_and (map f (c :: d :: cs)))
    with (f c ++ spaced_and ++ join spaced_and (map f (d :: cs))). rewrite IH by done.
  rewrite join_app; [done|by apply parts_nonempty|].
  cbn [forallb] in H0. split_andb. apply parts_nonempty in H0. unfold all_parts. cbn.
  by destruct (cond_parts d).
Qed.

Lemma parts_barless c :
  wf_condition c = true -> overnight c = false -> barless (join spaced_and (cond_parts c)) = true.
Proof.
  intros H O.
  assert (forall l, Forall (fun s => barless s = true) l -> barless (join spaced_and l) = true) as J.
  { induction 1 as [|s l Hs Hl IH]; [done|]. rewrite join_head, barless_app, Hs.
    destruct l; [done|]. by rewrite barless_app, IH. }
  apply J. clear J. destruct c as [t|p]; cbn [wf_condition cond_parts] in *.
  - apply time_shape_wf in H as (S & Hf & Ht).
    remember (tr_timeFunc t) as fn eqn:E1. remember (tr_timezone t) as tz eqn:E2. clear E1 E2.
    destruct S; [by repeat constructor; apply barless_scalar..|congruence].
  - apply request_shape_wf in H as [S Hp].
    assert (forall h path, plain_name path = true ->
      barless (call_text (source_word h) path) = true) as B.
    { intros h path Hn. apply barless_call; [by destruct h|done]. }
    pose proof (B true) as BT. pose proof (B false) as BF. cbn [source_word] in BT, BF.
    destruct S; cbn [ph_path] in Hp; repeat constructor; rewrite ?barless_app, ?B, ?BT, ?BF by done.
    + by destruct h.
    + apply andb_true_iff in H as [_ H]. by rewrite barless_stringify.
    + done.
    + apply andb_true_iff in H as [_ H]. by rewrite barless_stringify.
    + done.
    + rewrite (barless_numeric v) by done. rewrite !elem_of_cons in H0.
      by destruct H0 as [->|[->|[->|[->|H0%elem_of_nil]]]].
    + by rewrite barless_literal.
Qed.

Lemma wrap_text c :
  wf_condition c = true -> wrap_disjunction (single_text c) = join spaced_and (cond_parts c).
Proof.
  intros H. unfold wrap_disjunction. destruct (overnight c) eqn:O.
  - destruct c as [t|p]; [|done]. unfold single_text. rewrite O. cbn [cond_parts wf_condition] in *.
    apply time_shape_wf in H as (S & Hf & Ht).
    remember (tr_timeFunc t) as fn eqn:E1. remember (tr_timezone t) as tz eqn:E2.
    assert (exists a b, tr_rangeStart t = a /\ tr_rangeEnd t = b /\
      time_parts t = [js "(" ++ time_range_text fn tz (js " || ") a b ++ js ")"]) as (a & b & -> & -> & ->).
    { clear E1 E2. destruct S as [mode v Hm| |].
      - apply scalar_mode_inv in Hm as [[-> _]|[[-> _]|[-> _]]]; done.
      - congruence.
      - eauto. }
    cbn [join]. unfold time_range_text at 1.
    rewrite (app_assoc (js " >= ")), (app_assoc (call_text fn tz)), contains_app. done.
  - assert (single_text c = join spaced_and (cond_parts c)) as ->
      by (destruct c; unfold single_text; by rewrite ?O).
    by rewrite barless_contains by (by apply parts_barless).
Qed.

Lemma single_text_nonempty c : wf_condition c = true -> single_text c <> [].
Proof.
  intros H E. pose proof (wrap_text c H) as W. rewrite E in W. cbn in W.
  destruct (first_part c H) as (p & ps & Hp & _). pose proof (parts_clean c H) as C.
  rewrite Hp in *. apply Forall_inv in C as [_ C]. rewrite join_head in W. by destruct p.
Qed.

Lemma build_conditions cs :
  cs <> [] -> forallb wf_condition cs = true ->
  combine_conditions (List.filter nonempty (map buildRequestConditionExpr cs)) = cond_text cs.
Proof.
  intros Hne H.
  assert (List.filter nonempty (map buildRequestConditionExpr cs) = map single_text cs) as ->.
  { clear Hne. induction cs as [|c cs IH]; [done|]. cbn [forallb] in H. split_andb.
    cbn [map List.filter]. rewrite build_text by done.
    pose proof (single_text_nonempty c H) as N. destruct (single_text c); [done|].
    cbn [nonempty]. by rewrite IH. }
  destruct cs as [|c [|d cs]]; [done|done|]. unfold combine_conditions, cond_text.
  cbn [map]. change (?f (single_text c) :: ?f (single_text d) :: map ?f (map single_text cs))
    with (map f (map single_text (c :: d :: cs))).
  rewrite <- join_all_parts by done. f_equal. rewrite map_map.
  apply map_ext_in. intros x Hx. apply wrap_text. rewrite forallb_forall in H. by apply H.
Qed.

Lemma all_parts_ok (P : str -> Prop) cs :
  forallb wf_condition cs = true ->
  (forall c, wf_condition c = true -> Forall P (cond_parts c)) -> Forall P (all_parts cs).
Proof.
  intros H HP. unfold all_parts. induction cs as [|c cs IH]; [done|].
  cbn [forallb map concat] in *. split_andb. apply Forall_app. auto.
Qed.

Lemma join_clean sep l :
  l <> [] -> Forall (fun s => trim s = s /\ s <> []) l -> ends_clean (join sep l) = true.
Proof.
  intros Hne. induction 1 as [|s l [Ht Hs] Hl IH]; [done|]. apply trim_ends_clean in Ht.
  rewrite join_head. destruct l as [|t l]; [by rewrite app_nil_r|].
  apply ends_clean_app; [done| |done|by apply IH].
  apply Forall_inv in Hl as [_ Hl]. rewrite join_head. by destruct t.
Qed.

Lemma split_and l :
  l <> [] -> Forall (held 0 38) l -> Forall (fun s => trim s = s /\ s <> []) l ->
  splitExpressionAtTopLevel (join spaced_and l) (js "&&") = l.
Proof.
  intros Hne Hh Hc. apply (split_join_spaced 38 [38%N]); [|done|done|].
  - intros c Hc'. rewrite !elem_of_cons in Hc'. by destruct Hc' as [->|[->|Hc'%elem_of_nil]].
  - rewrite Forall_forall in *. naive_solver.
Qed.

Lemma all_parts_nonempty c cs : wf_condition c = true -> all_parts (c :: cs) <> [].
Proof.
  intros H. unfold all_parts. cbn [map concat]. pose proof (parts_nonempty c H).
  by destruct (cond_parts c).
Qed.

Lemma range_clean fn tz conn a b :
  includes_str TIME_FUNCS fn = true -> isTimeValueInRange fn b = true ->
  ends_clean (time_range_text fn tz conn a b) = true.
Proof.
  intros [Hf Cf]%time_func_clean Hv%in_range_numeric. unfold time_range_text.
  rewrite call_text_app, !app_assoc, <- (app_assoc fn), <- !(app_assoc fn).
  apply ends_clean_app; [done| |done|by apply numeric_clean].
  by apply numeric_chars in Hv as [? _].
Qed.

Lemma read_single_time t :
  wf_time t = true ->
  tryParseTimeCondition (single_text (OnTime t)) = Some t /\
  ends_clean (single_text (OnTime t)) = true.
Proof.
  intros H. unfold single_text. cbn [cond_parts]. apply time_shape_wf in H as (S & Hf & Ht).
  remember (tr_timeFunc t) as fn eqn:E1. remember (tr_timezone t) as tz eqn:E2. clear E1 E2.
  destruct S as [mode v Hm Hv|a b Ha Hb O|a b Ha Hb O]; cbn [tr_rangeStart tr_rangeEnd].
  - assert (overnight (OnTime (MkTimeRule fn tz mode v [] [])) = false) as ->
      by (by apply scalar_mode_inv in Hm as [[-> _]|[[-> _]|[-> _]]]).
    cbn [join]. split; [by apply parse_scalar|]. by apply trim_ends_clean, scalar_clean.
  - rewrite O.
    assert (join spaced_and [scalar_text fn tz MATCH_GTE a; scalar_text fn tz MATCH_LT b]
            = time_range_text fn tz (js " && ") a b) as ->.
    { cbn [join]. unfold scalar_text, time_range_text. by rewrite <- !app_assoc. }
    split; [by apply parse_range; [..|left]|by apply range_clean].
  - rewrite O. split; [by apply parse_range; [..|right]|by apply range_clean].
Qed.

Lemma read_cond_text cs :
  cs <> [] -> forallb wf_condition cs = true -> unmerged cs = true ->
  tryParseRequestConditions (cond_text cs) = Ok (if forallb readable cs then Some cs else None).
Proof.
  intros Hne Hw Hu. destruct cs as [|c cs]; [done|].
  assert (wf_condition c = true) as Hc by (cbn in Hw; by split_andb).
  assert (cond_text (c :: cs) = join spaced_and (all_parts (c :: cs)) ->
    tryParseTimeCondition (join spaced_and (all_parts (c :: cs))) = None ->
    tryParseRequestConditions (cond_text (c :: cs))
    = Ok (if forallb readable (c :: cs) then Some (c :: cs) else None)) as Many.
  { intros -> N. unfold tryParseRequestConditions.
    pose proof (all_parts_ok _ _ Hw parts_clean) as C.
    rewrite ends_clean_trim by (apply join_clean; [by apply all_parts_nonempty|done]).
    rewrite N, split_and; [|by apply all_parts_nonempty| |done].
    - rewrite read_conditions by done. by destruct (forallb readable (c :: cs)).
    - apply all_parts_ok; [done|]. intros. by apply parts_held; [..|by left|]. }
  destruct c as [t|p].
  - destruct cs as [|d cs].
    + cbn [cond_text forallb readable andb]. unfold tryParseRequestConditions.
      destruct (read_single_time t Hc) as [P C]. by rewrite ends_clean_trim, P.
    + apply Many; [done|]. cbn [forallb unmerged] in *. split_andb. by apply not_whole_time.
  - apply Many; [|by apply not_whole_request].
    destruct cs; [|done]. unfold cond_text, all_parts, single_text. cbn [map concat].
    by rewrite app_nil_r.
Qed.

(** ** Factors *)

Definition factor_text (cond m : str) : str :=
  js "(" ++ cond ++ js " ? " ++ m ++ js " : 1)".

Lemma rule_factor_text cond m :
  cond <> [] -> is_numeric_literal m = true ->
  match_rule_factor (factor_text cond m) = Some (cond, m).
Proof.
  intros Hc (Hn & Hm)%numeric_chars. unfold match_rule_factor, factor_text.
  rewrite strip_app. cbn [mbind option_bind]. rewrite !reverse_app, <- !app_assoc, strip_app.
  cbn [mbind option_bind]. unfold number_text. rewrite span_prefix; [|by rewrite forallb_reverse|done].
  destruct (reverse m) as [|c r] eqn:E.
  { apply (f_equal reverse) in E. rewrite reverse_involutive in E. done. }
  rewrite <- E. cbn [mbind option_bind]. rewrite strip_app. cbn [mbind option_bind].
  destruct (reverse cond) as [|d q] eqn:E'.
  { apply (f_equal reverse) in E'. rewrite reverse_involutive in E'. done. }
  by rewrite <- E', !reverse_involutive.
Qed.

Lemma cond_text_held cs :
  forallb wf_condition cs = true -> held 1 42 (cond_text cs).
Proof.
  intros H.
  assert (forall cs, forallb wf_condition cs = true -> held 1 42 (join spaced_and (all_parts cs))) as J.
  { intros cs' H'. apply held_join; [by apply held_plain|]. apply all_parts_ok; [done|].
    intros. by apply parts_held; [..|by right; left|]. }
  destruct cs as [|c [|d cs]]; [by apply held_nil| |by apply J].
  cbn [cond_text]. pose proof (J [c] H) as Jc. unfold all_parts in Jc.
  cbn [map concat] in Jc. rewrite app_nil_r in Jc.
  destruct c as [t|p]; [|done]. unfold single_text. destruct (overnight (OnTime t)) eqn:O; [|done].
  cbn [forallb wf_condition] in H. split_andb. apply time_shape_wf in H as (S & Hf & Ht).
  unfold overnight in O. apply andb_true_iff in O as [O _].
  remember (tr_timeFunc t) as fn eqn:E1. remember (tr_timezone t) as tz eqn:E2. clear E1 E2.
  destruct S as [mode v Hm Hv|a b Ha Hb _|a b Ha Hb _]; cbn [tr_rangeStart tr_rangeEnd];
    [|by apply held_range; [..|by right; left| | | |]..].
  by apply scalar_mode_inv in Hm as [[-> _]|[[-> _]|[-> _]]].
Qed.

Lemma factor_held cond m :
  held 1 42 cond -> is_numeric_literal m = true ->
  held 0 42 (factor_text cond m) /\
  trim (factor_text cond m) = factor_text cond m /\ factor_text cond m <> [].
Proof.
  intros H Hm.
  assert (factor_text cond m = js "(" ++ (cond ++ js " ? " ++ m ++ js " : 1") ++ js ")") as ->.
  { unfold factor_text. change (js " : 1)") with (js " : 1" ++ js ")"). by rewrite <- !app_assoc. }
  split; [|by apply clean_between]. apply held_parens; [done|done|].
  apply held_app; [done|]. apply held_app; [by apply held_plain|].
  apply held_app; [by apply held_numeric; [..|by right; left|]|by apply held_plain].
Qed.

Lemma cond_text_nonempty cs :
  cs <> [] -> forallb wf_condition cs = true -> cond_text cs <> [].
Proof.
  intros Hne H. destruct cs as [|c cs]; [done|]. cbn [forallb] in H. split_andb.
  destruct cs as [|d cs]; [by apply single_text_nonempty|]. cbn [cond_text].
  unfold all_parts. cbn [map concat]. destruct (first_part c H) as (p & ps & Hp & _).
  pose proof (parts_clean c H) as C. rewrite Hp in *. apply Forall_inv in C as [_ C].
  cbn [app]. rewrite join_head. by destruct p.
Qed.

Definition rule_group_text (g : RequestRuleGroup) : str :=
  factor_text (cond_text (rg_conditions g)) (rg_multiplier g).

Lemma wf_group_inv g :
  wf_group g = true ->
  g = rule_group (rg_conditions g) (rg_multiplier g) /\
  is_numeric_literal (rg_multiplier g) = true /\ rg_conditions g <> [] /\
  forallb wf_condition (rg_conditions g) = true /\ unmerged (rg_conditions g) = true.
Proof.
  destruct g as [cs m ct mt]. unfold wf_group, rule_group. cbn. intros H. split_andb.
  subst. split_and!; try done. by destruct cs.
Qed.

Lemma build_group g : wf_group g = true -> buildRuleGroupFactor g = rule_group_text g.
Proof.
  intros (_ & Hm & Hne & Hw & _)%wf_group_inv. unfold buildRuleGroupFactor.
  rewrite numeric_trim, Hm by done. cbn [negb].
  pose proof (build_conditions _ Hne Hw) as B.
  destruct (List.filter nonempty _) as [|e es] eqn:E; [|by rewrite B].
  exfalso. by apply (cond_text_nonempty _ Hne Hw).
Qed.

Definition readable_group (g : RequestRuleGroup) : bool := forallb readable (rg_conditions g).

Lemma read_group g :
  wf_group g = true ->
  tryParseRuleGroupFactor (rule_group_text g) = Ok (if readable_group g then Some g else None).
Proof.
  intros (E & Hm & Hne & Hw & Hu)%wf_group_inv. unfold tryParseRuleGroupFactor, rule_group_text.
  rewrite rule_factor_text by (by auto using cond_text_nonempty).
  rewrite read_cond_text by done. cbn [obind]. unfold readable_group.
  destruct (forallb readable _); [|done]. cbn. by rewrite <- E.
Qed.

Lemma group_text_ok g :
  wf_group g = true ->
  held 0 42 (rule_group_text g) /\ trim (rule_group_text g) = rule_group_text g /\ rule_group_text g <> [].
Proof. intros (_ & Hm & _ & Hw & _)%wf_group_inv. by apply factor_held; [apply cond_text_held|]. Qed.

Lemma build_groups gs :
  forallb wf_group gs = true -> buildRequestRuleExpr gs = join (js " * ") (map rule_group_text gs).
Proof.
  intros H. unfold buildRequestRuleExpr. f_equal. induction gs as [|g gs IH]; [done|].
  cbn [forallb map List.filter] in *. split_andb. rewrite build_group, IH by done.
  destruct (group_text_ok g H) as (_ & _ & N). by destruct (rule_group_text g).
Qed.

Lemma read_groups gs : forall acc,
  forallb wf_group gs = true ->
  parse_factors (map rule_group_text gs) acc
  = Ok (if forallb readable_group gs then Some (acc ++ gs) else None).
Proof.
  induction gs as [|g gs IH]; intros acc H; [cbn; by rewrite app_nil_r|].
  cbn [forallb map parse_factors] in *. split_andb. rewrite read_group by done. cbn [obind].
  destruct (readable_group g); [|done]. rewrite IH by done. by rewrite <- app_assoc.
Qed.

Lemma split_times l :
  l <> [] -> Forall (fun s => held 0 42 s /\ trim s = s /\ s <> []) l ->
  splitExpressionAtTopLevel (join (js " * ") l) (js "*") = l.
Proof.
  intros Hne H. apply (split_join_spaced 42 []); [|done|done|done].
  intros c Hc. rewrite elem_of_cons, elem_of_nil in Hc. by destruct Hc as [->|].
Qed.

Lemma groups_ok gs :
  forallb wf_group gs = true ->
  Forall (fun s => held 0 42 s /\ trim s = s /\ s <> []) (map rule_group_text gs).
Proof.
  intros H. induction gs as [|g gs IH]; [done|]. cbn [forallb map] in *. split_andb.
  constructor; [by apply group_text_ok|by apply IH].
Qed.

Lemma parse_build_groups gs :
  forallb wf_group gs = true ->
  tryParseRequestRuleExpr (buildRequestRuleExpr gs)
  = Ok (if forallb readable_group gs then Some gs else None).
Proof.
  intros H. rewrite build_groups by done. pose proof (groups_ok gs H) as F.
  destruct gs as [|g gs]; [done|]. unfold tryParseRequestRuleExpr.
  rewrite ends_clean_trim.
  2: { apply join_clean; [done|]. eapply Forall_impl; [|exact F]. by intros s (_ & ?). }
  destruct (join (js " * ") (map rule_group_text (g :: gs))) eqn:E.
  { cbn [map] in *. apply Forall_inv in F as (_ & _ & N). rewrite join_head in E.
    by destruct (rule_group_text g). }
  rewrite <- E, split_times by done. by apply (read_groups (g :: gs) []).
Qed.

(** ** Domains of the time functions *)

Definition in_domain (timeFunc text : str) : Prop :=
  exists lo hi z, assoc_str TIME_FUNC_RANGES timeFunc = Some (lo, hi) /\
    num_to_Z (js_Number text) = Some z /\ (lo <= z <= hi)%Z.

Definition integer_lit (z : Z) : bool :=
  is_integer (lit z) && bool_decide (num_to_Z (lit z) = Some z).

Lemma range_limits f lo hi :
  assoc_str TIME_FUNC_RANGES f = Some (lo, hi) -> integer_lit lo = true /\ integer_lit hi = true.
Proof.
  intros H%assoc_str_elem.
  assert (forallb (fun r => integer_lit r.2.1 && integer_lit r.2.2) TIME_FUNC_RANGES = true) as A
    by (vm_compute; reflexivity).
  rewrite forallb_forall in A. apply list_elem_of_In in H. specialize (A _ H). cbn in A.
  by split_andb.
Qed.

Lemma value_in_domain f text : isTimeValueInRange f text = true -> in_domain f text.
Proof.
  unfold isTimeValueInRange. destruct (is_numeric_literal text); [|done]. cbn [negb].
  destruct (is_integer (js_Number text)) eqn:I; [|done]. cbn [negb].
  destruct (assoc_str TIME_FUNC_RANGES f) as [[lo hi]|] eqn:R; [|done]. intros H. split_andb.
  destruct (range_limits f lo hi R) as [L U]. unfold integer_lit in L, U. split_andb.
  destruct (integer_to_Z _ I) as [z Hz]. pose proof (js_Number_canon text) as C.
  rewrite (num_leb_integer (lit lo) _ lo z) in H by auto using lit_canon.
  rewrite (num_leb_integer _ (lit hi) z hi) in H0 by auto using lit_canon.
  exists lo, hi, z. split_and!; [done|done|lia..].
Qed.

(** The bounds a time rule uses. *)
Definition rule_bounds (t : TimeRule) : list str :=
  if str_eqb (tr_mode t) MATCH_RANGE then [tr_rangeStart t; tr_rangeEnd t] else [tr_value t].

Lemma parsed_bounds e t :
  tryParseTimeCondition e = Some t ->
  Forall (fun v => isTimeValueInRange (tr_timeFunc t) v = true) (rule_bounds t).
Proof.
  unfold tryParseTimeCondition, rule_bounds.
  destruct (first_of _ _) as [[[[fn tz] a] b]|].
  - destruct (isTimeValueInRange fn a) eqn:A; [|done].
    destruct (isTimeValueInRange fn b) eqn:B; [|done]. intros [= <-].
    cbn. rewrite str_eqb_refl. by repeat constructor.
  - intros H. destruct (match_time_scalar e) as [[[[fn tz] mode] v]|] eqn:M; [|done].
    cbn in H. destruct (isTimeValueInRange fn v) eqn:V; [|done]. injection H as <-. cbn.
    assert (str_eqb mode MATCH_RANGE = false) as ->; [|by constructor].
    unfold match_time_scalar in M.
    destruct (time_probe TIME_FUNCS e) as [[[f' z'] r]|]; [|done]. cbn [mbind option_bind] in M.
    destruct (strip (js " == ") r) as [r1|]; cbn [mbind option_bind first_of] in M.
    2: destruct (strip (js " >= ") r) as [r1|]; cbn [mbind option_bind first_of] in M.
    3: destruct (strip (js " < ") r) as [r1|]; cbn [mbind option_bind first_of] in M; [|done].
    all: destruct (number_text r1) as [[v' [|]]|]; try done; cbn in M; by injection M as <- <- <- <-.
Qed.

Lemma built_bounds t :
  time_expr t <> [] ->
  Forall (fun v => isTimeValueInRange (tr_timeFunc t) (trim v) = true) (rule_bounds t).
Proof.
  unfold time_expr, rule_bounds. destruct (str_eqb (tr_mode t) MATCH_RANGE).
  - destruct (isTimeValueInRange _ (trim (tr_rangeStart t))) eqn:A; [|done].
    destruct (isTimeValueInRange _ (trim (tr_rangeEnd t))) eqn:B; [|done].
    intros _. by repeat constructor.
  - destruct (isTimeValueInRange _ (trim (tr_value t))) eqn:V; [|done]. by constructor.
Qed.

(** ** Splitting off the rules *)

(** Text that can stand between parentheses as the base price: trimmed,
    balanced, and not itself wrapped or a rule. *)
Record base_text (base : str) : Prop := {
  base_trimmed : trim base = base;
  base_nonempty : base <> [];
  base_balanced : held 1 42 base;
  base_closed : wrapped (js "(" ++ base ++ js ")") = true;
  base_unwrapped : wrapped base = false;
  base_not_count : base <> js "image_count";
  base_not_rule : match_rule_factor (js "(" ++ base ++ js ")") = None
}.

Lemma unwrap_base base :
  base_text base -> unwrapExpressionParens (js "(" ++ base ++ js ")") = base.
Proof.
  intros [T N _ C U _ _]. unfold unwrapExpressionParens.
  assert (trim (js "(" ++ base ++ js ")") = js "(" ++ base ++ js ")") as ->
    by (by apply clean_between).
  change (length (js "(" ++ base ++ js ")")) with (S (length (base ++ js ")"))).
  rewrite unwrap_step, C. pose proof (wrapped_shape _ C) as E.
  apply app_inv_head in E. apply app_inv_tail in E. rewrite <- E, T.
  by apply unwrap_loop_not_wrapped.
Qed.

Lemma read_one_group g :
  wf_group g = true -> readable_group g = true ->
  tryParseRequestRuleExpr (rule_group_text g) = Ok (Some [g]).
Proof.
  intros W R. pose proof (parse_build_groups [g]) as P. rewrite build_groups in P by (cbn; by rewrite W).
  cbn [map join forallb] in P. rewrite W, R in P. by apply P.
Qed.

Lemma classify_groups gs : forall cache,
  forallb wf_group gs = true -> forallb readable_group gs = true ->
  (classify_parts cache (map rule_group_text gs)).1 = Ok (map rule_group_text gs, []).
Proof.
  induction gs as [|g gs IH]; intros cache W R; [done|]. cbn [forallb map classify_parts] in *.
  split_andb. rewrite read_one_group by done.
  destruct (compileBillingExpression cache (rule_group_text g)) as [compiled cache1].
  specialize (IH cache1 ltac:(done) ltac:(done)). destruct (classify_parts cache1 _) as [r cache2].
  cbn [fst] in *. by rewrite IH.
Qed.

Lemma wrapped_base_ok base :
  base_text base ->
  held 0 42 (js "(" ++ base ++ js ")") /\
  trim (js "(" ++ base ++ js ")") = js "(" ++ base ++ js ")" /\ js "(" ++ base ++ js ")" <> [].
Proof.
  intros B. split; [apply held_parens; [done|done|apply B]|by apply clean_between].
Qed.

Lemma base_not_parsed base :
  base_text base -> tryParseRequestRuleExpr (js "(" ++ base ++ js ")") = Ok None.
Proof.
  intros B. unfold tryParseRequestRuleExpr.
  destruct (clean_between (js "(") base (js ")")) as [-> _]; try done.
  change (js "(" ++ base ++ js ")") with (40%N :: base ++ js ")") at 1. cbv iota.
  change (40%N :: base ++ js ")") with (js "(" ++ base ++ js ")").
  assert (splitExpressionAtTopLevel (js "(" ++ base ++ js ")") (js "*")
          = [js "(" ++ base ++ js ")"]) as ->.
  { refine (split_times [js "(" ++ base ++ js ")"] _ _); [done|]. by apply Forall_singleton, wrapped_base_ok. }
  cbn [parse_factors]. unfold tryParseRuleGroupFactor. by rewrite (base_not_rule _ B).
Qed.

Lemma split_combine_text cache base gs :
  base_text base -> is_traced (compileBillingExpression cache (js "(" ++ base ++ js ")")).1 = false ->
  gs <> [] -> forallb wf_group gs = true -> forallb readable_group gs = true ->
  (splitBillingExprAndRequestRules cache (combineBillingExpr base (buildRequestRuleExpr gs))).1
  = Ok (MkSplit base (buildRequestRuleExpr gs)).
Proof.
  intros B Tr Hne W R. rewrite build_groups by done. pose proof (groups_ok gs W) as F.
  set (wrapped_base := js "(" ++ base ++ js ")") in *.
  assert (map rule_group_text gs <> []) as Hne' by (by destruct gs).
  assert (ends_clean (join (js " * ") (map rule_group_text gs)) = true) as J.
  { apply join_clean; [done|]. eapply Forall_impl; [|exact F]. by intros s (_ & ?). }
  assert (join (js " * ") (map rule_group_text gs) <> []) as JN.
  { destruct gs as [|g gs]; [done|]. cbn [map] in *. apply Forall_inv in F as (_ & _ & N).
    rewrite join_head. by destruct (rule_group_text g). }
  assert (Forall (fun s => held 0 42 s /\ trim s = s /\ s <> []) (wrapped_base :: map rule_group_text gs)) as F'.
  { constructor; [by apply wrapped_base_ok|done]. }
  assert (combineBillingExpr base (join (js " * ") (map rule_group_text gs))
          = join (js " * ") (wrapped_base :: map rule_group_text gs)) as ->.
  { unfold combineBillingExpr. rewrite (base_trimmed _ B), (ends_clean_trim _ J).
    pose proof (base_nonempty _ B). rewrite join_head.
    destruct base; [done|]. destruct (map rule_group_text gs) eqn:E; [done|]. rewrite <- E in *.
    destruct (join (js " * ") (map rule_group_text gs)); [done|]. unfold wrapped_base.
    change (js ") * ") with (js ")" ++ js " * "). by rewrite <- !app_assoc. }
  unfold splitBillingExprAndRequestRules. rewrite ends_clean_trim.
  2: { apply join_clean; [done|]. eapply Forall_impl; [|exact F']. by intros s (_ & ?). }
  rewrite join_head at 1. unfold wrapped_base at 1. rewrite <- !app_assoc.
  change (js "(" ++ ?x) with (40%N :: x). cbv iota. rewrite split_times by done.
  assert (length (wrapped_base :: map rule_group_text gs) <=? 1 = false) as ->.
  { destruct gs; [done|]. by apply Nat.leb_gt; cbn; lia. }
  cbn [classify_parts]. unfold wrapped_base at 1. rewrite base_not_parsed by done.
  fold wrapped_base. destruct (compileBillingExpression cache wrapped_base) as [compiled cache1] eqn:E.
  cbn [fst] in Tr. rewrite Tr. cbn [orb].
  pose proof (classify_groups gs cache1 W R) as C. destruct (classify_parts cache1 _) as [r cache2].
  cbn [fst] in *. subst r. cbn [obind List.filter].
  pose proof (unwrap_base base B) as U. fold wrapped_base in U. rewrite U, (proj2 (str_eqb_neq _ _) (base_not_count _ B)).
  cbn [length]. rewrite length_map. destruct gs as [|g gs]; [done|]. cbn [length Nat.eqb orb negb Nat.sub].
  cbn [map join]. by rewrite U.
Qed.

Lemma read_disjunction fn tz a b m :
  includes_str TIME_FUNCS fn = true -> plain_name tz = true ->
  isTimeValueInRange fn a = true -> isTimeValueInRange fn b = true ->
  is_numeric_literal m = true ->
  tryParseRequestRuleExpr (factor_text (time_range_text fn tz (js " || ") a b) m)
  = Ok (Some [rule_group [OnTime (MkTimeRule fn tz MATCH_RANGE [] a b)] m]).
Proof.
  intros Hf Ht Ha Hb Hm. set (text := time_range_text fn tz (js " || ") a b).
  assert (text <> []) as N by (unfold text, time_range_text; by destruct (time_func_clean fn Hf); destruct fn).
  destruct (factor_held text m) as (H & T & Nf); [|done|].
  { by apply held_range; [..|by right; left| | | |]. }
  unfold tryParseRequestRuleExpr. rewrite T.
  change (factor_text text m) with (40%N :: text ++ js " ? " ++ m ++ js " : 1)") at 1. cbv iota.
  assert (splitExpressionAtTopLevel (factor_text text m) (js "*") = [factor_text text m]) as E
    by (refine (split_times [factor_text text m] _ _); [done|by apply Forall_singleton]).
  unfold factor_text in E at 1. change (js "(" ++ ?x) with (40%N :: x) in E. rewrite E.
  cbn [parse_factors]. unfold tryParseRuleGroupFactor. rewrite rule_factor_text by done.
  unfold tryParseRequestConditions, text. rewrite ends_clean_trim by (by apply range_clean).
  by rewrite (proj1 (parse_range fn tz Hf Ht _ a b Ha Hb ltac:(by right))).
Qed.

(** ** Guarantees *)

(** C10: the rule editor reads what it writes.  For groups of well-formed
    conditions, where no lower bound is directly followed by the upper bound
    it would merge with, parsing the built text gives back exactly the groups
    if every condition has a mode with a reader, and rejects the text if some
    parameter condition tests for containment or compares with a number: the
    text of these modes is a conjunction, which is cut before its pattern is
    tried. *)
Theorem rules_roundtrip gs :
  forallb wf_group gs = true ->
  tryParseRequestRuleExpr (buildRequestRuleExpr gs)
  = Ok (if forallb readable_group gs then Some gs else None).
Proof. apply parse_build_groups. Qed.

Definition sample_groups : list RequestRuleGroup :=
  [rule_group
     [OnTime (MkTimeRule (js "hour") (js "Asia/Shanghai") MATCH_RANGE [] (js "21") (js "6"));
      OnRequest (MkParamHeader true (js "x-tier") MATCH_CONTAINS (js "a && b"));
      OnTime (MkTimeRule (js "weekday") (js "UTC") MATCH_RANGE [] (js "1") (js "5"))]
     (js "1.5");
   rule_group [OnRequest (MkParamHeader false (js "service_tier") MATCH_EQ (js "fast * 2"))] (js "2")].

Lemma rules_roundtrip_witness :
  tryParseRequestRuleExpr (buildRequestRuleExpr sample_groups) = Ok (Some sample_groups) /\
  tryParseRequestRuleExpr (buildRequestRuleExpr
    [rule_group [OnRequest (MkParamHeader false (js "n") MATCH_GT (js "1"))] (js "2")]) = Ok None.
Proof.
  split.
  - rewrite (rules_roundtrip sample_groups); vm_compute; reflexivity.
  - rewrite (rules_roundtrip [_]); vm_compute; reflexivity.
Defined.

(** Bounds of time conditions stay in the domain of the function: whether
    read from text or written by the builder, every bound a time condition
    uses is an integer between the limits of its time function (hour 0 to 23,
    minute 0 to 59, weekday 0 to 6, month 1 to 12, day 1 to 31). *)
Theorem time_bounds_in_domain :
  (forall e t, tryParseTimeCondition e = Some t ->
     Forall (in_domain (tr_timeFunc t)) (rule_bounds t)) /\
  (forall t, buildTimeConditionExpr t <> [] ->
     exists c, normalizeCondition (Some (to_partial (OnTime t))) = OnTime c /\
       Forall (fun v => in_domain (tr_timeFunc c) (trim v)) (rule_bounds c)).
Proof.
  split.
  - intros e t H%parsed_bounds. eapply Forall_impl; [|exact H]. intros v. apply value_in_domain.
  - intros t H. unfold buildTimeConditionExpr in H.
    destruct (normalizeCondition _) as [c|c]; [|done]. exists c. split; [done|].
    apply built_bounds in H. eapply Forall_impl; [|exact H]. intros v. apply value_in_domain.
Qed.

Lemma time_bounds_in_domain_witness :
  Forall (in_domain (js "hour"))
    (rule_bounds (MkTimeRule (js "hour") (js "UTC") MATCH_RANGE [] (js "9") (js "1e1"))).
Proof.
  apply (proj1 time_bounds_in_domain
    (call_text (js "hour") (js "UTC") ++ js " >= 9 && " ++ call_text (js "hour") (js "UTC") ++ js " < 1e1")
    (MkTimeRule (js "hour") (js "UTC") MATCH_RANGE [] (js "9") (js "1e1"))).
  vm_compute. reflexivity.
Defined.

(** Splitting undoes combining: a base price joined with the text of
    readable rules is split back into exactly that base and that text, for
    every base that is balanced, not wrapped, no rule of its own and not the
    bare quantity, and for every state of the compilation cache. *)
Theorem split_undoes_combine cache base gs :
  base_text base ->
  is_traced (compileBillingExpression cache (js "(" ++ base ++ js ")")).1 = false ->
  gs <> [] -> forallb wf_group gs = true -> forallb readable_group gs = true ->
  (splitBillingExprAndRequestRules cache (combineBillingExpr base (buildRequestRuleExpr gs))).1
  = Ok (MkSplit base (buildRequestRuleExpr gs)).
Proof. apply split_combine_text. Qed.

Lemma split_undoes_combine_witness :
  (splitBillingExprAndRequestRules []
     (combineBillingExpr (js "p * 2 + c * 4") (buildRequestRuleExpr sample_groups))).1
  = Ok (MkSplit (js "p * 2 + c * 4") (buildRequestRuleExpr sample_groups)).
Proof.
  apply split_undoes_combine; [|vm_compute; reflexivity|done|vm_compute; reflexivity..].
  split; [vm_decide|done|by apply held_plain|vm_decide..].
Defined.

(** Reading a rule can throw.  The pattern of a header test accepts any
    escape in its literal, [JSON.parse] does not, and no handler surrounds
    the call: the exception leaves [tryParseRequestRuleExpr] and, through it,
    [splitBillingExprAndRequestRules], for every state of the cache. *)
Theorem rule_reader_throws cache :
  let rule := js "(has(" ++ call_text (js "header") (js "x") ++ js ", " ++
              [34; 92; 97; 34]%N ++ js ") ? 2 : 1)" in
  tryParseRequestRuleExpr rule = Throw SyntaxError /\
  splitBillingExprAndRequestRules cache (rule ++ js " * p") = (Throw SyntaxError, cache).
Proof. split; vm_compute; reflexivity. Qed.

(** saving a rule can change its meaning.  The reader accepts either
    connective between the two bounds and keeps only the bounds, so a rule
    written with a disjunction whose start does not exceed its end, which
    holds at every time, is read as a range and rebuilt with a conjunction. *)
Theorem range_connective_lost fn tz a b m :
  includes_str TIME_FUNCS fn = true -> plain_name tz = true ->
  isTimeValueInRange fn a = true -> isTimeValueInRange fn b = true ->
  num_ltb (js_Number b) (js_Number a) = false -> is_numeric_literal m = true ->
  exists gs,
    tryParseRequestRuleExpr (factor_text (time_range_text fn tz (js " || ") a b) m) = Ok (Some gs) /\
    buildRequestRuleExpr gs = factor_text (time_range_text fn tz (js " && ") a b) m.
Proof.
  intros Hf Ht Ha Hb Hab Hm. set (t := MkTimeRule fn tz MATCH_RANGE [] a b).
  assert (wf_group (rule_group [OnTime t] m) = true) as W.
  { unfold wf_group, wf_condition, wf_time, t. cbn. rewrite Hm, Hf, Ht, Ha, Hb. done. }
  exists [rule_group [OnTime t] m]. split.
  - by apply read_disjunction.
  - rewrite build_groups by (cbn [forallb]; by rewrite W). cbn [map join].
    unfold rule_group_text. f_equal. cbn [rule_group rg_conditions cond_text single_text].
    assert (overnight (OnTime t) = false) as O by (unfold overnight, t; cbn [tr_rangeStart tr_rangeEnd]; rewrite Hab; apply andb_false_r).
    rewrite O. unfold cond_parts, t, time_parts. fold t. rewrite O.
    change (str_eqb MATCH_RANGE MATCH_RANGE) with true. cbv iota. cbn [join].
    unfold scalar_text, time_range_text. by rewrite <- !app_assoc.
Qed.

Lemma range_connective_lost_witness :
  exists gs,
    tryParseRequestRuleExpr
      (factor_text (time_range_text (js "hour") (js "UTC") (js " || ") (js "9") (js "12")) (js "2"))
      = Ok (Some gs) /\
    buildRequestRuleExpr gs
    = factor_text (time_range_text (js "hour") (js "UTC") (js " && ") (js "9") (js "12")) (js "2").
Proof. apply range_connective_lost; vm_compute; reflexivity. Defined.
