(* ===== verification/PricingTiers.v ===== *)
(** * Tiers read from pricing expressions

    Models the tier readers of [features/pricing/lib/billing-expr.ts] and
    [breakdown-tier-match.ts].  They compile expressions, so they run on the
    module-level cache, and they may throw: [Cached] is the monad of both. *)

From Stdlib Require Import ZArith Lia Bool SpecFloat.
From stdpp Require Import base list numbers.
From S2P Require Import Prelude JsString JsNumber JsValue JsHost JsObject JsJson ExprTypes ExprCompile ExprDisplay TierExpr RequestRules.

(** ** Computations over the compilation cache *)

(** What the callers of the readers can see thrown. *)
Inductive PricingError :=
| FromJson (e : JsError)
| FromExpression (e : exn).

Definition Cached (A : Type) : Type := compiled_cache -> outcome PricingError A * compiled_cache.

Definition cret {A} (a : A) : Cached A := fun cache => (Ok a, cache).

Definition cbind {A B} (m : Cached A) (k : A -> Cached B) : Cached B := fun cache =>
  match m cache with
  | (Ok a, cache') => k a cache'
  | (Throw e, cache') => (Throw e, cache')
  | (OutOfFuel, cache') => (OutOfFuel, cache')
  end.

Notation "'let!' x ':=' m 'in' k" := (cbind m (fun x => k))
  (at level 200, x pattern, m at level 100, k at level 200, right associativity)
  : js_scope.

Definition map_error {E A} (f : E -> PricingError) (m : outcome E A) : outcome PricingError A :=
  match m with
  | Ok a => Ok a
  | Throw e => Throw (f e)
  | OutOfFuel => OutOfFuel
  end.

Definition from_json {A} (m : compiled_cache -> outcome JsError A * compiled_cache) : Cached A :=
  fun cache => let '(r, cache') := m cache in (map_error FromJson r, cache').

Definition from_expression {A} (m : compiled_cache -> R A * compiled_cache) : Cached A :=
  fun cache => let '(r, cache') := m cache in (map_error FromExpression r, cache').

Definition compiled_of (source : str) : Cached CompilationResult :=
  fun cache => let '(r, cache') := compileBillingExpression cache source in (Ok r, cache').

(** [array.map] and [array.flatMap] with such a body. *)
Fixpoint cmap {A B} (f : A -> Cached B) (l : list A) : Cached (list B) :=
  match l with
  | [] => cret []
  | x :: l' => let! y := f x in let! ys := cmap f l' in cret (y :: ys)
  end.

(** [array.some]: stops at the first element that satisfies the test. *)
Fixpoint csome {A} (f : A -> Cached bool) (l : list A) : Cached bool :=
  match l with
  | [] => cret false
  | x :: l' => let! b := f x in if b then cret true else csome f l'
  end.

(** ** Token tiers *)

Definition BILLING_PRICING_VARS : list BillingVar :=
  List.filter (fun v => negb (bv_isConditionOnly v)) BILLING_VARS.

Definition BILLING_VAR_KEY_TO_FIELD : list (str * str) :=
  map (fun v => (bv_key v, default [] (bv_field v))) BILLING_PRICING_VARS.

(** The index signature of [ParsedTier] holds the prices by field name. *)
Record ParsedTier := MkParsedTier {
  pd_billingUnit : option BillingUnit;
  pd_fixedPrice : option num;
  pd_conditionText : option str;
  pd_label : str;
  pd_imageCount : bool;
  pd_conditions : list TokenTierCondition;
  pd_prices : list (str * num)
}.

Definition mapTokenTier (tier : TokenTier) : ParsedTier :=
  let fixed := bool_decide (tt_billingUnit tier = Some unit_request) in
  MkParsedTier
    (if fixed then tt_billingUnit tier else None)
    (if fixed then tt_fixedPrice tier else None)
    (match tt_conditionText tier with Some (c :: t) => Some (c :: t) | _ => None end)
    (tt_label tier)
    (default false (tt_imageCount tier))
    (tt_conditions tier)
    (obj_from_entries
       (map (fun e => (default (js "undefined") (assoc_str BILLING_VAR_KEY_TO_FIELD e.1), e.2))
          (tt_prices tier))).

Definition map_time_tier (t : TimeTokenTier) : ParsedTier := mapTokenTier (ti_tier t).

Section Readers.
Context `{JSHost}.

Definition parseTiersFromExpr (exprStr : str) : Cached (list ParsedTier) :=
  match exprStr with
  | [] => cret []
  | _ =>
      let! compiled := compiled_of exprStr in
      match compiled with
      | Failed _ => cret []
      | Ready c =>
          match readTokenTierChain (compiled_ast c) with
          | Some canonical => cret (map mapTokenTier canonical)
          | None =>
              let! timed := from_expression (fun cache => readTimeTokenPricing cache exprStr None) in
              cret (match timed with Some (tiers, _) => map map_time_tier tiers | None => [] end)
          end
      end
  end.

Definition getCurrentTimePricingTiers (exprStr : str) (now : Date)
  : Cached (option (list ParsedTier)) :=
  let! timed := from_expression (fun cache => readTimeTokenPricing cache exprStr (Some now)) in
  cret (match timed with
        | Some (_, currentTiers) => Some (map map_time_tier currentTiers)
        | None => None
        end).
End Readers.

(** ** Task tiers *)

Definition split_rules (expr : str) : Cached SplitExpr :=
  from_json (fun cache => splitBillingExprAndRequestRules cache expr).

Definition parseTaskTiersFromExpr (exprStr : str) (schema : option BillingUsageSchema)
    (includeBooleanConditions : bool) : Cached (list TaskTier) :=
  match exprStr, schema with
  | [], _ | _, None | _, Some [] => cret []
  | _, Some schema =>
      let! split := split_rules exprStr in
      let! compiled := compiled_of (billingExpr split) in
      match compiled with
      | Failed _ => cret []
      | Ready c =>
          cret (default [] (readTaskTierChain (compiled_ast c) schema includeBooleanConditions))
      end
  end.

(** ** Labels *)

(** The fullwidth equals sign also follows a comparison sign. *)
Definition is_equals_sign (c : N) : bool := (c =? 61)%N || (c =? 65309)%N.

(** [s.replaceAll(/a[=]?|b|c[=]?/g, out)] for the signs [a], [b] and [c]. *)
Fixpoint replace_signs (a b c out : N) (s : str) : str :=
  match s with
  | [] => []
  | x :: s' =>
      if (x =? a)%N || (x =? c)%N then
        match s' with
        | y :: s'' =>
            if is_equals_sign y then out :: replace_signs a b c out s''
            else out :: replace_signs a b c out s'
        | [] => [out]
        end
      else if (x =? b)%N then out :: replace_signs a b c out s'
      else x :: replace_signs a b c out s'
  end.

Definition normalizeTierLabel `{JSHost} (label : option str) : str :=
  match label with
  | None | Some [] => []
  | Some label =>
      let less := replace_signs 60 8804 65308 60 label in
      let signs := replace_signs 62 8805 65310 62 less in
      toLowerCase (List.filter (fun c => negb (is_space c)) signs)
  end.

(** ** The row a settlement hit *)

Inductive BreakdownTier :=
| TokenRow (t : ParsedTier)
| TaskRow (t : TaskTier).

Definition row_label (t : BreakdownTier) : str :=
  match t with TokenRow t => pd_label t | TaskRow t => kt_label t end.

(** Usage facts are strings or numbers. *)
Inductive Fact := FactText (s : str) | FactNumber (n : num).
Definition fact_string (f : Fact) : str :=
  match f with FactText s => s | FactNumber n => string_of_num n end.

Section Breakdown.
Context `{JSHost}.

Definition tierMatchesNormalizedLabel (tier : BreakdownTier) (normalized : str) : bool :=
  negb (str_eqb normalized []) &&
  str_eqb (normalizeTierLabel (Some (row_label tier))) normalized.

(** [false] when the charge of the settlement excludes the row. *)
Definition charge_possible (tier : BreakdownTier) (billingUnit : option BillingUnit)
    (fixedPrice : option num) : bool :=
  match tier, billingUnit with
  | TokenRow t, Some unit =>
      bool_decide (default unit_token (pd_billingUnit t) = unit) &&
      (negb (bool_decide (unit = unit_request)) ||
       match fixedPrice with
       | None => true
       | Some x => match pd_fixedPrice t with Some y => num_eqb y x | None => false end
       end)
  | _, _ => true
  end.

(** Token conditions have no field, so they never match facts. *)
Definition facts_match (tier : BreakdownTier) (facts : list (str * Fact)) : bool :=
  match tier with
  | TokenRow _ => false
  | TaskRow t =>
      match kt_conditions t with
      | [] => false
      | conditions =>
          forallb (fun c =>
            match assoc_str facts (kc_field c) with
            | Some fact => str_eqb (fact_string fact) (kc_value c)
            | None => false
            end) conditions
      end
  end.

Definition isBreakdownTierMatched (tier : BreakdownTier) (tiers : list BreakdownTier)
    (matchedTierLabel : option str) (usageFacts : option (list (str * Fact)))
    (billingUnit : option BillingUnit) (fixedPrice : option num) : bool :=
  if negb (charge_possible tier billingUnit fixedPrice) then false
  else
    let normalized := normalizeTierLabel matchedTierLabel in
    if tierMatchesNormalizedLabel tier normalized then true
    else if existsb (fun candidate => tierMatchesNormalizedLabel candidate normalized) tiers then false
    else match usageFacts with None => false | Some facts => facts_match tier facts end.
End Breakdown.
