(* ===== verification/TaskExpr.v ===== *)
(** * Task pricing: the visual editor and its expressions

    Models [features/pricing/lib/task-expr.ts] and
    [task-matrix-display.ts]: the price matrix of a task model, the
    expression generated from it, its reading back, and the preview of a
    price for sample usage.  Field names are ordered by the host's collation. *)

From Stdlib Require Import ZArith Lia Bool SpecFloat.
From stdpp Require Import base list numbers.
From S2P Require Import Prelude JsString JsNumber JsValue JsHost JsObject ExprTypes ExprCompile ExprRuntime ExprDisplay RequestRules PricingTiers.

Definition TASK_TOKEN_PRICE_SCALE : num := lit 1000000.

(** [TaskVisualTier] has the fields of a parsed task tier. *)
Definition TaskVisualTier : Type := TaskTier.
Definition TaskVisualConfig : Type := list TaskVisualTier.

Record TaskMatrixRow := MkMatrixRow {
  mr_combination : list (str * str);
  mr_constant : num;
  mr_unitPrices : list (str * num)
}.
Definition TaskMatrixConfig : Type := list TaskMatrixRow.

Inductive TaskPreviewPart :=
| ConstantPart (amount : num)
| UsagePart (field : str) (amount quantity unitPrice : num).

Record TaskPreviewResult := MkTaskPreview {
  tp_tier : TaskVisualTier;
  tp_total : num;
  tp_parts : list TaskPreviewPart
}.

Definition UsageField : Type := str * BillingUsageFieldSchema.

(** [Boolean(definition.unit)] *)
Definition has_unit (d : BillingUsageFieldSchema) : bool :=
  match fs_unit d with Some (_ :: _) => true | _ => false end.

Definition is_token_unit (d : BillingUsageFieldSchema) : bool :=
  bool_decide (fs_unit d = Some (js "token")).

Section Task.
Context `{Collation}.

Definition by_key {A} (l r : str * A) : Z := localeCompare l.1 r.1.

Definition getTaskNumberFields (schema : option BillingUsageSchema) : list UsageField :=
  match schema with
  | None => []
  | Some schema =>
      sort_by by_key
        (List.filter (fun e => bool_decide (fs_type e.2 = Some field_number) && has_unit e.2) schema)
  end.

Definition getTaskEnumFields (schema : option BillingUsageSchema) : list UsageField :=
  match schema with
  | None => []
  | Some schema =>
      sort_by by_key
        (List.filter (fun e => match fs_enum e.2 with Some (_ :: _) => true | _ => false end) schema)
  end.

(** One round of the outer loop: every combination with every value. *)
Definition extend_combinations (combinations : list (list (str * str))) (f : UsageField)
  : list (list (str * str)) :=
  concat (map (fun combination =>
    map (fun value => obj_put combination f.1 value) (default [] (fs_enum f.2))) combinations).

Definition getTaskEnumCombinations (schema : option BillingUsageSchema) : list (list (str * str)) :=
  fold_left extend_combinations (getTaskEnumFields schema) [[]].

Definition createDefaultTaskVisualConfig (schema : BillingUsageSchema) : TaskVisualConfig :=
  [MkTaskTier (js "base") [] num_zero
     (obj_from_entries (map (fun f => (f.1, num_zero)) (getTaskNumberFields (Some schema))))].

Definition createDefaultTaskMatrixConfig (schema : BillingUsageSchema) : TaskMatrixConfig :=
  let unitPrices := obj_from_entries (map (fun f => (f.1, num_zero)) (getTaskNumberFields (Some schema))) in
  map (fun combination => MkMatrixRow combination num_zero unitPrices)
    (getTaskEnumCombinations (Some schema)).

(** The separator is the middle dot U+00B7. *)
Definition taskMatrixRowLabel (combination : list (str * str)) : str :=
  match map snd (sort_by by_key combination) with
  | [] => js "base"
  | values => join [183%N] values
  end.

(** [row.unitPrices[field] === firstRow.unitPrices[field]] *)
Definition same_price (a b : option num) : bool :=
  match a, b with
  | Some x, Some y => num_eqb x y
  | None, None => true
  | _, _ => false
  end.

Definition row_prices (fields : list UsageField) (prices : list (str * num)) : list (str * num) :=
  obj_from_entries (map (fun f => (f.1, default num_zero (assoc_str prices f.1))) fields).

Definition combination_conditions (combination : list (str * str)) : list TaskCondition :=
  map (fun e => MkTaskCondition e.1 e.2) (sort_by by_key combination).

(** [config.rows.map]: every row but the last keeps its conditions. *)
Fixpoint matrix_tiers (fields : list UsageField) (rows : list TaskMatrixRow) : list TaskVisualTier :=
  match rows with
  | [] => []
  | row :: rest =>
      MkTaskTier (taskMatrixRowLabel (mr_combination row))
        (match rest with [] => [] | _ => combination_conditions (mr_combination row) end)
        (mr_constant row) (row_prices fields (mr_unitPrices row)) :: matrix_tiers fields rest
  end.

Definition taskMatrixToTiers (config : TaskMatrixConfig) (schema : BillingUsageSchema)
  : list TaskVisualTier :=
  let numberFields := getTaskNumberFields (Some schema) in
  match numberFields, config with
  | [], _ | _, [] => []
  | _, firstRow :: _ =>
      let isUniform :=
        forallb (fun row =>
          num_eqb (mr_constant row) (mr_constant firstRow) &&
          forallb (fun f => same_price (assoc_str (mr_unitPrices row) f.1)
                              (assoc_str (mr_unitPrices firstRow) f.1)) numberFields) config in
      if isUniform then
        [MkTaskTier (js "base") [] (mr_constant firstRow)
           (row_prices numberFields (mr_unitPrices firstRow))]
      else matrix_tiers numberFields config
  end.

(** [tiers.at(-1)] *)
Definition at_last {A} (l : list A) : option A := list.last l.

(** [fields.size === tier.conditions.length] *)
Definition distinct_fields (t : TaskVisualTier) : bool :=
  bool_decide (NoDup (map kc_field (kt_conditions t))).

(** [combination[condition.field] === condition.value] *)
Definition combination_matches (combination : list (str * str)) (t : TaskVisualTier) : bool :=
  forallb (fun c => bool_decide (assoc_str combination (kc_field c) = Some (kc_value c)))
    (kt_conditions t).

Definition matrix_rows (schema : BillingUsageSchema) (tiers : list TaskVisualTier)
    (fallbackTier : TaskVisualTier) : TaskMatrixConfig :=
  let numberFields := getTaskNumberFields (Some schema) in
  map (fun combination =>
    let tier := default fallbackTier (List.find (combination_matches combination) tiers) in
    MkMatrixRow combination (kt_constant tier) (row_prices numberFields (kt_unitPrices tier)))
    (getTaskEnumCombinations (Some schema)).

Definition tryParseTaskMatrixConfig (expression : str) (schema : BillingUsageSchema)
  : Cached (option TaskMatrixConfig) :=
  match expression with
  | [] => cret None
  | _ =>
      let! tiers := parseTaskTiersFromExpr expression (Some schema) false in
      cret (match at_last tiers with
            | None => None
            | Some fallbackTier =>
                match kt_conditions fallbackTier with
                | _ :: _ => None
                | [] =>
                    if forallb distinct_fields tiers
                    then Some (matrix_rows schema tiers fallbackTier) else None
                end
            end)
  end.

(** *** Normalising a configuration *)

(** [Number.isFinite(value) && value >= 0 ? value : 0] *)
Definition usable_price (value : num) : num :=
  if is_finite value && num_leb num_zero value then value else num_zero.

Definition normal_price (prices : list (str * num)) (field : str) : num :=
  usable_price (default S754_nan (assoc_str prices field)).

Definition allowed_condition (enumFields : list UsageField) (c : TaskCondition) : bool :=
  match assoc_str enumFields (kc_field c) with
  | Some d => includes_str (default [] (fs_enum d)) (kc_value c)
  | None => false
  end.

Definition normal_label (index : nat) (label : str) : str :=
  match label with
  | [] => if index =? 0 then js "base" else js "tier_" ++ string_of_nat (index + 1)
  | _ => label
  end.

Definition normal_tier (numberFields enumFields : list UsageField) (index : nat)
    (tier : TaskVisualTier) : TaskVisualTier :=
  MkTaskTier (normal_label index (kt_label tier))
    (List.filter (allowed_condition enumFields) (kt_conditions tier))
    (usable_price (kt_constant tier))
    (obj_from_entries (map (fun f => (f.1, normal_price (kt_unitPrices tier) f.1)) numberFields)).

Definition normalizeTaskVisualConfig (config : option TaskVisualConfig)
    (schema : BillingUsageSchema) : TaskVisualConfig :=
  match config with
  | None | Some [] => createDefaultTaskVisualConfig schema
  | Some tiers =>
      imap (normal_tier (getTaskNumberFields (Some schema)) (getTaskEnumFields (Some schema))) tiers
  end.

(** *** Generating an expression *)

Definition usage_call (field : str) : str := js "u(" ++ json_stringify field ++ js ")".

Definition generateTaskTierBody (tier : TaskVisualTier) (numberFields : list UsageField) : str :=
  join (js " + ")
    ((if num_ltb num_zero (kt_constant tier) then [string_of_num (kt_constant tier)] else []) ++
     map (fun f =>
       let price := default num_zero (assoc_str (kt_unitPrices tier) f.1) in
       usage_call f.1 ++ js " * " ++ string_of_num price ++
       (if is_token_unit f.2 then js " / " ++ string_of_num TASK_TOKEN_PRICE_SCALE else []))
       numberFields).

Definition generateTaskTierCall (tier : TaskVisualTier) (numberFields : list UsageField) : str :=
  js "tier(" ++ json_stringify (kt_label tier) ++ js ", " ++
  generateTaskTierBody tier numberFields ++ js ")".

Definition generateTaskCondition (conditions : list TaskCondition) : str :=
  join (js " && ")
    (map (fun c => usage_call (kc_field c) ++ js " == " ++ json_stringify (kc_value c)) conditions).

(** The [for] loop; [None] is the early return of the empty string. *)
Fixpoint task_parts (numberFields : list UsageField) (tiers : list TaskVisualTier)
  : option (list str) :=
  match tiers with
  | [] => Some []
  | tier :: rest =>
      let call := generateTaskTierCall tier numberFields in
      match rest with
      | [] => Some [call]
      | _ =>
          match generateTaskCondition (kt_conditions tier) with
          | [] => None
          | condition =>
              parts ← task_parts numberFields rest;
              Some ((condition ++ js " ? " ++ call) :: parts)
          end
      end
  end.

Definition generateTaskExprFromConfig (config : option TaskVisualConfig)
    (schema : BillingUsageSchema) : str :=
  match getTaskNumberFields (Some schema) with
  | [] => []
  | numberFields =>
      match normalizeTaskVisualConfig config schema with
      | [tier] => generateTaskTierCall tier numberFields
      | tiers => default [] (join (js " : ") <$> task_parts numberFields tiers)
      end
  end.

Definition tryParseTaskVisualConfig (expression : str) (schema : BillingUsageSchema)
  : Cached (option TaskVisualConfig) :=
  match expression with
  | [] => cret None
  | _ =>
      let! tiers := parseTaskTiersFromExpr expression (Some schema) false in
      cret (match tiers with
            | [] => None
            | _ => Some (normalizeTaskVisualConfig (Some tiers) schema)
            end)
  end.
End Task.

(** ** Preview *)

(** [Number(sample[field])] *)
Definition sample_number (sample : list (str * Fact)) (field : str) : num :=
  match assoc_str sample field with
  | Some (FactNumber n) => n
  | Some (FactText s) => js_Number s
  | None => S754_nan
  end.

(** [sample[condition.field] === condition.value] *)
Definition sample_matches (sample : list (str * Fact)) (c : TaskCondition) : bool :=
  match assoc_str sample (kc_field c) with
  | Some (FactText s) => str_eqb s (kc_value c)
  | _ => false
  end.

Definition matched_tier (config : TaskVisualConfig) (fallback : TaskVisualTier)
    (sample : list (str * Fact)) : TaskVisualTier :=
  default fallback
    (List.find (fun tier => forallb (sample_matches sample) (kt_conditions tier))
       (take (length config - 1) config)).

Definition token_scaled (schema : option BillingUsageSchema) (field : str) : bool :=
  match schema with
  | Some s => match assoc_str s field with Some d => is_token_unit d | None => false end
  | None => false
  end.

Definition nonnegative (x : num) : bool := is_finite x && negb (num_ltb x num_zero).

(** The loop over the unit prices; [None] is the early [return null]. *)
Fixpoint usage_parts (schema : option BillingUsageSchema) (sample : list (str * Fact))
    (prices : list (str * num)) : option (list TaskPreviewPart) :=
  match prices with
  | [] => Some []
  | (field, unitPrice) :: rest =>
      if negb (nonnegative unitPrice) then None
      else if num_eqb unitPrice num_zero then usage_parts schema sample rest
      else
        let quantity := sample_number sample field in
        if negb (nonnegative quantity) then None
        else
          let amount :=
            if token_scaled schema field
            then num_div (num_mul quantity unitPrice) TASK_TOKEN_PRICE_SCALE
            else num_mul quantity unitPrice in
          if negb (is_finite amount) then None
          else parts ← usage_parts schema sample rest;
               Some (UsagePart field amount quantity unitPrice :: parts)
  end.

Definition preview_term (schema : option BillingUsageSchema) (part : TaskPreviewPart) : list str :=
  match part with
  | UsagePart (c :: f) _ _ unitPrice =>
      [usage_call (c :: f) ++ js " * " ++ string_of_num unitPrice ++
       (if token_scaled schema (c :: f) then js " / 1000000" else [])]
  | _ => []
  end.

Definition fact_value (f : Fact) : jsval :=
  match f with FactText s => JStr s | FactNumber n => JNum n end.

Definition normalized_usage (sample : list (str * Fact)) (parts : list TaskPreviewPart)
  : list (str * jsval) :=
  fold_left (fun usage part =>
    match part with
    | UsagePart (c :: f) _ quantity _ => obj_put usage (c :: f) (JNum quantity)
    | _ => usage
    end) parts (map (fun e => (e.1, fact_value e.2)) sample).

Definition preview_expression (schema : option BillingUsageSchema) (tier : TaskVisualTier)
    (parts : list TaskPreviewPart) : str :=
  js "tier(" ++ json_stringify (kt_label tier) ++ js ", " ++
  join (js " + ") (string_of_num (kt_constant tier) :: concat (map (preview_term schema) parts)) ++
  js ")".

Definition evaluateTaskVisualConfig `{JSHost} (config : TaskVisualConfig)
    (sample : list (str * Fact)) (schema : option BillingUsageSchema)
  : Cached (option TaskPreviewResult) :=
  match at_last config with
  | None => cret None
  | Some fallback =>
      let tier := matched_tier config fallback sample in
      let constant := kt_constant tier in
      if negb (nonnegative constant) then cret None
      else
        match usage_parts schema sample (kt_unitPrices tier) with
        | None => cret None
        | Some usage =>
            let parts := (if num_ltb num_zero constant then [ConstantPart constant] else []) ++ usage in
            let! result := fun cache =>
              let '(r, cache') :=
                evaluateBillingExpression cache (preview_expression schema tier parts)
                  (MkContext None None None (Some (normalized_usage sample parts)) None) in
              (Ok r, cache') in
            cret (match result with
                  | EvalSuccess r => Some (MkTaskPreview tier (cost r) parts)
                  | EvalFailure _ => None
                  end)
        end
  end.

Record BillingUsageExample := MkExample { ex_label : str; ex_facts : list (str * Fact) }.

Definition evaluateTaskUsageExamples `{JSHost, Collation} (expression : option str)
    (schema : option BillingUsageSchema) (examples : list BillingUsageExample)
  : Cached (list (str * num)) :=
  match expression, schema, examples with
  | None, _, _ | Some [], _, _ | _, None, _ | _, _, [] => cret []
  | Some expression, Some schema, _ =>
      let! split := split_rules expression in
      let! config := tryParseTaskVisualConfig (billingExpr split) schema in
      match config with
      | None => cret []
      | Some config =>
          let! rows := cmap (fun example =>
            let! result := evaluateTaskVisualConfig config (ex_facts example) (Some schema) in
            cret (match result with Some r => [(ex_label example, tp_total r)] | None => [] end))
            examples in
          cret (concat rows)
      end
  end.

(** ** task-matrix-display.ts *)

Section MatrixDisplay.
Context `{Collation}.

Definition getTaskMatrixDisplayTiers (expression : str) (schema : option BillingUsageSchema)
  : Cached (option (list TaskTier)) :=
  match schema with
  | None => cret None
  | Some schema =>
      match getTaskEnumFields (Some schema) with
      | [] => cret None
      | _ =>
          let! matrix := tryParseTaskMatrixConfig expression schema in
          cret (rows ← matrix;
                Some (map (fun row =>
                  MkTaskTier (taskMatrixRowLabel (mr_combination row))
                    (combination_conditions (mr_combination row))
                    (mr_constant row) (mr_unitPrices row)) rows))
      end
  end.
End MatrixDisplay.

(** [array.sort()]: code unit order. *)
Definition sort_strings : list str -> list str :=
  sort_by (fun a b => if str_ltb a b then (-1)%Z else if str_ltb b a then 1%Z else 0%Z).

Definition field_values (d : option BillingUsageFieldSchema) : option (list str) :=
  match d with
  | Some d =>
      if bool_decide (fs_type d = Some field_boolean) then Some [js "false"; js "true"]
      else fs_enum d
  | None => None
  end.

(** The loop over the fields; [None] is the early [return tiers]. *)
Fixpoint condition_combinations (schema : BillingUsageSchema) (fields : list str)
    (combinations : list (list TaskCondition)) : option (list (list TaskCondition)) :=
  match fields with
  | [] => Some combinations
  | field :: rest =>
      match field_values (assoc_str schema field) with
      | None | Some [] => None
      | Some values =>
          if 256 <? length combinations * length values then None
          else
            condition_combinations schema rest
              (concat (map (fun combination =>
                 map (fun value => combination ++ [MkTaskCondition field value]) values)
                 combinations))
      end
  end.

Definition tier_covers (tier : TaskTier) (combination : list TaskCondition) : bool :=
  forallb (fun c =>
    existsb (fun v => str_eqb (kc_field v) (kc_field c) && str_eqb (kc_value v) (kc_value c))
      combination) (kt_conditions tier).

Definition display_tiers (schema : BillingUsageSchema) (tiers : list TaskTier) : list TaskTier :=
  match at_last tiers with
  | None => tiers
  | Some fallback =>
      if length tiers <? 2 then tiers
      else
        let previous := take (length tiers - 1) tiers in
        let fields := sort_strings (fold_left set_add (concat (map (fun t => map kc_field (kt_conditions t)) previous)) []) in
        match condition_combinations schema fields [[]] with
        | None => tiers
        | Some combinations =>
            match List.filter (fun c => negb (existsb (fun t => tier_covers t c) previous)) combinations with
            | [remaining] =>
                previous ++ [MkTaskTier (kt_label fallback) remaining (kt_constant fallback)
                               (kt_unitPrices fallback)]
            | _ => tiers
            end
        end
  end.

Definition getTaskPricingDisplayTiers (expression : str) (schema : option BillingUsageSchema)
  : Cached (list TaskTier) :=
  let! tiers := parseTaskTiersFromExpr expression schema true in
  cret (match schema with None => tiers | Some schema => display_tiers schema tiers end).
