(* ===== verification/TaskExprFacts.v ===== *)
(** * The task price editor, proved

    The expression generated from a task price configuration is accepted by
    the compiler and read back as the configuration. *)

From Stdlib Require Import ZArith Lia Bool SpecFloat.
From stdpp Require Import base list numbers.
From S2P Require Import Prelude JsString JsNumber JsNumberFacts JsNumberOrder JsValue JsHost JsObject JsJson ExprTypes ExprParser ExprParserFacts ExprCompile ExprCompileFacts ExprRuntime ExprStructure ExprStructureFacts ExprPrint ExprGrammar ExprAccept ExprDisplay RequestRules PricingTiers TaskExpr.

(** ** Tokens and trees of the generated text *)

Definition usage_toks (sp : bool) (f : str) : list spelled := call_toks sp (js "u") [(false, TkStr f)].
Definition text_node (s : str) : node := Literal (LStr s) None 0 0.
Definition usage_node (f : str) : node := Call (js "u") [text_node f] 0 0.

(** [u("field") * price], and its division by the token scale. *)
Definition product_toks (f : UsageField) (price : num) : list spelled :=
  usage_toks true f.1 ++ [(true, sym (js "*")); (true, number_tok price)].
Definition product_node (f : UsageField) (price : num) : node :=
  Binary (js "*") (usage_node f.1) (number_node price) 0 0.

Definition term_toks (f : UsageField) (price : num) : list spelled :=
  product_toks f price ++
  (if is_token_unit f.2 then [(true, sym (js "/")); (true, number_tok TASK_TOKEN_PRICE_SCALE)] else []).
Definition term_node (f : UsageField) (price : num) : node :=
  if is_token_unit f.2
  then Binary (js "/") (product_node f price) (number_node TASK_TOKEN_PRICE_SCALE) 0 0
  else product_node f price.

Definition price_of (t : TaskVisualTier) (f : UsageField) : num :=
  default num_zero (assoc_str (kt_unitPrices t) f.1).

(** The summands of a tier, as tokens and as trees. *)
Definition summands {A} (const : num -> A) (term : UsageField -> num -> A)
    (t : TaskVisualTier) (fields : list UsageField) : list A :=
  (if num_ltb num_zero (kt_constant t) then [const (kt_constant t)] else []) ++
  map (fun f => term f (price_of t f)) fields.

Definition on_chain {A} (chain : A -> list A -> A) (d : A) (l : list A) : A :=
  match l with [] => d | x :: l' => chain x l' end.

Definition body_toks (t : TaskVisualTier) (fields : list UsageField) : list spelled :=
  on_chain (chain_toks (js "+")) [] (summands (fun x => [(true, number_tok x)]) term_toks t fields).
Definition body_node (t : TaskVisualTier) (fields : list UsageField) : node :=
  on_chain (chain_node (js "+")) (number_node num_zero) (summands number_node term_node t fields).

Definition tier_toks (sp : bool) (t : TaskVisualTier) (fields : list UsageField) : list spelled :=
  call_toks sp (js "tier") (args2 [(false, TkStr (kt_label t))] (body_toks t fields)).
Definition tier_node (t : TaskVisualTier) (fields : list UsageField) : node :=
  Call (js "tier") [text_node (kt_label t); body_node t fields] 0 0.

(** [u("field") == "value"] and the conjunction of several. *)
Definition test_toks (sp : bool) (c : TaskCondition) : list spelled :=
  usage_toks sp (kc_field c) ++ [(true, sym (js "==")); (true, TkStr (kc_value c))].
Definition test_node (c : TaskCondition) : node :=
  Binary (js "==") (usage_node (kc_field c)) (text_node (kc_value c)) 0 0.

Definition tests_toks (sp : bool) (cs : list TaskCondition) : list spelled :=
  match cs with
  | [] => []
  | c :: cs' => chain_toks (js "&&") (test_toks sp c) (map (test_toks true) cs')
  end.
Definition tests_node (cs : list TaskCondition) : node :=
  match map test_node cs with
  | [] => number_node num_zero
  | n :: ns => chain_node (js "&&") n ns
  end.

Fixpoint config_toks (sp : bool) (fields : list UsageField) (tiers : list TaskVisualTier) : list spelled :=
  match tiers with
  | [] => []
  | [t] => tier_toks sp t fields
  | t :: rest =>
      cond_toks (tests_toks sp (kt_conditions t)) (tier_toks true t fields) (config_toks true fields rest)
  end.
Fixpoint config_node (fields : list UsageField) (tiers : list TaskVisualTier) : node :=
  match tiers with
  | [] => number_node num_zero
  | [t] => tier_node t fields
  | t :: rest => Conditional (tests_node (kt_conditions t)) (tier_node t fields) (config_node fields rest) 0 0
  end.

(** ** Derivations *)

Section Derive.
Variable d : nat.
Hypothesis small : d < 120.

Lemma operand_text m sp s : operand d m [(sp, TkStr s)] (text_node s).
Proof. eapply (operand_of_lead _ _ m); [lia|lia|]. apply lead_str. Qed.

Lemma operand_num m sp x : operand d m [(sp, number_tok x)] (number_node x).
Proof. eapply (operand_of_lead _ _ m); [lia|lia|]. apply lead_number. Qed.
End Derive.

Lemma lead_usage d m k sp f : d < 120 -> lead d m k (usage_toks sp f) (usage_node f).
Proof.
  intros Hd. apply lead_prim. intros rest _. apply prim_call1; [done|done|]. by apply operand_text.
Qed.

Lemma lead_product d m f price : d < 120 -> m <= 6 -> lead d m 7 (product_toks f price) (product_node f price).
Proof.
  intros Hd Hm. eapply (lead_op d m 7 _ _ _ _ 6); [by apply lead_usage|done|lia|lia|done|by apply operand_num].
Qed.

Lemma lead_term d m f price : d < 120 -> m <= 6 -> lead d m 7 (term_toks f price) (term_node f price).
Proof.
  intros Hd Hm. unfold term_toks, term_node. destruct (is_token_unit f.2).
  - eapply (lead_op d m 7 _ _ _ _ 6); [by apply lead_product|done|lia|lia|done|by apply operand_num].
  - rewrite app_nil_r. by apply lead_product.
Qed.

Lemma map_Forall2 {A B C} (R : B -> C -> Prop) (f : A -> B) (g : A -> C) l :
  Forall (fun x => R (f x) (g x)) l -> Forall2 R (map f l) (map g l).
Proof. induction 1; constructor; done. Qed.

Lemma Forall_all {A} (P : A -> Prop) l : (forall x, P x) -> Forall P l.
Proof. intros H. by apply Forall_true. Qed.

(** The summands are operands of [+], the first one begins the body. *)
Lemma summand_operands d t fields :
  d < 110 ->
  Forall2 (operand d 6) (summands (fun x => [(true, number_tok x)]) term_toks t fields)
    (summands number_node term_node t fields).
Proof.
  intros Hd. unfold summands. apply Forall2_app.
  - destruct (num_ltb _ _); repeat constructor. apply operand_num; lia.
  - apply map_Forall2, Forall_all. intros f.
    apply (operand_of_lead d 6 7); [lia|lia|]. apply lead_term; lia.
Qed.

Lemma summand_leads d t fields :
  d < 120 ->
  Forall2 (lead d 0 7) (summands (fun x => [(true, number_tok x)]) term_toks t fields)
    (summands number_node term_node t fields).
Proof.
  intros Hd. unfold summands. apply Forall2_app.
  - destruct (num_ltb _ _); repeat constructor. apply lead_number.
  - apply map_Forall2, Forall_all. intros f. apply lead_term; lia.
Qed.

Lemma summands_nonempty {A} const (term : UsageField -> num -> A) t fields :
  fields <> [] -> summands const term t fields <> [].
Proof. unfold summands. destruct fields; [done|]. by destruct (num_ltb _ _). Qed.

Lemma operand_body d t fields :
  fields <> [] -> d < 105 -> operand d 0 (body_toks t fields) (body_node t fields).
Proof.
  intros Hf Hd. apply (operand_of_lead d 0 6); [lia|lia|]. unfold body_toks, body_node.
  pose proof (summand_operands (S d) t fields ltac:(lia)) as O.
  pose proof (summand_leads (S d) t fields ltac:(lia)) as L.
  inversion O as [E E'|ts n tss ns O1 O2 E E'].
  { symmetry in E. by apply summands_nonempty in E. }
  rewrite <- E, <- E' in L. inversion L; subst. cbn [on_chain].
  by apply (lead_chain (S d) 0 7 (js "+") 5); [done|lia|lia|done|..].
Qed.

(** *** Configurations that can be written *)

Record writable_tier (fields : list UsageField) (t : TaskVisualTier) : Prop := {
  wt_label : forallb is_unit (kt_label t) = true;
  wt_constant : writable (kt_constant t);
  wt_prices : Forall (fun f => writable (price_of t f)) fields;
  wt_conditions : Forall (fun c => forallb is_unit (kc_field c) = true /\
                                   forallb is_unit (kc_value c) = true) (kt_conditions t)
}.

Definition writable_tierb (fields : list UsageField) (t : TaskVisualTier) : bool :=
  forallb is_unit (kt_label t) && writableb (kt_constant t) &&
  forallb (fun f => writableb (price_of t f)) fields &&
  forallb (fun c => forallb is_unit (kc_field c) && forallb is_unit (kc_value c)) (kt_conditions t).

Lemma writable_tierb_spec fields t : writable_tierb fields t = true -> writable_tier fields t.
Proof.
  unfold writable_tierb. intros H. apply andb_true_iff in H as [H C]. apply andb_true_iff in H as [H P].
  apply andb_true_iff in H as [L K]. rewrite forallb_forall in P, C.
  split; [done|by apply writableb_spec| |]; apply Forall_forall.
  - intros f Hf. by apply writableb_spec, P.
  - intros c Hc. by apply andb_true_iff, C.
Qed.

Lemma scale_writable : writable TASK_TOKEN_PRICE_SCALE.
Proof. split; [apply lit_canon|vm_compute; reflexivity..]. Qed.

Lemma number_opens sp x ts : writable x -> opens ((sp, number_tok x) :: ts) = true.
Proof.
  intros W. pose proof (number_tok_ok x W) as H. cbn [opens tok_ok tok_text number_tok] in *.
  apply number_head in H as (c & s & -> & Hc). apply negb_true_iff, str_eqb_neq. intros [= -> _].
  done.
Qed.

Lemma body_opens t fields : fields <> [] -> writable_tier fields t -> opens (body_toks t fields) = true.
Proof.
  intros Hf W. unfold body_toks, summands. destruct (num_ltb _ _) eqn:E; cbn [app].
  - cbn [on_chain chain_toks app]. apply number_opens, W.
  - by destruct fields as [|f fields].
Qed.

Lemma operand_tier d m sp t fields :
  fields <> [] -> writable_tier fields t -> d < 100 ->
  operand d m (tier_toks sp t fields) (tier_node t fields).
Proof.
  intros Hf W Hd. apply (operand_of_lead d m m); [lia|lia|]. apply lead_prim. intros rest _.
  apply prim_call2; [done|done|by apply body_opens|apply operand_text; lia|apply operand_body; [done|lia]].
Qed.

Lemma lead_test d m sp c : d < 110 -> m <= 3 -> lead d m 4 (test_toks sp c) (test_node c).
Proof.
  intros Hd Hm. apply (lead_op d m 7 _ _ _ _ 3); [apply lead_usage; lia|done|lia|lia|done|].
  apply operand_text; lia.
Qed.

Lemma lead_tests d sp cs : cs <> [] -> d < 100 -> lead d 0 3 (tests_toks sp cs) (tests_node cs).
Proof.
  intros Hc Hd. destruct cs as [|c cs]; [done|]. cbn [tests_toks tests_node map].
  apply (lead_chain d 0 4 (js "&&") 2); [done|lia|lia|done| |apply lead_test; lia].
  unfold tests_node. apply map_Forall2, Forall_all. intros e.
  apply (operand_of_lead d 3 4); [lia|lia|]. apply lead_test; lia.
Qed.

Definition is_nil {A} (l : list A) : bool := match l with [] => true | _ => false end.

(** Every tier but the last has a condition. *)
Fixpoint conditioned (tiers : list TaskVisualTier) : bool :=
  match tiers with
  | [] | [_] => true
  | t :: rest => negb (is_nil (kt_conditions t)) && conditioned rest
  end.

Lemma operand_config fields tiers : forall d sp,
  fields <> [] -> tiers <> [] -> Forall (writable_tier fields) tiers -> conditioned tiers = true ->
  d + length tiers < 100 -> operand d 0 (config_toks sp fields tiers) (config_node fields tiers).
Proof.
  induction tiers as [|t tiers IH]; intros d sp Hf Hn W C Hd; [done|].
  inversion W as [|? ? Wt Wr]; subst. destruct tiers as [|t' tiers].
  { apply operand_tier; [done..|]. cbn in Hd. lia. }
  cbn [config_toks config_node length conditioned] in *. apply andb_true_iff in C as [C C'].
  apply (operand_cond d 3); [lia| | |].
  - apply lead_tests; [by destruct (kt_conditions t)|lia].
  - apply operand_tier; [done..|lia].
  - apply IH; [done..|lia].
Qed.

(** ** Spelling *)

Lemma usage_spelled sp f :
  spell (usage_toks sp f) = (if sp : bool then [32%N] else []) ++ usage_call f.
Proof. unfold usage_toks. rewrite spell_call. cbn [spell tok_text]. by rewrite app_nil_r. Qed.

Lemma sound_usage sp f : forallb is_unit f = true -> sound (usage_toks sp f).
Proof. intros Hf. apply sound_call; [done|by apply sound_one|done]. Qed.

Lemma spaced_usage f ts : spaced (usage_toks true f ++ ts) = true.
Proof. done. Qed.

Definition summand_text (f : UsageField) (price : num) : str :=
  usage_call f.1 ++ js " * " ++ string_of_num price ++
  (if is_token_unit f.2 then js " / " ++ string_of_num TASK_TOKEN_PRICE_SCALE else []).

Lemma term_spelled f price : spell (term_toks f price) = 32%N :: summand_text f price.
Proof.
  unfold term_toks, product_toks, summand_text. rewrite !spell_app, usage_spelled.
  destruct (is_token_unit f.2); cbn [spell tok_text number_tok sym];
    rewrite ?app_nil_r, <- !app_assoc; done.
Qed.

Lemma sound_pair op t : tok_ok (sym op) = true -> tok_ok t = true -> sound [(true, sym op); (true, t)].
Proof. intros Ho Ht. apply sound_cons; [done|done|]. by apply sound_one. Qed.

Lemma sound_term f price :
  forallb is_unit f.1 = true -> writable price -> sound (term_toks f price).
Proof.
  intros Hf Hp. unfold term_toks, product_toks.
  assert (sound (usage_toks true f.1 ++ [(true, sym (js "*")); (true, number_tok price)])) as S.
  { apply sound_then; [by apply sound_usage|done|]. apply sound_pair; [done|by apply number_tok_ok]. }
  destruct (is_token_unit f.2); [|by rewrite app_nil_r].
  apply sound_then; [done|done|]. apply sound_pair; [done|apply number_tok_ok, scale_writable].
Qed.

Lemma body_spelled t fields :
  fields <> [] -> spell (body_toks t fields) = 32%N :: generateTaskTierBody t fields.
Proof.
  intros Hf. unfold body_toks, generateTaskTierBody.
  assert (Forall2 (fun e x => spell e = 32%N :: x)
    (summands (fun x => [(true, number_tok x)]) term_toks t fields)
    ((if num_ltb num_zero (kt_constant t) then [string_of_num (kt_constant t)] else []) ++
     map (fun f => summand_text f (price_of t f)) fields)) as F.
  { unfold summands. apply Forall2_app.
    - destruct (num_ltb _ _); repeat constructor. cbn. by rewrite app_nil_r.
    - apply map_Forall2, Forall_all. intros f. apply term_spelled. }
  inversion F as [E E'|ts x tss xs F1 F2 E E'].
  { symmetry in E. by apply summands_nonempty in E. }
  cbn [on_chain]. rewrite (spell_chain _ _ _ [32%N] x xs) by done.
  change (js " " ++ js "+" ++ js " ") with (js " + "). by rewrite E'.
Qed.

Definition field_units (fields : list UsageField) : Prop :=
  Forall (fun f => forallb is_unit f.1 = true) fields.

Lemma sound_body t fields :
  field_units fields -> writable_tier fields t -> sound (body_toks t fields).
Proof.
  intros Hu W. unfold body_toks.
  assert (Forall (fun e => spaced e = true /\ sound e)
    (summands (fun x => [(true, number_tok x)]) term_toks t fields)) as F.
  { unfold summands. apply Forall_app. split.
    - destruct (num_ltb _ _); repeat constructor. apply sound_one, number_tok_ok, W.
    - apply Forall_map, Forall_forall. intros f Hf. split; [done|].
      apply sound_term; [by eapply Forall_forall in Hu|].
      destruct W as [_ _ P _]. by eapply Forall_forall in P. }
  destruct F as [|ts tss [Sp So] F]; [apply sound_nil|]. cbn [on_chain].
  by apply sound_chain.
Qed.

Lemma spaced_body t fields : fields <> [] -> spaced (body_toks t fields) = true.
Proof.
  intros Hf. unfold body_toks, summands. destruct (num_ltb _ _); [done|]. by destruct fields.
Qed.

Lemma tier_spelled sp t fields :
  fields <> [] ->
  spell (tier_toks sp t fields) = (if sp : bool then [32%N] else []) ++ generateTaskTierCall t fields.
Proof.
  intros Hf. unfold tier_toks, args2, generateTaskTierCall. rewrite spell_call, spell_app.
  cbn [spell tok_text sym]. rewrite body_spelled by done. cbn [app].
  rewrite <- !app_assoc. done.
Qed.

Lemma sound_tier sp t fields :
  fields <> [] -> field_units fields -> writable_tier fields t -> sound (tier_toks sp t fields).
Proof.
  intros Hf Hu W. apply sound_call; [done| |done].
  apply sound_args2; [apply sound_one, W|by apply spaced_body|by apply sound_body].
Qed.

Definition test_text (c : TaskCondition) : str :=
  usage_call (kc_field c) ++ js " == " ++ json_stringify (kc_value c).

Lemma test_spelled sp c :
  spell (test_toks sp c) = (if sp : bool then [32%N] else []) ++ test_text c.
Proof.
  unfold test_toks. rewrite spell_app, usage_spelled. cbn [spell tok_text sym].
  rewrite app_nil_r, <- !app_assoc. done.
Qed.

Lemma tests_spelled sp cs :
  cs <> [] ->
  spell (tests_toks sp cs) = (if sp : bool then [32%N] else []) ++ generateTaskCondition cs.
Proof.
  destruct cs as [|c cs]; [done|]. intros _. cbn [tests_toks].
  rewrite (spell_chain _ _ _ (if sp then [32%N] else []) (test_text c) (map test_text cs)).
  - done.
  - apply test_spelled.
  - apply map_Forall2, Forall_all. apply test_spelled.
Qed.

Lemma sound_tests sp cs :
  Forall (fun c => forallb is_unit (kc_field c) = true /\ forallb is_unit (kc_value c) = true) cs ->
  sound (tests_toks sp cs).
Proof.
  assert (forall sp c, forallb is_unit (kc_field c) = true /\ forallb is_unit (kc_value c) = true ->
    sound (test_toks sp c)) as S.
  { intros sp' c [Hf Hv]. apply sound_then; [by apply sound_usage|done|]. by apply sound_pair. }
  intros F. destruct F as [|c cs Hc F]; [apply sound_nil|]. apply sound_chain; [done|by apply S|].
  apply Forall_map. eapply Forall_impl; [|exact F]. intros e He. split; [done|]. by apply S.
Qed.

Lemma condition_text_nonempty cs : cs <> [] -> exists c r, generateTaskCondition cs = c :: r.
Proof.
  destruct cs as [|c [|c' cs]]; [done| |]; intros _; unfold generateTaskCondition;
    cbn [map join]; unfold usage_call; eexists _, _; rewrite <- !app_assoc; reflexivity.
Qed.

Lemma task_parts_nonempty fields t tiers : task_parts fields (t :: tiers) <> Some [].
Proof.
  destruct tiers as [|t' tiers]; [done|].
  change (task_parts fields (t :: t' :: tiers))
    with (match generateTaskCondition (kt_conditions t) with
          | [] => None
          | condition => parts ← task_parts fields (t' :: tiers);
              Some ((condition ++ js " ? " ++ generateTaskTierCall t fields) :: parts)
          end).
  destruct (generateTaskCondition _); [done|]. by destruct (task_parts fields (t' :: tiers)).
Qed.

Lemma config_spelled fields tiers : forall sp,
  fields <> [] -> tiers <> [] -> conditioned tiers = true ->
  exists parts, task_parts fields tiers = Some parts /\
    spell (config_toks sp fields tiers) = (if sp : bool then [32%N] else []) ++ join (js " : ") parts.
Proof.
  induction tiers as [|t tiers IH]; intros sp Hf Hn C; [done|].
  destruct tiers as [|t' tiers].
  { eexists. split; [reflexivity|]. cbn [config_toks join]. by apply tier_spelled. }
  cbn [conditioned] in C. apply andb_true_iff in C as [C C'].
  destruct (IH true Hf ltac:(done) C') as (parts & P & S).
  assert (kt_conditions t <> []) as Hc by (by destruct (kt_conditions t)).
  destruct (condition_text_nonempty _ Hc) as (c & r & E).
  exists ((generateTaskCondition (kt_conditions t) ++ js " ? " ++ generateTaskTierCall t fields) :: parts).
  split.
  - change (task_parts fields (t :: t' :: tiers))
      with (match generateTaskCondition (kt_conditions t) with
            | [] => None
            | condition => parts ← task_parts fields (t' :: tiers);
                Some ((condition ++ js " ? " ++ generateTaskTierCall t fields) :: parts)
            end).
    rewrite P, E. done.
  - change (config_toks sp fields (t :: t' :: tiers))
      with (cond_toks (tests_toks sp (kt_conditions t)) (tier_toks true t fields)
              (config_toks true fields (t' :: tiers))).
    unfold cond_toks. rewrite spell_app. cbn [spell]. rewrite spell_app. cbn [spell].
    rewrite tests_spelled, tier_spelled, S by done. cbn [tok_text sym].
    destruct parts as [|p parts].
    { by apply task_parts_nonempty in P. }
    rewrite join_cons, <- !app_assoc. done.
Qed.

Section Generated.
Context `{Collation}.

Lemma generate_text config schema :
  let fields := getTaskNumberFields (Some schema) in
  let tiers := normalizeTaskVisualConfig config schema in
  fields <> [] -> tiers <> [] -> conditioned tiers = true ->
  generateTaskExprFromConfig config schema = spell (config_toks false fields tiers).
Proof.
  intros fields tiers Hf Ht C. unfold generateTaskExprFromConfig. fold fields tiers.
  destruct (config_spelled fields tiers false Hf Ht C) as (parts & P & ->).
  clearbody fields tiers. destruct fields as [|f fields]; [done|].
  destruct tiers as [|t [|t' tiers]]; [done| |].
  - cbn [task_parts] in P. injection P as <-. done.
  - by rewrite P.
Qed.
End Generated.

Lemma spaced_tests cs : cs <> [] -> spaced (tests_toks true cs) = true.
Proof. by destruct cs. Qed.

Lemma spaced_config fields tiers : conditioned tiers = true -> tiers <> [] ->
  spaced (config_toks true fields tiers) = true.
Proof.
  destruct tiers as [|t [|t' tiers]]; [done..|]. cbn [conditioned config_toks]. intros C _.
  apply andb_true_iff in C as [C _]. unfold cond_toks.
  pose proof (spaced_tests (kt_conditions t)) as S.
  destruct (kt_conditions t) as [|c cs]; [done|]. specialize (S ltac:(done)).
  by destruct (tests_toks true (c :: cs)) as [|[[|] x] ts].
Qed.

Lemma sound_config fields tiers : forall sp,
  fields <> [] -> field_units fields -> tiers <> [] -> Forall (writable_tier fields) tiers ->
  conditioned tiers = true -> sound (config_toks sp fields tiers).
Proof.
  induction tiers as [|t tiers IH]; intros sp Hf Hu Hn W C; [done|].
  inversion W as [|? ? Wt Wr]; subst. destruct tiers as [|t' tiers]; [by apply sound_tier|].
  apply (andb_true_iff _ (conditioned (t' :: tiers))) in C as [C C'].
  apply (sound_cond _ _ (config_toks true fields (t' :: tiers)));
    [apply sound_tests, Wt|done|by apply sound_tier|by apply spaced_config|by apply IH].
Qed.

(** ** Typing *)

Lemma fine_usage D f : fine (S D) (usage_node f).
Proof.
  apply fine_node; [repeat constructor; apply fine_leaf| |done].
  cbn [usage_node typed_node]. split_and!; try done.
  intros _. exists (text_node f). split; [done|by left].
Qed.

Definition numeric (n : node) : Prop := accepts TNumber n /\ static_type n <> TString.

Lemma numeric_number x : numeric (number_node x).
Proof. split; [by left|done]. Qed.

Lemma typed_arith op l r :
  includes_str [js "+"; js "*"; js "/"] op = true -> numeric l -> numeric r ->
  typed_node (Binary op l r 0 0) /\ numeric (Binary op l r 0 0).
Proof.
  intros Ho%includes_str_elem [Al Nl] [Ar Nr].
  assert (static_type (Binary op l r 0 0) = TNumber) as E.
  { rewrite !elem_of_cons, elem_of_nil in Ho. cbn [static_type].
    rewrite (bool_decide_eq_false_2 (static_type l = TString)) by done.
    rewrite andb_false_r. cbn [andb].
    destruct Ho as [->|[->|[->|[]]]]; vm_compute; reflexivity. }
  split; [|split; [by left|by rewrite E]].
  cbn [typed_node]. change (Binary op l r 0 0) with (Binary op l r 0 0) in E.
  rewrite !elem_of_cons, elem_of_nil in Ho.
  destruct Ho as [->|[->|[->|[]]]]; by right.
Qed.

Lemma numeric_usage f : numeric (usage_node f).
Proof. split; [|done]. by right. Qed.

Lemma fine_arith D op l r :
  includes_str [js "+"; js "*"; js "/"] op = true -> numeric l -> numeric r -> fine D l -> fine D r ->
  fine (S D) (Binary op l r 0 0).
Proof.
  intros Ho Nl Nr Fl Fr. apply fine_node; [|by apply typed_arith|done].
  cbn [children]. constructor; [done|]. constructor; [done|constructor].
Qed.

Lemma fine_term f price : fine 3 (term_node f price) /\ numeric (term_node f price).
Proof.
  assert (fine 2 (product_node f price)) as F.
  { apply fine_arith; [done|apply numeric_usage|apply numeric_number|apply fine_usage|apply fine_leaf]. }
  assert (numeric (product_node f price)) as N.
  { apply typed_arith; [done|apply numeric_usage|apply numeric_number]. }
  unfold term_node. destruct (is_token_unit f.2).
  - split; [apply fine_arith|apply typed_arith]; try done; try apply numeric_number; try apply fine_leaf; done.
  - split; [|done]. eapply fine_le; [|done]. lia.
Qed.

Lemma fine_body t fields :
  fine (4 + length fields) (body_node t fields) /\ numeric (body_node t fields).
Proof.
  unfold body_node.
  assert (Forall (fun n => fine 3 n /\ numeric n) (summands number_node term_node t fields)) as F.
  { unfold summands. apply Forall_app. split.
    - destruct (num_ltb _ _); constructor; [split; [apply fine_leaf|apply numeric_number]|constructor].
    - apply Forall_map, Forall_all. intros f. apply fine_term. }
  assert (length (summands number_node term_node t fields) <= S (length fields)) as L.
  { unfold summands. rewrite length_app, length_map. destruct (num_ltb _ _); cbn; lia. }
  destruct F as [|n ns [Fn Nn] F]; cbn [on_chain length] in *.
  { split; [apply fine_leaf|apply numeric_number]. }
  destruct (fine_chain numeric (js "+") 3 n ns) as [G N]; [|done..|].
  { intros l r Hl Hr. apply typed_arith; [done|done..]. }
  split; [|done]. eapply fine_le; [|exact G]. lia.
Qed.

Lemma fine_tier t fields : fine (5 + length fields) (tier_node t fields).
Proof.
  destruct (fine_body t fields) as [F N]. apply fine_node; [|  |done].
  { cbn [children tier_node]. constructor; [apply fine_leaf|]. constructor; [done|constructor]. }
  cbn [tier_node typed_node]. split_and!; try done.
  intros _. split; [exists (text_node (kt_label t)); split; [done|by left]|].
  exists (body_node t fields). split; [done|]. apply N.
Qed.

Lemma fine_tests cs :
  cs <> [] -> fine (2 + length cs) (tests_node cs) /\ static_type (tests_node cs) = TBoolean.
Proof.
  intros Hc. unfold tests_node.
  assert (Forall (fun n => fine 2 n /\ static_type n = TBoolean) (map test_node cs)) as F.
  { apply Forall_map, Forall_all. intros c. split; [|done]. apply fine_node; [|done..].
    cbn [children test_node]. constructor; [apply fine_usage|]. constructor; [apply fine_leaf|constructor]. }
  destruct cs as [|c cs]; [done|]. cbn [map length] in *. inversion F as [|? ? [Fn Tn] F']; subst.
  destruct (fine_chain (fun n => static_type n = TBoolean) (js "&&") 2 (test_node c) (map test_node cs))
    as [G N]; [|done..|].
  { intros l r Hl Hr. split; [|done]. split; by left. }
  split; [|done]. eapply fine_le; [|exact G]. rewrite length_map. lia.
Qed.

Lemma fine_config fields tiers :
  tiers <> [] -> conditioned tiers = true -> length fields <= 120 ->
  Forall (fun t => length (kt_conditions t) <= 120) tiers ->
  fine (130 + length tiers) (config_node fields tiers).
Proof.
  intros Hn C Hf Hc. induction tiers as [|t tiers IH]; [done|].
  inversion Hc as [|? ? Ht Hr]; subst. destruct tiers as [|t' tiers].
  { eapply fine_le; [|apply fine_tier]. cbn. lia. }
  apply (andb_true_iff _ (conditioned (t' :: tiers))) in C as [C C'].
  destruct (fine_tests (kt_conditions t)) as [Fc Tc]; [by destruct (kt_conditions t)|].
  change (130 + length (t :: t' :: tiers)) with (S (130 + length (t' :: tiers))).
  apply (fine_node _ (Conditional _ _ (config_node fields (t' :: tiers)) 0 0)); [|by left|done].
  constructor; [eapply fine_le; [|exact Fc]; cbn; lia|].
  constructor; [eapply fine_le; [|apply fine_tier]; cbn; lia|].
  constructor; [by apply IH|constructor].
Qed.

(** ** Reading *)

(** *** Positions do not matter *)

Lemma erase_flatten n op : flattenBinary (erase n) op = map erase (flattenBinary n op).
Proof.
  induction n as [| | | |o l r s e IHl IHr|] using node_ind; try done. cbn [erase flattenBinary].
  destruct (str_eqb o op); [|done]. by rewrite IHl, IHr, map_app.
Qed.

Lemma erase_price n : nonnegativePriceLiteral (erase n) = nonnegativePriceLiteral n.
Proof. destruct n as [| | |o [| | | | |]| |]; done. Qed.

Lemma erase_task_condition schema b n : task_condition schema b (erase n) = task_condition schema b n.
Proof.
  destruct n as [| | | |o l r s e|]; try done.
  by destruct l as [| |f [|[] args] ? ?| | |], r.
Qed.

Lemma erase_usage n : usage_product (erase n) = usage_product n.
Proof.
  destruct n as [| | | |o l r s e|]; try done.
  destruct l as [| |f [|[] args] ? ?| | |]; try done. cbn [erase map usage_product].
  by rewrite erase_price.
Qed.

Lemma erase_scaled n :
  scaled_term (erase n) = option_map (fun p => (p.1, erase p.2)) (scaled_term n).
Proof.
  destruct n as [| | | |o l r s e|]; try done. cbn [erase scaled_term].
  destruct (str_eqb o (js "/")); [|done].
  assert (is_number_literal 1000000 (erase r) = is_number_literal 1000000 r) as -> by (by destruct r).
  by destruct (is_number_literal 1000000 r).
Qed.

Lemma erase_task_prices schema terms : forall constant prices,
  task_prices schema (map erase terms) constant prices = task_prices schema terms constant prices.
Proof.
  induction terms as [|t terms IH]; intros constant prices; [done|]. cbn [map task_prices].
  rewrite erase_price, erase_scaled. destruct (nonnegativePriceLiteral t).
  { destruct constant; [done|apply IH]. }
  destruct (scaled_term t) as [[scaled product]|]; [|done]. cbn [option_map fst snd].
  rewrite erase_usage. destruct (usage_product product) as [[field price]|]; [|done].
  destruct (assoc_str schema field) as [d|]; [|done].
  destruct (fs_type d) as [[]|], (fs_unit d), (assoc_str prices field); try done. by rewrite IH.
Qed.

Lemma erase_task_tier schema n cs : taskTier (erase n) cs schema = taskTier n cs schema.
Proof.
  destruct n as [| |f args s e| | |]; try done. destruct args as [|a [|b args]]; try done.
  { by destruct a as [[]| | | | |]. }
  destruct a as [[]| | | | |]; try done. cbn [erase map taskTier].
  by rewrite erase_flatten, erase_task_prices.
Qed.

Lemma erase_all_some {A} (f : node -> option A) l :
  (forall n, f (erase n) = f n) -> all_some f (map erase l) = all_some f l.
Proof. intros H. induction l as [|n l IH]; [done|]. cbn. by rewrite H, IH. Qed.

Lemma erase_task_chain n schema b : readTaskTierChain (erase n) schema b = readTaskTierChain n schema b.
Proof.
  induction n as [| |f args s e IH| | |c y n s e IHc IHy IHn] using node_ind;
    try (by cbn [erase readTaskTierChain]; rewrite <- erase_task_tier).
  - change (readTaskTierChain (erase (Call f args s e)) schema b)
      with (match taskTier (erase (Call f args s e)) [] schema with Some t => Some [t] | None => None end).
    by rewrite erase_task_tier.
  - cbn [erase readTaskTierChain]. unfold taskConditions.
    rewrite erase_flatten, erase_all_some by apply erase_task_condition.
    destruct (all_some _ _); [|done]. rewrite erase_task_tier, IHn. done.
Qed.

(** *** Reading the generated tree *)

Definition atomic (op : str) (n : node) : bool :=
  match n with Binary o _ _ _ _ => negb (str_eqb o op) | _ => true end.

Lemma flatten_atomic op n : atomic op n = true -> flattenBinary n op = [n].
Proof. destruct n; try done. cbn. by destruct (str_eqb _ op). Qed.

Lemma flatten_chain op n ns :
  Forall (fun x => atomic op x = true) (n :: ns) -> flattenBinary (chain_node op n ns) op = n :: ns.
Proof.
  intros F. apply Forall_cons_1 in F as [Hn F].
  assert (forall m, flattenBinary (chain_node op m ns) op = flattenBinary m op ++ ns) as G.
  { induction F as [|x ns Hx F IH]; intros m; [by rewrite app_nil_r|]. cbn [chain_node].
    rewrite IH. cbn [flattenBinary]. rewrite str_eqb_refl, (flatten_atomic op x) by done.
    by rewrite <- app_assoc. }
  by rewrite G, flatten_atomic.
Qed.

Record schema_ok (schema : BillingUsageSchema) : Prop := {
  so_keys : NoDup schema.*1;
  so_units : Forall (fun f : UsageField => forallb is_unit f.1 = true) schema;
  so_enums : Forall (fun f : UsageField =>
    fs_type f.2 = Some field_boolean -> fs_enum f.2 = None \/ fs_enum f.2 = Some []) schema
}.

Lemma filter_keys_NoDup {A} (p : str * A -> bool) (l : list (str * A)) :
  NoDup l.*1 -> NoDup (List.filter p l).*1.
Proof.
  induction l as [|f l IH]; [done|]. cbn. intros N.
  pose proof (NoDup_cons_1_1 _ _ N) as Nf. apply NoDup_cons_1_2 in N.
  destruct (p f); [|by apply IH]. cbn. constructor; [|by apply IH].
  intros (g & E & Hg)%list_elem_of_fmap. apply Nf. rewrite E.
  apply list_elem_of_fmap. exists g. split; [done|].
  apply list_elem_of_In in Hg. apply filter_In in Hg as [Hg _]. by apply list_elem_of_In.
Qed.

Section Reading.
Context `{Collation} (schema : BillingUsageSchema) (ok : schema_ok schema).
Let fields := getTaskNumberFields (Some schema).
Let enums := getTaskEnumFields (Some schema).

Lemma number_field f : f ∈ fields ->
  f ∈ schema /\ fs_type f.2 = Some field_number /\ has_unit f.2 = true.
Proof.
  unfold fields, getTaskNumberFields. rewrite sort_by_perm, list_elem_of_In.
  intros [Hf Hp]%filter_In. apply andb_true_iff in Hp as [Ht Hu]. apply bool_decide_eq_true in Ht.
  by rewrite list_elem_of_In.
Qed.

Lemma enum_field f : f ∈ enums -> f ∈ schema /\ fs_enum f.2 <> None /\ fs_enum f.2 <> Some [].
Proof.
  unfold enums, getTaskEnumFields. rewrite sort_by_perm, list_elem_of_In.
  intros [Hf Hp]%filter_In. rewrite list_elem_of_In. split; [done|].
  by destruct (fs_enum f.2) as [[|]|].
Qed.

Lemma fields_NoDup : NoDup fields.*1.
Proof.
  unfold fields, getTaskNumberFields. rewrite sort_by_perm. apply filter_keys_NoDup, ok.
Qed.

Lemma fields_units : field_units fields.
Proof.
  apply Forall_forall. intros f Hf%list_elem_of_In%number_field. destruct Hf as [Hf _].
  pose proof (so_units _ ok) as U. rewrite Forall_forall in U. by apply U, list_elem_of_In.
Qed.

Lemma schema_lookup f : f ∈ schema -> assoc_str schema f.1 = Some f.2.
Proof. intros Hf. apply assoc_elem_NoDup; [apply ok|]. by destruct f. Qed.

Lemma read_condition c :
  allowed_condition enums c = true -> task_condition schema false (test_node c) = Some c.
Proof.
  unfold allowed_condition. destruct (assoc_str enums (kc_field c)) as [d|] eqn:E; [|done].
  intros I. apply assoc_str_elem in E. pose proof (enum_field _ E) as (Hs & N1 & N2). cbn [snd] in *.
  pose proof (schema_lookup _ Hs) as L. cbn [fst snd] in L.
  cbn [test_node task_condition usage_node text_node]. cbn [negb andb]. rewrite L.
  pose proof (so_enums _ ok) as B. rewrite Forall_forall in B. apply list_elem_of_In in Hs.
  specialize (B _ Hs). cbn [snd] in B.
  change (negb (str_eqb (js "==") (js "==") && str_eqb (js "u") (js "u"))) with false. cbv iota.
  rewrite bool_decide_eq_false_2; [rewrite I; by destruct c|].
  intros T. injection T as T. by destruct (B T).
Qed.

Lemma read_tests cs :
  cs <> [] -> forallb (allowed_condition enums) cs = true ->
  taskConditions (tests_node cs) schema false = Some cs.
Proof.
  intros Hn A. unfold taskConditions, tests_node.
  assert (flattenBinary match map test_node cs with
    | [] => number_node num_zero | n :: ns => chain_node (js "&&") n ns end (js "&&") = map test_node cs) as ->.
  { destruct cs as [|c cs]; [done|]. cbn [map]. apply flatten_chain.
    apply (Forall_map test_node (fun x => atomic (js "&&") x = true) (c :: cs)), Forall_all. done. }
  clear Hn. induction cs as [|c cs IH]; [done|]. cbn [forallb] in A. apply andb_true_iff in A as [Ac A].
  cbn [map all_some]. by rewrite read_condition, IH.
Qed.

(** The summands are read one by one. *)
Lemma read_terms t l : forall constant prices,
  Forall (fun f => writable (price_of t f)) l -> (forall f, f ∈ l -> f ∈ fields) ->
  NoDup l.*1 -> (forall f, f ∈ l -> assoc_str prices f.1 = None) ->
  task_prices schema (map (fun f => term_node f (price_of t f)) l) constant prices
  = Some (constant, prices ++ map (fun f => (f.1, price_of t f)) l).
Proof.
  induction l as [|f l IH]; intros constant prices W S N F; [by rewrite app_nil_r|].
  apply Forall_cons_1 in W as [Wf W]. pose proof (NoDup_cons_1_1 _ _ N) as Nf. apply NoDup_cons_1_2 in N.
  destruct (number_field f) as (Hf & Ht & Hu); [apply S; by left|].
  assert (task_prices schema (term_node f (price_of t f) :: map (fun f => term_node f (price_of t f)) l)
      constant prices
    = task_prices schema (map (fun f => term_node f (price_of t f)) l) constant
        (prices ++ [(f.1, price_of t f)])) as E.
  { pose proof (F f ltac:(by left)) as Ff. pose proof (schema_lookup f Hf) as L.
    cbn [task_prices]. unfold has_unit in Hu.
    assert (usage_product (product_node f (price_of t f)) = Some (f.1, price_of t f)) as U.
    { cbn. by rewrite (writable_nonnegative _ Wf). }
    unfold term_node, is_token_unit. destruct (fs_unit f.2) as [[|c u]|] eqn:Eu; try done.
    destruct (bool_decide (Some (c :: u) = Some (js "token"))) eqn:B.
    - apply bool_decide_eq_true in B. injection B as B1 B2.
      cbn [nonnegativePriceLiteral product_node scaled_term].
      change (str_eqb (js "/") (js "/")) with true. cbv iota.
      assert (is_number_literal 1000000 (number_node TASK_TOKEN_PRICE_SCALE) = true) as ->
        by (vm_compute; reflexivity).
      fold (product_node f (price_of t f)). rewrite U, L, Ht, Eu, Ff, B1, B2. done.
    - apply bool_decide_eq_false in B. cbn [nonnegativePriceLiteral product_node scaled_term].
      change (str_eqb (js "*") (js "/")) with false. cbv iota.
      fold (product_node f (price_of t f)). rewrite U, L, Ht, Eu, Ff.
      assert (str_eqb (c :: u) (js "token") = false) as -> by (apply str_eqb_neq; congruence). done. }
  cbn [map]. rewrite E, IH; [by rewrite <- app_assoc|done| |done|].
  - intros g Hg. apply S. by right.
  - intros g Hg. rewrite assoc_app, F by (by right). cbn.
    destruct (str_eqb f.1 g.1) eqn:Eg; [|done]. apply str_eqb_eq in Eg. exfalso. apply Nf.
    rewrite Eg. apply list_elem_of_fmap. by exists g.
Qed.

Definition read_back (t : TaskVisualTier) (cs : list TaskCondition) : TaskTier :=
  MkTaskTier (kt_label t) cs
    (if num_ltb num_zero (kt_constant t) then kt_constant t else num_zero)
    (map (fun f => (f.1, price_of t f)) fields).

Lemma read_tier t cs :
  fields <> [] -> writable_tier fields t -> taskTier (tier_node t fields) cs schema = Some (read_back t cs).
Proof.
  intros Hf W. cbn [tier_node text_node taskTier].
  change (negb (str_eqb (js "tier") (js "tier"))) with false. cbv iota.
  assert (flattenBinary (body_node t fields) (js "+") = summands number_node term_node t fields) as ->.
  { unfold body_node.
    assert (Forall (fun x => atomic (js "+") x = true) (summands number_node term_node t fields)) as A.
    { unfold summands. apply Forall_app. split; [by destruct (num_ltb _ _); repeat constructor|].
      apply Forall_map, Forall_all. intros f. unfold term_node. by destruct (is_token_unit f.2). }
    pose proof (summands_nonempty number_node term_node t fields Hf) as N.
    destruct (summands number_node term_node t fields); [done|]. by apply flatten_chain. }
  unfold summands, read_back.
  assert (map (fun f => (f.1, price_of t f)) fields <> []) as Hp by (by destruct fields).
  destruct W as [_ Wc Wp _].
  assert (forall constant, task_prices schema (map (fun f => term_node f (price_of t f)) fields) constant []
    = Some (constant, map (fun f => (f.1, price_of t f)) fields)) as R.
  { intros constant. rewrite read_terms; [done|done|done|apply fields_NoDup|done]. }
  destruct (num_ltb num_zero (kt_constant t)); cbn [app task_prices].
  - cbn [nonnegativePriceLiteral number_node]. rewrite (writable_nonnegative _ Wc), R.
    destruct (map (fun f => (f.1, price_of t f)) fields); [by destruct Hp|done].
  - rewrite R. destruct (map (fun f => (f.1, price_of t f)) fields); [by destruct Hp|done].
Qed.

(** The tiers with their prices in the order of the fields; the last tier's
    conditions are not written. *)
Fixpoint read_tiers (tiers : list TaskVisualTier) : list TaskTier :=
  match tiers with
  | [] => []
  | [t] => [read_back t []]
  | t :: rest => read_back t (kt_conditions t) :: read_tiers rest
  end.

Lemma read_config tiers :
  fields <> [] -> tiers <> [] -> Forall (writable_tier fields) tiers -> conditioned tiers = true ->
  Forall (fun t => forallb (allowed_condition enums) (kt_conditions t) = true) tiers ->
  readTaskTierChain (config_node fields tiers) schema false = Some (read_tiers tiers).
Proof.
  intros Hf Hn W C A. induction tiers as [|t tiers IH]; [done|].
  apply Forall_cons_1 in W as [Wt W], A as [At A]. destruct tiers as [|t' tiers].
  { cbn [config_node readTaskTierChain]. unfold tier_node. fold (tier_node t fields).
    change (readTaskTierChain (tier_node t fields) schema false)
      with (match taskTier (tier_node t fields) [] schema with Some x => Some [x] | None => None end).
    by rewrite read_tier. }
  apply (andb_true_iff _ (conditioned (t' :: tiers))) in C as [C C'].
  change (config_node fields (t :: t' :: tiers))
    with (Conditional (tests_node (kt_conditions t)) (tier_node t fields) (config_node fields (t' :: tiers)) 0 0).
  cbn [readTaskTierChain]. rewrite read_tests by (done || by destruct (kt_conditions t)).
  rewrite read_tier by done. rewrite (IH ltac:(done) W C' A). done.
Qed.
End Reading.

(** ** The generated text is not split *)

Lemma number_held lo x : (0 <= lo)%Z -> writable x -> held lo 42 (string_of_num x).
Proof.
  intros Hlo W. apply held_plain; [done|].
  destruct W as [C F S _]. destruct (Number_of_string_of_num x C F S) as ((d & Hd & _) & _).
  apply scan_decimal_app in Hd as (t & E & _ & L). rewrite app_nil_r in E. rewrite E.
  eapply forallb_weaken; [|exact L]. intros c.
  unfold literal_char, plain_char, is_digit, in_range, is_quote, is_open, is_close.
  rewrite !orb_true_iff, andb_true_iff, !N.leb_le, !N.eqb_eq. intros Hc.
  repeat match goal with |- context [(c =? ?k)%N] => destruct (N.eqb_spec c k); [lia|] end.
  cbn. by rewrite orb_true_r.
Qed.

Lemma usage_held lo f : (0 <= lo)%Z -> held lo 42 (usage_call f).
Proof.
  intros Hlo. unfold usage_call.
  change (js "u(" ++ json_stringify f ++ js ")") with (js "u" ++ js "(" ++ json_stringify f ++ js ")").
  apply held_app; [by apply held_const|]. apply held_parens; [done|done|apply held_stringify].
Qed.

Lemma summand_held f price : writable price -> held 1 42 (summand_text f price).
Proof.
  intros W. unfold summand_text. apply held_app; [by apply usage_held|].
  apply held_app; [by apply held_plain|]. apply held_app; [by apply number_held|].
  destruct (is_token_unit f.2); [|apply held_nil].
  apply held_app; [by apply held_plain|]. apply number_held; [done|apply scale_writable].
Qed.

Lemma tier_held t fields : writable_tier fields t -> held 0 42 (generateTaskTierCall t fields).
Proof.
  intros [_ Wc Wp _]. unfold generateTaskTierCall.
  change (js "tier(" ++ ?x ++ js ", " ++ ?y ++ js ")")
    with (js "tier" ++ js "(" ++ x ++ js ", " ++ y ++ js ")").
  assert (forall a b c : str, a ++ js "(" ++ b ++ js ", " ++ c ++ js ")" = a ++ js "(" ++ (b ++ js ", " ++ c) ++ js ")")
    as -> by (intros; by rewrite <- !app_assoc).
  apply held_app; [by apply held_plain|]. apply held_parens; [done|done|].
  apply held_app; [apply held_stringify|]. apply held_app; [by apply held_plain|].
  apply held_join; [by apply held_plain|]. apply Forall_app. split.
  - destruct (num_ltb _ _); repeat constructor. by apply number_held.
  - apply Forall_map. eapply Forall_impl; [|exact Wp]. intros f Hf. by apply summand_held.
Qed.

Lemma tests_held cs : held 0 42 (generateTaskCondition cs).
Proof.
  apply held_join; [by apply held_plain|]. apply Forall_map, Forall_all. intros c.
  apply held_app; [by apply usage_held|]. apply held_app; [by apply held_plain|apply held_stringify].
Qed.

Lemma config_close sp fields tiers :
  tiers <> [] -> exists ts, config_toks sp fields tiers = ts ++ [(false, sym (js ")"))].
Proof.
  revert sp. induction tiers as [|t tiers IH]; intros sp Hn; [done|].
  destruct tiers as [|t' tiers].
  { cbn [config_toks]. unfold tier_toks, call_toks. rewrite !app_comm_cons. by eexists. }
  destruct (IH true ltac:(done)) as [ts E].
  change (config_toks sp fields (t :: t' :: tiers))
    with (cond_toks (tests_toks sp (kt_conditions t)) (tier_toks true t fields)
            (config_toks true fields (t' :: tiers))).
  unfold cond_toks. rewrite E, !app_comm_cons, !app_assoc. by eexists.
Qed.

Lemma config_head fields tiers :
  tiers <> [] -> conditioned tiers = true ->
  exists x ts, (x = js "u" \/ x = js "tier") /\ config_toks false fields tiers = (false, TkName x) :: ts.
Proof.
  destruct tiers as [|t [|t' tiers]]; [done| |]; intros _ C.
  { eexists _, _. split; [by right|reflexivity]. }
  cbn [conditioned config_toks] in *. destruct (kt_conditions t) as [|c cs]; [done|].
  eexists _, _. split; [by left|reflexivity].
Qed.

Lemma config_clean fields tiers :
  tiers <> [] -> conditioned tiers = true ->
  ends_clean (spell (config_toks false fields tiers)) = true /\
  match_version (spell (config_toks false fields tiers)) = None.
Proof.
  intros Hn C. destruct (config_head fields tiers Hn C) as (x & ts & Hx & E).
  destruct (config_close false fields tiers Hn) as [us E'].
  assert (exists r, spell (config_toks false fields tiers) = x ++ r) as [r Er]
    by (rewrite E; cbn; by eexists).
  split.
  - unfold ends_clean. apply andb_true_iff. split; [rewrite Er; by destruct Hx as [->| ->]|].
    rewrite E', spell_app, reverse_app. done.
  - rewrite Er. by destruct Hx as [->| ->].
Qed.

Lemma config_split fields tiers :
  fields <> [] -> tiers <> [] -> conditioned tiers = true -> Forall (writable_tier fields) tiers ->
  splitExpressionAtTopLevel (spell (config_toks false fields tiers)) (js "*")
  = [spell (config_toks false fields tiers)].
Proof.
  intros Hf Hn C W. destruct (config_clean fields tiers Hn C) as [T _].
  apply ends_clean_trim in T. set (text := spell _) in *.
  assert (text <> []) as Ne.
  { intros E. destruct (config_close false fields tiers Hn) as [us E']. unfold text in E.
    rewrite E', spell_app in E. apply app_eq_nil in E as [_ E]. done. }
  destruct tiers as [|t [|t' tiers]]; [done| |].
  - apply Forall_cons_1 in W as [Wt _].
    assert (held 0 42 text) as Hh.
    { unfold text. cbn [config_toks]. rewrite tier_spelled by done. by apply tier_held. }
    pose proof (split_join_held 42 [] ltac:(by intros c [->|?%elem_of_nil]%elem_of_cons) [text]
      ltac:(done) ltac:(by constructor)) as S.
    cbn [join map] in S. rewrite T in S. change (js "*") with [42%N]. rewrite S.
    rewrite filter_cons_True by (by destruct text). done.
  - assert (exists r, text = (generateTaskCondition (kt_conditions t) ++ [32%N]) ++ 63%N :: r) as [r Er].
    { unfold text. cbn [config_toks conditioned] in *. apply andb_true_iff in C as [C _].
      unfold cond_toks. rewrite spell_app, tests_spelled by (by destruct (kt_conditions t)).
      cbn [spell tok_text sym]. eexists. etransitivity; [|apply app_assoc]. reflexivity. }
    rewrite <- T at 2. rewrite Er. change (js "*") with [42%N]. apply split_question.
    apply held_app; [apply tests_held|by apply held_plain].
Qed.

(** ** Normalised configurations *)

Lemma filter_forallb {A} (p : A -> bool) l : forallb p l = true -> List.filter p l = l.
Proof.
  induction l as [|x l IH]; [done|]. cbn. intros H. apply andb_true_iff in H as [Hx H].
  by rewrite Hx, IH.
Qed.

Definition with_conditions (t : TaskVisualTier) (cs : list TaskCondition) : TaskVisualTier :=
  MkTaskTier (kt_label t) cs (kt_constant t) (kt_unitPrices t).

(** The configuration the text stands for: the last tier applies otherwise. *)
Fixpoint open_last (tiers : list TaskVisualTier) : list TaskVisualTier :=
  match tiers with
  | [] => []
  | [t] => [with_conditions t []]
  | t :: rest => t :: open_last rest
  end.

(** The generated text stays within the limits of the compiler. *)
Record writable_config (fields : list UsageField) (tiers : list TaskVisualTier) : Prop := {
  wc_tiers : Forall (writable_tier fields) tiers;
  wc_conditioned : conditioned tiers = true;
  wc_count : length tiers < 100;
  wc_fields : length fields <= 120;
  wc_tests : Forall (fun t => length (kt_conditions t) <= 120) tiers;
  wc_length : (N.of_nat (length (spell (config_toks false fields tiers))) <= 65536)%N;
  wc_tokens : (N.of_nat (length (config_toks false fields tiers)) <= 9999)%N
}.

Definition writable_configb (fields : list UsageField) (tiers : list TaskVisualTier) : bool :=
  forallb (writable_tierb fields) tiers && conditioned tiers && (length tiers <? 100) &&
  (length fields <=? 120) && forallb (fun t => length (kt_conditions t) <=? 120) tiers &&
  (N.of_nat (length (spell (config_toks false fields tiers))) <=? 65536)%N &&
  (N.of_nat (length (config_toks false fields tiers)) <=? 9999)%N.

Lemma writable_configb_spec fields tiers :
  writable_configb fields tiers = true -> writable_config fields tiers.
Proof.
  unfold writable_configb. rewrite !andb_true_iff, Nat.ltb_lt, Nat.leb_le, !N.leb_le, !forallb_forall.
  intros [[[[[[W C] L] F] T] N] K]. split; try done; apply Forall_forall.
  - intros t Ht. by apply writable_tierb_spec, W.
  - intros t Ht. by apply Nat.leb_le, T.
Qed.

Section Normal.
Context `{Collation} (schema : BillingUsageSchema) (ok : schema_ok schema).
Let fields := getTaskNumberFields (Some schema).
Let enums := getTaskEnumFields (Some schema).

Record normal (t : TaskVisualTier) : Prop := {
  nt_label : kt_label t <> [];
  nt_conditions : forallb (allowed_condition enums) (kt_conditions t) = true;
  nt_prices : kt_unitPrices t = obj_from_entries (map (fun f => (f.1, price_of t f)) fields)
}.

Lemma keyed_prices (g : UsageField -> num) label cs constant :
  forallb (allowed_condition enums) cs = true ->
  let t := MkTaskTier label cs constant (obj_from_entries (map (fun f => (f.1, g f)) fields)) in
  label <> [] -> normal t.
Proof.
  intros Hc t Hl. split; [done|done|]. cbn [t kt_unitPrices]. f_equal.
  assert (NoDup (map (fun f => (f.1, g f)) fields).*1) as N.
  { change (map ?h ?l) with (h <$> l). rewrite <- list_fmap_compose. by apply fields_NoDup. }
  apply map_ext_in. intros f Hf. f_equal. unfold price_of, t. cbn [kt_unitPrices].
  rewrite assoc_from_entries_NoDup by done. rewrite (assoc_elem_NoDup _ f.1 (g f) N); [done|].
  apply list_elem_of_In, in_map_iff. by exists f.
Qed.

Lemma filter_allowed cs : forallb (allowed_condition enums) (List.filter (allowed_condition enums) cs) = true.
Proof. apply forallb_forall. by intros c [_ Hc]%filter_In. Qed.

Lemma normal_label_nonempty i label : normal_label i label <> [].
Proof. destruct label; [|done]. cbn. by destruct (i =? 0). Qed.

Lemma normalized config :
  let tiers := normalizeTaskVisualConfig config schema in tiers <> [] /\ Forall normal tiers.
Proof.
  intros tiers. unfold tiers, normalizeTaskVisualConfig.
  assert (Forall normal (createDefaultTaskVisualConfig schema)) as D.
  { constructor; [|constructor]. by apply (keyed_prices (fun _ => num_zero)). }
  destruct config as [[|t l]|]; [done| |done]. split; [done|].
  fold fields enums. apply Forall_forall. intros x (i & Hi)%list_elem_of_In%list_elem_of_lookup.
  rewrite list_lookup_imap in Hi. destruct ((t :: l) !! i) as [y|]; [|done]. injection Hi as <-.
  apply (keyed_prices (fun f => normal_price (kt_unitPrices y) f.1));
    [apply filter_allowed|apply normal_label_nonempty].
Qed.

Lemma usable_writable x : writable x -> usable_price x = x.
Proof.
  intros W. unfold usable_price. by rewrite (writable_finite _ W), (writable_nonnegative _ W).
Qed.

Lemma writable_positive x : writable x -> (if num_ltb num_zero x then x else num_zero) = x.
Proof. intros [_ F S _]. by destruct x as [[]|[]| |[] m e]. Qed.

Lemma normalize_read_back i t cs :
  normal t -> writable_tier fields t -> forallb (allowed_condition enums) cs = true ->
  normal_tier fields enums i (read_back schema t cs) = with_conditions t cs.
Proof.
  intros [Hl Hc Hp] W A. unfold normal_tier, read_back, with_conditions.
  cbn [kt_label kt_conditions kt_constant kt_unitPrices]. fold fields. f_equal.
  - by destruct (kt_label t).
  - by apply filter_forallb.
  - rewrite writable_positive by apply W. by apply usable_writable, W.
  - rewrite Hp. f_equal. apply map_ext_in. intros f Hf. f_equal. unfold normal_price.
    rewrite (assoc_elem_NoDup _ f.1 (price_of t f)).
    + apply usable_writable. destruct W as [_ _ P _]. rewrite Forall_forall in P. by apply P.
    + change (map ?h ?l) with (h <$> l). rewrite <- list_fmap_compose. by apply fields_NoDup.
    + apply list_elem_of_In, in_map_iff. by exists f.
Qed.

Lemma normalize_read_tiers tiers :
  Forall normal tiers -> Forall (writable_tier fields) tiers -> tiers <> [] ->
  normalizeTaskVisualConfig (Some (read_tiers schema tiers)) schema = open_last tiers.
Proof.
  intros Hn W Ne.
  assert (forall f : nat -> TaskVisualTier -> TaskVisualTier,
    (forall i t cs, normal t -> writable_tier fields t -> forallb (allowed_condition enums) cs = true ->
      f i (read_back schema t cs) = with_conditions t cs) ->
    imap f (read_tiers schema tiers) = open_last tiers) as G.
  { clear Ne. induction Hn as [|t tiers Ht Hn IH]; intros f Hf; [done|].
    apply Forall_cons_1 in W as [Wt W]. destruct tiers as [|t' tiers].
    { cbn. by rewrite Hf. }
    change (read_tiers schema (t :: t' :: tiers))
      with (read_back schema t (kt_conditions t) :: read_tiers schema (t' :: tiers)).
    rewrite imap_cons, Hf by (done || apply Ht).
    change (open_last (t :: t' :: tiers)) with (t :: open_last (t' :: tiers)).
    rewrite IH; [by destruct t|done|]. intros i x cs. apply Hf. }
  assert (exists x l, read_tiers schema tiers = x :: l) as (x & l & E).
  { destruct tiers as [|t [|t' tiers]]; [done| |]; by eexists _, _. }
  unfold normalizeTaskVisualConfig. rewrite <- G with (f := normal_tier fields enums) by apply normalize_read_back.
  by rewrite E.
Qed.

(** The generated text is accepted. *)
Lemma config_acceptable tiers :
  fields <> [] -> tiers <> [] -> writable_config fields tiers ->
  acceptable (config_toks false fields tiers) (config_node fields tiers).
Proof.
  intros Hf Hn [W C L F T N K].
  destruct (config_clean fields tiers Hn C) as [_ V].
  split; [|apply operand_closed|done| |done|].
  - apply sound_ok, sound_config; [done|by apply fields_units|done..].
  - apply operand_config; [done..|lia].
  - lia.
  - eapply fine_le; [|apply fine_config; done]. lia.
Qed.
End Normal.

(** ** Guarantees *)

Lemma split_whole cache text :
  ends_clean text = true -> splitExpressionAtTopLevel text (js "*") = [text] -> text <> [] ->
  splitBillingExprAndRequestRules cache text = (Ok (MkSplit text []), cache).
Proof.
  intros T S N. unfold splitBillingExprAndRequestRules. rewrite (ends_clean_trim _ T), S.
  by destruct text.
Qed.

Lemma config_text_nonempty fields tiers :
  tiers <> [] -> spell (config_toks false fields tiers) <> [].
Proof.
  intros Hn E. destruct (config_close false fields tiers Hn) as [us E'].
  rewrite E', spell_app in E. apply app_eq_nil in E as [_ E]. done.
Qed.

Lemma parse_generated `{Collation} cache schema tiers :
  cache_ok cache -> schema_ok schema ->
  let fields := getTaskNumberFields (Some schema) in
  fields <> [] -> tiers <> [] -> writable_config fields tiers -> Forall (normal schema) tiers ->
  exists cache', cache_ok cache' /\
    parseTaskTiersFromExpr (spell (config_toks false fields tiers)) (Some schema) false cache
    = (Ok (read_tiers schema tiers), cache').
Proof.
  intros Hc Hs fields Hf Hn W Nt.
  destruct (compile_derivation _ _ (config_acceptable schema Hs tiers Hf Hn W)) as (c & E & _ & G).
  fold fields in E, G.
  pose proof (config_text_nonempty fields tiers Hn) as Ht.
  destruct W as [W C _ _ _ _ _]. destruct (config_clean fields tiers Hn C) as [T _].
  pose proof (split_whole cache _ T (config_split fields tiers Hf Hn C W) Ht) as S.
  set (text := spell (config_toks false fields tiers)) in *.
  destruct (compile_cached cache text Hc) as [R O].
  exists (compileBillingExpression cache text).2. split; [done|].
  unfold parseTaskTiersFromExpr. destruct schema as [|e schema']; [done|].
  set (schema := e :: schema') in *.
  assert (readTaskTierChain (compiled_ast c) schema false = Some (read_tiers schema tiers)) as Rd.
  { rewrite <- erase_task_chain, G. apply read_config; [done..|].
    eapply Forall_impl; [|exact Nt]. by intros t []. }
  clearbody text. destruct text as [|u text]; [done|].
  unfold cbind, split_rules, from_json. rewrite S. cbn [map_error billingExpr].
  unfold compiled_of. rewrite E in R.
  destruct (compileBillingExpression cache (u :: text)) as [r cache']. cbn in R. subst r.
  cbn [snd]. by rewrite Rd.
Qed.

(** C7: the task price editor saves what it shows.  The expression generated
    from a configuration is accepted by the compiler, is not mistaken for one
    with request rules, and is read back, for every state of the compilation
    cache, as the normalised configuration, whose last tier applies without
    conditions; provided the texts are code units, the prices are written as
    literals the lexer keeps exact, every other tier has a condition on an
    enumeration of the schema, and the text is within the compiler's limits. *)
Theorem task_config_roundtrip `{Collation} cache config schema :
  cache_ok cache -> schema_ok schema ->
  let fields := getTaskNumberFields (Some schema) in
  let tiers := normalizeTaskVisualConfig config schema in
  fields <> [] -> writable_config fields tiers ->
  (tryParseTaskVisualConfig (generateTaskExprFromConfig config schema) schema cache).1
  = Ok (Some (open_last tiers)).
Proof.
  intros Hc Hs fields tiers Hf W. destruct (normalized schema Hs config) as [Hn Nt]. fold tiers in Hn, Nt.
  rewrite generate_text by (done || apply W). fold fields tiers.
  destruct (parse_generated cache schema tiers Hc Hs Hf Hn W Nt) as (cache' & _ & P). fold fields in P.
  pose proof (config_text_nonempty fields tiers Hn) as Ht.
  pose proof (normalize_read_tiers schema Hs tiers Nt (wc_tiers _ _ W) Hn) as R.
  assert (read_tiers schema tiers <> []) as Hr by (by destruct tiers as [|t [|t' l]]).
  unfold tryParseTaskVisualConfig. destruct (spell (config_toks false fields tiers)) as [|u text]; [done|].
  unfold cbind. rewrite P. cbn [fst cret]. rewrite <- R.
  by destruct (read_tiers schema tiers).
Qed.

Definition sample_schema : BillingUsageSchema :=
  [(js "tokens", FieldSchema (Some field_number) (Some (js "token")) None);
   (js "quality", FieldSchema None None (Some [js "hd"; js "sd"]));
   (js "seconds", FieldSchema (Some field_number) (Some (js "second")) None)].

Definition sample_config : TaskVisualConfig :=
  [MkTaskTier (js "HD") [MkTaskCondition (js "quality") (js "hd")] (lit 1)
     [(js "seconds", js_Number (js "0.25")); (js "tokens", lit 12)];
   MkTaskTier [] [] S754_nan [(js "seconds", js_Number (js "-3"))]].

Lemma task_config_roundtrip_witness :
  let _ : Collation := code_unit_collation in
  (tryParseTaskVisualConfig (generateTaskExprFromConfig (Some sample_config) sample_schema) sample_schema []).1
  = Ok (Some (open_last (normalizeTaskVisualConfig (Some sample_config) sample_schema))).
Proof.
  intros C. apply task_config_roundtrip.
  - apply cache_ok_empty.
  - split; [vm_decide|repeat constructor|repeat constructor; cbn; auto; discriminate].
  - vm_compute. discriminate.
  - apply writable_configb_spec. vm_compute. reflexivity.
Defined.
