(* ===== verification/TaskMatrixFacts.v ===== *)
(** * The price matrix of a task model, proved

    The matrix editor shows one row per combination of the enumerated usage
    fields.  Its rows are saved as an expression and read back as the same
    rows; the tier shown without conditions in a price list is given exactly
    the conditions under which it applies. *)

From Stdlib Require Import ZArith Lia Bool SpecFloat.
From stdpp Require Import base list numbers.
From S2P Require Import Prelude JsString JsNumber JsNumberFacts JsNumberOrder JsValue JsHost JsObject JsJson ExprTypes ExprCompile ExprCompileFacts ExprPrint ExprGrammar ExprDisplay RequestRules PricingTiers TaskExpr TaskExprFacts.

Lemma writable_eqb x y : writable x -> writable y -> num_eqb x y = true -> x = y.
Proof.
  intros [_ Fx Sx _] [_ Fy Sy _].
  destruct x as [[]|[]| |[] m e], y as [[]|[]| |[] m' e']; try done.
  unfold num_eqb, SFeqb. cbn [SFcompare]. destruct (Z.compare_spec e e') as [->| |]; try done.
  change (Pos.compare_cont Eq m m') with (m ?= m')%positive.
  destruct (Pos.compare_spec m m') as [->| |]; done.
Qed.

(** ** Combinations *)

(** Two combinations assign the same values. *)
Definition same_values (a b : list (str * str)) : Prop := forall k, assoc_str a k = assoc_str b k.

Record combination_of (fields : list UsageField) (c : list (str * str)) : Prop := {
  cb_NoDup : NoDup c.*1;
  cb_values : forall k v, assoc_str c k = Some v ->
    exists d, (k, d) ∈ fields /\ v ∈ default [] (fs_enum d);
  cb_domain : forall k, is_Some (assoc_str c k) <-> k ∈ fields.*1
}.

Lemma extend_combination fields f c v :
  f.1 ∉ fields.*1 -> v ∈ default [] (fs_enum f.2) ->
  combination_of fields c -> combination_of (fields ++ [f]) (obj_put c f.1 v).
Proof.
  intros Hf Hv [N V D]. split.
  - by apply obj_put_NoDup.
  - intros k w. rewrite assoc_put. destruct (str_eqb f.1 k) eqn:E.
    + apply str_eqb_eq in E as <-. intros [= <-]. exists f.2. split; [|done].
      apply elem_of_app. right. apply list_elem_of_singleton. by destruct f.
    + intros Hw. destruct (V _ _ Hw) as (d & Hd & Hi). exists d. split; [|done].
      apply elem_of_app. by left.
  - intros k. rewrite assoc_put, fmap_app, elem_of_app. cbn. rewrite list_elem_of_singleton.
    destruct (str_eqb f.1 k) eqn:E.
    + apply str_eqb_eq in E as <-. split; [by right|by eexists].
    + apply str_eqb_neq in E. rewrite D. split; [by left|]. by intros [?| ->].
Qed.

Lemma extend_distinct fields (f : UsageField) c c' v v' :
  f.1 ∉ fields.*1 -> combination_of fields c -> combination_of fields c' ->
  same_values (obj_put c f.1 v) (obj_put c' f.1 v') -> same_values c c' /\ v = v'.
Proof.
  intros Hf C C' A. split.
  - intros k. specialize (A k). rewrite !assoc_put in A. destruct (str_eqb f.1 k) eqn:E; [|done].
    apply str_eqb_eq in E as <-.
    destruct (assoc_str c f.1) eqn:E1.
    { exfalso. apply Hf, (cb_domain _ _ C). by rewrite E1. }
    destruct (assoc_str c' f.1) eqn:E2; [|done].
    exfalso. apply Hf, (cb_domain _ _ C'). by rewrite E2.
  - specialize (A f.1). rewrite !assoc_put, str_eqb_refl in A. congruence.
Qed.

(** Every combination once. *)
Definition combinations_ok (fields : list UsageField) (l : list (list (str * str))) : Prop :=
  Forall (combination_of fields) l /\ ForallOrdPairs (fun a b => ~ same_values a b) l.

Lemma ForallOrdPairs_app {A} (R : A -> A -> Prop) l1 l2 :
  ForallOrdPairs R l1 -> ForallOrdPairs R l2 -> (forall a b, a ∈ l1 -> b ∈ l2 -> R a b) ->
  ForallOrdPairs R (l1 ++ l2).
Proof.
  intros H1 H2 H. induction H1 as [|a l1 Ha H1 IH]; [done|]. cbn. constructor.
  - apply Forall_app. split; [done|]. apply Forall_forall. intros b Hb. apply H; [by left|].
    by apply list_elem_of_In.
  - apply IH. intros x y Hx Hy. apply H; [by right|done].
Qed.

Lemma extend_ok fields (f : UsageField) l :
  f.1 ∉ fields.*1 -> NoDup (default [] (fs_enum f.2)) -> combinations_ok fields l ->
  combinations_ok (fields ++ [f]) (extend_combinations l f).
Proof.
  intros Hf Hv [F O]. unfold extend_combinations. set (values := default [] (fs_enum f.2)) in *.
  split.
  - apply Forall_concat, Forall_map. eapply Forall_impl; [|exact F]. intros c Hc.
    apply Forall_map, Forall_forall. intros v Hin. apply extend_combination; [done| |done].
    by apply list_elem_of_In.
  - induction O as [|c l Hc O IH]; [constructor|]. apply Forall_cons_1 in F as [Fc F].
    cbn [map concat]. apply ForallOrdPairs_app; [|by apply IH|].
    + clear -Hv Hf Fc. induction Hv as [|v values Hn Hv IH]; [constructor|]. cbn [map]. constructor; [|done].
      apply Forall_map, Forall_forall. intros w Hw A.
      apply (extend_distinct fields) in A as [_ ->]; [|done..]. apply Hn. by apply list_elem_of_In.
    + intros a b Ha Hb A.
      apply list_elem_of_In, in_map_iff in Ha as (v & <- & _).
      apply list_elem_of_In, in_concat in Hb as (m & Hm & Hb).
      apply in_map_iff in Hm as (c' & <- & Hc'). apply in_map_iff in Hb as (v' & <- & _).
      rewrite Forall_forall in F, Hc. apply (extend_distinct fields) in A as [A _]; [|done..|by apply F].
      by apply (Hc c').
Qed.

Definition enums_distinct (schema : BillingUsageSchema) : Prop :=
  Forall (fun f : UsageField => NoDup (default [] (fs_enum f.2))) schema.

Section Matrix.
Context `{Collation} (schema : BillingUsageSchema) (ok : schema_ok schema)
  (distinct : enums_distinct schema).
Let fields := getTaskNumberFields (Some schema).
Let enums := getTaskEnumFields (Some schema).
Let combinations := getTaskEnumCombinations (Some schema).

Lemma enums_NoDup : NoDup enums.*1.
Proof. unfold enums, getTaskEnumFields. rewrite sort_by_perm. apply filter_keys_NoDup, ok. Qed.

Lemma all_combinations : combinations_ok enums combinations.
Proof.
  unfold combinations, getTaskEnumCombinations. fold enums.
  assert (forall done todo l, combinations_ok done l -> NoDup (done ++ todo).*1 ->
    Forall (fun f : UsageField => NoDup (default [] (fs_enum f.2))) todo ->
    combinations_ok (done ++ todo) (fold_left extend_combinations todo l)) as G.
  { intros dn todo. revert dn. induction todo as [|f todo IH]; intros dn l Hl N D.
    { by rewrite app_nil_r. }
    apply Forall_cons_1 in D as [Df D]. cbn [fold_left].
    replace (dn ++ f :: todo) with ((dn ++ [f]) ++ todo) in * by (by rewrite <- app_assoc).
    apply IH; [|done|done]. apply extend_ok; [|done|done].
    rewrite !fmap_app in N. cbn in N. apply list.NoDup_app in N as (N & _ & _).
    apply list.NoDup_app in N as (_ & N & _). intros Hf. apply (N _ Hf). by apply list_elem_of_singleton. }
  apply (G [] enums).
  - split; [|repeat constructor]. constructor; [|constructor]. split; [constructor|done|].
    intros k. split; [by intros [? ?]|by intros ?%elem_of_nil].
  - apply enums_NoDup.
  - apply Forall_forall. intros f Hf%list_elem_of_In. apply enum_field in Hf as [Hf _].
    unfold enums_distinct in distinct. rewrite Forall_forall in distinct.
    by apply distinct, list_elem_of_In.
Qed.

(** ** Rows and tiers *)

Lemma combination_entry c k v : combination_of enums c -> (k, v) ∈ c <-> assoc_str c k = Some v.
Proof.
  intros C. split; [apply assoc_elem_NoDup, C|apply assoc_str_elem].
Qed.

Lemma condition_entry c x :
  x ∈ combination_conditions c <-> (kc_field x, kc_value x) ∈ c.
Proof.
  unfold combination_conditions. rewrite list_elem_of_In, in_map_iff. split.
  - intros ([k v] & <- & Hi%list_elem_of_In). by rewrite sort_by_perm in Hi.
  - intros Hi. exists (kc_field x, kc_value x). split; [by destruct x|].
    apply list_elem_of_In. by rewrite sort_by_perm.
Qed.

Lemma conditions_allowed c :
  combination_of enums c -> forallb (allowed_condition enums) (combination_conditions c) = true.
Proof.
  intros C. apply forallb_forall. intros x Hx%list_elem_of_In. rewrite condition_entry in Hx.
  rewrite (combination_entry c) in Hx by done. destruct (cb_values _ _ C _ _ Hx) as (d & Hd & Hv).
  unfold allowed_condition. rewrite (assoc_elem_NoDup enums _ d enums_NoDup Hd).
  by apply includes_str_elem.
Qed.

Lemma conditions_distinct c :
  combination_of enums c -> NoDup (map kc_field (combination_conditions c)).
Proof.
  intros C. unfold combination_conditions. rewrite map_map. cbn.
  change (map ?h ?l) with (h <$> l). rewrite sort_by_perm. apply C.
Qed.

Lemma matches_spec c t :
  combination_matches c t = true <->
  forall x, x ∈ kt_conditions t -> assoc_str c (kc_field x) = Some (kc_value x).
Proof.
  unfold combination_matches. rewrite forallb_forall.
  split; intros Hm x Hx; [apply list_elem_of_In in Hx|apply list_elem_of_In in Hx];
    specialize (Hm x Hx); by apply bool_decide_eq_true in Hm || apply bool_decide_eq_true.
Qed.

Lemma matches_self c t :
  combination_of enums c -> kt_conditions t = combination_conditions c -> combination_matches c t = true.
Proof.
  intros C E. apply matches_spec. intros x. rewrite E, condition_entry. by apply combination_entry.
Qed.

Lemma matches_agree c c0 t :
  combination_of enums c -> combination_of enums c0 -> kt_conditions t = combination_conditions c0 ->
  combination_matches c t = true -> same_values c0 c.
Proof.
  intros C C0 E M k. rewrite matches_spec in M. rewrite E in M.
  destruct (assoc_str c0 k) as [v|] eqn:E0.
  - symmetry. apply (M (MkTaskCondition k v)). apply condition_entry. by apply assoc_str_elem.
  - destruct (assoc_str c k) as [v|] eqn:Ec; [|done]. exfalso.
    assert (is_Some (assoc_str c0 k)) as [v0 Hv0]; [|congruence].
    apply (cb_domain _ _ C0), (cb_domain _ _ C). by rewrite Ec.
Qed.

Record good_row (r : TaskMatrixRow) : Prop := {
  gr_constant : writable (mr_constant r);
  gr_prices : Forall (fun f => writable (default num_zero (assoc_str (mr_unitPrices r) f.1))) fields;
  gr_object : row_prices fields (mr_unitPrices r) = mr_unitPrices r
}.

Definition good_rowb (r : TaskMatrixRow) : bool :=
  writableb (mr_constant r) &&
  forallb (fun f => writableb (default num_zero (assoc_str (mr_unitPrices r) f.1))) fields &&
  bool_decide (row_prices fields (mr_unitPrices r) = mr_unitPrices r).

Lemma good_rowb_spec r : good_rowb r = true -> good_row r.
Proof.
  unfold good_rowb. intros G. apply andb_true_iff in G as [G E]. apply andb_true_iff in G as [W P].
  apply bool_decide_eq_true in E. rewrite forallb_forall in P. split; [by apply writableb_spec| |done].
  apply Forall_forall. intros f Hf. by apply writableb_spec, P.
Qed.

(** A tier that charges what the row says. *)
Definition charges (r : TaskMatrixRow) (t : TaskTier) : Prop :=
  kt_constant t = mr_constant r /\ row_prices fields (kt_unitPrices t) = mr_unitPrices r.

Lemma lookup_row_price (g : UsageField -> num) f :
  f ∈ fields -> assoc_str (obj_from_entries (map (fun f => (f.1, g f)) fields)) f.1 = Some (g f) /\
    assoc_str (map (fun f => (f.1, g f)) fields) f.1 = Some (g f).
Proof.
  intros Hf. assert (NoDup (map (fun f => (f.1, g f)) fields).*1) as N.
  { change (map ?h ?l) with (h <$> l). rewrite <- list_fmap_compose. by apply fields_NoDup. }
  rewrite assoc_from_entries_NoDup by done.
  assert (assoc_str (map (fun f => (f.1, g f)) fields) f.1 = Some (g f)) as E; [|done].
  apply assoc_elem_NoDup; [done|]. apply list_elem_of_In, in_map_iff. exists f.
  split; [done|by apply list_elem_of_In].
Qed.

Lemma row_tier_charges i label cs cs' r :
  good_row r ->
  charges r (read_back schema
    (normal_tier fields enums i (MkTaskTier label cs (mr_constant r) (row_prices fields (mr_unitPrices r)))) cs').
Proof.
  intros [Wc Wp E]. set (t := normal_tier _ _ _ _).
  assert (kt_constant t = mr_constant r) as K by (cbn; by apply usable_writable).
  assert (forall f, f ∈ fields -> price_of t f = default num_zero (assoc_str (mr_unitPrices r) f.1)) as P.
  { intros f Hf. unfold price_of, t. cbn [kt_unitPrices normal_tier].
    destruct (lookup_row_price (fun f => normal_price (row_prices fields (mr_unitPrices r)) f.1) f Hf) as [-> _].
    destruct (lookup_row_price (fun f => default num_zero (assoc_str (mr_unitPrices r) f.1)) f Hf) as [L _].
    cbn [default]. unfold normal_price, row_prices. rewrite L. apply usable_writable.
    rewrite Forall_forall in Wp. by apply Wp, list_elem_of_In. }
  clearbody t. unfold charges, read_back. cbn [kt_constant kt_unitPrices]. rewrite K.
  split; [by apply writable_positive|]. transitivity (row_prices fields (mr_unitPrices r)); [|exact E].
  unfold row_prices. f_equal. apply map_ext_in. intros f Hf%list_elem_of_In. f_equal.
  destruct (lookup_row_price (price_of t) f Hf) as [_ L]. fold fields. rewrite L. by apply P.
Qed.

(** Tiers that stand for the rows: the conditions of every row but the last. *)
Fixpoint tiers_for (rows : list TaskMatrixRow) (tiers : list TaskTier) : Prop :=
  match rows, tiers with
  | [], [] => True
  | r :: rows', t :: tiers' =>
      kt_conditions t = match rows' with [] => [] | _ => combination_conditions (mr_combination r) end /\
      charges r t /\ tiers_for rows' tiers'
  | _, _ => False
  end.

Lemma matrix_read rows : forall k,
  Forall good_row rows -> Forall (fun r => combination_of enums (mr_combination r)) rows ->
  tiers_for rows (read_tiers schema (imap (fun i => normal_tier fields enums (k + i)) (matrix_tiers fields rows))).
Proof.
  induction rows as [|r rows IH]; intros k G C; [done|].
  apply Forall_cons_1 in G as [Gr G], C as [Cr C]. cbn [matrix_tiers]. rewrite imap_cons.
  destruct rows as [|r' rows].
  { cbn [matrix_tiers imap read_tiers tiers_for]. split; [done|]. split; [by apply row_tier_charges|done]. }
  specialize (IH (S k) G C).
  assert (imap ((fun i => normal_tier fields enums (k + i)) ∘ S) (matrix_tiers fields (r' :: rows))
    = imap (fun i => normal_tier fields enums (S k + i)) (matrix_tiers fields (r' :: rows))) as ->.
  { apply imap_ext. intros i x _. cbn. by rewrite Nat.add_succ_r. }
  destruct (imap _ (matrix_tiers fields (r' :: rows))) as [|t' l] eqn:E; [done|].
  cbn [read_tiers]. cbn [tiers_for]. split; [|split; [by apply row_tier_charges|exact IH]].
  cbn [read_back kt_conditions normal_tier]. by apply filter_forallb, conditions_allowed.
Qed.

Lemma find_row rows : forall tiers,
  tiers_for rows tiers -> Forall (fun r => combination_of enums (mr_combination r)) rows ->
  ForallOrdPairs (fun a b => ~ same_values a b) (map mr_combination rows) ->
  forall r, r ∈ rows -> exists t,
    List.find (combination_matches (mr_combination r)) tiers = Some t /\ charges r t.
Proof.
  induction rows as [|r0 rows IH]; intros tiers T C O r Hr; [by apply elem_of_nil in Hr|].
  destruct tiers as [|t0 tiers]; [done|]. destruct T as (K & Ch & T).
  apply Forall_cons_1 in C as [C0 C]. cbn [map] in O. inversion O as [|? ? O0 O']; subst.
  cbn [List.find]. apply elem_of_cons in Hr as [->|Hr].
  - exists t0. split; [|done]. destruct rows as [|r' rows].
    + unfold combination_matches. by rewrite K.
    + by rewrite (matches_self (mr_combination r0)).
  - destruct (combination_matches (mr_combination r) t0) eqn:M; [|by apply (IH tiers)].
    exfalso. destruct rows as [|r' rows]; [by apply elem_of_nil in Hr|].
    apply list_elem_of_In in Hr. rewrite Forall_forall in C, O0.
    apply (O0 (mr_combination r)); [by apply in_map|].
    apply (matches_agree _ _ t0); [by apply C|done..].
Qed.

Lemma tiers_for_last rows tiers : tiers_for rows tiers -> rows <> [] ->
  exists t, at_last tiers = Some t /\ kt_conditions t = [].
Proof.
  revert tiers. induction rows as [|r rows IH]; intros tiers T Hn; [done|].
  destruct tiers as [|t tiers]; [done|]. destruct T as (K & _ & T).
  destruct rows as [|r' rows]; [destruct tiers; [by exists t|done]|].
  destruct (IH tiers T ltac:(done)) as (x & L & Kx). exists x. split; [|done].
  destruct tiers; [done|]. exact L.
Qed.

Lemma tiers_for_distinct rows tiers :
  tiers_for rows tiers -> Forall (fun r => combination_of enums (mr_combination r)) rows ->
  forallb distinct_fields tiers = true.
Proof.
  revert tiers. induction rows as [|r rows IH]; intros [|t tiers] T C; try done.
  destruct T as (K & _ & T). apply Forall_cons_1 in C as [Cr C].
  cbn. rewrite IH by done. rewrite andb_true_r. apply bool_decide_eq_true. rewrite K.
  destruct rows; [constructor|]. by apply conditions_distinct.
Qed.

(** Reading tiers that stand for the rows gives the rows. *)
Lemma matrix_rows_for rows fallback tiers :
  (forall r, r ∈ rows -> exists t,
    List.find (combination_matches (mr_combination r)) tiers = Some t /\ charges r t) ->
  map mr_combination rows = combinations -> matrix_rows schema tiers fallback = rows.
Proof.
  intros F E. unfold matrix_rows. fold fields combinations. rewrite <- E, map_map.
  rewrite <- (map_id rows) at 2. apply map_ext_in. intros r Hr%list_elem_of_In.
  destruct (F r Hr) as (t & -> & K & P). change (default fallback (Some t)) with t.
  rewrite K, P. by destruct r.
Qed.

(** *** Uniform matrices *)

Lemma uniform_charges i r0 r :
  good_row r0 -> good_row r ->
  num_eqb (mr_constant r) (mr_constant r0) &&
  forallb (fun f => same_price (assoc_str (mr_unitPrices r) f.1) (assoc_str (mr_unitPrices r0) f.1)) fields
  = true ->
  charges r (read_back schema
    (normal_tier fields enums i (MkTaskTier (js "base") [] (mr_constant r0) (row_prices fields (mr_unitPrices r0)))) []).
Proof.
  intros G0 G U. apply andb_true_iff in U as [Uc Up]. rewrite forallb_forall in Up.
  assert (mr_constant r = mr_constant r0) as Ec
    by (apply writable_eqb; [apply G|apply G0|done]).
  assert (row_prices fields (mr_unitPrices r) = row_prices fields (mr_unitPrices r0)) as Ep.
  { unfold row_prices. f_equal. apply map_ext_in. intros f Hf. f_equal. specialize (Up f Hf).
    destruct G as [_ W _], G0 as [_ W0 _]. rewrite Forall_forall in W, W0.
    specialize (W f Hf). specialize (W0 f Hf).
    destruct (assoc_str (mr_unitPrices r) f.1), (assoc_str (mr_unitPrices r0) f.1); try done.
    cbn in *. by apply writable_eqb. }
  destruct (row_tier_charges i (js "base") [] [] r0 G0) as [K P].
  split; [congruence|]. by rewrite P, <- (gr_object _ G), <- (gr_object _ G0).
Qed.

Lemma normalize_nonempty l :
  l <> [] -> normalizeTaskVisualConfig (Some l) schema = imap (normal_tier fields enums) l.
Proof. by destruct l. Qed.

Definition same_row (r0 r : TaskMatrixRow) : bool :=
  num_eqb (mr_constant r) (mr_constant r0) &&
  forallb (fun f => same_price (assoc_str (mr_unitPrices r) f.1) (assoc_str (mr_unitPrices r0) f.1)) fields.

Lemma matrix_cases r0 rows :
  fields <> [] ->
  taskMatrixToTiers (r0 :: rows) schema
  = if forallb (same_row r0) (r0 :: rows)
    then [MkTaskTier (js "base") [] (mr_constant r0) (row_prices fields (mr_unitPrices r0))]
    else matrix_tiers fields (r0 :: rows).
Proof.
  intros Hf. unfold taskMatrixToTiers, same_row. fold fields. by destruct fields.
Qed.

(** What the saved tiers of a matrix are read back as. *)
Lemma matrix_saved rows :
  fields <> [] -> rows <> [] -> Forall good_row rows -> map mr_combination rows = combinations ->
  let tiers := read_tiers schema (normalizeTaskVisualConfig (Some (taskMatrixToTiers rows schema)) schema) in
  (exists t, at_last tiers = Some t /\ kt_conditions t = []) /\ forallb distinct_fields tiers = true /\
  (forall fallback, matrix_rows schema tiers fallback = rows).
Proof.
  intros Hf Hn G E. destruct all_combinations as [C O].
  assert (Forall (fun r => combination_of enums (mr_combination r)) rows) as Cr.
  { rewrite <- E in C. apply Forall_forall. intros r Hr. rewrite Forall_forall in C. by apply C, in_map. }
  rewrite <- E in O.
  destruct rows as [|r0 rows]; [done|]. rewrite matrix_cases by done.
  destruct (forallb _ (r0 :: rows)) eqn:U.
  - cbn [normalizeTaskVisualConfig imap]. fold fields enums. cbn [read_tiers].
    split; [eexists; split; reflexivity|]. split; [done|]. intros fallback. apply matrix_rows_for; [|done].
    intros r Hr. eexists. split; [reflexivity|].
    rewrite forallb_forall in U. rewrite Forall_forall in G. apply uniform_charges.
    + apply G. by left.
    + by apply G, list_elem_of_In.
    + by apply U, list_elem_of_In.
  - pose proof (matrix_read (r0 :: rows) 0 G Cr) as T.
    rewrite normalize_nonempty by done.
    change (fun i => normal_tier fields enums (0 + i)) with (normal_tier fields enums) in T.
    split; [by eapply tiers_for_last|]. split; [by eapply tiers_for_distinct|].
    intros fallback. apply matrix_rows_for; [|done]. by apply find_row.
Qed.
End Matrix.

(** C8: the matrix editor saves what it shows.  One row per combination of
    the enumerated fields is saved as tiers (a single one when all rows
    charge the same, otherwise one per row, the last without conditions), the
    tiers as an expression, and the expression is read back as the same
    rows, for every state of the compilation cache; provided the schema has
    distinct keys, some number field, no repeated option and no enumeration of
    truth values, the rows list the combinations of the schema in its order
    with exactly one price per number field, the charges and prices are written
    as literals the lexer keeps exact (so they are not negative), and the text
    is within the limits of the compiler: fewer than 100 tiers, at most 120
    fields and conditions per tier, 65536 characters and 9999 tokens. *)
Theorem task_matrix_roundtrip `{Collation} cache rows schema :
  cache_ok cache -> schema_ok schema -> enums_distinct schema ->
  let fields := getTaskNumberFields (Some schema) in
  let tiers := taskMatrixToTiers rows schema in
  fields <> [] -> rows <> [] -> Forall (good_row schema) rows ->
  map mr_combination rows = getTaskEnumCombinations (Some schema) ->
  writable_config fields (normalizeTaskVisualConfig (Some tiers) schema) ->
  (tryParseTaskMatrixConfig (generateTaskExprFromConfig (Some tiers) schema) schema cache).1
  = Ok (Some rows).
Proof.
  intros Hc Hs Hd fields tiers Hf Hr G E W.
  destruct (normalized schema Hs (Some tiers)) as [Hn Nt].
  destruct (matrix_saved schema Hs Hd rows Hf Hr G E) as ((t & L & K) & D & R). fold tiers in L, D, R.
  rewrite generate_text by (done || apply W). fold fields.
  set (nt := normalizeTaskVisualConfig (Some tiers) schema) in *.
  destruct (parse_generated cache schema nt Hc Hs Hf Hn W Nt) as (cache' & _ & P). fold fields in P.
  pose proof (config_text_nonempty fields nt Hn) as Ht.
  unfold tryParseTaskMatrixConfig. destruct (spell (config_toks false fields nt)) as [|u text]; [done|].
  unfold cbind. rewrite P. cbn [fst cret]. by rewrite L, K, D, R.
Qed.

Definition matrix_sample : TaskMatrixConfig :=
  [MkMatrixRow [(js "quality", js "hd")] (lit 0)
     [(js "seconds", js_Number (js "0.25")); (js "tokens", lit 12)];
   MkMatrixRow [(js "quality", js "sd")] (lit 0)
     [(js "seconds", js_Number (js "0.1")); (js "tokens", lit 3)]].

Lemma task_matrix_roundtrip_witness :
  let _ : Collation := code_unit_collation in
  (tryParseTaskMatrixConfig (generateTaskExprFromConfig (Some (taskMatrixToTiers matrix_sample sample_schema))
     sample_schema) sample_schema []).1 = Ok (Some matrix_sample).
Proof.
  intros C. apply task_matrix_roundtrip.
  - apply cache_ok_empty.
  - split; [vm_decide|repeat constructor|repeat constructor; cbn; auto; discriminate].
  - repeat constructor; vm_decide.
  - vm_compute. discriminate.
  - discriminate.
  - apply Forall_forall. intros r Hr. apply good_rowb_spec. revert r Hr. apply forallb_forall.
    vm_compute. reflexivity.
  - vm_compute. reflexivity.
  - apply writable_configb_spec. vm_compute. reflexivity.
Defined.

(** ** Conditions shown for the last tier *)

(** Usage, field by field as text, and the tiers that apply to it. *)
Definition applies (usage : str -> str) (t : TaskTier) : Prop :=
  forall c, c ∈ kt_conditions t -> usage (kc_field c) = kc_value c.

Definition valid_usage (schema : BillingUsageSchema) (usage : str -> str) (tiers : list TaskTier) : Prop :=
  forall t c, t ∈ tiers -> c ∈ kt_conditions t -> exists values,
    field_values (assoc_str schema (kc_field c)) = Some values /\ usage (kc_field c) ∈ values.

Lemma set_of_elem l x : x ∈ fold_left set_add l [] <-> x ∈ l.
Proof.
  assert (forall acc, x ∈ fold_left set_add l acc <-> x ∈ acc \/ x ∈ l) as G.
  { induction l as [|y l IH]; intros acc; cbn [fold_left].
    - rewrite elem_of_nil. tauto.
    - rewrite IH, set_add_elem, elem_of_cons. tauto. }
  rewrite G, elem_of_nil. tauto.
Qed.

(** The values a combination may give to its fields. *)
Definition valued (schema : BillingUsageSchema) (c : TaskCondition) : Prop :=
  exists values, field_values (assoc_str schema (kc_field c)) = Some values /\ kc_value c ∈ values.

Lemma combinations_spec schema fields : forall start result c,
  condition_combinations schema fields start = Some result ->
  c ∈ result <-> exists c0 c1, c = c0 ++ c1 /\ c0 ∈ start /\ map kc_field c1 = fields /\ Forall (valued schema) c1.
Proof.
  induction fields as [|f fields IH]; intros start result c R; cbn [condition_combinations] in R.
  - injection R as <-. split.
    + intros Hc. exists c, []. by rewrite app_nil_r.
    + intros (c0 & [|] & -> & H0 & E & _); [by rewrite app_nil_r|done].
  - destruct (field_values (assoc_str schema f)) as [[|v values]|] eqn:V; try done.
    destruct (256 <? _); [done|]. rewrite (IH _ _ _ R). clear IH R. split.
    + intros (c0 & c1 & -> & H0 & E & F).
      apply list_elem_of_In, in_concat in H0 as (m & Hm & H0).
      apply in_map_iff in Hm as (b & <- & Hb). apply in_map_iff in H0 as (w & <- & Hw).
      exists b, (MkTaskCondition f w :: c1). rewrite <- app_assoc. split; [done|].
      split; [by apply list_elem_of_In|]. split; [cbn; by rewrite E|]. constructor; [|done].
      exists (v :: values). split; [done|by apply list_elem_of_In].
    + intros (c0 & c1 & -> & H0 & E & F). destruct c1 as [|x c1]; [done|]. injection E as Ef E.
      apply Forall_cons_1 in F as [(vs & Hv & Hx) F]. rewrite Ef, V in Hv. injection Hv as <-.
      exists (c0 ++ [x]), c1. rewrite <- app_assoc. split; [done|]. split; [|done].
      apply list_elem_of_In, in_concat. eexists. split; [by apply in_map_iff; exists c0; split; [reflexivity|apply list_elem_of_In]|].
      apply in_map_iff. exists (kc_value x). split; [|by apply list_elem_of_In].
      rewrite <- Ef. by destruct x.
Qed.

Section Fallback.
Variables (schema : BillingUsageSchema) (usage : str -> str) (fields : list str).

(** The combination that the usage is. *)
Definition used : list TaskCondition := map (fun f => MkTaskCondition f (usage f)) fields.

Lemma used_elem c : c ∈ used <-> kc_field c ∈ fields /\ kc_value c = usage (kc_field c).
Proof.
  unfold used. rewrite list_elem_of_In, in_map_iff. split.
  - intros (f & <- & Hf). by rewrite list_elem_of_In.
  - intros [Hf E]. exists (kc_field c). split; [|by apply list_elem_of_In]. rewrite <- E. by destruct c.
Qed.

Lemma covers_used t :
  (forall c, c ∈ kt_conditions t -> kc_field c ∈ fields) -> tier_covers t used = true <-> applies usage t.
Proof.
  intros Hf. unfold tier_covers, applies. rewrite forallb_forall. split.
  - intros G c Hc. specialize (G c (proj1 (list_elem_of_In _ _) Hc)).
    apply existsb_exists in G as (v & Hv%list_elem_of_In & E). apply andb_true_iff in E as [E1 E2].
    apply str_eqb_eq in E1, E2. apply used_elem in Hv as [_ Hv]. congruence.
  - intros G c Hc%list_elem_of_In. apply existsb_exists. exists c. rewrite !str_eqb_refl. split; [|done].
    apply list_elem_of_In, used_elem. split; [by apply Hf|]. symmetry. by apply G.
Qed.

Lemma used_unique c :
  map kc_field c = fields -> (forall x, x ∈ c -> usage (kc_field x) = kc_value x) -> c = used.
Proof.
  unfold used. intros <- G. induction c as [|x c IH]; [done|]. cbn [map]. f_equal.
  - rewrite (G x) by (by left). by destruct x.
  - apply IH. intros y Hy. apply G. by right.
Qed.
End Fallback.

Definition condition_fields (tiers : list TaskTier) : list str :=
  sort_strings (fold_left set_add (concat (map (fun t => map kc_field (kt_conditions t)) tiers)) []).

Lemma condition_fields_elem tiers f :
  f ∈ condition_fields tiers <-> exists t c, t ∈ tiers /\ c ∈ kt_conditions t /\ kc_field c = f.
Proof.
  unfold condition_fields, sort_strings. rewrite sort_by_perm, set_of_elem, list_elem_of_In, in_concat.
  split.
  - intros (m & Hm & Hf). apply in_map_iff in Hm as (t & <- & Ht). apply in_map_iff in Hf as (c & E & Hc).
    exists t, c. by rewrite !list_elem_of_In.
  - intros (t & c & Ht & Hc & E). exists (map kc_field (kt_conditions t)). apply list_elem_of_In in Ht, Hc.
    split; [apply in_map_iff; by exists t|]. apply in_map_iff. by exists c.
Qed.

Lemma used_listed schema usage tiers result :
  valid_usage schema usage tiers ->
  condition_combinations schema (condition_fields tiers) [[]] = Some result ->
  used usage (condition_fields tiers) ∈ result.
Proof.
  intros V R. apply (combinations_spec _ _ _ _ _ R). exists [], (used usage (condition_fields tiers)).
  split; [done|]. split; [by apply list_elem_of_singleton|].
  split; [unfold used; rewrite map_map; apply map_id|].
  apply Forall_forall. intros c Hc%list_elem_of_In. apply used_elem in Hc as [Hc E].
  apply condition_fields_elem in Hc as (t & x & Ht & Hx & Ex).
  destruct (V t x Ht Hx) as (values & Hv & Hin). exists values. rewrite E, <- Ex. by split.
Qed.

(** The only combination that no tier covers. *)
Lemma uncovered_unique tiers result remaining c :
  List.filter (fun c => negb (existsb (fun t => tier_covers t c) tiers)) result = [remaining] ->
  c ∈ result -> (forall t, t ∈ tiers -> tier_covers t c = false) <-> c = remaining.
Proof.
  intros U Hc. transitivity (In c [remaining]); [|cbn; split; [by intros [?|[]]|by left]].
  rewrite <- U, filter_In, negb_true_iff. split.
  - intros G. split; [by apply list_elem_of_In|]. apply not_true_iff_false.
    intros (t & Ht%list_elem_of_In & E)%existsb_exists. rewrite G in E by done. done.
  - intros [_ G] t Ht. apply not_true_iff_false in G. apply not_true_iff_false. intros E. apply G.
    apply existsb_exists. exists t. by rewrite <- list_elem_of_In.
Qed.

Lemma remaining_applies schema usage previous fallback result remaining :
  valid_usage schema usage previous ->
  condition_combinations schema (condition_fields previous) [[]] = Some result ->
  List.filter (fun c => negb (existsb (fun t => tier_covers t c) previous)) result = [remaining] ->
  applies usage (with_conditions fallback remaining) <-> (forall t, t ∈ previous -> ~ applies usage t).
Proof.
  intros V R U. set (fields := condition_fields previous) in *.
  pose proof (used_listed schema usage previous result V R) as Hu. fold fields in Hu.
  assert ((forall t, t ∈ previous -> ~ applies usage t) <-> used usage fields = remaining) as ->.
  { rewrite <- (uncovered_unique previous result remaining _ U Hu).
    assert (forall t, t ∈ previous -> tier_covers t (used usage fields) = true <-> applies usage t) as Cv.
    { intros t Ht. apply covers_used. intros c Hc. apply condition_fields_elem. by exists t, c. }
    split; intros G t Ht; specialize (G t Ht); rewrite <- Cv in * by done; by apply not_true_iff_false. }
  unfold applies. cbn [with_conditions kt_conditions]. split.
  - intros G. symmetry. apply used_unique; [|done].
    assert (In remaining result) as Hr.
    { assert (In remaining [remaining]) as I by (by left). rewrite <- U in I. by apply filter_In in I as [I _]. }
    apply list_elem_of_In, (combinations_spec _ _ _ _ _ R) in Hr as (c0 & c1 & -> & H0 & E & _).
    apply list_elem_of_singleton in H0 as ->. done.
  - intros <- c Hc. apply used_elem in Hc as [_ ->]. done.
Qed.

(** The combinations of the listed values that no tier before the last one
    covers; [None] when a field has no listed values or there are too many. *)
Definition complement (schema : BillingUsageSchema) (previous : list TaskTier)
  : option (list (list TaskCondition)) :=
  result ← condition_combinations schema (condition_fields previous) [[]];
  Some (List.filter (fun c => negb (existsb (fun t => tier_covers t c) previous)) result).

(** The conditions shown for the last tier of a price list are exact.
    When the tiers before it leave exactly one combination of the listed
    values, the last tier is shown with conditions that hold exactly when no
    tier before it applies, for every usage whose fields have values the
    schema lists; otherwise the tiers are shown as they are.  Nothing else of
    the tiers changes. *)
Theorem fallback_conditions_exact schema previous fallback :
  previous <> [] ->
  let shown := display_tiers schema (previous ++ [fallback]) in
  match complement schema previous with
  | Some [remaining] =>
      shown = previous ++ [with_conditions fallback remaining] /\
      forall usage, valid_usage schema usage previous ->
        applies usage (with_conditions fallback remaining) <->
        (forall t, t ∈ previous -> ~ applies usage t)
  | _ => shown = previous ++ [fallback]
  end.
Proof.
  intros Hp shown. unfold shown, display_tiers, at_last, complement.
  rewrite last_snoc, length_app. cbn [length].
  destruct (Nat.ltb_spec (length previous + 1) 2); [destruct previous; [done|cbn in *; lia]|].
  replace (length previous + 1 - 1) with (length previous) by lia. rewrite take_app_length.
  change (sort_strings _) with (condition_fields previous).
  destruct (condition_combinations schema _ [[]]) as [result|] eqn:R; [|done]. cbn [mbind option_bind].
  destruct (List.filter _ result) as [|remaining [|]] eqn:U; [done| |done].
  split; [done|]. intros usage V. by eapply remaining_applies.
Qed.

Lemma fallback_conditions_exact_witness :
  let previous := [MkTaskTier (js "HD") [MkTaskCondition (js "quality") (js "hd")] num_zero []] in
  let fallback := MkTaskTier (js "SD") [] num_zero [] in
  let remaining := [MkTaskCondition (js "quality") (js "sd")] in
  display_tiers sample_schema (previous ++ [fallback]) = previous ++ [with_conditions fallback remaining].
Proof.
  intros previous fallback remaining.
  pose proof (fallback_conditions_exact sample_schema previous fallback ltac:(discriminate)) as T.
  assert (complement sample_schema previous = Some [remaining]) as E by (vm_compute; reflexivity).
  rewrite E in T. exact (proj1 T).
Defined.
