(* ===== verification/TenantStorage.v ===== *)
(** * Workspace scoping

    Models [lib/tenant.ts]: storage keys and request addresses of one
    workspace.  A [Storage] is the list of its entries in the order
    [key(i)] enumerates them; a new key comes last.  Whether a value still
    fits is the browser's decision, a parameter.  The theorems: a scoped
    storage behaves like a storage of its own however other scopes use the
    shared one, and a relative request address stays on the page's host. *)

From Stdlib Require Import ZArith Lia Bool.
From stdpp Require Import base list numbers.
From S2P Require Import Prelude JsString JsObject ExprStructureFacts.

(** ** Web storage *)

Definition Store : Type := list (str * str).

(** The operations of the [Storage] interface and their results. *)
Inductive StorageOp :=
| OpLength
| OpKey (index : nat)
| OpGet (key : str)
| OpSet (key value : str)
| OpRemove (key : str)
| OpClear.

Inductive StorageResult :=
| ResNumber (n : nat)
| ResText (s : option str)
| ResNone
| ResThrown.

Definition put_item (st : Store) (k v : str) : Store :=
  if has_key st k then replace_key st k v else st ++ [(k, v)].

Definition remove_item (st : Store) (k : str) : Store :=
  List.filter (fun e => negb (str_eqb e.1 k)) st.

(** One call on a storage; [admits] says whether a new value fits. *)
Definition web_run (admits : str -> str -> bool) (op : StorageOp) (st : Store)
  : StorageResult * Store :=
  match op with
  | OpLength => (ResNumber (length st), st)
  | OpKey i => (ResText (fst <$> st !! i), st)
  | OpGet k => (ResText (assoc_str st k), st)
  | OpSet k v => if admits k v then (ResNone, put_item st k v) else (ResThrown, st)
  | OpRemove k => (ResNone, remove_item st k)
  | OpClear => (ResNone, [])
  end.

(** ** The scoped storage *)

(** The host: [window.location.host], absent outside a browser, and the
    decision whether a value fits. *)
Class Browser := {
  location_host : option str;
  storage_admits : Store -> str -> str -> bool
}.

Section Tenant.
Context `{Browser}.

Definition tenantStorageHost : str :=
  match location_host with Some (c :: h) => c :: h | _ => js "platform" end.

Definition tenantKey (key : str) : str := js "new-api:" ++ tenantStorageHost ++ js ":" ++ key.

(** [keys()]: [None] is a storage that cannot be reached. *)
Definition scoped_keys (prefix : str) (storage : option Store) : list str :=
  match storage with
  | None => []
  | Some current => List.filter (starts_with prefix) (map fst current)
  end.

(** The calls of the object [scopedStorage] returns. *)
Definition scoped_run (prefix : str) (op : StorageOp) (storage : option Store)
  : StorageResult * option Store :=
  match op with
  | OpLength => (ResNumber (length (scoped_keys prefix storage)), storage)
  | OpKey i => (ResText (drop (length prefix) <$> scoped_keys prefix storage !! i), storage)
  | OpGet k => (ResText (st ← storage; assoc_str st (prefix ++ k)), storage)
  | OpSet k v =>
      match storage with
      | None => (ResNone, None)
      | Some st =>
          let '(r, st') := web_run (storage_admits st) (OpSet (prefix ++ k) v) st in (r, Some st')
      end
  | OpRemove k => (ResNone, (fun st => remove_item st (prefix ++ k)) <$> storage)
  | OpClear =>
      (ResNone, fold_left (fun s key => (fun st => remove_item st key) <$> s)
                  (scoped_keys prefix storage) storage)
  end.

Definition tenantStorage : StorageOp -> option Store -> StorageResult * option Store :=
  scoped_run (tenantKey []).
End Tenant.

(** ** Request addresses *)

(** The scheme part of [ABSOLUTE_URL] after its first letter. *)
Definition scheme_char (c : N) : bool :=
  is_alpha c || is_digit c || (c =? 43)%N || (c =? 45)%N || (c =? 46)%N.

(** [ABSOLUTE_URL]: an optional scheme, then two slashes. *)
Definition is_absolute_url (s : str) : bool :=
  starts_with (js "//") s ||
  match s with
  | c :: s' => is_alpha c && starts_with (js "://") (span scheme_char s').2
  | [] => false
  end.

Record RequestURL := MkRequestURL { rq_url : option str; rq_baseURL : option str }.

Definition applyTenantRequestURL (config : RequestURL) : RequestURL :=
  let url := default [] (rq_url config) in
  match url with
  | [] => config
  | _ =>
      if is_absolute_url url then config
      else if match rq_baseURL config with Some (c :: b) => is_absolute_url (c :: b) | _ => false end
      then config
      else MkRequestURL (Some (if starts_with (js "/") url then url else js "/" ++ url)) (Some (js "/"))
  end.

Definition tenantPath (path : str) : str :=
  if negb (starts_with (js "/") path) || starts_with (js "//") path then path else path.

Definition getTenantBasePath (_ : option str) : str := [].
Definition tenantBasePath : str := [].
Definition currentTenantBasePath : str := [].

Definition isPlatformPath (pathname : str) : bool :=
  str_eqb pathname (js "/platform") || starts_with (js "/platform/") pathname.

(** The shell the page was served with, and the host name; [None] outside a
    browser. *)
Definition isPlatformShell (pathname : str) (shell : option str) (hostname : option str) : bool :=
  if isPlatformPath pathname then true
  else if bool_decide (shell = Some (js "platform")) then true
  else if negb (str_eqb pathname (js "/")) && negb (str_eqb pathname []) then false
  else
    match hostname with
    | None => true
    | Some h => includes_str [js "localhost"; js "127.0.0.1"; js "[::1]"] h
    end.

(** ** The entries of a scope *)

Definition in_scope (prefix : str) (e : str * str) : bool := starts_with prefix e.1.
Definition unprefix (prefix : str) (e : str * str) : str * str := (drop (length prefix) e.1, e.2).

(** What a scope holds, and what it does not. *)
Definition view (prefix : str) (st : Store) : Store :=
  map (unprefix prefix) (List.filter (in_scope prefix) st).
Definition outside (prefix : str) (st : Store) : Store :=
  List.filter (fun e => negb (in_scope prefix e)) st.

Lemma starts_with_split p s : starts_with p s = true <-> exists r, s = p ++ r.
Proof.
  split.
  - revert s. induction p as [|c p IH]; intros s Hs; [by exists s|].
    destruct s as [|d s]; [done|]. cbn in Hs. apply andb_true_iff in Hs as [E Hs].
    apply N.eqb_eq in E as ->. destruct (IH s Hs) as [r ->]. by exists r.
  - intros [r ->]. apply starts_with_self.
Qed.

Lemma drop_prefix (p r : str) : drop (length p) (p ++ r) = r.
Proof. apply drop_app_length. Qed.

(** An entry of the scope has the key of its view. *)
Lemma scope_key prefix e k :
  in_scope prefix e = true -> str_eqb e.1 (prefix ++ k) = str_eqb (unprefix prefix e).1 k.
Proof.
  intros Hs. apply starts_with_split in Hs as [r E]. cbn. rewrite E, drop_prefix.
  apply eq_true_iff_eq. rewrite !str_eqb_eq. split; [apply app_inv_head|congruence].
Qed.

Lemma other_key prefix e k : in_scope prefix e = false -> str_eqb e.1 (prefix ++ k) = false.
Proof.
  intros Hs. apply str_eqb_neq. intros E. unfold in_scope in Hs. by rewrite E, starts_with_self in Hs.
Qed.

Section Scope.
Variable prefix : str.

Lemma view_cons e st :
  view prefix (e :: st) = if in_scope prefix e then unprefix prefix e :: view prefix st else view prefix st.
Proof. unfold view. cbn. by destruct (in_scope prefix e). Qed.

Lemma outside_cons e st :
  outside prefix (e :: st) = if in_scope prefix e then outside prefix st else e :: outside prefix st.
Proof. unfold outside. cbn. by destruct (in_scope prefix e). Qed.

Lemma view_app s t : view prefix (s ++ t) = view prefix s ++ view prefix t.
Proof. unfold view. by rewrite filter_app, map_app. Qed.

Lemma outside_app s t : outside prefix (s ++ t) = outside prefix s ++ outside prefix t.
Proof. unfold outside. by rewrite filter_app. Qed.

Lemma view_lookup st k : assoc_str (view prefix st) k = assoc_str st (prefix ++ k).
Proof.
  induction st as [|e st IH]; [done|]. rewrite view_cons. destruct e as [k' v]. cbn [assoc_str].
  destruct (in_scope prefix (k', v)) eqn:E.
  - pose proof (scope_key prefix (k', v) k E) as K. cbn [fst] in K. rewrite K.
    cbn [assoc_str unprefix fst snd]. by rewrite IH.
  - pose proof (other_key prefix (k', v) k E) as K. cbn [fst] in K. by rewrite K.
Qed.

Lemma view_has_key st k : has_key (view prefix st) k = has_key st (prefix ++ k).
Proof. by rewrite !has_key_assoc, view_lookup. Qed.

Lemma replace_view st k v :
  view prefix (replace_key st (prefix ++ k) v) = replace_key (view prefix st) k v /\
  outside prefix (replace_key st (prefix ++ k) v) = outside prefix st.
Proof.
  induction st as [|[k' v'] st [IHv IHo]]; [done|]. cbn [replace_key].
  destruct (in_scope prefix (k', v')) eqn:E.
  - pose proof (scope_key prefix (k', v') k E) as K. cbn [fst] in K. rewrite K.
    rewrite view_cons, outside_cons, E. cbn [replace_key unprefix fst snd].
    destruct (str_eqb (drop (length prefix) k') k).
    + assert (in_scope prefix (k', v) = true) as E' by exact E.
      rewrite view_cons, outside_cons, E'. done.
    + rewrite view_cons, outside_cons, E, IHv, IHo. done.
  - pose proof (other_key prefix (k', v') k E) as K. cbn [fst] in K. rewrite K.
    rewrite !view_cons, !outside_cons, E, IHv, IHo. done.
Qed.

Lemma put_view st k v :
  view prefix (put_item st (prefix ++ k) v) = put_item (view prefix st) k v /\
  outside prefix (put_item st (prefix ++ k) v) = outside prefix st.
Proof.
  unfold put_item. rewrite view_has_key. destruct (has_key st (prefix ++ k)); [apply replace_view|].
  assert (in_scope prefix (prefix ++ k, v) = true) as E by apply starts_with_self.
  rewrite view_app, outside_app, view_cons, outside_cons, E. unfold unprefix. cbn [fst snd].
  rewrite drop_prefix. split; [done|apply app_nil_r].
Qed.

Lemma remove_view st k :
  view prefix (remove_item st (prefix ++ k)) = remove_item (view prefix st) k /\
  outside prefix (remove_item st (prefix ++ k)) = outside prefix st.
Proof.
  induction st as [|e st [IHv IHo]]; [done|]. cbn [remove_item List.filter].
  rewrite view_cons, outside_cons. fold (remove_item st (prefix ++ k)).
  destruct (in_scope prefix e) eqn:E.
  - rewrite scope_key by done. cbn [remove_item List.filter].
    fold (remove_item (view prefix st) k). destruct (str_eqb _ k); cbn [negb].
    + by rewrite IHv, IHo.
    + by rewrite view_cons, outside_cons, E, IHv, IHo.
  - rewrite other_key by done. cbn [negb]. by rewrite view_cons, outside_cons, E, IHv, IHo.
Qed.

Lemma keys_view st : map (drop (length prefix)) (scoped_keys prefix (Some st)) = map fst (view prefix st).
Proof.
  cbn [scoped_keys]. induction st as [|e st IH]; [done|]. rewrite view_cons. cbn [map List.filter].
  change (starts_with prefix e.1) with (in_scope prefix e). destruct (in_scope prefix e); cbn [map].
  - by rewrite IH.
  - exact IH.
Qed.

(** Removing the keys of the scope one by one leaves the others. *)
Lemma clear_scope st :
  fold_left (fun s key => (fun st => remove_item st key) <$> s) (scoped_keys prefix (Some st)) (Some st)
  = Some (outside prefix st).
Proof.
  assert (forall ks s, fold_left (fun s key => (fun st => remove_item st key) <$> s) ks (Some s)
    = Some (List.filter (fun e : str * str => negb (includes_str ks e.1)) s)) as F.
  { induction ks as [|k ks IH]; intros s; cbn [fold_left fmap option_fmap option_map].
    - f_equal. induction s as [|e s IHs]; [done|]. cbn. by f_equal.
    - rewrite IH. f_equal. clear IH. unfold remove_item. induction s as [|e s IHs]; [done|].
      unfold includes_str in *. cbn [List.filter existsb].
      destruct (str_eqb e.1 k); cbn [negb orb List.filter]; [done|].
      destruct (existsb (str_eqb e.1) ks); cbn [negb]; [done|]. by rewrite IHs. }
  rewrite F. f_equal. unfold outside. apply filter_ext_in. intros e He. f_equal.
  apply eq_true_iff_eq. rewrite includes_str_elem. cbn [scoped_keys].
  rewrite list_elem_of_In, filter_In. unfold in_scope. split; [by intros [_ ?]|].
  intros Hs. split; [by apply in_map|done].
Qed.

Lemma outside_view st : view prefix (outside prefix st) = [] /\ outside prefix (outside prefix st) = outside prefix st.
Proof.
  induction st as [|e st [IHv IHo]]; [done|]. rewrite outside_cons.
  destruct (in_scope prefix e) eqn:E; [done|]. by rewrite view_cons, outside_cons, E, IHv, IHo.
Qed.

(** One call: the answer is that of a storage with the scope's entries, the
    entries become what that storage becomes, and nothing else changes. *)
Lemma scoped_call `{Browser} op st :
  exists st', (scoped_run prefix op (Some st)).2 = Some st' /\
    web_run (fun k => storage_admits st (prefix ++ k)) op (view prefix st)
    = ((scoped_run prefix op (Some st)).1, view prefix st') /\
    outside prefix st' = outside prefix st.
Proof.
  destruct op as [|i|k|k v|k|]; cbn [scoped_run web_run fst snd].
  - exists st. split; [done|]. split; [|done]. do 2 f_equal.
    pose proof (f_equal length (keys_view st)) as L. by rewrite !length_map in L.
  - exists st. split; [done|]. split; [|done]. do 2 f_equal.
    pose proof (f_equal (fun l : list str => l !! i) (keys_view st)) as L. cbn beta in L.
    change (map ?f ?l) with (f <$> l) in L. rewrite !list_lookup_fmap in L. by rewrite L.
  - exists st. split; [done|]. split; [|done]. by rewrite view_lookup.
  - destruct (storage_admits st (prefix ++ k) v); cbn [fst snd].
    + destruct (put_view st k v) as [Ev Eo]. eexists. split; [done|]. by rewrite Ev, Eo.
    + by exists st.
  - destruct (remove_view st k) as [Ev Eo]. eexists. split; [done|]. by rewrite Ev, Eo.
  - rewrite clear_scope. destruct (outside_view st) as [Ev Eo]. exists (outside prefix st).
    by rewrite Ev, Eo.
Qed.
End Scope.

(** ** Isolation *)

(** Calls of two workspaces on one storage, in any order. *)
Fixpoint run_shared `{Browser} (p q : str) (calls : list (bool * StorageOp)) (st : option Store)
  : list (bool * StorageResult) :=
  match calls with
  | [] => []
  | (mine, op) :: rest =>
      let '(r, st') := scoped_run (if mine then p else q) op st in
      (mine, r) :: run_shared p q rest st'
  end.

(** Calls on a storage of one's own. *)
Fixpoint run_alone (calls : list StorageOp) (st : Store) : list StorageResult :=
  match calls with
  | [] => []
  | op :: rest => let '(r, st') := web_run (fun _ _ => true) op st in r :: run_alone rest st'
  end.

Definition mine {A} (l : list (bool * A)) : list A := map snd (List.filter fst l).

(** Entries of one scope do not show in the other. *)
Lemma disjoint_scopes p q st :
  (forall k, starts_with p k = true -> starts_with q k = false) -> view p (outside q st) = view p st.
Proof.
  intros D. induction st as [|e st IH]; [done|]. rewrite outside_cons, view_cons.
  unfold in_scope at 2. destruct (starts_with p e.1) eqn:Ep.
  - unfold in_scope. rewrite (D _ Ep). rewrite view_cons. unfold in_scope. by rewrite Ep, IH.
  - destruct (in_scope q e); [done|]. rewrite view_cons. unfold in_scope. by rewrite Ep.
Qed.

Lemma shared_results `{Browser} p q calls : forall st,
  (forall st k v, storage_admits st k v = true) ->
  (forall k, starts_with p k = true -> starts_with q k = false) ->
  mine (run_shared p q calls (Some st)) = run_alone (mine calls) (view p st).
Proof.
  intros st Hfits D. revert st. induction calls as [|[[] op] calls IH]; intros st; [done|..].
  - cbn [run_shared]. destruct (scoped_call p op st) as (st' & E & W & _).
    destruct (scoped_run p op (Some st)) as [r s']. cbn [fst snd] in E, W. subst s'.
    unfold mine in *. cbn [List.filter fst map snd run_alone].
    assert (web_run (fun _ _ => true) op (view p st) = (r, view p st')) as ->; [|by rewrite IH].
    rewrite <- W. destruct op; try done. cbn [web_run]. by rewrite Hfits.
  - cbn [run_shared]. destruct (scoped_call q op st) as (st' & E & _ & O).
    destruct (scoped_run q op (Some st)) as [r s']. cbn [fst snd] in E, O. subst s'.
    unfold mine in *. cbn [List.filter fst map]. rewrite IH.
    by rewrite <- (disjoint_scopes p q st'), O, disjoint_scopes.
Qed.

(** A workspace has its storage to itself.  Two scopes whose prefixes
    share no key are used on one browser storage in any order; the answers
    the first one gets, its enumeration and its clearing included, are those
    of a storage of its own that holds the entries of its scope, as long as
    the browser's storage is not full. *)
Theorem scoped_storage_isolated `{Browser} p q calls st :
  (forall st k v, storage_admits st k v = true) ->
  (forall k, starts_with p k = true -> starts_with q k = false) ->
  mine (run_shared p q calls (Some st)) = run_alone (mine calls) (view p st).
Proof. apply shared_results. Qed.

Definition sample_browser : Browser :=
  {| location_host := Some (js "a.example"); storage_admits := fun _ _ _ => true |}.

Lemma same_length_scopes p q k :
  length p = length q -> p <> q -> starts_with p k = true -> starts_with q k = false.
Proof.
  intros L N (r & ->)%starts_with_split. apply not_true_iff_false.
  intros (r' & E)%starts_with_split. by apply app_inj_1 in E as [? _].
Qed.

Lemma scoped_storage_isolated_witness :
  let _ := sample_browser in
  mine (run_shared (js "a:") (js "b:")
    [(true, OpSet (js "x") (js "1")); (false, OpSet (js "x") (js "2")); (false, OpClear);
     (true, OpLength); (true, OpGet (js "x"))] (Some []))
  = [ResNone; ResNumber 1; ResText (Some (js "1"))].
Proof.
  intros B. rewrite (scoped_storage_isolated (js "a:") (js "b:")); [vm_compute; reflexivity|done|].
  intros k. by apply same_length_scopes.
Defined.

(** *** Request addresses *)

Definition rooted (url : str) : str := if starts_with (js "/") url then url else js "/" ++ url.

Lemma rooted_path url :
  url <> [] -> is_absolute_url url = false ->
  rooted url <> [] /\ starts_with (js "/") (rooted url) = true /\
  starts_with (js "//") (rooted url) = false /\ is_absolute_url (rooted url) = false.
Proof.
  intros Hn Ha. unfold rooted. destruct (starts_with (js "/") url) eqn:E.
  - split; [done|]. split; [done|]. split; [|done]. by apply orb_false_iff in Ha as [? _].
  - destruct url as [|c url]; [done|]. assert ((47 =? c)%N = false) as Ec.
    { change (js "/") with [47%N] in E. cbn in E. by rewrite andb_true_r in E. }
    assert (starts_with (js "//") (js "/" ++ c :: url) = false) as Es.
    { change (js "//") with [47%N; 47%N]. change (js "/") with [47%N].
      cbn [app starts_with]. by rewrite Ec. }
    split; [done|]. split; [done|]. split; [done|]. unfold is_absolute_url. by rewrite Es.
Qed.

Lemma root_base : is_absolute_url (js "/") = false.
Proof. vm_compute. reflexivity. Qed.

Definition absolute_base (config : RequestURL) : bool :=
  match rq_baseURL config with Some (c :: b) => is_absolute_url (c :: b) | _ => false end.

Lemma request_cases config :
  applyTenantRequestURL config =
    match default [] (rq_url config) with
    | [] => config
    | url => if is_absolute_url url || absolute_base config then config
             else MkRequestURL (Some (rooted url)) (Some (js "/"))
    end.
Proof.
  unfold applyTenantRequestURL. destruct (default [] (rq_url config)) as [|c u]; [done|].
  unfold absolute_base. destruct (is_absolute_url (c :: u)); [done|]. cbn [orb].
  by destruct (match rq_baseURL config with Some (d :: b) => _ | _ => _ end).
Qed.

Lemma request_idempotent config :
  applyTenantRequestURL (applyTenantRequestURL config) = applyTenantRequestURL config.
Proof.
  rewrite (request_cases config). destruct (default [] (rq_url config)) as [|c u] eqn:U.
  { by rewrite (request_cases config), U. }
  cbv zeta iota. destruct (is_absolute_url (c :: u) || absolute_base config) eqn:A.
  { rewrite (request_cases config), U. cbv zeta iota. by rewrite A. }
  apply orb_false_iff in A as [A _]. destruct (rooted_path (c :: u) ltac:(done) A) as (N & S & _ & R).
  rewrite request_cases. change (default [] (rq_url (MkRequestURL (Some ?x) ?y))) with x.
  destruct (rooted (c :: u)) as [|d v] eqn:E; [done|].
  cbv zeta iota. rewrite R. unfold absolute_base. cbn [rq_baseURL].
  change (match js "/" with c :: b => is_absolute_url (c :: b) | [] => false end)
    with (is_absolute_url (js "/")).
  rewrite root_base. cbn [orb]. unfold rooted at 1. by rewrite S.
Qed.

(** A request address that is not absolute stays on the page's host: it
    is rewritten to a path from the root that does not read as another host,
    with the root as its base, unless the caller gave an absolute base; an
    absolute address is left as it is, and rewriting again changes nothing. *)
Theorem relative_requests_stay config url :
  rq_url config = Some url -> url <> [] ->
  let result := applyTenantRequestURL config in
  (is_absolute_url url || absolute_base config = true -> result = config) /\
  (is_absolute_url url || absolute_base config = false ->
     exists path, result = MkRequestURL (Some path) (Some (js "/")) /\
       (path = url \/ path = js "/" ++ url) /\
       starts_with (js "/") path = true /\ starts_with (js "//") path = false) /\
  applyTenantRequestURL result = result.
Proof.
  intros U N result. split; [|split; [|apply request_idempotent]]; intros A;
    unfold result; rewrite request_cases, U; change (default [] (Some ?x)) with x;
    (destruct url as [|c u]; [done|]); cbv zeta iota; rewrite A; [done|].
  exists (rooted (c :: u)). split; [done|]. apply orb_false_iff in A as [A _].
  destruct (rooted_path (c :: u) N A) as (_ & S & S2 & _).
  split; [|done]. unfold rooted. destruct (starts_with (js "/") (c :: u)); [by left|by right].
Qed.

Lemma relative_requests_stay_witness :
  applyTenantRequestURL (MkRequestURL (Some (js "api/user")) None)
  = MkRequestURL (Some (js "/api/user")) (Some (js "/")).
Proof.
  destruct (relative_requests_stay (MkRequestURL (Some (js "api/user")) None) (js "api/user")
    eq_refl ltac:(discriminate)) as (_ & R & _).
  destruct R as (path & E & P & S & _); [vm_compute; reflexivity|]. rewrite E.
  destruct P as [->| ->]; [discriminate S|reflexivity].
Defined.
