(* ===== verification/OAuth.v ===== *)
(** * OAuth windows

    Models [features/auth/lib/oauth-callback-mode.ts], [oauth-popup.ts] and
    [oauth-bind-window.ts]: a popup is opened, stamped with the flow it
    belongs to, sent to the provider, and hands the provider's answer back by
    a message.  The popup is a transition system: events of the browser, of
    the caller and of other windows in any order.  [event.data] is any value. *)

From Stdlib Require Import ZArith Lia Bool SpecFloat.
From stdpp Require Import base list numbers.
From S2P Require Import Prelude JsString JsObject JsNumber JsValue JsJson TenantStorage.

(** ** oauth-callback-mode.ts *)

Definition OAUTH_POPUP_FLOW_KEY_PREFIX : str := js "oauth_popup_flow:".

Inductive OAuthIntent := intent_bind | intent_verify.
Inductive OAuthCallbackMode := mode_login | mode_bind | mode_verify.

Definition intent_text (i : OAuthIntent) : str :=
  match i with intent_bind => js "bind" | intent_verify => js "verify" end.
Definition intent_mode (i : OAuthIntent) : OAuthCallbackMode :=
  match i with intent_bind => mode_bind | intent_verify => mode_verify end.

(** [JSON.stringify({ state, intent })] *)
Definition flow_marker (state : str) (intent : OAuthIntent) : str :=
  [123%N] ++ json_stringify (js "state") ++ [58%N] ++ json_stringify state ++ [44%N] ++
  json_stringify (js "intent") ++ [58%N] ++ json_stringify (intent_text intent) ++ [125%N].

Definition flow_key (provider : str) : str := OAUTH_POPUP_FLOW_KEY_PREFIX ++ provider.

Section CallbackMode.
Context `{Browser}.

(** The session storage of the workspace; [None] when it cannot be reached. *)
Definition redirect_key (state : str) : str := js "oauth_login_redirect:" ++ state.

Definition rememberOAuthLoginRedirect (state : str) (redirect : option str)
    (storage : option Store) : option Store :=
  match redirect with
  | None | Some [] => storage
  | Some redirect => (tenantStorage (OpSet (redirect_key state) redirect) storage).2
  end.

Definition consumeOAuthLoginRedirect (state : str) (storage : option Store)
  : option str * option Store :=
  match tenantStorage (OpGet (redirect_key state)) storage with
  | (ResText redirect, storage1) =>
      (redirect, (tenantStorage (OpRemove (redirect_key state)) storage1).2)
  | (_, storage1) => (None, storage1)
  end.

(** The facade of [getOAuthSessionStorage]: keys get the workspace's prefix. *)
Definition mode_get (st : Store) (key : str) : option str := assoc_str st (tenantKey key).

(** [markOAuthPopup]: whether the stamp is stored, and the storage after it. *)
Definition markOAuthPopup (storage : option Store) (provider state : str) (intent : OAuthIntent)
  : bool * option Store :=
  match storage with
  | None => (false, None)
  | Some st =>
      match provider, state with
      | [], _ | _, [] => (false, Some st)
      | _, _ =>
          let marker := flow_marker state intent in
          match web_run (storage_admits st) (OpSet (tenantKey (flow_key provider)) marker) st with
          | (ResThrown, st') => (false, Some st')
          | (_, st') => (bool_decide (mode_get st' (flow_key provider) = Some marker), Some st')
          end
      end
  end.

(** [marker] as the page reads it: ['state' in marker], [marker.state]. *)
Definition marker_mode (state : str) (marker : jsval) : OAuthCallbackMode :=
  match marker with
  | JObj fields =>
      match assoc_str fields (js "state"), assoc_str fields (js "intent") with
      | Some s, Some i =>
          if negb (strict_eq_primitive s (JStr state)) then mode_login
          else if strict_eq_primitive i (JStr (js "bind")) then mode_bind
          else if strict_eq_primitive i (JStr (js "verify")) then mode_verify
          else mode_login
      | _, _ => mode_login
      end
  | _ => mode_login
  end.

(** [opener]: whether there is one, and whether it is closed. *)
Definition resolveOAuthCallbackMode (provider state : str) (opener_closed : option bool)
    (storage : option Store) : OAuthCallbackMode :=
  match opener_closed, storage, state with
  | Some false, Some st, _ :: _ =>
      match mode_get st (flow_key provider) with
      | None | Some [] => mode_login
      | Some value =>
          match json_parse value with
          | Ok marker => marker_mode state marker
          | _ => mode_login
          end
      end
  | _, _, _ => mode_login
  end.
End CallbackMode.

(** ** oauth-bind-window.ts *)

Inductive TelegramBindCallback :=
| TelegramResult (flowToken : str) (success : bool) (code : option str)
| TelegramInvalid.

Definition parseTelegramBindCallback (telegram_bind flow_token error_code : option str)
  : option TelegramBindCallback :=
  let bind_is s := bool_decide (telegram_bind = Some s) in
  if negb (bind_is (js "success")) && negb (bind_is (js "error")) then None
  else
    match flow_token with
    | None | Some [] => Some TelegramInvalid
    | Some token =>
        if bind_is (js "success") then Some (TelegramResult token true None)
        else Some (TelegramResult token false error_code)
    end.

Record TelegramMessage := MkTelegramMessage {
  tg_flow_token : str;
  tg_success : bool;
  tg_code : option str;
  tg_targetOrigin : str
}.

(** The message posted to the opener, if any; the answer is whether one was. *)
Definition postTelegramBindResult (callback : option TelegramBindCallback)
    (opener_closed : option bool) (targetOrigin : str) : option TelegramMessage :=
  match callback, opener_closed with
  | Some (TelegramResult token success code), Some false =>
      Some (MkTelegramMessage token success code targetOrigin)
  | _, _ => None
  end.

(** The two timers share their closure: [active], and the handle scheduled. *)
Record TimerState := MkTimer { tm_active : bool; tm_scheduled : bool; tm_calls : nat }.

Definition timer_start : TimerState := MkTimer true true 0.

(** The callback of [startOAuthBindResponseDeadline]; a fired timeout is gone. *)
Definition deadline_fires (t : TimerState) : TimerState :=
  if tm_scheduled t then
    if tm_active t then MkTimer false false (S (tm_calls t)) else MkTimer false false (tm_calls t)
  else t.

(** The callback of [watchOAuthPopupClosed], called again and again. *)
Definition watch_fires (popup_closed : bool) (t : TimerState) : TimerState :=
  if tm_scheduled t then
    if negb (tm_active t) || negb popup_closed then t
    else MkTimer false false (S (tm_calls t))
  else t.

(** The function both return. *)
Definition timer_stop (t : TimerState) : TimerState :=
  if tm_active t then MkTimer false false (tm_calls t) else t.

(** ** oauth-popup.ts *)

Definition OAUTH_POPUP_CALLBACK_MESSAGE : str := js "oauth:popup:callback".
Definition OAUTH_POPUP_RESULT_MESSAGE : str := js "oauth:popup:result".

Record OAuthPopupCallback := MkCallback {
  cb_provider : str;
  cb_state : str;
  cb_code : jsval;
  cb_error : jsval;
  cb_errorDescription : option str
}.

Inductive PopupFailure (E : Type) :=
| PopupBlocked
| PopupCancelled
| PopupTimedOut
| StorageUnavailable
| Foreign (e : E).
Arguments PopupBlocked {E}.
Arguments PopupCancelled {E}.
Arguments PopupTimedOut {E}.
Arguments StorageUnavailable {E}.
Arguments Foreign {E}.

(** What the popup is told at the end. *)
Record PopupResult := MkResult {
  pr_intent : OAuthIntent;
  pr_provider : str;
  pr_state : str;
  pr_success : bool;
  pr_message : option str;
  pr_targetOrigin : str
}.

Section Popup.
Context `{Browser} {E : Type}.
Variables (origin provider : str) (intent : OAuthIntent).

Record Popup := MkPopup {
  pu_state : str;
  pu_received : bool;
  pu_finished : bool;
  pu_listening : bool;
  pu_abortable : bool;
  pu_watcher : TimerState;
  pu_deadline : bool;
  pu_preparing : bool;
  pu_signal : option (PopupFailure E);
  pu_closed : bool;
  pu_storage : option Store;
  pu_location : option str;
  pu_posted : list PopupResult;
  pu_settled : option (OAuthPopupCallback + PopupFailure E)
}.

(** A promise settles once. *)
Definition settle (o : option (OAuthPopupCallback + PopupFailure E))
    (r : OAuthPopupCallback + PopupFailure E) : option (OAuthPopupCallback + PopupFailure E) :=
  match o with Some _ => o | None => Some r end.

Definition cleanup (s : Popup) : Popup :=
  MkPopup (pu_state s) (pu_received s) (pu_finished s) false false (timer_stop (pu_watcher s)) false
    (pu_preparing s) (pu_signal s) (pu_closed s) (pu_storage s) (pu_location s) (pu_posted s)
    (pu_settled s).

Definition popup_fail (error : PopupFailure E) (s : Popup) : Popup :=
  if pu_finished s then s
  else
    let s := cleanup s in
    MkPopup (pu_state s) (pu_received s) true (pu_listening s) (pu_abortable s) (pu_watcher s)
      (pu_deadline s) (pu_preparing s)
      (match pu_signal s with Some e => Some e | None => Some error end)
      true (pu_storage s) (pu_location s) (pu_posted s) (settle (pu_settled s) (inr error)).

Definition popup_finish (success : bool) (message : option str) (s : Popup) : Popup :=
  if pu_finished s then s
  else
    let s := cleanup s in
    MkPopup (pu_state s) (pu_received s) true (pu_listening s) (pu_abortable s) (pu_watcher s)
      (pu_deadline s) (pu_preparing s) (pu_signal s) true (pu_storage s) (pu_location s)
      (if pu_closed s then pu_posted s
       else pu_posted s ++ [MkResult intent provider (pu_state s) success message origin])
      (pu_settled s).

Definition is_text (v : jsval) : bool := match v with JStr _ => true | _ => false end.
Definition as_text (v : jsval) : option str := match v with JStr s => Some s | _ => None end.

(** The guards of [onMessage], after those on the window. *)
Definition accepts_message (state : str) (message : jsval) : bool :=
  let field := get_field message in
  strict_eq_primitive (field (js "type")) (JStr OAUTH_POPUP_CALLBACK_MESSAGE) &&
  strict_eq_primitive (field (js "intent")) (JStr (intent_text intent)) &&
  strict_eq_primitive (field (js "provider")) (JStr provider) &&
  strict_eq_primitive (field (js "state")) (JStr state) &&
  (is_text (field (js "code")) || is_text (field (js "error"))).

Definition onMessage (event_origin : str) (from_popup : bool) (message : jsval) (s : Popup) : Popup :=
  if pu_received s || pu_finished s || str_eqb (pu_state s) [] ||
     negb (str_eqb event_origin origin) || negb from_popup then s
  else if negb (accepts_message (pu_state s) message) then s
  else
    MkPopup (pu_state s) true (pu_finished s) false (pu_abortable s) (timer_stop (pu_watcher s)) false
      (pu_preparing s) (pu_signal s) (pu_closed s) (pu_storage s) (pu_location s) (pu_posted s)
      (settle (pu_settled s)
         (inl (MkCallback provider (pu_state s) (get_field message (js "code"))
                 (get_field message (js "error"))
                 (as_text (get_field message (js "errorDescription")))))).

(** The continuation of [prepare]. *)
Definition on_prepared (state url : str) (s : Popup) : Popup :=
  if pu_finished s || pu_closed s then s
  else
    let '(marked, storage) := markOAuthPopup (pu_storage s) provider state intent in
    let s' :=
      MkPopup state (pu_received s) (pu_finished s) (pu_listening s) (pu_abortable s) (pu_watcher s)
        (pu_deadline s) (pu_preparing s) (pu_signal s) (pu_closed s) storage
        (if marked then Some url else pu_location s) (pu_posted s) (pu_settled s) in
    if marked then s' else popup_fail StorageUnavailable s'.

Definition stop_preparing (s : Popup) : Popup :=
  MkPopup (pu_state s) (pu_received s) (pu_finished s) (pu_listening s) (pu_abortable s)
    (pu_watcher s) (pu_deadline s) false (pu_signal s) (pu_closed s) (pu_storage s) (pu_location s)
    (pu_posted s) (pu_settled s).

Definition close_window (s : Popup) : Popup :=
  MkPopup (pu_state s) (pu_received s) (pu_finished s) (pu_listening s) (pu_abortable s)
    (pu_watcher s) (pu_deadline s) (pu_preparing s) (pu_signal s) true (pu_storage s) (pu_location s)
    (pu_posted s) (pu_settled s).

Inductive PopupEvent :=
| Prepared (state url : str)
| PrepareFailed (e : E)
| Message (event_origin : str) (from_popup : bool) (data : jsval)
| Aborted (e : E)
| WindowClosed
| WatchTick
| DeadlineFires
| FinishCalled (success : bool) (message : option str).

(** [watchOAuthPopupClosed] with [fail] as its callback. *)
Definition on_watch_tick (s : Popup) : Popup :=
  let w := watch_fires (pu_closed s) (pu_watcher s) in
  let s' :=
    MkPopup (pu_state s) (pu_received s) (pu_finished s) (pu_listening s) (pu_abortable s) w
      (pu_deadline s) (pu_preparing s) (pu_signal s) (pu_closed s) (pu_storage s) (pu_location s)
      (pu_posted s) (pu_settled s) in
  if tm_calls (pu_watcher s) <? tm_calls w then popup_fail PopupCancelled s' else s'.

(** A listener or timer that was removed is not called; [prepare] settles
    once; [finish] is part of the exchange the promise resolves with. *)
Definition popup_step (s : Popup) (e : PopupEvent) : Popup :=
  match e with
  | Prepared state url =>
      if pu_preparing s then on_prepared state url (stop_preparing s) else s
  | PrepareFailed err =>
      if pu_preparing s then popup_fail (Foreign err) (stop_preparing s) else s
  | Message o from_popup data => if pu_listening s then onMessage o from_popup data s else s
  | Aborted err => if pu_abortable s then popup_fail (Foreign err) s else s
  | WindowClosed => close_window s
  | WatchTick => on_watch_tick s
  | DeadlineFires => if pu_deadline s then popup_fail PopupTimedOut s else s
  | FinishCalled success message =>
      match pu_settled s with Some (inl _) => popup_finish success message s | _ => s end
  end.

(** The state the promise's executor leaves behind. *)
Definition popup_open (storage : option Store) : Popup :=
  MkPopup [] false false true true timer_start true true None false storage None [] None.

(** [openOAuthPopup] up to its first suspension. *)
Definition openOAuthPopup (aborted : option E) (window : option (option Store))
  : PopupFailure E + Popup :=
  match aborted, window with
  | Some reason, _ => inl (Foreign reason)
  | None, None => inl PopupBlocked
  | None, Some storage => inr (popup_open storage)
  end.

Definition popup_run (s : Popup) (events : list PopupEvent) : Popup := fold_left popup_step events s.
End Popup.

Arguments MkPopup {E}.
Arguments Popup : clear implicits.
Arguments PopupEvent : clear implicits.
