(* ===== verification/OAuthFacts.v ===== *)
(** * OAuth windows, proved

    The popup flow: what the callback page takes for a binding, when the
    promise of [openOAuthPopup] resolves, and that every ending releases the
    listeners, the timers and the window. *)

From Stdlib Require Import ZArith Lia Bool SpecFloat.
From stdpp Require Import base list numbers.
From S2P Require Import Prelude JsString JsObject JsNumber JsValue JsJson TenantStorage OAuth.

(** ** The stamp *)

Lemma json_quoted s fuel r :
  forallb is_unit s = true -> json_value (S fuel) (json_stringify s ++ r) = Ok (JStr s, r).
Proof.
  intros U. unfold json_stringify. cbn [app json_value skip_json drop_while].
  change (is_json_space quote_unit) with false. cbv iota. rewrite N.eqb_refl.
  change (json_escape s ++ [quote_unit]) with (json_escape s ++ [34%N]).
  rewrite <- app_assoc. cbn [app]. by rewrite json_string_escape.
Qed.

(** One member of an object, followed by a comma or by the closing brace. *)
Lemma json_member fuel first acc k v e r :
  forallb is_unit k = true -> forallb is_unit v = true -> is_json_space e = false ->
  json_members (S (S fuel)) first acc (json_stringify k ++ 58%N :: json_stringify v ++ e :: r)
  = if (e =? 44)%N then json_members (S fuel) false (obj_put acc k (JStr v)) r
    else if (e =? 125)%N then Ok (obj_put acc k (JStr v), r) else Throw SyntaxError.
Proof.
  intros Uk Uv He. unfold json_stringify at 1.
  change (json_members (S (S fuel)) first acc ?x)
    with (match skip_json x with
          | [] => Throw SyntaxError
          | c :: s' =>
              if (c =? 125)%N && first then Ok (acc, s')
              else if negb (c =? 34)%N then Throw SyntaxError
              else
                let* (k, r) := or_syntax (json_string s') in
                match skip_json r with
                | [] => Throw SyntaxError
                | d :: r' =>
                    if negb (d =? 58)%N then Throw SyntaxError
                    else
                      let* (v, r'') := json_value (S fuel) r' in
                      match skip_json r'' with
                      | [] => Throw SyntaxError
                      | e :: r3 =>
                          if (e =? 44)%N then json_members (S fuel) false (obj_put acc k v) r3
                          else if (e =? 125)%N then Ok (obj_put acc k v, r3)
                          else Throw SyntaxError
                      end
                end
          end).
  cbn [app skip_json drop_while]. change (is_json_space quote_unit) with false. cbv iota.
  change (quote_unit =? 125)%N with false. change (quote_unit =? 34)%N with true. cbn [andb negb].
  change [quote_unit] with [34%N]. rewrite <- !app_assoc. cbn [app].
  rewrite json_string_escape by done. cbn [or_syntax obind skip_json drop_while].
  change (is_json_space 58) with false. cbv iota. change (58 =? 58)%N with true. cbn [negb].
  rewrite json_quoted by done. cbn [obind skip_json drop_while]. by rewrite He.
Qed.

Lemma parse_marker state intent :
  forallb is_unit state = true ->
  json_parse (flow_marker state intent)
  = Ok (JObj [(js "state", JStr state); (js "intent", JStr (intent_text intent))]).
Proof.
  intros U. unfold json_parse. set (text := flow_marker state intent).
  assert (exists f, 2 * length text + 1 = S (S (S (S f)))) as [f ->].
  { exists (2 * length text - 3). unfold text, flow_marker. rewrite !length_app. cbn [length]. lia. }
  unfold text, flow_marker. cbn [app json_value skip_json drop_while].
  change (is_json_space 123) with false. cbv iota.
  change (123 =? 34)%N with false. change (123 =? 91)%N with false. change (123 =? 123)%N with true.
  cbv iota.
  assert (forallb is_unit (intent_text intent) = true) as Ui by (by destruct intent).
  rewrite json_member by done. change (44 =? 44)%N with true. cbv iota.
  rewrite json_member by done. by destruct intent.
Qed.

Section Mode.
Context `{Browser}.

Lemma tenantKey_inj a b : tenantKey a = tenantKey b -> a = b.
Proof. unfold tenantKey. intros E. by apply app_inv_head, app_inv_head, app_inv_head in E. Qed.

Lemma flow_key_inj a b : flow_key a = flow_key b -> a = b.
Proof. apply app_inv_head. Qed.

Lemma put_lookup (st : Store) k v k' :
  assoc_str (put_item st k v) k' = if str_eqb k k' then Some v else assoc_str st k'.
Proof.
  unfold put_item. destruct (has_key st k) eqn:E.
  - rewrite assoc_replace, E, andb_true_r. done.
  - rewrite assoc_app. cbn. rewrite has_key_assoc in E. destruct (str_eqb k k') eqn:K.
    + apply str_eqb_eq in K as <-. by destruct (assoc_str st k).
    + by destruct (assoc_str st k').
Qed.

(** What a successful stamp leaves in the storage. *)
Lemma mark_spec storage provider state intent storage' :
  markOAuthPopup storage provider state intent = (true, storage') ->
  provider <> [] /\ state <> [] /\ exists st st', storage = Some st /\ storage' = Some st' /\
    forall key, mode_get st' key
      = if str_eqb (flow_key provider) key then Some (flow_marker state intent) else mode_get st key.
Proof.
  unfold markOAuthPopup. destruct storage as [st|]; [|done].
  destruct provider as [|p provider], state as [|c state]; try done. cbn [web_run].
  destruct (storage_admits _ _ _); [|done]. intros E. injection E as _ <-.
  split; [done|]. split; [done|]. eexists st, _. split; [done|]. split; [done|].
  intros key. unfold mode_get. rewrite put_lookup.
  destruct (str_eqb (flow_key (p :: provider)) key) eqn:K.
  - apply str_eqb_eq in K as <-. by rewrite str_eqb_refl.
  - assert (str_eqb (tenantKey (flow_key (p :: provider))) (tenantKey key) = false) as ->; [|done].
    apply str_eqb_neq. intros T%tenantKey_inj. apply str_eqb_neq in K. done.
Qed.

(** The evidence the callback page asks for. *)
Definition stamped (provider state : str) (intent : OAuthIntent) (st : Store) : Prop :=
  exists value fields, mode_get st (flow_key provider) = Some value /\
    json_parse value = Ok (JObj fields) /\
    assoc_str fields (js "state") = Some (JStr state) /\
    assoc_str fields (js "intent") = Some (JStr (intent_text intent)).

Lemma strict_eq_text v s : strict_eq_primitive v (JStr s) = true <-> v = JStr s.
Proof.
  destruct v; try done. cbn. rewrite str_eqb_eq. split; [by intros ->|by intros [= ->]].
Qed.

Lemma marker_mode_spec state marker intent :
  marker_mode state marker = intent_mode intent <->
  exists fields, marker = JObj fields /\ assoc_str fields (js "state") = Some (JStr state) /\
    assoc_str fields (js "intent") = Some (JStr (intent_text intent)).
Proof.
  split.
  - destruct marker as [| | | | | |fields]; try (by destruct intent).
    cbn [marker_mode]. destruct (assoc_str fields (js "state")) as [s|] eqn:Es; [|by destruct intent].
    destruct (assoc_str fields (js "intent")) as [i|] eqn:Ei; [|by destruct intent].
    destruct (strict_eq_primitive s (JStr state)) eqn:E; [|by destruct intent]. cbn [negb].
    apply strict_eq_text in E as ->.
    destruct (strict_eq_primitive i (JStr (js "bind"))) eqn:Eb.
    { apply strict_eq_text in Eb as ->. destruct intent; [|done]. intros _. by exists fields. }
    destruct (strict_eq_primitive i (JStr (js "verify"))) eqn:Ev; [|by destruct intent].
    apply strict_eq_text in Ev as ->. destruct intent; [done|]. intros _. by exists fields.
  - intros (fields & -> & Es & Ei). cbn [marker_mode]. rewrite Es, Ei.
    assert (strict_eq_primitive (JStr state) (JStr state) = true) as -> by (by apply strict_eq_text).
    by destruct intent.
Qed.

Lemma mode_spec provider state opener storage intent :
  resolveOAuthCallbackMode provider state opener storage = intent_mode intent <->
  opener = Some false /\ state <> [] /\ exists st, storage = Some st /\ stamped provider state intent st.
Proof.
  unfold resolveOAuthCallbackMode. split.
  - destruct opener as [[]|]; [by destruct intent| |by destruct intent].
    destruct storage as [st|]; [|by destruct intent]. destruct state as [|c state]; [by destruct intent|].
    destruct (mode_get st (flow_key provider)) as [[|d value]|] eqn:V; [by destruct intent| |by destruct intent].
    destruct (json_parse (d :: value)) as [marker| |] eqn:P; [|by destruct intent..].
    intros M. apply marker_mode_spec in M as (fields & -> & Es & Ei).
    split; [done|]. split; [done|]. exists st. split; [done|]. by exists (d :: value), fields.
  - intros (-> & Hs & st & -> & value & fields & V & P & Es & Ei).
    destruct state as [|c state]; [done|]. rewrite V. destruct value as [|d value]; [done|].
    rewrite P. apply marker_mode_spec. by exists fields.
Qed.

Lemma mark_stamps storage provider state intent st' :
  forallb is_unit state = true ->
  markOAuthPopup storage provider state intent = (true, Some st') -> stamped provider state intent st'.
Proof.
  intros U M. apply mark_spec in M as (_ & _ & st & st2 & -> & E & L). injection E as <-.
  eexists _, _. split; [rewrite L, str_eqb_refl; reflexivity|].
  split; [by apply parse_marker|]. done.
Qed.
End Mode.

(** The callback page treats an answer as a binding or a verification on
    full evidence only: a live opener, and a stamp in its session storage for
    this provider, this state and that intent; and the stamp the opener sets
    is such evidence for its own provider, state and intent, and for no
    other provider. *)
Theorem callback_mode_evidence `{Browser} :
  (forall provider state opener storage intent,
    resolveOAuthCallbackMode provider state opener storage = intent_mode intent <->
    opener = Some false /\ state <> [] /\
    exists st, storage = Some st /\ stamped provider state intent st) /\
  (forall storage provider state intent st',
    forallb is_unit state = true ->
    markOAuthPopup storage provider state intent = (true, Some st') ->
    resolveOAuthCallbackMode provider state (Some false) (Some st') = intent_mode intent /\
    forall other state' opener, other <> provider ->
      resolveOAuthCallbackMode other state' opener (Some st')
      = resolveOAuthCallbackMode other state' opener storage).
Proof.
  split; [apply mode_spec|]. intros storage provider state intent st' U M. split.
  - apply mode_spec. split; [done|]. pose proof M as M'. apply mark_spec in M as (_ & Hs & _).
    split; [done|]. exists st'. split; [done|]. by eapply mark_stamps.
  - intros other state' opener Ho. apply mark_spec in M as (_ & _ & st & st2 & -> & E & L).
    injection E as <-. unfold resolveOAuthCallbackMode. destruct opener as [[]|]; try done.
    rewrite L. destruct (str_eqb (flow_key provider) (flow_key other)) eqn:K; [|done].
    apply str_eqb_eq, flow_key_inj in K. by subst.
Qed.

Lemma callback_mode_evidence_witness :
  let _ := sample_browser in
  let marked := markOAuthPopup (Some []) (js "github") (js "s1") intent_bind in
  marked.1 = true /\
  resolveOAuthCallbackMode (js "github") (js "s1") (Some false) marked.2 = mode_bind.
Proof.
  intros B marked. split; [vm_compute; reflexivity|].
  destruct callback_mode_evidence as [_ M].
  assert (exists st, marked = (true, Some st)) as [st E] by (eexists; vm_compute; reflexivity).
  rewrite E. refine (proj1 (M (Some []) (js "github") (js "s1") intent_bind st _ E)).
  vm_compute. reflexivity.
Defined.

(** ** The popup *)

Section PopupFacts.
Context `{Browser} {E : Type}.
Variables (origin provider : str) (intent : OAuthIntent).

Implicit Types s : Popup E.

Definition timer_off (t : TimerState) : Prop := tm_active t = false /\ tm_scheduled t = false.

(** Nothing of the flow is left to fire. *)
Definition released s : Prop :=
  pu_listening s = false /\ pu_abortable s = false /\ timer_off (pu_watcher s) /\
  pu_deadline s = false.

(** Waiting for the popup's answer. *)
Definition waiting s : Prop :=
  pu_listening s = true /\ pu_abortable s = true /\ pu_watcher s = timer_start /\
  pu_deadline s = true /\ pu_settled s = None /\ pu_posted s = [] /\ pu_signal s = None.

(** The answer was handed to the caller. *)
Definition handed_over s : Prop :=
  pu_listening s = false /\ pu_abortable s = true /\ timer_off (pu_watcher s) /\
  pu_deadline s = false /\ (exists cb, pu_settled s = Some (inl cb)) /\ pu_posted s = [].

(** Over: released, closed, settled, and at most one message, to the page's
    own origin. *)
Definition over s : Prop :=
  released s /\ pu_closed s = true /\ pu_settled s <> None /\
  (pu_posted s = [] \/ exists success message,
     pu_posted s = [MkResult intent provider (pu_state s) success message origin] /\
     exists cb, pu_settled s = Some (inl cb)).

Inductive phase s : Prop :=
| phase_waiting : pu_finished s = false -> pu_received s = false -> waiting s -> phase s
| phase_answered : pu_finished s = false -> pu_received s = true -> handed_over s -> phase s
| phase_over : pu_finished s = true -> over s -> phase s.

Lemma timer_stop_off t : t = timer_start \/ timer_off t -> timer_off (timer_stop t).
Proof. intros [->|[A B]]; [done|]. unfold timer_stop. rewrite A. done. Qed.

Lemma phase_open storage : phase (popup_open storage).
Proof. by apply phase_waiting. Qed.

Lemma fail_phase e s : phase s -> phase (popup_fail e s).
Proof.
  intros P. unfold popup_fail. destruct (pu_finished s) eqn:F; [done|]. apply phase_over; [done|].
  destruct P as [_ _ (L & A & W & D & S & Q & _)|_ _ (L & A & W & D & (cb & S) & Q)|F' _]; [..|congruence].
  - repeat split; cbn; try done; [..|by rewrite S|by left]; by apply timer_stop_off; left.
  - repeat split; cbn; try done; [..|by rewrite S|by left]; by apply timer_stop_off; right.
Qed.

Lemma finish_phase success message s :
  phase s -> (exists cb, pu_settled s = Some (inl cb)) ->
  phase (popup_finish origin provider intent success message s).
Proof.
  intros P (cb & S). unfold popup_finish. destruct (pu_finished s) eqn:F; [done|].
  apply phase_over; [done|].
  destruct P as [_ _ (_ & _ & _ & _ & S' & _)|_ _ (L & A & W & D & _ & Q)|F' _]; [congruence| |congruence].
  split; [repeat split; cbn; try done; by apply timer_stop_off; right|].
  split; [done|]. cbn. split; [by rewrite S|]. rewrite Q. destruct (pu_closed s); [by left|].
  right. exists success, message. split; [done|]. by exists cb.
Qed.

(** Changes that keep the phase. *)
Definition same_phase s s' : Prop :=
  pu_received s' = pu_received s /\ pu_finished s' = pu_finished s /\
  pu_listening s' = pu_listening s /\ pu_abortable s' = pu_abortable s /\
  pu_watcher s' = pu_watcher s /\ pu_deadline s' = pu_deadline s /\ pu_signal s' = pu_signal s /\
  pu_posted s' = pu_posted s /\ pu_settled s' = pu_settled s /\
  (pu_finished s = true -> pu_state s' = pu_state s) /\ (pu_closed s = true -> pu_closed s' = true).

Lemma phase_same s s' : same_phase s s' -> phase s -> phase s'.
Proof.
  intros (R & F & L & A & W & D & G & Q & S & T & C) P.
  destruct P as [F' R' (x1 & x2 & x3 & x4 & x5 & x6 & x7)|F' R' (x1 & x2 & x3 & x4 & x5 & x6)|F' ((y1 & y2 & y3 & y4) & x2 & x3 & x4)].
  - apply phase_waiting; [congruence..|]. unfold waiting. by rewrite L, A, W, D, S, Q, G.
  - apply phase_answered; [congruence..|]. unfold handed_over. by rewrite L, A, W, D, S, Q.
  - apply phase_over; [congruence|]. unfold over, released. rewrite L, A, W, D, S, Q, (T F'), (C x2). done.
Qed.

Lemma step_phase s e : phase s -> phase (popup_step origin provider intent s e).
Proof.
  intros P. destruct e as [state url|err|o fp data|err| | | |success message]; cbn [popup_step].
  - destruct (pu_preparing s); [|done].
    assert (phase (stop_preparing s)) as P1 by (by eapply phase_same; [|exact P]).
    unfold on_prepared. destruct (pu_finished (stop_preparing s) || pu_closed (stop_preparing s)) eqn:Q; [done|].
    apply orb_false_iff in Q as [Q1 Q2].
    destruct (markOAuthPopup _ _ _ _) as [marked storage].
    match goal with |- phase (if _ then ?x else _) =>
      assert (phase x) as P2 by (eapply phase_same; [|exact P1]; repeat split; try done; congruence)
    end.
    destruct marked; [done|]. by apply fail_phase.
  - destruct (pu_preparing s); [|done]. apply fail_phase. by eapply phase_same; [|exact P].
  - destruct (pu_listening s) eqn:L; [|done]. unfold onMessage.
    repeat match goal with |- phase (if ?c then _ else _) => destruct c; [exact P|] end.
    destruct P as [F R (L' & A & W & D & S & Q & _)|F R (L' & _)|F ((L' & _) & _)]; [|congruence..].
    apply phase_answered; [done|done|]. unfold handed_over. cbn. rewrite A, S, Q.
    repeat split; try done; [by apply timer_stop_off; left..|by eexists].
  - destruct (pu_abortable s); [|done]. by apply fail_phase.
  - by eapply phase_same; [|exact P].
  - unfold on_watch_tick. destruct P as [F R P|F R P|F P].
    + destruct P as (L & A & W & D & S & Q & G). rewrite W. cbn [watch_fires timer_start tm_scheduled tm_active negb orb].
      destruct (pu_closed s) eqn:C; cbn [negb tm_calls].
      * change (0 <? 1) with true. cbv iota. unfold popup_fail. cbn [pu_finished]. rewrite F.
        apply phase_over; [done|]. repeat split; cbn; try done; [by rewrite S|by left].
      * change (0 <? 0) with false. cbv iota. apply phase_waiting; [done..|]. by repeat split.
    + destruct P as (L & A & [W1 W2] & D & S & Q).
      assert (watch_fires (pu_closed s) (pu_watcher s) = pu_watcher s) as -> by (unfold watch_fires; by rewrite W2).
      rewrite Nat.ltb_irrefl. by eapply phase_same; [|by apply phase_answered].
    + destruct P as ((L & A & [W1 W2] & D) & P).
      assert (watch_fires (pu_closed s) (pu_watcher s) = pu_watcher s) as -> by (unfold watch_fires; by rewrite W2).
      rewrite Nat.ltb_irrefl. eapply phase_same; [|apply phase_over; [done|split; [|exact P]; done]].
      repeat split; done.
  - destruct (pu_deadline s); [|done]. by apply fail_phase.
  - destruct (pu_settled s) as [[cb|]|] eqn:S; [|done..]. apply finish_phase; [done|by exists cb].
Qed.

Lemma run_phase storage (events : list (PopupEvent E)) : phase (popup_run origin provider intent (popup_open storage) events).
Proof.
  unfold popup_run. generalize (phase_open storage). generalize (popup_open (E:=E) storage).
  induction events as [|e events IH]; intros s P; cbn [fold_left]; [done|].
  by apply IH, step_phase.
Qed.

(** *** The handshake *)

(** What the caller is told for a message. *)
Definition callback_of (state : str) (data : jsval) : OAuthPopupCallback :=
  MkCallback provider state (get_field data (js "code")) (get_field data (js "error"))
    (as_text (get_field data (js "errorDescription"))).

(** A message that answers the flow with this state. *)
Definition answers (state : str) (data : jsval) : Prop :=
  get_field data (js "type") = JStr OAUTH_POPUP_CALLBACK_MESSAGE /\
  get_field data (js "intent") = JStr (intent_text intent) /\
  get_field data (js "provider") = JStr provider /\
  get_field data (js "state") = JStr state /\
  exists text, get_field data (js "code") = JStr text \/ get_field data (js "error") = JStr text.

Lemma accepts_answers state data : accepts_message provider intent state data = true -> answers state data.
Proof.
  unfold accepts_message. rewrite !andb_true_iff, orb_true_iff, !strict_eq_text.
  intros [(((A & B) & C) & D) X]. repeat split; [done..|].
  destruct X as [X|X]; unfold is_text in X.
  - destruct (get_field data (js "code")) as [| | | |t| |]; try done. exists t. by left.
  - destruct (get_field data (js "error")) as [| | | |t| |]; try done. exists t. by right.
Qed.

Lemma fail_frame e s :
  pu_state (popup_fail e s) = pu_state s /\ pu_location (popup_fail e s) = pu_location s /\
  pu_preparing (popup_fail e s) = pu_preparing s /\
  (pu_finished s = true -> pu_finished (popup_fail e s) = true) /\
  (forall cb, pu_settled (popup_fail e s) = Some (inl cb) -> pu_settled s = Some (inl cb)).
Proof.
  unfold popup_fail. destruct (pu_finished s) eqn:F; [by rewrite F|].
  cbn. repeat split; [done..|]. intros cb. unfold settle. by destruct (pu_settled s).
Qed.

Lemma finish_frame success message s :
  let s' := popup_finish origin provider intent success message s in
  pu_state s' = pu_state s /\ pu_location s' = pu_location s /\ pu_preparing s' = pu_preparing s /\
  (pu_finished s = true -> pu_finished s' = true) /\ pu_settled s' = pu_settled s.
Proof. unfold popup_finish. destruct (pu_finished s) eqn:F; cbn; by repeat split. Qed.

(** Only an answer that passes every guard resolves the promise. *)
Lemma step_settles s e cb :
  pu_settled (popup_step origin provider intent s e) = Some (inl cb) ->
  pu_settled s = Some (inl cb) \/
  exists data, e = Message origin true data /\ pu_finished s = false /\ pu_state s <> [] /\
    answers (pu_state s) data /\ cb = callback_of (pu_state s) data.
Proof.
  destruct e as [state url|err|o fp data|err| | | |success message]; cbn [popup_step].
  - destruct (pu_preparing s); [|by left]. unfold on_prepared.
    destruct (_ || _); [by left|]. destruct (markOAuthPopup _ _ _ _) as [[] storage]; [by left|].
    intros K. apply fail_frame in K. by left.
  - destruct (pu_preparing s); [|by left]. intros K. apply fail_frame in K. by left.
  - destruct (pu_listening s); [|by left]. unfold onMessage.
    destruct (_ || negb fp) eqn:G; [by left|]. destruct (accepts_message _ _ _ _) eqn:A; cbn [negb]; [|by left].
    apply orb_false_iff in G as [G G5]. apply orb_false_iff in G as [G G4].
    apply orb_false_iff in G as [G G3]. apply orb_false_iff in G as [G1 G2].
    cbn [pu_settled settle]. destruct (pu_settled s) as [r|]; cbn [settle]; [by left|].
    intros [= <-]. right. exists data. apply negb_false_iff in G4, G5. apply str_eqb_eq in G4. subst.
    split; [done|]. split; [done|]. split; [intros N; by rewrite N in G3|]. by split; [apply accepts_answers|].
  - destruct (pu_abortable s); [|by left]. intros K. apply fail_frame in K. by left.
  - by left.
  - unfold on_watch_tick. destruct (_ <? _); [|by left]. intros K. apply fail_frame in K. by left.
  - destruct (pu_deadline s); [|by left]. intros K. apply fail_frame in K. by left.
  - intros K. left. destruct (pu_settled s) as [[c|]|] eqn:S; [|congruence..].
    destruct (finish_frame success message s) as (_ & _ & _ & _ & F). congruence.
Qed.

(** What the page knows of the authorisation: nothing before [prepare]
    answers, then its state, with the window at its address unless the flow
    has ended. *)
Definition authorised (events : list (PopupEvent E)) s : Prop :=
  (pu_preparing s = true /\ pu_state s = [] /\ pu_location s = None) \/
  (pu_preparing s = false /\
   (pu_finished s = true \/ pu_state s = [] \/
    exists before url after, events = before ++ Prepared (pu_state s) url :: after /\
      pu_location s = Some url)).

(** Steps that leave the authorisation alone. *)
Lemma authorised_frame events e s s' :
  pu_state s' = pu_state s -> pu_location s' = pu_location s -> pu_preparing s' = pu_preparing s ->
  (pu_finished s = true -> pu_finished s' = true) -> authorised events s -> authorised (events ++ [e]) s'.
Proof.
  unfold authorised. intros -> -> -> F [A|(P & A)]; [by left|]. right. split; [done|].
  destruct A as [A|[A|(b & u & a & -> & A)]]; [by left; apply F|by right; left|].
  right; right. exists b, u, (a ++ [e]). split; [|done]. by rewrite <- app_assoc.
Qed.

Lemma authorised_fail events e err s : authorised events s -> authorised (events ++ [e]) (popup_fail err s).
Proof. destruct (fail_frame err s) as (A & B & C & D & _). by apply (authorised_frame _ _ s). Qed.

Lemma step_authorised events s e :
  authorised events s -> authorised (events ++ [e]) (popup_step origin provider intent s e).
Proof.
  intros A. destruct e as [state url|err|o fp data|err| | | |success message]; cbn [popup_step].
  - destruct (pu_preparing s) eqn:P; [|by apply (authorised_frame events _ s)].
    destruct A as [(_ & T & L)|(P' & _)]; [|congruence]. right. unfold on_prepared.
    destruct (_ || _) eqn:G; [split; [done|]; right; by left|].
    destruct (markOAuthPopup _ _ _ _) as [[] storage].
    + split; [done|]. right; right. by exists events, url, [].
    + match goal with |- context [popup_fail ?f ?x] => destruct (fail_frame f x) as (_ & _ & -> & _) end.
      split; [done|]. left. unfold popup_fail. cbn [pu_finished stop_preparing].
      by destruct (pu_finished s) eqn:F; cbn [pu_finished]; rewrite ?F.
  - destruct (pu_preparing s) eqn:P; [|by apply (authorised_frame events _ s)]. right.
    match goal with |- context [popup_fail ?f ?x] => destruct (fail_frame f x) as (_ & _ & -> & _) end.
    split; [done|]. left. unfold popup_fail. cbn [pu_finished stop_preparing].
    by destruct (pu_finished s) eqn:F; cbn [pu_finished stop_preparing]; rewrite ?F.
  - destruct (pu_listening s); [|by apply (authorised_frame events _ s)]. unfold onMessage.
    repeat case_match; by apply (authorised_frame events _ s).
  - destruct (pu_abortable s); [by apply authorised_fail|by apply (authorised_frame events _ s)].
  - by apply (authorised_frame events _ s).
  - unfold on_watch_tick. destruct (_ <? _); [by apply authorised_fail|].
    by apply (authorised_frame events _ s).
  - destruct (pu_deadline s); [by apply authorised_fail|by apply (authorised_frame events _ s)].
  - destruct (pu_settled s) as [[c|]|]; [|by apply (authorised_frame events _ s)..].
    destruct (finish_frame success message s) as (F1 & F2 & F3 & F4 & _). by apply (authorised_frame _ _ s).
Qed.

Lemma run_snoc s (events : list (PopupEvent E)) e :
  popup_run origin provider intent s (events ++ [e]) =
  popup_step origin provider intent (popup_run origin provider intent s events) e.
Proof. unfold popup_run. by rewrite fold_left_app. Qed.

Lemma run_authorised storage (events : list (PopupEvent E)) :
  authorised events (popup_run origin provider intent (popup_open storage) events).
Proof.
  induction events as [|e events IH] using rev_ind; [by left|]. rewrite run_snoc. by apply step_authorised.
Qed.

(** C32: The promise [openOAuthPopup] returns resolves only when the flow's own
    window answers. Whatever sequence of messages, aborts, window and timer
    events arrives, if the caller is handed a callback then [prepare] had
    handed_over with a non-empty state before, the popup was at the address
    prepared with it, and a message arrived afterwards from the popup, at the
    page's own origin, that carries the expected type, intent, provider, that
    very state and a textual code or error; the callback holds that message's
    values. *)
Theorem popup_resolves_only_for_handshake storage (events : list (PopupEvent E)) cb :
  pu_settled (popup_run origin provider intent (popup_open storage) events) = Some (inl cb) ->
  exists before url between data (after : list (PopupEvent E)),
    events = before ++ Prepared (cb_state cb) url :: between ++ Message origin true data :: after /\
    pu_location (popup_run origin provider intent (popup_open storage)
                   (before ++ Prepared (cb_state cb) url :: between : list (PopupEvent E))) = Some url /\
    cb_state cb <> [] /\ answers (cb_state cb) data /\ cb = callback_of (cb_state cb) data.
Proof.
  induction events as [|e events IH] using rev_ind; [done|]. rewrite run_snoc.
  intros [K|(data & -> & F & N & A & ->)]%step_settles.
  - destruct (IH K) as (b & u & m & d & a & -> & L & R). exists b, u, m, d, (a ++ [e]).
    split; [|done]. by rewrite <- app_assoc; cbn; rewrite <- app_assoc.
  - destruct (run_authorised storage events) as [(_ & T & _)|(_ & [T|[T|(b & u & m & Q & L)]])]; [congruence..|].
    exists b, u, m, data, []. cbn [callback_of cb_state]. rewrite <- Q. split; [|done].
    rewrite Q at 1. by rewrite <- app_assoc.
Qed.

(** Every state [openOAuthPopup] can reach holds its bookkeeping: once the
    flow is finished the message and abort listeners, the close watcher and
    the deadline are gone, the window is closed and the promise is settled;
    the promise is rejected only by a finished flow; and at most one result is
    posted, to the page's own origin, with the flow's intent, provider and
    state, and only after the promise resolved. *)
Theorem popup_released storage (events : list (PopupEvent E)) :
  let s := popup_run origin provider intent (popup_open storage) events in
  (pu_finished s = true -> released s /\ pu_closed s = true /\ pu_settled s <> None) /\
  (pu_finished s = false -> pu_abortable s = true /\ forall err, pu_settled s <> Some (inr err)) /\
  (pu_posted s = [] \/ exists success message cb,
     pu_posted s = [MkResult intent provider (pu_state s) success message origin] /\
     pu_settled s = Some (inl cb)).
Proof.
  intros s. assert (phase s) as P by apply run_phase. clearbody s.
  destruct P as [F R (_ & A & _ & _ & S & Q & _)|F R (_ & A & _ & _ & (cb & S) & Q)|F (R & C & S & Q)].
  - split; [congruence|]. split; [by rewrite S|by left].
  - split; [congruence|]. split; [by rewrite S|by left].
  - split; [done|]. split; [congruence|].
    destruct Q as [Q|(su & m & Q & cb & S')]; [by left|]. right. by exists su, m, cb.
Qed.
End PopupFacts.

(** An exchange: a forged message is ignored, then the popup answers. *)
Definition sample_message (state : str) : jsval :=
  JObj [(js "type", JStr OAUTH_POPUP_CALLBACK_MESSAGE); (js "intent", JStr (js "bind"));
        (js "provider", JStr (js "github")); (js "state", JStr state); (js "code", JStr (js "c1"))].

Definition sample_exchange : list (PopupEvent unit) :=
  [Message (js "https://a.example") true (sample_message []);
   Prepared (js "s1") (js "https://github.com/login");
   Message (js "https://b.example") true (sample_message (js "s1"));
   Message (js "https://a.example") true (sample_message (js "s1"));
   FinishCalled true None].

Lemma popup_resolves_only_for_handshake_witness :
  let _ := sample_browser in
  exists before url between data after,
    sample_exchange = before ++ Prepared (js "s1") url :: between ++ Message (js "https://a.example") true data :: after.
Proof.
  intros B.
  destruct (popup_resolves_only_for_handshake (js "https://a.example") (js "github") intent_bind (Some [])
    sample_exchange (MkCallback (js "github") (js "s1") (JStr (js "c1")) JUndefined None))
    as (b & u & m & d & a & Q & _); [vm_compute; reflexivity|].
  by exists b, u, m, d, a.
Defined.

Example exchange_completes :
  let _ := sample_browser in
  let s := popup_run (js "https://a.example") (js "github") intent_bind (popup_open (Some [])) sample_exchange in
  pu_finished s = true /\ pu_posted s = [MkResult intent_bind (js "github") (js "s1") true None (js "https://a.example")].
Proof. vm_compute. done. Qed.
