(* ===== verification/FlowGraph.v ===== *)
(** * The dashboard's flow graph

    Models [features/dashboard/lib/flow.ts]: usage rows become paths through
    the stages a role may see (user, node, token, group, model, channel), rare
    nodes are merged or hidden, and the paths are summed into the nodes and
    links of a Sankey diagram.  [Map] and [Set] keep their insertion order
    ([JsMap]); objects held in a map and mutated there are replaced.

    Parameters: [localeCompare] (the collation of the browser's locale), the
    colour schemes of the chart library and [Intl.NumberFormat]. *)

From Stdlib Require Import ZArith Lia Bool SpecFloat.
From stdpp Require Import base list numbers.
From S2P Require Import Prelude JsString JsNumber JsObject JsMap.

(** ** Data (types.ts) *)

Inductive FlowNodeKind := KUser | KNode | KToken | KGroup | KModel | KChannel.
Inductive FlowMetric := MQuota | MTokens | MRequests.
Inductive FlowRole := RUser | RAdmin | RRoot.
Inductive FlowOverflowMode := OAggregate | OHide.

#[global] Instance kind_eq_dec : EqDecision FlowNodeKind.
Proof. solve_decision. Defined.

Record FlowQuotaDataItem := MkRow {
  user_id : option num;
  username : option str;
  node_name : option str;
  use_group : option str;
  token_id : option num;
  token_name : option str;
  channel_id : option num;
  channel_name : option str;
  model_name : option str;
  token_used : option num;
  row_count : option num;
  row_quota : option num
}.

Record FlowNodeFilter := MkNodeFilter { nf_kind : FlowNodeKind; nf_id : str }.
Record FlowLinkSelection := MkLinkSelection { ls_source : str; ls_target : str }.

Record FlowMetrics := MkMetrics { fm_quota : num; fm_tokens : num; fm_requests : num }.

Record FlowPathNode := MkPathNode { pn_id : str; pn_label : str; pn_kind : FlowNodeKind }.

Record DashboardFlowNode := MkFlowNode {
  fn_id : str;
  fn_label : str;
  fn_kind : FlowNodeKind;
  fn_value : num;
  fn_requests : num;
  fn_quota : num;
  fn_tokens : num;
  fn_color : str;
  fn_colorKey : str;
  fn_highlighted : option bool;
  fn_dimmed : option bool
}.

Record DashboardFlowLink := MkFlowLink {
  fl_source : str;
  fl_target : str;
  fl_value : num;
  fl_requests : num;
  fl_quota : num;
  fl_tokens : num;
  fl_sourceLabel : str;
  fl_targetLabel : str;
  fl_color : str;
  fl_linkColor : str;
  fl_linkAlpha : num;
  fl_hoverColor : str;
  fl_colorKey : str;
  fl_share : num;
  fl_highlighted : option bool;
  fl_dimmed : option bool
}.

Record DashboardFlowGraph := MkFlowGraph {
  fg_nodes : list DashboardFlowNode;
  fg_links : list DashboardFlowLink
}.

Record PreparedFlowPath := MkPrepared { pp_path : list FlowPathNode; pp_metrics : FlowMetrics }.

(** ** Paths *)

Definition ROLE_FLOW_STAGES (role : FlowRole) : list FlowNodeKind :=
  match role with
  | RRoot => [KUser; KNode; KToken; KGroup; KModel; KChannel]
  | RAdmin => [KUser; KGroup; KModel; KChannel]
  | RUser => [KToken; KGroup; KModel]
  end.

Definition MIN_FLOW_STAGES : nat := 2.

Definition getFlowStages (role : FlowRole) : list FlowNodeKind := ROLE_FLOW_STAGES role.

Definition resolveVisibleStages (role : FlowRole) (visibleStages : option (list FlowNodeKind))
  : list FlowNodeKind :=
  let stages := getFlowStages role in
  match visibleStages with
  | None => stages
  | Some visible =>
      let filtered := List.filter (fun stage => bool_decide (stage ∈ visible)) stages in
      if MIN_FLOW_STAGES <=? length filtered then filtered else stages
  end.

Definition kind_name (k : FlowNodeKind) : str :=
  match k with
  | KUser => js "user" | KNode => js "node" | KToken => js "token"
  | KGroup => js "group" | KModel => js "model" | KChannel => js "channel"
  end.

Definition OTHER_FLOW_NODE_IDS (k : FlowNodeKind) : str := kind_name k ++ js ":__other__".

Definition DEFAULT_OTHER_FLOW_NODE_LABELS (k : FlowNodeKind) : str :=
  js "Other " ++ kind_name k ++ js "s".

Definition FLOW_NODE_KINDS : list FlowNodeKind := [KUser; KNode; KToken; KGroup; KModel; KChannel].
Definition SENSITIVE_FLOW_KINDS : list FlowNodeKind := [KUser; KNode; KToken; KGroup; KChannel].
Definition OTHER_FLOW_NODE_ID_SET : list str := map OTHER_FLOW_NODE_IDS FLOW_NODE_KINDS.

Definition numberValue (value : option num) : num :=
  match value with
  | Some n => if is_finite n then n else num_zero
  | None => num_zero
  end.

Definition rowMetrics (row : FlowQuotaDataItem) : FlowMetrics :=
  MkMetrics (numberValue (row_quota row)) (numberValue (token_used row)) (numberValue (row_count row)).

Definition metricValue (metrics : FlowMetrics) (metric : FlowMetric) : num :=
  match metric with
  | MRequests => fm_requests metrics
  | MTokens => fm_tokens metrics
  | MQuota => fm_quota metrics
  end.

(** [value || fallback] on an optional string. *)
Definition text_or (value : option str) (fallback : str) : str :=
  match value with None | Some [] => fallback | Some s => s end.

Definition positive_id (n : num) : bool := num_ltb num_zero n.

Definition userNode (row : FlowQuotaDataItem) : FlowPathNode :=
  let userID := numberValue (user_id row) in
  MkPathNode
    (js "user:" ++ (if positive_id userID then string_of_num userID else text_or (username row) (js "unknown")))
    (text_or (username row)
       (if positive_id userID then js "user-" ++ string_of_num userID else js "Unknown User"))
    KUser.

Definition nodeNameNode (row : FlowQuotaDataItem) : FlowPathNode :=
  let nodeName := text_or (node_name row) (js "default-node") in
  MkPathNode (js "node:" ++ nodeName) nodeName KNode.

Record FlowPathContext := MkContext { ctx_deletedTokenLabel : option (num -> str) }.

Definition EMPTY_FLOW_PATH_CONTEXT : FlowPathContext := MkContext None.

Definition deletedTokenLabel (tokenID : num) (ctx : FlowPathContext) : str :=
  if num_leb tokenID num_zero then js "Unknown Token"
  else match ctx_deletedTokenLabel ctx with
       | Some label => label tokenID
       | None => js "token-" ++ string_of_num tokenID
       end.

Definition tokenNode (row : FlowQuotaDataItem) (ctx : FlowPathContext) : FlowPathNode :=
  let tokenID := numberValue (token_id row) in
  MkPathNode
    (js "token:" ++ (if positive_id tokenID then string_of_num tokenID else text_or (token_name row) (js "unknown")))
    (text_or (token_name row) (deletedTokenLabel tokenID ctx))
    KToken.

Definition groupNode (row : FlowQuotaDataItem) : FlowPathNode :=
  let useGroup := text_or (use_group row) (js "unknown") in
  MkPathNode (js "group:" ++ useGroup) useGroup KGroup.

Definition modelNode (row : FlowQuotaDataItem) : FlowPathNode :=
  let model := text_or (model_name row) (js "unknown") in
  MkPathNode (js "model:" ++ model) (text_or (model_name row) (js "Unknown Model")) KModel.

Definition channelNode (row : FlowQuotaDataItem) : FlowPathNode :=
  let channelID := numberValue (channel_id row) in
  MkPathNode
    (js "channel:" ++
       (if positive_id channelID then string_of_num channelID else text_or (channel_name row) (js "unknown")))
    (text_or (channel_name row)
       (if positive_id channelID then js "channel-" ++ string_of_num channelID else js "Unknown"))
    KChannel.

Definition NODE_BUILDERS (stage : FlowNodeKind) (row : FlowQuotaDataItem) (ctx : FlowPathContext)
  : FlowPathNode :=
  match stage with
  | KUser => userNode row
  | KNode => nodeNameNode row
  | KToken => tokenNode row ctx
  | KGroup => groupNode row
  | KModel => modelNode row
  | KChannel => channelNode row
  end.

Definition flowPathForStages (row : FlowQuotaDataItem) (stages : list FlowNodeKind)
    (ctx : FlowPathContext) : list FlowPathNode :=
  map (fun stage => NODE_BUILDERS stage row ctx) stages.

(** ** Filters *)

Definition filterRows (rows : list FlowQuotaDataItem) (selectedUsers : option (list str))
  : list FlowQuotaDataItem :=
  let selected := set_from (default [] selectedUsers) in
  match selected with
  | [] => rows
  | _ => List.filter (fun row => bool_decide (pn_id (userNode row) ∈ selected)) rows
  end.

Definition normalizeSelectedNodeFilters (selectedNodes : option (list FlowNodeFilter))
    (stages : list FlowNodeKind) : list (FlowNodeKind * list str) :=
  fold_left (fun filters filter =>
    if bool_decide (nf_kind filter ∈ stages) then
      let selected := default [] (map_get filters (nf_kind filter)) in
      map_set filters (nf_kind filter) (set_put selected (nf_id filter))
    else filters)
    (default [] selectedNodes) [].

Definition ids_by_kind (path : list FlowPathNode) : list (FlowNodeKind * list str) :=
  fold_left (fun m node =>
    map_set m (pn_kind node) (set_put (default [] (map_get m (pn_kind node))) (pn_id node)))
    path [].

Definition pathMatchesNodeFilters (path : list FlowPathNode)
    (filters : list (FlowNodeKind * list str)) : bool :=
  match filters with
  | [] => true
  | _ =>
      let pathNodesByKind := ids_by_kind path in
      forallb (fun f =>
        match map_get pathNodesByKind f.1 with
        | None => false
        | Some pathIds => existsb (fun id => bool_decide (id ∈ pathIds)) f.2
        end) filters
  end.

Definition filterRowsByNodes (rows : list FlowQuotaDataItem)
    (selectedNodes : option (list FlowNodeFilter)) (stages : list FlowNodeKind)
    (ctx : FlowPathContext) : list FlowQuotaDataItem :=
  let filters := normalizeSelectedNodeFilters selectedNodes stages in
  match filters with
  | [] => rows
  | _ => List.filter (fun row => pathMatchesNodeFilters (flowPathForStages row stages ctx) filters) rows
  end.

Definition selectedNodeFiltersExceptKind (selectedNodes : option (list FlowNodeFilter))
    (kind : FlowNodeKind) : option (list FlowNodeFilter) :=
  match List.filter (fun f => negb (bool_decide (nf_kind f = kind))) (default [] selectedNodes) with
  | [] => None
  | filtered => Some filtered
  end.

(** ** Ordering *)

(** [x - y || next], as the sign a comparison function returns. *)
Definition difference_or (x y : num) (next : Z) : Z :=
  let d := num_sub x y in
  if num_ltb d num_zero then (-1)%Z else if num_ltb num_zero d then 1%Z else next.

(** [c || next] *)
Definition order_or (c next : Z) : Z := if (c =? 0)%Z then next else c.

(** ** Colours *)

(** A colour scheme of the chart library; entries that are no plain colour
    are [None]. *)
Record ColorScheme := MkScheme { maxDomainLength : option num; scheme : list (option str) }.

Class ChartHost := {
  dataScheme : list ColorScheme;
  NumberFormat : num -> str
}.

Definition DEFAULT_FLOW_CHART_COLOR : str := js "#1664FF".

(** [x.toFixed(digits)] for a finite [x] below [1e21]. *)
Definition to_fixed (digits : nat) (x : num) : str :=
  match x with
  | S754_finite s m e =>
      let a := (Z.pos m * 10 ^ Z.of_nat digits * 2 ^ Z.max e 0)%Z in
      let b := (2 ^ Z.max (- e) 0)%Z in
      let n := ((2 * a + b) / (2 * b))%Z in
      let ds := pad_start (S digits) 48%N (string_of_N (Z.to_N n)) in
      (if s then [45%N] else []) ++ take (length ds - digits) ds ++
      (if digits =? 0 then [] else 46%N :: drop (length ds - digits) ds)
  | _ => js "0" ++ (if digits =? 0 then [] else 46%N :: replicate digits 48%N)
  end.

Section Colors.
Context `{ChartHost}.

(** charts.ts *)
Definition getDashboardChartColors (domainLength : nat) : list str :=
  let fits item :=
    match maxDomainLength item with
    | None => true
    | Some m => num_eqb m num_zero || is_nan m || num_leb (num_of_nat domainLength) m
    end in
  match List.find fits dataScheme with
  | Some item => omap id (scheme item)
  | None => match list.last dataScheme with Some item => omap id (scheme item) | None => [] end
  end.

Definition colorAt (index : nat) (palette : option (list str)) : str :=
  let colors :=
    match palette with
    | Some (c :: p) => c :: p
    | _ => getDashboardChartColors (S index)
    end in
  match colors with
  | [] => DEFAULT_FLOW_CHART_COLOR
  | _ => default DEFAULT_FLOW_CHART_COLOR (colors !! (index mod length colors))
  end.

Definition colorPalette (colorCount : nat) (palette : option (list str)) : list str :=
  match palette with
  | Some (c :: p) => c :: p
  | _ => match getDashboardChartColors colorCount with
         | [] => [DEFAULT_FLOW_CHART_COLOR]
         | colors => colors
         end
  end.

Definition is_hex_color (hex : str) : bool := (length hex =? 6) && forallb is_hex hex.

Definition byte_string (z : Z) : str := string_of_N (Z.to_N z).

Definition alphaColor (color : str) (alpha : num) : str * num :=
  let normalized := trim color in
  let hex := match normalized with 35%N :: rest => rest | _ => normalized end in
  if is_hex_color hex then
    let value := fold_left (fun acc c => (16 * acc + Z.of_N (hex_value c))%Z) hex 0%Z in
    let red := Z.land (Z.shiftr value 16) 255 in
    let green := Z.land (Z.shiftr value 8) 255 in
    let blue := Z.land value 255 in
    (js "rgba(" ++ byte_string red ++ js ", " ++ byte_string green ++ js ", " ++ byte_string blue ++
       js ", " ++ to_fixed 2 alpha ++ js ")", lit 1)
  else (normalized, alpha).

Definition stableColorMap (keys : list str) (palette : option (list str)) : list (str * str) :=
  let uniqueKeys := set_from keys in
  let colors := colorPalette (length uniqueKeys) palette in
  fold_left (fun m e => map_set m e.1 e.2)
    (imap (fun index key => (key, colorAt index (Some colors))) uniqueKeys) [].
End Colors.

(** ** Aggregation *)

Definition bump_node (metrics : FlowMetrics) (metric : FlowMetric) (n : DashboardFlowNode)
  : DashboardFlowNode :=
  MkFlowNode (fn_id n) (fn_label n) (fn_kind n)
    (num_add (fn_value n) (metricValue metrics metric))
    (num_add (fn_requests n) (fm_requests metrics))
    (num_add (fn_quota n) (fm_quota metrics))
    (num_add (fn_tokens n) (fm_tokens metrics))
    (fn_color n) (fn_colorKey n) (fn_highlighted n) (fn_dimmed n).

Definition fresh_node (pathNode : FlowPathNode) (color colorKey : str) : DashboardFlowNode :=
  MkFlowNode (pn_id pathNode) (pn_label pathNode) (pn_kind pathNode) num_zero num_zero num_zero num_zero
    color colorKey None None.

Definition addNode (m : list (str * DashboardFlowNode)) (pathNode : FlowPathNode)
    (metrics : FlowMetrics) (metric : FlowMetric) (color colorKey : str)
  : list (str * DashboardFlowNode) :=
  map_set m (pn_id pathNode)
    (bump_node metrics metric (default (fresh_node pathNode color colorKey) (map_get m (pn_id pathNode)))).

Definition NUL : N := 0%N.

Definition pathLinkKey (source target : FlowPathNode) : str := pn_id source ++ [NUL] ++ pn_id target.

Definition linkStableKey (link : DashboardFlowLink) : str := fl_source link ++ [NUL] ++ fl_target link.

Definition bump_link (metrics : FlowMetrics) (metric : FlowMetric) (l : DashboardFlowLink)
  : DashboardFlowLink :=
  MkFlowLink (fl_source l) (fl_target l)
    (num_add (fl_value l) (metricValue metrics metric))
    (num_add (fl_requests l) (fm_requests metrics))
    (num_add (fl_quota l) (fm_quota metrics))
    (num_add (fl_tokens l) (fm_tokens metrics))
    (fl_sourceLabel l) (fl_targetLabel l) (fl_color l) (fl_linkColor l) (fl_linkAlpha l)
    (fl_hoverColor l) (fl_colorKey l) (fl_share l) (fl_highlighted l) (fl_dimmed l).

Definition fresh_link (source target : FlowPathNode) (color colorKey : str) : DashboardFlowLink :=
  MkFlowLink (pn_id source) (pn_id target) num_zero num_zero num_zero num_zero
    (pn_label source) (pn_label target) color color (lit 1) color colorKey num_zero None None.

Definition addLink (m : list (str * DashboardFlowLink)) (source target : FlowPathNode)
    (metrics : FlowMetrics) (metric : FlowMetric) (color colorKey : str)
  : list (str * DashboardFlowLink) :=
  let key := pathLinkKey source target in
  map_set m key (bump_link metrics metric (default (fresh_link source target color colorKey) (map_get m key))).

(** The pairs [path[i], path[i + 1]]. *)
Definition path_links (path : list FlowPathNode) : list (FlowPathNode * FlowPathNode) :=
  combine path (tail path).

Record FlowSummary := MkSummary { sum_quota : num; sum_tokens : num; sum_requests : num }.

Definition buildSummary (rows : list FlowQuotaDataItem) : FlowSummary :=
  fold_left (fun summary row =>
    let metrics := rowMetrics row in
    MkSummary (num_add (sum_quota summary) (fm_quota metrics))
      (num_add (sum_tokens summary) (fm_tokens metrics))
      (num_add (sum_requests summary) (fm_requests metrics)))
    rows (MkSummary num_zero num_zero num_zero).

(** ** Limiting the nodes of a column *)

Definition normalizeTopNodeLimit (limit : option num) : option num :=
  match limit with
  | None => None
  | Some limit =>
      let parsed := math_floor limit in
      if is_finite parsed && num_ltb num_zero parsed then Some parsed else None
  end.

Definition otherFlowNode (kind : FlowNodeKind) (labeler : option (FlowNodeKind -> str)) : FlowPathNode :=
  MkPathNode (OTHER_FLOW_NODE_IDS kind)
    (match labeler with Some f => f kind | None => DEFAULT_OTHER_FLOW_NODE_LABELS kind end) kind.

Record FlowNodeRank := MkRank { rk_node : FlowPathNode; rk_value : num }.

Definition rank_node (value : num) (totals : list (str * FlowNodeRank)) (node : FlowPathNode)
  : list (str * FlowNodeRank) :=
  let current := default (MkRank node num_zero) (map_get totals (pn_id node)) in
  map_set totals (pn_id node) (MkRank (rk_node current) (num_add (rk_value current) value)).

(** The loop body over one row's path. *)
Definition rank_path (value : num) (totals : list (FlowNodeKind * list (str * FlowNodeRank)))
    (path : list FlowPathNode) : list (FlowNodeKind * list (str * FlowNodeRank)) :=
  fold_left (fun totals node =>
    match map_get totals (pn_kind node) with
    | None => totals
    | Some stageTotals => map_set totals (pn_kind node) (rank_node value stageTotals node)
    end) path totals.

(** [items.slice(0, limit)] for a positive integer [limit]. *)
Definition take_num {A} (limit : num) (items : list A) : list A :=
  take (Z.to_nat (Z.min (default 0%Z (num_to_Z limit)) (Z.of_nat (length items)))) items.

Section TopNodes.
Context `{Collation}.

Definition by_rank (a b : FlowNodeRank) : Z :=
  difference_or (rk_value b) (rk_value a)
    (order_or (localeCompare (pn_label (rk_node a)) (pn_label (rk_node b)))
       (localeCompare (pn_id (rk_node a)) (pn_id (rk_node b)))).

Definition buildTopNodeSets (rows : list FlowQuotaDataItem) (metric : FlowMetric)
    (stages : list FlowNodeKind) (limit : option num) (ctx : FlowPathContext)
  : option (list (FlowNodeKind * list str)) :=
  match limit with
  | None => None
  | Some limit =>
      if num_eqb limit num_zero then None
      else
        let empty := fold_left (fun m stage => map_set m stage []) stages [] in
        let totals :=
          fold_left (fun totals row =>
            rank_path (metricValue (rowMetrics row) metric) totals (flowPathForStages row stages ctx))
            rows empty in
        Some (fold_left (fun topSets e =>
          let topIds :=
            map (fun rank => pn_id (rk_node rank)) (take_num limit (sort_by by_rank (map_values e.2))) in
          map_set topSets e.1 (set_from topIds)) totals [])
  end.
End TopNodes.

Definition isTopFlowNode (node : FlowPathNode) (topNodeSets : option (list (FlowNodeKind * list str)))
  : bool :=
  match topNodeSets ≫= fun sets => map_get sets (pn_kind node) with
  | None => true
  | Some topNodes => bool_decide (pn_id node ∈ topNodes)
  end.

Definition applyTopNodeLimit (path : list FlowPathNode)
    (topNodeSets : option (list (FlowNodeKind * list str))) (mode : FlowOverflowMode)
    (labeler : option (FlowNodeKind -> str)) : option (list FlowPathNode) :=
  match topNodeSets with
  | None => Some path
  | Some _ =>
      if negb (existsb (fun node => negb (isTopFlowNode node topNodeSets)) path) then Some path
      else match mode with
           | OHide => None
           | OAggregate =>
               Some (map (fun node =>
                 if isTopFlowNode node topNodeSets then node
                 else otherFlowNode (pn_kind node) labeler) path)
           end
  end.

(** ** Highlighting and masking *)

Definition pathContainsFlowNode (path : list FlowPathNode) (filter : FlowNodeFilter) : bool :=
  existsb (fun node => bool_decide (pn_kind node = nf_kind filter) && bool_decide (pn_id node = nf_id filter)) path.

Definition pathContainsFlowLink (path : list FlowPathNode) (link : FlowLinkSelection) : bool :=
  existsb (fun e => bool_decide (pn_id e.1 = ls_source link) && bool_decide (pn_id e.2 = ls_target link))
    (path_links path).

Record FlowHighlightSets := MkHighlights { hl_nodes : list str; hl_links : list str }.

Definition matchesPath (activeNode : option FlowNodeFilter) (activeLink : option FlowLinkSelection)
    (path : list FlowPathNode) : bool :=
  match activeLink, activeNode with
  | Some link, _ => pathContainsFlowLink path link
  | None, Some node => pathContainsFlowNode path node
  | None, None => false
  end.

Definition buildFlowHighlightSets (preparedPaths : list PreparedFlowPath)
    (activeNode : option FlowNodeFilter) (activeLink : option FlowLinkSelection)
    (stages : list FlowNodeKind) : option FlowHighlightSets :=
  let nodeActive :=
    match activeNode with Some n => bool_decide (nf_kind n ∈ stages) | None => false end in
  match nodeActive, activeLink with
  | false, None => None
  | _, _ =>
      let sets :=
        fold_left (fun sets prepared =>
          let path := pp_path prepared in
          if matchesPath activeNode activeLink path then
            MkHighlights (fold_left set_put (map pn_id path) (hl_nodes sets))
              (fold_left set_put (map (fun e => pathLinkKey e.1 e.2) (path_links path)) (hl_links sets))
          else sets) preparedPaths (MkHighlights [] []) in
      match hl_nodes sets with [] => None | _ => Some sets end
  end.

Definition FLOW_MASK_TEXT : str := [8226; 8226; 8226; 8226]%N.

Definition maskFlowLabel (label : str) : str := match label with [] => label | _ => FLOW_MASK_TEXT end.

Definition node_masked (n : DashboardFlowNode) : bool :=
  bool_decide (fn_kind n ∈ SENSITIVE_FLOW_KINDS) && negb (bool_decide (fn_id n ∈ OTHER_FLOW_NODE_ID_SET)).

Definition set_node_label (n : DashboardFlowNode) (label : str) : DashboardFlowNode :=
  MkFlowNode (fn_id n) label (fn_kind n) (fn_value n) (fn_requests n) (fn_quota n) (fn_tokens n)
    (fn_color n) (fn_colorKey n) (fn_highlighted n) (fn_dimmed n).

Definition set_link_labels (l : DashboardFlowLink) (sourceLabel targetLabel : str) : DashboardFlowLink :=
  MkFlowLink (fl_source l) (fl_target l) (fl_value l) (fl_requests l) (fl_quota l) (fl_tokens l)
    sourceLabel targetLabel (fl_color l) (fl_linkColor l) (fl_linkAlpha l) (fl_hoverColor l)
    (fl_colorKey l) (fl_share l) (fl_highlighted l) (fl_dimmed l).

Definition mask_node (n : DashboardFlowNode) : DashboardFlowNode :=
  if node_masked n then set_node_label n (maskFlowLabel (fn_label n)) else n.

(** [maskedById] *)
Definition masked_by_id (nodes : list DashboardFlowNode) : list (str * str) :=
  fold_left (fun m n => if node_masked n then map_set m (fn_id n) (maskFlowLabel (fn_label n)) else m)
    nodes [].

Definition mask_link (maskedById : list (str * str)) (l : DashboardFlowLink) : DashboardFlowLink :=
  set_link_labels l (default (fl_sourceLabel l) (map_get maskedById (fl_source l)))
    (default (fl_targetLabel l) (map_get maskedById (fl_target l))).

Definition on_values {K V} (f : V -> V) (m : list (K * V)) : list (K * V) := map (fun e => (e.1, f e.2)) m.

Definition maskFlowGraphLabels (nodes : list (str * DashboardFlowNode))
    (links : list (str * DashboardFlowLink))
  : list (str * DashboardFlowNode) * list (str * DashboardFlowLink) :=
  let maskedById := masked_by_id (map_values nodes) in
  (on_values mask_node nodes,
   match maskedById with [] => links | _ => on_values (mask_link maskedById) links end).

Definition highlight_node (sets : FlowHighlightSets) (n : DashboardFlowNode) : DashboardFlowNode :=
  let highlighted := bool_decide (fn_id n ∈ hl_nodes sets) in
  MkFlowNode (fn_id n) (fn_label n) (fn_kind n) (fn_value n) (fn_requests n) (fn_quota n) (fn_tokens n)
    (fn_color n) (fn_colorKey n) (Some highlighted) (Some (negb highlighted)).

Definition highlight_link (sets : FlowHighlightSets) (l : DashboardFlowLink) : DashboardFlowLink :=
  let highlighted := bool_decide (linkStableKey l ∈ hl_links sets) in
  MkFlowLink (fl_source l) (fl_target l) (fl_value l) (fl_requests l) (fl_quota l) (fl_tokens l)
    (fl_sourceLabel l) (fl_targetLabel l) (fl_color l) (fl_linkColor l) (fl_linkAlpha l)
    (fl_hoverColor l) (fl_colorKey l) (fl_share l) (Some highlighted) (Some (negb highlighted)).

Definition applyFlowHighlights (nodes : list (str * DashboardFlowNode))
    (links : list (str * DashboardFlowLink)) (highlightSets : option FlowHighlightSets)
  : list (str * DashboardFlowNode) * list (str * DashboardFlowLink) :=
  match highlightSets with
  | None => (nodes, links)
  | Some sets => (on_values (highlight_node sets) nodes, on_values (highlight_link sets) links)
  end.

(** ** The graph *)

Definition set_share (l : DashboardFlowLink) (share : num) : DashboardFlowLink :=
  MkFlowLink (fl_source l) (fl_target l) (fl_value l) (fl_requests l) (fl_quota l) (fl_tokens l)
    (fl_sourceLabel l) (fl_targetLabel l) (fl_color l) (fl_linkColor l) (fl_linkAlpha l)
    (fl_hoverColor l) (fl_colorKey l) share (fl_highlighted l) (fl_dimmed l).

Definition set_display (l : DashboardFlowLink) (display : str * num) : DashboardFlowLink :=
  MkFlowLink (fl_source l) (fl_target l) (fl_value l) (fl_requests l) (fl_quota l) (fl_tokens l)
    (fl_sourceLabel l) (fl_targetLabel l) (fl_color l) display.1 display.2
    (fl_color l) (fl_colorKey l) (fl_share l) (fl_highlighted l) (fl_dimmed l).

Record FlowGraphOptions := MkGraphOptions {
  go_topNodeLimit : option num;
  go_overflowMode : option FlowOverflowMode;
  go_otherNodeLabel : option (FlowNodeKind -> str);
  go_activeNode : option FlowNodeFilter;
  go_activeLink : option FlowLinkSelection;
  go_maskSensitive : bool
}.

Section Graph.
Context `{ChartHost, Collation}.

(** [linksBySource] *)
Definition links_by_source (links : list DashboardFlowLink) : list (str * list DashboardFlowLink) :=
  fold_left (fun m link =>
    map_set m (fl_source link) (default [] (map_get m (fl_source link)) ++ [link])) links [].

Definition by_value_then_key (a b : DashboardFlowLink) : Z :=
  difference_or (fl_value b) (fl_value a) (localeCompare (linkStableKey a) (linkStableKey b)).

Definition link_alpha (count index : nat) : num :=
  let denominator := Nat.max (count - 1) 1 in
  if count =? 1 then num_of_decimal false 34 (-2)
  else num_add (num_of_decimal false 24 (-2))
         (num_mul (num_div (num_of_nat index) (num_of_nat denominator)) (num_of_decimal false 2 (-1))).

(** The display of every link, by its key: the links of a graph have
    different keys, so the key stands for the object that is mutated. *)
Definition link_displays (links : list DashboardFlowLink) : list (str * (str * num)) :=
  concat (map (fun e =>
    let sortedLinks := sort_by by_value_then_key e.2 in
    imap (fun index link =>
      (linkStableKey link, alphaColor (fl_color link) (link_alpha (length sortedLinks) index))) sortedLinks)
    (links_by_source links)).

Definition assignLinkDisplayColors (links : list DashboardFlowLink) : list DashboardFlowLink :=
  let displays := link_displays links in
  map (fun link =>
    match map_get displays (linkStableKey link) with
    | Some display => set_display link display
    | None => link
    end) links.

Definition byValueThenLabel (a b : DashboardFlowNode) : Z :=
  difference_or (fn_value b) (fn_value a) (localeCompare (fn_label a) (fn_label b)).

Definition by_ends (a b : DashboardFlowLink) : Z :=
  order_or (localeCompare (fl_source a) (fl_source b)) (localeCompare (fl_target a) (fl_target b)).

(** The paths the graph is made of. *)
Definition prepare_paths (rows : list FlowQuotaDataItem) (stages : list FlowNodeKind)
    (topNodeSets : option (list (FlowNodeKind * list str))) (overflowMode : FlowOverflowMode)
    (labeler : option (FlowNodeKind -> str)) (ctx : FlowPathContext) : list PreparedFlowPath :=
  omap (fun row =>
    (fun path => MkPrepared path (rowMetrics row)) <$>
    applyTopNodeLimit (flowPathForStages row stages ctx) topNodeSets overflowMode labeler) rows.

(** [path[0]?.id] where it is truthy. *)
Definition root_ids (preparedPaths : list PreparedFlowPath) : list str :=
  omap (fun prepared =>
    match pp_path prepared with
    | node :: _ => match pn_id node with [] => None | id => Some id end
    | [] => None
    end) preparedPaths.

Definition add_path (metric : FlowMetric) (colors : list (str * str)) (palette : option (list str))
    (g : list (str * DashboardFlowNode) * list (str * DashboardFlowLink)) (prepared : PreparedFlowPath)
  : list (str * DashboardFlowNode) * list (str * DashboardFlowLink) :=
  let path := pp_path prepared in
  let metrics := pp_metrics prepared in
  match path with
  | [] => g
  | root :: _ =>
      let color := match map_get colors (pn_id root) with Some c => c | None => colorAt 0 palette end in
      (fold_left (fun nodes node => addNode nodes node metrics metric color (pn_id root)) path g.1,
       fold_left (fun links e => addLink links e.1 e.2 metrics metric color (pn_id root))
         (path_links path) g.2)
  end.

Definition add_paths (metric : FlowMetric) (colors : list (str * str)) (palette : option (list str))
    (preparedPaths : list PreparedFlowPath)
  : list (str * DashboardFlowNode) * list (str * DashboardFlowLink) :=
  fold_left (add_path metric colors palette) preparedPaths ([], []).

(** The shares, of the links that leave the first column. *)
Definition assign_shares (firstStepSources : list str) (flowLinks : list DashboardFlowLink)
  : list DashboardFlowLink :=
  let total :=
    fold_left (fun sum link => num_add sum (fl_value link))
      (List.filter (fun link => bool_decide (fl_source link ∈ firstStepSources)) flowLinks) num_zero in
  map (fun link =>
    set_share link (if num_ltb num_zero total then num_div (fl_value link) total else num_zero)) flowLinks.

Definition buildFlowGraph (rows : list FlowQuotaDataItem) (metric : FlowMetric) (role : FlowRole)
    (palette : option (list str)) (visibleStages : option (list FlowNodeKind)) (ctx : FlowPathContext)
    (options : FlowGraphOptions) : DashboardFlowGraph :=
  let stages := resolveVisibleStages role visibleStages in
  let topNodeSets :=
    buildTopNodeSets rows metric stages (normalizeTopNodeLimit (go_topNodeLimit options)) ctx in
  let overflowMode := default OAggregate (go_overflowMode options) in
  let preparedPaths := prepare_paths rows stages topNodeSets overflowMode (go_otherNodeLabel options) ctx in
  let colors := stableColorMap (sort_by localeCompare (root_ids preparedPaths)) palette in
  let g := add_paths metric colors palette preparedPaths in
  let g := if go_maskSensitive options then maskFlowGraphLabels g.1 g.2 else g in
  let g :=
    applyFlowHighlights g.1 g.2
      (buildFlowHighlightSets preparedPaths (go_activeNode options) (go_activeLink options) stages) in
  let flowLinks := sort_by by_ends (map_values g.2) in
  let flowLinks := assign_shares (set_from (root_ids preparedPaths)) flowLinks in
  MkFlowGraph (sort_by byValueThenLabel (map_values g.1)) (assignLinkDisplayColors flowLinks).

(** ** Filter options *)

Definition formatNumber (value : num) : str := NumberFormat value.

Record UserTotal := MkUserTotal { ut_label : str; ut_value : num; ut_color : str }.

Record FlowUserFilterOption := MkUserOption {
  uo_value : str; uo_label : str; uo_valueLabel : str; uo_valueRaw : num; uo_color : str
}.

Record FlowNodeFilterOption := MkNodeOption {
  no_kind : FlowNodeKind; no_value : str; no_label : str; no_valueLabel : str; no_valueRaw : num;
  no_color : str
}.

Definition falsy_num (n : option num) : bool :=
  match n with None => true | Some n => num_eqb n num_zero || is_nan n end.

Definition falsy_text (s : option str) : bool := match s with None | Some [] => true | _ => false end.

Definition add_user (metric : FlowMetric) (colors : list (str * str)) (palette : option (list str))
    (users : list (str * UserTotal)) (row : FlowQuotaDataItem) : list (str * UserTotal) :=
  let user := userNode row in
  if falsy_num (user_id row) && falsy_text (username row) then users
  else
    let value := metricValue (rowMetrics row) metric in
    let current :=
      default (MkUserTotal (pn_label user) num_zero
                 (match map_get colors (pn_id user) with Some c => c | None => colorAt 0 palette end))
        (map_get users (pn_id user)) in
    map_set users (pn_id user) (MkUserTotal (ut_label current) (num_add (ut_value current) value) (ut_color current)).

Definition by_user_option (a b : FlowUserFilterOption) : Z :=
  difference_or (uo_valueRaw b) (uo_valueRaw a) (localeCompare (uo_label a) (uo_label b)).

Definition buildUserFilterOptions (rows : list FlowQuotaDataItem) (metric : FlowMetric)
    (palette : option (list str)) : list FlowUserFilterOption :=
  let colors := stableColorMap (sort_by localeCompare (map (fun row => pn_id (userNode row)) rows)) palette in
  let users := fold_left (add_user metric colors palette) rows [] in
  sort_by by_user_option
    (map (fun e => MkUserOption e.1 (ut_label e.2) (formatNumber (ut_value e.2)) (ut_value e.2) (ut_color e.2))
       users).

(** [nodeFilterKey]: the kind and the id, joined. *)
Definition nodeFilterKey (f : FlowNodeFilter) : str := kind_name (nf_kind f) ++ [NUL] ++ nf_id f.

Definition stage_totals (metric : FlowMetric) (stage : FlowNodeKind) (ctx : FlowPathContext)
    (candidateRows : list FlowQuotaDataItem) : list (str * FlowNodeRank) :=
  fold_left (fun totals row =>
    let value := metricValue (rowMetrics row) metric in
    let node := NODE_BUILDERS stage row ctx in
    let key := nodeFilterKey (MkNodeFilter (pn_kind node) (pn_id node)) in
    let current := default (MkRank node num_zero) (map_get totals key) in
    map_set totals key (MkRank (rk_node current) (num_add (rk_value current) value)))
    candidateRows [].

(** [stageOrder.get(kind) ?? 0] *)
Definition stage_order (stages : list FlowNodeKind) (kind : FlowNodeKind) : nat :=
  match list_find (fun k => k = kind) stages with Some (i, _) => i | None => 0 end.

Definition by_node_option (stages : list FlowNodeKind) (a b : FlowNodeFilterOption) : Z :=
  order_or (Z.of_nat (stage_order stages (no_kind a)) - Z.of_nat (stage_order stages (no_kind b)))
    (difference_or (no_valueRaw b) (no_valueRaw a)
       (order_or (localeCompare (no_label a) (no_label b)) (localeCompare (no_value a) (no_value b)))).

Definition buildNodeFilterOptions (rows : list FlowQuotaDataItem) (metric : FlowMetric) (role : FlowRole)
    (visibleStages : option (list FlowNodeKind)) (palette : option (list str)) (ctx : FlowPathContext)
    (selectedNodes : option (list FlowNodeFilter)) : list FlowNodeFilterOption :=
  let stages := resolveVisibleStages role visibleStages in
  let colorIds := set_from (concat (map (fun row => map pn_id (flowPathForStages row stages ctx)) rows)) in
  let colors := stableColorMap (sort_by localeCompare colorIds) palette in
  let options :=
    concat (map (fun stage =>
      let candidateRows :=
        filterRowsByNodes rows (selectedNodeFiltersExceptKind selectedNodes stage) stages ctx in
      map (fun rank =>
        MkNodeOption (pn_kind (rk_node rank)) (pn_id (rk_node rank)) (pn_label (rk_node rank))
          (formatNumber (rk_value rank)) (rk_value rank)
          (match map_get colors (pn_id (rk_node rank)) with Some c => c | None => colorAt 0 palette end))
        (map_values (stage_totals metric stage ctx candidateRows))) stages) in
  sort_by (by_node_option stages) options.

Record FlowFilterOptions := MkFilterOptions {
  fo_users : list FlowUserFilterOption;
  fo_nodes : list FlowNodeFilterOption
}.

Definition buildFlowFilterOptions (rows : list FlowQuotaDataItem) (metric : FlowMetric)
    (palette : option (list str)) (role : FlowRole) (visibleStages : option (list FlowNodeKind))
    (selectedNodes : option (list FlowNodeFilter)) : FlowFilterOptions :=
  MkFilterOptions (buildUserFilterOptions rows metric palette)
    (buildNodeFilterOptions rows metric role visibleStages palette EMPTY_FLOW_PATH_CONTEXT selectedNodes).

Record FlowBuildOptions := MkBuildOptions {
  bo_role : option FlowRole;
  bo_selectedUsers : option (list str);
  bo_selectedNodes : option (list FlowNodeFilter);
  bo_activeNode : option FlowNodeFilter;
  bo_activeLink : option FlowLinkSelection;
  bo_colorPalette : option (list str);
  bo_visibleStages : option (list FlowNodeKind);
  bo_topNodeLimit : option num;
  bo_overflowMode : option FlowOverflowMode;
  bo_maskSensitive : bool;
  bo_deletedTokenLabel : option (num -> str);
  bo_otherNodeLabel : option (FlowNodeKind -> str)
}.

Record ProcessedFlowData := MkProcessed {
  fd_summary : FlowSummary;
  fd_flow : DashboardFlowGraph;
  fd_filterOptions : FlowFilterOptions
}.

Definition DEFAULT_FLOW_ROLE : FlowRole := RUser.

(** The rows the diagram is drawn from. *)
Definition selected_rows (rows : list FlowQuotaDataItem) (options : FlowBuildOptions)
  : list FlowQuotaDataItem :=
  filterRowsByNodes (filterRows rows (bo_selectedUsers options)) (bo_selectedNodes options)
    (resolveVisibleStages (default DEFAULT_FLOW_ROLE (bo_role options)) (bo_visibleStages options))
    (MkContext (bo_deletedTokenLabel options)).

Definition buildDashboardFlowData (rows : list FlowQuotaDataItem) (metric : FlowMetric)
    (options : FlowBuildOptions) : ProcessedFlowData :=
  let role := default DEFAULT_FLOW_ROLE (bo_role options) in
  let palette := bo_colorPalette options in
  let ctx := MkContext (bo_deletedTokenLabel options) in
  let userFilteredRows := filterRows rows (bo_selectedUsers options) in
  let filteredRows := selected_rows rows options in
  MkProcessed (buildSummary filteredRows)
    (buildFlowGraph filteredRows metric role palette (bo_visibleStages options) ctx
       (MkGraphOptions (bo_topNodeLimit options) (bo_overflowMode options) (bo_otherNodeLabel options)
          (bo_activeNode options) (bo_activeLink options) (bo_maskSensitive options)))
    (MkFilterOptions (buildUserFilterOptions rows metric palette)
       (buildNodeFilterOptions userFilteredRows metric role (bo_visibleStages options) palette ctx
          (bo_selectedNodes options))).

(** ** The data of the chart *)

(** [Number(flag)] *)
Definition flag_number (b : option bool) : num :=
  match b with Some true => lit 1 | Some false => num_zero | None => S754_nan end.

Definition byLinkDrawPriority (a b : DashboardFlowLink) : Z :=
  difference_or (flag_number (fl_dimmed a)) (flag_number (fl_dimmed b))
    (difference_or (flag_number (fl_highlighted b)) (flag_number (fl_highlighted a))
       (difference_or (fl_value b) (fl_value a) (localeCompare (linkStableKey a) (linkStableKey b)))).

Definition zIndex (link : DashboardFlowLink) (index : nat) : Z :=
  match fl_highlighted link, fl_dimmed link with
  | Some true, _ => 1000000 + Z.of_nat index
  | _, Some true => Z.of_nat index
  | _, _ => 100000 + Z.of_nat index
  end.

(** The links handed to the chart, with the layer each is drawn on. *)
Definition sankey_links (flow : DashboardFlowGraph) : list (DashboardFlowLink * Z) :=
  imap (fun index link => (link, zIndex link index))
    (sort_by byLinkDrawPriority (List.filter (fun link => num_ltb num_zero (fl_value link)) (fg_links flow))).
End Graph.
