(* ===== verification/FlowGraphFacts.v ===== *)
(** * The flow graph adds up

    The diagram of [FlowGraph] is a well-formed Sankey diagram: nodes and
    links are unique, a link joins two nodes of neighbouring columns, a column
    has no more nodes than asked for, every column carries the whole total and
    every inner node passes on what it receives; masking hides the labels of
    sensitive nodes and changes nothing else. *)

From Stdlib Require Import ZArith Lia Bool SpecFloat.
From stdpp Require Import base list numbers.
From S2P Require Import Prelude JsString JsNumber JsNumberFacts JsNumberExact JsObject JsMap FlowGraph.

(** ** Lists *)

Lemma fold_left_map {A B C} (f : C -> B -> C) (g : A -> B) l : forall c,
  fold_left f (map g l) c = fold_left (fun c a => f c (g a)) l c.
Proof. induction l as [|a l IH]; intros c; cbn; [done|]. apply IH. Qed.

Lemma fold_left_concat {A B} (f : B -> A -> B) (ls : list (list A)) : forall b,
  fold_left f (concat ls) b = fold_left (fun b l => fold_left f l b) ls b.
Proof. induction ls as [|l ls IH]; intros b; cbn; [done|]. by rewrite fold_left_app, IH. Qed.

Lemma fold_left_pair {A B C} (f : A -> C -> A) (g : B -> C -> B) l : forall a b,
  fold_left (fun p c => (f p.1 c, g p.2 c)) l (a, b) = (fold_left f l a, fold_left g l b).
Proof. induction l as [|c l IH]; intros a b; cbn; [done|]. apply IH. Qed.

Lemma fold_left_same {A B} (f g : B -> A -> B) l :
  (forall b a, f b a = g b a) -> forall b, fold_left f l b = fold_left g l b.
Proof. intros E. induction l as [|a l IH]; intros b; cbn; [done|]. by rewrite E, IH. Qed.

Lemma filter_concat {A} (p : A -> bool) ls : List.filter p (concat ls) = concat (map (List.filter p) ls).
Proof. induction ls as [|l ls IH]; cbn; [done|]. by rewrite List.filter_app, IH. Qed.

Lemma elem_concat {A} (x : A) ls : x ∈ concat ls <-> exists l, x ∈ l /\ l ∈ ls.
Proof. setoid_rewrite list_elem_of_In. rewrite in_concat. naive_solver. Qed.

Lemma NoDup_filterb {A} (p : A -> bool) l : NoDup l -> NoDup (List.filter p l).
Proof.
  induction 1 as [|x l Hx N IH]; cbn; [constructor|]. destruct (p x); [|done]. constructor; [|done].
  rewrite list_elem_of_In, filter_In, <- list_elem_of_In. by intros [? _].
Qed.

Lemma NoDup_filter_map {A B} (g : A -> B) (p : A -> bool) l : NoDup (map g l) -> NoDup (map g (List.filter p l)).
Proof.
  induction l as [|a l IH]; cbn; [done|]. intros N. pose proof (NoDup_cons_1_1 _ _ N) as Na.
  apply NoDup_cons_1_2 in N. destruct (p a); [|by apply IH]. constructor; [|by apply IH].
  intros (b & E & M)%list_elem_of_fmap. apply Na, list_elem_of_fmap. exists b. split; [done|].
  apply list_elem_of_In, filter_In in M as [M _]. by apply list_elem_of_In.
Qed.

Lemma map_on_values {K V} (f : V -> V) (m : list (K * V)) : map_values (on_values f m) = map f (map_values m).
Proof. unfold map_values, on_values. by rewrite !map_map. Qed.

Lemma values_keyed {K V} (name : V -> K) (m : list (K * V)) :
  (forall k v, (k, v) ∈ m -> name v = k) -> map name (map_values m) = map_keys m.
Proof.
  intros E. unfold map_values, map_keys. rewrite map_map. apply map_ext_in. intros [k v] I.
  apply E. by apply list_elem_of_In.
Qed.

Lemma map_values_elem {K V} (m : list (K * V)) v : v ∈ map_values m <-> exists k, (k, v) ∈ m.
Proof.
  unfold map_values. rewrite list_elem_of_fmap. split; [intros ([k v'] & -> & E); by exists k|].
  intros (k & E). by exists (k, v).
Qed.

(** ** What the graph is summed from *)

Section Loop.
Context `{ChartHost, Collation}.
Variables (metric : FlowMetric) (colors : list (str * str)) (palette : option (list str)).

Definition root_id (pp : PreparedFlowPath) : str :=
  match pp_path pp with [] => [] | root :: _ => pn_id root end.

Definition path_color (pp : PreparedFlowPath) : str :=
  match map_get colors (root_id pp) with Some c => c | None => colorAt 0 palette end.

Definition node_items (paths : list PreparedFlowPath) : list (PreparedFlowPath * FlowPathNode) :=
  concat (map (fun pp => map (pair pp) (pp_path pp)) paths).

Definition link_items (paths : list PreparedFlowPath)
  : list (PreparedFlowPath * (FlowPathNode * FlowPathNode)) :=
  concat (map (fun pp => map (pair pp) (path_links (pp_path pp))) paths).

Definition node_key (x : PreparedFlowPath * FlowPathNode) : str := pn_id x.2.
Definition link_key (x : PreparedFlowPath * (FlowPathNode * FlowPathNode)) : str := pathLinkKey x.2.1 x.2.2.

Definition node_loop : list (PreparedFlowPath * FlowPathNode) -> list (str * DashboardFlowNode) -> list (str * DashboardFlowNode) :=
  group_loop node_key (fun x => fresh_node x.2 (path_color x.1) (root_id x.1))
    (fun v x => bump_node (pp_metrics x.1) metric v).

Definition link_loop : list (PreparedFlowPath * (FlowPathNode * FlowPathNode)) -> list (str * DashboardFlowLink) -> list (str * DashboardFlowLink) :=
  group_loop link_key (fun x => fresh_link x.2.1 x.2.2 (path_color x.1) (root_id x.1))
    (fun v x => bump_link (pp_metrics x.1) metric v).

Lemma add_path_loop g pp :
  add_path metric colors palette g pp =
  (node_loop (map (pair pp) (pp_path pp)) g.1, link_loop (map (pair pp) (path_links (pp_path pp))) g.2).
Proof.
  unfold add_path, node_loop, link_loop, group_loop. rewrite !fold_left_map.
  destruct (pp_path pp) as [|root path] eqn:P; [by destruct g|].
  f_equal; apply fold_left_same; intros m x; unfold group_step, addNode, addLink, path_color, root_id;
    cbn [fst snd]; by rewrite P.
Qed.

Lemma add_paths_loop paths :
  add_paths metric colors palette paths = (node_loop (node_items paths) [], link_loop (link_items paths) []).
Proof.
  unfold add_paths, node_loop, link_loop, group_loop, node_items, link_items.
  rewrite !fold_left_concat, !fold_left_map, <- fold_left_pair. apply fold_left_same.
  intros g pp. apply add_path_loop.
Qed.

Lemma node_step_frame items : forall v,
  let v' := fold_left (fun v (x : PreparedFlowPath * FlowPathNode) => bump_node (pp_metrics x.1) metric v) items v in
  fn_id v' = fn_id v /\ fn_kind v' = fn_kind v /\ fn_label v' = fn_label v /\
  fn_value v' = fold_left num_add (map (fun x => metricValue (pp_metrics x.1) metric) items) (fn_value v) /\
  fn_requests v' = fold_left num_add (map (fun x => fm_requests (pp_metrics x.1)) items) (fn_requests v) /\
  fn_quota v' = fold_left num_add (map (fun x => fm_quota (pp_metrics x.1)) items) (fn_quota v) /\
  fn_tokens v' = fold_left num_add (map (fun x => fm_tokens (pp_metrics x.1)) items) (fn_tokens v).
Proof.
  induction items as [|x items IH]; intros v; cbn; [done|].
  destruct (IH (bump_node (pp_metrics x.1) metric v)) as (-> & -> & -> & -> & -> & -> & ->). done.
Qed.

Lemma link_step_frame items : forall v,
  let v' := fold_left (fun v (x : PreparedFlowPath * (FlowPathNode * FlowPathNode)) => bump_link (pp_metrics x.1) metric v) items v in
  fl_source v' = fl_source v /\ fl_target v' = fl_target v /\
  fl_value v' = fold_left num_add (map (fun x => metricValue (pp_metrics x.1) metric) items) (fl_value v) /\
  fl_requests v' = fold_left num_add (map (fun x => fm_requests (pp_metrics x.1)) items) (fl_requests v) /\
  fl_quota v' = fold_left num_add (map (fun x => fm_quota (pp_metrics x.1)) items) (fl_quota v) /\
  fl_tokens v' = fold_left num_add (map (fun x => fm_tokens (pp_metrics x.1)) items) (fl_tokens v).
Proof.
  induction items as [|x items IH]; intros v; cbn; [done|].
  destruct (IH (bump_link (pp_metrics x.1) metric v)) as (-> & -> & -> & -> & -> & ->). done.
Qed.

(** Every node of the sum, and the items it is summed from. *)
Lemma node_entry paths k n :
  (k, n) ∈ (add_paths metric colors palette paths).1 ->
  fn_id n = k /\
  (exists x, x ∈ node_items paths /\ node_key x = k /\ fn_kind n = pn_kind x.2) /\
  fn_value n = num_sum (map (fun x => metricValue (pp_metrics x.1) metric) (of_key node_key k (node_items paths))).
Proof.
  rewrite add_paths_loop. cbn [fst]. intros (x & rest & E & ->)%grouped.
  destruct (node_step_frame (x :: rest) (fresh_node x.2 (path_color x.1) (root_id x.1))) as (I & K & _ & V & _).
  assert (x ∈ of_key node_key k (node_items paths)) as [X1 X2]%of_key_elem by (rewrite E; by left).
  split; [rewrite I; done|]. split; [exists x; split; [done|]; split; [done|]; by rewrite K|].
  by rewrite V, E.
Qed.

Lemma link_entry paths k l :
  (k, l) ∈ (add_paths metric colors palette paths).2 ->
  linkStableKey l = k /\
  (exists x, x ∈ link_items paths /\ link_key x = k /\ fl_source l = pn_id x.2.1 /\ fl_target l = pn_id x.2.2) /\
  fl_value l = num_sum (map (fun x => metricValue (pp_metrics x.1) metric) (of_key link_key k (link_items paths))).
Proof.
  rewrite add_paths_loop. cbn [snd]. intros (x & rest & E & ->)%grouped.
  destruct (link_step_frame (x :: rest) (fresh_link x.2.1 x.2.2 (path_color x.1) (root_id x.1))) as (S & T & V & _).
  assert (x ∈ of_key link_key k (link_items paths)) as [X1 X2]%of_key_elem by (rewrite E; by left).
  split; [unfold linkStableKey; rewrite S, T; exact X2|].
  split; [exists x; split; [done|]; split; [done|]; by rewrite S, T|]. by rewrite V, E.
Qed.

Lemma node_entries_NoDup paths : NoDup (map_keys (add_paths metric colors palette paths).1).
Proof. rewrite add_paths_loop. apply group_loop_keys, NoDup_nil_2. Qed.

Lemma link_entries_NoDup paths : NoDup (map_keys (add_paths metric colors palette paths).2).
Proof. rewrite add_paths_loop. apply group_loop_keys, NoDup_nil_2. Qed.

Lemma node_listed paths x : x ∈ node_items paths ->
  exists n, (node_key x, n) ∈ (add_paths metric colors palette paths).1.
Proof. rewrite add_paths_loop. apply grouped_listed. Qed.

Lemma link_listed paths x : x ∈ link_items paths ->
  exists l, (link_key x, l) ∈ (add_paths metric colors palette paths).2.
Proof. rewrite add_paths_loop. apply grouped_listed. Qed.
End Loop.

(** ** What later steps keep *)

Definition node_core (n : DashboardFlowNode) : str * FlowNodeKind * num := (fn_id n, fn_kind n, fn_value n).
Definition link_core (l : DashboardFlowLink) : str * str * num := (fl_source l, fl_target l, fl_value l).

Lemma map_keeps {A B} (core : A -> B) (f : A -> A) l :
  (forall a, core (f a) = core a) -> map core (map f l) = map core l.
Proof. intros E. rewrite map_map. by apply map_ext. Qed.

Lemma map_sorted {A B} (core : A -> B) compare l : map core (sort_by compare l) ≡ₚ map core l.
Proof. apply Permutation_map, sort_by_perm. Qed.

Section Keeps.
Context `{ChartHost, Collation}.

Lemma mask_keeps nodes links :
  let g := maskFlowGraphLabels nodes links in
  map node_core (map_values g.1) = map node_core (map_values nodes) /\
  map link_core (map_values g.2) = map link_core (map_values links).
Proof.
  intros g. unfold g, maskFlowGraphLabels. cbn [fst snd]. split.
  - rewrite map_on_values. apply map_keeps. intros n. unfold mask_node. by destruct (node_masked n).
  - destruct (masked_by_id _); [done|]. rewrite map_on_values. by apply map_keeps.
Qed.

Lemma highlight_keeps nodes links sets :
  let g := applyFlowHighlights nodes links sets in
  map node_core (map_values g.1) = map node_core (map_values nodes) /\
  map link_core (map_values g.2) = map link_core (map_values links).
Proof. destruct sets; cbn [applyFlowHighlights fst snd]; [|done]. rewrite !map_on_values. by split; apply map_keeps. Qed.

Lemma shares_keep sources links : map link_core (assign_shares sources links) = map link_core links.
Proof. by apply map_keeps. Qed.

Lemma displays_keep links : map link_core (assignLinkDisplayColors links) = map link_core links.
Proof. apply map_keeps. intros l. by destruct (map_get _ _). Qed.
End Keeps.

(** ** The shape of a path *)

Definition tagged (stage : FlowNodeKind) (node : FlowPathNode) : Prop :=
  pn_kind node = stage /\ exists r, pn_id node = kind_name stage ++ 58%N :: r.

Lemma tag_inj k k' r r' : kind_name k ++ 58%N :: r = kind_name k' ++ 58%N :: r' -> k = k'.
Proof. destruct k, k'; intros E; vm_compute in E; congruence. Qed.

Lemma builder_tagged stage row ctx : tagged stage (NODE_BUILDERS stage row ctx).
Proof. split; destruct stage; try done; eexists; reflexivity. Qed.

Lemma other_tagged stage labeler : tagged stage (otherFlowNode stage labeler).
Proof. split; [done|]. destruct stage; eexists; reflexivity. Qed.

Lemma path_tagged row stages ctx : Forall2 tagged stages (flowPathForStages row stages ctx).
Proof. induction stages; constructor; [apply builder_tagged|done]. Qed.

Lemma limit_tagged stages path tops mode labeler path' :
  Forall2 tagged stages path -> applyTopNodeLimit path tops mode labeler = Some path' ->
  Forall2 tagged stages path'.
Proof.
  intros T. unfold applyTopNodeLimit. destruct tops as [tops|]; [|by intros [= <-]].
  destruct (negb _); [by intros [= <-]|]. destruct mode; [|done]. intros [= <-].
  induction T as [|stage node stages path Hn T IH]; cbn; constructor; [|done].
  destruct (isTopFlowNode _ _); [done|]. destruct Hn as [-> _]. apply other_tagged.
Qed.

Lemma path_links_cons a b path : path_links (a :: b :: path) = (a, b) :: path_links (b :: path).
Proof. done. Qed.

Lemma path_links_elem e path : e ∈ path_links path ->
  exists i, path !! i = Some e.1 /\ path !! S i = Some e.2.
Proof.
  induction path as [|a [|b path] IH]; [by intros ?%elem_of_nil..|].
  rewrite path_links_cons. intros [->|E]%elem_of_cons; [by exists 0|].
  destruct (IH E) as (i & A & B). by exists (S i).
Qed.

Section Shape.
Variables (stages : list FlowNodeKind) (path : list FlowPathNode).
Hypothesis N : NoDup stages.
Hypothesis T : Forall2 tagged stages path.

Lemma shape_stage i node : path !! i = Some node -> stages !! i = Some (pn_kind node) /\ tagged (pn_kind node) node.
Proof.
  intros L. destruct (Forall2_lookup_r _ _ _ _ _ T L) as (stage & S & Hn).
  pose proof Hn as [<- _]. done.
Qed.

Lemma shape_index i j node node' :
  path !! i = Some node -> path !! j = Some node' -> pn_id node = pn_id node' -> i = j.
Proof.
  intros A B E. apply shape_stage in A as [A (_ & r & Hr)], B as [B (_ & r' & Hr')].
  rewrite Hr, Hr' in E. apply tag_inj in E. rewrite E in A.
  by eapply NoDup_lookup.
Qed.

Lemma shape_ids_NoDup : NoDup (map pn_id path).
Proof.
  apply NoDup_alt. intros i j x A B. rewrite list_lookup_fmap in A, B.
  destruct (path !! i) as [a|] eqn:PA; [|done]. destruct (path !! j) as [b|] eqn:PB; [|done].
  cbn in A, B. eapply shape_index; [done..|congruence].
Qed.
End Shape.

Lemma stages_distinct role visible : NoDup (resolveVisibleStages role visible) /\ 2 <= length (resolveVisibleStages role visible).
Proof.
  assert (NoDup (getFlowStages role) /\ 2 <= length (getFlowStages role)) as [A B] by (destruct role; split; [vm_decide|cbn; lia|vm_decide|cbn; lia|vm_decide|cbn; lia]).
  unfold resolveVisibleStages. destruct visible as [v|]; [|done].
  destruct (MIN_FLOW_STAGES <=? _) eqn:E; [|done]. split; [by apply NoDup_filterb|].
  by apply Nat.leb_le in E.
Qed.

(** ** Top nodes *)

Lemma take_num_length {A} limit (l : list A) : length (take_num limit l) <= Z.to_nat (default 0%Z (num_to_Z limit)).
Proof. unfold take_num. rewrite length_take. lia. Qed.

Lemma rank_path_keys value path : forall totals, map_keys (rank_path value totals path) = map_keys totals.
Proof.
  unfold rank_path. induction path as [|node path IH]; intros totals; cbn [fold_left]; [done|]. rewrite IH.
  destruct (map_get totals (pn_kind node)) eqn:G; [|done]. rewrite map_set_keys.
  case_bool_decide as B; [done|]. apply map_get_None in B. congruence.
Qed.

Lemma rank_rows_keys metric stages ctx rows : forall totals,
  map_keys (fold_left (fun totals row =>
    rank_path (metricValue (rowMetrics row) metric) totals (flowPathForStages row stages ctx)) rows totals)
  = map_keys totals.
Proof. induction rows as [|row rows IH]; intros totals; cbn [fold_left]; [done|]. by rewrite IH, rank_path_keys. Qed.

Lemma empty_totals_keys {V} (v : V) (stages : list FlowNodeKind) k : k ∈ stages ->
  k ∈ map_keys (fold_left (fun m stage => map_set m stage v) stages []).
Proof.
  intros E. destruct (set_loop_get (fun x => x) (fun _ => v) stages [] k) as (x & _ & _ & G); [by rewrite map_id|].
  destruct (decide (k ∈ map_keys (fold_left (fun m stage => map_set m stage v) stages []))) as [|N]; [done|].
  apply map_get_None in N. congruence.
Qed.

Lemma tops_bounded `{Collation} rows metric stages limit ctx stage :
  num_eqb limit num_zero = false -> stage ∈ stages ->
  exists sets ids, buildTopNodeSets rows metric stages (Some limit) ctx = Some sets /\
    map_get sets stage = Some ids /\ length ids <= Z.to_nat (default 0%Z (num_to_Z limit)).
Proof.
  intros L S. unfold buildTopNodeSets. rewrite L. eexists. 
  match goal with |- context [fold_left _ ?t []] => set (totals := t) end.
  destruct (set_loop_get fst (fun e : FlowNodeKind * list (str * FlowNodeRank) =>
    set_from (map (fun rank => pn_id (rk_node rank)) (take_num limit (sort_by by_rank (map_values e.2)))))
    totals [] stage) as (e & _ & _ & G).
  { change (map fst totals) with (map_keys totals). unfold totals. rewrite rank_rows_keys. by apply empty_totals_keys. }
  eexists. split; [reflexivity|]. split; [exact G|].
  rewrite set_from_length, length_map. apply take_num_length.
Qed.

Lemma limit_nodes path sets mode labeler path' node :
  applyTopNodeLimit path (Some sets) mode labeler = Some path' -> node ∈ path' ->
  isTopFlowNode node (Some sets) = true \/ (mode = OAggregate /\ pn_id node = OTHER_FLOW_NODE_IDS (pn_kind node)).
Proof.
  unfold applyTopNodeLimit. destruct (existsb _ path) eqn:X; cbn [negb].
  - destruct mode; [|done]. intros [= <-] (n & -> & M)%list_elem_of_fmap.
    destruct (isTopFlowNode n (Some sets)) eqn:T; [by left|by right].
  - intros [= <-] M. left. destruct (isTopFlowNode node (Some sets)) eqn:T; [done|].
    assert (existsb (fun node => negb (isTopFlowNode node (Some sets))) path = true) as K; [|congruence].
    apply existsb_exists. exists node. rewrite T. split; [by apply list_elem_of_In|done].
Qed.

Section FlowFacts.
Context `{ChartHost, Collation}.
Variables (rows : list FlowQuotaDataItem) (metric : FlowMetric) (role : FlowRole).
Variables (palette : option (list str)) (visibleStages : option (list FlowNodeKind)).
Variables (ctx : FlowPathContext) (options : FlowGraphOptions).

Definition flow_stages : list FlowNodeKind := resolveVisibleStages role visibleStages.

Definition flow_tops : option (list (FlowNodeKind * list str)) :=
  buildTopNodeSets rows metric flow_stages (normalizeTopNodeLimit (go_topNodeLimit options)) ctx.

Definition flow_mode : FlowOverflowMode := default OAggregate (go_overflowMode options).

(** The paths of the diagram. *)
Definition flow_paths : list PreparedFlowPath :=
  prepare_paths rows flow_stages flow_tops flow_mode (go_otherNodeLabel options) ctx.

Definition flow_graph : DashboardFlowGraph :=
  buildFlowGraph rows metric role palette visibleStages ctx options.

Definition flow_colors : list (str * str) :=
  stableColorMap (sort_by localeCompare (root_ids flow_paths)) palette.

Definition flow_sums : list (str * DashboardFlowNode) * list (str * DashboardFlowLink) :=
  add_paths metric flow_colors palette flow_paths.

Lemma graph_cores :
  map node_core (fg_nodes flow_graph) ≡ₚ map node_core (map_values flow_sums.1) /\
  map link_core (fg_links flow_graph) ≡ₚ map link_core (map_values flow_sums.2).
Proof.
  unfold flow_graph, buildFlowGraph. fold flow_stages flow_tops flow_mode flow_paths flow_colors flow_sums.
  cbn [fg_nodes fg_links]. rewrite displays_keep, shares_keep, !map_sorted.
  match goal with |- context [applyFlowHighlights ?a ?b ?c] => destruct (highlight_keeps a b c) as [-> ->] end.
  destruct (go_maskSensitive options); [|done].
  by destruct (mask_keeps flow_sums.1 flow_sums.2) as [-> ->].
Qed.

Lemma flow_stages_ok : NoDup flow_stages /\ 2 <= length flow_stages.
Proof. apply stages_distinct. Qed.

Lemma flow_paths_tagged pp : pp ∈ flow_paths -> Forall2 tagged flow_stages (pp_path pp).
Proof.
  unfold flow_paths, prepare_paths. rewrite list_elem_of_omap. intros (row & _ & E).
  destruct (applyTopNodeLimit _ _ _ _) as [path|] eqn:L; [|done]. injection E as <-. cbn [pp_path].
  eapply limit_tagged; [apply path_tagged|exact L].
Qed.

Lemma node_item_elem x paths : x ∈ node_items paths <-> x.1 ∈ paths /\ x.2 ∈ pp_path x.1.
Proof.
  unfold node_items. rewrite elem_concat. split.
  - intros (l & X & (pp & -> & P)%list_elem_of_fmap). apply list_elem_of_fmap in X as (n & -> & Q). done.
  - destruct x as [pp n]. intros [A B]. eexists. split; [|apply list_elem_of_fmap; by exists pp].
    apply list_elem_of_fmap. by exists n.
Qed.

Lemma link_item_elem x paths : x ∈ link_items paths <-> x.1 ∈ paths /\ x.2 ∈ path_links (pp_path x.1).
Proof.
  unfold link_items. rewrite elem_concat. split.
  - intros (l & X & (pp & -> & P)%list_elem_of_fmap). apply list_elem_of_fmap in X as (n & -> & Q). done.
  - destruct x as [pp n]. intros [A B]. eexists. split; [|apply list_elem_of_fmap; by exists pp].
    apply list_elem_of_fmap. by exists n.
Qed.

Lemma graph_node n : n ∈ fg_nodes flow_graph ->
  exists k n0, (k, n0) ∈ flow_sums.1 /\ node_core n = node_core n0.
Proof.
  intros E. assert (node_core n ∈ map node_core (map_values flow_sums.1)) as M.
  { rewrite <- (proj1 graph_cores). apply list_elem_of_fmap. by exists n. }
  apply list_elem_of_fmap in M as (n0 & C & (k & M)%map_values_elem). by exists k, n0.
Qed.

Lemma node_graph k n0 : (k, n0) ∈ flow_sums.1 ->
  exists n, n ∈ fg_nodes flow_graph /\ node_core n = node_core n0.
Proof.
  intros E. assert (node_core n0 ∈ map node_core (fg_nodes flow_graph)) as M.
  { rewrite (proj1 graph_cores). apply list_elem_of_fmap. exists n0. split; [done|].
    apply map_values_elem. by exists k. }
  apply list_elem_of_fmap in M as (n & C & M). by exists n.
Qed.

Lemma graph_link l : l ∈ fg_links flow_graph ->
  exists k l0, (k, l0) ∈ flow_sums.2 /\ link_core l = link_core l0.
Proof.
  intros E. assert (link_core l ∈ map link_core (map_values flow_sums.2)) as M.
  { rewrite <- (proj2 graph_cores). apply list_elem_of_fmap. by exists l. }
  apply list_elem_of_fmap in M as (l0 & C & (k & M)%map_values_elem). by exists k, l0.
Qed.

Lemma sum_nodes_keyed : map fn_id (map_values flow_sums.1) = map_keys flow_sums.1.
Proof. apply values_keyed. intros k n E. by apply node_entry in E as [? _]. Qed.

Lemma sum_links_keyed : map linkStableKey (map_values flow_sums.2) = map_keys flow_sums.2.
Proof. apply values_keyed. intros k l E. by apply link_entry in E as [? _]. Qed.

Lemma graph_ids : map fn_id (fg_nodes flow_graph) ≡ₚ map_keys flow_sums.1.
Proof.
  rewrite <- sum_nodes_keyed. change fn_id with (fun n => (node_core n).1.1).
  rewrite <- !(map_map node_core (fun c => c.1.1)). by rewrite (proj1 graph_cores).
Qed.

Lemma graph_keys : map linkStableKey (fg_links flow_graph) ≡ₚ map_keys flow_sums.2.
Proof.
  rewrite <- sum_links_keyed.
  change linkStableKey with (fun l => (fun c : str * str * num => c.1.1 ++ [NUL] ++ c.1.2) (link_core l)).
  rewrite <- !(map_map link_core (fun c => c.1.1 ++ [NUL] ++ c.1.2)). by rewrite (proj2 graph_cores).
Qed.

Lemma graph_ids_NoDup : NoDup (map fn_id (fg_nodes flow_graph)).
Proof. rewrite graph_ids. apply node_entries_NoDup. Qed.

Lemma graph_keys_NoDup : NoDup (map linkStableKey (fg_links flow_graph)).
Proof. rewrite graph_keys. apply link_entries_NoDup. Qed.

(** A node of a path is a node of the graph, of the same kind. *)
Lemma path_node_shown pp node : pp ∈ flow_paths -> node ∈ pp_path pp ->
  exists n, n ∈ fg_nodes flow_graph /\ fn_id n = pn_id node /\ fn_kind n = pn_kind node.
Proof.
  intros P M. destruct (node_listed metric flow_colors palette flow_paths (pp, node)) as (n0 & E); [by apply node_item_elem|].
  destruct (node_graph _ _ E) as (n & Hn & C). exists n. split; [done|].
  apply node_entry in E as (I & ((pp' & node') & X & K & Q) & _). unfold node_core in C.
  assert (fn_id n = fn_id n0 /\ fn_kind n = fn_kind n0) as [-> ->] by (by injection C).
  split; [done|]. rewrite Q. apply node_item_elem in X as [P' M']. cbn in *.
  apply list_elem_of_lookup in M as (i & Hi), M' as (j & Hj).
  apply flow_paths_tagged in P, P'. apply (shape_stage _ _ P) in Hi as [_ (_ & r & R)].
  apply (shape_stage _ _ P') in Hj as [_ (_ & r' & R')].
  unfold node_key in K. cbn in K. rewrite R, R' in K. by apply tag_inj in K.
Qed.

(** The graph is a layered diagram.  No two nodes share an id and no two
    links join the same ends; both ends of a link are nodes of the graph, and
    its target lies in the column right after its source's, so the diagram has
    no cycle and every link can be drawn. *)
Theorem flow_graph_layered :
  NoDup (map fn_id (fg_nodes flow_graph)) /\ NoDup (map linkStableKey (fg_links flow_graph)) /\
  forall l, l ∈ fg_links flow_graph -> exists s t i,
    s ∈ fg_nodes flow_graph /\ t ∈ fg_nodes flow_graph /\
    fn_id s = fl_source l /\ fn_id t = fl_target l /\
    resolveVisibleStages role visibleStages !! i = Some (fn_kind s) /\
    resolveVisibleStages role visibleStages !! S i = Some (fn_kind t).
Proof.
  split; [apply graph_ids_NoDup|]. split; [apply graph_keys_NoDup|].
  intros l (k & l0 & E & C)%graph_link. apply link_entry in E as (_ & ((pp & e) & X & _ & S & T) & _).
  assert (fl_source l = fl_source l0 /\ fl_target l = fl_target l0) as [-> ->] by (by injection C).
  apply link_item_elem in X as [P (i & A & B)%path_links_elem]. cbn [fst snd] in *.
  destruct (path_node_shown pp e.1) as (s & S1 & S2 & S3); [done|by eapply list_elem_of_lookup_2|].
  destruct (path_node_shown pp e.2) as (t & T1 & T2 & T3); [done|by eapply list_elem_of_lookup_2|].
  apply flow_paths_tagged in P. apply (shape_stage _ _ P) in A as [A _], B as [B _].
  exists s, t, i. rewrite S3, T3. repeat split; congruence || done.
Qed.

Definition column (stage : FlowNodeKind) : list DashboardFlowNode :=
  List.filter (fun n => bool_decide (fn_kind n = stage)) (fg_nodes flow_graph).

Lemma column_elem stage n : n ∈ column stage <-> n ∈ fg_nodes flow_graph /\ fn_kind n = stage.
Proof. unfold column. by rewrite list_elem_of_In, filter_In, bool_decide_eq_true, <- list_elem_of_In. Qed.

Lemma column_ids_NoDup stage : NoDup (map fn_id (column stage)).
Proof. apply NoDup_filter_map, graph_ids_NoDup. Qed.

(** A node shown in a column is a node of some path. *)
Lemma column_source stage n : n ∈ column stage ->
  exists pp node, pp ∈ flow_paths /\ node ∈ pp_path pp /\ pn_id node = fn_id n /\ pn_kind node = stage.
Proof.
  rewrite column_elem. intros [(k & n0 & E & C)%graph_node <-].
  apply node_entry in E as (I & ((pp & node) & X & K & Q) & _).
  assert (fn_id n = fn_id n0 /\ fn_kind n = fn_kind n0) as [-> ->] by (by injection C).
  apply node_item_elem in X as [P M]. exists pp, node. cbn in *. unfold node_key in K. cbn in K.
  repeat split; congruence || done.
Qed.

(** C36: A limit on the nodes of a column is kept: with a limit in force, each
    column shows at most that many nodes when the rest is hidden, and at most
    one more, the collecting node, when the rest is merged. *)
Theorem flow_columns_bounded limit stage :
  normalizeTopNodeLimit (go_topNodeLimit options) = Some limit ->
  stage ∈ resolveVisibleStages role visibleStages ->
  length (column stage) <=
    Z.to_nat (default 0%Z (num_to_Z limit)) + match flow_mode with OAggregate => 1 | OHide => 0 end.
Proof.
  intros L S. assert (num_eqb limit num_zero = false) as Z0.
  { unfold normalizeTopNodeLimit in L. destruct (go_topNodeLimit options) as [x|]; [|done].
    destruct (is_finite (math_floor x) && num_ltb num_zero (math_floor x)) eqn:F; [|done]. injection L as <-.
    apply andb_true_iff in F as [_ F]. by destruct (math_floor x) as [[]|[]| |[]]. }
  destruct (tops_bounded rows metric flow_stages limit ctx stage Z0 S) as (sets & ids & T & G & B).
  assert (flow_tops = Some sets) as HT by (unfold flow_tops; by rewrite L).
  rewrite <- (length_map fn_id). set (extra := match flow_mode with OAggregate => [OTHER_FLOW_NODE_IDS stage] | OHide => [] end).
  transitivity (length (ids ++ extra)).
  - apply submseteq_length, NoDup_submseteq; [apply column_ids_NoDup|].
    intros id (n & -> & M)%list_elem_of_fmap. destruct (column_source _ _ M) as (pp & node & P & N & <- & <-).
    unfold flow_paths, prepare_paths in P. apply list_elem_of_omap in P as (row & _ & E). rewrite HT in E.
    destruct (applyTopNodeLimit _ _ _ _) as [path|] eqn:A; [|done]. injection E as <-. cbn [pp_path] in N.
    apply elem_of_app. destruct (limit_nodes _ _ _ _ _ _ A N) as [K|[Hm K]]; [left|right].
    + unfold isTopFlowNode in K. cbn in K. rewrite G in K. by apply bool_decide_eq_true in K.
    + unfold extra. rewrite K, Hm. by left.
  - rewrite length_app. unfold extra. destruct flow_mode; cbn; lia.
Qed.
End FlowFacts.

(** ** A small diagram *)

Definition sample_charts : ChartHost := {| dataScheme := [MkScheme None [Some (js "#1664FF"); None]]; NumberFormat := string_of_num |}.

Definition sample_row (user : Z) (group model : str) (quota : Z) : FlowQuotaDataItem :=
  MkRow (Some (lit user)) (Some (js "u")) None (Some group) None None (Some (lit 7)) None (Some model)
    (Some (lit 3)) (Some (lit 1)) (Some (lit quota)).

Definition sample_rows : list FlowQuotaDataItem :=
  [sample_row 1 (js "a") (js "m") 10; sample_row 2 (js "a") (js "n") 5; sample_row 1 (js "b") (js "m") 7; sample_row 3 (js "b") (js "k") 2].

(** At most two nodes per column, the rest merged. *)
Definition sample_options : FlowGraphOptions := MkGraphOptions (Some (lit 2)) None None None None true.

Lemma flow_columns_bounded_witness :
  let _ := sample_charts in let _ := code_unit_collation in
  (length (column sample_rows MQuota RAdmin None None EMPTY_FLOW_PATH_CONTEXT sample_options KModel) <= 3).
Proof.
  intros C L.
  apply (flow_columns_bounded sample_rows MQuota RAdmin None None EMPTY_FLOW_PATH_CONTEXT sample_options (lit 2) KModel).
  - vm_compute. reflexivity.
  - vm_decide.
Defined.
