(* ===== verification/FlowConservation.v ===== *)
(** * The flow is conserved

    With whole, non-negative amounts whose total stays below 2^53, so that
    the sums of the code are exact, every column of the diagram carries the
    same total, the one of the summary when nothing is hidden, and every node
    receives and passes on exactly its own amount. *)

From Stdlib Require Import ZArith Lia Bool SpecFloat.
From stdpp Require Import base list numbers.
From S2P Require Import Prelude JsString JsNumber JsNumberFacts JsNumberExact JsObject JsMap FlowGraph FlowGraphFacts.

Local Open Scope Z_scope.

(** ** Finite sums *)

Definition sum_over {A} (f : A -> Z) (l : list A) : Z := Z_sum (map f l).

Lemma sum_over_cons {A} (f : A -> Z) a l : sum_over f (a :: l) = f a + sum_over f l.
Proof. done. Qed.

Lemma sum_over_ext {A} (f g : A -> Z) l : (forall a, a ∈ l -> f a = g a) -> sum_over f l = sum_over g l.
Proof. intros E. unfold sum_over. f_equal. apply map_ext_in. intros a I. by apply E, list_elem_of_In. Qed.

Lemma sum_over_zero {A} (f : A -> Z) l : (forall a, a ∈ l -> f a = 0) -> sum_over f l = 0.
Proof.
  induction l as [|a l IH]; intros E; [done|]. rewrite sum_over_cons, E, IH; [done| |by left].
  intros b Hb. apply E. by right.
Qed.

Lemma sum_over_add {A} (f g : A -> Z) l : sum_over (fun a => f a + g a) l = sum_over f l + sum_over g l.
Proof. induction l as [|a l IH]; [done|]. rewrite !sum_over_cons, IH. lia. Qed.

Lemma sum_over_mul {A} c (f : A -> Z) l : sum_over (fun a => c * f a) l = c * sum_over f l.
Proof. induction l as [|a l IH]; [unfold sum_over; cbn; lia|]. rewrite !sum_over_cons, IH. lia. Qed.

Lemma sum_over_swap {A B} (f : A -> B -> Z) la lb :
  sum_over (fun a => sum_over (f a) lb) la = sum_over (fun b => sum_over (fun a => f a b) la) lb.
Proof.
  induction la as [|a la IH]; [symmetry; by apply sum_over_zero|].
  rewrite sum_over_cons, IH, <- sum_over_add. by apply sum_over_ext.
Qed.

Lemma sum_over_perm {A} (f : A -> Z) l l' : l ≡ₚ l' -> sum_over f l = sum_over f l'.
Proof. induction 1; rewrite ?sum_over_cons; lia. Qed.

Lemma sum_over_map {A B} (f : B -> Z) (g : A -> B) l : sum_over f (map g l) = sum_over (fun a => f (g a)) l.
Proof. unfold sum_over. by rewrite map_map. Qed.

Lemma sum_over_concat {A B} (f : B -> Z) (g : A -> list B) l :
  sum_over f (concat (map g l)) = sum_over (fun a => sum_over f (g a)) l.
Proof.
  induction l as [|a l IH]; [done|]. unfold sum_over in *. cbn. by rewrite map_app, Z_sum_app, IH.
Qed.

Lemma sum_over_nonneg {A} (f : A -> Z) l : (forall a, a ∈ l -> 0 <= f a) -> 0 <= sum_over f l.
Proof.
  induction l as [|a l IH]; intros E; [done|]. rewrite sum_over_cons.
  specialize (E a (list_elem_of_here _ _)) as Ea. assert (0 <= sum_over f l); [|lia].
  apply IH. intros b Hb. apply E. by right.
Qed.

Lemma sum_over_le {A} (f g : A -> Z) l : (forall a, a ∈ l -> f a <= g a) -> sum_over f l <= sum_over g l.
Proof.
  induction l as [|a l IH]; intros E; [done|]. rewrite !sum_over_cons.
  specialize (E a (list_elem_of_here _ _)) as Ea. assert (sum_over f l <= sum_over g l); [|lia].
  apply IH. intros b Hb. apply E. by right.
Qed.

Definition indicator (b : bool) : Z := if b then 1 else 0.

Lemma sum_over_filter {A} (p : A -> bool) (f : A -> Z) l :
  sum_over f (List.filter p l) = sum_over (fun a => indicator (p a) * f a) l.
Proof.
  induction l as [|a l IH]; [done|]. cbn [List.filter]. rewrite sum_over_cons, <- IH.
  destruct (p a); rewrite ?sum_over_cons; cbn [indicator]; lia.
Qed.

(** A value that occurs once is counted once. *)
Lemma sum_over_once {A B} `{EqDecision B} (g : A -> B) l b :
  NoDup (map g l) -> b ∈ map g l -> sum_over (fun a => indicator (bool_decide (g a = b))) l = 1.
Proof.
  induction l as [|a l IH]; intros N E; [by apply elem_of_nil in E|]. rewrite sum_over_cons. cbn in N, E.
  pose proof (NoDup_cons_1_1 _ _ N) as Na. apply NoDup_cons_1_2 in N. case_bool_decide as Q.
  - rewrite sum_over_zero; [done|]. intros a' Ha. rewrite bool_decide_eq_false_2; [done|].
    intros Q'. apply Na. apply list_elem_of_fmap. exists a'. split; [congruence|done].
  - rewrite IH; [done|done|]. apply elem_of_cons in E as [->|E]; done.
Qed.

Lemma sum_over_present {A B} `{EqDecision B} (g : A -> B) l b :
  NoDup (map g l) -> sum_over (fun a => indicator (bool_decide (g a = b))) l = indicator (bool_decide (b ∈ map g l)).
Proof.
  intros N. case_bool_decide as E; [by apply sum_over_once|]. apply sum_over_zero. intros a Ha.
  rewrite bool_decide_eq_false_2; [done|]. intros <-. apply E, list_elem_of_fmap. by exists a.
Qed.

(** ** Items *)

Lemma keyed_total {P} (w : PreparedFlowPath -> Z) (parts : PreparedFlowPath -> list P) (key : P -> str) k paths :
  sum_over (fun x => w x.1)
    (of_key (fun x : PreparedFlowPath * P => key x.2) k (concat (map (fun pp => map (pair pp) (parts pp)) paths)))
  = sum_over (fun pp => w pp * sum_over (fun p => indicator (bool_decide (key p = k))) (parts pp)) paths.
Proof.
  unfold of_key. rewrite sum_over_filter, sum_over_concat. apply sum_over_ext. intros pp _.
  rewrite sum_over_map, <- sum_over_mul. apply sum_over_ext. intros p _. cbn. lia.
Qed.

Lemma path_links_lookup path i e :
  path_links path !! i = Some e <-> path !! i = Some e.1 /\ path !! S i = Some e.2.
Proof.
  revert i. induction path as [|a [|b path] IH]; intros i;
    [by split; [|intros []]|split; [done|]; intros [_ E]; by destruct i|].
  rewrite path_links_cons. destruct i as [|i]; [|by apply IH].
  cbn. split; [by intros [= <-]|]. destruct e as [x y]. cbn. by intros [[= ->] [= ->]].
Qed.

Definition pair_key (e : FlowPathNode * FlowPathNode) : str := pathLinkKey e.1 e.2.

Lemma shape_keys_NoDup stages path : NoDup stages -> Forall2 tagged stages path -> NoDup (map pair_key (path_links path)).
Proof.
  intros N T. apply NoDup_alt. intros i j x A B. rewrite list_lookup_fmap in A, B.
  destruct (path_links path !! i) as [a|] eqn:PA; [|done]. destruct (path_links path !! j) as [b|] eqn:PB; [|done].
  apply path_links_lookup in PA as [PA _], PB as [PB _].
  apply (shape_stage _ _ T) in PA as [PA (_ & r & R)], PB as [PB (_ & r' & R')].
  cbn in A, B. rewrite <- B in A. injection A as A. unfold pair_key, pathLinkKey in A.
  rewrite R, R', <- !app_assoc in A. cbn in A. apply tag_inj in A. rewrite A in PA. by eapply NoDup_lookup.
Qed.

Definition clean (s : str) : Prop := NUL ∉ s.

Lemma key_inj s s' t t' : clean s -> clean s' -> s ++ [NUL] ++ t = s' ++ [NUL] ++ t' -> s = s' /\ t = t'.
Proof.
  unfold clean. revert s'. induction s as [|c s IH]; intros [|c' s'] C C' E; cbn in E.
  - by injection E.
  - exfalso. apply C'. injection E as E _. rewrite <- E. by left.
  - exfalso. apply C. injection E as E _. rewrite E. by left.
  - apply not_elem_of_cons in C as [_ C], C' as [_ C']. injection E as -> E.
    by destruct (IH s' C C' E) as [-> ->].
Qed.

(** ** The summary *)

Definition summary_metric (metric : FlowMetric) (summary : FlowSummary) : num :=
  match metric with MQuota => sum_quota summary | MTokens => sum_tokens summary | MRequests => sum_requests summary end.

Lemma summary_sum metric rows :
  summary_metric metric (buildSummary rows) = num_sum (map (fun row => metricValue (rowMetrics row) metric) rows).
Proof.
  unfold buildSummary, num_sum.
  transitivity (fold_left num_add (map (fun row => metricValue (rowMetrics row) metric) rows)
    (summary_metric metric (MkSummary num_zero num_zero num_zero))); [|by destruct metric].
  generalize (MkSummary num_zero num_zero num_zero).
  induction rows as [|row rows IH]; intros s; cbn [map fold_left]; [done|].
  rewrite IH. f_equal. by destruct metric.
Qed.

Section Conservation.
Context `{ChartHost, Collation}.
Variables (rows : list FlowQuotaDataItem) (metric : FlowMetric) (role : FlowRole).
Variables (palette : option (list str)) (visibleStages : option (list FlowNodeKind)).
Variables (ctx : FlowPathContext) (options : FlowGraphOptions).

Let stages := flow_stages role visibleStages.
Let paths := flow_paths rows metric role visibleStages ctx options.
Let graph := flow_graph rows metric role palette visibleStages ctx options.
Let sums := flow_sums rows metric role palette visibleStages ctx options.
Let mode := flow_mode options.

(** Amounts as integers. *)
Definition amount (x : num) : Z := default 0 (num_to_Z x).
Definition row_amount (row : FlowQuotaDataItem) : Z := amount (metricValue (rowMetrics row) metric).
Definition path_amount (pp : PreparedFlowPath) : Z := amount (metricValue (pp_metrics pp) metric).

(** A whole, non-negative amount. *)
Definition whole (x : num) : Prop := exists z, 0 <= z < 2 ^ 53 /\ x = lit z.

Lemma whole_amount x : whole x -> 0 <= amount x /\ x = lit (amount x).
Proof. intros (z & B & ->). unfold amount. rewrite lit_to_Z by done. change (default 0 (Some z)) with z. split; [lia|done]. Qed.

Hypothesis whole_rows : forall row, row ∈ rows -> whole (metricValue (rowMetrics row) metric).
Hypothesis small_total : sum_over row_amount rows < 2 ^ 53.

Lemma path_source pp : pp ∈ paths -> exists row, row ∈ rows /\ pp_metrics pp = rowMetrics row /\
  applyTopNodeLimit (flowPathForStages row stages ctx)
    (flow_tops rows metric role visibleStages ctx options) mode (go_otherNodeLabel options) = Some (pp_path pp).
Proof.
  unfold paths, flow_paths, prepare_paths. rewrite list_elem_of_omap. intros (row & R & E).
  exists row. fold stages mode in E. destruct (applyTopNodeLimit _ _ _ _); [|done]. by injection E as <-.
Qed.

Lemma whole_path pp : pp ∈ paths -> 0 <= path_amount pp /\ metricValue (pp_metrics pp) metric = lit (path_amount pp).
Proof.
  intros (row & R & E & _)%path_source. unfold path_amount. rewrite E. by apply whole_amount, whole_rows.
Qed.

(** Hidden rows carry nothing; otherwise the paths carry what the rows do. *)
Lemma paths_total : sum_over path_amount paths <= sum_over row_amount rows /\
  (mode = OAggregate -> sum_over path_amount paths = sum_over row_amount rows).
Proof.
  unfold paths, flow_paths, prepare_paths. fold stages mode.
  generalize (flow_tops rows metric role visibleStages ctx options). intros tops.
  revert whole_rows. generalize rows. clear. intros rows whole_rows.
  induction rows as [|row rows' IH]; [done|].
  destruct IH as [A B]; [intros r Hr; apply whole_rows; by right|].
  destruct (whole_amount _ (whole_rows row (list_elem_of_here _ _))) as [P _]. fold (row_amount row) in P.
  cbn [omap list_omap]. destruct (applyTopNodeLimit _ _ _ _) as [path|] eqn:E; cbn [fmap option_fmap option_map].
  - rewrite !sum_over_cons. change (path_amount (MkPrepared path (rowMetrics row))) with (row_amount row).
    split; [lia|]. intros M. rewrite B by done. done.
  - rewrite sum_over_cons. split; [lia|]. intros M. rewrite M in E. unfold applyTopNodeLimit in E.
    destruct tops; [|done]. by destruct (negb _).
Qed.

(** The amount of a list of items, in the order they are added. *)
Lemma items_exact {P} (parts : PreparedFlowPath -> list P) (key : P -> str) k :
  (forall pp, pp ∈ paths -> NoDup (map key (parts pp))) ->
  num_sum (map (fun x => metricValue (pp_metrics x.1) metric)
    (of_key (fun x : PreparedFlowPath * P => key x.2) k (concat (map (fun pp => map (pair pp) (parts pp)) paths))))
  = lit (sum_over (fun pp => path_amount pp * indicator (bool_decide (k ∈ map key (parts pp)))) paths) /\
  0 <= sum_over (fun pp => path_amount pp * indicator (bool_decide (k ∈ map key (parts pp)))) paths < 2 ^ 53.
Proof.
  intros N. set (items := of_key _ _ _).
  assert (sum_over (fun x => path_amount x.1) items =
          sum_over (fun pp => path_amount pp * indicator (bool_decide (k ∈ map key (parts pp)))) paths) as T.
  { unfold items. rewrite keyed_total. apply sum_over_ext. intros pp P'. by rewrite sum_over_present by by apply N. }
  rewrite <- T. assert (forall x, x ∈ items -> x.1 ∈ paths) as I.
  { intros x (X & _)%of_key_elem. apply elem_concat in X as (l & X & (pp & -> & Q)%list_elem_of_fmap).
    by apply list_elem_of_fmap in X as (p & -> & _). }
  assert (0 <= sum_over (fun x => path_amount x.1) items) as B.
  { apply sum_over_nonneg. intros x X. by apply whole_path, I. }
  assert (sum_over (fun x => path_amount x.1) items < 2 ^ 53) as U.
  { rewrite T. destruct paths_total as [L _].
    assert (sum_over (fun pp => path_amount pp * indicator (bool_decide (k ∈ map key (parts pp)))) paths <= sum_over path_amount paths); [|lia].
    apply sum_over_le. intros pp P'. apply whole_path in P' as [P' _]. destruct (bool_decide _); cbn; lia. }
  split; [|done]. unfold num_sum. rewrite <- lit_zero.
  replace (map (fun x => metricValue (pp_metrics x.1) metric) items) with (map lit (map (fun x => path_amount x.1) items)).
  - rewrite sum_integers; [done|done| |exact U]. apply Forall_forall. intros z Hz.
    apply list_elem_of_In, list_elem_of_fmap in Hz as (x & -> & X). by apply whole_path, I.
  - rewrite map_map. apply map_ext_in. intros x X. symmetry. apply whole_path, I. by apply list_elem_of_In.
Qed.

Lemma stages_NoDup : NoDup stages.
Proof. apply flow_stages_ok. Qed.

Definition passes (k : str) (pp : PreparedFlowPath) : bool := bool_decide (k ∈ map pn_id (pp_path pp)).
Definition traverses (k : str) (pp : PreparedFlowPath) : bool := bool_decide (k ∈ map pair_key (path_links (pp_path pp))).

Lemma node_exact n : n ∈ fg_nodes graph ->
  fn_value n = lit (amount (fn_value n)) /\
  amount (fn_value n) = sum_over (fun pp => path_amount pp * indicator (passes (fn_id n) pp)) paths.
Proof.
  intros (k & n0 & E & C)%graph_node. apply node_entry in E as (I & _ & V).
  assert (fn_id n = k /\ fn_value n = fn_value n0) as [-> ->] by (injection C; intros; subst; done).
  destruct (items_exact pp_path pn_id k) as [S B].
  { intros pp P. apply flow_paths_tagged in P. by apply (shape_ids_NoDup stages); [apply stages_NoDup|]. }
  rewrite V. unfold node_items, node_key. fold paths. rewrite S. unfold amount. by rewrite lit_to_Z by done.
Qed.

Lemma link_exact l : l ∈ fg_links graph ->
  amount (fl_value l) = sum_over (fun pp => path_amount pp * indicator (traverses (linkStableKey l) pp)) paths.
Proof.
  intros (k & l0 & E & C)%graph_link. apply link_entry in E as (I & _ & V).
  assert (linkStableKey l = k /\ fl_value l = fl_value l0) as [-> ->].
  { unfold linkStableKey in *. injection C as -> -> ->. done. }
  destruct (items_exact (fun pp => path_links (pp_path pp)) pair_key k) as [S B].
  { intros pp P. apply flow_paths_tagged in P. by apply (shape_keys_NoDup stages); [apply stages_NoDup|]. }
  rewrite V. unfold link_items, link_key. fold paths. change (fun x : PreparedFlowPath * (FlowPathNode * FlowPathNode) => pathLinkKey x.2.1 x.2.2)
    with (fun x : PreparedFlowPath * (FlowPathNode * FlowPathNode) => pair_key x.2).
  rewrite S. unfold amount. by rewrite lit_to_Z by done.
Qed.

(** The id of a shown node names its kind. *)
Lemma node_tag n : n ∈ fg_nodes graph -> exists r, fn_id n = kind_name (fn_kind n) ++ 58%N :: r.
Proof.
  intros Hn. destruct (column_source rows metric role palette visibleStages ctx options (fn_kind n) n) as (pp & node & P & M & <- & <-).
  { by apply column_elem. }
  apply list_elem_of_lookup in M as (i & M). apply flow_paths_tagged in P.
  apply (shape_stage _ _ P) in M as [_ (_ & T)]. done.
Qed.

(** Where a path passes a shown node. *)
Lemma passes_at n pp i : n ∈ fg_nodes graph -> pp ∈ paths -> stages !! i = Some (fn_kind n) ->
  forall j node, pp_path pp !! j = Some node -> pn_id node = fn_id n -> j = i.
Proof.
  intros Hn P S j node L E. destruct (node_tag n Hn) as (r & R). apply flow_paths_tagged in P.
  apply (shape_stage _ _ P) in L as [L (_ & r' & R')]. rewrite E, R in R'. apply tag_inj in R'.
  rewrite R' in S. eapply NoDup_lookup; [apply stages_NoDup|exact L|exact S].
Qed.

Lemma path_at pp i : pp ∈ paths -> (i < length stages)%nat -> exists node, pp_path pp !! i = Some node.
Proof.
  intros P L. apply flow_paths_tagged in P. apply lookup_lt_is_Some_2.
  pose proof (Forall2_length P) as E. fold stages in E. by rewrite <- E.
Qed.

Lemma column_total stage : stage ∈ stages ->
  sum_over (fun n => amount (fn_value n)) (column rows metric role palette visibleStages ctx options stage)
  = sum_over path_amount paths.
Proof.
  intros (i & S)%list_elem_of_lookup. set (col := column _ _ _ _ _ _ _ _).
  assert (forall n, n ∈ col -> n ∈ fg_nodes graph /\ fn_kind n = stage) as Hc by (intros n Hn; by apply column_elem).
  rewrite (sum_over_ext _ (fun n => sum_over (fun pp => path_amount pp * indicator (passes (fn_id n) pp)) paths))
    by (intros n Hn; by apply node_exact, Hc).
  rewrite sum_over_swap. apply sum_over_ext. intros pp P. rewrite sum_over_mul.
  destruct (path_at pp i P) as (node & L); [by eapply lookup_lt_Some|].
  rewrite (sum_over_ext _ (fun n => indicator (bool_decide (fn_id n = pn_id node)))).
  - rewrite (sum_over_once fn_id); [lia|apply column_ids_NoDup|].
    destruct (path_node_shown rows metric role palette visibleStages ctx options pp node) as (n & Hn & I & K); [done|by eapply list_elem_of_lookup_2|].
    apply list_elem_of_fmap. exists n. split; [done|]. apply column_elem. split; [done|].
    rewrite K. apply flow_paths_tagged in P. apply (shape_stage _ _ P) in L as [L _]. fold stages in L. congruence.
  - intros n Hn. apply Hc in Hn as [Hn K]. f_equal. apply bool_decide_ext. rewrite list_elem_of_fmap. split.
    + intros (node' & E & (j & L')%list_elem_of_lookup). assert (j = i) as ->; [|congruence].
      eapply passes_at; [exact Hn|exact P|by rewrite K|exact L'|done].
    + intros E. exists node. split; [done|]. by eapply list_elem_of_lookup_2.
Qed.

(** *** Links at one side of a node *)

Hypothesis clean_rows : forall row stage, row ∈ rows -> clean (pn_id (NODE_BUILDERS stage row ctx)).

Lemma other_clean kind labeler : clean (pn_id (otherFlowNode kind labeler)).
Proof. unfold clean. destruct kind; vm_decide. Qed.

Lemma path_clean pp node : pp ∈ paths -> node ∈ pp_path pp -> clean (pn_id node).
Proof.
  intros (row & R & _ & E)%path_source M.
  assert (forall node, node ∈ flowPathForStages row stages ctx -> clean (pn_id node)) as F.
  { intros m (stage & -> & _)%list_elem_of_fmap. by apply clean_rows. }
  unfold applyTopNodeLimit in E. destruct (flow_tops _ _ _ _ _ _) as [tops|]; [|injection E as E; rewrite <- E in M; by apply F].
  destruct (negb _); [injection E as E; rewrite <- E in M; by apply F|]. destruct mode; [|done]. injection E as E. rewrite <- E in M.
  apply list_elem_of_fmap in M as (m & -> & M). destruct (isTopFlowNode _ _); [by apply F|apply other_clean].
Qed.

(** The links that leave a node ([side = false]) or enter it. *)
Definition link_end (side : bool) (l : DashboardFlowLink) : str := if side then fl_target l else fl_source l.
Definition pair_end (side : bool) (e : FlowPathNode * FlowPathNode) : FlowPathNode := if side then e.2 else e.1.

Definition links_at (side : bool) (n : DashboardFlowNode) : list DashboardFlowLink :=
  List.filter (fun l => bool_decide (link_end side l = fn_id n)) (fg_links graph).

Lemma links_at_elem side n l : l ∈ links_at side n <-> l ∈ fg_links graph /\ link_end side l = fn_id n.
Proof. unfold links_at. by rewrite list_elem_of_In, filter_In, bool_decide_eq_true, <- list_elem_of_In. Qed.

Lemma links_at_NoDup side n : NoDup (map linkStableKey (links_at side n)).
Proof. apply NoDup_filter_map, graph_keys_NoDup. Qed.

(** A link's key determines its ends. *)
Lemma link_ends l pp e : l ∈ fg_links graph -> pp ∈ paths -> e ∈ path_links (pp_path pp) ->
  linkStableKey l = pair_key e -> forall side, link_end side l = pn_id (pair_end side e).
Proof.
  intros (k & l0 & E & C)%graph_link P M K. apply link_entry in E as (_ & ((pp' & e') & X & _ & S & T) & _).
  apply link_item_elem in X as [P' M']. cbn [fst snd] in *.
  assert (fl_source l = pn_id e'.1 /\ fl_target l = pn_id e'.2) as [S' T'].
  { injection C as C1 C2 _. by rewrite C1, C2. }
  apply path_links_elem in M as (i & A & B), M' as (i' & A' & B').
  unfold linkStableKey, pair_key, pathLinkKey in K. rewrite S', T' in K.
  apply key_inj in K as [K1 K2]; [|by eapply path_clean; [exact P'|eapply list_elem_of_lookup_2; exact A']
                                  |by eapply path_clean; [exact P|eapply list_elem_of_lookup_2; exact A]].
  intros []; cbn; congruence.
Qed.

Lemma pair_listed pp e : pp ∈ paths -> e ∈ path_links (pp_path pp) ->
  exists l, l ∈ fg_links graph /\ linkStableKey l = pair_key e.
Proof.
  intros P M. destruct (link_listed metric (flow_colors rows metric role palette visibleStages ctx options) palette paths (pp, e)) as (l0 & E); [by apply link_item_elem|].
  assert (link_key (pp, e) ∈ map linkStableKey (fg_links graph)) as Q.
  { unfold graph. rewrite graph_keys. apply list_elem_of_fmap. by exists (link_key (pp, e), l0). }
  apply list_elem_of_fmap in Q as (l & K & Q). by exists l.
Qed.

Lemma side_total (side : bool) n (i : nat) : n ∈ fg_nodes graph -> stages !! (i + (if side then 1 else 0))%nat = Some (fn_kind n) ->
  (S i < length stages)%nat ->
  sum_over (fun l => amount (fl_value l)) (links_at side n) = amount (fn_value n).
Proof.
  intros Hn St Li. rewrite (proj2 (node_exact n Hn)).
  rewrite (sum_over_ext _ (fun l => sum_over (fun pp => path_amount pp * indicator (traverses (linkStableKey l) pp)) paths))
    by (intros l Hl; apply link_exact; by apply links_at_elem in Hl as [? _]).
  rewrite sum_over_swap. apply sum_over_ext. intros pp P. rewrite sum_over_mul. f_equal.
  destruct (path_at pp i P) as (s & Ls); [lia|]. destruct (path_at pp (S i) P Li) as (t & Lt).
  assert ((s, t) ∈ path_links (pp_path pp)) as M.
  { eapply list_elem_of_lookup_2. by apply (path_links_lookup _ i (s, t)). }
  assert (pp_path pp !! (i + (if side then 1 else 0))%nat = Some (pair_end side (s, t))) as Le.
  { destruct side; cbn; [by rewrite Nat.add_1_r|by rewrite Nat.add_0_r]. }
  unfold passes. case_bool_decide as Q; cbn [indicator].
  - apply list_elem_of_fmap in Q as (node & E & (j & Lj)%list_elem_of_lookup).
    assert (j = (i + (if side then 1 else 0))%nat) as -> by (by eapply passes_at).
    assert (pn_id (pair_end side (s, t)) = fn_id n) as En by congruence.
    rewrite (sum_over_ext _ (fun l => indicator (bool_decide (linkStableKey l = pair_key (s, t))))).
    + apply (sum_over_once linkStableKey); [apply links_at_NoDup|].
      destruct (pair_listed pp (s, t) P M) as (l & Hl & K). apply list_elem_of_fmap. exists l. split; [done|].
      apply links_at_elem. split; [done|]. by rewrite (link_ends l pp (s, t)).
    + intros l [Hl El]%links_at_elem. unfold traverses. f_equal. apply bool_decide_ext. split.
      * intros (e & K & Me)%list_elem_of_fmap. rewrite K. f_equal.
        pose proof (link_ends l pp e Hl P Me K side) as Ee. rewrite El in Ee.
        apply list_elem_of_lookup in Me as (j & Lj'). apply path_links_lookup in Lj' as [A B].
        assert (pp_path pp !! (j + (if side then 1 else 0))%nat = Some (pair_end side e)) as Lx.
        { destruct side; cbn; [by rewrite Nat.add_1_r|by rewrite Nat.add_0_r]. }
        eapply passes_at in Lx; [|exact Hn|exact P|exact St|done]. assert (j = i) as -> by lia.
        destruct e. cbn in *. congruence.
      * intros ->. apply list_elem_of_fmap. by exists (s, t).
  - apply sum_over_zero. intros l [Hl El]%links_at_elem. unfold traverses.
    rewrite bool_decide_eq_false_2; [done|]. intros (e & K & Me)%list_elem_of_fmap. apply Q.
    rewrite <- El, (link_ends l pp e Hl P Me K side). apply list_elem_of_fmap. eexists. split; [reflexivity|].
    apply path_links_elem in Me as (j & A & B). destruct side; by eapply list_elem_of_lookup_2.
Qed.

Lemma summary_exact : amount (summary_metric metric (buildSummary rows)) = sum_over row_amount rows.
Proof.
  assert (forall row, row ∈ rows -> 0 <= row_amount row /\ metricValue (rowMetrics row) metric = lit (row_amount row)) as W
    by (intros row R; by apply whole_amount, whole_rows).
  rewrite summary_sum. unfold num_sum.
  replace (map (fun row => metricValue (rowMetrics row) metric) rows) with (map lit (map row_amount rows)).
  - rewrite <- lit_zero, sum_integers; [|done| |exact small_total].
    + unfold amount. rewrite lit_to_Z; [done|]. split; [|exact small_total].
      apply (sum_over_nonneg row_amount). intros row R. by apply W.
    + apply Forall_forall. intros z (row & -> & R)%list_elem_of_In%list_elem_of_fmap. by apply W.
  - rewrite map_map. apply map_ext_in. intros row R. symmetry. apply W. by apply list_elem_of_In.
Qed.

(** C13: The flow is conserved.  For whole, non-negative amounts that stay
    below 2^53 in total and ids without the separator character, all columns
    of the diagram carry the same total; unless rows are hidden, it is the
    total of the summary.  Each node's value is exact, and equals the sum of
    the links that leave it, unless it is in the last column, and the sum of
    the links that enter it, unless it is in the first. *)
Theorem flow_conserved :
  (forall stage, stage ∈ resolveVisibleStages role visibleStages ->
    sum_over (fun n => amount (fn_value n)) (column rows metric role palette visibleStages ctx options stage)
    = sum_over path_amount paths) /\
  (flow_mode options = OAggregate -> sum_over path_amount paths = amount (summary_metric metric (buildSummary rows))) /\
  forall n i, n ∈ fg_nodes (buildFlowGraph rows metric role palette visibleStages ctx options) ->
    resolveVisibleStages role visibleStages !! i = Some (fn_kind n) ->
    fn_value n = lit (amount (fn_value n)) /\
    ((S i < length (resolveVisibleStages role visibleStages))%nat ->
     sum_over (fun l => amount (fl_value l)) (links_at false n) = amount (fn_value n)) /\
    ((0 < i)%nat -> sum_over (fun l => amount (fl_value l)) (links_at true n) = amount (fn_value n)).
Proof.
  split; [apply column_total|]. split; [intros M; rewrite summary_exact; by apply paths_total|].
  intros n i Hn S. split; [by apply node_exact|]. split; intros I.
  - apply (side_total false n i); [done|by rewrite Nat.add_0_r|done].
  - assert (i < length stages)%nat as Li by (by eapply lookup_lt_Some).
    apply (side_total true n (i - 1)); [done|by replace (i - 1 + 1)%nat with i by lia|lia].
Qed.
End Conservation.

Example sample_flow :
  let _ := sample_charts in let _ := code_unit_collation in
  let g := buildFlowGraph sample_rows MQuota RAdmin None None EMPTY_FLOW_PATH_CONTEXT sample_options in
  map (fun n => (fn_id n, amount (fn_value n))) (fg_nodes g) =
  [(js "channel:7", 24); (js "model:m", 17); (js "user:1", 17); (js "group:a", 15); (js "group:b", 9);
   (js "model:n", 5); (js "user:2", 5); (js "model:__other__", 2); (js "user:__other__", 2)].
Proof. vm_compute. reflexivity. Qed.

Lemma flow_conserved_witness :
  let _ := sample_charts in let _ := code_unit_collation in
  sum_over (fun n => amount (fn_value n))
    (column sample_rows MQuota RAdmin None None EMPTY_FLOW_PATH_CONTEXT sample_options KModel) = 24.
Proof.
  intros C L.
  destruct (flow_conserved sample_rows MQuota RAdmin None None EMPTY_FLOW_PATH_CONTEXT sample_options) as (T & S & _).
  - intros row R. exists (amount (metricValue (rowMetrics row) MQuota)).
    repeat (apply elem_of_cons in R as [->|R]; [vm_compute; repeat split; discriminate|]). by apply elem_of_nil in R.
  - vm_compute. reflexivity.
  - intros row stage R. unfold clean. repeat (apply elem_of_cons in R as [->|R]; [destruct stage; vm_decide|]). by apply elem_of_nil in R.
  - rewrite T; [|vm_decide]. rewrite S; [|done]. vm_compute. reflexivity.
Defined.
