(* ===== verification/FlowMasking.v ===== *)
(** * What masking and the filters of the flow diagram do

    Masking replaces the labels of sensitive nodes, on the nodes and on the
    links, and changes nothing else: neither the amounts nor the layout.  The
    filters keep exactly the rows whose path meets every selected column. *)

From Stdlib Require Import ZArith Lia Bool SpecFloat.
From stdpp Require Import base list numbers.
From S2P Require Import Prelude JsString JsNumber JsObject JsMap FlowGraph FlowGraphFacts FlowConservation.

(** ** Sorting and grouping commute with a change of labels *)

Lemma sort_by_map {A} compare (f : A -> A) l :
  (forall a b, compare (f a) (f b) = compare a b) -> sort_by compare (map f l) = map f (sort_by compare l).
Proof.
  intros E. assert (forall x s, insert_by compare (f x) (map f s) = map f (insert_by compare x s)) as I.
  { intros x s. induction s as [|y s IH]; cbn; [done|]. rewrite E. destruct (_ <? 0)%Z; cbn; [done|]. by rewrite IH. }
  unfold sort_by. change (@nil A) with (map f (@nil A)) at 1. generalize (@nil A).
  induction l as [|x l IH]; intros s; cbn; [done|]. by rewrite I, IH.
Qed.

Section Relabel.
Context `{ChartHost, Collation}.
Variable f : DashboardFlowLink -> DashboardFlowLink.
Hypothesis f_core : forall l, link_core (f l) = link_core l.
Hypothesis f_color : forall l, fl_color (f l) = fl_color l.

Lemma f_source l : fl_source (f l) = fl_source l.
Proof. pose proof (f_core l) as E. by injection E. Qed.
Lemma f_target l : fl_target (f l) = fl_target l.
Proof. pose proof (f_core l) as E. by injection E. Qed.
Lemma f_value l : fl_value (f l) = fl_value l.
Proof. pose proof (f_core l) as E. by injection E. Qed.
Lemma f_key l : linkStableKey (f l) = linkStableKey l.
Proof. unfold linkStableKey. by rewrite f_source, f_target. Qed.

Definition relabel_groups (m : list (str * list DashboardFlowLink)) : list (str * list DashboardFlowLink) :=
  map (fun e => (e.1, map f e.2)) m.

Lemma relabel_get m k : map_get (relabel_groups m) k = map f <$> map_get m k.
Proof. induction m as [|e m IH]; cbn; [done|]. by destruct (bool_decide _). Qed.

Lemma relabel_set m k v : relabel_groups (map_set m k v) = map_set (relabel_groups m) k (map f v).
Proof. induction m as [|e m IH]; cbn; [done|]. destruct (bool_decide _); cbn; [done|]. f_equal. exact IH. Qed.

Lemma groups_relabel links : links_by_source (map f links) = relabel_groups (links_by_source links).
Proof.
  unfold links_by_source. rewrite fold_left_map.
  change (@nil (str * list DashboardFlowLink)) with (relabel_groups []) at 1.
  generalize (@nil (str * list DashboardFlowLink)). induction links as [|l links IH]; intros m; cbn [fold_left]; [done|].
  rewrite <- IH, relabel_set, relabel_get, f_source. do 2 f_equal. destruct (map_get m _); cbn; by rewrite ?map_app.
Qed.

Lemma displays_relabel links : link_displays (map f links) = link_displays links.
Proof.
  unfold link_displays. rewrite groups_relabel. unfold relabel_groups. rewrite map_map. f_equal. apply map_ext.
  intros [k ls]. cbn [fst snd]. rewrite sort_by_map.
  - rewrite length_map, imap_fmap. apply imap_ext. intros i l _. cbn. by rewrite f_key, f_color.
  - intros a b. unfold by_value_then_key. by rewrite !f_value, !f_key.
Qed.

Lemma shares_relabel sources links :
  (forall l share, set_share (f l) share = f (set_share l share)) ->
  assign_shares sources (map f links) = map f (assign_shares sources links).
Proof.
  intros E. unfold assign_shares. rewrite !map_map.
  set (total := fold_left _ (List.filter _ (map f links)) _). set (total' := fold_left _ (List.filter _ links) _).
  assert (total = total') as ->.
  { unfold total, total'. generalize num_zero. induction links as [|l links IH]; intros z; cbn; [done|].
    rewrite f_source. destruct (bool_decide _); cbn; rewrite ?f_value; apply IH. }
  apply map_ext. intros l. by rewrite E, f_value.
Qed.

Lemma displays_commute links :
  (forall l d, set_display (f l) d = f (set_display l d)) ->
  assignLinkDisplayColors (map f links) = map f (assignLinkDisplayColors links).
Proof.
  intros E. unfold assignLinkDisplayColors. rewrite displays_relabel, !map_map. apply map_ext. intros l.
  rewrite f_key. destruct (map_get _ _); [apply E|done].
Qed.

Lemma relabel_sorted links : sort_by by_ends (map f links) = map f (sort_by by_ends links).
Proof. apply sort_by_map. intros a b. unfold by_ends. by rewrite !f_source, !f_target. Qed.
End Relabel.

(** ** Masking *)

Lemma fold_left_filter {A B} (p : A -> bool) (f : B -> A -> B) l : forall b,
  fold_left (fun b a => if p a then f b a else b) l b = fold_left f (List.filter p l) b.
Proof. induction l as [|a l IH]; intros b; cbn; [done|]. destruct (p a); cbn; apply IH. Qed.

Lemma masked_get nodes n : n ∈ nodes -> node_masked n = true ->
  exists label, map_get (masked_by_id nodes) (fn_id n) = Some (maskFlowLabel label).
Proof.
  intros Hn M. unfold masked_by_id. rewrite fold_left_filter.
  destruct (set_loop_get fn_id (fun n => maskFlowLabel (fn_label n)) (List.filter node_masked nodes) [] (fn_id n))
    as (x & _ & _ & G).
  - apply list_elem_of_fmap. exists n. split; [done|]. apply list_elem_of_In, filter_In. split; [by apply list_elem_of_In|done].
  - by exists (fn_label x).
Qed.

(** Neither a name nor a part of one. *)
Definition hidden (label : str) : Prop := label = [] \/ label = FLOW_MASK_TEXT.

Lemma mask_hidden label : hidden (maskFlowLabel label).
Proof. destruct label; [by left|by right]. Qed.

Definition erase_labels (l : DashboardFlowLink) : DashboardFlowLink := set_link_labels l [] [].

(** A node whose label may identify someone. *)
Definition sensitive (n : DashboardFlowNode) : Prop :=
  fn_kind n <> KModel /\ forall kind, fn_id n <> OTHER_FLOW_NODE_IDS kind.

Lemma sensitive_masked n : sensitive n -> node_masked n = true.
Proof.
  intros [K O]. unfold node_masked. apply andb_true_iff. split.
  - apply bool_decide_eq_true. destruct (fn_kind n); try done; vm_decide.
  - apply negb_true_iff, bool_decide_eq_false. intros (k & E & _)%list_elem_of_fmap. by apply (O k).
Qed.

Section Masking.
Context `{ChartHost, Collation}.
Variables (rows : list FlowQuotaDataItem) (metric : FlowMetric) (role : FlowRole).
Variables (palette : option (list str)) (visibleStages : option (list FlowNodeKind)) (ctx : FlowPathContext).
Variables (limit : option num) (overflow : option FlowOverflowMode) (labeler : option (FlowNodeKind -> str)).
Variables (activeNode : option FlowNodeFilter) (activeLink : option FlowLinkSelection).

(** The graph with and without masking. *)
Definition shown (mask : bool) : DashboardFlowGraph :=
  buildFlowGraph rows metric role palette visibleStages ctx
    (MkGraphOptions limit overflow labeler activeNode activeLink mask).

Let sums := flow_sums rows metric role palette visibleStages ctx
  (MkGraphOptions limit overflow labeler activeNode activeLink false).

Definition mask_map : list (str * str) := masked_by_id (map_values sums.1).

Lemma links_masked (links : list (str * DashboardFlowLink)) :
  match mask_map with [] => links | _ => on_values (mask_link mask_map) links end = on_values (mask_link mask_map) links.
Proof.
  destruct mask_map; [|done]. unfold on_values. rewrite <- (map_id links) at 1. apply map_ext.
  intros [k l]. cbn. f_equal. unfold mask_link. by destruct l.
Qed.

Lemma links_finish sources links :
  assignLinkDisplayColors (assign_shares sources (map (mask_link mask_map) links))
  = map (mask_link mask_map) (assignLinkDisplayColors (assign_shares sources links)).
Proof. rewrite shares_relabel, displays_commute by done. done. Qed.

Lemma shown_masked :
  fg_nodes (shown true) ≡ₚ map mask_node (fg_nodes (shown false)) /\
  fg_links (shown true) = map (mask_link mask_map) (fg_links (shown false)).
Proof.
  unfold shown, buildFlowGraph. cbn [go_topNodeLimit go_overflowMode go_otherNodeLabel go_activeNode go_activeLink go_maskSensitive].
  match goal with |- context [add_paths metric ?c palette ?p] => change (add_paths metric c palette p) with sums end.
  unfold maskFlowGraphLabels. cbn [fst snd]. fold mask_map. rewrite links_masked.
  match goal with |- context [buildFlowHighlightSets ?p ?a ?b ?c] => generalize (buildFlowHighlightSets p a b c) end.
  intros sets. cbn [fg_nodes fg_links]. destruct sets as [sets|]; cbn [applyFlowHighlights fst snd]; rewrite !map_on_values.
  - split.
    + rewrite !sort_by_perm, !map_map. erewrite map_ext; [reflexivity|]. intros n.
      unfold mask_node, node_masked. cbn. by destruct (_ && _).
    + rewrite (map_map (mask_link mask_map)).
      rewrite (map_ext (fun l => highlight_link sets (mask_link mask_map l)) (fun l => mask_link mask_map (highlight_link sets l))) by done.
      rewrite <- (map_map (highlight_link sets) (mask_link mask_map)). rewrite relabel_sorted by done.
      apply links_finish.
  - split; [by rewrite !sort_by_perm|]. rewrite relabel_sorted by done. apply links_finish.
Qed.

(** C35: Masking hides every identifying label and nothing else.  In the masked
    diagram a node of a user, node, token, group or channel, other than the
    collecting nodes, shows no text or only the mask, and so do the ends of
    the links at it; the nodes are those of the plain diagram with their labels
    masked, and the links are, in the same order, equal but for their labels. *)
Theorem masking_hides_labels :
  (forall n, n ∈ fg_nodes (shown true) -> sensitive n ->
    hidden (fn_label n) /\
    forall l, l ∈ fg_links (shown true) ->
      (fl_source l = fn_id n -> hidden (fl_sourceLabel l)) /\
      (fl_target l = fn_id n -> hidden (fl_targetLabel l))) /\
  fg_nodes (shown true) ≡ₚ map mask_node (fg_nodes (shown false)) /\
  map erase_labels (fg_links (shown true)) = map erase_labels (fg_links (shown false)).
Proof.
  destruct shown_masked as [N L]. split; [|split; [done|rewrite L, map_map; by apply map_ext]].
  intros n Hn S. pose proof Hn as Hn'. rewrite N in Hn. apply list_elem_of_fmap in Hn as (n1 & -> & Hn).
  destruct (graph_node rows metric role palette visibleStages ctx
    (MkGraphOptions limit overflow labeler activeNode activeLink false) n1 Hn) as (k & n0 & E & C).
  assert (fn_id (mask_node n1) = fn_id n1 /\ fn_kind (mask_node n1) = fn_kind n1) as [I K].
  { unfold mask_node. by destruct (node_masked n1). }
  assert (node_masked n1 = true) as M1 by (apply sensitive_masked; unfold sensitive in *; by rewrite <- I, <- K).
  split; [unfold mask_node; rewrite M1; apply mask_hidden|].
  assert (fn_id n1 = fn_id n0 /\ fn_kind n1 = fn_kind n0) as [I0 K0] by (by injection C).
  assert (node_masked n0 = true) as M0.
  { rewrite <- M1. unfold node_masked. by rewrite I0, K0. }
  destruct (masked_get (map_values sums.1) n0) as (label & G); [|done|].
  { apply map_values_elem. by exists k. }
  fold mask_map in G. rewrite L. intros l (l0 & -> & _)%list_elem_of_fmap. rewrite I, I0. cbn.
  split; intros ->; rewrite G; apply mask_hidden.
Qed.
End Masking.

(** ** Filters *)

Lemma List_filter_ext {A} (p q : A -> bool) l : (forall a, a ∈ l -> p a = q a) -> List.filter p l = List.filter q l.
Proof.
  induction l as [|a l IH]; intros E; cbn; [done|]. rewrite (E a) by (by left). rewrite IH; [done|].
  intros b Hb. apply E. by right.
Qed.

Lemma List_filter_all {A} (l : list A) : List.filter (fun _ => true) l = l.
Proof. induction l as [|a l IH]; cbn; [done|]. by rewrite IH. Qed.

Lemma List_filter_filter {A} (p q : A -> bool) l : List.filter p (List.filter q l) = List.filter (fun a => q a && p a) l.
Proof. induction l as [|a l IH]; cbn; [done|]. destruct (q a); cbn; [destruct (p a)|]; by rewrite ?IH. Qed.

(** A map from kinds to sets of ids, built by adding one id at a time. *)
Section IdGroups.
Context {X : Type}.
Variables (kind : X -> FlowNodeKind) (id_of : X -> str).

Definition id_groups (items : list X) : list (FlowNodeKind * list str) :=
  group_loop kind (fun _ => []) (fun ids x => set_put ids (id_of x)) items [].

Lemma id_group_elem items : forall ids id,
  id ∈ fold_left (fun ids x => set_put ids (id_of x)) items ids <-> id ∈ ids \/ id ∈ map id_of items.
Proof.
  intros ids id. rewrite <- (fold_left_map set_put id_of). apply set_from_acc.
Qed.

Lemma id_groups_get items k :
  match map_get (id_groups items) k with
  | None => of_key kind k items = []
  | Some ids => of_key kind k items <> [] /\ forall id, id ∈ ids <-> exists x, x ∈ items /\ kind x = k /\ id_of x = id
  end.
Proof.
  unfold id_groups. rewrite group_loop_get. cbn [map_get]. destruct (of_key kind k items) as [|x rest] eqn:E; [done|].
  split; [done|]. intros id. rewrite id_group_elem, <- E, list_elem_of_fmap. split.
  - intros [N|(y & -> & M)]; [by apply elem_of_nil in N|]. apply of_key_elem in M as [M K]. by exists y.
  - intros (y & M & K & <-). right. exists y. split; [done|]. by apply of_key_elem.
Qed.
End IdGroups.

(** What a selection asks of one column. *)
Definition meets_selection (selected : list FlowNodeFilter) (ctx : FlowPathContext) (row : FlowQuotaDataItem)
    (stage : FlowNodeKind) : bool :=
  match map nf_id (List.filter (fun f => bool_decide (nf_kind f = stage)) selected) with
  | [] => true
  | ids => bool_decide (pn_id (NODE_BUILDERS stage row ctx) ∈ ids)
  end.

Section Filters.
Variables (selectedNodes : option (list FlowNodeFilter)) (stages : list FlowNodeKind) (ctx : FlowPathContext).

Let visible : list FlowNodeFilter := List.filter (fun f => bool_decide (nf_kind f ∈ stages)) (default [] selectedNodes).

Lemma normalize_groups : normalizeSelectedNodeFilters selectedNodes stages = id_groups nf_kind nf_id visible.
Proof. unfold normalizeSelectedNodeFilters, id_groups, group_loop. by rewrite fold_left_filter. Qed.

Lemma path_groups path : ids_by_kind path = id_groups pn_kind pn_id path.
Proof. done. Qed.

Lemma selection_of stage : stage ∈ stages ->
  List.filter (fun f => bool_decide (nf_kind f = stage)) (default [] selectedNodes) = of_key nf_kind stage visible.
Proof.
  intros S. unfold of_key, visible. rewrite List_filter_filter. apply List_filter_ext. intros f _.
  destruct (bool_decide (nf_kind f = stage)) eqn:K; [|by rewrite andb_false_r].
  apply bool_decide_eq_true in K as ->. by rewrite bool_decide_eq_true_2.
Qed.

Lemma path_id row stage id : stage ∈ stages ->
  (exists node, node ∈ flowPathForStages row stages ctx /\ pn_kind node = stage /\ pn_id node = id) <->
  pn_id (NODE_BUILDERS stage row ctx) = id.
Proof.
  intros S. split.
  - intros (node & (stage' & -> & _)%list_elem_of_fmap & K & E). destruct (builder_tagged stage' row ctx) as [K' _].
    assert (stage' = stage) as -> by congruence. done.
  - intros <-. exists (NODE_BUILDERS stage row ctx). split; [apply list_elem_of_fmap; by exists stage|].
    split; [apply builder_tagged|done].
Qed.

Lemma matches_selection row :
  pathMatchesNodeFilters (flowPathForStages row stages ctx) (normalizeSelectedNodeFilters selectedNodes stages)
  = forallb (meets_selection (default [] selectedNodes) ctx row) stages.
Proof.
  assert (pathMatchesNodeFilters (flowPathForStages row stages ctx) (normalizeSelectedNodeFilters selectedNodes stages)
    = forallb (fun f => match map_get (ids_by_kind (flowPathForStages row stages ctx)) f.1 with
                        | None => false
                        | Some pathIds => existsb (fun id => bool_decide (id ∈ pathIds)) f.2
                        end) (normalizeSelectedNodeFilters selectedNodes stages)) as ->
    by (unfold pathMatchesNodeFilters; by destruct (normalizeSelectedNodeFilters _ _)).
  apply eq_true_iff_eq. rewrite !forallb_forall. rewrite normalize_groups, path_groups.
  set (path := flowPathForStages row stages ctx). setoid_rewrite <- list_elem_of_In. split.
  - intros A stage S. unfold meets_selection. rewrite selection_of by done.
    pose proof (id_groups_get nf_kind nf_id visible stage) as G.
    destruct (map_get (id_groups nf_kind nf_id visible) stage) as [ids|] eqn:M; [|by rewrite G].
    destruct G as [Ne I]. specialize (A (stage, ids) (map_get_elem _ _ _ M)). cbn [fst snd] in A.
    pose proof (id_groups_get pn_kind pn_id path stage) as P.
    destruct (map_get (id_groups pn_kind pn_id path) stage) as [pathIds|]; [|done]. destruct P as [_ P].
    apply existsb_exists in A as (id & A1 & A2%bool_decide_eq_true). apply list_elem_of_In, I in A1 as (x & X1 & X2 & X3).
    apply P, path_id in A2; [|done].
    assert (pn_id (NODE_BUILDERS stage row ctx) ∈ map nf_id (of_key nf_kind stage visible)) as Q.
    { apply list_elem_of_fmap. exists x. split; [congruence|]. by apply of_key_elem. }
    destruct (map nf_id (of_key nf_kind stage visible)); [done|]. by apply bool_decide_eq_true.
  - intros A [k ids] F. cbn [fst snd]. pose proof (id_groups_get nf_kind nf_id visible k) as G.
    apply map_elem_get in F; [|apply group_loop_keys, NoDup_nil_2]. rewrite F in G. destruct G as [Ne I].
    destruct (of_key nf_kind k visible) as [|x rest] eqn:O; [done|].
    assert (x ∈ of_key nf_kind k visible) as [X1 X2]%of_key_elem by (rewrite O; by left).
    assert (k ∈ stages) as S.
    { apply list_elem_of_In, filter_In in X1 as [_ X1%bool_decide_eq_true]. by rewrite <- X2. }
    specialize (A k S). unfold meets_selection in A. rewrite selection_of, O in A by done. cbn [map] in A.
    apply bool_decide_eq_true in A. change (nf_id x :: map nf_id rest) with (map nf_id (x :: rest)) in A. rewrite <- O in A.
    apply list_elem_of_fmap in A as (y & Y & [Y1 Y2]%of_key_elem).
    pose proof (id_groups_get pn_kind pn_id path k) as P.
    destruct (proj2 (path_id row k _ S) eq_refl) as (node & N1 & N2 & N3). fold path in N1.
    destruct (map_get (id_groups pn_kind pn_id path) k) as [pathIds|].
    + destruct P as [_ P]. apply existsb_exists. exists (pn_id (NODE_BUILDERS k row ctx)). split.
      * apply list_elem_of_In, I. by exists y.
      * apply bool_decide_eq_true, P. by exists node.
    + exfalso. apply (not_elem_of_nil node). rewrite <- P. by apply of_key_elem.
Qed.

Lemma node_filter_exact rows :
  filterRowsByNodes rows selectedNodes stages ctx
  = List.filter (fun row => forallb (meets_selection (default [] selectedNodes) ctx row) stages) rows.
Proof.
  unfold filterRowsByNodes. destruct (normalizeSelectedNodeFilters selectedNodes stages) as [|f fs] eqn:F.
  - rewrite <- (List_filter_all rows) at 1. apply List_filter_ext. intros row _.
    rewrite <- matches_selection, F. done.
  - rewrite <- F. apply List_filter_ext. intros row _. apply matches_selection.
Qed.
End Filters.

(** Which rows a selection keeps. *)
Definition keeps_row (options : FlowBuildOptions) (row : FlowQuotaDataItem) : bool :=
  match default [] (bo_selectedUsers options) with
  | [] => true
  | users => bool_decide (pn_id (userNode row) ∈ users)
  end &&
  forallb (meets_selection (default [] (bo_selectedNodes options)) (MkContext (bo_deletedTokenLabel options)) row)
    (resolveVisibleStages (default RUser (bo_role options)) (bo_visibleStages options)).

(** The diagram and its summary are drawn from exactly the rows that the
    selection keeps, in their order: a row is kept when its user is among the
    selected users, if any are, and when in every visible column where nodes
    are selected its own node is one of them.  Selections in columns that are
    not visible have no effect. *)
Theorem selection_exact rows options : selected_rows rows options = List.filter (keeps_row options) rows.
Proof.
  unfold selected_rows, keeps_row. rewrite node_filter_exact. unfold filterRows, DEFAULT_FLOW_ROLE.
  destruct (default [] (bo_selectedUsers options)) as [|u users] eqn:U; [done|].
  destruct (set_from (u :: users)) as [|v vs] eqn:S.
  - exfalso. apply (not_elem_of_nil u). rewrite <- S. apply set_from_elem. by left.
  - rewrite <- S, List_filter_filter. apply List_filter_ext. intros row _. f_equal.
    apply bool_decide_ext, set_from_elem.
Qed.
