(* ===== verification/ServerErrors.v ===== *)
(** * Server errors

    Models [lib/server-error-message.ts], [lib/handle-server-error.ts] and
    [lib/secure-verification.ts]: how a failure of any shape becomes the text
    shown to the user, at most once, and without the details an
    authentication error hides.  Errors are graphs of objects that may share
    parts and run in circles ([cause], [error], [response.data]), so objects
    live in a heap and a value refers to one by its address.

    Parameters: the translation function, the predicates of Axios and
    React Query that recognise their own errors, and the texts that objects,
    functions and a failed property access are turned into. *)

From Stdlib Require Import ZArith Lia Bool SpecFloat.
From stdpp Require Import base list numbers.
From S2P Require Import Prelude JsString JsNumber JsObject JsDynamic.

(** ** Values *)

Inductive errval :=
| EUndefined
| ENull
| EBool (b : bool)
| ENum (n : num)
| EStr (s : str)
| EFun
| ERef (addr : nat).

#[global] Instance errval_eq_dec : EqDecision errval.
Proof. solve_decision. Defined.

(** An object: the properties it answers, whether it is an [Error], and
    whether it carries the symbol [safeServerErrorMessage]. *)
Record errobj := MkObj {
  eo_props : list (str * errval);
  eo_error : bool;
  eo_operation : bool;
  eo_safe : bool
}.

Definition heap : Type := list errobj.

(** [isRecord(value)], as the object itself. *)
Definition record_of (h : heap) (v : errval) : option (nat * errobj) :=
  match v with ERef a => (fun o => (a, o)) <$> h !! a | _ => None end.

(** [object[key]] *)
Definition prop (o : errobj) (key : str) : errval := default EUndefined (assoc_str (eo_props o) key).

Definition text_of (v : errval) : option str := match v with EStr s => Some s | _ => None end.

(** [Boolean(value)] *)
Definition truthy (v : errval) : bool :=
  match v with
  | EUndefined | ENull => false
  | EBool b => b
  | ENum n => negb (num_eqb n num_zero || is_nan n)
  | EStr s => negb (str_eqb s [])
  | EFun | ERef _ => true
  end.

(** ** Known codes *)

Definition serverErrorMessageKeys : list (str * str) :=
  [
   (js "TELEGRAM_OAUTH_NOT_CONFIGURED",
    js "Telegram OAuth is not configured or enabled. Please contact your administrator.");
   (js "TELEGRAM_OAUTH_CONFLICT",
    js "The telegram OAuth provider name is reserved. Ask your administrator to rename the conflicting custom provider.");
   (js "TELEGRAM_OAUTH_FAILED",
    js "Telegram authorization failed. Please try again.");
   (js "TELEGRAM_ACCOUNT_NOT_BOUND",
    js "This Telegram account is not linked. Sign in using another method and link it first.");
   (js "TELEGRAM_LEGACY_AUTH_REMOVED",
    js "Telegram login has changed. Reload the page and start Telegram OAuth again.");
   (js "AUTH_INTERNAL_ERROR",
    js "Please try again later.");
   (js "SECURITY_VERIFICATION_FAILED",
    js "Verification failed. Please try again.");
   (js "PASSKEY_RP_ID_UNAVAILABLE",
    js "This Passkey domain is not available on this website. Use its original website or another verification method.");
   (js "PASSKEY_RP_ID_INVALID",
    js "Invalid Passkey domain. Enter a domain without a scheme, port, path or wildcard.");
   (js "SECURITY_VERIFICATION_FLOW_REQUIRED",
    js "This verification method requires its dedicated verification flow.");
   (js "SECURITY_VERIFICATION_LOCKED",
    js "Two-factor authentication is temporarily locked.");
   (js "OAUTH_ACCOUNT_MISMATCH",
    js "The OAuth account does not match the account linked to your profile.");
   (js "TWOFA_CODE_INVALID",
    js "The authenticator code is incorrect.");
   (js "TWOFA_ALREADY_ENABLED",
    js "Two-factor authentication is already enabled.");
   (js "TWOFA_NOT_ENABLED",
    js "Two-factor authentication is not enabled.");
   (js "PASSKEY_NOT_FOUND",
    js "No Passkey is registered.");
   (js "AUTH_FLOW_INVALID",
    js "Verification flow expired");
   (js "SECURITY_PROOF_REQUIRED",
    js "Additional verification required");
   (js "SECURITY_PROOF_EXPIRED",
    js "Security verification has expired. Please verify again.");
   (js "SECURITY_PROOF_INVALID",
    js "Security verification is no longer valid. Please verify again.");
   (js "SECURITY_PROOF_SCOPE_MISMATCH",
    js "Verification does not match this action.");
   (js "SECURITY_PROOF_CONSUMED",
    js "This verification has already been used. Please verify again.");
   (js "SECURITY_PROOF_CONTEXT_MISMATCH",
    js "Verification does not match this action's details. Please verify again.");
   (js "SECURITY_CONTEXT_INVALID",
    js "The action details are invalid.");
   (js "SECURITY_ACTION_FORBIDDEN",
    js "You do not have permission to perform this action.");
   (js "SECURITY_PROOF_METHOD_MISMATCH",
    js "This verification method is not allowed for this action.");
   (js "SECURITY_METHOD_UNAVAILABLE",
    js "This verification method is currently unavailable.");
   (js "TWOFA_SETUP_INVALID",
    js "The two-factor setup has expired or changed. Start setup again.");
   (js "tenant_context_required",
    js "Open this workspace from the platform console.");
   (js "AUTH_SESSION_LIMIT",
    js "Too many active login sessions. On a device where you are already signed in, open Login sessions and use " ++ [8220%N] ++ js "Sign out other sessions" ++ [8221%N] ++ js " to revoke them. If you cannot access a signed-in device, reset your password to sign out all sessions.");
   (js "AUTH_SESSION_ISSUANCE_LIMIT",
    js "Too many login sessions were created recently. Please wait for the rolling window to pass, then try again.");
   (js "TELEGRAM_BIND_DISABLED",
    js "Telegram binding is disabled.");
   (js "TELEGRAM_BIND_INVALID_REQUEST",
    js "The Telegram authorization request is invalid or expired.");
   (js "TELEGRAM_BIND_FLOW_INVALID",
    js "This Telegram binding request has expired or has already been used.");
   (js "TELEGRAM_BIND_SESSION_INVALID",
    js "The login session that started this Telegram binding is no longer valid.");
   (js "TELEGRAM_BIND_ALREADY_BOUND",
    js "This Telegram account is already bound.");
   (js "TELEGRAM_BIND_USER_DELETED",
    js "This user account no longer exists.");
   (js "TELEGRAM_BIND_USER_DISABLED",
    js "This user account is disabled.");
   (js "TELEGRAM_BIND_INTERNAL_ERROR",
    js "Telegram binding failed. Please try again.")
  ].

(** The key of a message: a text, or an inherited property found in its place. *)
Inductive MessageKey := KeyText (s : str) | KeyInherited (name : str).

Definition lookup_code (code : str) : option MessageKey :=
  match assoc_str serverErrorMessageKeys code with
  | Some text => match text with [] => None | _ => Some (KeyText text) end
  | None => if includes_str object_prototype_keys code then Some (KeyInherited code) else None
  end.

(** ** The sources of an error *)

(** What a source adds to [pending]. *)
Definition error_origins (h : heap) (o : errobj) : list errval :=
  match record_of h (prop o (js "response")) with
  | Some (_, response) => [prop response (js "data")]
  | None => []
  end ++ [prop o (js "cause"); prop o (js "error")].

(** The loop over [pending]: [rest] is the part not looked at yet. *)
Fixpoint sources_loop (h : heap) (fuel : nat) (rest : list errval) (seen : list nat) : option (list nat) :=
  match fuel with
  | O => None
  | S fuel =>
      match rest with
      | [] => Some []
      | value :: rest =>
          match record_of h value with
          | None => sources_loop h fuel rest seen
          | Some (a, o) =>
              if bool_decide (a ∈ seen) then sources_loop h fuel rest seen
              else (cons a) <$> sources_loop h fuel (rest ++ error_origins h o) (seen ++ [a])
          end
      end
  end.

(** An object is looked at once and adds at most three values. *)
Definition sources_fuel (h : heap) : nat := 2 + 3 * length h.

Definition getServerErrorSources (h : heap) (value : errval) : list nat :=
  default [] (sources_loop h (sources_fuel h) [value] []).

Definition source_objects (h : heap) (value : errval) : list errobj :=
  omap (fun a => h !! a) (getServerErrorSources h value).

(** ** Messages *)

Fixpoint first_key (sources : list errobj) : option MessageKey :=
  match sources with
  | [] => None
  | source :: rest =>
      match text_of (prop source (js "code")) ≫= lookup_code with
      | Some key => Some key
      | None => if eo_safe source then None else first_key rest
      end
  end.

Definition getServerErrorMessageKey (h : heap) (value : errval) : option MessageKey :=
  first_key (source_objects h value).

Definition source_status (h : heap) (source : errobj) : option num :=
  let status :=
    match record_of h (prop source (js "response")) with
    | Some (_, response) => prop response (js "status")
    | None => prop source (js "status")
    end in
  match status with ENum n => Some n | _ => None end.

Definition first_some {A B} (f : A -> option B) (l : list A) : option B :=
  match omap f l with [] => None | b :: _ => Some b end.

Definition getServerErrorStatus (h : heap) (value : errval) : option num :=
  first_some (source_status h) (source_objects h value).

Class ErrorHost := {
  translate : MessageKey -> str;
  isCancel : errobj -> bool;
  isCancelledError : errobj -> bool;
  inherited_text : str -> str;
  object_text : errval -> str;
  type_error_text : str
}.

(** [/^\s*(?:<!doctype|<html[\s>])/i] *)
Definition ascii_lowercase (s : str) : str := map (fun c => if is_upper c then (c + 32)%N else c) s.

Definition html_document (value : str) : bool :=
  let s := ascii_lowercase (drop_while is_space value) in
  starts_with (js "<!doctype") s ||
  (starts_with (js "<html") s &&
   match drop 5 s with c :: _ => is_space c || (c =? 62)%N | [] => false end).

Definition messageText (value : errval) : option str :=
  match value with
  | EStr s =>
      if str_eqb (trim s) [] || str_eqb (trim s) (js "success") then None
      else if html_document s then None
      else Some s
  | _ => None
  end.

Definition SOMETHING_WRONG : str := js "Something went wrong!".

Section Messages.
Context `{ErrorHost}.

Definition cancelled_source (source : errobj) : bool :=
  isCancel source || isCancelledError source || bool_decide (prop source (js "name") = EStr (js "AbortError")).

Definition isServerErrorCancelled (h : heap) (value : errval) : bool :=
  existsb cancelled_source (source_objects h value).

(** [key || messageText(message) || fallback || 'Something went wrong!'] *)
Definition safe_text (key : option MessageKey) (message : errval) (fallback : option str) : MessageKey :=
  match key with
  | Some key => key
  | None =>
      match messageText message with
      | Some text => KeyText text
      | None =>
          match fallback with
          | Some (c :: s) => KeyText (c :: s)
          | _ => KeyText SOMETHING_WRONG
          end
      end
  end.

(** The text of a source that is a payload rather than an error object. *)
Definition payload_text (h : heap) (source : errobj) : option str :=
  if eo_error source || truthy (prop source (js "isAxiosError")) ||
     bool_decide (is_Some (record_of h (prop source (js "response")))) then None
  else
    let detail :=
      match record_of h (prop source (js "error")) with
      | Some (_, e) => messageText (prop e (js "message"))
      | None => messageText (prop source (js "error"))
      end in
    match messageText (prop source (js "message")) with
    | Some m => Some m
    | None => match detail with Some d => Some d | None => messageText (prop source (js "title")) end
    end.

Definition getServerErrorMessage (h : heap) (value : errval) (fallback : option str) : str :=
  let sources := source_objects h value in
  match List.find eo_safe sources with
  | Some safe =>
      let key :=
        match List.find (fun a => match h !! a with Some o => eo_safe o | None => false end)
                (getServerErrorSources h value) with
        | Some a => getServerErrorMessageKey h (ERef a)
        | None => None
        end in
      translate (safe_text key (prop safe (js "message")) fallback)
  | None =>
      match getServerErrorMessageKey h value with
      | Some key => translate key
      | None =>
          match first_some (payload_text h) sources with
          | Some message => message
          | None =>
              let status := getServerErrorStatus h value in
              let is_status n := match status with Some s => num_eqb s (lit n) | None => false end in
              if is_status 304%Z then translate (KeyText (js "Content not modified!"))
              else if is_status 204%Z then translate (KeyText (js "Content not found."))
              else
                match first_some (fun source => messageText (prop source (js "message"))) sources with
                | Some message => message
                | None =>
                    match messageText value with
                    | Some text => text
                    | None => match fallback with Some f => f | None => translate (KeyText SOMETHING_WRONG) end
                    end
                end
          end
      end
  end.

(** [new Error(message, { cause })] *)
Definition new_error (message : str) (cause : errval) : errobj :=
  MkObj [(js "message", EStr message); (js "name", EStr (js "Error")); (js "cause", cause)] true false false.

Definition createServerError (h : heap) (value : errval) (fallback : option str) : heap * errval :=
  (h ++ [new_error (getServerErrorMessage h value (Some (default [] fallback))) value], ERef (length h)).

(** The response, or the error thrown instead, with the heap it is in. *)
Definition requireServerSuccess (h : heap) (response : errval) : errval + heap * errval :=
  match record_of h response with
  | Some (_, o) =>
      if bool_decide (prop o (js "success") = EBool false) then inr (createServerError h response None)
      else inl response
  | None => inl response
  end.

(** ** handle-server-error.ts *)

Record Toast := MkToast { toast_message : str; toast_description : option str }.

(** The objects reported already, and the messages shown. *)
Record Reports := MkReports { reportedErrors : list nat; toasts : list Toast }.

Definition markServerErrorHandled (h : heap) (error : errval) (r : Reports) : Reports :=
  MkReports (reportedErrors r ++ getServerErrorSources h error) (toasts r).

Definition text_given (s : option str) : bool := match s with None | Some [] => false | _ => true end.

Definition handleServerError (h : heap) (error : errval) (fallbackMessage : option str)
    (presentation : option (str * option str)) (r : Reports) : Reports :=
  if isServerErrorCancelled h error then r
  else
    let reported := existsb (fun a => bool_decide (a ∈ reportedErrors r)) (getServerErrorSources h error) in
    let r := markServerErrorHandled h error r in
    if reported then r
    else
      let message :=
        match presentation with
        | Some (c :: title, _) => c :: title
        | _ => getServerErrorMessage h error fallbackMessage
        end in
      let description := presentation ≫= snd in
      MkReports (reportedErrors r)
        (toasts r ++ [MkToast message (if text_given description then description else None)]).
End Messages.

(** ** secure-verification.ts *)

Definition VERIFICATION_FAILED : str := js "Verification failed. Please try again.".

(** [new AuthOperationError(message, code, { cause })] *)
Definition new_operation_error (message : str) (code cause : errval) : errobj :=
  MkObj [(js "message", EStr message); (js "name", EStr (js "AuthOperationError")); (js "code", code);
         (js "cause", cause)] true true true.

(** [value?.[key]] *)
Definition member (h : heap) (v : errval) (key : str) : errval :=
  match record_of h v with Some (_, o) => prop o key | None => EUndefined end.

Section Verification.
Context `{ErrorHost}.

(** The message of an error made from a value: [Error] turns it into a text, and a missing
    one into none. *)
Definition error_message (v : errval) : str :=
  match v with
  | EUndefined => []
  | ENull => js "null"
  | EBool b => if b then js "true" else js "false"
  | ENum n => string_of_num n
  | EStr s => s
  | EFun | ERef _ => object_text v
  end.

(** [status >= 500] *)
Definition server_failed (status : errval) : bool :=
  match status with
  | ENum n => num_leb (lit 500) n
  | EStr s => num_leb (lit 500) (js_Number s)
  | ERef _ => num_leb (lit 500) (js_Number (object_text status))
  | _ => false
  end.

Definition axios_text (h : heap) (error : errobj) (fallback : str) : str :=
  let response := prop error (js "response") in
  let said := member h (member h response (js "data")) (js "message") in
  if server_failed (member h response (js "status")) then js "Please try again later."
  else if truthy said then error_message said
  else if truthy (prop error (js "message")) then error_message (prop error (js "message"))
  else fallback.

(** The message of an error made from a key. *)
Definition key_text (key : MessageKey) : str := match key with KeyText s => s | KeyInherited name => inherited_text name end.

(** [axios.isAxiosError(error)] *)
Definition is_axios_error (o : errobj) : bool := bool_decide (prop o (js "isAxiosError") = EBool true).

Definition AuthOperationError_from (h : heap) (error : errval) (fallback : str) : heap * errval :=
  let wrap message code := (h ++ [new_operation_error message code error], ERef (length h)) in
  match record_of h error with
  | Some (_, o) =>
      if eo_operation o then (h, error)
      else if is_axios_error o then
        wrap (match getServerErrorMessageKey h error with
              | Some key => key_text key
              | None => axios_text h o fallback
              end)
          (member h (member h (prop o (js "response")) (js "data")) (js "code"))
      else wrap (if eo_error o then error_message (prop o (js "message")) else fallback) EUndefined
  | None => wrap fallback EUndefined
  end.

(** Reading a property of [null] or [undefined] throws. *)
Definition type_error : errobj :=
  MkObj [(js "message", EStr type_error_text); (js "name", EStr (js "TypeError"))] true false false.

(** The request's answer: its body, or the error it rejected with. *)
Definition authResult (h : heap) (request : errval + errval) (fallback : str) : errval + heap * errval :=
  match request with
  | inr error => inr (AuthOperationError_from h error fallback)
  | inl (EUndefined | ENull) => inr (AuthOperationError_from (h ++ [type_error]) (ERef (length h)) fallback)
  | inl response =>
      if negb (truthy (member h response (js "success"))) ||
         bool_decide (member h response (js "data") = EUndefined) then
        let message :=
          match getServerErrorMessageKey h response with
          | Some key => key_text key
          | None =>
              if truthy (member h response (js "message")) then error_message (member h response (js "message")) else fallback
          end in
        inr (h ++ [new_operation_error message (member h response (js "code")) EUndefined], ERef (length h))
      else inl (member h response (js "data"))
  end.
End Verification.
