(* ===== verification/ServerErrorsFacts.v ===== *)
(** * What the user sees of a server error

    The walk over an error's origins ends on every object graph, cyclic ones
    included, and finds exactly the objects that are reachable; an
    authentication error is presented by its own code and message alone; and
    an error is reported at most once. *)

From Stdlib Require Import ZArith Lia Bool SpecFloat Relations.
From stdpp Require Import base list numbers relations.
From S2P Require Import Prelude JsString JsNumber JsObject ServerErrors JsDynamic.

(** ** The walk *)

Section Walk.
Variable h : heap.

(** The object [a] names another error as its origin. *)
Definition origin (a b : nat) : Prop := exists o, h !! a = Some o /\ ERef b ∈ error_origins h o /\ b < length h.

Lemma record_of_Some v a o : record_of h v = Some (a, o) <-> v = ERef a /\ h !! a = Some o.
Proof.
  unfold record_of. destruct v as [| | | | | |b]; try by split; [|intros []].
  split; [|by intros ([= ->] & ->)]. destruct (h !! b) eqn:E; [|done]. by intros [= <- <-].
Qed.

(** Work that is left: an object not seen yet is worth four steps. *)
Definition unseen (seen : list nat) : nat :=
  length (List.filter (fun a => negb (bool_decide (a ∈ seen))) (seq 0 (length h))).
Definition work (rest : list errval) (seen : list nat) : nat := length rest + 3 * unseen seen.

Lemma filter_le {A} (p q : A -> bool) l : (forall x, q x = true -> p x = true) ->
  length (List.filter q l) <= length (List.filter p l).
Proof.
  intros I. induction l as [|x l IH]; cbn; [done|]. specialize (I x).
  destruct (q x), (p x); cbn; lia || discriminate (I eq_refl).
Qed.

Lemma filter_lt {A} (p q : A -> bool) l x : (forall x, q x = true -> p x = true) ->
  x ∈ l -> p x = true -> q x = false -> length (List.filter q l) < length (List.filter p l).
Proof.
  intros I. induction l as [|y l IH]; intros E P Q; [by apply elem_of_nil in E|]. cbn.
  apply elem_of_cons in E as [<-|E].
  - rewrite P, Q. cbn. pose proof (filter_le p q l I). lia.
  - specialize (IH E P Q). pose proof (I y) as Iy. destruct (q y), (p y); cbn; lia || discriminate (Iy eq_refl).
Qed.

Lemma unseen_lt seen a : a < length h -> a ∉ seen -> unseen (seen ++ [a]) < unseen seen.
Proof.
  intros L N. unfold unseen. apply (filter_lt _ _ _ a).
  - intros x. rewrite !negb_true_iff, !bool_decide_eq_false. intros E F. apply E, elem_of_app. by left.
  - apply elem_of_seq. lia.
  - by apply negb_true_iff, bool_decide_eq_false.
  - apply negb_false_iff, bool_decide_eq_true, elem_of_app. right. by left.
Qed.

Lemma origins_length o : length (error_origins h o) <= 3.
Proof. unfold error_origins. rewrite length_app. destruct (record_of _ _) as [[? ?]|]; cbn; lia. Qed.

(** The walk ends. *)
Lemma walk_total fuel : forall rest seen, work rest seen < fuel -> exists found, sources_loop h fuel rest seen = Some found.
Proof.
  induction fuel as [|fuel IH]; intros rest seen W; [lia|]. cbn [sources_loop].
  destruct rest as [|v rest]; [by eexists|]. unfold work in W. cbn [length] in W.
  destruct (record_of h v) as [[a o]|] eqn:R; [|apply IH; unfold work; lia].
  case_bool_decide as S; [apply IH; unfold work; lia|].
  apply record_of_Some in R as [-> R]. apply lookup_lt_Some in R as L.
  pose proof (unseen_lt seen a L S). pose proof (origins_length o).
  destruct (IH (rest ++ error_origins h o) (seen ++ [a])) as (found & ->); [|by eexists].
  unfold work. rewrite length_app. lia.
Qed.

(** What it finds: nothing twice, nothing seen before, only what can be
    reached, and, of what it visits, every origin. *)
Lemma walk_sound fuel : forall rest seen found, sources_loop h fuel rest seen = Some found ->
  NoDup found /\ (forall a, a ∈ found -> a ∉ seen /\ a < length h) /\
  (forall a, a ∈ found -> exists b, ERef b ∈ rest /\ rtc origin b a) /\
  (forall b, ERef b ∈ rest -> b < length h -> b ∈ seen \/ b ∈ found) /\
  (forall a b, a ∈ found -> origin a b -> b ∈ seen \/ b ∈ found).
Proof.
  induction fuel as [|fuel IH]; intros rest seen found E; cbn [sources_loop] in E; [done|].
  destruct rest as [|v rest].
  { injection E as <-. split; [constructor|]. split; [|split; [|split]]; intros *; by intros ?%elem_of_nil. }
  destruct (record_of h v) as [[a o]|] eqn:R.
  2:{ destruct (IH _ _ _ E) as (N & F & G & C & D). split; [done|]. split; [done|]. split; [|split; [|done]].
      - intros a Ha. destruct (G a Ha) as (b & B & P). exists b. split; [by right|done].
      - intros b [<-|B]%elem_of_cons L; [|by apply C].
        destruct (lookup_lt_is_Some_2 h b L) as (o & Ho).
        assert (record_of h (ERef b) = Some (b, o)) by (by apply record_of_Some). congruence. }
  apply record_of_Some in R as [-> R]. case_bool_decide as S.
  - destruct (IH _ _ _ E) as (N & F & G & C & D). split; [done|]. split; [done|]. split; [|split; [|done]].
    + intros x Hx. destruct (G x Hx) as (b & B & P). exists b. split; [by right|done].
    + intros b [[= <-]|B]%elem_of_cons L; [by left|by apply C].
  - destruct (sources_loop h fuel (rest ++ error_origins h o) (seen ++ [a])) as [found'|] eqn:E'; [|done].
    injection E as <-. destruct (IH _ _ _ E') as (N & F & G & C & D).
    assert (forall b, b ∈ seen ++ [a] \/ b ∈ found' -> b ∈ seen \/ b ∈ a :: found') as K.
    { intros b. rewrite elem_of_app, list_elem_of_singleton, elem_of_cons. tauto. }
    split; [|split; [|split; [|split]]].
    + constructor; [|done]. intros Ha. apply F in Ha as [Ha _]. apply Ha, elem_of_app. right. by left.
    + intros x [->|Hx]%elem_of_cons; [split; [done|by eapply lookup_lt_Some]|]. apply F in Hx as [Hx L].
      split; [|done]. intros Q. apply Hx, elem_of_app. by left.
    + intros x [->|Hx]%elem_of_cons; [exists a; split; [by left|reflexivity]|].
      destruct (G x Hx) as (b & [B|B]%elem_of_app & P); [exists b; split; [by right|done]|].
      exists a. split; [by left|]. destruct (decide (b < length h)) as [L|L].
      * eapply rtc_l; [|exact P]. by exists o.
      * exfalso. apply F in Hx as [_ Lx]. inversion P as [|? y ? (o' & Ho & _) _]; subst; [done|].
        apply lookup_lt_Some in Ho. done.
    + intros b [[= <-]|B]%elem_of_cons L; [right; by left|]. apply K, C; [|done]. apply elem_of_app. by left.
    + intros x b [->|Hx]%elem_of_cons O; [|by apply K, (D x)]. destruct O as (o' & Ho & B & L).
      rewrite R in Ho. injection Ho as <-. apply K, C; [|done]. apply elem_of_app. by right.
Qed.

Lemma unseen_nil : unseen [] <= length h.
Proof.
  unfold unseen. etransitivity; [apply (filter_le (fun _ => true)); done|].
  assert (forall l : list nat, List.filter (fun _ => true) l = l) as -> by (induction l; cbn; congruence).
  by rewrite length_seq.
Qed.

Lemma sources_walk v : exists found, sources_loop h (sources_fuel h) [v] [] = Some found /\ getServerErrorSources h v = found.
Proof.
  destruct (walk_total (sources_fuel h) [v] []) as (found & E).
  - unfold work, sources_fuel. pose proof unseen_nil. cbn [length]. lia.
  - exists found. split; [done|]. unfold getServerErrorSources. by rewrite E.
Qed.

(** The walk over the origins of an error is exact and always ends, even
    when errors refer to each other in circles: the fuel passed is enough, and
    the sources are, without repetition, the error itself, if it is an object,
    and every object reached from it by following response data, causes and
    nested errors. *)
Theorem sources_exact v :
  sources_loop h (sources_fuel h) [v] [] = Some (getServerErrorSources h v) /\
  NoDup (getServerErrorSources h v) /\
  forall b, b ∈ getServerErrorSources h v <-> exists a, v = ERef a /\ a < length h /\ rtc origin a b.
Proof.
  destruct (sources_walk v) as (found & E & ->). split; [done|].
  destruct (walk_sound _ _ _ _ E) as (N & F & G & C & D). split; [done|]. intros b. split.
  - intros Hb. destruct (G b Hb) as (a & Ha & P). apply list_elem_of_singleton in Ha. exists a. split; [done|]. split; [|done].
    apply F in Hb as [_ Lb]. inversion P as [|? y ? (o & Ho & _) _]; subst; [done|]. by eapply lookup_lt_Some.
  - intros (a & -> & L & P). assert (a ∈ found) as Ha.
    { destruct (C a (list_elem_of_here _ _) L) as [Q|]; [by apply elem_of_nil in Q|done]. }
    clear -D Ha P. induction P as [|a c b O P IH]; [done|]. apply IH.
    destruct (D a c Ha O) as [Q|]; [by apply elem_of_nil in Q|done].
Qed.
End Walk.

Lemma sources_bound h v a : a ∈ getServerErrorSources h v -> a < length h.
Proof.
  destruct (sources_walk h v) as (found & E & ->). apply walk_sound in E as (_ & F & _). apply F.
Qed.

(** The first source of an object is the object. *)
Lemma sources_head h a o : h !! a = Some o -> exists rest, getServerErrorSources h (ERef a) = a :: rest.
Proof.
  intros L. destruct (sources_walk h (ERef a)) as (found & E & ->). change (sources_fuel h) with (S (1 + 3 * length h)) in E.
  revert E. generalize (1 + 3 * length h). intros fuel E. cbn [sources_loop] in E.
  rewrite (proj2 (record_of_Some h (ERef a) a o)) in E by done. rewrite bool_decide_eq_false_2 in E by apply not_elem_of_nil.
  destruct (sources_loop _ _ _ _) as [rest|]; [|done]. injection E as <-. by exists rest.
Qed.

(** ** Hidden details *)

Section Hidden.
Context `{ErrorHost}.

(** The key of a safe error comes from its own code. *)
Lemma safe_key (h : heap) a o : h !! a = Some o -> eo_safe o = true ->
  getServerErrorMessageKey h (ERef a) = text_of (prop o (js "code")) ≫= lookup_code.
Proof.
  intros L S. unfold getServerErrorMessageKey, source_objects.
  destruct (sources_head h a o L) as (rest & ->). cbn [omap list_omap]. rewrite L. cbn [first_key]. rewrite S.
  by destruct (text_of _ ≫= lookup_code).
Qed.

(** Which source is found. *)
Lemma first_safe (h : heap) before a o after :
  Forall (fun b => exists p, h !! b = Some p /\ eo_safe p = false) before -> h !! a = Some o -> eo_safe o = true ->
  List.find eo_safe (omap (fun b => h !! b) (before ++ a :: after)) = Some o /\
  List.find (fun b => match h !! b with Some o => eo_safe o | None => false end) (before ++ a :: after) = Some a.
Proof.
  intros F L S. induction F as [|b before (p & Lp & Sp) F IH]; cbn.
  - rewrite L. cbn. by rewrite S.
  - rewrite Lp. cbn. by rewrite Sp.
Qed.

Lemma presented (h : heap) v before a o after fallback :
  getServerErrorSources h v = before ++ a :: after ->
  Forall (fun b => exists p, h !! b = Some p /\ eo_safe p = false) before -> h !! a = Some o -> eo_safe o = true ->
  getServerErrorMessage h v fallback =
  translate (safe_text (text_of (prop o (js "code")) ≫= lookup_code) (prop o (js "message")) fallback).
Proof.
  intros E F L S. unfold getServerErrorMessage, source_objects. rewrite E.
  destruct (first_safe h before a o after F L S) as [-> ->]. by rewrite (safe_key h a o).
Qed.

(** The object at [a] is the value's first source that hides its details. *)
Definition hides (h : heap) (v : errval) (a : nat) : Prop :=
  exists before after o, getServerErrorSources h v = before ++ a :: after /\
    Forall (fun b => exists p, h !! b = Some p /\ eo_safe p = false) before /\ h !! a = Some o /\ eo_safe o = true.

(** Texts the client itself is made with. *)
Definition own_text (s : str) : Prop := s = js "Please try again later." \/ exists code, (code, s) ∈ serverErrorMessageKeys.

(** No code is the name of a property that every object has. *)
Definition codes_plain (h : heap) : Prop :=
  Forall (fun o => forall code, prop o (js "code") = EStr code -> includes_str object_prototype_keys code = false) h.

Lemma codes_plain_check h :
  forallb (fun o => match prop o (js "code") with EStr code => negb (includes_str object_prototype_keys code) | _ => true end) h = true ->
  codes_plain h.
Proof.
  unfold codes_plain. rewrite forallb_forall, list.Forall_forall. intros C o I code E. apply list_elem_of_In, C in I. rewrite E in I.
  by apply negb_true_iff.
Qed.

Definition presentable (s : str) : bool := bool_decide (messageText (EStr s) = Some s).

Lemma known_texts : forallb (fun e => presentable e.2) serverErrorMessageKeys = true.
Proof. vm_compute. reflexivity. Qed.

Lemma own_presented s : own_text s -> messageText (EStr s) = Some s.
Proof.
  intros [-> | (code & I)]; [vm_compute; reflexivity|]. pose proof known_texts as T. rewrite forallb_forall in T.
  apply list_elem_of_In, T in I. by apply bool_decide_eq_true in I.
Qed.

Lemma plain_key code key : includes_str object_prototype_keys code = false -> lookup_code code = Some key ->
  exists s, key = KeyText s /\ own_text s.
Proof.
  intros P. unfold lookup_code. rewrite P. destruct (assoc_str serverErrorMessageKeys code) as [text|] eqn:A; [|done].
  apply assoc_str_elem in A. destruct text; [done|]. intros [= <-]. eexists. split; [done|]. right. by exists code.
Qed.

Lemma plain_code_key o key : (forall code, prop o (js "code") = EStr code -> includes_str object_prototype_keys code = false) ->
  text_of (prop o (js "code")) ≫= lookup_code = Some key -> exists s, key = KeyText s /\ own_text s.
Proof.
  intros P K. apply bind_Some in K as (code & T & K). apply (plain_key code key); [|done]. apply P.
  destruct (prop o (js "code")); try done. by injection T as ->.
Qed.

(** A message key that is found among plain codes is the key of an own text. *)
Lemma found_key_own h v key : codes_plain h -> getServerErrorMessageKey h v = Some key -> exists s, key = KeyText s /\ own_text s.
Proof.
  unfold codes_plain, getServerErrorMessageKey, source_objects. rewrite list.Forall_forall. intros P.
  assert (forall o, o ∈ omap (fun a => h !! a) (getServerErrorSources h v) -> o ∈ h) as S.
  { intros o (a & _ & L)%list_elem_of_omap. by eapply list_elem_of_lookup_2. }
  revert S. induction (omap _ _) as [|o l IH]; cbn [first_key]; intros S; [done|].
  destruct (text_of (prop o (js "code")) ≫= lookup_code) as [k|] eqn:K.
  - intros [= <-]. apply (plain_code_key o); [|done]. apply P, S. by left.
  - destruct (eo_safe o); [done|]. intros F. apply IH; [|done]. intros o' I. apply S. by right.
Qed.

Lemma member_plain h v code : codes_plain h -> member h v (js "code") = EStr code -> includes_str object_prototype_keys code = false.
Proof.
  unfold codes_plain, member. rewrite list.Forall_forall. intros P. destruct (record_of h v) as [[a o]|] eqn:R; [|done].
  apply record_of_Some in R as [_ R]. apply P. by eapply list_elem_of_lookup_2.
Qed.

(** The error made from an Axios failure of the server. *)
Lemma failure_wrapped h a o text : codes_plain h -> h !! a = Some o -> eo_operation o = false -> is_axios_error o = true ->
  server_failed (member h (prop o (js "response")) (js "status")) = true ->
  exists message code, AuthOperationError_from h (ERef a) text = (h ++ [new_operation_error message code (ERef a)], ERef (length h)) /\
    own_text message /\ (forall c, code = EStr c -> includes_str object_prototype_keys c = false).
Proof.
  intros P L O X F. unfold AuthOperationError_from, record_of. rewrite L. cbn [fmap option_fmap option_map]. rewrite O, X.
  eexists _, _. split; [reflexivity|]. split; [|intros c; by apply member_plain].
  destruct (getServerErrorMessageKey h (ERef a)) as [key|] eqn:K.
  - by destruct (found_key_own h _ _ P K) as (s & -> & W).
  - unfold axios_text. rewrite F. by left.
Qed.

(** C33: Authentication errors do not leak what the server said.  Two
    failures, each presented by an error that hides its details (the first of
    its sources that does), are shown with the same text when those two errors
    have the same code and the same message: nothing of their causes, responses
    or wrappers is shown.  And when a request failed with an Axios error (that
    is no authentication error already) and a status of 500 or above, and no error of the heap has the name of an
    inherited property (such as constructor) as its code, then the error made from it hides its details, and it and
    every failure it presents, whatever is wrapped around it later, is shown as
    the translation of one of the client's own texts, never as a text of the
    server. *)
Theorem details_stay_hidden (h : heap) a o text fallback :
  codes_plain h -> h !! a = Some o -> eo_operation o = false -> prop o (js "isAxiosError") = EBool true ->
  server_failed (member h (prop o (js "response")) (js "status")) = true ->
  (forall h1 v1 a1 o1 h2 v2 a2 o2, hides h1 v1 a1 -> h1 !! a1 = Some o1 -> hides h2 v2 a2 -> h2 !! a2 = Some o2 ->
     prop o1 (js "code") = prop o2 (js "code") -> prop o1 (js "message") = prop o2 (js "message") ->
     getServerErrorMessage h1 v1 fallback = getServerErrorMessage h2 v2 fallback) /\
  exists h' b, AuthOperationError_from h (ERef a) text = (h', ERef b) /\ hides h' (ERef b) b /\
    forall later v, hides (h' ++ later) v b ->
      exists s, own_text s /\ getServerErrorMessage (h' ++ later) v fallback = translate (KeyText s).
Proof.
  intros P L O X F. split.
  { intros h1 v1 a1 o1 h2 v2 a2 o2 (b1 & c1 & p1 & E1 & F1 & L1 & S1) M1 (b2 & c2 & p2 & E2 & F2 & L2 & S2) M2 C M.
    rewrite L1 in M1. injection M1 as ->. rewrite L2 in M2. injection M2 as ->.
    rewrite (presented h1 v1 b1 a1 o1 c1), (presented h2 v2 b2 a2 o2 c2) by done. by rewrite C, M. }
  apply (bool_decide_eq_true_2 (prop o (js "isAxiosError") = EBool true)) in X.
  destruct (failure_wrapped h a o text P L O X F) as (message & code & -> & W & C). set (o' := new_operation_error _ _ _).
  assert ((h ++ [o']) !! length h = Some o') as L' by (by rewrite lookup_app_r, Nat.sub_diag by lia).
  exists (h ++ [o']), (length h). split; [done|]. split.
  { destruct (sources_head _ _ _ L') as (rest & E). exists [], rest, o'. by split_and!. }
  intros later v (before & after & p & E & B & Lp & S).
  assert (((h ++ [o']) ++ later) !! length h = Some o') as Ll by (by apply lookup_app_l_Some).
  change (((h ++ [o']) ++ later) !! length h = Some p) in Lp. rewrite Ll in Lp. injection Lp as <-.
  rewrite (presented _ v before (length h) o' after fallback E B Ll S).
  unfold safe_text. destruct (text_of (prop o' (js "code")) ≫= lookup_code) as [key|] eqn:K.
  - destruct (plain_code_key o' key C K) as (s & -> & ?). by exists s.
  - change (prop o' (js "message")) with (EStr message). rewrite (own_presented message W). by exists message.
Qed.
End Hidden.

(** ** Reporting *)

Section Reporting.
Context `{ErrorHost}.
Variable h : heap.

Inductive ReportCall :=
| CallMark (error : errval)
| CallHandle (error : errval) (fallback : option str) (presentation : option (str * option str)).

Definition report_step (r : Reports) (c : ReportCall) : Reports :=
  match c with
  | CallMark error => markServerErrorHandled h error r
  | CallHandle error fallback presentation => handleServerError h error fallback presentation r
  end.

Definition report_run (calls : list ReportCall) (r : Reports) : Reports := fold_left report_step calls r.

Lemma handle_marks error fallback presentation r a :
  a ∈ reportedErrors r \/ (isServerErrorCancelled h error = false /\ a ∈ getServerErrorSources h error) ->
  a ∈ reportedErrors (handleServerError h error fallback presentation r).
Proof.
  unfold handleServerError. destruct (isServerErrorCancelled h error); [by intros [?|[? _]]|].
  intros A. assert (a ∈ reportedErrors (markServerErrorHandled h error r)) as M by (cbn; rewrite elem_of_app; tauto).
  by destruct (existsb _ _).
Qed.

Lemma step_keeps r c a : a ∈ reportedErrors r -> a ∈ reportedErrors (report_step r c).
Proof. intros A. destruct c; cbn; [apply elem_of_app; by left|by apply handle_marks; left]. Qed.

Lemma run_keeps calls r a : a ∈ reportedErrors r -> a ∈ reportedErrors (report_run calls r).
Proof. unfold report_run. revert r. induction calls as [|c calls IH]; intros r A; cbn; [done|]. by apply IH, step_keeps. Qed.

(** A call shows a message only for an error no part of which was reported. *)
Lemma step_toasts r c :
  toasts (report_step r c) = toasts r \/
  exists error fallback presentation toast, c = CallHandle error fallback presentation /\
    isServerErrorCancelled h error = false /\
    (forall a, a ∈ getServerErrorSources h error -> a ∉ reportedErrors r) /\
    toasts (report_step r c) = toasts r ++ [toast].
Proof.
  destruct c as [error|error fallback presentation]; [by left|]. cbn. unfold handleServerError.
  destruct (isServerErrorCancelled h error) eqn:C; [by left|].
  destruct (existsb _ (getServerErrorSources h error)) eqn:X; [by left|]. right.
  do 4 eexists. split; [reflexivity|]. split; [done|]. split; [|reflexivity].
  intros a A R. assert (existsb (fun a => bool_decide (a ∈ reportedErrors r)) (getServerErrorSources h error) = true) as Y; [|congruence].
  apply existsb_exists. exists a. split; [by apply list_elem_of_In|by apply bool_decide_eq_true].
Qed.

(** The call reports the object [a]. *)
Definition reports (c : ReportCall) (a : nat) : Prop :=
  match c with
  | CallMark error => a ∈ getServerErrorSources h error
  | CallHandle error _ _ => isServerErrorCancelled h error = false /\ a ∈ getServerErrorSources h error
  end.

(** A failure is reported once.  Once an error was handled, or marked as
    shown elsewhere, then whatever else is reported in between, handling an
    error that shares a part with it, the same object again or a wrapper
    around it, shows nothing.  What is new and not cancelled shows exactly one
    message. *)
Theorem reported_once r first between error fallback presentation :
  (forall a, reports first a -> a ∈ getServerErrorSources h error ->
    let s := report_run between (report_step r first) in
    toasts (handleServerError h error fallback presentation s) = toasts s) /\
  (isServerErrorCancelled h error = false ->
    (forall a, a ∈ getServerErrorSources h error -> a ∉ reportedErrors r) ->
    exists toast, toasts (handleServerError h error fallback presentation r) = toasts r ++ [toast]).
Proof.
  split.
  - intros a F A s. assert (a ∈ reportedErrors s) as R.
    { apply run_keeps. destruct first; cbn in *; [apply elem_of_app; by right|apply handle_marks; by right]. }
    destruct (step_toasts s (CallHandle error fallback presentation)) as [T|(e & f & p & t & [= <- <- <-] & _ & N & _)]; [done|].
    exfalso. by apply (N a).
  - intros C N. unfold handleServerError. rewrite C.
    destruct (existsb _ _) eqn:X; [|by eexists]. apply existsb_exists in X as (a & A & B).
    apply bool_decide_eq_true in B. exfalso. apply (N a); [by apply list_elem_of_In|done].
Qed.
End Reporting.

(** ** A wrapped authentication error *)

Definition sample_host : ErrorHost :=
  {| translate key := match key with KeyText s => s | KeyInherited name => name end;
     isCancel := fun _ => false; isCancelledError := fun _ => false;
     inherited_text name := js "function "; object_text _ := js "[object Object]"; type_error_text := js "not an object" |}.

(** 0: the body; 1: the response; 2: the Axios error, its own cause; 3: a
    plain error around it. *)
Definition sample_heap : heap :=
  [MkObj [(js "message", EStr (js "sql: no rows")); (js "code", EStr (js "X"))] false false false;
   MkObj [(js "status", ENum (lit 503)); (js "data", ERef 0)] false false false;
   MkObj [(js "isAxiosError", EBool true); (js "message", EStr (js "Request failed")); (js "response", ERef 1); (js "cause", ERef 2)] true false false;
   new_error (js "wrapper") (ERef 2)].

Example sample_sources : getServerErrorSources sample_heap (ERef 3) = [3; 2; 0].
Proof. vm_compute. reflexivity. Qed.

Example sample_presented :
  let _ := sample_host in
  let e := AuthOperationError_from sample_heap (ERef 2) VERIFICATION_FAILED in
  getServerErrorMessage e.1 e.2 None = js "Please try again later." /\
  getServerErrorMessage sample_heap (ERef 3) None = js "sql: no rows".
Proof. vm_compute. split; reflexivity. Qed.

(** The failure of a request whose server said why, wrapped twice. *)
Lemma details_stay_hidden_witness :
  let _ := sample_host in
  exists h' b s, AuthOperationError_from sample_heap (ERef 2) VERIFICATION_FAILED = (h', ERef b) /\ own_text s /\
    getServerErrorMessage (h' ++ [new_error (js "later") (ERef b)]) (ERef 5) None = translate (KeyText s).
Proof.
  intros host.
  destruct (details_stay_hidden sample_heap 2
    (MkObj [(js "isAxiosError", EBool true); (js "message", EStr (js "Request failed")); (js "response", ERef 1); (js "cause", ERef 2)]
       true false false) VERIFICATION_FAILED None) as (_ & h' & b & E & _ & G); [| reflexivity | reflexivity | reflexivity | vm_compute; reflexivity |].
  - apply codes_plain_check. vm_compute. reflexivity.
  - exists h', b. assert (h' = (AuthOperationError_from sample_heap (ERef 2) VERIFICATION_FAILED).1) as Eh by (by rewrite E).
    assert (ERef b = (AuthOperationError_from sample_heap (ERef 2) VERIFICATION_FAILED).2) as Eb by (by rewrite E).
    vm_compute in Eb. injection Eb as ->. destruct (G [new_error (js "later") (ERef 4)] (ERef 5)) as (s & W & M).
    + subst h'. exists [5], [2; 0], (new_operation_error (js "Please try again later.") (EStr (js "X")) (ERef 2)).
      split; [vm_compute; reflexivity|]. split; [|split; vm_compute; reflexivity]. constructor; [|constructor].
      exists (new_error (js "later") (ERef 4)). split; vm_compute; reflexivity.
    + exists s. split; [exact E|]. split; [exact W | exact M].
Defined.

(** An inherited property of the table is taken for a message. *)
Example inherited_code : lookup_code (js "constructor") = Some (KeyInherited (js "constructor")).
Proof. vm_compute. reflexivity. Qed.

Example sample_reported :
  let _ := sample_host in
  let s := report_run sample_heap [] (report_step sample_heap (MkReports [] []) (CallHandle (ERef 2) None None)) in
  length (toasts s) = 1 /\ toasts (handleServerError sample_heap (ERef 3) None None s) = toasts s.
Proof. vm_compute. done. Qed.
