(* ===== verification/AdvancedCustom.v ===== *)
(** * Custom channel routes

    Models [features/channels/lib/advanced-custom.ts]: the routes of a custom
    channel, read from JSON, normalised, validated and edited.  A
    configuration may hold anything JSON can hold, so configurations and
    routes are JavaScript values, and what the functions throw on values of
    an unexpected type is part of the model.  [new URL] is the host's. *)

From Stdlib Require Import ZArith Lia Bool SpecFloat.
From stdpp Require Import base list numbers.
From S2P Require Import Prelude JsString JsNumber JsObject JsMap JsValue JsJson JsJsonPrint JsDynamic JsURL.

(** ** Constants *)

Definition ADVANCED_CUSTOM_MODEL_LIST_PATH : str := js "/v1/models".
Definition ADVANCED_CUSTOM_MODEL_LIST_LABEL : str := js "OpenAI Models".
Definition ADVANCED_CUSTOM_BALANCE_PATH : str := js "/v1/dashboard/billing/credit_grants".
Definition ADVANCED_CUSTOM_BALANCE_LABEL : str := js "Balance Query".

Record ConverterOption := MkConverterOption { co_value : str; co_label : str; co_triggerLabel : str }.

Definition anthropic_to_chat : str := js "anthropic_messages_to_openai_chat_completions".
Definition chat_to_anthropic : str := js "openai_chat_completions_to_anthropic_messages".
Definition chat_to_responses : str := js "openai_chat_completions_to_openai_responses".
Definition responses_to_chat : str := js "openai_responses_to_openai_chat_completions".
Definition responses_to_gemini : str := js "openai_responses_to_gemini_generate_content".
Definition gemini_to_chat : str := js "gemini_generate_content_to_openai_chat_completions".
Definition chat_to_gemini : str := js "openai_chat_completions_to_gemini_generate_content".

Definition ADVANCED_CUSTOM_CONVERTER_OPTIONS : list ConverterOption :=
  [MkConverterOption (js "none") (js "Native forwarding") (js "Native forwarding");
   MkConverterOption anthropic_to_chat (js "Anthropic Messages to OpenAI Chat") (js "To OpenAI Chat");
   MkConverterOption chat_to_anthropic (js "OpenAI Chat to Anthropic Messages") (js "To Anthropic Messages");
   MkConverterOption chat_to_responses (js "OpenAI Chat to OpenAI Responses") (js "To OpenAI Responses");
   MkConverterOption responses_to_chat (js "OpenAI Responses to OpenAI Chat") (js "To OpenAI Chat");
   MkConverterOption responses_to_gemini (js "OpenAI Responses to Gemini Generate Content")
     (js "To Gemini Generate Content");
   MkConverterOption gemini_to_chat (js "Gemini Generate Content to OpenAI Chat") (js "To OpenAI Chat");
   MkConverterOption chat_to_gemini (js "OpenAI Chat to Gemini Generate Content") (js "To Gemini Generate Content")].

Inductive AdvancedCustomAuthMode := mode_default | mode_none | mode_header | mode_query.

Definition ADVANCED_CUSTOM_AUTH_MODE_OPTIONS : list (AdvancedCustomAuthMode * str) :=
  [(mode_default, js "Default Bearer"); (mode_none, js "No Auth"); (mode_header, js "Header"); (mode_query, js "Query")].

(** Values and labels. *)
Definition ADVANCED_CUSTOM_INCOMING_PATH_OPTIONS : list (str * str) :=
  [(js "/v1/chat/completions", js "OpenAI Chat");
   (js "/v1/responses", js "OpenAI Responses");
   (js "/v1/responses/compact", js "OpenAI Responses Compact");
   (js "/v1/alpha/search", js "Codex Alpha Search");
   (js "/v1/embeddings", js "OpenAI Embeddings");
   (js "/v1/images/generations", js "OpenAI Image Generations");
   (js "/v1/images/edits", js "OpenAI Image Edits");
   (js "/v1/completions", js "OpenAI Completions");
   (js "/v1/audio/speech", js "OpenAI Audio Speech");
   (js "/v1/audio/transcriptions", js "OpenAI Audio Transcriptions");
   (js "/v1/audio/translations", js "OpenAI Audio Translations");
   (js "/v1/rerank", js "Rerank");
   (js "/v1/realtime", js "OpenAI Realtime");
   (js "/v1/messages", js "Claude Messages");
   (js "/v1beta/models/{model}:generateContent", js "Gemini Generate Content");
   (js "/v1beta/models/{model}:embedContent", js "Gemini Embed Content");
   (js "/v1beta/models/{model}:batchEmbedContents", js "Gemini Batch Embed Contents")].

Definition ADVANCED_CUSTOM_ROUTE_SUMMARY_LABELS : list (str * str) :=
  [(js "/v1/chat/completions", js "OpenAI Chat");
   (ADVANCED_CUSTOM_MODEL_LIST_PATH, ADVANCED_CUSTOM_MODEL_LIST_LABEL);
   (ADVANCED_CUSTOM_BALANCE_PATH, ADVANCED_CUSTOM_BALANCE_LABEL)].

Record AdvancedCustomValidationError := MkValidationError { ve_message : str; ve_routeIndex : option nat }.

Definition ADVANCED_CUSTOM_MODEL_REGEX_PREFIX : str := js "re:".

Inductive AdvancedCustomModelRuleKind := rule_exact | rule_regex.

#[export] Instance rule_kind_eq_dec : EqDecision AdvancedCustomModelRuleKind.
Proof. solve_decision. Defined.

Definition openAIChatPath : str := js "/v1/chat/completions".
Definition openAIResponsesPath : str := js "/v1/responses".
Definition claudeMessagesPath : str := js "/v1/messages".
Definition geminiGenerateContentPath : str := js "/v1beta/models/{model}:generateContent".

(** ** Objects *)

(** [{ type, name, value }] *)
Definition auth_object (type name value : jsval) : jsval :=
  JObj [(js "type", type); (js "name", name); (js "value", value)].

Definition bearerHeaderAuth : jsval :=
  auth_object (JStr (js "header")) (JStr (js "Authorization")) (JStr (js "Bearer {api_key}")).
Definition apiKeyHeaderAuth : jsval :=
  auth_object (JStr (js "header")) (JStr (js "x-api-key")) (JStr (js "{api_key}")).
Definition geminiQueryAuth : jsval := auth_object (JStr (js "query")) (JStr (js "key")) (JStr (js "{api_key}")).

Definition native_route (auth : jsval) (path : str) : jsval :=
  JObj [(js "incoming_path", JStr path); (js "upstream_path", JStr path); (js "converter", JStr (js "none"));
        (js "auth", auth)].

Definition createOpenAINativeRoutes : list jsval :=
  map (native_route bearerHeaderAuth)
    [js "/v1/chat/completions"; js "/v1/completions"; js "/v1/responses"; js "/v1/responses/compact";
     js "/v1/embeddings"; js "/v1/images/generations"; js "/v1/images/edits"; js "/v1/audio/speech";
     js "/v1/audio/transcriptions"; js "/v1/audio/translations"; js "/v1/realtime"].

Definition createClaudeNativeRoutes : list jsval := [native_route apiKeyHeaderAuth (js "/v1/messages")].

Definition createGeminiNativeRoutes : list jsval :=
  map (native_route geminiQueryAuth)
    [js "/v1beta/models/{model}:generateContent"; js "/v1beta/models/{model}:embedContent";
     js "/v1beta/models/{model}:batchEmbedContents"].

Definition createGatewayNativeRoutes : list jsval :=
  map (native_route bearerHeaderAuth) [js "/v1/alpha/search"; js "/v1/rerank"].

Definition config_of (routes : list jsval) : jsval := JObj [(js "advanced_routes", JArr routes)].

Record AdvancedCustomTemplateOption := MkTemplate { tp_value : str; tp_label : str; tp_config : jsval }.

Definition ADVANCED_CUSTOM_TEMPLATE_OPTIONS : list AdvancedCustomTemplateOption :=
  [MkTemplate (js "all_protocols") (js "All routes")
     (config_of (createOpenAINativeRoutes ++ createClaudeNativeRoutes ++ createGeminiNativeRoutes ++
        createGatewayNativeRoutes));
   MkTemplate (js "openai_only") (js "OpenAI only") (config_of createOpenAINativeRoutes);
   MkTemplate (js "claude_only") (js "Claude only") (config_of createClaudeNativeRoutes);
   MkTemplate (js "gemini_only") (js "Gemini only") (config_of createGeminiNativeRoutes)].

(** [structuredClone] of JSON data. *)
Definition cloneAdvancedCustomConfig (config : jsval) : jsval := config.

Definition getAdvancedCustomTemplateConfig (templateKey : str) : jsval :=
  match List.find (fun option => str_eqb (tp_value option) templateKey) ADVANCED_CUSTOM_TEMPLATE_OPTIONS with
  | Some template => cloneAdvancedCustomConfig (tp_config template)
  | None =>
      match ADVANCED_CUSTOM_TEMPLATE_OPTIONS with
      | template :: _ => cloneAdvancedCustomConfig (tp_config template)
      | [] => JUndefined
      end
  end.

Definition createAdvancedCustomRoute : jsval :=
  JObj [(js "incoming_path", JStr openAIChatPath); (js "upstream_path", JStr openAIChatPath);
        (js "converter", JStr (js "none"))].

Definition createAdvancedCustomConfig : jsval := config_of [createAdvancedCustomRoute].

Definition createAdvancedCustomManagementRoute (path : str) : jsval :=
  JObj [(js "incoming_path", JStr path); (js "upstream_path", JStr path); (js "converter", JStr (js "none"));
        (js "models", JArr [])].

Definition isAdvancedCustomManagementPath (path : str) : bool :=
  str_eqb path ADVANCED_CUSTOM_MODEL_LIST_PATH || str_eqb path ADVANCED_CUSTOM_BALANCE_PATH.

(** ** Normalisation *)

Definition getAdvancedCustomRouteUpstreamPath (route : jsval) : outcome JsError str :=
  let* upstream := value_prop route (js "upstream_path") in value_trim (value_or upstream (JStr [])).

Definition normalizeAdvancedCustomRouteModels (models : jsval) : outcome JsError (list str) :=
  match models with
  | JArr items =>
      let* trimmed := omap_list value_trim items in
      Ok (List.filter (fun m => negb (str_eqb m [])) trimmed)
  | _ => Ok []
  end.

Definition normalizeAdvancedCustomRoute (route : jsval) : outcome JsError jsval :=
  let* incoming := value_prop route (js "incoming_path") in
  let* upstream := getAdvancedCustomRouteUpstreamPath route in
  let converter := get_field route (js "converter") in
  let* models := normalizeAdvancedCustomRouteModels (get_field route (js "models")) in
  let auth := get_field route (js "auth") in
  Ok (JObj ([(js "incoming_path", value_or incoming (JStr [])); (js "upstream_path", JStr upstream);
             (js "converter", value_or converter (JStr (js "none")))] ++
            match models with [] => [] | _ => [(js "models", JArr (map JStr models))] end ++
            if value_truthy auth then
              [(js "auth", auth_object (get_field auth (js "type")) (value_or (get_field auth (js "name")) (JStr []))
                  (value_or (get_field auth (js "value")) (JStr [])))]
            else [])).

(** The routes of a normalised configuration. *)
Definition normalized_routes (config : jsval) : outcome JsError (list jsval) :=
  let* routes := value_prop config (js "advanced_routes") in
  match routes with
  | JArr routes => omap_list normalizeAdvancedCustomRoute routes
  | _ => Ok []
  end.

Definition normalizeAdvancedCustomConfig (config : jsval) : outcome JsError jsval :=
  let* routes := normalized_routes config in Ok (config_of routes).

Definition parseAdvancedCustomConfig (value : option str) : option jsval :=
  match value with
  | None => None
  | Some value =>
      match trim value with
      | [] => None
      | _ =>
          match json_parse value with
          | Ok (JObj fields) =>
              match normalizeAdvancedCustomConfig (JObj fields) with Ok config => Some config | _ => None end
          | _ => None
          end
      end
  end.

(** [JSON.stringify] of an object is a text. *)
Definition stringifyAdvancedCustomConfig (config : jsval) : outcome JsError str :=
  let* normalized := normalizeAdvancedCustomConfig config in
  Ok (default [] (json_print (js "  ") [] normalized)).

Definition parseAdvancedCustomRouteModels (value : str) : list str :=
  set_from (List.filter (fun m => negb (str_eqb m [])) (map trim (split_char 44 value))).

Definition getAdvancedCustomModelRuleKind (modelRule : str) : AdvancedCustomModelRuleKind :=
  if starts_with ADVANCED_CUSTOM_MODEL_REGEX_PREFIX modelRule then rule_regex else rule_exact.

Definition getAdvancedCustomRegexModelPattern (modelRule : str) : str :=
  js_slice_from modelRule (Z.of_nat (length ADVANCED_CUSTOM_MODEL_REGEX_PREFIX)).

(** ** Converters *)

Definition isAdvancedCustomConverter (value : jsval) : bool :=
  existsb (fun option => value_is_text value (co_value option)) ADVANCED_CUSTOM_CONVERTER_OPTIONS.

Definition isConverterPathAllowed (incomingPath converter : str) : bool :=
  if str_eqb converter (js "none") then true
  else if str_eqb incomingPath (js "/v1/alpha/search") then false
  else if str_eqb converter anthropic_to_chat then str_eqb incomingPath (js "/v1/messages")
  else if str_eqb converter chat_to_anthropic || str_eqb converter chat_to_responses || str_eqb converter chat_to_gemini
  then str_eqb incomingPath (js "/v1/chat/completions")
  else if str_eqb converter responses_to_chat then str_eqb incomingPath (js "/v1/responses")
  else if str_eqb converter responses_to_gemini then str_eqb incomingPath (js "/v1/responses")
  else contains incomingPath (js ":generateContent") || contains incomingPath (js ":streamGenerateContent").

Definition isAdvancedCustomIncomingPathAllowed : str -> str -> bool := isConverterPathAllowed.

Definition getAdvancedCustomIncomingPathOptions (converter : str) : list (str * str) :=
  List.filter (fun option => isConverterPathAllowed option.1 converter) ADVANCED_CUSTOM_INCOMING_PATH_OPTIONS.

(** [options[0]?.value || '/v1/chat/completions'] *)
Definition getDefaultAdvancedCustomIncomingPath (converter : str) : str :=
  match getAdvancedCustomIncomingPathOptions converter with
  | (c :: value, _) :: _ => c :: value
  | _ => js "/v1/chat/completions"
  end.

Definition getAdvancedCustomConverterOptions (incomingPath : str) : list ConverterOption :=
  let normalizedIncomingPath := trim incomingPath in
  List.filter (fun option =>
    str_eqb (co_value option) (js "none") || isConverterPathAllowed normalizedIncomingPath (co_value option))
    ADVANCED_CUSTOM_CONVERTER_OPTIONS.

Definition getAdvancedCustomIncomingPathLabel (value : str) : str :=
  match List.find (fun option => str_eqb option.1 value) ADVANCED_CUSTOM_INCOMING_PATH_OPTIONS with
  | Some (_, c :: label) => c :: label
  | _ => value
  end.

Definition getAdvancedCustomNativeAuth (incomingPath : str) : jsval :=
  if str_eqb incomingPath claudeMessagesPath then apiKeyHeaderAuth
  else if contains incomingPath (js ":generateContent") || contains incomingPath (js ":streamGenerateContent") ||
          contains incomingPath (js ":embedContent") || contains incomingPath (js ":batchEmbedContents")
  then geminiQueryAuth
  else bearerHeaderAuth.

Record AdvancedCustomConverterDefaults := MkDefaults { cd_upstream_path : str; cd_auth : jsval }.

Definition getAdvancedCustomConverterDefaults (converter incomingPath : str) : AdvancedCustomConverterDefaults :=
  let normalizedIncomingPath :=
    match trim incomingPath with [] => getDefaultAdvancedCustomIncomingPath converter | path => path end in
  if str_eqb converter (js "none") then
    MkDefaults normalizedIncomingPath (getAdvancedCustomNativeAuth normalizedIncomingPath)
  else if str_eqb converter anthropic_to_chat || str_eqb converter gemini_to_chat || str_eqb converter responses_to_chat
  then MkDefaults openAIChatPath bearerHeaderAuth
  else if str_eqb converter chat_to_responses then MkDefaults openAIResponsesPath bearerHeaderAuth
  else if str_eqb converter chat_to_anthropic then MkDefaults claudeMessagesPath apiKeyHeaderAuth
  else if str_eqb converter chat_to_gemini || str_eqb converter responses_to_gemini
  then MkDefaults geminiGenerateContentPath geminiQueryAuth
  else
    MkDefaults (match normalizedIncomingPath with [] => openAIChatPath | path => path end)
      (getAdvancedCustomNativeAuth normalizedIncomingPath).

Definition getAdvancedCustomUpstreamPathPlaceholder (converter : str) (incomingPath : option str) : str :=
  cd_upstream_path (getAdvancedCustomConverterDefaults converter
    (default (getDefaultAdvancedCustomIncomingPath converter) incomingPath)).

(** ** Authentication *)

Definition auth_mode_text (mode : AdvancedCustomAuthMode) : str :=
  match mode with
  | mode_default => js "default" | mode_none => js "none" | mode_header => js "header" | mode_query => js "query"
  end.

(** [route.auth?.type || 'default'] *)
Definition getAdvancedCustomAuthMode (route : jsval) : jsval :=
  value_or (get_field (get_field route (js "auth")) (js "type")) (JStr (js "default")).

Definition buildAdvancedCustomAuth (mode : AdvancedCustomAuthMode) (previousAuth : jsval) : jsval :=
  match mode with
  | mode_default => JUndefined
  | mode_none => JObj [(js "type", JStr (js "none"))]
  | mode_header =>
      auth_object (JStr (js "header")) (value_or (get_field previousAuth (js "name")) (JStr (js "Authorization")))
        (value_or (get_field previousAuth (js "value")) (JStr (js "Bearer {api_key}")))
  | mode_query =>
      auth_object (JStr (js "query")) (value_or (get_field previousAuth (js "name")) (JStr (js "api_key")))
        (value_or (get_field previousAuth (js "value")) (JStr (js "{api_key}")))
  end.

(** The text of the error, when there is one. *)
Definition validateRouteAuth (auth : jsval) : outcome JsError (option str) :=
  if negb (value_truthy auth) then Ok None
  else if value_is_text (get_field auth (js "type")) (js "none") then Ok None
  else if negb (value_is_text (get_field auth (js "type")) (js "header")) && negb (value_is_text (get_field auth (js "type")) (js "query"))
  then Ok (Some (js "Auth type is invalid"))
  else
    let* name := trim_or_empty (get_field auth (js "name")) in
    match name with
    | [] => Ok (Some (js "Auth name is required"))
    | _ =>
        let* value := trim_or_empty (get_field auth (js "value")) in
        match value with
        | [] => Ok (Some (js "Auth value is required"))
        | _ => Ok None
        end
    end.

(** ** Validation *)

(** The entry of one incoming path. *)
Record PathRules := MkPathRules { pr_catchAllIndex : option nat; pr_models : list (str * nat) }.

(** The loop over the models of a route. *)
Fixpoint check_models (routeIndex : nat) (models seenInRoute : list str) (known : list (str * nat))
    : AdvancedCustomValidationError + list (str * nat) :=
  match models with
  | [] => inr known
  | model :: models =>
      if bool_decide (getAdvancedCustomModelRuleKind model = rule_regex) &&
         str_eqb (getAdvancedCustomRegexModelPattern model) []
      then inl (MkValidationError (js "Model regex cannot be empty") (Some routeIndex))
      else if includes_str seenInRoute model
      then inl (MkValidationError (js "Duplicate model in route models") (Some routeIndex))
      else
        match map_get known model with
        | Some _ => inl (MkValidationError (js "Route models must be unique for the same incoming path") (Some routeIndex))
        | None => check_models routeIndex models (seenInRoute ++ [model]) (map_set known model routeIndex)
        end
  end.

Definition validateAdvancedCustomRouteModels (routeIndex : nat) (incomingPath : str) (models : list str)
    (routeModelsByPath : list (str * PathRules)) : AdvancedCustomValidationError + list (str * PathRules) :=
  let state := default (MkPathRules None []) (map_get routeModelsByPath incomingPath) in
  match models, pr_catchAllIndex state with
  | [], Some _ =>
      inl (MkValidationError (js "Only one catch-all route is allowed for the same incoming path") (Some routeIndex))
  | [], None => inr (map_set routeModelsByPath incomingPath (MkPathRules (Some routeIndex) (pr_models state)))
  | _, Some _ =>
      inl (MkValidationError (js "Catch-all route must be last for the same incoming path") (Some routeIndex))
  | _, None =>
      match check_models routeIndex models [] (pr_models state) with
      | inl e => inl e
      | inr known => inr (map_set routeModelsByPath incomingPath (MkPathRules None known))
      end
  end.

(** What the loop over the routes carries. *)
Record ValidationState := MkValidationState {
  vs_routeModelsByPath : list (str * PathRules);
  vs_modelListRouteIndex : option nat;
  vs_balanceRouteIndex : option nat
}.

Section Validate.
Context `{URLHost}.

Definition isFullHttpURLOrAbsolutePath (value : str) : bool :=
  if starts_with (js "/") value then negb (starts_with (js "//") value)
  else
    match new_URL value None with
    | Some parsed =>
        negb (str_eqb (url_host parsed) []) &&
        (str_eqb (url_protocol parsed) (js "http:") || str_eqb (url_protocol parsed) (js "https:"))
    | None => false
    end.

(** The checks of a management path: the error, or the indices noted so far. *)
Definition check_management (index : nat) (incomingPath upstreamPath : str) (converter : jsval) (routeModels : list str)
    (state : ValidationState) : AdvancedCustomValidationError + ValidationState :=
  if negb (isAdvancedCustomManagementPath incomingPath) then inr state
  else
    let isModelListRoute := str_eqb incomingPath ADVANCED_CUSTOM_MODEL_LIST_PATH in
    let existingIndex := if isModelListRoute then vs_modelListRouteIndex state else vs_balanceRouteIndex state in
    let routeLabel := if isModelListRoute then js "OpenAI Models" else js "Balance Query" in
    let fail message := inl (MkValidationError message (Some index)) in
    match existingIndex with
    | Some _ => fail (js "Only one " ++ routeLabel ++ js " route is allowed")
    | None =>
        match routeModels with
        | _ :: _ => fail (routeLabel ++ js " route does not support client model rules")
        | [] =>
            if negb (value_is_text converter (js "none")) then fail (routeLabel ++ js " route must use native forwarding")
            else if contains upstreamPath (js "{model}")
            then fail (routeLabel ++ js " upstream path must not contain {model}")
            else
              inr (if isModelListRoute
                   then MkValidationState (vs_routeModelsByPath state) (Some index) (vs_balanceRouteIndex state)
                   else MkValidationState (vs_routeModelsByPath state) (vs_modelListRouteIndex state) (Some index))
        end
    end.

(** The text of a registered converter. *)
Definition converter_text (converter : jsval) : str := match converter with JStr s => s | _ => [] end.

Definition validate_route (index : nat) (route : jsval) (state : ValidationState)
    : outcome JsError (AdvancedCustomValidationError + ValidationState) :=
  let* incomingPath := trim_or_empty (get_field route (js "incoming_path")) in
  let* upstreamPath := getAdvancedCustomRouteUpstreamPath route in
  let converter := value_or (get_field route (js "converter")) (JStr (js "none")) in
  let* routeModels := normalizeAdvancedCustomRouteModels (get_field route (js "models")) in
  let fail message := Ok (inl (MkValidationError message (Some index))) in
  match incomingPath with
  | [] => fail (js "Incoming path is required")
  | _ =>
      if negb (starts_with (js "/") incomingPath) then fail (js "Incoming path must start with /")
      else if contains incomingPath (js "?") then fail (js "Incoming path must not include query")
      else
        match check_management index incomingPath upstreamPath converter routeModels state with
        | inl e => Ok (inl e)
        | inr state =>
            match validateAdvancedCustomRouteModels index incomingPath routeModels (vs_routeModelsByPath state) with
            | inl e => Ok (inl e)
            | inr rules =>
                if str_eqb upstreamPath [] then fail (js "Upstream path is required")
                else if negb (isFullHttpURLOrAbsolutePath upstreamPath)
                then fail (js "Upstream path must be a full URL or a path starting with /")
                else if negb (isAdvancedCustomConverter converter) then fail (js "Converter is not registered")
                else if negb (isConverterPathAllowed incomingPath (converter_text converter))
                then fail (js "Converter does not match incoming path")
                else
                  let* authError := validateRouteAuth (get_field route (js "auth")) in
                  match authError with
                  | Some message => fail message
                  | None => Ok (inr (MkValidationState rules (vs_modelListRouteIndex state) (vs_balanceRouteIndex state)))
                  end
            end
        end
  end.

Fixpoint validate_routes (index : nat) (routes : list jsval) (state : ValidationState)
    : outcome JsError (option AdvancedCustomValidationError) :=
  match routes with
  | [] => Ok None
  | route :: routes =>
      let* checked := validate_route index route state in
      match checked with
      | inl e => Ok (Some e)
      | inr state => validate_routes (S index) routes state
      end
  end.

Definition validateAdvancedCustomConfig (config : option jsval)
    : outcome JsError (option AdvancedCustomValidationError) :=
  match config with
  | None => Ok (Some (MkValidationError (js "Advanced custom configuration is required") None))
  | Some config =>
      if negb (value_truthy config) then Ok (Some (MkValidationError (js "Advanced custom configuration is required") None))
      else
        let* routes := normalized_routes config in
        match routes with
        | [] => Ok (Some (MkValidationError (js "Advanced custom configuration requires at least one route") None))
        | _ => validate_routes 0 routes (MkValidationState [] None None)
        end
  end.

(** ** Queries *)

(** [route.incoming_path?.trim() === path] *)
Definition routes_at (path : str) (route : jsval) : outcome JsError bool :=
  let incoming := get_field route (js "incoming_path") in
  if is_nullish incoming then Ok false else let* incoming := value_trim incoming in Ok (str_eqb incoming path).

Definition hasValidAdvancedCustomModelListRoute (config : option jsval) : outcome JsError bool :=
  match config with
  | None => Ok false
  | Some config =>
      let* error := validateAdvancedCustomConfig (Some config) in
      match error with
      | Some _ => Ok false
      | None =>
          let* routes := normalized_routes config in
          let* found := find_index_m (routes_at ADVANCED_CUSTOM_MODEL_LIST_PATH) routes in
          Ok (match found with Some _ => true | None => false end)
      end
  end.

Definition advancedCustomConfigUsesRelativeUpstreamPath (config : option jsval) : outcome JsError bool :=
  match config with
  | None => Ok false
  | Some config =>
      if negb (value_truthy config) then Ok false
      else
        let* routes := normalized_routes config in
        let* found := find_index_m (fun route =>
          let* upstream := getAdvancedCustomRouteUpstreamPath route in Ok (starts_with (js "/") upstream)) routes in
        Ok (match found with Some _ => true | None => false end)
  end.

(** A label of the summary: a text, or what the table inherits under the name. *)
Inductive SummaryLabel := SummaryText (s : str) | SummaryInherited (name : str).

#[export] Instance summary_label_eq_dec : EqDecision SummaryLabel.
Proof. solve_decision. Defined.

Definition getAdvancedCustomRouteSummaryLabel (route : jsval) : outcome JsError (option SummaryLabel) :=
  let* incomingPath := trim_or_empty (get_field route (js "incoming_path")) in
  Ok (match incomingPath with
      | [] => None
      | _ =>
          match assoc_str ADVANCED_CUSTOM_ROUTE_SUMMARY_LABELS incomingPath with
          | Some label => Some (SummaryText label)
          | None =>
              if includes_str object_prototype_keys incomingPath then Some (SummaryInherited incomingPath)
              else Some (SummaryText (getAdvancedCustomIncomingPathLabel incomingPath))
          end
      end).

Record AdvancedCustomStats := MkStats { as_routeCount : nat; as_valid : bool; as_routeTypeLabels : list SummaryLabel }.

Definition getAdvancedCustomStats (value : option str) : outcome JsError AdvancedCustomStats :=
  match parseAdvancedCustomConfig value with
  | None => Ok (MkStats 0 false [])
  | Some config =>
      let* routes := normalized_routes config in
      let* labels := omap_list getAdvancedCustomRouteSummaryLabel routes in
      let* error := validateAdvancedCustomConfig (Some (config_of routes)) in
      Ok (MkStats (length routes) (match error with None => true | Some _ => false end) (set_from (omap id labels)))
  end.

(** ** Edits *)

Definition getAdvancedCustomManagementRoute (config : jsval) (path : str) : outcome JsError (option jsval) :=
  let* routes := normalized_routes config in
  let* found := find_index_m (routes_at path) routes in
  Ok (snd <$> found).

(** [route]: [None] removes the route of the path. *)
Definition replaceAdvancedCustomManagementRoute (config : jsval) (path : str) (route : option jsval)
    : outcome JsError jsval :=
  let* routes := normalized_routes config in
  let* found := find_index_m (routes_at path) routes in
  match route with
  | None =>
      Ok (config_of (match found with Some (index, _) => take index routes ++ drop (S index) routes | None => routes end))
  | Some route =>
      let managementRoute :=
        JObj [(js "incoming_path", JStr path); (js "upstream_path", value_or (get_field route (js "upstream_path")) (JStr []));
              (js "converter", JStr (js "none")); (js "models", JArr []); (js "auth", get_field route (js "auth"))] in
      Ok (config_of (match found with
                     | Some (index, _) => <[index := managementRoute]> routes
                     | None => routes ++ [managementRoute]
                     end))
  end.

(** [isAdvancedCustomManagementPath(route.incoming_path?.trim() || '')] *)
Definition is_management_route (route : jsval) : outcome JsError bool :=
  let* incoming := trim_or_empty (get_field route (js "incoming_path")) in Ok (isAdvancedCustomManagementPath incoming).

Definition is_forwarding_route (route : jsval) : outcome JsError bool :=
  let* management := is_management_route route in Ok (negb management).

Definition replaceAdvancedCustomForwardingRoutes (config : jsval) (forwardingRoutes : list jsval) : outcome JsError jsval :=
  let* routes := normalized_routes config in
  let* found := find_index_m is_forwarding_route routes in
  let* managementRoutes := filter_m is_management_route routes in
  match found with
  | None => Ok (config_of (managementRoutes ++ forwardingRoutes))
  | Some (firstForwardingIndex, _) =>
      let* before := filter_m is_management_route (take firstForwardingIndex routes) in
      let* after := filter_m is_management_route (drop firstForwardingIndex routes) in
      Ok (config_of (before ++ forwardingRoutes ++ after))
  end.
End Validate.
