(* ===== verification/AdvancedCustomFacts.v ===== *)
(** * Custom channel routes: validation, normalisation and edits

    The validation loop accepts exactly the configurations described by
    [config_accepted]; normalisation is idempotent, so a printed
    configuration is read back; and the edits of the management routes keep a
    valid configuration valid. *)

From Stdlib Require Import ZArith Lia Bool SpecFloat.
From stdpp Require Import base list numbers.
From S2P Require Import Prelude JsString JsNumber JsObject JsMap JsValue JsJson JsJsonPrint JsDynamic JsURL AdvancedCustom.

(** ** Normalisation is idempotent *)

Lemma value_or_idem v d : value_or (value_or v d) d = value_or v d.
Proof. unfold value_or. destruct (value_truthy v) eqn:E; [by rewrite E|]. by destruct (value_truthy d). Qed.

Lemma value_trim_idem v s : value_trim v = Ok s -> value_trim (JStr s) = Ok s.
Proof. destruct v; try done. cbn. intros [= <-]. by rewrite trim_idemp. Qed.

Lemma models_trimmed models l : normalizeAdvancedCustomRouteModels models = Ok l ->
  Forall (fun m => trim m = m /\ m <> []) l.
Proof.
  unfold normalizeAdvancedCustomRouteModels. destruct models as [| | | | |items|]; try (intros [= <-]; constructor).
  intros E. inv_bind. apply Forall_forall. intros m [Hm Nm]%filter_In. apply negb_true_iff, str_eqb_neq in Nm.
  split; [|done]. apply omap_list_Forall2 in E0. apply list_elem_of_In, list_elem_of_lookup in Hm as [i Hi].
  destruct (Forall2_lookup_r _ _ _ _ _ E0 Hi) as (v & _ & Hv). destruct v; try done. injection Hv as <-. apply trim_idemp.
Qed.

Lemma normal_models l : Forall (fun m => trim m = m /\ m <> []) l ->
  normalizeAdvancedCustomRouteModels (JArr (map JStr l)) = Ok l.
Proof.
  intros F. unfold normalizeAdvancedCustomRouteModels.
  assert (omap_list value_trim (map JStr l) = Ok l) as ->.
  { apply omap_list_Forall2. induction F as [|m l [T _] F IH]; constructor; [|done]. cbn. by rewrite T. }
  cbn [obind]. f_equal. induction F as [|m l [_ N] F IH]; [done|]. cbn [List.filter].
  apply str_eqb_neq in N. by rewrite N, IH.
Qed.

(** The fields of a normalised route. *)
Lemma normalize_route_fields r r' : normalizeAdvancedCustomRoute r = Ok r' ->
  exists incoming upstream converter models auth,
    r' = JObj ([(js "incoming_path", incoming); (js "upstream_path", JStr upstream); (js "converter", converter)] ++
           match models with [] => [] | _ => [(js "models", JArr (map JStr models))] end ++
           match auth with None => [] | Some (t, n, v) => [(js "auth", auth_object t n v)] end) /\
    value_or incoming (JStr []) = incoming /\ trim upstream = upstream /\
    value_or converter (JStr (js "none")) = converter /\ Forall (fun m => trim m = m /\ m <> []) models /\
    match auth with None => True | Some (t, n, v) => value_or n (JStr []) = n /\ value_or v (JStr []) = v end.
Proof.
  unfold normalizeAdvancedCustomRoute. intros E. inv_bind.
  unfold getAdvancedCustomRouteUpstreamPath in E1. inv_bind.
  eexists _, a0, _, a1, (if value_truthy (get_field r (js "auth")) then Some (_, _, _) else None).
  split; [f_equal; do 2 f_equal; by destruct (value_truthy _)|].
  split; [apply value_or_idem|]. split.
  { apply value_trim_idem in E1. cbn in E1. by injection E1. }
  split; [apply value_or_idem|]. split; [by eapply models_trimmed|].
  destruct (value_truthy _); [|done]. split; apply value_or_idem.
Qed.

Lemma normalize_route_idem r r' : normalizeAdvancedCustomRoute r = Ok r' -> normalizeAdvancedCustomRoute r' = Ok r'.
Proof.
  intros (incoming & upstream & converter & models & auth & -> & I & U & C & M & A)%normalize_route_fields.
  unfold normalizeAdvancedCustomRoute, getAdvancedCustomRouteUpstreamPath.
  clear r. set (r := JObj _).
  assert (get_field r (js "incoming_path") = incoming /\ get_field r (js "upstream_path") = JStr upstream /\
    get_field r (js "converter") = converter /\
    get_field r (js "models") = (match models with [] => JUndefined | _ => JArr (map JStr models) end) /\
    get_field r (js "auth") = match auth with None => JUndefined | Some (t, n, v) => auth_object t n v end)
    as (E1 & E2 & E3 & E4 & E5).
  { unfold r. repeat split; by destruct models, auth as [[[t n] v]|]. }
  unfold value_prop. change (is_nullish r) with false. cbv iota. rewrite E1, E2, E3, E4, E5. cbn [obind].
  assert (value_trim (value_or (JStr upstream) (JStr [])) = Ok upstream) as ->.
  { destruct upstream; [done|]. cbn [value_or value_truthy value_trim]. by rewrite U. }
  cbn [obind]. assert (normalizeAdvancedCustomRouteModels
    (match models with [] => JUndefined | _ => JArr (map JStr models) end) = Ok models) as ->.
  { destruct models; [done|]. by apply normal_models. }
  cbn [obind]. rewrite I, C. unfold r. destruct auth as [[[t n] v]|]; [|done].
  destruct A as [An Av].
  change (get_field (auth_object t n v) (js "type")) with t.
  change (get_field (auth_object t n v) (js "name")) with n.
  change (get_field (auth_object t n v) (js "value")) with v. by rewrite An, Av.
Qed.

Lemma normalized_idem routes routes' : omap_list normalizeAdvancedCustomRoute routes = Ok routes' ->
  omap_list normalizeAdvancedCustomRoute routes' = Ok routes'.
Proof.
  rewrite !omap_list_Forall2. induction 1 as [|r r' routes routes' E H IH]; constructor; [|done].
  by eapply normalize_route_idem.
Qed.

Lemma omap_fixed {E A} (f : A -> outcome E A) l : omap_list f l = Ok l <-> Forall (fun x => f x = Ok x) l.
Proof.
  induction l as [|x l IH]; cbn [omap_list]; [by split|]. split.
  - destruct (f x) as [y| |] eqn:Ef; [|done|done]. cbn [obind]. destruct (omap_list f l) as [ys| |]; [|done|done].
    intros [= -> ->]. constructor; [done|]. by apply IH.
  - intros F. pose proof (Forall_inv F) as ->. apply Forall_inv_tail, IH in F. cbn [obind]. by rewrite F.
Qed.

Definition normal_route (r : jsval) : Prop := normalizeAdvancedCustomRoute r = Ok r.

Lemma normalized_routes_normal config routes : normalized_routes config = Ok routes -> Forall normal_route routes.
Proof.
  unfold normalized_routes. intros E. inv_bind. destruct a as [| | | | |items|]; try (injection E as <-; constructor).
  by apply omap_fixed, (normalized_idem items).
Qed.

Lemma normalized_config routes : Forall normal_route routes -> normalized_routes (config_of routes) = Ok routes.
Proof.
  intros F. change (normalized_routes (config_of routes)) with (omap_list normalizeAdvancedCustomRoute routes).
  by apply omap_fixed.
Qed.

(** ** The texts of a configuration *)

(** What the reader checks before it normalises. *)
Lemma print_config_head gap config fields t : config = JObj fields -> json_print gap [] config = Some t ->
  exists t', t = 123%N :: t'.
Proof.
  intros -> [= <-]. unfold json_block. set (parts := List.concat _). destruct parts, gap; by eexists.
Qed.

Lemma trim_head c t : is_space c = false -> trim (c :: t) <> [].
Proof.
  intros S. unfold trim, trim_start, trim_end. cbn [drop_while]. rewrite S. rewrite reverse_cons.
  assert (forall (l : str), drop_while is_space (l ++ [c]) <> []) as D.
  { intros l. induction l as [|d l IH]; cbn; [by rewrite S|]. by destruct (is_space d). }
  intros E. apply (f_equal reverse) in E. rewrite reverse_involutive in E. by apply (D (reverse t)).
Qed.

Lemma normal_config_kept routes : Forall normal_route routes -> normalizeAdvancedCustomConfig (config_of routes) = Ok (config_of routes).
Proof. intros N. unfold normalizeAdvancedCustomConfig. by rewrite (normalized_config routes N). Qed.

Lemma printed_config_read routes : Forall normal_route routes -> textual (config_of routes) = true ->
  parseAdvancedCustomConfig (Some (default [] (json_print (js "  ") [] (config_of routes)))) = Some (config_of routes).
Proof.
  intros N T. destruct (print_spelled (js "  ") (config_of routes) eq_refl T []) as (t & P & _); [done|]. rewrite P. change (default [] (Some t)) with t.
  pose proof (json_parse_print (js "  ") (config_of routes) t eq_refl T P) as J.
  destruct (print_config_head _ _ _ t eq_refl P) as (t' & ->).
  unfold parseAdvancedCustomConfig. destruct (trim (123%N :: t')) eqn:Tr; [by destruct (trim_head 123 t')|].
  rewrite J. pose proof (normal_config_kept routes N) as K. unfold config_of in *. by rewrite K.
Qed.

(** A configuration that was parsed prints as a text that parses to it. *)
Lemma parsed_config_reprints s config : parseAdvancedCustomConfig (Some s) = Some config -> textual config = true ->
  value_truthy config = true /\ exists t, stringifyAdvancedCustomConfig config = Ok t /\ parseAdvancedCustomConfig (Some t) = Some config.
Proof.
  intros P T. unfold parseAdvancedCustomConfig in P. destruct (trim s); [done|]. destruct (json_parse s) as [[]| |]; try done.
  unfold normalizeAdvancedCustomConfig in P. destruct (normalized_routes _) as [routes| |] eqn:R; [|done|done].
  injection P as <-. pose proof (normalized_routes_normal _ _ R) as N. split; [done|].
  unfold stringifyAdvancedCustomConfig. rewrite (normal_config_kept routes N). cbn [obind]. eexists. split; [reflexivity|].
  by apply printed_config_read.
Qed.

(** C12: a printed configuration is read back: whatever JSON value a
    configuration is, when it can be normalised and what remains is text (no
    numbers, no missing authentication type), parsing what
    [stringifyAdvancedCustomConfig] writes gives exactly the normalised
    configuration, which normalising again would not change. *)
Theorem custom_config_roundtrip config normalized :
  normalizeAdvancedCustomConfig config = Ok normalized -> textual normalized = true ->
  exists text, stringifyAdvancedCustomConfig config = Ok text /\
    parseAdvancedCustomConfig (Some text) = Some normalized /\
    normalizeAdvancedCustomConfig normalized = Ok normalized.
Proof.
  unfold stringifyAdvancedCustomConfig. intros E T. rewrite E. cbn [obind]. eexists. split; [reflexivity|].
  unfold normalizeAdvancedCustomConfig in E. destruct (normalized_routes config) as [routes| |] eqn:R; [|done|done].
  injection E as <-. pose proof (normalized_routes_normal _ _ R) as N.
  split; [by apply printed_config_read | by apply normal_config_kept].
Qed.

Definition sample_routes : jsval :=
  config_of [JObj [(js "incoming_path", JStr (js "/v1/responses ")); (js "upstream_path", JStr (js " /chat "));
                   (js "converter", JStr responses_to_chat); (js "models", JArr [JStr (js " gpt "); JStr []; JStr (js "re:^o")]);
                   (js "auth", JObj [(js "type", JStr (js "none")); (js "extra", JNull)]); (js "note", JNum (lit 3))];
             createAdvancedCustomManagementRoute ADVANCED_CUSTOM_MODEL_LIST_PATH].

Definition sample_normalized : jsval :=
  config_of [JObj [(js "incoming_path", JStr (js "/v1/responses ")); (js "upstream_path", JStr (js "/chat"));
                   (js "converter", JStr responses_to_chat); (js "models", JArr [JStr (js "gpt"); JStr (js "re:^o")]);
                   (js "auth", auth_object (JStr (js "none")) (JStr []) (JStr []))];
             JObj [(js "incoming_path", JStr (js "/v1/models")); (js "upstream_path", JStr (js "/v1/models"));
                   (js "converter", JStr (js "none"))]].

Lemma custom_config_roundtrip_witness :
  exists text, stringifyAdvancedCustomConfig sample_routes = Ok text /\
    parseAdvancedCustomConfig (Some text) = Some sample_normalized /\
    normalizeAdvancedCustomConfig sample_normalized = Ok sample_normalized.
Proof. apply custom_config_roundtrip; vm_compute; reflexivity. Defined.

(** ** Validation *)

(** What the validation looks at. *)
Record RouteView := MkRouteView {
  rv_path : str;
  rv_upstream : str;
  rv_converter : jsval;
  rv_models : list str;
  rv_auth : jsval
}.

Definition route_view (route : jsval) : outcome JsError RouteView :=
  let* path := trim_or_empty (get_field route (js "incoming_path")) in
  let* upstream := getAdvancedCustomRouteUpstreamPath route in
  let* models := normalizeAdvancedCustomRouteModels (get_field route (js "models")) in
  Ok (MkRouteView path upstream (value_or (get_field route (js "converter")) (JStr (js "none"))) models
        (get_field route (js "auth"))).

Definition empty_regex (model : str) : bool := str_eqb model ADVANCED_CUSTOM_MODEL_REGEX_PREFIX.

(** No authentication, or one with a name and a value that are not blank. *)
Definition auth_accepted (auth : jsval) : Prop :=
  value_truthy auth = false \/ get_field auth (js "type") = JStr (js "none") \/
  (get_field auth (js "type") = JStr (js "header") \/ get_field auth (js "type") = JStr (js "query")) /\
  (exists name, get_field auth (js "name") = JStr name /\ trim name <> []) /\
  (exists value, get_field auth (js "value") = JStr value /\ trim value <> []).

Section Validation.
Context `{URLHost}.

Record route_accepted (v : RouteView) : Prop := {
  ra_rooted : starts_with (js "/") (rv_path v) = true;
  ra_plain : contains (rv_path v) (js "?") = false;
  ra_management : isAdvancedCustomManagementPath (rv_path v) = true ->
    rv_models v = [] /\ rv_converter v = JStr (js "none") /\ contains (rv_upstream v) (js "{model}") = false;
  ra_models : NoDup (rv_models v) /\ Forall (fun m => empty_regex m = false) (rv_models v);
  ra_upstream : rv_upstream v <> [] /\ isFullHttpURLOrAbsolutePath (rv_upstream v) = true;
  ra_converter : exists c, rv_converter v = JStr c /\ c ∈ map co_value ADVANCED_CUSTOM_CONVERTER_OPTIONS /\
    isConverterPathAllowed (rv_path v) c = true;
  ra_auth : auth_accepted (rv_auth v)
}.

(** A route may follow another of the same path only if that one is no
    catch-all, and if they share no model. *)
Definition may_follow (u v : RouteView) : Prop :=
  rv_path u = rv_path v -> rv_models u <> [] /\ forall m, m ∈ rv_models u -> m ∉ rv_models v.

Definition accepted (views : list RouteView) : Prop :=
  Forall route_accepted views /\ ForallOrdPairs may_follow views.

Definition config_accepted (config : jsval) : Prop :=
  exists routes views, normalized_routes config = Ok routes /\ routes <> [] /\
    omap_list route_view routes = Ok views /\ accepted views.

(** *** The model rules *)

Lemma empty_regex_spec m :
  bool_decide (getAdvancedCustomModelRuleKind m = rule_regex) && str_eqb (getAdvancedCustomRegexModelPattern m) [] = empty_regex m.
Proof.
  unfold getAdvancedCustomModelRuleKind, getAdvancedCustomRegexModelPattern, empty_regex, ADVANCED_CUSTOM_MODEL_REGEX_PREFIX.
  destruct (starts_with (js "re:") m) eqn:E.
  - apply starts_with_app in E as (r & ->). rewrite bool_decide_eq_true_2 by done.
    change (js_slice_from (js "re:" ++ r) (Z.of_nat (length (js "re:")))) with (drop 3 (js "re:" ++ r)).
    change (drop 3 (js "re:" ++ r)) with r. destruct r; [done|]. cbn [andb].
    symmetry. apply str_eqb_neq. intros E. by apply (f_equal length) in E.
  - rewrite bool_decide_eq_false_2 by done. symmetry. apply str_eqb_neq. intros ->. done.
Qed.

Definition known_model (known : list (str * nat)) (m : str) : Prop := is_Some (map_get known m).

Definition models_fresh (models seen : list str) (known : list (str * nat)) : Prop :=
  NoDup models /\ forall m, m ∈ models -> empty_regex m = false /\ m ∉ seen /\ ~ known_model known m.

Lemma known_set known m i m' : known_model (map_set known m i) m' <-> m = m' \/ known_model known m'.
Proof.
  unfold known_model. rewrite map_get_set. destruct (bool_decide (m = m')) eqn:B; split_andb; [subst|].
  - split; [by left|eauto].
  - split; [by right|by intros [?|?]].
Qed.

Lemma check_models_spec i models : forall seen known,
  match check_models i models seen known with
  | inr known' => models_fresh models seen known /\ forall m, known_model known' m <-> known_model known m \/ m ∈ models
  | inl e => ve_routeIndex e = Some i /\ ~ models_fresh models seen known
  end.
Proof.
  induction models as [|m models IH]; intros seen known; cbn [check_models].
  { split; [|intros m; rewrite elem_of_nil; tauto]. split; [constructor|]. by intros m ?%elem_of_nil. }
  rewrite empty_regex_spec. destruct (empty_regex m) eqn:Er.
  { split; [done|]. intros [_ F]. destruct (F m) as [Er' _]; [apply list_elem_of_here|congruence]. }
  destruct (includes_str seen m) eqn:S.
  { split; [done|]. intros [_ F]. destruct (F m) as (_ & N & _); [apply list_elem_of_here|]. by apply includes_str_elem in S. }
  destruct (map_get known m) eqn:K.
  { split; [done|]. intros [_ F]. destruct (F m) as (_ & _ & N); [apply list_elem_of_here|]. apply N. by eexists. }
  specialize (IH (seen ++ [m]) (map_set known m i)).
  assert (models_fresh (m :: models) seen known <-> models_fresh models (seen ++ [m]) (map_set known m i)) as E.
  { assert (m ∉ seen) as Ns by (intros Hs%includes_str_elem; congruence).
    assert (~ known_model known m) as Nk by (intros [? Hk]; congruence).
    unfold models_fresh. rewrite list.NoDup_cons. setoid_rewrite elem_of_cons. setoid_rewrite elem_of_app.
    setoid_rewrite known_set. setoid_rewrite list_elem_of_singleton. split.
    - intros [[Nm ND] F]. split; [done|]. intros m' Hm'. destruct (F m' (or_intror Hm')) as (? & ? & ?).
      split; [done|]. split; intros [?|?]; subst; done.
    - intros [ND F]. split; [split; [|done]|].
      + intros Hm. destruct (F m Hm) as (_ & N & _). apply N. by right.
      + intros m' [->|Hm']; [done|]. destruct (F m' Hm') as (? & N & K'). split; [done|]. split; [tauto|tauto]. }
  destruct (check_models i models (seen ++ [m]) (map_set known m i)) as [e|known'].
  - destruct IH as [I N]. split; [done|]. by rewrite E.
  - destruct IH as [F I]. split; [by rewrite E|]. intros m'. rewrite I, known_set, elem_of_cons. intuition congruence.
Qed.

(** *** The state of the loop *)

Definition rules_at (rules : list (str * PathRules)) (path : str) : PathRules :=
  default (MkPathRules None []) (map_get rules path).

Lemma rules_at_set rules p r p' : rules_at (map_set rules p r) p' = if bool_decide (p = p') then r else rules_at rules p'.
Proof. unfold rules_at. rewrite map_get_set. by destruct (bool_decide (p = p')). Qed.

(** The rules of each path are those of the routes seen so far. *)
Definition rules_tracked (rules : list (str * PathRules)) (views : list RouteView) : Prop :=
  forall p,
    (is_Some (pr_catchAllIndex (rules_at rules p)) <-> exists v, v ∈ views /\ rv_path v = p /\ rv_models v = []) /\
    (forall m, known_model (pr_models (rules_at rules p)) m <-> exists v, v ∈ views /\ rv_path v = p /\ m ∈ rv_models v).

Lemma rules_tracked_nil : rules_tracked [] [].
Proof.
  intros p. split.
  - split; [by intros [? ?]|]. by intros (v & ?%elem_of_nil & _).
  - intros m. split; [by intros [? ?]|]. by intros (v & ?%elem_of_nil & _).
Qed.

Definition models_accepted (v : RouteView) : Prop :=
  NoDup (rv_models v) /\ Forall (fun m => empty_regex m = false) (rv_models v).

Definition follows_all (views : list RouteView) (v : RouteView) : Prop := Forall (fun u => may_follow u v) views.

(** One more route with its path's rules. *)
Lemma tracked_add rules views v r : rules_tracked rules views ->
  (is_Some (pr_catchAllIndex r) <-> is_Some (pr_catchAllIndex (rules_at rules (rv_path v))) \/ rv_models v = []) ->
  (forall m, known_model (pr_models r) m <-> known_model (pr_models (rules_at rules (rv_path v))) m \/ m ∈ rv_models v) ->
  rules_tracked (map_set rules (rv_path v) r) (views ++ [v]).
Proof.
  intros T C M p. rewrite rules_at_set. destruct (T p) as [TC TM]. setoid_rewrite elem_of_app.
  setoid_rewrite list_elem_of_singleton. destruct (bool_decide (rv_path v = p)) eqn:B; split_andb.
  - subst p. split.
    + rewrite C, TC. split; [intros [(u & Hu & Eu)|E]; eauto|]. intros (u & [Hu| ->] & Ep & Em); [eauto|by right].
    + intros m. rewrite M, TM. split; [intros [(u & Hu & Eu)|E]; eauto|].
      intros (u & [Hu| ->] & Ep & Em); [eauto|by right].
  - split.
    + rewrite TC. split; [intros (u & Hu & Eu); eauto|]. intros (u & [Hu| ->] & Ep & Em); [eauto|done].
    + intros m. rewrite TM. split; [intros (u & Hu & Eu); eauto|]. intros (u & [Hu| ->] & Ep & Em); [eauto|done].
Qed.

(** The conflicts with earlier routes, read off the state. *)
Lemma follows_tracked rules views v : rules_tracked rules views ->
  follows_all views v <->
  ~ is_Some (pr_catchAllIndex (rules_at rules (rv_path v))) /\
  (forall m, m ∈ rv_models v -> ~ known_model (pr_models (rules_at rules (rv_path v))) m).
Proof.
  intros T. destruct (T (rv_path v)) as [TC TM]. unfold follows_all, may_follow. rewrite TC. setoid_rewrite TM. split.
  - intros F. split.
    + intros (u & Hu & Ep & Em). apply list_elem_of_In in Hu. pose proof (proj1 (Forall_forall _ _) F u Hu Ep) as [N _]. done.
    + intros m Hm (u & Hu & Ep & Hmu). apply list_elem_of_In in Hu.
      pose proof (proj1 (Forall_forall _ _) F u Hu Ep) as [_ D]. by apply (D m).
  - intros [C M]. apply Forall_forall. intros u Hu%list_elem_of_In Ep. split.
    + intros Em. apply C. eauto.
    + intros m Hm Hv. apply (M m Hv). eauto.
Qed.

Lemma route_models_spec i rules views v : rules_tracked rules views ->
  match validateAdvancedCustomRouteModels i (rv_path v) (rv_models v) rules with
  | inr rules' => models_accepted v /\ follows_all views v /\ rules_tracked rules' (views ++ [v])
  | inl e => ve_routeIndex e = Some i /\ ~ (models_accepted v /\ follows_all views v)
  end.
Proof.
  intros T. pose proof (follows_tracked rules views v T) as FT. unfold validateAdvancedCustomRouteModels.
  change (default (MkPathRules None []) (map_get rules (rv_path v))) with (rules_at rules (rv_path v)).
  pose proof (tracked_add rules views v) as ADD. unfold models_accepted.
  destruct (rules_at rules (rv_path v)) as [catch known] eqn:R. cbn [pr_catchAllIndex pr_models] in *.
  destruct (rv_models v) as [|m models] eqn:M; destruct catch as [c|].
  - split; [done|]. intros [_ F]. apply FT in F as [N _]. apply N. by eexists.
  - split; [split; constructor|]. split.
    + apply FT. split; [by intros [? ?]|]. by intros m ?%elem_of_nil.
    + apply ADD; [done| |]; cbn; [split; [by right|by eexists]|]. intros m. rewrite elem_of_nil. tauto.
  - split; [done|]. intros [_ F]. apply FT in F as [N _]. apply N. by eexists.
  - pose proof (check_models_spec i (m :: models) [] known) as C.
    assert (models_fresh (m :: models) [] known <->
      (NoDup (m :: models) /\ Forall (fun m => empty_regex m = false) (m :: models)) /\ follows_all views v) as E.
    { rewrite FT. unfold models_fresh. rewrite Forall_forall. setoid_rewrite <- list_elem_of_In.
      setoid_rewrite elem_of_nil. split.
      - intros [N F]. split; [split; [done|]; intros x Hx; by apply F|]. split; [by intros [? ?]|]. intros x Hx. by apply F.
      - intros [[N Er] [_ K]]. split; [done|]. intros x Hx. split; [by apply Er|]. split; [tauto|by apply K]. }
    destruct (check_models i (m :: models) [] known) as [e|known'].
    + destruct C as [Ci Cn]. split; [done|]. by rewrite <- E.
    + destruct C as [Cf Ck]. apply E in Cf as [Cm Cf]. split; [done|]. split; [done|].
      apply ADD; [done| |]; cbn [pr_catchAllIndex pr_models]; [|done].
      split; [by intros [? ?]|]. by intros [[? ?]|?].
Qed.

(** *** The other checks *)

Definition seen_path (views : list RouteView) (path : str) : Prop := exists v, v ∈ views /\ rv_path v = path.

Record state_tracked (st : ValidationState) (views : list RouteView) : Prop := {
  st_rules : rules_tracked (vs_routeModelsByPath st) views;
  st_list : is_Some (vs_modelListRouteIndex st) <-> seen_path views ADVANCED_CUSTOM_MODEL_LIST_PATH;
  st_balance : is_Some (vs_balanceRouteIndex st) <-> seen_path views ADVANCED_CUSTOM_BALANCE_PATH
}.

Lemma seen_path_add views v p : seen_path (views ++ [v]) p <-> seen_path views p \/ rv_path v = p.
Proof.
  unfold seen_path. setoid_rewrite elem_of_app. setoid_rewrite list_elem_of_singleton. split.
  - intros (u & [Hu| ->] & E); [left; eauto|by right].
  - intros [(u & Hu & E)|E]; eauto.
Qed.

Definition management_accepted (v : RouteView) : Prop :=
  isAdvancedCustomManagementPath (rv_path v) = true ->
  rv_models v = [] /\ rv_converter v = JStr (js "none") /\ contains (rv_upstream v) (js "{model}") = false.

(** The indices after the route, and the rules as they were. *)
Definition management_noted (st st' : ValidationState) (v : RouteView) : Prop :=
  vs_routeModelsByPath st' = vs_routeModelsByPath st /\
  (is_Some (vs_modelListRouteIndex st') <-> is_Some (vs_modelListRouteIndex st) \/ rv_path v = ADVANCED_CUSTOM_MODEL_LIST_PATH) /\
  (is_Some (vs_balanceRouteIndex st') <-> is_Some (vs_balanceRouteIndex st) \/ rv_path v = ADVANCED_CUSTOM_BALANCE_PATH).

Lemma management_paths_differ : ADVANCED_CUSTOM_MODEL_LIST_PATH <> ADVANCED_CUSTOM_BALANCE_PATH.
Proof. done. Qed.

Lemma check_management_spec i st views v : state_tracked st views -> Forall route_accepted views ->
  match check_management i (rv_path v) (rv_upstream v) (rv_converter v) (rv_models v) st with
  | inr st' => management_accepted v /\ management_noted st st' v
  | inl e => ve_routeIndex e = Some i /\ ~ (management_accepted v /\ follows_all views v)
  end.
Proof.
  intros [TR TL TB] A. unfold check_management, management_accepted.
  destruct (isAdvancedCustomManagementPath (rv_path v)) eqn:P; cbn [negb].
  2: { unfold isAdvancedCustomManagementPath in P. apply orb_false_iff in P as [P1 P2].
       apply str_eqb_neq in P1, P2. split; [done|]. split; [done|]. split; tauto. }
  assert (seen_path views (rv_path v) -> rv_models v = [] -> ~ follows_all views v) as Dup.
  { intros (u & Hu & E) _ F. apply list_elem_of_In in Hu. pose proof (proj1 (Forall_forall _ _) F u Hu E) as [N _].
    apply N, (ra_management u (proj1 (Forall_forall _ _) A u Hu)). by rewrite E. }
  unfold isAdvancedCustomManagementPath in P. apply orb_true_iff in P. rewrite !str_eqb_eq in P.
  destruct (str_eqb (rv_path v) ADVANCED_CUSTOM_MODEL_LIST_PATH) eqn:L;
    [apply str_eqb_eq in L|apply str_eqb_neq in L; destruct P as [P|P]; [done|]].
  - destruct (vs_modelListRouteIndex st) as [j|] eqn:J.
    { split; [done|]. intros [M F]. revert F. apply Dup; [rewrite L; apply TL; by eexists|by apply M]. }
    destruct (rv_models v); [|split; [done|]; intros [M _]; by destruct (M eq_refl)].
    destruct (value_is_text (rv_converter v) (js "none")) eqn:C; cbn [negb];
      [apply value_is_text_eq in C|split; [done|]; intros [M _]; destruct (M eq_refl) as (_ & Mc & _); by apply value_is_text_eq in Mc; rewrite Mc in C].
    destruct (contains (rv_upstream v) (js "{model}")) eqn:U; [split; [done|]; intros [M _]; by destruct (M eq_refl) as (_ & _ & ?)|].
    split; [done|]. split; [done|]. cbn. split; [split; [by right|by eexists]|]. rewrite L.
    split; [by left|]. intros [?|E]; [done|]. by destruct management_paths_differ.
  - destruct (vs_balanceRouteIndex st) as [j|] eqn:J.
    { split; [done|]. intros [M F]. revert F. apply Dup; [rewrite P; apply TB; by eexists|by apply M]. }
    destruct (rv_models v); [|split; [done|]; intros [M _]; by destruct (M eq_refl)].
    destruct (value_is_text (rv_converter v) (js "none")) eqn:C; cbn [negb];
      [apply value_is_text_eq in C|split; [done|]; intros [M _]; destruct (M eq_refl) as (_ & Mc & _); by apply value_is_text_eq in Mc; rewrite Mc in C].
    destruct (contains (rv_upstream v) (js "{model}")) eqn:U; [split; [done|]; intros [M _]; by destruct (M eq_refl) as (_ & _ & ?)|].
    split; [done|]. split; [done|]. cbn. split; [|split; [by right|by eexists]].
    split; [by left|]. by intros [?|?].
Qed.

Lemma route_auth_spec auth :
  match validateRouteAuth auth with
  | Ok None => auth_accepted auth
  | Ok (Some _) | Throw _ => ~ auth_accepted auth
  | OutOfFuel => False
  end.
Proof.
  unfold validateRouteAuth, auth_accepted. destruct (value_truthy auth); cbn [negb]; [|by left].
  destruct (value_is_text (get_field auth (js "type")) (js "none")) eqn:T0; [right; left; by apply value_is_text_eq|].
  assert (get_field auth (js "type") <> JStr (js "none")) as N0 by (intros E; rewrite E in T0; done).
  destruct (value_is_text (get_field auth (js "type")) (js "header") || value_is_text (get_field auth (js "type")) (js "query")) eqn:T1.
  2: { rewrite <- negb_orb, T1. cbn [negb]. apply orb_false_iff in T1 as [T1 T2].
       intros [?|[?|[[E|E] _]]]; [done|done|rewrite E in T1; done|rewrite E in T2; done]. }
  rewrite <- negb_orb, T1. cbn [negb]. apply orb_true_iff in T1. rewrite !value_is_text_eq in T1.
  unfold trim_or_empty. destruct (get_field auth (js "name")) as [| | | |name| |] eqn:En; cbn;
    try (intros [?|[?|(_ & (x & E & Nx) & _)]]; done).
  destruct (trim name) eqn:Tn; [intros [?|[?|(_ & (x & E & Nx) & _)]]; [done..|congruence]|].
  destruct (get_field auth (js "value")) as [| | | |value| |] eqn:Ev; cbn;
    try (intros [?|[?|(_ & _ & (x & E & Nx))]]; done).
  destruct (trim value) eqn:Tv; [intros [?|[?|(_ & _ & (x & E & Nx))]]; [done..|congruence]|].
  right. right. split; [done|]. split; eexists; (split; [done|]); congruence.
Qed.

Lemma converter_spec path converter :
  isAdvancedCustomConverter converter && isConverterPathAllowed path (converter_text converter) = true <->
  exists c, converter = JStr c /\ c ∈ map co_value ADVANCED_CUSTOM_CONVERTER_OPTIONS /\ isConverterPathAllowed path c = true.
Proof.
  rewrite andb_true_iff. unfold isAdvancedCustomConverter. rewrite existsb_exists. split.
  - intros [(o & Ho & E) A]. apply value_is_text_eq in E as ->. exists (co_value o). split; [done|]. split; [|done].
    apply list_elem_of_In. by apply in_map.
  - intros (c & -> & Hc & A). split; [|done]. apply list_elem_of_In, in_map_iff in Hc as (o & <- & Ho).
    exists o. split; [done|]. by apply value_is_text_eq.
Qed.

(** *** A route *)

(** The checks of a route that could be looked at. *)
Definition validate_view (index : nat) (v : RouteView) (state : ValidationState)
    : outcome JsError (AdvancedCustomValidationError + ValidationState) :=
  let fail message := Ok (inl (MkValidationError message (Some index))) in
  match rv_path v with
  | [] => fail (js "Incoming path is required")
  | _ =>
      if negb (starts_with (js "/") (rv_path v)) then fail (js "Incoming path must start with /")
      else if contains (rv_path v) (js "?") then fail (js "Incoming path must not include query")
      else
        match check_management index (rv_path v) (rv_upstream v) (rv_converter v) (rv_models v) state with
        | inl e => Ok (inl e)
        | inr state =>
            match validateAdvancedCustomRouteModels index (rv_path v) (rv_models v) (vs_routeModelsByPath state) with
            | inl e => Ok (inl e)
            | inr rules =>
                if str_eqb (rv_upstream v) [] then fail (js "Upstream path is required")
                else if negb (isFullHttpURLOrAbsolutePath (rv_upstream v))
                then fail (js "Upstream path must be a full URL or a path starting with /")
                else if negb (isAdvancedCustomConverter (rv_converter v)) then fail (js "Converter is not registered")
                else if negb (isConverterPathAllowed (rv_path v) (converter_text (rv_converter v)))
                then fail (js "Converter does not match incoming path")
                else
                  let* authError := validateRouteAuth (rv_auth v) in
                  match authError with
                  | Some message => fail message
                  | None => Ok (inr (MkValidationState rules (vs_modelListRouteIndex state) (vs_balanceRouteIndex state)))
                  end
            end
        end
  end.

Lemma validate_route_view i route st : validate_route i route st = let* v := route_view route in validate_view i v st.
Proof.
  unfold validate_route, route_view. destruct (trim_or_empty _) as [path| |]; [|done|done]. cbn [obind].
  destruct (getAdvancedCustomRouteUpstreamPath route) as [upstream| |]; [|done|done]. cbn [obind].
  by destruct (normalizeAdvancedCustomRouteModels _).
Qed.

Lemma models_never_stuck models : normalizeAdvancedCustomRouteModels models <> OutOfFuel.
Proof.
  destruct models as [| | | | |items|]; try done. cbn. assert (omap_list value_trim items <> OutOfFuel) as N.
  { induction items as [|x items IH]; [done|]. cbn [omap_list]. destruct x; try done. cbn [value_trim obind].
    by destruct (omap_list value_trim items). }
  by destruct (omap_list value_trim items).
Qed.

Lemma view_never_stuck route : route_view route <> OutOfFuel.
Proof.
  unfold route_view, trim_or_empty, value_trim, getAdvancedCustomRouteUpstreamPath, value_prop.
  pose proof (models_never_stuck (get_field route (js "models"))) as M.
  destruct (is_nullish (get_field route _)); [|destruct (get_field route (js "incoming_path")); try done]; cbn [obind];
    (destruct (is_nullish route); [done|]); cbn [obind]; (destruct (value_or _ _); try done); cbn [obind value_trim];
    by destruct (normalizeAdvancedCustomRouteModels _).
Qed.

Lemma path_nonempty v : starts_with (js "/") (rv_path v) = true -> rv_path v <> [].
Proof. by destruct (rv_path v). Qed.

Lemma validate_view_spec i v st views : state_tracked st views -> Forall route_accepted views ->
  match validate_view i v st with
  | Ok (inr st') => route_accepted v /\ follows_all views v /\ state_tracked st' (views ++ [v])
  | Ok (inl e) => ve_routeIndex e = Some i /\ ~ (route_accepted v /\ follows_all views v)
  | Throw _ => ~ route_accepted v
  | OutOfFuel => False
  end.
Proof.
  intros T A. unfold validate_view. destruct (rv_path v) as [|c p] eqn:P.
  { split; [done|]. intros [R _]. by apply (path_nonempty v (ra_rooted v R)). }
  rewrite <- P. clear c p P. destruct (starts_with (js "/") (rv_path v)) eqn:S; cbn [negb].
  2: { split; [done|]. intros [[] _]. congruence. }
  destruct (contains (rv_path v) (js "?")) eqn:Q; [split; [done|]; intros [[] _]; congruence|].
  pose proof (check_management_spec i st views v T A) as M. destruct (check_management _ _ _ _ _ _) as [e|st1].
  { destruct M as [Mi M]. split; [done|]. intros [R F]. apply M. split; [exact (ra_management v R)|done]. }
  destruct M as [MA (N1 & N2 & N3)]. rewrite N1. pose proof (route_models_spec i _ views v (st_rules st views T)) as RM.
  destruct (validateAdvancedCustomRouteModels _ _ _ _) as [e|rules].
  { destruct RM as [Ri RN]. split; [done|]. intros [R F]. apply RN. split; [exact (ra_models v R)|done]. }
  destruct RM as (RA & RF & RT).
  destruct (str_eqb (rv_upstream v) []) eqn:U0; [apply str_eqb_eq in U0; split; [done|]; by intros [[? ? ? ? [? ?]] _]|apply str_eqb_neq in U0].
  destruct (isFullHttpURLOrAbsolutePath (rv_upstream v)) eqn:U1; cbn [negb]; [|split; [done|]; intros [[? ? ? ? [? ?]] _]; congruence].
  pose proof (converter_spec (rv_path v) (rv_converter v)) as C.
  destruct (isAdvancedCustomConverter (rv_converter v)); cbn [negb andb] in *; [|split; [done|]; intros [R _]; by pose proof (proj2 C (ra_converter v R))].
  destruct (isConverterPathAllowed _ _); cbn [negb] in *; [|split; [done|]; intros [R _]; by pose proof (proj2 C (ra_converter v R))].
  apply proj1 in C. specialize (C eq_refl). pose proof (route_auth_spec (rv_auth v)) as AU.
  destruct (validateRouteAuth (rv_auth v)) as [[m|]| |]; cbn [obind]; [split; [done|]; by intros [[] _]| |by intros []|done].
  split; [by split|]. split; [done|]. split; [done|..]; cbn; rewrite seen_path_add.
  - by rewrite N2, (st_list st views T).
  - by rewrite N3, (st_balance st views T).
Qed.

(** *** The loop *)

Lemma ordpairs_snoc {A} (P : A -> A -> Prop) l x : ForallOrdPairs P l -> Forall (fun y => P y x) l -> ForallOrdPairs P (l ++ [x]).
Proof.
  induction 1 as [|y l F H' IH]; intros G; [by repeat constructor|]. cbn. constructor.
  - apply Forall_app. split; [done|]. constructor; [by apply (Forall_inv G)|constructor].
  - apply IH. by apply Forall_inv_tail in G.
Qed.

Lemma ordpairs_last {A} (P : A -> A -> Prop) l x r : ForallOrdPairs P (l ++ x :: r) -> Forall (fun y => P y x) l.
Proof.
  induction l as [|y l IH]; [constructor|]. cbn. intros F. inversion F as [|? ? F1 F2]; subst. constructor; [|by apply IH].
  apply Forall_app in F1 as [_ F1]. by apply (Forall_inv F1).
Qed.

Lemma accepted_snoc views v : accepted views -> route_accepted v -> follows_all views v -> accepted (views ++ [v]).
Proof.
  intros [F O] R L. split; [|by apply ordpairs_snoc]. apply Forall_app. split; [done|]. by constructor.
Qed.

Lemma accepted_middle views v rest : accepted (views ++ v :: rest) -> route_accepted v /\ follows_all views v.
Proof.
  intros [F O]. apply Forall_app in F as [_ F]. split; [by apply (Forall_inv F)|]. by apply ordpairs_last in O.
Qed.

(** The route that is to blame: those before it are accepted, and it is not. *)
Definition blamed (views0 : list RouteView) (routes : list jsval) (n : nat) (route : jsval) : Prop :=
  routes !! n = Some route /\
  exists views, omap_list route_view (take n routes) = Ok views /\ accepted (views0 ++ views) /\
    forall v, route_view route = Ok v -> ~ (route_accepted v /\ follows_all (views0 ++ views) v).

Lemma validate_routes_spec routes : forall i st views, state_tracked st views -> accepted views ->
  match validate_routes i routes st with
  | Ok None => exists views', omap_list route_view routes = Ok views' /\ accepted (views ++ views')
  | Ok (Some e) => exists n route, ve_routeIndex e = Some (i + n) /\ blamed views routes n route
  | Throw _ => exists n route, blamed views routes n route
  | OutOfFuel => False
  end.
Proof.
  induction routes as [|route routes IH]; intros i st views T A.
  { exists []. by rewrite app_nil_r. }
  cbn [validate_routes]. rewrite validate_route_view. pose proof (view_never_stuck route) as NS.
  destruct (route_view route) as [v| |] eqn:V; cbn [obind]; [| |done].
  2: { exists 0, route. split; [done|]. exists []. rewrite app_nil_r. split; [done|]. split; [done|]. by rewrite V. }
  pose proof (validate_view_spec i v st views T (proj1 A)) as S.
  destruct (validate_view i v st) as [[e|st']| |]; cbn [obind]; [| | |done].
  - destruct S as [Si Sn]. exists 0, route. rewrite Nat.add_0_r. split; [done|]. split; [done|].
    exists []. rewrite app_nil_r. split; [done|]. split; [done|]. rewrite V. by intros ? [= <-].
  - destruct S as (R & F & T'). pose proof (accepted_snoc views v A R F) as A'.
    specialize (IH (S i) st' (views ++ [v]) T' A').
    assert (forall n route', blamed (views ++ [v]) routes n route' -> blamed views (route :: routes) (S n) route') as B.
    { intros n route' (L & views' & O & Ac & N). split; [done|]. exists (v :: views'). cbn [take omap_list].
      rewrite V, O. rewrite <- app_assoc in Ac, N. done. }
    destruct (validate_routes (S i) routes st') as [[e|]| |]; [| | |done].
    + destruct IH as (n & route' & E & Bl). exists (S n), route'. split; [rewrite E; f_equal; lia|by apply B].
    + destruct IH as (views' & O & Ac). exists (v :: views'). cbn [omap_list]. rewrite V, O. by rewrite <- app_assoc in Ac.
    + destruct IH as (n & route' & Bl). exists (S n), route'. by apply B.
  - exists 0, route. split; [done|]. exists []. rewrite app_nil_r. split; [done|]. split; [done|].
    rewrite V. intros ? [= <-] [R _]. done.
Qed.

Lemma state_tracked_nil : state_tracked (MkValidationState [] None None) [].
Proof.
  split; [apply rules_tracked_nil|..]; cbn; (split; [by intros [? ?]|by intros (v & ?%elem_of_nil & _)]).
Qed.

Lemma omap_list_take {E A B} (f : A -> outcome E B) l ys n : omap_list f l = Ok ys -> omap_list f (take n l) = Ok (take n ys).
Proof. rewrite !omap_list_Forall2. apply Forall2_take. Qed.

Lemma blamed_not_accepted routes n route views : blamed [] routes n route -> omap_list route_view routes = Ok views -> ~ accepted views.
Proof.
  intros (L & before & O & _ & N) V A. rewrite (omap_list_take _ _ _ n V) in O. injection O as <-.
  apply omap_list_Forall2 in V. destruct (Forall2_lookup_l _ _ _ _ _ V L) as (v & Lv & Ev).
  apply (N v Ev). cbn [app]. apply (accepted_middle (take n views) v (drop (S n) views)).
  by rewrite take_drop_middle.
Qed.
End Validation.

(** Only an object has routes. *)
Lemma routes_truthy config route routes : normalized_routes config = Ok (route :: routes) -> value_truthy config = true.
Proof. by destruct config. Qed.

Lemma custom_validation_exact_iff `{URLHost} config :
  validateAdvancedCustomConfig (Some config) = Ok None <-> config_accepted config.
Proof.
  unfold validateAdvancedCustomConfig, config_accepted. destruct (negb (value_truthy config)) eqn:Tr.
  { split; [done|]. intros ([|r rs] & views & E & N & _); [done|]. apply routes_truthy in E. by rewrite E in Tr. }
  destruct (normalized_routes config) as [routes| |] eqn:R; cbn [obind].
  2-3: split; [done|by intros (? & ? & [=] & _)].
  destruct routes as [|route routes]; [split; [done|by intros (? & ? & [= <-] & ? & _)]|].
  set (all := route :: routes) in *.
  pose proof (validate_routes_spec all 0 _ [] state_tracked_nil (conj (Forall_nil _) (FOP_nil _))) as S.
  destruct (validate_routes 0 all _) as [[e|]| |]; [| | |done].
  - destruct S as (n & r & E & B). split; [done|]. intros (? & views & [= <-] & _ & V & A). by destruct (blamed_not_accepted _ _ _ _ B V).
  - split; [|done]. intros _. destruct S as (views & V & A). by exists all, views.
  - split; [done|]. destruct S as (n & r & B). intros (? & views & [= <-] & _ & V & A).
    by destruct (blamed_not_accepted _ _ _ _ B V).
Qed.

(** C11: the validation accepts exactly the configurations it should: whatever
    value is given, [validateAdvancedCustomConfig] finds no error if and only
    if the routes can be normalised, there is one at least, each has a rooted
    path without a query, a registered converter that fits the path, an
    upstream path or address, an authentication that is complete, no
    repeated or empty rule and, for the two management paths, no rules, no
    conversion and no [{model}] in the upstream path, and a route follows another of the same path only if that one
    is no catch-all and shares no rule with it (so catch-alls are last and
    management paths occur once).  When it reports an error with an index, the
    routes before the index are acceptable and that one is not. *)
Theorem custom_validation_exact `{URLHost} config :
  (validateAdvancedCustomConfig (Some config) = Ok None <-> config_accepted config) /\
  (forall e i, validateAdvancedCustomConfig (Some config) = Ok (Some e) -> ve_routeIndex e = Some i ->
   exists routes route, normalized_routes config = Ok routes /\ blamed [] routes i route).
Proof.
  split; [apply custom_validation_exact_iff|]. unfold validateAdvancedCustomConfig. intros e i.
  destruct (negb (value_truthy config)); [by intros [= <-]|]. destruct (normalized_routes config) as [routes| |]; cbn [obind]; [|done|done].
  destruct routes as [|route routes]; [by intros [= <-]|]. intros E Ei. exists (route :: routes).
  pose proof (validate_routes_spec (route :: routes) 0 _ [] state_tracked_nil (conj (Forall_nil _) (FOP_nil _))) as S.
  rewrite E in S. destruct S as (n & r & En & B). rewrite Ei in En. injection En as ->. by exists r.
Qed.

#[local] Existing Instance plain_URL_host.

Definition sample_conflict : jsval :=
  config_of [createAdvancedCustomManagementRoute ADVANCED_CUSTOM_BALANCE_PATH;
             createAdvancedCustomManagementRoute ADVANCED_CUSTOM_BALANCE_PATH].

Lemma custom_validation_exact_witness :
  config_accepted sample_routes /\
  exists routes route, normalized_routes sample_conflict = Ok routes /\ blamed [] routes 1 route.
Proof.
  split.
  - apply custom_validation_exact. vm_compute. reflexivity.
  - eapply (proj2 (custom_validation_exact sample_conflict)); vm_compute; reflexivity.
Defined.

(** ** Edits of the management routes *)

Lemma management_path_cases path : isAdvancedCustomManagementPath path = true ->
  path = ADVANCED_CUSTOM_MODEL_LIST_PATH \/ path = ADVANCED_CUSTOM_BALANCE_PATH.
Proof. unfold isAdvancedCustomManagementPath. rewrite orb_true_iff, !str_eqb_eq. done. Qed.

Lemma routes_at_view path route v : path <> [] -> route_view route = Ok v ->
  routes_at path route = Ok (str_eqb (rv_path v) path).
Proof.
  unfold route_view, routes_at, trim_or_empty. intros N V.
  destruct (is_nullish (get_field route (js "incoming_path"))); cbn [obind] in *.
  - inv_bind. cbn. f_equal. symmetry. apply str_eqb_neq. congruence.
  - destruct (value_trim _); [|done|done]. cbn [obind] in *. inv_bind. done.
Qed.

Lemma find_views path routes views : path <> [] -> Forall2 (fun r v => route_view r = Ok v) routes views ->
  exists found, find_index_m (routes_at path) routes = Ok found /\
    match found with
    | None => Forall (fun v => rv_path v <> path) views
    | Some (i, r) => routes !! i = Some r /\ exists v, views !! i = Some v /\ rv_path v = path /\
        Forall (fun v => rv_path v <> path) (take i views)
    end.
Proof.
  intros N. induction 1 as [|r v routes views V F IH]; [by exists None|]. cbn [find_index_m].
  rewrite (routes_at_view path r v) by done. cbn [obind]. destruct (str_eqb (rv_path v) path) eqn:E.
  - apply str_eqb_eq in E. exists (Some (0, r)). split; [done|]. split; [done|]. by exists v.
  - apply str_eqb_neq in E. destruct IH as (found & -> & IH). cbn [obind]. eexists. split; [done|].
    destruct found as [[i r']|]; cbn.
    + destruct IH as (L & v' & Lv & Ep & Fp). split; [done|]. exists v'. split; [done|]. split; [done|]. by constructor.
    + by constructor.
Qed.

Lemma find_first path routes views i r v : path <> [] -> Forall2 (fun r v => route_view r = Ok v) routes views ->
  routes !! i = Some r -> views !! i = Some v -> rv_path v = path -> Forall (fun v => rv_path v <> path) (take i views) ->
  find_index_m (routes_at path) routes = Ok (Some (i, r)).
Proof.
  intros N F. revert i. induction F as [|r0 v0 routes views V F IH]; intros i Lr Lv E B; [done|]. cbn [find_index_m].
  rewrite (routes_at_view path r0 v0) by done. cbn [obind]. destruct i as [|i]; cbn in Lr, Lv.
  - injection Lr as ->. injection Lv as ->. apply str_eqb_eq in E. by rewrite E.
  - cbn [take] in B. pose proof (Forall_inv B) as Nv. apply str_eqb_neq in Nv. rewrite Nv.
    rewrite (IH i) by (done || by apply Forall_inv_tail in B). done.
Qed.

(** What an edit puts in the place of a route. *)
Definition management_route (path : str) (route : jsval) : jsval :=
  JObj [(js "incoming_path", JStr path); (js "upstream_path", value_or (get_field route (js "upstream_path")) (JStr []));
        (js "converter", JStr (js "none")); (js "models", JArr []); (js "auth", get_field route (js "auth"))].

Section Edits.
Context `{URLHost}.

(** A route the editor may put at a management path. *)
Definition management_acceptable (route : jsval) : Prop :=
  exists upstream, get_field route (js "upstream_path") = JStr upstream /\ trim upstream <> [] /\
    isFullHttpURLOrAbsolutePath (trim upstream) = true /\ contains (trim upstream) (js "{model}") = false /\
    auth_accepted (get_field route (js "auth")).

Definition normal_auth (auth : jsval) : jsval :=
  if value_truthy auth then
    auth_object (get_field auth (js "type")) (value_or (get_field auth (js "name")) (JStr []))
      (value_or (get_field auth (js "value")) (JStr []))
  else JUndefined.

Lemma text_kept v s : v = JStr s -> trim s <> [] -> value_or v (JStr []) = JStr s.
Proof. intros -> N. by destruct s. Qed.

Lemma normal_auth_accepted auth : auth_accepted auth -> auth_accepted (normal_auth auth).
Proof.
  unfold normal_auth. destruct (value_truthy auth) eqn:T; [|by left].
  intros [?|[E|(Ty & (n & En & Nn) & (v & Ev & Nv))]]; [congruence|by right; left|].
  right. right. split; [done|]. split; [exists n|exists v]; (split; [|done]); by apply text_kept.
Qed.

Lemma upstream_nonempty u : trim u <> [] -> u <> [].
Proof. by destruct u. Qed.

Lemma management_normal path route : isAdvancedCustomManagementPath path = true -> management_acceptable route ->
  exists r v, normalizeAdvancedCustomRoute (management_route path route) = Ok r /\ route_view r = Ok v /\
    rv_path v = path /\ rv_models v = [] /\ route_accepted v.
Proof.
  intros P (u & Eu & Nu & Fu & Cu & A).
  assert (normalizeAdvancedCustomRoute (management_route path route) =
    Ok (JObj ([(js "incoming_path", JStr path); (js "upstream_path", JStr (trim u)); (js "converter", JStr (js "none"))] ++
          if value_truthy (get_field route (js "auth")) then [(js "auth", normal_auth (get_field route (js "auth")))] else []))) as E.
  { unfold normal_auth, normalizeAdvancedCustomRoute, getAdvancedCustomRouteUpstreamPath, management_route.
    rewrite (text_kept _ u Eu Nu).
    apply management_path_cases in P as [->| ->]; cbn [value_prop is_nullish obind];
      change (get_field (JObj ((js "incoming_path", ?p) :: ?x :: _)) (js "upstream_path")) with x.2;
      cbn [snd]; destruct u; [done| |done|]; cbn; by destruct (value_truthy _). }
  eexists _, (MkRouteView path (trim u) (JStr (js "none")) [] (normal_auth (get_field route (js "auth")))).
  split; [exact E|]. split; [|split; [done|split; [done|]]].
  - unfold route_view, trim_or_empty, getAdvancedCustomRouteUpstreamPath, value_prop. set (r := JObj _).
    change (is_nullish r) with false. cbn [obind].
    assert (get_field r (js "incoming_path") = JStr path /\ get_field r (js "upstream_path") = JStr (trim u) /\
      get_field r (js "converter") = JStr (js "none") /\ get_field r (js "models") = JUndefined /\
      get_field r (js "auth") = normal_auth (get_field route (js "auth"))) as (-> & -> & -> & -> & ->).
    { unfold r, normal_auth. repeat split; by destruct (value_truthy _). }
    assert (value_or (JStr (trim u)) (JStr []) = JStr (trim u)) as -> by (by destruct (trim u)).
    cbn [is_nullish value_trim obind normalizeAdvancedCustomRouteModels]. rewrite trim_idemp.
    by apply management_path_cases in P as [->| ->].
  - assert (starts_with (js "/") path = true /\ contains path (js "?") = false) as [S Q]
      by (apply management_path_cases in P as [->| ->]; done).
    split; cbn; [done|done|done|split; constructor|done| |by apply normal_auth_accepted].
    exists (js "none"). split; [done|]. split; [|done]. by left.
Qed.

(** Conflicts depend on the path and the rules only. *)
Lemma may_follow_ext u u' v v' : rv_path u = rv_path u' -> rv_models u = rv_models u' ->
  rv_path v = rv_path v' -> rv_models v = rv_models v' -> may_follow u v -> may_follow u' v'.
Proof. unfold may_follow. by intros -> -> -> ->. Qed.

Lemma ordpairs_insert {A} (P : A -> A -> Prop) l i x y : ForallOrdPairs P l -> l !! i = Some x ->
  (forall z, P z x -> P z y) -> (forall z, P x z -> P y z) -> ForallOrdPairs P (<[i:=y]> l).
Proof.
  intros F L Zx Xz. revert i L. induction F as [|a l Fa F IH]; intros i L; [done|]. destruct i as [|i]; cbn in *.
  - injection L as ->. constructor; [|done]. by eapply Forall_impl; [exact Xz|].
  - constructor; [|by apply IH]. apply Forall_insert; [done|]. apply Zx.
    apply (proj1 (Forall_forall _ _) Fa). apply list_elem_of_In. by eapply list_elem_of_lookup_2.
Qed.

Lemma accepted_insert views i v w : accepted views -> views !! i = Some v -> route_accepted w ->
  rv_path v = rv_path w -> rv_models v = rv_models w -> accepted (<[i:=w]> views).
Proof.
  intros [F O] L R P M. split; [by apply Forall_insert|].
  apply (ordpairs_insert _ _ _ v); [done|done|..]; intros z; by apply may_follow_ext.
Qed.

Lemma accepted_absent views v : accepted views -> route_accepted v -> Forall (fun u => rv_path u <> rv_path v) views ->
  accepted (views ++ [v]).
Proof.
  intros A R N. apply accepted_snoc; [done|done|]. eapply Forall_impl; [|exact N]. intros u Nu E. done.
Qed.

(** The routes of an edited configuration, with what the validation sees. *)
Lemma edited_routes routes views path r v : Forall normal_route routes ->
  Forall2 (fun r v => route_view r = Ok v) routes views -> accepted views ->
  route_view r = Ok v -> rv_path v = path -> rv_models v = [] -> route_accepted v ->
  isAdvancedCustomManagementPath path = true -> normal_route r ->
  exists found, find_index_m (routes_at path) routes = Ok found /\
    exists i views', let routes' := match found with Some (i, _) => <[i:=r]> routes | None => routes ++ [r] end in
    Forall2 (fun r v => route_view r = Ok v) routes' views' /\ accepted views' /\
    find_index_m (routes_at path) routes' = Ok (Some (i, r)).
Proof.
  intros NR F A V Ep Em R P Nr.
  assert (path <> []) as Np by (apply management_path_cases in P as [->| ->]; done).
  destruct (find_views path routes views Np F) as (found & Fd & S). exists found. split; [done|].
  destruct found as [[i r0]|].
  - destruct S as (Lr & v0 & Lv & E0 & B). exists i, (<[i:=v]> views). cbv zeta.
    assert (rv_models v0 = []) as M0.
    { destruct A as [A _]. apply (ra_management v0); [|by rewrite E0].
      apply (proj1 (Forall_forall _ _) A), list_elem_of_In. by eapply list_elem_of_lookup_2. }
    assert (Forall2 (fun r v => route_view r = Ok v) (<[i:=r]> routes) (<[i:=v]> views)) as F' by by apply Forall2_insert.
    split; [done|]. split; [apply (accepted_insert views i v0 v); congruence|].
    eapply (find_first path _ _ i r v); [done|exact F'|..].
    + apply list_lookup_insert_eq. by eapply lookup_lt_Some.
    + apply list_lookup_insert_eq. by eapply lookup_lt_Some.
    + done.
    + by rewrite take_insert_ge by lia.
  - exists (length routes), (views ++ [v]). cbv zeta.
    assert (Forall2 (fun r v => route_view r = Ok v) (routes ++ [r]) (views ++ [v])) as F' by (apply Forall2_app; [done|by constructor]).
    split; [done|]. split; [apply accepted_absent; [done|done|by rewrite Ep]|].
    pose proof (Forall2_length F) as Len.
    eapply (find_first path _ _ (length routes) r v); [done|exact F'|..].
    + by rewrite lookup_app_r, Nat.sub_diag by lia.
    + by rewrite Len, lookup_app_r, Nat.sub_diag by lia.
    + done.
    + by rewrite Len, take_app_length.
Qed.

Lemma normalize_edit routes i mr r : Forall normal_route routes -> normalizeAdvancedCustomRoute mr = Ok r ->
  omap_list normalizeAdvancedCustomRoute (<[i:=mr]> routes) = Ok (<[i:=r]> routes) /\
  omap_list normalizeAdvancedCustomRoute (routes ++ [mr]) = Ok (routes ++ [r]).
Proof.
  intros N E. apply omap_fixed, omap_list_Forall2 in N. rewrite !omap_list_Forall2. split; [by apply Forall2_insert|].
  apply Forall2_app; [done|by constructor].
Qed.
End Edits.

(** Editing a management route keeps a valid configuration valid: putting
    a route with a usable upstream path and a complete authentication at the
    model list or the balance path, whether or not there was one, gives a
    configuration that validates, and the path is then served by that route,
    normalised. *)
Theorem management_edit_valid `{URLHost} config path route :
  validateAdvancedCustomConfig (Some config) = Ok None -> isAdvancedCustomManagementPath path = true ->
  management_acceptable route ->
  exists config' r,
    replaceAdvancedCustomManagementRoute config path (Some route) = Ok config' /\
    validateAdvancedCustomConfig (Some config') = Ok None /\
    normalizeAdvancedCustomRoute (management_route path route) = Ok r /\
    getAdvancedCustomManagementRoute config' path = Ok (Some r).
Proof.
  intros (routes & views & R & _ & V & A)%custom_validation_exact_iff P M.
  destruct (management_normal path route P M) as (r & v & En & Ev & Ep & Em & Ra).
  pose proof (normalized_routes_normal _ _ R) as N. pose proof (normalize_route_idem _ _ En) as Nr.
  apply omap_list_Forall2 in V. destruct (edited_routes routes views path r v N V A Ev Ep Em Ra P Nr)
    as (found & Fd & i & views' & F' & A' & Fd'). unfold replaceAdvancedCustomManagementRoute. rewrite R. cbn [obind].
  rewrite Fd. cbn [obind]. fold (management_route path route).
  set (edited := match found with Some (index, _) => _ | None => _ end). exists (config_of edited), r.
  assert (normalized_routes (config_of edited) =
    Ok (match found with Some (i, _) => <[i:=r]> routes | None => routes ++ [r] end)) as RE.
  { change (normalized_routes (config_of edited)) with (omap_list normalizeAdvancedCustomRoute edited).
    unfold edited. destruct found as [[j r0]|]; by apply normalize_edit. }
  split; [done|]. split; [|split; [done|]].
  - apply custom_validation_exact_iff. eexists _, views'. split; [exact RE|]. split; [|split; [by apply omap_list_Forall2|done]].
    intros E. rewrite E in Fd'. done.
  - unfold getAdvancedCustomManagementRoute. rewrite RE. cbn [obind]. by rewrite Fd'.
Qed.

Definition sample_balance_route : jsval :=
  JObj [(js "upstream_path", JStr (js " https://upstream.example/credits ")); (js "auth", apiKeyHeaderAuth)].

Lemma management_edit_valid_witness : exists config' r,
  replaceAdvancedCustomManagementRoute sample_routes ADVANCED_CUSTOM_BALANCE_PATH (Some sample_balance_route) = Ok config' /\
  validateAdvancedCustomConfig (Some config') = Ok None /\
  normalizeAdvancedCustomRoute (management_route ADVANCED_CUSTOM_BALANCE_PATH sample_balance_route) = Ok r /\
  getAdvancedCustomManagementRoute config' ADVANCED_CUSTOM_BALANCE_PATH = Ok (Some r).
Proof.
  apply management_edit_valid; [vm_compute; reflexivity|vm_compute; reflexivity|].
  exists (js " https://upstream.example/credits "). split; [reflexivity|]. split; [discriminate|].
  split; [vm_compute; reflexivity|]. split; [vm_compute; reflexivity|].
  right. right. split; [left; reflexivity|].
  split; [exists (js "x-api-key")|exists (js "{api_key}")]; (split; [reflexivity|discriminate]).
Defined.

(** Every template the editor offers is valid, on any host. *)
Lemma templates_valid `{URLHost} key :
  validateAdvancedCustomConfig (Some (getAdvancedCustomTemplateConfig key)) = Ok None.
Proof.
  unfold getAdvancedCustomTemplateConfig, ADVANCED_CUSTOM_TEMPLATE_OPTIONS. cbn [List.find tp_value tp_config].
  repeat (destruct (str_eqb _ key); [vm_compute; reflexivity|]). vm_compute. reflexivity.
Qed.

(** The route the editor suggests for a converter is valid on every path it
    offers for it, on any host. *)
Lemma defaults_valid `{URLHost} converter path :
  converter ∈ map co_value ADVANCED_CUSTOM_CONVERTER_OPTIONS -> path ∈ map fst (getAdvancedCustomIncomingPathOptions converter) ->
  let defaults := getAdvancedCustomConverterDefaults converter path in
  validateAdvancedCustomConfig (Some (config_of
    [JObj [(js "incoming_path", JStr path); (js "upstream_path", JStr (cd_upstream_path defaults));
           (js "converter", JStr converter); (js "auth", cd_auth defaults)]])) = Ok None.
Proof.
  intros C P.
  assert (forallb (fun c => forallb (fun p =>
      let defaults := getAdvancedCustomConverterDefaults c p in
      match validateAdvancedCustomConfig (Some (config_of
        [JObj [(js "incoming_path", JStr p); (js "upstream_path", JStr (cd_upstream_path defaults));
               (js "converter", JStr c); (js "auth", cd_auth defaults)]])) with Ok None => true | _ => false end)
      (map fst (getAdvancedCustomIncomingPathOptions c))) (map co_value ADVANCED_CUSTOM_CONVERTER_OPTIONS) = true) as T
    by (vm_compute; reflexivity).
  rewrite forallb_forall in T. apply list_elem_of_In in C, P. specialize (T converter C). rewrite forallb_forall in T.
  specialize (T path P). cbv zeta in T |- *. destruct (validateAdvancedCustomConfig _) as [[|]| |]; done.
Qed.

(** A path that is not a text is kept by the reader, and the validation
    throws on it. *)
Definition numeric_path_text : str :=
  js "{" ++ json_stringify (js "advanced_routes") ++ js ":[{" ++ json_stringify (js "incoming_path") ++ js ":5}]}".

Lemma numeric_path_throws :
  match parseAdvancedCustomConfig (Some numeric_path_text) with
  | Some config => validateAdvancedCustomConfig (Some config) = Throw TypeError
  | None => False
  end.
Proof. vm_compute. reflexivity. Qed.
