(* ===== verification/NavModules.v ===== *)
(** * Roles, permissions and navigation modules

    Models [lib/roles.ts], [lib/admin-permissions.ts] and
    [lib/nav-modules.ts]: what a user may do, and which parts of the site the
    administrator has opened.  The site's status is data of any shape. *)

From Stdlib Require Import ZArith Lia Bool SpecFloat.
From stdpp Require Import base list numbers.
From S2P Require Import Prelude JsString JsNumber JsObject JsValue JsJson JsDynamic JsHost AuthStore.

(** ** Roles *)

Definition ROLE_GUEST : num := lit 0.
Definition ROLE_USER : num := lit 1.
Definition ROLE_ADMIN : num := lit 10.
Definition ROLE_SUPER_ADMIN : num := lit 100.

Definition ROLE_LABEL_KEYS : list (num * str) :=
  [(ROLE_SUPER_ADMIN, js "Super Admin"); (ROLE_ADMIN, js "Admin"); (ROLE_USER, js "User"); (ROLE_GUEST, js "Guest")].

(** The table's keys are the texts of the numbers. *)
Definition getRoleLabelKey (role : option num) : str :=
  match role with
  | Some role =>
      match List.find (fun e => str_eqb (string_of_num e.1) (string_of_num role)) ROLE_LABEL_KEYS with
      | Some e => e.2
      | None => js "Guest"
      end
  | None => js "Guest"
  end.

(** ** Permissions *)

(** [Record<string, Record<string, boolean>>]; an entry may also be missing. *)
Definition AdminPermissionMatrix : Type := list (str * list (str * bool)).

Record PermissionResourceDef := MkResourceDef { pd_resource : str; pd_actions : list str }.
Record PermissionRoleDef := MkRoleDef { rd_key : str; rd_grants : AdminPermissionMatrix }.
Record PermissionCatalog := MkCatalog { pc_resources : list PermissionResourceDef; pc_roles : list PermissionRoleDef }.

Definition EMPTY_PERMISSION_CATALOG : PermissionCatalog := MkCatalog [] [].
Definition ADMIN_ROLE_KEY : str := js "admin".

(** Inherited properties are never [true]. *)
Definition hasPermission (user : option AuthUser) (resource action : str) : bool :=
  match user with
  | None => false
  | Some user =>
      if num_eqb (role user) ROLE_SUPER_ADMIN then true
      else
        let permissions := default JUndefined (assoc_str (other_properties user) (js "permissions")) in
        match get_field (get_field (get_field permissions (js "admin_permissions")) resource) action with
        | JBool b => b
        | _ => false
        end
  end.

Definition matrix_get (matrix : AdminPermissionMatrix) (resource action : str) : option bool :=
  actions ← assoc_str matrix resource; assoc_str actions action.

Definition roleGrants (catalog : PermissionCatalog) (roleKey : str) : AdminPermissionMatrix :=
  match List.find (fun role => str_eqb (rd_key role) roleKey) (pc_roles catalog) with
  | Some role => rd_grants role
  | None => []
  end.

Definition normalizeAdminPermissions (value : option AdminPermissionMatrix) (catalog : PermissionCatalog)
    : AdminPermissionMatrix :=
  let baseline := roleGrants catalog ADMIN_ROLE_KEY in
  fold_left (fun normalized resource =>
    let actions :=
      fold_left (fun actions action =>
        obj_put actions action
          (match value ≫= (fun m => matrix_get m (pd_resource resource) action) with
           | Some b => b
           | None => default false (matrix_get baseline (pd_resource resource) action)
           end)) (pd_actions resource) [] in
    obj_put normalized (pd_resource resource) actions) (pc_resources catalog) [].

(** ** Navigation modules *)

Record ModuleAccess := MkAccess { enabled : bool; requireAuth : bool }.

Inductive HeaderNavModule := rankings | pricing.
Definition module_key (module : HeaderNavModule) : str :=
  match module with rankings => js "rankings" | pricing => js "pricing" end.

Inductive NavEntry := NavFlag (b : bool) | NavAccess (access : ModuleAccess).
Definition HeaderNavModules : Type := list (str * NavEntry).

Definition default_access : ModuleAccess := MkAccess true false.

Definition DEFAULT_HEADER_NAV_MODULES : HeaderNavModules :=
  [(js "home", NavFlag true); (js "console", NavFlag true); (js "pricing", NavAccess default_access);
   (js "rankings", NavAccess default_access); (js "docs", NavFlag true); (js "about", NavFlag true)].

Section Modules.
Context `{JSHost}.

Definition parseHeaderNavBoolean (raw : jsval) (fallback : bool) : bool :=
  match raw with
  | JBool b => b
  | JNum n => if num_eqb n (lit 1) then true else if num_eqb n (lit 0) then false else fallback
  | JStr s =>
      let normalized := toLowerCase (trim s) in
      if str_eqb normalized (js "true") || str_eqb normalized (js "1") then true
      else if str_eqb normalized (js "false") || str_eqb normalized (js "0") then false
      else fallback
  | _ => fallback
  end.

Definition parseAccess (raw : jsval) (fallback : ModuleAccess) : ModuleAccess :=
  match raw with
  | JBool _ | JNum _ | JStr _ => MkAccess (parseHeaderNavBoolean raw (enabled fallback)) (requireAuth fallback)
  | JArr _ | JObj _ =>
      MkAccess (parseHeaderNavBoolean (get_field raw (js "enabled")) (enabled fallback))
        (parseHeaderNavBoolean (get_field raw (js "requireAuth")) (requireAuth fallback))
  | JUndefined | JNull => fallback
  end.

(** [None]: no record; the conversion to a string may throw. *)
Definition parseHeaderNavRecord (raw : jsval) : outcome JsError (option jsval) :=
  if negb (value_truthy raw) then Ok None
  else
    let* text := js_String raw in
    match trim text with
    | [] => Ok None
    | _ =>
        if is_object raw then Ok (Some raw)
        else match json_parse text with Ok v => Ok (Some v) | _ => Ok None end
    end.

(** [Object.entries(value)] of a value that is not null. *)
Definition object_entries (v : jsval) : list (str * jsval) :=
  match v with
  | JObj fields => fields
  | JArr items => imap (fun i x => (string_of_nat i, x)) items
  | JStr s => imap (fun i c => (string_of_nat i, JStr [c])) s
  | _ => []
  end.

Definition is_primitive_setting (v : jsval) : bool :=
  match v with JBool _ | JNum _ | JStr _ => true | _ => false end.

Definition entry_access (entries : HeaderNavModules) (key : str) : ModuleAccess :=
  match assoc_str entries key with Some (NavAccess access) => access | _ => default_access end.

(** The body of the loop over the entries.  Assigning a primitive to
    [__proto__] does nothing. *)
Definition put_module (result : HeaderNavModules) (entry : str * jsval) : HeaderNavModules :=
  let '(key, value) := entry in
  if str_eqb key (js "pricing") then obj_put result key (NavAccess (parseAccess value (entry_access result key)))
  else if str_eqb key (js "rankings") then obj_put result key (NavAccess (parseAccess value (entry_access result key)))
  else if str_eqb key (js "__proto__") then result
  else
    match assoc_str result key with
    | Some (NavFlag fallback) => obj_put result key (NavFlag (parseHeaderNavBoolean value fallback))
    | _ =>
        if is_primitive_setting value then obj_put result key (NavFlag (parseHeaderNavBoolean value true)) else result
    end.

Definition parseHeaderNavModules (raw : jsval) : outcome JsError HeaderNavModules :=
  let* parsed := parseHeaderNavRecord raw in
  Ok (match parsed with
      | Some parsed =>
          if value_truthy parsed then fold_left put_module (object_entries parsed) DEFAULT_HEADER_NAV_MODULES
          else DEFAULT_HEADER_NAV_MODULES
      | None => DEFAULT_HEADER_NAV_MODULES
      end).

Definition parseHeaderNavModulesFromStatus (status : jsval) : outcome JsError HeaderNavModules :=
  parseHeaderNavModules (get_field status (js "HeaderNavModules")).

Definition getModuleAccessFromStatus (status : jsval) (module : HeaderNavModule) : outcome JsError ModuleAccess :=
  let* modules := parseHeaderNavModulesFromStatus status in Ok (entry_access modules (module_key module)).

(** [readCachedStatus]: the item of the scoped storage, when it is JSON. *)
Definition readCachedStatus (item : option str) : jsval :=
  match item with
  | Some (c :: raw) => match json_parse (c :: raw) with Ok v => v | _ => JNull end
  | _ => JNull
  end.

Definition getModuleAccess (item : option str) (module : HeaderNavModule) : outcome JsError ModuleAccess :=
  getModuleAccessFromStatus (readCachedStatus item) module.

(** [fetched]: the status query's result, [None] when it rejects. *)
Definition getModuleAccessForGuard (fetched : option jsval) (module : HeaderNavModule) : ModuleAccess :=
  match fetched with
  | Some status =>
      match getModuleAccessFromStatus status module with Ok access => access | _ => MkAccess false true end
  | None => MkAccess false true
  end.

(** [value[key]] where a missing property makes no difference. *)
Definition own_index (value : jsval) (key : str) : jsval :=
  match value with
  | JObj fields => default JUndefined (assoc_str fields key)
  | JArr _ => default JUndefined (assoc_str (object_entries value) key)
  | _ => JUndefined
  end.

Definition is_false (v : jsval) : bool := match v with JBool false => true | _ => false end.

(** An exception in the conversion before the [try] block is not caught. *)
Definition isSidebarModuleEnabled (item : option str) (section module : str) : outcome JsError bool :=
  let status := readCachedStatus item in
  if negb (value_truthy status) then Ok true
  else
    let raw := own_index status (js "SidebarModulesAdmin") in
    if negb (value_truthy raw) then Ok true
    else
      let* text := js_String raw in
      match trim text with
      | [] => Ok true
      | _ =>
          match json_parse text with
          | Ok parsed =>
              let sectionConfig := own_index parsed section in
              if negb (value_truthy sectionConfig) then Ok true
              else if is_false (own_index sectionConfig (js "enabled")) then Ok false
              else if is_false (own_index sectionConfig module) then Ok false
              else Ok true
          | _ => Ok true
          end
      end.
End Modules.
