(* ===== verification/NavGuards.v ===== *)
(** * Navigation guards

    Models the [beforeLoad] guards of the pages ([routes/]), the redirects of
    the addresses of earlier versions ([lib/legacy-route.ts]) and the check of
    the address a sign-in returns to ([features/auth/lib/auth-redirect.ts]).
    The router runs the guards of the layouts above a page before its own, and
    a redirect to a page starts over there; a redirect to an address is handed
    to the router, which is not part of the model. *)

From Stdlib Require Import ZArith Lia Bool SpecFloat.
From stdpp Require Import base list numbers.
From S2P Require Import Prelude JsString JsNumber JsObject JsValue JsJson JsDynamic JsURL JsHost AuthStore NavModules.

(** ** Addresses to return to *)

Definition getSavedLanguage (user : AuthUser) : option str :=
  let property k := default JUndefined (assoc_str (other_properties user) k) in
  let text v := match v with JStr s => Some s | _ => None end in
  match property (js "language") with
  | JStr s => Some s
  | _ =>
      match property (js "setting") with
      | JStr setting => match json_parse setting with Ok v => text (get_field v (js "language")) | _ => None end
      | JNull => None
      | v => text (get_field v (js "language"))
      end
  end.

Definition allowedRedirectProtocols : list str := [js "http:"; js "https:"].

Definition sanitizeAuthRedirect `{URLHost} (value : jsval) (origin : str) : option str :=
  match value with
  | JStr value =>
      let target := trim value in
      if str_eqb target [] || contains target [92%N] || starts_with (js "//") target then None
      else
        trustedOrigin ← new_URL origin None;
        if negb (includes_str allowedRedirectProtocols (url_protocol trustedOrigin)) then None
        else
          redirectURL ←
            (if starts_with (js "/") target then new_URL target (Some (url_origin trustedOrigin)) else new_URL target None);
          if negb (includes_str allowedRedirectProtocols (url_protocol redirectURL)) ||
             negb (str_eqb (url_origin redirectURL) (url_origin trustedOrigin))
          then None
          else Some (url_pathname redirectURL ++ url_search redirectURL ++ url_hash redirectURL)
  | _ => None
  end.

(** ** Addresses of earlier versions *)

Definition legacyOrigin : str := js "https://legacy-route.invalid".

Definition legacyConsoleRoutes : list (str * str) :=
  [(js "/console", js "/dashboard"); (js "/console/models", js "/models");
   (js "/console/deployment", js "/models/deployments"); (js "/console/subscription", js "/subscriptions");
   (js "/console/channel", js "/channels"); (js "/console/token", js "/keys");
   (js "/console/playground", js "/playground"); (js "/console/redemption", js "/redemption-codes");
   (js "/console/user", js "/users"); (js "/console/personal", js "/profile");
   (js "/console/log", js "/usage-logs"); (js "/console/midjourney", js "/usage-logs/drawing");
   (js "/console/task", js "/usage-logs/task")].

Definition legacySettingsTabs : list (str * str) :=
  [(js "operation", js "/system-settings/operations/behavior"); (js "dashboard", js "/system-settings/content/dashboard");
   (js "chats", js "/system-settings/content/chat"); (js "drawing", js "/system-settings/content/drawing");
   (js "payment", js "/system-settings/billing/payment"); (js "ratio", js "/system-settings/billing/model-pricing");
   (js "ratelimit", js "/system-settings/security/rate-limit"); (js "models", js "/system-settings/models/global");
   (js "model-deployment", js "/system-settings/models/model-deployment");
   (js "performance", js "/system-settings/operations/performance"); (js "system", js "/system-settings/site/system-info");
   (js "other", js "/system-settings/site/system-info")].

(** [pathname.replace(/\/+$/, '')] *)
Definition normalizeLegacyPath (pathname : str) : str :=
  if str_eqb pathname (js "/") then pathname else reverse (drop_while (N.eqb 47) (reverse pathname)).

(** What a redirect goes to: a path of the tables, or what the table of tabs
    inherits under the name of the tab, as text. *)
Inductive LegacyTarget := LegacyPath (path : str) | LegacyInherited (name : str).

Definition legacy_target (pathname : str) (tab : option str) : option LegacyTarget :=
  if str_eqb pathname (js "/login") then Some (LegacyPath (js "/sign-in"))
  else if str_eqb pathname (js "/forbidden") then Some (LegacyPath (js "/403"))
  else if str_eqb pathname (js "/console/topup") then Some (LegacyPath (js "/wallet"))
  else if str_eqb pathname (js "/console/setting") then
    let tab := default [] tab in
    match assoc_str legacySettingsTabs tab with
    | Some target => Some (LegacyPath target)
    | None =>
        if includes_str object_prototype_keys tab then Some (LegacyInherited tab)
        else Some (LegacyPath (js "/system-settings"))
    end
  else if str_eqb pathname (js "/console/chat") then Some (LegacyPath (js "/dashboard"))
  else if starts_with (js "/console/chat/") pathname then
    match drop (length (js "/console/chat/")) pathname with
    | [] => Some (LegacyPath (js "/dashboard"))
    | chatID => Some (LegacyPath (js "/chat/" ++ chatID))
    end
  else
    match assoc_str legacyConsoleRoutes pathname with
    | Some target => Some (LegacyPath target)
    | None => if starts_with (js "/console/") pathname then Some (LegacyPath (js "/dashboard")) else None
    end.

Section Legacy.
Context `{URLHost}.
(** [String(value)] of an inherited member. *)
Variable inherited_text : str -> str.

(** [None]: the constructor throws on the target. *)
Definition buildTargetHref (target : LegacyTarget) (source : URLRecord) : option str :=
  let targetPath := match target with LegacyPath path => path | LegacyInherited name => inherited_text name end in
  target ← new_URL targetPath (Some legacyOrigin);
  let params := url_params target ++ url_params source in
  Some (url_pathname target ++ (match url_params source with [] => url_search target | _ => search_text params end) ++
        url_hash source).

(** [None]: no redirect; [Some None]: the guard throws. *)
Definition resolveLegacyRoute (rawHref : str) : option (option str) :=
  source ← new_URL rawHref (Some legacyOrigin);
  target ← legacy_target (normalizeLegacyPath (url_pathname source)) (assoc_str (url_params source) (js "tab"));
  Some (buildTargetHref target source).
End Legacy.

(** ** Sections of pages *)

Inductive SettingsArea :=
  area_auth | area_content | area_billing | area_models | area_operations | area_site | area_security.

Definition AUTH_SECTION_IDS : list str :=
  [js "basic-auth"; js "oauth"; js "passkey"; js "bot-protection"; js "custom-oauth"].
Definition CONTENT_SECTION_IDS : list str :=
  [js "dashboard"; js "announcements"; js "api-info"; js "faq"; js "uptime-kuma"; js "chat"; js "drawing"].
Definition BILLING_SECTION_IDS : list str :=
  [js "quota"; js "currency"; js "model-pricing"; js "group-pricing"; js "payment"; js "checkin"].
Definition MODELS_SETTINGS_SECTION_IDS : list str :=
  [js "global"; js "routing-reliability"; js "gemini"; js "claude"; js "grok"; js "channel-affinity";
   js "model-deployment"].
Definition OPERATIONS_SECTION_IDS : list str := [js "behavior"; js "alerts"; js "email"; js "worker"; js "logs"].
Definition SITE_SECTION_IDS : list str := [js "system-info"; js "notice"; js "header-navigation"; js "sidebar-modules"].
Definition SECURITY_SECTION_IDS : list str := [js "rate-limit"; js "sensitive-words"; js "ssrf"; js "token-limits"].

Definition area_sections (area : SettingsArea) : list str :=
  match area with
  | area_auth => AUTH_SECTION_IDS
  | area_content => CONTENT_SECTION_IDS
  | area_billing => BILLING_SECTION_IDS
  | area_models => MODELS_SETTINGS_SECTION_IDS
  | area_operations => OPERATIONS_SECTION_IDS
  | area_site => SITE_SECTION_IDS
  | area_security => SECURITY_SECTION_IDS
  end.

Definition area_default (area : SettingsArea) : str :=
  match area with
  | area_auth => js "basic-auth"
  | area_content => js "dashboard"
  | area_billing => js "quota"
  | area_models => js "global"
  | area_operations => js "behavior"
  | area_site => js "system-info"
  | area_security => js "rate-limit"
  end.

Definition USAGE_LOGS_SECTION_IDS : list str := [js "common"; js "drawing"; js "task"].
Definition USAGE_LOGS_DEFAULT_SECTION : str := js "common".
Definition MODELS_SECTION_IDS : list str := [js "metadata"; js "vendors"; js "deployments"].
Definition MODELS_DEFAULT_SECTION : str := js "metadata".
Definition DASHBOARD_SECTION_IDS : list str := [js "overview"; js "models"; js "flow"; js "users"].
Definition DASHBOARD_DEFAULT_SECTION : str := js "overview".

Definition isUsageLogsSectionId (s : str) : bool := includes_str USAGE_LOGS_SECTION_IDS s.

(** ** Pages *)

(** The pages with a guard of their own; the others are known by their path
    and whether they are below the layout for signed-in users. *)
Inductive Route :=
| R_public (path : str)
| R_member (path : str)
| R_home | R_403 | R_setup
| R_rankings | R_pricing | R_model_details (modelId : str)
| R_register | R_sign_up | R_sign_in
| R_dashboard | R_dashboard_section (section : str)
| R_usage_logs | R_usage_logs_section (section : str)
| R_models | R_models_section (section : str)
| R_channels | R_users | R_redemption_codes | R_subscriptions | R_task_plugins | R_system_info | R_playground
| R_settings | R_settings_area (area : SettingsArea) | R_settings_section (area : SettingsArea) (section : str).

(** The validated search parameters the guards look at. *)
Record Search := MkSearch { sr_redirect : option str; sr_type : option (list str) }.
Definition no_search : Search := MkSearch None None.

Record Location := MkLocation { loc_route : Route; loc_search : Search; loc_href : str; loc_pathname : str }.

Inductive Redirect :=
| RedirectTo (route : Route) (search : Search)
| RedirectHref (href : str).

(** What a guard does: nothing, a redirect, or an exception. *)
Inductive GuardResult := Pass | Redirected (r : Redirect) | Broken.

(** [getSetupStatus]: [success] and [data.status], where there is data. *)
Record SetupResponse := MkSetupResponse { setup_success : bool; setup_data : option bool }.

(** What the guards read: the session once it is resolved, the answers of the
    server, the stored status and the page's origin. *)
Record NavEnv := MkNavEnv {
  env_auth : AuthState;
  env_setup : option SetupResponse;
  env_setupStatusChecked : bool;
  env_status : option jsval;
  env_cached : option str;
  env_origin : str
}.

Section Guards.
Context `{JSHost} `{URLHost}.
Variable inherited_text : str -> str.
Implicit Types (env : NavEnv) (loc : Location).

Definition to_403 : GuardResult := Redirected (RedirectTo R_403 no_search).
Definition to_sign_in loc : GuardResult := Redirected (RedirectTo R_sign_in (MkSearch (Some (loc_href loc)) None)).

(** [routes/__root.tsx]: whether the site still has to be set up. *)
Definition setup_pending env : bool :=
  match env_setup env with
  | Some (MkSetupResponse true (Some status)) => negb status
  | _ => false
  end.

Definition needs_setup_check env loc : bool :=
  negb (env_setupStatusChecked env) && negb (starts_with (js "/setup") (loc_pathname loc)).

Definition root_guard env loc : GuardResult :=
  match resolveLegacyRoute inherited_text (loc_href loc) with
  | Some (Some (c :: legacyTarget)) => Redirected (RedirectHref (c :: legacyTarget))
  | Some None => Broken
  | _ =>
      if needs_setup_check env loc && setup_pending env then Redirected (RedirectTo R_setup no_search) else Pass
  end.

(** The module variable after the root guard has passed. *)
Definition setup_checked_after env loc : bool :=
  env_setupStatusChecked env ||
  (needs_setup_check env loc &&
   match env_setup env with Some (MkSetupResponse true (Some true)) => true | _ => false end).

(** [routes/_authenticated/route.tsx] *)
Definition authenticated_guard env loc : GuardResult :=
  match user (env_auth env), accessToken (env_auth env) with
  | Some _, Some (_ :: _) => Pass
  | _, _ => to_sign_in loc
  end.

Definition admin_guard env : GuardResult :=
  match user (env_auth env) with
  | Some u => if num_ltb (role u) ROLE_ADMIN then to_403 else Pass
  | None => to_403
  end.

Definition super_admin_guard env : GuardResult :=
  match user (env_auth env) with
  | Some u => if num_eqb (role u) ROLE_SUPER_ADMIN then Pass else to_403
  | None => to_403
  end.

Definition module_guard (module : HeaderNavModule) env loc : GuardResult :=
  let access := getModuleAccessForGuard (env_status env) module in
  if negb (enabled access) then Redirected (RedirectTo R_home no_search)
  else if requireAuth access then
    match user (env_auth env) with Some _ => Pass | None => to_sign_in loc end
  else Pass.

Definition sign_in_guard env loc : GuardResult :=
  match user (env_auth env) with
  | Some _ =>
      let redirect := match sr_redirect (loc_search loc) with Some s => JStr s | None => JUndefined end in
      Redirected (RedirectHref (default (js "/dashboard") (sanitizeAuthRedirect redirect (env_origin env))))
  | None => Pass
  end.

Definition setup_guard env : GuardResult :=
  match env_setup env with
  | Some (MkSetupResponse true (Some true)) => Redirected (RedirectTo R_home no_search)
  | _ => Pass
  end.

Definition has_type_search (search : Search) : bool :=
  match sr_type search with Some (_ :: _) => true | _ => false end.

Definition to_page (r : Route) : GuardResult := Redirected (RedirectTo r no_search).

Definition register_guard loc : GuardResult := Redirected (RedirectTo R_sign_up (loc_search loc)).

Definition sign_up_guard env : GuardResult :=
  match user (env_auth env) with Some _ => to_page R_dashboard | None => Pass end.

Definition dashboard_guard : GuardResult := to_page (R_dashboard_section DASHBOARD_DEFAULT_SECTION).

Definition dashboard_section_guard (section : str) : GuardResult :=
  if includes_str DASHBOARD_SECTION_IDS section then Pass
  else to_page (R_dashboard_section DASHBOARD_DEFAULT_SECTION).

Definition usage_logs_guard : GuardResult := to_page (R_usage_logs_section USAGE_LOGS_DEFAULT_SECTION).

Definition usage_logs_section_guard (section : str) loc : GuardResult :=
  if negb (isUsageLogsSectionId section) then to_page (R_usage_logs_section USAGE_LOGS_DEFAULT_SECTION)
  else if negb (str_eqb section (js "common")) && has_type_search (loc_search loc)
  then Redirected (RedirectTo (R_usage_logs_section section) (MkSearch (sr_redirect (loc_search loc)) None))
  else Pass.

Definition models_guard env : GuardResult :=
  match admin_guard env with
  | Pass => to_page (R_models_section MODELS_DEFAULT_SECTION)
  | r => r
  end.

Definition models_section_guard (section : str) env : GuardResult :=
  match admin_guard env with
  | Pass =>
      if includes_str MODELS_SECTION_IDS section then Pass else to_page (R_models_section MODELS_DEFAULT_SECTION)
  | r => r
  end.

Definition system_info_guard : GuardResult := to_403.

Definition playground_guard env : GuardResult :=
  match isSidebarModuleEnabled (env_cached env) (js "chat") (js "playground") with
  | Ok true => Pass
  | Ok false => to_page R_dashboard
  | _ => Broken
  end.

Definition settings_guard : GuardResult := to_page (R_settings_area area_site).

(** [system-settings/<area>/index.tsx] *)
Definition settings_area_guard (area : SettingsArea) : GuardResult :=
  to_page (R_settings_section area (area_default area)).

(** [system-settings/<area>/$section.tsx], all areas but the operations. *)
Definition settings_section_guard (area : SettingsArea) (section : str) : GuardResult :=
  if includes_str (area_sections area) section then Pass
  else to_page (R_settings_section area (area_default area)).

Definition operations_section_guard (section : str) : GuardResult :=
  if str_eqb section (js "monitoring") then to_page (R_settings_section area_models (js "routing-reliability"))
  else settings_section_guard area_operations section.

(** The guard of the page itself. *)
Definition page_guard env loc : GuardResult :=
  match loc_route loc with
  | R_public _ | R_member _ | R_home | R_403 => Pass
  | R_setup => setup_guard env
  | R_rankings => module_guard rankings env loc
  | R_pricing | R_model_details _ => module_guard pricing env loc
  | R_register => register_guard loc
  | R_sign_up => sign_up_guard env
  | R_sign_in => sign_in_guard env loc
  | R_dashboard => dashboard_guard
  | R_dashboard_section section => dashboard_section_guard section
  | R_usage_logs => usage_logs_guard
  | R_usage_logs_section section => usage_logs_section_guard section loc
  | R_models => models_guard env
  | R_models_section section => models_section_guard section env
  | R_channels | R_users | R_redemption_codes | R_subscriptions => admin_guard env
  | R_task_plugins => super_admin_guard env
  | R_system_info => system_info_guard
  | R_playground => playground_guard env
  | R_settings => settings_guard
  | R_settings_area area => settings_area_guard area
  | R_settings_section area section =>
      match area with
      | area_operations => operations_section_guard section
      | _ => settings_section_guard area section
      end
  end.

(** The pages below the layout for signed-in users. *)
Definition is_member_route (r : Route) : bool :=
  match r with
  | R_public _ | R_home | R_403 | R_setup | R_rankings | R_pricing | R_model_details _
  | R_register | R_sign_up | R_sign_in => false
  | _ => true
  end.

Definition is_settings_route (r : Route) : bool :=
  match r with R_settings | R_settings_area _ | R_settings_section _ _ => true | _ => false end.

(** The guards of a page, outermost first. *)
Definition guards (r : Route) : list (NavEnv -> Location -> GuardResult) :=
  [root_guard] ++
  (if is_member_route r then [authenticated_guard] else []) ++
  (if is_settings_route r then [fun env _ => super_admin_guard env] else []) ++ [page_guard].

Fixpoint run_guards (gs : list (NavEnv -> Location -> GuardResult)) env loc : GuardResult :=
  match gs with
  | [] => Pass
  | g :: gs => match g env loc with Pass => run_guards gs env loc | r => r end
  end.

Definition before_load env loc : GuardResult := run_guards (guards (loc_route loc)) env loc.

(** ** Navigations *)

Inductive NavResult := Settled (loc : Location) | HandedOver (from : Location) (href : str) | Failed | NotYet.

(** The router's address of a page. *)
Variable location_of : Route -> Search -> Location.

Fixpoint navigate (fuel : nat) env loc : NavResult :=
  match fuel with
  | O => NotYet
  | S fuel =>
      let env' := MkNavEnv (env_auth env) (env_setup env) (setup_checked_after env loc) (env_status env)
                    (env_cached env) (env_origin env) in
      match before_load env loc with
      | Pass => Settled loc
      | Redirected (RedirectTo r s) => navigate fuel env' (location_of r s)
      | Redirected (RedirectHref href) => HandedOver loc href
      | Broken => Failed
      end
  end.
End Guards.
