(* ===== verification/NavFacts.v ===== *)
(** * Navigations end, and only on pages the visitor may see

    Every chain of redirects between pages ends after a few steps; where it
    ends, the guards of that page have passed.  A session whose user and token
    are stored together is never sent back to the sign-in page. *)

From Stdlib Require Import ZArith Lia Bool SpecFloat.
From stdpp Require Import base list numbers.
From S2P Require Import Prelude JsString JsNumber JsObject JsValue JsJson JsDynamic JsURL JsHost AuthStore NavModules NavGuards.

(** ** How far a page is from the end of its redirects *)

Definition valid_section (area : SettingsArea) (section : str) : bool := includes_str (area_sections area) section.

Definition route_rank (r : Route) (s : Search) : nat :=
  match r with
  | R_public _ | R_home | R_403 | R_sign_in => 0
  | R_setup | R_rankings | R_pricing | R_model_details _ => 1
  | R_dashboard_section section => if includes_str DASHBOARD_SECTION_IDS section then 1 else 2
  | R_dashboard => 3
  | R_sign_up => 4
  | R_register => 5
  | R_usage_logs_section section =>
      if negb (isUsageLogsSectionId section) then 3 else if has_type_search s then 2 else 1
  | R_usage_logs => 4
  | R_models_section section => if includes_str MODELS_SECTION_IDS section then 1 else 2
  | R_models => 3
  | R_settings_section area section => if valid_section area section then 1 else 2
  | R_settings_area _ => 3
  | R_settings => 4
  | R_playground => 4
  | R_member _ | R_channels | R_users | R_redemption_codes | R_subscriptions | R_task_plugins | R_system_info => 1
  end.

Lemma rank_bound r s : route_rank r s <= 5.
Proof. destruct r; cbn; repeat case_match; lia. Qed.

(** The guards of the pages, opened down to their tests. *)
Create HintDb page_guards.
#[export] Hint Unfold page_guard register_guard sign_up_guard dashboard_guard dashboard_section_guard usage_logs_guard
  usage_logs_section_guard models_guard models_section_guard system_info_guard playground_guard settings_guard
  settings_area_guard operations_section_guard settings_section_guard to_page isUsageLogsSectionId : page_guards.

Ltac closer := simplify_eq; first [cbn; lia | vm_compute; lia].

Section NavFacts.
Context `{JSHost} `{URLHost} (inherited_text : str -> str) (location_of : Route -> Search -> Location).

(** The router makes the address of the page it is asked for. *)
Record router_ok : Prop := {
  location_route r s : loc_route (location_of r s) = r;
  location_search r s : loc_search (location_of r s) = s;
  location_setup s : starts_with (js "/setup") (loc_pathname (location_of R_setup s)) = true
}.
Hypothesis router : router_ok.

Notation root_guard := (root_guard inherited_text).
Notation before_load := (before_load inherited_text).
Notation navigate := (navigate inherited_text location_of).

Definition loc_rank (loc : Location) : nat := route_rank (loc_route loc) (loc_search loc).

(** *** The guards one by one *)

Lemma member_rank loc : is_member_route (loc_route loc) = true -> 0 < loc_rank loc.
Proof. unfold loc_rank. destruct (loc_route loc); cbn; try done; intros _; repeat case_match; lia. Qed.

Lemma admin_guard_to env r s : admin_guard env = Redirected (RedirectTo r s) -> r = R_403.
Proof. unfold admin_guard, to_403. intros E. repeat case_match; congruence. Qed.

Lemma super_guard_to env r s : super_admin_guard env = Redirected (RedirectTo r s) -> r = R_403.
Proof. unfold super_admin_guard, to_403. intros E. repeat case_match; congruence. Qed.

Lemma authenticated_guard_to env loc r s : authenticated_guard env loc = Redirected (RedirectTo r s) -> r = R_sign_in.
Proof. unfold authenticated_guard, to_sign_in. intros E. repeat case_match; congruence. Qed.

Lemma module_guard_to m env loc r s : module_guard m env loc = Redirected (RedirectTo r s) -> r = R_home \/ r = R_sign_in.
Proof. unfold module_guard, to_sign_in. intros E. repeat case_match; simplify_eq; auto. Qed.

Lemma default_section_valid area : valid_section area (area_default area) = true.
Proof. by destruct area. Qed.

(** The page's own guard leads closer to the end. *)
Lemma page_guard_rank env loc r s : page_guard env loc = Redirected (RedirectTo r s) -> route_rank r s < loc_rank loc.
Proof.
  autounfold with page_guards. unfold loc_rank. destruct (loc_route loc) as [| | | | | | |m| | | | |sec| |sec| |sec| | | | | | | | |area|area sec] eqn:R;
    intros E; try done; cbn [route_rank].
  - unfold setup_guard in E. repeat case_match; closer.
  - apply module_guard_to in E as [-> | ->]; closer.
  - apply module_guard_to in E as [-> | ->]; closer.
  - apply module_guard_to in E as [-> | ->]; closer.
  - closer.
  - case_match; closer.
  - unfold sign_in_guard in E. case_match; simplify_eq.
  - closer.
  - destruct (includes_str DASHBOARD_SECTION_IDS sec); closer.
  - closer.
  - unfold isUsageLogsSectionId. destruct (includes_str USAGE_LOGS_SECTION_IDS sec) eqn:V; cbn [negb] in E |- *.
    + destruct (negb (str_eqb sec (js "common"))); [|done]. destruct (has_type_search (loc_search loc)) eqn:T; [|done].
      cbn in E. injection E as <- <-. cbn [route_rank]. unfold isUsageLogsSectionId. rewrite V. closer.
    + closer.
  - destruct (admin_guard env) as [|[r' s'|]|] eqn:A; simplify_eq; [closer|]. apply admin_guard_to in A as ->. closer.
  - destruct (admin_guard env) as [|[r' s'|]|] eqn:A; simplify_eq.
    + destruct (includes_str MODELS_SECTION_IDS sec); closer.
    + apply admin_guard_to in A as ->. cbn. case_match; lia.
  - apply admin_guard_to in E as ->. closer.
  - apply admin_guard_to in E as ->. closer.
  - apply admin_guard_to in E as ->. closer.
  - apply admin_guard_to in E as ->. closer.
  - apply super_guard_to in E as ->. closer.
  - unfold to_403 in E. closer.
  - repeat case_match; closer.
  - closer.
  - simplify_eq. cbn [route_rank]. rewrite default_section_valid. lia.
  - unfold valid_section. destruct area;
      try (destruct (includes_str _ sec); simplify_eq; cbn [route_rank]; rewrite default_section_valid; lia).
    destruct (str_eqb sec (js "monitoring")) eqn:M.
    + apply str_eqb_eq in M as ->. closer.
    + destruct (includes_str _ sec); simplify_eq; cbn [route_rank]; rewrite default_section_valid; lia.
Qed.

(** A redirect is the root's to the set-up page, or leads closer. *)
Lemma before_load_rank env loc r s : before_load env loc = Redirected (RedirectTo r s) ->
  (r = R_setup /\ setup_pending env = true) \/ route_rank r s < loc_rank loc.
Proof.
  unfold NavGuards.before_load, guards. cbn [app run_guards].
  destruct (root_guard env loc) as [|r0|] eqn:G; [|intros E; left|done].
  2: { injection E as ->. unfold NavGuards.root_guard in G. repeat case_match; simplify_eq; by split_andb. }
  destruct (is_member_route (loc_route loc)) eqn:M; cbn [app run_guards].
  - destruct (authenticated_guard env loc) as [|r0|] eqn:A; [|intros E; right|done].
    2: { injection E as ->. apply authenticated_guard_to in A as ->. cbn. by apply member_rank. }
    destruct (is_settings_route (loc_route loc)); cbn [app run_guards].
    + destruct (super_admin_guard env) as [|r0|] eqn:S; [|intros E; right|done].
      2: { injection E as ->. apply super_guard_to in S as ->. cbn. by apply member_rank. }
      destruct (page_guard env loc) eqn:P; [done| |done]. intros [= ->]. right. by apply (page_guard_rank env).
    + destruct (page_guard env loc) eqn:P; [done| |done]. intros [= ->]. right. by apply (page_guard_rank env).
  - assert (is_settings_route (loc_route loc) = false) as -> by (destruct (loc_route loc); done). cbn [app run_guards].
    destruct (page_guard env loc) eqn:P; [done| |done]. intros [= ->]. right. by apply (page_guard_rank env).
Qed.

(** *** Chains of redirects *)

Lemma root_guard_href env loc : starts_with (js "/setup") (loc_pathname loc) = true ->
  forall r s, root_guard env loc <> Redirected (RedirectTo r s).
Proof.
  intros S r s G. unfold NavGuards.root_guard, needs_setup_check in G. rewrite S, andb_false_r in G. cbn in G.
  repeat case_match; simplify_eq.
Qed.

(** The set-up page ends a navigation while the set-up is pending. *)
Lemma setup_ends env s fuel : setup_pending env = true -> navigate (S fuel) env (location_of R_setup s) <> NotYet.
Proof.
  intros P. cbn [NavGuards.navigate]. unfold NavGuards.before_load, guards. rewrite (location_route router).
  cbn [is_member_route is_settings_route app run_guards].
  destruct (root_guard env (location_of R_setup s)) as [|[r s'|href]|] eqn:G; try done.
  - assert (page_guard env (location_of R_setup s) = Pass) as ->; [|done].
    unfold page_guard. rewrite (location_route router). unfold setup_guard, setup_pending in *.
    destruct (env_setup env) as [[[] [[]|]]|]; done.
  - by apply root_guard_href in G; [|apply (location_setup router)].
Qed.

Lemma navigate_ends n : forall env loc, loc_rank loc < n -> navigate (n + 2) env loc <> NotYet.
Proof.
  induction n as [|n IH]; intros env loc L; [lia|]. cbn [Nat.add NavGuards.navigate].
  destruct (before_load env loc) as [|[r s|href]|] eqn:B; try done. apply before_load_rank in B as [[-> P]|R].
  - rewrite Nat.add_comm. by apply setup_ends.
  - apply IH. unfold loc_rank. rewrite (location_route router), (location_search router). lia.
Qed.

(** *** Where a navigation ends *)

Definition signed_in (a : AuthState) : Prop :=
  exists u t, user a = Some u /\ accessToken a = Some t /\ t <> [].

Definition has_role (a : AuthState) (test : num -> bool) : Prop :=
  exists u, user a = Some u /\ test (role u) = true.

Definition is_admin_role (r : num) : bool := negb (num_ltb r ROLE_ADMIN).
Definition is_super_role (r : num) : bool := num_eqb r ROLE_SUPER_ADMIN.

Definition is_admin_route (r : Route) : bool :=
  match r with
  | R_models_section _ | R_channels | R_users | R_redemption_codes | R_subscriptions => true
  | _ => false
  end.

Definition module_open (env : NavEnv) (m : HeaderNavModule) : Prop :=
  exists status access, env_status env = Some status /\ getModuleAccessFromStatus status m = Ok access /\
    enabled access = true /\ (requireAuth access = true -> is_Some (user (env_auth env))).

Definition section_known (r : Route) : Prop :=
  match r with
  | R_settings_section area section => section ∈ area_sections area
  | R_models_section section => section ∈ MODELS_SECTION_IDS
  | R_dashboard_section section => section ∈ DASHBOARD_SECTION_IDS
  | R_usage_logs_section section => section ∈ USAGE_LOGS_SECTION_IDS
  | R_dashboard | R_usage_logs | R_models | R_settings | R_settings_area _ | R_register | R_system_info => False
  | _ => True
  end.

(** What the page itself asks for, other than a signed-in user. *)
Definition page_condition (env : NavEnv) (loc : Location) : Prop :=
  match loc_route loc with
  | R_setup => env_setup env <> Some (MkSetupResponse true (Some true))
  | R_rankings => module_open env rankings
  | R_pricing | R_model_details _ => module_open env pricing
  | R_sign_in | R_sign_up => user (env_auth env) = None
  | R_playground => isSidebarModuleEnabled (env_cached env) (js "chat") (js "playground") = Ok true
  | R_usage_logs_section section => section = js "common" \/ has_type_search (loc_search loc) = false
  | _ => True
  end.

(** The promise of the guards: who may see a page. *)
Record page_allowed (env : NavEnv) (loc : Location) : Prop := {
  allowed_member : is_member_route (loc_route loc) = true -> signed_in (env_auth env);
  allowed_admin : is_admin_route (loc_route loc) = true -> has_role (env_auth env) is_admin_role;
  allowed_super : is_settings_route (loc_route loc) = true \/ loc_route loc = R_task_plugins ->
    has_role (env_auth env) is_super_role;
  allowed_condition : page_condition env loc;
  allowed_section : section_known (loc_route loc)
}.

Lemma admin_guard_pass env : admin_guard env = Pass <-> has_role (env_auth env) is_admin_role.
Proof.
  unfold admin_guard, to_403, has_role, is_admin_role. destruct (user (env_auth env)) as [u|].
  - destruct (num_ltb (role u) ROLE_ADMIN) eqn:E; (split; [try done; intros _; exists u; by rewrite E|]);
      [|done]. intros (u' & [= <-] & T). by rewrite E in T.
  - split; [done|]. by intros (u & ? & _).
Qed.

Lemma super_guard_pass env : super_admin_guard env = Pass <-> has_role (env_auth env) is_super_role.
Proof.
  unfold super_admin_guard, to_403, has_role, is_super_role. destruct (user (env_auth env)) as [u|].
  - destruct (num_eqb (role u) ROLE_SUPER_ADMIN) eqn:E; split; try done; [by exists u|]. intros (u' & [= <-] & T). congruence.
  - split; [done|]. by intros (u & ? & _).
Qed.

Lemma authenticated_pass env loc : authenticated_guard env loc = Pass <-> signed_in (env_auth env).
Proof.
  unfold authenticated_guard, to_sign_in, signed_in. split.
  - destruct (user (env_auth env)) as [u|]; [|done].
    destruct (accessToken (env_auth env)) as [[|c t]|]; [done| |done]. intros _. by exists u, (c :: t).
  - intros (u & t & -> & -> & N). by destruct t.
Qed.

(** The guard fails closed: it passes only on a status that was read. *)
Lemma module_guard_pass m env loc : module_guard m env loc = Pass <-> module_open env m.
Proof.
  unfold module_guard, getModuleAccessForGuard, module_open. split.
  - destruct (env_status env) as [status|]; [|done].
    destruct (getModuleAccessFromStatus status m) as [access| |] eqn:A; [|done|done].
    destruct (enabled access) eqn:E; [|done]. cbn [negb]. intros P. exists status, access. split; [done|]. split; [done|].
    split; [done|]. intros R. rewrite R in P. by destruct (user (env_auth env)).
  - intros (status & access & -> & -> & -> & R). cbn [negb]. destruct (requireAuth access); [|done].
    by destruct (user (env_auth env)); [|destruct (R eq_refl)].
Qed.

Lemma run_guards_pass gs env loc : run_guards gs env loc = Pass <-> forall g, In g gs -> g env loc = Pass.
Proof.
  induction gs as [|g' gs IH]; cbn [run_guards In]; [by split|]. destruct (g' env loc) eqn:G.
  - rewrite IH. split; [intros R g [-> | I]; auto|auto].
  - split; [done|]. intros R. by rewrite (R g' (or_introl eq_refl)) in G.
  - split; [done|]. intros R. by rewrite (R g' (or_introl eq_refl)) in G.
Qed.

Lemma section_redirect (b : bool) r s : (if b then Pass else Redirected (RedirectTo r s)) = Pass <-> b = true.
Proof. by destruct b. Qed.

Lemma includes_redirect l sec r s : (if includes_str l sec then Pass else Redirected (RedirectTo r s)) = Pass <-> sec ∈ l.
Proof. rewrite section_redirect. apply includes_str_elem. Qed.

Lemma settings_sections area sec env loc : loc_route loc = R_settings_section area sec ->
  (page_guard env loc = Pass <-> sec ∈ area_sections area).
Proof.
  intros R. autounfold with page_guards. rewrite R. destruct area; try apply includes_redirect.
  destruct (str_eqb sec (js "monitoring")) eqn:M; [|apply includes_redirect].
  apply str_eqb_eq in M as ->. split; [done|]. intros I. apply includes_str_elem in I. by vm_compute in I.
Qed.

Lemma usage_sections sec env loc : loc_route loc = R_usage_logs_section sec ->
  (page_guard env loc = Pass <->
   sec ∈ USAGE_LOGS_SECTION_IDS /\ (sec = js "common" \/ has_type_search (loc_search loc) = false)).
Proof.
  intros R. autounfold with page_guards. rewrite R, <- includes_str_elem, <- (str_eqb_eq sec).
  destruct (includes_str _ sec), (str_eqb sec _), (has_type_search _); cbn; naive_solver.
Qed.

Lemma model_sections sec env loc : loc_route loc = R_models_section sec ->
  (page_guard env loc = Pass <-> has_role (env_auth env) is_admin_role /\ sec ∈ MODELS_SECTION_IDS).
Proof.
  intros R. autounfold with page_guards. rewrite R, <- admin_guard_pass.
  destruct (admin_guard env); [rewrite includes_redirect|..]; naive_solver.
Qed.

(** The page's own guard is exact. *)
Definition page_promise (env : NavEnv) (loc : Location) : Prop :=
  (is_admin_route (loc_route loc) = true -> has_role (env_auth env) is_admin_role) /\
  (loc_route loc = R_task_plugins -> has_role (env_auth env) is_super_role) /\
  page_condition env loc /\ section_known (loc_route loc).

Lemma page_guard_pass env loc : page_guard env loc = Pass <-> page_promise env loc.
Proof.
  unfold page_promise, page_condition.
  destruct (loc_route loc) as [| | | | | | |m| | | | |sec| |sec| |sec| | | | | | | | |area|area sec] eqn:R;
    cbn [is_admin_route section_known].
  all: try (rewrite (usage_sections _ _ _ R) || rewrite (model_sections _ _ _ R) || rewrite (settings_sections _ _ _ _ R);
            naive_solver).
  all: autounfold with page_guards; rewrite R.
  all: try (rewrite module_guard_pass || rewrite admin_guard_pass || rewrite super_guard_pass || rewrite includes_redirect;
            naive_solver).
  all: try naive_solver.
  - unfold setup_guard. destruct (env_setup env) as [[[] [[]|]]|]; naive_solver.
  - destruct (user (env_auth env)); naive_solver.
  - unfold sign_in_guard. destruct (user (env_auth env)); naive_solver.
  - destruct (admin_guard env); naive_solver.
  - destruct (isSidebarModuleEnabled _ _ _) as [[]| |]; naive_solver.
Qed.

Lemma before_load_pass env loc : before_load env loc = Pass <-> root_guard env loc = Pass /\ page_allowed env loc.
Proof.
  unfold NavGuards.before_load. rewrite run_guards_pass. unfold guards. split.
  - intros Each. assert (page_promise env loc) as (A & T & C & K).
    { apply page_guard_pass, Each. rewrite !in_app_iff. cbn. auto. }
    split; [apply Each; rewrite in_app_iff; cbn; auto|]. split; [| | |done|done].
    + intros M. apply (authenticated_pass env loc), Each. rewrite M, !in_app_iff. cbn. auto.
    + done.
    + intros [M|M]; [|auto]. apply super_guard_pass, (Each (fun env _ => super_admin_guard env)).
      rewrite M, !in_app_iff. cbn. auto.
  - intros [R [M A S C K]] g. rewrite !in_app_iff. cbn [In].
    intros [[<- | []] | [I | [I | [<- | []]]]]; [done| | |].
    + destruct (is_member_route _); [|done]. destruct I as [<- | []]. by apply authenticated_pass, M.
    + destruct (is_settings_route _); [|done]. destruct I as [<- | []]. by apply super_guard_pass, S; left.
    + apply page_guard_pass. split; [done|]. split; [intros T; apply S; by right|]. done.
Qed.

Lemma page_allowed_ext env env' loc :
  env_auth env = env_auth env' -> env_setup env = env_setup env' -> env_status env = env_status env' ->
  env_cached env = env_cached env' -> page_allowed env loc -> page_allowed env' loc.
Proof.
  intros A U S C [M D P Q K]. rewrite A in M, D, P. split; try done.
  unfold page_condition, module_open in *. rewrite A, U, S, C in Q. done.
Qed.

Lemma settled_allowed fuel : forall env loc loc', navigate fuel env loc = Settled loc' -> page_allowed env loc'.
Proof.
  induction fuel as [|fuel IH]; intros env loc loc' N; [done|]. cbn [NavGuards.navigate] in N.
  destruct (before_load env loc) as [|[r s|]|] eqn:B; try done.
  - injection N as <-. by apply before_load_pass in B as [_ B].
  - apply IH in N. revert N. by apply page_allowed_ext.
Qed.

(** With the user and the token stored together, no guard asks to sign in. *)
Lemma no_sign_in_bounce env loc s : signed_in (env_auth env) ->
  before_load env loc <> Redirected (RedirectTo R_sign_in s).
Proof.
  intros S B. assert (exists g, In g (guards inherited_text (loc_route loc)) /\ g env loc = Redirected (RedirectTo R_sign_in s))
    as (g & I & G).
  { revert B. unfold NavGuards.before_load. induction (guards inherited_text (loc_route loc)) as [|g gs IH]; cbn [run_guards]; [done|].
    destruct (g env loc) eqn:G; intros B; [|exists g; split; [by left|congruence]|done].
    destruct (IH B) as (g' & I & G'). exists g'. split; [by right|done]. }
  unfold guards in I. rewrite !in_app_iff in I. destruct I as [[<- | []] | [I | [I | [<- | []]]]].
  - unfold NavGuards.root_guard in G. repeat case_match; congruence.
  - destruct (is_member_route _); [|done]. destruct I as [<- | []]. apply (authenticated_pass env loc) in S. congruence.
  - destruct (is_settings_route _); [|done]. destruct I as [<- | []]. by apply super_guard_to in G.
  - destruct S as (u & t & U & _). autounfold with page_guards in G.
    unfold module_guard, sign_in_guard, admin_guard, super_admin_guard, setup_guard, to_403 in G.
    rewrite U in G. repeat case_match; congruence.
Qed.

(** A user stored without a token is sent to the sign-in page, which sends them
    back to where they came from: the two pages redirect to each other. *)
Lemma stray_user_bounces env loc u : user (env_auth env) = Some u -> accessToken (env_auth env) = None ->
  is_member_route (loc_route loc) = true -> env_setupStatusChecked env = true ->
  root_guard env loc = Pass ->
  root_guard env (location_of R_sign_in (MkSearch (Some (loc_href loc)) None)) = Pass ->
  sanitizeAuthRedirect (JStr (loc_href loc)) (env_origin env) = Some (loc_href loc) ->
  navigate 2 env loc = HandedOver (location_of R_sign_in (MkSearch (Some (loc_href loc)) None)) (loc_href loc).
Proof.
  intros U T M C G G' S. destruct env as [auth setup checked status cached origin]. cbn [env_auth env_origin env_setupStatusChecked] in U, T, C, S. subst checked.
  cbn [NavGuards.navigate]. unfold NavGuards.before_load at 1, guards. rewrite M. cbn [app run_guards]. rewrite G.
  assert (authenticated_guard (MkNavEnv auth setup true status cached origin) loc = to_sign_in loc) as A.
  { unfold authenticated_guard. cbn. by rewrite U, T. }
  rewrite A. cbn [to_sign_in]. unfold setup_checked_after. cbn [env_setupStatusChecked orb env_auth env_setup env_status env_cached env_origin].
  unfold NavGuards.before_load, guards. rewrite (location_route router). cbn [is_member_route is_settings_route app run_guards].
  rewrite G'. unfold page_guard, sign_in_guard. rewrite (location_route router), (location_search router). cbn [env_auth sr_redirect env_origin].
  by rewrite U, S.
Qed.

(** C16: however the session, the answers of the server and the stored status
    stand, a navigation ends after at most seven redirects between pages: on a
    page, at an address handed to the router, or with an exception. *)
Theorem navigation_terminates env loc : navigate 8 env loc <> NotYet.
Proof. apply (navigate_ends 6). pose proof (rank_bound (loc_route loc) (loc_search loc)). unfold loc_rank. lia. Qed.

(** C15: a page is shown only to those who may see it.  Wherever a navigation
    settles, the visitor of a member page has a user and a token, of an
    administrator's page an administrator's role, of the settings and the task
    plugins the super administrator's; the modules a visitor sees are enabled by
    a status that was read; sign-in and sign-up pages show to nobody signed in;
    and the section shown is one the page has.  Conversely, a page that may be
    seen is shown at once unless the root guard leads elsewhere. *)
Theorem settled_pages_allowed env loc :
  (forall fuel loc', navigate fuel env loc = Settled loc' -> page_allowed env loc') /\
  (root_guard env loc = Pass -> page_allowed env loc -> forall fuel, navigate (S fuel) env loc = Settled loc).
Proof.
  split; [intros fuel loc'; apply settled_allowed|]. intros R A fuel. cbn [NavGuards.navigate].
  by rewrite (proj2 (before_load_pass env loc) (conj R A)).
Qed.
End NavFacts.

(** ** A site to try it on *)

Definition demo_path (r : Route) : str :=
  match r with
  | R_setup => js "/setup" | R_sign_in => js "/sign-in" | R_channels => js "/channels" | R_403 => js "/403"
  | R_dashboard => js "/dashboard" | _ => js "/page"
  end.

Definition demo_location (r : Route) (s : Search) : Location := MkLocation r s (demo_path r) (demo_path r).

Lemma demo_router : router_ok demo_location.
Proof. by split. Defined.

Definition demo_user : AuthUser := MkAuthUser (num_of_Z 1) (js "root") (num_of_Z 100) [].

Definition demo_auth (u : option AuthUser) (token : option str) : AuthState :=
  MkAuthState u token None None None Complete.

Definition demo_env (u : option AuthUser) (token : option str) : NavEnv :=
  MkNavEnv (demo_auth u token) (Some (MkSetupResponse true (Some true))) true None None (js "https://site.example").

Lemma navigation_terminates_witness : navigate (H := utc_host) (H0 := plain_URL_host) (fun t => t) demo_location 8 (demo_env None None)
  (demo_location R_channels no_search) <> NotYet.
Proof. apply (navigation_terminates (H := utc_host) (H0 := plain_URL_host) (fun t => t) demo_location demo_router). Defined.

(** A signed-in super administrator sees the channels. *)
Lemma settled_pages_allowed_witness :
  page_allowed (H := utc_host) (demo_env (Some demo_user) (Some (js "token"))) (demo_location R_channels no_search).
Proof.
  apply (proj1 (settled_pages_allowed (H := utc_host) (H0 := plain_URL_host) (fun t => t) demo_location
                  (demo_env (Some demo_user) (Some (js "token"))) (demo_location R_channels no_search)) 8).
  vm_compute. reflexivity.
Defined.

(** A visitor is asked to sign in first. *)
Example visitor_signs_in :
  navigate (H := utc_host) (H0 := plain_URL_host) (fun t => t) demo_location 8 (demo_env None None) (demo_location R_channels no_search) =
  Settled (demo_location R_sign_in (MkSearch (Some (js "/channels")) None)).
Proof. vm_compute. reflexivity. Qed.

Example stray_user_loop :
  navigate (H := utc_host) (H0 := plain_URL_host) (fun t => t) demo_location 8 (demo_env (Some demo_user) None) (demo_location R_channels no_search) =
  HandedOver (demo_location R_sign_in (MkSearch (Some (js "/channels")) None)) (js "/channels").
Proof. vm_compute. reflexivity. Qed.

(** The tab of the performance settings of earlier versions leads to a section
    the operations settings do not have. *)
Example performance_tab_gone :
  legacy_target (js "/console/setting") (Some (js "performance")) =
    Some (LegacyPath (js "/system-settings/operations/performance")) /\
  includes_str (area_sections area_operations) (js "performance") = false.
Proof. vm_compute. done. Qed.

(** The name of a member every object inherits counts as a tab. *)
Example inherited_tab : legacy_target (js "/console/setting") (Some (js "constructor")) = Some (LegacyInherited (js "constructor")).
Proof. vm_compute. reflexivity. Qed.
