(* ===== verification/PlaygroundMessages.v ===== *)
(** * Messages of the playground

    Models the message libraries of the playground
    ([features/playground/lib/message], [types.ts], [constants.ts]) and the
    request payload ([lib/streaming/payload-builder.ts]).  A clock is the
    sequence of the readings of [Date.now()] during one call, and [ids] the
    identifiers [nanoid()] yields; the translation function is a parameter. *)

From Stdlib Require Import ZArith Lia Bool.
From stdpp Require Import base list numbers.
From S2P Require Import Prelude JsString JsNumber JsValue JsDynamic.

(** ** Data *)

Inductive MessageRole := FromUser | FromAssistant | FromSystem.
Inductive MessageStatus := StatusLoading | StatusStreaming | StatusComplete | StatusError.

#[global] Instance MessageRole_eq_dec : EqDecision MessageRole.
Proof. solve_decision. Defined.
#[global] Instance MessageStatus_eq_dec : EqDecision MessageStatus.
Proof. solve_decision. Defined.

Record MessageVersion := MkVersion { version_id : str; version_content : str }.
Record MessageSource := MkSource { source_href : str; source_title : str }.

Record Reasoning := MkReasoning {
  rs_content : str;
  rs_duration : num;
  rs_startedAt : option num;
  rs_completedAt : option num;
  rs_durationMs : option num
}.

(** [msg_errorCode] is whatever the server sent as a code, [null] or absent. *)
Record Message := MkMessage {
  msg_key : str;
  msg_from : MessageRole;
  msg_versions : list MessageVersion;
  msg_createdAt : option num;
  msg_startedAt : option num;
  msg_completedAt : option num;
  msg_durationMs : option num;
  msg_sources : option (list MessageSource);
  msg_reasoning : option Reasoning;
  msg_isReasoningStreaming : option bool;
  msg_isReasoningComplete : option bool;
  msg_isContentComplete : option bool;
  msg_status : option MessageStatus;
  msg_errorCode : jsval
}.

(** *** Spreads: [{ ...message, field: value }] *)

Definition with_versions (v : list MessageVersion) (m : Message) : Message :=
  MkMessage (msg_key m) (msg_from m) v (msg_createdAt m) (msg_startedAt m) (msg_completedAt m) (msg_durationMs m)
    (msg_sources m) (msg_reasoning m) (msg_isReasoningStreaming m) (msg_isReasoningComplete m) (msg_isContentComplete m)
    (msg_status m) (msg_errorCode m).

Definition with_createdAt (v : option num) (m : Message) : Message :=
  MkMessage (msg_key m) (msg_from m) (msg_versions m) v (msg_startedAt m) (msg_completedAt m) (msg_durationMs m)
    (msg_sources m) (msg_reasoning m) (msg_isReasoningStreaming m) (msg_isReasoningComplete m) (msg_isContentComplete m)
    (msg_status m) (msg_errorCode m).

Definition with_timing (startedAt completedAt durationMs : option num) (m : Message) : Message :=
  MkMessage (msg_key m) (msg_from m) (msg_versions m) (msg_createdAt m) startedAt completedAt durationMs
    (msg_sources m) (msg_reasoning m) (msg_isReasoningStreaming m) (msg_isReasoningComplete m) (msg_isContentComplete m)
    (msg_status m) (msg_errorCode m).

Definition with_reasoning (v : option Reasoning) (m : Message) : Message :=
  MkMessage (msg_key m) (msg_from m) (msg_versions m) (msg_createdAt m) (msg_startedAt m) (msg_completedAt m)
    (msg_durationMs m) (msg_sources m) v (msg_isReasoningStreaming m) (msg_isReasoningComplete m)
    (msg_isContentComplete m) (msg_status m) (msg_errorCode m).

Definition with_reasoning_streaming (v : bool) (m : Message) : Message :=
  MkMessage (msg_key m) (msg_from m) (msg_versions m) (msg_createdAt m) (msg_startedAt m) (msg_completedAt m)
    (msg_durationMs m) (msg_sources m) (msg_reasoning m) (Some v) (msg_isReasoningComplete m) (msg_isContentComplete m)
    (msg_status m) (msg_errorCode m).

Definition with_status (v : MessageStatus) (m : Message) : Message :=
  MkMessage (msg_key m) (msg_from m) (msg_versions m) (msg_createdAt m) (msg_startedAt m) (msg_completedAt m)
    (msg_durationMs m) (msg_sources m) (msg_reasoning m) (msg_isReasoningStreaming m) (msg_isReasoningComplete m)
    (msg_isContentComplete m) (Some v) (msg_errorCode m).

Definition with_errorCode (v : jsval) (m : Message) : Message :=
  MkMessage (msg_key m) (msg_from m) (msg_versions m) (msg_createdAt m) (msg_startedAt m) (msg_completedAt m)
    (msg_durationMs m) (msg_sources m) (msg_reasoning m) (msg_isReasoningStreaming m) (msg_isReasoningComplete m)
    (msg_isContentComplete m) (msg_status m) v.

(** *** Constants *)

Definition ERROR_API_REQUEST : str := js "Request error occurred".
Definition ERROR_NETWORK : str := js "Network connection failed or server not responding".
Definition ERROR_PARSE : str := js "Error parsing response data".
Definition ERROR_STREAM_START : str := js "Error establishing connection".
Definition ERROR_CONNECTION_CLOSED : str := js "Connection closed".
Definition ERROR_INTERRUPTED : str := js "Generation was interrupted".

Definition ERROR_MESSAGES : list str :=
  [ERROR_API_REQUEST; ERROR_NETWORK; ERROR_PARSE; ERROR_STREAM_START; ERROR_CONNECTION_CLOSED; ERROR_INTERRUPTED].

(** The readings of the clock during a call. *)
Definition Clock : Type := nat -> num.

(** ** [message-utils.ts] *)

Definition createMessageVersion (id content : str) : MessageVersion := MkVersion id content.

Definition getCurrentVersion (m : Message) : MessageVersion :=
  match msg_versions m with v :: _ => v | [] => MkVersion (js "default") [] end.

Definition getMessageContent (m : Message) : str := version_content (getCurrentVersion m).

Definition hasMessageContent (m : Message) : bool := negb (str_eqb (trim (getMessageContent m)) []).

Definition updateCurrentVersionContent (m : Message) (content : str) : Message :=
  with_versions [MkVersion (version_id (getCurrentVersion m)) content] m.

Definition createUserMessage (key id content : str) (createdAt : num) : Message :=
  MkMessage key FromUser [createMessageVersion id content] (Some createdAt) None None None None None None None None None JUndefined.

Definition createLoadingAssistantMessage (key id : str) (startedAt : num) : Message :=
  MkMessage key FromAssistant [createMessageVersion id []] (Some startedAt) (Some startedAt) None None None None
    (Some false) (Some false) (Some false) (Some StatusLoading) JUndefined.

Inductive ContentPart := TextPart (text : option str) | ImagePart (url : str).
Inductive MessageContent := PlainContent (text : str) | PartsContent (parts : list ContentPart).

Definition buildMessageContent (text : str) (imageUrls : list str) : MessageContent :=
  match List.filter (fun url => negb (str_eqb (trim url) [])) imageUrls with
  | [] => PlainContent text
  | validImages => PartsContent (TextPart (Some text) :: map (fun url => ImagePart (trim url)) validImages)
  end.

Definition is_text_part (p : ContentPart) : bool := match p with TextPart _ => true | _ => false end.

Definition getTextContent (c : MessageContent) : str :=
  match c with
  | PlainContent text => text
  | PartsContent parts => match List.find is_text_part parts with Some (TextPart (Some text)) => text | _ => [] end
  end.

Record ChatCompletionMessage := MkChatMessage { chat_role : MessageRole; chat_content : MessageContent }.

Definition formatMessageForAPI (m : Message) : ChatCompletionMessage :=
  MkChatMessage (msg_from m) (PlainContent (version_content (getCurrentVersion m))).

Definition isValidMessage (m : Message) : bool :=
  match msg_versions m with
  | [] => false
  | _ => negb (bool_decide (msg_from m = FromAssistant) && negb (hasMessageContent m))
  end.

(** ** [message-timing-utils.ts] *)

Definition completeAssistantTiming (m : Message) (completedAt : num) : Message :=
  if bool_decide (msg_from m = FromAssistant) then
    let startedAt := default (default completedAt (msg_createdAt m)) (msg_startedAt m) in
    with_timing (Some startedAt) (Some completedAt) (Some (math_max num_zero (num_sub completedAt startedAt))) m
  else m.

Definition startReasoningTiming (m : Message) (startedAt : num) : Reasoning :=
  match msg_reasoning m with
  | Some r => MkReasoning (rs_content r) (rs_duration r) (Some (default startedAt (rs_startedAt r))) (rs_completedAt r)
                (rs_durationMs r)
  | None => MkReasoning [] num_zero (Some startedAt) None None
  end.

Definition with_reasoning_content (content : str) (r : Reasoning) : Reasoning :=
  MkReasoning content (rs_duration r) (rs_startedAt r) (rs_completedAt r) (rs_durationMs r).

Definition completeReasoningTiming (m : Message) (completedAt : num) : Message :=
  match msg_reasoning m with
  | Some (MkReasoning content _ started _ None) =>
      let startedAt := default (default completedAt (msg_startedAt m)) started in
      let durationMs := math_max num_zero (num_sub completedAt startedAt) in
      with_reasoning
        (Some (MkReasoning content (math_ceil (num_div durationMs (lit 1000))) (Some startedAt) (Some completedAt)
                 (Some durationMs))) m
  | _ => m
  end.

(** ** [message-reasoning-utils.ts] *)

(** [content.indexOf(tag)]: the text before the first occurrence and after it. *)
Fixpoint cut_at (tag s : str) : option (str * str) :=
  if starts_with tag s then Some ([], drop (length tag) s)
  else match s with
       | [] => None
       | c :: s' => match cut_at tag s' with Some (before, after) => Some (c :: before, after) | None => None end
       end.

Record ParsedThinkTags := MkParsed { visibleContent : str; reasoning_text : str; hasUnclosedTag : bool }.

Definition open_tag : str := js "<think>".
Definition close_tag : str := js "</think>".
Definition blank_line : str := [10; 10]%N.

(** The loop, over the text from [currentPos] on: the visible parts, the
    reasoning parts and whether a tag is left open. *)
Fixpoint think_loop (fuel : nat) (rest : str) : list str * list str * bool :=
  match fuel with
  | O => ([], [], false)
  | S fuel =>
      match cut_at open_tag rest with
      | None => (match rest with [] => [] | _ => [rest] end, [], false)
      | Some (before, after) =>
          let visible := match before with [] => [] | _ => [before] end in
          match cut_at close_tag after with
          | None => (visible, [after], true)
          | Some (reasoning, rest) =>
              let '(vs, rs, unclosed) := think_loop fuel rest in
              (visible ++ vs, reasoning :: rs, unclosed)
          end
      end
  end.

Definition parseThinkTags (content : str) : ParsedThinkTags :=
  if negb (contains content open_tag) then MkParsed content [] false
  else
    let '(visibleParts, reasoningParts, unclosed) := think_loop (S (length content)) content in
    MkParsed (trim (join [] visibleParts)) (trim (join blank_line reasoningParts)) unclosed.

(** ** [message-streaming-utils.ts] *)

Definition non_empty (s : str) : bool := match s with [] => false | _ => true end.

Definition processStreamingContent (clock : Clock) (m : Message) (contentChunk : str) : Message :=
  let fullContent := version_content (getCurrentVersion m) ++ contentChunk in
  match msg_reasoning m, contains fullContent open_tag with
  | None, false => with_reasoning_streaming false (updateCurrentVersionContent m fullContent)
  | _, _ =>
      let parsed := parseThinkTags fullContent in
      let finalReasoning :=
        if non_empty (reasoning_text parsed)
        then Some (with_reasoning_content (reasoning_text parsed) (startReasoningTiming m (clock 0)))
        else msg_reasoning m in
      with_reasoning_streaming (hasUnclosedTag parsed)
        (with_reasoning finalReasoning (updateCurrentVersionContent m fullContent))
  end.

Inductive StreamChunkType := ChunkReasoning | ChunkContent.

Definition getAppendableChunk (currentContent chunk : str) : str :=
  if negb (non_empty currentContent) || negb (starts_with currentContent chunk) then chunk
  else drop (length currentContent) chunk.

Definition applyStreamingChunk (clock : Clock) (m : Message) (type : StreamChunkType) (chunk : str) : Message :=
  if bool_decide (msg_status m = Some StatusError) then m
  else
    match type with
    | ChunkReasoning =>
        let reasoning := startReasoningTiming m (clock 0) in
        let appendable := getAppendableChunk (rs_content reasoning) chunk in
        with_status StatusStreaming
          (with_reasoning_streaming true
             (with_reasoning (Some (with_reasoning_content (rs_content reasoning ++ appendable) reasoning)) m))
    | ChunkContent =>
        let appendable := getAppendableChunk (version_content (getCurrentVersion m)) chunk in
        let contentMessage := processStreamingContent clock m appendable in
        with_status StatusStreaming
          (match msg_isReasoningStreaming contentMessage with
           | Some true => contentMessage
           | _ => completeReasoningTiming contentMessage (clock 1)
           end)
    end.

(** [a || b || ... || '']. *)
Fixpoint first_text (texts : list (option str)) : str :=
  match texts with
  | [] => []
  | Some (c :: text) :: _ => c :: text
  | _ :: texts => first_text texts
  end.

Definition finalizeMessage (clock : Clock) (m : Message) (apiReasoningContent : option str) : Message :=
  let content := version_content (getCurrentVersion m) in
  let parsed := if contains content open_tag then Some (parseThinkTags content) else None in
  let visible := match parsed with Some p => visibleContent p | None => content end in
  let finalReasoning :=
    first_text [apiReasoningContent; rs_content <$> msg_reasoning m; reasoning_text <$> parsed] in
  let finalized :=
    with_reasoning_streaming false
      (with_reasoning
         (if non_empty finalReasoning
          then Some (with_reasoning_content finalReasoning (startReasoningTiming m (clock 0))) else None)
         (updateCurrentVersionContent m visible)) in
  completeReasoningTiming finalized (clock 1).

Definition completeAssistantMessage (clock : Clock) (m : Message) : Message :=
  completeAssistantTiming (with_status StatusComplete (finalizeMessage clock m None)) (clock 2).

Definition isAssistantMessageFinal (m : Message) : bool :=
  bool_decide (msg_status m = Some StatusComplete) || bool_decide (msg_status m = Some StatusError).

Definition isAssistantMessagePending (m : Message) : bool :=
  bool_decide (msg_status m = Some StatusLoading) || bool_decide (msg_status m = Some StatusStreaming).

Definition isPendingAssistantMessage (m : Message) : bool :=
  bool_decide (msg_from m = FromAssistant) && isAssistantMessagePending m.

(** [choices?.[0]] of a response: [message?.content] and
    [message?.reasoning_content] of each choice. *)
Record ChatCompletionChoice := MkChoice { choice_content : option str; choice_reasoning : option str }.
Record ChatCompletionResponse := MkResponse { response_choices : option (list ChatCompletionChoice) }.

Definition first_choice (r : ChatCompletionResponse) : option ChatCompletionChoice := response_choices r ≫= head.

Definition hasChatCompletionChoice (r : ChatCompletionResponse) : bool :=
  match first_choice r with Some _ => true | None => false end.

Definition applyChatCompletionChoice (clock : Clock) (m : Message) (choice : ChatCompletionChoice) : Message :=
  completeAssistantTiming
    (with_status StatusComplete
       (finalizeMessage clock (updateCurrentVersionContent m (default [] (choice_content choice))) (choice_reasoning choice)))
    (clock 2).

Definition applyChatCompletionResponse (clock : Clock) (m : Message) (r : ChatCompletionResponse) : option Message :=
  applyChatCompletionChoice clock m <$> first_choice r.

(** The last message that satisfies the test, with its index. *)
Fixpoint find_last {A} (p : A -> bool) (l : list A) : option (nat * A) :=
  match l with
  | [] => None
  | x :: l => match find_last p l with Some (i, y) => Some (S i, y) | None => if p x then Some (0, x) else None end
  end.

Section Translated.
Variable t : str -> str.

Definition sanitize_message (clock : Clock) (m : Message) : Message :=
  let finalized := finalizeMessage clock m None in
  let hasReasoning := match msg_reasoning finalized with Some r => non_empty (trim (rs_content r)) | None => false end in
  if hasMessageContent finalized || hasReasoning then
    completeAssistantTiming (with_reasoning_streaming false (with_status StatusComplete finalized)) (clock 2)
  else
    completeAssistantTiming
      (with_reasoning_streaming false
         (with_status StatusError
            (updateCurrentVersionContent finalized (t ERROR_API_REQUEST ++ js ": " ++ t ERROR_INTERRUPTED))))
      (clock 2).

Definition sanitizeMessagesOnLoad (clock : Clock) (messages : list Message) : list Message :=
  match find_last isPendingAssistantMessage messages with
  | None => messages
  | Some (targetIndex, m) => <[targetIndex := sanitize_message clock m]> messages
  end.
End Translated.

(** ** [message-update-utils.ts] *)

Definition updateLastAssistantMessage (messages : list Message) (updater : Message -> Message) : list Message :=
  match list.last messages with
  | Some m =>
      if bool_decide (msg_from m = FromAssistant) then <[length messages - 1 := updater m]> messages else messages
  | None => messages
  end.

Definition updateAssistantMessageWithError (now : num) (messages : list Message) (errorMessage : str)
    (errorCode : jsval) (title : str) : list Message :=
  updateLastAssistantMessage messages (fun m =>
    completeAssistantTiming
      (with_errorCode (value_or errorCode JNull)
         (with_reasoning_streaming false
            (with_status StatusError (updateCurrentVersionContent m (title ++ js ": " ++ errorMessage))))) now).

(** ** [conversation-message-utils.ts] *)

Definition appendUserMessagePair (ids : nat -> str) (submittedAt : num) (messages : list Message) (content : str)
    : list Message :=
  messages ++ [createUserMessage (ids 0) (ids 1) content submittedAt;
               createLoadingAssistantMessage (ids 2) (ids 3) submittedAt].

Definition has_msg_key (key : str) (m : Message) : bool := str_eqb (msg_key m) key.

Definition createRegeneratedMessages (ids : nat -> str) (now : num) (messages : list Message) (messageKey : str)
    : option (list Message) :=
  match find_position (has_msg_key messageKey) messages with
  | None => None
  | Some (messageIndex, m) =>
      Some (take (if bool_decide (msg_from m = FromUser) then messageIndex + 1 else messageIndex) messages ++
            [createLoadingAssistantMessage (ids 0) (ids 1) now])
  end.

Definition removeMessageByKey (messages : list Message) (messageKey : str) : list Message :=
  List.filter (fun m => negb (has_msg_key messageKey m)) messages.

Definition getPreviousUserMessage (messages : list Message) (beforeIndex : nat) : option Message :=
  snd <$> find_last (fun m => bool_decide (msg_from m = FromUser)) (take beforeIndex messages).

Definition applyMessageEdit (ids : nat -> str) (submittedAt : num) (messages : list Message) (messageKey content : str)
    (shouldSubmit : bool) : option (list Message * bool) :=
  match find_position (has_msg_key messageKey) messages with
  | None => None
  | Some (messageIndex, found) =>
      let updatedMessages :=
        map (fun m =>
          if has_msg_key messageKey m then
            with_createdAt (if shouldSubmit then Some submittedAt else msg_createdAt m) (updateCurrentVersionContent m content)
          else m) messages in
      if negb shouldSubmit || negb (bool_decide (msg_from found = FromUser)) then Some (updatedMessages, false)
      else
        Some (take (messageIndex + 1) updatedMessages ++ [createLoadingAssistantMessage (ids 0) (ids 1) submittedAt], true)
  end.

Definition getEditingMessageContent (messages : list Message) (editingKey : option str) : str :=
  match editingKey with
  | Some (c :: key) =>
      match List.find (has_msg_key (c :: key)) messages with Some m => getMessageContent m | None => [] end
  | _ => []
  end.

Record ChatMessageRenderState := MkRenderState { alwaysShowActions : bool; render_content : str; isEditing : bool }.

Definition getChatMessageRenderState (messages : list Message) (m : Message) (messageIndex : nat) (editingKey : option str)
    : ChatMessageRenderState :=
  MkRenderState ((Z.of_nat messageIndex =? Z.of_nat (length messages) - 1)%Z && bool_decide (msg_from m = FromAssistant))
    (getMessageContent m) (match editingKey with Some key => str_eqb key (msg_key m) | None => false end).

(** ** What a message shows *)

Definition shouldShowMessageLoader (m : Message) (isAssistant : bool) (versionContent : str) : bool :=
  isAssistant && negb (default false (msg_isReasoningStreaming m)) &&
  (bool_decide (msg_status m = Some StatusLoading) ||
   (bool_decide (msg_status m = Some StatusStreaming) && negb (non_empty versionContent))).

Definition shouldShowMessageContent (m : Message) (versionContent : str) : bool :=
  (bool_decide (msg_from m = FromUser) || negb (default false (msg_isReasoningStreaming m))) && non_empty versionContent.

Definition getDisplayContent (m : Message) (versionContent : str) : str :=
  if negb (bool_decide (msg_from m = FromAssistant)) then versionContent
  else if negb (contains versionContent open_tag) then versionContent
  else visibleContent (parseThinkTags versionContent).

Record MessageContentState := MkContentState {
  displayContent : str;
  hasSources : bool;
  state_isAssistant : bool;
  showLoader : bool;
  showMessageContent : bool;
  state_sources : list MessageSource;
  reasoningContent : option str
}.

Definition getMessageContentState (m : Message) (versionContent : str) : MessageContentState :=
  let isAssistant := bool_decide (msg_from m = FromAssistant) in
  let sources := default [] (msg_sources m) in
  MkContentState (getDisplayContent m versionContent) (match sources with [] => false | _ => true end) isAssistant
    (shouldShowMessageLoader m isAssistant versionContent) (shouldShowMessageContent m versionContent) sources
    (if isAssistant then match msg_reasoning m with Some r => if non_empty (rs_content r) then Some (rs_content r) else None
                         | None => None end
     else None).

Record MessageActionState := MkActionState {
  action_content : str; action_hasContent : bool; action_isAssistant : bool; action_isLoading : bool; action_isUser : bool
}.

Definition getMessageActionState (m : Message) : MessageActionState :=
  MkActionState (getMessageContent m) (hasMessageContent m) (bool_decide (msg_from m = FromAssistant))
    (isAssistantMessagePending m) (bool_decide (msg_from m = FromUser)).

Record MessageEditorState := MkEditorState { canSave : bool; hasChanged : bool; showSaveAndSubmit : bool }.

Definition getMessageEditorState (m : Message) (editText originalText : str) : MessageEditorState :=
  let changed := negb (str_eqb editText originalText) in
  MkEditorState (non_empty (trim editText) && changed) changed (bool_decide (msg_from m = FromUser)).

Definition MODEL_PRICE_ERROR_CODE : str := js "model_price_error".
Definition FALLBACK_ERROR_CONTENT : str := js "An unknown error occurred".

Definition isAdminRole (role : option num) : bool :=
  match role with Some role => num_leb (lit 10) role | None => false end.

Definition isErrorMessage (m : Message) : bool := bool_decide (msg_status m = Some StatusError).

Inductive MessageErrorKind := ErrorGeneric | ErrorModelPrice.
Record MessageErrorState := MkErrorState { error_content : str; error_kind : MessageErrorKind; showSettingsLink : bool }.

Definition getMessageErrorState (m : Message) (isAdmin : bool) : option MessageErrorState :=
  if negb (isErrorMessage m) then None
  else
    let isModelPriceError := value_is_text (msg_errorCode m) MODEL_PRICE_ERROR_CODE in
    Some (MkErrorState (if non_empty (getMessageContent m) then getMessageContent m else FALLBACK_ERROR_CONTENT)
            (if isModelPriceError then ErrorModelPrice else ErrorGeneric) (isModelPriceError && isAdmin)).

Inductive PlaygroundMessageLayoutMode := LayoutAlternating | LayoutLeft.
Inductive MessageAlignment := AlignLeft | AlignRight.

Definition getMessageAlignment (m : Message) (layoutMode : PlaygroundMessageLayoutMode) : MessageAlignment :=
  match layoutMode with
  | LayoutLeft => AlignLeft
  | LayoutAlternating => if bool_decide (msg_from m = FromUser) then AlignRight else AlignLeft
  end.

(** ** The request *)

Record PlaygroundConfig := MkConfig {
  cfg_model : str; cfg_group : str; cfg_temperature : num; cfg_top_p : num; cfg_max_tokens : num;
  cfg_frequency_penalty : num; cfg_presence_penalty : num; cfg_seed : option num; cfg_stream : bool
}.

Record ParameterEnabled := MkEnabled {
  en_temperature : bool; en_top_p : bool; en_max_tokens : bool; en_frequency_penalty : bool; en_presence_penalty : bool;
  en_seed : bool
}.

Record ChatCompletionRequest := MkRequest {
  req_model : str; req_group : str; req_messages : list ChatCompletionMessage; req_stream : bool;
  req_temperature : option num; req_top_p : option num; req_max_tokens : option num;
  req_frequency_penalty : option num; req_presence_penalty : option num; req_seed : option num
}.

Definition buildChatCompletionPayload (messages : list Message) (config : PlaygroundConfig) (on : ParameterEnabled)
    : ChatCompletionRequest :=
  let only (b : bool) v := if b then Some v else None in
  MkRequest (cfg_model config) (cfg_group config) (map formatMessageForAPI (List.filter isValidMessage messages))
    (cfg_stream config) (only (en_temperature on) (cfg_temperature config)) (only (en_top_p on) (cfg_top_p config))
    (only (en_max_tokens on) (cfg_max_tokens config)) (only (en_frequency_penalty on) (cfg_frequency_penalty config))
    (only (en_presence_penalty on) (cfg_presence_penalty config)) (if en_seed on then cfg_seed config else None).
