(* ===== verification/PlaygroundStream.v ===== *)
(** * Streaming answers in the playground

    Models [lib/streaming/stream-utils.ts], [request-error-utils.ts] and the
    hooks [use-stream-request.ts], [use-chat-handler.ts] and
    [use-playground-conversation.ts] of the playground.

    The controller of the event sources calls back into the chat handler
    through [StreamCallbacks], so that it is defined for any handler.  What
    the handler changes of the conversation are functions handed to React,
    which runs them later, in order: they are the queue of the state. *)

From Stdlib Require Import ZArith Lia Bool.
From stdpp Require Import base list numbers.
From S2P Require Import Prelude JsString JsNumber JsValue JsJson JsDynamic PlaygroundMessages.

(** ** [stream-utils.ts] and [request-error-utils.ts] *)

Definition STREAM_DONE_MESSAGE : str := js "[DONE]".
Definition STREAM_CLOSED_READY_STATE : Z := 2.

(** [error.code || undefined] *)
Definition or_undefined (v : jsval) : jsval := value_or v JUndefined.

(** The code and the message. *)
Definition StreamErrorDetails : Type := jsval * jsval.

Definition parseStreamErrorDetails (data : option str) : StreamErrorDetails :=
  match data with
  | Some (c :: data) =>
      let fallbackMessage := JStr (c :: data) in
      match json_parse (c :: data) with
      | Ok parsed =>
          let error := get_field parsed (js "error") in
          if negb (value_truthy error) then (JUndefined, fallbackMessage)
          else (or_undefined (get_field error (js "code")), value_or (get_field error (js "message")) fallbackMessage)
      | _ => (JUndefined, fallbackMessage)
      end
  | _ => (JUndefined, JStr ERROR_API_REQUEST)
  end.

(** [value?.[0]] *)
Definition first_item (v : jsval) : jsval :=
  match v with
  | JArr (x :: _) => x
  | JStr (c :: _) => JStr [c]
  | JObj fields => default JUndefined (assoc_str fields (js "0"))
  | _ => JUndefined
  end.

Definition StreamMessageUpdate : Type := StreamChunkType * jsval.

Definition parseStreamMessageUpdates (data : str) : outcome JsError (list StreamMessageUpdate) :=
  let* chunk := json_parse data in
  let* choices := value_prop chunk (js "choices") in
  let delta := get_field (first_item choices) (js "delta") in
  if negb (value_truthy delta) then Ok []
  else
    let reasoning := get_field delta (js "reasoning_content") in
    let content := get_field delta (js "content") in
    Ok ((if value_truthy reasoning then [(ChunkReasoning, reasoning)] else []) ++
        (if value_truthy content then [(ChunkContent, content)] else [])).

Definition isStreamDoneMessage (data : str) : bool := str_eqb data STREAM_DONE_MESSAGE.

Definition isStreamClosedReadyState (readyState : option Z) : bool :=
  match readyState with Some r => (r =? STREAM_CLOSED_READY_STATE)%Z | None => false end.

Definition getStreamReadyStateError (eventReadyState : option Z) (status : option Z) : option str :=
  match eventReadyState, status with
  | Some r, Some status =>
      if (STREAM_CLOSED_READY_STATE <=? r)%Z && negb (status =? 200)%Z
      then Some (js "HTTP " ++ string_of_num (num_of_Z status) ++ js ": " ++ ERROR_CONNECTION_CLOSED)
      else None
  | _, _ => None
  end.

Definition parseRequestErrorDetails (error : jsval) : StreamErrorDetails :=
  let data := get_field (get_field error (js "response")) (js "data") in
  (or_undefined (get_field (get_field data (js "error")) (js "code")),
   value_or (get_field data (js "message")) (value_or (get_field error (js "message")) (JStr ERROR_API_REQUEST))).

(** ** The controller of the event sources *)

(** What the controller calls: the first argument says which request the
    callbacks belong to, the result whether the call threw. *)
Record StreamCallbacks (S : Type) := MkCallbacks {
  onUpdate : nat -> StreamMessageUpdate -> S -> S * bool;
  onComplete : nat -> S -> S;
  onError : nat -> jsval -> jsval -> S -> S * bool
}.
Arguments MkCallbacks {_}.
Arguments onUpdate {_}.
Arguments onComplete {_}.
Arguments onError {_}.

(** An event source with the variables of the call of [send] it belongs to:
    its [requestGeneration], the owner of its callbacks and [completed]. *)
Record Stream := MkStream {
  stream_generation : nat;
  stream_owner : nat;
  stream_completed : bool;
  stream_closed : bool
}.

(** [ctl_source] is the variable [source], an index into all sources ever
    created; [ctl_waiting] are the calls of [send] that wait for headers. *)
Record Controller := MkController {
  ctl_generation : nat;
  ctl_source : option nat;
  ctl_streams : list Stream;
  ctl_waiting : list (nat * nat);
  ctl_streaming : bool
}.

Definition initial_controller : Controller := MkController 0 None [] [] false.

Definition close_stream (i : nat) (c : Controller) : Controller :=
  MkController (ctl_generation c) (ctl_source c)
    (alter (fun st => MkStream (stream_generation st) (stream_owner st) (stream_completed st) true) i (ctl_streams c))
    (ctl_waiting c) (ctl_streaming c).

Definition close_source (s : option nat) (c : Controller) : Controller :=
  match s with Some i => close_stream i c | None => c end.

Definition mark_completed (i : nat) (c : Controller) : Controller :=
  MkController (ctl_generation c) (ctl_source c)
    (alter (fun st => MkStream (stream_generation st) (stream_owner st) true (stream_closed st)) i (ctl_streams c))
    (ctl_waiting c) (ctl_streaming c).

Definition closeActiveSource (i : nat) (c : Controller) : Controller :=
  let c := close_stream i c in
  if bool_decide (ctl_source c = Some i)
  then MkController (ctl_generation c) None (ctl_streams c) (ctl_waiting c) false
  else c.

(** [send] up to its [await]. *)
Definition send_begin (owner : nat) (c : Controller) : Controller :=
  let requestGeneration := ctl_generation c + 1 in
  let c := close_source (ctl_source c) c in
  MkController requestGeneration None (ctl_streams c) (ctl_waiting c ++ [(requestGeneration, owner)]) false.

Definition isCurrent (c : Controller) (i : nat) : bool :=
  match ctl_streams c !! i with
  | Some st => (ctl_generation c =? stream_generation st)%nat && bool_decide (ctl_source c = Some i)
  | None => false
  end.

(** [isCurrent() && !completed] *)
Definition is_live (c : Controller) (i : nat) : bool :=
  isCurrent c i && match ctl_streams c !! i with Some st => negb (stream_completed st) | None => false end.

Definition owner_of (c : Controller) (i : nat) : nat :=
  match ctl_streams c !! i with Some st => stream_owner st | None => 0 end.

(** [cancel(notify)] *)
Definition cancel (notify : bool) (c : Controller) : Controller :=
  let c' := close_source (ctl_source c) c in
  MkController (ctl_generation c + 1) None (ctl_streams c') (ctl_waiting c') (if notify then false else ctl_streaming c').

Definition stop : Controller -> Controller := cancel true.
Definition dispose : Controller -> Controller := cancel false.

(** What [getHeaders] and [stream] answer. *)
Inductive HeadersResult := HeadersFailed (message : option str) | HeadersReady (stream_starts : bool).

Inductive SourceEvent :=
| SourceMessage (data : option str)
| SourceError (readyState : option Z) (data : option str)
| SourceReadyState (readyState : option Z) (status : option Z).

Section Controller.
Context {S : Type} (callbacks : StreamCallbacks S).
Implicit Types (c : Controller) (s : S).

Definition handleError (i : nat) (errorMessage errorCode : jsval) (c : Controller) (s : S) : Controller * S :=
  if negb (is_live c i) then (c, s)
  else
    let owner := owner_of c i in
    let c := mark_completed i c in
    let '(s, threw) := onError callbacks owner errorMessage errorCode s in
    if threw : bool then (c, s) else (closeActiveSource i c, s).

(** [send] after its [await], for the [k]-th call that waits. *)
Definition on_headers (k : nat) (r : HeadersResult) (c : Controller) (s : S) : Controller * S :=
  match ctl_waiting c !! k with
  | None => (c, s)
  | Some (requestGeneration, owner) =>
      let c := MkController (ctl_generation c) (ctl_source c) (ctl_streams c) (delete k (ctl_waiting c)) (ctl_streaming c) in
      if negb (ctl_generation c =? requestGeneration)%nat then (c, s)
      else
        match r with
        | HeadersFailed message =>
            (c, (onError callbacks owner (JStr (default ERROR_STREAM_START message)) JUndefined s).1)
        | HeadersReady stream_starts =>
            let i := length (ctl_streams c) in
            let c := MkController (ctl_generation c) (Some i)
                       (ctl_streams c ++ [MkStream requestGeneration owner false false]) (ctl_waiting c) true in
            if stream_starts : bool then (c, s) else handleError i (JStr ERROR_STREAM_START) JUndefined c s
        end
  end.

Fixpoint run_updates (owner : nat) (updates : list StreamMessageUpdate) (s : S) : S * bool :=
  match updates with
  | [] => (s, false)
  | u :: updates =>
      let '(s, threw) := onUpdate callbacks owner u s in
      if threw : bool then (s, true) else run_updates owner updates s
  end.

Definition on_source_event (i : nat) (e : SourceEvent) (c : Controller) (s : S) : Controller * S :=
  if negb (is_live c i) then (c, s)
  else
    match e with
    | SourceMessage data =>
        let data := default [] data in
        if isStreamDoneMessage data then
          let owner := owner_of c i in
          (closeActiveSource i (mark_completed i c), onComplete callbacks owner s)
        else
          match parseStreamMessageUpdates data with
          | Ok updates =>
              let '(s, threw) := run_updates (owner_of c i) updates s in
              if threw : bool then handleError i (JStr ERROR_PARSE) JUndefined c s else (c, s)
          | _ => handleError i (JStr ERROR_PARSE) JUndefined c s
          end
    | SourceError readyState data =>
        if isStreamClosedReadyState readyState then (c, s)
        else let '(errorCode, errorMessage) := parseStreamErrorDetails data in handleError i errorMessage errorCode c s
    | SourceReadyState readyState status =>
        match getStreamReadyStateError readyState status with
        | Some errorMessage => handleError i (JStr errorMessage) JUndefined c s
        | None => (c, s)
        end
    end.

Inductive ControllerEvent :=
| CtlSend (owner : nat)
| CtlHeaders (k : nat) (r : HeadersResult)
| CtlSource (i : nat) (e : SourceEvent)
| CtlCancel (notify : bool).

Definition controller_step (e : ControllerEvent) (cs : Controller * S) : Controller * S :=
  let '(c, s) := cs in
  match e with
  | CtlSend owner => (send_begin owner c, s)
  | CtlHeaders k r => on_headers k r c s
  | CtlSource i e => on_source_event i e c s
  | CtlCancel notify => (cancel notify c, s)
  end.

Definition controller_run (es : list ControllerEvent) (cs : Controller * S) : Controller * S :=
  fold_left (fun cs e => controller_step e cs) es cs.
End Controller.

(** ** The chat handler *)

Record PendingStreamChunks := MkPending { pd_generation : nat; pd_content : str; pd_reasoning : str }.

(** A request that is not streamed, with its abort controller. *)
Record PlainRequest := MkPlainRequest { pr_generation : nat; pr_aborted : bool; pr_settled : bool }.

(** A flush timer: the generation it was set for, and whether it will fire. *)
Record FlushTimer := MkTimer { timer_generation : nat; timer_armed : bool }.

(** The functions and values handed to React's setter of the messages. *)
Inductive Updater :=
| SetMessages (messages : list Message)
| RemoveMessage (key : str)
| FlushChunks (generation : nat) (reasoning content : str)
| FinishStream (generation : nat)
| FailStream (generation : nat) (displayError : str) (errorCode : jsval)
| UseResponse (generation : nat) (response : ChatCompletionResponse)
| StopPending (idleGeneration : nat).

Record Chat := MkChat {
  chat_generation : nat;
  chat_pending : PendingStreamChunks;
  chat_timer : option FlushTimer;
  chat_abort : option nat;
  chat_requests : list PlainRequest;
  chat_requesting : bool;
  chat_messages : list Message;
  chat_queue : list Updater
}.

Definition initial_chat (messages : list Message) : Chat :=
  MkChat 0 (MkPending 0 [] []) None None [] false messages [].

Definition with_generation (g : nat) (h : Chat) : Chat :=
  MkChat g (chat_pending h) (chat_timer h) (chat_abort h) (chat_requests h) (chat_requesting h) (chat_messages h) (chat_queue h).
Definition with_pending (p : PendingStreamChunks) (h : Chat) : Chat :=
  MkChat (chat_generation h) p (chat_timer h) (chat_abort h) (chat_requests h) (chat_requesting h) (chat_messages h) (chat_queue h).
Definition with_timer (t : option FlushTimer) (h : Chat) : Chat :=
  MkChat (chat_generation h) (chat_pending h) t (chat_abort h) (chat_requests h) (chat_requesting h) (chat_messages h) (chat_queue h).
Definition with_requests (a : option nat) (rs : list PlainRequest) (h : Chat) : Chat :=
  MkChat (chat_generation h) (chat_pending h) (chat_timer h) a rs (chat_requesting h) (chat_messages h) (chat_queue h).
Definition setIsRequesting (b : bool) (h : Chat) : Chat :=
  MkChat (chat_generation h) (chat_pending h) (chat_timer h) (chat_abort h) (chat_requests h) b (chat_messages h) (chat_queue h).
Definition onMessageUpdate (u : Updater) (h : Chat) : Chat :=
  MkChat (chat_generation h) (chat_pending h) (chat_timer h) (chat_abort h) (chat_requests h) (chat_requesting h)
    (chat_messages h) (chat_queue h ++ [u]).

Definition mergePendingStreamChunk (currentChunk : str) (nextChunk : jsval) : outcome JsError str :=
  match currentChunk, nextChunk with
  | [], _ => js_String nextChunk
  | _, JStr next => Ok (if starts_with currentChunk next then next else currentChunk ++ next)
  | _, _ => Throw TypeError
  end.

Definition discardPendingStreamUpdates (generation : nat) (h : Chat) : Chat :=
  with_pending (MkPending generation [] []) (with_timer None h).

Definition flushStreamUpdates (generation : nat) (h : Chat) : Chat :=
  if negb (generation =? chat_generation h)%nat then h
  else
    let h := with_timer None h in
    let pendingChunks := chat_pending h in
    if negb (pd_generation pendingChunks =? generation)%nat then h
    else if negb (non_empty (pd_reasoning pendingChunks)) && negb (non_empty (pd_content pendingChunks)) then h
    else
      onMessageUpdate (FlushChunks generation (pd_reasoning pendingChunks) (pd_content pendingChunks))
        (with_pending (MkPending generation [] []) h).

Definition scheduleStreamFlush (generation : nat) (h : Chat) : Chat :=
  if negb (generation =? chat_generation h)%nat then h
  else match chat_timer h with Some _ => h | None => with_timer (Some (MkTimer generation true)) h end.

Definition handleStreamUpdate (generation : nat) (update : StreamMessageUpdate) (h : Chat) : Chat * bool :=
  if negb (generation =? chat_generation h)%nat then (h, false)
  else if negb (pd_generation (chat_pending h) =? generation)%nat then (h, false)
  else
    let p := chat_pending h in
    match update with
    | (ChunkContent, chunk) =>
        match mergePendingStreamChunk (pd_content p) chunk with
        | Ok merged =>
            (scheduleStreamFlush generation (with_pending (MkPending (pd_generation p) merged (pd_reasoning p)) h), false)
        | _ => (h, true)
        end
    | (ChunkReasoning, chunk) =>
        match mergePendingStreamChunk (pd_reasoning p) chunk with
        | Ok merged =>
            (scheduleStreamFlush generation (with_pending (MkPending (pd_generation p) (pd_content p) merged) h), false)
        | _ => (h, true)
        end
    end.

Definition handleStreamComplete (generation : nat) (h : Chat) : Chat :=
  if negb (generation =? chat_generation h)%nat then h
  else onMessageUpdate (FinishStream generation) (setIsRequesting false (flushStreamUpdates generation h)).

Section Translated.
Variable t : str -> str.

Definition ends_with (s suffix : str) : bool := starts_with (reverse suffix) (reverse s).

Definition getDisplayError (error : jsval) : outcome JsError str :=
  match error with
  | JStr error =>
      if includes_str ERROR_MESSAGES error then Ok (t error)
      else if ends_with error (js ": " ++ ERROR_CONNECTION_CLOSED)
      then Ok (take (length error - length ERROR_CONNECTION_CLOSED) error ++ t ERROR_CONNECTION_CLOSED)
      else Ok error
  | _ => Throw TypeError
  end.

Definition handleStreamError (generation : nat) (error errorCode : jsval) (h : Chat) : Chat * bool :=
  if negb (generation =? chat_generation h)%nat then (h, false)
  else
    let h := setIsRequesting false (flushStreamUpdates generation h) in
    match getDisplayError error with
    | Ok displayError => (onMessageUpdate (FailStream generation displayError errorCode) h, false)
    | _ => (h, true)
    end.

Definition chat_callbacks : StreamCallbacks Chat :=
  MkCallbacks handleStreamUpdate handleStreamComplete handleStreamError.

(** *** What React does with the updaters *)

Definition later (n : nat) (clock : Clock) : Clock := fun i => clock (n + i).

Definition flush_chunks (clock : Clock) (reasoning content : str) (m : Message) : Message :=
  let m := if non_empty reasoning then applyStreamingChunk clock m ChunkReasoning reasoning else m in
  if non_empty content then applyStreamingChunk (later 1 clock) m ChunkContent content else m.

Definition run_updater (clock : Clock) (generation : nat) (u : Updater) (prev : list Message) : list Message :=
  match u with
  | SetMessages messages => messages
  | RemoveMessage key => removeMessageByKey prev key
  | FlushChunks g reasoning content =>
      if negb (g =? generation)%nat then prev
      else updateLastAssistantMessage prev (flush_chunks clock reasoning content)
  | FinishStream g =>
      if negb (g =? generation)%nat then prev
      else updateLastAssistantMessage prev (fun m =>
             if isAssistantMessageFinal m then m else completeAssistantMessage clock m)
  | FailStream g displayError errorCode =>
      if negb (g =? generation)%nat then prev
      else updateAssistantMessageWithError (clock 0) prev displayError errorCode (t ERROR_API_REQUEST)
  | UseResponse g response =>
      if negb (g =? generation)%nat then prev
      else updateLastAssistantMessage prev (fun m => default m (applyChatCompletionResponse clock m response))
  | StopPending g =>
      if negb (g =? generation)%nat then prev
      else updateLastAssistantMessage prev (fun m =>
             if isAssistantMessagePending m then completeAssistantMessage clock m else m)
  end.

(** React runs the first updater of the queue. *)
Definition render (clock : Clock) (h : Chat) : Chat :=
  match chat_queue h with
  | [] => h
  | u :: queue =>
      MkChat (chat_generation h) (chat_pending h) (chat_timer h) (chat_abort h) (chat_requests h) (chat_requesting h)
        (run_updater clock (chat_generation h) u (chat_messages h)) queue
  end.

(** *** Sending and stopping *)

Definition abort_request (a : option nat) (rs : list PlainRequest) : list PlainRequest :=
  match a with
  | Some k => alter (fun r => MkPlainRequest (pr_generation r) true (pr_settled r)) k rs
  | None => rs
  end.

Definition abort_current (h : Chat) : Chat := with_requests None (abort_request (chat_abort h) (chat_requests h)) h.

Definition sendStreamingChat (ch : Controller * Chat) : Controller * Chat :=
  let '(c, h) := ch in
  let generation := chat_generation h + 1 in
  let h := abort_current (with_generation generation h) in
  let h := setIsRequesting true (discardPendingStreamUpdates generation h) in
  (send_begin generation c, h).

(** [sendNonStreamingChat] up to its [await]. *)
Definition sendNonStreamingChat (ch : Controller * Chat) : Controller * Chat :=
  let '(c, h) := ch in
  let generation := chat_generation h + 1 in
  let c := stop c in
  let h := abort_current (discardPendingStreamUpdates generation (with_generation generation h)) in
  let h := with_requests (Some (length (chat_requests h))) (chat_requests h ++ [MkPlainRequest generation false false]) h in
  (c, setIsRequesting true h).

Definition sendChat (stream : bool) (ch : Controller * Chat) : Controller * Chat :=
  if stream then sendStreamingChat ch else sendNonStreamingChat ch.

Inductive PlainResult := PlainResponse (response : ChatCompletionResponse) | PlainFailure (error : jsval).

(** The [finally] block. *)
Definition plain_finally (generation : nat) (h : Chat) : Chat :=
  if (chat_generation h =? generation)%nat
  then setIsRequesting false (with_requests None (chat_requests h) h) else h.

(** [sendNonStreamingChat] after its [await], for the [k]-th such request. *)
Definition on_plain_result (k : nat) (r : PlainResult) (h : Chat) : Chat :=
  match chat_requests h !! k with
  | Some (MkPlainRequest generation aborted false) =>
      let h := with_requests (chat_abort h) (<[k := MkPlainRequest generation aborted true]> (chat_requests h)) h in
      if aborted || negb (chat_generation h =? generation)%nat then plain_finally generation h
      else
        plain_finally generation
          (match r with
           | PlainResponse response =>
               if hasChatCompletionChoice response then onMessageUpdate (UseResponse generation response) h
               else (handleStreamError generation (JStr ERROR_API_REQUEST) JUndefined h).1
           | PlainFailure error =>
               let '(errorCode, errorMessage) := parseRequestErrorDetails error in
               (handleStreamError generation errorMessage errorCode h).1
           end)
  | _ => h
  end.

Definition stopGeneration (ch : Controller * Chat) : Controller * Chat :=
  let '(c, h) := ch in
  let stoppedGeneration := chat_generation h in
  let h := flushStreamUpdates stoppedGeneration h in
  let idleGeneration := stoppedGeneration + 1 in
  let h := discardPendingStreamUpdates idleGeneration (with_generation idleGeneration h) in
  let c := stop c in
  let h := setIsRequesting false (abort_current h) in
  (c, onMessageUpdate (StopPending idleGeneration) h).

(** The timer fires. *)
Definition on_flush_timer (h : Chat) : Chat :=
  match chat_timer h with
  | Some (MkTimer generation true) =>
      flushStreamUpdates generation (with_timer (Some (MkTimer generation false)) h)
  | _ => h
  end.

(** The cleanups of the two hooks when the page is left. *)
Definition unmount (ch : Controller * Chat) : Controller * Chat :=
  let '(c, h) := ch in
  let h := with_generation (chat_generation h + 1) h in
  let h := with_timer ((fun tm => MkTimer (timer_generation tm) false) <$> chat_timer h) h in
  (dispose c, abort_current h).

Definition isGenerating (ch : Controller * Chat) : bool := ctl_streaming ch.1 || chat_requesting ch.2.

(** ** [use-playground-conversation.ts] and [clearMessages] *)

Definition handleSendMessage (ids : nat -> str) (now : num) (stream : bool) (text : str) (ch : Controller * Chat)
    : Controller * Chat :=
  let nextMessages := appendUserMessagePair ids now (chat_messages ch.2) text in
  sendChat stream (ch.1, onMessageUpdate (SetMessages nextMessages) ch.2).

Definition handleRegenerateMessage (ids : nat -> str) (now : num) (stream : bool) (key : str) (ch : Controller * Chat)
    : Controller * Chat :=
  match createRegeneratedMessages ids now (chat_messages ch.2) key with
  | None => ch
  | Some nextMessages => sendChat stream (ch.1, onMessageUpdate (SetMessages nextMessages) ch.2)
  end.

Definition applyEdit (ids : nat -> str) (now : num) (stream : bool) (editingKey : str) (newContent : str)
    (shouldSubmit : bool) (ch : Controller * Chat) : Controller * Chat :=
  if negb (non_empty editingKey) then ch
  else
    match applyMessageEdit ids now (chat_messages ch.2) editingKey newContent shouldSubmit with
    | None => ch
    | Some (messages, shouldSend) =>
        let ch := (ch.1, onMessageUpdate (SetMessages messages) ch.2) in
        if shouldSend : bool then sendChat stream ch else ch
    end.

(** The variable [editingMessageKey]. *)
Definition handleEditMessage (key : str) (editingMessageKey : option str) : option str := Some key.

Definition handleEditOpenChange (open : bool) (editingMessageKey : option str) : option str :=
  if open then editingMessageKey else None.

Definition editing_after_apply (messages : list Message) (editingMessageKey : option str) : option str :=
  match editingMessageKey with
  | Some (c :: key) => if existsb (has_msg_key (c :: key)) messages then None else editingMessageKey
  | _ => editingMessageKey
  end.

Definition handleDeleteMessage (key : str) (h : Chat) : Chat := onMessageUpdate (RemoveMessage key) h.

Definition clearMessages (h : Chat) : Chat := onMessageUpdate (SetMessages []) h.

(** ** Everything that can happen *)

Inductive ChatEvent :=
| UserSends (ids : nat -> str) (now : num) (stream : bool) (text : str)
| UserRegenerates (ids : nat -> str) (now : num) (stream : bool) (key : str)
| UserEdits (ids : nat -> str) (now : num) (stream : bool) (key content : str) (submit : bool)
| UserDeletes (key : str)
| UserClears
| UserStops
| HeadersArrive (k : nat) (r : HeadersResult)
| SourceFires (i : nat) (e : SourceEvent)
| ResultArrives (k : nat) (r : PlainResult)
| TimerFires
| Renders (clock : Clock)
| Unmounts.

Definition chat_step (e : ChatEvent) (ch : Controller * Chat) : Controller * Chat :=
  match e with
  | UserSends ids now stream text => handleSendMessage ids now stream text ch
  | UserRegenerates ids now stream key => handleRegenerateMessage ids now stream key ch
  | UserEdits ids now stream key content submit => applyEdit ids now stream key content submit ch
  | UserDeletes key => (ch.1, handleDeleteMessage key ch.2)
  | UserClears => (ch.1, clearMessages ch.2)
  | UserStops => stopGeneration ch
  | HeadersArrive k r => on_headers chat_callbacks k r ch.1 ch.2
  | SourceFires i e => on_source_event chat_callbacks i e ch.1 ch.2
  | ResultArrives k r => (ch.1, on_plain_result k r ch.2)
  | TimerFires => (ch.1, on_flush_timer ch.2)
  | Renders clock => (ch.1, render clock ch.2)
  | Unmounts => unmount ch
  end.

(** What the page lets the user do: act on what is shown, and neither send,
    regenerate nor delete while an answer is being generated. *)
Definition event_enabled (e : ChatEvent) (ch : Controller * Chat) : bool :=
  let shown := match chat_queue ch.2 with [] => true | _ => false end in
  match e with
  | UserSends _ _ _ _ | UserRegenerates _ _ _ _ | UserDeletes _ => shown && negb (isGenerating ch)
  | UserEdits _ _ _ _ _ _ | UserClears => shown
  | _ => true
  end.

Definition chat_run (es : list ChatEvent) (ch : Controller * Chat) : Controller * Chat :=
  fold_left (fun ch e => chat_step e ch) es ch.
End Translated.
