(* ===== verification/PlaygroundStreamFacts.v ===== *)
(** * The stream controller keeps its contract

    Whatever the event sources do and in whatever order headers arrive, the
    callbacks of a request are some updates followed by at most one end, and
    only the callbacks of the latest request that was not cancelled run. *)

From Stdlib Require Import ZArith Lia Bool.
From stdpp Require Import base list numbers.
From S2P Require Import Prelude JsString JsNumber JsValue JsJson JsDynamic PlaygroundMessages PlaygroundStream.

Inductive Callback := Updated | Completed | Errored.

(** The calls a request may see. *)
Definition open_calls (l : list Callback) : Prop := Forall (eq Updated) l.
Definition proper_calls (l : list Callback) : Prop :=
  open_calls l \/ exists updates, open_calls updates /\ (l = updates ++ [Completed] \/ l = updates ++ [Errored]).

Lemma open_proper l : open_calls l -> proper_calls l.
Proof. by left. Qed.

Lemma open_snoc l : open_calls l -> open_calls (l ++ [Updated]).
Proof. intros O. apply Forall_app. split; [done|]. by repeat constructor. Qed.

Lemma closed_proper l e : open_calls l -> e <> Updated -> proper_calls (l ++ [e]).
Proof. intros O E. right. exists l. split; [done|]. destruct e; [done|by left|by right]. Qed.

(** Callbacks that keep a record of the calls beside what they do. *)
Definition logged {S} (cb : StreamCallbacks S) : StreamCallbacks (S * list (nat * Callback)) :=
  MkCallbacks
    (fun o u '(s, log) => let '(s, threw) := onUpdate cb o u s in ((s, log ++ [(o, Updated)]), threw))
    (fun o '(s, log) => (onComplete cb o s, log ++ [(o, Completed)]))
    (fun o m code '(s, log) => let '(s, threw) := onError cb o m code s in ((s, log ++ [(o, Errored)]), threw)).

Definition calls_of (o : nat) (log : list (nat * Callback)) : list Callback :=
  map snd (List.filter (fun e => (e.1 =? o)%nat) log).

Lemma calls_of_snoc o log o' e : calls_of o (log ++ [(o', e)]) = calls_of o log ++ (if (o' =? o)%nat then [e] else []).
Proof. unfold calls_of. rewrite List.filter_app, map_app. f_equal. cbn [List.filter fst]. by destruct (o' =? o)%nat. Qed.


(** The requests sent, and the latest unless it was cancelled. *)
Definition owners (es : list ControllerEvent) : list nat :=
  omap (fun e => match e with CtlSend o => Some o | _ => None end) es.

Definition latest_after (now : option nat) (e : ControllerEvent) : option nat :=
  match e with CtlSend o => Some o | CtlCancel _ => None | _ => now end.

Definition latest (es : list ControllerEvent) : option nat := fold_left latest_after es None.

(** ** The invariant *)

Definition request_owners (c : Controller) : list nat := map snd (ctl_waiting c) ++ map stream_owner (ctl_streams c).

Record ctl_inv (sent : list nat) (now : option nat) (c : Controller) (log : list (nat * Callback)) : Prop := {
  inv_distinct : NoDup (request_owners c);
  inv_sent o : o ∈ request_owners c -> o ∈ sent;
  inv_waiting g o : (g, o) ∈ ctl_waiting c -> g <= ctl_generation c /\ (g = ctl_generation c -> now = Some o);
  inv_silent g o : (g, o) ∈ ctl_waiting c -> calls_of o log = [];
  inv_streams i st : ctl_streams c !! i = Some st ->
    stream_generation st <= ctl_generation c /\ (stream_generation st = ctl_generation c -> now = Some (stream_owner st));
  inv_open i st : ctl_streams c !! i = Some st -> stream_completed st = false -> open_calls (calls_of (stream_owner st) log);
  inv_unsent o : o ∉ sent -> calls_of o log = [];
  inv_proper o : proper_calls (calls_of o log)
}.

Lemma ctl_inv_initial : ctl_inv [] None initial_controller [].
Proof.
  split; cbn; try done; try (intros g o E; by apply elem_of_nil in E); [constructor|]. intros o. left. constructor.
Qed.

(** What neither moves the generation nor forgets that a stream is over keeps
    the invariant. *)
Lemma ctl_inv_alter sent now c c' log i f : ctl_inv sent now c log ->
  ctl_generation c' = ctl_generation c -> ctl_waiting c' = ctl_waiting c -> ctl_streams c' = alter f i (ctl_streams c) ->
  (forall st, stream_generation (f st) = stream_generation st) -> (forall st, stream_owner (f st) = stream_owner st) ->
  (forall st, stream_completed (f st) = false -> stream_completed st = false) -> ctl_inv sent now c' log.
Proof.
  intros I G W T FG FO FC. assert (request_owners c' = request_owners c) as R.
  { unfold request_owners. rewrite W, T. f_equal. apply list_eq. intros j. rewrite !list_lookup_fmap.
    destruct (decide (i = j)) as [<-|N].
    - rewrite list_lookup_alter_eq. destruct (ctl_streams c !! i); [|done]. cbn. by rewrite FO.
    - by rewrite list_lookup_alter_ne. }
  assert (forall j st', ctl_streams c' !! j = Some st' ->
    exists st, ctl_streams c !! j = Some st /\ (st' = st \/ st' = f st)) as L.
  { intros j st'. rewrite T. destruct (decide (i = j)) as [<-|N].
    - rewrite list_lookup_alter_eq. destruct (ctl_streams c !! i) as [st|]; [|done]. intros [= <-]. exists st. auto.
    - rewrite list_lookup_alter_ne by done. eauto. }
  destruct I. split; rewrite ?R, ?G, ?W; try done.
  - intros j st' (st & S & [-> | ->])%L; [eauto|]. rewrite FG, FO. eauto.
  - intros j st' (st & S & [-> | ->])%L; [eauto|]. rewrite FO. eauto.
Qed.

Lemma ctl_inv_source sent now c c' log : ctl_inv sent now c log ->
  ctl_generation c' = ctl_generation c -> ctl_waiting c' = ctl_waiting c -> ctl_streams c' = ctl_streams c ->
  ctl_inv sent now c' log.
Proof. intros [] G W T. split; unfold request_owners in *; rewrite ?G, ?W, ?T; done. Qed.

Lemma ctl_inv_close sent now c log i : ctl_inv sent now c log -> ctl_inv sent now (close_stream i c) log.
Proof. intros I. by eapply ctl_inv_alter. Qed.

Lemma ctl_inv_close_source sent now c log s : ctl_inv sent now c log -> ctl_inv sent now (close_source s c) log.
Proof. destruct s; [apply ctl_inv_close|done]. Qed.

Lemma ctl_inv_mark sent now c log i : ctl_inv sent now c log -> ctl_inv sent now (mark_completed i c) log.
Proof. intros I. eapply ctl_inv_alter; [done..|]. done. Qed.

Lemma ctl_inv_close_active sent now c log i : ctl_inv sent now c log -> ctl_inv sent now (closeActiveSource i c) log.
Proof.
  intros I. unfold closeActiveSource. apply (ctl_inv_close _ _ _ _ i) in I. case_bool_decide; [|done].
  by eapply ctl_inv_source.
Qed.

(** A generation nobody waits for. *)
Lemma ctl_inv_bump sent now now' c c' log : ctl_inv sent now c log ->
  ctl_generation c' = ctl_generation c + 1 -> ctl_waiting c' = ctl_waiting c -> ctl_streams c' = ctl_streams c ->
  ctl_inv sent now' c' log.
Proof.
  intros [] G W T. split; unfold request_owners in *; rewrite ?G, ?W, ?T; try done.
  - intros g o E. destruct (inv_waiting0 g o E). split; [lia|]. intros ->. lia.
  - intros i st E. destruct (inv_streams0 i st E). split; [lia|]. intros X. lia.
Qed.

(** *** Calls *)

Lemma live_stream c i : is_live c i = true ->
  exists st, ctl_streams c !! i = Some st /\ stream_generation st = ctl_generation c /\ stream_completed st = false /\
    owner_of c i = stream_owner st.
Proof.
  unfold is_live, isCurrent, owner_of. destruct (ctl_streams c !! i) as [st|]; [|done]. 
  rewrite !andb_true_iff, negb_true_iff, Nat.eqb_eq. intros [[G _] C]. by exists st.
Qed.

Lemma owner_distinct c i j st st' : NoDup (request_owners c) ->
  ctl_streams c !! i = Some st -> ctl_streams c !! j = Some st' -> stream_owner st = stream_owner st' -> i = j.
Proof.
  unfold request_owners. intros (_ & _ & N)%list.NoDup_app Si Sj E.
  apply (NoDup_lookup (map stream_owner (ctl_streams c)) i j (stream_owner st)); [done|..].
  - by rewrite list_lookup_fmap, Si.
  - rewrite list_lookup_fmap, Sj. cbn. by rewrite E.
Qed.

Lemma owner_not_waiting c i st g : NoDup (request_owners c) -> ctl_streams c !! i = Some st ->
  (g, stream_owner st) ∉ ctl_waiting c.
Proof.
  unfold request_owners. intros (_ & N & _)%list.NoDup_app S W. apply (N (stream_owner st)).
  - apply list_elem_of_fmap. by exists (g, stream_owner st).
  - apply list_elem_of_fmap. exists st. split; [done|]. by eapply list_elem_of_lookup_2.
Qed.

Lemma stream_owner_sent sent now c log i st : ctl_inv sent now c log -> ctl_streams c !! i = Some st -> stream_owner st ∈ sent.
Proof.
  intros I S. apply (inv_sent _ _ _ _ I). unfold request_owners. apply elem_of_app. right. apply list_elem_of_fmap.
  exists st. split; [done|]. by eapply list_elem_of_lookup_2.
Qed.

Lemma calls_of_one o log e : calls_of o (log ++ [(o, e)]) = calls_of o log ++ [e].
Proof. by rewrite calls_of_snoc, Nat.eqb_refl. Qed.

Lemma calls_of_ne o log o' e : o' <> o -> calls_of o (log ++ [(o', e)]) = calls_of o log.
Proof. intros N. rewrite calls_of_snoc. apply Nat.eqb_neq in N as ->. by rewrite app_nil_r. Qed.

(** An update of a stream that is not over. *)
Lemma ctl_inv_update sent now c log i st : ctl_inv sent now c log -> ctl_streams c !! i = Some st ->
  stream_completed st = false -> ctl_inv sent now c (log ++ [(stream_owner st, Updated)]).
Proof.
  intros I S C. pose proof (stream_owner_sent _ _ _ _ _ _ I S) as Sent. pose proof (inv_open _ _ _ _ I _ _ S C) as O.
  pose proof I as []. split; try done.
  - intros g o W. rewrite calls_of_ne; [eauto|]. intros <-. by apply (owner_not_waiting c i st g).
  - intros j st' Sj Cj. destruct (decide (stream_owner st = stream_owner st')) as [E|E].
    + rewrite <- E, calls_of_one. by apply open_snoc.
    + rewrite calls_of_ne by done. eauto.
  - intros o N. rewrite calls_of_ne; [auto|]. by intros <-.
  - intros o. destruct (decide (stream_owner st = o)) as [<-|E]; [|by rewrite calls_of_ne].
    rewrite calls_of_one. by apply open_proper, open_snoc.
Qed.

(** The end of a stream that is marked as over. *)
Lemma ctl_inv_end sent now c log i st e : ctl_inv sent now c log -> ctl_streams c !! i = Some st ->
  stream_completed st = false -> e <> Updated -> ctl_inv sent now (mark_completed i c) (log ++ [(stream_owner st, e)]).
Proof.
  intros I S C E. pose proof (stream_owner_sent _ _ _ _ _ _ I S) as Sent. pose proof (inv_open _ _ _ _ I _ _ S C) as O.
  pose proof (inv_distinct _ _ _ _ I) as D.
  pose proof (ctl_inv_mark _ _ _ _ i I) as []. split; try done.
  - intros g o W. rewrite calls_of_ne; [eauto|]. intros <-. by apply (owner_not_waiting c i st g).
  - intros j st' Sj Cj. assert (j <> i) as N.
    { intros ->. cbn in Sj. rewrite list_lookup_alter_eq, S in Sj. cbn in Sj. by simplify_eq. }
    rewrite calls_of_ne; [eauto|]. intros X. cbn in Sj. rewrite list_lookup_alter_ne in Sj by done.
    by apply N, eq_sym, (owner_distinct c i j st st').
  - intros o N. rewrite calls_of_ne; [auto|]. by intros <-.
  - intros o. destruct (decide (stream_owner st = o)) as [<-|X]; [|by rewrite calls_of_ne].
    rewrite calls_of_one. by apply closed_proper.
Qed.

(** *** Steps *)

(** Only the latest request is called. *)
Definition log_grows (now : option nat) (log log' : list (nat * Callback)) : Prop :=
  exists calls, log' = log ++ calls /\ Forall (fun e => now = Some e.1) calls.

Lemma log_same now log : log_grows now log log.
Proof. exists []. by rewrite app_nil_r. Qed.

Lemma log_one now log o e : now = Some o -> log_grows now log (log ++ [(o, e)]).
Proof. intros ->. eexists. split; [done|]. by repeat constructor. Qed.

Lemma log_trans now log1 log2 log3 : log_grows now log1 log2 -> log_grows now log2 log3 -> log_grows now log1 log3.
Proof.
  intros (a & -> & A) (b & -> & B). exists (a ++ b). rewrite app_assoc. split; [done|]. by apply Forall_app.
Qed.

Section Steps.
Context {S : Type} (cb : StreamCallbacks S).
Notation cb' := (logged cb).

Lemma handleError_inv sent now i m code c s log c' s' log' : ctl_inv sent now c log ->
  handleError cb' i m code c (s, log) = (c', (s', log')) -> ctl_inv sent now c' log' /\ log_grows now log log'.
Proof.
  intros I. unfold handleError. destruct (is_live c i) eqn:L; cbn [negb]; [|intros [= <- <- <-]; by split; [|apply log_same]].
  apply live_stream in L as (st & St & G & C & O). rewrite O. cbn [logged onError].
  destruct (onError cb (stream_owner st) m code s) as [s1 threw].
  pose proof (ctl_inv_end _ _ _ _ _ _ Errored I St C ltac:(done)) as I'.
  assert (log_grows now log (log ++ [(stream_owner st, Errored)])) by (by apply log_one, (inv_streams _ _ _ _ I i st St)).
  destruct threw; intros [= <- <- <-]; split; try done. by apply ctl_inv_close_active.
Qed.

Lemma run_updates_inv sent now c i st : ctl_streams c !! i = Some st -> stream_completed st = false ->
  now = Some (stream_owner st) -> forall updates s log s' log' threw, ctl_inv sent now c log ->
  run_updates cb' (stream_owner st) updates (s, log) = ((s', log'), threw) ->
  ctl_inv sent now c log' /\ log_grows now log log'.
Proof.
  intros St C N. induction updates as [|u updates IH]; intros s log s' log' threw I; cbn [run_updates].
  - intros [= <- <- <-]. split; [done|apply log_same].
  - cbn [logged onUpdate]. destruct (onUpdate cb (stream_owner st) u s) as [s1 [|]].
    + intros [= <- <- <-]. split; [by eapply ctl_inv_update|by apply log_one].
    + intros E. apply (IH s1 _ _ _ _) in E as [I' G]; [|by eapply ctl_inv_update].
      split; [done|]. eapply log_trans; [by apply log_one|done].
Qed.

Lemma source_event_inv sent now i e c s log c' s' log' : ctl_inv sent now c log ->
  on_source_event cb' i e c (s, log) = (c', (s', log')) -> ctl_inv sent now c' log' /\ log_grows now log log'.
Proof.
  intros I. unfold on_source_event.
  destruct (is_live c i) eqn:L; cbn [negb]; [|intros [= <- <- <-]; by split; [|apply log_same]].
  apply live_stream in L as (st & St & G & C & O). assert (now = Some (stream_owner st)) as N by by apply (inv_streams _ _ _ _ I i st St).
  destruct e as [data|rs data|rs status].
  - destruct (isStreamDoneMessage _).
    + rewrite O. cbn [logged onComplete]. intros [= <- <- <-]. split; [|by apply log_one].
      apply ctl_inv_close_active. by apply ctl_inv_end.
    + destruct (parseStreamMessageUpdates _) as [updates| |]; [|by apply handleError_inv..].
      rewrite O. destruct (run_updates cb' (stream_owner st) updates (s, log)) as [[s1 log1] threw] eqn:U.
      apply (run_updates_inv sent now c i st St C N) in U as [I' G']; [|done]. destruct threw.
      * intros E. apply (handleError_inv sent now) in E as [I'' G'']; [|done]. split; [done|]. by eapply log_trans.
      * by intros [= <- <- <-].
  - destruct (isStreamClosedReadyState rs); [intros [= <- <- <-]; by split; [|apply log_same]|].
    destruct (parseStreamErrorDetails data). by apply handleError_inv.
  - destruct (getStreamReadyStateError rs status); [by apply handleError_inv|].
    intros [= <- <- <-]; by split; [|apply log_same].
Qed.

(** A call that no longer waits. *)
Lemma ctl_inv_unwait sent now c log k g o : ctl_inv sent now c log -> ctl_waiting c !! k = Some (g, o) ->
  ctl_inv sent now (MkController (ctl_generation c) (ctl_source c) (ctl_streams c) (delete k (ctl_waiting c)) (ctl_streaming c)) log /\
  o ∉ map snd (delete k (ctl_waiting c)) ++ map stream_owner (ctl_streams c).
Proof.
  intros I W. pose proof (delete_Permutation _ _ _ W) as P.
  assert (request_owners c ≡ₚ o :: map snd (delete k (ctl_waiting c)) ++ map stream_owner (ctl_streams c)) as R.
  { unfold request_owners. change (o :: map snd (delete k (ctl_waiting c)) ++ map stream_owner (ctl_streams c))
      with (map snd ((g, o) :: delete k (ctl_waiting c)) ++ map stream_owner (ctl_streams c)).
    apply Permutation_app_tail. by apply Permutation_map. }
  pose proof (inv_distinct _ _ _ _ I) as D. rewrite R in D. apply list.NoDup_cons in D as [D1 D2]. split; [|done].
  destruct I. split; try done.
  - intros o' Io'. apply inv_sent0. rewrite R. by right.
  - intros g' o' Ig'. cbn in Ig'. cbn. apply inv_waiting0. rewrite P. by right.
  - intros g' o' Ig'. cbn in Ig'. apply (inv_silent0 g'). rewrite P. by right.
Qed.

Lemma headers_inv sent now k r c s log c' s' log' : ctl_inv sent now c log ->
  on_headers cb' k r c (s, log) = (c', (s', log')) -> ctl_inv sent now c' log' /\ log_grows now log log'.
Proof.
  intros I. unfold on_headers. destruct (ctl_waiting c !! k) as [[g o]|] eqn:W;
    [|intros [= <- <- <-]; by split; [|apply log_same]].
  pose proof (ctl_inv_unwait _ _ _ _ _ _ _ I W) as [I' F]. apply list_elem_of_lookup_2 in W as W'.
  pose proof (inv_silent _ _ _ _ I _ _ W') as Q. destruct (inv_waiting _ _ _ _ I _ _ W') as [_ N].
  assert (o ∈ sent) as Sent by (apply (inv_sent _ _ _ _ I); unfold request_owners; apply elem_of_app; left;
    apply list_elem_of_fmap; by exists (g, o)).
  cbn [ctl_generation]. destruct (ctl_generation c =? g)%nat eqn:G; cbn [negb];
    [apply Nat.eqb_eq in G; subst g; specialize (N eq_refl)|intros [= <- <- <-]; by split; [|apply log_same]].
  cbn [ctl_streams ctl_waiting ctl_generation]. destruct r as [message|starts].
  - cbn [logged onError]. destruct (onError cb o _ JUndefined s) as [s1 threw]. cbn [fst]. intros [= <- <- <-].
    split; [|by apply log_one]. apply not_elem_of_app in F as [F1 F2]. pose proof I' as []. split; try done.
    + intros g o' Iw. rewrite calls_of_ne; [eauto|]. intros <-. apply F1, list_elem_of_fmap. by exists (g, o).
    + intros j st Sj Cj. rewrite calls_of_ne; [eauto|]. intros ->. apply F2, list_elem_of_fmap. exists st.
      split; [done|]. by eapply list_elem_of_lookup_2.
    + intros o' N'. rewrite calls_of_ne; [auto|]. by intros <-.
    + intros o'. destruct (decide (o = o')) as [<-|X]; [|by rewrite calls_of_ne].
      rewrite calls_of_one, Q. apply closed_proper; [constructor|done].
  - set (c1 := MkController _ _ _ _ _). assert (ctl_inv sent now c1 log) as I1.
    { destruct I'. cbn in *. split; unfold request_owners in *; cbn in *; try done.
      - rewrite map_app, app_assoc. apply list.NoDup_app. split; [done|]. split; [|apply NoDup_singleton].
        intros x Ix Ix'. by apply list_elem_of_singleton in Ix' as ->.
      - intros x. rewrite map_app, app_assoc. intros [Ix|Ix]%elem_of_app; [auto|].
        by apply list_elem_of_singleton in Ix as ->.
      - intros j st. rewrite lookup_app_Some. intros [Sj|[_ Sj]]; [eauto|].
        apply list_lookup_singleton_Some in Sj as [_ <-]. cbn. auto.
      - intros j st. rewrite lookup_app_Some. intros [Sj|[_ Sj]]; [eauto|].
        apply list_lookup_singleton_Some in Sj as [_ <-]. cbn. rewrite Q. constructor. }
    destruct starts; [intros [= <- <- <-]; by split; [|apply log_same]|]. by apply handleError_inv.
Qed.
End Steps.

Lemma send_inv sent now o c log : ctl_inv sent now c log -> o ∉ sent -> ctl_inv (o :: sent) (Some o) (send_begin o c) log.
Proof.
  intros I F. set (c1 := close_source (ctl_source c) c).
  assert (ctl_inv sent now c1 log) as I1 by by apply ctl_inv_close_source.
  assert (ctl_generation c1 = ctl_generation c) as G by (unfold c1; by destruct (ctl_source c)).
  assert (ctl_waiting c1 = ctl_waiting c) as W by (unfold c1; by destruct (ctl_source c)).
  assert (o ∉ request_owners c1) as F1 by (intros E; by apply F, (inv_sent _ _ _ _ I1)).
  assert (request_owners (send_begin o c) ≡ₚ o :: request_owners c1) as R.
  { unfold request_owners, send_begin. cbn [ctl_waiting ctl_streams]. fold c1. rewrite map_app. cbn [map snd].
    rewrite <- app_assoc. symmetry. apply Permutation_middle. }
  pose proof (inv_unsent _ _ _ _ I1 _ F) as Q. destruct I1. split.
  - rewrite R. by apply list.NoDup_cons.
  - intros x. rewrite R. rewrite !elem_of_cons. intros [->|E]; auto.
  - intros g x. unfold send_begin. fold c1. cbn [ctl_waiting ctl_generation]. intros [E|E]%elem_of_app.
    + destruct (inv_waiting0 g x E). rewrite G in *. split; [lia|]. intros. lia.
    + apply list_elem_of_singleton in E. simplify_eq. auto.
  - intros g x. unfold send_begin. fold c1. cbn [ctl_waiting]. intros [E|E]%elem_of_app; [eauto|].
    apply list_elem_of_singleton in E. by simplify_eq.
  - intros i st. unfold send_begin. fold c1. cbn [ctl_streams ctl_generation]. intros E.
    destruct (inv_streams0 i st E). rewrite G in *. split; [lia|]. intros. lia.
  - done.
  - intros x N. apply inv_unsent0. intros E. apply N. by right.
  - done.
Qed.

Section Runs.
Context {S : Type} (cb : StreamCallbacks S).

Lemma controller_step_inv sent now e c s log c' s' log' : ctl_inv sent now c log ->
  (forall o, e = CtlSend o -> o ∉ sent) -> controller_step (logged cb) e (c, (s, log)) = (c', (s', log')) ->
  ctl_inv (owners [e] ++ sent) (latest_after now e) c' log' /\ log_grows now log log'.
Proof.
  intros I F. destruct e as [o|k r|i e|notify]; cbn [controller_step owners omap list_omap app latest_after].
  - intros [= <- <- <-]. split; [by apply (send_inv _ now); [|apply F]|apply log_same].
  - by apply headers_inv.
  - by apply source_event_inv.
  - intros [= <- <- <-]. split; [|apply log_same].
    apply (ctl_inv_bump _ now _ (close_source (ctl_source c) c)); [by apply ctl_inv_close_source|by destruct (ctl_source c)|done..].
Qed.

Lemma controller_run_inv es : forall s, NoDup (owners es) ->
  exists c s' log, controller_run (logged cb) es (initial_controller, (s, [])) = (c, (s', log)) /\
    ctl_inv (reverse (owners es)) (latest es) c log.
Proof.
  induction es as [|e es IH] using rev_ind; intros s N.
  - exists initial_controller, s, []. split; [done|]. apply ctl_inv_initial.
  - unfold owners in N. rewrite omap_app in N. apply list.NoDup_app in N as (N1 & N2 & _).
    destruct (IH s N1) as (c & s1 & log & E & I). unfold controller_run in *. rewrite fold_left_app, E. cbn [fold_left].
    destruct (controller_step (logged cb) e (c, (s1, log))) as [c' [s' log']] eqn:St. exists c', s', log'. split; [done|].
    apply (controller_step_inv _ _ _ _ _ _ _ _ _ I) in St as [I' _].
    + unfold latest. rewrite fold_left_app. cbn [fold_left]. unfold owners. rewrite omap_app, reverse_app.
      destruct e; done.
    + intros o -> Io. apply (N2 o); [by apply elem_of_reverse|]. cbn. by left.
Qed.

(** The record of calls changes nothing else. *)
Lemma handleError_logged i m code c s log :
  let '(c', (s', _)) := handleError (logged cb) i m code c (s, log) in handleError cb i m code c s = (c', s').
Proof.
  unfold handleError. destruct (negb _); [done|]. cbn [logged onError]. destruct (onError cb _ m code s) as [s1 []]; done.
Qed.

Lemma run_updates_logged o updates : forall s log,
  let '((s', _), threw) := run_updates (logged cb) o updates (s, log) in run_updates cb o updates s = (s', threw).
Proof.
  induction updates as [|u updates IH]; intros s log; [done|]. cbn [run_updates logged onUpdate].
  destruct (onUpdate cb o u s) as [s1 []]; [done|]. apply IH.
Qed.

Lemma controller_step_logged e c s log :
  let '(c', (s', _)) := controller_step (logged cb) e (c, (s, log)) in controller_step cb e (c, s) = (c', s').
Proof.
  destruct e as [o|k r|i e|notify]; cbn [controller_step]; try done.
  - unfold on_headers. destruct (ctl_waiting c !! k) as [[g o]|]; [|done]. destruct (negb _); [done|].
    destruct r as [m|[]]; [|done|apply handleError_logged]. cbn [logged onError].
    by destruct (onError cb o _ JUndefined s).
  - unfold on_source_event. destruct (negb _); [done|]. destruct e as [data|rs data|rs status].
    + destruct (isStreamDoneMessage _); [done|]. destruct (parseStreamMessageUpdates _) as [us| |]; try apply handleError_logged.
      pose proof (run_updates_logged (owner_of c i) us s log) as E.
      destruct (run_updates (logged cb) (owner_of c i) us (s, log)) as [[s1 log1] threw]. rewrite E.
      destruct threw; [apply handleError_logged|done].
    + destruct (isStreamClosedReadyState rs); [done|]. destruct (parseStreamErrorDetails data). apply handleError_logged.
    + destruct (getStreamReadyStateError rs status); [apply handleError_logged|done].
Qed.

(** The calls a run of the controller makes. *)
Definition calls_made (es : list ControllerEvent) (s : S) : list (nat * Callback) :=
  (controller_run (logged cb) es (initial_controller, (s, []))).2.2.

(** C17: the contract of the stream controller with whoever it calls back, for
    any event sources, any answers for the headers and any interleaving.  The
    callbacks of every request are updates followed by at most one completion
    or error, and a call is only made for the latest request, as long as it
    was neither superseded nor cancelled. *)
Theorem stream_contract es s : NoDup (owners es) ->
  (forall o, proper_calls (calls_of o (calls_made es s))) /\
  (forall e, NoDup (owners (es ++ [e])) -> log_grows (latest es) (calls_made es s) (calls_made (es ++ [e]) s)).
Proof.
  intros N. destruct (controller_run_inv es s N) as (c & s' & log & E & I). unfold calls_made. rewrite E. cbn [snd]. split.
  - apply (inv_proper _ _ _ _ I).
  - intros e N'. unfold controller_run in *. rewrite fold_left_app, E. cbn [fold_left].
    destruct (controller_step (logged cb) e (c, (s', log))) as [c1 [s1 log1]] eqn:St.
    apply (controller_step_inv _ _ _ _ _ _ _ _ _ I) in St as [_ G]; [done|].
    intros o -> Io. unfold owners in N'. rewrite omap_app in N'. apply list.NoDup_app in N' as (_ & D & _).
    apply (D o); [by apply elem_of_reverse|]. cbn. by left.
Qed.
End Runs.

(** Two requests: the second supersedes the first, whose answer is ignored. *)
Definition sample_events : list ControllerEvent :=
  [CtlSend 1; CtlHeaders 0 (HeadersReady true); CtlSend 2; CtlSource 0 (SourceMessage (Some STREAM_DONE_MESSAGE));
   CtlHeaders 0 (HeadersReady true); CtlSource 1 (SourceMessage (Some (js "[]")));
   CtlSource 1 (SourceMessage (Some STREAM_DONE_MESSAGE)); CtlSource 1 (SourceMessage (Some STREAM_DONE_MESSAGE))].

Definition sample_callbacks : StreamCallbacks unit := MkCallbacks (fun _ _ s => (s, false)) (fun _ s => s) (fun _ _ _ s => (s, false)).

Lemma stream_contract_witness :
  calls_made sample_callbacks sample_events tt = [(2, Completed)] /\
  proper_calls (calls_of 2 (calls_made sample_callbacks sample_events tt)).
Proof.
  split; [vm_compute; reflexivity|]. apply (stream_contract sample_callbacks sample_events tt).
  apply (bool_decide_unpack _). vm_compute. exact I.
Defined.

(** A server that closes the connection without the final message is not
    noticed: neither event of a closed source ends the request. *)
Lemma silent_close_ignored {S} (cb : StreamCallbacks S) i c s data :
  on_source_event cb i (SourceReadyState (Some 2%Z) (Some 200%Z)) c s = (c, s) /\
  on_source_event cb i (SourceError (Some 2%Z) data) c s = (c, s).
Proof. unfold on_source_event. split; by destruct (negb (is_live c i)). Qed.
