(* ===== verification/PlaygroundChatFacts.v ===== *)
(** * No message is left waiting

    With the chat handler, the stream controller and the conversation put
    together: once React has run the updates, only the last message can be
    waiting for its answer, and only while an answer is being generated. *)

From Stdlib Require Import ZArith Lia Bool.
From stdpp Require Import base list numbers.
From S2P Require Import Prelude JsString JsNumber JsValue JsJson JsDynamic PlaygroundMessages PlaygroundStream.

(** ** What a message list looks like to the life cycle *)

Definition Shape : Type := str * MessageRole * option MessageStatus.

Definition shape (m : Message) : Shape := (msg_key m, msg_from m, msg_status m).

Definition waiting_status (s : option MessageStatus) : bool :=
  bool_decide (s = Some StatusLoading) || bool_decide (s = Some StatusStreaming).

Definition is_waiting (x : Shape) : bool := bool_decide (x.1.2 = FromAssistant) && waiting_status x.2.

Lemma waiting_shape m : is_waiting (shape m) = isPendingAssistantMessage m.
Proof. done. Qed.

Definition all_quiet (l : list Shape) : Prop := Forall (fun x => is_waiting x = false) l.

(** Only the last one may be waiting. *)
Fixpoint calm (l : list Shape) : Prop :=
  match l with
  | [] => True
  | x :: l' => (l' <> [] -> is_waiting x = false) /\ calm l'
  end.

Fixpoint upd_last (f : option MessageStatus -> option MessageStatus) (l : list Shape) : list Shape :=
  match l with
  | [] => []
  | [(k, r, s)] => [(k, r, if bool_decide (r = FromAssistant) then f s else s)]
  | x :: l' => x :: upd_last f l'
  end.

Lemma quiet_calm l : all_quiet l -> calm l.
Proof. induction 1; cbn; auto. Qed.

Lemma quiet_snoc_calm l x : all_quiet l -> calm (l ++ [x]).
Proof. induction 1; cbn; [by split|by split]. Qed.

Lemma calm_filter p l : calm l -> calm (List.filter p l).
Proof.
  induction l as [|x l IH]; [done|]. intros [Q C]. cbn [List.filter]. specialize (IH C). destruct (p x); [|done].
  split; [|done]. intros N. apply Q. by intros ->.
Qed.

Lemma quiet_filter p l : all_quiet l -> all_quiet (List.filter p l).
Proof. induction 1; cbn [List.filter]; [constructor|]. destruct (p x); [by constructor|done]. Qed.

Lemma upd_last_nil f l : upd_last f l = [] -> l = [].
Proof. destruct l as [|[[k r] s] [|y l]]; done. Qed.

Lemma calm_upd_last f l : calm l -> calm (upd_last f l).
Proof.
  induction l as [|[[k r] s] [|y l] IH]; [done|done|]. intros [Q C]. cbn [upd_last]. split; [|by apply IH].
  intros _. by apply Q.
Qed.

Lemma quiet_upd_last f l : calm l -> (forall s, waiting_status (f s) = false) -> all_quiet (upd_last f l).
Proof.
  intros C F. induction l as [|[[k r] s] [|y l] IH]; [constructor| |].
  - constructor; [|constructor]. unfold is_waiting. cbn. case_bool_decide; [apply F|done].
  - destruct C as [Q C]. cbn [upd_last]. constructor; [by apply Q|by apply IH].
Qed.

Lemma calm_take l i x : calm l -> l !! i = Some x -> is_waiting x = false -> all_quiet (take (i + 1) l).
Proof.
  revert i. induction l as [|y l IH]; intros i C L W; [done|]. destruct i as [|i]; cbn in L.
  - injection L as ->. cbn. by repeat constructor.
  - destruct C as [Q C]. cbn. constructor; [apply Q; by destruct l|]. by apply IH.
Qed.

Lemma quiet_take n l : all_quiet l -> all_quiet (take n l).
Proof. apply Forall_take. Qed.

Lemma map_take_shape n l : map shape (take n l) = take n (map shape l).
Proof. symmetry. apply firstn_map. Qed.

(** ** The updaters on shapes *)

Definition flushed (s : option MessageStatus) : option MessageStatus :=
  if bool_decide (s = Some StatusError) then s else Some StatusStreaming.

Definition status_after (u : Updater) : option MessageStatus -> option MessageStatus :=
  match u with
  | FlushChunks _ reasoning content => if non_empty reasoning || non_empty content then flushed else fun s => s
  | FinishStream _ => fun s =>
      if bool_decide (s = Some StatusComplete) || bool_decide (s = Some StatusError) then s else Some StatusComplete
  | FailStream _ _ _ => fun _ => Some StatusError
  | UseResponse _ response => fun s => if hasChatCompletionChoice response then Some StatusComplete else s
  | StopPending _ => fun s => if waiting_status s then Some StatusComplete else s
  | _ => fun s => s
  end.

Definition updater_generation (u : Updater) : option nat :=
  match u with
  | FlushChunks g _ _ | FinishStream g | FailStream g _ _ | UseResponse g _ | StopPending g => Some g
  | _ => None
  end.

Definition shape_updater (g : nat) (l : list Shape) (u : Updater) : list Shape :=
  match u with
  | SetMessages messages => map shape messages
  | RemoveMessage key => List.filter (fun x => negb (str_eqb x.1.1 key)) l
  | _ => if bool_decide (updater_generation u = Some g) then upd_last (status_after u) l else l
  end.

Lemma shape_update_last messages f st : (forall m, msg_from m = FromAssistant -> shape (f m) = (msg_key m, msg_from m, st (msg_status m))) ->
  map shape (updateLastAssistantMessage messages f) = upd_last st (map shape messages).
Proof.
  intros F. unfold updateLastAssistantMessage. destruct (list.last messages) as [m|] eqn:L.
  2: { apply last_None in L as ->. done. }
  apply last_Some in L as [l ->]. rewrite length_app. cbn [length]. replace (length l + 1 - 1) with (length l + 0) by lia.
  assert (forall y, map shape (l ++ [y]) = map shape l ++ [shape y]) as M by (intros; by rewrite map_app).
  assert (forall k r s, upd_last st (map shape l ++ [(k, r, s)]) =
    map shape l ++ [(k, r, if bool_decide (r = FromAssistant) then st s else s)]) as U.
  { intros k r s. induction l as [|x l IH]; [done|]. cbn [map app]. rewrite <- IH by (intros; by rewrite map_app).
    by destruct (map shape l). }
  destruct (bool_decide (msg_from m = FromAssistant)) eqn:A.
  - rewrite insert_app_r. cbn. rewrite !M. change [shape m] with [(msg_key m, msg_from m, msg_status m)]. rewrite U, A. f_equal. f_equal. apply F.
    by apply bool_decide_eq_true in A.
  - rewrite !M. change [shape m] with [(msg_key m, msg_from m, msg_status m)]. by rewrite U, A.
Qed.

(** *** What the message functions do to the status *)

Lemma status_timing m now : shape (completeAssistantTiming m now) = shape m.
Proof. unfold completeAssistantTiming. by case_bool_decide. Qed.

Lemma status_reasoning_timing m now : shape (completeReasoningTiming m now) = shape m.
Proof. unfold completeReasoningTiming. by destruct (msg_reasoning m) as [[? ? ? ? []]|]. Qed.

Lemma status_finalize clock m api : shape (finalizeMessage clock m api) = shape m.
Proof. unfold finalizeMessage. by rewrite status_reasoning_timing. Qed.

Lemma status_streaming_content clock m chunk : shape (processStreamingContent clock m chunk) = shape m.
Proof. unfold processStreamingContent. destruct (msg_reasoning m); [done|]. by case_match. Qed.

Lemma shape_with_status m s : shape (with_status s m) = (msg_key m, msg_from m, Some s).
Proof. done. Qed.

Lemma shape_parts m m' : shape m = shape m' -> msg_key m = msg_key m' /\ msg_from m = msg_from m' /\ msg_status m = msg_status m'.
Proof. intros [= -> -> ->]. done. Qed.

Lemma status_complete clock m : shape (completeAssistantMessage clock m) = (msg_key m, msg_from m, Some StatusComplete).
Proof.
  unfold completeAssistantMessage. rewrite status_timing, shape_with_status.
  by destruct (shape_parts _ _ (status_finalize clock m None)) as (-> & -> & _).
Qed.

Lemma status_chunk clock m type chunk :
  shape (applyStreamingChunk clock m type chunk) = (msg_key m, msg_from m, flushed (msg_status m)).
Proof.
  unfold applyStreamingChunk, flushed. case_bool_decide; [by unfold shape|]. destruct type; [done|].
  rewrite shape_with_status. set (m' := processStreamingContent _ _ _).
  destruct (shape_parts m' m (status_streaming_content _ _ _)) as (K & R & _).
  destruct (shape_parts _ _ (status_reasoning_timing m' (clock 1))) as (K' & R' & _).
  destruct (msg_isReasoningStreaming m') as [[]|]; congruence.
Qed.

Lemma status_flush clock reasoning content m :
  shape (flush_chunks clock reasoning content m) =
  (msg_key m, msg_from m, status_after (FlushChunks 0 reasoning content) (msg_status m)).
Proof.
  unfold flush_chunks. cbn [status_after]. destruct (non_empty reasoning), (non_empty content); cbn [orb]; try done.
  - rewrite status_chunk. destruct (shape_parts _ (applyStreamingChunk clock m ChunkReasoning reasoning) eq_refl) as (_ & _ & _).
    pose proof (status_chunk clock m ChunkReasoning reasoning) as E. unfold shape in E. simplify_eq.
    rewrite H, H0, H1. f_equal. unfold flushed. by repeat case_bool_decide.
  - apply status_chunk.
  - apply status_chunk.
Qed.

Section Updaters.
Variable t : str -> str.

Lemma run_updater_shape clock g u messages :
  map shape (run_updater t clock g u messages) = shape_updater g (map shape messages) u.
Proof.
  assert (forall g' x y, (if negb (g' =? g)%nat then x else y) = (if bool_decide (Some g' = Some g) then y else x : list Message)) as G.
  { intros g' x y. destruct (Nat.eqb_spec g' g) as [->|N]; case_bool_decide; simplify_eq; done. }
  destruct u as [ms|key|g' r c|g'|g' err code|g' resp|g']; cbn [run_updater shape_updater updater_generation].
  - done.
  - unfold removeMessageByKey. induction messages as [|m messages IH]; [done|]. cbn [List.filter map].
    change ((shape m).1.1) with (msg_key m). unfold has_msg_key at 1. destruct (str_eqb (msg_key m) key); cbn [negb map]; by rewrite IH.
  - rewrite G. case_bool_decide; [|done]. apply shape_update_last. intros m _. apply status_flush.
  - rewrite G. case_bool_decide; [|done]. apply shape_update_last. intros m _. unfold isAssistantMessageFinal. cbn [status_after].
    destruct (_ || _); [done|apply status_complete].
  - rewrite G. case_bool_decide; [|done]. apply shape_update_last. intros m _. by rewrite status_timing.
  - rewrite G. case_bool_decide; [|done]. apply shape_update_last. intros m _. cbn [status_after].
    unfold applyChatCompletionResponse, hasChatCompletionChoice. destruct (first_choice resp) as [choice|]; [|done]. cbn.
    unfold applyChatCompletionChoice. rewrite status_timing, shape_with_status.
    by destruct (shape_parts _ _ (status_finalize clock (updateCurrentVersionContent m (default [] (choice_content choice))) (choice_reasoning choice))) as (-> & -> & _).
  - rewrite G. case_bool_decide; [|done]. apply shape_update_last. intros m _. cbn [status_after].
    unfold isAssistantMessagePending, waiting_status. destruct (_ || _); [apply status_complete|done].
Qed.

Lemma calm_updater g u l : (forall ms, u = SetMessages ms -> calm (map shape ms)) -> calm l -> calm (shape_updater g l u).
Proof.
  intros Q C. destruct u; cbn [shape_updater]; try (case_bool_decide; [by apply calm_upd_last|done]); [by apply Q|by apply calm_filter].
Qed.

Definition good_updater (u : Updater) : Prop := forall ms, u = SetMessages ms -> calm (map shape ms).

(** The messages once React has run the queue. *)
Definition settled (h : Chat) : list Shape :=
  fold_left (shape_updater (chat_generation h)) (chat_queue h) (map shape (chat_messages h)).

Lemma calm_fold g queue l : Forall good_updater queue -> calm l -> calm (fold_left (shape_updater g) queue l).
Proof. intros F. revert l. induction F as [|u queue Q F IH]; intros l C; [done|]. by apply IH, calm_updater. Qed.

(** An updater that ends the wait of the last message. *)
Definition ends_wait (g : nat) (u : Updater) : Prop :=
  updater_generation u = Some g /\ forall s, waiting_status (status_after u s) = false.

Lemma finish_ends g : ends_wait g (FinishStream g).
Proof.
  split; [done|]. intros s. cbn. destruct (bool_decide (s = Some StatusComplete)) eqn:A; cbn [orb].
  - by apply bool_decide_eq_true in A as ->.
  - destruct (bool_decide (s = Some StatusError)) eqn:B; [|done]. by apply bool_decide_eq_true in B as ->.
Qed.

Lemma fail_ends g e code : ends_wait g (FailStream g e code).
Proof. by split. Qed.

Lemma response_ends g r : hasChatCompletionChoice r = true -> ends_wait g (UseResponse g r).
Proof. intros C. split; [done|]. intros s. cbn. by rewrite C. Qed.

Lemma stop_ends g : ends_wait g (StopPending g).
Proof. split; [done|]. intros s. cbn. by destruct (waiting_status s) eqn:W. Qed.

Lemma quiet_after g queue u l : Forall good_updater queue -> calm l -> ends_wait g u ->
  all_quiet (fold_left (shape_updater g) (queue ++ [u]) l).
Proof.
  intros F C [G E]. rewrite fold_left_app. cbn [fold_left]. apply (calm_fold g _ _ F) in C.
  assert (shape_updater g (fold_left (shape_updater g) queue l) u = upd_last (status_after u) (fold_left (shape_updater g) queue l)) as ->.
  { destruct u; cbn [updater_generation] in G; try done; cbn [shape_updater updater_generation]; rewrite G;
      by rewrite bool_decide_eq_true_2. }
  by apply quiet_upd_last.
Qed.

(** ** The invariant *)

(** Chunks that a flush would hand to React. *)
Definition holds_chunks (h : Chat) : bool :=
  (pd_generation (chat_pending h) =? chat_generation h)%nat &&
  (non_empty (pd_content (chat_pending h)) || non_empty (pd_reasoning (chat_pending h))).

(** The controller against the generation of the handler. *)
Record ctl_ok (c : Controller) (g : nat) : Prop := {
  ok_source i : ctl_source c = Some i -> ctl_streaming c = true;
  ok_stream i st : ctl_streams c !! i = Some st ->
    stream_generation st <= ctl_generation c /\ (stream_generation st = ctl_generation c -> stream_owner st = g);
  ok_waiting g' o : (g', o) ∈ ctl_waiting c -> g' <= ctl_generation c /\ (g' = ctl_generation c -> o = g)
}.

Record chat_ok (h : Chat) : Prop := {
  ok_calm : calm (map shape (chat_messages h));
  ok_queue : Forall good_updater (chat_queue h);
  ok_requests k r : chat_requests h !! k = Some r ->
    pr_generation r <= chat_generation h /\ (pr_generation r = chat_generation h -> pr_aborted r = false)
}.

Record chat_inv (ch : Controller * Chat) : Prop := {
  ci_ctl : ctl_ok ch.1 (chat_generation ch.2);
  ci_chat : chat_ok ch.2;
  ci_chunks : holds_chunks ch.2 = true -> ctl_streaming ch.1 = true;
  ci_quiet : isGenerating ch = false -> all_quiet (settled ch.2)
}.

Lemma chat_inv_initial messages : all_quiet (map shape messages) -> chat_inv (initial_controller, initial_chat messages).
Proof.
  intros Q. split; cbn; try done.
  - split; cbn; try done. intros g o E. by apply elem_of_nil in E.
  - split; cbn; try done. by apply quiet_calm.
Qed.

(** *** The handler *)

Lemma plain_good u : updater_generation u <> None -> good_updater u.
Proof. by intros N ms ->. Qed.

(** What a function of the handler keeps. *)
Record kept (h h' : Chat) : Prop := {
  kept_generation : chat_generation h' = chat_generation h;
  kept_requests : chat_requests h' = chat_requests h;
  kept_messages : chat_messages h' = chat_messages h
}.

Lemma flush_spec h : let h' := flushStreamUpdates (chat_generation h) h in
  kept h h' /\ chat_requesting h' = chat_requesting h /\ holds_chunks h' = false /\
  exists us, chat_queue h' = chat_queue h ++ us /\ Forall good_updater us /\ (holds_chunks h = false -> us = []).
Proof.
  unfold flushStreamUpdates, holds_chunks. rewrite Nat.eqb_refl. cbn [negb].
  destruct h as [g [pg pc pr] tm ab rs rq ms q]. cbn [with_timer chat_pending pd_generation chat_generation pd_content pd_reasoning].
  destruct (pg =? g)%nat eqn:E; cbn [negb andb].
  - destruct (non_empty pr) eqn:R, (non_empty pc) eqn:C; cbn [negb andb orb]; (split; [done|]); (split; [done|]);
      cbn; rewrite ?E, ?R, ?C, ?Nat.eqb_refl; (split; [done|]);
      first [exists []; by rewrite app_nil_r | eexists; split; [done|]; split; [by repeat constructor|done]].
  - split; [done|]. split; [done|]. cbn. rewrite E. split; [done|]. exists []. by rewrite app_nil_r.
Qed.

Lemma flush_other g h : g <> chat_generation h -> flushStreamUpdates g h = h.
Proof. intros N. unfold flushStreamUpdates. apply Nat.eqb_neq in N as ->. done. Qed.

Lemma chat_ok_kept h h' us : chat_ok h -> kept h h' -> chat_queue h' = chat_queue h ++ us -> Forall good_updater us -> chat_ok h'.
Proof.
  intros [] [G R M] Q F. split; rewrite ?G, ?R, ?M, ?Q; try done. by apply Forall_app.
Qed.

(** An end of the request: the queue ends with an updater that ends the wait. *)
Lemma settled_end h h' us u : chat_ok h -> kept h h' -> chat_queue h' = (chat_queue h ++ us) ++ [u] -> Forall good_updater us ->
  ends_wait (chat_generation h') u -> all_quiet (settled h').
Proof.
  intros [] [G R M] Q F E. unfold settled. rewrite Q, M, G in *. apply quiet_after; [by apply Forall_app|done|done].
Qed.

Lemma ends_wait_good g u : ends_wait g u -> good_updater u.
Proof. intros [G _]. apply plain_good. congruence. Qed.

(** A request that ends: the chunks are flushed and the wait ends. *)
Definition ended (h h' : Chat) : Prop :=
  kept h h' /\ chat_ok h' /\ holds_chunks h' = false /\ chat_requesting h' = false /\ all_quiet (settled h').

Lemma end_spec h u : chat_ok h -> ends_wait (chat_generation h) u ->
  ended h (onMessageUpdate u (setIsRequesting false (flushStreamUpdates (chat_generation h) h))).
Proof.
  intros O E. destruct (flush_spec h) as (K & _ & H & us & Q & F & _). set (h1 := flushStreamUpdates (chat_generation h) h) in *.
  set (h' := onMessageUpdate u _). assert (kept h h') as K' by (destruct K; by split).
  assert (chat_queue h' = (chat_queue h ++ us) ++ [u]) as Q' by (cbn; by rewrite Q).
  split; [done|]. split; [|split; [done|split; [done|]]].
  - apply (chat_ok_kept h _ (us ++ [u])); [done|done|by rewrite Q', app_assoc|].
    apply Forall_app. split; [done|]. constructor; [|constructor]. by eapply ends_wait_good.
  - eapply settled_end; [exact O|done|exact Q'|done|]. by rewrite (kept_generation _ _ K').
Qed.

Lemma complete_spec h : chat_ok h -> ended h (handleStreamComplete (chat_generation h) h).
Proof. intros O. unfold handleStreamComplete. rewrite Nat.eqb_refl. apply end_spec; [done|apply finish_ends]. Qed.

Lemma error_spec h err code h' threw : chat_ok h -> handleStreamError t (chat_generation h) err code h = (h', threw) ->
  (threw = false /\ ended h h') \/
  (threw = true /\ is_Some (match err with JStr _ => None | _ => Some tt end) /\
   kept h h' /\ chat_ok h' /\ holds_chunks h' = false).
Proof.
  intros O. unfold handleStreamError. rewrite Nat.eqb_refl. cbn [negb].
  destruct (getDisplayError t err) as [d| |] eqn:D; intros [= <- <-].
  1: { left. split; [done|]. apply end_spec; [done|apply fail_ends]. }
  all: right; split; [done|]; split; [destruct err; try done; unfold getDisplayError in D; by repeat case_match|].
  all: destruct (flush_spec h) as (K & _ & H & us & Q & F & _); split; [by destruct K; split|]; split; [|done].
  all: apply (chat_ok_kept h _ us); [done|by destruct K; split|done|done].
Qed.

Lemma update_spec g u h : let h' := (handleStreamUpdate g u h).1 in
  kept h h' /\ chat_queue h' = chat_queue h /\ chat_requesting h' = chat_requesting h.
Proof.
  unfold handleStreamUpdate, scheduleStreamFlush. destruct (negb (g =? chat_generation h)%nat); [done|].
  destruct (negb _); [done|]. destruct u as [[] chunk]; destruct (mergePendingStreamChunk _ chunk); try done;
    cbn [fst]; repeat case_match; done.
Qed.

Lemma kept_refl h : kept h h.
Proof. done. Qed.

Lemma kept_trans h1 h2 h3 : kept h1 h2 -> kept h2 h3 -> kept h1 h3.
Proof. intros [] []. split; congruence. Qed.

Lemma updates_spec o updates : forall h h' threw, run_updates (chat_callbacks t) o updates h = (h', threw) ->
  kept h h' /\ chat_queue h' = chat_queue h /\ chat_requesting h' = chat_requesting h.
Proof.
  induction updates as [|u updates IH]; intros h h' threw; cbn [run_updates]; [by intros [= <- <-]|].
  cbn [chat_callbacks onUpdate]. pose proof (update_spec o u h) as U. destruct (handleStreamUpdate o u h) as [h1 []]; cbn [fst] in U.
  - by intros [= <- <-].
  - intros E. apply IH in E as (K & Q & R). destruct U as (K1 & Q1 & R1). split; [by eapply kept_trans|]. split; congruence.
Qed.

Lemma settled_kept h h' : kept h h' -> chat_queue h' = chat_queue h -> settled h' = settled h.
Proof. intros [G _ M] Q. unfold settled. by rewrite G, M, Q. Qed.

(** *** The controller *)

Lemma ctl_ok_alter c c' g i f : ctl_ok c g -> ctl_generation c' = ctl_generation c -> ctl_waiting c' = ctl_waiting c ->
  ctl_streams c' = alter f i (ctl_streams c) -> (forall st, stream_generation (f st) = stream_generation st) ->
  (forall st, stream_owner (f st) = stream_owner st) -> (forall j, ctl_source c' = Some j -> ctl_streaming c' = true) -> ctl_ok c' g.
Proof.
  intros [S T W] EG EW ES FG FO FS. split; rewrite ?EG, ?EW; try done. intros j st. rewrite ES.
  destruct (decide (i = j)) as [<-|N].
  - rewrite list_lookup_alter_eq. destruct (ctl_streams c !! i) as [st0|] eqn:L; [|done]. intros [= <-].
    rewrite FG, FO. by apply (T i).
  - rewrite list_lookup_alter_ne by done. apply T.
Qed.

Lemma ctl_ok_mark c g i : ctl_ok c g -> ctl_ok (mark_completed i c) g.
Proof. intros O. eapply ctl_ok_alter; [done..|]. apply (ok_source _ _ O). Qed.

Lemma ctl_ok_close c g i : ctl_ok c g -> ctl_ok (close_stream i c) g.
Proof. intros O. eapply ctl_ok_alter; [done..|]. apply (ok_source _ _ O). Qed.

Lemma ctl_ok_close_active c g i : ctl_ok c g -> ctl_ok (closeActiveSource i c) g.
Proof. intros O. unfold closeActiveSource. apply (ctl_ok_close _ _ i) in O. case_bool_decide; [|done]. destruct O. by split. Qed.

(** A new generation of the controller. *)
Lemma ctl_ok_bump c c' g g' ws : ctl_ok c g -> ctl_generation c' = ctl_generation c + 1 ->
  (forall i, ctl_source c' <> Some i) -> (ctl_streams c' = ctl_streams c \/ exists i f, ctl_streams c' = alter f i (ctl_streams c) /\
    (forall st, stream_generation (f st) = stream_generation st)) ->
  ctl_waiting c' = ctl_waiting c ++ ws -> (forall w, w ∈ ws -> w = (ctl_generation c', g')) -> ctl_ok c' g'.
Proof.
  intros [S T W] G N St Q F.
  assert (forall i st, ctl_streams c' !! i = Some st -> stream_generation st <= ctl_generation c) as L.
  { intros i st. destruct St as [->|(j & f & -> & FG)]; [intros E; by apply (T i)|]. destruct (decide (j = i)) as [->|NE].
    - rewrite list_lookup_alter_eq. destruct (ctl_streams c !! i) as [st0|] eqn:L0; [|done]. intros [= <-]. rewrite FG. by apply (T i).
    - rewrite list_lookup_alter_ne by done. intros E. by apply (T i). }
  split.
  - intros i E. by apply N in E.
  - intros i st E. apply L in E. rewrite G. split; [lia|]. intros. lia.
  - intros g0 o. rewrite Q, G. intros [E|E]%elem_of_app.
    + apply W in E as [E _]. split; [lia|]. intros. lia.
    + apply F in E. rewrite G in E. by simplify_eq.
Qed.

Lemma ctl_ok_send c g g' : ctl_ok c g -> ctl_ok (send_begin g' c) g'.
Proof.
  intros O. apply (ctl_ok_bump c _ g g' [(ctl_generation c + 1, g')]); cbn; try done.
  - destruct (ctl_source c); [right; eauto|by left].
  - by destruct (ctl_source c).
  - intros w ->%list_elem_of_singleton. done.
Qed.

Lemma ctl_ok_cancel c g g' notify : ctl_ok c g -> ctl_ok (cancel notify c) g'.
Proof.
  intros O. apply (ctl_ok_bump c _ g g' []); cbn; try done.
  - destruct (ctl_source c); [right; eauto|by left].
  - rewrite app_nil_r. by destruct (ctl_source c).
  - intros w E. by apply elem_of_nil in E.
Qed.

(** *** Events of the sources *)

Lemma live_facts c g i : ctl_ok c g -> is_live c i = true ->
  owner_of c i = g /\ ctl_source c = Some i /\ ctl_streaming c = true.
Proof.
  intros O. unfold is_live, isCurrent, owner_of. destruct (ctl_streams c !! i) as [st|] eqn:L; [|done].
  rewrite !andb_true_iff, Nat.eqb_eq, bool_decide_eq_true. intros [[G S] _]. split; [|split; [done|by apply (ok_source _ _ O i)]].
  by apply (ok_stream _ _ O i st).
Qed.

(** A request that has ended leaves the invariant, whatever the controller
    does with its source. *)
Lemma ended_inv c c' h h' : chat_inv (c, h) -> ended h h' -> (forall g, ctl_ok c g -> ctl_ok c' g) -> chat_inv (c', h').
Proof.
  intros [O _ _ _] (K & Ok & H & R & Q) P. cbn in *. split; cbn; [|done| |done].
  - rewrite (kept_generation _ _ K). by apply P.
  - by rewrite H.
Qed.

Lemma streaming_inv c h c' h' : chat_inv (c, h) -> ctl_ok c' (chat_generation h) -> ctl_streaming c' = true -> kept h h' ->
  chat_ok h' -> chat_inv (c', h').
Proof.
  intros _ O S K Ok. split; cbn; [by rewrite (kept_generation _ _ K)|done|done|]. unfold isGenerating. cbn. by rewrite S.
Qed.

Lemma handleError_chat c h i err code : chat_inv (c, h) -> chat_inv (handleError (chat_callbacks t) i err code c h).
Proof.
  intros I. unfold handleError. destruct (is_live c i) eqn:L; cbn [negb]; [|done].
  apply (live_facts c (chat_generation h)) in L as (O & S & St); [|apply (ci_ctl _ I)]. rewrite O. cbn [chat_callbacks onError].
  destruct (handleStreamError t (chat_generation h) err code h) as [h' threw] eqn:E.
  apply error_spec in E as [[-> E]|(-> & _ & K & Ok & H)]; [| |apply (ci_chat _ I)].
  - apply (ended_inv c _ h); [done|done|]. intros g G. by apply ctl_ok_close_active, ctl_ok_mark.
  - apply (streaming_inv c h); [done| |done|done|done]. apply ctl_ok_mark, (ci_ctl _ I).
Qed.

Lemma chat_ok_same h h' : chat_ok h -> kept h h' -> chat_queue h' = chat_queue h -> chat_ok h'.
Proof. intros O K Q. apply (chat_ok_kept h _ []); [done|done|by rewrite app_nil_r|constructor]. Qed.

Lemma source_event_chat c h i e : chat_inv (c, h) -> chat_inv (on_source_event (chat_callbacks t) i e c h).
Proof.
  intros I. unfold on_source_event. destruct (is_live c i) eqn:L; cbn [negb]; [|done].
  apply (live_facts c (chat_generation h)) in L as (O & S & St); [|apply (ci_ctl _ I)].
  destruct e as [data|rs data|rs status].
  - destruct (isStreamDoneMessage _).
    + rewrite O. apply (ended_inv c _ h); [done|apply complete_spec, (ci_chat _ I)|].
      intros g G. by apply ctl_ok_close_active, ctl_ok_mark.
    + destruct (parseStreamMessageUpdates _) as [us| |]; [|by apply handleError_chat..].
      destruct (run_updates (chat_callbacks t) (owner_of c i) us h) as [h' threw] eqn:U.
      apply updates_spec in U as (K & Q & R). assert (chat_inv (c, h')) as I'.
      { apply (streaming_inv c h); [done|apply (ci_ctl _ I)|done|done|]. by eapply chat_ok_same; [apply (ci_chat _ I)|..]. }
      destruct threw; [by apply handleError_chat|done].
  - destruct (isStreamClosedReadyState rs); [done|]. destruct (parseStreamErrorDetails data). by apply handleError_chat.
  - destruct (getStreamReadyStateError rs status); [by apply handleError_chat|done].
Qed.

Lemma headers_chat c h k r : chat_inv (c, h) -> chat_inv (on_headers (chat_callbacks t) k r c h).
Proof.
  intros I. unfold on_headers. destruct (ctl_waiting c !! k) as [[g o]|] eqn:W; [|done].
  set (c1 := MkController _ _ _ _ _). assert (forall x, ctl_ok c x -> ctl_ok c1 x) as P.
  { intros x [S T Wt]. split; [done|done|]. intros g' o' E. apply Wt. cbn in E.
    apply (delete_Permutation _ k (g, o)) in W. rewrite W. by right. }
  assert (chat_inv (c1, h)) as I1 by (destruct I; split; cbn in *; auto).
  change (ctl_generation c1) with (ctl_generation c). destruct (ctl_generation c =? g)%nat eqn:G; cbn [negb]; [|done].
  apply Nat.eqb_eq in G. subst g. assert (o = chat_generation h) as ->.
  { by apply (ok_waiting _ _ (ci_ctl _ I) (ctl_generation c) o); [apply list_elem_of_lookup_2 in W|]. }
  destruct r as [message|starts].
  - cbn [chat_callbacks onError]. destruct (handleStreamError t (chat_generation h) _ JUndefined h) as [h' threw] eqn:E.
    apply error_spec in E as [[-> E]|(-> & [? [=]] & _)]; [|apply (ci_chat _ I)]. by apply (ended_inv c1 _ h).
  - set (c2 := MkController _ _ _ _ _). assert (chat_inv (c2, h)) as I2; [|destruct starts; [done|by apply handleError_chat]].
    apply (streaming_inv c1 h); [done| |done|done|apply (ci_chat _ I)]. destruct (ci_ctl _ I1) as [S T Wt]. split; cbn in *; [done| |done].
    intros j st. rewrite lookup_app_Some. intros [E|[_ E]]; [eauto|]. apply list_lookup_singleton_Some in E as [_ <-]. cbn. auto.
Qed.

(** *** Requests that are not streamed, the timer and React *)

(** The texts a failed request is reported with. *)
Definition text_or_falsy (v : jsval) : bool := match v with JStr _ => true | _ => negb (value_truthy v) end.
Definition textual_failure (error : jsval) : bool :=
  text_or_falsy (get_field (get_field (get_field error (js "response")) (js "data")) (js "message")) &&
  text_or_falsy (get_field error (js "message")).

Lemma textual_failure_message error : textual_failure error = true -> exists s, (parseRequestErrorDetails error).2 = JStr s.
Proof.
  unfold textual_failure, parseRequestErrorDetails, text_or_falsy, value_or. cbn [snd]. intros T. split_andb.
  repeat case_match; try done; eauto; rewrite ?negb_true_iff in *; congruence.
Qed.

Definition event_wf (e : ChatEvent) : bool :=
  match e with ResultArrives _ (PlainFailure error) => textual_failure error | _ => true end.

Lemma plain_finally_ended h h1 h' g : ended h h1 -> h' = plain_finally g h1 -> ended h h'.
Proof.
  intros (K & O & H & R & Q) ->. unfold plain_finally. destruct (chat_generation h1 =? g)%nat; [|done].
  split; [by destruct K; split|]. split; [by destruct O; split|]. done.
Qed.

Lemma handleStreamError_text h s code : chat_ok h -> ended h (handleStreamError t (chat_generation h) (JStr s) code h).1.
Proof.
  intros O. destruct (handleStreamError t (chat_generation h) (JStr s) code h) as [h' threw] eqn:E.
  by apply error_spec in E as [[-> E]|(-> & [? [=]] & _)].
Qed.

(** A response that is used at once, without a flush. *)
Lemma response_spec h response : chat_ok h -> hasChatCompletionChoice response = true ->
  let h' := onMessageUpdate (UseResponse (chat_generation h) response) h in
  kept h h' /\ chat_ok h' /\ holds_chunks h' = holds_chunks h /\ all_quiet (settled h').
Proof.
  intros O C h'. assert (ends_wait (chat_generation h) (UseResponse (chat_generation h) response)) as E by by apply response_ends.
  split; [done|]. split; [|split; [done|]].
  - apply (chat_ok_kept h _ [UseResponse (chat_generation h) response]); [done|done|done|]. constructor; [|constructor].
    by eapply ends_wait_good.
  - apply (settled_end h h' []  (UseResponse (chat_generation h) response)); [done|done|by rewrite app_nil_r|constructor|done].
Qed.

Lemma chat_ok_settle h k g aborted : chat_ok h -> chat_requests h !! k = Some (MkPlainRequest g aborted false) ->
  chat_ok (with_requests (chat_abort h) (<[k := MkPlainRequest g aborted true]> (chat_requests h)) h).
Proof.
  intros [C Q R] E. split; cbn; try done. intros j r. destruct (decide (k = j)) as [<-|N].
  - rewrite list_lookup_insert_eq by (by eapply lookup_lt_Some). intros [= <-]. apply (R k _ E).
  - rewrite list_lookup_insert_ne by done. apply R.
Qed.

Lemma plain_chat c h k r : chat_inv (c, h) -> event_wf (ResultArrives k r) = true -> chat_inv (c, on_plain_result t k r h).
Proof.
  intros I Wf. unfold on_plain_result. destruct (chat_requests h !! k) as [[g aborted [|]]|] eqn:E; [done| |done].
  pose proof (chat_ok_settle h k g aborted (ci_chat _ I) E) as O. set (h1 := with_requests _ _ h) in *.
  assert (chat_inv (c, h1)) as I1 by (destruct I; by split).
  destruct (ok_requests _ (ci_chat _ I) k _ E) as [L A]. cbn [pr_generation pr_aborted] in L, A. cbn in L.
  destruct (decide (g = chat_generation h)) as [->|N].
  2: { assert (chat_generation h1 =? g = false)%nat as X by (by apply Nat.eqb_neq). rewrite X, orb_true_r.
       unfold plain_finally. by rewrite X. }
  specialize (A eq_refl). cbn in A. rewrite A. change (chat_generation h) with (chat_generation h1). rewrite Nat.eqb_refl. cbn [negb orb].
  destruct r as [response|error].
  - destruct (hasChatCompletionChoice response) eqn:C.
    + destruct (response_spec h1 response O C) as (K & O' & H & Q). unfold plain_finally.
      cbn [onMessageUpdate chat_generation]. rewrite Nat.eqb_refl. destruct I1. split; cbn in *; [done|by destruct O'; split|done|done].
    + eapply (ended_inv c _ h1); [done| |done]. eapply plain_finally_ended; [by apply handleStreamError_text|done].
  - destruct (textual_failure_message error Wf) as [s Es]. destruct (parseRequestErrorDetails error) as [code m]. cbn in Es. subst m.
    eapply (ended_inv c _ h1); [done| |done]. eapply plain_finally_ended; [by apply handleStreamError_text|done].
Qed.

Lemma flush_inv c h : chat_inv (c, h) -> chat_inv (c, flushStreamUpdates (chat_generation h) h).
Proof.
  intros I. destruct (flush_spec h) as (K & R & H & us & Q & F & E). set (h' := flushStreamUpdates _ h) in *.
  destruct I as [C O Hc Hq]. cbn in *. split; cbn.
  - by rewrite (kept_generation _ _ K).
  - by apply (chat_ok_kept h _ us).
  - by rewrite H.
  - unfold isGenerating in *. cbn in *. rewrite R. intros G. destruct (holds_chunks h) eqn:X.
    + rewrite (Hc eq_refl) in G. done.
    + rewrite (E eq_refl), app_nil_r in Q. rewrite (settled_kept h h' K Q). auto.
Qed.

Lemma timer_inv c h tm : chat_inv (c, h) -> chat_inv (c, with_timer tm h).
Proof. intros [C O Hc Hq]. split; cbn in *; [done|by destruct O; split|done|done]. Qed.

Lemma flush_timer_chat c h : chat_inv (c, h) -> chat_inv (c, on_flush_timer h).
Proof.
  intros I. unfold on_flush_timer. destruct (chat_timer h) as [[g [|]]|]; [|done|done].
  set (h1 := with_timer _ h). assert (chat_inv (c, h1)) as I1 by by apply timer_inv. clearbody h1.
  destruct (decide (g = chat_generation h1)) as [->|N]; [by apply flush_inv|by rewrite flush_other].
Qed.

Lemma render_chat c h clock : chat_inv (c, h) -> chat_inv (c, render t clock h).
Proof.
  intros I. unfold render. destruct (chat_queue h) as [|u queue] eqn:Q; [done|]. destruct I as [C [Cm Qu Rq] Hc Hq]. cbn in *.
  rewrite Q in Qu. split; cbn; [done| |done|].
  - split; cbn; [|by apply Forall_inv_tail in Qu|done]. rewrite run_updater_shape. apply calm_updater; [|done].
    by apply Forall_inv in Qu.
  - intros G. specialize (Hq G). unfold settled in *. cbn. rewrite Q in Hq. cbn in Hq. by rewrite run_updater_shape.
Qed.

(** *** What the user does *)

(** A new request. *)
Lemma abort_requests_ok g h : (forall k r, chat_requests h !! k = Some r -> pr_generation r <= g) ->
  forall k r, abort_request (chat_abort h) (chat_requests h) !! k = Some r -> pr_generation r <= g.
Proof.
  intros R k r. unfold abort_request. destruct (chat_abort h) as [a|]; [|apply R]. destruct (decide (a = k)) as [->|N].
  - rewrite list_lookup_alter_eq. destruct (chat_requests h !! k) as [r0|] eqn:E; [|done]. intros [= <-]. apply (R k r0 E).
  - rewrite list_lookup_alter_ne by done. apply R.
Qed.

Lemma send_chat c h stream messages : chat_inv (c, h) -> chat_queue h = [] -> calm (map shape messages) ->
  chat_inv (sendChat stream (c, onMessageUpdate (SetMessages messages) h)).
Proof.
  intros [C [Cm Qu Rq] Hc Hq] Q Cl. cbn in *. assert (Forall good_updater (chat_queue h ++ [SetMessages messages])) as F.
  { rewrite Q. constructor; [|constructor]. by intros ms [= <-]. }
  assert (forall k r, abort_request (chat_abort h) (chat_requests h) !! k = Some r -> pr_generation r <= chat_generation h) as L.
  { apply abort_requests_ok. intros k r E. by apply (Rq k r). }
  destruct stream; cbn [sendChat sendStreamingChat sendNonStreamingChat]; split; cbn.
  - by eapply ctl_ok_send.
  - split; cbn; [done|done|]. intros k r E. apply L in E. split; [lia|]. intros. lia.
  - unfold holds_chunks. cbn. by rewrite andb_false_r.
  - unfold isGenerating. cbn. done.
  - by eapply ctl_ok_cancel.
  - split; cbn; [done|done|]. intros k r. rewrite lookup_app_Some. intros [E|[_ E]].
    + apply L in E. split; [lia|]. intros. lia.
    + apply list_lookup_singleton_Some in E as [_ <-]. cbn. split; [lia|done].
  - unfold holds_chunks. cbn. by rewrite andb_false_r.
  - unfold isGenerating. cbn. done.
Qed.

Lemma shapes_user_pair ids now messages text :
  map shape (appendUserMessagePair ids now messages text) =
  (map shape messages ++ [(ids 0, FromUser, None)]) ++ [(ids 2, FromAssistant, Some StatusLoading)].
Proof. unfold appendUserMessagePair. rewrite map_app, <- app_assoc. done. Qed.

Lemma quiet_snoc l x : all_quiet l -> is_waiting x = false -> all_quiet (l ++ [x]).
Proof. intros Q W. apply Forall_app. split; [done|]. by repeat constructor. Qed.

Lemma regenerated_calm ids now messages key next : all_quiet (map shape messages) ->
  createRegeneratedMessages ids now messages key = Some next -> calm (map shape next).
Proof.
  unfold createRegeneratedMessages. intros Q. destruct (find_position _ messages) as [[i m]|]; [|done]. intros [= <-].
  rewrite map_app, map_take_shape. apply quiet_snoc_calm. by apply quiet_take.
Qed.

Lemma find_position_lookup {A} (p : A -> bool) l i x : find_position p l = Some (i, x) -> l !! i = Some x.
Proof.
  revert i. induction l as [|y l IH]; intros i; cbn [find_position]; [done|]. destruct (p y); [by intros [= <- <-]|].
  destruct (find_position p l) as [[j z]|]; [|done]. intros [= <- <-]. cbn. by apply IH.
Qed.

Lemma edit_calm ids now messages key content submit next send : calm (map shape messages) ->
  applyMessageEdit ids now messages key content submit = Some (next, send) ->
  (send = false -> map shape next = map shape messages) /\ calm (map shape next).
Proof.
  unfold applyMessageEdit. intros C. destruct (find_position _ messages) as [[i m]|] eqn:E; [|done].
  set (upd := map _ messages). assert (map shape upd = map shape messages) as U.
  { unfold upd. rewrite map_map. apply map_ext. intros x. by destruct (has_msg_key key x). }
  destruct (negb submit || _) eqn:B; intros [= <- <-]; [by rewrite U|]. split; [done|].
  rewrite orb_false_iff, !negb_false_iff, bool_decide_eq_true in B. destruct B as [_ B].
  rewrite map_app, map_take_shape, U. apply quiet_snoc_calm. apply find_position_lookup in E.
  apply (calm_take _ _ (shape m)); [done|by rewrite list_lookup_fmap, E|]. unfold is_waiting, shape. cbn. by rewrite B.
Qed.

(** An update of the user that starts no request. *)
Lemma user_update_inv c h u : chat_inv (c, h) -> good_updater u -> chat_queue h = [] ->
  (isGenerating (c, h) = false -> all_quiet (shape_updater (chat_generation h) (map shape (chat_messages h)) u)) ->
  chat_inv (c, onMessageUpdate u h).
Proof.
  intros [C [Cm Qu Rq] Hc Hq] G Q E. cbn in *. split; cbn; [done| |done|].
  - split; cbn; [done| |done]. rewrite Q. by repeat constructor.
  - intros N. unfold settled. cbn. rewrite Q. by apply E.
Qed.

Lemma settled_shown h : chat_queue h = [] -> settled h = map shape (chat_messages h).
Proof. intros Q. unfold settled. by rewrite Q. Qed.

Lemma stop_chat c h : chat_inv (c, h) -> chat_inv (stopGeneration (c, h)).
Proof.
  intros I. destruct (flush_spec h) as (K & R & _ & us & Q & F & _). cbn [stopGeneration].
  set (h1 := flushStreamUpdates (chat_generation h) h) in *. destruct I as [C [Cm Qu Rq] Hc Hq]. cbn in *.
  assert (Forall good_updater (chat_queue h1)) as F1 by (rewrite Q; by apply Forall_app).
  assert (forall k r, chat_requests h1 !! k = Some r -> pr_generation r <= chat_generation h) as L.
  { rewrite (kept_requests _ _ K). intros k r E. by apply (Rq k r). }
  split; cbn.
  - by eapply ctl_ok_cancel.
  - split; cbn; [by rewrite (kept_messages _ _ K)| |].
    + apply Forall_app. split; [done|]. by repeat constructor.
    + intros k r E. apply (abort_requests_ok (chat_generation h)) in E; [|done]. split; [lia|]. intros. lia.
  - unfold holds_chunks. cbn. by rewrite andb_false_r.
  - intros _. unfold settled. cbn. apply quiet_after; [done|by rewrite (kept_messages _ _ K)|apply stop_ends].
Qed.

Definition admissible (e : ChatEvent) (ch : Controller * Chat) : bool :=
  event_enabled e ch && event_wf e && match e with Unmounts => false | _ => true end.

Lemma chat_step_inv e ch : chat_inv ch -> admissible e ch = true -> chat_inv (chat_step t e ch).
Proof.
  destruct ch as [c h]. intros I. unfold admissible. rewrite !andb_true_iff. intros [[En Wf] Mo].
  pose proof (ok_calm _ (ci_chat _ I)) as Cm. cbn in Cm.
  assert (forall b, match chat_queue h with [] => true | _ => false end && b = true -> chat_queue h = [] /\ b = true) as Sh
    by (intros b; by destruct (chat_queue h)).
  assert (isGenerating (c, h) = false -> chat_queue h = [] -> all_quiet (map shape (chat_messages h))) as Qm.
  { intros G Q. rewrite <- (settled_shown h Q). by apply (ci_quiet _ I). }
  destruct e as [ids now stream text|ids now stream key|ids now stream key content submit|key| | |k r|i e|k r| |clock|];
    cbn [chat_step event_enabled fst snd] in *; [| | | | | |by apply headers_chat|by apply source_event_chat|by apply plain_chat
      |by apply flush_timer_chat|by apply render_chat|done].
  - apply Sh in En as [Q G]. apply negb_true_iff in G. apply send_chat; [done|done|]. cbn [fst snd].
    rewrite shapes_user_pair. by apply quiet_snoc_calm, quiet_snoc; [apply Qm|].
  - apply Sh in En as [Q G]. apply negb_true_iff in G. unfold handleRegenerateMessage. cbn [fst snd].
    destruct (createRegeneratedMessages _ _ _ _) as [next|] eqn:E; [|done]. apply send_chat; [done|done|].
    apply regenerated_calm in E; [done|]. by apply Qm.
  - destruct (chat_queue h) eqn:Q; [|done]. unfold applyEdit. destruct (non_empty _); [|done]. cbn [fst snd negb].
    destruct (applyMessageEdit _ _ _ _ _ _) as [[next send]|] eqn:E; [|done]. apply edit_calm in E as [Es Cn]; [|done].
    destruct send; [by apply send_chat|]. apply user_update_inv; [done|by intros ms [= <-]|done|].
    intros G. cbn [shape_updater]. rewrite Es by done. by apply Qm.
  - apply Sh in En as [Q G]. apply negb_true_iff in G. apply user_update_inv; [done|done|done|]. intros _. cbn [shape_updater].
    apply quiet_filter. by apply Qm.
  - destruct (chat_queue h) eqn:Q; [|done]. apply user_update_inv; [done|by intros ms [= <-]|done|]. intros _. constructor.
  - by apply stop_chat.
Qed.

(** Runs in which every event is possible when it happens. *)
Fixpoint admissible_run (es : list ChatEvent) (ch : Controller * Chat) : bool :=
  match es with
  | [] => true
  | e :: es => admissible e ch && admissible_run es (chat_step t e ch)
  end.

Lemma chat_run_inv es : forall ch, chat_inv ch -> admissible_run es ch = true -> chat_inv (chat_run t es ch).
Proof.
  induction es as [|e es IH]; intros ch I A; [done|]. cbn [admissible_run] in A. apply andb_true_iff in A as [A As].
  cbn. apply IH; [by apply chat_step_inv|done].
Qed.

Lemma calm_waiting_last l i x : calm l -> l !! i = Some x -> is_waiting x = true -> i + 1 = length l.
Proof.
  revert i. induction l as [|y l IH]; intros i C L W; [done|]. destruct C as [Q C]. destruct i as [|i]; cbn in L |- *.
  - injection L as ->. destruct l; [done|]. rewrite Q in W by done. done.
  - rewrite <- (IH i C L W). lia.
Qed.

(** C18: no message is left waiting.  From any conversation in which nothing
    waits, after any interleaving of what the user may do, headers, events of
    sources (stale ones too), responses, failures whose messages are texts or
    missing, the flush timer and rendering, as long as the page is open, once
    the updates are rendered only the last message can wait for an answer, and
    only while the page shows that an answer is being generated. *)
Theorem no_message_left_waiting messages es :
  Forall (fun m => isPendingAssistantMessage m = false) messages ->
  let start := (initial_controller, initial_chat messages) in
  admissible_run es start = true ->
  let ch := chat_run t es start in
  chat_queue ch.2 = [] ->
  forall i m, chat_messages ch.2 !! i = Some m -> isPendingAssistantMessage m = true ->
    i + 1 = length (chat_messages ch.2) /\ isGenerating ch = true.
Proof.
  intros Qm start A ch Q i m L W. assert (chat_inv ch) as I.
  { apply chat_run_inv; [|done]. apply chat_inv_initial. unfold all_quiet. apply Forall_map. done. }
  assert (map shape (chat_messages ch.2) !! i = Some (shape m)) as L' by (by rewrite list_lookup_fmap, L). split.
  - rewrite <- (length_map shape). eapply calm_waiting_last; [apply (ok_calm _ (ci_chat _ I))|exact L'|done].
  - destruct (isGenerating ch) eqn:G; [done|]. pose proof (ci_quiet _ I G) as C. rewrite settled_shown in C by done.
    unfold all_quiet in C. rewrite Forall_lookup in C. rewrite <- waiting_shape, (C _ _ L') in W. done.
Qed.
End Updaters.

(** A conversation: a question is asked, its answer streamed and finished. *)
Definition sample_ids (n : nat) : str := string_of_nat n.
Definition sample_clock : Clock := fun _ => lit 5000.
Definition delta_event (text : str) : SourceEvent :=
  SourceMessage (Some (js "{" ++ json_stringify (js "choices") ++ js ":[{" ++ json_stringify (js "delta") ++ js ":{" ++
    json_stringify (js "content") ++ js ":" ++ json_stringify text ++ js "}}]}")).

Definition sample_chat : list ChatEvent :=
  [UserSends sample_ids (lit 1000) true (js "hi"); Renders sample_clock; HeadersArrive 0 (HeadersReady true);
   SourceFires 0 (delta_event (js "hel")); SourceFires 0 (delta_event (js "lo")); TimerFires; Renders sample_clock;
   SourceFires 0 (SourceMessage (Some STREAM_DONE_MESSAGE)); Renders sample_clock].

(** A failure whose message is no text: showing it throws, the page is no longer
    generating and the message waits for ever. *)
Example number_message_left_waiting :
  let failure := JObj [(js "message", JNum (lit 5))] in
  let ch := chat_run (fun s => s) [UserSends sample_ids (lit 1000) false (js "hi"); Renders sample_clock;
      ResultArrives 0 (PlainFailure failure); Renders sample_clock; Renders sample_clock] (initial_controller, initial_chat []) in
  textual_failure failure = false /\ chat_queue ch.2 = [] /\ isGenerating ch = false /\
  map isPendingAssistantMessage (chat_messages ch.2) = [false; true].
Proof. vm_compute. done. Qed.

Example sample_chat_done :
  let ch := chat_run (fun s => s) sample_chat (initial_controller, initial_chat []) in
  (map getMessageContent (chat_messages ch.2), map msg_status (chat_messages ch.2), isGenerating ch, chat_queue ch.2) =
  ([js "hi"; js "hello"], [None; Some StatusComplete], false, []).
Proof. vm_compute. reflexivity. Qed.

Lemma no_message_left_waiting_witness :
  let start := (initial_controller, initial_chat []) in
  let ch := chat_run (fun s => s) (take 2 sample_chat) start in
  1 + 1 = length (chat_messages ch.2) /\ isGenerating ch = true.
Proof.
  intros start ch. destruct (chat_messages ch.2 !! 1) as [m|] eqn:L; [|vm_compute in L; discriminate L].
  apply (no_message_left_waiting (fun s => s) [] (take 2 sample_chat) ltac:(constructor) ltac:(vm_compute; reflexivity)
           ltac:(vm_compute; reflexivity) 1 m L).
  vm_compute in L. injection L as <-. vm_compute. reflexivity.
Defined.

(** A stop hands the chunks it holds to React and moves to the next generation
    at once: unless React runs the update before that, they are lost. *)
Example stop_drops_chunks :
  let run es := chat_run (fun s => s) (take 5 sample_chat ++ es) (initial_controller, initial_chat []) in
  map getMessageContent (chat_messages (run [TimerFires; Renders sample_clock; UserStops; Renders sample_clock]).2) =
    [js "hi"; js "hello"] /\
  map getMessageContent (chat_messages (run [UserStops; Renders sample_clock; Renders sample_clock]).2) = [js "hi"; []].
Proof. vm_compute. done. Qed.
