(* ===== verification/PlaygroundTextFacts.v ===== *)
(** * The text of a streamed answer

    However the chunks of an answer, the flush timer and rendering interleave,
    the finished message shows the text the chunks stand for: their
    concatenation where they are the parts of the text, or the last one where
    each repeats the text so far. *)

From Stdlib Require Import ZArith Lia Bool.
From stdpp Require Import base list numbers.
From S2P Require Import Prelude JsString JsNumber JsValue JsJson JsDynamic PlaygroundMessages PlaygroundStream PlaygroundChatFacts.

(** ** What a sequence of chunks stands for *)

(** A reading of the chunks that batching respects: neither joining chunks
    that wait nor appending a batch to the text depends on the cuts. *)
Record faithful (view : list str -> str) (chunks : list str) : Prop := {
  view_nil : view [] = [];
  view_chunk a p c d : chunks = a ++ p ++ [c] ++ d -> view (p ++ [c]) <> [];
  view_merge a p c d : chunks = a ++ p ++ [c] ++ d -> mergePendingStreamChunk (view p) (JStr c) = Ok (view (p ++ [c]));
  view_append a b d : chunks = a ++ b ++ d -> b <> [] -> view a ++ getAppendableChunk (view a) (view b) = view (a ++ b)
}.

(** The parts of a text: not empty, no chunk starts with the text of the chunks
    directly before it, and no run of chunks with the text of all chunks before. *)
Definition plain_stream (chunks : list str) : Prop :=
  (forall c, c ∈ chunks -> c <> []) /\
  (forall a p c d, chunks = a ++ p ++ [c] ++ d -> p <> [] -> starts_with (concat p) c = false) /\
  (forall a b d, chunks = a ++ b ++ d -> a <> [] -> starts_with (concat a) (concat b) = false).

(** Every chunk is the text so far. *)
Definition snapshot_stream (chunks : list str) : Prop :=
  (forall c, c ∈ chunks -> c <> []) /\
  (forall a b c d, chunks = a ++ [b] ++ [c] ++ d -> starts_with b c = true).

Definition last_chunk (chunks : list str) : str := default [] (list.last chunks).

Lemma concat_non_empty (l : list str) : (forall c, c ∈ l -> c <> []) -> l <> [] -> concat l <> [].
Proof.
  destruct l as [|c l]; [done|]. intros N _ E. cbn in E. apply app_eq_nil in E as [-> _]. by apply (N []); [left|].
Qed.

Lemma concat_one (p : list str) c : concat (p ++ [c]) = concat p ++ c.
Proof. rewrite concat_app. cbn. by rewrite app_nil_r. Qed.

Lemma merge_other cur c : cur <> [] -> starts_with cur c = false -> mergePendingStreamChunk cur (JStr c) = Ok (cur ++ c).
Proof. destruct cur; [done|]. intros _ S. unfold mergePendingStreamChunk. by rewrite S. Qed.

Lemma merge_restart cur c : starts_with cur c = true -> mergePendingStreamChunk cur (JStr c) = Ok c.
Proof. destruct cur; [done|]. intros S. unfold mergePendingStreamChunk. by rewrite S. Qed.

Lemma append_other cur c : starts_with cur c = false -> getAppendableChunk cur c = c.
Proof. intros S. unfold getAppendableChunk. rewrite S. by rewrite orb_true_r. Qed.

Lemma append_restart cur c : starts_with cur c = true -> cur ++ getAppendableChunk cur c = c.
Proof.
  intros S. unfold getAppendableChunk. rewrite S. destruct cur as [|u cur]; [done|]. cbn [non_empty negb orb].
  apply starts_with_app in S as [r ->]. by rewrite drop_app_length.
Qed.

Lemma plain_faithful chunks : plain_stream chunks -> faithful (@concat N) chunks.
Proof.
  intros (N & M & A). split; [done| | |].
  - intros a p c d ->. apply concat_non_empty; [|by destruct p]. intros x E. apply N. rewrite app_assoc, (app_assoc _ [c]).
    apply elem_of_app. left. rewrite <- app_assoc. apply elem_of_app. by right.
  - intros a p c d E. rewrite concat_one. destruct p as [|x p]; [done|]. apply merge_other; [|by apply (M a _ _ d)].
    apply concat_non_empty; [|done]. intros y Y. apply N. rewrite E. rewrite !elem_of_app. auto.
  - intros a b d E B. rewrite concat_app. f_equal. destruct a as [|x a]; [done|]. apply append_other. by apply (A _ _ d).
Qed.

Lemma starts_with_trans a b c : starts_with a b = true -> starts_with b c = true -> starts_with a c = true.
Proof.
  intros [r ->]%starts_with_app [r' ->]%starts_with_app. rewrite <- app_assoc. apply starts_with_self.
Qed.

Lemma last_chunk_snoc p c : last_chunk (p ++ [c]) = c.
Proof. unfold last_chunk. by rewrite last_snoc. Qed.

(** Within the stream, a later snapshot extends an earlier one. *)
Lemma snapshots_grow b : forall chunks a x y d, snapshot_stream chunks -> chunks = a ++ [x] ++ b ++ [y] ++ d -> starts_with x y = true.
Proof.
  induction b as [|z b IH]; intros chunks a x y d [N S] ->; [by apply (S a _ _ d)|].
  apply (starts_with_trans _ z).
  - by apply (S a x z (b ++ [y] ++ d)).
  - apply (IH (a ++ [x] ++ [z] ++ b ++ [y] ++ d) (a ++ [x]) z y d); [by split|]. by rewrite <- app_assoc.
Qed.

Lemma last_chunk_some p : p <> [] -> exists p' c, p = p' ++ [c] /\ last_chunk p = c.
Proof.
  intros N. destruct p as [|x p] using rev_ind; [done|]. exists p, x. split; [done|]. apply last_chunk_snoc.
Qed.

Lemma snapshot_faithful chunks : snapshot_stream chunks -> faithful last_chunk chunks.
Proof.
  intros Sn. pose proof Sn as [N S]. split; [done| | |].
  - intros a p c d ->. rewrite last_chunk_snoc. apply N. rewrite !elem_of_app. right. right. left. by left.
  - intros a p c d ->. rewrite last_chunk_snoc. destruct (decide (p = [])) as [->|P]; [done|].
    destruct (last_chunk_some p P) as (p' & x & -> & ->). apply merge_restart.
    apply (S (a ++ p') x c d). by rewrite <- !app_assoc.
  - intros a b d E B. destruct (last_chunk_some b B) as (b' & y & -> & ->).
    rewrite app_assoc, last_chunk_snoc. destruct (decide (a = [])) as [->|A]; [done|].
    destruct (last_chunk_some a A) as (a' & x & -> & ->). apply append_restart.
    apply (snapshots_grow b' chunks a' x y d); [done|]. by rewrite E, <- !app_assoc.
Qed.

(** ** What the chunks do to a message *)

Definition reasoning_of (m : Message) : str := match msg_reasoning m with Some r => rs_content r | None => [] end.

(** A message that is being answered, with its texts. *)
Record answer (m : Message) (text reasoning : str) : Prop := {
  answer_from : msg_from m = FromAssistant;
  answer_open : waiting_status (msg_status m) = true;
  answer_text : getMessageContent m = text;
  answer_reasoning : reasoning_of m = reasoning
}.

Lemma open_not_error m : waiting_status (msg_status m) = true -> bool_decide (msg_status m = Some StatusError) = false.
Proof. by destruct (msg_status m) as [[]|]. Qed.

Lemma reasoning_timing_content m now : getMessageContent (completeReasoningTiming m now) = getMessageContent m.
Proof. unfold completeReasoningTiming. by destruct (msg_reasoning m) as [[? ? ? ? []]|]. Qed.

Lemma reasoning_timing_reasoning m now : reasoning_of (completeReasoningTiming m now) = reasoning_of m.
Proof. unfold completeReasoningTiming, reasoning_of. destruct (msg_reasoning m) as [[? ? ? ? []]|] eqn:E; cbn; by rewrite ?E. Qed.

Lemma start_timing_content m now : rs_content (startReasoningTiming m now) = reasoning_of m.
Proof. unfold startReasoningTiming, reasoning_of. by destruct (msg_reasoning m). Qed.

Lemma chunk_from clock m type chunk : msg_from (applyStreamingChunk clock m type chunk) = msg_from m.
Proof. pose proof (status_chunk clock m type chunk) as E. unfold shape in E. by injection E. Qed.

Lemma chunk_status clock m type chunk : waiting_status (msg_status m) = true ->
  waiting_status (msg_status (applyStreamingChunk clock m type chunk)) = true.
Proof.
  intros W. pose proof (status_chunk clock m type chunk) as E. unfold shape in E. injection E as _ _ ->. unfold flushed.
  by rewrite open_not_error.
Qed.

Lemma answer_chunk_reasoning clock m text reasoning chunk : answer m text reasoning ->
  answer (applyStreamingChunk clock m ChunkReasoning chunk) text (reasoning ++ getAppendableChunk reasoning chunk).
Proof.
  intros [F O T R]. split; [by rewrite chunk_from|by apply chunk_status|..]; unfold applyStreamingChunk;
    rewrite open_not_error by done; [done|]. unfold reasoning_of. cbn. by rewrite start_timing_content, R.
Qed.

Lemma no_tag_parse s : contains s open_tag = false -> parseThinkTags s = MkParsed s [] false.
Proof. intros C. unfold parseThinkTags. by rewrite C. Qed.

Lemma streaming_content_plain clock m chunk : contains (getMessageContent m ++ chunk) open_tag = false ->
  let m' := processStreamingContent clock m chunk in
  getMessageContent m' = getMessageContent m ++ chunk /\ reasoning_of m' = reasoning_of m /\ msg_isReasoningStreaming m' = Some false.
Proof.
  intros C. unfold processStreamingContent. change (version_content (getCurrentVersion m)) with (getMessageContent m). rewrite C.
  destruct (msg_reasoning m) as [r|] eqn:R; [|split; [done|]; split; [|done]; unfold reasoning_of; cbn; by rewrite R].
  rewrite no_tag_parse by done. split; [done|]. split; [|done]. unfold reasoning_of. cbn. by rewrite R.
Qed.

Lemma answer_chunk_content clock m text reasoning chunk : answer m text reasoning ->
  contains (text ++ getAppendableChunk text chunk) open_tag = false ->
  answer (applyStreamingChunk clock m ChunkContent chunk) (text ++ getAppendableChunk text chunk) reasoning.
Proof.
  intros [F O T R] C. rewrite <- T in *.
  destruct (streaming_content_plain clock m (getAppendableChunk (getMessageContent m) chunk) C) as (Ct & Rt & St).
  split; [by rewrite chunk_from|by apply chunk_status|..]; unfold applyStreamingChunk; rewrite open_not_error by done;
    change (version_content (getCurrentVersion m)) with (getMessageContent m); rewrite St.
  - change (getMessageContent (completeReasoningTiming (processStreamingContent clock m (getAppendableChunk (getMessageContent m) chunk)) (clock 1)) =
      getMessageContent m ++ getAppendableChunk (getMessageContent m) chunk). by rewrite reasoning_timing_content.
  - change (reasoning_of (completeReasoningTiming (processStreamingContent clock m (getAppendableChunk (getMessageContent m) chunk)) (clock 1)) =
      reasoning). by rewrite reasoning_timing_reasoning, Rt.
Qed.

(** A finished answer keeps its texts. *)
Lemma finalize_texts clock m : contains (getMessageContent m) open_tag = false ->
  getMessageContent (finalizeMessage clock m None) = getMessageContent m /\ reasoning_of (finalizeMessage clock m None) = reasoning_of m.
Proof.
  intros C. unfold finalizeMessage. rewrite reasoning_timing_content, reasoning_timing_reasoning.
  change (version_content (getCurrentVersion m)) with (getMessageContent m). rewrite C. split; [done|].
  assert (first_text [None; rs_content <$> msg_reasoning m; reasoning_text <$> None] = reasoning_of m) as ->.
  { unfold reasoning_of. destruct (msg_reasoning m) as [[[|u c] ? ? ? ?]|]; done. }
  unfold reasoning_of at 1. cbn. by destruct (reasoning_of m) eqn:R.
Qed.

Lemma complete_texts clock m text reasoning : answer m text reasoning -> contains text open_tag = false ->
  let m' := completeAssistantMessage clock m in
  msg_status m' = Some StatusComplete /\ getMessageContent m' = text /\ reasoning_of m' = reasoning.
Proof.
  intros [F O T R] C. rewrite <- T in *. pose proof (status_complete clock m) as E. unfold shape in E. injection E as _ _ E.
  split; [done|]. destruct (finalize_texts clock m C) as [Ct Rt]. unfold completeAssistantMessage, completeAssistantTiming.
  set (m1 := finalizeMessage clock m None) in *. rewrite <- Ct, <- R, <- Rt. clearbody m1. by case_bool_decide.
Qed.

(** ** The stream as a whole *)

Definition text_update (u : StreamChunkType * str) : StreamMessageUpdate := (u.1, JStr u.2).
Definition contents (us : list (StreamChunkType * str)) : list str :=
  omap (fun u => match u.1 with ChunkContent => Some u.2 | ChunkReasoning => None end) us.
Definition reasonings (us : list (StreamChunkType * str)) : list str :=
  omap (fun u => match u.1 with ChunkReasoning => Some u.2 | ChunkContent => None end) us.

(** What happens while source [i] answers, with the chunks it brings. *)
Inductive answer_event (i : nat) : ChatEvent -> list (StreamChunkType * str) -> Prop :=
| event_chunks data us : isStreamDoneMessage data = false -> parseStreamMessageUpdates data = Ok (map text_update us) ->
    answer_event i (SourceFires i (SourceMessage (Some data))) us
| event_timer : answer_event i TimerFires []
| event_render clock : answer_event i (Renders clock) [].

Inductive answer_events (i : nat) : list ChatEvent -> list (StreamChunkType * str) -> Prop :=
| events_nil : answer_events i [] []
| events_cons e us es uss : answer_event i e us -> answer_events i es uss -> answer_events i (e :: es) (us ++ uss).

(** The source [i] is the one in use and the last message waits for it. *)
Record answering (i : nat) (pre : list Message) (ch : Controller * Chat) : Prop := {
  ans_live : is_live ch.1 i = true;
  ans_owner : owner_of ch.1 i = chat_generation ch.2;
  ans_pending : chat_pending ch.2 = MkPending (chat_generation ch.2) [] [];
  ans_queue : chat_queue ch.2 = [];
  ans_message : exists m, chat_messages ch.2 = pre ++ [m] /\ answer m [] []
}.

Section Stream.
Variables (t : str -> str) (vc vr : list str -> str) (total_c total_r : list str).
Hypothesis Fc : faithful vc total_c.
Hypothesis Fr : faithful vr total_r.
Hypothesis no_tags : forall a d, total_c = a ++ d -> contains (vc a) open_tag = false.

(** A batch: the reasoning chunks and the content chunks of one flush. *)
Definition batch_updater (g : nat) (b : list str * list str) : Updater := FlushChunks g (vr b.1) (vc b.2).

(** The chunks [cs] and [rs] received so far are in the message, in batches on
    the way to it, or held back. *)
Record received (g : nat) (pre : list Message) (cs rs : list str) (tail : list Updater) (h : Chat) : Prop := {
  rc_generation : chat_generation h = g;
  rc_split : exists m c0 r0 batches pc pr,
    chat_messages h = pre ++ [m] /\ answer m (vc c0) (vr r0) /\
    chat_queue h = map (batch_updater g) batches ++ tail /\ chat_pending h = MkPending g (vc pc) (vr pr) /\
    cs = c0 ++ concat (map snd batches) ++ pc /\ rs = r0 ++ concat (map fst batches) ++ pr
}.

Lemma view_empty view chunks a p d : faithful view chunks -> chunks = a ++ p ++ d -> non_empty (view p) = match p with [] => false | _ => true end.
Proof.
  intros F E. destruct p as [|x p] using rev_ind; [by rewrite (view_nil _ _ F)|]. rewrite <- app_assoc in E.
  pose proof (view_chunk _ _ F _ _ _ _ E) as N. destruct (view (p ++ [x])); [done|]. by destruct p.
Qed.

Lemma render_batch clock m c0 r0 rb cb dc dr : answer m (vc c0) (vr r0) -> total_c = c0 ++ cb ++ dc -> total_r = r0 ++ rb ++ dr ->
  answer (flush_chunks clock (vr rb) (vc cb) m) (vc (c0 ++ cb)) (vr (r0 ++ rb)).
Proof.
  intros A Ec Er. unfold flush_chunks. rewrite (view_empty vr total_r r0 rb dr Fr Er), (view_empty vc total_c c0 cb dc Fc Ec).
  assert (answer (if match rb with [] => false | _ => true end then applyStreamingChunk clock m ChunkReasoning (vr rb) else m)
            (vc c0) (vr (r0 ++ rb))) as A1.
  { destruct rb as [|x rb]; [by rewrite app_nil_r|]. rewrite <- (view_append _ _ Fr _ _ _ Er) by done. by apply answer_chunk_reasoning. }
  destruct cb as [|y cb]; [by rewrite app_nil_r|]. pose proof (view_append _ _ Fc _ _ _ Ec ltac:(done)) as V. rewrite <- V.
  apply answer_chunk_content; [done|]. rewrite V. apply (no_tags _ dc). by rewrite Ec, <- app_assoc.
Qed.

Lemma update_last_snoc pre m f : msg_from m = FromAssistant -> updateLastAssistantMessage (pre ++ [m]) f = pre ++ [f m].
Proof.
  intros F. unfold updateLastAssistantMessage. rewrite last_snoc, F, bool_decide_eq_true_2, length_app by done. cbn [length].
  replace (length pre + 1 - 1) with (length pre + 0) by lia. by rewrite insert_app_r.
Qed.

(** React runs the next batch. *)
Lemma received_render clock g pre cs rs tail h u queue dc dr : received g pre cs rs tail h ->
  total_c = cs ++ dc -> total_r = rs ++ dr -> chat_queue h = u :: queue -> length tail < length (chat_queue h) ->
  received g pre cs rs tail (render t clock h).
Proof.
  intros [G (m & c0 & r0 & batches & pc & pr & M & A & Q & P & Ec & Er)] Tc Tr Qu L.
  destruct batches as [|[rb cb] batches]; [cbn in Q; rewrite Q in L; lia|]. cbn [map app] in Q. unfold render. rewrite Q. split; [done|].
  exists (flush_chunks clock (vr rb) (vc cb) m), (c0 ++ cb), (r0 ++ rb), batches, pc, pr. cbn [chat_messages chat_queue chat_pending].
  cbn [map snd fst concat] in Ec, Er. split; [|split; [|split; [done|split; [done|]]]].
  - cbn [run_updater batch_updater fst snd]. rewrite G, Nat.eqb_refl. cbn [negb]. rewrite M. by apply update_last_snoc, (answer_from _ _ _ A).
  - eapply (render_batch clock m c0 r0 rb cb (concat (map snd batches) ++ pc ++ dc) (concat (map fst batches) ++ pr ++ dr)); [done|..].
    + by rewrite Tc, Ec, <- !app_assoc.
    + by rewrite Tr, Er, <- !app_assoc.
  - by rewrite Ec, Er, <- !app_assoc.
Qed.

Lemma received_flush g pre cs rs h dc dr : received g pre cs rs [] h -> total_c = cs ++ dc -> total_r = rs ++ dr ->
  let h' := flushStreamUpdates g h in received g pre cs rs [] h' /\ chat_pending h' = MkPending g [] [].
Proof.
  intros [G (m & c0 & r0 & batches & pc & pr & M & A & Q & P & Ec & Er)] Tc Tr. rewrite app_nil_r in Q.
  assert (non_empty (vc pc) = match pc with [] => false | _ => true end) as Nc.
  { apply (view_empty vc total_c (c0 ++ concat (map snd batches)) pc dc Fc). by rewrite Tc, Ec, <- !app_assoc. }
  assert (non_empty (vr pr) = match pr with [] => false | _ => true end) as Nr.
  { apply (view_empty vr total_r (r0 ++ concat (map fst batches)) pr dr Fr). by rewrite Tr, Er, <- !app_assoc. }
  unfold flushStreamUpdates. rewrite G, Nat.eqb_refl. cbn [negb with_timer chat_pending]. rewrite P.
  cbn [pd_generation pd_content pd_reasoning]. rewrite Nat.eqb_refl, Nc, Nr. cbn [negb].
  destruct (decide (pc = [] /\ pr = [])) as [[-> ->]|NE].
  - cbn [negb andb]. rewrite (view_nil _ _ Fc), (view_nil _ _ Fr) in P. split; [|done]. split; [done|].
    exists m, c0, r0, batches, [], []. rewrite app_nil_r, (view_nil _ _ Fc), (view_nil _ _ Fr). done.
  - assert (negb match pr with [] => false | _ => true end && negb match pc with [] => false | _ => true end = false) as ->
      by (destruct pc, pr; cbn; try done; by exfalso; apply NE).
    split; [|done]. split; [done|]. exists m, c0, r0, (batches ++ [(pr, pc)]), [], [].
    cbn [chat_messages onMessageUpdate with_pending with_timer chat_queue chat_pending].
    rewrite Q, !map_app, !concat_app, (view_nil _ _ Fc), (view_nil _ _ Fr). cbn [map concat snd fst]. rewrite !app_nil_r. done.
Qed.

Lemma received_timer g pre cs rs tail h tm : received g pre cs rs tail h -> received g pre cs rs tail (with_timer tm h).
Proof. intros [G S]. by split. Qed.

Lemma received_update g pre cs rs h u dc dr : received g pre cs rs [] h ->
  total_c = (cs ++ contents [u]) ++ dc -> total_r = (rs ++ reasonings [u]) ++ dr ->
  exists h', handleStreamUpdate g (text_update u) h = (h', false) /\ received g pre (cs ++ contents [u]) (rs ++ reasonings [u]) [] h'.
Proof.
  intros [G (m & c0 & r0 & batches & pc & pr & M & A & Q & P & Ec & Er)] Tc Tr.
  unfold handleStreamUpdate. rewrite G, Nat.eqb_refl, P. cbn [negb pd_generation]. rewrite Nat.eqb_refl. cbn [negb].
  destruct u as [[|] x]; cbn [text_update fst snd pd_content pd_reasoning].
  - change (contents [(ChunkReasoning, x)]) with (@nil str) in *. change (reasonings [(ChunkReasoning, x)]) with [x] in *. rewrite (view_merge _ _ Fr (r0 ++ concat (map fst batches)) pr x dr) by (by rewrite Tr, Er, <- !app_assoc).
    eexists. split; [done|]. unfold scheduleStreamFlush. cbn [with_pending chat_generation chat_timer]. rewrite G, Nat.eqb_refl. cbn [negb].
    assert (received g pre (cs ++ []) (rs ++ [x]) [] (with_pending (MkPending g (vc pc) (vr (pr ++ [x]))) h)) as R.
    { split; [done|]. exists m, c0, r0, batches, pc, (pr ++ [x]). rewrite app_nil_r in Q. by rewrite !app_nil_r, Er, <- !app_assoc. }
    destruct (chat_timer h); [done|by apply received_timer].
  - change (reasonings [(ChunkContent, x)]) with (@nil str) in *. change (contents [(ChunkContent, x)]) with [x] in *.
    rewrite (view_merge _ _ Fc (c0 ++ concat (map snd batches)) pc x dc) by (by rewrite Tc, Ec, <- !app_assoc).
    eexists. split; [done|]. unfold scheduleStreamFlush. cbn [with_pending chat_generation chat_timer]. rewrite G, Nat.eqb_refl. cbn [negb].
    assert (received g pre (cs ++ [x]) (rs ++ []) [] (with_pending (MkPending g (vc (pc ++ [x])) (vr pr)) h)) as R.
    { split; [done|]. exists m, c0, r0, batches, (pc ++ [x]), pr. rewrite app_nil_r in Q. by rewrite !app_nil_r, Ec, <- !app_assoc. }
    destruct (chat_timer h); [done|by apply received_timer].
Qed.

Lemma contents_app us us' : contents (us ++ us') = contents us ++ contents us'.
Proof. apply omap_app. Qed.

Lemma reasonings_app us us' : reasonings (us ++ us') = reasonings us ++ reasonings us'.
Proof. apply omap_app. Qed.

Lemma received_updates g pre us : forall cs rs h dc dr, received g pre cs rs [] h ->
  total_c = (cs ++ contents us) ++ dc -> total_r = (rs ++ reasonings us) ++ dr ->
  exists h', run_updates (chat_callbacks t) g (map text_update us) h = (h', false) /\
    received g pre (cs ++ contents us) (rs ++ reasonings us) [] h'.
Proof.
  induction us as [|u us IH]; intros cs rs h dc dr R Tc Tr.
  - exists h. split; [done|]. cbn. by rewrite !app_nil_r.
  - change (u :: us) with ([u] ++ us) in *. rewrite contents_app, app_assoc in Tc |- *. rewrite reasonings_app, app_assoc in Tr |- *.
    destruct (received_update g pre cs rs h u (contents us ++ dc) (reasonings us ++ dr) R) as (h1 & E & R1);
      [by rewrite Tc, <- app_assoc|by rewrite Tr, <- app_assoc|].
    destruct (IH _ _ h1 dc dr R1 Tc Tr) as (h2 & E2 & R2). exists h2. split; [|done].
    cbn [app map run_updates chat_callbacks onUpdate]. by rewrite E.
Qed.

Lemma received_step i e us g pre cs rs c h dc dr : answer_event i e us -> is_live c i = true -> owner_of c i = g ->
  received g pre cs rs [] h -> total_c = (cs ++ contents us) ++ dc -> total_r = (rs ++ reasonings us) ++ dr ->
  exists h', chat_step t e (c, h) = (c, h') /\ received g pre (cs ++ contents us) (rs ++ reasonings us) [] h'.
Proof.
  intros Ev L O R Tc Tr. destruct Ev as [data us D P| |clock]; cbn [chat_step fst snd].
  - unfold on_source_event. rewrite L. change (default [] (Some data)) with data. cbn [negb]. rewrite D, P, O.
    destruct (received_updates g pre us cs rs h dc dr R Tc Tr) as (h' & -> & R'). by exists h'.
  - exists (on_flush_timer h). split; [done|]. cbn in Tc, Tr |- *. rewrite !app_nil_r in *. unfold on_flush_timer.
    destruct (chat_timer h) as [[g' [|]]|]; [|done|done]. set (h1 := with_timer _ h).
    assert (received g pre cs rs [] h1) as R1 by by apply received_timer. clearbody h1.
    destruct (decide (g' = g)) as [->|N]; [by apply (received_flush g pre cs rs h1 dc dr)|].
    rewrite flush_other; [done|]. by rewrite (rc_generation _ _ _ _ _ _ R1).
  - exists (render t clock h). split; [done|]. cbn in Tc, Tr |- *. rewrite !app_nil_r in *.
    destruct (chat_queue h) as [|u queue] eqn:Q; [unfold render; by rewrite Q|].
    apply (received_render clock g pre cs rs [] h u queue dc dr); [done|done|done|done|]. rewrite Q. cbn. lia.
Qed.

Lemma received_run i es us : answer_events i es us -> forall g pre cs rs c h dc dr, is_live c i = true -> owner_of c i = g ->
  received g pre cs rs [] h -> total_c = (cs ++ contents us) ++ dc -> total_r = (rs ++ reasonings us) ++ dr ->
  exists h', chat_run t es (c, h) = (c, h') /\ received g pre (cs ++ contents us) (rs ++ reasonings us) [] h'.
Proof.
  induction 1 as [|e us es uss E Es IH]; intros g pre cs rs c h dc dr L O R Tc Tr.
  - exists h. split; [done|]. cbn. by rewrite !app_nil_r.
  - rewrite contents_app, app_assoc in Tc |- *. rewrite reasonings_app, app_assoc in Tr |- *.
    destruct (received_step i e us g pre cs rs c h (contents uss ++ dc) (reasonings uss ++ dr) E L O R) as (h1 & E1 & R1);
      [by rewrite Tc, <- app_assoc|by rewrite Tr, <- app_assoc|].
    destruct (IH g pre _ _ c h1 dc dr L O R1 Tc Tr) as (h2 & E2 & R2). exists h2. split; [|done].
    unfold chat_run in *. cbn [fold_left]. by rewrite E1.
Qed.

(** The message is finished. *)
Definition finished (pre : list Message) (h : Chat) : Prop :=
  chat_queue h = [] /\ exists m, chat_messages h = pre ++ [m] /\ msg_status m = Some StatusComplete /\
    getMessageContent m = vc total_c /\ reasoning_of m = vr total_r.

Definition finishing (g : nat) (pre : list Message) (h : Chat) : Prop :=
  received g pre total_c total_r [FinishStream g] h /\ chat_pending h = MkPending g [] [].

Lemma finishing_end g pre c h i : received g pre total_c total_r [] h -> is_live c i = true -> owner_of c i = g ->
  exists c' h', chat_step t (SourceFires i (SourceMessage (Some STREAM_DONE_MESSAGE))) (c, h) = (c', h') /\ finishing g pre h'.
Proof.
  intros R L O. cbn [chat_step fst snd]. unfold on_source_event. rewrite L. cbn [negb].
  change (isStreamDoneMessage (default [] (Some STREAM_DONE_MESSAGE))) with true. cbv iota. rewrite O. eexists _, _. split; [done|].
  cbn [chat_callbacks onComplete]. unfold handleStreamComplete. rewrite (rc_generation _ _ _ _ _ _ R), Nat.eqb_refl. cbn [negb].
  destruct (received_flush g pre total_c total_r h [] [] R) as [[G S] P]; [by rewrite app_nil_r..|]. split; [|done]. split; [done|].
  destruct S as (m & c0 & r0 & batches & pc & pr & M & A & Q & P' & Ec & Er). exists m, c0, r0, batches, pc, pr.
  rewrite app_nil_r in Q. cbn. by rewrite Q.
Qed.

Lemma finishing_render clock g pre h : finishing g pre h -> finishing g pre (render t clock h) \/ finished pre (render t clock h).
Proof.
  intros [R P]. pose proof R as [G (m & c0 & r0 & batches & pc & pr & M & A & Q & P' & Ec & Er)].
  destruct batches as [|b batches].
  - right. rewrite P in P'. injection P' as Pc Pr.
    assert (pc = []) as -> by (pose proof (view_empty vc total_c c0 pc [] Fc) as N; rewrite <- Pc, app_nil_r in N;
      specialize (N Ec); by destruct pc).
    assert (pr = []) as -> by (pose proof (view_empty vr total_r r0 pr [] Fr) as N; rewrite <- Pr, app_nil_r in N;
      specialize (N Er); by destruct pr).
    cbn in Ec, Er, Q. rewrite app_nil_r in Ec, Er. unfold render. rewrite Q. split; [done|]. cbn [chat_messages run_updater].
    rewrite G, Nat.eqb_refl, M. cbn [negb]. rewrite update_last_snoc by apply (answer_from _ _ _ A).
    exists (if isAssistantMessageFinal m then m else completeAssistantMessage clock m). split; [done|].
    assert (isAssistantMessageFinal m = false) as -> by (pose proof (answer_open _ _ _ A) as O; unfold isAssistantMessageFinal;
      by destruct (msg_status m) as [[]|]).
    rewrite Ec, Er. apply complete_texts; [done|]. apply (no_tags _ []). by rewrite app_nil_r.
  - left. cbn [map app] in Q. split.
    + eapply (received_render clock g pre total_c total_r _ h _ _ [] []); [done|by rewrite app_nil_r..|done|].
      rewrite Q. cbn. rewrite length_app. cbn. lia.
    + unfold render. by rewrite Q.
Qed.

Lemma finished_renders clocks : forall g pre c h, finishing g pre h \/ finished pre h ->
  exists h', chat_run t (map Renders clocks) (c, h) = (c, h') /\ (finishing g pre h' \/ finished pre h').
Proof.
  induction clocks as [|clock clocks IH]; intros g pre c h F; [by exists h|]. cbn [map chat_run fold_left chat_step fst snd].
  apply IH. destruct F as [F|F]; [by apply finishing_render|]. right. destruct F as [Q S]. unfold render. by rewrite Q.
Qed.
End Stream.

(** The texts are what any faithful reading says. *)
Lemma streamed_readings t vc vr i pre ch es us clocks : answering i pre ch -> answer_events i es us ->
  faithful vc (contents us) -> faithful vr (reasonings us) ->
  (forall a d, contents us = a ++ d -> contains (vc a) open_tag = false) ->
  let ch' := chat_run t (es ++ SourceFires i (SourceMessage (Some STREAM_DONE_MESSAGE)) :: map Renders clocks) ch in
  chat_queue ch'.2 = [] ->
  exists m, chat_messages ch'.2 = pre ++ [m] /\ msg_status m = Some StatusComplete /\
    getMessageContent m = vc (contents us) /\ reasoning_of m = vr (reasonings us).
Proof.
  intros [L O P Q (m & M & A)] Ev Fc Fr NT. destruct ch as [c h]. cbn [fst snd] in *.
  destruct (received_run t vc vr (contents us) (reasonings us) Fc Fr NT i es us Ev (chat_generation h) pre [] [] c h [] [])
    as (h1 & E1 & R1); [done|done| |by rewrite app_nil_r..|].
  { split; [done|]. exists m, [], [], [], [], []. by rewrite (view_nil _ _ Fc), (view_nil _ _ Fr). }
  destruct (finishing_end t vc vr _ _ Fc Fr (chat_generation h) pre c h1 i R1 L O) as (c2 & h2 & E2 & F2).
  destruct (finished_renders t vc vr _ _ Fc Fr NT clocks (chat_generation h) pre c2 h2 (or_introl F2)) as (h3 & E3 & F3).
  unfold chat_run in *. rewrite fold_left_app, E1. cbn [fold_left]. rewrite E2, E3. cbn [snd]. intros Q3.
  destruct F3 as [[[_ (m' & c0 & r0 & b & pc & pr & _ & _ & Q' & _)] _]|[_ F3]]; [|done]. rewrite Q3 in Q'. by destruct b.
Qed.

(** The text that chunks stand for: their concatenation when they are the parts of
    a text, none of which starts over, or the last one when each is the text so far. *)
Inductive spells (chunks : list str) : str -> Prop :=
| spells_parts : plain_stream chunks -> spells chunks (concat chunks)
| spells_snapshots : snapshot_stream chunks -> spells chunks (last_chunk chunks).

Lemma contains_prefix a b tag : contains (a ++ b) tag = false -> contains a tag = false.
Proof.
  induction a as [|c a IH]; cbn [app contains].
  - destruct tag as [|u tag]; [|done]. by destruct b.
  - rewrite !orb_false_iff. intros [S C]. split; [|by apply IH]. apply not_true_iff_false. intros [r E]%starts_with_app.
    change (c :: a ++ b) with ((c :: a) ++ b) in S. rewrite E, <- app_assoc, starts_with_self in S. done.
Qed.

Lemma last_chunk_prefix a d : snapshot_stream (a ++ d) -> exists r, last_chunk (a ++ d) = last_chunk a ++ r.
Proof.
  intros S. destruct (decide (a = [])) as [->|Na]; [by eexists|]. destruct (decide (d = [])) as [->|Nd]; [exists []; by rewrite !app_nil_r|].
  destruct (last_chunk_some a Na) as (a' & x & -> & ->), (last_chunk_some d Nd) as (d' & y & -> & _).
  rewrite app_assoc, last_chunk_snoc. assert (starts_with x y = true) as [r ->]%starts_with_app; [|by exists r].
  apply (snapshots_grow d' _ a' x y [] S). by rewrite app_nil_r, <- !app_assoc.
Qed.

(** A reading that stays within the text. *)
Lemma spells_reading chunks text : spells chunks text -> exists view, faithful view chunks /\ view chunks = text /\
  forall a d tag, chunks = a ++ d -> contains text tag = false -> contains (view a) tag = false.
Proof.
  intros [P|S].
  - exists (@concat N). split; [by apply plain_faithful|]. split; [done|]. intros a d tag ->. rewrite concat_app. apply contains_prefix.
  - exists last_chunk. split; [by apply snapshot_faithful|]. split; [done|]. intros a d tag ->.
    destruct (last_chunk_prefix a d S) as [r ->]. apply contains_prefix.
Qed.

(** C19: the text of a streamed answer.  While a source answers, its chunks, the
    flush timer and rendering may interleave in any way.  Let the text chunks
    spell a text without think tags and the reasoning chunks another, either
    as the parts of the text (where no chunk repeats the chunks directly
    before it, and no run of chunks repeats all the chunks before it), or as
    snapshots, each of which extends the one before.  Then, once the source is done and everything is
    rendered, the last message is complete and shows exactly these two texts;
    the messages before it are untouched. *)
Theorem streamed_text_exact t i pre ch es us clocks text reasoning : answering i pre ch -> answer_events i es us ->
  spells (contents us) text -> spells (reasonings us) reasoning -> contains text open_tag = false ->
  let ch' := chat_run t (es ++ SourceFires i (SourceMessage (Some STREAM_DONE_MESSAGE)) :: map Renders clocks) ch in
  chat_queue ch'.2 = [] ->
  exists m, chat_messages ch'.2 = pre ++ [m] /\ msg_status m = Some StatusComplete /\
    getMessageContent m = text /\ reasoning_of m = reasoning.
Proof.
  intros A Ev (vc & Fc & <- & Nc)%spells_reading (vr & Fr & <- & _)%spells_reading C.
  apply streamed_readings; [done..|]. intros a d E. by apply (Nc a d).
Qed.

(** ** Examples *)

Tactic Notation "too_long" hyp(E) := apply (f_equal length) in E; rewrite ?length_app in E; cbn in E; rewrite ?length_app in E; cbn in E; lia.

Lemma two_parts x y : x <> [] -> y <> [] -> starts_with x y = false -> plain_stream [x; y].
Proof.
  intros X Y S. split; [|split].
  - intros c C. by apply elem_of_cons in C as [-> | ->%list_elem_of_singleton].
  - intros a p c d E N. destruct p as [|p1 p]; [done|]. destruct a as [|a1 a]; [|exfalso; too_long E].
    destruct p as [|p2 p]; [|exfalso; too_long E]. injection E as <- <- _. cbn. by rewrite app_nil_r.
  - intros a b d E N. destruct a as [|a1 a]; [done|]. destruct a as [|a2 a].
    + destruct b as [|b1 b]; cbn in E.
      * injection E as <- _. cbn. rewrite app_nil_r. by destruct x.
      * injection E as <- <- E. destruct b; [|done]. cbn. by rewrite !app_nil_r.
    + assert (b = []) as -> by (destruct b; [done|exfalso; too_long E]). injection E as <- _ _. cbn. by destruct x.
Qed.

Lemma no_chunks : plain_stream [].
Proof.
  split; [by intros c C; apply elem_of_nil in C|]. split.
  - intros a p c d E. exfalso. too_long E.
  - intros a b d E N. by destruct a.
Qed.

Definition asked : Controller * Chat := chat_run (fun s => s) (take 3 sample_chat) (initial_controller, initial_chat []).

Definition sample_answer : list ChatEvent :=
  [SourceFires 0 (delta_event (js "hel")); Renders sample_clock; SourceFires 0 (delta_event (js "lo")); TimerFires].

Lemma streamed_text_exact_witness :
  exists m, chat_messages (chat_run (fun s => s)
      (sample_answer ++ SourceFires 0 (SourceMessage (Some STREAM_DONE_MESSAGE)) :: map Renders [sample_clock; sample_clock]) asked).2 =
    take 1 (chat_messages asked.2) ++ [m] /\ msg_status m = Some StatusComplete /\
    getMessageContent m = concat [js "hel"; js "lo"] /\ reasoning_of m = concat [].
Proof.
  apply (streamed_text_exact (fun s => s) 0 _ asked sample_answer [(ChunkContent, js "hel"); (ChunkContent, js "lo")]).
  - split; [vm_compute; reflexivity..|]. destruct (chat_messages asked.2 !! 1) as [m|] eqn:E; vm_compute in E; [|discriminate E].
    injection E as <-. eexists. split; [vm_compute; reflexivity|]. split; vm_compute; reflexivity.
  - apply (events_cons 0 _ [(ChunkContent, js "hel")] _ [(ChunkContent, js "lo")]); [apply event_chunks; vm_compute; reflexivity|].
    apply (events_cons 0 _ [] _ [(ChunkContent, js "lo")]); [apply event_render|].
    apply (events_cons 0 _ [(ChunkContent, js "lo")] _ []); [apply event_chunks; vm_compute; reflexivity|].
    apply (events_cons 0 _ [] _ []); [apply event_timer|apply events_nil].
  - apply spells_parts, two_parts; vm_compute; done.
  - apply (spells_parts []), no_chunks.
  - vm_compute. reflexivity.
  - vm_compute. reflexivity.
Defined.

Definition answer_with (events : list ChatEvent) : list str :=
  map getMessageContent (chat_messages (chat_run (fun s => s) (events ++
    [SourceFires 0 (SourceMessage (Some STREAM_DONE_MESSAGE)); Renders sample_clock; Renders sample_clock; Renders sample_clock]) asked).2).

(** A chunk that repeats the whole text so far is taken for a snapshot: an
    answer of two equal chunks loses one of them. *)
Example repeated_chunk_lost :
  answer_with [SourceFires 0 (delta_event (js "1")); SourceFires 0 (delta_event (js "1"))] = [js "hi"; js "1"].
Proof. vm_compute. reflexivity. Qed.

(** Whether that happens depends on when the timer fires. *)
Example flush_timing_matters :
  answer_with [SourceFires 0 (delta_event (js "a")); SourceFires 0 (delta_event (js "b")); SourceFires 0 (delta_event (js "ab"))] =
    [js "hi"; js "ab"] /\
  answer_with [SourceFires 0 (delta_event (js "a")); TimerFires; Renders sample_clock;
               SourceFires 0 (delta_event (js "b")); SourceFires 0 (delta_event (js "ab"))] = [js "hi"; js "abab"].
Proof. vm_compute. done. Qed.

(** The start of a closing tag that a flush separates from its end stays as
    reasoning when the reasoning turns out to be empty. *)
Example half_tag_stays :
  let reasoning events := map reasoning_of (chat_messages (chat_run (fun s => s) (events ++
    [SourceFires 0 (SourceMessage (Some STREAM_DONE_MESSAGE)); Renders sample_clock; Renders sample_clock; Renders sample_clock]) asked).2) in
  reasoning [SourceFires 0 (delta_event (js "<think></")); SourceFires 0 (delta_event (js "think>yes"))] = [[]; []] /\
  reasoning [SourceFires 0 (delta_event (js "<think></")); TimerFires; Renders sample_clock; SourceFires 0 (delta_event (js "think>yes"))] =
    [[]; js "</"].
Proof. vm_compute. done. Qed.
