(* ===== verification/PlaygroundStorage.v ===== *)
(** * Stored conversations

    Models [lib/storage/storage.ts] and [storage-schema.ts] of the playground,
    [playground-state-utils.ts] and the saving of messages in
    [use-playground-state.ts].  The schemas are those of the source; what zod
    does with a schema is the class [Zod], with the laws of its documentation.
    A key of the workspace's storage holds a text or nothing. *)

From Stdlib Require Import ZArith Lia Bool.
From stdpp Require Import base list numbers.
From S2P Require Import Prelude JsString JsNumber JsNumberFacts JsObject JsMap JsRegex JsValue JsJson JsJsonPrint JsDynamic PlaygroundMessages.

(** ** Schemas *)

Inductive ZSchema :=
| ZString | ZNumber | ZBoolean
| ZEnum (values : list str)
| ZOptional (s : ZSchema)
| ZNullable (s : ZSchema)
| ZArray (s : ZSchema) (min : nat)
| ZObject (fields : list (str * ZSchema)).

(** The entries of a parsed object: known keys in the order of the schema,
    absent optional ones left out, unknown ones stripped. *)
Section Entries.
Variable parse : ZSchema -> jsval -> option jsval.
Fixpoint object_entries_of (fields : list (str * ZSchema)) (entries : list (str * jsval)) : option (list (str * jsval)) :=
  match fields with
  | [] => Some []
  | (k, s) :: fields =>
      rest ← object_entries_of fields entries;
      match assoc_str entries k with
      | Some v => v' ← parse s v; Some ((k, v') :: rest)
      | None => match parse s JUndefined with Some JUndefined => Some rest | _ => None end
      end
  end.
End Entries.

(** [schema.parse(value)]; [None]: it throws. *)
Class Zod := {
  zod_parse : ZSchema -> jsval -> option jsval;
  zod_string v : zod_parse ZString v = match v with JStr _ => Some v | _ => None end;
  zod_boolean v : zod_parse ZBoolean v = match v with JBool _ => Some v | _ => None end;
  zod_number v : zod_parse ZNumber v = match v with JNum n => if is_finite n then Some v else None | _ => None end;
  zod_enum values v : zod_parse (ZEnum values) v =
    match v with JStr s => if includes_str values s then Some v else None | _ => None end;
  zod_optional s v : zod_parse (ZOptional s) v = match v with JUndefined => Some JUndefined | _ => zod_parse s v end;
  zod_nullable s v : zod_parse (ZNullable s) v = match v with JNull => Some JNull | _ => zod_parse s v end;
  zod_array s min v : zod_parse (ZArray s min) v =
    match v with
    | JArr items => if (min <=? length items)%nat then JArr <$> mapM (zod_parse s) items else None
    | _ => None
    end;
  zod_object fields v : zod_parse (ZObject fields) v =
    match v with JObj entries => JObj <$> object_entries_of zod_parse fields entries | _ => None end
}.

(** An interpreter of the schemas that satisfies the laws. *)
Fixpoint interpret (s : ZSchema) (v : jsval) : option jsval :=
  match s with
  | ZString => match v with JStr _ => Some v | _ => None end
  | ZBoolean => match v with JBool _ => Some v | _ => None end
  | ZNumber => match v with JNum n => if is_finite n then Some v else None | _ => None end
  | ZEnum values => match v with JStr s => if includes_str values s then Some v else None | _ => None end
  | ZOptional s => match v with JUndefined => Some JUndefined | _ => interpret s v end
  | ZNullable s => match v with JNull => Some JNull | _ => interpret s v end
  | ZArray s min =>
      match v with
      | JArr items => if (min <=? length items)%nat then JArr <$> mapM (interpret s) items else None
      | _ => None
      end
  | ZObject fields =>
      match v with JObj entries => JObj <$> object_entries_of interpret fields entries | _ => None end
  end.

Definition interpreter : Zod.
Proof. by apply (Build_Zod interpret). Defined.

Definition STORAGE_VERSION : num := lit 1.
Definition MAX_STORED_MESSAGES : nat := 100.
Definition MAX_STORED_MESSAGES_BYTES : Z := 1048576.
Definition MAX_LOADED_MESSAGES_CHARS : Z := 120000.
Definition MAX_LOADED_MESSAGE_CHARS : Z := 40000.

Definition playgroundConfigSchema : ZSchema :=
  ZObject [(js "model", ZOptional ZString); (js "group", ZOptional ZString); (js "temperature", ZOptional ZNumber);
           (js "top_p", ZOptional ZNumber); (js "max_tokens", ZOptional ZNumber); (js "frequency_penalty", ZOptional ZNumber);
           (js "presence_penalty", ZOptional ZNumber); (js "seed", ZOptional (ZNullable ZNumber)); (js "stream", ZOptional ZBoolean)].

Definition parameterEnabledSchema : ZSchema :=
  ZObject [(js "temperature", ZOptional ZBoolean); (js "top_p", ZOptional ZBoolean); (js "max_tokens", ZOptional ZBoolean);
           (js "frequency_penalty", ZOptional ZBoolean); (js "presence_penalty", ZOptional ZBoolean); (js "seed", ZOptional ZBoolean)].

Definition messageRoleSchema : ZSchema := ZEnum [js "user"; js "assistant"; js "system"].
Definition messageStatusSchema : ZSchema := ZEnum [js "loading"; js "streaming"; js "complete"; js "error"].
Definition messageVersionSchema : ZSchema := ZObject [(js "id", ZString); (js "content", ZString)].
Definition sourceSchema : ZSchema := ZObject [(js "href", ZString); (js "title", ZString)].
Definition reasoningSchema : ZSchema :=
  ZObject [(js "content", ZString); (js "duration", ZNumber); (js "startedAt", ZOptional ZNumber);
           (js "completedAt", ZOptional ZNumber); (js "durationMs", ZOptional ZNumber)].

Definition messageSchema : ZSchema :=
  ZObject [(js "key", ZString); (js "from", messageRoleSchema); (js "versions", ZArray messageVersionSchema 1);
           (js "createdAt", ZOptional ZNumber); (js "startedAt", ZOptional ZNumber); (js "completedAt", ZOptional ZNumber);
           (js "durationMs", ZOptional ZNumber); (js "sources", ZOptional (ZArray sourceSchema 0));
           (js "reasoning", ZOptional reasoningSchema); (js "isReasoningStreaming", ZOptional ZBoolean);
           (js "isReasoningComplete", ZOptional ZBoolean); (js "isContentComplete", ZOptional ZBoolean);
           (js "status", ZOptional messageStatusSchema); (js "errorCode", ZOptional (ZNullable ZString))].

Definition messagesSchema : ZSchema := ZArray messageSchema 0.

(** ** Messages as values *)

Definition role_text (r : MessageRole) : str :=
  match r with FromUser => js "user" | FromAssistant => js "assistant" | FromSystem => js "system" end.
Definition text_role (s : str) : option MessageRole :=
  if str_eqb s (js "user") then Some FromUser else if str_eqb s (js "assistant") then Some FromAssistant
  else if str_eqb s (js "system") then Some FromSystem else None.
Definition status_text (s : MessageStatus) : str :=
  match s with
  | StatusLoading => js "loading" | StatusStreaming => js "streaming"
  | StatusComplete => js "complete" | StatusError => js "error"
  end.
Definition text_status (s : str) : option MessageStatus :=
  if str_eqb s (js "loading") then Some StatusLoading else if str_eqb s (js "streaming") then Some StatusStreaming
  else if str_eqb s (js "complete") then Some StatusComplete else if str_eqb s (js "error") then Some StatusError else None.

(** An optional property. *)
Definition entry {A} (k : str) (f : A -> jsval) (v : option A) : list (str * jsval) :=
  match v with Some a => [(k, f a)] | None => [] end.

Definition code_entry (v : jsval) : list (str * jsval) :=
  match v with JUndefined => [] | v => [(js "errorCode", v)] end.

Definition version_value (v : MessageVersion) : jsval :=
  JObj [(js "id", JStr (version_id v)); (js "content", JStr (version_content v))].
Definition source_value (s : MessageSource) : jsval :=
  JObj [(js "href", JStr (source_href s)); (js "title", JStr (source_title s))].
Definition reasoning_value (r : Reasoning) : jsval :=
  JObj ([(js "content", JStr (rs_content r)); (js "duration", JNum (rs_duration r))] ++
        entry (js "startedAt") JNum (rs_startedAt r) ++ entry (js "completedAt") JNum (rs_completedAt r) ++
        entry (js "durationMs") JNum (rs_durationMs r)).
Definition message_value (m : Message) : jsval :=
  JObj ([(js "key", JStr (msg_key m)); (js "from", JStr (role_text (msg_from m)));
         (js "versions", JArr (map version_value (msg_versions m)))] ++
        entry (js "createdAt") JNum (msg_createdAt m) ++ entry (js "startedAt") JNum (msg_startedAt m) ++
        entry (js "completedAt") JNum (msg_completedAt m) ++ entry (js "durationMs") JNum (msg_durationMs m) ++
        entry (js "sources") (fun l => JArr (map source_value l)) (msg_sources m) ++
        entry (js "reasoning") reasoning_value (msg_reasoning m) ++
        entry (js "isReasoningStreaming") JBool (msg_isReasoningStreaming m) ++
        entry (js "isReasoningComplete") JBool (msg_isReasoningComplete m) ++
        entry (js "isContentComplete") JBool (msg_isContentComplete m) ++
        entry (js "status") (fun s => JStr (status_text s)) (msg_status m) ++
        code_entry (msg_errorCode m)).

Definition as_str (v : jsval) : option str := match v with JStr s => Some s | _ => None end.
Definition as_num (v : jsval) : option num := match v with JNum n => Some n | _ => None end.
Definition as_bool (v : jsval) : option bool := match v with JBool b => Some b | _ => None end.
Definition as_list {A} (f : jsval -> option A) (v : jsval) : option (list A) :=
  match v with JArr items => mapM f items | _ => None end.

Definition value_version (v : jsval) : option MessageVersion :=
  i ← as_str (get_field v (js "id")); c ← as_str (get_field v (js "content")); Some (MkVersion i c).
Definition value_source (v : jsval) : option MessageSource :=
  h ← as_str (get_field v (js "href")); t ← as_str (get_field v (js "title")); Some (MkSource h t).
Definition value_reasoning (v : jsval) : option Reasoning :=
  c ← as_str (get_field v (js "content")); d ← as_num (get_field v (js "duration"));
  Some (MkReasoning c d (as_num (get_field v (js "startedAt"))) (as_num (get_field v (js "completedAt")))
          (as_num (get_field v (js "durationMs")))).

(** A value the schema has accepted, as a message. *)
Definition value_message (v : jsval) : option Message :=
  k ← as_str (get_field v (js "key"));
  r ← as_str (get_field v (js "from")) ≫= text_role;
  vs ← as_list value_version (get_field v (js "versions"));
  let n k := as_num (get_field v k) in
  let b k := as_bool (get_field v k) in
  Some (MkMessage k r vs (n (js "createdAt")) (n (js "startedAt")) (n (js "completedAt")) (n (js "durationMs"))
          (as_list value_source (get_field v (js "sources"))) (value_reasoning (get_field v (js "reasoning")))
          (b (js "isReasoningStreaming")) (b (js "isReasoningComplete")) (b (js "isContentComplete"))
          (as_str (get_field v (js "status")) ≫= text_status) (get_field v (js "errorCode"))).

(** ** Trimming *)

Definition trimMessages (messages : list Message) : list Message :=
  if (length messages <=? MAX_STORED_MESSAGES)%nat then messages
  else drop (length messages - MAX_STORED_MESSAGES) messages.

Definition text_size (s : str) : Z := Z.of_nat (length s).

Definition getMessageSize (m : Message) : Z :=
  fold_left (fun total v => total + text_size (version_content v))%Z (msg_versions m) 0%Z +
  match msg_reasoning m with Some r => text_size (rs_content r) | None => 0%Z end.

Definition TRUNCATED_CONTENT_SUFFIX : str := [10; 10]%N ++ js "[...]".
Definition MIN_PREFIX_COLLAPSE_LENGTH : Z := 2000.
Definition MIN_REPEATED_SECTION_COUNT : nat := 3.

Definition truncateText (text : str) (maxLength : Z) : str :=
  if (text_size text <=? maxLength)%Z then text
  else if (maxLength <=? text_size TRUNCATED_CONTENT_SUFFIX)%Z then take (Z.to_nat maxLength) text
  else take (Z.to_nat (maxLength - text_size TRUNCATED_CONTENT_SUFFIX)) text ++ TRUNCATED_CONTENT_SUFFIX.

(** [/^#{2,6}\s+\d+\.\s+.+$/gm], without the start of the line. *)
Definition hash : regex := RChar (N.eqb 35).
Definition SECTION_HEADING_LINE_PATTERN : regex :=
  rseq [hash; hash; ROpt hash; ROpt hash; ROpt hash; ROpt hash; rplus is_space; rplus is_digit; RChar (N.eqb 46);
        rplus is_space; rplus (fun c => negb (is_line_terminator c)); RLineEnd].

Record SectionOccurrence := MkOccurrence { heading : str; heading_index : nat }.

(** [text.matchAll(pattern)], from a position on; [line_start]: whether the
    position starts a line. *)
Fixpoint section_loop (fuel : nat) (line_start : bool) (index : nat) (s : str) : list SectionOccurrence :=
  match fuel with
  | O => []
  | S fuel =>
      match (if line_start then match_here SECTION_HEADING_LINE_PATTERN s else None) with
      | Some (rest, _) =>
          let matched := take (length s - length rest) s in
          MkOccurrence matched index :: section_loop fuel false (index + length matched) rest
      | None =>
          match s with
          | [] => []
          | c :: s' => section_loop fuel (is_line_terminator c) (index + 1) s'
          end
      end
  end.

Definition getSectionOccurrences (text : str) : list SectionOccurrence := section_loop (S (length text)) true 0 text.

Definition getHeadingCounts (occurrences : list SectionOccurrence) : list (str * nat) :=
  fold_left (fun counts o => map_set counts (heading o) (default 0 (map_get counts (heading o)) + 1)) occurrences [].

(** The loop from the last occurrence to the first: the headings seen and the
    indices collected. *)
Definition repeated_step (counts : list (str * nat)) (acc : list str * list nat) (o : SectionOccurrence) : list str * list nat :=
  let '(seen, indexes) := acc in
  if (default 0 (map_get counts (heading o)) <? MIN_REPEATED_SECTION_COUNT)%nat || includes_str seen (heading o)
  then acc else (seen ++ [heading o], indexes ++ [heading_index o]).

Definition findLastRepeatedSectionRunStart (text : str) : option nat :=
  let occurrences := getSectionOccurrences text in
  let counts := getHeadingCounts occurrences in
  match (fold_left (repeated_step counts) (reverse occurrences) ([], [])).2 with
  | [] => None
  | i :: indexes => Some (fold_left Nat.min indexes i)
  end.

Definition collapseRepeatedSectionSnapshots (text : str) : str :=
  if (text_size text <? MIN_PREFIX_COLLAPSE_LENGTH)%Z then text
  else match findLastRepeatedSectionRunStart text with None => text | Some start => drop start text end.

(** The text kept of a version. *)
Definition loaded_text (content : str) : str := truncateText (collapseRepeatedSectionSnapshots content) MAX_LOADED_MESSAGE_CHARS.

Definition normalize_version (v : MessageVersion) : MessageVersion * bool :=
  let collapsedContent := collapseRepeatedSectionSnapshots (version_content v) in
  let content := truncateText collapsedContent MAX_LOADED_MESSAGE_CHARS in
  if str_eqb content (version_content v) && str_eqb collapsedContent (version_content v) then (v, false)
  else (MkVersion (version_id v) content, true).

Definition normalize_reasoning (r : Reasoning) : Reasoning :=
  with_reasoning_content (truncateText (rs_content r) MAX_LOADED_MESSAGE_CHARS) r.

(** The first half: the texts are shortened. *)
Definition shorten_message (m : Message) : Message :=
  let versions := map normalize_version (msg_versions m) in
  let reasoning := normalize_reasoning <$> msg_reasoning m in
  let changed := existsb snd versions ||
    negb (bool_decide ((rs_content <$> reasoning) = (rs_content <$> msg_reasoning m))) in
  if changed then with_reasoning reasoning (with_versions (map fst versions) m) else m.

(** [a ?? b ?? ... ?? now]. *)
Fixpoint first_defined (times : list (option num)) (now : num) : num :=
  match times with [] => now | Some n :: _ => n | None :: times => first_defined times now end.

Definition normalizeStoredMessageForLoad (clock : Clock) (m : Message) : Message :=
  let normalized := shorten_message m in
  if negb (isAssistantMessagePending normalized) then normalized
  else
    let hasReasoning := match msg_reasoning normalized with Some r => non_empty (trim (rs_content r)) | None => false end in
    if negb (hasMessageContent normalized) && negb hasReasoning then normalized
    else
      let completedAt :=
        first_defined [msg_completedAt normalized; msg_reasoning normalized ≫= rs_completedAt; msg_startedAt normalized;
                       msg_createdAt normalized] (clock 0) in
      completeAssistantTiming
        (with_reasoning_streaming false
           (with_status StatusComplete (finalizeMessage (fun n => clock (S n)) normalized None))) completedAt.

(** The loop from the last message to the first; [taken]: whether the result
    holds a message yet. *)
Fixpoint size_loop (taken : bool) (totalSize : Z) (reversed : list Message) : list Message :=
  match reversed with
  | [] => []
  | m :: reversed =>
      if taken && (MAX_LOADED_MESSAGES_CHARS <? totalSize + getMessageSize m)%Z then []
      else m :: size_loop true (totalSize + getMessageSize m)%Z reversed
  end.

Definition trimMessagesByContentSize (messages : list Message) : list Message :=
  reverse (size_loop false 0 (reverse messages)).

(** ** Reading and writing *)

Definition VERSION_KEY : str := js "version".
Definition DATA_KEY : str := js "data".

Definition read_json (saved : str) : option jsval := match json_parse saved with Ok v => Some v | _ => None end.

(** [None]: [JSON.parse] throws; [JNull]: nothing is stored. *)
Definition readStoredValue (stored : option str) : option jsval :=
  match stored with Some (c :: saved) => read_json (c :: saved) | _ => Some JNull end.

(** The value and what the key holds afterwards. *)
Definition readStoredMessagesValue (stored : option str) : option jsval * option str :=
  match stored with
  | Some (c :: saved) =>
      if (MAX_STORED_MESSAGES_BYTES <? text_size (c :: saved))%Z then (Some JNull, None)
      else (read_json (c :: saved), stored)
  | _ => (Some JNull, stored)
  end.

Definition unwrapStoredValue (v : jsval) : jsval :=
  match v with
  | JObj fields => if has_key fields VERSION_KEY && has_key fields DATA_KEY then get_field v DATA_KEY else v
  | _ => v
  end.

Definition envelope (data : jsval) : jsval := JObj [(VERSION_KEY, JNum STORAGE_VERSION); (DATA_KEY, data)].

Section Stored.
Context `{Zod}.
(** What the browser's quota lets [setItem] write; the translation function. *)
Variable admits : str -> bool.
Variable t : str -> str.

(** [setItem] throws when the quota is exhausted, and the callers catch it:
    the key keeps what it held. *)
Definition writeStoredValue (data : jsval) (stored : option str) : option str :=
  match json_print [] [] (envelope data) with
  | Some text => if admits text then Some text else stored
  | None => stored
  end.

Definition saveMessages (messages : list Message) (stored : option str) : option str :=
  match zod_parse messagesSchema (JArr (map message_value (trimMessages messages))) with
  | Some parsed => writeStoredValue parsed stored
  | None => stored
  end.

(** [clocks i]: the clock while the [i]-th message is normalized; [clock]: while
    the conversation is sanitized. *)
Definition normalize_all (clocks : nat -> Clock) (messages : list Message) : list Message :=
  imap (fun i => normalizeStoredMessageForLoad (clocks i)) messages.

Definition restore (clocks : nat -> Clock) (clock : Clock) (parsed : list Message) : list Message :=
  sanitizeMessagesOnLoad t clock (trimMessagesByContentSize (trimMessages (normalize_all clocks parsed))).

(** [sizeTrimmed] is an array of its own, never [trimmed], so a conversation
    that loads is always written back. *)
Definition loadMessages (clocks : nat -> Clock) (clock : Clock) (stored : option str) : option (list Message) * option str :=
  match readStoredMessagesValue stored with
  | (None, stored) => (None, stored)
  | (Some saved, stored) =>
      if negb (value_truthy saved) then (None, stored)
      else
        match zod_parse messagesSchema (unwrapStoredValue saved) ≫= as_list value_message with
        | None => (None, stored)
        | Some parsed =>
            let sanitized := restore clocks clock parsed in
            (Some sanitized, saveMessages sanitized stored)
        end
  end.

(** [loadConfig], [loadParameterEnabled]: a partial object. *)
Definition load_settings (schema : ZSchema) (stored : option str) : jsval :=
  match readStoredValue stored with
  | Some saved =>
      if negb (value_truthy saved) then JObj []
      else default (JObj []) (zod_parse schema (unwrapStoredValue saved))
  | None => JObj []
  end.

Definition save_settings (schema : ZSchema) (settings : jsval) (stored : option str) : option str :=
  match zod_parse schema settings with Some parsed => writeStoredValue parsed stored | None => stored end.

Definition loadConfig : option str -> jsval := load_settings playgroundConfigSchema.
Definition saveConfig : jsval -> option str -> option str := save_settings playgroundConfigSchema.
Definition loadParameterEnabled : option str -> jsval := load_settings parameterEnabledSchema.
Definition saveParameterEnabled : jsval -> option str -> option str := save_settings parameterEnabledSchema.

(** *** Settings as values *)

Definition config_value (c : PlaygroundConfig) : jsval :=
  JObj [(js "model", JStr (cfg_model c)); (js "group", JStr (cfg_group c)); (js "temperature", JNum (cfg_temperature c));
        (js "top_p", JNum (cfg_top_p c)); (js "max_tokens", JNum (cfg_max_tokens c));
        (js "frequency_penalty", JNum (cfg_frequency_penalty c)); (js "presence_penalty", JNum (cfg_presence_penalty c));
        (js "seed", match cfg_seed c with Some n => JNum n | None => JNull end); (js "stream", JBool (cfg_stream c))].

Definition enabled_value (e : ParameterEnabled) : jsval :=
  JObj [(js "temperature", JBool (en_temperature e)); (js "top_p", JBool (en_top_p e)); (js "max_tokens", JBool (en_max_tokens e));
        (js "frequency_penalty", JBool (en_frequency_penalty e)); (js "presence_penalty", JBool (en_presence_penalty e));
        (js "seed", JBool (en_seed e))].

Definition DEFAULT_GROUP : str := js "default".

Definition DEFAULT_CONFIG : PlaygroundConfig :=
  MkConfig (js "gpt-4o") DEFAULT_GROUP (num_of_decimal false 7 (-1)) (lit 1) (lit 4096) num_zero num_zero None true.

Definition DEFAULT_PARAMETER_ENABLED : ParameterEnabled := MkEnabled true true false true true false.

Definition str_field (v : jsval) (k d : str) : str := default d (as_str (get_field v k)).
Definition num_field (v : jsval) (k : str) (d : num) : num := default d (as_num (get_field v k)).
Definition bool_field (v : jsval) (k : str) (d : bool) : bool := default d (as_bool (get_field v k)).

(** [{ ...DEFAULT_CONFIG, ...loadConfig() }]. *)
Definition getInitialPlaygroundConfig (stored : option str) : PlaygroundConfig :=
  let d := DEFAULT_CONFIG in
  let v := loadConfig stored in
  MkConfig (str_field v (js "model") (cfg_model d)) (str_field v (js "group") (cfg_group d))
    (num_field v (js "temperature") (cfg_temperature d)) (num_field v (js "top_p") (cfg_top_p d))
    (num_field v (js "max_tokens") (cfg_max_tokens d)) (num_field v (js "frequency_penalty") (cfg_frequency_penalty d))
    (num_field v (js "presence_penalty") (cfg_presence_penalty d))
    (match get_field v (js "seed") with JNum n => Some n | JNull => None | _ => cfg_seed d end)
    (bool_field v (js "stream") (cfg_stream d)).

Definition getInitialParameterEnabled (stored : option str) : ParameterEnabled :=
  let d := DEFAULT_PARAMETER_ENABLED in
  let v := loadParameterEnabled stored in
  MkEnabled (bool_field v (js "temperature") (en_temperature d)) (bool_field v (js "top_p") (en_top_p d))
    (bool_field v (js "max_tokens") (en_max_tokens d)) (bool_field v (js "frequency_penalty") (en_frequency_penalty d))
    (bool_field v (js "presence_penalty") (en_presence_penalty d)) (bool_field v (js "seed") (en_seed d)).

Definition getInitialMessages (clocks : nat -> Clock) (clock : Clock) (stored : option str) : list Message :=
  default [] (loadMessages clocks clock stored).1.

(** ** [usePlaygroundState] *)

(** The keys of the workspace's storage, by what they hold. *)
Record PlaygroundData := MkData { data_config : option str; data_enabled : option str; data_messages : option str }.

Definition clearPlaygroundData (d : PlaygroundData) : PlaygroundData := MkData None None None.

Record Playground := MkPlayground {
  pg_config : PlaygroundConfig;
  pg_enabled : ParameterEnabled;
  pg_messages : list Message;
  pg_loading : bool;            (* [isLoadingMessages] *)
  pg_timer : bool;              (* [messagesSaveTimerRef.current !== null] *)
  pg_latest : list Message;     (* [latestMessagesRef.current] *)
  pg_loaded : bool;             (* [hasLoadedMessagesRef.current] *)
  pg_load_due : bool;           (* the timeout that loads is still to fire *)
  pg_cancelled : bool;
  pg_data : PlaygroundData
}.

Definition mount (d : PlaygroundData) : Playground :=
  MkPlayground (getInitialPlaygroundConfig (data_config d)) (getInitialParameterEnabled (data_enabled d)) [] true false [] false
    true false d.

Definition set_messages_data (v : option str) (d : PlaygroundData) : PlaygroundData := MkData (data_config d) (data_enabled d) v.

(** [window.setTimeout(() => loadMessages() ..., 0)]. *)
Definition on_load (clocks : nat -> Clock) (clock : Clock) (p : Playground) : Playground :=
  let '(loaded, stored) := loadMessages clocks clock (data_messages (pg_data p)) in
  let loadedMessages := default [] loaded in
  let d := set_messages_data stored (pg_data p) in
  if pg_cancelled p then
    MkPlayground (pg_config p) (pg_enabled p) (pg_messages p) (pg_loading p) (pg_timer p) (pg_latest p) (pg_loaded p) false true d
  else
    MkPlayground (pg_config p) (pg_enabled p) loadedMessages false (pg_timer p) loadedMessages true false false d.

Definition persistMessages (messagesToSave : list Message) (p : Playground) : Playground :=
  MkPlayground (pg_config p) (pg_enabled p) (pg_messages p) (pg_loading p) (pg_loaded p || pg_timer p) messagesToSave
    (pg_loaded p) (pg_load_due p) (pg_cancelled p) (pg_data p).

(** [updateMessages(updater)]; an array is the constant function. *)
Definition updateMessages (f : list Message -> list Message) (p : Playground) : Playground :=
  let newMessages := f (pg_messages p) in
  let p' := persistMessages newMessages p in
  MkPlayground (pg_config p') (pg_enabled p') newMessages (pg_loading p') (pg_timer p') (pg_latest p') (pg_loaded p')
    (pg_load_due p') (pg_cancelled p') (pg_data p').

Definition save_latest (p : Playground) : Playground :=
  MkPlayground (pg_config p) (pg_enabled p) (pg_messages p) (pg_loading p) false (pg_latest p) (pg_loaded p) (pg_load_due p)
    (pg_cancelled p) (set_messages_data (saveMessages (pg_latest p) (data_messages (pg_data p))) (pg_data p)).

Definition cancel_loading (p : Playground) : Playground :=
  MkPlayground (pg_config p) (pg_enabled p) (pg_messages p) (pg_loading p) (pg_timer p) (pg_latest p) (pg_loaded p)
    (pg_load_due p) true (pg_data p).

(** The cleanups of the two effects. *)
Definition leave (p : Playground) : Playground :=
  let p := cancel_loading p in if pg_timer p then save_latest p else p.

(** [updateConfig(key, value)]: the change of the key is a function. *)
Definition updateConfig (change : PlaygroundConfig -> PlaygroundConfig) (p : Playground) : Playground :=
  let updated := change (pg_config p) in
  let d := pg_data p in
  MkPlayground updated (pg_enabled p) (pg_messages p) (pg_loading p) (pg_timer p) (pg_latest p) (pg_loaded p) (pg_load_due p)
    (pg_cancelled p) (MkData (saveConfig (config_value updated) (data_config d)) (data_enabled d) (data_messages d)).

Definition updateParameterEnabled (change : ParameterEnabled -> ParameterEnabled) (p : Playground) : Playground :=
  let updated := change (pg_enabled p) in
  let d := pg_data p in
  MkPlayground (pg_config p) updated (pg_messages p) (pg_loading p) (pg_timer p) (pg_latest p) (pg_loaded p) (pg_load_due p)
    (pg_cancelled p) (MkData (data_config d) (saveParameterEnabled (enabled_value updated) (data_enabled d)) (data_messages d)).

Definition resetConfig (p : Playground) : Playground :=
  updateParameterEnabled (fun _ => DEFAULT_PARAMETER_ENABLED) (updateConfig (fun _ => DEFAULT_CONFIG) p).

Inductive PlaygroundEvent :=
| LoadDue (clocks : nat -> Clock) (clock : Clock)
| UpdateMessages (f : list Message -> list Message)
| SaveDue
| UpdateConfig (change : PlaygroundConfig -> PlaygroundConfig)
| UpdateParameterEnabled (change : ParameterEnabled -> ParameterEnabled)
| ResetConfig
| Leave.

(** A timeout fires while it is set; nothing else happens after the page is
    left. *)
Definition playground_enabled (e : PlaygroundEvent) (p : Playground) : bool :=
  match e with
  | LoadDue _ _ => pg_load_due p
  | SaveDue => pg_timer p
  | _ => negb (pg_cancelled p)
  end.

Definition playground_step (e : PlaygroundEvent) (p : Playground) : Playground :=
  if negb (playground_enabled e p) then p
  else
    match e with
    | LoadDue clocks clock => on_load clocks clock p
    | UpdateMessages f => updateMessages f p
    | SaveDue => save_latest p
    | UpdateConfig change => updateConfig change p
    | UpdateParameterEnabled change => updateParameterEnabled change p
    | ResetConfig => resetConfig p
    | Leave => leave p
    end.

Definition playground_run (events : list PlaygroundEvent) (p : Playground) : Playground :=
  fold_left (fun p e => playground_step e p) events p.
End Stored.
