(* ===== verification/PlaygroundStorageFacts.v ===== *)
(** * Properties of stored conversations

    What is saved is read back, what is read back is settled and bounded, and
    the page never overwrites a conversation it has not read.  All of it holds
    for every implementation of the schemas that satisfies the laws of [Zod]. *)

From Stdlib Require Import ZArith Lia Bool.
From stdpp Require Import base list numbers.
From S2P Require Import Prelude JsString JsNumber JsNumberFacts JsObject JsMap JsRegex JsValue JsJson JsJsonPrint JsDynamic PlaygroundMessages PlaygroundStream PlaygroundChatFacts PlaygroundStorage.

(** ** Keys *)

Lemma entry_skip {A} (k k' : str) (f : A -> jsval) v l : str_eqb k k' = false -> assoc_str (entry k f v ++ l) k' = assoc_str l k'.
Proof. intros E. destruct v as [a|]; cbn; by rewrite ?E. Qed.

Lemma entry_hit {A} k (f : A -> jsval) v l :
  assoc_str (entry k f v ++ l) k = match v with Some a => Some (f a) | None => assoc_str l k end.
Proof. destruct v as [a|]; cbn; by rewrite ?str_eqb_refl. Qed.

Lemma assoc_head {A} (k k' : str) (v : A) l : assoc_str ((k, v) :: l) k' = if str_eqb k k' then Some v else assoc_str l k'.
Proof. done. Qed.

Lemma head_skip {A} (k k' : str) (v : A) l : str_eqb k k' = false -> assoc_str ((k, v) :: l) k' = assoc_str l k'.
Proof. intros E. cbn. by rewrite E. Qed.

(** ** Values a schema admitted as they are *)

Section Accepted.
Context `{Zod}.

Definition admitted (s : ZSchema) (v : jsval) : Prop := zod_parse s v = Some v.

(** Entries in the order of the schema, optional ones possibly left out. *)
Inductive fits : list (str * ZSchema) -> list (str * jsval) -> Prop :=
| fits_nil : fits [] []
| fits_some k s v fields entries : admitted s v -> fits fields entries -> fits ((k, s) :: fields) ((k, v) :: entries)
| fits_none k s fields entries : fits fields entries -> fits ((k, ZOptional s) :: fields) entries.

Lemma fits_keys fields entries : fits fields entries -> sublist entries.*1 fields.*1.
Proof. induction 1; cbn; by constructor. Qed.

Lemma absent_key {A} (l : list (str * A)) k : k ∉ l.*1 -> assoc_str l k = None.
Proof.
  intros N. destruct (assoc_str l k) as [v|] eqn:E; [|done]. apply assoc_str_elem in E.
  exfalso. apply N. apply list_elem_of_fmap. by exists (k, v).
Qed.

Lemma fits_entries fields entries : fits fields entries -> NoDup fields.*1 -> forall entries',
  (forall k, k ∈ fields.*1 -> assoc_str entries' k = assoc_str entries k) ->
  object_entries_of zod_parse fields entries' = Some entries.
Proof.
  induction 1 as [|k s v fields entries A F IH|k s fields entries F IH]; intros N entries' E; [done|..];
    cbn in N; apply list.NoDup_cons in N as [Nk N].
  - cbn [object_entries_of]. rewrite IH; [|done|].
    + rewrite E by (cbn; left). rewrite assoc_head, str_eqb_refl. cbn. unfold admitted in A. by rewrite A.
    + intros k' K. rewrite E by (cbn; by right). rewrite assoc_head. destruct (str_eqb k k') eqn:Ek; [|done].
      apply str_eqb_eq in Ek. by subst.
  - cbn [object_entries_of]. rewrite IH; [|done|].
    + rewrite E by (cbn; left). rewrite absent_key; [by rewrite zod_optional|].
      intros I. apply Nk. eapply elem_of_sublist; [done|by apply fits_keys].
    + intros k' K. apply E. cbn. by right.
Qed.

Lemma fits_accepted fields entries : bool_decide (NoDup fields.*1) = true -> fits fields entries -> admitted (ZObject fields) (JObj entries).
Proof.
  intros N F. apply bool_decide_eq_true in N. unfold admitted. by rewrite zod_object, (fits_entries fields entries).
Qed.

Lemma fits_entry {A} k s (f : A -> jsval) v fields entries :
  (forall a, v = Some a -> admitted (ZOptional s) (f a)) -> fits fields entries ->
  fits ((k, ZOptional s) :: fields) (entry k f v ++ entries).
Proof. intros A0 F. destruct v as [a|]; cbn; constructor; auto. Qed.

Lemma fits_last {A} k s (f : A -> jsval) v :
  (forall a, v = Some a -> admitted (ZOptional s) (f a)) -> fits [(k, ZOptional s)] (entry k f v).
Proof. intros A0. rewrite <- (app_nil_r (entry k f v)). apply fits_entry; [done|constructor]. Qed.

Lemma admitted_optional s v : v <> JUndefined -> admitted s v -> admitted (ZOptional s) v.
Proof. unfold admitted. rewrite zod_optional. by destruct v. Qed.

Lemma admitted_string s : admitted ZString (JStr s).
Proof. unfold admitted. by rewrite zod_string. Qed.

Lemma admitted_boolean b : admitted ZBoolean (JBool b).
Proof. unfold admitted. by rewrite zod_boolean. Qed.

Lemma admitted_number n : json_plain n = true -> admitted ZNumber (JNum n).
Proof. unfold admitted, json_plain. rewrite zod_number. intros P. split_andb. by rewrite H2. Qed.

Lemma mapM_accepted s l : Forall (admitted s) l -> mapM (zod_parse s) l = Some l.
Proof. induction 1 as [|v l A F IH]; [done|]. cbn. unfold admitted in A. by rewrite A, IH. Qed.

Lemma admitted_array s min l : (min <=? length l)%nat = true -> Forall (admitted s) l -> admitted (ZArray s min) (JArr l).
Proof. intros M F. unfold admitted. by rewrite zod_array, M, mapM_accepted. Qed.

(** A value keeps the shape the printer needs when its entries do. *)
Lemma fits_textual fields entries : fits fields entries ->
  forallb (fun k => forallb is_unit k && negb (is_array_index k)) fields.*1 = true ->
  bool_decide (NoDup fields.*1) = true ->
  forallb (fun e => textual e.2) entries = true -> textual (JObj entries) = true.
Proof.
  intros F K N T. apply fits_keys in F. apply bool_decide_eq_true in N. cbn [textual].
  assert (forall k, k ∈ entries.*1 -> forallb is_unit k && negb (is_array_index k) = true) as K'.
  { intros k I. rewrite forallb_forall in K. apply K, list_elem_of_In. by eapply elem_of_sublist. }
  rewrite !andb_true_iff. split_and!.
  - apply forallb_forall. intros e I. rewrite forallb_forall in T. rewrite T by done. rewrite andb_true_r.
    assert (e.1 ∈ entries.*1) as I' by (apply list_elem_of_fmap; exists e; by rewrite list_elem_of_In).
    by apply K', andb_true_iff in I' as [? _].
  - apply enumerated_plain; [|by eapply sublist_NoDup]. intros k I. by apply K', andb_true_iff in I as [_ ?%negb_true_iff].
Qed.
End Accepted.

(** ** Messages that can be stored *)

Definition plain_time (n : option num) : bool := match n with Some n => json_plain n | None => true end.
Definition storable_version (v : MessageVersion) : bool := forallb is_unit (version_id v) && forallb is_unit (version_content v).
Definition storable_source (s : MessageSource) : bool := forallb is_unit (source_href s) && forallb is_unit (source_title s).
Definition storable_reasoning (r : Reasoning) : bool :=
  forallb is_unit (rs_content r) && json_plain (rs_duration r) && plain_time (rs_startedAt r) && plain_time (rs_completedAt r) &&
  plain_time (rs_durationMs r).
Definition storable_code (v : jsval) : bool :=
  match v with JUndefined | JNull => true | JStr s => forallb is_unit s | _ => false end.

(** The texts are made of code units, the times are finite, there is a
    version, and the error code is a text. *)
Definition storable (m : Message) : bool :=
  forallb is_unit (msg_key m) && (1 <=? length (msg_versions m))%nat && forallb storable_version (msg_versions m) &&
  plain_time (msg_createdAt m) && plain_time (msg_startedAt m) && plain_time (msg_completedAt m) &&
  plain_time (msg_durationMs m) && match msg_sources m with Some l => forallb storable_source l | None => true end &&
  match msg_reasoning m with Some r => storable_reasoning r | None => true end && storable_code (msg_errorCode m).

Section Codec.
Context `{Zod}.

Lemma admitted_time n a : n = Some a -> plain_time n = true -> admitted (ZOptional ZNumber) (JNum a).
Proof. intros -> P. apply admitted_optional; [done|by apply admitted_number]. Qed.

Lemma admitted_flag b : admitted (ZOptional ZBoolean) (JBool b).
Proof. apply admitted_optional; [done|apply admitted_boolean]. Qed.

Lemma version_fits v : fits [(js "id", ZString); (js "content", ZString)]
  [(js "id", JStr (version_id v)); (js "content", JStr (version_content v))].
Proof. repeat constructor; apply admitted_string. Qed.

Lemma source_fits s : fits [(js "href", ZString); (js "title", ZString)]
  [(js "href", JStr (source_href s)); (js "title", JStr (source_title s))].
Proof. repeat constructor; apply admitted_string. Qed.

Lemma admitted_version v : admitted messageVersionSchema (version_value v).
Proof. apply fits_accepted; [by vm_compute|apply version_fits]. Qed.

Lemma admitted_source s : admitted sourceSchema (source_value s).
Proof. apply fits_accepted; [by vm_compute|apply source_fits]. Qed.

Lemma admitted_role r : admitted messageRoleSchema (JStr (role_text r)).
Proof. unfold admitted, messageRoleSchema. rewrite zod_enum. by destruct r. Qed.

Lemma admitted_status s : admitted messageStatusSchema (JStr (status_text s)).
Proof. unfold admitted, messageStatusSchema. rewrite zod_enum. by destruct s. Qed.

Definition fields_of (s : ZSchema) : list (str * ZSchema) := match s with ZObject fields => fields | _ => [] end.
Definition entries_of (v : jsval) : list (str * jsval) := match v with JObj entries => entries | _ => [] end.

Lemma reasoning_fits r : storable_reasoning r = true -> fits (fields_of reasoningSchema) (entries_of (reasoning_value r)).
Proof.
  unfold storable_reasoning. rewrite !andb_true_iff. intros ((((Uc & Pd) & P1) & P2) & P3).
  constructor; [apply admitted_string|]. constructor; [by apply admitted_number|].
  repeat (apply fits_entry || apply fits_last); intros a E; by apply (admitted_time _ a E).
Qed.

Lemma admitted_reasoning r : storable_reasoning r = true -> admitted reasoningSchema (reasoning_value r).
Proof. intros S. apply fits_accepted; [by vm_compute|by apply reasoning_fits]. Qed.

Lemma map_accepted {A} s (f : A -> jsval) l : (forall a, admitted s (f a)) -> Forall (admitted s) (map f l).
Proof. intros F. apply Forall_map, Forall_forall. intros a _. apply F. Qed.

Lemma code_fits v : storable_code v = true ->
  fits [(js "errorCode", ZOptional (ZNullable ZString))] (code_entry v).
Proof.
  intros S. destruct v; try done; repeat constructor; (apply admitted_optional; [done|]); unfold admitted; rewrite zod_nullable; [done|].
  apply zod_string.
Qed.

Lemma message_fits m : storable m = true -> fits (fields_of messageSchema) (entries_of (message_value m)).
Proof.
  unfold storable. rewrite !andb_true_iff. intros (((((((((Uk & L) & Uv) & P1) & P2) & P3) & P4) & So) & R) & C).
  constructor; [apply admitted_string|]. constructor; [apply admitted_role|].
  constructor; [apply admitted_array; [by rewrite length_map|apply map_accepted, admitted_version]|].
  repeat (apply fits_entry; [intros a E; try by apply (admitted_time _ a E)|]); [..|by apply code_fits]; try apply admitted_flag.
  - apply admitted_optional; [done|]. apply admitted_array; [done|apply map_accepted, admitted_source].
  - apply admitted_optional; [done|]. apply admitted_reasoning. by rewrite E in R.
  - apply admitted_optional; [done|]. apply admitted_status.
Qed.

Lemma admitted_message m : storable m = true -> admitted messageSchema (message_value m).
Proof. intros S. apply fits_accepted; [by vm_compute|by apply message_fits]. Qed.

Lemma admitted_messages messages : forallb storable messages = true -> admitted messagesSchema (JArr (map message_value messages)).
Proof.
  intros S. apply admitted_array; [done|]. apply Forall_map, List.Forall_forall. intros m I. apply admitted_message.
  rewrite forallb_forall in S. by apply S.
Qed.

(** *** Their texts *)

Lemma textual_entry {A} k (f : A -> jsval) v l : (forall a, v = Some a -> textual (f a) = true) ->
  forallb (fun e => textual e.2) l = true -> forallb (fun e => textual e.2) (entry k f v ++ l) = true.
Proof. intros T L. destruct v as [a|]; cbn; [by rewrite T|done]. Qed.

Lemma textual_map {A} (f : A -> jsval) p l : (forall a, p a = true -> textual (f a) = true) -> forallb p l = true ->
  textual (JArr (map f l)) = true.
Proof. intros T. cbn. induction l as [|a l IH]; [done|]. cbn. intros P. split_andb. by rewrite T, IH. Qed.

Lemma textual_version v : storable_version v = true -> textual (version_value v) = true.
Proof.
  unfold storable_version. intros S. split_andb. apply (fits_textual _ _ (version_fits v)); [by vm_compute..|]. cbn. by rewrite H0, H1.
Qed.

Lemma textual_source s : storable_source s = true -> textual (source_value s) = true.
Proof.
  unfold storable_source. intros S. split_andb. apply (fits_textual _ _ (source_fits s)); [by vm_compute..|]. cbn. by rewrite H0, H1.
Qed.

Lemma textual_reasoning r : storable_reasoning r = true -> textual (reasoning_value r) = true.
Proof.
  intros S. apply (fits_textual _ _ (reasoning_fits r S)); [by vm_compute..|]. unfold storable_reasoning in S.
  rewrite !andb_true_iff in S. destruct S as ((((Uc & Pd) & P1) & P2) & P3). unfold reasoning_value. cbn [entries_of app forallb snd textual].
  rewrite Uc, Pd. cbn [andb]. rewrite <- (app_nil_r (entry (js "durationMs") JNum _)).
  repeat (apply textual_entry; [intros a E|]); try done; [by rewrite E in P1|by rewrite E in P2|by rewrite E in P3].
Qed.

Lemma textual_message m : storable m = true -> textual (message_value m) = true.
Proof.
  intros S. apply (fits_textual _ _ (message_fits m S)); [by vm_compute..|]. unfold storable in S. rewrite !andb_true_iff in S.
  destruct S as (((((((((Uk & L) & Uv) & P1) & P2) & P3) & P4) & So) & R) & C). unfold message_value.
  cbn [entries_of app forallb snd]. rewrite (textual_map _ _ _ textual_version Uv). cbn [textual]. rewrite Uk.
  replace (forallb is_unit (role_text (msg_from m))) with true by (by destruct (msg_from m)). cbn [andb].
  repeat (apply textual_entry; [intros a E; try done|]).
  - by rewrite E in P1.
  - by rewrite E in P2.
  - by rewrite E in P3.
  - by rewrite E in P4.
  - rewrite E in So. by apply (textual_map _ _ _ textual_source).
  - rewrite E in R. by apply textual_reasoning.
  - by destruct a.
  - destruct (msg_errorCode m); try done. cbn in *. by rewrite C.
Qed.
End Codec.

(** ** Reading a message back *)

Lemma mapM_inverse {A} (f : A -> jsval) (g : jsval -> option A) l : (forall a, g (f a) = Some a) -> mapM g (map f l) = Some l.
Proof. intros E. induction l as [|a l IH]; [done|]. cbn. by rewrite E, IH. Qed.

Lemma text_of_role r : text_role (role_text r) = Some r.
Proof. by destruct r. Qed.

Lemma text_of_status s : text_status (status_text s) = Some s.
Proof. by destruct s. Qed.

Lemma read_version v : value_version (version_value v) = Some v.
Proof. by destruct v. Qed.

Lemma read_source s : value_source (source_value s) = Some s.
Proof. by destruct s. Qed.

(** Looks an entry up past entries with other keys. *)
Ltac skip_entries := repeat first [rewrite head_skip by by vm_compute | rewrite entry_skip by by vm_compute].
Ltac find_entry := skip_entries; rewrite entry_hit; skip_entries.

Lemma code_read v : default JUndefined (assoc_str (code_entry v) (js "errorCode")) = v.
Proof. by destruct v. Qed.

Lemma code_other v k : str_eqb (js "errorCode") k = false -> assoc_str (code_entry v) k = None.
Proof. intros E. destruct v; cbn [code_entry assoc_str]; by rewrite ?E. Qed.

Lemma read_reasoning r : value_reasoning (reasoning_value r) = Some r.
Proof.
  destruct r as [c d n1 n2 n3]. unfold value_reasoning. set (v := reasoning_value _).
  change (get_field v (js "content")) with (JStr c). change (get_field v (js "duration")) with (JNum d).
  cbn [as_str as_num mbind option_bind]. do 2 f_equal; subst v; unfold reasoning_value, get_field; cbn [app];
    rewrite <- (app_nil_r (entry (js "durationMs") JNum _)); find_entry; [by destruct n1|by destruct n2|by destruct n3].
Qed.

Lemma read_message m : value_message (message_value m) = Some m.
Proof.
  destruct m as [key role versions created started completed duration sources reasoning r1 r2 r3 status code].
  unfold value_message. set (v := message_value _). change (get_field v (js "key")) with (JStr key).
  change (get_field v (js "from")) with (JStr (role_text role)).
  change (get_field v (js "versions")) with (JArr (map version_value versions)).
  cbn [as_str mbind option_bind as_list]. rewrite text_of_role, (mapM_inverse _ _ _ read_version). cbn [mbind option_bind].
  do 2 f_equal; subst v; unfold message_value, get_field;
    cbn [msg_createdAt msg_startedAt msg_completedAt msg_durationMs msg_sources msg_reasoning msg_isReasoningStreaming
         msg_isReasoningComplete msg_isContentComplete msg_status msg_errorCode app].
  all: skip_entries; rewrite ?entry_hit; skip_entries; rewrite ?code_read; rewrite ?code_other by by vm_compute. 11: done.
  - by destruct created.
  - by destruct started.
  - by destruct completed.
  - by destruct duration.
  - destruct sources as [l|]; [|done]. cbn. by apply mapM_inverse, read_source.
  - destruct reasoning as [r|]; [|done]. cbn [default]. apply read_reasoning.
  - by destruct r1.
  - by destruct r2.
  - by destruct r3.
  - destruct status as [s|]; [|done]. cbn. apply text_of_status.
Qed.

Lemma read_messages messages : as_list value_message (JArr (map message_value messages)) = Some messages.
Proof. cbn. apply mapM_inverse, read_message. Qed.

(** ** Sizes *)

Fixpoint total_size (messages : list Message) : Z :=
  match messages with [] => 0 | m :: messages => getMessageSize m + total_size messages end%Z.

Lemma text_size_pos s : (0 <= text_size s)%Z.
Proof. unfold text_size. lia. Qed.

Lemma versions_size vs : forall z, fold_left (fun total v => total + text_size (version_content v))%Z vs z =
  (z + fold_left (fun total v => total + text_size (version_content v))%Z vs 0)%Z.
Proof. induction vs as [|v vs IH]; intros z; cbn [fold_left]; [lia|]. rewrite IH, (IH (0 + text_size _)%Z). lia. Qed.

Lemma versions_size_pos vs : (0 <= fold_left (fun total v => total + text_size (version_content v)) vs 0)%Z.
Proof. induction vs as [|v vs IH]; cbn [fold_left]; [lia|]. rewrite versions_size. pose proof (text_size_pos (version_content v)). lia. Qed.

Lemma message_size_pos m : (0 <= getMessageSize m)%Z.
Proof.
  unfold getMessageSize. pose proof (versions_size_pos (msg_versions m)). destruct (msg_reasoning m) as [r|]; [|lia].
  pose proof (text_size_pos (rs_content r)). lia.
Qed.

Lemma total_size_pos l : (0 <= total_size l)%Z.
Proof. induction l as [|m l IH]; cbn; [lia|]. pose proof (message_size_pos m). lia. Qed.

Lemma total_size_app l1 l2 : total_size (l1 ++ l2) = (total_size l1 + total_size l2)%Z.
Proof. induction l1 as [|m l1 IH]; cbn; lia. Qed.

Lemma total_size_reverse l : total_size (reverse l) = total_size l.
Proof. induction l as [|m l IH]; [done|]. rewrite reverse_cons, total_size_app, IH. cbn. lia. Qed.

Lemma size_loop_all l : forall taken z, (z + total_size l <= MAX_LOADED_MESSAGES_CHARS)%Z -> size_loop taken z l = l.
Proof.
  induction l as [|m l IH]; intros taken z L; [done|]. cbn [size_loop total_size] in *. pose proof (total_size_pos l).
  assert ((MAX_LOADED_MESSAGES_CHARS <? z + getMessageSize m)%Z = false) as -> by (apply Z.ltb_ge; lia).
  rewrite andb_false_r, IH by lia. done.
Qed.

Lemma trim_size_all l : (total_size l <= MAX_LOADED_MESSAGES_CHARS)%Z -> trimMessagesByContentSize l = l.
Proof.
  intros L. unfold trimMessagesByContentSize. rewrite size_loop_all by (rewrite total_size_reverse; lia). apply reverse_involutive.
Qed.

Lemma size_loop_prefix l : forall taken z, exists l', l = size_loop taken z l ++ l'.
Proof.
  induction l as [|m l IH]; intros taken z; [by exists []|]. cbn [size_loop]. destruct (taken && _); [by exists (m :: l)|].
  destruct (IH true (z + getMessageSize m)%Z) as [l' E]. exists l'. cbn. by rewrite <- E.
Qed.

Lemma size_loop_bound l : forall z, (z <= MAX_LOADED_MESSAGES_CHARS)%Z ->
  (z + total_size (size_loop true z l) <= MAX_LOADED_MESSAGES_CHARS)%Z.
Proof.
  induction l as [|m l IH]; intros z Z0; cbn [size_loop]; [cbn; lia|].
  destruct (Z.ltb_spec MAX_LOADED_MESSAGES_CHARS (z + getMessageSize m)); cbn [andb total_size]; [lia|].
  specialize (IH (z + getMessageSize m)%Z ltac:(lia)). lia.
Qed.

Lemma size_loop_full l z : (MAX_LOADED_MESSAGES_CHARS < z)%Z -> size_loop true z l = [].
Proof.
  destruct l as [|m l]; [done|]. intros Z0. cbn [size_loop]. pose proof (message_size_pos m).
  by assert ((MAX_LOADED_MESSAGES_CHARS <? z + getMessageSize m)%Z = true) as -> by (apply Z.ltb_lt; lia).
Qed.

(** The kept messages are a suffix, which is one message or stays within the
    limit. *)
Lemma trim_size_suffix l : exists l', l = l' ++ trimMessagesByContentSize l.
Proof.
  destruct (size_loop_prefix (reverse l) false 0) as [l' E]. exists (reverse l'). unfold trimMessagesByContentSize.
  rewrite <- reverse_app, <- E. by rewrite reverse_involutive.
Qed.

Lemma trim_size_bound l : 1 < length (trimMessagesByContentSize l) ->
  (total_size (trimMessagesByContentSize l) <= MAX_LOADED_MESSAGES_CHARS)%Z.
Proof.
  unfold trimMessagesByContentSize. rewrite total_size_reverse, length_reverse. destruct (reverse l) as [|m r]; [cbn; lia|].
  cbn [size_loop andb total_size length]. intros L. destruct (Z.le_gt_cases (0 + getMessageSize m) MAX_LOADED_MESSAGES_CHARS) as [B|B].
  - pose proof (size_loop_bound r (0 + getMessageSize m)%Z B). lia.
  - rewrite size_loop_full in L by lia. cbn in L. lia.
Qed.

Lemma trim_suffix l : exists l', l = l' ++ trimMessages l.
Proof.
  unfold trimMessages. destruct (_ <=? _)%nat; [by exists []|]. eexists. symmetry. apply take_drop.
Qed.

Lemma trim_count l : length (trimMessages l) <= MAX_STORED_MESSAGES.
Proof.
  unfold trimMessages. destruct (Nat.leb_spec (length l) MAX_STORED_MESSAGES); [done|]. rewrite length_drop. lia.
Qed.

(** *** Think tags never add text *)

Lemma cut_size tag s before after : cut_at tag s = Some (before, after) -> length before + length tag + length after <= length s.
Proof.
  revert before after. induction s as [|c s IH]; intros before after; cbn [cut_at].
  - destruct (starts_with tag []) eqn:E; [|done]. destruct tag; [|done]. intros [= <- <-]. cbn. lia.
  - destruct (starts_with tag (c :: s)) eqn:E.
    + intros [= <- <-]. pose proof (starts_with_length _ _ E). cbn [length]. rewrite length_drop. cbn [length] in *. lia.
    + destruct (cut_at tag s) as [[b a]|] eqn:C; [|done]. intros [= <- <-]. specialize (IH _ _ eq_refl). cbn. lia.
Qed.

Lemma join_cons_size sep (x : str) l : length (join sep (x :: l)) <= length x + length sep + length (join sep l).
Proof. destruct l as [|y l]; [cbn; lia|]. change (join sep (x :: y :: l)) with (x ++ sep ++ join sep (y :: l)). rewrite !length_app. lia. Qed.

Lemma join_opt_size (before : str) vs :
  length (join [] (match before with [] => [] | _ => [before] end ++ vs)) <= length before + length (join [] vs).
Proof. destruct before as [|c b]; [done|]. pose proof (join_cons_size [] (c :: b) vs). cbn [app length] in *. lia. Qed.

Lemma think_size fuel : forall rest vs rs unclosed, think_loop fuel rest = (vs, rs, unclosed) ->
  length (join [] vs) + length (join blank_line rs) <= length rest.
Proof.
  induction fuel as [|fuel IH]; intros rest vs rs u; cbn [think_loop]; [intros [= <- <- <-]; cbn; lia|].
  destruct (cut_at open_tag rest) as [[before after]|] eqn:C.
  - apply cut_size in C. destruct (cut_at close_tag after) as [[reasoning rest']|] eqn:D.
    + apply cut_size in D. destruct (think_loop fuel rest') as [[vs' rs'] u'] eqn:T. intros [= <- <- <-]. specialize (IH _ _ _ _ T).
      pose proof (join_opt_size before vs'). pose proof (join_cons_size blank_line reasoning rs').
      change (length blank_line) with 2 in *. change (length open_tag) with 7 in *. change (length close_tag) with 8 in *. lia.
    + intros [= <- <- <-]. pose proof (join_opt_size before []). rewrite app_nil_r in *. cbn [join length] in *. lia.
  - intros [= <- <- <-]. destruct rest; cbn; lia.
Qed.

Lemma trim_size s : length (trim s) <= length s.
Proof. destruct (trim_spec s) as (a & b & E & _). rewrite E at 2. rewrite !length_app. lia. Qed.

Lemma parse_size content : (text_size (visibleContent (parseThinkTags content)) + text_size (reasoning_text (parseThinkTags content))
  <= text_size content)%Z.
Proof.
  unfold parseThinkTags, text_size. destruct (negb _); [cbn; lia|].
  destruct (think_loop _ _) as [[vs rs] u] eqn:T. apply think_size in T. cbn.
  pose proof (trim_size (join [] vs)). pose proof (trim_size (join blank_line rs)). lia.
Qed.

Lemma reasoning_timing_size m now : getMessageSize (completeReasoningTiming m now) = getMessageSize m.
Proof. unfold completeReasoningTiming. destruct (msg_reasoning m) as [[c d s1 s2 [d2|]]|] eqn:E; try done. unfold getMessageSize. cbn. by rewrite E. Qed.

Lemma timing_size m now : getMessageSize (completeAssistantTiming m now) = getMessageSize m.
Proof. unfold completeAssistantTiming. by destruct (bool_decide _). Qed.

Definition reasoning_size (r : option Reasoning) : Z := match r with Some r => text_size (rs_content r) | None => 0 end.

Lemma current_size m : (text_size (version_content (getCurrentVersion m)) + reasoning_size (msg_reasoning m) <= getMessageSize m)%Z.
Proof.
  unfold getMessageSize, getCurrentVersion, reasoning_size. destruct (msg_versions m) as [|v vs]; cbn [fold_left version_content]; [done|].
  rewrite versions_size. pose proof (versions_size_pos vs). destruct (msg_reasoning m); lia.
Qed.

Lemma finalize_size clock m : (getMessageSize (finalizeMessage clock m None) <= getMessageSize m)%Z.
Proof.
  pose proof (current_size m) as C. unfold finalizeMessage. rewrite reasoning_timing_size. refine (Z.le_trans _ _ _ _ C). clear C.
  set (content := version_content _).
  set (parsed := if contains content open_tag then Some (parseThinkTags content) else None).
  assert (text_size (match parsed with Some p => visibleContent p | None => content end) +
          text_size (default [] (reasoning_text <$> parsed)) <= text_size content)%Z as P.
  { subst parsed. destruct (contains _ _); [apply parse_size|cbn; unfold text_size; cbn; lia]. }
  unfold getMessageSize. cbn [msg_versions msg_reasoning with_reasoning_streaming with_reasoning updateCurrentVersionContent with_versions
    fold_left version_content]. clearbody parsed.
  assert (forall s r, reasoning_size (if non_empty s then Some (with_reasoning_content s r) else None) = text_size s) as R
    by (by intros [|c s] r).
  unfold reasoning_size in R at 1. rewrite R.
  assert (text_size (first_text [None; rs_content <$> msg_reasoning m; reasoning_text <$> parsed]) <=
          reasoning_size (msg_reasoning m) + text_size (default [] (reasoning_text <$> parsed)))%Z as F.
  { destruct (msg_reasoning m) as [[[|c rc] ? ? ? ?]|], parsed as [[? [|c' rc'] ?]|]; cbn; unfold text_size; cbn; lia. }
  lia.
Qed.

(** ** Normalization *)

Lemma shorten_shape m : shape (shorten_message m) = shape m.
Proof. unfold shorten_message. by destruct (_ || _). Qed.

(** A message keeps its key and its role, and a settled one its status. *)
Lemma normalize_shape clock m : exists s, shape (normalizeStoredMessageForLoad clock m) = (msg_key m, msg_from m, s) /\
  (s = msg_status m \/ s = Some StatusComplete).
Proof.
  pose proof (shorten_shape m) as Sh. unfold normalizeStoredMessageForLoad. destruct (negb (isAssistantMessagePending _)); [by eauto|].
  destruct (_ && _); [by eauto|]. exists (Some StatusComplete). split; [|by right]. rewrite status_timing.
  pose proof (status_finalize (fun n => clock (S n)) (shorten_message m) None) as F. rewrite Sh in F. injection F as Fk Fr Fs.
  unfold shape. cbn. by rewrite Fk, Fr.
Qed.

Lemma normalize_waiting clock m : is_waiting (shape (normalizeStoredMessageForLoad clock m)) = true -> is_waiting (shape m) = true.
Proof.
  destruct (normalize_shape clock m) as (s & -> & [->| ->]); [done|]. unfold is_waiting. cbn. by rewrite andb_false_r.
Qed.

Lemma calm_mono l l' : Forall2 (fun x y => is_waiting y = true -> is_waiting x = true) l l' -> calm l -> calm l'.
Proof.
  induction 1 as [|x y l l' W F IH]; [done|]. intros [Q C]. split; [|by apply IH]. intros N. destruct (is_waiting y) eqn:E; [|done].
  rewrite (W eq_refl) in Q. exfalso. assert (l <> []) as L by (intros ->; by inversion F; subst). specialize (Q L). done.
Qed.

Lemma calm_suffix l1 l2 : calm (l1 ++ l2) -> calm l2.
Proof. induction l1 as [|x l1 IH]; [done|]. intros [_ C]. by apply IH. Qed.

Lemma normalize_all_calm clocks l : calm (map shape l) -> calm (map shape (normalize_all clocks l)).
Proof.
  apply calm_mono. revert clocks. induction l as [|m l IH]; intros clocks; [constructor|]. constructor; [apply normalize_waiting|].
  apply (IH (clocks ∘ S)).
Qed.

Lemma normalize_all_keys clocks l : map msg_key (normalize_all clocks l) = map msg_key l.
Proof.
  revert clocks. induction l as [|m l IH]; intros clocks; [done|]. unfold normalize_all in *. rewrite imap_cons. cbn [map].
  f_equal; [|exact (IH (clocks ∘ S))]. destruct (normalize_shape (clocks 0) m) as (s & E & _). by injection E.
Qed.

(** ** Sanitizing *)

Section Sanitized.
Variable t : str -> str.

Definition interrupted_text : str := t ERROR_API_REQUEST ++ js ": " ++ t ERROR_INTERRUPTED.

Lemma sanitize_shape clock m : exists s, shape (sanitize_message t clock m) = (msg_key m, msg_from m, Some s) /\
  waiting_status (Some s) = false.
Proof.
  pose proof (status_finalize clock m None) as F. injection F as Fk Fr Fs. unfold sanitize_message.
  destruct (_ || _); eexists; (split; [rewrite status_timing; unfold shape; cbn; by rewrite Fk, Fr|done]).
Qed.

Lemma sanitize_size clock m : (getMessageSize (sanitize_message t clock m) <= getMessageSize m + text_size interrupted_text)%Z.
Proof.
  pose proof (finalize_size clock m) as F. pose proof (text_size_pos interrupted_text). unfold sanitize_message.
  destruct (_ || _); rewrite timing_size; [change (getMessageSize (finalizeMessage clock m None) <= getMessageSize m + text_size interrupted_text)%Z; lia|].
  pose proof (current_size (finalizeMessage clock m None)) as C. pose proof (text_size_pos (version_content (getCurrentVersion (finalizeMessage clock m None)))).
  refine (Z.le_trans _ (0 + text_size interrupted_text + reasoning_size (msg_reasoning (finalizeMessage clock m None))) _ _ _); [done|lia].
Qed.

(** What replaces the last pending message by its sanitized form does. *)
Lemma sanitize_last_quiet (f : Message -> Message) l : (forall m, isPendingAssistantMessage (f m) = false) -> calm (map shape l) ->
  Forall (fun m => isPendingAssistantMessage m = false)
    (match find_last isPendingAssistantMessage l with None => l | Some (i, m) => <[i := f m]> l end).
Proof.
  intros Q. induction l as [|m l IH]; [constructor|]. intros [W C]. specialize (IH C). cbn [find_last].
  destruct (find_last isPendingAssistantMessage l) as [[i y]|] eqn:E.
  - constructor; [|done]. rewrite <- waiting_shape. apply W. destruct l; [done|]. done.
  - destruct (isPendingAssistantMessage m) eqn:P; constructor; auto.
Qed.

Lemma sanitize_quiet clock l : calm (map shape l) -> Forall (fun m => isPendingAssistantMessage m = false) (sanitizeMessagesOnLoad t clock l).
Proof.
  intros C. apply (sanitize_last_quiet (sanitize_message t clock)) in C; [|].
  - unfold sanitizeMessagesOnLoad. by destruct (find_last _ _) as [[i m]|].
  - intros m. rewrite <- waiting_shape. destruct (sanitize_shape clock m) as (s & -> & W). unfold is_waiting. cbn [fst snd].
    by rewrite W, andb_false_r.
Qed.

Lemma find_last_at {A} (p : A -> bool) l i x : find_last p l = Some (i, x) -> l !! i = Some x.
Proof.
  revert i. induction l as [|y l IH]; intros i; [done|]. cbn [find_last]. destruct (find_last p l) as [[j z]|].
  - intros [= <- <-]. by apply IH.
  - destruct (p y); [|done]. by intros [= <- <-].
Qed.

Lemma sanitize_keys clock l : map msg_key (sanitizeMessagesOnLoad t clock l) = map msg_key l.
Proof.
  unfold sanitizeMessagesOnLoad. destruct (find_last _ l) as [[i m]|] eqn:E; [|done]. apply find_last_at in E.
  change (map msg_key (<[i := ?x]> l)) with (msg_key <$> (<[i := x]> l)). rewrite list_fmap_insert.
  apply list_insert_id. rewrite list_lookup_fmap, E. cbn. f_equal. destruct (sanitize_shape clock m) as (s & F & _). by injection F.
Qed.

Lemma total_size_insert l i m x b : l !! i = Some m -> (getMessageSize x <= getMessageSize m + b)%Z ->
  (total_size (<[i := x]> l) <= total_size l + b)%Z.
Proof.
  revert i. induction l as [|y l IH]; intros [|i] L B; [done|done|..].
  - injection L as ->. change (<[0 := x]> (m :: l)) with (x :: l). cbn [total_size]. lia.
  - specialize (IH i L B). change (<[S i := x]> (y :: l)) with (y :: <[i := x]> l). cbn [total_size]. lia.
Qed.

Lemma sanitize_total clock l : (total_size (sanitizeMessagesOnLoad t clock l) <= total_size l + text_size interrupted_text)%Z.
Proof.
  unfold sanitizeMessagesOnLoad. pose proof (text_size_pos interrupted_text). destruct (find_last _ l) as [[i m]|] eqn:E; [|lia].
  apply find_last_at in E. apply (total_size_insert _ _ m); [done|apply sanitize_size].
Qed.

Lemma keys_length l l' : map msg_key l = map msg_key l' -> length l = length l'.
Proof. intros E. apply (f_equal length) in E. by rewrite !length_map in E. Qed.

(** ** What a load yields, whatever was stored *)

Lemma restore_bounded clocks clock parsed : let loaded := restore t clocks clock parsed in
  length loaded <= MAX_STORED_MESSAGES /\
  (1 < length loaded -> (total_size loaded <= MAX_LOADED_MESSAGES_CHARS + text_size interrupted_text)%Z).
Proof.
  cbn zeta. unfold restore. set (kept := trimMessagesByContentSize _). rewrite (keys_length _ kept) by apply sanitize_keys.
  split.
  - destruct (trim_size_suffix (trimMessages (normalize_all clocks parsed))) as [l' E]. fold kept in E.
    pose proof (trim_count (normalize_all clocks parsed)) as L. rewrite E, length_app in L. lia.
  - intros L. pose proof (sanitize_total clock kept). pose proof (trim_size_bound _ L). fold kept in H0. lia.
Qed.

Lemma restore_keys clocks clock parsed : exists earlier, map msg_key parsed = earlier ++ map msg_key (restore t clocks clock parsed).
Proof.
  unfold restore. rewrite sanitize_keys, <- (normalize_all_keys clocks parsed). set (n := normalize_all clocks parsed).
  destruct (trim_suffix n) as [l1 E1]. destruct (trim_size_suffix (trimMessages n)) as [l2 E2].
  exists (map msg_key (l1 ++ l2)). rewrite <- map_app, <- app_assoc, <- E2. by rewrite <- E1.
Qed.

Lemma restore_quiet clocks clock parsed : calm (map shape parsed) ->
  Forall (fun m => isPendingAssistantMessage m = false) (restore t clocks clock parsed).
Proof.
  intros C. apply sanitize_quiet. apply (normalize_all_calm clocks) in C. set (n := normalize_all clocks parsed) in *.
  destruct (trim_suffix n) as [l1 E1]. destruct (trim_size_suffix (trimMessages n)) as [l2 E2].
  rewrite E1, E2, app_assoc, map_app in C. by apply calm_suffix in C.
Qed.
End Sanitized.

(** ** Saving and loading *)

(** No numbered heading of the text occurs three times, or the text is short. *)
Definition no_repeated_section (text : str) : bool :=
  (text_size text <? MIN_PREFIX_COLLAPSE_LENGTH)%Z ||
  forallb (fun o => length (of_key heading (heading o) (getSectionOccurrences text)) <? 3) (getSectionOccurrences text).

(** A settled message whose texts a load does not shorten. *)
Definition unshortened (m : Message) : bool :=
  forallb (fun v => no_repeated_section (version_content v) &&
                    (text_size (version_content v) <=? MAX_LOADED_MESSAGE_CHARS)%Z) (msg_versions m) &&
  (reasoning_size (msg_reasoning m) <=? MAX_LOADED_MESSAGE_CHARS)%Z && negb (isAssistantMessagePending m).

(** The counts are the numbers of occurrences. *)
Lemma heading_count occurrences h :
  default 0 (map_get (getHeadingCounts occurrences) h) = length (of_key heading h occurrences).
Proof.
  unfold getHeadingCounts. assert (forall m, default 0 (map_get (fold_left (fun counts o =>
    map_set counts (heading o) (default 0 (map_get counts (heading o)) + 1)) occurrences m) h) =
    default 0 (map_get m h) + length (of_key heading h occurrences)) as E; [|by rewrite E].
  induction occurrences as [|o l IH]; intros m; cbn [fold_left of_key List.filter]; [cbn; lia|].
  rewrite IH, map_get_set. case_bool_decide as B; [subst h; cbn; fold (of_key heading (heading o) l); lia|done].
Qed.

Lemma collapse_id text : no_repeated_section text = true -> collapseRepeatedSectionSnapshots text = text.
Proof.
  unfold no_repeated_section, collapseRepeatedSectionSnapshots. destruct (_ <? _)%Z; [done|]. cbn [orb]. intros F.
  unfold findLastRepeatedSectionRunStart. set (l := getSectionOccurrences text) in *. set (counts := getHeadingCounts l).
  assert (Forall (fun o => default 0 (map_get counts (heading o)) < 3) (reverse l)) as R.
  { apply Forall_forall. intros o O. rewrite <- list_elem_of_In, elem_of_reverse, list_elem_of_In in O. rewrite forallb_forall in F.
    specialize (F o O). apply Nat.ltb_lt in F. unfold counts. by rewrite heading_count. }
  assert (forall seen, (fold_left (repeated_step counts) (reverse l) (seen, [])).2 = []) as ->; [|done].
  induction R as [|o l' O R IH]; intros seen; [done|]. cbn [fold_left repeated_step].
  assert ((default 0 (map_get counts (heading o)) <? MIN_REPEATED_SECTION_COUNT) = true) as -> by (by apply Nat.ltb_lt). cbn [orb]. apply IH.
Qed.

Lemma unshortened_version v : no_repeated_section (version_content v) = true ->
  (text_size (version_content v) <=? MAX_LOADED_MESSAGE_CHARS)%Z = true -> (normalize_version v).2 = false.
Proof.
  intros E L. apply collapse_id in E. unfold normalize_version. rewrite E. unfold truncateText. by rewrite L, str_eqb_refl.
Qed.

Lemma normalize_unshortened clock m : unshortened m = true -> normalizeStoredMessageForLoad clock m = m.
Proof.
  unfold unshortened. rewrite !andb_true_iff. intros [[V R] P]. assert (shorten_message m = m) as E.
  { unfold shorten_message. assert (existsb snd (map normalize_version (msg_versions m)) = false) as ->.
    { induction (msg_versions m) as [|v vs IH]; [done|]. cbn [forallb map existsb] in *. rewrite !andb_true_iff in V.
      destruct V as [[E L] V]. by rewrite unshortened_version, IH. }
    destruct (msg_reasoning m) as [r|]; cbn [reasoning_size fmap option_fmap option_map] in *; [|done].
    unfold normalize_reasoning, truncateText. by rewrite R, bool_decide_true. }
  unfold normalizeStoredMessageForLoad. by rewrite E, P.
Qed.

Lemma normalize_all_unshortened clocks l : forallb unshortened l = true -> normalize_all clocks l = l.
Proof.
  revert clocks. induction l as [|m l IH]; intros clocks U; [done|]. cbn [forallb] in U. split_andb. unfold normalize_all in *.
  rewrite imap_cons. f_equal; [by apply normalize_unshortened|]. by apply (IH (clocks ∘ S)).
Qed.

Lemma unshortened_quiet l : forallb unshortened l = true -> find_last isPendingAssistantMessage l = None.
Proof.
  induction l as [|m l IH]; [done|]. cbn [forallb find_last]. unfold unshortened at 1. rewrite !andb_true_iff, negb_true_iff. intros [[_ P] U]. rewrite IH by done.
  unfold isPendingAssistantMessage. by rewrite P, andb_false_r.
Qed.

Lemma restore_unshortened t clocks clock l : length l <= MAX_STORED_MESSAGES -> forallb unshortened l = true ->
  (total_size l <= MAX_LOADED_MESSAGES_CHARS)%Z -> restore t clocks clock l = l.
Proof.
  intros L U S. unfold restore. rewrite normalize_all_unshortened by done. unfold trimMessages.
  assert ((length l <=? MAX_STORED_MESSAGES)%nat = true) as -> by by apply Nat.leb_le.
  rewrite trim_size_all by done. unfold sanitizeMessagesOnLoad. by rewrite unshortened_quiet.
Qed.

Section Saved.
Context `{Zod}.
Variable admits : str -> bool.
Variable t : str -> str.

(** The text a conversation is stored as. *)
Definition saved_text (messages : list Message) (text : str) : Prop :=
  json_print [] [] (envelope (JArr (map message_value (trimMessages messages)))) = Some text /\ admits text = true /\
  (text_size text <= MAX_STORED_MESSAGES_BYTES)%Z.

Lemma trim_storable messages : forallb storable messages = true -> forallb storable (trimMessages messages) = true.
Proof.
  destruct (trim_suffix messages) as [l E]. rewrite E at 1. rewrite forallb_app. intros S. by split_andb.
Qed.

Lemma save_storable messages stored text : forallb storable messages = true -> saved_text messages text ->
  saveMessages admits messages stored = Some text.
Proof.
  intros S (P & A & _). unfold saveMessages. rewrite (admitted_messages _ (trim_storable _ S)).
  unfold writeStoredValue. by rewrite P, A.
Qed.

Lemma envelope_textual messages : forallb storable messages = true -> textual (envelope (JArr (map message_value messages))) = true.
Proof.
  intros S. unfold envelope.
  assert (textual (JArr (map message_value messages)) = true) as T by by apply (textual_map _ _ _ textual_message).
  set (v := JArr _) in *. clearbody v. cbn [textual forallb List.map fst snd]. rewrite T.
  by replace (json_plain STORAGE_VERSION) with true by (symmetry; vm_compute; reflexivity).
Qed.

Lemma read_saved messages text : forallb storable messages = true -> saved_text messages text ->
  readStoredMessagesValue (Some text) = (Some (envelope (JArr (map message_value (trimMessages messages)))), Some text).
Proof.
  intros S (P & _ & B). apply trim_storable in S. apply envelope_textual in S.
  pose proof (json_parse_print [] _ text (eq_refl true) S P) as J. unfold readStoredMessagesValue.
  destruct text as [|c text]; [done|]. assert ((MAX_STORED_MESSAGES_BYTES <? text_size (c :: text))%Z = false) as -> by (apply Z.ltb_ge; lia).
  unfold read_json. by rewrite J.
Qed.

Lemma load_saved clocks clock messages text : forallb storable messages = true -> saved_text messages text ->
  let loaded := restore t clocks clock (trimMessages messages) in
  loadMessages admits t clocks clock (Some text) = (Some loaded, saveMessages admits loaded (Some text)).
Proof.
  intros S P. unfold loadMessages. rewrite (read_saved messages) by done. change (negb (value_truthy (envelope _))) with false. cbv iota.
  change (unwrapStoredValue (envelope ?v)) with v. rewrite (admitted_messages _ (trim_storable _ S)). cbn [mbind option_bind].
  by rewrite read_messages.
Qed.

(** A conversation within the limits is read back. *)
Lemma saved_restored clocks clock messages stored text :
  forallb storable messages = true -> forallb unshortened messages = true -> length messages <= MAX_STORED_MESSAGES ->
  (total_size messages <= MAX_LOADED_MESSAGES_CHARS)%Z -> saved_text messages text ->
  let saved := saveMessages admits messages stored in
  saved = Some text /\ loadMessages admits t clocks clock saved = (Some messages, saved).
Proof.
  intros S U L T P. cbn zeta. rewrite (save_storable _ _ text) by done. split; [done|]. rewrite (load_saved _ _ messages) by done.
  cbn zeta. assert (trimMessages messages = messages) as -> by (unfold trimMessages; apply Nat.leb_le in L; by rewrite L).
  rewrite restore_unshortened by done. f_equal. by apply save_storable.
Qed.

(** C20: A settled conversation (no answer is waited for) is read back exactly as it was saved, and stays stored as it
    is, whatever the key held before: provided it can be saved (there is a version of every message, times are plain
    numbers, an error code is a text or null, the quota admits the JSON, of at most 1048576 characters) and is
    within the limits of a load (at most 100 messages, 40000 characters in each text and 120000 in all, and no text of
    2000 characters or more in which a numbered heading occurs three times, which a load takes for snapshots). *)
Theorem saved_conversation_restored clocks clock messages stored text :
  forallb storable messages = true -> forallb unshortened messages = true -> length messages <= MAX_STORED_MESSAGES ->
  (total_size messages <= MAX_LOADED_MESSAGES_CHARS)%Z -> saved_text messages text ->
  let saved := saveMessages admits messages stored in
  saved = Some text /\ loadMessages admits t clocks clock saved = (Some messages, saved).
Proof. apply saved_restored. Qed.

(** C21: A conversation saved while its last message waits for an answer is
    settled when it is loaded: no message of it waits, the messages are the most
    recent ones in their order, at most 100 of them, and unless a single message is
    left their texts stay within the limit, the text of the interruption apart. *)
Theorem interrupted_conversation_settles clocks clock messages stored text :
  forallb storable messages = true ->
  (forall i m, messages !! i = Some m -> isPendingAssistantMessage m = true -> i + 1 = length messages) ->
  saved_text messages text ->
  exists loaded, (loadMessages admits t clocks clock (saveMessages admits messages stored)).1 = Some loaded /\
  Forall (fun m => isPendingAssistantMessage m = false) loaded /\
  (exists earlier, map msg_key messages = earlier ++ map msg_key loaded) /\
  length loaded <= MAX_STORED_MESSAGES /\
  (1 < length loaded -> (total_size loaded <= MAX_LOADED_MESSAGES_CHARS + text_size (interrupted_text t))%Z).
Proof.
  intros S W P. exists (restore t clocks clock (trimMessages messages)).
  rewrite (save_storable _ _ text), (load_saved _ _ messages) by done. split; [done|].
  destruct (trim_suffix messages) as [l1 E1]. split; [|split].
  - apply restore_quiet. apply (calm_suffix (map shape l1)). rewrite <- map_app, <- E1. clear -W.
    induction messages as [|m l IH]; [done|]. split.
    + intros N. rewrite waiting_shape. destruct (isPendingAssistantMessage m) eqn:E; [|done]. specialize (W 0 m eq_refl E).
      by destruct l.
    + apply IH. intros i m' L P. specialize (W (Datatypes.S i) m' L P). cbn in W. lia.
  - destruct (restore_keys t clocks clock (trimMessages messages)) as [l2 E2]. exists (map msg_key l1 ++ l2).
    rewrite <- app_assoc, <- E2, <- map_app. by rewrite <- E1.
  - apply restore_bounded.
Qed.
End Saved.

(** ** The page *)

Section Page.
Context `{Zod}.
Variable admits : str -> bool.
Variable t : str -> str.

Lemma save_again messages stored : saveMessages admits messages (saveMessages admits messages stored) = saveMessages admits messages stored.
Proof.
  unfold saveMessages. destruct (zod_parse _ _) as [v|]; [|done]. unfold writeStoredValue. destruct (json_print _ _ _) as [text|]; [|done].
  by destruct (admits text).
Qed.

Lemma load_saves clocks clock stored loaded stored' : loadMessages admits t clocks clock stored = (Some loaded, stored') ->
  saveMessages admits loaded stored' = stored'.
Proof.
  unfold loadMessages. destruct (readStoredMessagesValue stored) as [[v|] s]; [|done]. destruct (negb _); [done|].
  destruct (_ ≫= _) as [parsed|]; [|done]. intros [= <- <-]. apply save_again.
Qed.

(** Nothing could be read and nothing has been shown since. *)
Definition unreadable (d : PlaygroundData) (p : Playground) : Prop :=
  pg_messages p = [] /\ exists clocks clock, loadMessages admits t clocks clock (data_messages d) = (None, data_messages (pg_data p)).

(** Saving what the page shows changes nothing. *)
Definition save_settled (d : PlaygroundData) (p : Playground) : Prop :=
  saveMessages admits (pg_messages p) (data_messages (pg_data p)) = data_messages (pg_data p) \/ unreadable d p.

(** What is stored is the JSON of the last hundred messages shown, when there is such a
    text and the quota admits it. *)
Definition stored_as_shown (p : Playground) : Prop :=
  forall text, forallb storable (pg_messages p) = true ->
    json_print [] [] (envelope (JArr (map message_value (trimMessages (pg_messages p))))) = Some text -> admits text = true ->
    data_messages (pg_data p) = Some text.

Lemma save_settled_stored d p : save_settled d p -> stored_as_shown p \/ unreadable d p.
Proof.
  intros [E|U]; [left|by right]. intros text S P A. rewrite <- E. unfold saveMessages. rewrite (admitted_messages _ (trim_storable _ S)).
  unfold writeStoredValue. by rewrite P, A.
Qed.

Record page_inv (d : PlaygroundData) (p : Playground) : Prop := {
  pi_untouched : pg_load_due p = true -> pg_loaded p = false /\ data_messages (pg_data p) = data_messages d;
  pi_timer : pg_timer p = true -> pg_loaded p = true /\ pg_cancelled p = false;
  pi_latest : pg_loaded p = true -> pg_latest p = pg_messages p;
  pi_saved : pg_loaded p = true -> pg_timer p = false -> save_settled d p
}.

Lemma page_inv_mount d : page_inv d (mount d).
Proof. by split. Qed.

Lemma page_inv_load d p clocks clock : page_inv d p -> pg_load_due p = true -> page_inv d (on_load admits t clocks clock p).
Proof.
  intros [U T L S] D. destruct (U D) as [N E]. unfold on_load. destruct (loadMessages _ _ _ _ _) as [loaded stored] eqn:Lo.
  assert (pg_timer p = false) as Tf by (destruct (pg_timer p) eqn:Et; [by destruct (T eq_refl); congruence|done]).
  destruct (pg_cancelled p) eqn:C; split; cbn; try done; try congruence.
  intros _ _. destruct loaded as [loaded|]; cbn.
  - left. by apply (load_saves clocks clock (data_messages (pg_data p))).
  - right. split; [done|]. exists clocks, clock. by rewrite <- E.
Qed.

Lemma page_inv_update d p f : page_inv d p -> pg_cancelled p = false -> page_inv d (updateMessages f p).
Proof.
  intros [U T L S] C. split; cbn; auto.
  - intros Ht. destruct (pg_loaded p) eqn:El; [done|]. by destruct (T Ht).
  - intros -> . done.
Qed.

Lemma page_inv_save d p : page_inv d p -> pg_timer p = true -> page_inv d (save_latest admits p).
Proof.
  intros [U T L S] Ht. destruct (T Ht) as [El C]. split; cbn; try done.
  - intros D. destruct (U D). congruence.
  - intros _ _. left. cbn. rewrite (L El). apply save_again.
Qed.

Lemma page_inv_settings d p config enabled data : page_inv d p -> data_messages data = data_messages (pg_data p) ->
  page_inv d (MkPlayground config enabled (pg_messages p) (pg_loading p) (pg_timer p) (pg_latest p) (pg_loaded p) (pg_load_due p)
                (pg_cancelled p) data).
Proof. intros [U T L S] E. split; cbn; [by rewrite E|done..|]. intros El Et. destruct (S El Et) as [A|A]; [left|right]; unfold unreadable in *; cbn; by rewrite E. Qed.

Lemma page_inv_leave d p : page_inv d p -> page_inv d (leave admits p).
Proof.
  intros I. unfold leave. cbn. destruct (pg_timer p) eqn:Ht.
  - apply (page_inv_save d p I) in Ht as [U T L S]. by split.
  - destruct I as [U T L S]. split; cbn; auto. congruence.
Qed.

Lemma page_inv_step d e p : page_inv d p -> page_inv d (playground_step admits t e p).
Proof.
  intros I. unfold playground_step. destruct (playground_enabled e p) eqn:En; [|done]. cbn [negb].
  destruct e as [clocks clock|f| |change|change| |]; cbn in En; try apply negb_true_iff in En.
  - by apply page_inv_load.
  - by apply page_inv_update.
  - by apply page_inv_save.
  - by apply page_inv_settings.
  - by apply page_inv_settings.
  - apply (page_inv_settings d (updateConfig admits (fun _ => DEFAULT_CONFIG) p)); [by apply page_inv_settings|done].
  - by apply page_inv_leave.
Qed.

(** C22: The page never overwrites a conversation it has not read: until the load has run the stored conversation is
    the one found.  Afterwards, whenever no save is due, and in particular once the page is left, either nothing could
    be read and nothing has been shown since, or the following holds.  When the messages shown can be saved (texts of
    code units, plain times, error codes that are texts, within the quota), what is stored is the JSON of the last
    hundred of them; and when, further, they are settled and within the limits of a load (100 messages, 40000
    characters in a text, 120000 in all, no long text with a numbered heading three times, 1048576 characters of JSON),
    the stored conversation is read back as it is shown. *)
Theorem conversation_kept d events : let p := playground_run admits t events (mount d) in
  (pg_load_due p = true -> data_messages (pg_data p) = data_messages d) /\
  (pg_loaded p = true -> pg_timer p = false \/ pg_cancelled p = true ->
   unreadable d p \/
   stored_as_shown p /\
   forall clocks clock text, forallb storable (pg_messages p) = true -> forallb unshortened (pg_messages p) = true ->
     length (pg_messages p) <= MAX_STORED_MESSAGES -> (total_size (pg_messages p) <= MAX_LOADED_MESSAGES_CHARS)%Z ->
     saved_text admits (pg_messages p) text ->
     loadMessages admits t clocks clock (data_messages (pg_data p)) = (Some (pg_messages p), data_messages (pg_data p))).
Proof.
  intros p. assert (page_inv d p) as [U T L S].
  { subst p. unfold playground_run. generalize (page_inv_mount d). generalize (mount d).
    induction events as [|e events IH]; intros p I; [done|]. cbn [fold_left]. by apply IH, page_inv_step. }
  split; [by intros D; destruct (U D)|]. intros El Q.
  assert (pg_timer p = false) as Et by (destruct (pg_timer p) eqn:Et; [destruct (T eq_refl); destruct Q; congruence|done]).
  destruct (save_settled_stored d p (S El Et)) as [A|A]; [right|by left]. split; [done|]. intros clocks clock text St Un Le To Sa.
  destruct (saved_restored admits t clocks clock (pg_messages p) None text St Un Le To Sa) as [E Lo]. destruct Sa as (P & Ad & _).
  by rewrite (A text St P Ad), <- E.
Qed.
End Page.

(** ** Sample conversations *)

Definition sample_question : Message := createUserMessage (js "k1") (js "v1") (js "hi") (lit 1000).
Definition stored_answer : Message :=
  MkMessage (js "k2") FromAssistant [MkVersion (js "v2") (js "hello")] (Some (lit 1000)) (Some (lit 1000)) (Some (lit 2500))
    (Some (lit 1500)) None (Some (MkReasoning (js "a greeting") (lit 1) (Some (lit 1000)) (Some (lit 1400)) (Some (lit 400))))
    (Some false) (Some false) (Some false) (Some StatusComplete) JUndefined.
Definition sample_pending : Message := createLoadingAssistantMessage (js "k3") (js "v3") (lit 3000).

Definition text_of_saved (messages : list Message) : str :=
  default [] (json_print [] [] (envelope (JArr (map message_value (trimMessages messages))))).

Definition any_text (s : str) : bool := true.
Definition same_text (s : str) : str := s.
Definition sample_clocks (i : nat) : Clock := sample_clock.

Lemma saved_conversation_restored_witness :
  let saved := saveMessages (H := interpreter) any_text [sample_question; stored_answer] None in
  saved = Some (text_of_saved [sample_question; stored_answer]) /\
  loadMessages (H := interpreter) any_text same_text sample_clocks sample_clock saved = (Some [sample_question; stored_answer], saved).
Proof.
  apply (saved_conversation_restored (H := interpreter) any_text same_text sample_clocks sample_clock [sample_question; stored_answer] None).
  - vm_compute. reflexivity.
  - vm_compute. reflexivity.
  - vm_compute. lia.
  - vm_compute. discriminate.
  - split; [vm_compute; reflexivity|]. split; [reflexivity|vm_compute; discriminate].
Defined.

Lemma interrupted_conversation_settles_witness :
  exists loaded, (loadMessages (H := interpreter) any_text same_text sample_clocks sample_clock
                    (saveMessages (H := interpreter) any_text [sample_question; sample_pending] None)).1 = Some loaded /\
  Forall (fun m => isPendingAssistantMessage m = false) loaded.
Proof.
  destruct (interrupted_conversation_settles (H := interpreter) any_text same_text sample_clocks sample_clock
              [sample_question; sample_pending] None (text_of_saved [sample_question; sample_pending])) as (loaded & L & Q & _).
  - vm_compute. reflexivity.
  - intros [|[|i]] m E P; [|reflexivity|discriminate E]. injection E as <-. vm_compute in P. discriminate P.
  - split; [vm_compute; reflexivity|]. split; [reflexivity|vm_compute; discriminate].
  - exists loaded. split; [exact L|exact Q].
Defined.

Lemma conversation_kept_witness :
  let d := MkData None None (Some (text_of_saved [sample_question; stored_answer])) in
  let p := playground_run (H := interpreter) any_text same_text [LoadDue sample_clocks sample_clock; Leave] (mount (H := interpreter) d) in
  loadMessages (H := interpreter) any_text same_text sample_clocks sample_clock (data_messages (pg_data p)) =
    (Some [sample_question; stored_answer], data_messages (pg_data p)).
Proof.
  intros d p. destruct (conversation_kept (H := interpreter) any_text same_text d [LoadDue sample_clocks sample_clock; Leave]) as [_ K].
  destruct K as [[E _]|[_ K]]; [vm_compute; reflexivity|right; vm_compute; reflexivity|vm_compute in E; discriminate E|].
  assert (pg_messages p = [sample_question; stored_answer]) as Shown by (vm_compute; reflexivity). fold p in K. rewrite Shown in K.
  apply (K sample_clocks sample_clock (text_of_saved [sample_question; stored_answer])).
  - vm_compute. reflexivity.
  - vm_compute. reflexivity.
  - vm_compute. lia.
  - vm_compute. discriminate.
  - split; [vm_compute; reflexivity|]. split; [reflexivity|vm_compute; discriminate].
Defined.

(** The interrupted answer becomes an error. *)
Example interrupted_answer :
  option_map (map getMessageContent)
    (loadMessages (H := interpreter) any_text same_text sample_clocks sample_clock
       (Some (text_of_saved [sample_question; sample_pending]))).1 =
  Some [js "hi"; js "Request error occurred: Generation was interrupted"].
Proof. vm_compute. reflexivity. Qed.

(** A number for an error code, which a server may send, is not what the schema
    expects: the conversation is no longer saved. *)
Example numeric_code_unsaved :
  saveMessages (H := interpreter) any_text [with_errorCode (JNum (lit 429)) stored_answer] None = None.
Proof. vm_compute. reflexivity. Qed.

(** The sections of an answer that was streamed as growing snapshots. *)
Definition snapshot (n : nat) : str :=
  js "## 1. One" ++ [10%N] ++ repeat 120%N n ++ [10%N] ++ js "## 2. Two" ++ [10%N] ++ repeat 121%N n ++ [10%N].

Example snapshots_collapse :
  collapseRepeatedSectionSnapshots (snapshot 400 ++ snapshot 400 ++ snapshot 401) = snapshot 401 /\
  collapseRepeatedSectionSnapshots (snapshot 600 ++ snapshot 600) = snapshot 600 ++ snapshot 600.
Proof. vm_compute. done. Qed.
