(* ===== verification/PlaygroundOptions.v ===== *)
(** * Options and parameters of the playground

    Models [lib/options], [lib/input] and [lib/parameters] of the playground,
    the effects of [use-playground-options.ts] that choose a model and a group,
    and [use-message-action-guard.ts]. *)

From Stdlib Require Import ZArith Lia Bool SpecFloat.
From stdpp Require Import base list numbers.
From S2P Require Import Prelude JsString JsNumber FlowGraph PlaygroundMessages.

(** ** Models and groups *)

Record ModelOption := MkModelOption { model_label : str; model_value : str }.
Record GroupOption := MkGroupOption { group_label : str; group_value : str; group_ratio : num; group_desc : option str }.

Definition getModelFallback (models : list ModelOption) (currentModel : str) : option str :=
  if existsb (fun m => str_eqb (model_value m) currentModel) models then None else model_value <$> head models.

Definition shouldClearModelForGroup (models : list ModelOption) (currentModel : str) : bool :=
  match currentModel with [] => false | _ => negb (existsb (fun m => str_eqb (model_value m) currentModel) models) end.

Definition getGroupFallback (groups : list GroupOption) (currentGroup : str) : option str :=
  if existsb (fun g => str_eqb (group_value g) currentGroup) groups then None
  else
    match List.find (fun g => str_eqb (group_value g) (js "default")) groups with
    | Some g => Some (group_value g)
    | None => group_value <$> head groups
    end.

(** The effect that runs when the models arrive or the model changes: the model
    it leaves, if it changes it.  A fallback that is the empty text is falsy. *)
Definition models_effect (models : list ModelOption) (currentModel : str) : option str :=
  match getModelFallback models currentModel with
  | Some (c :: fallback) => Some (c :: fallback)
  | _ => if shouldClearModelForGroup models currentModel then Some [] else None
  end.

Definition groups_effect (groups : list GroupOption) (currentGroup : str) : option str :=
  match getGroupFallback groups currentGroup with Some (c :: fallback) => Some (c :: fallback) | _ => None end.

(** ** The input *)

Record InputControlState := MkInputState { canSubmit : bool; isSelectorDisabled : bool; shouldShowStop : bool }.

Definition getSubmittableInputText (text : option str) (disabled : bool) : option str :=
  if disabled || negb (non_empty (trim (default [] text))) then None else text.

Definition getInputControlState (disabled : bool) (groups : list GroupOption) (hasStopHandler isGenerating isModelLoading : bool)
    (models : list ModelOption) (text : str) : InputControlState :=
  MkInputState (negb disabled && (0 <? length models)%nat && (0 <? length (trim text))%nat)
    (disabled || isModelLoading || (length groups =? 0)%nat) (isGenerating && hasStopHandler).

(** [guardAction(action)()]: the action runs, or a warning is shown. *)
Definition guardAction {S} (isGenerating : bool) (action warn : S -> S) : S -> S := if isGenerating then warn else action.

(** ** Parameters *)

Inductive PlaygroundParameterKey := KeyTemperature | KeyTopP | KeyFrequencyPenalty | KeyPresencePenalty | KeyMaxTokens | KeySeed.

#[global] Instance PlaygroundParameterKey_eq_dec : EqDecision PlaygroundParameterKey.
Proof. solve_decision. Defined.

Inductive ControlType := ControlSlider | ControlNumber.

Record PlaygroundParameterControl := MkControl {
  control_key : PlaygroundParameterKey; labelKey : str; descriptionKey : str; valueType : ControlType;
  control_min : num; control_max : num; control_step : num
}.

Definition tenth : num := num_of_decimal false 1 (-1).

Definition PLAYGROUND_PARAMETER_CONTROLS : list PlaygroundParameterControl :=
  [MkControl KeyTemperature (js "Temperature") (js "Controls randomness and creativity") ControlSlider tenth (lit 1) tenth;
   MkControl KeyTopP (js "Top P") (js "Limits token selection to a probability mass") ControlSlider tenth (lit 1) tenth;
   MkControl KeyFrequencyPenalty (js "Frequency Penalty") (js "Reduces repeated wording") ControlSlider (lit (-2)) (lit 2) tenth;
   MkControl KeyPresencePenalty (js "Presence Penalty") (js "Encourages new topics") ControlSlider (lit (-2)) (lit 2) tenth;
   MkControl KeyMaxTokens (js "Max Tokens") (js "Caps the response length") ControlNumber (lit 0) (lit 200000) (lit 1);
   MkControl KeySeed (js "Seed") (js "Keeps compatible responses more repeatable") ControlNumber (lit 0) (lit 2147483647) (lit 1)].

(** [Number.parseFloat(s)]: the longest prefix that is a decimal literal. *)
Definition parse_signed (sg : bool) (s : str) : num :=
  if starts_with (js "Infinity") s then S754_infinity sg
  else match scan_decimal s with Some (d, _) => num_of_dec sg d | None => S754_nan end.

Definition parseFloat (s : str) : num :=
  match trim_start s with
  | c :: r => if (c =? 43)%N then parse_signed false r else if (c =? 45)%N then parse_signed true r else parse_signed false (c :: r)
  | [] => S754_nan
  end.

Definition math_trunc (x : num) : num := if sign_bit x then math_ceil x else math_floor x.

Inductive ParameterInput := InputText (s : str) | InputNumber (n : num).

(** [String(step).split('.')[1]?.length ?? 0]. *)
Definition step_precision (step : num) : nat :=
  match split_char 46%N (string_of_num step) with _ :: decimals :: _ => length decimals | _ => 0 end.

Definition no_value (key : PlaygroundParameterKey) : option num := if bool_decide (key = KeySeed) then None else Some num_zero.

Definition normalizeParameterNumberValue (key : PlaygroundParameterKey) (value : ParameterInput) : option num :=
  match value with
  | InputText [] => no_value key
  | _ =>
      let parsed := match value with InputNumber n => n | InputText s => parseFloat s end in
      match List.find (fun c => bool_decide (control_key c = key)) PLAYGROUND_PARAMETER_CONTROLS with
      | None => no_value key
      | Some control =>
          if is_nan parsed then no_value key
          else
            let clamped := math_min (control_max control) (math_max (control_min control) parsed) in
            if num_leb (lit 1) (control_step control) then Some (math_trunc clamped)
            else Some (js_Number (to_fixed (step_precision (control_step control)) clamped))
      end
  end.

Definition getParameterControlValueText (key : PlaygroundParameterKey) (value : option num) : str :=
  match value with None => if bool_decide (key = KeySeed) then js "Not set" else js "null" | Some n => string_of_num n end.

(** ** Choosing settles *)

Definition after_effect (effect : str -> option str) (current : str) : str := default current (effect current).

(** Once the effect has run, the model is one of the list, or empty when there is
    none to choose, and running it again changes nothing. *)
Lemma model_choice_settles models current : Forall (fun m => model_value m <> []) models ->
  let model := after_effect (models_effect models) current in
  (model ∈ map model_value models \/ (models = [] /\ model = [])) /\ models_effect models model = None.
Proof.
  intros N. unfold after_effect, models_effect, getModelFallback.
  assert (forall model, existsb (fun m => str_eqb (model_value m) model) models = true -> model <> [] ->
    model ∈ map model_value models /\ shouldClearModelForGroup models model = false) as In_list.
  { intros model E M. split; [|unfold shouldClearModelForGroup; rewrite E; by destruct model].
    apply existsb_exists in E as (m & I & E). apply str_eqb_eq in E. subst. by apply list_elem_of_In, in_map. }
  destruct (existsb (fun m => str_eqb (model_value m) current) models) eqn:E.
  - assert (current <> []) as C.
    { apply existsb_exists in E as (m & I & E). apply str_eqb_eq in E. subst. rewrite List.Forall_forall in N. by apply N. }
    destruct (In_list current E C) as [I S]. rewrite S. cbn [default]. rewrite E, S. auto.
  - destruct models as [|m models]; cbn [head fmap option_fmap option_map].
    + destruct current; cbn; auto.
    + apply Forall_inv in N as M. destruct (model_value m) as [|c v] eqn:V; [done|]. cbn [default].
      assert (existsb (fun m => str_eqb (model_value m) (c :: v)) (m :: models) = true) as E' by (cbn; by rewrite V, str_eqb_refl).
      destruct (In_list (c :: v) E') as [I S]; [done|]. unfold id. rewrite E', S. auto.
Qed.

Example parameter_values :
  (normalizeParameterNumberValue KeyTemperature (InputText (js "0.449")), normalizeParameterNumberValue KeyTemperature (InputText (js "7")),
   normalizeParameterNumberValue KeyPresencePenalty (InputText (js "-3.5x")), normalizeParameterNumberValue KeyMaxTokens (InputText (js "12.9")),
   normalizeParameterNumberValue KeySeed (InputText (js "abc")), normalizeParameterNumberValue KeyMaxTokens (InputText [])) =
  (Some (num_of_decimal false 4 (-1)), Some (lit 1), Some (lit (-2)), Some (lit 12), None, Some num_zero).
Proof. vm_compute. reflexivity. Qed.
