(* ===== verification/ParamOverride.v ===== *)
(** * Parameter overrides of a channel

    Models [features/channels/components/dialogs/param-override-editor-dialog.tsx]:
    the operations and conditions of an override, how they are read from JSON of
    any shape, validated and written, and the state of the dialog with its
    handlers.

    [nextLocalId] numbers the identifiers by a counter of the module; the counter
    is passed along, and [clock n] is what [Date.now()] answers at its [n]-th
    call.  Only the letters of [AND], [OR] and [header] matter where a text is
    compared regardless of case, and no other character has one of them as its
    upper or lower case form. *)

From Stdlib Require Import ZArith Lia Bool SpecFloat.
From stdpp Require Import base list numbers.
From S2P Require Import Prelude JsString JsNumber JsObject JsValue JsJson JsJsonPrint JsDynamic JsHost JsCoerce PlaygroundMessages.

(** ** Data *)

Record ParamOverrideCondition := MkCondition {
  pc_id : str;
  pc_path : str;
  pc_mode : str;
  pc_value_text : str;
  pc_invert : bool;
  pc_pass_missing_key : bool
}.

Record ParamOverrideOperation := MkOperation {
  op_id : str;
  op_description : str;
  op_path : str;
  op_mode : str;
  op_from : str;
  op_to : str;
  op_value_text : str;
  op_keep_origin : bool;
  op_logic : str;
  op_conditions : list ParamOverrideCondition
}.

(** ** Modes *)

(** Values with their labels. *)
Definition OPERATION_MODE_OPTIONS : list (str * str) :=
  [(js "set", js "Set Field"); (js "delete", js "Delete Field"); (js "append", js "Append to End");
   (js "prepend", js "Prepend to Start"); (js "copy", js "Copy Field"); (js "move", js "Move Field");
   (js "replace", js "String Replace"); (js "regex_replace", js "Regex Replace"); (js "trim_prefix", js "Trim Prefix");
   (js "trim_suffix", js "Trim Suffix"); (js "ensure_prefix", js "Ensure Prefix"); (js "ensure_suffix", js "Ensure Suffix");
   (js "trim_space", js "Trim Space"); (js "to_lower", js "To Lowercase"); (js "to_upper", js "To Uppercase");
   (js "return_error", js "Return Custom Error"); (js "prune_objects", js "Prune Object Items");
   (js "pass_headers", js "Pass Through Headers"); (js "sync_fields", js "Sync Fields");
   (js "set_header", js "Set Request Header"); (js "delete_header", js "Delete Request Header");
   (js "copy_header", js "Copy Request Header"); (js "move_header", js "Move Request Header")].

Definition OPERATION_MODE_VALUES : list str := map fst OPERATION_MODE_OPTIONS.

Definition CONDITION_MODE_OPTIONS : list (str * str) :=
  [(js "full", js "Exact Match"); (js "prefix", js "Prefix"); (js "suffix", js "Suffix"); (js "contains", js "Contains");
   (js "gt", js "Greater Than"); (js "gte", js "Greater Than or Equal"); (js "lt", js "Less Than");
   (js "lte", js "Less Than or Equal")].

Definition CONDITION_MODE_VALUES : list str := map fst CONDITION_MODE_OPTIONS.

Record ModeMeta := MkMeta {
  meta_path : bool; meta_pathOptional : bool; meta_value : bool; meta_from : bool; meta_to : bool; meta_keepOrigin : bool;
  meta_pathAlias : bool
}.

Definition set_meta : ModeMeta := MkMeta true false true false false true false.

Definition MODE_META : list (str * ModeMeta) :=
  let only_path := MkMeta true false false false false false false in
  let copying := MkMeta false false false true true false false in
  let replacing := MkMeta true false false true false false false in
  let trimming := MkMeta true false true false false false false in
  let header_copying := MkMeta false false false true true true true in
  [(js "delete", only_path); (js "set", set_meta); (js "append", set_meta); (js "prepend", set_meta); (js "copy", copying);
   (js "move", copying); (js "replace", replacing); (js "regex_replace", replacing); (js "trim_prefix", trimming);
   (js "trim_suffix", trimming); (js "ensure_prefix", trimming); (js "ensure_suffix", trimming); (js "trim_space", only_path);
   (js "to_lower", only_path); (js "to_upper", only_path); (js "return_error", MkMeta false false true false false false false);
   (js "prune_objects", MkMeta false true true false false false false);
   (js "pass_headers", MkMeta false false true false false true false); (js "sync_fields", copying);
   (js "set_header", set_meta); (js "delete_header", only_path); (js "copy_header", header_copying);
   (js "move_header", header_copying)].

Definition mode_or_set (mode : str) : str := match mode with [] => js "set" | _ => mode end.
Definition meta_of (mode : str) : ModeMeta := default set_meta (assoc_str MODE_META mode).

Definition VALUE_REQUIRED_MODES : list str :=
  [js "trim_prefix"; js "trim_suffix"; js "ensure_prefix"; js "ensure_suffix"; js "set_header"; js "return_error";
   js "prune_objects"; js "pass_headers"].

Definition FROM_REQUIRED_MODES : list str :=
  [js "copy"; js "move"; js "replace"; js "regex_replace"; js "copy_header"; js "move_header"; js "sync_fields"].

Definition TO_REQUIRED_MODES : list str := [js "copy"; js "move"; js "copy_header"; js "move_header"; js "sync_fields"].

(** ** Values as text *)

Definition toValueText (v : jsval) : str :=
  match v with JUndefined => [] | JStr s => s | _ => default [] (json_print [] [] v) end.

Definition parseLooseValue (valueText : str) : jsval :=
  match trim valueText with
  | [] => JStr []
  | raw => match json_parse raw with Ok v => v | _ => JStr raw end
  end.

Definition verifyJSON (text : str) : bool := match json_parse text with Ok _ => true | _ => false end.

Definition text_or_empty (v : jsval) : str := match v with JStr s => s | _ => [] end.
Definition known_mode (values : list str) (v : jsval) (d : str) : str :=
  match v with JStr s => if includes_str values s then s else d | _ => d end.
Definition is_true (v : jsval) : bool := match v with JBool b => b | _ => false end.

(** ** Reading *)

Section Ids.
Variable clock : nat -> num.

Definition nextLocalId (seed : nat) : str := js "po_" ++ string_of_num (clock seed) ++ js "_" ++ string_of_nat seed.

Definition normalizeOverrideCondition (condition : jsval) (seed : nat) : outcome JsError (ParamOverrideCondition * nat) :=
  let* path := value_prop condition (js "path") in
  let field k := get_field condition k in
  Ok (MkCondition (nextLocalId seed) (text_or_empty path) (known_mode CONDITION_MODE_VALUES (field (js "mode")) (js "full"))
        (toValueText (field (js "value"))) (is_true (field (js "invert"))) (is_true (field (js "pass_missing_key"))), S seed).

(** [list.map(f)] with a function that draws identifiers and may throw. *)
Fixpoint map_fresh {A} (f : jsval -> nat -> outcome JsError (A * nat)) (l : list jsval) (seed : nat)
    : outcome JsError (list A * nat) :=
  match l with
  | [] => Ok ([], seed)
  | v :: l => let* (a, seed) := f v seed in let* (r, seed) := map_fresh f l seed in Ok (a :: r, seed)
  end.

Definition normalizeOperation (operation : jsval) (seed : nat) : outcome JsError (ParamOverrideOperation * nat) :=
  let* description := value_prop operation (js "description") in
  let field k := get_field operation k in
  let* logic := js_String (value_or (field (js "logic")) (JStr (js "OR"))) in
  let* (conditions, seed') :=
    match field (js "conditions") with JArr items => map_fresh normalizeOverrideCondition items (S seed) | _ => Ok ([], S seed) end in
  Ok (MkOperation (nextLocalId seed) (text_or_empty description) (text_or_empty (field (js "path")))
        (known_mode OPERATION_MODE_VALUES (field (js "mode")) (js "set")) (text_or_empty (field (js "from")))
        (text_or_empty (field (js "to"))) (toValueText (field (js "value"))) (is_true (field (js "keep_origin")))
        (if upper_is logic (js "AND") then js "AND" else js "OR") conditions, seed').

Definition createDefaultCondition (seed : nat) : ParamOverrideCondition := MkCondition (nextLocalId seed) [] (js "full") [] false false.

Definition createDefaultOperation (seed : nat) : ParamOverrideOperation :=
  MkOperation (nextLocalId seed) [] [] (js "set") [] [] [] false (js "OR") [].

(** ** Lists of operations *)

Definition has_op_id (id : str) (o : ParamOverrideOperation) : bool := str_eqb (op_id o) id.

Inductive DropPosition := DropBefore | DropAfter.

Definition reorderOperations (ops : list ParamOverrideOperation) (sourceId targetId : str) (position : DropPosition)
    : list ParamOverrideOperation :=
  if negb (non_empty sourceId) || negb (non_empty targetId) || str_eqb sourceId targetId then ops
  else
    match find_position (has_op_id sourceId) ops with
    | None => ops
    | Some (srcIdx, moved) =>
        let next := delete srcIdx ops in
        match find_position (has_op_id targetId) next with
        | None => ops
        | Some (idx, _) =>
            let insertIdx := match position with DropAfter => idx + 1 | DropBefore => idx end in
            take insertIdx next ++ moved :: drop insertIdx next
        end
    end.

Definition condition_filled (c : ParamOverrideCondition) : bool :=
  non_empty (trim (pc_path c)) || non_empty (trim (pc_value_text c)) || negb (str_eqb (pc_mode c) (js "full")) ||
  pc_invert c || pc_pass_missing_key c.

Definition isOperationBlank (o : ParamOverrideOperation) : bool :=
  str_eqb (op_mode o) (js "set") && negb (non_empty (trim (op_path o))) && negb (non_empty (trim (op_from o))) &&
  negb (non_empty (trim (op_to o))) && negb (non_empty (trim (op_value_text o))) && negb (op_keep_origin o) &&
  negb (existsb condition_filled (op_conditions o)).

Definition getOperationSummary (o : ParamOverrideOperation) (index : nat) : str :=
  let mode := mode_or_set (op_mode o) in
  let label := match assoc_str OPERATION_MODE_OPTIONS mode with Some (c :: l) => c :: l | _ => mode end in
  let path := trim (op_path o) in
  let from := trim (op_from o) in
  let to := trim (op_to o) in
  string_of_nat (index + 1) ++ js ". " ++ label ++ [32; 183; 32]%N ++
  (if str_eqb mode (js "sync_fields") then first_text [Some from; Some to; Some (js "-")]
   else first_text [Some path; Some from; Some to; Some (js "-")]).

Definition one_of (mode : str) (modes : list str) : bool := includes_str modes mode.

Definition getModePathLabel (mode : str) : str :=
  if one_of mode [js "set_header"; js "delete_header"] then js "Header Name"
  else if str_eqb mode (js "prune_objects") then js "Target Path (optional)" else js "Target Field Path".

Definition getModeFromLabel (mode : str) : str :=
  if str_eqb mode (js "replace") then js "Match Text" else if str_eqb mode (js "regex_replace") then js "Regex Pattern"
  else if one_of mode [js "copy_header"; js "move_header"] then js "Source Header" else js "Source Field".

Definition getModeToLabel (mode : str) : str :=
  if one_of mode [js "replace"; js "regex_replace"] then js "Replace With"
  else if one_of mode [js "copy_header"; js "move_header"] then js "Target Header" else js "Target Field".

(** ** Synchronised fields *)

(** The texts around the first colon. *)
Fixpoint cut_colon (s : str) : option (str * str) :=
  match s with
  | [] => None
  | c :: s => if (c =? 58)%N then Some ([], s) else match cut_colon s with Some (a, b) => Some (c :: a, b) | None => None end
  end.

Inductive SyncTarget := JsonTarget (key : str) | HeaderTarget (key : str).

Definition parseSyncTargetSpec (spec : str) : SyncTarget :=
  match trim spec with
  | [] => JsonTarget []
  | raw =>
      match cut_colon raw with
      | None => JsonTarget raw
      | Some (before, after) =>
          let key := trim after in if lower_is (trim before) (js "header") then HeaderTarget key else JsonTarget key
      end
  end.

Definition buildSyncTargetSpec (target : SyncTarget) : str :=
  let '(prefix, key) := match target with JsonTarget k => (js "json:", trim k) | HeaderTarget k => (js "header:", trim k) end in
  match key with [] => [] | _ => prefix ++ key end.
End Ids.

(** ** Errors to return *)

Record ReturnErrorDraft := MkReturnError {
  re_message : str; re_statusCode : num; re_code : str; re_type : str; re_skipRetry : bool; re_simpleMode : bool
}.

Definition return_error_defaults : ReturnErrorDraft := MkReturnError [] (lit 400) [] [] true true.

Definition valid_status (n : num) : bool := is_integer n && num_leb (lit 100) n && num_leb n (lit 599).

(** [String(v || '').trim()] *)
Definition trimmed_text (v : jsval) : outcome JsError str := let* s := js_String (value_or v (JStr [])) in Ok (trim s).

Definition return_error_of (parsed : jsval) : outcome JsError ReturnErrorDraft :=
  let field k := get_field parsed k in
  let* status :=
    value_Number (match field (js "status_code") with JUndefined => field (js "status") | v => v end) in
  let* message := trimmed_text (value_or (field (js "message")) (field (js "msg"))) in
  let* code := trimmed_text (field (js "code")) in
  let* type := trimmed_text (field (js "type")) in
  Ok (MkReturnError message (if valid_status status then status else lit 400) code type
        (match field (js "skip_retry") with JBool false => false | _ => true end) false).

(** What [JSON.parse] or a conversion throws is caught: the text is the message. *)
Definition parseReturnErrorDraft (valueText : str) : ReturnErrorDraft :=
  match trim valueText with
  | [] => return_error_defaults
  | raw =>
      let plain := MkReturnError raw (lit 400) [] [] true true in
      match json_parse raw with
      | Ok parsed => if is_record parsed then match return_error_of parsed with Ok draft => draft | _ => plain end else plain
      | _ => plain
      end
  end.

(** An entry of an object that is left out when the test fails. *)
Definition entry_if (b : bool) (k : str) (v : jsval) : list (str * jsval) := if b then [(k, v)] else [].

Definition buildReturnErrorValueText (draft : ReturnErrorDraft) : str :=
  let message := trim (re_message draft) in
  if re_simpleMode draft then message
  else
    let code := trim (re_code draft) in
    let type := trim (re_type draft) in
    print_compact (JObj (
      [(js "message", JStr message);
       (js "status_code", JNum (if valid_status (re_statusCode draft) then re_statusCode draft else lit 400))] ++
      entry_if (non_empty code) (js "code") (JStr code) ++ entry_if (non_empty type) (js "type") (JStr type) ++
      entry_if (negb (re_skipRetry draft)) (js "skip_retry") (JBool false))).

(** ** Objects to prune *)

Record PruneObjectsDraft := MkPrune {
  pr_simpleMode : bool; pr_typeText : str; pr_logic : str; pr_recursive : bool; pr_rules : list ParamOverrideCondition
}.

Definition prune_defaults (typeText : str) : PruneObjectsDraft := MkPrune true typeText (js "AND") true [].

Section Prune.
Variable clock : nat -> num.

(** The same fields as a condition. *)
Definition normalizePruneRule (rule : jsval) (seed : nat) : ParamOverrideCondition :=
  let field k := get_field rule k in
  MkCondition (nextLocalId clock seed) (text_or_empty (field (js "path")))
    (known_mode CONDITION_MODE_VALUES (field (js "mode")) (js "full")) (toValueText (field (js "value")))
    (is_true (field (js "invert"))) (is_true (field (js "pass_missing_key"))).

Fixpoint prune_rules (rules : list jsval) (seed : nat) : list ParamOverrideCondition :=
  match rules with [] => [] | r :: rules => normalizePruneRule r seed :: prune_rules rules (S seed) end.

(** [{ path, mode: 'full', value }] *)
Definition full_rule (e : str * jsval) : jsval :=
  JObj [(js "path", JStr e.1); (js "mode", JStr (js "full")); (js "value", e.2)].

(** The rules of an object, in the order they are pushed. *)
Definition rules_listed (parsed : jsval) : list jsval :=
  match get_field parsed (js "where") with JObj fields => map full_rule fields | _ => [] end ++
  match get_field parsed (js "conditions") with
  | JArr items => List.filter (fun v => is_object v && negb (is_null v)) items
  | JObj fields => map full_rule fields
  | _ => []
  end.

Definition defined_field (v : jsval) (k : str) : bool := match get_field v k with JUndefined => false | _ => true end.

Definition prune_of (parsed : jsval) (rules : list ParamOverrideCondition) : outcome JsError PruneObjectsDraft :=
  let* typeText :=
    match get_field parsed (js "type") with JUndefined => Ok [] | v => let* s := js_String v in Ok (trim s) end in
  let* logic := js_String (value_or (get_field parsed (js "logic")) (JStr (js "AND"))) in
  let advanced := defined_field parsed (js "logic") || defined_field parsed (js "recursive") ||
                  defined_field parsed (js "where") || defined_field parsed (js "conditions") in
  Ok (MkPrune (negb advanced) typeText (if upper_is logic (js "OR") then js "OR" else js "AND")
        (match get_field parsed (js "recursive") with JBool false => false | _ => true end) rules).

(** The draft and the counter of the identifiers afterwards. *)
Definition parsePruneObjectsDraft (valueText : str) (seed : nat) : PruneObjectsDraft * nat :=
  match trim valueText with
  | [] => (prune_defaults [], seed)
  | raw =>
      match json_parse raw with
      | Ok (JStr s) => (prune_defaults (trim s), seed)
      | Ok (JObj fields) =>
          let rules := rules_listed (JObj fields) in
          (match prune_of (JObj fields) (prune_rules rules seed) with Ok draft => draft | _ => prune_defaults raw end,
           seed + length rules)
      | Ok JNull => (prune_defaults [], seed)
      | Ok parsed => (prune_defaults (match js_String parsed with Ok s => trim s | _ => raw end), seed)
      | _ => (prune_defaults raw, seed)
      end
  end.
End Prune.

Definition prune_condition (rule : ParamOverrideCondition) : jsval :=
  let valueRaw := trim (pc_value_text rule) in
  JObj ([(js "path", JStr (trim (pc_path rule)));
         (js "mode", JStr (if includes_str CONDITION_MODE_VALUES (pc_mode rule) then pc_mode rule else js "full"))] ++
        entry_if (non_empty valueRaw) (js "value") (parseLooseValue valueRaw) ++
        entry_if (pc_invert rule) (js "invert") (JBool true) ++
        entry_if (pc_pass_missing_key rule) (js "pass_missing_key") (JBool true)).

Definition buildPruneObjectsValueText (draft : PruneObjectsDraft) : str :=
  let typeText := trim (pr_typeText draft) in
  if pr_simpleMode draft then typeText
  else
    let conditions := map prune_condition (List.filter (fun r => non_empty (trim (pc_path r))) (pr_rules draft)) in
    let some := match conditions with [] => false | _ => true end in
    if negb (non_empty typeText) && negb some then print_compact (JObj [(js "logic", JStr (js "AND"))])
    else
      print_compact (JObj (
        entry_if (non_empty typeText) (js "type") (JStr typeText) ++
        entry_if (upper_is (match pr_logic draft with [] => js "AND" | l => l end) (js "OR")) (js "logic") (JStr (js "OR")) ++
        entry_if (negb (pr_recursive draft)) (js "recursive") (JBool false) ++
        entry_if some (js "conditions") (JArr conditions))).

(** ** Headers to pass *)

(** [values.map((i) => String(i ?? '').trim()).filter(Boolean)] *)
Fixpoint trimmed_names (values : list jsval) : outcome JsError (list str) :=
  match values with
  | [] => Ok []
  | v :: values =>
      let* s := js_String (if is_nullish v then JStr [] else v) in
      let* names := trimmed_names values in
      Ok (if non_empty (trim s) then trim s :: names else names)
  end.

Definition parsePassHeaderNames (rawValue : jsval) : outcome JsError (list str) :=
  match rawValue with
  | JArr items => trimmed_names items
  | JObj _ =>
      match get_field rawValue (js "headers") with
      | JArr items => trimmed_names items
      | _ => match get_field rawValue (js "header") with JUndefined => Ok [] | v => trimmed_names [v] end
      end
  | JStr s => Ok (List.filter non_empty (map trim (split_char 44%N s)))
  | _ => Ok []
  end.

(** ** Validation *)

Inductive OverrideProblem :=
| MissingTargetPath | MissingSourceField | MissingTargetField | MissingValue | MissingErrorMessage | MissingPruneConditions
| MissingHeaderNames | InvalidHeaderFormat.

Definition blank (s : str) : bool := negb (non_empty (trim s)).

(** [None]: the operation is valid. *)
Definition return_error_problem (valueText : str) : option OverrideProblem :=
  match trim valueText with
  | [] => Some MissingValue
  | raw =>
      match json_parse raw with
      | Ok parsed =>
          if is_record parsed then
            match trimmed_text (get_field parsed (js "message")) with Ok [] => Some MissingErrorMessage | _ => None end
          else None
      | _ => None
      end
  end.

Definition pass_headers_problem (valueText : str) : outcome JsError (option OverrideProblem) :=
  match trim valueText with
  | [] => Ok (Some MissingHeaderNames)
  | raw => let* headers := parsePassHeaderNames (parseLooseValue raw) in
           Ok (match headers with [] => Some InvalidHeaderFormat | _ => None end)
  end.

Definition operation_problem (o : ParamOverrideOperation) : outcome JsError (option OverrideProblem) :=
  let mode := mode_or_set (op_mode o) in
  let meta := meta_of mode in
  let aliased := meta_pathAlias meta && negb (blank (op_path o)) in
  if meta_path meta && blank (op_path o) then Ok (Some MissingTargetPath)
  else if includes_str FROM_REQUIRED_MODES mode && blank (op_from o) && negb aliased then Ok (Some MissingSourceField)
  else if includes_str TO_REQUIRED_MODES mode && blank (op_to o) && negb aliased then Ok (Some MissingTargetField)
  else if includes_str VALUE_REQUIRED_MODES mode && blank (op_value_text o) then Ok (Some MissingValue)
  else if str_eqb mode (js "return_error") then Ok (return_error_problem (op_value_text o))
  else if str_eqb mode (js "prune_objects") then Ok (if blank (op_value_text o) then Some MissingPruneConditions else None)
  else if str_eqb mode (js "pass_headers") then pass_headers_problem (op_value_text o)
  else Ok None.

(** The first problem with its line. *)
Fixpoint validate_from (line : nat) (operations : list ParamOverrideOperation) : outcome JsError (option (OverrideProblem * nat)) :=
  match operations with
  | [] => Ok None
  | o :: operations =>
      let* problem := operation_problem o in
      match problem with Some p => Ok (Some (p, line)) | None => validate_from (S line) operations end
  end.

Definition validateOperations : list ParamOverrideOperation -> outcome JsError (option (OverrideProblem * nat)) := validate_from 1.

(** ** Writing *)

Definition buildConditionPayload (c : ParamOverrideCondition) : option jsval :=
  match trim (pc_path c) with
  | [] => None
  | path =>
      Some (JObj ([(js "path", JStr path); (js "mode", JStr (match pc_mode c with [] => js "full" | m => m end));
                   (js "value", parseLooseValue (pc_value_text c))] ++
                  entry_if (pc_invert c) (js "invert") (JBool true) ++
                  entry_if (pc_pass_missing_key c) (js "pass_missing_key") (JBool true)))
  end.

Definition put_if (b : bool) (k : str) (v : jsval) (payload : list (str * jsval)) : list (str * jsval) :=
  if b then obj_put payload k v else payload.

Definition falsy_field (payload : list (str * jsval)) (k : str) : bool := negb (value_truthy (get_field (JObj payload) k)).

Definition operation_payload (o : ParamOverrideOperation) : list (str * jsval) :=
  let mode := mode_or_set (op_mode o) in
  let meta := meta_of mode in
  let description := trim (op_description o) in
  let pathValue := trim (op_path o) in
  let fromValue := trim (op_from o) in
  let toValue := trim (op_to o) in
  let p := [(js "mode", JStr mode)] in
  let p := put_if (non_empty description) (js "description") (JStr description) p in
  let p := put_if (meta_path meta) (js "path") (JStr pathValue) p in
  let p := put_if (meta_pathOptional meta && non_empty pathValue) (js "path") (JStr pathValue) p in
  let p := put_if (meta_value meta) (js "value") (parseLooseValue (op_value_text o)) p in
  let p := put_if (meta_keepOrigin meta && op_keep_origin o) (js "keep_origin") (JBool true) p in
  let p := put_if (meta_from meta) (js "from") (JStr fromValue) p in
  let p := put_if (negb (meta_to meta) && non_empty toValue) (js "to") (JStr toValue) p in
  let p := put_if (meta_to meta) (js "to") (JStr toValue) p in
  let p := put_if (meta_pathAlias meta && (falsy_field p (js "from") && non_empty pathValue)) (js "from") (JStr pathValue) p in
  let p := put_if (meta_pathAlias meta && (falsy_field p (js "to") && non_empty pathValue)) (js "to") (JStr pathValue) p in
  match omap buildConditionPayload (op_conditions o) with
  | [] => p
  | conditions =>
      obj_put (obj_put p (js "conditions") (JArr conditions)) (js "logic")
        (JStr (if str_eqb (op_logic o) (js "AND") then js "AND" else js "OR"))
  end.

Definition override_value (ops : list ParamOverrideOperation) : jsval :=
  JObj [(js "operations", JArr (map (fun o => JObj (operation_payload o)) ops))].

(** What [new Error(message)] or a conversion throws. *)
Inductive OverrideFailure := InvalidOperation (problem : OverrideProblem) (line : nat) | Crashed (e : JsError)
| NotJson | NotAnObject.

Definition buildOperationsJson (sourceOperations : list ParamOverrideOperation) (validate : bool) : outcome OverrideFailure str :=
  match List.filter (fun o => negb (isOperationBlank o)) sourceOperations with
  | [] => Ok []
  | filteredOps =>
      match (if validate then validateOperations filteredOps else Ok None) with
      | Ok None => Ok (print_pretty (override_value filteredOps))
      | Ok (Some (problem, line)) => Throw (InvalidOperation problem line)
      | Throw e => Throw (Crashed e)
      | OutOfFuel => OutOfFuel
      end
  end.

(** ** The state a text opens with *)

Inductive EditMode := EditVisual | EditJson.
Inductive VisualMode := VisualOperations | VisualLegacy.
Inductive JsonProblem := InvalidJsonFormat | JsonFormatError | BuildError (e : OverrideFailure).

Record EditorState := MkEditor {
  es_editMode : EditMode; es_visualMode : VisualMode; es_legacyValue : str; es_operations : list ParamOverrideOperation;
  es_jsonText : str; es_jsonError : option JsonProblem
}.

(** The operations of a parsed override, [None] if it has no list of them. *)
Definition listed_operations (parsed : jsval) : option (list jsval) :=
  match parsed with
  | JObj _ => match get_field parsed (js "operations") with JArr items => Some items | _ => None end
  | _ => None
  end.

Section State.
Variable clock : nat -> num.

Definition read_operations (items : list jsval) (seed : nat) : outcome JsError (list ParamOverrideOperation * nat) :=
  match items with
  | [] => Ok ([createDefaultOperation clock seed], S seed)
  | _ => map_fresh (normalizeOperation clock) items seed
  end.

Definition parseInitialState (text : str) (seed : nat) : outcome JsError (EditorState * nat) :=
  let default_op := [createDefaultOperation clock seed] in
  match trim text with
  | [] => Ok (MkEditor EditVisual VisualOperations [] default_op [] None, S seed)
  | trimmed =>
      match json_parse trimmed with
      | Ok parsed =>
          let pretty := print_pretty parsed in
          match listed_operations parsed with
          | Some items =>
              let* (ops, seed) := read_operations items seed in
              Ok (MkEditor EditVisual VisualOperations [] ops pretty None, seed)
          | None =>
              if is_record parsed then Ok (MkEditor EditVisual VisualLegacy pretty default_op pretty None, S seed)
              else Ok (MkEditor EditJson VisualOperations [] default_op pretty None, S seed)
          end
      | _ => Ok (MkEditor EditJson VisualOperations [] default_op text (Some InvalidJsonFormat), S seed)
      end
  end.
End State.

(** ** Templates *)

Definition operations_template (ops : list jsval) : jsval := JObj [(js "operations", JArr ops)].

Definition LEGACY_TEMPLATE : jsval := JObj [(js "temperature", JNum num_zero); (js "max_tokens", JNum (lit 1000))].

Definition template_condition (path mode value : str) : jsval :=
  JObj [(js "path", JStr path); (js "mode", JStr mode); (js "value", JStr value)].

Definition OPERATION_TEMPLATE : jsval :=
  operations_template [JObj
    [(js "description", JStr (js "Set default temperature for openai/* models.")); (js "path", JStr (js "temperature"));
     (js "mode", JStr (js "set")); (js "value", JNum (num_of_decimal false 7 (-1)));
     (js "conditions", JArr [template_condition (js "model") (js "prefix") (js "openai/")]); (js "logic", JStr (js "AND"))]].

Definition HEADER_PASSTHROUGH_TEMPLATE : jsval :=
  operations_template [JObj
    [(js "description", JStr (js "Pass through X-Request-Id header to upstream.")); (js "mode", JStr (js "pass_headers"));
     (js "value", JArr [JStr (js "X-Request-Id")]); (js "keep_origin", JBool true)]].

Definition GEMINI_IMAGE_4K_TEMPLATE : jsval :=
  operations_template [JObj
    [(js "description", JStr (js "Set imageSize to 4K when model contains gemini/image and ends with 4k."));
     (js "mode", JStr (js "set")); (js "path", JStr (js "generationConfig.imageConfig.imageSize")); (js "value", JStr (js "4K"));
     (js "conditions", JArr [template_condition (js "original_model") (js "contains") (js "gemini");
                             template_condition (js "original_model") (js "contains") (js "image");
                             template_condition (js "original_model") (js "suffix") (js "4k")]);
     (js "logic", JStr (js "AND"))]].

Definition CODEX_CLI_HEADER_PASSTHROUGH_HEADERS : list str :=
  [js "Originator"; js "Session_id"; js "Thread_id"; js "Session-Id"; js "Thread-Id"; js "X-Client-Request-Id"; js "User-Agent";
   js "X-Codex-Beta-Features"; js "X-Codex-Turn-State"; js "X-Codex-Turn-Metadata"; js "X-Codex-Window-Id";
   js "X-Codex-Parent-Thread-Id"; js "X-OpenAI-Subagent"; js "X-OpenAI-Memgen-Request";
   js "X-ResponsesAPI-Include-Timing-Metrics"; js "X-OpenAI-Internal-Codex-Responses-Lite"].

Definition CLAUDE_CLI_HEADER_PASSTHROUGH_HEADERS : list str :=
  [js "X-Stainless-Arch"; js "X-Stainless-Lang"; js "X-Stainless-Os"; js "X-Stainless-Package-Version";
   js "X-Stainless-Retry-Count"; js "X-Stainless-Runtime"; js "X-Stainless-Runtime-Version"; js "X-Stainless-Timeout";
   js "User-Agent"; js "X-App"; js "Anthropic-Beta"; js "Anthropic-Dangerous-Direct-Browser-Access"; js "Anthropic-Version"].

Definition buildPassHeadersTemplate (headers : list str) : jsval :=
  operations_template [JObj
    [(js "mode", JStr (js "pass_headers")); (js "value", JArr (map JStr headers)); (js "keep_origin", JBool true)]].

Definition CODEX_CLI_HEADER_PASSTHROUGH_TEMPLATE : jsval := buildPassHeadersTemplate CODEX_CLI_HEADER_PASSTHROUGH_HEADERS.
Definition CLAUDE_CLI_HEADER_PASSTHROUGH_TEMPLATE : jsval := buildPassHeadersTemplate CLAUDE_CLI_HEADER_PASSTHROUGH_HEADERS.

Definition AWS_BEDROCK_ANTHROPIC_COMPAT_TEMPLATE : jsval :=
  let kept k := (k, JStr k) in
  let dropped k := (k, JNull) in
  operations_template
    [JObj [(js "description", JStr (js "Normalize anthropic-beta header tokens for Bedrock compatibility."));
           (js "mode", JStr (js "set_header")); (js "path", JStr (js "anthropic-beta"));
           (js "value", JObj
              [(js "advanced-tool-use-2025-11-20", JStr (js "tool-search-tool-2025-10-19")); dropped (js "bash_20241022");
               dropped (js "bash_20250124"); dropped (js "code-execution-2025-08-25"); kept (js "compact-2026-01-12");
               kept (js "computer-use-2025-01-24"); kept (js "computer-use-2025-11-24"); kept (js "context-1m-2025-08-07");
               kept (js "context-management-2025-06-27"); dropped (js "effort-2025-11-24"); dropped (js "fast-mode-2026-02-01");
               dropped (js "files-api-2025-04-14"); dropped (js "fine-grained-tool-streaming-2025-05-14");
               kept (js "interleaved-thinking-2025-05-14"); dropped (js "mcp-client-2025-11-20");
               dropped (js "mcp-client-2025-04-04"); dropped (js "mcp-servers-2025-12-04"); dropped (js "output-128k-2025-02-19");
               dropped (js "structured-output-2024-03-01"); dropped (js "prompt-caching-scope-2026-01-05");
               dropped (js "skills-2025-10-02"); dropped (js "structured-outputs-2025-11-13");
               dropped (js "text_editor_20241022"); dropped (js "text_editor_20250124");
               dropped (js "token-efficient-tools-2025-02-19"); kept (js "tool-search-tool-2025-10-19");
               dropped (js "web-fetch-2025-09-10"); dropped (js "web-search-2025-03-05"); dropped (js "oauth-2025-04-20")])];
     JObj [(js "description", JStr (js "Remove all tools[*].custom.input_examples before upstream relay."));
           (js "mode", JStr (js "delete")); (js "path", JStr (js "tools.*.custom.input_examples"))]].

Inductive TemplateKind := OperationsTemplate | LegacyTemplate.

Definition TEMPLATE_PRESET_CONFIG : list (str * (TemplateKind * jsval)) :=
  [(js "operations_default", (OperationsTemplate, OPERATION_TEMPLATE)); (js "legacy_default", (LegacyTemplate, LEGACY_TEMPLATE));
   (js "pass_headers_auth", (OperationsTemplate, HEADER_PASSTHROUGH_TEMPLATE));
   (js "gemini_image_4k", (OperationsTemplate, GEMINI_IMAGE_4K_TEMPLATE));
   (js "claude_cli_headers_passthrough", (OperationsTemplate, CLAUDE_CLI_HEADER_PASSTHROUGH_TEMPLATE));
   (js "codex_cli_headers_passthrough", (OperationsTemplate, CODEX_CLI_HEADER_PASSTHROUGH_TEMPLATE));
   (js "aws_bedrock_anthropic_beta_override", (OperationsTemplate, AWS_BEDROCK_ANTHROPIC_COMPAT_TEMPLATE))].

(** ** The dialog *)

(** [dg_saved]: the arguments of [onSave], the last one first. *)
Record Dialog := MkDialog {
  dg_editMode : EditMode;
  dg_visualMode : VisualMode;
  dg_legacyValue : str;
  dg_operations : list ParamOverrideOperation;
  dg_jsonText : str;
  dg_jsonError : option JsonProblem;
  dg_selected : str;
  dg_templateKey : str;
  dg_seed : nat;
  dg_saved : list str
}.

Definition with_operations (ops : list ParamOverrideOperation) (d : Dialog) : Dialog :=
  MkDialog (dg_editMode d) (dg_visualMode d) (dg_legacyValue d) ops (dg_jsonText d) (dg_jsonError d) (dg_selected d)
    (dg_templateKey d) (dg_seed d) (dg_saved d).
Definition with_selected (id : str) (d : Dialog) : Dialog :=
  MkDialog (dg_editMode d) (dg_visualMode d) (dg_legacyValue d) (dg_operations d) (dg_jsonText d) (dg_jsonError d) id
    (dg_templateKey d) (dg_seed d) (dg_saved d).
Definition with_seed (seed : nat) (d : Dialog) : Dialog :=
  MkDialog (dg_editMode d) (dg_visualMode d) (dg_legacyValue d) (dg_operations d) (dg_jsonText d) (dg_jsonError d) (dg_selected d)
    (dg_templateKey d) seed (dg_saved d).
Definition with_template (key : str) (d : Dialog) : Dialog :=
  MkDialog (dg_editMode d) (dg_visualMode d) (dg_legacyValue d) (dg_operations d) (dg_jsonText d) (dg_jsonError d) (dg_selected d)
    key (dg_seed d) (dg_saved d).
Definition with_modes (edit : EditMode) (visual : VisualMode) (d : Dialog) : Dialog :=
  MkDialog edit visual (dg_legacyValue d) (dg_operations d) (dg_jsonText d) (dg_jsonError d) (dg_selected d) (dg_templateKey d)
    (dg_seed d) (dg_saved d).
Definition with_texts (legacy json : str) (problem : option JsonProblem) (d : Dialog) : Dialog :=
  MkDialog (dg_editMode d) (dg_visualMode d) legacy (dg_operations d) json problem (dg_selected d) (dg_templateKey d) (dg_seed d)
    (dg_saved d).
Definition with_saved (result : str) (d : Dialog) : Dialog :=
  MkDialog (dg_editMode d) (dg_visualMode d) (dg_legacyValue d) (dg_operations d) (dg_jsonText d) (dg_jsonError d) (dg_selected d)
    (dg_templateKey d) (dg_seed d) (result :: dg_saved d).

Definition first_id (ops : list ParamOverrideOperation) : str := match ops with o :: _ => op_id o | [] => [] end.

Definition on_op (id : str) (f : ParamOverrideOperation -> ParamOverrideOperation) (ops : list ParamOverrideOperation)
    : list ParamOverrideOperation :=
  map (fun o => if has_op_id id o then f o else o) ops.

Definition with_op_conditions (cs : list ParamOverrideCondition) (o : ParamOverrideOperation) : ParamOverrideOperation :=
  MkOperation (op_id o) (op_description o) (op_path o) (op_mode o) (op_from o) (op_to o) (op_value_text o) (op_keep_origin o)
    (op_logic o) cs.
Definition with_value_text (v : str) (o : ParamOverrideOperation) : ParamOverrideOperation :=
  MkOperation (op_id o) (op_description o) (op_path o) (op_mode o) (op_from o) (op_to o) v (op_keep_origin o) (op_logic o)
    (op_conditions o).

(** The patches the editors send. *)
Inductive OperationPatch :=
| PatchMode (s : str) | PatchDescription (s : str) | PatchPath (s : str) | PatchFrom (s : str) | PatchTo (s : str)
| PatchEndpoints (from to : str) | PatchValue (s : str) | PatchKeepOrigin (b : bool) | PatchLogic (s : str).

Definition patch_operation (p : OperationPatch) (o : ParamOverrideOperation) : ParamOverrideOperation :=
  let mk d path mode from to value keep logic := MkOperation (op_id o) d path mode from to value keep logic (op_conditions o) in
  match p with
  | PatchMode s => mk (op_description o) (op_path o) s (op_from o) (op_to o) (op_value_text o) (op_keep_origin o) (op_logic o)
  | PatchDescription s => mk s (op_path o) (op_mode o) (op_from o) (op_to o) (op_value_text o) (op_keep_origin o) (op_logic o)
  | PatchPath s => mk (op_description o) s (op_mode o) (op_from o) (op_to o) (op_value_text o) (op_keep_origin o) (op_logic o)
  | PatchFrom s => mk (op_description o) (op_path o) (op_mode o) s (op_to o) (op_value_text o) (op_keep_origin o) (op_logic o)
  | PatchTo s => mk (op_description o) (op_path o) (op_mode o) (op_from o) s (op_value_text o) (op_keep_origin o) (op_logic o)
  | PatchEndpoints f t => mk (op_description o) (op_path o) (op_mode o) f t (op_value_text o) (op_keep_origin o) (op_logic o)
  | PatchValue s => mk (op_description o) (op_path o) (op_mode o) (op_from o) (op_to o) s (op_keep_origin o) (op_logic o)
  | PatchKeepOrigin b => mk (op_description o) (op_path o) (op_mode o) (op_from o) (op_to o) (op_value_text o) b (op_logic o)
  | PatchLogic s => mk (op_description o) (op_path o) (op_mode o) (op_from o) (op_to o) (op_value_text o) (op_keep_origin o) s
  end.

Inductive ConditionPatch :=
| CondPath (s : str) | CondMode (s : str) | CondValue (s : str) | CondInvert (b : bool) | CondPassMissing (b : bool).

Definition patch_condition (p : ConditionPatch) (c : ParamOverrideCondition) : ParamOverrideCondition :=
  match p with
  | CondPath s => MkCondition (pc_id c) s (pc_mode c) (pc_value_text c) (pc_invert c) (pc_pass_missing_key c)
  | CondMode s => MkCondition (pc_id c) (pc_path c) s (pc_value_text c) (pc_invert c) (pc_pass_missing_key c)
  | CondValue s => MkCondition (pc_id c) (pc_path c) (pc_mode c) s (pc_invert c) (pc_pass_missing_key c)
  | CondInvert b => MkCondition (pc_id c) (pc_path c) (pc_mode c) (pc_value_text c) b (pc_pass_missing_key c)
  | CondPassMissing b => MkCondition (pc_id c) (pc_path c) (pc_mode c) (pc_value_text c) (pc_invert c) b
  end.

Definition on_condition (id : str) (f : ParamOverrideCondition -> ParamOverrideCondition) (cs : list ParamOverrideCondition)
    : list ParamOverrideCondition :=
  map (fun c => if str_eqb (pc_id c) id then f c else c) cs.

Definition updateOperation (id : str) (patch : OperationPatch) (d : Dialog) : Dialog :=
  with_operations (on_op id (patch_operation patch) (dg_operations d)) d.

Definition updateCondition (id cid : str) (patch : ConditionPatch) (d : Dialog) : Dialog :=
  with_operations (on_op id (fun o => with_op_conditions (on_condition cid (patch_condition patch) (op_conditions o)) o)
                     (dg_operations d)) d.

Definition removeCondition (id cid : str) (d : Dialog) : Dialog :=
  with_operations (on_op id (fun o => with_op_conditions (List.filter (fun c => negb (str_eqb (pc_id c) cid)) (op_conditions o)) o)
                     (dg_operations d)) d.

Definition updateReturnErrorDraft (id : str) (change : ReturnErrorDraft -> ReturnErrorDraft) (d : Dialog) : Dialog :=
  with_operations (on_op id (fun o => with_value_text (buildReturnErrorValueText (change (parseReturnErrorDraft (op_value_text o)))) o)
                     (dg_operations d)) d.

Section Dialog.
Variable clock : nat -> num.

(** The effect that runs when the dialog is opened; [Throw]: it throws. *)
Definition open_dialog (value : str) (seed : nat) (saved : list str) : outcome JsError Dialog :=
  let* (state, seed) := parseInitialState clock value seed in
  Ok (MkDialog (es_editMode state) (es_visualMode state) (es_legacyValue state) (es_operations state) (es_jsonText state)
        (es_jsonError state) (first_id (es_operations state))
        (match es_visualMode state with VisualLegacy => js "legacy_default" | VisualOperations => js "operations_default" end)
        seed saved).

(** The effect that keeps the selection valid. *)
Definition keep_selection (d : Dialog) : Dialog :=
  if existsb (has_op_id (dg_selected d)) (dg_operations d) then d else with_selected (first_id (dg_operations d)) d.

Definition addOperation (d : Dialog) : Dialog :=
  let created := createDefaultOperation clock (dg_seed d) in
  with_selected (op_id created) (with_seed (S (dg_seed d)) (with_operations (dg_operations d ++ [created]) d)).

(** The value a duplicate is normalized from. *)
Definition condition_copy (c : ParamOverrideCondition) : jsval :=
  JObj [(js "path", JStr (pc_path c)); (js "mode", JStr (pc_mode c)); (js "value", parseLooseValue (pc_value_text c));
        (js "invert", JBool (pc_invert c)); (js "pass_missing_key", JBool (pc_pass_missing_key c))].
Definition operation_copy (o : ParamOverrideOperation) : jsval :=
  JObj [(js "description", JStr (op_description o)); (js "path", JStr (op_path o)); (js "mode", JStr (op_mode o));
        (js "value", parseLooseValue (op_value_text o)); (js "keep_origin", JBool (op_keep_origin o)); (js "from", JStr (op_from o));
        (js "to", JStr (op_to o)); (js "logic", JStr (op_logic o)); (js "conditions", JArr (map condition_copy (op_conditions o)))].

(** React runs the updater at once, so that the copy is selected. *)
Definition duplicateOperation (id : str) (d : Dialog) : Dialog :=
  match find_position (has_op_id id) (dg_operations d) with
  | None => d
  | Some (idx, source) =>
      match normalizeOperation clock (operation_copy source) (dg_seed d) with
      | Ok (cloned, seed) =>
          with_selected (op_id cloned)
            (with_seed seed (with_operations (take (idx + 1) (dg_operations d) ++ cloned :: drop (idx + 1) (dg_operations d)) d))
      | _ => d
      end
  end.

Definition removeOperation (id : str) (d : Dialog) : Dialog :=
  if (length (dg_operations d) <=? 1)%nat
  then with_seed (S (dg_seed d)) (with_operations [createDefaultOperation clock (dg_seed d)] d)
  else with_operations (List.filter (fun o => negb (has_op_id id o)) (dg_operations d)) d.

Definition addCondition (id : str) (d : Dialog) : Dialog :=
  let created := createDefaultCondition clock (dg_seed d) in
  with_seed (S (dg_seed d))
    (with_operations (on_op id (fun o => with_op_conditions (op_conditions o ++ [created]) o) (dg_operations d)) d).

(** [updatePruneObjectsDraft]: the draft of every operation with the identifier is
    read, changed and written; reading draws identifiers. *)
Fixpoint update_prune (id : str) (change : nat -> PruneObjectsDraft -> PruneObjectsDraft * nat) (ops : list ParamOverrideOperation)
    (seed : nat) : list ParamOverrideOperation * nat :=
  match ops with
  | [] => ([], seed)
  | o :: ops =>
      if has_op_id id o then
        let '(draft, seed) := parsePruneObjectsDraft clock (op_value_text o) seed in
        let '(draft, seed) := change seed draft in
        let '(rest, seed) := update_prune id change ops seed in
        (with_value_text (buildPruneObjectsValueText draft) o :: rest, seed)
      else let '(rest, seed) := update_prune id change ops seed in (o :: rest, seed)
  end.

Definition updatePruneObjectsDraft (id : str) (change : nat -> PruneObjectsDraft -> PruneObjectsDraft * nat) (d : Dialog) : Dialog :=
  let '(ops, seed) := update_prune id change (dg_operations d) (dg_seed d) in with_seed seed (with_operations ops d).

Definition with_rules (simple : bool) (rules : list ParamOverrideCondition) (p : PruneObjectsDraft) : PruneObjectsDraft :=
  MkPrune simple (pr_typeText p) (pr_logic p) (pr_recursive p) rules.

Definition addPruneRule (id : str) : Dialog -> Dialog :=
  updatePruneObjectsDraft id (fun seed p =>
    (with_rules false (pr_rules p ++ [normalizePruneRule clock (JObj []) seed]) p, S seed)).

Definition updatePruneRule (id ruleId : str) (patch : ConditionPatch) : Dialog -> Dialog :=
  updatePruneObjectsDraft id (fun seed p =>
    (with_rules (pr_simpleMode p) (on_condition ruleId (patch_condition patch) (pr_rules p)) p, seed)).

Definition removePruneRule (id ruleId : str) : Dialog -> Dialog :=
  updatePruneObjectsDraft id (fun seed p =>
    (with_rules (pr_simpleMode p) (List.filter (fun r => negb (str_eqb (pc_id r) ruleId)) (pr_rules p)) p, seed)).

(** *** What is shown *)

Definition operationCount (d : Dialog) : nat := length (List.filter (fun o => negb (isOperationBlank o)) (dg_operations d)).

Definition selectedOperation (d : Dialog) : option ParamOverrideOperation :=
  List.find (has_op_id (dg_selected d)) (dg_operations d).

Definition returnErrorDraft (d : Dialog) : option ReturnErrorDraft :=
  match selectedOperation d with
  | Some o => if str_eqb (op_mode o) (js "return_error") then Some (parseReturnErrorDraft (op_value_text o)) else None
  | None => None
  end.

(** The draft with the counter after its rules have drawn their identifiers. *)
Definition pruneObjectsDraft (d : Dialog) : option PruneObjectsDraft * nat :=
  match selectedOperation d with
  | Some o =>
      if str_eqb (op_mode o) (js "prune_objects")
      then let '(draft, seed) := parsePruneObjectsDraft clock (op_value_text o) (dg_seed d) in (Some draft, seed)
      else (None, dg_seed d)
  | None => (None, dg_seed d)
  end.

(** How often each mode is used, the four most frequent ones. *)
Definition mode_counts (ops : list ParamOverrideOperation) : list (str * nat) :=
  fold_left (fun counts o => let mode := mode_or_set (op_mode o) in
               obj_put counts mode (match assoc_str counts mode with Some n => n + 1 | None => 1 end)) ops [].
Definition topOperationModes (d : Dialog) : list (str * nat) :=
  take 4 (sort_by (fun a b => (Z.of_nat b.2 - Z.of_nat a.2)%Z) (mode_counts (dg_operations d))).

(** The drop of a dragged operation. *)
Definition handleDrop (sourceId id : str) (position : DropPosition) (d : Dialog) : Dialog :=
  if non_empty sourceId && non_empty id && negb (str_eqb sourceId id)
  then with_selected sourceId (with_operations (reorderOperations (dg_operations d) sourceId id position) d) else d.

(** *** Switching, filling and saving *)

Definition buildVisualJson (d : Dialog) : outcome OverrideFailure str :=
  match dg_visualMode d with
  | VisualLegacy =>
      match trim (dg_legacyValue d) with
      | [] => Ok []
      | trimmed =>
          match json_parse trimmed with
          | Ok parsed => if is_record parsed then Ok (print_pretty parsed) else Throw NotAnObject
          | _ => Throw NotJson
          end
      end
  | VisualOperations => buildOperationsJson (dg_operations d) true
  end.

Definition switchToJsonMode (d : Dialog) : Dialog :=
  match dg_editMode d with
  | EditJson => d
  | EditVisual =>
      with_modes EditJson (dg_visualMode d)
        (match buildVisualJson d with
         | Ok json => with_texts (dg_legacyValue d) json None d
         | Throw e =>
             let json :=
               match dg_visualMode d with
               | VisualLegacy => dg_legacyValue d
               | VisualOperations => match buildOperationsJson (dg_operations d) false with Ok s => s | _ => [] end
               end in
             with_texts (dg_legacyValue d) json (Some (BuildError e)) d
         | OutOfFuel => d
         end)
  end.

Definition switchToVisualMode (d : Dialog) : Dialog :=
  let fallback := createDefaultOperation clock (dg_seed d) in
  match dg_editMode d with
  | EditVisual => d
  | EditJson =>
      match trim (dg_jsonText d) with
      | [] =>
          with_selected (op_id fallback)
            (with_seed (S (dg_seed d)) (with_texts [] (dg_jsonText d) None (with_modes EditVisual VisualOperations
               (with_operations [fallback] d))))
      | trimmed =>
          match json_parse trimmed with
          | Ok parsed =>
              match listed_operations parsed with
              | Some items =>
                  match read_operations clock items (dg_seed d) with
                  | Ok (nextOps, seed) =>
                      with_template (js "operations_default") (with_selected (first_id nextOps)
                        (with_seed seed (with_texts [] (dg_jsonText d) None (with_modes EditVisual VisualOperations
                           (with_operations nextOps d)))))
                  | _ => d
                  end
              | None =>
                  if is_record parsed then
                    with_template (js "legacy_default") (with_selected (op_id fallback)
                      (with_seed (S (dg_seed d)) (with_texts (print_pretty parsed) (dg_jsonText d) None
                         (with_modes EditVisual VisualLegacy (with_operations [fallback] d)))))
                  else d
              end
          | _ => d
          end
      end
  end.

Inductive FillMode := FillReplace | FillAppend.

Definition preset_of (key : str) : TemplateKind * jsval :=
  default (OperationsTemplate, OPERATION_TEMPLATE) (assoc_str TEMPLATE_PRESET_CONFIG key).

Definition fill_legacy (json : str) (d : Dialog) : Dialog :=
  with_seed (S (dg_seed d)) (with_texts json json None (with_modes EditVisual VisualLegacy
    (with_operations [createDefaultOperation clock (dg_seed d)] d))).

Definition fillTemplate (mode : FillMode) (d : Dialog) : Dialog :=
  match preset_of (dg_templateKey d) with
  | (LegacyTemplate, payload) =>
      match mode, dg_visualMode d with
      | FillAppend, VisualLegacy =>
          match trim (dg_legacyValue d) with
          | [] => fill_legacy (print_pretty payload) d
          | trimmed =>
              match json_parse trimmed with
              | Ok current => fill_legacy (print_pretty (merge_objects payload current)) d
              | _ => d
              end
          end
      | _, _ => fill_legacy (print_pretty payload) d
      end
  | (OperationsTemplate, payload) =>
      let items := default [] (listed_operations payload) in
      match map_fresh (normalizeOperation clock) items (dg_seed d) with
      | Ok (appended, seed) =>
          match mode with
          | FillAppend =>
              let existing :=
                match dg_visualMode d with
                | VisualOperations => List.filter (fun o => negb (isOperationBlank o)) (dg_operations d)
                | VisualLegacy => []
                end in
              let nextOps := existing ++ appended in
              with_selected (first_id nextOps) (with_seed seed (with_texts [] [] None (with_modes EditVisual VisualOperations
                (with_operations nextOps d))))
          | FillReplace =>
              let '(finalOps, seed) :=
                match appended with [] => ([createDefaultOperation clock seed], S seed) | _ => (appended, seed) end in
              with_selected (first_id finalOps) (with_seed seed (with_texts (dg_legacyValue d) (print_pretty (operations_template items))
                None (with_modes EditVisual VisualOperations (with_operations finalOps d))))
          end
      | _ => d
      end
  end.

Definition resetEditorState (d : Dialog) : Dialog :=
  let fallback := createDefaultOperation clock (dg_seed d) in
  with_template (js "operations_default") (with_selected (op_id fallback) (with_seed (S (dg_seed d))
    (with_texts [] [] None (with_modes EditVisual VisualOperations (with_operations [fallback] d))))).

Definition handleJsonChange (nextValue : str) (d : Dialog) : Dialog :=
  with_texts (dg_legacyValue d) nextValue
    (match trim nextValue with [] => None | trimmed => if verifyJSON trimmed then None else Some JsonFormatError end) d.

(** The text [handleSave] hands to [onSave], or what it reports instead. *)
Definition save_result (d : Dialog) : outcome OverrideFailure str :=
  match dg_editMode d with
  | EditJson =>
      match trim (dg_jsonText d) with
      | [] => Ok []
      | trimmed => match json_parse trimmed with Ok v => Ok (print_pretty v) | _ => Throw NotJson end
      end
  | EditVisual => buildVisualJson d
  end.

(** What keeps the save button disabled in the visual editor. *)
Definition visualValidationError (d : Dialog) : option OverrideFailure :=
  match dg_editMode d with
  | EditJson => None
  | EditVisual => match buildVisualJson d with Throw e => Some e | _ => None end
  end.

Definition handleSave (d : Dialog) : Dialog :=
  match save_result d with Ok result => with_saved result d | _ => d end.

(** ** Everything the user does *)

Inductive DialogEvent :=
| DoUpdateOperation (id : str) (patch : OperationPatch)
| DoAddOperation | DoDuplicate (id : str) | DoRemove (id : str) | DoSelect (id : str)
| DoAddCondition (id : str) | DoUpdateCondition (id cid : str) (patch : ConditionPatch) | DoRemoveCondition (id cid : str)
| DoReturnError (id : str) (change : ReturnErrorDraft -> ReturnErrorDraft)
| DoPrune (id : str) (change : PruneObjectsDraft -> PruneObjectsDraft)
| DoAddRule (id : str) | DoUpdateRule (id ruleId : str) (patch : ConditionPatch) | DoRemoveRule (id ruleId : str)
| DoDrop (sourceId id : str) (position : DropPosition)
| DoSwitchJson | DoSwitchVisual | DoChooseTemplate (key : str) | DoFill (mode : FillMode) | DoReset
| DoEditLegacy (value : str) | DoEditJson (value : str) | DoSave | DoRender.

Definition dialog_action (e : DialogEvent) (d : Dialog) : Dialog :=
  match e with
  | DoUpdateOperation id patch => updateOperation id patch d
  | DoAddOperation => addOperation d
  | DoDuplicate id => duplicateOperation id d
  | DoRemove id => removeOperation id d
  | DoSelect id => with_selected id d
  | DoAddCondition id => addCondition id d
  | DoUpdateCondition id cid patch => updateCondition id cid patch d
  | DoRemoveCondition id cid => removeCondition id cid d
  | DoReturnError id change => updateReturnErrorDraft id change d
  | DoPrune id change => updatePruneObjectsDraft id (fun seed p => (change p, seed)) d
  | DoAddRule id => addPruneRule id d
  | DoUpdateRule id ruleId patch => updatePruneRule id ruleId patch d
  | DoRemoveRule id ruleId => removePruneRule id ruleId d
  | DoDrop sourceId id position => handleDrop sourceId id position d
  | DoSwitchJson => switchToJsonMode d
  | DoSwitchVisual => switchToVisualMode d
  | DoChooseTemplate key => with_template key d
  | DoFill mode => fillTemplate mode d
  | DoReset => resetEditorState d
  | DoEditLegacy value => with_texts value (dg_jsonText d) (dg_jsonError d) d
  | DoEditJson value => handleJsonChange value d
  | DoSave => handleSave d
  | DoRender => with_seed (pruneObjectsDraft d).2 d
  end.

Definition dialog_step (e : DialogEvent) (d : Dialog) : Dialog := keep_selection (dialog_action e d).

Definition dialog_run (es : list DialogEvent) (d : Dialog) : Dialog := fold_left (fun d e => dialog_step e d) es d.
End Dialog.
