(* ===== verification/ParamOverrideFacts.v ===== *)
(** * The parameter override dialog: identifiers, order and drafts

    Facts about [ParamOverride]: the identifiers the dialog works with stay
    distinct, the selection names a listed operation, moving an operation keeps
    the others, and what the prune editor does with the rules it shows. *)

From Stdlib Require Import ZArith Lia Bool SpecFloat.
From stdpp Require Import base list numbers.
From S2P Require Import Prelude JsString JsNumber JsObject JsValue JsJson JsJsonPrint JsDynamic JsHost JsCoerce PlaygroundMessages ParamOverride.

Section Identifiers.
Variable clock : nat -> num.

Lemma string_of_nat_inj m n : string_of_nat m = string_of_nat n -> m = n.
Proof.
  intros E. apply (f_equal (digits_value 0)) in E. unfold string_of_nat in E. rewrite !digits_value_string_of_N in E. lia.
Qed.

Lemma trailing_digits a b s t : forallb is_digit a = true -> forallb is_digit b = true ->
  s ++ 95%N :: a = t ++ 95%N :: b -> a = b.
Proof.
  intros A B E. apply (f_equal reverse) in E. rewrite !reverse_app, !reverse_cons, <- !app_assoc in E. cbn in E.
  assert (forall x r, forallb is_digit x = true -> (span is_digit (reverse x ++ 95%N :: r)).1 = reverse x) as P.
  { intros x r X. rewrite span_prefix; [done | by rewrite forallb_reverse | done]. }
  pose proof (P a (reverse s) A) as Pa. rewrite E, P in Pa by done.
  by apply (inj reverse).
Qed.

(** The counter at the end of an identifier tells it from every other one, whatever
    the clock says. *)
Lemma nextLocalId_inj m n : nextLocalId clock m = nextLocalId clock n -> m = n.
Proof.
  unfold nextLocalId. change (js "_") with [95%N]. rewrite !app_assoc. cbn [app]. intros E.
  rewrite <- !(app_assoc _ [95%N]) in E. cbn [app] in E.
  apply string_of_nat_inj, (trailing_digits _ _ _ _ (string_of_N_digits _) (string_of_N_digits _) E).
Qed.

Lemma nextLocalId_text n : nextLocalId clock n <> [].
Proof. discriminate. Qed.

(** ** The identifiers of a list of operations *)

Definition operation_ids (o : ParamOverrideOperation) : list str := op_id o :: map pc_id (op_conditions o).
Definition all_ids (ops : list ParamOverrideOperation) : list str := flat_map operation_ids ops.

(** The identifiers drawn from [seed] on. *)
Definition drawn (seed k : nat) : list str := map (nextLocalId clock) (seq seed k).

Definition ids_ok (ops : list ParamOverrideOperation) (seed : nat) : Prop :=
  NoDup (all_ids ops) /\ forall id, id ∈ all_ids ops -> exists n, n < seed /\ id = nextLocalId clock n.

Lemma drawn_elem id seed k : id ∈ drawn seed k <-> exists n, seed <= n < seed + k /\ id = nextLocalId clock n.
Proof.
  unfold drawn. rewrite list_elem_of_fmap. split.
  - intros (n & E & I). apply elem_of_seq in I. by exists n.
  - intros (n & I & E). exists n. by rewrite elem_of_seq.
Qed.

Lemma drawn_NoDup seed k : NoDup (drawn seed k).
Proof. apply NoDup_fmap; [exact nextLocalId_inj | apply NoDup_seq]. Qed.

Lemma drawn_app seed j k : drawn seed (j + k) = drawn seed j ++ drawn (seed + j) k.
Proof. unfold drawn. by rewrite seq_app, map_app. Qed.

(** A list whose identifiers are old ones or just drawn keeps the invariant. *)
Lemma ids_ok_step ops ops' seed seed' k : ids_ok ops seed -> all_ids ops' ⊆+ all_ids ops ++ drawn seed k ->
  seed + k <= seed' -> ids_ok ops' seed'.
Proof.
  intros [N I] S L. split.
  - apply submseteq_Permutation in S as [r P]. enough (NoDup (all_ids ops' ++ r)) as [D _]%list.NoDup_app by done.
    rewrite <- P. apply list.NoDup_app. split; [done |]. split; [| apply drawn_NoDup].
    intros id J (n & B & ->)%drawn_elem. destruct (I _ J) as (m & M & E). apply nextLocalId_inj in E. lia.
  - intros id J. eapply elem_of_submseteq in J; [| exact S]. apply elem_of_app in J as [J | (n & B & E)%drawn_elem].
    + destruct (I _ J) as (m & M & E). exists m. split; [lia | done].
    + exists n. split; [lia | done].
Qed.

Lemma ids_ok_sub ops ops' seed : ids_ok ops seed -> all_ids ops' ⊆+ all_ids ops -> ids_ok ops' seed.
Proof. intros O S. eapply (ids_ok_step _ _ _ _ 0 O); [by rewrite app_nil_r | lia]. Qed.

Lemma ids_ok_fresh ops seed k : all_ids ops = drawn seed k -> ids_ok ops (seed + k).
Proof.
  intros E. apply (ids_ok_step [] _ seed _ k); [| by rewrite E | lia].
  split; [apply NoDup_nil_2 | intros id J; by apply not_elem_of_nil in J].
Qed.

Lemma all_ids_app a b : all_ids (a ++ b) = all_ids a ++ all_ids b.
Proof. apply flat_map_app. Qed.

Lemma all_ids_perm a b : a ≡ₚ b -> all_ids a ≡ₚ all_ids b.
Proof. intros P. by apply Permutation_flat_map. Qed.

Lemma op_id_listed o ops : o ∈ ops -> op_id o ∈ all_ids ops.
Proof. intros I. apply list_elem_of_In, in_flat_map. exists o. split; [by apply list_elem_of_In | by left]. Qed.

Lemma all_ids_filter p ops : all_ids (List.filter p ops) `sublist_of` all_ids ops.
Proof.
  induction ops as [| o ops IH]; [done |]. cbn [List.filter]. destruct (p o); cbn [all_ids flat_map].
  - by apply sublist_app.
  - by apply sublist_inserts_l.
Qed.

(** At most one operation has an identifier. *)
Lemma on_op_split id f ops seed : ids_ok ops seed ->
  on_op id f ops = ops \/ exists l1 o l2, ops = l1 ++ o :: l2 /\ op_id o = id /\ on_op id f ops = l1 ++ f o :: l2.
Proof.
  assert (forall l, id ∉ map op_id l -> on_op id f l = l) as Other.
  { induction l as [| a l IH]; [done |]. cbn. intros [Ne Rest]%not_elem_of_cons. unfold on_op in IH |- *. cbn.
    assert (has_op_id id a = false) as -> by (by apply str_eqb_neq). by rewrite IH. }
  intros [N _]. induction ops as [| o ops IH]; [by left |].
  cbn [all_ids flat_map] in N. fold (all_ids ops) in N. apply list.NoDup_app in N as (_ & D & N).
  unfold on_op. cbn [map]. destruct (has_op_id id o) eqn:H.
  - apply str_eqb_eq in H. right. exists [], o, ops. split; [done |]. split; [done |]. cbn. f_equal.
    apply Other. intros (o' & E & I)%list_elem_of_fmap. apply (D id); [rewrite <- H; left | rewrite E; by apply op_id_listed].
  - destruct (IH N) as [E | (l1 & a & l2 & -> & A & E)]; unfold on_op in E; rewrite E; [by left |].
    right. by exists (o :: l1), a, l2.
Qed.

Lemma all_ids_middle l1 (o : ParamOverrideOperation) l2 : all_ids (l1 ++ o :: l2) ≡ₚ operation_ids o ++ all_ids (l1 ++ l2).
Proof. rewrite !all_ids_app. cbn [all_ids flat_map]. fold (all_ids l2). solve_Permutation. Qed.

(** Changing one operation, which may draw [k] identifiers for its conditions. *)
Lemma on_op_ids id f ops seed k : ids_ok ops seed ->
  (forall o, operation_ids (f o) ⊆+ operation_ids o ++ drawn seed k) -> ids_ok (on_op id f ops) (seed + k).
Proof.
  intros O F. eapply (ids_ok_step _ _ _ _ k O); [| lia].
  destruct (on_op_split id f ops seed O) as [-> | (l1 & o & l2 & -> & _ & ->)]; [by apply submseteq_inserts_r |].
  rewrite !all_ids_middle. rewrite <- app_assoc, (Permutation_app_comm (all_ids _)), app_assoc.
  by apply submseteq_skips_r.
Qed.
End Identifiers.

(** ** Moving an operation *)

Lemma find_position_split {A} (p : A -> bool) l i a : find_position p l = Some (i, a) ->
  p a = true /\ i = length (take i l) /\ l = take i l ++ a :: drop (S i) l.
Proof.
  revert i. induction l as [| x l IH]; intros i; [done |]. cbn. destruct (p x) eqn:P.
  - intros [= <- <-]. done.
  - destruct (find_position p l) as [[j b] |] eqn:F; [| done]. intros [= <- <-].
    destruct (IH j eq_refl) as (Q & L & E). cbn. split; [done |]. split; [by rewrite <- L |]. by rewrite <- E.
Qed.

Lemma find_position_none {A} (p : A -> bool) l : find_position p l = None -> existsb p l = false.
Proof.
  induction l as [| x l IH]; [done |]. cbn. destruct (p x); [done |]. destruct (find_position p l) as [[] |]; [done | auto].
Qed.

Lemma has_op_id_eq id o : has_op_id id o = true <-> op_id o = id.
Proof. apply str_eqb_eq. Qed.

(** The list with the first operation called [s] taken out and put back just before or
    after the first one called [t]. *)
Definition moved_next_to (ops : list ParamOverrideOperation) (s t : str) (position : DropPosition)
    (result : list ParamOverrideOperation) : Prop :=
  exists l r l' r' a b, op_id a = s /\ op_id b = t /\ ops = l ++ a :: r /\ l ++ r = l' ++ b :: r' /\
    result = match position with DropBefore => l' ++ a :: b :: r' | DropAfter => l' ++ b :: a :: r' end.

Lemma reorder_cases ops s t position :
  reorderOperations ops s t position = ops \/ moved_next_to ops s t position (reorderOperations ops s t position).
Proof.
  unfold reorderOperations. destruct (negb (non_empty s) || _ || _); [by left |].
  destruct (find_position (has_op_id s) ops) as [[i a] |] eqn:Fs; [| by left].
  destruct (find_position_split _ _ _ _ Fs) as (Ha%has_op_id_eq & Li & E).
  destruct (find_position (has_op_id t) (delete i ops)) as [[j b] |] eqn:Ft; [| by left].
  destruct (find_position_split _ _ _ _ Ft) as (Hb%has_op_id_eq & Lj & E').
  right. exists (take i ops), (drop (S i) ops), (take j (delete i ops)), (drop (S j) (delete i ops)), a, b.
  rewrite delete_take_drop in E' at 1. rewrite Nat.add_1_r.
  split; [done |]. split; [done |]. split; [done |]. split; [done |].
  assert (delete i ops !! j = Some b) as Lb.
  { rewrite delete_take_drop, E', lookup_app_r by lia. by replace (j - _) with 0 by lia. }
  destruct position; [by rewrite (drop_S _ b j Lb) |]. rewrite (take_S_r _ _ b Lb). by rewrite <- app_assoc.
Qed.

Lemma reorder_perm ops s t position : reorderOperations ops s t position ≡ₚ ops.
Proof.
  destruct (reorder_cases ops s t position) as [-> | (l & r & l' & r' & a & b & _ & _ & E & M & ->)]; [done |].
  transitivity (a :: l ++ r); [rewrite M; destruct position; solve_Permutation | rewrite E; apply Permutation_middle].
Qed.

(** ** The dialog *)

Section Dialog.
Variable clock : nat -> num.

Definition draws {A} (ids : A -> list str) (f : jsval -> nat -> outcome JsError (A * nat)) : Prop :=
  forall v seed a seed', f v seed = Ok (a, seed') -> exists k, ids a = drawn clock seed k /\ seed' = seed + k.

Lemma map_fresh_draws {A} (ids : A -> list str) f : draws ids f -> forall l seed r seed',
  map_fresh f l seed = Ok (r, seed') -> exists k, flat_map ids r = drawn clock seed k /\ seed' = seed + k /\ length r = length l.
Proof.
  intros D. induction l as [| v l IH]; intros seed r seed'; cbn [map_fresh].
  - intros [= <- <-]. exists 0. cbn. split; [done | lia].
  - destruct (f v seed) as [[a s1] | |] eqn:F; [| done..]. cbn. destruct (D _ _ _ _ F) as (j & Ea & ->).
    destruct (map_fresh f l (seed + j)) as [[r' s2] | |] eqn:M; [| done..]. cbn. intros [= <- <-].
    destruct (IH _ _ _ M) as (k & Er & -> & L). exists (j + k). cbn. rewrite Ea, Er, drawn_app, L. split; [done | lia].
Qed.

Lemma normalizeOverrideCondition_draws : draws (fun c => [pc_id c]) (normalizeOverrideCondition clock).
Proof.
  intros v seed a seed'. unfold normalizeOverrideCondition. destruct (value_prop v _); [| done..]. cbn [obind]. intros [= <- <-].
  exists 1. split; [done | lia].
Qed.

Lemma flat_map_single {A B} (f : A -> B) l : flat_map (fun a => [f a]) l = map f l.
Proof. induction l as [| a l IH]; cbn; congruence. Qed.

Lemma normalizeOperation_draws : draws operation_ids (normalizeOperation clock).
Proof.
  intros v seed a seed'. unfold normalizeOperation. destruct (value_prop v _); [| done..]. cbn [obind].
  destruct (js_String _); [| done..]. cbn [obind].
  set (read := match get_field v (js "conditions") with JArr items => _ | _ => _ end).
  destruct read as [[cs s1] | |] eqn:R; [| done..]. cbn [obind]. intros [= <- <-]. subst read.
  assert (exists k, map pc_id cs = drawn clock (S seed) k /\ s1 = S seed + k) as (k & Ec & ->).
  { destruct (get_field v (js "conditions")); try (injection R as <- <-; exists 0; split; [done | lia]).
    destruct (map_fresh_draws _ _ normalizeOverrideCondition_draws _ _ _ _ R) as (k & E & -> & _). exists k.
    by rewrite flat_map_single in E. }
  exists (S k). unfold operation_ids. cbn [op_id op_conditions]. rewrite Ec. split; [done | lia].
Qed.

Lemma read_operations_ok items seed ops seed' : read_operations clock items seed = Ok (ops, seed') -> ops <> [] /\ ids_ok clock ops seed'.
Proof.
  unfold read_operations. destruct items as [| v items].
  - intros [= <- <-]. split; [done |]. rewrite <- Nat.add_1_r. by apply ids_ok_fresh.
  - intros R. destruct (map_fresh_draws _ _ normalizeOperation_draws _ _ _ _ R) as (k & E & -> & L).
    split; [by destruct ops | by apply ids_ok_fresh].
Qed.

(** Some operation is listed and the identifiers are distinct and already drawn. *)
Definition dialog_ok (d : Dialog) : Prop := dg_operations d <> [] /\ ids_ok clock (dg_operations d) (dg_seed d).

Lemma one_default_ok seed : ids_ok clock [createDefaultOperation clock seed] (S seed).
Proof. rewrite <- Nat.add_1_r. by apply ids_ok_fresh. Qed.

Lemma on_op_nonempty id f ops : ops <> [] -> on_op id f ops <> [].
Proof. by destruct ops. Qed.

Lemma kept_ids d id f : dialog_ok d -> (forall o, operation_ids (f o) ⊆+ operation_ids o) ->
  dialog_ok (with_operations (on_op id f (dg_operations d)) d).
Proof.
  intros [Ne O] F. split; [by apply on_op_nonempty |]. cbn. rewrite <- (Nat.add_0_r (dg_seed d)).
  apply on_op_ids; [done |]. intros o. by rewrite app_nil_r.
Qed.

Lemma on_condition_ids cid f cs : (forall c, pc_id (f c) = pc_id c) -> map pc_id (on_condition cid f cs) = map pc_id cs.
Proof. intros F. unfold on_condition. rewrite map_map. apply map_ext. intros c. by destruct (str_eqb _ _). Qed.

Lemma filter_ids p cs : map pc_id (List.filter p cs) `sublist_of` map pc_id cs.
Proof.
  induction cs as [| c cs IH]; [done |]. cbn. destruct (p c); cbn; [by apply sublist_skip | by apply sublist_cons].
Qed.

Lemma patch_condition_id p c : pc_id (patch_condition p c) = pc_id c.
Proof. by destruct p. Qed.

Lemma patch_operation_ids p o : operation_ids (patch_operation p o) = operation_ids o.
Proof. by destruct p. Qed.

(** Every list that is written back by [setOperations] and every new counter. *)
Lemma dialog_ok_of d ops seed k : dialog_ok d -> ops <> [] -> all_ids ops ⊆+ all_ids (dg_operations d) ++ drawn clock (dg_seed d) k ->
  seed = dg_seed d + k -> dialog_ok (with_seed seed (with_operations ops d)).
Proof. intros [_ O] Ne S ->. split; [done |]. by eapply ids_ok_step. Qed.

Lemma addOperation_ok d : dialog_ok d -> dialog_ok (addOperation clock d).
Proof.
  intros D. apply (dialog_ok_of _ (dg_operations d ++ [createDefaultOperation clock (dg_seed d)]) _ 1 D).
  - by destruct (dg_operations d).
  - by rewrite all_ids_app.
  - lia.
Qed.

Lemma duplicateOperation_ok id d : dialog_ok d -> dialog_ok (duplicateOperation clock id d).
Proof.
  intros D. unfold duplicateOperation. destruct (find_position _ _) as [[i source] |]; [| done].
  destruct (normalizeOperation _ _ _) as [[o seed] | |] eqn:N; [| done..].
  destruct (normalizeOperation_draws _ _ _ _ N) as (k & E & S).
  apply (dialog_ok_of _ (take (i + 1) (dg_operations d) ++ o :: drop (i + 1) (dg_operations d)) _ k D); [| | done].
  - by destruct (take _ _).
  - rewrite all_ids_middle, take_drop, E. by rewrite (Permutation_app_comm (drawn _ _ _)).
Qed.

Lemma remove_one id ops seed : ids_ok clock ops seed -> 2 <= length ops -> List.filter (fun o => negb (has_op_id id o)) ops <> [].
Proof.
  intros [N _] L. destruct ops as [| a [| b ops]]; cbn in L; [lia | lia |].
  intros F. assert (forall o, o ∈ a :: b :: ops -> op_id o = id) as All.
  { intros o I. apply has_op_id_eq. destruct (has_op_id id o) eqn:H; [done |].
    apply list_elem_of_In in I. assert (In o (List.filter (fun o => negb (has_op_id id o)) (a :: b :: ops))) as J.
    { apply filter_In. by rewrite H. }
    by rewrite F in J. }
  cbn [all_ids flat_map] in N. apply list.NoDup_app in N as (_ & N & _). apply (N id).
  - rewrite <- (All a) by (by left). left.
  - rewrite <- (All b) by (right; by left). apply elem_of_app. left. left.
Qed.

Lemma removeOperation_ok id d : dialog_ok d -> dialog_ok (removeOperation clock id d).
Proof.
  intros [Ne O]. unfold removeOperation. destruct (length (dg_operations d) <=? 1) eqn:L.
  - split; [done | apply one_default_ok].
  - apply Nat.leb_gt in L. split; [by eapply remove_one |]. cbn. eapply ids_ok_sub; [exact O |].
    apply sublist_submseteq, all_ids_filter.
Qed.

Lemma addCondition_ok id d : dialog_ok d -> dialog_ok (addCondition clock id d).
Proof.
  intros [Ne O]. split; [by apply on_op_nonempty |]. cbn. rewrite <- Nat.add_1_r. apply on_op_ids; [done |].
  intros o. unfold operation_ids. cbn. by rewrite map_app.
Qed.

Lemma parsePrune_seed t s : s <= (parsePruneObjectsDraft clock t s).2.
Proof.
  unfold parsePruneObjectsDraft. destruct (trim t); [cbn; lia |]. destruct (json_parse _) as [[] | |]; cbn; lia.
Qed.

Lemma shown_seed d : dg_seed d <= (pruneObjectsDraft clock d).2.
Proof.
  unfold pruneObjectsDraft. destruct (selectedOperation d) as [o |]; [| cbn; lia].
  destruct (str_eqb _ _); [| cbn; lia]. pose proof (parsePrune_seed (op_value_text o) (dg_seed d)) as P.
  by destruct (parsePruneObjectsDraft _ _ _).
Qed.

(** What [updatePruneObjectsDraft] writes has the identifiers it had. *)
Lemma update_prune_ids id change ops : (forall seed p, seed <= (change seed p).2) -> forall seed,
  all_ids (update_prune clock id change ops seed).1 = all_ids ops /\ seed <= (update_prune clock id change ops seed).2 /\
  length (update_prune clock id change ops seed).1 = length ops.
Proof.
  intros M. induction ops as [| o ops IH]; intros seed; [done |]. cbn [update_prune].
  destruct (has_op_id id o).
  - pose proof (parsePrune_seed (op_value_text o) seed) as P. destruct (parsePruneObjectsDraft _ _ _) as [p s1]. cbn in P.
    specialize (M s1 p). destruct (change s1 p) as [p' s2]. cbn in M. specialize (IH s2).
    destruct (update_prune clock id change ops s2) as [rest s3]. cbn in IH |- *. destruct IH as (E & L & Len).
    split; [cbn; by rewrite E |]. split; [lia | by rewrite Len].
  - specialize (IH seed). destruct (update_prune clock id change ops seed) as [rest s3]. cbn in IH |- *.
    destruct IH as (E & L & Len). split; [by rewrite E |]. split; [lia | by rewrite Len].
Qed.

Lemma updatePrune_ok id change d : (forall seed p, seed <= (change seed p).2) -> dialog_ok d ->
  dialog_ok (updatePruneObjectsDraft clock id change d).
Proof.
  intros M [Ne O]. unfold updatePruneObjectsDraft.
  destruct (update_prune_ids id change (dg_operations d) M (dg_seed d)) as (E & L & Len).
  destruct (update_prune clock id change _ _) as [ops seed]. cbn [fst snd] in E, L, Len. split; cbn [dg_operations dg_seed with_seed with_operations].
  - intros ->. by destruct (dg_operations d).
  - apply (ids_ok_step clock _ ops (dg_seed d) seed 0 O); [by rewrite E, app_nil_r | lia].
Qed.

Lemma handleDrop_ok s t position d : dialog_ok d -> dialog_ok (handleDrop s t position d).
Proof.
  intros [Ne O]. unfold handleDrop. destruct (_ && _ && _); [| done]. split; cbn.
  - intros E. pose proof (reorder_perm (dg_operations d) s t position) as P. rewrite E in P.
    by apply Permutation_nil_l in P.
  - eapply ids_ok_sub; [exact O |]. apply Permutation_submseteq, all_ids_perm, reorder_perm.
Qed.

Lemma parseInitialState_ok text seed st seed' : parseInitialState clock text seed = Ok (st, seed') ->
  es_operations st <> [] /\ ids_ok clock (es_operations st) seed'.
Proof.
  unfold parseInitialState. destruct (trim text); [intros [= <- <-]; split; [done | apply one_default_ok] |].
  destruct (json_parse _) as [v | |]; [| intros [= <- <-]; (split; [done | apply one_default_ok]) ..].
  destruct (listed_operations v).
  - destruct (read_operations _ _ _) as [[ops s1] | |] eqn:R; [| done..]. cbn. intros [= <- <-].
    by apply (read_operations_ok _ _ _ _ R).
  - destruct (is_record v); intros [= <- <-]; (split; [done | apply one_default_ok]).
Qed.

Lemma switchToVisual_ok d : dialog_ok d -> dialog_ok (switchToVisualMode clock d).
Proof.
  intros D. unfold switchToVisualMode. destruct (dg_editMode d); [done |].
  destruct (trim _); [split; [done | apply one_default_ok] |]. destruct (json_parse _) as [v | |]; [| done..].
  destruct (listed_operations v).
  - destruct (read_operations _ _ _) as [[ops s1] | |] eqn:R; [| done..]. apply (read_operations_ok _ _ _ _ R).
  - destruct (is_record v); [split; [done | apply one_default_ok] | done].
Qed.

Lemma fill_legacy_ok json d : dialog_ok (fill_legacy clock json d).
Proof. split; [done | apply one_default_ok]. Qed.

Lemma template_operations key : (preset_of key).1 = OperationsTemplate -> default [] (listed_operations (preset_of key).2) <> [].
Proof.
  unfold preset_of. destruct (assoc_str TEMPLATE_PRESET_CONFIG key) as [[kind payload] |] eqn:E; [| done].
  apply assoc_str_elem in E. unfold TEMPLATE_PRESET_CONFIG in E.
  repeat (apply list.elem_of_cons in E as [E | E]; [injection E as _ -> ->; done |]). by apply not_elem_of_nil in E.
Qed.

Lemma fillTemplate_ok mode d : dialog_ok d -> dialog_ok (fillTemplate clock mode d).
Proof.
  intros D. unfold fillTemplate. pose proof (template_operations (dg_templateKey d)) as T.
  destruct (preset_of (dg_templateKey d)) as [[] payload].
  - set (items := default [] (listed_operations payload)) in *. specialize (T eq_refl). cbn in T. fold items in T.
    destruct (map_fresh _ items _) as [[ops seed] | |] eqn:M; [| done..].
    destruct (map_fresh_draws _ _ (normalizeOperation_draws) _ _ _ _ M) as (k & E & S & L).
    assert (ops <> []) as Ne by (intros ->; by destruct items). destruct mode.
    + destruct ops as [| o ops]; [done |]. split; [done |]. cbn. rewrite S. by apply ids_ok_fresh.
    + destruct D as [_ O]. split; cbn.
      * intros X. apply app_eq_nil in X as [_ X]. done.
      * eapply (ids_ok_step clock _ _ _ _ k O); [| lia]. rewrite all_ids_app, <- E. apply submseteq_skips_r.
        destruct (dg_visualMode d); [apply sublist_submseteq, all_ids_filter | apply submseteq_nil_l].
  - destruct mode; [apply fill_legacy_ok |]. destruct (dg_visualMode d); [apply fill_legacy_ok |].
    destruct (trim _); [apply fill_legacy_ok |]. destruct (json_parse _); [apply fill_legacy_ok | done..].
Qed.

Lemma dialog_action_ok e d : dialog_ok d -> dialog_ok (dialog_action clock e d).
Proof.
  intros D. destruct e; cbn [dialog_action]; try done.
  - apply kept_ids; [done |]. intros o. by rewrite patch_operation_ids.
  - by apply addOperation_ok.
  - by apply duplicateOperation_ok.
  - by apply removeOperation_ok.
  - by apply addCondition_ok.
  - apply kept_ids; [done |]. intros o. unfold operation_ids. cbn. by rewrite on_condition_ids by apply patch_condition_id.
  - apply kept_ids; [done |]. intros o. apply sublist_submseteq, sublist_skip, filter_ids.
  - by apply kept_ids.
  - apply updatePrune_ok; [cbn; lia | done].
  - apply updatePrune_ok; [cbn; lia | done].
  - apply updatePrune_ok; [cbn; lia | done].
  - apply updatePrune_ok; [cbn; lia | done].
  - by apply handleDrop_ok.
  - unfold switchToJsonMode. destruct (dg_editMode d); [| done]. by destruct (buildVisualJson d).
  - by apply switchToVisual_ok.
  - by apply fillTemplate_ok.
  - split; [done | apply one_default_ok].
  - unfold handleSave. by destruct (save_result d).
  - apply (dialog_ok_of d (dg_operations d) _ ((pruneObjectsDraft clock d).2 - dg_seed d) D); [apply D | by apply submseteq_inserts_r |].
    pose proof (shown_seed d). lia.
Qed.

Lemma keep_selection_ok d : dialog_ok d ->
  dialog_ok (keep_selection d) /\ exists o, o ∈ dg_operations (keep_selection d) /\ op_id o = dg_selected (keep_selection d).
Proof.
  intros D. unfold keep_selection. destruct (existsb _ _) eqn:E; (split; [exact D |]).
  - apply existsb_exists in E as (o & I & H). apply has_op_id_eq in H. exists o. by rewrite list_elem_of_In.
  - destruct D as [Ne _]. cbn. destruct (dg_operations d) as [| o ops]; [done |]. exists o. split; [by left | done].
Qed.

Lemma dialog_run_ok es d : dialog_ok d -> dialog_ok (dialog_run clock es d).
Proof.
  revert d. induction es as [| e es IH]; intros d D; [done |]. apply IH, keep_selection_ok. by apply dialog_action_ok.
Qed.

Lemma open_dialog_ok value seed saved d : open_dialog clock value seed saved = Ok d -> dialog_ok d /\ dg_selected d = first_id (dg_operations d).
Proof.
  unfold open_dialog. destruct (parseInitialState _ _ _) as [[st s1] | |] eqn:P; [| done..]. cbn. intros [= <-].
  split; [by apply (parseInitialState_ok _ _ _ _ P) | done].
Qed.

Lemma selection_listed es d : dialog_ok d -> dg_selected d = first_id (dg_operations d) ->
  exists o, o ∈ dg_operations (dialog_run clock es d) /\ op_id o = dg_selected (dialog_run clock es d).
Proof.
  intros D S. destruct es as [| e es _] using rev_ind.
  - destruct D as [Ne _]. cbn in *. destruct (dg_operations d) as [| o ops]; [done |]. exists o. split; [by left | done].
  - unfold dialog_run. rewrite fold_left_app. apply keep_selection_ok, dialog_action_ok. by apply dialog_run_ok.
Qed.
End Dialog.

(** C24: Whatever text the dialog is opened with (without throwing) and whatever the user does then, some
    operation is listed, the identifiers of all operations and conditions are distinct and drawn before the
    counter, so that an edit reaches one of them only, and the selected operation is a listed one. *)
Theorem override_dialog_consistent clock value seed saved d es : open_dialog clock value seed saved = Ok d ->
  let d' := dialog_run clock es d in
  dg_operations d' <> [] /\
  NoDup (all_ids (dg_operations d')) /\
  (forall id, id ∈ all_ids (dg_operations d') -> exists n, n < dg_seed d' /\ id = nextLocalId clock n) /\
  exists! o, o ∈ dg_operations d' /\ op_id o = dg_selected d'.
Proof.
  intros O. destruct (open_dialog_ok _ _ _ _ _ O) as [D S]. cbn zeta.
  destruct (dialog_run_ok clock es d D) as [Ne [N B]]. split; [done |]. split; [done |]. split; [done |].
  destruct (selection_listed clock es d D S) as (o & I & E). exists o. split; [done |]. intros o' [I' E'].
  apply list_elem_of_split in I as (l1 & l2 & L). rewrite L in N, I'. rewrite all_ids_middle in N.
  apply list.NoDup_app in N as (_ & N & _). rewrite elem_of_app, list.elem_of_cons in I'.
  assert (o' ∈ l1 ++ l2 \/ o' = o) as [J | ->] by (rewrite elem_of_app; tauto); [| done].
  exfalso. apply (N (op_id o)); [left |]. rewrite E, <- E'. by apply op_id_listed.
Qed.

(** ** The rules of a prune operation *)

Section Rules.
Variable clock : nat -> num.

(** The counter never goes back. *)
Lemma read_operations_seed items seed ops seed' : read_operations clock items seed = Ok (ops, seed') -> seed <= seed'.
Proof.
  unfold read_operations. destruct items as [| v items]; [intros [= _ <-]; lia |]. intros R.
  destruct (map_fresh_draws clock _ _ (normalizeOperation_draws clock) _ _ _ _ R) as (k & _ & -> & _). lia.
Qed.

Lemma update_prune_seed id change d : (forall seed p, seed <= (change seed p).2) ->
  dg_seed d <= dg_seed (updatePruneObjectsDraft clock id change d).
Proof.
  intros M. unfold updatePruneObjectsDraft. destruct (update_prune_ids clock id change (dg_operations d) M (dg_seed d)) as (_ & L & _).
  by destruct (update_prune clock id change _ _).
Qed.

Lemma fillTemplate_seed mode d : dg_seed d <= dg_seed (fillTemplate clock mode d).
Proof.
  unfold fillTemplate. destruct (preset_of (dg_templateKey d)) as [[] payload].
  - destruct (map_fresh _ _ _) as [[ops seed] | |] eqn:M; [| cbn; lia ..].
    destruct (map_fresh_draws clock _ _ (normalizeOperation_draws clock) _ _ _ _ M) as (k & _ & -> & _).
    destruct mode; [destruct ops |]; cbn; lia.
  - destruct mode; [cbn; lia |]. destruct (dg_visualMode d); [cbn; lia |].
    destruct (trim _); [cbn; lia |]. destruct (json_parse _); cbn; lia.
Qed.

Lemma switchToVisual_seed d : dg_seed d <= dg_seed (switchToVisualMode clock d).
Proof.
  unfold switchToVisualMode. destruct (dg_editMode d); [lia |]. destruct (trim _); [cbn; lia |].
  destruct (json_parse _) as [v | |]; [| lia ..]. destruct (listed_operations v).
  - destruct (read_operations _ _ _) as [[ops s1] | |] eqn:R; [| lia ..]. by apply (read_operations_seed _ _ _ _ R).
  - destruct (is_record v); cbn; lia.
Qed.

Lemma dialog_action_seed e d : dg_seed d <= dg_seed (dialog_action clock e d).
Proof.
  destruct e; cbn [dialog_action]; try (cbn; lia); try (apply update_prune_seed; cbn; lia).
  - unfold duplicateOperation. destruct (find_position _ _) as [[i source] |]; [| lia].
    destruct (normalizeOperation _ _ _) as [[o seed] | |] eqn:N; [| lia ..].
    destruct (normalizeOperation_draws clock _ _ _ _ N) as (k & _ & ->). cbn. lia.
  - unfold removeOperation. destruct (_ <=? _); cbn; lia.
  - unfold handleDrop. destruct (_ && _ && _); cbn; lia.
  - unfold switchToJsonMode. destruct (dg_editMode d); [| lia]. destruct (buildVisualJson d); cbn; lia.
  - apply switchToVisual_seed.
  - apply fillTemplate_seed.
  - unfold handleSave. destruct (save_result d); cbn; lia.
  - apply shown_seed.
Qed.

Lemma dialog_run_seed es : forall d, dg_seed d <= dg_seed (dialog_run clock es d).
Proof.
  induction es as [| e es IH]; intros d; [done |]. cbn. etransitivity; [apply (dialog_action_seed e d) |].
  etransitivity; [| apply IH]. unfold dialog_step, keep_selection. by destruct (existsb _ _).
Qed.

(** A draft's rules have identifiers that were not drawn before it was read. *)
Lemma parsed_rules_new t seed rule : rule ∈ pr_rules (parsePruneObjectsDraft clock t seed).1 ->
  exists n, seed <= n < (parsePruneObjectsDraft clock t seed).2 /\ pc_id rule = nextLocalId clock n.
Proof.
  assert (forall l s r, r ∈ prune_rules clock l s -> exists n, s <= n < s + length l /\ pc_id r = nextLocalId clock n) as R.
  { induction l as [| v l IH]; intros s r; cbn; [by intros ?%not_elem_of_nil |]. intros [-> | I]%list.elem_of_cons.
    - exists s. split; [lia | done].
    - destruct (IH (S s) r I) as (n & B & E). exists n. split; [lia | done]. }
  unfold parsePruneObjectsDraft. destruct (trim t) as [| c raw]; [by intros ?%not_elem_of_nil |].
  destruct (json_parse (c :: raw)) as [[| | | | | | fields] | |]; try (by intros ?%not_elem_of_nil).
  cbn [fst snd]. unfold prune_of. set (rules := rules_listed _).
  destruct (match get_field _ (js "type") with JUndefined => _ | _ => _ end); [| by intros ?%not_elem_of_nil ..]. cbn [obind].
  destruct (js_String _); [| by intros ?%not_elem_of_nil ..]. cbn. apply R.
Qed.

Lemma update_prune_same id c1 c2 ops seed0 :
  (forall t seed, seed0 <= seed ->
     let '(p, seed) := parsePruneObjectsDraft clock t seed in
     buildPruneObjectsValueText (c1 seed p).1 = buildPruneObjectsValueText (c2 seed p).1 /\ (c1 seed p).2 = (c2 seed p).2 /\
     seed <= (c2 seed p).2) ->
  forall seed, seed0 <= seed -> update_prune clock id c1 ops seed = update_prune clock id c2 ops seed.
Proof.
  intros C. induction ops as [| o ops IH]; intros seed L; [done |]. cbn [update_prune]. destruct (has_op_id id o).
  - pose proof (C (op_value_text o) seed L) as E. pose proof (parsePrune_seed clock (op_value_text o) seed) as M.
    destruct (parsePruneObjectsDraft clock (op_value_text o) seed) as [p s1]. cbn in M. destruct E as (T & S & Le).
    destruct (c1 s1 p) as [p1 s2], (c2 s1 p) as [p2 s3]. cbn in T, S, Le. subst s3. rewrite T, IH by lia. done.
  - by rewrite IH.
Qed.

Lemma on_condition_other ruleId f cs : (forall r, r ∈ cs -> pc_id r <> ruleId) -> on_condition ruleId f cs = cs.
Proof.
  intros N. unfold on_condition. rewrite <- (map_id cs) at 2. apply map_ext_in. intros r I. apply list_elem_of_In in I.
  by rewrite (proj2 (str_eqb_neq _ _) (N r I)).
Qed.

Lemma filter_other ruleId cs : (forall r, r ∈ cs -> pc_id r <> ruleId) -> List.filter (fun r => negb (str_eqb (pc_id r) ruleId)) cs = cs.
Proof.
  induction cs as [| r cs IH]; intros N; [done |]. cbn. rewrite (proj2 (str_eqb_neq _ _) (N r ltac:(by left))). cbn.
  rewrite IH; [done |]. intros r' I. apply N. by right.
Qed.

Lemma parsed_rules_other t n seed rule : n < seed -> rule ∈ pr_rules (parsePruneObjectsDraft clock t seed).1 -> pc_id rule <> nextLocalId clock n.
Proof.
  intros L I E. destruct (parsed_rules_new _ _ _ I) as (m & B & E'). rewrite E in E'. apply nextLocalId_inj in E'. lia.
Qed.

Lemma with_rules_same p : with_rules (pr_simpleMode p) (pr_rules p) p = p.
Proof. by destruct p. Qed.

(** A rule without a path is not written. *)
Lemma blank_rule_unwritten p seed :
  buildPruneObjectsValueText (with_rules false (pr_rules p ++ [normalizePruneRule clock (JObj []) seed]) p) =
  buildPruneObjectsValueText (with_rules false (pr_rules p) p).
Proof.
  unfold buildPruneObjectsValueText. cbn [with_rules pr_simpleMode pr_typeText pr_rules pr_logic pr_recursive].
  rewrite List.filter_app. cbn [List.filter]. change (non_empty (trim (pc_path (normalizePruneRule clock (JObj []) seed)))) with false.
  cbn iota. by rewrite app_nil_r.
Qed.

(** Reading the drafts and writing them back. *)
Definition rewritten (id : str) : Dialog -> Dialog := updatePruneObjectsDraft clock id (fun seed p => (p, seed)).

Lemma rule_edit_lost id n edit d : n < dg_seed d ->
  (forall cs, (forall r, r ∈ cs -> pc_id r <> nextLocalId clock n) -> edit cs = cs) ->
  updatePruneObjectsDraft clock id (fun seed p => (with_rules (pr_simpleMode p) (edit (pr_rules p)) p, seed)) d = rewritten id d.
Proof.
  intros L E. unfold rewritten, updatePruneObjectsDraft.
  rewrite (update_prune_same id _ (fun seed p => (p, seed)) (dg_operations d) (dg_seed d)); [done | | lia].
  intros t seed Le. pose proof (parsed_rules_other t n seed) as R. destruct (parsePruneObjectsDraft clock t seed) as [p s1].
  cbn in R |- *. rewrite E, with_rules_same by (intros r I; apply R; [lia | done]). split; [done | split; [done | lia]].
Qed.
End Rules.

(** The rules of a prune operation cannot be edited.  Take any rule the dialog shows, do anything else and then
    change or remove the rule: the operations are the same as if their drafts had only been read and written back,
    because reading a draft gives its rules new identifiers.  Adding a rule writes the rules there were, because a
    rule without a path is not written. *)
Theorem prune_rules_not_editable clock d draft seed rule es id patch :
  pruneObjectsDraft clock d = (Some draft, seed) -> rule ∈ pr_rules draft ->
  let d' := dialog_run clock es (with_seed seed d) in
  updatePruneRule clock id (pc_id rule) patch d' = updatePruneObjectsDraft clock id (fun seed p => (p, seed)) d' /\
  removePruneRule clock id (pc_id rule) d' = updatePruneObjectsDraft clock id (fun seed p => (p, seed)) d' /\
  dg_operations (addPruneRule clock id d') =
  dg_operations (updatePruneObjectsDraft clock id (fun seed p => (with_rules false (pr_rules p) p, S seed)) d').
Proof.
  intros P I d'. assert (exists n, n < dg_seed d' /\ pc_id rule = nextLocalId clock n) as (n & L & ->).
  { unfold pruneObjectsDraft in P. destruct (selectedOperation d) as [o |]; [| done]. destruct (str_eqb _ _); [| done].
    pose proof (parsed_rules_new clock (op_value_text o) (dg_seed d) rule) as R.
    destruct (parsePruneObjectsDraft _ _ _) as [p s]. injection P as -> ->. destruct (R I) as (n & B & E). exists n. split; [| done].
    cbn in B. pose proof (dialog_run_seed clock es (with_seed seed d)) as M. fold d' in M. cbn in M. lia. }
  split; [| split].
  - apply (rule_edit_lost clock id n); [done |]. intros cs. apply on_condition_other.
  - apply (rule_edit_lost clock id n); [done |]. intros cs. apply filter_other.
  - unfold addPruneRule, updatePruneObjectsDraft.
    rewrite (update_prune_same clock id _ (fun seed p => (with_rules false (pr_rules p) p, S seed)) (dg_operations d') (dg_seed d'));
      [done | | lia].
    intros t s _. destruct (parsePruneObjectsDraft clock t s) as [p s1]. cbn [fst snd]. split; [apply blank_rule_unwritten | lia].
Qed.

(** ** Examples *)

(** A dialog that shows a prune operation with one rule. *)
Definition sample_prune_text : str :=
  print_compact (JObj [(js "conditions", JArr [JObj [(js "path", JStr (js "type")); (js "mode", JStr (js "full")); (js "value", JStr (js "thinking"))]])]).
Definition sample_dialog : Dialog :=
  MkDialog EditVisual VisualOperations [] [MkOperation (nextLocalId (fun _ => lit 5) 0) [] [] (js "prune_objects") [] [] sample_prune_text false (js "OR") []]
    [] None (nextLocalId (fun _ => lit 5) 0) (js "operations_default") 1 [].

Lemma override_dialog_consistent_witness :
  exists d, open_dialog (fun _ => lit 5) (print_pretty GEMINI_IMAGE_4K_TEMPLATE) 0 [] = Ok d /\
    NoDup (all_ids (dg_operations (dialog_run (fun _ => lit 5) [DoAddOperation; DoDuplicate (dg_selected d); DoFill FillAppend; DoRemove (js "x")] d))).
Proof.
  assert (exists d, open_dialog (fun _ => lit 5) (print_pretty GEMINI_IMAGE_4K_TEMPLATE) 0 [] = Ok d) as [d O].
  { eexists. vm_compute. reflexivity. }
  exists d. split; [exact O |].
  apply (override_dialog_consistent (fun _ => lit 5) _ _ _ d [DoAddOperation; DoDuplicate (dg_selected d); DoFill FillAppend; DoRemove (js "x")] O).
Defined.

Lemma prune_rules_not_editable_witness :
  exists draft seed rule, pruneObjectsDraft (fun _ => lit 5) sample_dialog = (Some draft, seed) /\ rule ∈ pr_rules draft /\
    removePruneRule (fun _ => lit 5) (dg_selected sample_dialog) (pc_id rule) (with_seed seed sample_dialog) =
    updatePruneObjectsDraft (fun _ => lit 5) (dg_selected sample_dialog) (fun seed p => (p, seed)) (with_seed seed sample_dialog).
Proof.
  assert (exists draft seed rule, pruneObjectsDraft (fun _ => lit 5) sample_dialog = (Some draft, seed) /\ rule ∈ pr_rules draft)
    as (draft & seed & rule & P & I).
  { do 3 eexists. split; [vm_compute; reflexivity | left]. }
  exists draft, seed, rule. split; [exact P |]. split; [exact I |].
  apply (prune_rules_not_editable (fun _ => lit 5) sample_dialog draft seed rule [] (dg_selected sample_dialog) (CondPath []) P I).
Defined.
