(* ===== verification/ParamOverrideText.v ===== *)
(** * The text of a parameter override

    What [ParamOverride] writes is JSON, what it writes in the visual editor opens
    again with the same operations, and saving them writes the same text. *)

From Stdlib Require Import ZArith Lia Bool SpecFloat.
From stdpp Require Import base list numbers.
From S2P Require Import Prelude JsString JsObject JsNumber JsNumberFacts JsValue JsJson JsJsonPrint JsDynamic JsHost JsCoerce PlaygroundMessages ParamOverride.

(** ** Values *)

Lemma loose_trim t : parseLooseValue (trim t) = parseLooseValue t.
Proof. unfold parseLooseValue. by rewrite trim_idemp. Qed.

Lemma loose_parsed t : units t -> parsed_value (parseLooseValue t) = true.
Proof.
  intros U%units_trim. unfold parseLooseValue. destruct (trim t) as [| c r]; [done |].
  destruct (json_parse (c :: r)) as [v | |] eqn:J; [by apply (json_parse_parsed (c :: r)) | done..].
Qed.

(** What a text is replaced by when the override is written and opened again. *)
Definition value_again (t : str) : str := toValueText (parseLooseValue t).

(** The value of a text is still the same then, and a value that was given still is.
    A quoted text such as ["12"] with its quotes is shown without them and loses this. *)
Definition value_kept (t : str) : Prop :=
  parseLooseValue (value_again t) = parseLooseValue t /\ (value_again t = [] -> trim t = []).

Definition no_text (v : jsval) : bool := match v with JUndefined | JStr _ => false | _ => true end.

Lemma print_some gap v : v <> JUndefined -> exists t, json_print gap [] v = Some t.
Proof. by destruct v; intros U; try done; eexists. Qed.

(** A value that is no text is read from what it is shown as. *)
Lemma loose_of_text v : no_text v = true -> parsed_value v = true -> parseLooseValue (toValueText v) = json_clean v.
Proof.
  intros N P. apply clean_textual in P. destruct (print_spelled [] _ eq_refl P [] eq_refl) as (t & E & V). rewrite print_clean in E.
  assert (toValueText v = t) as -> by (destruct v; try done; unfold toValueText; by rewrite E).
  unfold parseLooseValue. rewrite (print_trim _ _ _ _ E).
  destruct (value_text_head _ _ V) as (c & r & -> & _). rewrite (json_parse_print [] (json_clean v)); [done | done | done |].
  by rewrite print_clean.
Qed.

(** A text that is typed without quotes: not a JSON text, and if it is JSON, then
    with numbers that are finite and not minus zero, which JSON can spell again. *)
Definition unquoted (t : str) : bool :=
  match json_parse (trim t) with Ok (JStr _) => false | Ok v => textual v | _ => true end.

Lemma unquoted_kept t : units t -> unquoted t = true -> value_kept t.
Proof.
  intros U Q. unfold value_kept, value_again, unquoted in *. destruct (trim t) as [| c r] eqn:T.
  { unfold parseLooseValue. by rewrite T. }
  assert (parseLooseValue t = match json_parse (c :: r) with Ok v => v | _ => JStr (c :: r) end) as E by (unfold parseLooseValue; by rewrite T).
  pose proof (loose_parsed t U) as P. rewrite E in P |- *. destruct (json_parse (c :: r)) as [v | |] eqn:J.
  - assert (no_text v = true) as N by (by destruct v). rewrite loose_of_text, textual_clean by (done || by destruct v). split; [done |].
    intros S. exfalso. pose proof (loose_of_text v N P) as L. rewrite S in L. rewrite textual_clean in L by (by destruct v). by rewrite <- L in N.
  - split; [| done]. cbn [toValueText]. rewrite <- T, loose_trim, E, T. by rewrite ?J.
  - split; [| done]. cbn [toValueText]. rewrite <- T, loose_trim, E, T. by rewrite ?J.
Qed.

Lemma kept_textual t : units t -> value_kept t -> textual (parseLooseValue t) = true.
Proof.
  intros U [K _]. pose proof (loose_parsed t U) as P. unfold value_again in K.
  destruct (no_text (parseLooseValue t)) eqn:N.
  - rewrite loose_of_text in K by done. rewrite <- K. by apply clean_textual.
  - by destruct (parseLooseValue t).
Qed.

(** ** Operations of good values *)

Section Good.
Variable good : jsval -> bool.
Notation good_object := (good_object good).
Notation good_entry := (good_entry good).

Lemma put_if_good b o k v : good_object o = true -> units k -> (b = true -> good v = true) -> good_object (put_if b k v o) = true.
Proof. intros O U G. unfold put_if. destruct b; [apply put_good; auto | done]. Qed.

Hypothesis good_str : forall s, units s -> good (JStr s) = true.
Hypothesis good_bool : forall b, good (JBool b) = true.
Hypothesis good_arr : forall l, forallb good l = true -> good (JArr l) = true.
Hypothesis good_obj : forall o, good_object o = true -> good (JObj o) = true.

Definition condition_units (c : ParamOverrideCondition) : Prop := units (pc_path c) /\ units (pc_mode c) /\ units (pc_value_text c).
Definition operation_units (o : ParamOverrideOperation) : Prop :=
  units (op_description o) /\ units (op_path o) /\ units (op_mode o) /\ units (op_from o) /\ units (op_to o) /\
  units (op_value_text o) /\ Forall condition_units (op_conditions o).

Lemma condition_payload_good c v : condition_units c -> good (parseLooseValue (pc_value_text c)) = true ->
  buildConditionPayload c = Some v -> good v = true.
Proof.
  intros (U & M & _) G. unfold buildConditionPayload. pose proof (units_trim _ U) as Up. destruct (trim (pc_path c)) as [| x path]; [done |].
  intros [= <-]. apply good_obj. set (mode := match pc_mode c with [] => js "full" | m => m end).
  assert (units mode) as Um by (subst mode; by destruct (pc_mode c)). unfold good_object. apply andb_true_iff. split.
  - cbn [app forallb]. rewrite ?forallb_app. unfold good_entry at 1 2 3. cbn [fst snd]. rewrite (good_str _ Up), (good_str _ Um), G.
    destruct (pc_invert c), (pc_pass_missing_key c); cbn [entry_if forallb]; unfold good_entry; cbn [fst snd]; by rewrite ?good_bool.
  - by destruct (pc_invert c), (pc_pass_missing_key c).
Qed.

Definition values_good (o : ParamOverrideOperation) : Prop :=
  good (parseLooseValue (op_value_text o)) = true /\ Forall (fun c => good (parseLooseValue (pc_value_text c)) = true) (op_conditions o).

Lemma conditions_good cs : Forall condition_units cs -> Forall (fun c => good (parseLooseValue (pc_value_text c)) = true) cs ->
  forallb good (omap buildConditionPayload cs) = true.
Proof.
  intros U G. induction cs as [| c cs IH]; [done |]. apply list.Forall_cons in U as [Uc U]. apply list.Forall_cons in G as [Gc G]. cbn.
  destruct (buildConditionPayload c) as [v |] eqn:E; [| by apply IH]. cbn. rewrite (condition_payload_good c v Uc Gc E). by apply IH.
Qed.

Lemma mode_units m : units m -> units (mode_or_set m).
Proof. by destruct m. Qed.

Lemma payload_good o : operation_units o -> values_good o -> good (JObj (operation_payload o)) = true.
Proof.
  intros (Ud & Up & Um & Uf & Ut & Uv & Uc) [Gv Gc]. apply good_obj. unfold operation_payload. cbv zeta.
  pose proof (conditions_good _ Uc Gc) as C.
  assert (forall b s k o, units s -> units k -> good_object o = true -> good_object (put_if b k (JStr (trim s)) o) = true) as T.
  { intros b s k p Us Uk P. apply put_if_good; [done | done |]. intros _. by apply good_str, units_trim. }
  assert (good_object [(js "mode", JStr (mode_or_set (op_mode o)))] = true) as M.
  { unfold good_object, good_entry. cbn [forallb fst snd]. by rewrite (good_str _ (mode_units _ Um)). }
  match goal with |- good_object (match _ with [] => ?p | _ => _ end) = true => assert (good_object p = true) as P end.
  { repeat (apply T; [done | done |]). apply put_if_good; [| done | by rewrite good_bool].
    apply put_if_good; [| done | done]. repeat (apply T; [done | done |]). exact M. }
  destruct (omap buildConditionPayload (op_conditions o)) as [| v vs]; [exact P |].
  apply put_good; [| done | by apply good_str; destruct (str_eqb _ _)]. apply put_good; [exact P | done |]. by apply good_arr.
Qed.

Lemma override_good ops : Forall operation_units ops -> Forall values_good ops -> good (override_value ops) = true.
Proof.
  intros U G. unfold override_value. apply good_obj. unfold good_object, good_entry. cbn [forallb fst snd].
  rewrite good_arr; [done |]. apply forallb_forall. intros v (o & <- & I)%in_map_iff. apply list_elem_of_In in I.
  rewrite list.Forall_forall in U, G. by apply payload_good; [apply U | apply G].
Qed.
End Good.

(** ** What is saved is JSON *)

Lemma parsed_values_good ops : Forall operation_units ops -> Forall (values_good parsed_value) ops.
Proof.
  intros U. apply list.Forall_forall. intros o I. rewrite list.Forall_forall in U. destruct (U o I) as (_ & _ & _ & _ & _ & V & C).
  split; [by apply loose_parsed |]. rewrite list.Forall_forall in C |- *. intros c J. apply loose_parsed, (C c J).
Qed.

Lemma override_parsed ops : Forall operation_units ops -> parsed_value (override_value ops) = true.
Proof. intros U. apply override_good; [by intros | done | by intros | by intros | done | by apply parsed_values_good]. Qed.

Definition dialog_units (d : Dialog) : Prop :=
  units (dg_legacyValue d) /\ units (dg_jsonText d) /\ Forall operation_units (dg_operations d).

Lemma built_parses ops validate t : Forall operation_units ops -> buildOperationsJson ops validate = Ok t ->
  t = [] \/ json_parse t = Ok (json_clean (override_value (List.filter (fun o => negb (isOperationBlank o)) ops))).
Proof.
  intros U. unfold buildOperationsJson. apply (filter_Forall _ (fun o => negb (isOperationBlank o))) in U.
  destruct (List.filter _ ops) as [| o filtered]; [intros [= <-]; by left |].
  destruct (if validate then _ else _) as [[[] |] | |]; try done. intros [= <-]. right.
  apply print_parsed; [done | by apply override_parsed].
Qed.

Lemma clean_record v : is_record (json_clean v) = is_record v.
Proof. by destruct v as [| | | [] | | |]. Qed.

Lemma pretty_parses text v : units text -> json_parse text = Ok v -> json_parse (print_pretty v) = Ok (json_clean v).
Proof. intros U J. apply print_parsed; [done | by apply (json_parse_parsed text)]. Qed.

Lemma visual_parses d t : dialog_units d -> buildVisualJson d = Ok t -> t = [] \/ exists v, json_parse t = Ok v /\ is_record v = true.
Proof.
  intros (L & J & O). unfold buildVisualJson. destruct (dg_visualMode d).
  - intros B. destruct (built_parses _ _ _ O B) as [-> | P]; [by left | right; by eexists].
  - pose proof (units_trim _ L) as U. destruct (trim (dg_legacyValue d)) as [| c r]; [intros [= <-]; by left |].
    destruct (json_parse (c :: r)) as [v | |] eqn:P; [| done..]. destruct (is_record v) eqn:R; [| done]. intros [= <-]. right.
    exists (json_clean v). split; [by apply (pretty_parses (c :: r)) | by rewrite clean_record].
Qed.

(** C25: Whatever the user typed, the text handed to [onSave] is empty or JSON, and an object if it was written by
    the visual editor. *)
Theorem saved_override_is_json d t : dialog_units d -> save_result d = Ok t ->
  t = [] \/ exists v, json_parse t = Ok v /\ (dg_editMode d = EditVisual -> is_record v = true).
Proof.
  intros U. unfold save_result. destruct (dg_editMode d).
  - intros B. destruct (visual_parses d t U B) as [-> | (v & P & R)]; [by left | right; by exists v].
  - destruct U as (_ & J & _). apply units_trim in J. destruct (trim (dg_jsonText d)) as [| c r]; [intros [= <-]; by left |].
    destruct (json_parse (c :: r)) as [v | |] eqn:P; [| done..]. intros [= <-]. right. exists (json_clean v).
    split; [by apply (pretty_parses (c :: r)) | done].
Qed.

(** ** Reading what was written *)

Lemma get_put_skip b k v p k' : str_eqb k k' = false -> get_field (JObj (put_if b k v p)) k' = get_field (JObj p) k'.
Proof. intros E. unfold put_if. destruct b; [by rewrite get_obj_put, E | done]. Qed.

Lemma get_put_hit b k v p : get_field (JObj (put_if b k v p)) k = if b then v else get_field (JObj p) k.
Proof. unfold put_if. destruct b; [by rewrite get_obj_put, str_eqb_refl | done]. Qed.

(** The payload before its conditions. *)
Definition plain_payload (o : ParamOverrideOperation) : list (str * jsval) :=
  operation_payload (with_op_conditions [] o).

Lemma payload_split o : operation_payload o =
  match omap buildConditionPayload (op_conditions o) with
  | [] => plain_payload o
  | conditions =>
      obj_put (obj_put (plain_payload o) (js "conditions") (JArr conditions)) (js "logic")
        (JStr (if str_eqb (op_logic o) (js "AND") then js "AND" else js "OR"))
  end.
Proof. reflexivity. Qed.

Ltac read_payload := repeat (rewrite get_put_skip by reflexivity).
Ltac open_payload := unfold plain_payload, operation_payload; cbn [with_op_conditions op_description op_path op_mode op_from op_to
  op_value_text op_keep_origin op_logic op_conditions]; cbv zeta; cbn [omap list_omap].

Section Payload.
Variable o : ParamOverrideOperation.
Let field k := get_field (JObj (plain_payload o)) k.
Let mode := mode_or_set (op_mode o).
Let meta := meta_of mode.

Lemma plain_mode : field (js "mode") = JStr mode.
Proof. unfold field. open_payload. read_payload. reflexivity. Qed.

Lemma plain_description : text_or_empty (field (js "description")) = trim (op_description o).
Proof. unfold field. open_payload. read_payload. rewrite get_put_hit. by destruct (trim (op_description o)). Qed.

Lemma plain_path : text_or_empty (field (js "path")) = if meta_path meta || meta_pathOptional meta then trim (op_path o) else [].
Proof.
  unfold field. open_payload. read_payload. fold mode. fold meta. rewrite !get_put_hit. read_payload.
  destruct (meta_path meta), (meta_pathOptional meta), (trim (op_path o)); reflexivity.
Qed.

Lemma plain_value_field : field (js "value") = if meta_value meta then parseLooseValue (op_value_text o) else JUndefined.
Proof. unfold field. open_payload. read_payload. rewrite get_put_hit. read_payload. by destruct (meta_value _). Qed.

Lemma plain_keep : is_true (field (js "keep_origin")) = meta_keepOrigin meta && op_keep_origin o.
Proof.
  unfold field. open_payload. read_payload. rewrite get_put_hit. read_payload. fold mode. fold meta.
  by destruct (meta_keepOrigin meta), (op_keep_origin o).
Qed.

(** The source and the target: their own texts, or the path where it stands for them. *)
Definition endpoint (shown : bool) (text : str) : str :=
  match (if shown then trim text else []) with [] => if meta_pathAlias meta then trim (op_path o) else [] | s => s end.

Lemma plain_from : text_or_empty (field (js "from")) = endpoint (meta_from meta) (op_from o).
Proof.
  unfold field, endpoint. open_payload. read_payload. fold mode. fold meta. rewrite !get_put_hit. unfold falsy_field. read_payload.
  rewrite !get_put_hit. read_payload.
  destruct (meta_pathAlias meta), (meta_from meta), (trim (op_from o)), (trim (op_path o)); reflexivity.
Qed.

Lemma plain_to : text_or_empty (field (js "to")) = endpoint true (op_to o).
Proof.
  unfold field, endpoint. open_payload. fold mode. fold meta. rewrite get_put_hit. unfold falsy_field at 1. read_payload.
  rewrite !get_put_hit. read_payload.
  destruct (meta_pathAlias meta), (meta_to meta), (trim (op_to o)), (trim (op_path o)); reflexivity.
Qed.

Lemma plain_none : field (js "conditions") = JUndefined /\ field (js "logic") = JUndefined.
Proof. unfold field. open_payload. split; read_payload; reflexivity. Qed.
End Payload.

(** ** Opening what was written *)

(** Operations without their identifiers, which are drawn anew. *)
Definition anonymous_condition (c : ParamOverrideCondition) : ParamOverrideCondition :=
  MkCondition [] (pc_path c) (pc_mode c) (pc_value_text c) (pc_invert c) (pc_pass_missing_key c).
Definition anonymous (o : ParamOverrideOperation) : ParamOverrideOperation :=
  MkOperation [] (op_description o) (op_path o) (op_mode o) (op_from o) (op_to o) (op_value_text o) (op_keep_origin o) (op_logic o)
    (map anonymous_condition (op_conditions o)).

Definition written_conditions (o : ParamOverrideOperation) : list ParamOverrideCondition :=
  List.filter (fun c => non_empty (trim (pc_path c))) (op_conditions o).

(** What an operation is shown as when the override is opened again: trimmed, without
    the fields its mode does not use and the conditions without a path. *)
Definition reopened_condition (c : ParamOverrideCondition) : ParamOverrideCondition :=
  MkCondition [] (trim (pc_path c)) (pc_mode c) (value_again (pc_value_text c)) (pc_invert c) (pc_pass_missing_key c).

Definition reopened (o : ParamOverrideOperation) : ParamOverrideOperation :=
  let meta := meta_of (op_mode o) in
  MkOperation [] (trim (op_description o)) (if meta_path meta || meta_pathOptional meta then trim (op_path o) else []) (op_mode o)
    (endpoint o (meta_from meta) (op_from o)) (endpoint o true (op_to o))
    (if meta_value meta then value_again (op_value_text o) else []) (meta_keepOrigin meta && op_keep_origin o)
    (match written_conditions o with [] => js "OR" | _ => if str_eqb (op_logic o) (js "AND") then js "AND" else js "OR" end)
    (map reopened_condition (written_conditions o)).

Definition condition_known (c : ParamOverrideCondition) : Prop := includes_str CONDITION_MODE_VALUES (pc_mode c) = true.
Definition operation_known (o : ParamOverrideOperation) : Prop :=
  includes_str OPERATION_MODE_VALUES (op_mode o) = true /\ Forall condition_known (op_conditions o).

Lemma known_mode_text o : operation_known o -> mode_or_set (op_mode o) = op_mode o.
Proof. intros [K _]. by destruct (op_mode o). Qed.

Section Open.
Variable clock : nat -> num.

Lemma condition_reads c v seed : condition_known c -> buildConditionPayload c = Some v ->
  exists c', normalizeOverrideCondition clock v seed = Ok (c', S seed) /\ anonymous_condition c' = reopened_condition c.
Proof.
  intros K. unfold buildConditionPayload. destruct (trim (pc_path c)) as [| x path] eqn:T; [done |].
  assert ((match pc_mode c with [] => js "full" | m => m end) = pc_mode c) as E by (unfold condition_known in K; by destruct (pc_mode c)).
  rewrite E. intros [= <-]. eexists. split; [reflexivity |]. unfold anonymous_condition, reopened_condition. cbn [pc_path pc_mode pc_value_text pc_invert pc_pass_missing_key].
  rewrite T. unfold condition_known in K. f_equal.
  - change (get_field _ (js "mode")) with (JStr (pc_mode c)). unfold known_mode. by rewrite K.
  - by destruct (pc_invert c), (pc_pass_missing_key c).
  - by destruct (pc_invert c), (pc_pass_missing_key c).
Qed.

Lemma condition_written c : buildConditionPayload c = None <-> non_empty (trim (pc_path c)) = false.
Proof. unfold buildConditionPayload. by destruct (trim (pc_path c)). Qed.

Lemma conditions_read cs : Forall condition_known cs -> forall seed,
  exists cs' seed', map_fresh (normalizeOverrideCondition clock) (omap buildConditionPayload cs) seed = Ok (cs', seed') /\
    map anonymous_condition cs' = map reopened_condition (List.filter (fun c => non_empty (trim (pc_path c))) cs).
Proof.
  intros K. induction K as [| c cs Kc K IH]; intros seed; [by exists [], seed |]. cbn.
  destruct (buildConditionPayload c) as [v |] eqn:B.
  - destruct (condition_reads c v seed Kc B) as (c' & N & E). destruct (IH (S seed)) as (cs' & s' & M & R).
    assert (non_empty (trim (pc_path c)) = true) as ->.
    { destruct (non_empty (trim (pc_path c))) eqn:H; [done |]. apply condition_written in H. congruence. }
    cbn. rewrite N. cbn. rewrite M. cbn. exists (c' :: cs'), s'. split; [done |]. cbn. by rewrite E, R.
  - apply condition_written in B. rewrite B. apply IH.
Qed.

Lemma written_none o : omap buildConditionPayload (op_conditions o) = [] <-> written_conditions o = [].
Proof.
  unfold written_conditions. induction (op_conditions o) as [| c cs IH]; [done |]. cbn.
  destruct (buildConditionPayload c) as [v |] eqn:B.
  - destruct (non_empty (trim (pc_path c))) eqn:H; [done |]. apply condition_written in H. congruence.
  - apply condition_written in B. by rewrite B.
Qed.

(** Fields other than the conditions are those of the plain payload. *)
Lemma payload_field o k : str_eqb (js "conditions") k = false -> str_eqb (js "logic") k = false ->
  get_field (JObj (operation_payload o)) k = get_field (JObj (plain_payload o)) k.
Proof.
  intros C L. rewrite payload_split. destruct (omap _ _); [done |]. rewrite !get_obj_put. by rewrite C, L.
Qed.

Lemma operation_reads o seed : operation_known o ->
  exists o' seed', normalizeOperation clock (JObj (operation_payload o)) seed = Ok (o', seed') /\ anonymous o' = reopened o.
Proof.
  intros K. pose proof (known_mode_text o K) as M. destruct K as [K Kc].
  unfold normalizeOperation. change (value_prop (JObj (operation_payload o)) (js "description"))
    with (@Ok JsError _ (get_field (JObj (operation_payload o)) (js "description"))). cbn [obind].
  rewrite (payload_field o (js "description")), (payload_field o (js "path")), (payload_field o (js "mode")), (payload_field o (js "from")),
    (payload_field o (js "to")), (payload_field o (js "value")), (payload_field o (js "keep_origin")) by reflexivity.
  pose proof (plain_none o) as [Nc Nl].
  assert (exists logic, get_field (JObj (operation_payload o)) (js "logic") = logic /\ js_String (value_or logic (JStr (js "OR"))) =
            Ok (match written_conditions o with [] => js "OR" | _ => if str_eqb (op_logic o) (js "AND") then js "AND" else js "OR" end)) as (logic & -> & ->).
  { eexists. split; [reflexivity |]. rewrite payload_split. destruct (omap _ _) as [| v vs] eqn:Om.
    - rewrite (proj1 (written_none o) Om), Nl. reflexivity.
    - rewrite get_obj_put, str_eqb_refl. destruct (written_conditions o) eqn:W; [apply written_none in W; congruence |].
      by destruct (str_eqb _ _). }
  cbn [obind].
  assert (exists cs' seed', match get_field (JObj (operation_payload o)) (js "conditions") with
            JArr items => map_fresh (normalizeOverrideCondition clock) items (S seed) | _ => Ok ([], S seed) end = Ok (cs', seed') /\
            map anonymous_condition cs' = map reopened_condition (written_conditions o)) as (cs' & seed' & -> & E).
  { rewrite payload_split. destruct (omap _ _) as [| v vs] eqn:Om.
    - rewrite Nc, (proj1 (written_none o) Om). by exists [], (S seed).
    - rewrite get_obj_put. change (str_eqb (js "logic") (js "conditions")) with false. rewrite get_obj_put, str_eqb_refl.
      rewrite <- Om. by apply conditions_read. }
  cbn [obind]. do 2 eexists. split; [reflexivity |]. unfold anonymous, reopened. cbn [op_description op_path op_mode op_from op_to op_value_text op_keep_origin op_logic op_conditions].
  rewrite plain_description, plain_path, plain_mode, plain_value_field, plain_keep, plain_from, plain_to, M, E. f_equal.
  - unfold known_mode. by rewrite K.
  - by destruct (meta_value _).
  - destruct (written_conditions o); [done |]. by destruct (str_eqb (op_logic o) (js "AND")).
Qed.

Lemma operations_read ops : Forall operation_known ops -> forall seed,
  exists ops' seed', map_fresh (normalizeOperation clock) (map (fun o => JObj (operation_payload o)) ops) seed = Ok (ops', seed') /\
    map anonymous ops' = map reopened ops.
Proof.
  intros K. induction K as [| o ops Ko K IH]; intros seed; [by exists [], seed |]. cbn [map map_fresh].
  destruct (operation_reads o seed Ko) as (o' & s1 & -> & E). cbn [obind]. destruct (IH s1) as (ops' & s2 & -> & R). cbn [obind].
  exists (o' :: ops'), s2. split; [done |]. cbn. by rewrite E, R.
Qed.
End Open.

(** ** Writing it again *)

(** The plain payload from the texts without white space around them. *)
Definition payload_of (meta : ModeMeta) (mode d p : str) (v : jsval) (keep : bool) (f t : str) : list (str * jsval) :=
  let q := [(js "mode", JStr mode)] in
  let q := put_if (non_empty d) (js "description") (JStr d) q in
  let q := put_if (meta_path meta) (js "path") (JStr p) q in
  let q := put_if (meta_pathOptional meta && non_empty p) (js "path") (JStr p) q in
  let q := put_if (meta_value meta) (js "value") v q in
  let q := put_if (meta_keepOrigin meta && keep) (js "keep_origin") (JBool true) q in
  let q := put_if (meta_from meta) (js "from") (JStr f) q in
  let q := put_if (negb (meta_to meta) && non_empty t) (js "to") (JStr t) q in
  let q := put_if (meta_to meta) (js "to") (JStr t) q in
  let q := put_if (meta_pathAlias meta && (falsy_field q (js "from") && non_empty p)) (js "from") (JStr p) q in
  put_if (meta_pathAlias meta && (falsy_field q (js "to") && non_empty p)) (js "to") (JStr p) q.

Lemma plain_payload_of o : plain_payload o =
  payload_of (meta_of (mode_or_set (op_mode o))) (mode_or_set (op_mode o)) (trim (op_description o)) (trim (op_path o))
    (parseLooseValue (op_value_text o)) (op_keep_origin o) (trim (op_from o)) (trim (op_to o)).
Proof. reflexivity. Qed.

(** What holds of every entry of the table of modes. *)
Lemma known_mode_facts mode (test : str -> bool) : forallb test OPERATION_MODE_VALUES = true ->
  includes_str OPERATION_MODE_VALUES mode = true -> test mode = true.
Proof. intros F I%includes_str_elem. rewrite forallb_forall in F. by apply F, list_elem_of_In. Qed.

Lemma alias_meta mode : includes_str OPERATION_MODE_VALUES mode = true -> meta_pathAlias (meta_of mode) = true ->
  meta_from (meta_of mode) = true /\ meta_to (meta_of mode) = true /\ meta_path (meta_of mode) = false /\ meta_pathOptional (meta_of mode) = false.
Proof.
  intros K A. pose proof (known_mode_facts mode (fun m => let meta := meta_of m in
    implb (meta_pathAlias meta) (meta_from meta && meta_to meta && negb (meta_path meta) && negb (meta_pathOptional meta))) eq_refl K) as T.
  cbv beta zeta in T. rewrite A in T. cbn [implb] in T. rewrite !andb_true_iff, !negb_true_iff in T. tauto.
Qed.

Lemma from_meta mode : includes_str OPERATION_MODE_VALUES mode = true -> includes_str FROM_REQUIRED_MODES mode = true ->
  meta_from (meta_of mode) = true.
Proof.
  intros K R. pose proof (known_mode_facts mode (fun m => implb (includes_str FROM_REQUIRED_MODES m) (meta_from (meta_of m))) eq_refl K) as T.
  cbv beta in T. by rewrite R in T.
Qed.

Lemma value_meta mode : includes_str OPERATION_MODE_VALUES mode = true -> includes_str VALUE_REQUIRED_MODES mode = true ->
  meta_value (meta_of mode) = true.
Proof.
  intros K R. pose proof (known_mode_facts mode (fun m => implb (includes_str VALUE_REQUIRED_MODES m) (meta_value (meta_of m))) eq_refl K) as T.
  cbv beta in T. by rewrite R in T.
Qed.

(** Dropping the fields a mode does not use changes nothing in what is written. *)
Lemma payload_settled meta mode d p v keep f t :
  (meta_pathAlias meta = true -> meta_from meta = true /\ meta_to meta = true /\ meta_path meta = false /\ meta_pathOptional meta = false) ->
  let alias x := match x with [] => if meta_pathAlias meta then p else [] | s => s end in
  payload_of meta mode d (if meta_path meta || meta_pathOptional meta then p else []) (if meta_value meta then v else JStr [])
    (meta_keepOrigin meta && keep) (alias (if meta_from meta then f else [])) (alias t) = payload_of meta mode d p v keep f t.
Proof.
  destruct meta as [mp mo mv mf mt mk ma]. cbn [meta_path meta_pathOptional meta_value meta_from meta_to meta_keepOrigin meta_pathAlias].
  intros A. destruct ma.
  - destruct (A eq_refl) as (-> & -> & -> & ->). destruct mv, mk, f, t, p, d, keep; reflexivity.
  - destruct mp, mo, mv, mk, mf, f, t; reflexivity.
Qed.

Lemma trim_if (b : bool) s : trim (if b then trim s else []) = if b then trim s else [].
Proof. destruct b; [apply trim_idemp | done]. Qed.

Lemma endpoint_trim o b s : trim (endpoint o b s) = endpoint o b s.
Proof.
  unfold endpoint. destruct (if b then trim s else []) as [| c r] eqn:E; [apply trim_if |].
  destruct b; [| done]. rewrite <- E. apply trim_idemp.
Qed.

Definition values_kept (o : ParamOverrideOperation) : Prop :=
  (meta_value (meta_of (op_mode o)) = true -> value_kept (op_value_text o)) /\ Forall (fun c => value_kept (pc_value_text c)) (op_conditions o).

Lemma plain_payload_reopened o : operation_known o -> values_kept o -> plain_payload (reopened o) = plain_payload o.
Proof.
  intros K [V _]. pose proof (known_mode_text o K) as M. rewrite !plain_payload_of. unfold reopened at 3 4 5 6 7 8.
  cbn [op_description op_path op_from op_to op_value_text op_keep_origin]. change (op_mode (reopened o)) with (op_mode o). rewrite M.
  rewrite trim_idemp, trim_if, !endpoint_trim.
  rewrite <- (payload_settled (meta_of (op_mode o)) (op_mode o) (trim (op_description o)) (trim (op_path o))
    (parseLooseValue (op_value_text o)) (op_keep_origin o) (trim (op_from o)) (trim (op_to o))) by apply alias_meta, K.
  unfold endpoint. rewrite M. f_equal.
  - destruct (meta_value (meta_of (op_mode o))); [| done]. by apply V.
  - by destruct (if meta_from _ then _ else _).
  - by destruct (trim (op_to o)).
Qed.

Lemma condition_again c : value_kept (pc_value_text c) -> buildConditionPayload (reopened_condition c) = buildConditionPayload c.
Proof.
  intros [V _]. unfold buildConditionPayload. cbn [reopened_condition pc_path pc_mode pc_value_text pc_invert pc_pass_missing_key].
  by rewrite trim_idemp, V.
Qed.

Lemma conditions_again cs : Forall (fun c => value_kept (pc_value_text c)) cs ->
  omap buildConditionPayload (map reopened_condition (List.filter (fun c => non_empty (trim (pc_path c))) cs)) = omap buildConditionPayload cs.
Proof.
  intros V. induction V as [| c cs Vc V IH]; [done |]. cbn. destruct (non_empty (trim (pc_path c))) eqn:N.
  - cbn. rewrite (condition_again c Vc). by destruct (buildConditionPayload c); rewrite IH.
  - apply condition_written in N. by rewrite N.
Qed.

Lemma payload_again o : operation_known o -> values_kept o -> operation_payload (reopened o) = operation_payload o.
Proof.
  intros K V. rewrite !payload_split, plain_payload_reopened by done. cbn [reopened op_conditions op_logic].
  pose proof (conditions_again _ (proj2 V)) as C. fold (written_conditions o) in C. rewrite C. clear C.
  destruct (omap _ _) as [| v vs] eqn:O; [done |]. do 2 f_equal.
  destruct (written_conditions o) eqn:W; [apply written_none in W; congruence |]. by destruct (str_eqb (op_logic o) (js "AND")).
Qed.

(** *** Validation *)

Lemma blank_again t : value_kept t -> blank (value_again t) = blank t.
Proof.
  intros [V E]. unfold blank. f_equal. destruct (trim t) as [| c r] eqn:T.
  - unfold value_again, parseLooseValue. by rewrite T.
  - destruct (trim (value_again t)) eqn:A; [| done]. exfalso.
    assert (parseLooseValue (value_again t) = JStr []) as P by (unfold parseLooseValue; by rewrite A). rewrite P in V.
    unfold value_again in E. rewrite <- V in E. by specialize (E eq_refl).
Qed.

(** The problems of a value depend on the value and on whether it is given. *)
Lemma return_error_by_value t : return_error_problem t =
  if blank t then Some MissingValue
  else if is_record (parseLooseValue t) then
    match trimmed_text (get_field (parseLooseValue t) (js "message")) with Ok [] => Some MissingErrorMessage | _ => None end
  else None.
Proof.
  unfold return_error_problem, blank, parseLooseValue. destruct (trim t) as [| c r]; [done |]. by destruct (json_parse (c :: r)).
Qed.

Lemma pass_headers_by_value t : pass_headers_problem t =
  if blank t then Ok (Some MissingHeaderNames)
  else let* headers := parsePassHeaderNames (parseLooseValue t) in Ok (match headers with [] => Some InvalidHeaderFormat | _ => None end).
Proof.
  unfold pass_headers_problem, blank. rewrite <- loose_trim. by destruct (trim t).
Qed.

Lemma problem_again o : operation_known o -> values_kept o -> operation_problem (reopened o) = operation_problem o.
Proof.
  intros K [V _]. pose proof (known_mode_text o K) as M. destruct K as [K _]. unfold operation_problem.
  change (op_mode (reopened o)) with (op_mode o). rewrite M. set (mode := op_mode o) in *. cbv zeta.
  pose proof (alias_meta mode K) as A. pose proof (from_meta mode K) as F. pose proof (value_meta mode K) as R.
  assert (meta_path (meta_of mode) && blank (op_path (reopened o)) = meta_path (meta_of mode) && blank (op_path o)) as ->.
  { destruct (meta_path (meta_of mode)) eqn:E; [| done]. unfold blank, reopened. cbn [op_path]. fold mode. rewrite E. cbn [orb]. by rewrite trim_idemp. }
  assert (forall b s, b = true -> blank (endpoint o b s) && negb (meta_pathAlias (meta_of mode) && negb (blank (op_path (reopened o)))) =
            blank s && negb (meta_pathAlias (meta_of mode) && negb (blank (op_path o)))) as Ends.
  { intros b s ->. unfold blank at 1. rewrite endpoint_trim. unfold endpoint, blank, reopened. cbn [op_path]. fold mode. rewrite M.
    destruct (meta_pathAlias (meta_of mode)) eqn:E; [| by destruct (trim s)].
    destruct (A eq_refl) as (_ & _ & -> & ->). by destruct (trim s), (trim (op_path o)). }
  assert (includes_str FROM_REQUIRED_MODES mode && blank (op_from (reopened o)) && negb (meta_pathAlias (meta_of mode) && negb (blank (op_path (reopened o)))) =
          includes_str FROM_REQUIRED_MODES mode && blank (op_from o) && negb (meta_pathAlias (meta_of mode) && negb (blank (op_path o)))) as ->.
  { destruct (includes_str FROM_REQUIRED_MODES mode) eqn:E; [| done]. cbn [andb]. apply (Ends _ (op_from o)). by apply F. }
  assert (includes_str TO_REQUIRED_MODES mode && blank (op_to (reopened o)) && negb (meta_pathAlias (meta_of mode) && negb (blank (op_path (reopened o)))) =
          includes_str TO_REQUIRED_MODES mode && blank (op_to o) && negb (meta_pathAlias (meta_of mode) && negb (blank (op_path o)))) as ->.
  { rewrite <- !andb_assoc. f_equal. by apply (Ends _ (op_to o)). }
  clear A F Ends. destruct (includes_str VALUE_REQUIRED_MODES mode) eqn:E.
  - specialize (V (R eq_refl)). assert (op_value_text (reopened o) = value_again (op_value_text o)) as ->.
    { unfold reopened. cbn [op_value_text]. fold mode. by rewrite R. }
    rewrite return_error_by_value, pass_headers_by_value, (blank_again _ V), (proj1 V).
    by rewrite <- return_error_by_value, <- pass_headers_by_value.
  - assert (forall m, m ∈ VALUE_REQUIRED_MODES -> str_eqb mode m = false) as N.
    { intros m I. apply str_eqb_neq. intros ->. apply includes_str_elem in I. congruence. }
    rewrite (N (js "return_error")), (N (js "prune_objects")), (N (js "pass_headers")); [done | by apply includes_str_elem ..].
Qed.

Lemma blank_problem o : isOperationBlank o = true -> operation_problem o = Ok (Some MissingTargetPath).
Proof.
  unfold isOperationBlank. rewrite !andb_true_iff. intros [[[[[[M P] _] _] _] _] _]. apply str_eqb_eq in M.
  unfold operation_problem. rewrite M. unfold blank. by rewrite P.
Qed.

(** *** Identifiers do not matter *)

Lemma anonymous_payload o : operation_payload (anonymous o) = operation_payload o.
Proof.
  rewrite !payload_split. cbn [anonymous op_conditions]. change (plain_payload (anonymous o)) with (plain_payload o).
  assert (omap buildConditionPayload (map anonymous_condition (op_conditions o)) = omap buildConditionPayload (op_conditions o)) as ->.
  { induction (op_conditions o) as [| c cs IH]; [done |]. cbn. change (buildConditionPayload (anonymous_condition c)) with (buildConditionPayload c).
    by destruct (buildConditionPayload c); rewrite IH. }
  done.
Qed.

Lemma anonymous_problem o : operation_problem (anonymous o) = operation_problem o.
Proof. reflexivity. Qed.

Lemma validate_each line ops : validate_from line ops = Ok None <-> Forall (fun o => operation_problem o = Ok None) ops.
Proof.
  revert line. induction ops as [| o ops IH]; intros line; [done |]. cbn [validate_from]. rewrite list.Forall_cons.
  destruct (operation_problem o) as [[p |] | |]; cbn [obind]; [split; [done | by intros [? _]] | | split; [done | by intros [? _]] ..].
  rewrite IH. split; [done | by intros [_ ?]].
Qed.

Lemma valid_unblank o : operation_problem o = Ok None -> isOperationBlank o = false.
Proof. intros P. destruct (isOperationBlank o) eqn:B; [| done]. rewrite (blank_problem o B) in P. done. Qed.

(** The text of valid operations. *)
Lemma built_valid ops : ops <> [] -> Forall (fun o => operation_problem o = Ok None) ops ->
  buildOperationsJson ops true = Ok (print_pretty (override_value ops)).
Proof.
  intros Ne V. unfold buildOperationsJson.
  assert (List.filter (fun o => negb (isOperationBlank o)) ops = ops) as ->.
  { clear Ne. induction V as [| o ops Vo V IH]; [done |]. cbn. by rewrite (valid_unblank o Vo), IH. }
  destruct ops as [| o ops]; [done |]. unfold validateOperations. by rewrite (proj2 (validate_each 1 _) V).
Qed.

Lemma built_inv ops t : buildOperationsJson ops true = Ok t -> t <> [] ->
  let written := List.filter (fun o => negb (isOperationBlank o)) ops in
  written <> [] /\ Forall (fun o => operation_problem o = Ok None) written /\ t = print_pretty (override_value written).
Proof.
  unfold buildOperationsJson. cbv zeta. destruct (List.filter _ ops) as [| o written]; [by intros [= <-] |].
  destruct (validateOperations _) as [[[] |] | |] eqn:V; try done. intros [= <-] _. split; [done |].
  split; [by apply (validate_each 1) | done].
Qed.

Definition operation_ready (o : ParamOverrideOperation) : Prop := operation_units o /\ operation_known o /\ values_kept o.

(** What the user typed: texts of code units, modes that are offered, values without
    quotes around them. *)
Definition operation_typed (o : ParamOverrideOperation) : Prop :=
  operation_units o /\ operation_known o /\
  (meta_value (meta_of (op_mode o)) = true -> unquoted (op_value_text o) = true) /\
  Forall (fun c => unquoted (pc_value_text c) = true) (op_conditions o).

Lemma typed_ready o : operation_typed o -> operation_ready o.
Proof.
  intros (U & K & V & C). split; [done |]. split; [done |]. destruct U as (_ & _ & _ & _ & _ & Uv & Uc). split.
  - intros M. by apply unquoted_kept, V.
  - rewrite list.Forall_forall in Uc, C |- *. intros c I. apply unquoted_kept; [apply (Uc c I) | by apply C].
Qed.

Lemma unused_value o : plain_payload o = plain_payload (if meta_value (meta_of (mode_or_set (op_mode o))) then o else with_value_text [] o).
Proof.
  destruct (meta_value _) eqn:E; [done |]. rewrite !plain_payload_of. cbn [with_value_text op_description op_path op_mode op_from op_to op_keep_origin op_value_text].
  unfold payload_of. by rewrite E.
Qed.

Lemma unused_value_payload o : operation_payload o =
  operation_payload (if meta_value (meta_of (mode_or_set (op_mode o))) then o else with_value_text [] o).
Proof.
  rewrite !payload_split. rewrite (unused_value o). by destruct (meta_value (meta_of (mode_or_set (op_mode o)))).
Qed.

Lemma ready_textual o : operation_ready o -> textual (JObj (operation_payload o)) = true.
Proof.
  intros (U & K & V). rewrite unused_value_payload, (known_mode_text o K). destruct U as (Ud & Up & Um & Uf & Ut & Uv & Uc), V as [V Vc].
  assert (Forall (fun c => textual (parseLooseValue (pc_value_text c)) = true) (op_conditions o)) as Gc.
  { rewrite list.Forall_forall in Uc, Vc |- *. intros c I. apply kept_textual; [apply (Uc c I) | apply (Vc c I)]. }
  assert (forall o', operation_units o' -> values_good textual o' -> textual (JObj (operation_payload o')) = true) as G.
  { intros o' ? ?. apply payload_good; by intros. }
  destruct (meta_value (meta_of (op_mode o))) eqn:E; apply G; try done.
  split; [by apply kept_textual; [| apply V] | done].
Qed.

Section Reopen.
Variable clock : nat -> num.

Lemma override_textual ops : Forall operation_ready ops -> textual (override_value ops) = true.
Proof.
  intros R. unfold override_value. cbn [textual forallb fst snd]. rewrite andb_true_r, andb_true_r. apply andb_true_iff. split; [done |].
  apply forallb_forall. intros v (o & <- & I)%in_map_iff. apply list_elem_of_In in I. rewrite list.Forall_forall in R.
  by apply ready_textual, R.
Qed.

(** Opening the text of some operations. *)
Lemma open_override ops seed : ops <> [] -> Forall operation_ready ops ->
  exists ops' seed', parseInitialState clock (print_pretty (override_value ops)) seed =
      Ok (MkEditor EditVisual VisualOperations [] ops' (print_pretty (override_value ops)) None, seed') /\
    map anonymous ops' = map reopened ops.
Proof.
  intros Ne R. destruct (pretty_spelled _ (override_textual ops R)) as (_ & P & T & N). set (t := print_pretty (override_value ops)) in *.
  assert (Forall operation_known ops) as K by (eapply list.Forall_impl; [exact R | by intros o (_ & Ko & _)]).
  destruct (operations_read clock ops K seed) as (ops' & seed' & M & E). exists ops', seed'. split; [| done].
  unfold parseInitialState. rewrite T. destruct t as [| c r] eqn:Et; [done |]. rewrite P.
  change (listed_operations (override_value ops)) with (Some (map (fun o => JObj (operation_payload o)) ops)).
  unfold read_operations. destruct ops as [| o ops]; [done |]. cbn [map] in M |- *. cbn iota. rewrite M. cbn [obind].
  do 3 f_equal. exact Et.
Qed.

Lemma rebuilt ops ops' : Forall operation_ready ops -> map anonymous ops' = map reopened ops ->
  Forall (fun o => operation_problem o = Ok None) ops ->
  override_value ops' = override_value ops /\ Forall (fun o => operation_problem o = Ok None) ops'.
Proof.
  intros R E V. unfold override_value. enough (map (fun o => JObj (operation_payload o)) ops' = map (fun o => JObj (operation_payload o)) ops /\
    Forall (fun o => operation_problem o = Ok None) ops') as [-> F] by done.
  revert ops' E. induction R as [| o ops (U & K & Kv) R IH]; intros [| o' ops'] E; [done.. |]. cbn [map] in E. assert (anonymous o' = reopened o /\ map anonymous ops' = map reopened ops) as [Eo E'] by (by split; [apply (f_equal (hd o)) in E | apply (f_equal (@tl _)) in E]).
  apply list.Forall_cons in V as [Vo V]. destruct (IH V ops' E') as [Em F]. split.
  - cbn [map]. rewrite Em. do 2 f_equal. by rewrite <- (anonymous_payload o'), Eo, payload_again.
  - constructor; [| done]. by rewrite <- anonymous_problem, Eo, problem_again.
Qed.
End Reopen.

(** C23: What the visual editor saves, it opens again in the visual editor, with the saved operations (those that
    are not blank), each trimmed, without the fields its mode does not use and without the conditions that have no path;
    saving these without a change writes the same text.  This holds when the modes are among those offered and no value
    is typed as a JSON text in quotes or with a number that is minus zero or not finite (values in quotes are shown
    without them and can change their type). *)
Theorem saved_override_reopens clock ops t seed : Forall operation_typed ops -> buildOperationsJson ops true = Ok t -> t <> [] ->
  exists ops' seed', parseInitialState clock t seed = Ok (MkEditor EditVisual VisualOperations [] ops' t None, seed') /\
    map anonymous ops' = map reopened (List.filter (fun o => negb (isOperationBlank o)) ops) /\
    buildOperationsJson ops' true = Ok t.
Proof.
  intros R' B N. assert (Forall operation_ready ops) as R by (eapply list.Forall_impl; [exact R' | exact typed_ready]).
  destruct (built_inv ops t B N) as (Ne & V & ->). apply (filter_Forall _ (fun o => negb (isOperationBlank o))) in R.
  set (written := List.filter _ ops) in *. destruct (open_override clock written seed Ne R) as (ops' & seed' & O & E).
  exists ops', seed'. split; [done |]. split; [done |]. destruct (rebuilt _ _ R E V) as [W V'].
  rewrite <- W. apply built_valid; [| done]. intros ->. by destruct written.
Qed.

(** ** Examples *)

Definition sample_operation : ParamOverrideOperation :=
  MkOperation (js "a") (js " Default ") (js "temperature ") (js "set") (js "unused") [] (js " 0.7") true (js "AND")
    [MkCondition (js "b") (js "model") (js "prefix") (js "openai/") false true; MkCondition (js "c") [] (js "full") [] true false].

Lemma default_typed clock seed : operation_typed (createDefaultOperation clock seed).
Proof. split; [by repeat split |]. split; [by split |]. by split. Qed.

Lemma sample_operation_typed : operation_typed sample_operation.
Proof.
  split; [repeat split; try done; constructor; [done |]; constructor; [done | constructor] |].
  split; [split; [done |]; constructor; [done |]; constructor; [done | constructor] |].
  split; [intros _; vm_compute; reflexivity |]. repeat constructor.
Qed.

Lemma saved_override_reopens_witness :
  exists t ops' seed', buildOperationsJson [sample_operation; createDefaultOperation (fun _ => num_zero) 3] true = Ok t /\ t <> [] /\
    parseInitialState (fun _ => num_zero) t 4 = Ok (MkEditor EditVisual VisualOperations [] ops' t None, seed') /\
    buildOperationsJson ops' true = Ok t.
Proof.
  assert (exists t, buildOperationsJson [sample_operation; createDefaultOperation (fun _ => num_zero) 3] true = Ok t /\ t <> []) as (t & B & N).
  { eexists. split; [vm_compute; reflexivity | done]. }
  assert (Forall operation_typed [sample_operation; createDefaultOperation (fun _ => num_zero) 3]) as R.
  { constructor; [exact sample_operation_typed |]. constructor; [apply default_typed | constructor]. }
  destruct (saved_override_reopens (fun _ => num_zero) _ t 4 R B N) as (ops' & seed' & O & _ & B'). by exists t, ops', seed'.
Defined.

Lemma saved_override_is_json_witness :
  exists t v, save_result (MkDialog EditJson VisualOperations [] [] (js " [1, 2 ] ") None [] [] 0 []) = Ok t /\ json_parse t = Ok v.
Proof.
  set (d := MkDialog EditJson VisualOperations [] [] (js " [1, 2 ] ") None [] [] 0 []).
  assert (exists t, save_result d = Ok t /\ t <> []) as (t & S & N) by (eexists; split; [vm_compute; reflexivity | done]).
  destruct (saved_override_is_json d t) as [-> | (v & P & _)]; [by repeat split; constructor | done | done |].
  by exists t, v.
Defined.

(** A value in quotes is shown without them and becomes a number the next time. *)
Example quoted_value_lost : let text := json_stringify (js "12") in
  parseLooseValue text = JStr (js "12") /\ value_again text = js "12" /\ parseLooseValue (value_again text) = JNum (lit 12).
Proof. vm_compute. done. Qed.

(** Every template of operations opens in the visual editor with as many operations as it
    has, and they are valid. *)
Example templates_open : forallb (fun e : str * (TemplateKind * jsval) =>
  match e.2 with
  | (OperationsTemplate, payload) =>
      match parseInitialState (fun _ => num_zero) (print_pretty payload) 0 with
      | Ok (s, _) =>
          Nat.eqb (length (es_operations s)) (length (default [] (listed_operations payload))) &&
          match validateOperations (es_operations s) with Ok None => true | _ => false end
      | _ => false
      end
  | _ => true
  end) TEMPLATE_PRESET_CONFIG = true.
Proof. vm_compute. reflexivity. Qed.
