(* ===== verification/ChannelForm.v ===== *)
(** * The form of a channel

    Models [features/channels/lib/channel-form.ts]: the validation helpers and the
    refinement of the form's schema, what a channel of the server is turned into
    when it is opened, the two JSON texts the form writes and the payloads that
    create and update a channel; [upstream-update-utils.ts],
    [channel-form-errors.ts] and [channel-configuration.ts].

    Channels, forms and payloads are JavaScript objects: a property is read as the
    source reads it, whatever it holds, and a call of a method a value does not have
    throws.  The URL constructor is the parameter [url_parts] (protocol, host name
    and port, or [None] where it throws). *)

From Stdlib Require Import ZArith Lia Bool SpecFloat.
From stdpp Require Import base list numbers.
From S2P Require Import Prelude JsString JsNumber JsObject JsMap JsValue JsJson JsJsonPrint JsDynamic JsURL JsHost JsCoerce AdvancedCustom PlaygroundMessages.

(** ** Reading objects *)

Notation field v k := (get_field v (js k)).

(** [v ?? d] *)
Definition value_coalesce (v d : jsval) : jsval := if is_nullish v then d else v.

Definition is_yes (v : jsval) : jsval := JBool (strict_eq_primitive v (JBool true)).
Definition is_type (v : jsval) (n : Z) : bool := strict_eq_primitive v (JNum (lit n)).
Definition type_in (v : jsval) (types : list Z) : bool := existsb (is_type v) types.

(** [v.join(',')] *)
Definition value_join (v : jsval) : outcome JsError str := match v with JArr _ => js_String v | _ => Throw TypeError end.

(** A text a function takes as [string | undefined]. *)
Definition opt_text (v : jsval) : outcome JsError (option str) :=
  match v with JUndefined | JNull => Ok None | JStr s => Ok (Some s) | _ => Throw TypeError end.

(** [!v?.trim()] *)
Definition lacks_text (v : jsval) : outcome JsError bool := let* s := trim_or_empty v in Ok (negb (non_empty s)).

(** [split(',').map(trim).filter(Boolean)] *)
Definition comma_list (s : str) : list str := List.filter non_empty (map trim (split_char 44%N s)).

(** ** Channel types *)

Definition CHANNEL_TYPE_NEW_API : Z := 60.
Definition CHANNEL_TYPE_TASK_PLUGIN : Z := 61.
Definition CHANNEL_TYPE_ADVANCED_CUSTOM : Z := 58.
Definition CHANNEL_STATUS_ENABLED : Z := 1.
Definition MODEL_FETCHABLE_TYPES : list Z :=
  [1; 4; 14; 17; 20; 23; 24; 25; 26; 27; 31; 34; 35; 40; 42; 43; 47; 48; 57; 58; 59; 60]%Z.
Definition FIELD_PASSTHROUGH_TYPES : list Z := [1; 14; 57; 58; 59; CHANNEL_TYPE_NEW_API]%Z.
Definition OPENAI_FIELD_PASSTHROUGH_TYPES : list Z := [1; 57; 58; 59; CHANNEL_TYPE_NEW_API]%Z.
Definition CLAUDE_FIELD_PASSTHROUGH_TYPES : list Z := [14; 58; 59; CHANNEL_TYPE_NEW_API]%Z.

(** ** Validation *)

Definition SUPPORTED_PROXY_PROTOCOLS : list str := [js "http:"; js "https:"; js "socks5:"; js "socks5h:"].

(** The texts around the first occurrence of [://]. *)
Fixpoint cut_scheme (s : str) : option (str * str) :=
  match s with
  | [] => None
  | c :: r =>
      if starts_with (js "://") s then Some ([], drop 3 s)
      else match cut_scheme r with Some (a, b) => Some (c :: a, b) | None => None end
  end.

Section Schema.
Context `{URLHost}.
Variable url_parts : str -> option (str * str * str).

Definition isOptionalProxyURL (value : jsval) : outcome JsError bool :=
  let* trimmedValue := trim_or_empty value in
  match trimmedValue with
  | [] => Ok true
  | _ =>
      Ok (match cut_scheme trimmedValue with
          | None | Some ([], _) => false
          | Some (_, authorityAndSuffix) =>
              let '(_, suffix) := span (fun c => negb (existsb (N.eqb c) [47; 63; 35]%N)) authorityAndSuffix in
              if non_empty suffix && negb (str_eqb suffix (js "/")) then false
              else match url_parts trimmedValue with
                   | Some (protocol, hostname, port) =>
                       includes_str SUPPORTED_PROXY_PROTOCOLS protocol && non_empty hostname && negb (str_eqb port (js "0"))
                   | None => false
                   end
          end)
  end.

Definition HTTP_PROTOCOL_AUTO : str := js "auto".
Definition HTTP_PROTOCOL_HTTP1 : str := js "http1".
Definition MAX_HTTP2_CONNECTION_SHARDS : Z := 8.

Definition normalizeHttpProtocol (value : jsval) : outcome JsError str :=
  let* s := js_String (value_or value (JStr [])) in
  Ok (if lower_is (trim s) HTTP_PROTOCOL_HTTP1 then HTTP_PROTOCOL_HTTP1 else HTTP_PROTOCOL_AUTO).

Definition normalizeHttp2ConnectionShards (value : jsval) : outcome JsError jsval :=
  if is_nullish value || match value with JNum n => is_nan n | _ => false end || strict_eq_primitive value (JNum num_zero)
  then Ok (JNum (lit 1))
  else
    let* n := value_Number value in
    Ok (if num_ltb n (lit 1) then JNum (lit 1)
        else if num_ltb (lit MAX_HTTP2_CONNECTION_SHARDS) n then JNum (lit MAX_HTTP2_CONNECTION_SHARDS) else value).

(** [JSON.parse(value)] *)
Definition parse_value (value : jsval) : outcome JsError jsval := let* s := js_String value in json_parse s.

Definition parseOptionalJson (value : jsval) : outcome JsError jsval :=
  let* empty := lacks_text value in if empty then Ok JUndefined else parse_value value.

(** [typeof value === 'object' && value !== null && !Array.isArray(value)] *)
Definition isJsonObjectValue (value : jsval) : bool := is_record value.

(** A test of a parsed text that holds where there is none and not where parsing fails. *)
Definition optional_json (test : jsval -> outcome JsError bool) (value : jsval) : bool :=
  match parseOptionalJson value with
  | Ok JUndefined => true
  | Ok parsed => match test parsed with Ok b => b | _ => false end
  | _ => false
  end.

Definition isOptionalJsonObject : jsval -> bool := optional_json (fun parsed => Ok (isJsonObjectValue parsed)).

Definition is_string_value (v : jsval) : bool := match v with JStr _ => true | _ => false end.

Definition isOptionalModelMapping : jsval -> bool :=
  optional_json (fun parsed => Ok (match parsed with JObj fields => forallb (fun e => is_string_value e.2) fields | _ => false end)).

Definition status_code (n : num) : bool := is_integer n && num_leb (lit 100) n && num_leb n (lit 599).

Fixpoint status_entries (fields : list (str * jsval)) : outcome JsError bool :=
  match fields with
  | [] => Ok true
  | (from, to) :: fields =>
      let* toCode := value_Number to in
      if status_code (js_Number from) && status_code toCode then status_entries fields else Ok false
  end.

Definition isOptionalStatusCodeMapping : jsval -> bool :=
  optional_json (fun parsed => match parsed with JObj fields => status_entries fields | _ => Ok false end).

Definition has_text (v : jsval) : bool := match v with JStr s => non_empty (trim s) | _ => false end.

Definition isCodexCredential : jsval -> bool :=
  optional_json (fun parsed => Ok (isJsonObjectValue parsed && has_text (field parsed "access_token") && has_text (field parsed "account_id"))).

Definition isVertexJsonKey : jsval -> bool :=
  optional_json (fun parsed => Ok (match parsed with JArr items => forallb isJsonObjectValue items | _ => isJsonObjectValue parsed end)).

(** *** The refinement of the schema *)

Definition issue_if (b : bool) (path message : str) : list (str * str) := if b then [(path, message)] else [].
Definition when (b : bool) (m : outcome JsError bool) : outcome JsError bool := if b then m else Ok false.

(** The problems of a custom configuration. *)
Definition custom_issues (data : jsval) : outcome JsError (list (str * str)) :=
  if negb (is_type (field data "type") CHANNEL_TYPE_ADVANCED_CUSTOM) then Ok []
  else
    let* text := opt_text (field data "advanced_custom") in
    let config := parseAdvancedCustomConfig text in
    let* error := validateAdvancedCustomConfig config in
    let* relative := advancedCustomConfigUsesRelativeUpstreamPath config in
    let* no_url := when relative (lacks_text (field data "base_url")) in
    let* listed := hasValidAdvancedCustomModelListRoute config in
    Ok (match error with Some e => [(js "advanced_custom", ve_message e)] | None => [] end ++
        issue_if no_url (js "base_url") (js "Base URL is required when an advanced route uses an upstream path") ++
        issue_if (strict_eq_primitive (field data "upstream_model_update_check_enabled") (JBool true) && negb listed)
          (js "upstream_model_update_check_enabled") (js "OpenAI Models route is required to enable upstream model checks")).

(** [data.multi_key_mode && data.multi_key_mode !== 'single'] *)
Definition several_keys (data : jsval) : bool :=
  value_truthy (field data "multi_key_mode") && negb (value_is_text (field data "multi_key_mode") (js "single")).

(** [data.key?.trim() && !test(data.key)] *)
Definition bad_key (data : jsval) (test : jsval -> bool) : outcome JsError bool :=
  let* empty := lacks_text (field data "key") in Ok (negb empty && negb (test (field data "key"))).

Definition superRefine (data : jsval) : outcome JsError (list (str * str)) :=
  let type := field data "type" in
  let* no_url := when (type_in type [3; 8; 36; 45; CHANNEL_TYPE_NEW_API; CHANNEL_TYPE_TASK_PLUGIN]%Z) (lacks_text (field data "base_url")) in
  let* no_plugin := when (is_type type CHANNEL_TYPE_TASK_PLUGIN) (lacks_text (field data "task_plugin_key")) in
  let* custom := custom_issues data in
  let vertex kind := is_type type 41 && value_is_text (field data "vertex_key_type") kind in
  let* no_other := when (type_in type [3; 18; 21; 39; 41; 49]%Z) (lacks_text (field data "other")) in
  let* bad_codex := when (is_type type 57) (bad_key data isCodexCredential) in
  let* bad_vertex := when (vertex (js "json")) (bad_key data isVertexJsonKey) in
  let* protocol := normalizeHttpProtocol (field data "http_protocol") in
  let* shards := value_Number (value_coalesce (field data "http2_connection_shards") (JNum (lit 1))) in
  Ok (issue_if no_url (js "base_url") (js "Base URL is required for this channel type") ++
      issue_if no_plugin (js "task_plugin_key") (js "Task plugin is required") ++
      custom ++
      issue_if no_other (js "other") (js "This channel type requires additional configuration") ++
      issue_if (is_type type 57 && several_keys data) (js "multi_key_mode") (js "Codex channels do not support batch creation") ++
      issue_if bad_codex (js "key") (js "Codex credential must be a JSON object with access_token and account_id") ++
      issue_if bad_vertex (js "key") (js "Vertex AI service account key must be valid JSON") ++
      issue_if (vertex (js "api_key") && several_keys data) (js "multi_key_mode") (js "Vertex AI API Key mode does not support batch creation") ++
      issue_if (num_ltb shards (lit 1) || num_ltb (lit MAX_HTTP2_CONNECTION_SHARDS) shards)
        (js "http2_connection_shards") (js "HTTP/2 connection shards must be between 1 and 8") ++
      issue_if (str_eqb protocol HTTP_PROTOCOL_HTTP1 && num_ltb (lit 1) shards)
        (js "http2_connection_shards") (js "HTTP/2 connection shards must be 1 when HTTP/1.1 is selected")).
End Schema.

(** ** Lists as texts *)

Definition parseModels (models : str) : list str := comma_list models.
Definition parseGroups (groups : str) : list str := comma_list groups.
Definition formatModels (models : list str) : str := join (js ",") models.
Definition formatGroups (groups : list str) : str := join (js ",") groups.

Definition validateJSON (value : str) : bool :=
  match trim value with [] => true | _ => match json_parse value with Ok _ => true | _ => false end end.
Definition validateModelMapping (value : str) : bool := match trim value with [] => true | _ => validateJSON value end.

(** ** Defaults *)

Definition text_entry (k : str) : str * jsval := (k, JStr []).
Definition no_entry (k : str) : str * jsval := (k, JBool false).

Definition CHANNEL_FORM_DEFAULT_VALUES : jsval :=
  JObj [text_entry (js "name"); (js "type", JNum (lit 1)); text_entry (js "base_url"); text_entry (js "task_plugin_key");
        text_entry (js "key"); text_entry (js "openai_organization"); text_entry (js "models");
        (js "group", JArr [JStr (js "default")]); text_entry (js "model_mapping"); (js "priority", JNum num_zero);
        (js "weight", JNum num_zero); text_entry (js "test_model"); (js "auto_ban", JNum (lit 1));
        (js "status", JNum (lit CHANNEL_STATUS_ENABLED)); text_entry (js "status_code_mapping"); text_entry (js "tag");
        text_entry (js "remark"); text_entry (js "setting"); text_entry (js "param_override"); text_entry (js "header_override");
        (js "settings", JStr (js "{}")); text_entry (js "other"); (js "multi_key_mode", JStr (js "single"));
        (js "multi_key_type", JStr (js "random")); no_entry (js "batch_add_set_key_prefix_2_name"); (js "key_mode", JStr (js "append"));
        no_entry (js "force_format"); no_entry (js "thinking_to_content"); text_entry (js "proxy");
        (js "http_protocol", JStr HTTP_PROTOCOL_AUTO); (js "http2_connection_shards", JNum (lit 1));
        no_entry (js "pass_through_body_enabled"); text_entry (js "system_prompt"); no_entry (js "system_prompt_override");
        no_entry (js "is_enterprise_account"); (js "vertex_key_type", JStr (js "json")); (js "aws_key_type", JStr (js "ak_sk"));
        text_entry (js "azure_responses_version"); no_entry (js "allow_service_tier"); no_entry (js "disable_store");
        no_entry (js "allow_safety_identifier"); no_entry (js "allow_include_obfuscation"); no_entry (js "allow_inference_geo");
        no_entry (js "allow_speed"); no_entry (js "claude_beta_query"); no_entry (js "disable_task_polling_sleep");
        no_entry (js "upstream_model_update_check_enabled"); no_entry (js "upstream_model_update_auto_sync_enabled");
        text_entry (js "upstream_model_update_ignored_models"); text_entry (js "advanced_custom")].

(** ** Opening a channel *)

Definition default_extra : list (str * jsval) :=
  [text_entry (js "task_plugin_key"); no_entry (js "force_format"); no_entry (js "thinking_to_content"); text_entry (js "proxy");
   (js "http_protocol", JStr HTTP_PROTOCOL_AUTO); (js "http2_connection_shards", JNum (lit 1));
   no_entry (js "pass_through_body_enabled"); text_entry (js "system_prompt"); no_entry (js "system_prompt_override")].

Definition text_prop (v : jsval) (k : str) : str * jsval := (k, value_or (get_field v k) (JStr [])).
Definition flag_of (v : jsval) (k : str) : str * jsval := (k, value_or (get_field v k) (JBool false)).
Definition yes_of (v : jsval) (k : str) : str * jsval := (k, is_yes (get_field v k)).

Definition read_extra (setting : jsval) : outcome JsError (list (str * jsval)) :=
  let* parsed := parse_value setting in
  let* http := value_prop parsed (js "http_protocol") in
  let* protocol := normalizeHttpProtocol http in
  let* shards := normalizeHttp2ConnectionShards (field parsed "http2_connection_shards") in
  Ok [text_prop parsed (js "task_plugin_key"); flag_of parsed (js "force_format"); flag_of parsed (js "thinking_to_content");
      text_prop parsed (js "proxy"); (js "http_protocol", JStr protocol);
      (js "http2_connection_shards", if str_eqb protocol HTTP_PROTOCOL_HTTP1 then JNum (lit 1) else shards);
      flag_of parsed (js "pass_through_body_enabled"); text_prop parsed (js "system_prompt"); flag_of parsed (js "system_prompt_override")].

(** What throws is caught and reported on the console. *)
Definition extraSettings (channel : jsval) : list (str * jsval) :=
  let setting := field channel "setting" in
  if value_truthy setting then match read_extra setting with Ok extra => extra | _ => default_extra end else default_extra.

(** The settings of some types, read from [parsed]; the texts are assigned last, so that
    what throws there leaves them empty. *)
Definition own_settings (parsed : jsval) (ignored custom : str) : list (str * jsval) :=
  [(js "is_enterprise_account", is_yes (field parsed "openrouter_enterprise"));
   (js "vertex_key_type", value_or (field parsed "vertex_key_type") (JStr (js "json")));
   text_prop parsed (js "azure_responses_version");
   (js "aws_key_type", value_or (field parsed "aws_key_type") (JStr (js "ak_sk")));
   yes_of parsed (js "allow_service_tier"); yes_of parsed (js "disable_store"); yes_of parsed (js "allow_include_obfuscation");
   yes_of parsed (js "allow_inference_geo"); yes_of parsed (js "allow_speed"); yes_of parsed (js "claude_beta_query");
   yes_of parsed (js "disable_task_polling_sleep"); yes_of parsed (js "allow_safety_identifier");
   yes_of parsed (js "upstream_model_update_check_enabled"); yes_of parsed (js "upstream_model_update_auto_sync_enabled");
   (js "upstream_model_update_ignored_models", JStr ignored); (js "advanced_custom", JStr custom)].

Definition read_settings (parsed : jsval) : list (str * jsval) :=
  if is_nullish parsed then own_settings (JObj []) [] []
  else
    match (match field parsed "upstream_model_update_ignored_models" with JArr items => js_String (JArr items) | _ => Ok [] end) with
    | Ok ignored =>
        let custom := field parsed "advanced_custom" in
        own_settings parsed ignored
          (if value_truthy custom then match stringifyAdvancedCustomConfig custom with Ok s => s | _ => [] end else [])
    | _ => own_settings parsed [] []
    end.

Definition typeSettings (channel : jsval) : list (str * jsval) :=
  let settings := field channel "settings" in
  if value_truthy settings
  then match parse_value settings with Ok parsed => read_settings parsed | _ => own_settings (JObj []) [] [] end
  else own_settings (JObj []) [] [].

Definition transformChannelToFormDefaults (channel : jsval) : outcome JsError jsval :=
  let text k := text_prop channel k in
  let* groups := match value_or (field channel "group") (JStr (js "default")) with JStr s => Ok (parseGroups s) | _ => Throw TypeError end in
  let* mode := value_prop (field channel "channel_info") (js "multi_key_mode") in
  Ok (JObj (
    [text (js "name"); (js "type", field channel "type"); text (js "base_url"); text_entry (js "key");
     text (js "openai_organization"); text (js "models"); (js "group", JArr (map JStr groups)); text (js "model_mapping");
     (js "priority", value_or (field channel "priority") (JNum num_zero)); (js "weight", value_or (field channel "weight") (JNum num_zero));
     text (js "test_model"); (js "auto_ban", value_coalesce (field channel "auto_ban") (JNum (lit 1)));
     (js "status", field channel "status"); text (js "status_code_mapping"); text (js "tag"); text (js "remark"); text (js "setting");
     text (js "param_override"); text (js "header_override"); (js "settings", value_or (field channel "settings") (JStr (js "{}")));
     text (js "other"); (js "multi_key_mode", JStr (js "single")); (js "multi_key_type", value_or mode (JStr (js "random")));
     no_entry (js "batch_add_set_key_prefix_2_name"); (js "key_mode", JStr (js "append"))] ++
    extraSettings channel ++ typeSettings channel)).

(** ** What the form writes *)

Definition buildSettingJSON (formData : jsval) : outcome JsError str :=
  let flag k := flag_of formData k in
  let* plugin := if is_type (field formData "type") CHANNEL_TYPE_TASK_PLUGIN
                 then let* s := trim_or_empty (field formData "task_plugin_key") in Ok (JStr s) else Ok JUndefined in
  let* proxy := trim_or_empty (field formData "proxy") in
  let* protocol := normalizeHttpProtocol (field formData "http_protocol") in
  let* shards := if str_eqb protocol HTTP_PROTOCOL_HTTP1 then Ok (JNum (lit 1))
                 else normalizeHttp2ConnectionShards (field formData "http2_connection_shards") in
  let* count := value_Number shards in
  Ok (print_compact (JObj (
    [(js "task_plugin_key", plugin); flag (js "force_format"); flag (js "thinking_to_content"); (js "proxy", JStr proxy);
     flag (js "pass_through_body_enabled"); text_prop formData (js "system_prompt"); flag (js "system_prompt_override")] ++
    (if str_eqb protocol HTTP_PROTOCOL_HTTP1 then [(js "http_protocol", JStr HTTP_PROTOCOL_HTTP1)]
     else if num_ltb (lit 1) count then [(js "http2_connection_shards", shards)] else [])))).

(** [delete o[k]] *)
Definition obj_delete {A} (o : list (str * A)) (k : str) : list (str * A) := List.filter (fun e => negb (str_eqb e.1 k)) o.

(** [if (b) o[k] = v else if (k in o) delete o[k]] *)
Definition put_or_delete (b : bool) (k : str) (v : jsval) (o : list (str * jsval)) : list (str * jsval) :=
  if b then obj_put o k v else obj_delete o k.

(** The settings of upstream model updates. *)
Definition put_upstream (formData : jsval) (o : list (str * jsval)) : outcome JsError (list (str * jsval)) :=
  let check := strict_eq_primitive (field formData "upstream_model_update_check_enabled") (JBool true) in
  let auto_sync := strict_eq_primitive (field formData "upstream_model_update_auto_sync_enabled") (JBool true) in
  let* ignored := js_String (value_or (field formData "upstream_model_update_ignored_models") (JStr [])) in
  let o := obj_put o (js "upstream_model_update_check_enabled") (JBool check) in
  let o := obj_put o (js "upstream_model_update_auto_sync_enabled") (JBool (check && auto_sync)) in
  let o := obj_put o (js "upstream_model_update_ignored_models") (JArr (map JStr (set_from (comma_list ignored)))) in
  let detected := match get_field (JObj o) (js "upstream_model_update_last_detected_models") with JArr _ => check | _ => false end in
  let o := if detected then o else obj_put o (js "upstream_model_update_last_detected_models") (JArr []) in
  Ok (match get_field (JObj o) (js "upstream_model_update_last_check_time") with
      | JNum _ => o
      | _ => obj_put o (js "upstream_model_update_last_check_time") (JNum num_zero)
      end).

(** The custom configuration, if the form has one. *)
Definition put_custom (formData : jsval) (o : list (str * jsval)) : outcome JsError (list (str * jsval)) :=
  if is_type (field formData "type") CHANNEL_TYPE_ADVANCED_CUSTOM then
    let* text := opt_text (field formData "advanced_custom") in
    Ok (match parseAdvancedCustomConfig text with Some config => obj_put o (js "advanced_custom") config | None => o end)
  else Ok (obj_delete o (js "advanced_custom")).

(** The settings that depend on the type alone. *)
Definition put_type_settings (formData : jsval) (o : list (str * jsval)) : list (str * jsval) :=
  let type := field formData "type" in
  let openai := type_in type OPENAI_FIELD_PASSTHROUGH_TYPES in
  let claude := type_in type CLAUDE_FIELD_PASSTHROUGH_TYPES in
  let yes k := is_yes (get_field formData k) in
  let version := field formData "azure_responses_version" in
  let o := put_or_delete (is_type type 41) (js "vertex_key_type") (value_or (field formData "vertex_key_type") (JStr (js "json"))) o in
  let o := put_or_delete (is_type type 3 && value_truthy version) (js "azure_responses_version") version o in
  let o := put_or_delete (is_type type 20) (js "openrouter_enterprise") (yes (js "is_enterprise_account")) o in
  let o := put_or_delete (is_type type 33) (js "aws_key_type") (value_or (field formData "aws_key_type") (JStr (js "ak_sk"))) o in
  let o := put_or_delete (type_in type FIELD_PASSTHROUGH_TYPES) (js "allow_service_tier") (yes (js "allow_service_tier")) o in
  let o := put_or_delete openai (js "disable_store") (yes (js "disable_store")) o in
  let o := put_or_delete openai (js "allow_safety_identifier") (yes (js "allow_safety_identifier")) o in
  let o := put_or_delete openai (js "allow_include_obfuscation") (yes (js "allow_include_obfuscation")) o in
  let o := put_or_delete (openai || claude) (js "allow_inference_geo") (yes (js "allow_inference_geo")) o in
  let o := put_or_delete claude (js "allow_speed") (yes (js "allow_speed")) o in
  let o := put_or_delete (is_type type 14) (js "claude_beta_query") (yes (js "claude_beta_query")) o in
  obj_put o (js "disable_task_polling_sleep") (yes (js "disable_task_polling_sleep")).

Definition put_settings (formData : jsval) (o : list (str * jsval)) : outcome JsError (list (str * jsval)) :=
  let o := put_type_settings formData o in
  let* o := if type_in (field formData "type") MODEL_FETCHABLE_TYPES then put_upstream formData o else Ok o in
  put_custom formData o.

(** The settings the form was opened with; a text that is no JSON counts as none. *)
Definition existing_settings (formData : jsval) : jsval :=
  let settings := field formData "settings" in
  if value_truthy settings && negb (value_is_text settings (js "{}"))
  then match parse_value settings with Ok parsed => parsed | _ => JObj [] end else JObj [].

(** Properties of an array are not written, and other values have none. *)
Definition buildSettingsJSON (formData : jsval) : outcome JsError str :=
  match existing_settings formData with
  | JObj fields => let* o := put_settings formData fields in Ok (print_compact (JObj o))
  | JArr items => let* _ := put_settings formData [] in Ok (print_compact (JArr items))
  | _ => Throw TypeError
  end.

(** [value.replace(/\/+$/, '')] *)
Definition drop_slashes (s : str) : str := reverse (drop_while (fun c => (c =? 47)%N) (reverse s)).

Definition normalizeBaseUrl (value : jsval) : outcome JsError str :=
  let* s := js_String (value_or value (JStr [])) in Ok (drop_slashes (trim s)).

(** [v || null] and [v || ''] *)
Definition or_null (formData : jsval) (k : str) : str * jsval := (k, value_or (get_field formData k) JNull).

(** [channel[key] === ''] becomes [null]. *)
Definition empty_to_null (e : str * jsval) : str * jsval := (e.1, if value_is_text e.2 [] then JNull else e.2).

(** What both payloads hold. *)
Definition payload_entries (formData : jsval) (base_url groups setting settings : str) (priority weight : jsval) (key status : list (str * jsval))
    : list (str * jsval) :=
  [(js "name", field formData "name"); (js "type", field formData "type"); (js "base_url", value_or (JStr base_url) JNull)] ++ key ++
  [or_null formData (js "openai_organization"); (js "models", field formData "models"); (js "group", JStr groups);
   or_null formData (js "model_mapping"); (js "priority", priority); (js "weight", weight); or_null formData (js "test_model");
   (js "auto_ban", value_coalesce (field formData "auto_ban") (JNum (lit 1)))] ++ status ++
  [or_null formData (js "status_code_mapping"); or_null formData (js "tag"); text_prop formData (js "remark"); (js "setting", JStr setting); or_null formData (js "param_override");
   or_null formData (js "header_override"); (js "settings", JStr settings); text_prop formData (js "other")].

Definition transformFormDataToCreatePayload (formData : jsval) : outcome JsError jsval :=
  let mode := value_or (field formData "multi_key_mode") (JStr (js "single")) in
  let* base_url := normalizeBaseUrl (field formData "base_url") in
  let* groups := value_join (field formData "group") in
  let* setting := buildSettingJSON formData in
  let* settings := buildSettingsJSON formData in
  let channel := payload_entries formData base_url groups setting settings (value_or (field formData "priority") JNull)
                   (value_or (field formData "weight") JNull) [(js "key", field formData "key")] [(js "status", field formData "status")] in
  Ok (JObj [(js "mode", mode);
            (js "multi_key_mode", if value_is_text mode (js "multi_to_single") then field formData "multi_key_type" else JUndefined);
            (js "batch_add_set_key_prefix_2_name",
             if value_is_text mode (js "batch") then field formData "batch_add_set_key_prefix_2_name" else JUndefined);
            (js "channel", JObj (map empty_to_null channel))]).

(** The fields an update clears with an empty text. *)
Definition cleared_fields : list str :=
  [js "openai_organization"; js "test_model"; js "tag"; js "remark"; js "model_mapping"; js "status_code_mapping"; js "param_override";
   js "header_override"].

Definition transformFormDataToUpdatePayload (formData channelId : jsval) : outcome JsError jsval :=
  let* base_url := normalizeBaseUrl (field formData "base_url") in
  let* groups := value_join (field formData "group") in
  let* setting := buildSettingJSON formData in
  let* settings := buildSettingsJSON formData in
  let payload := (js "id", channelId) ::
    payload_entries formData base_url groups setting settings (value_coalesce (field formData "priority") (JNum num_zero))
      (value_coalesce (field formData "weight") (JNum num_zero)) [] [] in
  let key := field formData "key" in
  let* given := if value_truthy key then let* s := value_trim key in Ok (non_empty s) else Ok false in
  let payload := if given then obj_put payload (js "key") key else payload in
  let payload := map empty_to_null payload in
  let payload := obj_put payload (js "base_url") (JStr base_url) in
  Ok (JObj (fold_left (fun o k => obj_put o k (value_or (get_field formData k) (JStr []))) cleared_fields payload)).

(** ** Upstream model updates *)

(** [Array.from(new Set(models.map((m) => String(m || '').trim()).filter(Boolean)))] *)
Fixpoint model_names (models : list jsval) : outcome JsError (list str) :=
  match models with
  | [] => Ok []
  | m :: models =>
      let* s := js_String (value_or m (JStr [])) in
      let* names := model_names models in Ok (if non_empty (trim s) then trim s :: names else names)
  end.

Definition normalizeModelList (models : jsval) : outcome JsError (list str) :=
  match models with
  | JArr items => let* names := model_names items in Ok (set_from names)
  | JUndefined | JNull => Ok []
  | _ => Throw TypeError
  end.

Record UpstreamUpdateMeta := MkUpstreamMeta { um_enabled : bool; um_pendingAdd : list str; um_pendingRemove : list str }.

Definition parseUpstreamUpdateMeta (settings : jsval) : outcome JsError UpstreamUpdateMeta :=
  let parsed :=
    match settings with
    | JObj _ => settings
    | JStr s => match json_parse s with Ok v => v | _ => JNull end
    | _ => JNull
    end in
  match parsed with
  | JObj _ | JArr _ =>
      let* added := normalizeModelList (value_or (field parsed "upstream_model_update_last_detected_models") (JArr [])) in
      let* removed := normalizeModelList (value_or (field parsed "upstream_model_update_last_removed_models") (JArr [])) in
      Ok (MkUpstreamMeta (strict_eq_primitive (field parsed "upstream_model_update_check_enabled") (JBool true)) added removed)
  | _ => Ok (MkUpstreamMeta false [] [])
  end.

(** ** Errors of the form *)

Definition ADVANCED_SETTINGS_FIELDS : list str :=
  [js "priority"; js "weight"; js "test_model"; js "auto_ban"; js "tag"; js "remark"; js "param_override"; js "header_override";
   js "status_code_mapping"; js "advanced_custom"; js "force_format"; js "thinking_to_content"; js "pass_through_body_enabled";
   js "proxy"; js "http_protocol"; js "http2_connection_shards"; js "system_prompt"; js "system_prompt_override";
   js "allow_service_tier"; js "disable_store"; js "allow_safety_identifier"; js "allow_include_obfuscation";
   js "allow_inference_geo"; js "allow_speed"; js "claude_beta_query"; js "disable_task_polling_sleep";
   js "upstream_model_update_check_enabled"; js "upstream_model_update_auto_sync_enabled"; js "upstream_model_update_ignored_models"].

Definition isAdvancedSettingsField (fieldName : str) : bool := includes_str ADVANCED_SETTINGS_FIELDS fieldName.
Definition hasAdvancedSettingsErrors (errors : list str) : bool := existsb isAdvancedSettingsField errors.

(** ** The state of the sections *)

Inductive ConfigSection := SecConnection | SecRouting | SecRequest | SecOther.
Inductive ConfigStatus := StIdle | StConfigured | StReady | StError.
Inductive ConfigBlock :=
| ModelMapping | RoutingStrategy | OverrideRules | RequestProcessing | FieldPassthrough | ExtraSettings | UpstreamModelDetection | InternalNotes.

#[export] Instance config_section_eq_dec : EqDecision ConfigSection.
Proof. solve_decision. Defined.
#[export] Instance config_status_eq_dec : EqDecision ConfigStatus.
Proof. solve_decision. Defined.

Definition CONFIGURATION_BLOCKS : list (ConfigBlock * (ConfigSection * list str)) :=
  [(ModelMapping, (SecRouting, [js "model_mapping"]));
   (RoutingStrategy, (SecRouting, [js "priority"; js "weight"; js "test_model"; js "auto_ban"]));
   (OverrideRules, (SecRequest, [js "status_code_mapping"; js "param_override"; js "header_override"]));
   (RequestProcessing, (SecRequest, [js "force_format"; js "thinking_to_content"; js "pass_through_body_enabled"; js "system_prompt";
                                     js "system_prompt_override"]));
   (FieldPassthrough, (SecRequest, [js "allow_service_tier"; js "disable_store"; js "allow_safety_identifier";
                                    js "allow_include_obfuscation"; js "allow_inference_geo"; js "allow_speed"; js "claude_beta_query"]));
   (ExtraSettings, (SecOther, [js "proxy"; js "http_protocol"; js "http2_connection_shards"; js "disable_task_polling_sleep"]));
   (UpstreamModelDetection, (SecOther, [js "upstream_model_update_check_enabled"; js "upstream_model_update_auto_sync_enabled";
                                        js "upstream_model_update_ignored_models"]));
   (InternalNotes, (SecOther, [js "tag"; js "remark"]))].

Definition getChannelConfigurationSection (name : str) : ConfigSection :=
  match List.find (fun b => includes_str b.2.2 name) CONFIGURATION_BLOCKS with Some b => b.2.1 | None => SecConnection end.

Definition hasConfiguredJson (value : jsval) : outcome JsError bool :=
  let* trimmed := trim_or_empty value in
  Ok (match trimmed with
      | [] => false
      | _ =>
          if str_eqb trimmed (js "null") then false
          else match json_parse trimmed with
               | Ok (JArr items) => match items with [] => false | _ => true end
               | Ok (JObj fields) => match fields with [] => false | _ => true end
               | _ => true
               end
      end).

(** [Boolean(v?.trim())] *)
Definition given (v : jsval) : outcome JsError bool := let* empty := lacks_text v in Ok (negb empty).

Definition block_configured (values : jsval) (b : ConfigBlock) : outcome JsError bool :=
  let type := field values "type" in
  let on k := value_truthy (get_field values k) in
  let openai := type_in type OPENAI_FIELD_PASSTHROUGH_TYPES in
  let claude := type_in type CLAUDE_FIELD_PASSTHROUGH_TYPES in
  match b with
  | ModelMapping => hasConfiguredJson (field values "model_mapping")
  | RoutingStrategy =>
      let* model := given (field values "test_model") in
      Ok (on (js "priority") || on (js "weight") || model ||
          negb (strict_eq_primitive (value_coalesce (field values "auto_ban") (JNum (lit 1))) (JNum (lit 1))))
  | OverrideRules =>
      let* a := hasConfiguredJson (field values "status_code_mapping") in
      let* b := hasConfiguredJson (field values "param_override") in
      let* c := hasConfiguredJson (field values "header_override") in Ok (a || b || c)
  | RequestProcessing =>
      let* prompt := given (field values "system_prompt") in
      Ok (is_type type 1 && on (js "force_format") || on (js "thinking_to_content") || on (js "pass_through_body_enabled") || prompt ||
          on (js "system_prompt_override"))
  | FieldPassthrough =>
      Ok ((openai || claude) && (on (js "allow_service_tier") || on (js "allow_inference_geo")) ||
          openai && (on (js "disable_store") || on (js "allow_safety_identifier") || on (js "allow_include_obfuscation")) ||
          claude && (on (js "allow_speed") || is_type type 14 && on (js "claude_beta_query")))
  | ExtraSettings =>
      let* proxy := given (field values "proxy") in
      let* shards := value_Number (value_coalesce (field values "http2_connection_shards") (JNum (lit 1))) in
      Ok (proxy || on (js "http_protocol") && negb (value_is_text (field values "http_protocol") (js "auto")) ||
          num_ltb (lit 1) shards || on (js "disable_task_polling_sleep"))
  | UpstreamModelDetection =>
      let* ignored := given (field values "upstream_model_update_ignored_models") in
      Ok (type_in type MODEL_FETCHABLE_TYPES &&
          (on (js "upstream_model_update_check_enabled") || on (js "upstream_model_update_auto_sync_enabled") || ignored))
  | InternalNotes => let* tag := given (field values "tag") in let* remark := given (field values "remark") in Ok (tag || remark)
  end.

Definition Sections := list (ConfigSection * ConfigStatus).
Definition section_status (sections : Sections) (s : ConfigSection) : ConfigStatus :=
  default StIdle (snd <$> List.find (fun e => bool_decide (e.1 = s)) sections).
Definition set_section (s : ConfigSection) (st : ConfigStatus) (sections : Sections) : Sections :=
  map (fun e => if bool_decide (e.1 = s) then (s, st) else e) sections.

(** The loop over the blocks: their states and those of the sections. *)
Fixpoint block_states (values : jsval) (errors : list str) (blocks : list (ConfigBlock * (ConfigSection * list str)))
    (sections : Sections) : outcome JsError (list (ConfigBlock * ConfigStatus) * Sections) :=
  match blocks with
  | [] => Ok ([], sections)
  | (id, (section, names)) :: blocks =>
      let* configured := block_configured values id in
      let hasError := existsb (includes_str errors) names in
      let status := if hasError then StError else if configured then StConfigured else StIdle in
      let sections :=
        if hasError || negb (bool_decide (section_status sections section = StError)) && configured
        then set_section section status sections else sections in
      let* (states, sections) := block_states values errors blocks sections in
      Ok ((id, status) :: states, sections)
  end.

(** [errors]: the fields that have one; [issues]: those the schema reports for the values. *)
Definition getChannelConfigurationState (values : jsval) (errors issues : list str) (isEditing : bool)
    : outcome JsError (list (ConfigBlock * ConfigStatus) * Sections) :=
  let connection names := existsb (fun n => bool_decide (getChannelConfigurationSection n = SecConnection)) names in
  let* (blocks, sections) :=
    block_states values errors CONFIGURATION_BLOCKS [(SecConnection, StIdle); (SecRouting, StIdle); (SecRequest, StIdle); (SecOther, StIdle)] in
  let* name := value_trim (field values "name") in
  let* type := value_Number (field values "type") in
  let* models := value_trim (field values "models") in
  let* key := if isEditing then Ok true else given (field values "key") in
  let sections :=
    if negb (connection issues) && non_empty name && num_ltb num_zero type && non_empty models && key
    then set_section SecConnection StReady sections else sections in
  Ok (blocks, if connection errors then set_section SecConnection StError sections else sections).
