(* ===== verification/ChannelFormFacts.v ===== *)
(** * The form of a channel: facts

    About [ChannelForm]: the settings text keeps what the form does not manage and
    removes what belongs to another type, but for the settings of upstream model
    updates, which a type whose models cannot be listed leaves as they are; a form
    that is saved opens again as it was. *)

From Stdlib Require Import ZArith Lia Bool SpecFloat.
From stdpp Require Import base list numbers.
From S2P Require Import Prelude JsString JsNumber JsNumberFacts JsObject JsMap JsValue JsJson JsJsonPrint JsDynamic JsURL JsHost JsCoerce AdvancedCustom AdvancedCustomFacts PlaygroundMessages ChannelForm.

(** ** Reading changed objects *)

Lemma assoc_delete {A} (o : list (str * A)) k k' : assoc_str (obj_delete o k) k' = if str_eqb k k' then None else assoc_str o k'.
Proof.
  unfold obj_delete. induction o as [| [a v] o IH]; cbn; [by destruct (str_eqb k k') |]. destruct (str_eqb a k) eqn:E; cbn.
  - apply str_eqb_eq in E. subst a. rewrite IH. by destruct (str_eqb k k').
  - rewrite IH. destruct (str_eqb a k') eqn:F; [| done]. apply str_eqb_eq in F. subst a.
    destruct (str_eqb k k') eqn:G; [| done]. apply str_eqb_eq in G. subst k'. by rewrite str_eqb_refl in E.
Qed.

Lemma get_delete o k k' : get_field (JObj (obj_delete o k)) k' = if str_eqb k k' then JUndefined else get_field (JObj o) k'.
Proof. unfold get_field. rewrite assoc_delete. by destruct (str_eqb k k'). Qed.

Lemma get_put_or_delete b k v o k' : get_field (JObj (put_or_delete b k v o)) k' =
  if str_eqb k k' then (if b then v else JUndefined) else get_field (JObj o) k'.
Proof. unfold put_or_delete. destruct b; [apply get_obj_put | apply get_delete]. Qed.

Lemma get_other b k v o k' : str_eqb k k' = false -> get_field (JObj (put_or_delete b k v o)) k' = get_field (JObj o) k'.
Proof. intros E. by rewrite get_put_or_delete, E. Qed.

Lemma get_same b k v o : get_field (JObj (put_or_delete b k v o)) k = if b then v else JUndefined.
Proof. by rewrite get_put_or_delete, str_eqb_refl. Qed.

Lemma get_put_other o k v k' : str_eqb k k' = false -> get_field (JObj (obj_put o k v)) k' = get_field (JObj o) k'.
Proof. intros E. by rewrite get_obj_put, E. Qed.

Lemma get_put_same o k v : get_field (JObj (obj_put o k v)) k = v.
Proof. by rewrite get_obj_put, str_eqb_refl. Qed.

Lemma get_fold_put g ks k' : forall o, get_field (JObj (fold_left (fun o k => obj_put o k (g k)) ks o)) k' =
  if includes_str ks k' then g k' else get_field (JObj o) k'.
Proof.
  induction ks as [| k ks IH]; intros o; [done |]. cbn [fold_left]. rewrite IH, get_obj_put.
  unfold includes_str. cbn [existsb]. fold (includes_str ks k').
  destruct (includes_str ks k') eqn:E; [by rewrite orb_true_r |]. rewrite orb_false_r.
  destruct (str_eqb k k') eqn:F.
  - apply str_eqb_eq in F. subst k'. by rewrite str_eqb_refl.
  - destruct (str_eqb k' k) eqn:G; [| done]. apply str_eqb_eq in G. subst k'. by rewrite str_eqb_refl in F.
Qed.

(** ** The settings text *)

(** The settings the form decides on: those that depend on the type alone, those of
    upstream model updates and the custom configuration. *)
Definition typed_settings : list str :=
  [js "vertex_key_type"; js "azure_responses_version"; js "openrouter_enterprise"; js "aws_key_type"; js "allow_service_tier";
   js "disable_store"; js "allow_safety_identifier"; js "allow_include_obfuscation"; js "allow_inference_geo"; js "allow_speed";
   js "claude_beta_query"; js "disable_task_polling_sleep"].

Definition upstream_settings : list str :=
  [js "upstream_model_update_check_enabled"; js "upstream_model_update_auto_sync_enabled"; js "upstream_model_update_ignored_models";
   js "upstream_model_update_last_detected_models"; js "upstream_model_update_last_check_time"].

Definition managed_settings : list str := typed_settings ++ upstream_settings ++ [js "advanced_custom"].

Lemma not_listed l k k' : includes_str l k' = false -> includes_str l k = true -> str_eqb k k' = false.
Proof. intros N M. apply str_eqb_neq. intros ->. congruence. Qed.

Lemma not_managed k : includes_str managed_settings k = false ->
  includes_str typed_settings k = false /\ includes_str upstream_settings k = false /\ str_eqb (js "advanced_custom") k = false.
Proof.
  unfold managed_settings, includes_str. rewrite !existsb_app, !orb_false_iff. intros (T & U & C). split; [done |]. split; [done |].
  by apply (not_listed [js "advanced_custom"]).
Qed.

(** The lists are disjoint. *)
Lemma managed_apart l l' k : forallb (fun k => negb (includes_str l' k)) l = true -> includes_str l k = true -> includes_str l' k = false.
Proof. rewrite forallb_forall. intros D I. apply negb_true_iff, D, list_elem_of_In, includes_str_elem, I. Qed.

Ltac other_key := repeat (first [rewrite get_other by reflexivity | rewrite get_put_other by reflexivity]).

Section Settings.
Variable f : jsval.

Lemma type_settings_kept o k : includes_str typed_settings k = false ->
  get_field (JObj (put_type_settings f o)) k = get_field (JObj o) k.
Proof.
  intros N. unfold put_type_settings. cbv zeta. rewrite get_put_other by (by apply (not_listed typed_settings)).
  repeat (rewrite get_other by (by apply (not_listed typed_settings))). done.
Qed.

(** Where a value is absent or replaced by [v]. *)
Lemma get_put_unless (b : bool) o k v k' : str_eqb k k' = false ->
  get_field (JObj (if b then o else obj_put o k v)) k' = get_field (JObj o) k'.
Proof. intros E. destruct b; [done | by apply get_put_other]. Qed.

Lemma get_put_number o k v k' n : str_eqb k k' = false ->
  get_field (JObj (match n with JNum _ => o | _ => obj_put o k v end)) k' = get_field (JObj o) k'.
Proof. intros E. destruct n; try done; by apply get_put_other. Qed.

Lemma upstream_kept o o' k : put_upstream f o = Ok o' -> includes_str upstream_settings k = false ->
  get_field (JObj o') k = get_field (JObj o) k.
Proof.
  intros P N. unfold put_upstream in P. destruct (js_String _) as [ignored | |]; [| done..]. cbn [obind] in P. injection P as <-.
  rewrite get_put_number, get_put_unless by (by apply (not_listed upstream_settings)).
  repeat (rewrite get_put_other by (by apply (not_listed upstream_settings))). done.
Qed.

Lemma custom_kept o o' k : put_custom f o = Ok o' -> str_eqb (js "advanced_custom") k = false -> get_field (JObj o') k = get_field (JObj o) k.
Proof.
  intros P N. unfold put_custom in P. destruct (is_type _ _).
  - destruct (opt_text _) as [text | |]; [| done..]. cbn [obind] in P. injection P as <-.
    destruct (parseAdvancedCustomConfig text); [by apply get_put_other | done].
  - injection P as <-. by rewrite get_delete, N.
Qed.

(** What the form does not manage is kept. *)
Lemma foreign_settings_kept o o' k : put_settings f o = Ok o' -> includes_str managed_settings k = false ->
  get_field (JObj o') k = get_field (JObj o) k.
Proof.
  intros P (T & N & C)%not_managed. unfold put_settings in P.
  destruct (if type_in _ _ then _ else _) as [o1 | |] eqn:U; [| done..]. cbn [obind] in P.
  rewrite (custom_kept _ _ _ P) by done.
  rewrite <- (type_settings_kept o k T). destruct (type_in _ _); [by apply (upstream_kept _ _ _ U) | by injection U as <-].
Qed.

(** The settings that only depend on the type. *)
Definition type_setting (k : str) : option jsval :=
  let type := field f "type" in
  let openai := type_in type OPENAI_FIELD_PASSTHROUGH_TYPES in
  let claude := type_in type CLAUDE_FIELD_PASSTHROUGH_TYPES in
  let yes (b : bool) n := if b then is_yes (get_field f n) else JUndefined in
  let version := field f "azure_responses_version" in
  assoc_str
    [(js "vertex_key_type", if is_type type 41 then value_or (field f "vertex_key_type") (JStr (js "json")) else JUndefined);
     (js "azure_responses_version", if is_type type 3 && value_truthy version then version else JUndefined);
     (js "openrouter_enterprise", yes (is_type type 20) (js "is_enterprise_account"));
     (js "aws_key_type", if is_type type 33 then value_or (field f "aws_key_type") (JStr (js "ak_sk")) else JUndefined);
     (js "allow_service_tier", yes (type_in type FIELD_PASSTHROUGH_TYPES) (js "allow_service_tier"));
     (js "disable_store", yes openai (js "disable_store"));
     (js "allow_safety_identifier", yes openai (js "allow_safety_identifier"));
     (js "allow_include_obfuscation", yes openai (js "allow_include_obfuscation"));
     (js "allow_inference_geo", yes (openai || claude) (js "allow_inference_geo"));
     (js "allow_speed", yes claude (js "allow_speed"));
     (js "claude_beta_query", yes (is_type type 14) (js "claude_beta_query"));
     (js "disable_task_polling_sleep", yes true (js "disable_task_polling_sleep"))] k.

Lemma type_setting_listed k v : type_setting k = Some v -> includes_str typed_settings k = true.
Proof.
  intros T. apply assoc_str_elem in T. apply includes_str_elem. change typed_settings with (map fst (map (fun k => (k, JNull)) typed_settings)).
  apply (list_elem_of_fmap_2 fst) in T. exact T.
Qed.

Lemma type_settings_read o k v : type_setting k = Some v -> get_field (JObj (put_type_settings f o)) k = v.
Proof.
  intros T. apply assoc_str_elem in T. unfold put_type_settings. cbv zeta.
  repeat (apply list.elem_of_cons in T as [T | T]; [injection T as -> ->; other_key; rewrite ?get_same, ?get_put_same; reflexivity |]).
  by apply not_elem_of_nil in T.
Qed.
End Settings.

(** ** Printing and reading *)

Lemma enumerated_filter (p : str * jsval -> bool) o : enumerated o.*1 = true -> enumerated (List.filter p o).*1 = true.
Proof.
  induction o as [| e o IH]; [done |]. cbn [enumerated fmap list_fmap List.filter]. rewrite !andb_true_iff, negb_true_iff. intros [[F N] E].
  destruct (p e); [| by apply IH]. cbn [enumerated fmap list_fmap]. rewrite !andb_true_iff, negb_true_iff. split; [| by apply IH].
  assert (forall k, k ∈ (List.filter p o).*1 -> k ∈ o.*1) as S.
  { intros k (e' & -> & I)%list_elem_of_fmap. apply list_elem_of_In, filter_In in I as [I _]. apply list_elem_of_fmap.
    exists e'. by rewrite list_elem_of_In. }
  split.
  - rewrite forallb_forall in F |- *. intros k I. apply F, list_elem_of_In, S, list_elem_of_In, I.
  - apply not_true_iff_false. intros I. apply includes_str_elem, S, includes_str_elem in I. congruence.
Qed.

Lemma delete_textual o k : textual (JObj o) = true -> textual (JObj (obj_delete o k)) = true.
Proof.
  cbn [textual]. rewrite !andb_true_iff. intros [F E]. split; [| by apply enumerated_filter].
  rewrite forallb_forall in F |- *. intros e [I _]%filter_In. by apply F.
Qed.

Lemma put_textual o k v : textual (JObj o) = true -> units k -> textual v = true -> textual (JObj (obj_put o k v)) = true.
Proof. apply (put_good textual). Qed.

Lemma put_or_delete_textual b o k v : textual (JObj o) = true -> units k -> (b = true -> textual v = true) ->
  textual (JObj (put_or_delete b k v o)) = true.
Proof. intros O U T. unfold put_or_delete. destruct b; [by apply put_textual; [| | apply T] | by apply delete_textual]. Qed.

Lemma print_compact_parses v : textual v = true -> json_parse (print_compact v) = Ok v /\ print_compact v <> [].
Proof.
  intros T. destruct (print_spelled [] v eq_refl T [] eq_refl) as (t & E & S). unfold print_compact. rewrite E. cbn [default]. split.
  - by apply (json_parse_print []).
  - by destruct (value_text_head _ _ S) as (c & r & -> & _).
Qed.

Lemma value_or_str s : value_or (JStr s) (JStr []) = JStr s.
Proof. by destruct s. Qed.

(** ** Lists of names *)

Definition no_comma (s : str) : bool := forallb (fun c => negb (c =? 44)%N) s.
Definition clean_name (s : str) : Prop := trim s = s /\ s <> [] /\ no_comma s = true.

Lemma comma_list_join l : Forall clean_name l -> comma_list (join (js ",") l) = l.
Proof.
  intros C. destruct l as [| a l]; [done |]. unfold comma_list. change (js ",") with [44%N].
  rewrite split_join; [| done | by eapply list.Forall_impl; [exact C | intros s (_ & _ & N)]].
  induction C as [| s l' (T & N & _) C IH]; [done |]. cbn [map List.filter]. rewrite T. destruct s; [done |]. cbn. by rewrite IH.
Qed.

Lemma joined_value l : js_String (JArr (map JStr l)) = Ok (join (js ",") l).
Proof.
  cbn [js_String]. match goal with |- obind (?go _) _ = _ => assert (forall l, go (map JStr l) = Ok l) as E end.
  { intros l'. induction l' as [| s l' IH]; [done |]. cbn. by rewrite IH. }
  by rewrite E.
Qed.

(** The models a text lists: what stands between its commas, without white space around it,
    nothing empty and everything once; a text that is joined of such names lists them in order. *)
Record models_listed (s : str) (l : list str) : Prop := {
  ml_once : NoDup l;
  ml_names : forall m, m ∈ l <-> m <> [] /\ m ∈ map trim (split_char 44%N s);
  ml_tidy : forall l', s = join (js ",") l' -> Forall clean_name l' -> NoDup l' -> l = l'
}.

Lemma set_from_distinct (l : list str) : NoDup l -> set_from l = l.
Proof.
  intros N. unfold set_from. enough (forall s, NoDup (s ++ l) -> fold_left set_put l s = s ++ l) as G by (by apply (G [])).
  clear N. induction l as [| a l IH]; intros s N; [by rewrite app_nil_r |]. cbn [fold_left].
  assert (set_put s a = s ++ [a]) as ->.
  { unfold set_put. rewrite bool_decide_eq_false_2; [done |]. intros I. apply list.NoDup_app in N as (_ & D & _). apply (D a I). left. }
  rewrite IH by (by rewrite <- app_assoc). by rewrite <- app_assoc.
Qed.

Lemma comma_list_elem s m : m ∈ comma_list s <-> m <> [] /\ m ∈ map trim (split_char 44%N s).
Proof. unfold comma_list. rewrite !list_elem_of_In, filter_In. split; intros [A B]; (split; [by destruct m | by destruct m]). Qed.

Lemma comma_list_listed s : models_listed s (set_from (comma_list s)).
Proof.
  constructor; [apply set_from_NoDup | intros m; by rewrite set_from_elem, comma_list_elem |].
  intros l -> C N. by rewrite comma_list_join, set_from_distinct.
Qed.

Lemma split_units sep s : units s -> Forall units (split_char sep s).
Proof.
  unfold split_char. assert (units []) as E by done. revert E. generalize ([] : str). induction s as [| c s IH]; intros cur Uc U; cbn [split_on].
  - by constructor.
  - apply units_cons in U as [C U]. destruct (c =? sep)%N; [constructor; [done | by apply IH] |]. apply IH; [| done].
    apply units_app. split; [done |]. by apply units_cons.
Qed.

Lemma comma_list_units s : units s -> Forall units (set_from (comma_list s)).
Proof.
  intros U. apply list.Forall_forall. intros m I. apply set_from_elem, comma_list_elem in I as [_ I].
  apply list_elem_of_fmap in I as (t & -> & I). apply units_trim. by apply (proj1 (list.Forall_forall _ _) (split_units 44%N s U)).
Qed.

(** ** Settled forms *)

Definition text_field (f : jsval) (k : str) (P : str -> Prop) : Prop := exists s, get_field f k = JStr s /\ P s.
Definition any_string (s : str) : Prop := True.
Definition trimmed_units (s : str) : Prop := trim s = s /\ units s.
Definition given_units (s : str) : Prop := s <> [] /\ units s.
Definition flag_field (f : jsval) (k : str) : Prop := exists b, get_field f k = JBool b.

Definition plain_texts : list str :=
  [js "name"; js "openai_organization"; js "models"; js "model_mapping"; js "test_model"; js "status_code_mapping"; js "tag"; js "remark";
   js "param_override"; js "header_override"; js "other"].

Definition form_flags : list str :=
  [js "force_format"; js "thinking_to_content"; js "pass_through_body_enabled"; js "system_prompt_override"; js "is_enterprise_account";
   js "allow_service_tier"; js "disable_store"; js "allow_safety_identifier"; js "allow_include_obfuscation"; js "allow_inference_geo";
   js "allow_speed"; js "claude_beta_query"; js "disable_task_polling_sleep"; js "upstream_model_update_check_enabled";
   js "upstream_model_update_auto_sync_enabled"].

(** The protocol with the connections it can have. *)
Definition connections (f : jsval) : Prop :=
  field f "http_protocol" = JStr HTTP_PROTOCOL_HTTP1 /\ field f "http2_connection_shards" = JNum (lit 1) \/
  field f "http_protocol" = JStr HTTP_PROTOCOL_AUTO /\
    exists n, field f "http2_connection_shards" = JNum (lit n) /\ (1 <= n <= 8)%Z.

(** The fields the settings are written from have the types of [ChannelFormValues]; the settings text is that of an object that
    survives [JSON.stringify] (or counts as empty), and the custom type has a configuration that does. *)
Record form_typed (f : jsval) : Prop := {
  fs_flags : forall k, k ∈ form_flags -> flag_field f k;
  fs_vertex : text_field f (js "vertex_key_type") given_units;
  fs_aws : text_field f (js "aws_key_type") given_units;
  fs_azure : text_field f (js "azure_responses_version") units;
  fs_ignored : text_field f (js "upstream_model_update_ignored_models") units;
  fs_custom : is_type (field f "type") CHANNEL_TYPE_ADVANCED_CUSTOM = true ->
    exists s config, field f "advanced_custom" = JStr s /\ parseAdvancedCustomConfig (Some s) = Some config /\ textual config = true;
  fs_settings : exists fields, existing_settings f = JObj fields /\ textual (JObj fields) = true
}.

(** A form as it is after its fields were normalised: of the types of
    [ChannelFormValues] and trimmed where the payload is. *)
Record form_settled (f : jsval) : Prop := {
  fs_typed :> form_typed f;
  fs_type : exists n, field f "type" = JNum n;
  fs_texts : forall k, k ∈ plain_texts -> text_field f k any_string;
  fs_base_url : text_field f (js "base_url") (fun s => drop_slashes (trim s) = s);
  fs_groups : exists l, field f "group" = JArr (map JStr l) /\ l <> [] /\ Forall clean_name l;
  fs_numbers : forall k, k ∈ [js "priority"; js "weight"] ->
    exists n, get_field f k = JNum n /\ value_or (JNum n) (JNum num_zero) = JNum n;
  fs_auto_ban : exists n, field f "auto_ban" = JNum n;
  fs_key : text_field f (js "key") any_string;
  fs_plugin : text_field f (js "task_plugin_key") trimmed_units;
  fs_proxy : text_field f (js "proxy") trimmed_units;
  fs_prompt : text_field f (js "system_prompt") units;
  fs_connections : connections f
}.

(** ** The first text *)

Lemma lit_shards n : (1 <= n <= 8)%Z ->
  normalizeHttp2ConnectionShards (JNum (lit n)) = Ok (JNum (lit n)) /\ num_ltb (lit 1) (lit n) = (1 <? n)%Z /\ textual (JNum (lit n)) = true /\
  strict_eq_primitive (JNum (lit n)) (JNum (lit 1)) = negb (1 <? n)%Z.
Proof.
  intros B. assert (n ∈ seqZ 1 8) as C by (apply elem_of_seqZ; lia). clear B. revert n C.
  refine (proj1 (list.Forall_forall _ (seqZ 1 8)) _). repeat constructor.
Qed.

Definition extra_entry (f : jsval) (k : str) : str * jsval := (k, get_field f k).

(** What is read of the settings every type has. *)
Definition extra_again (f : jsval) : list (str * jsval) :=
  [(js "task_plugin_key", if is_type (field f "type") CHANNEL_TYPE_TASK_PLUGIN then field f "task_plugin_key" else JStr []);
   extra_entry f (js "force_format"); extra_entry f (js "thinking_to_content"); extra_entry f (js "proxy"); extra_entry f (js "http_protocol");
   extra_entry f (js "http2_connection_shards"); extra_entry f (js "pass_through_body_enabled"); extra_entry f (js "system_prompt");
   extra_entry f (js "system_prompt_override")].

(** The entries the first text is printed from. *)
Definition setting_entries (f : jsval) : list (str * jsval) :=
  (if is_type (field f "type") CHANNEL_TYPE_TASK_PLUGIN then [extra_entry f (js "task_plugin_key")] else []) ++
  [extra_entry f (js "force_format"); extra_entry f (js "thinking_to_content"); extra_entry f (js "proxy");
   extra_entry f (js "pass_through_body_enabled"); extra_entry f (js "system_prompt"); extra_entry f (js "system_prompt_override")] ++
  (if value_is_text (field f "http_protocol") HTTP_PROTOCOL_HTTP1 then [extra_entry f (js "http_protocol")]
   else if strict_eq_primitive (field f "http2_connection_shards") (JNum (lit 1)) then [] else [extra_entry f (js "http2_connection_shards")]).

Lemma flag_kept b : value_or (JBool b) (JBool false) = JBool b.
Proof. by destruct b. Qed.

(** The values of the fields the first text holds. *)
Lemma extra_values f : form_settled f -> exists plugin ff tc proxy pt prompt po,
  (field f "task_plugin_key" = JStr plugin /\ trimmed_units plugin) /\ field f "force_format" = JBool ff /\
  field f "thinking_to_content" = JBool tc /\ (field f "proxy" = JStr proxy /\ trimmed_units proxy) /\
  field f "pass_through_body_enabled" = JBool pt /\ (field f "system_prompt" = JStr prompt /\ units prompt) /\
  field f "system_prompt_override" = JBool po.
Proof.
  intros F. destruct (fs_plugin f F) as (plugin & ? & ?), (fs_proxy f F) as (proxy & ? & ?), (fs_prompt f F) as (prompt & ? & ?).
  assert (forall k, includes_str form_flags k = true -> flag_field f k) as B by (intros k I; apply (fs_flags f F), includes_str_elem, I).
  destruct (B (js "force_format") eq_refl) as (ff & ?), (B (js "thinking_to_content") eq_refl) as (tc & ?),
    (B (js "pass_through_body_enabled") eq_refl) as (pt & ?), (B (js "system_prompt_override") eq_refl) as (po & ?).
  exists plugin, ff, tc, proxy, pt, prompt, po. by split_and!.
Qed.

Lemma setting_textual f : form_settled f -> textual (JObj (setting_entries f)) = true.
Proof.
  intros F. destruct (extra_values f F) as (plugin & ff & tc & proxy & pt & prompt & po & (Ep & _ & Up) & Ef & Et & (Ex & _ & Ux) & Eb & (Es & Us) & Eo).
  unfold setting_entries, extra_entry. rewrite Ep, Ef, Et, Ex, Eb, Es, Eo.
  assert (exists last, (if value_is_text (field f "http_protocol") HTTP_PROTOCOL_HTTP1 then [(js "http_protocol", field f "http_protocol")]
    else if strict_eq_primitive (field f "http2_connection_shards") (JNum (lit 1)) then []
    else [(js "http2_connection_shards", field f "http2_connection_shards")]) = last /\
    (last = [] \/ last = [(js "http_protocol", JStr HTTP_PROTOCOL_HTTP1)] \/
     exists v, last = [(js "http2_connection_shards", v)] /\ textual v = true)) as (last & -> & L).
  { eexists. split; [reflexivity |]. destruct (fs_connections f F) as [[-> _] | (-> & n & -> & B)]; [by right; left |].
    change (value_is_text (JStr HTTP_PROTOCOL_AUTO) HTTP_PROTOCOL_HTTP1) with false. cbn iota.
    destruct (strict_eq_primitive _ _); [by left | right; right; eexists; split; [done |]; by apply lit_shards]. }
  unfold units in *. destruct L as [-> | [-> | (v & -> & V)]]; destruct (is_type _ _); cbn [app textual forallb fst snd];
    rewrite ?Up, ?Ux, ?Us, ?V; vm_compute; reflexivity.
Qed.

Lemma setting_written f : form_settled f -> buildSettingJSON f = Ok (print_compact (JObj (setting_entries f))).
Proof.
  intros F. destruct (extra_values f F) as (plugin & ff & tc & proxy & pt & prompt & po & (Ep & Tp & _) & Ef & Et & (Ex & Tx & _) & Eb & (Es & _) & Eo).
  unfold buildSettingJSON, flag_of, text_prop, setting_entries, extra_entry. rewrite Ep, Ef, Et, Ex, Eb, Es, Eo. unfold trim_or_empty.
  cbn [is_nullish value_trim]. rewrite Tp, Tx, value_or_str, !flag_kept.
  assert (forall (b : bool) l, print_compact (JObj ((js "task_plugin_key", if b then JStr plugin else JUndefined) :: l)) =
            print_compact (JObj ((if b then [(js "task_plugin_key", JStr plugin)] else []) ++ l))) as P by (by intros [] l).
  destruct (fs_connections f F) as [[-> ->] | (-> & n & -> & B)].
  - destruct (is_type _ _); cbn [obind]; [reflexivity |]. apply (f_equal Ok), (P false).
  - destruct (lit_shards n B) as (N & C & _ & O). change (normalizeHttpProtocol (JStr HTTP_PROTOCOL_AUTO)) with (@Ok JsError _ HTTP_PROTOCOL_AUTO).
    assert (str_eqb HTTP_PROTOCOL_AUTO HTTP_PROTOCOL_HTTP1 = false) as A by reflexivity.
    rewrite O.
    change (value_is_text (JStr HTTP_PROTOCOL_AUTO) HTTP_PROTOCOL_HTTP1) with false. cbn iota.
    destruct (is_type _ _); cbn [obind]; rewrite A, N; cbn [obind value_Number]; rewrite C; destruct (1 <? n)%Z; cbn [negb];
      first [reflexivity | apply (f_equal Ok), (P false)].
Qed.

(** The settings every type has, from the properties they are read from. *)
Lemma extra_read fields plugin ff tc proxy pt prompt po http shards protocol connections : let v := JObj fields in
  field v "task_plugin_key" = plugin /\ field v "force_format" = JBool ff /\ field v "thinking_to_content" = JBool tc /\
  field v "proxy" = JStr proxy /\ field v "pass_through_body_enabled" = JBool pt /\ field v "system_prompt" = JStr prompt /\
  field v "system_prompt_override" = JBool po /\ field v "http_protocol" = http /\ field v "http2_connection_shards" = shards ->
  normalizeHttpProtocol http = Ok protocol -> normalizeHttp2ConnectionShards shards = Ok connections ->
  textual v = true ->
  read_extra (JStr (print_compact v)) =
  Ok [(js "task_plugin_key", value_or plugin (JStr [])); (js "force_format", JBool ff); (js "thinking_to_content", JBool tc);
      (js "proxy", JStr proxy); (js "http_protocol", JStr protocol);
      (js "http2_connection_shards", if str_eqb protocol HTTP_PROTOCOL_HTTP1 then JNum (lit 1) else connections);
      (js "pass_through_body_enabled", JBool pt); (js "system_prompt", JStr prompt); (js "system_prompt_override", JBool po)].
Proof.
  intros v (E1 & E2 & E3 & E4 & E5 & E6 & E7 & E8 & E9) P S T. destruct (print_compact_parses v T) as [J _].
  unfold read_extra, parse_value. cbn [js_String obind]. rewrite J. cbn [obind].
  change (value_prop v (js "http_protocol")) with (@Ok JsError _ (field v "http_protocol")). cbn [obind]. rewrite E8, P. cbn [obind].
  rewrite E9, S. cbn [obind]. unfold text_prop, flag_of. by rewrite E1, E2, E3, E4, E5, E6, E7, !flag_kept, !value_or_str.
Qed.

Lemma setting_read f : form_settled f -> read_extra (JStr (print_compact (JObj (setting_entries f)))) = Ok (extra_again f).
Proof.
  intros F. pose proof (setting_textual f F) as T.
  destruct (extra_values f F) as (plugin & ff & tc & proxy & pt & prompt & po & (Ep & _) & Ef & Et & (Ex & _) & Eb & (Es & _) & Eo).
  unfold extra_again, extra_entry. unfold setting_entries, extra_entry in *. rewrite Ep, Ef, Et, Ex, Eb, Es, Eo in *.
  set (plug := is_type _ _) in *. assert (forall p, value_or (if plug then JStr p else JUndefined) (JStr []) = if plug then JStr p else JStr []) as V.
  { intros p. destruct plug; [apply value_or_str | done]. }
  destruct (fs_connections f F) as [[Eh Ec] | (Eh & n & Ec & B)]; rewrite Eh, Ec in *.
  - rewrite (extra_read _ (if plug then JStr plugin else JUndefined) ff tc proxy pt prompt po (JStr HTTP_PROTOCOL_HTTP1) JUndefined
      HTTP_PROTOCOL_HTTP1 (JNum (lit 1))); [by rewrite V | | done | done | exact T]. destruct plug; by split_and!.
  - destruct (lit_shards n B) as (N & _ & _ & O). change (value_is_text (JStr HTTP_PROTOCOL_AUTO) HTTP_PROTOCOL_HTTP1) with false in *. cbn iota in *.
    rewrite O in *. destruct (1 <? n)%Z eqn:One; cbn [negb] in *; [| apply Z.ltb_ge in One; replace n with 1%Z in * by lia].
    2: {
      rewrite (extra_read _ (if plug then JStr plugin else JUndefined) ff tc proxy pt prompt po JUndefined JUndefined HTTP_PROTOCOL_AUTO
        (JNum (lit 1))); [by rewrite V | | done | done | exact T]. destruct plug; by split_and!. }
    rewrite (extra_read _ (if plug then JStr plugin else JUndefined) ff tc proxy pt prompt po JUndefined (JNum (lit n)) HTTP_PROTOCOL_AUTO
        (JNum (lit n))); [by rewrite V | | done | exact N | exact T]. destruct plug; by split_and!.
Qed.

(** ** The second text *)

Lemma flag_of_form f k : form_typed f -> includes_str form_flags k = true -> exists b, get_field f k = JBool b.
Proof. intros F I. apply (fs_flags f F). by apply includes_str_elem. Qed.

Lemma is_yes_textual v : textual (is_yes v) = true.
Proof. done. Qed.

Lemma type_settings_textual f o : form_typed f -> textual (JObj o) = true -> textual (JObj (put_type_settings f o)) = true.
Proof.
  intros F T. destruct (fs_vertex f F) as (vs & Ev & Nv & Uv), (fs_aws f F) as (ws & Ew & Nw & Uw), (fs_azure f F) as (zs & Ez & Uz).
  unfold put_type_settings. cbv zeta. apply put_textual; [| done | done].
  repeat (apply put_or_delete_textual; [| done | intros _; first [apply is_yes_textual | rewrite ?Ev, ?Ew, ?Ez]]); [exact T | | |].
  - by destruct vs.
  - exact Uz.
  - by destruct ws.
Qed.

Lemma names_textual l : Forall units l -> textual (JArr (map JStr l)) = true.
Proof. intros U. cbn [textual]. induction U as [| s l Us U IH]; [done |]. cbn. by rewrite Us. Qed.

Lemma detected_textual o (b : bool) k v : textual (JObj o) = true -> units k -> textual v = true -> textual (JObj (if b then o else obj_put o k v)) = true.
Proof. intros T U V. destruct b; [done | by apply put_textual]. Qed.

Lemma time_textual o n k v : textual (JObj o) = true -> units k -> textual v = true ->
  textual (JObj (match n with JNum _ => o | _ => obj_put o k v end)) = true.
Proof. intros T U V. destruct n; try done; by apply put_textual. Qed.

(** What is saved of upstream model updates: for a type whose models can be listed, what the form says; nothing
    changes for another type. *)
Definition upstream_written (f : jsval) (before after : list (str * jsval)) : Prop :=
  if type_in (field f "type") MODEL_FETCHABLE_TYPES then
    exists check sync s l,
      field f "upstream_model_update_check_enabled" = JBool check /\ field f "upstream_model_update_auto_sync_enabled" = JBool sync /\
      field f "upstream_model_update_ignored_models" = JStr s /\ models_listed s l /\
      field (JObj after) "upstream_model_update_check_enabled" = JBool check /\
      field (JObj after) "upstream_model_update_auto_sync_enabled" = JBool (check && sync) /\
      field (JObj after) "upstream_model_update_ignored_models" = JArr (map JStr l) /\
      field (JObj after) "upstream_model_update_last_detected_models" =
        match field (JObj before) "upstream_model_update_last_detected_models" with JArr items => JArr (if check then items else []) | _ => JArr [] end /\
      field (JObj after) "upstream_model_update_last_check_time" =
        match field (JObj before) "upstream_model_update_last_check_time" with JNum n => JNum n | _ => JNum num_zero end
  else forall k, k ∈ upstream_settings -> get_field (JObj after) k = get_field (JObj before) k.

(** The custom configuration is that of the form's text, and only the custom type has one. *)
Definition custom_written (f : jsval) (after : list (str * jsval)) : Prop :=
  if is_type (field f "type") CHANNEL_TYPE_ADVANCED_CUSTOM
  then exists s config, field f "advanced_custom" = JStr s /\ parseAdvancedCustomConfig (Some s) = Some config /\ textual config = true /\
         field (JObj after) "advanced_custom" = config
  else field (JObj after) "advanced_custom" = JUndefined.

Lemma detected_put o k (b : bool) :
  get_field (JObj (if match get_field (JObj o) k with JArr _ => b | _ => false end then o else obj_put o k (JArr []))) k =
  match get_field (JObj o) k with JArr items => JArr (if b then items else []) | _ => JArr [] end.
Proof. destruct (get_field (JObj o) k) eqn:D; rewrite ?get_put_same; try done. destruct b; [done | apply get_put_same]. Qed.

Lemma time_put o k :
  get_field (JObj (match get_field (JObj o) k with JNum _ => o | _ => obj_put o k (JNum num_zero) end)) k =
  match get_field (JObj o) k with JNum n => JNum n | _ => JNum num_zero end.
Proof. destruct (get_field (JObj o) k) eqn:D; rewrite ?get_put_same; done. Qed.

Lemma upstream_saved f o : form_typed f -> textual (JObj o) = true -> exists o',
  (if type_in (field f "type") MODEL_FETCHABLE_TYPES then put_upstream f o else Ok o) = Ok o' /\ textual (JObj o') = true /\
  upstream_written f o o' /\ (forall k, includes_str upstream_settings k = false -> get_field (JObj o') k = get_field (JObj o) k).
Proof.
  intros F T. unfold upstream_written. destruct (type_in _ _); [| by exists o]. destruct (fs_ignored f F) as (s & El & Ul).
  destruct (flag_of_form f (js "upstream_model_update_check_enabled") F eq_refl) as (check & Ec).
  destruct (flag_of_form f (js "upstream_model_update_auto_sync_enabled") F eq_refl) as (sync & Es).
  assert (exists o', put_upstream f o = Ok o') as (o' & P).
  { unfold put_upstream. rewrite El, value_or_str. cbn [js_String obind]. by eexists. }
  exists o'. split; [done |]. split; [| split; [| by intros k; apply (upstream_kept f)]].
  all: unfold put_upstream in P; rewrite El, Ec, Es, value_or_str in P; cbn [js_String obind] in P; injection P as <-.
  - apply time_textual; [| done | done]. apply detected_textual; [| done | done].
    apply put_textual; [| done | by apply names_textual, comma_list_units]. apply put_textual; [| done | done]. by apply put_textual.
  - exists check, sync, s, (set_from (comma_list s)). split; [done |]. split; [done |]. split; [done |]. split; [apply comma_list_listed |].
    split_and!.
    + rewrite get_put_number, get_put_unless by reflexivity. other_key. rewrite get_put_same. by destruct check.
    + rewrite get_put_number, get_put_unless by reflexivity. other_key. rewrite get_put_same. by destruct check, sync.
    + rewrite get_put_number, get_put_unless by reflexivity. by rewrite get_put_same.
    + rewrite get_put_number by reflexivity. etransitivity; [apply detected_put |]. rewrite !get_put_other by reflexivity. by destruct check.
    + etransitivity; [apply time_put |]. rewrite get_put_unless by reflexivity. by rewrite !get_put_other by reflexivity.
Qed.

(** The object of the second text. *)
Lemma settings_put f fields : form_typed f -> textual (JObj fields) = true -> exists o,
  put_settings f fields = Ok o /\ textual (JObj o) = true /\
  (forall k v, type_setting f k = Some v -> get_field (JObj o) k = v) /\ upstream_written f fields o /\ custom_written f o.
Proof.
  intros F T. unfold put_settings.
  pose proof (type_settings_textual f fields F T) as T1. pose proof (type_settings_read f fields) as R.
  destruct (upstream_saved f _ F T1) as (o2 & E & T2 & U & K). rewrite E. cbn [obind]. clear E.
  assert (forall k, includes_str upstream_settings k = true -> get_field (JObj (put_type_settings f fields)) k = get_field (JObj fields) k) as B.
  { intros k I. apply type_settings_kept. by apply (managed_apart upstream_settings). }
  assert (exists o, put_custom f o2 = Ok o /\ textual (JObj o) = true /\ custom_written f o) as (o & P & To & C).
  { unfold put_custom, custom_written. destruct (is_type (field f "type") CHANNEL_TYPE_ADVANCED_CUSTOM) eqn:C.
    - destruct (fs_custom f F C) as (s & config & Es & P & Tc). rewrite Es. cbn [opt_text obind]. rewrite P.
      eexists. split; [reflexivity |]. split; [by apply put_textual |]. exists s, config. by rewrite get_put_same.
    - eexists. split; [reflexivity |]. split; [by apply delete_textual |]. by rewrite get_delete, str_eqb_refl. }
  exists o. split; [done |]. split; [done |].
  assert (forall k, includes_str (typed_settings ++ upstream_settings) k = true -> get_field (JObj o) k = get_field (JObj o2) k) as S.
  { intros k I. apply (custom_kept _ _ _ _ P), (not_listed [js "advanced_custom"]); [| done].
    by apply (managed_apart (typed_settings ++ upstream_settings)). }
  assert (forall k l, includes_str l k = true -> forallb (includes_str (typed_settings ++ upstream_settings)) l = true ->
    get_field (JObj o) k = get_field (JObj o2) k) as S'.
  { intros k l I A. apply S. apply (proj1 (forallb_forall _ _) A). by apply list_elem_of_In, includes_str_elem. }
  split_and!; [| | done].
  - intros k v H. pose proof (type_setting_listed f k v H) as I. rewrite (S' k typed_settings), K, (R k v H) by (done || by apply (managed_apart typed_settings)).
    done.
  - unfold upstream_written in *. destruct (type_in _ _).
    + destruct U as (check & sync & s & l & U). exists check, sync, s, l. rewrite !S by reflexivity. rewrite !B in U by reflexivity. exact U.
    + intros k I. apply includes_str_elem in I. rewrite (S' k upstream_settings) by done. rewrite U by (by apply includes_str_elem). by apply B.
Qed.

(** What is saved in the second text. *)
Lemma settings_saved f : form_typed f -> exists fields o,
  existing_settings f = JObj fields /\ textual (JObj fields) = true /\ put_settings f fields = Ok o /\
  buildSettingsJSON f = Ok (print_compact (JObj o)) /\ textual (JObj o) = true /\
  (forall k v, type_setting f k = Some v -> get_field (JObj o) k = v) /\ upstream_written f fields o /\ custom_written f o.
Proof.
  intros F. destruct (fs_settings f F) as (fields & E & T). destruct (settings_put f fields F T) as (o & P & To & Rest). exists fields, o.
  unfold buildSettingsJSON. by rewrite E, P.
Qed.

(** The ignored models as a text, when a channel is opened. *)
Definition ignored_text (settings : jsval) : str :=
  match field settings "upstream_model_update_ignored_models" with
  | JArr items => match js_String (JArr items) with Ok s => s | _ => [] end
  | _ => []
  end.

(** A custom text the form opens with is the text of the configuration that was saved. *)
Definition custom_text (f : jsval) (custom : str) : Prop :=
  if is_type (field f "type") CHANNEL_TYPE_ADVANCED_CUSTOM
  then exists s config, field f "advanced_custom" = JStr s /\ parseAdvancedCustomConfig (Some s) = Some config /\
         parseAdvancedCustomConfig (Some custom) = Some config /\ stringifyAdvancedCustomConfig config = Ok custom
  else custom = [].

(** What is read of it: the settings by type, the ignored models and the routes. *)
Lemma settings_read f fields o : upstream_written f fields o -> custom_written f o ->
  exists custom, read_settings (JObj o) = own_settings (JObj o) (ignored_text (JObj o)) custom /\ custom_text f custom.
Proof.
  intros U C. unfold read_settings, ignored_text. cbn [is_nullish]. unfold custom_written, custom_text in *.
  destruct (is_type (field f "type") CHANNEL_TYPE_ADVANCED_CUSTOM) eqn:Ty.
  - assert (type_in (field f "type") MODEL_FETCHABLE_TYPES = true) as M.
    { unfold type_in. apply existsb_exists. exists CHANNEL_TYPE_ADVANCED_CUSTOM. split; [| done]. cbn. tauto. }
    unfold upstream_written in U. rewrite M in U. destruct U as (_ & _ & _ & l & _ & _ & _ & _ & _ & _ & -> & _). rewrite joined_value.
    destruct C as (s & config & Es & P & T & ->). destruct (parsed_config_reprints s config P T) as (V & t & S & Q).
    rewrite V, S. exists t. split; [reflexivity |]. by exists s, config.
  - rewrite C. exists []. split; [| done].
    destruct (field (JObj o) "upstream_model_update_ignored_models"); try done. by destruct (js_String _).
Qed.

(** C27: Saving a form writes the settings it manages and keeps the others.  For a form whose fields all have a value of their
    type in the form's schema, whose settings text, where it has one that parses, is the JSON of an object, and, for the custom type, whose
    custom text parses (both without numbers JSON does not keep, such as minus zero), the text written for the settings
    is the JSON of an object that holds every setting the form does not manage unchanged, each of the twelve settings
    that depend on the type alone as the form has it for the types that use it and not at all for the other types, and
    the custom configuration of the form's text for the custom type and none for the other types.  The settings of upstream model
    updates are those of the form for the types whose models can be listed (automatic updates only with the check on,
    the ignored models trimmed and each once, the models found so far kept only as long as the check is on and the time of
    the last check kept where it is a number), and stay as they were for the types whose models cannot be listed. *)
Theorem channel_settings_kept f fields : form_typed f -> existing_settings f = JObj fields ->
  exists t o, buildSettingsJSON f = Ok t /\ json_parse t = Ok (JObj o) /\
    (forall k, includes_str managed_settings k = false -> get_field (JObj o) k = get_field (JObj fields) k) /\
    (forall k v, type_setting f k = Some v -> get_field (JObj o) k = v) /\
    upstream_written f fields o /\ custom_written f o.
Proof.
  intros F E. destruct (settings_saved f F) as (fields' & o & E' & _ & P & S & T & R & U & C). rewrite E in E'. injection E' as <-.
  exists (print_compact (JObj o)), o. split; [done |]. split; [by apply print_compact_parses |]. split_and!; [| done..].
  intros k. by apply (foreign_settings_kept f).
Qed.

(** ** The payload of an update *)

Lemma get_map_null o k : get_field (JObj (map empty_to_null o)) k =
  if value_is_text (get_field (JObj o) k) [] then JNull else get_field (JObj o) k.
Proof.
  unfold get_field. induction o as [| [a v] o IH]; [done |]. cbn [map empty_to_null assoc_str fst snd].
  destruct (str_eqb a k); [reflexivity | exact IH].
Qed.

Lemma map_null_keys o : (map empty_to_null o).*1 = o.*1.
Proof. induction o as [| e o IH]; [done |]. cbn. by rewrite IH. Qed.

Lemma fold_put_NoDup {A} (g : A -> str * jsval) l : forall o, NoDup o.*1 -> NoDup (fold_left (fun o a => obj_put o (g a).1 (g a).2) l o).*1.
Proof. induction l as [| a l IH]; intros o N; [done |]. cbn [fold_left]. apply IH. by apply obj_put_NoDup. Qed.

(** An object with the properties of another one added. *)
Lemma get_merge o p k : NoDup p.*1 -> get_field (merge_objects (JObj o) (JObj p)) k =
  match assoc_str p k with Some v => v | None => get_field (JObj o) k end.
Proof.
  unfold merge_objects. cbn [own_entries]. revert o. induction p as [| [a v] p IH]; intros o N; [done |].
  cbn [fmap list_fmap] in N. apply list.NoDup_cons in N as [Na N]. cbn [fold_left assoc_str fst snd]. rewrite IH by done.
  rewrite get_obj_put. destruct (str_eqb a k) eqn:E; [| done]. apply str_eqb_eq in E. subst k.
  destruct (assoc_str p a) eqn:A; [| done]. exfalso. apply Na. apply assoc_str_elem in A. apply list_elem_of_fmap. by exists (a, j).
Qed.

Lemma get_merge_found o p k : NoDup p.*1 -> get_field (JObj p) k <> JUndefined -> get_field (merge_objects (JObj o) (JObj p)) k = get_field (JObj p) k.
Proof. intros N D. rewrite get_merge by done. unfold get_field in *. by destruct (assoc_str p k). Qed.

Lemma get_merge_absent o p k : NoDup p.*1 -> assoc_str p k = None -> get_field (merge_objects (JObj o) (JObj p)) k = get_field (JObj o) k.
Proof. intros N D. by rewrite get_merge, D. Qed.

Definition payload_keys : list str :=
  [js "id"; js "name"; js "type"; js "base_url"; js "openai_organization"; js "models"; js "group"; js "model_mapping"; js "priority";
   js "weight"; js "test_model"; js "auto_ban"; js "status_code_mapping"; js "tag"; js "remark"; js "setting"; js "param_override";
   js "header_override"; js "settings"; js "other"].

Lemma assoc_map_null o k : assoc_str o k = None -> assoc_str (map empty_to_null o) k = None.
Proof. induction o as [| [a v] o IH]; [done |]. cbn [map empty_to_null assoc_str fst snd]. by destruct (str_eqb a k). Qed.

Lemma assoc_fold_put (g : str -> jsval) ks k : includes_str ks k = false -> forall o, assoc_str o k = None ->
  assoc_str (fold_left (fun o k => obj_put o k (g k)) ks o) k = None.
Proof.
  induction ks as [| a ks IH]; intros N o O; [done |]. unfold includes_str in N. cbn [existsb] in N. apply orb_false_iff in N as [Na N].
  cbn [fold_left]. apply IH; [done |]. rewrite assoc_put. destruct (str_eqb a k) eqn:E; [| done].
  apply str_eqb_eq in E. subst a. by rewrite str_eqb_refl in Na.
Qed.

(** The last steps of an update: the key if there is one, empty texts, the fields that are
    cleared with an empty text. *)
Definition update_steps (f : jsval) (url : str) (key : option jsval) (p0 : list (str * jsval)) : list (str * jsval) :=
  fold_left (fun o k => obj_put o k (value_or (get_field f k) (JStr []))) cleared_fields
    (obj_put (map empty_to_null (match key with Some v => obj_put p0 (js "key") v | None => p0 end)) (js "base_url") (JStr url)).

Lemma steps_cleared f url key p0 k : includes_str cleared_fields k = true ->
  get_field (JObj (update_steps f url key p0)) k = value_or (get_field f k) (JStr []).
Proof. intros C. unfold update_steps. by rewrite get_fold_put, C. Qed.

Lemma steps_url f url key p0 : field (JObj (update_steps f url key p0)) "base_url" = JStr url.
Proof. unfold update_steps. rewrite get_fold_put. change (includes_str cleared_fields (js "base_url")) with false. cbn iota. apply get_put_same. Qed.

Lemma steps_other f url key p0 k : includes_str (js "key" :: js "base_url" :: cleared_fields) k = false ->
  get_field (JObj (update_steps f url key p0)) k = if value_is_text (get_field (JObj p0) k) [] then JNull else get_field (JObj p0) k.
Proof.
  unfold includes_str. cbn [existsb]. rewrite !orb_false_iff. intros (K & B & C). unfold update_steps. rewrite get_fold_put.
  unfold includes_str. rewrite C.
  assert (forall a, str_eqb k a = false -> str_eqb a k = false) as Sym.
  { intros a. rewrite !str_eqb_neq. congruence. }
  rewrite get_put_other by (by apply Sym). rewrite get_map_null. destruct key; [| done]. by rewrite get_put_other by (by apply Sym).
Qed.

Lemma steps_NoDup f url key p0 : NoDup p0.*1 -> NoDup (update_steps f url key p0).*1.
Proof.
  intros N. unfold update_steps. apply (fold_put_NoDup (fun k => (k, value_or (get_field f k) (JStr [])))). apply obj_put_NoDup.
  rewrite map_null_keys. destruct key; [by apply obj_put_NoDup | done].
Qed.

Lemma steps_absent f url key p0 k : includes_str (js "key" :: js "base_url" :: cleared_fields) k = false -> assoc_str p0 k = None ->
  assoc_str (update_steps f url key p0) k = None.
Proof.
  unfold includes_str. cbn [existsb]. rewrite !orb_false_iff. intros (K & B & C) O. unfold update_steps.
  assert (forall a, str_eqb k a = false -> str_eqb a k = false) as Sym.
  { intros a. rewrite !str_eqb_neq. congruence. }
  apply assoc_fold_put; [done |]. rewrite assoc_put, (Sym _ B). apply assoc_map_null. destruct key; [| done]. by rewrite assoc_put, (Sym _ K).
Qed.

(** What an update sends. *)
Lemma update_payload f id setting settings : form_settled f -> buildSettingJSON f = Ok setting -> buildSettingsJSON f = Ok settings ->
  setting <> [] -> settings <> [] ->
  exists p l, transformFormDataToUpdatePayload f id = Ok (JObj p) /\ NoDup p.*1 /\ assoc_str p (js "channel_info") = None /\
    (forall k, k ∈ plain_texts -> value_or (get_field (JObj p) k) (JStr []) = get_field f k /\ get_field (JObj p) k <> JUndefined) /\
    field (JObj p) "type" = field f "type" /\ field (JObj p) "base_url" = field f "base_url" /\
    field f "group" = JArr (map JStr l) /\ field (JObj p) "group" = JStr (join (js ",") l) /\ l <> [] /\ Forall clean_name l /\
    field (JObj p) "priority" = field f "priority" /\ field (JObj p) "weight" = field f "weight" /\
    field (JObj p) "auto_ban" = field f "auto_ban" /\ field (JObj p) "setting" = JStr setting /\ field (JObj p) "settings" = JStr settings.
Proof.
  intros F S1 S2 N1 N2. destruct (fs_base_url f F) as (url & Eu & Tu), (fs_groups f F) as (l & El & Nl & Cl), (fs_key f F) as (key & Ek & _).
  destruct (fs_numbers f F (js "priority")) as (pn & Ep & _); [by left |]. destruct (fs_numbers f F (js "weight")) as (wn & Ew & _); [right; by left |].
  destruct (fs_auto_ban f F) as (an & Ea). destruct (fs_type f F) as (tn & Et).
  unfold transformFormDataToUpdatePayload. rewrite Eu, El, Ek, Ep, Ew.
  unfold normalizeBaseUrl. rewrite value_or_str. cbn [js_String obind]. rewrite Tu. cbn [obind value_join].
  rewrite joined_value. cbn [obind]. rewrite S1. cbn [obind]. rewrite S2. cbn [obind].
  assert (exists given, (if value_truthy (JStr key) then let* s := value_trim (JStr key) in Ok (non_empty s) else @Ok JsError _ false) = Ok given) as (given & ->).
  { destruct key; eexists; reflexivity. }
  cbn [obind value_coalesce is_nullish]. set (p0 := (js "id", id) :: _).
  assert (NoDup p0.*1) as N0.
  { change (p0.*1) with payload_keys. apply (bool_decide_unpack (NoDup payload_keys)). vm_compute. exact I. }
  assert (exists k, (if given then obj_put p0 (js "key") (JStr key) else p0) = match k with Some v => obj_put p0 (js "key") v | None => p0 end) as (k & ->).
  { destruct given; [by exists (Some (JStr key)) | by exists None]. }
  exists (update_steps f url k p0), l. split; [reflexivity |]. split; [by apply steps_NoDup |]. split; [by apply steps_absent |].
  split.
  { intros t I. destruct (fs_texts f F t I) as (s & E & _). rewrite E.
    assert (get_field (JObj (update_steps f url k p0)) t = JStr s \/ get_field (JObj (update_steps f url k p0)) t = JNull /\ s = []) as [-> | [-> ->]];
      [| by destruct s | done].
    destruct (includes_str cleared_fields t) eqn:C; [left; by rewrite steps_cleared, E, value_or_str |].
    assert (t ∈ [js "name"; js "models"; js "other"]) as J.
    { unfold plain_texts in I. repeat (apply list.elem_of_cons in I as [-> | I]; [first [by apply includes_str_elem | by vm_compute in C] |]).
      by apply not_elem_of_nil in I. }
    assert (get_field (JObj p0) t = JStr s) as P0.
    { repeat (apply list.elem_of_cons in J as [-> | J]; [rewrite <- E; first [reflexivity | rewrite E; symmetry; rewrite <- (value_or_str s), <- E; reflexivity] |]).
      by apply not_elem_of_nil in J. }
    rewrite steps_other, P0; [destruct s; [by right | by left] |].
    repeat (apply list.elem_of_cons in J as [-> | J]; [reflexivity |]). by apply not_elem_of_nil in J. }
  rewrite steps_url, !steps_other by reflexivity.
  change (field (JObj p0) "type") with (field f "type"). change (field (JObj p0) "group") with (JStr (join (js ",") l)).
  change (field (JObj p0) "priority") with (JNum pn). change (field (JObj p0) "weight") with (JNum wn).
  change (field (JObj p0) "auto_ban") with (value_coalesce (field f "auto_ban") (JNum (lit 1))).
  change (field (JObj p0) "setting") with (JStr setting). change (field (JObj p0) "settings") with (JStr settings).
  rewrite Ea, Et. split_and!; try done.
  - destruct l as [| a l']; [done |]. apply list.Forall_cons in Cl as [(_ & Na & _) _]. destruct a; [done |]. by destruct l'.
  - by destruct setting.
  - by destruct settings.
Qed.

(** ** Saving and opening *)

Definition upstream_fields : list str :=
  [js "upstream_model_update_check_enabled"; js "upstream_model_update_auto_sync_enabled"; js "upstream_model_update_ignored_models"].

(** The fields only some types use. *)
Definition typed_fields (type : jsval) : list (str * bool) :=
  let openai := type_in type OPENAI_FIELD_PASSTHROUGH_TYPES in
  let claude := type_in type CLAUDE_FIELD_PASSTHROUGH_TYPES in
  [(js "task_plugin_key", is_type type CHANNEL_TYPE_TASK_PLUGIN); (js "vertex_key_type", is_type type 41);
   (js "azure_responses_version", is_type type 3); (js "is_enterprise_account", is_type type 20); (js "aws_key_type", is_type type 33);
   (js "allow_service_tier", type_in type FIELD_PASSTHROUGH_TYPES); (js "disable_store", openai); (js "allow_safety_identifier", openai);
   (js "allow_include_obfuscation", openai); (js "allow_inference_geo", openai || claude); (js "allow_speed", claude);
   (js "claude_beta_query", is_type type 14)].

Definition shared_fields : list str :=
  plain_texts ++
  [js "type"; js "base_url"; js "group"; js "priority"; js "weight"; js "auto_ban"; js "force_format"; js "thinking_to_content"; js "proxy";
   js "http_protocol"; js "http2_connection_shards"; js "pass_through_body_enabled"; js "system_prompt"; js "system_prompt_override";
   js "disable_task_polling_sleep"].

(** What a field holds when the channel is opened again: a field another type uses has its default. *)
Definition reopened_field (f : jsval) (k : str) : jsval :=
  match assoc_str (typed_fields (field f "type")) k with
  | Some false => get_field CHANNEL_FORM_DEFAULT_VALUES k
  | _ => get_field f k
  end.

Section Reopen.
Variable f : jsval.
Hypothesis F : form_settled f.

(** A setting by type, when it is read again. *)
Lemma yes_again k (b : bool) o : includes_str form_flags k = true -> get_field (JObj o) k = (if b then is_yes (get_field f k) else JUndefined) ->
  is_yes (get_field (JObj o) k) = if b then get_field f k else JBool false.
Proof. intros I ->. destruct (flag_of_form f k F I) as (v & ->). destruct b; [by destruct v | done]. Qed.

Variable o : list (str * jsval).
Variables ignored custom : str.
Hypothesis R : forall k v, type_setting f k = Some v -> get_field (JObj o) k = v.
Let own := JObj (own_settings (JObj o) ignored custom).

Lemma flag_again k b : includes_str form_flags k = true -> type_setting f k = Some (if b : bool then is_yes (get_field f k) else JUndefined) ->
  assoc_str (typed_fields (field f "type")) k = Some b -> get_field CHANNEL_FORM_DEFAULT_VALUES k = JBool false ->
  get_field own k = is_yes (get_field (JObj o) k) -> get_field own k = reopened_field f k.
Proof.
  intros I T A D ->. rewrite (yes_again k b o I (R _ _ T)). unfold reopened_field. rewrite A, D. by destruct b.
Qed.

(** A text of one type, with the default [d]. *)
Lemma choice_again k (b : bool) s d : get_field f k = JStr s -> (s = [] -> d = []) ->
  get_field (JObj o) k = (if b && value_truthy (JStr s) then JStr s else JUndefined) ->
  assoc_str (typed_fields (field f "type")) k = Some b -> get_field CHANNEL_FORM_DEFAULT_VALUES k = JStr d ->
  get_field own k = value_or (get_field (JObj o) k) (JStr d) -> get_field own k = reopened_field f k.
Proof.
  intros E N T A D ->. rewrite T. unfold reopened_field. rewrite A, D, E. destruct b; [| done]. destruct s; [by rewrite N | done].
Qed.

Lemma own_settings_again k :
  k ∈ map fst (tail (typed_fields (field f "type"))) \/ k = js "disable_task_polling_sleep" -> get_field own k = reopened_field f k.
Proof.
  destruct (fs_vertex f F) as (vs & Ev & Nv & _), (fs_aws f F) as (ws & Ew & Nw & _), (fs_azure f F) as (zs & Ez & _).
  set (type := field f "type") in *.
  intros [I | ->].
  2: { change (field own "disable_task_polling_sleep") with (is_yes (field (JObj o) "disable_task_polling_sleep")).
       by rewrite (yes_again (js "disable_task_polling_sleep") true o eq_refl (R (js "disable_task_polling_sleep") _ eq_refl)). }
  repeat (apply list.elem_of_cons in I as [-> | I]; [cbn [fst] | ]).
  - apply (choice_again _ (is_type type 41) vs (js "json") Ev); [done | | reflexivity ..].
    rewrite (R (js "vertex_key_type") _ eq_refl). fold type. rewrite Ev. destruct vs; [done |]. by rewrite andb_true_r.
  - apply (choice_again _ (is_type type 3) zs [] Ez); [done | | reflexivity ..].
    rewrite (R (js "azure_responses_version") _ eq_refl). fold type. by rewrite Ez.
  - change (field own "is_enterprise_account") with (is_yes (field (JObj o) "openrouter_enterprise")).
    rewrite (R (js "openrouter_enterprise") _ eq_refl). fold type. unfold reopened_field. fold type.
    destruct (flag_of_form f (js "is_enterprise_account") F eq_refl) as (b & ->).
    change (assoc_str (typed_fields type) (js "is_enterprise_account")) with (Some (is_type type 20)). destruct (is_type type 20); [by destruct b | done].
  - apply (choice_again _ (is_type type 33) ws (js "ak_sk") Ew); [done | | reflexivity ..].
    rewrite (R (js "aws_key_type") _ eq_refl). fold type. rewrite Ew. destruct ws; [done |]. by rewrite andb_true_r.
  - by apply (flag_again _ (type_in type FIELD_PASSTHROUGH_TYPES)).
  - by apply (flag_again _ (type_in type OPENAI_FIELD_PASSTHROUGH_TYPES)).
  - by apply (flag_again _ (type_in type OPENAI_FIELD_PASSTHROUGH_TYPES)).
  - by apply (flag_again _ (type_in type OPENAI_FIELD_PASSTHROUGH_TYPES)).
  - by apply (flag_again _ (type_in type OPENAI_FIELD_PASSTHROUGH_TYPES || type_in type CLAUDE_FIELD_PASSTHROUGH_TYPES)).
  - by apply (flag_again _ (type_in type CLAUDE_FIELD_PASSTHROUGH_TYPES)).
  - by apply (flag_again _ (is_type type 14)).
  - by apply not_elem_of_nil in I.
Qed.
End Reopen.

(** What the fields of upstream model updates hold when the channel is opened again: for a type whose models can be listed
    what the form said, for another type what the settings had before. *)
Definition upstream_reopened (f : jsval) (before : list (str * jsval)) (f' : jsval) : Prop :=
  if type_in (field f "type") MODEL_FETCHABLE_TYPES then
    exists check sync s l,
      field f "upstream_model_update_check_enabled" = JBool check /\ field f "upstream_model_update_auto_sync_enabled" = JBool sync /\
      field f "upstream_model_update_ignored_models" = JStr s /\ models_listed s l /\
      field f' "upstream_model_update_check_enabled" = JBool check /\
      field f' "upstream_model_update_auto_sync_enabled" = JBool (check && sync) /\
      field f' "upstream_model_update_ignored_models" = JStr (join (js ",") l)
  else
    field f' "upstream_model_update_check_enabled" = is_yes (field (JObj before) "upstream_model_update_check_enabled") /\
    field f' "upstream_model_update_auto_sync_enabled" = is_yes (field (JObj before) "upstream_model_update_auto_sync_enabled") /\
    field f' "upstream_model_update_ignored_models" = JStr (ignored_text (JObj before)).

Lemma upstream_again f before o custom f' : upstream_written f before o ->
  (forall k, k ∈ upstream_fields -> get_field f' k = get_field (JObj (own_settings (JObj o) (ignored_text (JObj o)) custom)) k) ->
  upstream_reopened f before f'.
Proof.
  intros U L. unfold upstream_written, upstream_reopened in *. rewrite !L by (by apply includes_str_elem).
  destruct (type_in _ _).
  - destruct U as (check & sync & s & l & Ec & Es & Ei & Ml & Wc & Ws & Wi & _). exists check, sync, s, l. split_and!; try done.
    + etransitivity; [exact (f_equal is_yes Wc) | by destruct check].
    + etransitivity; [exact (f_equal is_yes Ws) | by destruct check, sync].
    + change (JStr (ignored_text (JObj o)) = JStr (join (js ",") l)). unfold ignored_text. by rewrite Wi, joined_value.
  - assert (forall k, includes_str upstream_settings k = true -> get_field (JObj o) k = get_field (JObj before) k) as K
      by (intros k I; by apply U, includes_str_elem).
    unfold ignored_text. rewrite <- !K by reflexivity. by split_and!.
Qed.

(** The form a channel opens as, from what its fields hold. *)
Lemma opened_form channel l mode extra settings :
  value_or (field channel "group") (JStr (js "default")) = JStr (join (js ",") l) -> Forall clean_name l ->
  value_prop (field channel "channel_info") (js "multi_key_mode") = Ok mode ->
  extraSettings channel = extra -> typeSettings channel = settings ->
  exists base, transformChannelToFormDefaults channel = Ok (JObj (base ++ extra ++ settings)) /\
    base.*1 = [js "name"; js "type"; js "base_url"; js "key"; js "openai_organization"; js "models"; js "group"; js "model_mapping"; js "priority";
               js "weight"; js "test_model"; js "auto_ban"; js "status"; js "status_code_mapping"; js "tag"; js "remark"; js "setting";
               js "param_override"; js "header_override"; js "settings"; js "other"; js "multi_key_mode"; js "multi_key_type";
               js "batch_add_set_key_prefix_2_name"; js "key_mode"] /\
    (forall k, k ∈ plain_texts -> get_field (JObj base) k = value_or (get_field channel k) (JStr [])) /\
    field (JObj base) "type" = field channel "type" /\ field (JObj base) "base_url" = value_or (field channel "base_url") (JStr []) /\
    field (JObj base) "group" = JArr (map JStr l) /\
    (forall k, k ∈ [js "priority"; js "weight"] -> get_field (JObj base) k = value_or (get_field channel k) (JNum num_zero)) /\
    field (JObj base) "auto_ban" = value_coalesce (field channel "auto_ban") (JNum (lit 1)).
Proof.
  intros G C M <- <-. unfold transformChannelToFormDefaults. rewrite G. unfold parseGroups. rewrite comma_list_join by done. cbn [obind].
  rewrite M. cbn [obind]. eexists. split; [reflexivity |]. split; [reflexivity |]. split; [| split_and!; try reflexivity].
  - intros k I. unfold plain_texts in I. repeat (apply list.elem_of_cons in I as [-> | I]; [reflexivity |]). by apply not_elem_of_nil in I.
  - intros k I. repeat (apply list.elem_of_cons in I as [-> | I]; [reflexivity |]). by apply not_elem_of_nil in I.
Qed.

Lemma get_app_l a b k : includes_str a.*1 k = true -> get_field (JObj (a ++ b)) k = get_field (JObj a) k.
Proof.
  intros I. unfold get_field. rewrite assoc_app. destruct (assoc_str a k) eqn:E; [done |]. exfalso. apply includes_str_elem in I.
  apply list_elem_of_fmap in I as ([k' v] & -> & I). cbn in E. clear b. induction a as [| [k2 v2] a IH]; [by apply not_elem_of_nil in I |].
  cbn in E. destruct (str_eqb k2 k') eqn:K; [done |]. apply list.elem_of_cons in I as [[= -> ->] | I]; [by rewrite str_eqb_refl in K | by apply IH].
Qed.

Lemma get_app_r a b k : includes_str a.*1 k = false -> get_field (JObj (a ++ b)) k = get_field (JObj b) k.
Proof.
  intros I. unfold get_field. rewrite assoc_app. destruct (assoc_str a k) eqn:E; [| done]. exfalso. apply assoc_str_elem in E.
  rewrite <- not_true_iff_false in I. apply I, includes_str_elem, list_elem_of_fmap. by exists (k, j).
Qed.

Lemma extra_again_value f k : k ∈ map fst (extra_again f) -> get_field (JObj (extra_again f)) k = reopened_field f k.
Proof.
  intros I. unfold reopened_field. set (type := field f "type").
  repeat (apply list.elem_of_cons in I as [-> | I]; [reflexivity |]). by apply not_elem_of_nil in I.
Qed.


(** ** Examples *)

Definition sample_settings : jsval :=
  JObj [(js "region", JStr (js "eu")); (js "allow_speed", JBool true); (js "upstream_model_update_last_check_time", JNum (lit 17))].

Definition sample_form : jsval :=
  JObj (fold_left (fun o e => obj_put o e.1 e.2)
    [(js "name", JStr (js "Router")); (js "type", JNum (lit 20)); (js "base_url", JStr (js "https://example.org/v1"));
     (js "models", JStr (js "a,b")); (js "group", JArr [JStr (js "default"); JStr (js "vip")]); (js "priority", JNum (lit 3));
     (js "tag", JStr (js "t")); (js "settings", JStr (print_compact sample_settings)); (js "proxy", JStr (js "http://proxy:1"));
     (js "http2_connection_shards", JNum (lit 4)); (js "system_prompt", JStr (js "Be brief. ")); (js "is_enterprise_account", JBool true);
     (js "upstream_model_update_check_enabled", JBool true); (js "upstream_model_update_auto_sync_enabled", JBool true);
     (js "upstream_model_update_ignored_models", JStr (js "x,y"))] (own_entries CHANNEL_FORM_DEFAULT_VALUES)).

Ltac known_field := eexists; split; [vm_compute; reflexivity | vm_compute; done].

Lemma sample_form_typed : form_typed sample_form.
Proof.
  constructor.
  - intros k I. unfold form_flags in I. repeat (apply list.elem_of_cons in I as [-> | I]; [eexists; vm_compute; reflexivity |]). by apply not_elem_of_nil in I.
  - by exists (js "json").
  - by exists (js "ak_sk").
  - by exists [].
  - known_field.
  - intros C. by vm_compute in C.
  - exists (own_entries sample_settings). split; [vm_compute; reflexivity | done].
Qed.

Lemma sample_form_settled : form_settled sample_form.
Proof.
  constructor.
  - apply sample_form_typed.
  - by exists (lit 20).
  - intros k I. unfold plain_texts in I. repeat (apply list.elem_of_cons in I as [-> | I]; [known_field |]). by apply not_elem_of_nil in I.
  - exists (js "https://example.org/v1"). by split.
  - exists [js "default"; js "vip"]. split; [done |]. split; [done |]. by repeat constructor.
  - intros k I. repeat (apply list.elem_of_cons in I as [-> | I]; [eexists; split; vm_compute; reflexivity |]). by apply not_elem_of_nil in I.
  - by exists (lit 1).
  - by exists [].
  - by exists [].
  - by exists (js "http://proxy:1").
  - by exists (js "Be brief. ").
  - right. split; [done |]. by exists 4%Z.
Qed.

Lemma channel_settings_kept_witness :
  exists t o, buildSettingsJSON sample_form = Ok t /\ json_parse t = Ok (JObj o) /\ field (JObj o) "region" = JStr (js "eu") /\
    field (JObj o) "openrouter_enterprise" = JBool true /\ field (JObj o) "allow_speed" = JUndefined.
Proof.
  assert (existing_settings sample_form = JObj (own_entries sample_settings)) as E by (vm_compute; reflexivity).
  destruct (channel_settings_kept sample_form (own_entries sample_settings) sample_form_typed E) as (t & o & B & P & K & S & _).
  exists t, o. split; [exact B |]. split; [exact P |]. split; [by rewrite (K (js "region") eq_refl) |].
  split; [by apply S | by apply S].
Defined.

