(* ===== verification/ChannelLists.v ===== *)
(** * The list of channels

    Models the functions behind the table and the drawer of the channels:
    [features/channels/lib/channel-utils.ts] (keys, lists of names, the warning of a
    channel and the rows of the table grouped by tag),
    [model-mapping-validation.ts], [status-code-risk-guard.ts],
    [task-plugin-base-url.ts], [channel-field-update.ts] (the delayed updates of a
    cell, with the timers of the browser as part of the state) and
    [multi-key-utils.ts].

    A [Channel] has the fields these functions read, with the types of the schema of
    [types.ts]; fields that may be null or missing are values.  The order of
    [localeCompare] and the parts of a URL are parameters. *)

From Stdlib Require Import ZArith Lia Bool SpecFloat.
From stdpp Require Import base list numbers.
From S2P Require Import Prelude JsString JsNumber JsObject JsMap JsRegex JsValue JsJson JsDynamic JsURL JsHost JsCoerce PlaygroundMessages ChannelForm.

(** ** Channels *)

Record ChannelInfo := MkInfo {
  is_multi_key : bool;
  multi_key_size : num;
  multi_key_status_list : option (list (str * num))
}.

Record Channel := MkChannel {
  ch_id : num;
  ch_type : num;
  ch_key : str;
  ch_status : num;
  ch_name : str;
  ch_weight : jsval;
  ch_created_time : num;
  ch_test_time : num;
  ch_response_time : num;
  ch_balance : num;
  ch_balance_updated_time : num;
  ch_models : str;
  ch_group : str;
  ch_used_quota : num;
  ch_priority : jsval;
  ch_tag : option str;
  ch_info : option ChannelInfo;
  (** the fields nothing here reads *)
  ch_others : list (str * jsval)
}.

Definition isChannelEnabled (channel : Channel) : bool := num_eqb (ch_status channel) (lit 1).

Definition isMultiKeyChannel (channel : Channel) : bool :=
  match ch_info channel with Some info => is_multi_key info | None => false end.

(** ** Keys *)

Definition newline : N := 10.

(** [key.split('\n').filter((k) => k.trim())] *)
Definition key_lines (key : str) : list str := List.filter (fun k => non_empty (trim k)) (split_char newline key).

Definition formatChannelKey (key : str) (isMultiKey : bool) : str :=
  match key with
  | [] => []
  | _ =>
      if isMultiKey then string_of_nat (length (key_lines key)) ++ js " keys"
      else if length key <=? 16 then js_slice key 0 4 ++ js "..." ++ js_slice_from key (-4)
      else js_slice key 0 8 ++ js "..." ++ js_slice_from key (-8)
  end.

Definition formatKeyPreview (key : str) (maxLength : nat) : str :=
  match key with
  | [] => []
  | _ => if length key <=? maxLength then key else js_slice key 0 (Z.of_nat maxLength) ++ js "..."
  end.

Definition countKeys (key : str) : nat := match key with [] => 0 | _ => length (key_lines key) end.

Record Deduplicated := MkDeduplicated { deduplicatedText : str; beforeCount : nat; afterCount : nat; removedCount : nat }.

(** The body of the loop over the lines: the set is the list of its keys. *)
Definition keep_line (kept : list str) (line : str) : list str :=
  let trimmedLine := trim line in
  if non_empty trimmedLine && negb (includes_str kept trimmedLine) then kept ++ [trimmedLine] else kept.

Definition deduplicateKeys (keysText : str) : Deduplicated :=
  match trim keysText with
  | [] => MkDeduplicated [] 0 0 0
  | _ =>
      let keyLines := split_char newline keysText in
      let kept := fold_left keep_line keyLines [] in
      MkDeduplicated (join [newline] kept) (length keyLines) (length kept) (length keyLines - length kept)
  end.

(** ** Lists of names and settings *)

Definition parseModelsList (models : str) : list str := match models with [] => [] | _ => comma_list models end.

(** The comparison of [parseGroupsList]: the group [default] is first. *)
Definition compare_groups `{Collation} (a b : str) : Z :=
  if str_eqb a (js "default") then (-1)%Z else if str_eqb b (js "default") then 1%Z else localeCompare a b.

Definition parseGroupsList `{Collation} (groups : str) : list str :=
  match groups with [] => [] | _ => sort_by compare_groups (comma_list groups) end.

Definition formatModelsString (models : list str) : str := join (js ",") models.
Definition formatGroupsString (groups : list str) : str := join (js ",") groups.

Definition parseChannelSettings (settingStr : option str) : jsval :=
  match settingStr with
  | None | Some [] => JObj []
  | Some s => match json_parse s with Ok v => v | _ => JObj [] end
  end.

Definition parseChannelOtherSettings (settingsStr : option str) : jsval :=
  match settingsStr with
  | None | Some [] => JObj []
  | Some s => if str_eqb s (js "{}") then JObj [] else match json_parse s with Ok v => v | _ => JObj [] end
  end.

Definition validateChannelSettings (settings : str) : bool :=
  match trim settings with [] => true | _ => match json_parse settings with Ok _ => true | _ => false end end.

Definition validateChannelName (name : str) : bool := 0 <? length (trim name).
Definition validateApiKey (key : str) : bool := 0 <? length (trim key).
Definition validateModels (models : str) : bool := 0 <? length (parseModelsList models).
Definition validateGroups `{Collation} (groups : str) : bool := 0 <? length (parseGroupsList groups).

(** [value === null || value === undefined ? '0' : String(value)] *)
Definition getPriorityDisplay (priority : option num) : str := match priority with None => js "0" | Some n => string_of_num n end.
Definition getWeightDisplay (weight : option num) : str := match weight with None => js "0" | Some n => string_of_num n end.

(** ** Badges and warnings *)

Inductive Variant := VSuccess | VWarning | VDanger | VNeutral.
#[global] Instance Variant_eq_dec : EqDecision Variant.
Proof. solve_decision. Defined.

Definition getBalanceVariant (balance : num) : Variant :=
  if num_eqb balance num_zero then VNeutral
  else if num_ltb balance (lit 1) then VDanger
  else if num_ltb balance (lit 10) then VWarning else VSuccess.

Definition THRESHOLD_EXCELLENT : Z := 500.
Definition THRESHOLD_GOOD : Z := 1000.
Definition THRESHOLD_FAIR : Z := 2000.
Definition THRESHOLD_POOR : Z := 5000.

Inductive Rating := Excellent | Good | Fair | Poor | NotTested.

Definition rating_config (r : Rating) : Variant * str :=
  match r with
  | Excellent => (VSuccess, js "Excellent")
  | Good => (VSuccess, js "Good")
  | Fair => (VWarning, js "Fair")
  | Poor => (VDanger, js "Poor")
  | NotTested => (VNeutral, js "Not tested")
  end.

Definition getResponseTimeConfig (timeMs : num) : Variant * str :=
  rating_config
    (if num_eqb timeMs num_zero then NotTested
     else if num_leb timeMs (lit THRESHOLD_EXCELLENT) then Excellent
     else if num_leb timeMs (lit THRESHOLD_GOOD) then Good
     else if num_leb timeMs (lit THRESHOLD_FAIR) then Fair
     else if num_leb timeMs (lit THRESHOLD_POOR) then Poor else Poor).

(** A channel with several keys, all of them disabled. *)
Definition all_keys_disabled (channel : Channel) : bool :=
  match ch_info channel with
  | Some info =>
      is_multi_key info &&
      match multi_key_status_list info with
      | Some disabled => num_leb (multi_key_size info) (num_of_nat (length disabled))
      | None => false
      end
  | None => false
  end.

Definition low_balance (channel : Channel) : bool := num_ltb num_zero (ch_balance channel) && num_ltb (ch_balance channel) (lit 1).

Definition channelNeedsAttention (channel : Channel) : bool :=
  if num_eqb (ch_status channel) (lit 3) then true
  else if low_balance channel then true
  else if all_keys_disabled channel then true else false.

Definition getAttentionReason (channel : Channel) : option str :=
  if num_eqb (ch_status channel) (lit 3) then Some (js "Auto-disabled")
  else if low_balance channel then Some (js "Low balance")
  else if all_keys_disabled channel then Some (js "All keys disabled") else None.

Inductive MultiKeyAction := KeyEnable | KeyDisable | KeyDelete | KeyEnableAll | KeyDisableAll | KeyDeleteDisabled.

Definition getMultiKeyConfirmMessage (action : option MultiKeyAction) : str :=
  match action with
  | None => []
  | Some KeyDelete => js "Are you sure you want to delete this key? This action cannot be undone."
  | Some KeyEnable => js "Enable this key?"
  | Some KeyDisable => js "Disable this key?"
  | Some KeyEnableAll => js "Are you sure you want to enable all keys?"
  | Some KeyDisableAll => js "Are you sure you want to disable all enabled keys?"
  | Some KeyDeleteDisabled => js "Are you sure you want to delete all auto-disabled keys? This action cannot be undone."
  end.

Definition isDestructiveAction (action : option MultiKeyAction) : bool :=
  match action with Some (KeyDelete | KeyDeleteDisabled | KeyDisableAll) => true | _ => false end.

(** ** Rows grouped by tag *)

Record TagRow := MkTagRow {
  (** the channel whose other fields the row has: [...channel] *)
  row_channel : Channel;
  row_key : str;
  row_id : str;
  row_tag : str;
  row_name : str;
  row_type : num;
  row_status : option num;
  row_group : str;
  row_used_quota : num;
  row_response_time : num;
  row_priority : jsval;
  row_weight : jsval;
  row_balance : num;
  row_test_time : num;
  row_created_time : num;
  row_balance_updated_time : num;
  row_models : str;
  row_children : list Channel
}.

(** [channel.tag || ''] *)
Definition tag_of (channel : Channel) : str := default [] (ch_tag channel).

Definition minus_one : num := lit (-1).

Definition new_row (channel : Channel) : TagRow :=
  let tag := tag_of channel in
  {| row_channel := channel; row_key := tag; row_id := tag; row_tag := tag; row_name := tag;
     row_type := num_zero; row_status := None; row_group := []; row_used_quota := num_zero;
     row_response_time := num_zero; row_priority := JNum minus_one; row_weight := JNum minus_one;
     row_balance := num_zero; row_test_time := num_zero; row_created_time := num_zero;
     row_balance_updated_time := num_zero; row_models := []; row_children := [] |}.

(** The value of the row when it is still unset, null when the values differ. *)
Definition agree_value (current value : jsval) : jsval :=
  if strict_eq_primitive current (JNum minus_one) then value
  else if negb (strict_eq_primitive current value) then JNull else current.

(** [group.split(',').filter(Boolean)] *)
Definition group_names (group : str) : list str := List.filter non_empty (split_char 44%N group).

Definition add_groups (current group : str) : str :=
  match current with
  | [] => group
  | _ =>
      let existingGroups := set_from (group_names current) in
      fold_left (fun acc g => if negb (includes_str existingGroups g) then acc ++ js "," ++ g else acc) (group_names group) current
  end.

Definition add_status (current : option num) (status : num) : option num :=
  if num_eqb status (lit 1) then Some (lit 1) else match current with None => Some status | _ => current end.

(** One channel is added to its row. *)
Definition add_child (row : TagRow) (channel : Channel) : TagRow :=
  let children := row_children row ++ [channel] in
  let childCount := length children in
  {| row_channel := row_channel row; row_key := row_key row; row_id := row_id row; row_tag := row_tag row; row_name := row_name row;
     row_type := row_type row;
     row_status := add_status (row_status row) (ch_status channel);
     row_group := add_groups (row_group row) (ch_group channel);
     row_used_quota := num_add (row_used_quota row) (ch_used_quota channel);
     row_response_time :=
       num_div (num_add (num_mul (row_response_time row) (num_of_nat (childCount - 1))) (ch_response_time channel)) (num_of_nat childCount);
     row_priority := agree_value (row_priority row) (ch_priority channel);
     row_weight := agree_value (row_weight row) (ch_weight channel);
     row_balance := row_balance row; row_test_time := row_test_time row; row_created_time := row_created_time row;
     row_balance_updated_time := row_balance_updated_time row; row_models := row_models row;
     row_children := children |}.

(** The loop changes the rows through the map; the list of results holds the same
    rows, written as their keys in the map. *)
Record TagTable := MkTagTable { tagMap : list (str * TagRow); tag_result : list str }.

Definition aggregate_step (t : TagTable) (channel : Channel) : TagTable :=
  let tag := tag_of channel in
  let t := match map_get (tagMap t) tag with
           | Some _ => t
           | None => MkTagTable (map_set (tagMap t) tag (new_row channel)) (tag_result t ++ [tag])
           end in
  match map_get (tagMap t) tag with
  | None => t
  | Some tagRow => MkTagTable (map_set (tagMap t) tag (add_child tagRow channel)) (tag_result t)
  end.

Definition aggregateChannelsByTag (channels : list Channel) : list TagRow :=
  let t := fold_left aggregate_step channels (MkTagTable [] []) in
  omap (map_get (tagMap t)) (tag_result t).

Inductive TableRow := ChannelRow (c : Channel) | AggregateRow (r : TagRow).

Definition isTagAggregateRow (row : TableRow) : bool := match row with AggregateRow _ => true | _ => false end.

Definition getChannelTableRowId (row : TableRow) : str :=
  match row with
  | AggregateRow r => js "tag:" ++ row_tag r
  | ChannelRow c => js "channel:" ++ string_of_num (ch_id c)
  end.

(** ** The mapping of models *)

Definition parseModelsString (modelsStr : str) : list str := match modelsStr with [] => [] | _ => comma_list modelsStr end.
Definition formatModelsArray (models : list str) : str := join (js ",") (set_from models).
Definition normalizeModelName (model : str) : str := trim model.

(** The properties of the object a text holds, if it holds one. *)
Definition mapping_entries (text : str) : option (list (str * jsval)) :=
  match json_parse text with Ok (JObj fields) => Some fields | _ => None end.

Definition extractMappingSourceModels (modelMapping : str) : list str :=
  match trim modelMapping with
  | [] => []
  | trimmed =>
      match mapping_entries trimmed with
      | Some fields => set_from (List.filter non_empty (map (fun e => trim e.1) fields))
      | None => []
      end
  end.

(** [typeof value === 'string' ? value.trim() : undefined], when it is truthy *)
Definition target_name (v : jsval) : option str :=
  match v with JStr s => match trim s with [] => None | t => Some t end | _ => None end.

Definition extractRedirectModels (modelMapping : str) : list str :=
  match trim modelMapping with
  | [] => []
  | trimmed =>
      match mapping_entries trimmed with
      | Some fields => set_from (omap (fun e => target_name e.2) fields)
      | None => []
      end
  end.

Definition hasModelConfigChanged (currentModels : list str) (currentModelMapping : str) (initialModels : list str) (initialModelMapping : str) : bool :=
  if (length initialModels =? 0) && negb (non_empty initialModelMapping) then true
  else if negb (length currentModels =? length initialModels) then true
  else if existsb (fun ab => negb (str_eqb ab.1 ab.2)) (combine currentModels initialModels) then true
  else negb (str_eqb (trim currentModelMapping) (trim initialModelMapping)).

Definition findMissingModelsInMapping (modelMapping : str) (currentModels : list str) : list str :=
  match trim modelMapping with
  | [] => []
  | _ =>
      match mapping_entries modelMapping with
      | Some fields =>
          let modelSet := set_from (map normalizeModelName currentModels) in
          set_from (List.filter (fun key => non_empty key && negb (includes_str modelSet key)) (map (fun e => normalizeModelName e.1) fields))
      | None => []
      end
  end.

Definition validateModelMappingJson (modelMapping : str) : bool * option str :=
  match trim modelMapping with
  | [] => (true, None)
  | _ =>
      match json_parse modelMapping with
      | Ok (JObj fields) =>
          if existsb (fun e => negb (is_string_value e.2)) fields then (false, Some (js "Model mapping values must be strings")) else (true, None)
      | Ok _ => (false, Some (js "Model mapping must be a valid JSON object"))
      | _ => (false, Some (js "Model mapping must be valid JSON format"))
      end
  end.

Definition findExposedTargetModels (modelMapping : str) (currentModels : list str) : list str :=
  let redirectModels := extractRedirectModels modelMapping in
  if length redirectModels =? 0 then []
  else
    let modelSet := set_from (map normalizeModelName currentModels) in
    List.filter (fun model => includes_str modelSet (normalizeModelName model)) redirectModels.

Record ModelSets := MkModelSets {
  normalizedCurrentModels : list str;
  normalizedRedirectModels : list str;
  classificationSet : list str;
  redirectOnlySet : list str
}.

Definition categorizeModelsWithRedirect (currentModels redirectModels : list str) : ModelSets :=
  let current := set_from (List.filter non_empty (map normalizeModelName currentModels)) in
  let redirect := set_from (List.filter non_empty (map normalizeModelName redirectModels)) in
  {| normalizedCurrentModels := current; normalizedRedirectModels := redirect;
     classificationSet := set_from (current ++ redirect);
     redirectOnlySet := set_from (List.filter (fun m => negb (includes_str current m)) redirect) |}.

(** ** Redirected status codes *)

Definition NON_REDIRECTABLE_STATUS_CODES : list Z := [504; 524]%Z.

(** [/^[1-5]\d{2}$/] and the number it spells *)
Definition status_digits (s : str) : option Z :=
  match s with
  | [a; b; c] => if in_range 49 53 a && is_digit b && is_digit c then Some (Z.of_N (digits_value 0 s)) else None
  | _ => None
  end.

Definition parseStatusCodeKey (rawKey : str) : option Z := status_digits (trim rawKey).

Definition parseStatusCodeMappingTarget (rawValue : jsval) : option Z :=
  match rawValue with
  | JNum n => if is_integer n then (if num_leb (lit 100) n && num_leb n (lit 599) then num_to_Z n else None) else None
  | JStr s =>
      match status_digits (trim s) with
      | Some code => if (100 <=? code)%Z && (code <=? 599)%Z then Some code else None
      | None => None
      end
  | _ => None
  end.

(** The entries of a mapping that can be read; no entries otherwise. *)
Definition status_mapping (text : str) : list (str * jsval) :=
  match trim text with [] => [] | _ => default [] (mapping_entries text) end.

Definition arrow : str := [32; 8594; 32]%N.

Definition invalid_entry (e : str * jsval) : outcome JsError (list str) :=
  match parseStatusCodeKey e.1, parseStatusCodeMappingTarget e.2 with
  | Some _, Some _ => Ok []
  | _, _ => let* value := js_String e.2 in Ok [e.1 ++ arrow ++ value]
  end.

Fixpoint collect_invalid (entries : list (str * jsval)) : outcome JsError (list str) :=
  match entries with
  | [] => Ok []
  | e :: rest => let* a := invalid_entry e in let* b := collect_invalid rest in Ok (a ++ b)
  end.

Definition collectInvalidStatusCodeEntries (statusCodeMappingStr : str) : outcome JsError (list str) :=
  collect_invalid (status_mapping statusCodeMappingStr).

Definition code_name (z : Z) : str := string_of_N (Z.to_N z).
Definition redirect_text (from to : Z) : str := code_name from ++ js " -> " ++ code_name to.

(** The redirect of an entry, when it is a risky one. *)
Definition risky_redirect (e : str * jsval) : option (Z * Z) :=
  match parseStatusCodeKey e.1, parseStatusCodeMappingTarget e.2 with
  | Some fromCode, Some toCode =>
      if negb (existsb (Z.eqb fromCode) NON_REDIRECTABLE_STATUS_CODES) then None
      else if (fromCode =? toCode)%Z then None else Some (fromCode, toCode)
  | _, _ => None
  end.

(** [texts.sort()] *)
Definition sort_texts : list str -> list str :=
  sort_by (fun a b => if str_ltb a b then (-1)%Z else if str_ltb b a then 1%Z else 0%Z).

Definition collectDisallowedStatusCodeRedirects (statusCodeMappingStr : str) : list str :=
  sort_texts (set_from (map (fun r => redirect_text r.1 r.2) (omap risky_redirect (status_mapping statusCodeMappingStr)))).

Definition collectNewDisallowedStatusCodeRedirects (originalStr currentStr : str) : list str :=
  let currentRisky := collectDisallowedStatusCodeRedirects currentStr in
  if length currentRisky =? 0 then []
  else
    let originalRiskySet := set_from (collectDisallowedStatusCodeRedirects originalStr) in
    List.filter (fun mapping => negb (includes_str originalRiskySet mapping)) currentRisky.

(** ** Base addresses *)

Definition is_unit_of (s : str) (c : N) : bool := existsb (N.eqb c) s.
Definition rdigit : regex := RChar is_digit.
Definition rrange (lo hi : N) : regex := RChar (in_range lo hi).
Definition rhex : regex := RChar (fun c => is_digit c || in_range 97 102 c).
Definition rof (s : str) : regex := RChar (is_unit_of s).

(** The patterns that start with [^]; the host is in lower case. *)
Definition anchored_patterns : list regex :=
  [RSeq (rtext (js "localhost")) REnd;
   rtext (js "127.");
   RSeq (rtext (js "0.0.0.0")) REnd;
   rtext (js "10.");
   rtext (js "192.168.");
   rseq [rtext (js "172."); ralt (RSeq (rtext (js "1")) (rrange 54 57)) [RSeq (rtext (js "2")) rdigit; RSeq (rtext (js "3")) (rof (js "01"))]; rtext (js ".")];
   rtext (js "169.254.");
   rseq [rtext (js "100.");
         ralt (RSeq (rtext (js "6")) (rrange 52 57))
           [RSeq (rrange 55 57) rdigit; rseq [rtext (js "1"); rof (js "01"); rdigit]; RSeq (rtext (js "12")) (rrange 48 55)];
         rtext (js ".")];
   rseq [ROpt (rtext (js "[")); rtext (js "::1"); ROpt (rtext (js "]")); REnd];
   RSeq (ROpt (rtext (js "["))) (rtext (js "fe80:"));
   rseq [ROpt (rtext (js "[")); rtext (js "f"); rof (js "cd"); rhex; rhex; rtext (js ":")]].

Definition suffix_patterns : list regex :=
  [RSeq (rtext (js ".localhost")) REnd;
   rseq [rtext (js "."); ralt (rtext (js "local")) [rtext (js "internal"); rtext (js "lan")]; REnd]].

(** [PRIVATE_HOST_PATTERNS.some((pattern) => pattern.test(host))] *)
Definition private_pattern (host : str) : bool :=
  existsb (fun r => bool_decide (is_Some (match_here r host))) anchored_patterns ||
  existsb (fun r => bool_decide (is_Some (exec_from r [] host))) suffix_patterns.

Record BaseUrlTrust := MkTrust { plainHttp : bool; privateHost : bool }.

Definition assessBaseUrlTrust `{JSHost} (url_parts : str -> option (str * str * str)) (value : option str) : option BaseUrlTrust :=
  match trim (default [] value) with
  | [] => None
  | trimmed =>
      match url_parts trimmed with
      | None => None
      | Some (protocol, hostname, _) =>
          if negb (str_eqb protocol (js "http:")) && negb (str_eqb protocol (js "https:")) then None
          else
            let host := toLowerCase hostname in
            let singleLabel := negb (contains host (js ".")) && negb (contains host (js ":")) in
            Some (MkTrust (str_eqb protocol (js "http:")) (singleLabel || private_pattern host))
      end
  end.

Definition normalizeBaseUrlValue (value : option str) : str := drop_slashes (trim (default [] value)).

Definition nextTaskPluginBaseUrl (currentValue previousDefault nextDefault : option str) : option str :=
  match nextDefault with
  | None | Some [] => None
  | Some next =>
      let current := normalizeBaseUrlValue currentValue in
      if non_empty current && negb (str_eqb current (normalizeBaseUrlValue previousDefault)) then None
      else if str_eqb current (normalizeBaseUrlValue nextDefault) then None
      else Some next
  end.

(** ** Delayed updates of a cell *)

Definition CHANNEL_FIELD_UPDATE_DELAY_MS : Z := 800.

Record FieldScheduler := MkFieldScheduler {
  timeoutId : option nat;
  pendingValue : option num;
  (** the timers the browser will still fire, and the identifier it gives next *)
  live_timers : list nat;
  next_timer : nat;
  (** the calls of [onUpdate], in order *)
  field_updates : list num
}.

Definition idle_scheduler : FieldScheduler := MkFieldScheduler None None [] 1 [].

Definition clear_timeout (id : nat) (timers : list nat) : list nat := List.filter (fun i => negb (i =? id)) timers.

Definition clearPendingTimer (s : FieldScheduler) : FieldScheduler :=
  match timeoutId s with
  | None => s
  | Some id => MkFieldScheduler None (pendingValue s) (clear_timeout id (live_timers s)) (next_timer s) (field_updates s)
  end.

Definition commitPendingValue (s : FieldScheduler) : FieldScheduler :=
  let s := clearPendingTimer s in
  match pendingValue s with
  | None => s
  | Some value => MkFieldScheduler (timeoutId s) None (live_timers s) (next_timer s) (field_updates s ++ [value])
  end.

Definition schedule (value : num) (s : FieldScheduler) : FieldScheduler :=
  let s := clearPendingTimer s in
  MkFieldScheduler (Some (next_timer s)) (Some value) (live_timers s ++ [next_timer s]) (S (next_timer s)) (field_updates s).

(** What can happen to a cell: the user types, leaves the cell (or the cell is
    removed), and the browser fires a timer it holds. *)
Inductive FieldEvent := Schedule (value : num) | Flush | TimerFires (id : nat).

Definition field_step (s : FieldScheduler) (e : FieldEvent) : FieldScheduler :=
  match e with
  | Schedule value => schedule value s
  | Flush => commitPendingValue s
  | TimerFires id =>
      if existsb (Nat.eqb id) (live_timers s)
      then commitPendingValue (MkFieldScheduler (timeoutId s) (pendingValue s) (clear_timeout id (live_timers s)) (next_timer s) (field_updates s))
      else s
  end.

Definition field_run (events : list FieldEvent) : FieldScheduler := fold_left field_step events idle_scheduler.

(** ** Models of an Ollama server *)

(** [typeof v === 'string' ? v : undefined], with the empty text for undefined: the
    uses only ask whether the text is empty. *)
Definition string_or_empty (v : jsval) : str := match v with JStr s => s | _ => [] end.

Definition parseMaybeJSON (value : jsval) : jsval :=
  if negb (value_truthy value) then JNull
  else if is_object value then value
  else match value with JStr s => match json_parse s with Ok v => v | _ => JNull end | _ => JNull end.

(** The first text that is not empty. *)
Definition first_given (texts : list str) : str := default [] (List.find non_empty texts).

(** [typeof v === 'object' && v !== null] *)
Definition is_present_object (v : jsval) : bool := is_object v && negb (is_null v).

Definition resolveOllamaBaseUrl (channel : jsval) : str :=
  if negb (value_truthy channel) then []
  else
    let parsed := parseMaybeJSON (field channel "other_info") in
    first_given
      ([trim (string_or_empty (field channel "base_url")); trim (string_or_empty (field channel "ollama_base_url"))] ++
       if is_present_object parsed
       then map (fun k => trim (string_or_empty (get_field parsed k))) [js "base_url"; js "public_url"; js "api_url"]
       else []).

Definition is_number_value (v : jsval) : bool := match v with JNum _ => true | _ => false end.

(** A property is set when the condition holds and the object has no truthy one. *)
Definition put_missing (o : list (str * jsval)) (k : str) (set : bool) (v : jsval) : list (str * jsval) :=
  if set && negb (value_truthy (get_field (JObj o) k)) then obj_put o k v else o.

Definition put_metadata (metadata : jsval) (o : list (str * jsval)) : list (str * jsval) :=
  if is_present_object metadata then
    let size := field metadata "size" in
    let digest := string_or_empty (field metadata "digest") in
    let modified := string_or_empty (field metadata "modified_at") in
    let details := field metadata "details" in
    let o := put_missing o (js "size") (is_number_value size) size in
    let o := put_missing o (js "digest") (non_empty digest) (JStr digest) in
    let o := put_missing o (js "modified_at") (non_empty modified) (JStr modified) in
    put_missing o (js "details") (value_truthy details) details
  else o.

Definition normalize_item (item : jsval) : option jsval :=
  match item with
  | JStr [] => None
  | JStr s => Some (JObj [(js "id", JStr s); (js "owned_by", JStr (js "ollama"))])
  | JObj fields =>
      let candidateId := first_given (map (fun k => string_or_empty (get_field item k)) [js "id"; js "ID"; js "name"; js "model"; js "Model"]) in
      match candidateId with
      | [] => None
      | _ =>
          let metadata := value_coalesce (field item "metadata") (field item "Metadata") in
          let owner := first_given [string_or_empty (field item "owned_by"); string_or_empty (field item "ownedBy"); js "ollama"] in
          let normalized := obj_put (obj_put fields (js "id") (JStr candidateId)) (js "owned_by") (JStr owner) in
          let size := field item "size" in
          Some (JObj (put_metadata metadata (put_missing normalized (js "size") (is_number_value size) size)))
      end
  | _ => None
  end.

Definition normalizeOllamaModels (items : jsval) : list jsval := match items with JArr l => omap normalize_item l | _ => [] end.
