(* ===== verification/ChannelListsFacts.v ===== *)
(** * What the list of channels shows

    The rows of the table grouped by tag hold every channel once and summarise it;
    delayed updates of a cell lose no last value; the lists of missing models and of
    risky redirects are exact; deduplicated keys are the keys. *)

From Stdlib Require Import ZArith Lia Bool SpecFloat.
From stdpp Require Import base list numbers.
From S2P Require Import Prelude JsString JsNumber JsNumberOrder JsNumberExact JsObject JsMap JsRegex JsValue JsJson JsDynamic JsURL JsHost JsCoerce PlaygroundMessages ChannelForm ChannelLists.

(** ** Rows grouped by tag *)

Lemma map_set_twice {K V} `{EqDecision K} (m : list (K * V)) k v w : map_set (map_set m k v) k w = map_set m k w.
Proof.
  induction m as [| [a b] m IH]; cbn; [by rewrite bool_decide_eq_true_2 |].
  destruct (bool_decide (a = k)) eqn:B; cbn; rewrite B; [done |]. by rewrite IH.
Qed.

(** The loop is a grouping by tag, and lists the tags in the order they appear. *)
Lemma aggregate_group channels : forall t, map_keys (tagMap t) = tag_result t ->
  let t' := fold_left aggregate_step channels t in
  tagMap t' = group_loop tag_of new_row add_child channels (tagMap t) /\ tag_result t' = fold_left set_put (map tag_of channels) (tag_result t).
Proof.
  induction channels as [| c channels IH]; intros t K; [done |]. cbn [fold_left map group_loop].
  assert (tagMap (aggregate_step t c) = group_step tag_of new_row add_child (tagMap t) c /\
          tag_result (aggregate_step t c) = set_put (tag_result t) (tag_of c)) as [M R].
  { unfold aggregate_step, group_step, set_put. rewrite <- K. destruct (map_get (tagMap t) (tag_of c)) as [row |] eqn:G; cbn [default].
    - rewrite G. cbn [tagMap tag_result]. rewrite bool_decide_eq_true_2; [done |].
      apply map_get_elem in G. unfold map_keys. apply list_elem_of_In, in_map_iff. exists (tag_of c, row). by rewrite <- list_elem_of_In.
    - cbn [tagMap tag_result]. rewrite map_get_set, bool_decide_eq_true_2 by done. cbn [tagMap tag_result].
      rewrite map_set_twice. apply map_get_None in G. by rewrite bool_decide_eq_false_2. }
  destruct (IH (aggregate_step t c)) as [M' R'].
  { rewrite M, R. unfold group_step, set_put. rewrite map_set_keys, K. done. }
  cbn zeta in M', R'. rewrite M', R', M, R. done.
Qed.

(** A field of the row that each child updates by itself. *)
Lemma fold_field {S A B T} (f : S -> A -> S) (proj : S -> T) (upd : T -> B -> T) (part : A -> B) :
  (forall s a, proj (f s a) = upd (proj s) (part a)) ->
  forall l s, proj (fold_left f l s) = fold_left upd (map part l) (proj s).
Proof. intros E l. induction l as [| a l IH]; intros s; cbn; [done |]. by rewrite IH, E. Qed.

Lemma fold_constant {S A T} (f : S -> A -> S) (proj : S -> T) : (forall s a, proj (f s a) = proj s) ->
  forall l s, proj (fold_left f l s) = proj s.
Proof. intros E l. induction l as [| a l IH]; intros s; cbn; [done |]. by rewrite IH, E. Qed.

Lemma fold_children l : forall row, row_children (fold_left add_child l row) = row_children row ++ l.
Proof. induction l as [| c l IH]; intros row; cbn [fold_left]; [by rewrite app_nil_r |]. rewrite IH. cbn. by rewrite <- app_assoc. Qed.

Lemma fold_status l : forall s, fold_left add_status l (Some s) = Some (if existsb (fun n => num_eqb n (lit 1)) l then lit 1 else s).
Proof.
  induction l as [| n l IH]; intros s; [done |]. cbn [fold_left existsb]. unfold add_status at 2.
  destruct (num_eqb n (lit 1)); rewrite IH; [by destruct (existsb _ l) | done].
Qed.

Lemma fold_null l : fold_left agree_value l JNull = JNull.
Proof. induction l as [| v l IH]; [done |]. cbn [fold_left]. unfold agree_value at 2. cbn [strict_eq_primitive]. by destruct v. Qed.

Lemma fold_agree l v : strict_eq_primitive v (JNum minus_one) = false ->
  fold_left agree_value l v = if forallb (strict_eq_primitive v) l then v else JNull.
Proof.
  intros N. induction l as [| w l IH]; [done |]. cbn [fold_left forallb]. unfold agree_value at 2. rewrite N.
  destruct (strict_eq_primitive v w); cbn [negb andb]; [done | apply fold_null].
Qed.

(** *** Lists of groups *)

Lemma split_on_cut sep a b : forall cur, split_on sep cur (a ++ sep :: b) = split_on sep cur a ++ split_on sep [] b.
Proof.
  induction a as [| c a IH]; intros cur; cbn [app split_on]; [by rewrite N.eqb_refl |].
  destruct (c =? sep)%N; cbn [app]; by rewrite IH.
Qed.

Definition sep_free (sep : N) (s : str) : bool := forallb (fun c => negb (c =? sep)%N) s.

Lemma split_on_free sep s : forall cur, sep_free sep cur = true -> Forall (fun part => sep_free sep part = true) (split_on sep cur s).
Proof.
  induction s as [| c s IH]; intros cur F; cbn [split_on]; [by repeat constructor |].
  destruct (c =? sep)%N eqn:E; [constructor; [done | by apply IH] |].
  apply IH. unfold sep_free in *. rewrite forallb_app, F. cbn. by rewrite E.
Qed.

Lemma split_free sep s : sep_free sep s = true -> split_char sep s = [s].
Proof. intros F. unfold split_char. rewrite <- (app_nil_r s) at 1. by rewrite split_on_segment. Qed.

Lemma group_names_free group g : g ∈ group_names group -> sep_free 44%N g = true /\ non_empty g = true.
Proof.
  unfold group_names. rewrite list_elem_of_In, filter_In, <- list_elem_of_In. intros [E N]. split; [| done].
  pose proof (split_on_free 44%N group [] eq_refl) as F. rewrite list.Forall_forall in F. by apply F.
Qed.

Lemma group_names_snoc a g : sep_free 44%N g = true -> non_empty g = true -> group_names (a ++ js "," ++ g) = group_names a ++ [g].
Proof.
  intros F N. unfold group_names, split_char. change (js "," ++ g) with (44%N :: g). rewrite split_on_cut, List.filter_app.
  f_equal. change (split_on 44%N [] g) with (split_char 44%N g). rewrite split_free by done. cbn. by rewrite N.
Qed.

Lemma append_groups keep l : Forall (fun g => sep_free 44%N g = true /\ non_empty g = true) l -> forall acc,
  group_names (fold_left (fun acc g => if negb (includes_str keep g) then acc ++ js "," ++ g else acc) l acc) =
  group_names acc ++ List.filter (fun g => negb (includes_str keep g)) l.
Proof.
  induction 1 as [| g l [F N] _ IH]; intros acc; cbn [fold_left List.filter]; [by rewrite app_nil_r |]. rewrite IH.
  destruct (negb (includes_str keep g)); [| done]. by rewrite group_names_snoc, <- app_assoc.
Qed.

Lemma add_groups_names current group : current <> [] ->
  group_names (add_groups current group) =
  group_names current ++ List.filter (fun g => negb (includes_str (set_from (group_names current)) g)) (group_names group).
Proof.
  intros E. unfold add_groups. destruct current as [| c current]; [done |]. apply append_groups.
  apply list.Forall_forall. intros g. apply group_names_free.
Qed.

Lemma add_groups_elem current group g : g ∈ group_names (add_groups current group) <-> g ∈ group_names current \/ g ∈ group_names group.
Proof.
  destruct current as [| c current]; [cbn; split; [by right | intros [E | E]; [by apply elem_of_nil in E | done]] |].
  rewrite add_groups_names, elem_of_app by done. set (l := List.filter _ _).
  assert (g ∈ l <-> g ∈ group_names group /\ g ∉ group_names (c :: current)) as ->.
  { unfold l. rewrite list_elem_of_In, filter_In, <- list_elem_of_In, negb_true_iff, <- not_true_iff_false, includes_str_elem, set_from_elem. done. }
  split; [tauto |]. intros [? | ?]; [by left |]. destruct (decide (g ∈ group_names (c :: current))); tauto.
Qed.

Lemma add_groups_once current group : NoDup (group_names current) -> NoDup (group_names group) -> NoDup (group_names (add_groups current group)).
Proof.
  intros N M. destruct current as [| c current]; [done |]. rewrite add_groups_names by done. apply list.NoDup_app. split; [done |].
  split; [| by apply NoDup_ListNoDup, List.NoDup_filter, NoDup_ListNoDup].
  intros g G. rewrite list_elem_of_In, filter_In. intros [_ E]. apply negb_true_iff in E. rewrite <- not_true_iff_false in E.
  apply E. by apply includes_str_elem, set_from_elem.
Qed.

Lemma fold_groups l : forall current,
  (forall g, g ∈ group_names (fold_left add_groups l current) <-> g ∈ group_names current \/ exists group, group ∈ l /\ g ∈ group_names group) /\
  (NoDup (group_names current) -> Forall (fun group => NoDup (group_names group)) l -> NoDup (group_names (fold_left add_groups l current))).
Proof.
  induction l as [| a l IH]; intros current; cbn [fold_left].
  - split; [| done]. intros g. split; [by left |]. intros [? | (x & E & _)]; [done | by apply elem_of_nil in E].
  - destruct (IH (add_groups current a)) as [E N]. split.
    + intros g. rewrite E, add_groups_elem. setoid_rewrite elem_of_cons. naive_solver.
    + intros C F. inversion F; subst. apply N; [by apply add_groups_once | done].
Qed.

(** *** The summary of a row *)

Lemma forallb_over {A B} (f : A -> B) p l : forallb p (map f l) = forallb (fun a => p (f a)) l.
Proof. induction l as [| a l IH]; cbn; by rewrite ?IH. Qed.

Lemma existsb_over {A B} (f : A -> B) p l : existsb p (map f l) = existsb (fun a => p (f a)) l.
Proof. induction l as [| a l IH]; cbn; by rewrite ?IH. Qed.

(** What the values of the children have in common, null when they differ. *)
Definition common_value (value : Channel -> jsval) (first : Channel) (rest : list Channel) : jsval :=
  if forallb (fun c => strict_eq_primitive (value first) (value c)) rest then value first else JNull.

Definition is_set (v : jsval) : Prop := strict_eq_primitive v (JNum minus_one) = false.

Record summarises (row : TagRow) (first : Channel) (rest : list Channel) : Prop := {
  sum_children : row_children row = first :: rest;
  sum_status : row_status row = Some (if existsb isChannelEnabled (first :: rest) then lit 1 else ch_status first);
  sum_groups : forall g, g ∈ group_names (row_group row) <-> exists c, c ∈ first :: rest /\ g ∈ group_names (ch_group c);
  sum_groups_once : Forall (fun c => NoDup (group_names (ch_group c))) (first :: rest) -> NoDup (group_names (row_group row));
  sum_priority : is_set (ch_priority first) -> row_priority row = common_value ch_priority first rest;
  sum_weight : is_set (ch_weight first) -> row_weight row = common_value ch_weight first rest;
  sum_quota : forall quotas, map ch_used_quota (first :: rest) = map lit quotas -> Forall (Z.le 0) quotas -> (Z_sum quotas < 2 ^ 53)%Z ->
    row_used_quota row = lit (Z_sum quotas)
}.

Lemma agree_children value (proj : TagRow -> jsval) first rest :
  (forall row c, proj (add_child row c) = agree_value (proj row) (value c)) -> proj (new_row first) = JNum minus_one ->
  is_set (value first) -> proj (fold_left add_child (first :: rest) (new_row first)) = common_value value first rest.
Proof.
  intros E I S. rewrite (fold_field _ proj agree_value value E), I. cbn [map fold_left]. unfold agree_value at 2. cbn [strict_eq_primitive].
  replace (num_eqb minus_one minus_one) with true by (vm_compute; reflexivity). rewrite fold_agree by done. unfold common_value.
  by rewrite forallb_over.
Qed.

Lemma row_summarised first rest : summarises (fold_left add_child (first :: rest) (new_row first)) first rest.
Proof.
  constructor.
  - apply fold_children.
  - rewrite (fold_field add_child row_status add_status ch_status (fun _ _ => eq_refl)). cbn [map fold_left new_row row_status existsb].
    unfold add_status at 2, isChannelEnabled. destruct (num_eqb (ch_status first) (lit 1)); rewrite fold_status; cbn [orb];
      [by destruct (existsb _ _) |]. by rewrite existsb_over.
  - intros g. rewrite (fold_field add_child row_group add_groups ch_group (fun _ _ => eq_refl)), (proj1 (fold_groups _ _)). cbn [new_row row_group].
    split.
    + intros [E | (group & E & G)]; [by apply elem_of_nil in E |]. apply list_elem_of_In, in_map_iff in E as (c & <- & E).
      exists c. by rewrite list_elem_of_In.
    + intros (c & E & G). right. exists (ch_group c). split; [| done]. apply list_elem_of_In, in_map_iff. exists c. by rewrite <- list_elem_of_In.
  - intros F. rewrite (fold_field add_child row_group add_groups ch_group (fun _ _ => eq_refl)). apply (proj2 (fold_groups _ _)); [by constructor |].
    by apply List.Forall_map.
  - by apply agree_children.
  - by apply agree_children.
  - intros quotas E P B. rewrite (fold_field add_child row_used_quota num_add ch_used_quota (fun _ _ => eq_refl)), E. cbn [new_row row_used_quota].
    rewrite <- lit_zero. by apply sum_integers.
Qed.

(** C28: the table grouped by tag has one row per tag, in the order in which the tags
    first appear, and the children of a row are the channels of its tag, in their
    order.  A row is enabled when one of its channels is, and otherwise has the status
    of the first; its groups are those of its channels, each once when no channel
    repeats one; its quota is the sum of theirs (for whole amounts below 2^53); its
    priority and weight are the common value, or null when they differ, provided the
    first channel does not have the value -1, which stands for a row without one. *)
Theorem tag_rows_exact channels :
  map row_tag (aggregateChannelsByTag channels) = set_from (map tag_of channels) /\
  forall row, row ∈ aggregateChannelsByTag channels ->
    exists first rest, of_key tag_of (row_tag row) channels = first :: rest /\ summarises row first rest.
Proof.
  unfold aggregateChannelsByTag. destruct (aggregate_group channels (MkTagTable [] []) eq_refl) as [M R]. cbn zeta in *. cbn [tagMap tag_result] in *.
  change (fold_left set_put (map tag_of channels) []) with (set_from (map tag_of channels)) in R. rewrite R.
  set (m := tagMap _) in *. assert (forall tag row, map_get m tag = Some row ->
    exists first rest, of_key tag_of tag channels = first :: rest /\ row = fold_left add_child (first :: rest) (new_row first) /\ row_tag row = tag) as G.
  { intros tag row. rewrite M, group_loop_get. cbn [map_get]. destruct (of_key tag_of tag channels) as [| first rest] eqn:E; [done |].
    intros [= <-]. exists first, rest. split; [done |]. split; [done |].
    rewrite (fold_constant add_child row_tag) by done. cbn [fold_left add_child row_tag new_row].
    assert (first ∈ of_key tag_of tag channels) as H by (rewrite E; by left). by apply of_key_elem in H as [_ H]. }
  split.
  - assert (forall tag, tag ∈ set_from (map tag_of channels) -> exists row, map_get m tag = Some row /\ row_tag row = tag) as H.
    { intros tag E. rewrite set_from_elem in E. destruct (map_get m tag) as [row |] eqn:K; [exists row; split; [done |]; by destruct (G tag row K) as (? & ? & _ & _ & ?) |].
      exfalso. rewrite M in K. apply map_get_None in K. apply K.
      apply (proj2 (group_loop_keys tag_of new_row add_child channels [] NoDup_nil_2) tag). by right. }
    revert H. generalize (set_from (map tag_of channels)) as tags. induction tags as [| tag tags IH]; intros H; [done |].
    destruct (H tag (list_elem_of_here _ _)) as (row & K & T). cbn. rewrite K. cbn. rewrite T, IH; [done |]. intros x X. apply H. by right.
  - intros row E. apply list_elem_of_omap in E as (tag & _ & K). destruct (G tag row K) as (first & rest & O & -> & T).
    rewrite T. exists first, rest. split; [done | apply row_summarised].
Qed.

(** A channel of priority -1 is taken for a row without priority: two channels that
    differ share the priority of the second. *)
Definition plain_channel (id : Z) (priority : Z) : Channel :=
  MkChannel (lit id) (lit 1) (js "sk-1234") (lit 1) (js "channel") JNull num_zero num_zero num_zero num_zero num_zero [] (js "default")
    num_zero (JNum (lit priority)) (Some (js "eu")) None [].

Lemma minus_one_priority_lost :
  map row_priority (aggregateChannelsByTag [plain_channel 1 (-1); plain_channel 2 5]) = [JNum (lit 5)] /\
  map row_priority (aggregateChannelsByTag [plain_channel 2 5; plain_channel 1 (-1)]) = [JNull].
Proof. split; vm_compute; reflexivity. Qed.

(** The groups a single channel lists twice are listed twice. *)
Lemma repeated_group_kept : add_groups (js "a") (js "b,b") = js "a,b,b".
Proof. vm_compute; reflexivity. Qed.

(** ** Delayed updates *)

Definition scheduled (events : list FieldEvent) : list num := omap (fun e => match e with Schedule v => Some v | _ => None end) events.

(** The timer the scheduler knows is the only one the browser holds, and there is
    one as long as a value waits. *)
Record timer_settled (s : FieldScheduler) : Prop := {
  timer_live : live_timers s = option_list (timeoutId s);
  timer_pending : timeoutId s = None <-> pendingValue s = None
}.

Lemma clear_settled s : timer_settled s ->
  clearPendingTimer s = MkFieldScheduler None (pendingValue s) [] (next_timer s) (field_updates s).
Proof.
  intros [L _]. unfold clearPendingTimer. destruct s as [[id |] p live next ups]; cbn in *; subst live; [| done].
  unfold clear_timeout. cbn. by rewrite Nat.eqb_refl.
Qed.

Lemma commit_settled s : timer_settled s ->
  commitPendingValue s = MkFieldScheduler None None [] (next_timer s) (field_updates s ++ option_list (pendingValue s)).
Proof.
  intros S. unfold commitPendingValue. rewrite clear_settled by done. cbn.
  destruct (pendingValue s) as [v |] eqn:P; cbn; [done | by rewrite app_nil_r].
Qed.

(** A timer that fires does what leaving the cell does. *)
Lemma fire_settled s id : timer_settled s -> field_step s (TimerFires id) = if bool_decide (timeoutId s = Some id) then field_step s Flush else s.
Proof.
  intros S. cbn [field_step]. rewrite (commit_settled s S). destruct s as [t p live next ups], S as [L P]. cbn in *. subst live.
  destruct t as [t |]; cbn; [| done]. rewrite orb_false_r. destruct (id =? t) eqn:E.
  - apply Nat.eqb_eq in E as ->. rewrite bool_decide_eq_true_2 by done. unfold commitPendingValue, clearPendingTimer, clear_timeout. cbn.
    rewrite Nat.eqb_refl. cbn. destruct p; cbn; [done | by rewrite app_nil_r].
  - apply Nat.eqb_neq in E. rewrite bool_decide_eq_false_2; [done | congruence].
Qed.

Lemma step_settled s e : timer_settled s -> timer_settled (field_step s e).
Proof.
  intros S. destruct e as [v | | id].
  - cbn [field_step]. unfold schedule. rewrite clear_settled by done. by split.
  - cbn [field_step]. rewrite commit_settled by done. by split.
  - rewrite fire_settled by done. destruct (bool_decide _); [| done]. cbn [field_step]. rewrite commit_settled by done. by split.
Qed.

Lemma run_settled events : timer_settled (field_run events).
Proof.
  induction events as [| e events IH] using rev_ind; [by split |].
  unfold field_run. rewrite fold_left_app. by apply step_settled.
Qed.

(** The values sent and the one that waits. *)
Definition kept_values (s : FieldScheduler) : list num := field_updates s ++ option_list (pendingValue s).

Lemma step_kept s e : timer_settled s ->
  kept_values (field_step s e) = match e with Schedule v => field_updates s ++ [v] | _ => kept_values s end.
Proof.
  intros S. unfold kept_values. destruct e as [v | | id].
  - cbn [field_step]. unfold schedule. by rewrite clear_settled.
  - cbn [field_step]. rewrite commit_settled by done. cbn. by rewrite app_nil_r.
  - rewrite fire_settled by done. destruct (bool_decide _); [| done]. cbn [field_step]. rewrite commit_settled by done. cbn. by rewrite app_nil_r.
Qed.

(** C40: However the user types, leaves the cell and the timers fire, the values sent
    to the server, followed by the one that waits, are among the values typed, in
    their order, and end with the last one typed: a value is dropped only for a later
    one.  While a value waits, exactly one timer is set, and when it fires (or the
    cell is left) that value is sent, once; while none waits, no timer is set. *)
Theorem last_value_sent events :
  let s := field_run events in
  kept_values s `sublist_of` scheduled events /\ list.last (kept_values s) = list.last (scheduled events) /\
  (forall v, pendingValue s = Some v -> exists id, live_timers s = [id] /\
     field_step s (TimerFires id) = field_step s Flush /\
     field_step s Flush = MkFieldScheduler None None [] (next_timer s) (field_updates s ++ [v])) /\
  (pendingValue s = None -> live_timers s = [] /\ forall id, field_step s (TimerFires id) = s).
Proof.
  cbn zeta. pose proof (run_settled events) as S. split; [| split; [| split]].
  - clear S. induction events as [| e events IH] using rev_ind; [done |]. pose proof (run_settled events) as S.
    unfold field_run in *. rewrite fold_left_app. cbn [fold_left]. unfold scheduled. rewrite omap_app. rewrite step_kept by done.
    destruct e as [v | | id]; cbn; rewrite ?app_nil_r; [| done | done]. apply sublist_app; [| done].
    etransitivity; [| exact IH]. unfold kept_values. by apply sublist_inserts_r.
  - clear S. induction events as [| e events IH] using rev_ind; [done |]. pose proof (run_settled events) as S.
    unfold field_run in *. rewrite fold_left_app. cbn [fold_left]. unfold scheduled. rewrite omap_app. rewrite step_kept by done.
    destruct e as [v | | id]; cbn; rewrite ?app_nil_r; [| done | done]. by rewrite !last_snoc.
  - intros v E. destruct (timeoutId (field_run events)) as [id |] eqn:T.
    + exists id. rewrite (timer_live _ S), T. split; [done |]. rewrite fire_settled, T, bool_decide_eq_true_2 by done.
      split; [done |]. cbn [field_step]. by rewrite commit_settled, E.
    + apply (timer_pending _ S) in T. congruence.
  - intros E. apply (timer_pending _ S) in E. rewrite (timer_live _ S), E. split; [done |]. intros id. by rewrite fire_settled, E.
Qed.

(** ** Redirected status codes *)

(** The text redirects one code to another. *)
Definition redirects (text : str) (from to : Z) : Prop :=
  exists e, e ∈ status_mapping text /\ parseStatusCodeKey e.1 = Some from /\ parseStatusCodeMappingTarget e.2 = Some to.

Definition risky (from to : Z) : Prop := (from = 504 \/ from = 524)%Z /\ from <> to.

Lemma risky_redirect_spec e from to :
  risky_redirect e = Some (from, to) <-> parseStatusCodeKey e.1 = Some from /\ parseStatusCodeMappingTarget e.2 = Some to /\ risky from to.
Proof.
  unfold risky_redirect, risky. destruct (parseStatusCodeKey e.1) as [a |]; [| naive_solver].
  destruct (parseStatusCodeMappingTarget e.2) as [b |]; [| naive_solver]. cbn [NON_REDIRECTABLE_STATUS_CODES existsb].
  destruct (a =? 504)%Z eqn:A, (a =? 524)%Z eqn:B, (a =? b)%Z eqn:C; cbn;
    rewrite ?Z.eqb_eq, ?Z.eqb_neq in *; naive_solver.
Qed.

Lemma status_digits_bounds s z : status_digits s = Some z -> (0 <= z)%Z.
Proof. unfold status_digits. destruct s as [| a [| b [| c [| ? ?]]]]; try done. destruct (_ && _); [| done]. intros [= <-]. lia. Qed.

Lemma target_nonneg v z : parseStatusCodeMappingTarget v = Some z -> (0 <= z)%Z.
Proof.
  unfold parseStatusCodeMappingTarget. destruct v; try done.
  - destruct (is_integer n) eqn:I; [| done]. destruct (num_leb (lit 100) n) eqn:A; [| done]. cbn [andb]. destruct (num_leb n (lit 599)); [| done].
    clear I. destruct n as [| | | [] m e]; cbn [num_to_Z]; intros [= <-]; try done.
    unfold trunc_abs. destruct (e <? 0)%Z eqn:E; [apply Z.div_pos; [lia | apply Z.pow_pos_nonneg; lia] | apply Z.mul_nonneg_nonneg; lia].
  - destruct (status_digits (trim s)) as [code |] eqn:E; [| done]. destruct (_ && _); [| done]. intros [= <-]. by eapply status_digits_bounds.
Qed.

(** A text names one redirect. *)
Lemma redirect_text_inj a b a' b' : (a = 504 \/ a = 524)%Z -> (a' = 504 \/ a' = 524)%Z -> (0 <= b)%Z -> (0 <= b')%Z ->
  redirect_text a b = redirect_text a' b' -> a = a' /\ b = b'.
Proof.
  intros A A' B B' E. assert (a = a') as <-.
  { destruct A as [-> | ->], A' as [-> | ->]; try done; exfalso; apply (f_equal (fun s => s !! 1)) in E; vm_compute in E; done. }
  split; [done |]. unfold redirect_text in E. apply app_inv_head in E. apply app_inv_head in E.
  apply (f_equal (digits_value 0)) in E. unfold code_name in E. rewrite !digits_value_string_of_N in E. lia.
Qed.

Lemma disallowed_elem text r :
  r ∈ collectDisallowedStatusCodeRedirects text <-> exists from to, redirects text from to /\ risky from to /\ r = redirect_text from to.
Proof.
  unfold collectDisallowedStatusCodeRedirects, sort_texts. rewrite sort_by_perm, set_from_elem, list_elem_of_In, in_map_iff. split.
  - intros ([from to] & <- & E). apply list_elem_of_In, list_elem_of_omap in E as (e & M & R). apply risky_redirect_spec in R as (K & T & R).
    exists from, to. split; [by exists e | done].
  - intros (from & to & (e & M & K & T) & R & ->). exists (from, to). split; [done |]. apply list_elem_of_In, list_elem_of_omap. exists e.
    split; [done | by apply risky_redirect_spec].
Qed.

(** What is asked about before a form is saved are exactly the redirects of 504 and
    524 to another code that the saved text has and the text before had not. *)
Theorem new_redirects_exact original current r :
  r ∈ collectNewDisallowedStatusCodeRedirects original current <->
  exists from to, redirects current from to /\ risky from to /\ ~ redirects original from to /\ r = redirect_text from to.
Proof.
  unfold collectNewDisallowedStatusCodeRedirects. set (cur := collectDisallowedStatusCodeRedirects current).
  transitivity (r ∈ cur /\ r ∉ collectDisallowedStatusCodeRedirects original).
  - destruct (length cur =? 0) eqn:L.
    + destruct cur; [| done]. split; [intros E; by apply elem_of_nil in E | intros [E _]; by apply elem_of_nil in E].
    + rewrite list_elem_of_In, filter_In, <- list_elem_of_In, negb_true_iff, <- not_true_iff_false, includes_str_elem, set_from_elem. done.
  - unfold cur. rewrite !disallowed_elem. split.
    + intros [(from & to & D & R & ->) N]. exists from, to. repeat split; try done; try apply R. intros O. apply N. by exists from, to.
    + intros (from & to & D & R & N & ->). split; [by exists from, to |]. intros (from' & to' & D' & R' & E).
      destruct (redirect_text_inj from to from' to') as [-> ->]; [apply R | apply R' | | | done | done];
        [destruct D as (e & _ & _ & T) | destruct D' as (e & _ & _ & T)]; by eapply target_nonneg.
Qed.

(** ** Missing models *)

Lemma mapping_entries_spec text fields : mapping_entries text = Some fields <-> json_parse text = Ok (JObj fields).
Proof. unfold mapping_entries. destruct (json_parse text) as [v | |]; try (split; congruence). destruct v; split; congruence. Qed.

(** The models to add are the names the mapping redirects from that are not listed,
    both trimmed, each once. *)
Theorem missing_models_exact mapping models :
  NoDup (findMissingModelsInMapping mapping models) /\
  forall m, m ∈ findMissingModelsInMapping mapping models <->
    trim mapping <> [] /\ m <> [] /\ m ∉ map trim models /\
    exists fields v k, json_parse mapping = Ok (JObj fields) /\ (k, v) ∈ fields /\ trim k = m.
Proof.
  unfold findMissingModelsInMapping. destruct (trim mapping) as [| c t].
  { split; [constructor |]. intros m. split; [intros E; by apply elem_of_nil in E | naive_solver]. }
  destruct (mapping_entries mapping) as [fields |] eqn:M.
  - split; [apply set_from_NoDup |]. intros m. apply mapping_entries_spec in M.
    rewrite set_from_elem, list_elem_of_In, filter_In, in_map_iff, andb_true_iff, negb_true_iff, <- not_true_iff_false, includes_str_elem, set_from_elem.
    unfold normalizeModelName. split.
    + intros (([k v] & <- & E) & N & L). cbn in N, L |- *. split; [done |]. split; [by intros Z; rewrite Z in N |]. split; [done |].
      exists fields, v, k. by rewrite list_elem_of_In.
    + intros (_ & N & L & fields' & v & k & P & E & <-). rewrite M in P. injection P as <-. split; [exists (k, v); by rewrite <- list_elem_of_In |].
      by destruct (trim k).
  - split; [constructor |]. intros m. split; [intros E; by apply elem_of_nil in E |].
    intros (_ & _ & _ & fields & v & k & P & _). apply mapping_entries_spec in P. congruence.
Qed.

(** ** Keys *)

Lemma keep_lines lines : forall kept, NoDup kept ->
  NoDup (fold_left keep_line lines kept) /\
  forall k, k ∈ fold_left keep_line lines kept <-> k ∈ kept \/ k <> [] /\ k ∈ map trim lines.
Proof.
  induction lines as [| l lines IH]; intros kept N; cbn [fold_left map].
  - split; [done |]. intros k. split; [by left |]. intros [? | [_ E]]; [done | by apply elem_of_nil in E].
  - destruct (non_empty (trim l) && negb (includes_str kept (trim l))) eqn:B.
    + assert (keep_line kept l = kept ++ [trim l]) as -> by (unfold keep_line; by rewrite B).
      apply andb_true_iff in B as [B C]. apply negb_true_iff in C. rewrite <- not_true_iff_false, includes_str_elem in C.
      destruct (IH (kept ++ [trim l])) as [N' E].
      { apply list.NoDup_app. split; [done |]. split; [by intros x X ->%list_elem_of_singleton | apply NoDup_singleton]. }
      split; [done |]. intros k. rewrite E, elem_of_app, list_elem_of_singleton, elem_of_cons.
      destruct (trim l); [done |]. naive_solver.
    + assert (keep_line kept l = kept) as -> by (unfold keep_line; by rewrite B). destruct (IH kept N) as [N' E]. split; [done |].
      intros k. rewrite E, elem_of_cons. apply andb_false_iff in B as [B | B].
      * destruct (trim l); [| done]. naive_solver.
      * apply negb_false_iff, includes_str_elem in B. naive_solver.
Qed.

(** Lines that are distinct, trimmed and not empty are all kept. *)
Lemma keep_distinct lines : forall kept, NoDup (kept ++ lines) -> Forall (fun l => trim l = l /\ l <> []) lines -> fold_left keep_line lines kept = kept ++ lines.
Proof.
  induction lines as [| l lines IH]; intros kept N F; cbn [fold_left]; [by rewrite app_nil_r |]. inversion F as [| ? ? [T E] F']; subst.
  rewrite cons_middle, app_assoc in N |- *. unfold keep_line at 2. rewrite T. replace (non_empty l) with true by by destruct l.
  replace (includes_str kept l) with false; [by apply IH |]. symmetry. apply not_true_iff_false. rewrite includes_str_elem. intros I.
  apply list.NoDup_app in N as (N & _ & _). apply list.NoDup_app in N as (_ & N & _). apply (N l I). by left.
Qed.

Lemma drop_while_elem p (s : str) x : x ∈ drop_while p s -> x ∈ s.
Proof. induction s as [| y s IH]; [done |]. cbn. destruct (p y); [intros; right; by apply IH | done]. Qed.

Lemma trim_elem s x : x ∈ trim s -> x ∈ s.
Proof. unfold trim, trim_end, trim_start. rewrite elem_of_reverse. intros E%drop_while_elem. rewrite elem_of_reverse in E. by apply drop_while_elem in E. Qed.

Lemma sep_free_trim sep s : sep_free sep s = true -> sep_free sep (trim s) = true.
Proof.
  unfold sep_free. rewrite !forallb_forall. intros F c C. apply F. apply list_elem_of_In, trim_elem, list_elem_of_In, C.
Qed.

Lemma trim_blank s : trim s = [] <-> forallb is_space s = true.
Proof.
  split.
  - intros E. destruct (trim_spec s) as (a & b & -> & A & B). rewrite E. cbn. by rewrite forallb_app, A, B.
  - intros B. unfold trim, trim_start. replace (drop_while is_space s) with (@nil N); [done |]. induction s as [| c s IH]; [done |].
    cbn in B |- *. apply andb_true_iff in B as [-> B]. by apply IH.
Qed.

Lemma split_on_elem sep s part x : forall cur, part ∈ split_on sep cur s -> x ∈ part -> x ∈ cur \/ x ∈ s.
Proof.
  induction s as [| c s IH]; intros cur; cbn [split_on]; [intros ->%list_elem_of_singleton; by left |].
  destruct (c =? sep)%N.
  - rewrite elem_of_cons. intros [-> | E] X; [by left |]. destruct (IH _ E X) as [F | ?]; [by apply elem_of_nil in F | right; by right].
  - intros E X. destruct (IH _ E X) as [F | ?]; [| right; by right]. apply elem_of_app in F as [? | ->%list_elem_of_singleton]; [by left | right; by left].
Qed.

Lemma blank_lines text l : trim text = [] -> l ∈ split_char newline text -> trim l = [].
Proof.
  rewrite !trim_blank, !forallb_forall. intros B L x X. apply B. apply list_elem_of_In. rewrite <- list_elem_of_In in X.
  by destruct (split_on_elem _ _ _ _ _ L X) as [F%elem_of_nil | ?].
Qed.

(** The lines that are kept. *)
Definition kept_keys (text : str) : list str := fold_left keep_line (split_char newline text) [].

Lemma kept_keys_elem text k : k ∈ kept_keys text <-> k <> [] /\ k ∈ map trim (split_char newline text).
Proof.
  unfold kept_keys. rewrite (proj2 (keep_lines _ [] NoDup_nil_2)). split; [| by right]. intros [E | ?]; [by apply elem_of_nil in E | done].
Qed.

Lemma kept_keys_clean text : Forall (fun l => trim l = l /\ l <> [] /\ sep_free newline l = true) (kept_keys text).
Proof.
  apply list.Forall_forall. intros k E. apply kept_keys_elem in E as [N E]. apply list_elem_of_In, in_map_iff in E as (l & <- & L).
  split; [apply trim_idemp |]. split; [done |]. apply sep_free_trim.
  pose proof (split_on_free newline text [] eq_refl) as F. rewrite list.Forall_forall in F. apply F. by apply list_elem_of_In.
Qed.

Lemma kept_keys_blank text : trim text = [] -> kept_keys text = [].
Proof.
  intros B. destruct (kept_keys text) as [| k l] eqn:E; [done |]. exfalso.
  assert (k ∈ kept_keys text) as K by (rewrite E; by left). apply kept_keys_elem in K as [N K].
  apply list_elem_of_In, in_map_iff in K as (x & <- & X). apply N. apply (blank_lines text); [done | by apply list_elem_of_In].
Qed.

Lemma deduplicated_fields text :
  deduplicatedText (deduplicateKeys text) = join [newline] (kept_keys text) /\ afterCount (deduplicateKeys text) = length (kept_keys text).
Proof. unfold deduplicateKeys. destruct (trim text) eqn:T; [by rewrite kept_keys_blank | done]. Qed.

(** The kept lines are the lines of the text they are joined to. *)
Lemma kept_keys_lines text : kept_keys text <> [] ->
  split_char newline (join [newline] (kept_keys text)) = kept_keys text /\ trim (join [newline] (kept_keys text)) <> [].
Proof.
  pose proof (kept_keys_clean text) as C. intros N. split.
  - apply split_join; [done |]. eapply list.Forall_impl; [exact C |]. by intros l (_ & _ & F).
  - destruct (kept_keys text) as [| k l]; [done |]. inversion C as [| ? ? (T & K & _) _]; subst. rewrite trim_blank. intros B.
    apply K. rewrite <- T. apply trim_blank. destruct l as [| l2 l]; [done |]. cbn [join] in B. rewrite forallb_app in B. by apply andb_true_iff in B as [B _].
Qed.

(** Removing duplicates keeps exactly the keys, each once; what is left has no
    duplicates to remove. *)
Theorem deduplicated_keys text :
  let d := deduplicateKeys text in
  exists keys, deduplicatedText d = join [newline] keys /\ afterCount d = length keys /\ NoDup keys /\
    (forall k, k ∈ keys <-> k <> [] /\ k ∈ map trim (split_char newline text)) /\
    deduplicatedText (deduplicateKeys (deduplicatedText d)) = deduplicatedText d /\
    removedCount (deduplicateKeys (deduplicatedText d)) = 0.
Proof.
  cbn zeta. destruct (deduplicated_fields text) as [-> ->]. exists (kept_keys text). split; [done |]. split; [done |].
  assert (NoDup (kept_keys text)) as N by apply (keep_lines _ [] NoDup_nil_2). split; [done |]. split; [apply kept_keys_elem |].
  destruct (decide (kept_keys text = [])) as [-> | E]; [done |]. destruct (kept_keys_lines text E) as [L T]. rewrite (proj1 (deduplicated_fields _)).
  assert (kept_keys (join [newline] (kept_keys text)) = kept_keys text) as K.
  { unfold kept_keys at 1. rewrite L, keep_distinct; [done | done |]. eapply list.Forall_impl; [apply kept_keys_clean |]. naive_solver. }
  rewrite K. split; [done |]. unfold deduplicateKeys. destruct (trim (join _ _)) eqn:Z; [done |]. cbn [removedCount].
  fold (kept_keys (join [newline] (kept_keys text))). rewrite K, L. lia.
Qed.

(** A key of at most eight characters is shown whole. *)
Lemma short_key_shown : formatChannelKey (js "secret") false = js "secr...cret" /\ formatChannelKey (js "key") false = js "key...key".
Proof. split; vm_compute; reflexivity. Qed.

(** ** Warnings and addresses *)

(** A channel has a warning exactly when there is a reason to show. *)
Lemma attention_has_reason channel : channelNeedsAttention channel = true <-> is_Some (getAttentionReason channel).
Proof.
  unfold channelNeedsAttention, getAttentionReason. repeat (case_match; [by eauto |]). split; [done | by intros [? ?]].
Qed.

(** An address the administrator typed, other than the default of the plugin bound
    before, survives the change of the plugin; otherwise the field has the default of
    the new plugin, up to surrounding spaces and trailing slashes. *)
Theorem typed_address_survives current previous next : next <> [] ->
  let field := match nextTaskPluginBaseUrl (Some current) previous (Some next) with Some s => s | None => current end in
  if non_empty (normalizeBaseUrlValue (Some current)) && negb (str_eqb (normalizeBaseUrlValue (Some current)) (normalizeBaseUrlValue previous))
  then field = current
  else normalizeBaseUrlValue (Some field) = normalizeBaseUrlValue (Some next).
Proof.
  intros N. unfold nextTaskPluginBaseUrl. destruct next as [| c next]; [done |]. cbn zeta.
  destruct (non_empty _ && _); [done |]. destruct (str_eqb _ (normalizeBaseUrlValue (Some (c :: next)))) eqn:E; [by apply str_eqb_eq | done].
Qed.

(** Hosts in the private ranges and the border cases around them. *)
Example private_hosts :
  map private_pattern [js "172.16.0.1"; js "172.31.9.9"; js "100.64.0.1"; js "100.127.1.1"; js "[::1]"; js "[fd12:3456::1]"; js "nas.local"] =
    [true; true; true; true; true; true; true] /\
  map private_pattern [js "172.15.0.1"; js "172.32.0.1"; js "100.63.0.1"; js "100.128.0.1"; js "110.0.0.1"; js "[fe81::1]"; js "local.example.com"] =
    [false; false; false; false; false; false; false].
Proof. split; vm_compute; reflexivity. Qed.

(** ** Models of an Ollama server *)

Lemma put_missing_get o k set v j : k <> j -> get_field (JObj (put_missing o k set v)) j = get_field (JObj o) j.
Proof.
  intros N. unfold put_missing. destruct (set && _); [| done]. rewrite get_obj_put.
  destruct (str_eqb k j) eqn:E; [by apply str_eqb_eq in E | done].
Qed.

Definition completed_keys : list str := [js "size"; js "digest"; js "modified_at"; js "details"].

Lemma put_metadata_get metadata o k : k ∉ completed_keys -> get_field (JObj (put_metadata metadata o)) k = get_field (JObj o) k.
Proof.
  unfold completed_keys. rewrite !not_elem_of_cons. intros (A & B & C & D & _). unfold put_metadata.
  destruct (is_present_object metadata); [| done]. cbn zeta. by rewrite !put_missing_get.
Qed.

Lemma first_given_given texts t : t ∈ texts -> t <> [] -> first_given texts <> [].
Proof.
  intros E N. unfold first_given. destruct (List.find non_empty texts) as [s |] eqn:F.
  - apply List.find_some in F as [_ F]. by destruct s.
  - exfalso. apply list_elem_of_In, (List.find_none _ _ F) in E. by destruct t.
Qed.

(** A model listed by the server has a name and an owner; what the server says of it
    is kept, but for the properties that are completed. *)
Theorem ollama_models_named items model : model ∈ normalizeOllamaModels items ->
  exists l item, items = JArr l /\ item ∈ l /\
  (exists id owner, field model "id" = JStr id /\ id <> [] /\ field model "owned_by" = JStr owner /\ owner <> []) /\
  forall fields k, item = JObj fields -> k ∉ js "id" :: js "owned_by" :: completed_keys -> get_field model k = get_field item k.
Proof.
  destruct items as [| | | | | l |]; try by intros ?%elem_of_nil. cbn [normalizeOllamaModels]. rewrite list_elem_of_omap. intros (item & L & E).
  exists l, item. split; [done |]. split; [done |]. clear L. destruct item as [| | | | s | | fields]; try done.
  - destruct s as [| c s]; [done |]. injection E as <-. split; [| done]. by exists (c :: s), (js "ollama").
  - unfold normalize_item in E. destruct (first_given (map _ _)) as [| c id] eqn:I; [done |]. injection E as <-. split.
    + eexists (c :: id), _. rewrite !put_metadata_get, !put_missing_get, !get_obj_put by (done || (apply (bool_decide_unpack _); vm_compute; done)).
      split; [reflexivity |]. split; [done |]. split; [reflexivity |]. apply (first_given_given _ (js "ollama")); [| done]. right. right. by left.
    + intros fields' k [= <-] N. rewrite !not_elem_of_cons in N. destruct N as (A & B & N).
      rewrite put_metadata_get by done. rewrite put_missing_get by (intros <-; apply N; by left). rewrite !get_obj_put.
      assert (forall j, k <> j -> str_eqb j k = false) as D by (intros j J; apply not_true_iff_false; rewrite str_eqb_eq; congruence).
      by rewrite !D.
Qed.
